(* ===== verification/_CoqProject ===== *)
-Q . S2P
Prelude.v
ReplayWindow.v
GoIO.v
GoNet.v
Frame.v
Datagrams.v
FrameStream.v
ResponseReplay.v
Icmp.v
Target.v
Crypto.v
Address.v
RawHandshake.v
RawOpen.v
Records.v
RawStream.v
H1Session.v
PlainUDP.v
Socks5.v
Encoding.v
Auth.v
Heap.v
ReplayCache.v
ReplayRuns.v
Ring.v
BufPipe.v
SenderQueue.v
UdpReplay.v
UdpBudget.v
UdpRoutes.v
UdpRouteRuns.v
StreamServer.v
StreamAdmission.v
HttpServer.v
HttpSession.v
H1Chunked.v
UdpRelay.v
UdpRelayInv.v
UdpRelayRuns.v
PacketConn.v
PacketConnRuns.v
UdpAssociation.v
Relay.v
RawLifecycle.v
PlainUDPClient.v
ReadDeadline.v
H2Streams.v
VirtualConn.v
VirtualConnRuns.v
Prober.v
H3Manager.v
H3ManagerRuns.v
PlainUDPServer.v
PlainUDPRuns.v
PlainUDPReplay.v
ConnioWriter.v
ConnioWriterRuns.v
ConnioReader.v
ConnioReaderRuns.v
Pool.v
Autoscaler.v
