(* ===== verification/Prelude.v ===== *)
(** * Chitanda: a verification development

    Chitanda carries TCP streams and UDP datagrams of a local proxy (SOCKS5, an
    Xray or a mihomo core) to a server over one of several transports: HTTP/2 and
    HTTP/3 behind a real web site, HTTP/1.1 with an encrypted body, an encrypted
    raw TCP stream, and encrypted plain UDP.  The server authenticates a request,
    refuses replays, dials public targets only, and relays.  This library models
    the program's own logic, function by function, and proves what makes it
    correct.  All paths below are under src/.

    ** Conventions

    A Go function is a Coq function of the same name; a method takes its receiver
    as an argument and returns it changed.  Errors are values of [error], fallible
    calls return [result], a panic or a nil dereference is a value of its own
    where it could happen.  Integers are [Z] with [u8] ... [u64] where the code
    wraps; bytes are [Byte.byte], strings and slices lists of them; times are
    nanoseconds.  The outside is an argument: what a [Read] returns is a schedule
    ([GoIO]), so that a theorem over all schedules holds for every fragmentation
    and every deadline; dialers, resolvers, random sources and clocks are
    parameters.  Goroutines are steps: a state holds the point each goroutine has
    reached, a step is one critical section, one [select], one atomic operation
    that others can see, or one call of the outside, and a run is any sequence of
    steps; a theorem about runs holds for every interleaving.  A condition variable
    counts its broadcasts: a waiting call goes on only after one it has not seen.
    Clock readings come with the steps; where a theorem needs them in order, it
    says so.  Shared objects live in lists and are referred to by position, as the
    code refers to them by pointer.  What a state records only for the theorems
    (what was sent, read, dropped, when) is read by no operation.

    ** Parts, files and sources

    Libraries of the language: [GoIO] (io), [GoNet] (strconv, net), [Encoding]
    (base64, hex, strings), [Heap] (container/heap), [Ring] (ring buffers);
    [Crypto] is the interface of the primitives: HMAC and the AEADs as functions
    with their documented laws.

    Framing of streams over HTTP/2 and HTTP/3 (internal/frame): [ReplayWindow] (the
    sequence window of datagrams, refining the set of numbers seen), [Frame]
    (headers, frames, datagrams), [FrameStream] (StreamReader and StreamWriter
    against a reference parser), [Datagrams] (shared facts).

    Egress and ICMP: [Target] (internal/target: the policy equals a list of CIDR
    ranges), [Icmp] (internal/icmpmsg).

    Raw streams (internal/rawstream): [Address], [RawHandshake] (hellos and keys),
    [RawOpen] (0-RTT open frame), [Records] (sealed records, shared), [RawStream].
    HTTP/1.1 sessions: [H1Session] (internal/h1session).  Plain UDP packets:
    [PlainUDP], [ResponseReplay] (internal/plainudp).  SOCKS5: [Socks5]
    (internal/socks5).

    Authentication (pkg/auth): [Auth] (transcript, signature, Verify),
    [ReplayCache] and [ReplayRuns] (nonces in memory and on disk, group commit,
    compaction, crashes and restarts; durability under any crash and any clock;
    the wake-ups of the callers that wait for a commit).

    Server (pkg/server): [HttpServer] and [HttpSession] (server.go, the dispatch of
    http3.go, serveFallback; the copy of each direction of a tunnel, and how the
    connection to the target is ended after the upload), [UdpRelay], [UdpRelayInv] and [UdpRelayRuns] (the UDP
    association of http3.go), [StreamServer] and [StreamAdmission]
    (stream_server.go), [PlainUDPServer], [PlainUDPRuns] and [PlainUDPReplay]
    (plain_udp.go), [UdpBudget] (udp_budget.go), [UdpReplay]
    (udp_replay_persistent.go and the registry of the Xray inbound), [Relay]
    (relay.go).

    Client (pkg/client): [BufPipe] (bufpipe.go), [H1Chunked] (conn_h1.go),
    [PacketConn] and [PacketConnRuns] (the packet connection of conn_udp.go and the
    addresses of client.go), [H3Manager] and [H3ManagerRuns] (the connections of
    conn_udp.go), [H2Streams] (conn_tcp.go), [PlainUDPClient] (conn_plain_udp.go),
    [RawLifecycle] (lifecycle_raw.go and the raw transports of client.go),
    [Prober] (prober.go), [Pool] (scaler.go and the pools of
    client.go), [Autoscaler] (pkg/plugin/autoscaler).  [UdpAssociation] puts the
    client's and the server's end of a UDP association together.

    Deadlines for blocking connections (pkg/connio): [ConnioWriter] and
    [ConnioWriterRuns], [ConnioReader] and [ConnioReaderRuns].

    Integrations: [UdpRoutes] and [UdpRouteRuns] (integration/xray/udp_routes.go),
    [VirtualConn] and [VirtualConnRuns] (the packet connection below HTTP/3 of
    integration/xray/inbound.go), [SenderQueue]
    (integration/mihomo_tunnel/chitanda_sender_queue.go; each access to the byte
    budget that the queues share is a step of its own),
    [ReadDeadline] (integration/mihomo/chitanda_deadline.go).

    ** Interfaces

    [Crypto] (cipher laws), [Records.RecordLayer] (a cipher as a record layer,
    with two instances), the class of [UdpReplay] for what a session asks of a
    replay cache, and [Autoscaler.PoolController] (discharged by [Pool]) are
    type classes: clients are proved against them.

    ** What the theorems show

    - Replay: the windows of datagrams and responses never accept a number or an
      identity twice and refuse nothing within their range (refinements of sets).
      The replay cache does not accept a nonce again before some reading of the
      clock has reached its expiry, across restarts and crashes and for readings in
      any order; the raw stream server inherits it.  The windows of the plain UDP
      server do so as long as the clock is not set back.
    - Streams: readers compute a reference parser under every fragmentation;
      what was written is read, in order, up to a clean end; a changed, cut or
      reordered wire is never delivered.
    - The gate: a tunnel opens only for a fresh, correctly signed request, every
      other request reaches the fallback site or silence; what the site is shown of
      it is stated header by header.
    - Egress: only public unicast addresses are dialled.
    - Concurrency: no panic, no leaked socket or reservation, bounded tables and
      memory, no lost wake-up, no double delivery, for all interleavings.
    - End to end: handshakes agree, sessions carry bytes, an association carries
      each datagram at most once in both directions, each answer from a datagram of
      its own that a target sent.

    ** Bounds and fuel

    Loops over data recurse on the data; loops over input recurse on the schedule
    of the input; [Heap], [GoNet] and [H1Chunked] loops carry fuel equal to the
    length of what they consume, and lemmas show that it suffices.  Counters of 64
    bits are proved free of collisions below 2^64 uses; where a theorem needs this
    it says so.

    ** Not modelled

    Flags, listeners, sockets options, certificates and file locks (cmd/,
    pkg/server/run.go, config.go, reuseport, pkg/auth/filelock): system calls.  The
    static fallback site and its reverse proxy (fallback.go beyond serveFallback),
    TLS, QUIC and HTTP themselves: net/http and quic-go.  TLS session tickets
    (internal/sessioncache): an encoding of crypto/tls values.  The adapters of Xray
    and mihomo (integration/xray/outbound.go, inbound.go beyond its packet connection
    and its replay registry, integration/mihomo): calls into those cores, whose
    sources are not here; pipe_writer.go repeats the design
    of [ConnioWriter] over their buffers.  The HTTP requests of conn_tcp.go and
    conn_udp.go: net/http and quic-go round trips; [H2Streams] and [H3Manager] take
    their outcomes as arguments.  Memory reuse by pools is modelled where a claim
    depends on it ([ConnioWriter], [ConnioReader]). *)
From Stdlib Require Export ZArith Lia.
From Stdlib Require Import Strings.Byte.
From stdpp Require Export base tactics decidable countable numbers option strings gmap.
From stdpp Require Export list_basics list_relations list.

(** * Notation scope, hint databases *)

Declare Scope go_scope.
Delimit Scope go_scope with go.
Create HintDb go discriminated.
Create Rewrite HintDb golen.
Global Open Scope go_scope.
Abbreviation byte := Byte.byte.

(** * Go errors

    An [error] is compared only through the sentinels the sources test for
    ([errors.Is], [==], [net.Error.Timeout]); the others carry the text that
    identifies them in the source. *)

Inductive error : Set :=
  | EOF
  | ErrUnexpectedEOF
  | ErrShortWrite
  | ErrShortBuffer
  | ErrClosedPipe
  | ErrNetClosed
  | ErrDeadlineExceeded
  | NetError (timeout : bool) (id : nat)
  | Errorf (msg : string).

#[export] Instance error_eq_dec : EqDecision error.
Proof. solve_decision. Defined.

(** [net.Error] whose [Timeout] method answers true. *)
Definition is_timeout (e : error) : bool :=
  match e with
  | ErrDeadlineExceeded => true
  | NetError t _ => t
  | _ => false
  end.

(** A Go call that returns a value or an error. *)
Inductive result (A : Type) : Type :=
  | Ok (a : A)
  | Fail (e : error).
Arguments Ok {A} _.
Arguments Fail {A} _.

Notation "'let?' p ':=' c 'in' k" :=
  (match c with Ok p => k | Fail e => Fail e end)
  (at level 10, p pattern, c at level 100, k at level 200) : go_scope.

Definition is_ok {A} (r : result A) : bool :=
  match r with Ok _ => true | Fail _ => false end.

(** The value of a call that succeeded. *)
Definition okOr {A} (d : A) (r : result A) : A := match r with Ok a => a | Fail _ => d end.

(** * Bytes *)

#[export] Instance byte_eq_dec : EqDecision byte.
Proof. intros x y. destruct (Byte.byte_eq_dec x y); [left|right]; done. Defined.

#[export] Program Instance byte_countable : Countable byte :=
  inj_countable Byte.to_N Byte.of_N _.
Next Obligation. intros x. apply Byte.of_to_N. Qed.

Definition byteZ (b : byte) : Z := Z.of_N (Byte.to_N b).

(** Go's conversion [byte(z)]: truncation to the low eight bits. *)
Definition byte_of (z : Z) : byte :=
  match Byte.of_N (Z.to_N (z mod 256)) with Some b => b | None => Byte.x00 end.

Definition byte_xor (a b : byte) : byte := byte_of (Z.lxor (byteZ a) (byteZ b)).

Definition xorBytes (a b : list byte) : list byte := zip_with byte_xor a b.

(** [len(x)] of a slice or string. *)
Abbreviation len l := (Z.of_nat (length l)).

(** String literals of the sources as byte sequences. *)
Definition bs (s : string) : list byte := String.list_byte_of_string s.

(** * Fixed-width integers: Go's wrap-around conversions *)

Definition u8 (z : Z) : Z := z mod 2 ^ 8.
Definition u16 (z : Z) : Z := z mod 2 ^ 16.
Definition u32 (z : Z) : Z := z mod 2 ^ 32.
Definition u64 (z : Z) : Z := z mod 2 ^ 64.

(** [int64(z)] in two's complement. *)
Definition i64 (z : Z) : Z := (z + 2 ^ 63) mod 2 ^ 64 - 2 ^ 63.

Definition is_u64 (z : Z) : Prop := (0 <= z < 2 ^ 64)%Z.
Definition is_u32 (z : Z) : Prop := (0 <= z < 2 ^ 32)%Z.
Definition is_u16 (z : Z) : Prop := (0 <= z < 2 ^ 16)%Z.

(** * Big-endian integers: encoding/binary.BigEndian *)

(** [PutUint16/32/64]: the [n] low bytes of [z], most significant first. *)
Fixpoint be (n : nat) (z : Z) : list byte :=
  match n with
  | O => []
  | S m => byte_of (z / 256 ^ Z.of_nat m) :: be m z
  end.

(** [Uint16/32/64]. *)
Definition be_val (l : list byte) : Z :=
  fold_left (fun acc b => (acc * 256 + byteZ b)%Z) l 0%Z.

(** * Timestamps *)

(** The freshness test of the handshakes and of the UDP packets:
    [diff := int64(nowSec) - int64(timestamp)], refused outside
    [-limit .. limit]. *)
Definition timestampExpired (limit now timestamp : Z) : bool :=
  let diff := i64 (i64 (u64 now) - i64 timestamp) in
  ((diff <? - limit) || (limit <? diff))%Z.

(** * Slices *)

(** [l[a:b]] for [a <= b <= len(l)]. *)
Definition slice {A} (a b : nat) (l : list A) : list A := take (b - a) (drop a l).

(** Slicing at a Go [int]. *)
Definition ztake {A} (n : Z) (l : list A) : list A := take (Z.to_nat n) l.
Definition zdrop {A} (n : Z) (l : list A) : list A := drop (Z.to_nat n) l.

(** [l[i]] of a byte slice, for [i < len(l)]. *)
Definition at_ (l : list byte) (i : nat) : byte := default Byte.x00 (l !! i).

#[global] Arguments Z.to_nat : simpl never.
#[global] Arguments Z.of_nat : simpl never.
#[global] Arguments be_val : simpl never.

(** * Lemmas: bytes *)

Open Scope Z_scope.

Lemma byteZ_range (b : byte) : 0 <= byteZ b < 256.
Proof.
  unfold byteZ. pose proof (Byte.to_N_bounded b). lia.
Qed.

Lemma byteZ_of (z : Z) : byteZ (byte_of z) = z mod 256.
Proof.
  unfold byteZ, byte_of. pose proof (Z.mod_pos_bound z 256 eq_refl) as H.
  destruct (Byte.of_N (Z.to_N (z mod 256))) as [b|] eqn:E.
  - apply Byte.to_of_N in E. rewrite E. lia.
  - apply Byte.of_N_None_iff in E. lia.
Qed.

Lemma byte_of_byteZ (b : byte) : byte_of (byteZ b) = b.
Proof.
  unfold byte_of. pose proof (byteZ_range b). rewrite Z.mod_small by lia.
  unfold byteZ. rewrite N2Z.id, Byte.of_to_N. done.
Qed.

Lemma byteZ_inj (a b : byte) : byteZ a = byteZ b -> a = b.
Proof. intros E. rewrite <- (byte_of_byteZ a), E. apply byte_of_byteZ. Qed.

Lemma byte_of_mod (z : Z) : byte_of (z mod 256) = byte_of z.
Proof. apply byteZ_inj. rewrite !byteZ_of. apply Z.mod_mod. done. Qed.

Lemma byteZ_of_small (z : Z) : 0 <= z < 256 -> byteZ (byte_of z) = z.
Proof. intros. rewrite byteZ_of. apply Z.mod_small. done. Qed.

Lemma lxor_byte_range (a b : Z) :
  0 <= a < 256 -> 0 <= b < 256 -> 0 <= Z.lxor a b < 256.
Proof.
  intros Ha Hb. split; [apply Z.lxor_nonneg; lia|].
  destruct (decide (Z.lxor a b = 0)) as [->|Hn]; [lia|].
  apply Z.log2_lt_pow2 with (b := 8); [pose proof (proj2 (Z.lxor_nonneg a b)); lia|].
  eapply Z.le_lt_trans; [apply Z.log2_lxor; lia|].
  apply Z.max_lub_lt.
  - destruct (decide (a = 0)) as [->|]; [done|]. apply Z.log2_lt_pow2; lia.
  - destruct (decide (b = 0)) as [->|]; [done|]. apply Z.log2_lt_pow2; lia.
Qed.

Lemma byteZ_xor (a b : byte) : byteZ (byte_xor a b) = Z.lxor (byteZ a) (byteZ b).
Proof.
  unfold byte_xor. apply byteZ_of_small.
  apply lxor_byte_range; apply byteZ_range.
Qed.

Lemma byte_xor_cancel (a m : byte) : byte_xor (byte_xor a m) m = a.
Proof.
  apply byteZ_inj. rewrite !byteZ_xor, Z.lxor_assoc, Z.lxor_nilpotent.
  apply Z.lxor_0_r.
Qed.

Lemma xorBytes_cancel a m : length a = length m -> xorBytes (xorBytes a m) m = a.
Proof.
  revert m. induction a as [|x a IH]; intros [|y m] H; try done.
  injection H as H. cbn. rewrite byte_xor_cancel. f_equal. by apply IH.
Qed.

Lemma length_xorBytes a m : length a = length m -> length (xorBytes a m) = length a.
Proof. intros H. unfold xorBytes. rewrite length_zip_with. lia. Qed.

(** * Lemmas: machine integers *)

Lemma u64_range z : 0 <= u64 z < 2 ^ 64.
Proof. apply Z.mod_pos_bound. done. Qed.

Lemma u32_range z : 0 <= u32 z < 2 ^ 32.
Proof. apply Z.mod_pos_bound. done. Qed.

Lemma u16_range z : 0 <= u16 z < 2 ^ 16.
Proof. apply Z.mod_pos_bound. done. Qed.

Lemma u64_id z : is_u64 z -> u64 z = z.
Proof. apply Z.mod_small. Qed.

Lemma u32_id z : is_u32 z -> u32 z = z.
Proof. apply Z.mod_small. Qed.

Lemma u16_id z : is_u16 z -> u16 z = z.
Proof. apply Z.mod_small. Qed.

Lemma i64_range z : - 2 ^ 63 <= i64 z < 2 ^ 63.
Proof. unfold i64. pose proof (Z.mod_pos_bound (z + 2 ^ 63) (2 ^ 64) eq_refl). lia. Qed.

Lemma i64_id z : - 2 ^ 63 <= z < 2 ^ 63 -> i64 z = z.
Proof. intros. unfold i64. rewrite Z.mod_small; lia. Qed.

(** [int64] only depends on the low 64 bits. *)
Lemma i64_cong a b : a mod 2 ^ 64 = b mod 2 ^ 64 -> i64 a = i64 b.
Proof. intros H. unfold i64. rewrite Zplus_mod, H, <- Zplus_mod. done. Qed.

Lemma i64_mod z : i64 z mod 2 ^ 64 = z mod 2 ^ 64.
Proof.
  unfold i64. rewrite Zminus_mod_idemp_l. f_equal. lia.
Qed.

(** The wrapped signed difference of two counters is their true difference
    as soon as that fits in an [int64]. *)
Lemma i64_sub_i64 a b : i64 (i64 a - i64 b) = i64 (a - b).
Proof.
  apply i64_cong. rewrite Zminus_mod, !i64_mod, <- Zminus_mod. done.
Qed.

(** A timestamp is fresh when it is within [limit] of the clock, on the
    circle of 64-bit integers. *)
Lemma timestampExpired_spec limit now ts :
  0 <= limit < 2 ^ 63 ->
  (timestampExpired limit now ts = false <-> exists k, - limit <= k <= limit /\ u64 now = u64 (ts + k)).
Proof.
  intros Hl. unfold timestampExpired. rewrite i64_sub_i64.
  assert (i64 (u64 now - ts) = i64 (now - ts)) as ->.
  { apply i64_cong. unfold u64. by rewrite Zminus_mod_idemp_l. }
  rewrite orb_false_iff, !Z.ltb_ge. split.
  - intros [H1 H2]. exists (i64 (now - ts)). split; [lia|]. unfold u64.
    rewrite Zplus_mod, i64_mod, <- Zplus_mod. f_equal. lia.
  - intros (k & Hk & E). replace (i64 (now - ts)) with (i64 k); [rewrite i64_id by lia; lia|].
    apply i64_cong. unfold u64 in E. rewrite (Zminus_mod now), E, <- Zminus_mod. f_equal. lia.
Qed.

Lemma timestampExpired_fresh limit now now' :
  0 <= limit < 2 ^ 63 -> - limit <= now' - now <= limit -> timestampExpired limit now' (u64 now) = false.
Proof.
  intros Hl Hd. apply timestampExpired_spec; [done|]. exists (now' - now). split; [done|].
  unfold u64. rewrite Zplus_mod_idemp_l. f_equal. lia.
Qed.

#[export] Hint Resolve u64_range u32_range u16_range byteZ_range : go.

(** * Lemmas: slices *)

Lemma length_be n z : length (be n z) = n.
Proof. induction n; simpl; congruence. Qed.

Lemma len_nil {A} : len (@nil A) = 0.
Proof. done. Qed.

Lemma len_cons {A} (x : A) l : len (x :: l) = 1 + len l.
Proof. simpl length. lia. Qed.

Lemma len_app {A} (l1 l2 : list A) : len (l1 ++ l2) = len l1 + len l2.
Proof. rewrite length_app. lia. Qed.

Lemma len_be n z : len (be n z) = Z.of_nat n.
Proof. by rewrite length_be. Qed.

Lemma len_nonneg {A} (l : list A) : 0 <= len l.
Proof. lia. Qed.

Lemma len_zero {A} (l : list A) : len l = 0 -> l = [].
Proof. intros. apply nil_length_inv. lia. Qed.

Lemma len_ztake {A} n (l : list A) : 0 <= n <= len l -> len (ztake n l) = n.
Proof. intros. unfold ztake. rewrite length_take. lia. Qed.

Lemma len_zdrop {A} n (l : list A) : 0 <= n <= len l -> len (zdrop n l) = len l - n.
Proof. intros. unfold zdrop. rewrite length_drop. lia. Qed.

Lemma ztake_zdrop {A} n (l : list A) : ztake n l ++ zdrop n l = l.
Proof. apply take_drop. Qed.

Lemma ztake_all {A} n (l : list A) : len l <= n -> ztake n l = l.
Proof. intros. unfold ztake. apply take_ge. lia. Qed.

Lemma zdrop_all {A} n (l : list A) : len l <= n -> zdrop n l = [].
Proof. intros. unfold zdrop. apply drop_ge. lia. Qed.

Lemma ztake_app {A} n (l1 l2 : list A) : n = len l1 -> ztake n (l1 ++ l2) = l1.
Proof. intros ->. unfold ztake. apply take_app_length'. lia. Qed.

Lemma zdrop_app {A} n (l1 l2 : list A) : n = len l1 -> zdrop n (l1 ++ l2) = l2.
Proof. intros ->. unfold zdrop. apply drop_app_length'. lia. Qed.

Lemma slice_app_r {A} a b (l1 l2 : list A) :
  (length l1 <= a)%nat -> slice a b (l1 ++ l2) = slice (a - length l1) (b - length l1) l2.
Proof.
  intros. unfold slice. rewrite drop_app_ge by done.
  f_equal. lia.
Qed.

Lemma slice_app_l {A} a b (l1 l2 : list A) :
  (a <= b)%nat -> (b <= length l1)%nat -> slice a b (l1 ++ l2) = slice a b l1.
Proof.
  intros. unfold slice. rewrite drop_app_le, take_app_le; rewrite ?length_drop; done || lia.
Qed.

Lemma slice_full {A} b (l : list A) : b = length l -> slice 0 b l = l.
Proof. intros ->. unfold slice. rewrite drop_0, take_ge; done || lia. Qed.

(** A field of an assembled record. *)
Lemma slice_field {A} a b (l0 l1 l2 : list A) :
  a = length l0 -> b = (length l0 + length l1)%nat -> slice a b (l0 ++ l1 ++ l2) = l1.
Proof.
  intros -> ->. rewrite slice_app_r by lia. rewrite Nat.sub_diag.
  replace (length l0 + length l1 - length l0)%nat with (length l1) by lia.
  rewrite slice_app_l, slice_full; done || lia.
Qed.

Lemma slice_head {A} b (l1 l2 : list A) : b = length l1 -> slice 0 b (l1 ++ l2) = l1.
Proof. intros ->. exact (slice_field 0 (length l1) [] l1 l2 eq_refl eq_refl). Qed.

Lemma slice_field2 {A} a b (l0 l1 l2 l3 : list A) :
  a = (length l0 + length l1)%nat -> b = (length l0 + length l1 + length l2)%nat ->
  slice a b (l0 ++ l1 ++ l2 ++ l3) = l2.
Proof.
  intros -> ->. rewrite app_assoc. apply slice_field; rewrite length_app; done.
Qed.

Lemma length_slice {A} a b (l : list A) :
  (a <= b)%nat -> (b <= length l)%nat -> length (slice a b l) = (b - a)%nat.
Proof. intros. unfold slice. rewrite length_take, length_drop. lia. Qed.

#[export] Hint Rewrite @length_app @length_take @length_drop @length_replicate length_be
  @length_reverse @length_fmap @length_insert : golen.
#[export] Hint Rewrite @len_nil @len_cons @len_app len_be : golen.

(** * Lemmas: big-endian integers *)

Lemma be_val_acc l acc :
  fold_left (fun a b => a * 256 + byteZ b) l acc = acc * 256 ^ len l + be_val l.
Proof.
  unfold be_val. revert acc. induction l as [|b l IH]; intros acc; cbn [fold_left length].
  - rewrite Z.pow_0_r. lia.
  - rewrite IH, (IH (0 * 256 + byteZ b)), Nat2Z.inj_succ, Z.pow_succ_r by lia. ring.
Qed.

Lemma be_val_cons b l : be_val (b :: l) = byteZ b * 256 ^ len l + be_val l.
Proof. unfold be_val at 1. cbn [fold_left]. rewrite be_val_acc. ring. Qed.

Lemma be_val_app l1 l2 : be_val (l1 ++ l2) = be_val l1 * 256 ^ len l2 + be_val l2.
Proof. unfold be_val at 1. rewrite fold_left_app. fold (be_val l1). apply be_val_acc. Qed.

Lemma be_val_range l : 0 <= be_val l < 256 ^ len l.
Proof.
  induction l as [|b l IH]; [done|].
  rewrite be_val_cons, len_cons, Z.pow_add_r by lia.
  pose proof (byteZ_range b). nia.
Qed.

Lemma be_val_be n z : be_val (be n z) = z mod 256 ^ Z.of_nat n.
Proof.
  induction n as [|n IH]; [symmetry; apply Z.mod_1_r|].
  cbn [be]. rewrite be_val_cons, IH, byteZ_of, length_be.
  rewrite Nat2Z.inj_succ, Z.pow_succ_r, (Z.mul_comm 256) by lia.
  rewrite Z.rem_mul_r by lia. ring.
Qed.

Lemma be_val_inj l1 l2 : length l1 = length l2 -> be_val l1 = be_val l2 -> l1 = l2.
Proof.
  revert l2. induction l1 as [|b1 l1 IH]; intros [|b2 l2] Hl E; try done.
  injection Hl as H. rewrite !be_val_cons, H in E.
  pose proof (be_val_range l1) as R1. pose proof (be_val_range l2) as R2.
  rewrite H in R1.
  assert (byteZ b1 = byteZ b2) as Hb by nia.
  f_equal; [by apply byteZ_inj|]. apply IH; [done|]. rewrite Hb in E. lia.
Qed.

Lemma be_be_val n l : length l = n -> be n (be_val l) = l.
Proof.
  intros <-. apply be_val_inj; [apply length_be|].
  rewrite be_val_be. apply Z.mod_small, be_val_range.
Qed.

Lemma be_val_be_small n z : 0 <= z < 256 ^ Z.of_nat n -> be_val (be n z) = z.
Proof. intros. rewrite be_val_be. by apply Z.mod_small. Qed.

Lemma be_inj n z1 z2 :
  0 <= z1 < 256 ^ Z.of_nat n -> 0 <= z2 < 256 ^ Z.of_nat n -> be n z1 = be n z2 -> z1 = z2.
Proof.
  intros H1 H2 E. rewrite <- (be_val_be_small n z1), <- (be_val_be_small n z2) by done.
  by rewrite E.
Qed.

Lemma be_val_be8 z : is_u64 z -> be_val (be 8 z) = z.
Proof. intros. by apply be_val_be_small. Qed.

Lemma be_val_be4 z : is_u32 z -> be_val (be 4 z) = z.
Proof. intros. by apply be_val_be_small. Qed.

Lemma be_val_be2 z : is_u16 z -> be_val (be 2 z) = z.
Proof. intros. by apply be_val_be_small. Qed.

Lemma be_u16 z : be 2 (u16 z) = be 2 z.
Proof.
  apply be_val_inj; [by rewrite !length_be|]. rewrite !be_val_be. unfold u16.
  change (256 ^ Z.of_nat 2) with (2 ^ 16). by rewrite Z.mod_mod.
Qed.

Lemma be_val_u64 l : length l = 8%nat -> is_u64 (be_val l).
Proof. intros H. pose proof (be_val_range l) as R. by rewrite H in R. Qed.

Lemma be_val_u32 l : length l = 4%nat -> is_u32 (be_val l).
Proof. intros H. pose proof (be_val_range l) as R. by rewrite H in R. Qed.

Lemma be_val_u16 l : length l = 2%nat -> is_u16 (be_val l).
Proof. intros H. pose proof (be_val_range l) as R. by rewrite H in R. Qed.

#[export] Hint Resolve be_val_be8 be_val_be4 be_val_be2 be_val_u64 be_val_u32 be_val_u16 : go.

(** * Tactics *)

(** Reduce goals and hypotheses about lengths of assembled byte strings. *)
Ltac len_simpl := autorewrite with golen in *.

(** [lia] with division and modulo by constants eliminated first. *)
Ltac Zify.zify_post_hook ::= Z.to_euclidean_division_equations.

(** Concrete [Forall] goals about integers. *)
Ltac forall_lia :=
  repeat (apply Forall_cons; split; [unfold is_u64, is_u32, is_u16; lia|]); apply Forall_nil; done.

(** Turn every boolean comparison in the context into a proposition. *)
Ltac bool_to_prop :=
  repeat match goal with
  | H : _ && _ = true |- _ => apply andb_prop in H; destruct H
  | H : _ || _ = false |- _ => apply orb_false_elim in H; destruct H
  | H : negb _ = true |- _ => apply negb_true_iff in H
  | H : negb _ = false |- _ => apply negb_false_iff in H
  | H : (_ <? _)%Z = true |- _ => apply Z.ltb_lt in H
  | H : (_ <? _)%Z = false |- _ => apply Z.ltb_ge in H
  | H : (_ <=? _)%Z = true |- _ => apply Z.leb_le in H
  | H : (_ <=? _)%Z = false |- _ => apply Z.leb_gt in H
  | H : (_ =? _)%Z = true |- _ => apply Z.eqb_eq in H
  | H : (_ =? _)%Z = false |- _ => apply Z.eqb_neq in H
  | H : (_ <? _)%nat = true |- _ => apply Nat.ltb_lt in H
  | H : (_ <? _)%nat = false |- _ => apply Nat.ltb_ge in H
  | H : (_ <=? _)%nat = true |- _ => apply Nat.leb_le in H
  | H : (_ <=? _)%nat = false |- _ => apply Nat.leb_gt in H
  | H : (_ =? _)%nat = true |- _ => apply Nat.eqb_eq in H
  | H : (_ =? _)%nat = false |- _ => apply Nat.eqb_neq in H
  | H : (_ >? _)%Z = _ |- _ => rewrite Z.gtb_ltb in H
  | H : (_ >=? _)%Z = _ |- _ => rewrite Z.geb_leb in H
  | H : bool_decide _ = true |- _ => apply bool_decide_eq_true in H
  | H : bool_decide _ = false |- _ => apply bool_decide_eq_false in H
  end.

(** Split every [match]/[if] of the goal and keep the equations, as facts. *)
Ltac split_ifs := repeat case_match; bool_to_prop; simplify_eq/=.

(** The same for a hypothesis [H : f x = v] of a defined function. *)
Ltac inv_fun H :=
  repeat match type of H with
  | context [match ?x with _ => _ end] => destruct x eqn:?; try discriminate H
  end; bool_to_prop; simplify_eq/=.

(** * Prefixes *)

Lemma prefix_of_app {A} (b x y : list A) : b `prefix_of` x ++ y -> len b < len x \/ exists b', b = x ++ b' /\ b' `prefix_of` y.
Proof.
  intros [k Hk]. destruct (decide (len b < len x)) as [|Hl]; [by left|]. right. symmetry in Hk.
  destruct (app_eq_inv _ _ _ _ Hk) as [(k' & -> & ->)|(k' & -> & ->)].
  - exists k'. split; [done|]. by exists k.
  - rewrite len_app in Hl. assert (k' = []) as -> by (apply len_zero; lia). exists []. split; [by rewrite !app_nil_r|apply prefix_nil].
Qed.

(** * Sums over lists *)

Definition sumBy {A} (f : A -> Z) (l : list A) : Z := foldr (fun x a => f x + a) 0 l.

(** How many elements satisfy a test. *)
Definition countBy {A} (p : A -> bool) : list A -> Z := sumBy (fun x => if p x then 1 else 0).

Lemma sumBy_app {A} (f : A -> Z) l k : sumBy f (l ++ k) = sumBy f l + sumBy f k.
Proof. unfold sumBy. induction l as [|x l IH]; cbn [app foldr]; lia. Qed.

Lemma sumBy_insert {A} (f : A -> Z) l i x y :
  l !! i = Some x -> sumBy f (<[i := y]> l) = sumBy f l - f x + f y.
Proof.
  revert i. induction l as [|z l IH]; intros [|i] E; [done..| |].
  - injection E as ->. cbn. lia.
  - change (f z + sumBy f (<[i := y]> l) = f z + sumBy f l - f x + f y). rewrite (IH i E). lia.
Qed.

Lemma sumBy_nonneg {A} (f : A -> Z) l : (forall x, 0 <= f x) -> 0 <= sumBy f l.
Proof. intros Hf. unfold sumBy. induction l as [|x l IH]; cbn [foldr]; [lia|]. specialize (Hf x). lia. Qed.

Lemma sumBy_le {A} (f g : A -> Z) l : (forall x, f x <= g x) -> sumBy f l <= sumBy g l.
Proof. intros Hf. unfold sumBy. induction l as [|x l IH]; cbn [foldr]; [lia|]. specialize (Hf x). lia. Qed.

Lemma countBy_app {A} (p : A -> bool) l k : countBy p (l ++ k) = countBy p l + countBy p k.
Proof. apply sumBy_app. Qed.

Lemma countBy_one {A} (p : A -> bool) x : countBy p [x] = if p x then 1 else 0.
Proof. cbn. lia. Qed.

Lemma countBy_insert {A} (p : A -> bool) l i x y :
  l !! i = Some x ->
  countBy p (<[i := y]> l) = countBy p l - (if p x then 1 else 0) + (if p y then 1 else 0).
Proof. apply sumBy_insert. Qed.

#[global] Arguments countBy : simpl never.
#[global] Arguments sumBy : simpl never.

Lemma countBy_nonneg {A} (p : A -> bool) l : 0 <= countBy p l.
Proof. apply sumBy_nonneg. intros x. destruct (p x); lia. Qed.

Lemma countBy_zero {A} (p : A -> bool) l i x : countBy p l = 0 -> l !! i = Some x -> p x = false.
Proof.
  revert i. induction l as [|y l IH]; intros [|i] Hz E; [done..| |];
    change ((if p y then 1 else 0) + countBy p l = 0) in Hz; pose proof (countBy_nonneg p l).
  - injection E as ->. destruct (p x); [lia|done].
  - apply (IH i); [destruct (p y); lia|done].
Qed.

(** * Lists with one element replaced *)

Lemma insert_swap {A} (l : list A) i v e : l !! i = Some v -> v :: <[i := e]> l ≡ₚ e :: l.
Proof.
  intros Hi. rewrite insert_take_drop by (by eapply lookup_lt_Some). rewrite <- (take_drop_middle l i v Hi) at 3.
  rewrite <- !Permutation_middle. apply perm_swap.
Qed.

Lemma omap_insert {A B} (f : A -> option B) l k x y :
  l !! k = Some y -> match f y with Some v => [v] | None => [] end ++ omap f (<[k := x]> l) ≡ₚ match f x with Some v => [v] | None => [] end ++ omap f l.
Proof.
  intros Hk. rewrite insert_take_drop by (by eapply lookup_lt_Some). rewrite <- (take_drop_middle l k y Hk) at 3. rewrite !omap_app.
  assert (Hc : forall z r, omap f (z :: r) = match f z with Some v => [v] | None => [] end ++ omap f r) by (intros z r; cbn; by destruct (f z)).
  rewrite !Hc. set (a := match f y with Some v => [v] | None => [] end). set (b := match f x with Some v => [v] | None => [] end).
  rewrite !(Permutation_app_comm (omap f (take k l))), <- !app_assoc, !app_assoc. do 2 f_equiv. apply Permutation_app_comm.
Qed.

Lemma concat_fmap_insert {A B} (f : A -> list B) l k x y :
  l !! k = Some y -> f y ++ concat (f <$> <[k := x]> l) ≡ₚ f x ++ concat (f <$> l).
Proof.
  intros Hk. rewrite insert_take_drop by (by eapply lookup_lt_Some). rewrite <- (take_drop_middle l k y Hk) at 3.
  rewrite !fmap_app, !fmap_cons, !concat_app, !concat_cons.
  rewrite !(Permutation_app_comm (concat (f <$> take k l))), <- !app_assoc, !app_assoc. do 2 f_equiv. apply Permutation_app_comm.
Qed.

Lemma filter_ext_on {A} (P Q : A -> Prop) `{forall x, Decision (P x), forall x, Decision (Q x)} (l : list A) :
  (forall x, x ∈ l -> P x <-> Q x) -> filter P l = filter Q l.
Proof.
  induction l as [|x l IH]; intros H1; [done|]. rewrite !filter_cons, IH by (intros y Hy; apply H1; by right).
  pose proof (H1 x ltac:(left)) as Hx. repeat case_decide; tauto.
Qed.


