(* ===== verification/ReplayWindow.v ===== *)
(** * The datagram replay window of [internal/frame]

    [frame.ReplayWindow] keeps, for one association, the highest sequence
    number seen and a bitmap of 2048 slots held in 32 [uint64] words and keyed
    by the sequence number modulo the window size.  The model keeps the words
    as [Z] with the shifts, masks and wrap-around of the code.  [Spec] is the
    contract the receivers rely on: a set of all the accepted numbers.  The
    refinement theorems relate any run of the bitmap to that set. *)
From S2P Require Import Prelude.

Open Scope Z_scope.

(** ** The code *)

Definition ReplayWindowSize : Z := 2048.

Record ReplayWindow := mkReplayWindow {
  initialized : bool;
  highest : Z;
  bits : list Z;
}.

(** [var w ReplayWindow]: the zero value. *)
Definition zeroWindow : ReplayWindow := mkReplayWindow false 0 (replicate 32 0).

(** [replaySlot]: the word of a slot and the mask of its bit. *)
Definition replaySlot (sequence : Z) : nat * Z :=
  let slot := sequence mod ReplayWindowSize in
  (Z.to_nat (slot / 64), Z.shiftl 1 (slot mod 64)).

(** [w.bits[word] |= mask]. *)
Definition orWord (word : nat) (mask : Z) (ws : list Z) : list Z :=
  alter (fun x => Z.lor x mask) word ws.

(** [mark]. *)
Definition mark (ws : list Z) (sequence : Z) : list Z :=
  let '(word, mask) := replaySlot sequence in orWord word mask ws.

(** The loop of [clearSlots]; [fuel] bounds the iterations, each of which
    consumes at least one unit of [count]. *)
Fixpoint clearLoop (fuel : nat) (ws : list Z) (sequence count : Z) : list Z :=
  match fuel with
  | O => ws
  | S fuel' =>
      if count <=? 0 then ws
      else
        let slot := sequence mod ReplayWindowSize in
        let word := Z.to_nat (slot / 64) in
        let bit := slot mod 64 in
        let chunk := Z.min count (64 - bit) in
        let mask := if chunk <? 64 then Z.shiftl 1 chunk - 1 else 2 ^ 64 - 1 in
        let ws' := alter (fun x => Z.ldiff x (u64 (Z.shiftl mask bit))) word ws in
        clearLoop fuel' ws' (u64 (sequence + chunk)) (count - chunk)
  end.

Definition clearSlots (ws : list Z) (sequence count : Z) : list Z :=
  clearLoop (Z.to_nat count) ws sequence count.

(** [clear(w.bits[:])]. *)
Definition clearAll (ws : list Z) : list Z := replicate (length ws) 0.

(** [Accept]: whether the number is fresh, and the updated window. *)
Definition Accept (w : ReplayWindow) (sequence : Z) : bool * ReplayWindow :=
  if negb (initialized w) then
    (true, mkReplayWindow true sequence (mark (bits w) sequence))
  else if highest w <? sequence then
    let advance := u64 (sequence - highest w) in
    let ws :=
      if ReplayWindowSize <=? advance then clearAll (bits w)
      else clearSlots (bits w) (u64 (highest w + 1)) (u64 (advance - 1)) in
    (true, mkReplayWindow true sequence (mark ws sequence))
  else
    let delta := u64 (highest w - sequence) in
    if ReplayWindowSize <=? delta then (false, w)
    else
      let '(word, mask) := replaySlot sequence in
      if negb (Z.land (default 0 (bits w !! word)) mask =? 0) then (false, w)
      else (true, mkReplayWindow true (highest w) (orWord word mask (bits w))).

(** A receiver feeding datagrams one after the other. *)
Fixpoint acceptAll (w : ReplayWindow) (seqs : list Z) : list bool * ReplayWindow :=
  match seqs with
  | [] => ([], w)
  | s :: rest =>
      let '(b, w1) := Accept w s in
      let '(bl, w2) := acceptAll w1 rest in
      (b :: bl, w2)
  end.

(** ** The contract *)

Module Spec.

(** The highest number so far and every number accepted so far. *)
Record window := mkWindow {
  top : option Z;
  seen : gset Z;
}.

Definition init : window := mkWindow None ∅.

Definition accepts (w : window) (s : Z) : bool :=
  match top w with
  | None => true
  | Some h => (h <? s) || ((h - s <? ReplayWindowSize) && bool_decide (s ∉ seen w))
  end.

Definition step (w : window) (s : Z) : bool * window :=
  if accepts w s then
    (true, mkWindow (Some (match top w with None => s | Some h => Z.max h s end))
                    ({[s]} ∪ seen w))
  else (false, w).

Fixpoint run (w : window) (seqs : list Z) : list bool * window :=
  match seqs with
  | [] => ([], w)
  | s :: rest =>
      let '(b, w1) := step w s in
      let '(bl, w2) := run w1 rest in
      (b :: bl, w2)
  end.

End Spec.

(** ** Bits of the bitmap *)

(** The bit of slot [k], [0 <= k < 2048]. *)
Definition slotBit (ws : list Z) (k : Z) : bool :=
  Z.testbit (default 0 (ws !! Z.to_nat (k / 64))) (k mod 64).

Definition is_slot (k : Z) : Prop := 0 <= k < ReplayWindowSize.

Lemma word_lt k : is_slot k -> (Z.to_nat (k / 64) < 32)%nat.
Proof. unfold is_slot, ReplayWindowSize. intros. lia. Qed.

Lemma slot_split_eq k j :
  is_slot k -> is_slot j -> k / 64 = j / 64 -> k mod 64 = j mod 64 -> k = j.
Proof. unfold is_slot. intros. lia. Qed.

Lemma slot_word_inj k j :
  is_slot k -> is_slot j -> Z.to_nat (k / 64) = Z.to_nat (j / 64) -> k / 64 = j / 64.
Proof. unfold is_slot. intros. lia. Qed.

(** Updating one word changes the slots of that word only. *)
Lemma slotBit_alter f ws k j :
  length ws = 32%nat -> is_slot k -> is_slot j ->
  slotBit (alter f (Z.to_nat (j / 64)) ws) k =
    if k / 64 =? j / 64
    then Z.testbit (f (default 0 (ws !! Z.to_nat (k / 64)))) (k mod 64)
    else slotBit ws k.
Proof.
  intros Hlen Hk Hj. unfold slotBit.
  destruct (Z.eqb_spec (k / 64) (j / 64)) as [E|E].
  - rewrite E, list_lookup_alter, decide_True by done.
    pose proof (word_lt j Hj).
    destruct (lookup_lt_is_Some_2 ws (Z.to_nat (j / 64))) as [x ->]; [lia|done].
  - rewrite list_lookup_alter_ne; [done|].
    intros E'. apply E. symmetry. by apply slot_word_inj.
Qed.

Lemma slotBit_mark ws s k :
  length ws = 32%nat -> is_slot k ->
  slotBit (mark ws s) k = slotBit ws k || (k =? s mod ReplayWindowSize).
Proof.
  intros Hlen Hk. unfold mark, replaySlot, orWord.
  set (j := s mod ReplayWindowSize).
  assert (is_slot j) as Hj by (apply Z.mod_pos_bound; done).
  rewrite slotBit_alter by done.
  destruct (Z.eqb_spec (k / 64) (j / 64)) as [E|E].
  - rewrite Z.lor_spec. f_equal.
    rewrite Z.shiftl_spec by lia.
    destruct (Z.eqb_spec k j) as [->|Hne]; [by rewrite Z.sub_diag|].
    assert (k mod 64 <> j mod 64) by (intros ?; by apply Hne, slot_split_eq).
    destruct (decide (k mod 64 < j mod 64)); [by rewrite Z.testbit_neg_r by lia|].
    apply Z.bits_above_log2; [lia|]. change (Z.log2 1) with 0. lia.
  - destruct (Z.eqb_spec k j) as [->|]; [done|]. by rewrite orb_false_r.
Qed.

Lemma length_mark ws s : length (mark ws s) = length ws.
Proof. unfold mark, replaySlot, orWord. apply length_alter. Qed.

(** The mask of one iteration of [clearSlots] covers [bit .. bit+chunk-1]. *)
Lemma clear_mask_testbit bit chunk j :
  0 <= bit < 64 -> 0 < chunk <= 64 - bit -> 0 <= j < 64 ->
  Z.testbit (u64 (Z.shiftl (if chunk <? 64 then Z.shiftl 1 chunk - 1 else 2 ^ 64 - 1) bit)) j
    = (bit <=? j) && (j <? bit + chunk).
Proof.
  intros Hb Hc Hj. unfold u64. rewrite Z.mod_pow2_bits_low by lia.
  assert ((if chunk <? 64 then Z.shiftl 1 chunk - 1 else 2 ^ 64 - 1) = Z.ones chunk) as ->.
  { rewrite Z.ones_equiv. destruct (Z.ltb_spec chunk 64).
    - rewrite Z.shiftl_1_l. lia.
    - replace chunk with 64 by lia. lia. }
  rewrite Z.shiftl_spec by lia.
  destruct (Z.leb_spec bit j); simpl; [|by rewrite Z.testbit_neg_r by lia].
  destruct (Z.ltb_spec j (bit + chunk)).
  - apply Z.ones_spec_low. lia.
  - apply Z.ones_spec_high. lia.
Qed.

Lemma u64_mod_window z : u64 z mod ReplayWindowSize = z mod ReplayWindowSize.
Proof. unfold u64, ReplayWindowSize. lia. Qed.

Lemma length_clearLoop fuel ws s c : length (clearLoop fuel ws s c) = length ws.
Proof.
  revert ws s c. induction fuel as [|fuel IH]; intros; simpl; [done|].
  case_match; [done|]. by rewrite IH, length_alter.
Qed.

(** The arithmetic of one iteration, for a slot in the same word ... *)
Lemma clear_step_same k slot c chunk d :
  is_slot k -> is_slot slot -> k / 64 = slot / 64 ->
  0 < chunk <= 64 - slot mod 64 -> chunk <= c <= ReplayWindowSize ->
  d = (k - slot) mod ReplayWindowSize ->
  negb ((slot mod 64 <=? k mod 64) && (k mod 64 <? slot mod 64 + chunk)) &&
  negb ((d - chunk) mod ReplayWindowSize <? c - chunk) = negb (d <? c).
Proof.
  unfold is_slot, ReplayWindowSize. intros.
  assert (d = if slot <=? k then k - slot else k - slot + 2048) as ->
    by (destruct (Z.leb_spec slot k); lia).
  destruct (Z.leb_spec slot k), (Z.leb_spec (slot mod 64) (k mod 64)),
    (Z.ltb_spec (k mod 64) (slot mod 64 + chunk)); simpl; try lia;
    repeat match goal with |- context [?a <? ?b] => destruct (Z.ltb_spec a b) end;
    simpl; try done; lia.
Qed.

(** ... and for a slot in another word. *)
Lemma clear_step_other k slot c chunk d :
  is_slot k -> is_slot slot -> k / 64 <> slot / 64 ->
  0 < chunk <= 64 - slot mod 64 -> chunk <= c <= ReplayWindowSize ->
  d = (k - slot) mod ReplayWindowSize ->
  ((d - chunk) mod ReplayWindowSize <? c - chunk) = (d <? c).
Proof.
  unfold is_slot, ReplayWindowSize. intros.
  assert (d = if slot <=? k then k - slot else k - slot + 2048) as ->
    by (destruct (Z.leb_spec slot k); lia).
  destruct (Z.leb_spec slot k);
    repeat match goal with |- context [?a <? ?b] => destruct (Z.ltb_spec a b) end;
    simpl; try done; lia.
Qed.

(** One iteration of the loop, then the rest: [clearSlots] clears exactly the
    slots of [sequence .. sequence+count-1]. *)
Lemma slotBit_clearLoop fuel ws s c k :
  length ws = 32%nat -> is_slot k -> 0 <= s -> 0 <= c <= ReplayWindowSize ->
  c <= Z.of_nat fuel ->
  slotBit (clearLoop fuel ws s c) k =
    slotBit ws k && negb ((k - s) mod ReplayWindowSize <? c).
Proof.
  revert ws s c. induction fuel as [|fuel IH]; intros ws s c Hlen Hk Hs Hc Hf; simpl.
  { replace c with 0 by lia.
    destruct (Z.ltb_spec ((k - s) mod ReplayWindowSize) 0) as [H|H].
    - pose proof (Z.mod_pos_bound (k - s) ReplayWindowSize eq_refl). lia.
    - by rewrite andb_true_r. }
  destruct (Z.leb_spec c 0).
  { replace c with 0 by lia.
    destruct (Z.ltb_spec ((k - s) mod ReplayWindowSize) 0) as [H'|H'].
    - pose proof (Z.mod_pos_bound (k - s) ReplayWindowSize eq_refl). lia.
    - by rewrite andb_true_r. }
  set (slot := s mod ReplayWindowSize).
  assert (is_slot slot) as Hslot by (apply Z.mod_pos_bound; done).
  set (chunk := Z.min c (64 - slot mod 64)).
  assert (0 <= slot mod 64 < 64) as Hbit by (apply Z.mod_pos_bound; done).
  assert (0 < chunk <= 64 - slot mod 64) as Hchunk by lia.
  rewrite IH; [|by rewrite length_alter|done|apply u64_range|lia|lia].
  rewrite slotBit_alter by done.
  assert (((k - u64 (s + chunk)) mod ReplayWindowSize <? c - chunk) =
          ((k - s - chunk) mod ReplayWindowSize <? c - chunk)) as ->.
  { f_equal. rewrite <- Zminus_mod_idemp_r, u64_mod_window, Zminus_mod_idemp_r. f_equal. lia. }
  set (d := (k - s) mod ReplayWindowSize).
  assert (d = (k - slot) mod ReplayWindowSize) as Hd
    by (unfold d, slot; by rewrite Zminus_mod_idemp_r).
  assert ((k - s - chunk) mod ReplayWindowSize = (d - chunk) mod ReplayWindowSize) as ->
    by (unfold d; by rewrite Zminus_mod_idemp_l).
  assert (0 <= d < ReplayWindowSize) as Hdr by (apply Z.mod_pos_bound; done).
  clearbody d. clear IH.
  destruct (Z.eqb_spec (k / 64) (slot / 64)) as [E|E].
  - rewrite Z.ldiff_spec, clear_mask_testbit by (lia || apply Z.mod_pos_bound; done).
    fold (slotBit ws k). rewrite <- andb_assoc. f_equal.
    apply clear_step_same; done || lia.
  - f_equal. f_equal. apply (clear_step_other k slot); done || lia.
Qed.

Lemma slotBit_clearAll ws k : slotBit (clearAll ws) k = false.
Proof.
  unfold slotBit, clearAll.
  destruct (replicate (length ws) 0 !! Z.to_nat (k / 64)) as [x|] eqn:E; simpl.
  - apply lookup_replicate in E as [-> _]. apply Z.testbit_0_l.
  - apply Z.testbit_0_l.
Qed.

(** [w.bits[word]&mask != 0] reads the bit of the slot. *)
Lemma land_bit_zero x b : 0 <= b -> (Z.land x (Z.shiftl 1 b) =? 0) = negb (Z.testbit x b).
Proof.
  intros Hb. rewrite Z.shiftl_1_l. destruct (Z.testbit x b) eqn:E; simpl.
  - apply Z.eqb_neq. intros H. apply (f_equal (fun z => Z.testbit z b)) in H.
    rewrite Z.land_spec, E, Z.pow2_bits_true, Z.testbit_0_l in H by done. done.
  - apply Z.eqb_eq. apply Z.bits_inj'. intros i Hi. rewrite Z.land_spec, Z.testbit_0_l.
    destruct (decide (i = b)) as [->|Hne]; [by rewrite E|].
    rewrite Z.pow2_bits_false by done. apply andb_false_r.
Qed.

(** ** Refinement *)

(** The bitmap of the code represents the accepted numbers that are still in
    the window below the highest one. *)
Definition refines (w : ReplayWindow) (a : Spec.window) : Prop :=
  length (bits w) = 32%nat /\
  match Spec.top a with
  | None => initialized w = false /\ bits w = replicate 32 0 /\ Spec.seen a = ∅
  | Some h =>
      initialized w = true /\ highest w = h /\ is_u64 h /\
      (forall s, s ∈ Spec.seen a -> s <= h) /\
      (forall s, 0 <= s -> h - ReplayWindowSize < s <= h ->
         slotBit (bits w) (s mod ReplayWindowSize) = bool_decide (s ∈ Spec.seen a))
  end.

Lemma refines_init : refines zeroWindow Spec.init.
Proof. done. Qed.

Lemma mod_is_slot s : is_slot (s mod ReplayWindowSize).
Proof. apply Z.mod_pos_bound. done. Qed.

(** Marking the new highest number on a bitmap that is right below it. *)
Lemma mark_top ws (A : gset Z) s :
  length ws = 32%nat -> 0 <= s ->
  (forall s', s' ∈ A -> s' <> s) ->
  (forall s', 0 <= s' -> s - ReplayWindowSize < s' < s ->
     slotBit ws (s' mod ReplayWindowSize) = bool_decide (s' ∈ A)) ->
  forall s', 0 <= s' -> s - ReplayWindowSize < s' <= s ->
    slotBit (mark ws s) (s' mod ReplayWindowSize) = bool_decide (s' ∈ {[s]} ∪ A).
Proof.
  intros Hlen Hs Hfresh Hbelow s' Hs' Hr.
  rewrite slotBit_mark by (done || apply mod_is_slot).
  destruct (decide (s' = s)) as [->|Hne].
  - rewrite Z.eqb_refl, orb_true_r. symmetry. apply bool_decide_eq_true. set_solver.
  - assert ((s' mod ReplayWindowSize =? s mod ReplayWindowSize) = false) as ->
      by (apply Z.eqb_neq; unfold ReplayWindowSize in *; lia).
    rewrite orb_false_r, Hbelow by lia. apply bool_decide_ext. set_solver.
Qed.

Lemma refines_first w a s :
  refines w a -> Spec.top a = None -> is_u64 s ->
  refines (mkReplayWindow true s (mark (bits w) s)) (Spec.mkWindow (Some s) ({[s]} ∪ Spec.seen a)).
Proof.
  intros [Hlen H] Ht Hs. rewrite Ht in H. destruct H as (_ & Hz & He).
  split; [simpl; by rewrite length_mark|]. cbn. rewrite He, Hz.
  split_and!; [done|done|done|set_solver by lia|].
  apply mark_top; [done|apply Hs|set_solver|].
  intros s' _ _. change (replicate 32 0) with (clearAll (replicate 32 0)).
  rewrite slotBit_clearAll. symmetry. apply bool_decide_eq_false. set_solver.
Qed.

(** The slots between the old and the new highest number are cleared. *)
Lemma refines_advance w a h s :
  refines w a -> Spec.top a = Some h -> is_u64 s -> h < s ->
  refines (snd (Accept w s)) (Spec.mkWindow (Some s) ({[s]} ∪ Spec.seen a)).
Proof.
  intros [Hlen H] Ht Hs Hlt. rewrite Ht in H. destruct H as (Hi & Hh & Hu & Hle & Hbits).
  unfold Accept. rewrite Hi, Hh. cbn [negb].
  rewrite (proj2 (Z.ltb_lt h s)) by done. cbn [snd].
  rewrite (u64_id (s - h)), (u64_id (h + 1)), (u64_id (s - h - 1)) by (unfold is_u64 in *; lia).
  split; cbn [bits highest initialized Spec.top Spec.seen]; [by destruct (Z.leb_spec ReplayWindowSize (s - h));
    rewrite length_mark; unfold clearAll, clearSlots;
    rewrite ?length_replicate, ?length_clearLoop|].
  split_and!; [done|done|done| |].
  { intros s' [->%elem_of_singleton|Hin]%elem_of_union; [lia|]. apply Hle in Hin. lia. }
  assert (forall s', s' ∈ Spec.seen a -> s' <> s) as Hfresh
    by (intros s' Hin%Hle; lia).
  destruct (Z.leb_spec ReplayWindowSize (s - h)).
  - apply mark_top; [by unfold clearAll; rewrite length_replicate|apply Hs|done|].
    intros s' Hs' Hr. rewrite slotBit_clearAll. symmetry. apply bool_decide_eq_false.
    intros Hin%Hle. unfold ReplayWindowSize in *. lia.
  - apply mark_top; [by unfold clearSlots; rewrite length_clearLoop|apply Hs|done|].
    intros s' Hs' Hr. unfold clearSlots, is_u64 in *.
    rewrite slotBit_clearLoop by (done || apply mod_is_slot || (unfold ReplayWindowSize in *; lia)).
    rewrite Zminus_mod_idemp_l.
    destruct (decide (s' <= h)) as [Hb|Hb].
    + rewrite Hbits by (unfold ReplayWindowSize in *; lia).
      rewrite (proj2 (Z.ltb_ge _ _)); [apply andb_true_r|]. unfold ReplayWindowSize in *. lia.
    + rewrite (proj2 (Z.ltb_lt _ _)) by (unfold ReplayWindowSize in *; lia).
      rewrite andb_false_r. symmetry. apply bool_decide_eq_false. intros Hin%Hle. lia.
Qed.

Lemma refines_step w a s :
  refines w a -> is_u64 s ->
  fst (Accept w s) = fst (Spec.step a s) /\
  refines (snd (Accept w s)) (snd (Spec.step a s)).
Proof.
  intros HR Hs. pose proof HR as [Hlen H].
  unfold Spec.step, Spec.accepts. destruct (Spec.top a) as [h|] eqn:Ht.
  2: { destruct H as (Hi & _ & _). unfold Accept. rewrite Hi. cbn [negb fst snd].
       split; [done|]. by apply refines_first. }
  destruct H as (Hi & Hh & Hu & Hle & Hbits).
  destruct (Z.ltb_spec h s) as [Hlt|Hge]; cbn [orb fst snd].
  { split.
    - unfold Accept. rewrite Hi, Hh. cbn [negb]. by rewrite (proj2 (Z.ltb_lt h s)).
    - rewrite Z.max_r by lia. by apply (refines_advance w a h). }
  unfold Accept. rewrite Hi, Hh. cbn [negb]. rewrite (proj2 (Z.ltb_ge h s)) by done.
  rewrite (u64_id (h - s)) by (unfold is_u64 in *; lia).
  rewrite Z.leb_antisym. destruct (Z.ltb_spec (h - s) ReplayWindowSize) as [Hin|Hout];
    cbn [negb andb fst snd]; [|by split].
  unfold replaySlot. rewrite land_bit_zero by lia. rewrite negb_involutive.
  change (Z.testbit _ _) with (slotBit (bits w) (s mod ReplayWindowSize)).
  rewrite Hbits by (unfold is_u64 in *; lia).
  destruct (decide (s ∈ Spec.seen a)) as [Hseen|Hfresh].
  { rewrite bool_decide_true, bool_decide_false by tauto. by split. }
  rewrite bool_decide_false, bool_decide_true by tauto. cbn [fst snd].
  split; [done|]. rewrite Z.max_l by lia.
  change (orWord _ _ _) with (mark (bits w) s).
  split; cbn [bits highest initialized Spec.top Spec.seen]; [by rewrite length_mark|].
  split_and!; [done|done|done| |].
  { intros s' [->%elem_of_singleton|Hi']%elem_of_union; [lia|]. apply Hle in Hi'. lia. }
  intros s' Hs' Hr. rewrite slotBit_mark, Hbits by (done || apply mod_is_slot).
  destruct (decide (s' = s)) as [->|Hne].
  - rewrite Z.eqb_refl, orb_true_r. symmetry. apply bool_decide_eq_true. set_solver.
  - rewrite (proj2 (Z.eqb_neq _ _)) by (unfold ReplayWindowSize in *; lia).
    rewrite orb_false_r. apply bool_decide_ext. set_solver.
Qed.

Lemma refines_run w a seqs :
  refines w a -> Forall is_u64 seqs ->
  fst (acceptAll w seqs) = fst (Spec.run a seqs) /\
  refines (snd (acceptAll w seqs)) (snd (Spec.run a seqs)).
Proof.
  intros HR Hall. revert w a HR. induction Hall as [|s seqs Hs Hall IH]; intros w a HR; [done|].
  cbn [acceptAll Spec.run]. destruct (refines_step w a s HR Hs) as [Hb HR'].
  destruct (Accept w s) as [b1 w1], (Spec.step a s) as [b2 a1]. cbn in Hb, HR'. subst b2.
  specialize (IH w1 a1 HR').
  destruct (acceptAll w1 seqs) as [bl1 w2], (Spec.run a1 seqs) as [bl2 a2]. cbn in IH |- *.
  destruct IH as [-> HR2]. done.
Qed.

(** ** Consequences *)

(** The numbers a run accepted, in order. *)
Fixpoint accepted (seqs : list Z) (bl : list bool) : list Z :=
  match seqs, bl with
  | s :: seqs', b :: bl' => if b then s :: accepted seqs' bl' else accepted seqs' bl'
  | _, _ => []
  end.

Lemma spec_step_top a s :
  (forall x, x ∈ Spec.seen a -> exists h, Spec.top a = Some h /\ x <= h) ->
  forall x, x ∈ Spec.seen (snd (Spec.step a s)) ->
    exists h, Spec.top (snd (Spec.step a s)) = Some h /\ x <= h.
Proof.
  intros H x. unfold Spec.step. destruct (Spec.accepts a s); cbn; [|by apply H].
  intros [->%elem_of_singleton|Hx]%elem_of_union; (eexists; split; [done|]).
  - destruct (Spec.top a); lia.
  - destruct (H x Hx) as (h & -> & ?). lia.
Qed.

(** The contract never accepts a number of its set. *)
Lemma spec_accepts_fresh a s :
  (forall x, x ∈ Spec.seen a -> exists h, Spec.top a = Some h /\ x <= h) ->
  Spec.accepts a s = true -> s ∉ Spec.seen a.
Proof.
  intros H Ha Hin. destruct (H s Hin) as (h & Ht & Hle).
  unfold Spec.accepts in Ha. rewrite Ht in Ha.
  rewrite (proj2 (Z.ltb_ge h s)) in Ha by done. cbn in Ha.
  rewrite bool_decide_false, andb_false_r in Ha by tauto. done.
Qed.

Lemma spec_run_fresh a seqs :
  (forall x, x ∈ Spec.seen a -> exists h, Spec.top a = Some h /\ x <= h) ->
  NoDup (accepted seqs (fst (Spec.run a seqs))) /\
  (forall x, x ∈ accepted seqs (fst (Spec.run a seqs)) -> x ∉ Spec.seen a).
Proof.
  revert a. induction seqs as [|s seqs IH]; intros a H; cbn [Spec.run].
  { split; [constructor|]. intros x Hx. by apply elem_of_nil in Hx. }
  pose proof (spec_step_top a s H) as Htop. unfold Spec.step in *.
  pose proof (spec_accepts_fresh a s H) as Hfresh.
  destruct (Spec.accepts a s) eqn:Ha; cbn [fst snd] in *;
    destruct (IH _ Htop) as [Hnd Hnew];
    destruct (Spec.run _ seqs) as [bl a2]; cbn [fst accepted] in *; [|done].
  split.
  - constructor; [|done]. intros Hx%Hnew. set_solver.
  - intros x [->|Hx]%elem_of_cons; [by apply Hfresh|]. apply Hnew in Hx. set_solver.
Qed.

(** What the contract accepts when all numbers lie within one window. *)
Lemma spec_run_reordered a lo seqs :
  NoDup seqs ->
  Forall (fun s => lo <= s < lo + ReplayWindowSize) seqs ->
  (forall s, s ∈ seqs -> s ∉ Spec.seen a) ->
  (forall h, Spec.top a = Some h -> h < lo + ReplayWindowSize) ->
  fst (Spec.run a seqs) = replicate (length seqs) true.
Proof.
  revert a. induction seqs as [|s seqs IH]; intros a Hnd Hwin Hnew Htop; [done|].
  apply NoDup_cons in Hnd as [Hs Hnd]. apply Forall_cons in Hwin as [Hr Hwin].
  assert (Spec.accepts a s = true) as Ha.
  { unfold Spec.accepts. destruct (Spec.top a) as [h|] eqn:Ht; [|done].
    specialize (Htop h eq_refl). apply orb_true_iff.
    destruct (Z.ltb_spec h s); [by left|right]. apply andb_true_iff. split; [apply Z.ltb_lt; lia|].
    apply bool_decide_eq_true. apply Hnew. set_solver. }
  cbn [Spec.run length replicate]. unfold Spec.step. rewrite Ha.
  specialize (IH (Spec.mkWindow (Some (match Spec.top a with None => s | Some h => Z.max h s end))
    ({[s]} ∪ Spec.seen a)) Hnd Hwin).
  destruct (Spec.run _ seqs) as [bl a2]. cbn [fst] in *. f_equal. apply IH.
  - intros x Hx. cbn. set_solver.
  - cbn. intros h [= <-]. destruct (Spec.top a); [specialize (Htop _ eq_refl)|]; lia.
Qed.

(** ** Properties *)

(** C1: for every sequence of 64-bit numbers a receiver feeds to a fresh
    [ReplayWindow], the decisions of the bitmap code are those of the abstract
    window that remembers every accepted number, and the bitmap keeps
    representing it. *)
Theorem replay_window_refines (seqs : list Z) (Hseqs : Forall is_u64 seqs) :
  fst (acceptAll zeroWindow seqs) = fst (Spec.run Spec.init seqs) /\
  refines (snd (acceptAll zeroWindow seqs)) (snd (Spec.run Spec.init seqs)).
Proof. apply refines_run; [apply refines_init|done]. Qed.

Lemma replay_window_refines_witness :
  Forall is_u64 [5; 3; 5; 2060; 3; 13] /\
  fst (acceptAll zeroWindow [5; 3; 5; 2060; 3; 13]) = [true; true; false; true; false; true].
Proof.
  assert (Forall is_u64 [5; 3; 5; 2060; 3; 13]) as H by forall_lia.
  split; [done|]. rewrite (proj1 (replay_window_refines _ H)). by vm_compute.
Defined.

(** no sequence number is ever accepted twice by a [ReplayWindow],
    whatever the order, the gaps and the repetitions of the input. *)
Theorem replay_window_no_duplicates (seqs : list Z) (Hseqs : Forall is_u64 seqs) :
  NoDup (accepted seqs (fst (acceptAll zeroWindow seqs))).
Proof.
  rewrite (proj1 (refines_run _ _ seqs refines_init Hseqs)).
  apply spec_run_fresh. set_solver.
Qed.

Lemma replay_window_no_duplicates_witness :
  NoDup (accepted [9; 9; 7; 4000; 9; 7] (fst (acceptAll zeroWindow [9; 9; 7; 4000; 9; 7]))).
Proof. apply (replay_window_no_duplicates [9; 9; 7; 4000; 9; 7]). forall_lia. Defined.

(** reordering within the window loses nothing: distinct numbers that all
    lie within 2048 of each other are all accepted, in any order. *)
Theorem replay_window_reordering (lo : Z) (seqs : list Z)
    (Hlo : 0 <= lo) (Hhi : lo + ReplayWindowSize <= 2 ^ 64)
    (Hdistinct : NoDup seqs)
    (Hwindow : Forall (fun s => lo <= s < lo + ReplayWindowSize) seqs) :
  fst (acceptAll zeroWindow seqs) = replicate (length seqs) true.
Proof.
  assert (Forall is_u64 seqs) as Hu
    by (eapply Forall_impl; [exact Hwindow|]; unfold is_u64; cbn; intros; lia).
  rewrite (proj1 (refines_run _ _ seqs refines_init Hu)).
  apply (spec_run_reordered _ lo); [done|done|set_solver|done].
Qed.

Lemma replay_window_reordering_witness :
  fst (acceptAll zeroWindow [2100; 60; 2107; 61]) = replicate 4 true.
Proof.
  apply (replay_window_reordering 60 [2100; 60; 2107; 61]); unfold ReplayWindowSize; try lia.
  - repeat (constructor; [set_solver|]); constructor.
  - forall_lia.
Defined.
