(* ===== verification/GoIO.v ===== *)
(** * Readers and writers: the [io] package as the sources use it

    A peer is modelled by the schedule of what its [Read] calls will return:
    every event carries some bytes and the error delivered with the last of
    them.  Quantifying over schedules quantifies over all fragmentations of a
    byte stream and over all positions of time-outs and failures.  A writer
    keeps the bytes it took and the schedule of its short writes and errors. *)
From S2P Require Import Prelude.

Open Scope Z_scope.

(** ** io.Reader *)

Record rd_event := RD {
  rd_bytes : list byte;
  rd_err : option error;
}.

Abbreviation reader := (list rd_event).

(** [r.Read(p)] with [len(p) = n > 0].  A schedule that is used up answers
    [io.EOF], and keeps answering it. *)
Definition Read (n : Z) (r : reader) : list byte * option error * reader :=
  match r with
  | [] => ([], Some EOF, [])
  | RD b e :: rest =>
      if len b <=? n then (b, e, rest)
      else (ztake n b, None, RD (zdrop n b) e :: rest)
  end.

(** [io.ReadFull(r, buf)] with [len(buf) = n]: the bytes read, the error. *)
Fixpoint ReadFull_loop (n : Z) (r : reader) : list byte * option error * reader :=
  if n <=? 0 then ([], None, r)
  else match r with
  | [] => ([], Some EOF, [])
  | RD b e :: rest =>
      if len b <=? n then
        if len b =? n then (b, None, rest)
        else match e with
        | Some err => (b, Some err, rest)
        | None =>
            let '(b', e', rest') := ReadFull_loop (n - len b) rest in
            (b ++ b', e', rest')
        end
      else (ztake n b, None, RD (zdrop n b) e :: rest)
  end.

Definition ReadFull (n : Z) (r : reader) : list byte * option error * reader :=
  let '(b, e, r') := ReadFull_loop n r in
  match e with
  | Some EOF => if 0 <? len b then (b, Some ErrUnexpectedEOF, r') else (b, e, r')
  | _ => (b, e, r')
  end.

(** [io.ReadFull(rand.Reader, buf)] with its wrapped error. *)
Definition randBytes (msg : string) (n : Z) (rnd : reader) : result (list byte * reader) :=
  match ReadFull n rnd with
  | (b, None, rnd') => Ok (b, rnd')
  | (_, Some _, _) => Fail (Errorf msg)
  end.

(** The bytes a schedule delivers, and whether it delivers them without an
    error before its end. *)
Definition rd_content (r : reader) : list byte := concat (rd_bytes <$> r).
Definition rd_clean (r : reader) : Prop := Forall (fun ev => rd_err ev = None) r.

(** A schedule without errors that delivers [bs], cut up in some way. *)
Definition delivers (r : reader) (b : list byte) : Prop := rd_clean r /\ rd_content r = b.

(** The same with time-outs in between: a deadline loses no byte. *)
Definition rd_lossless (r : reader) : Prop :=
  Forall (fun ev => match rd_err ev with None => True | Some e => is_timeout e = true end) r.
Definition carries (r : reader) (b : list byte) : Prop := rd_lossless r /\ rd_content r = b.

(** ** io.Writer *)

(** The outcome of a [Write]: how many bytes are taken at most, the error. *)
Record wr_event := WR {
  wr_take : Z;
  wr_err : option error;
}.

Record writer := mkWriter {
  wr_out : list byte;
  wr_sched : list wr_event;
}.

(** A writer that takes everything. *)
Definition sink : writer := mkWriter [] [].

(** [w.Write(p)]: the count and the error.  Past its schedule a writer takes
    everything. *)
Definition Write (p : list byte) (w : writer) : Z * option error * writer :=
  match wr_sched w with
  | [] => (len p, None, mkWriter (wr_out w ++ p) [])
  | WR k e :: rest =>
      let n := Z.min (Z.max k 0) (len p) in
      (n, e, mkWriter (wr_out w ++ ztake n p) rest)
  end.

(** ** Reading *)

Lemma rd_content_cons ev r : rd_content (ev :: r) = rd_bytes ev ++ rd_content r.
Proof. done. Qed.

Lemma delivers_nil r : delivers r [] -> Forall (fun ev => ev = RD [] None) r.
Proof.
  intros [Hc E]. unfold rd_content in E. revert E.
  induction Hc as [|[b e] r He Hc IH]; cbn in *; [constructor|].
  subst e. intros [-> E]%app_eq_nil. constructor; auto.
Qed.

Lemma ReadFull_loop_clean n r b :
  0 <= n -> n <= len b -> delivers r b ->
  exists r', ReadFull_loop n r = (ztake n b, None, r') /\ delivers r' (zdrop n b).
Proof.
  revert n b. induction r as [|[c e] r IH]; intros n b Hn Hle [Hc E]; simpl.
  - cbn in E. subst b. assert (n = 0) as -> by (simpl in Hle; lia).
    simpl. eexists. split; [done|]. split; [constructor|done].
  - apply Forall_cons in Hc as [He Hc]. simpl in He. subst e.
    rewrite rd_content_cons in E. simpl in E. subst b.
    destruct (Z.leb_spec n 0).
    { assert (n = 0) as -> by lia. eexists. split; [done|].
      split; [by constructor|]. done. }
    destruct (Z.leb_spec (len c) n) as [Hcn|Hcn].
    + destruct (Z.eqb_spec (len c) n) as [Heq|Hne].
      * eexists. rewrite ztake_app, zdrop_app by done. done.
      * rewrite len_app in Hle.
        destruct (IH (n - len c) (rd_content r)) as (r' & Hr & Hd); [lia|lia|done|].
        rewrite Hr. eexists. split.
        -- f_equal. f_equal. unfold ztake. rewrite take_app_ge by lia. do 2 f_equal. lia.
        -- unfold zdrop in *. rewrite drop_app_ge by lia.
           replace (Z.to_nat n - length c)%nat with (Z.to_nat (n - len c)) by lia. done.
    + eexists. split.
      * f_equal. f_equal. unfold ztake. rewrite take_app_le by lia. done.
      * unfold zdrop. rewrite drop_app_le by lia. split; [by constructor|done].
Qed.

(** On a stream without errors, [io.ReadFull] returns exactly the next [n]
    bytes whatever the fragmentation. *)
Lemma ReadFull_clean n r b :
  0 <= n -> n <= len b -> delivers r b ->
  exists r', ReadFull n r = (ztake n b, None, r') /\ delivers r' (zdrop n b).
Proof.
  intros Hn Hle Hd. destruct (ReadFull_loop_clean n r b Hn Hle Hd) as (r' & Hr & Hd').
  exists r'. unfold ReadFull. by rewrite Hr.
Qed.

Lemma ReadFull_app n r b1 b2 :
  n = len b1 -> delivers r (b1 ++ b2) ->
  exists r', ReadFull n r = (b1, None, r') /\ delivers r' b2.
Proof.
  intros -> Hd. destruct (ReadFull_clean (len b1) r (b1 ++ b2)) as (r' & Hr & Hd');
    [lia|rewrite len_app; lia|done|].
  rewrite ztake_app in Hr by done. rewrite zdrop_app in Hd' by done. eauto.
Qed.

(** A stream that ends early gives [io.EOF] at a boundary and
    [io.ErrUnexpectedEOF] inside a field. *)
Lemma ReadFull_loop_short n r b :
  len b < n -> delivers r b -> ReadFull_loop n r = (b, Some EOF, []).
Proof.
  revert n b. induction r as [|[c e] r IH]; intros n b Hlt [Hc E]; simpl.
  - cbn in E. subst b. rewrite (proj2 (Z.leb_gt n 0)) by (simpl in Hlt; lia). done.
  - apply Forall_cons in Hc as [He Hc]. simpl in He. subst e.
    rewrite rd_content_cons in E. simpl in E. subst b. rewrite len_app in Hlt.
    rewrite (proj2 (Z.leb_gt n 0)), (proj2 (Z.leb_le (len c) n)), (proj2 (Z.eqb_neq _ _)) by lia.
    rewrite (IH (n - len c) (rd_content r)) by (done || lia). done.
Qed.

Lemma ReadFull_short n r b :
  len b < n -> delivers r b ->
  ReadFull n r = (b, Some (if 0 <? len b then ErrUnexpectedEOF else EOF), []).
Proof.
  intros Hlt Hd. unfold ReadFull. rewrite (ReadFull_loop_short n r b) by done.
  by destruct (0 <? len b).
Qed.

(** Whatever the schedule does, [io.ReadFull] never returns more than asked
    for, and returns all of it exactly when there is no error. *)
Lemma ReadFull_loop_bound n r b e r' :
  0 <= n -> ReadFull_loop n r = (b, e, r') ->
  len b <= n /\ (e = None <-> len b = n).
Proof.
  revert n b e r'. induction r as [|[c ce] r IH]; intros n b e r' Hn H; simpl in H.
  - destruct (Z.leb_spec n 0); simplify_eq/=; split; try lia; split; intros; try done; lia.
  - destruct (Z.leb_spec n 0); [simplify_eq/=; split; try lia; split; intros; done || lia|].
    destruct (Z.leb_spec (len c) n).
    + destruct (Z.eqb_spec (len c) n); [simplify_eq; split; [lia|done]|].
      destruct ce as [err|].
      * simplify_eq. split; [lia|]. split; intros; done || lia.
      * destruct (ReadFull_loop (n - len c) r) as [[b' e'] rest'] eqn:E. simplify_eq.
        destruct (IH (n - len c) _ _ _ ltac:(lia) E) as [Hle Hiff].
        rewrite len_app. split; [lia|]. rewrite Hiff. lia.
    + simplify_eq. rewrite len_ztake by lia. split; [lia|done].
Qed.

Lemma ReadFull_bound n r b e r' :
  0 <= n -> ReadFull n r = (b, e, r') -> len b <= n /\ (e = None <-> len b = n).
Proof.
  intros Hn H. unfold ReadFull in H.
  destruct (ReadFull_loop n r) as [[b0 e0] r0] eqn:E.
  pose proof (ReadFull_loop_bound _ _ _ _ _ Hn E) as [Hle Hiff].
  inv_fun H; split; try done; rewrite <- Hiff; done.
Qed.

(** What [io.ReadFull] returns is what comes next on the stream. *)
Lemma ReadFull_loop_content n r b e r' : ReadFull_loop n r = (b, e, r') -> rd_content r = b ++ rd_content r'.
Proof.
  revert n b e r'. induction r as [|[c ce] r IH]; intros n b e r' E; cbn [ReadFull_loop] in E.
  - destruct (n <=? 0); by simplify_eq/=.
  - rewrite rd_content_cons. cbn [rd_bytes]. destruct (n <=? 0); [by simplify_eq/=|].
    destruct (len c <=? n).
    + destruct (len c =? n); [by simplify_eq|]. destruct ce; [by simplify_eq|].
      destruct (ReadFull_loop (n - len c) r) as [[b' e'] rest'] eqn:El. simplify_eq.
      by rewrite (IH _ _ _ _ El), app_assoc.
    + simplify_eq. rewrite rd_content_cons. cbn [rd_bytes]. by rewrite app_assoc, ztake_zdrop.
Qed.

Lemma ReadFull_content n r b e r' : ReadFull n r = (b, e, r') -> rd_content r = b ++ rd_content r'.
Proof.
  unfold ReadFull. destruct (ReadFull_loop n r) as [[b0 e0] r0] eqn:E. apply ReadFull_loop_content in E as ->.
  intros Hr. by inv_fun Hr.
Qed.

(** ** Reading with deadlines *)

Lemma delivers_carries r b : delivers r b -> carries r b.
Proof.
  intros [Hc E]. split; [|done]. eapply Forall_impl; [exact Hc|]. by intros ev ->.
Qed.

(** [Read] on a lossless stream: a prefix of the content, and progress in the
    bytes or in the schedule unless the stream is at its end. *)
Lemma Read_carries n r b :
  0 < n -> carries r b ->
  exists b1 e r' b2,
    Read n r = (b1, e, r') /\ b = b1 ++ b2 /\ carries r' b2 /\ len b1 <= n /\
    ((r = [] /\ b1 = [] /\ b2 = [] /\ r' = [] /\ e = Some EOF) \/
     ((length b1 + length r' < length b1 + length r \/ (0 < length b1 /\ length r' = length r))%nat /\
      match e with None => True | Some te => is_timeout te = true end)).
Proof.
  intros Hn [Hl E]. destruct r as [|[c e] r]; cbn [Read].
  - cbn in E. subst b. eexists [], _, [], []. split_and!; try done; [cbn; lia|]. by left.
  - apply Forall_cons in Hl as [He Hl]. cbn in He. rewrite rd_content_cons in E. cbn in E.
    destruct (Z.leb_spec (len c) n).
    + eexists c, e, r, (rd_content r). split_and!; try done. right. split; [left; cbn; lia|done].
    + eexists _, _, _, (zdrop n c ++ rd_content r). split_and!; [done| | | |].
      * by rewrite app_assoc, ztake_zdrop.
      * split; [by constructor|done].
      * rewrite len_ztake; lia.
      * right. split; [|done]. right. split; [|done].
        pose proof (len_ztake n c). lia.
Qed.

Lemma ReadFull_loop_carries n r b :
  0 <= n -> carries r b ->
  exists b1 e r' b2,
    ReadFull_loop n r = (b1, e, r') /\ b = b1 ++ b2 /\ carries r' b2 /\
    (length r' <= length r)%nat /\
    ((e = None /\ len b1 = n) \/
     (exists te, e = Some te /\ is_timeout te = true /\ len b1 < n /\ (length r' < length r)%nat) \/
     (e = Some EOF /\ b2 = [] /\ r' = [] /\ len b1 < n)).
Proof.
  revert n b. induction r as [|[c e] r IH]; intros n b Hn [Hl E]; simpl ReadFull_loop.
  - cbn in E. subst b. destruct (Z.leb_spec n 0).
    + eexists [], _, [], []. split_and!; try done. left. split; [done|]. cbn. lia.
    + eexists [], _, [], []. split_and!; try done. right; right. split_and!; try done.
  - pose proof Hl as Hl0. apply Forall_cons in Hl as [He Hl]. cbn in He.
    rewrite rd_content_cons in E. cbn in E.
    destruct (Z.leb_spec n 0).
    { eexists [], _, _, b. split_and!; try done. left. split; [done|]. cbn. lia. }
    destruct (Z.leb_spec (len c) n).
    + destruct (Z.eqb_spec (len c) n) as [Heq|Hne].
      * eexists c, _, r, _. split_and!; try done; [cbn; lia|]. by left.
      * destruct e as [te|].
        -- eexists c, _, r, _. split_and!; try done; [cbn; lia|].
           right; left. exists te. split_and!; try done; [lia|cbn; lia].
        -- destruct (IH (n - len c) (rd_content r)) as (b1 & e1 & r1 & b2 & Hr & Hb & Hc & Hle & Hd);
             [lia|done|].
           rewrite Hr. eexists (c ++ b1), e1, r1, b2.
           split_and!; try done; [by rewrite <- E, Hb, app_assoc|cbn; lia|].
           rewrite len_app. destruct Hd as [[-> ?]|[(te & -> & ? & ? & ?)|(-> & ? & ? & ?)]].
           ++ left. split; [done|lia].
           ++ right; left. exists te. split_and!; try done; [lia|cbn; lia].
           ++ right; right. split_and!; try done. lia.
    + eexists _, _, _, (zdrop n c ++ rd_content r). split_and!; [done| | |cbn; lia|].
      * by rewrite app_assoc, ztake_zdrop.
      * split; [by constructor|done].
      * left. split; [done|]. rewrite len_ztake; lia.
Qed.

(** [io.ReadFull] on a lossless stream: all of it; or the part before a
    time-out, with an event gone; or what was left at the end of the stream. *)
Lemma ReadFull_carries n r b :
  0 <= n -> carries r b ->
  exists b1 e r' b2,
    ReadFull n r = (b1, e, r') /\ b = b1 ++ b2 /\ carries r' b2 /\
    (length r' <= length r)%nat /\
    ((e = None /\ len b1 = n) \/
     (exists te, e = Some te /\ is_timeout te = true /\ len b1 < n /\ (length r' < length r)%nat) \/
     ((e = Some EOF \/ e = Some ErrUnexpectedEOF) /\ b2 = [] /\ r' = [] /\ len b1 < n)).
Proof.
  intros Hn Hc. destruct (ReadFull_loop_carries n r b Hn Hc)
    as (b1 & e & r' & b2 & Hr & Hb & Hc' & Hle & Hd).
  unfold ReadFull. rewrite Hr.
  destruct Hd as [[-> ?]|[(te & -> & Ht & ? & ?)|(-> & ? & ? & ?)]].
  - eexists _, _, _, _. split_and!; try done. by left.
  - eexists b1, (Some te), r', b2.
    split_and!; [by destruct te|done|done|done|]. right; left. eauto.
  - destruct (0 <? len b1); eexists b1, _, r', b2; split_and!; try done; right; right; auto.
Qed.

Lemma randBytes_ok msg n rnd b rnd' :
  0 <= n -> randBytes msg n rnd = Ok (b, rnd') -> len b = n.
Proof.
  unfold randBytes. intros Hn E. destruct (ReadFull n rnd) as [[b0 e] r] eqn:Er.
  apply ReadFull_bound in Er as [_ He]; [|done]. destruct e; [done|]. injection E as <- _. by apply He.
Qed.

(** ** Writing *)

Lemma Write_sink p out : Write p (mkWriter out []) = (len p, None, mkWriter (out ++ p) []).
Proof. done. Qed.

(** The count of a [Write] is the length of the prefix that went out. *)
Lemma Write_count p w n e w' :
  Write p w = (n, e, w') ->
  0 <= n <= len p /\ wr_out w' = wr_out w ++ ztake n p.
Proof.
  unfold Write. intros H. inv_fun H.
  - split; [lia|]. by rewrite ztake_all by lia.
  - split; [lia|done].
Qed.
