(* ===== verification/GoNet.v ===== *)
(** * [strconv] and [net] as the sources use them

    Decimal integers, host:port strings, and the textual forms of IP
    addresses, as executable functions on byte strings.  The behaviour is the
    one of Go's standard library: [Atoi] takes a sign and leading zeros,
    [SplitHostPort] takes brackets, [ParseIP] takes dotted IPv4 without
    leading zeros and IPv6 with one [::] and a trailing dotted quad, and
    [IP.String] prints IPv4-mapped addresses dotted and compresses the longest
    run of zero groups. *)
From S2P Require Import Prelude.

Open Scope Z_scope.

Abbreviation gostring := (list byte).

(** ** Characters *)

Definition chColon : byte := Byte.x3a.
Definition chLBracket : byte := Byte.x5b.
Definition chRBracket : byte := Byte.x5d.
Definition chDot : byte := Byte.x2e.
Definition chPercent : byte := Byte.x25.
Definition chMinus : byte := Byte.x2d.
Definition chPlus : byte := Byte.x2b.

Definition indexByte (c : byte) (s : gostring) : option nat := fst <$> list_find (eq c) s.

Definition contains (c : byte) (s : gostring) : bool := bool_decide (c ∈ s).

(** The position of the last occurrence. *)
Definition lastIndexByte (c : byte) (s : gostring) : option nat :=
  (fun i => (length s - 1 - i)%nat) <$> indexByte c (reverse s).

Definition hasPrefix (p s : gostring) : bool := bool_decide (take (length p) s = p).

(** ** strconv *)

Definition digit (d : Z) : byte := byte_of (48 + d).
Definition is_digit (b : byte) : bool := (48 <=? byteZ b) && (byteZ b <=? 57).

(** Decimal digits, most significant first; [fuel] bounds their number. *)
Fixpoint dec_digits (fuel : nat) (n : Z) : gostring :=
  match fuel with
  | O => []
  | S f => if n <? 10 then [digit n] else dec_digits f (n / 10) ++ [digit (n mod 10)]
  end.

(** [strconv.FormatInt(n, 10)] and [strconv.Itoa(n)] for an [int64]: at most
    nineteen digits. *)
Definition Itoa (n : Z) : gostring :=
  if n <? 0 then chMinus :: dec_digits 20 (- n) else dec_digits 20 n.

Definition dec_value (s : gostring) : Z :=
  fold_left (fun acc b => acc * 10 + (byteZ b - 48)) s 0.

(** [strconv.ParseInt(s, 10, 64)] and [strconv.Atoi(s)]. *)
Definition Atoi (s : gostring) : option Z :=
  let '(neg, ds) :=
    match s with
    | b :: rest => if bool_decide (b = chMinus) then (true, rest)
                   else if bool_decide (b = chPlus) then (false, rest) else (false, s)
    | [] => (false, [])
    end in
  if bool_decide (ds = []) then None
  else if forallb is_digit ds then
    let v := if neg then - dec_value ds else dec_value ds in
    if (- 2 ^ 63 <=? v) && (v <? 2 ^ 63) then Some v else None
  else None.

(** ** host:port *)

Definition SplitHostPort (s : gostring) : option (gostring * gostring) :=
  match lastIndexByte chColon s with
  | None => None
  | Some i =>
      let port := drop (S i) s in
      if bool_decide (s !! 0%nat = Some chLBracket) then
        match indexByte chRBracket s with
        | None => None
        | Some e =>
            if bool_decide (S e = i) then
              if contains chLBracket (drop 1 s) || contains chRBracket (drop (S e) s) then None
              else Some (slice 1 e s, port)
            else None
        end
      else
        let host := take i s in
        if contains chColon host then None
        else if contains chLBracket s || contains chRBracket s then None
        else Some (host, port)
  end.

Definition JoinHostPort (host port : gostring) : gostring :=
  if contains chColon host then [chLBracket] ++ host ++ [chRBracket; chColon] ++ port
  else host ++ [chColon] ++ port.

(** ** IP addresses *)

(** The loop of netip's [parseIPv4Fields]: value and number of digits of the
    current octet, the octets before it, whether the previous character was a
    dot (or there is none). *)
Fixpoint parseIPv4Fields (s : gostring) (val digLen : Z) (fields : list byte) (dot : bool)
  : option (list byte) :=
  match s with
  | [] =>
      if (length fields <? 3)%nat then None else Some (fields ++ [byte_of val])
  | c :: rest =>
      if is_digit c then
        if (digLen =? 1) && (val =? 0) then None
        else
          let val' := val * 10 + (byteZ c - 48) in
          if 255 <? val' then None else parseIPv4Fields rest val' (digLen + 1) fields false
      else if bool_decide (c = chDot) then
        if dot || bool_decide (rest = []) then None
        else if bool_decide (length fields = 3%nat) then None
        else parseIPv4Fields rest 0 0 (fields ++ [byte_of val]) true
      else None
  end.

Definition parseIPv4 (s : gostring) : option (list byte) := parseIPv4Fields s 0 0 [] true.

Definition hex_val (b : byte) : option Z :=
  let z := byteZ b in
  if (48 <=? z) && (z <=? 57) then Some (z - 48)
  else if (97 <=? z) && (z <=? 102) then Some (z - 97 + 10)
  else if (65 <=? z) && (z <=? 70) then Some (z - 65 + 10)
  else None.

(** The hexadecimal digits at the head: their number, value, the rest. *)
Fixpoint hex_group (s : gostring) (off acc : Z) : option (Z * Z * gostring) :=
  match s with
  | [] => Some (off, acc, [])
  | c :: rest =>
      match hex_val c with
      | None => Some (off, acc, s)
      | Some d =>
          let acc' := acc * 16 + d in
          if 3 <? off then None
          else if 65535 <? acc' then None
          else hex_group rest (off + 1) acc'
      end
  end.

(** What the group loop of [parseIPv6] leaves: the bytes parsed, the position
    of the ellipsis, the characters not consumed. *)
Fixpoint ipv6_groups (fuel : nat) (s : gostring) (ip : list byte) (ell : option nat)
  : option (list byte * option nat * gostring) :=
  match fuel with
  | O => Some (ip, ell, s)
  | S f =>
      match hex_group s 0 0 with
      | None => None
      | Some (off, acc, rest) =>
          if off =? 0 then None
          else if bool_decide (head rest = Some chDot) then
            if bool_decide (ell = None) && negb (length ip =? 12)%nat then None
            else if (16 <? length ip + 4)%nat then None
            else match parseIPv4 s with
                 | None => None
                 | Some q => Some (ip ++ q, ell, [])
                 end
          else
            let ip' := ip ++ be 2 acc in
            match rest with
            | [] => Some (ip', ell, [])
            | c :: rest1 =>
                if negb (bool_decide (c = chColon)) then None
                else match rest1 with
                | [] => None
                | c1 :: rest2 =>
                    if bool_decide (c1 = chColon) then
                      match ell with
                      | Some _ => None
                      | None =>
                          if bool_decide (rest2 = []) then Some (ip', Some (length ip'), [])
                          else ipv6_groups f rest2 ip' (Some (length ip'))
                      end
                    else ipv6_groups f rest1 ip' ell
                end
            end
      end
  end.

(** netip's [parseIPv6] for text without a zone; [ParseIP] refuses zones. *)
Definition parseIPv6 (s : gostring) : option (list byte) :=
  let '(ell, s1) :=
    if bool_decide (take 2 s = [chColon; chColon]) then (Some 0%nat, drop 2 s) else (None, s) in
  if bool_decide (ell <> None) && bool_decide (s1 = []) then Some (replicate 16 Byte.x00)
  else
    match ipv6_groups 8 s1 [] ell with
    | None => None
    | Some (ip, ell', rest) =>
        if negb (bool_decide (rest = [])) then None
        else if (length ip <? 16)%nat then
          match ell' with
          | None => None
          | Some k => Some (take k ip ++ replicate (16 - length ip) Byte.x00 ++ drop k ip)
          end
        else match ell' with Some _ => None | None => Some ip end
    end.

(** [net.IP] values are the 16-byte form. *)
Definition v4prefix : list byte := replicate 10 Byte.x00 ++ [Byte.xff; Byte.xff].

(** The first of [.], [:] and [%] decides the family. *)
Fixpoint ip_family (s : gostring) : option byte :=
  match s with
  | [] => None
  | c :: rest => if bool_decide (c ∈ [chDot; chColon; chPercent]) then Some c else ip_family rest
  end.

(** [net.ParseIP]: a 16-byte address. *)
Definition ParseIP (s : gostring) : option (list byte) :=
  match ip_family s with
  | None => None
  | Some c =>
      if bool_decide (c = chDot) then (fun q => v4prefix ++ q) <$> parseIPv4 s
      else if bool_decide (c = chColon) then
        if contains chPercent s then None else parseIPv6 s
      else None
  end.

(** [ip.To4()] of a 4-byte or 16-byte [net.IP]. *)
Definition To4 (ip : list byte) : option (list byte) :=
  if bool_decide (length ip = 4%nat) then Some ip
  else if bool_decide (length ip = 16%nat) && bool_decide (take 12 ip = v4prefix)
  then Some (drop 12 ip)
  else None.

Definition dotted (q : list byte) : gostring :=
  match q with
  | [a; b; c; d] =>
      Itoa (byteZ a) ++ [chDot] ++ Itoa (byteZ b) ++ [chDot] ++
      Itoa (byteZ c) ++ [chDot] ++ Itoa (byteZ d)
  | _ => []
  end.

Definition hexdigit (d : Z) : byte := if d <? 10 then byte_of (48 + d) else byte_of (87 + d).

Fixpoint hex_digits (fuel : nat) (n : Z) : gostring :=
  match fuel with
  | O => []
  | S f => if n <? 16 then [hexdigit n] else hex_digits f (n / 16) ++ [hexdigit (n mod 16)]
  end.

(** The eight 16-bit groups. *)
Definition groups (ip : list byte) : list Z :=
  (fun i => be_val (slice (2 * i) (2 * i + 2) ip)) <$> seq 0 8.

Fixpoint zero_run (g : list Z) : nat :=
  match g with
  | 0 :: rest => S (zero_run rest)
  | _ => O
  end.

(** The first of the longest runs of at least two zero groups. *)
Fixpoint longest_run (i : nat) (g : list Z) (best : option (nat * nat)) : option (nat * nat) :=
  match g with
  | [] => best
  | _ :: rest =>
      let l := zero_run g in
      let best' :=
        if (2 <=? l)%nat && (match best with None => 0 | Some (s, e) => e - s end <? l)%nat
        then Some (i, i + l)%nat else best in
      longest_run (S i) rest best'
  end.

Definition hex_groups (g : list Z) : gostring :=
  match g with
  | [] => []
  | x :: rest => hex_digits 4 x ++ concat ((fun y => chColon :: hex_digits 4 y) <$> rest)
  end.

(** [ip.String()] of a 4-byte or 16-byte address. *)
Definition IPString (ip : list byte) : gostring :=
  match To4 ip with
  | Some q => dotted q
  | None =>
      let g := groups ip in
      match longest_run 0 g None with
      | None => hex_groups g
      | Some (s, e) => hex_groups (take s g) ++ [chColon; chColon] ++ hex_groups (drop e g)
      end
  end.

(** ** Spot checks against the documented behaviour *)

Example split_v6 :
  SplitHostPort (bs "[2001:db8::1]:443") = Some (bs "2001:db8::1", bs "443").
Proof. by vm_compute. Qed.

Example split_bad : SplitHostPort (bs "2001:db8::1:443") = None.
Proof. by vm_compute. Qed.

Example parse_print_v6 :
  IPString <$> ParseIP (bs "2001:DB8:0:0:1:0:0:1") = Some (bs "2001:db8::1:0:0:1").
Proof. by vm_compute. Qed.

Example parse_mapped : IPString <$> ParseIP (bs "::ffff:192.0.2.33") = Some (bs "192.0.2.33").
Proof. by vm_compute. Qed.

Example parse_leading_zero : ParseIP (bs "192.0.02.33") = None.
Proof. by vm_compute. Qed.

Example parse_any6 : IPString <$> ParseIP (bs "::") = Some (bs "::").
Proof. by vm_compute. Qed.

Example atoi_sign : Atoi (bs "+0080") = Some 80.
Proof. by vm_compute. Qed.

Example atoi_range : Atoi (bs "9223372036854775808") = None.
Proof. by vm_compute. Qed.

(** ** Lemmas: decimal integers *)

Lemma byteZ_digit d : 0 <= d < 10 -> byteZ (digit d) = 48 + d.
Proof. intros. unfold digit. apply byteZ_of_small. lia. Qed.

Lemma is_digit_digit d : 0 <= d < 10 -> is_digit (digit d) = true.
Proof. intros. unfold is_digit. rewrite byteZ_digit by done. apply andb_true_iff. lia. Qed.

Lemma dec_value_snoc l b : dec_value (l ++ [b]) = dec_value l * 10 + (byteZ b - 48).
Proof. unfold dec_value. by rewrite fold_left_app. Qed.

Lemma dec_digits_spec f n :
  0 <= n < 10 ^ Z.of_nat f ->
  dec_value (dec_digits f n) = n /\ forallb is_digit (dec_digits f n) = true.
Proof.
  revert n. induction f as [|f IH]; intros n Hn.
  - assert (n = 0) as -> by (cbn in Hn; lia). done.
  - rewrite Nat2Z.inj_succ, Z.pow_succ_r in Hn by lia. cbn [dec_digits].
    destruct (Z.ltb_spec n 10).
    + cbn. rewrite is_digit_digit by lia. unfold dec_value. cbn.
      rewrite byteZ_digit by lia. split; [lia|done].
    + destruct (IH (n / 10)) as [Hv Hd]; [lia|].
      rewrite dec_value_snoc, Hv, byteZ_digit, forallb_app, Hd by lia. cbn.
      rewrite is_digit_digit by lia. split; [lia|done].
Qed.

Lemma dec_digits_nonnil f n : (0 < f)%nat -> dec_digits f n <> [].
Proof. destruct f; [lia|]. intros _. cbn. destruct (n <? 10); [done|]. by destruct (dec_digits f _). Qed.

Lemma dec_digits_digits f n b :
  0 <= n < 10 ^ Z.of_nat f -> b ∈ dec_digits f n -> 48 <= byteZ b <= 57.
Proof.
  intros Hn Hin. destruct (dec_digits_spec f n Hn) as [_ Hd].
  rewrite forallb_forall in Hd. apply list_elem_of_In, Hd in Hin.
  unfold is_digit in Hin. lia.
Qed.

Definition is_port (p : Z) : Prop := 0 <= p <= 65535.

Lemma nonneg_fits n : 0 <= n < 2 ^ 63 -> 0 <= n < 10 ^ Z.of_nat 20.
Proof. intros. lia. Qed.

Lemma Itoa_nonneg n : 0 <= n -> Itoa n = dec_digits 20 n.
Proof. intros. unfold Itoa. by rewrite (proj2 (Z.ltb_ge n 0)). Qed.

Lemma Itoa_chars n b : 0 <= n < 2 ^ 63 -> b ∈ Itoa n -> 48 <= byteZ b <= 57.
Proof.
  intros Hn. rewrite Itoa_nonneg by lia. apply dec_digits_digits. by apply nonneg_fits.
Qed.

(** Printing then parsing a non-negative [int64] gives it back. *)
Lemma Atoi_Itoa n : 0 <= n < 2 ^ 63 -> Atoi (Itoa n) = Some n.
Proof.
  intros Hn. pose proof (Itoa_chars n) as Hch. unfold Atoi.
  assert (match Itoa n with
    | b :: rest => if bool_decide (b = chMinus) then (true, rest)
                   else if bool_decide (b = chPlus) then (false, rest) else (false, Itoa n)
    | [] => (false, [])
    end = (false, Itoa n)) as ->.
  { destruct (Itoa n) as [|b l] eqn:E; [done|].
    assert (48 <= byteZ b <= 57) as Hb by (apply Hch; [done|set_solver]).
    rewrite !bool_decide_false; [done| |]; intros ->;
      (change (byteZ chMinus) with 45 in Hb || change (byteZ chPlus) with 43 in Hb); lia. }
  rewrite Itoa_nonneg by lia.
  destruct (dec_digits_spec 20 n) as [Hv Hd]; [by apply nonneg_fits|].
  rewrite bool_decide_false by (apply dec_digits_nonnil; lia).
  rewrite Hd, Hv. rewrite (proj2 (Z.leb_le _ _)), (proj2 (Z.ltb_lt _ _)) by lia. done.
Qed.

(** ** Lemmas: addresses *)

Lemma parseIPv4Fields_length s val dl fields dot q :
  (length fields <= 3)%nat ->
  parseIPv4Fields s val dl fields dot = Some q -> length q = 4%nat.
Proof.
  revert val dl fields dot. induction s as [|c s IH]; intros val dl fields dot Hf H; cbn [parseIPv4Fields] in H.
  - destruct (Nat.ltb_spec (length fields) 3); [done|]. simplify_eq.
    rewrite length_app. cbn. lia.
  - inv_fun H; (eapply IH; [|eassumption]).
    all: rewrite ?length_app; cbn; lia.
Qed.

Lemma parseIPv4_length s q : parseIPv4 s = Some q -> length q = 4%nat.
Proof. apply parseIPv4Fields_length. cbn. lia. Qed.

Lemma ipv6_groups_length f s ip ell ip' ell' rest :
  (length ip + 2 * f <= 16)%nat ->
  (forall k, ell = Some k -> (k <= length ip)%nat) ->
  ipv6_groups f s ip ell = Some (ip', ell', rest) ->
  (length ip' <= 16)%nat /\ (forall k, ell' = Some k -> (k <= length ip')%nat).
Proof.
  revert s ip ell. induction f as [|f IH]; intros s ip ell Hl He H; cbn [ipv6_groups] in H.
  { simplify_eq. split; [lia|done]. }
  inv_fun H.
  - apply parseIPv4_length in Heqo0. rewrite length_app, Heqo0.
    split; [lia|]. intros k Hk%He. lia.
  - rewrite length_app. cbn. split; [lia|]. intros k Hk%He. lia.
  - rewrite length_app. cbn. split; [lia|]. intros k [= <-]. lia.
  - eapply IH; [| |eassumption]; rewrite length_app; cbn; [lia|]. intros k [= <-]. lia.
  - eapply IH; [| |eassumption]; rewrite length_app; cbn; [lia|]. intros k Hk%He. lia.
Qed.

Lemma parseIPv6_length s ip : parseIPv6 s = Some ip -> length ip = 16%nat.
Proof.
  unfold parseIPv6. intros H.
  destruct (if bool_decide (take 2 s = [chColon; chColon]) then (Some 0%nat, drop 2 s)
            else (None, s)) as [ell s1] eqn:E.
  assert (forall k, ell = Some k -> k = 0%nat) as Hell
    by (inv_fun E; naive_solver).
  destruct (bool_decide (ell <> None) && bool_decide (s1 = [])); [by simplify_eq|].
  destruct (ipv6_groups 8 s1 [] ell) as [[[ip' ell'] rest]|] eqn:G; [|done].
  apply ipv6_groups_length in G as [Hl Hk];
    [|cbn; lia|intros k Hk%Hell; cbn; lia].
  inv_fun H; [|lia].
  specialize (Hk _ eq_refl). len_simpl. lia.
Qed.

Lemma ParseIP_length s ip : ParseIP s = Some ip -> length ip = 16%nat.
Proof.
  unfold ParseIP. intros H. inv_fun H; [|by eapply parseIPv6_length].
  apply fmap_Some in H as (q & Hq%parseIPv4_length & ->).
  cbn [length]. by rewrite Hq.
Qed.

Lemma To4_length ip q : To4 ip = Some q -> length q = 4%nat.
Proof. unfold To4. intros H. inv_fun H; [done|]. rewrite length_drop. lia. Qed.

(** A four-byte address is printed like its mapped form. *)
Lemma IPString_4 q : length q = 4%nat -> IPString q = dotted q.
Proof. intros H. unfold IPString, To4. by rewrite bool_decide_true. Qed.

(** ** Lemmas: host:port *)

Lemma indexByte_fresh c l1 l2 : c ∉ l1 -> indexByte c (l1 ++ c :: l2) = Some (length l1).
Proof.
  intros H. unfold indexByte. rewrite list_find_app_r.
  - cbn. rewrite decide_True by done. done.
  - apply list_find_None, Forall_forall. by intros x Hx ->.
Qed.

Lemma lastIndexByte_fresh c l1 l2 : c ∉ l2 -> lastIndexByte c (l1 ++ c :: l2) = Some (length l1).
Proof.
  intros H. unfold lastIndexByte. rewrite reverse_app, reverse_cons, <- app_assoc. cbn.
  rewrite indexByte_fresh by (by rewrite elem_of_reverse). cbn. f_equal.
  rewrite length_app, length_reverse. cbn. lia.
Qed.

Lemma contains_true c s : c ∈ s -> contains c s = true.
Proof. apply bool_decide_true. Qed.

Lemma contains_false c s : c ∉ s -> contains c s = false.
Proof. apply bool_decide_false. Qed.

(** A host without brackets and a port of digits survive joining and splitting. *)
Lemma SplitHostPort_JoinHostPort host port :
  chLBracket ∉ host -> chRBracket ∉ host ->
  chColon ∉ port -> chLBracket ∉ port -> chRBracket ∉ port ->
  SplitHostPort (JoinHostPort host port) = Some (host, port).
Proof.
  intros HL HR PC PL PR. unfold JoinHostPort.
  destruct (decide (chColon ∈ host)) as [HC|HC].
  - rewrite contains_true by done. unfold SplitHostPort.
    replace ([chLBracket] ++ host ++ [chRBracket; chColon] ++ port)
      with ((chLBracket :: host ++ [chRBracket]) ++ chColon :: port)
      by (cbn; rewrite <- !app_assoc; done).
    rewrite lastIndexByte_fresh by done.
    rewrite bool_decide_true by done.
    assert (indexByte chRBracket ((chLBracket :: host ++ [chRBracket]) ++ chColon :: port)
      = Some (S (length host))) as ->.
    { replace ((chLBracket :: host ++ [chRBracket]) ++ chColon :: port)
        with ((chLBracket :: host) ++ chRBracket :: chColon :: port)
        by (cbn; rewrite <- !app_assoc; done).
      rewrite indexByte_fresh; [done|]. intros [E|E]%elem_of_cons; done. }
    rewrite bool_decide_true by (cbn; rewrite length_app; cbn; lia).
    rewrite !contains_false.
    + cbn [orb]. f_equal. f_equal.
      * unfold slice. cbn [skipn app]. rewrite <- app_assoc.
        rewrite drop_0, take_app_length' by lia. done.
      * cbn. rewrite length_app. cbn. rewrite drop_app_ge by (rewrite length_app; cbn; lia).
        rewrite length_app. cbn. replace (_ - _)%nat with 1%nat by lia. done.
    + cbn. rewrite <- app_assoc, drop_app_ge by lia.
      replace (_ - _)%nat with 1%nat by lia. cbn. set_solver.
    + cbn [app skipn]. rewrite drop_0, !elem_of_app, !elem_of_cons, elem_of_nil. naive_solver.
  - rewrite contains_false by done. unfold SplitHostPort.
    change (host ++ [chColon] ++ port) with (host ++ chColon :: port).
    rewrite lastIndexByte_fresh by done.
    rewrite bool_decide_false.
    + rewrite take_app_length, contains_false by done.
      rewrite !contains_false by (rewrite !elem_of_app, !elem_of_cons; naive_solver).
      cbn [orb]. f_equal. f_equal. rewrite drop_app_ge by lia.
      replace (_ - _)%nat with 1%nat by lia. done.
    + destruct host as [|b host]; cbn; [done|]. intros [= ->]. set_solver.
Qed.
