(* ===== verification/Frame.v ===== *)
(** * Stream frames and datagrams of [internal/frame] (frame.go)

    The 8-byte header, whole frames, the copy loop that turns a byte stream
    into DATA frames, and the datagram codec with its address cache.  The
    readers and writers on top of the frames are in [FrameStream]. *)
From S2P Require Import Prelude GoIO.

Open Scope Z_scope.

(** ** Constants and types *)

Definition Version : byte := Byte.x01.
Definition HeaderSize : Z := 8.
Definition DataChunkSize : Z := 262144.
Definition MaxPayload : Z := 16777216.

(** [Type]: the values are those of the [iota + 1] block. *)
Definition TypeOpen : byte := Byte.x01.
Definition TypeOpenAck : byte := Byte.x02.
Definition TypeData : byte := Byte.x03.
Definition TypeHalfClose : byte := Byte.x04.
Definition TypeReset : byte := Byte.x05.
Definition TypeWindowUpdate : byte := Byte.x06.

Record Header := mkHeader {
  h_Type : byte;
  h_Flags : Z;
  h_Length : Z;
}.

(** ** Headers *)

(** [encodeHeader]: the eight bytes it stores into [dst]. *)
Definition encodeHeader (frameType : byte) (flags length : Z) : list byte :=
  [Version; frameType] ++ be 2 flags ++ be 4 length.

(** The header fields of eight raw bytes. *)
Definition parseHeader (raw : list byte) : Header :=
  mkHeader (at_ raw 1) (be_val (slice 2 4 raw)) (be_val (slice 4 8 raw)).

Definition errTooLarge : error := Errorf "frame payload too large".

Definition ReadHeader (r : reader) : result Header * reader :=
  let '(raw, err, r') := ReadFull HeaderSize r in
  match err with
  | Some e => (Fail e, r')
  | None =>
      if negb (bool_decide (at_ raw 0 = Version)) then (Fail (Errorf "unsupported frame version"), r')
      else
        let header := parseHeader raw in
        if MaxPayload <? h_Length header then (Fail errTooLarge, r')
        else (Ok header, r')
  end.

(** [ReadPayload]: the payload read so far and the error, as Go returns both. *)
Definition ReadPayload (r : reader) (length : Z) : list byte * option error * reader :=
  if MaxPayload <? length then ([], Some errTooLarge, r)
  else ReadFull length r.

(** ** Writing *)

(** The loop of [writeFull]; every iteration but the last uses up an entry of
    the writer's schedule. *)
Fixpoint writeFull_loop (fuel : nat) (w : writer) (payload : list byte) : option error * writer :=
  if bool_decide (payload = []) then (None, w)
  else match fuel with
  | O => (None, w)
  | S fuel' =>
      let '(n, err, w') := Write payload w in
      match err with
      | Some e => (Some e, w')
      | None =>
          if n =? 0 then (Some ErrShortWrite, w')
          else writeFull_loop fuel' w' (zdrop n payload)
      end
  end.

Definition writeFull (w : writer) (payload : list byte) : option error * writer :=
  writeFull_loop (S (length (wr_sched w))) w payload.

Definition WriteFrame (w : writer) (frameType : byte) (flags : Z) (payload : list byte)
  : option error * writer :=
  if MaxPayload <? len payload then (Some errTooLarge, w)
  else writeFull w (encodeHeader frameType flags (u32 (len payload)) ++ payload).

(** The loop of [CopyAsDataFrames]; an iteration takes an event or at least a
    full buffer from the reader. *)
Fixpoint copy_loop (fuel : nat) (w : writer) (r : reader) (total : Z)
  : Z * option error * writer * reader :=
  match fuel with
  | O => (total, Some (Errorf "fuel"), w, r)
  | S fuel' =>
      let '(b, readErr, r') := Read DataChunkSize r in
      let '(werr, w', total') :=
        if 0 <? len b then
          let '(err, w1) := writeFull w (encodeHeader TypeData 0 (u32 (len b)) ++ b) in
          match err with
          | Some e => (Some e, w1, total)
          | None => (None, w1, total + len b)
          end
        else (None, w, total) in
      match werr with
      | Some e => (total', Some e, w', r')
      | None =>
          match readErr with
          | Some EOF => (total', None, w', r')
          | Some e => (total', Some e, w', r')
          | None => copy_loop fuel' w' r' total'
          end
      end
  end.

Definition CopyAsDataFrames (w : writer) (r : reader) : Z * option error * writer * reader :=
  copy_loop (S (length r + length (rd_content r))) w r 0.

Definition CopyAsDataFramesAndClose (w : writer) (r : reader) : option error * writer * reader :=
  let '(_, err, w', r') := CopyAsDataFrames w r in
  match err with
  | Some e =>
      let '(_, w'') := WriteFrame w' TypeReset 0 [] in
      (Some e, w'', r')
  | None =>
      let '(err', w'') := WriteFrame w' TypeHalfClose 0 [] in
      (err', w'', r')
  end.

(** ** Datagrams *)

Definition datagramVersion : byte := Byte.x01.
Definition datagramHeaderSize : Z := 11.
Definition maxDatagramAddress : Z := 512.
Definition MaxDatagramPayload : Z := 1350.
Definition MaxDatagramSize : Z := datagramHeaderSize + maxDatagramAddress + MaxDatagramPayload.

(** [EncodeDatagramInto] on a buffer of capacity [cap]; it overwrites every
    byte of the result, so the buffer's contents do not matter. *)
Definition EncodeDatagramInto (cap sequence : Z) (address payload : list byte)
  : result (list byte) :=
  if (len address =? 0) || (maxDatagramAddress <? len address) then
    Fail (Errorf "invalid datagram address")
  else if MaxDatagramPayload <? len payload then Fail (Errorf "datagram payload too large")
  else
    let length := datagramHeaderSize + len address + len payload in
    if cap <? length then Fail (Errorf "datagram buffer too small")
    else Ok ([datagramVersion] ++ be 8 sequence ++ be 2 (len address) ++ address ++ payload).

Definition EncodeDatagram (sequence : Z) (address payload : list byte) : result (list byte) :=
  EncodeDatagramInto (datagramHeaderSize + len address + len payload) sequence address payload.

Record DatagramCache := mkDatagramCache {
  dc_key : list byte;
  dc_address : list byte;
}.

Definition zeroDatagramCache : DatagramCache := mkDatagramCache [] [].

(** The method [Decode] of [DatagramCache]. *)
Definition DatagramCache_Decode (c : DatagramCache) (packet : list byte)
  : result (Z * list byte * list byte) * DatagramCache :=
  if (len packet <? datagramHeaderSize) || negb (bool_decide (at_ packet 0 = datagramVersion)) then
    (Fail (Errorf "invalid datagram header"), c)
  else
    let addressLength := be_val (slice 9 11 packet) in
    if (addressLength =? 0) || (maxDatagramAddress <? addressLength)
       || (len packet <? datagramHeaderSize + addressLength) then
      (Fail (Errorf "invalid datagram address length"), c)
    else
      let payload := zdrop (datagramHeaderSize + addressLength) packet in
      if MaxDatagramPayload <? len payload then (Fail (Errorf "datagram payload too large"), c)
      else
        let addressBytes := ztake addressLength (zdrop datagramHeaderSize packet) in
        let c' :=
          if bool_decide (dc_address c = []) || negb (bool_decide (dc_key c = addressBytes))
          then mkDatagramCache addressBytes addressBytes
          else c in
        (Ok (be_val (slice 1 9 packet), dc_address c', payload), c').

Definition DecodeDatagram (packet : list byte) : result (Z * list byte * list byte) :=
  fst (DatagramCache_Decode zeroDatagramCache packet).

(** ** Lemmas: headers *)

Lemma length_encodeHeader t f l : length (encodeHeader t f l) = 8%nat.
Proof. unfold encodeHeader. len_simpl. done. Qed.

Lemma len_encodeHeader t f l : len (encodeHeader t f l) = 8.
Proof. by rewrite length_encodeHeader. Qed.

#[export] Hint Rewrite length_encodeHeader len_encodeHeader : golen.

Lemma at_encodeHeader_0 t f l : at_ (encodeHeader t f l) 0 = Version.
Proof. done. Qed.

(** Reading back the fields of an encoded header. *)
Lemma parseHeader_encodeHeader t f l :
  is_u16 f -> is_u32 l -> parseHeader (encodeHeader t f l) = mkHeader t f l.
Proof.
  intros Hf Hl. unfold parseHeader. f_equal.
  - change (slice 2 4 (encodeHeader t f l)) with (be 2 f). by apply be_val_be2.
  - change (slice 4 8 (encodeHeader t f l)) with (be 4 l). by apply be_val_be4.
Qed.

(** An eight-byte header with the right version is the encoding of its fields. *)
Lemma encodeHeader_parseHeader raw :
  length raw = 8%nat -> at_ raw 0 = Version ->
  encodeHeader (h_Type (parseHeader raw)) (h_Flags (parseHeader raw)) (h_Length (parseHeader raw)) = raw.
Proof.
  intros Hl Hv. do 9 (destruct raw as [|? raw]; try done). clear Hl.
  cbn in Hv. unfold parseHeader, encodeHeader. cbn [h_Type h_Flags h_Length].
  rewrite !be_be_val by done. by rewrite <- Hv.
Qed.

(** ** Lemmas: writing *)

(** To a writer without a schedule everything goes out at once. *)
Lemma writeFull_sink out p : writeFull (mkWriter out []) p = (None, mkWriter (out ++ p) []).
Proof.
  unfold writeFull. cbn. case_bool_decide as E; [by rewrite E, app_nil_r|].
  rewrite (proj2 (Z.eqb_neq _ _)).
  - rewrite zdrop_all by lia. by case_bool_decide.
  - destruct p; [done|]. cbn. lia.
Qed.

Lemma writeFull_loop_out fuel w p e w' :
  writeFull_loop fuel w p = (e, w') ->
  exists n, 0 <= n <= len p /\ wr_out w' = wr_out w ++ ztake n p /\
    (length (wr_sched w) < fuel -> e = None -> n = len p)%nat.
Proof.
  revert w p. induction fuel as [|fuel IH]; intros w p H; cbn [writeFull_loop] in H.
  - exists 0. unfold ztake. cbn. rewrite app_nil_r.
    case_bool_decide; simplify_eq; split_and!; done || lia.
  - case_bool_decide as Hp.
    { simplify_eq. exists 0. cbn. rewrite app_nil_r. done. }
    destruct (Write p w) as [[n err] w1] eqn:EW.
    pose proof (Write_count _ _ _ _ _ EW) as [Hn Hout].
    destruct err as [e1|]; [simplify_eq; exists n; split_and!; done || lia|].
    destruct (Z.eqb_spec n 0); [simplify_eq; exists 0; split_and!; done || lia|].
    destruct (IH _ _ H) as (k & Hk & Hko & Hke).
    rewrite len_zdrop in Hk by done.
    exists (n + k). split; [lia|]. split.
    + rewrite Hko, Hout, <- app_assoc. f_equal.
      unfold ztake, zdrop. rewrite take_drop_commute.
      replace (Z.to_nat (n + k)) with (Z.to_nat n + Z.to_nat k)%nat by lia.
      rewrite <- (take_drop (Z.to_nat n) (take (Z.to_nat n + Z.to_nat k) p)) at 2.
      by rewrite take_take, Nat.min_l by lia.
    + intros Hf He. rewrite len_zdrop in Hke by done.
      unfold Write in EW. destruct (wr_sched w) as [|[j je] rest] eqn:ES; simplify_eq/=; [lia|].
      specialize (Hke ltac:(lia) eq_refl). lia.
Qed.

(** [writeFull] sends a prefix, and all of it exactly when it reports success:
    the fuel is never what stops it. *)
Lemma writeFull_out w p e w' :
  writeFull w p = (e, w') ->
  exists n, 0 <= n <= len p /\ wr_out w' = wr_out w ++ ztake n p /\ (e = None -> n = len p).
Proof.
  intros H. destruct (writeFull_loop_out _ _ _ _ _ H) as (n & Hn & Ho & He).
  exists n. split_and!; [lia|lia|done|]. intros. apply He; [lia|done].
Qed.

(** ** Lemmas: datagrams *)

Lemma datagram_slices seq addr payload packet :
  len addr <= maxDatagramAddress ->
  packet = [datagramVersion] ++ be 8 seq ++ be 2 (len addr) ++ addr ++ payload ->
  slice 1 9 packet = be 8 seq /\ be_val (slice 9 11 packet) = len addr /\
  zdrop datagramHeaderSize packet = addr ++ payload /\
  zdrop (datagramHeaderSize + len addr) packet = payload.
Proof.
  unfold maxDatagramAddress, datagramHeaderSize. intros Ha Hp.
  assert (packet = ([datagramVersion] ++ be 8 seq ++ be 2 (len addr)) ++ addr ++ payload) as E
    by (rewrite Hp, <- !app_assoc; done).
  split_and!.
  - by rewrite Hp.
  - transitivity (be_val (be 2 (len addr))); [by rewrite Hp|].
    apply be_val_be2. unfold is_u16. lia.
  - rewrite E. apply zdrop_app. len_simpl. lia.
  - rewrite E, app_assoc. apply zdrop_app. len_simpl. lia.
Qed.

(** What the cache must satisfy: a cached address is the text of its key. *)
Definition cache_ok (c : DatagramCache) : Prop :=
  dc_address c <> [] -> dc_address c = dc_key c.

Lemma cache_ok_zero : cache_ok zeroDatagramCache.
Proof. done. Qed.

(** With a well-formed cache, decoding ignores the cache and keeps it so. *)
Lemma Decode_cache c packet :
  cache_ok c ->
  fst (DatagramCache_Decode c packet) = DecodeDatagram packet /\
  cache_ok (snd (DatagramCache_Decode c packet)).
Proof.
  intros Hc. unfold DecodeDatagram, DatagramCache_Decode.
  repeat (case_match; [by split|]). cbn [dc_address zeroDatagramCache fst snd].
  rewrite (bool_decide_true ([] = [])) by done. cbn [orb dc_address].
  set (a := ztake _ _). case_bool_decide as E1; cbn [orb]; [by split|].
  case_bool_decide as E2; cbn [negb]; [|by split].
  split; [|done]. by rewrite (Hc E1), E2.
Qed.

(** Decoding what was encoded, when encoding accepts it. *)
Lemma DecodeDatagram_Encode seq addr payload packet :
  is_u64 seq -> EncodeDatagram seq addr payload = Ok packet ->
  DecodeDatagram packet = Ok (seq, addr, payload).
Proof.
  intros Hs H. unfold EncodeDatagram, EncodeDatagramInto in H.
  destruct ((len addr =? 0) || _) eqn:Ea; [done|]. bool_to_prop.
  destruct (_ <? len payload) eqn:Ep; [done|]. bool_to_prop.
  rewrite Z.ltb_irrefl in H.
  assert (packet = [datagramVersion] ++ be 8 seq ++ be 2 (len addr) ++ addr ++ payload) as Hp
    by congruence. clear H.
  destruct (datagram_slices seq addr payload packet) as (S1 & S2 & S3 & S4); [done|done|].
  unfold DecodeDatagram, DatagramCache_Decode.
  assert (len packet = datagramHeaderSize + len addr + len payload) as Hl
    by (rewrite Hp; len_simpl; unfold datagramHeaderSize; lia).
  rewrite (proj2 (Z.ltb_ge (len packet) _)) by lia.
  rewrite bool_decide_true by (by rewrite Hp). cbn [orb negb].
  rewrite S2, (proj2 (Z.eqb_neq _ _)), (proj2 (Z.ltb_ge _ (len addr))),
    (proj2 (Z.ltb_ge (len packet) _)) by lia.
  cbn [orb]. rewrite S4, (proj2 (Z.ltb_ge _ _)) by done.
  cbn [dc_address zeroDatagramCache]. rewrite (bool_decide_true ([] = [])) by done. cbn [orb].
  cbn [fst dc_address]. rewrite S1, S3, be_val_be8, ztake_app by done. done.
Qed.

(** Every accepted packet is the encoding of what it decodes to. *)
Lemma EncodeDatagram_Decode packet seq addr payload :
  DecodeDatagram packet = Ok (seq, addr, payload) ->
  EncodeDatagram seq addr payload = Ok packet.
Proof.
  unfold DecodeDatagram, DatagramCache_Decode. intros H.
  cbn [dc_address zeroDatagramCache] in H. rewrite (bool_decide_true ([] = [])) in H by done.
  cbn [orb] in H.
  destruct ((len packet <? _) || _) eqn:E1; [done|].
  apply orb_false_elim in E1 as [E1 E4]. bool_to_prop.
  destruct ((be_val (slice 9 11 packet) =? 0) || _ || _) eqn:E2; [done|]. bool_to_prop.
  destruct (MaxDatagramPayload <? _) eqn:E3; [done|]. bool_to_prop.
  cbn [fst dc_address] in H. injection H as <- <- <-.
  set (n := be_val (slice 9 11 packet)) in *.
  assert (0 <= n) by apply be_val_range.
  assert (len (ztake n (zdrop datagramHeaderSize packet)) = n) as Hla
    by (apply len_ztake; rewrite len_zdrop; unfold datagramHeaderSize in *; lia).
  unfold EncodeDatagram, EncodeDatagramInto. rewrite Hla.
  rewrite (proj2 (Z.eqb_neq n 0)), (proj2 (Z.ltb_ge _ n)), (proj2 (Z.ltb_ge _ _)),
    Z.ltb_irrefl by lia. cbn [orb]. f_equal.
  assert (ztake n (zdrop datagramHeaderSize packet) ++ zdrop (datagramHeaderSize + n) packet
    = zdrop datagramHeaderSize packet) as ->.
  { rewrite <- (ztake_zdrop n (zdrop datagramHeaderSize packet)) at 2. f_equal.
    unfold zdrop. rewrite drop_drop. f_equal. unfold datagramHeaderSize. lia. }
  unfold n. rewrite !be_be_val by (apply length_slice; unfold datagramHeaderSize in *; lia).
  clear -E1 E4. unfold datagramHeaderSize, zdrop in *.
  do 11 (destruct packet as [|? packet]; [cbn in E1; lia|]).
  cbn in E4. subst. done.
Qed.

(** One receiver decoding a flow through one cache. *)
Fixpoint decodeFlow (c : DatagramCache) (packets : list (list byte))
  : list (result (Z * list byte * list byte)) :=
  match packets with
  | [] => []
  | p :: rest => let '(d, c') := DatagramCache_Decode c p in d :: decodeFlow c' rest
  end.

(** ** Properties *)

(** the datagram codec is a bijection between the datagrams it accepts
    and the packets it accepts: what decodes is exactly what encodes. *)
Theorem datagram_roundtrip (seq : Z) (addr payload packet : list byte) (Hseq : is_u64 seq) :
  EncodeDatagram seq addr payload = Ok packet <-> DecodeDatagram packet = Ok (seq, addr, payload).
Proof. split; [by apply DecodeDatagram_Encode|apply EncodeDatagram_Decode]. Qed.

Lemma datagram_roundtrip_witness :
  exists packet, EncodeDatagram (2 ^ 63 + 5) (bs "192.0.2.1:53") (bs "query") = Ok packet /\
    DecodeDatagram packet = Ok (2 ^ 63 + 5, bs "192.0.2.1:53", bs "query").
Proof.
  eexists. split; [by vm_compute|].
  apply (datagram_roundtrip (2 ^ 63 + 5)); [unfold is_u64; lia|]. by vm_compute.
Defined.

(** The address cache is transparent: a flow of packets decodes through
    one cache exactly as each packet decodes on its own. *)
Theorem datagram_cache_transparent (packets : list (list byte)) :
  decodeFlow zeroDatagramCache packets = DecodeDatagram <$> packets.
Proof.
  assert (forall c, cache_ok c -> decodeFlow c packets = DecodeDatagram <$> packets) as H.
  { induction packets as [|p packets IH]; intros c Hc; [done|]. cbn [decodeFlow].
    destruct (Decode_cache c p Hc) as [Hd Hc'].
    destruct (DatagramCache_Decode c p) as [d c']. cbn in Hd, Hc' |- *. by rewrite Hd, IH. }
  apply H, cache_ok_zero.
Qed.
