(* ===== verification/Datagrams.v ===== *)
(** * Datagrams on the way: facts both ends of a UDP association use

    A window that holds every number accepted so far, packets as what they
    decode to, and increasing numbers. *)
From Stdlib Require Import Sorting.Sorted.
From S2P Require Import Prelude GoNet ReplayWindow Frame.

Open Scope Z_scope.

Definition decoded (packet : list byte) : option (Z * gostring * list byte) :=
  match DecodeDatagram packet with Ok x => Some x | Fail _ => None end.

Definition numbers (l : list (Z * gostring * list byte)) : list Z := (fun x => x.1.1) <$> l.

(** The window holds every number accepted. *)
Definition windowOk (w : ReplayWindow) (numbers : list Z) : Prop :=
  NoDup numbers /\
  exists a, refines w a /\ (forall x, x ∈ Spec.seen a -> exists h, Spec.top a = Some h /\ x <= h) /\ (forall x, x ∈ numbers -> x ∈ Spec.seen a).

Lemma windowOk_zero : windowOk zeroWindow [].
Proof. split; [constructor|]. exists Spec.init. split_and!; [apply refines_init|set_solver..]. Qed.

Lemma windowOk_step w numbers n :
  windowOk w numbers -> is_u64 n -> windowOk (snd (Accept w n)) (if fst (Accept w n) then numbers ++ [n] else numbers).
Proof.
  intros [Hnd (a & HR & Htop & Hin)] Hn. destruct (refines_step w a n HR Hn) as [Hb HR']. rewrite Hb.
  pose proof (spec_step_top a n Htop) as Htop'. pose proof (spec_accepts_fresh a n Htop) as Hfresh. unfold Spec.step in *.
  destruct (Spec.accepts a n); cbn [fst snd] in *.
  - split.
    + apply NoDup_app. split_and!; [done| |apply NoDup_singleton]. intros x Hx ->%list_elem_of_singleton. by apply (Hfresh eq_refl), Hin.
    + eexists. split_and!; [done|done|]. intros x. cbn [Spec.seen]. rewrite elem_of_app, list_elem_of_singleton. intros [Hx| ->]; set_solver.
  - split; [done|]. by exists a.
Qed.

Lemma decoded_u64 packet n a p : DecodeDatagram packet = Ok (n, a, p) -> is_u64 n.
Proof.
  unfold DecodeDatagram, DatagramCache_Decode. intros H. repeat (case_match; [done|]). injection H as <- _ _.
  pose proof (be_val_range (slice 1 9 packet)) as Hb. assert (len (slice 1 9 packet) <= 8) as Hl.
  { unfold slice. rewrite length_take. lia. }
  unfold is_u64. split; [apply Hb|]. eapply Z.lt_le_trans; [apply Hb|]. replace (2 ^ 64) with (256 ^ 8) by done. apply Z.pow_le_mono_r; lia.
Qed.

Lemma encode_decode cap n a p packet : is_u64 n -> EncodeDatagramInto cap n a p = Ok packet -> DecodeDatagram packet = Ok (n, a, p).
Proof.
  intros Hn H. apply DecodeDatagram_Encode; [done|]. unfold EncodeDatagram, EncodeDatagramInto in *. rewrite Z.ltb_irrefl. by repeat (case_match; try done).
Qed.

Lemma sorted_app l1 l2 m :
  StronglySorted Z.lt l1 -> StronglySorted Z.lt l2 -> (forall n, n ∈ l1 -> n <= m) -> (forall n, n ∈ l2 -> m < n) -> StronglySorted Z.lt (l1 ++ l2).
Proof.
  intros H1 H2 Hm1 Hm2. induction H1 as [|x l1 H1 IH Hx]; [done|]. cbn [app]. constructor.
  - apply IH. intros n Hn. apply Hm1. by right.
  - apply Forall_app. split; [done|]. apply Forall_forall. intros n Hn%Hm2. specialize (Hm1 x ltac:(left)). lia.
Qed.

