(* ===== verification/FrameStream.v ===== *)
(** * [frame.StreamReader] and [frame.StreamWriter] (reader.go, writer.go)

    The byte stream carried by DATA frames.  [parse_stream] is the reference:
    what a complete wire means, as bytes delivered and the error that ends
    them.  The reader is shown to compute it under every fragmentation and
    every placement of read deadlines; the writers are shown to produce wires
    that mean what was written. *)
From S2P Require Import Prelude GoIO Frame.

Open Scope Z_scope.

(** ** StreamReader *)

(** [header[:headerRead]] is kept as the bytes read so far. *)
Record StreamReader := mkStreamReader {
  sr_r : reader;
  sr_remaining : Z;
  sr_terminal : option error;
  sr_header : list byte;
}.

Definition NewStreamReader (r : reader) : StreamReader := mkStreamReader r 0 None [].

Definition errHeader : error := Errorf "invalid stream frame header".
Definition errFlags : error := Errorf "unsupported stream frame flags".
Definition errEmptyData : error := Errorf "empty DATA frame".
Definition errHalfClose : error := Errorf "invalid HALF_CLOSE frame".
Definition errReset : error := Errorf "peer reset stream".
Definition errUnexpected : error := Errorf "unexpected stream frame".

Definition eof_unexpected (e : error) : error :=
  match e with EOF => ErrUnexpectedEOF | _ => e end.

(** What a complete header makes of the state: bytes to come, or the end. *)
Definition acceptHeader (raw : list byte) : Z * option error :=
  let h := parseHeader raw in
  if negb (bool_decide (at_ raw 0 = Version)) || (MaxPayload <? h_Length h) then (0, Some errHeader)
  else if negb (h_Flags h =? 0) then (0, Some errFlags)
  else if bool_decide (h_Type h = TypeData) then
    if h_Length h =? 0 then (0, Some errEmptyData) else (h_Length h, None)
  else if bool_decide (h_Type h = TypeHalfClose) then
    if negb (h_Length h =? 0) then (0, Some errHalfClose) else (0, Some EOF)
  else if bool_decide (h_Type h = TypeReset) then (0, Some errReset)
  else (0, Some errUnexpected).

(** The [for r.terminal == nil] loop; the buffer has [plen > 0] bytes. *)
Fixpoint readLoop (fuel : nat) (r : StreamReader) (plen : Z)
  : list byte * option error * StreamReader :=
  match sr_terminal r with
  | Some e => ([], Some e, r)
  | None =>
      match fuel with
      | O => ([], Some (Errorf "fuel"), r)
      | S fuel' =>
          if negb (sr_remaining r =? 0) then
            let p := if sr_remaining r <? u32 plen then sr_remaining r else plen in
            let '(b, err, rd) := Read p (sr_r r) in
            let remaining := u32 (sr_remaining r - u32 (len b)) in
            let err' := eof_unexpected <$> err in
            let terminal :=
              match err' with
              | Some e => if is_timeout e then None else Some e
              | None => None
              end in
            (b, err', mkStreamReader rd remaining terminal (sr_header r))
          else
            let '(b, err, rd) := ReadFull (HeaderSize - len (sr_header r)) (sr_r r) in
            let header := sr_header r ++ b in
            match err with
            | Some e =>
                if is_timeout e then ([], Some e, mkStreamReader rd 0 None header)
                else
                  let e' := eof_unexpected e in
                  ([], Some e', mkStreamReader rd 0 (Some e') header)
            | None =>
                let '(remaining, terminal) := acceptHeader header in
                readLoop fuel' (mkStreamReader rd remaining terminal []) plen
            end
      end
  end.

(** [Read]: a header either ends the stream or is followed by payload, so two
    turns of the loop are enough. *)
Definition StreamReader_Read (r : StreamReader) (plen : Z)
  : list byte * option error * StreamReader :=
  if plen =? 0 then ([], None, r) else readLoop 2 r plen.

(** A consumer that reads with buffers of [plen] bytes, retries after a
    deadline and stops at any other error. *)
Fixpoint readAll (fuel : nat) (r : StreamReader) (plen : Z)
  : list byte * option error :=
  match fuel with
  | O => ([], None)
  | S fuel' =>
      let '(b, err, r') := StreamReader_Read r plen in
      match err with
      | Some e =>
          if is_timeout e then
            let '(b', e') := readAll fuel' r' plen in (b ++ b', e')
          else (b, Some e)
      | None => let '(b', e') := readAll fuel' r' plen in (b ++ b', e')
      end
  end.

(** ** StreamWriter *)

Record StreamWriter := mkStreamWriter {
  sw_w : writer;
  sw_closed : bool;
  sw_failed : option error;
}.

Definition NewStreamWriter (w : writer) : StreamWriter := mkStreamWriter w false None.

(** [streamWritePool]: the size class of the scratch buffer of a write. *)
Definition streamWritePool (payload : Z) : Z :=
  if payload <=? 256 then HeaderSize + 256
  else if payload <=? 4096 then HeaderSize + 4096
  else if payload <=? 32768 then HeaderSize + 32768
  else HeaderSize + DataChunkSize.

(** The loop of [Write]; [n] counts the bytes that went out. *)
Fixpoint swLoop (fuel : nat) (w : writer) (p : list byte) (n : Z) : Z * option error * writer :=
  if bool_decide (p = []) then (n, None, w)
  else match fuel with
  | O => (n, None, w)
  | S fuel' =>
      let size := Z.min (len p) DataChunkSize in
      let wire := encodeHeader TypeData 0 (u32 size) ++ ztake size p in
      let '(err, w') := writeFull w wire in
      match err with
      | Some e => (n, Some e, w')
      | None => swLoop fuel' w' (zdrop size p) (n + size)
      end
  end.

Definition StreamWriter_Write (w : StreamWriter) (p : list byte) : Z * option error * StreamWriter :=
  match sw_failed w with
  | Some e => (0, Some e, w)
  | None =>
      if sw_closed w then (0, Some ErrClosedPipe, w)
      else
        let '(n, err, w') := swLoop (Z.to_nat (len p / DataChunkSize + 1)) (sw_w w) p 0 in
        (n, err, mkStreamWriter w' (sw_closed w) err)
  end.

Definition StreamWriter_CloseWrite (w : StreamWriter) : option error * StreamWriter :=
  match sw_failed w with
  | Some e => (Some e, w)
  | None =>
      if sw_closed w then (None, w)
      else
        let '(err, w') := WriteFrame (sw_w w) TypeHalfClose 0 [] in
        (err, mkStreamWriter w' true err)
  end.

(** ** The meaning of a wire *)

(** [fuel] bounds the frames; a frame has at least its header. *)
Fixpoint parse_frames (fuel : nat) (w : list byte) : list byte * error :=
  match fuel with
  | O => ([], ErrUnexpectedEOF)
  | S fuel' =>
      if len w <? HeaderSize then ([], ErrUnexpectedEOF)
      else
        match acceptHeader (ztake HeaderSize w) with
        | (_, Some e) => ([], e)
        | (n, None) =>
            let body := zdrop HeaderSize w in
            if len body <? n then (body, ErrUnexpectedEOF)
            else
              let '(d, e) := parse_frames fuel' (zdrop n body) in
              (ztake n body ++ d, e)
        end
  end.

Definition parse_stream (w : list byte) : list byte * error := parse_frames (S (length w)) w.

#[global] Arguments parse_stream : simpl never.

(** ** The reference parser *)

Lemma parse_frames_fuel f1 f2 w :
  (length w < f1)%nat -> (length w < f2)%nat -> parse_frames f1 w = parse_frames f2 w.
Proof.
  revert f2 w. induction f1 as [|f1 IH]; intros f2 w H1 H2; [lia|].
  destruct f2 as [|f2]; [lia|]. cbn [parse_frames].
  destruct (Z.ltb_spec (len w) HeaderSize); [done|].
  destruct (acceptHeader (ztake HeaderSize w)) as [n [e|]]; [done|].
  destruct (Z.ltb_spec (len (zdrop HeaderSize w)) n); [done|].
  rewrite (IH f2); [done| |]; unfold zdrop, HeaderSize in *; len_simpl; lia.
Qed.

Lemma parse_stream_short w : len w < HeaderSize -> parse_stream w = ([], ErrUnexpectedEOF).
Proof. intros. unfold parse_stream. cbn. by rewrite (proj2 (Z.ltb_lt _ _)). Qed.

(** The meaning of a wire that starts with a full header. *)
Lemma parse_stream_header h rest :
  len h = HeaderSize ->
  parse_stream (h ++ rest) =
    match acceptHeader h with
    | (_, Some e) => ([], e)
    | (n, None) =>
        if len rest <? n then (rest, ErrUnexpectedEOF)
        else let '(d, e) := parse_stream (zdrop n rest) in (ztake n rest ++ d, e)
    end.
Proof.
  intros Hh. unfold parse_stream at 1. cbn [parse_frames].
  rewrite (proj2 (Z.ltb_ge _ _)) by (rewrite len_app; lia).
  rewrite ztake_app, zdrop_app by done.
  destruct (acceptHeader h) as [n [e|]]; [done|].
  destruct (Z.ltb_spec (len rest) n); [done|].
  rewrite (parse_frames_fuel _ (S (length (zdrop n rest)))); [done| |lia].
  unfold zdrop, HeaderSize in *. len_simpl. lia.
Qed.

(** A data frame contributes its payload. *)
Lemma acceptHeader_data n :
  0 < n <= MaxPayload -> acceptHeader (encodeHeader TypeData 0 n) = (n, None).
Proof.
  unfold MaxPayload. intros Hn. unfold acceptHeader.
  rewrite parseHeader_encodeHeader by (unfold is_u16, is_u32; lia).
  cbn [h_Type h_Flags h_Length]. rewrite at_encodeHeader_0, bool_decide_true by done.
  rewrite (proj2 (Z.ltb_ge _ _)) by (unfold MaxPayload; lia). cbn [negb orb].
  rewrite (bool_decide_true (TypeData = TypeData)) by done.
  by rewrite (proj2 (Z.eqb_neq n 0)) by lia.
Qed.

Lemma parse_stream_data d rest :
  0 < len d <= MaxPayload ->
  parse_stream (encodeHeader TypeData 0 (len d) ++ d ++ rest) =
    let '(d', e) := parse_stream rest in (d ++ d', e).
Proof.
  intros Hd. rewrite parse_stream_header, acceptHeader_data by (done || apply len_encodeHeader).
  rewrite (proj2 (Z.ltb_ge _ _)) by (rewrite len_app; lia).
  by rewrite ztake_app, zdrop_app.
Qed.

Lemma parse_stream_close rest :
  parse_stream (encodeHeader TypeHalfClose 0 0 ++ rest) = ([], EOF).
Proof. by rewrite parse_stream_header. Qed.

Lemma parse_stream_reset rest :
  parse_stream (encodeHeader TypeReset 0 0 ++ rest) = ([], errReset).
Proof. by rewrite parse_stream_header. Qed.

(** ** The reader computes the reference *)

(** The meaning of [k] payload bytes followed by frames. *)
Definition body (k : Z) (w : list byte) : list byte * error :=
  if len w <? k then (w, ErrUnexpectedEOF)
  else let '(d, e) := parse_stream (zdrop k w) in (ztake k w ++ d, e).

#[global] Arguments body : simpl never.

(** What a reader will deliver when [w] is still to come. *)
Definition pending (r : StreamReader) (w : list byte) : list byte * error :=
  match sr_terminal r with
  | Some e => ([], e)
  | None =>
      if bool_decide (sr_header r = []) then body (sr_remaining r) w
      else parse_stream (sr_header r ++ w)
  end.

Definition sr_wf (r : StreamReader) : Prop :=
  is_u32 (sr_remaining r) /\
  (sr_remaining r <> 0 -> sr_header r = []) /\
  len (sr_header r) < HeaderSize /\
  (forall e, sr_terminal r = Some e -> is_timeout e = false).

Lemma body_0 w : body 0 w = parse_stream w.
Proof.
  unfold body. rewrite (proj2 (Z.ltb_ge _ _)) by lia.
  change (zdrop 0 w) with w. change (ztake 0 w) with (@nil byte). by destruct (parse_stream w).
Qed.

Lemma body_app k b w :
  0 <= k -> len b <= k -> body k (b ++ w) = let '(d, e) := body (k - len b) w in (b ++ d, e).
Proof.
  intros Hk Hb. unfold body. rewrite len_app.
  destruct (Z.ltb_spec (len w) (k - len b)).
  - by rewrite (proj2 (Z.ltb_lt _ _)) by lia.
  - rewrite (proj2 (Z.ltb_ge _ _)) by lia.
    assert (zdrop k (b ++ w) = zdrop (k - len b) w) as ->.
    { unfold zdrop. rewrite drop_app_ge by lia. f_equal. lia. }
    assert (ztake k (b ++ w) = b ++ ztake (k - len b) w) as ->.
    { unfold ztake. rewrite take_app_ge by lia. do 2 f_equal. lia. }
    destruct (parse_stream _). by rewrite app_assoc.
Qed.

Lemma acceptHeader_spec h n t :
  acceptHeader h = (n, t) -> len h = HeaderSize ->
  match t with
  | Some e => n = 0 /\ is_timeout e = false
  | None => 0 < n <= MaxPayload
  end.
Proof.
  intros H Hl. unfold acceptHeader in H. inv_fun H; try done.
  assert (0 <= be_val (slice 4 8 h)) by apply be_val_range. lia.
Qed.

(** The headers that are taken: DATA of one to [MaxPayload] bytes, and the
    one HALF_CLOSE, as [encodeHeader] makes them. *)
Lemma acceptHeader_data_inv h n :
  len h = HeaderSize -> acceptHeader h = (n, None) -> h = encodeHeader TypeData 0 n /\ 0 < n <= MaxPayload.
Proof.
  intros Hl H. pose proof (acceptHeader_spec _ _ _ H Hl) as Hn. split; [|done].
  unfold HeaderSize in Hl. unfold acceptHeader in H. cbv zeta in H.
  destruct (bool_decide_reflect (at_ h 0 = Version)) as [Hv|]; [|done].
  pose proof (encodeHeader_parseHeader h ltac:(lia) Hv) as He. revert H He.
  destruct (parseHeader h) as [ty fl ln]. cbn [h_Type h_Flags h_Length]. intros H He. inv_fun H. done.
Qed.

Lemma acceptHeader_eof h n :
  len h = HeaderSize -> acceptHeader h = (n, Some EOF) -> h = encodeHeader TypeHalfClose 0 0.
Proof.
  intros Hl H. unfold HeaderSize in Hl. unfold acceptHeader in H. cbv zeta in H.
  destruct (bool_decide_reflect (at_ h 0 = Version)) as [Hv|]; [|done].
  pose proof (encodeHeader_parseHeader h ltac:(lia) Hv) as He. revert H He.
  destruct (parseHeader h) as [ty fl ln]. cbn [h_Type h_Flags h_Length]. intros H He. inv_fun H. done.
Qed.

(** The meaning of a wire, frame by frame, in terms of the encoded headers. *)
Inductive wireMeaning : list byte -> list byte -> error -> Prop :=
  | wm_short w : len w < HeaderSize -> wireMeaning w [] ErrUnexpectedEOF
  | wm_data n body w d e : 0 < n <= MaxPayload -> len body = n -> wireMeaning w d e ->
      wireMeaning (encodeHeader TypeData 0 n ++ body ++ w) (body ++ d) e
  | wm_cut n body : 0 < n <= MaxPayload -> len body < n ->
      wireMeaning (encodeHeader TypeData 0 n ++ body) body ErrUnexpectedEOF
  | wm_close w : wireMeaning (encodeHeader TypeHalfClose 0 0 ++ w) [] EOF
  | wm_bad h w e : len h = HeaderSize -> (forall n, 0 < n <= MaxPayload -> h <> encodeHeader TypeData 0 n) ->
      h <> encodeHeader TypeHalfClose 0 0 -> e <> EOF -> is_timeout e = false ->
      wireMeaning (h ++ w) [] e.

Lemma parse_frames_meaning fuel w :
  (length w < fuel)%nat -> let '(d, e) := parse_frames fuel w in wireMeaning w d e.
Proof.
  revert w. induction fuel as [|f IH]; intros w Hf; [lia|]. cbn [parse_frames].
  destruct (Z.ltb_spec (len w) HeaderSize) as [Hs|Hs]; [by apply wm_short|].
  set (h := ztake HeaderSize w). assert (len h = HeaderSize) as Hh by (apply len_ztake; unfold HeaderSize in *; lia).
  set (body := zdrop HeaderSize w). assert (w = h ++ body) as Ew by (symmetry; apply ztake_zdrop).
  clearbody h body. subst w. rewrite length_app in Hf. destruct (acceptHeader h) as [n [e|]] eqn:Ea.
  - destruct (decide (e = EOF)) as [->|He]; [apply acceptHeader_eof in Ea as ->; [apply wm_close|done]|].
    pose proof (acceptHeader_spec _ _ _ Ea Hh) as [_ Ht]. apply wm_bad; try done.
    + intros m Hm Hx. rewrite Hx, acceptHeader_data in Ea by done. done.
    + intros Hx. rewrite Hx in Ea. injection Ea as _ <-. done.
  - apply acceptHeader_data_inv in Ea as [-> Hn]; [|done]. destruct (Z.ltb_spec (len body) n) as [Hb|Hb]; [by apply wm_cut|].
    specialize (IH (zdrop n body)). destruct (parse_frames f (zdrop n body)) as [d e].
    rewrite <- (ztake_zdrop n body) at 1. apply wm_data; [done|apply len_ztake; lia|]. apply IH.
    unfold zdrop. rewrite length_drop. rewrite length_encodeHeader in Hf. lia.
Qed.

(** A [Read] with the outcome of the calls it makes: [b] and [e] are returned,
    [r'] and [w'] are what is left. *)
Definition read_step (r : StreamReader) (w : list byte) (out : list byte * option error * StreamReader)
  : Prop :=
  let '(b, e, r') := out in
  sr_wf r' /\
  exists w', carries (sr_r r') w' /\
  match e with
  | Some x =>
      if is_timeout x
      then pending r w = (let '(d, y) := pending r' w' in (b ++ d, y)) /\
           (length w' + length (sr_r r') < length w + length (sr_r r))%nat
      else pending r w = (b, x)
  | None =>
      pending r w = (let '(d, y) := pending r' w' in (b ++ d, y)) /\
      (length w' + length (sr_r r') < length w + length (sr_r r))%nat
  end.

Ltac solve_sr_wf :=
  split_and!; cbn; try done; try (unfold is_u32; lia); try (rewrite len_app; lia);
  try (by intros ? [= <-]).

Lemma readLoop_payload fuel r w plen :
  sr_wf r -> sr_terminal r = None -> sr_remaining r <> 0 -> carries (sr_r r) w ->
  0 < plen < 2 ^ 32 -> read_step r w (readLoop (S fuel) r plen).
Proof.
  intros (Hrem & Hhdr & Hlen & Hterm) Ht Hr Hc Hp. specialize (Hhdr Hr).
  cbn [readLoop]. rewrite Ht, (proj2 (Z.eqb_neq _ 0)) by done. cbn [negb].
  rewrite (u32_id plen) by (unfold is_u32; lia).
  set (p := if sr_remaining r <? plen then sr_remaining r else plen).
  assert (0 < p /\ p <= sr_remaining r) as [Hp0 Hpr]
    by (unfold p, is_u32 in *; destruct (Z.ltb_spec (sr_remaining r) plen); lia).
  destruct (Read_carries p (sr_r r) w Hp0 Hc) as (b & e & rd & w' & Hrd & -> & Hc' & Hb & Hcase).
  rewrite Hrd. unfold is_u32 in *.
  rewrite (u32_id (len b)), (u32_id (_ - _)) by (unfold is_u32; lia).
  assert (pending r (b ++ w') = let '(d, y) := body (sr_remaining r - len b) w' in (b ++ d, y)) as Hpend.
  { unfold pending. rewrite Ht, Hhdr, bool_decide_true by done. apply body_app; lia. }
  destruct Hcase as [(Hnil & -> & -> & -> & ->)|[Hprog He]].
  - cbn. split.
    + solve_sr_wf.
    + exists []. split; [done|]. cbn in Hpend. rewrite Hpend. unfold body. cbn.
      by rewrite (proj2 (Z.ltb_lt _ _)) by lia.
  - assert (eof_unexpected <$> e = e) as -> by (destruct e as [[]|]; done).
    assert ((match e with Some e0 => if is_timeout e0 then None else Some e0 | None => None end)
            = (None : option error)) as -> by (destruct e as [te|]; [by rewrite He|done]).
    assert (sr_wf (mkStreamReader rd (sr_remaining r - len b) None (sr_header r))) as Hwf
      by (split_and!; cbn; done || (unfold is_u32; lia)).
    assert (pending (mkStreamReader rd (sr_remaining r - len b) None (sr_header r)) w'
            = body (sr_remaining r - len b) w') as Hp'
      by (unfold pending; cbn; by rewrite Hhdr, bool_decide_true).
    unfold read_step. split; [done|]. exists w'. split; [done|]. rewrite Hp', Hpend.
    assert ((length w' + length rd < length (b ++ w') + length (sr_r r))%nat)
      by (rewrite length_app; lia).
    destruct e as [te|]; [rewrite He|]; done.
Qed.

Lemma StreamReader_Read_step r w plen :
  sr_wf r -> sr_terminal r = None -> carries (sr_r r) w -> 0 < plen < 2 ^ 32 ->
  read_step r w (StreamReader_Read r plen).
Proof.
  intros Hwf Ht Hc Hp. unfold StreamReader_Read. rewrite (proj2 (Z.eqb_neq plen 0)) by lia.
  destruct (decide (sr_remaining r = 0)) as [Hr|Hr]; [|by apply readLoop_payload].
  pose proof Hwf as (Hrem & _ & Hlen & _).
  remember 1%nat as fuel eqn:Hfuel. cbn [readLoop]. rewrite Ht, Hr. cbn [Z.eqb negb].
  destruct (ReadFull_carries (HeaderSize - len (sr_header r)) (sr_r r) w)
    as (b & e & rd & w' & Hrd & -> & Hc' & Hle & Hcase); [lia|done|].
  rewrite Hrd.
  assert (pending r (b ++ w') = parse_stream ((sr_header r ++ b) ++ w')) as Hpend.
  { unfold pending. rewrite Ht, Hr, <- app_assoc.
    case_bool_decide as E; [by rewrite E, body_0|done]. }
  destruct Hcase as [[-> Hb]|[(te & -> & Hte & Hb & Hlt)|([-> | ->] & -> & -> & Hb)]].
  - assert (len (sr_header r ++ b) = HeaderSize) as Hh by (rewrite len_app; lia).
    rewrite parse_stream_header in Hpend by done.
    destruct (acceptHeader (sr_header r ++ b)) as [n [e|]] eqn:Ea;
      pose proof (acceptHeader_spec _ _ _ Ea Hh) as Hacc.
    + destruct Hacc as [-> Hto]. subst fuel. cbn. rewrite Hto. split.
      * solve_sr_wf.
      * exists w'. by split.
    + set (r1 := mkStreamReader rd n None []).
      assert (read_step r1 w' (readLoop fuel r1 plen)) as Hstep.
      { subst fuel. apply readLoop_payload; cbn; try done; cbn in Hacc; [|lia].
        split_and!; cbn; try done. unfold is_u32, MaxPayload in *. lia. }
      unfold read_step in Hstep |- *.
      destruct (readLoop fuel r1 plen) as [[b1 e1] r2]. destruct Hstep as (Hwf2 & w2 & Hc2 & Hs).
      split; [done|]. exists w2. split; [done|].
      assert (pending r1 w' = pending r (b ++ w')) as Hsame by (rewrite Hpend; done).
      change (sr_r r1) with rd in Hs. rewrite Hsame in Hs. rewrite length_app.
      destruct e1 as [x|]; [destruct (is_timeout x); [|done]|]; destruct Hs as [Hs ?]; split; done || lia.
  - rewrite Hte. split.
    + solve_sr_wf.
    + exists w'. split; [done|]. rewrite Hte, Hpend. split.
      * unfold pending. cbn. case_bool_decide as E.
        -- rewrite E. cbn. rewrite body_0. by destruct (parse_stream w').
        -- by destruct (parse_stream _).
      * rewrite length_app. cbn. lia.
  - cbn. split.
    + solve_sr_wf.
    + exists []. split; [done|]. rewrite Hpend, app_nil_r. apply parse_stream_short.
      rewrite len_app. lia.
  - cbn. split.
    + solve_sr_wf.
    + exists []. split; [done|]. rewrite Hpend, app_nil_r. apply parse_stream_short.
      rewrite len_app. lia.
Qed.

Lemma readAll_pending fuel r w plen :
  sr_wf r -> carries (sr_r r) w -> 0 < plen < 2 ^ 32 ->
  (length w + length (sr_r r) < fuel)%nat ->
  readAll fuel r plen = let '(d, e) := pending r w in (d, Some e).
Proof.
  revert r w. induction fuel as [|fuel IH]; intros r w Hwf Hc Hp Hf; [lia|].
  cbn [readAll]. destruct (sr_terminal r) as [e|] eqn:Ht.
  - pose proof Hwf as (_ & _ & _ & Hto). specialize (Hto e Ht).
    unfold StreamReader_Read. rewrite (proj2 (Z.eqb_neq plen 0)) by lia.
    cbn [readLoop]. rewrite Ht, Hto. unfold pending. by rewrite Ht.
  - pose proof (StreamReader_Read_step r w plen Hwf Ht Hc Hp) as Hstep.
    destruct (StreamReader_Read r plen) as [[b e] r']. destruct Hstep as (Hwf' & w' & Hc' & Hs).
    destruct e as [x|]; [destruct (is_timeout x) eqn:Hx|].
    + destruct Hs as [-> Hlt]. rewrite (IH r' w') by (done || lia). by destruct (pending r' w').
    + by rewrite Hs.
    + destruct Hs as [-> Hlt]. rewrite (IH r' w') by (done || lia). by destruct (pending r' w').
Qed.

(** ** What the writers put on the wire *)

(** [data_frames wire p]: a sequence of DATA frames carrying [p]. *)
Inductive data_frames : list byte -> list byte -> Prop :=
  | df_nil : data_frames [] []
  | df_cons d wire p :
      0 < len d <= MaxPayload -> data_frames wire p ->
      data_frames (encodeHeader TypeData 0 (len d) ++ d ++ wire) (d ++ p).

Lemma data_frames_app w1 p1 w2 p2 :
  data_frames w1 p1 -> data_frames w2 p2 -> data_frames (w1 ++ w2) (p1 ++ p2).
Proof.
  intros H1 H2. induction H1 as [|d wire p Hd H1 IH]; [done|].
  rewrite <- !app_assoc. by apply df_cons.
Qed.

Lemma data_frames_parse wire p rest :
  data_frames wire p ->
  parse_stream (wire ++ rest) = let '(d, e) := parse_stream rest in (p ++ d, e).
Proof.
  intros H. induction H as [|d wire p Hd H IH]; [cbn; by destruct (parse_stream rest)|].
  rewrite <- !app_assoc, parse_stream_data, IH by done.
  destruct (parse_stream rest). by rewrite app_assoc.
Qed.

(** Cutting a framed stream anywhere before its end leaves a prefix of the
    data and [io.ErrUnexpectedEOF], never a clean end. *)
Lemma parse_stream_truncated wire p last w1 w2 :
  data_frames wire p -> len last = HeaderSize -> w2 <> [] -> wire ++ last = w1 ++ w2 ->
  exists d, parse_stream w1 = (d, ErrUnexpectedEOF) /\ d `prefix_of` p.
Proof.
  intros H Hlast Hw2. assert (0 < len w2) as Hl2 by (destruct w2; [done|cbn; lia]).
  revert w1. induction H as [|d wire p Hd H IH]; intros w1 E.
  - exists []. split; [|done]. apply parse_stream_short.
    apply (f_equal (fun l => len l)) in E. cbn in E. rewrite Hlast, len_app in E. lia.
  - rewrite <- !app_assoc in E.
    destruct (decide (len w1 < HeaderSize)) as [Hs|Hs].
    { exists []. rewrite parse_stream_short by done. split; [done|]. apply prefix_nil. }
    assert (exists w1', w1 = encodeHeader TypeData 0 (len d) ++ w1') as [w1' ->].
    { exists (zdrop HeaderSize w1). rewrite <- (ztake_zdrop HeaderSize w1) at 1. f_equal.
      apply (f_equal (ztake HeaderSize)) in E. rewrite ztake_app in E by done. rewrite E.
      unfold ztake. by rewrite take_app_le by lia. }
    rewrite <- app_assoc in E. apply app_inv_head in E.
    rewrite parse_stream_header, acceptHeader_data by (done || apply len_encodeHeader).
    destruct (Z.ltb_spec (len w1') (len d)) as [Hlt|Hge].
    + exists w1'. split; [done|]. apply prefix_app_r.
      apply (f_equal (ztake (len w1'))) in E. rewrite (ztake_app _ w1') in E by done.
      assert (ztake (len w1') d = w1') as Ew
        by (rewrite <- E at 2; unfold ztake; by rewrite take_app_le by lia).
      exists (zdrop (len w1') d). rewrite <- Ew at 1. by rewrite ztake_zdrop.
    + assert (exists w1'', w1' = d ++ w1'') as [w1'' ->].
      { exists (zdrop (len d) w1'). rewrite <- (ztake_zdrop (len d) w1') at 1. f_equal.
        apply (f_equal (ztake (len d))) in E. rewrite ztake_app in E by done. rewrite E at 2.
        unfold ztake. by rewrite take_app_le by lia. }
      rewrite <- app_assoc in E. apply app_inv_head in E.
      destruct (IH w1'' E) as (d' & Hp & Hpre).
      rewrite zdrop_app, ztake_app, Hp by done.
      exists (d ++ d'). split; [done|]. by apply prefix_app.
Qed.

Lemma swLoop_sink fuel out p n :
  len p <= Z.of_nat fuel * DataChunkSize ->
  exists wire, data_frames wire p /\
    swLoop fuel (mkWriter out []) p n = (n + len p, None, mkWriter (out ++ wire) []).
Proof.
  revert out p n. induction fuel as [|fuel IH]; intros out p n Hf;
    cbn [swLoop]; case_bool_decide as Hp;
    try (subst p; exists []; rewrite app_nil_r, Z.add_0_r; by split; [constructor|]).
  { destruct p; cbn in Hf; done || lia. }
  assert (0 < len p) by (destruct p; [done|cbn; lia]).
  set (size := Z.min (len p) DataChunkSize).
  assert (0 < size <= len p /\ size <= DataChunkSize) as [Hs Hs'] by (unfold DataChunkSize in *; lia).
  rewrite u32_id by (unfold is_u32, DataChunkSize in *; lia).
  rewrite writeFull_sink.
  destruct (IH (out ++ encodeHeader TypeData 0 size ++ ztake size p) (zdrop size p) (n + size))
    as (wire & Hw & Hrun).
  { rewrite len_zdrop by lia. unfold size, DataChunkSize in *. lia. }
  exists (encodeHeader TypeData 0 size ++ ztake size p ++ wire). split.
  - assert (size = len (ztake size p)) as Es by (by rewrite len_ztake by lia).
    rewrite Es at 1. rewrite <- (ztake_zdrop size p) at 3. apply df_cons; [|done].
    rewrite <- Es. unfold MaxPayload, DataChunkSize in *. lia.
  - rewrite Hrun, len_zdrop by lia. rewrite <- !app_assoc. f_equal. f_equal. lia.
Qed.

(** Writes one after the other on a fresh writer, all to one sink. *)
Fixpoint writeAll (w : StreamWriter) (ps : list (list byte)) : StreamWriter :=
  match ps with
  | [] => w
  | p :: rest => let '(_, _, w') := StreamWriter_Write w p in writeAll w' rest
  end.

Lemma writeAll_sink out ps :
  exists wire, data_frames wire (concat ps) /\
    writeAll (mkStreamWriter (mkWriter out []) false None) ps
      = mkStreamWriter (mkWriter (out ++ wire) []) false None.
Proof.
  revert out. induction ps as [|p ps IH]; intros out; cbn [writeAll].
  { exists []. rewrite app_nil_r. split; [constructor|done]. }
  unfold StreamWriter_Write. cbn [sw_failed sw_closed sw_w].
  destruct (swLoop_sink (Z.to_nat (len p / DataChunkSize + 1)) out p 0) as (wire & Hw & ->).
  { unfold DataChunkSize. lia. }
  destruct (IH (out ++ wire)) as (wire' & Hw' & ->).
  exists (wire ++ wire'). rewrite app_assoc. split; [|done]. by apply data_frames_app.
Qed.

(** The wire of a sender that wrote [ps] and closed its side. *)
Definition sent (ps : list (list byte)) : list byte :=
  wr_out (sw_w (snd (StreamWriter_CloseWrite (writeAll (NewStreamWriter sink) ps)))).

Lemma sent_frames ps :
  exists wire, data_frames wire (concat ps) /\ sent ps = wire ++ encodeHeader TypeHalfClose 0 0.
Proof.
  unfold sent, NewStreamWriter, sink.
  destruct (writeAll_sink [] ps) as (wire & Hw & ->). exists wire. split; [done|].
  unfold StreamWriter_CloseWrite. cbn [sw_failed sw_closed sw_w app]. unfold WriteFrame.
  rewrite (proj2 (Z.ltb_ge _ _)) by done. by rewrite writeFull_sink, app_nil_r.
Qed.

(** ** The copy loop *)

(** The bytes a source delivers before it ends, and the error if it fails. *)
Fixpoint drain (r : reader) : list byte * option error :=
  match r with
  | [] => ([], None)
  | RD b None :: rest => let '(d, e) := drain rest in (b ++ d, e)
  | RD b (Some EOF) :: _ => (b, None)
  | RD b (Some e) :: _ => (b, Some e)
  end.

Lemma drain_split n c e rest :
  drain (RD c e :: rest) =
    let '(d, x) := drain (RD (zdrop n c) e :: rest) in (ztake n c ++ d, x).
Proof.
  cbn. destruct e as [[]|]; try (by rewrite ztake_zdrop).
  destruct (drain rest). by rewrite app_assoc, ztake_zdrop.
Qed.

Lemma data_frames_snoc wire p b :
  data_frames wire p -> len b <= DataChunkSize ->
  data_frames (wire ++ (if 0 <? len b then encodeHeader TypeData 0 (u32 (len b)) ++ b else []))
              (p ++ b).
Proof.
  intros H Hb. apply data_frames_app; [done|].
  destruct (Z.ltb_spec 0 (len b)).
  - rewrite u32_id by (unfold is_u32, DataChunkSize in *; lia).
    rewrite <- (app_nil_r b) at 3. rewrite <- (app_nil_r b) at 2.
    apply df_cons; [|constructor]. unfold MaxPayload, DataChunkSize in *. lia.
  - assert (b = []) as -> by (apply len_zero; lia). constructor.
Qed.

Lemma copy_loop_sink fuel out r total wire p :
  (length r + length (rd_content r) < fuel)%nat ->
  data_frames wire p ->
  exists wire' total' r',
    copy_loop fuel (mkWriter (out ++ wire) []) r total
      = (total', snd (drain r), mkWriter (out ++ wire') [], r') /\
    data_frames wire' (p ++ fst (drain r)) /\
    total' = total + len (fst (drain r)).
Proof.
  revert r total wire p. induction fuel as [|fuel IH]; intros r total wire p Hf Hw; [lia|].
  cbn [copy_loop].
  assert (forall b, len b <= DataChunkSize ->
    (if 0 <? len b
     then let '(err, w1) := writeFull (mkWriter (out ++ wire) [])
                              (encodeHeader TypeData 0 (u32 (len b)) ++ b) in
          match err with
          | Some e => (Some e, w1, total)
          | None => (None, w1, total + len b)
          end
     else (None, mkWriter (out ++ wire) [], total))
    = (None, mkWriter (out ++ wire ++ (if 0 <? len b then encodeHeader TypeData 0 (u32 (len b)) ++ b else [])) [],
       total + len b)) as Hwrite.
  { intros b Hb. destruct (Z.ltb_spec 0 (len b)).
    - by rewrite writeFull_sink, <- app_assoc.
    - assert (b = []) as -> by (apply len_zero; lia). by rewrite app_nil_r, Z.add_0_r. }
  destruct r as [|[c e] rest]; cbn [Read].
  - rewrite Hwrite by done. cbn. eexists _, _, _. split; [done|].
    rewrite !app_nil_r. split; [done|]. cbn. lia.
  - destruct (Z.leb_spec (len c) DataChunkSize) as [Hc|Hc].
    + rewrite Hwrite by done. pose proof (data_frames_snoc _ _ c Hw Hc) as Hw'.
      destruct e as [x|].
      * destruct x; eexists _, _, _; cbn; (split; [done|]); split; done || lia.
      * rewrite rd_content_cons, length_app in Hf. cbn [rd_bytes length] in Hf.
        destruct (IH rest (total + len c) _ _ ltac:(lia) Hw') as (wire' & total' & r' & -> & Hd & ->).
        cbn [drain]. destruct (drain rest) as [d x]. cbn [fst snd] in *.
        eexists _, _, _. split; [done|]. rewrite app_assoc. split; [done|]. rewrite len_app. lia.
    + rewrite Hwrite by (rewrite len_ztake; unfold DataChunkSize in *; lia).
      assert (len (ztake DataChunkSize c) <= DataChunkSize) as Hlt
        by (rewrite len_ztake; unfold DataChunkSize in *; lia).
      pose proof (data_frames_snoc _ _ _ Hw Hlt) as Hw'.
      assert (length (RD (zdrop DataChunkSize c) e :: rest) +
              length (rd_content (RD (zdrop DataChunkSize c) e :: rest)) < fuel)%nat as Hf'.
      { rewrite rd_content_cons, length_app in *. cbn [rd_bytes length] in *.
        assert (0 < DataChunkSize) by done. pose proof (len_zdrop DataChunkSize c). lia. }
      destruct (IH _ (total + len (ztake DataChunkSize c)) _ _ Hf' Hw')
        as (wire' & total' & r' & -> & Hd & ->).
      rewrite (drain_split DataChunkSize c). destruct (drain (RD (zdrop DataChunkSize c) e :: rest)) as [d x].
      cbn [fst snd] in *. eexists _, _, _. split; [done|]. rewrite app_assoc. split; [done|].
      rewrite len_app. lia.
Qed.

(** ** Properties *)

(** C5: on any stream, however it is cut into reads and wherever read
    deadlines fire, [StreamReader] delivers exactly the bytes and the final
    error that the wire means: payload of the DATA frames, then a clean end
    only after HALF_CLOSE, [io.ErrUnexpectedEOF] after a truncation, an error
    after RESET or any header that is neither a DATA header of one to
    [MaxPayload] bytes nor the HALF_CLOSE header. *)
Theorem stream_reader_reference (r : reader) (plen : Z)
    (Hr : rd_lossless r) (Hplen : 0 < plen < 2 ^ 32) :
  exists d e, wireMeaning (rd_content r) d e /\
    readAll (S (length (rd_content r) + length r)) (NewStreamReader r) plen = (d, Some e).
Proof.
  pose proof (parse_frames_meaning _ _ (Nat.lt_succ_diag_r (length (rd_content r)))) as Hm.
  fold (parse_stream (rd_content r)) in Hm.
  destruct (parse_stream (rd_content r)) as [d e] eqn:E. exists d, e. split; [done|].
  rewrite (readAll_pending _ _ (rd_content r)); [|solve_sr_wf|done|done|cbn; lia].
  unfold pending. cbn. by rewrite body_0, E.
Qed.

Lemma stream_reader_reference_witness :
  let r := [RD (encodeHeader TypeData 0 3 ++ [Byte.x61]) (Some ErrDeadlineExceeded);
            RD [] None; RD [Byte.x62; Byte.x63; Byte.x01] None;
            RD [Byte.x05] None] in
  readAll 20 (NewStreamReader r) 2 = ([Byte.x61; Byte.x62; Byte.x63], Some ErrUnexpectedEOF) /\
  exists d e, wireMeaning (rd_content r) d e /\
    readAll (S (length (rd_content r) + length r)) (NewStreamReader r) 2 = (d, Some e).
Proof.
  intros r. split; [by vm_compute|].
  apply (stream_reader_reference r 2); [|lia]. repeat constructor.
Defined.

(** whatever is written to a [StreamWriter] before [CloseWrite] comes out
    of a [StreamReader] unchanged and is followed by [io.EOF], for every
    fragmentation of the wire and with deadlines anywhere. *)
Theorem stream_roundtrip (ps : list (list byte)) (r : reader) (plen : Z)
    (Hr : carries r (sent ps)) (Hplen : 0 < plen < 2 ^ 32) :
  readAll (S (length (rd_content r) + length r)) (NewStreamReader r) plen = (concat ps, Some EOF).
Proof.
  rewrite (readAll_pending _ _ (rd_content r)); [|solve_sr_wf|by destruct Hr|done|cbn; lia].
  destruct Hr as [_ ->]. unfold pending. cbn. rewrite body_0.
  destruct (sent_frames ps) as (wire & Hw & ->).
  rewrite (data_frames_parse _ _ _ Hw), <- (app_nil_r (encodeHeader _ _ _)), parse_stream_close.
  by rewrite app_nil_r.
Qed.

Lemma stream_roundtrip_witness :
  let wire := sent [[Byte.x61; Byte.x62]; []; [Byte.x63]] in
  let r := [RD (take 5 wire) (Some ErrDeadlineExceeded); RD (drop 5 wire) None] in
  readAll (S (length (rd_content r) + length r)) (NewStreamReader r) 1
    = ([Byte.x61; Byte.x62; Byte.x63], Some EOF).
Proof.
  apply (stream_roundtrip [[Byte.x61; Byte.x62]; []; [Byte.x63]]); [|lia].
  split; [repeat constructor|]. by vm_compute.
Defined.

(** if the carrier is cut before the end of what was sent, the reader
    delivers a prefix of the data and then [io.ErrUnexpectedEOF]: truncation
    is never mistaken for a graceful end. *)
Theorem stream_truncation (ps : list (list byte)) (cut missing : list byte) (r : reader) (plen : Z)
    (Hcut : sent ps = cut ++ missing) (Hmissing : missing <> [])
    (Hr : carries r cut) (Hplen : 0 < plen < 2 ^ 32) :
  exists d, d `prefix_of` concat ps /\
    readAll (S (length (rd_content r) + length r)) (NewStreamReader r) plen
      = (d, Some ErrUnexpectedEOF).
Proof.
  destruct (sent_frames ps) as (wire & Hw & Hs). rewrite Hs in Hcut.
  destruct (parse_stream_truncated wire _ _ _ _ Hw (len_encodeHeader _ _ _) Hmissing Hcut)
    as (d & Hp & Hpre).
  exists d. split; [done|].
  rewrite (readAll_pending _ _ (rd_content r)); [|solve_sr_wf|by destruct Hr|done|cbn; lia].
  destruct Hr as [_ ->]. unfold pending. cbn. by rewrite body_0, Hp.
Qed.

Lemma stream_truncation_witness :
  let cut := take 10 (sent [[Byte.x61; Byte.x62; Byte.x63]]) in
  exists d, d `prefix_of` concat [[Byte.x61; Byte.x62; Byte.x63]] /\
    readAll (S (length (rd_content [RD cut None]) + 1)) (NewStreamReader [RD cut None]) 8
      = (d, Some ErrUnexpectedEOF).
Proof.
  apply (stream_truncation [[Byte.x61; Byte.x62; Byte.x63]]
    (take 10 (sent [[Byte.x61; Byte.x62; Byte.x63]]))
    (drop 10 (sent [[Byte.x61; Byte.x62; Byte.x63]]))); [by vm_compute|done| |lia].
  split; [repeat constructor|]. by vm_compute.
Defined.

(** [CopyAsDataFramesAndClose] always terminates, reports exactly the
    source's failure, and puts on the wire frames that mean the bytes read
    from the source followed by a clean end when the source ended, and by a
    reset when it failed. *)
Theorem copy_and_close_meaning (r : reader) :
  let '(err, w, _) := CopyAsDataFramesAndClose sink r in
  err = snd (drain r) /\
  parse_stream (wr_out w) =
    (fst (drain r), match snd (drain r) with None => EOF | Some _ => errReset end).
Proof.
  unfold CopyAsDataFramesAndClose, CopyAsDataFrames, sink.
  destruct (copy_loop_sink (S (length r + length (rd_content r))) [] r 0 [] []) as
    (wire & total & r' & Hrun & Hw & _); [lia|constructor|].
  cbn [app] in Hrun, Hw. rewrite Hrun.
  assert (forall t, WriteFrame (mkWriter wire []) t 0 [] = (None, mkWriter (wire ++ encodeHeader t 0 0) []))
    as Hend.
  { intros t. unfold WriteFrame. rewrite (proj2 (Z.ltb_ge _ _)) by done.
    by rewrite writeFull_sink, app_nil_r. }
  destruct (snd (drain r)) as [e|]; rewrite Hend; (split; [done|]); cbn [wr_out];
    rewrite (data_frames_parse _ _ _ Hw), <- (app_nil_r (encodeHeader _ _ _)).
  - by rewrite parse_stream_reset, app_nil_r.
  - by rewrite parse_stream_close, app_nil_r.
Qed.
