(* ===== verification/ResponseReplay.v ===== *)
(** * The response window of [internal/plainudp] (response_replay.go)

    [ResponseReplayWindow] remembers up to 2048 received identities
    (timestamp, sequence) in a ring, with a floor per timestamp for the
    identities that left the ring and a retirement bound below which every
    timestamp is refused.  The history of all accepted identities is the
    abstract state the theorems speak about. *)
From S2P Require Import Prelude.

Open Scope Z_scope.

(** ** The code *)

(** [responseID]: timestamp and sequence. *)
Abbreviation responseID := (Z * Z)%type.

Record ResponseReplayWindow := mkWindow {
  seen : gset responseID;
  ring : list responseID;
  next : nat;
  floors : gmap Z Z;
  maxTimestamp : Z;
  retiredThrough : Z;
  hasRetired : bool;
}.

Definition zeroWindow : ResponseReplayWindow := mkWindow ∅ [] 0 ∅ 0 0 false.

Definition responseWindowSize : nat := Z.to_nat 2048.

(** [MaxTimestampSkew / time.Second]. *)
Definition skewSeconds : Z := 30.

(** The update of the retirement bound by a newer timestamp. *)
Definition retire (w : ResponseReplayWindow) (timestamp : Z) : ResponseReplayWindow :=
  if maxTimestamp w <? timestamp then
    let span := 2 * skewSeconds in
    if span <? timestamp then
      let bound := timestamp - span - 1 in
      mkWindow (seen w) (ring w) (next w)
        (filter (fun kv => bound < kv.1) (floors w)) timestamp bound true
    else
      mkWindow (seen w) (ring w) (next w) (floors w) timestamp (retiredThrough w) (hasRetired w)
  else w.

(** [w.floors] after the identity [old] left the ring. *)
Definition evictFloors (w : ResponseReplayWindow) (old : responseID) : gmap Z Z :=
  if negb (hasRetired w) || (retiredThrough w <? old.1)
  then <[old.1 := Z.max (default 0 (floors w !! old.1)) old.2]> (floors w)
  else floors w.

(** Storing an accepted identity, with the eviction of the oldest one. *)
Definition remember (w : ResponseReplayWindow) (id : responseID) : ResponseReplayWindow :=
  if (length (ring w) <? responseWindowSize)%nat then
    mkWindow ({[id]} ∪ seen w) (ring w ++ [id]) (next w) (floors w)
      (maxTimestamp w) (retiredThrough w) (hasRetired w)
  else
    let old := default (0, 0) (ring w !! next w) in
    mkWindow ({[id]} ∪ (seen w ∖ {[old]})) (<[next w := id]> (ring w))
      ((next w + 1) mod responseWindowSize)%nat (evictFloors w old)
      (maxTimestamp w) (retiredThrough w) (hasRetired w).

Definition Accept (w : ResponseReplayWindow) (sequence timestamp : Z)
  : bool * ResponseReplayWindow :=
  if (sequence =? 0) || (hasRetired w && (timestamp <=? retiredThrough w)) then (false, w)
  else
    let w1 := retire w timestamp in
    let id := (timestamp, sequence) in
    if bool_decide (id ∈ seen w1) then (false, w1)
    else if (match floors w1 !! timestamp with Some f => sequence <=? f | None => false end)
    then (false, w1)
    else (true, remember w1 id).

(** A receiver handling responses one after the other: the accepted
    identities, latest first, and the window. *)
Definition step (s : list responseID * ResponseReplayWindow) (id : responseID)
  : list responseID * ResponseReplayWindow :=
  let '(ok, w') := Accept (snd s) id.2 id.1 in
  (if ok then id :: fst s else fst s, w').

Definition receiveAll (ids : list responseID) : list responseID * ResponseReplayWindow :=
  fold_left step ids ([], zeroWindow).

(** ** Invariant *)

(** An identity that the window refuses for good. *)
Definition blocked (w : ResponseReplayWindow) (id : responseID) : Prop :=
  id ∈ seen w \/
  (hasRetired w = true /\ id.1 <= retiredThrough w) \/
  (exists f, floors w !! id.1 = Some f /\ id.2 <= f).

Record invariant (H : list responseID) (w : ResponseReplayWindow) : Prop := {
  inv_blocked : forall id, id ∈ H -> blocked w id;
  inv_seen : forall id, id ∈ seen w <-> id ∈ ring w;
  inv_history : forall id, id ∈ seen w -> id ∈ H;
  inv_nodup : NoDup (ring w);
  inv_ring : (length (ring w) <= responseWindowSize)%nat;
  inv_next : (next w < responseWindowSize)%nat;
  inv_floor : forall ts f, floors w !! ts = Some f ->
    (ts, f) ∈ H /\ ts <= maxTimestamp w /\ (hasRetired w = true -> retiredThrough w < ts);
  inv_positive : forall id, id ∈ H -> 0 < id.2 /\ 0 <= id.1 <= maxTimestamp w;
  inv_bound :
    if hasRetired w then retiredThrough w = maxTimestamp w - 2 * skewSeconds - 1 /\ 0 <= retiredThrough w
    else maxTimestamp w <= 2 * skewSeconds;
  inv_max : 0 <= maxTimestamp w;
}.

Lemma invariant_zero : invariant [] zeroWindow.
Proof.
  split; cbn; unfold responseWindowSize, skewSeconds; try lia.
  all: try done; try constructor; set_solver.
Qed.

(** Retirement keeps the invariant: the floors it drops are those of retired
    timestamps. *)
Lemma invariant_retire H w ts :
  invariant H w -> 0 <= ts -> invariant H (retire w ts).
Proof.
  intros I Hts. unfold retire. destruct (Z.ltb_spec (maxTimestamp w) ts) as [Hlt|]; [|done].
  destruct (Z.ltb_spec (2 * skewSeconds) ts) as [Hs|Hs].
  - destruct I. split; cbn; try done.
    + intros id Hin. destruct (inv_blocked0 id Hin) as [?|[[Hr Hle]|(f & Hf & Hle)]].
      * by left.
      * right; left. split; [done|]. rewrite Hr in inv_bound0. cbn in *. lia.
      * destruct (decide (ts - 2 * skewSeconds - 1 < id.1)).
        -- right; right. exists f. split; [|done]. cbn. apply map_lookup_filter_Some. done.
        -- right; left. cbn. split; [done|lia].
    + intros t f Hf. apply map_lookup_filter_Some in Hf as [Hf Hgt]. cbn in Hgt.
      destruct (inv_floor0 t f Hf) as (? & ? & ?). split_and!; [done|lia|done].
    + intros id Hin. destruct (inv_positive0 id Hin). lia.
    + lia.
  - destruct I. split; cbn; try done.
    + intros t f Hf. destruct (inv_floor0 t f Hf) as (? & ? & ?). split_and!; [done|lia|done].
    + intros id Hin. destruct (inv_positive0 id Hin). lia.
    + destruct (hasRetired w); lia.
Qed.

Lemma retire_max w ts : 0 <= maxTimestamp w -> ts <= maxTimestamp (retire w ts).
Proof.
  intros. unfold retire. destruct (Z.ltb_spec (maxTimestamp w) ts); [|lia].
  case_match; cbn; lia.
Qed.

(** Overwriting a slot of a duplicate-free ring replaces one element. *)
Lemma elem_of_overwrite {A} (l : list A) i old x y :
  NoDup l -> l !! i = Some old -> (y ∈ <[i := x]> l <-> y = x \/ (y ∈ l /\ y <> old)).
Proof.
  intros Hnd Hold. assert (i < length l)%nat as Hi by (by eapply lookup_lt_Some).
  split.
  - intros [j Hj]%list_elem_of_lookup. destruct (decide (i = j)) as [<-|Hne].
    + rewrite list_lookup_insert_eq in Hj by lia. left. congruence.
    + rewrite list_lookup_insert_ne in Hj by done. right. split; [by eapply list_elem_of_lookup_2|].
      intros ->. apply Hne. by eapply NoDup_lookup.
  - intros [->|[Hx Hne]].
    + eapply list_elem_of_lookup_2, list_lookup_insert_eq. lia.
    + apply list_elem_of_lookup in Hx as [j Hj]. apply (list_elem_of_lookup_2 _ j).
      rewrite list_lookup_insert_ne; [done|]. intros <-. congruence.
Qed.

Lemma NoDup_overwrite {A} (l : list A) i x :
  NoDup l -> x ∉ l -> NoDup (<[i := x]> l).
Proof.
  intros Hnd Hx. destruct (decide (i < length l)%nat) as [Hi|Hi];
    [|rewrite list_insert_ge by lia; done].
  apply NoDup_alt. intros j k y Hj Hk.
  destruct (decide (i = j)) as [<-|Hnj], (decide (i = k)) as [<-|Hnk]; [done| | |].
  - rewrite list_lookup_insert_eq in Hj by lia. rewrite list_lookup_insert_ne in Hk by done.
    simplify_eq. destruct Hx. by eapply list_elem_of_lookup_2.
  - rewrite list_lookup_insert_eq in Hk by lia. rewrite list_lookup_insert_ne in Hj by done.
    simplify_eq. destruct Hx. by eapply list_elem_of_lookup_2.
  - rewrite list_lookup_insert_ne in Hj, Hk by done. by eapply NoDup_lookup.
Qed.

(** Every floor after an eviction is an old floor or the evicted sequence. *)
Lemma evictFloors_inv w old t f :
  0 <= old.2 -> evictFloors w old !! t = Some f ->
  floors w !! t = Some f \/
  (t = old.1 /\ f = old.2 /\ (hasRetired w = true -> retiredThrough w < t)).
Proof.
  intros Hpos. unfold evictFloors.
  destruct (negb (hasRetired w) || (retiredThrough w <? old.1)) eqn:Ec; [|by intros ?; left].
  rewrite lookup_insert. case_decide as Et; [|by intros ?; left]. intros [= <-]. subst t.
  assert (hasRetired w = true -> retiredThrough w < old.1) as Hr.
  { intros Hr. rewrite Hr in Ec. cbn in Ec. bool_to_prop. lia. }
  destruct (floors w !! old.1) as [g|] eqn:Eg; cbn.
  - destruct (Z.max_spec g old.2) as [[_ ->]|[_ ->]]; auto.
  - right. split_and!; [done|lia|done].
Qed.

Lemma evictFloors_mono w old t f :
  floors w !! t = Some f -> exists g, evictFloors w old !! t = Some g /\ f <= g.
Proof.
  intros Hf. unfold evictFloors. case_match; [|exists f; split; [done|lia]].
  destruct (decide (old.1 = t)) as [<-|Hne].
  - rewrite lookup_insert_eq, Hf. cbn. eexists. split; [done|lia].
  - rewrite lookup_insert_ne by done. exists f; split; [done|lia].
Qed.

(** The evicted identity stays refused. *)
Lemma evictFloors_blocks w old :
  (hasRetired w = true /\ old.1 <= retiredThrough w) \/
  (exists f, evictFloors w old !! old.1 = Some f /\ old.2 <= f).
Proof.
  unfold evictFloors. destruct (negb (hasRetired w) || (retiredThrough w <? old.1)) eqn:Ec.
  - right. rewrite lookup_insert_eq. eexists. split; [done|]. lia.
  - left. bool_to_prop. split; [done|lia].
Qed.

Lemma invariant_append H w id :
  invariant H w -> id ∉ seen w -> 0 < id.2 -> 0 <= id.1 <= maxTimestamp w ->
  (length (ring w) < responseWindowSize)%nat -> invariant (id :: H) (remember w id).
Proof.
  intros I Hfresh Hpos Hts Hlt. destruct I. unfold remember.
  rewrite (proj2 (Nat.ltb_lt _ _) Hlt). split; cbn; try done.
  - intros x [->|Hin]%elem_of_cons; [left; cbn; set_solver|].
    destruct (inv_blocked0 x Hin) as [?|[?|?]]; [left; cbn; set_solver|by right; left|by right; right].
  - set_solver.
  - set_solver.
  - apply NoDup_app. split_and!; [done| |apply NoDup_singleton].
    intros x Hx ->%list_elem_of_singleton. by apply Hfresh, inv_seen0.
  - rewrite length_app. cbn. lia.
  - intros t f Hf. destruct (inv_floor0 t f Hf) as (? & ? & ?). split_and!; [set_solver|done|done].
  - intros x [->|Hin]%elem_of_cons; [done|]. by apply inv_positive0.
Qed.

(** Storing a fresh identity keeps the invariant: what leaves the ring is
    covered by a floor or already retired. *)
Lemma invariant_remember H w id :
  invariant H w -> id ∉ seen w -> 0 < id.2 -> 0 <= id.1 <= maxTimestamp w ->
  invariant (id :: H) (remember w id).
Proof.
  intros I Hfresh Hpos Hts.
  destruct (Nat.ltb_spec (length (ring w)) responseWindowSize) as [Hlt|Hge];
    [by apply invariant_append|].
  destruct I. unfold remember. rewrite (proj2 (Nat.ltb_ge _ _) Hge).
  destruct (lookup_lt_is_Some_2 (ring w) (next w)) as [old Hold]; [lia|].
  rewrite Hold. change (default (0, 0) (Some old)) with old.
  assert (old ∈ H) as Hos by (apply inv_history0, inv_seen0; by eapply list_elem_of_lookup_2).
  pose proof (inv_positive0 old Hos) as Hop.
  split; cbn; try done.
  - intros x [->|Hin]%elem_of_cons; [left; cbn; set_solver|].
    destruct (inv_blocked0 x Hin) as [Hx|[?|(f & Hf & Hle)]].
    + destruct (decide (x = old)) as [->|Hne]; [|left; cbn; set_solver].
      right. exact (evictFloors_blocks w old).
    + by right; left.
    + right; right. destruct (evictFloors_mono w old _ _ Hf) as (g & Hg & ?). exists g. split; [done|lia].
  - intros x. rewrite (elem_of_overwrite _ _ old), <- inv_seen0 by done. set_solver.
  - set_solver.
  - apply NoDup_overwrite; [done|]. by rewrite <- inv_seen0.
  - by rewrite length_insert.
  - apply Nat.mod_upper_bound. unfold responseWindowSize. lia.
  - intros t f [Hf|(-> & -> & Hr)]%evictFloors_inv; [| |lia].
    + destruct (inv_floor0 _ _ Hf) as (? & ? & ?). split_and!; [set_solver|done|done].
    + split_and!; [|lia|done]. apply list_elem_of_further. by rewrite <- surjective_pairing.
  - intros x [->|Hin]%elem_of_cons; [done|]. by apply inv_positive0.
Qed.

(** A timestamp that passed the first test is still live after it has moved
    the retirement bound. *)
Lemma retire_live w ts :
  0 <= maxTimestamp w -> hasRetired w && (ts <=? retiredThrough w) = false ->
  hasRetired (retire w ts) = true -> retiredThrough (retire w ts) < ts.
Proof.
  intros Hm Hl. unfold retire, skewSeconds. repeat case_match; cbn; bool_to_prop; intros Hr;
    try lia; rewrite Hr in Hl; cbn in Hl; bool_to_prop; lia.
Qed.

(** What [Accept] does to the history. *)
Lemma Accept_invariant H w seq ts ok w' :
  invariant H w -> 0 <= seq -> 0 <= ts -> Accept w seq ts = (ok, w') ->
  invariant (if ok then (ts, seq) :: H else H) w' /\ (ok = true -> (ts, seq) ∉ H).
Proof.
  intros I Hseq Hts E. unfold Accept in E.
  destruct (_ || _) eqn:E0 in E; [simplify_eq; done|].
  apply orb_false_elim in E0 as [E0 Hlive]. bool_to_prop.
  pose proof (invariant_retire H w ts I Hts) as I1.
  pose proof (retire_live w ts (inv_max _ _ I) Hlive) as Hl.
  destruct (bool_decide _) eqn:E1 in E; [simplify_eq; done|]. bool_to_prop.
  destruct (match floors (retire w ts) !! ts with Some f => seq <=? f | None => false end) eqn:E2 in E; [simplify_eq; done|].
  simplify_eq. split.
  - apply invariant_remember; cbn; [done|done|lia|]. split; [done|].
    apply retire_max. apply I.
  - intros _ Hin. destruct (inv_blocked _ _ I1 _ Hin) as [?|[[Hr Hle]|(f & Hf & Hle)]]; cbn in *.
    + done.
    + specialize (Hl Hr). lia.
    + rewrite Hf in E2. bool_to_prop. lia.
Qed.

Definition is_id (id : responseID) : Prop := is_u64 id.1 /\ is_u64 id.2.

Lemma retire_blocked w ts seq :
  (seq <=? default (seq - 1) (floors (retire w ts) !! ts)) = (seq <=? default (seq - 1) (floors w !! ts)) /\ seen (retire w ts) = seen w.
Proof.
  unfold retire. destruct (maxTimestamp w <? ts); [|done]. destruct (2 * skewSeconds <? ts); [|done]. cbn [floors seen]. split; [|done].
  destruct (floors w !! ts) as [f|] eqn:Hf.
  - assert (filter (fun kv : Z * Z => ts - 2 * skewSeconds - 1 < kv.1) (floors w) !! ts = Some f) as ->; [|done].
    apply map_lookup_filter_Some. split; [done|]. unfold skewSeconds. cbn. lia.
  - assert (filter (fun kv : Z * Z => ts - 2 * skewSeconds - 1 < kv.1) (floors w) !! ts = None) as ->; [|done].
    apply map_lookup_filter_None. by left.
Qed.

(** What the window takes: everything but sequence number 0 and what it blocks. *)
Lemma Accept_blocked w seq ts : fst (Accept w seq ts) = true <-> seq <> 0 /\ ~ blocked w (ts, seq).
Proof.
  destruct (retire_blocked w ts seq) as [Hf Hs]. unfold Accept, blocked. cbn [fst snd]. rewrite Hs.
  assert (Hfl : (match floors (retire w ts) !! ts with Some f => seq <=? f | None => false end) = true <-> exists f, floors w !! ts = Some f /\ seq <= f).
  { transitivity ((seq <=? default (seq - 1) (floors (retire w ts) !! ts)) = true).
    - destruct (floors (retire w ts) !! ts); cbn [default]; rewrite ?Z.leb_le; [done|]. unfold default. split; [done|]. cbn. lia.
    - rewrite Hf, Z.leb_le. destruct (floors w !! ts) as [f|]; cbn; (split; [|naive_solver lia]); [naive_solver|lia]. }
  destruct (Z.eqb_spec seq 0) as [->|Hz]; [cbn; naive_solver|]. cbn [orb].
  destruct (hasRetired w && (ts <=? retiredThrough w)) eqn:Hr.
  { apply andb_true_iff in Hr as [H1 H2%Z.leb_le]. cbn. naive_solver. }
  assert (~ (hasRetired w = true /\ ts <= retiredThrough w)) by (intros [H1 H2%Z.leb_le]; by rewrite H1, H2 in Hr).
  case_bool_decide; [cbn; naive_solver|]. destruct (match floors _ !! ts with Some f => _ | None => _ end); cbn; naive_solver.
Qed.

Lemma receiveAll_snoc ids id : receiveAll (ids ++ [id]) = step (receiveAll ids) id.
Proof. unfold receiveAll. by rewrite fold_left_app. Qed.

Lemma receiveAll_invariant ids :
  Forall is_id ids -> invariant (receiveAll ids).1 (receiveAll ids).2 /\ NoDup (receiveAll ids).1.
Proof.
  induction ids as [|[ts seq] ids IH] using rev_ind.
  { intros _. split; [apply invariant_zero|constructor]. }
  rewrite Forall_app, Forall_singleton. intros [Hids [Hts Hseq]].
  destruct (IH Hids) as [I Hnd]. rewrite receiveAll_snoc. unfold step.
  destruct (receiveAll ids) as [H w]. cbn in I, Hnd, Hts, Hseq |- *.
  destruct (Accept w seq ts) as [ok w'] eqn:E.
  apply (Accept_invariant H) in E as [I' Hf]; [|done|apply Hseq|apply Hts].
  destruct ok; cbn; [|done]. split; [done|]. apply NoDup_cons. auto.
Qed.

Lemma floors_size H w : invariant H w -> (size (floors w) <= 61)%nat.
Proof.
  intros I. rewrite <- size_dom.
  assert (dom (floors w) ⊆ list_to_set (seqZ (Z.max 0 (maxTimestamp w - 60)) 61)) as Hsub.
  { intros t [f Hf]%elem_of_dom. apply elem_of_list_to_set, elem_of_seqZ.
    destruct (inv_floor _ _ I t f Hf) as (Hin & Hle & Hr).
    destruct (inv_positive _ _ I _ Hin) as [_ Hpos]. cbn in Hpos.
    pose proof (inv_bound _ _ I) as Hb. unfold skewSeconds in Hb.
    destruct (hasRetired w); [specialize (Hr eq_refl)|]; lia. }
  apply subseteq_size in Hsub. rewrite Hsub.
  rewrite size_list_to_set by apply NoDup_seqZ. by rewrite length_seqZ.
Qed.

Lemma seen_size H w : invariant H w -> size (seen w) = length (ring w).
Proof.
  intros I. rewrite <- (size_list_to_set (C := gset responseID)) by apply (inv_nodup _ _ I).
  apply set_size_proper. intros x. rewrite elem_of_list_to_set. apply (inv_seen _ _ I).
Qed.

(** ** Properties *)

(** C7: whatever sequence of authenticated responses arrives, with any
    timestamps and sequence numbers in any order, no identity (timestamp,
    sequence) is accepted twice, even after the identity left the 2048-entry
    ring and after the sender's clock was rolled back. *)
Theorem response_window_no_replay ids :
  Forall is_id ids -> NoDup (receiveAll ids).1.
Proof. intros H. apply (receiveAll_invariant ids H). Qed.

(** The memory of a response window is bounded: at most 2048 remembered
    identities, as many map entries as ring entries, and at most 61 floors,
    one for each second of the span in which two timestamps can both be
    valid. *)
Theorem response_window_memory ids :
  Forall is_id ids ->
  let w := (receiveAll ids).2 in
  len (ring w) <= 2048 /\ size (seen w) = length (ring w) /\ Z.of_nat (size (floors w)) <= 61.
Proof.
  intros H. destruct (receiveAll_invariant ids H) as [I _].
  pose proof (floors_size _ _ I). pose proof (inv_ring _ _ I). unfold responseWindowSize in *.
  split_and!; [lia|by eapply seen_size|lia].
Qed.

(** no fresh response is lost: a response whose sequence number is
    larger than every accepted one of its own timestamp, and whose timestamp
    is within 60 seconds of the newest one received, is accepted; responses of
    other timestamps, larger sequence numbers included, do not matter. *)
Theorem response_window_available ids ts seq :
  Forall is_id ids -> is_u64 ts -> is_u64 seq -> 0 < seq ->
  maxTimestamp (receiveAll ids).2 - 60 <= ts ->
  (forall s, (ts, s) ∈ (receiveAll ids).1 -> s < seq) ->
  fst (Accept (receiveAll ids).2 seq ts) = true.
Proof.
  intros Hids Hts Hseq Hpos Hnew Hmax.
  destruct (receiveAll_invariant ids Hids) as [I _].
  destruct (receiveAll ids) as [H w]. cbn in *.
  pose proof (inv_bound _ _ I) as Hb. unfold skewSeconds in Hb.
  pose proof (invariant_retire H w ts I (proj1 Hts)) as I1.
  unfold Accept. rewrite (proj2 (Z.eqb_neq seq 0)) by lia.
  replace (hasRetired w && (ts <=? retiredThrough w)) with false.
  2:{ destruct (hasRetired w); cbn; [|done]. symmetry. apply Z.leb_gt. lia. }
  cbn [orb]. rewrite bool_decide_false.
  2:{ intros Hin. apply (inv_history _ _ I1), Hmax in Hin. lia. }
  destruct (floors (retire w ts) !! ts) as [f|] eqn:Ef; [|done].
  destruct (seq <=? f) eqn:E; [|done].
  apply (inv_floor _ _ I1) in Ef as (Hin & _). apply Hmax in Hin. bool_to_prop. lia.
Qed.

(** ** Witnesses *)

Definition sample : list responseID :=
  [(100, 1); (100, 2); (100, 1); (95, 7); (170, 3); (100, 9); (95, 7); (130, 2); (130, 2)].

Lemma is_id_sample : Forall is_id sample.
Proof. repeat constructor; cbn; lia. Qed.

Lemma response_window_no_replay_witness :
  (receiveAll sample).1 = [(130, 2); (170, 3); (95, 7); (100, 2); (100, 1)] /\
  NoDup (receiveAll sample).1.
Proof. split; [vm_compute; reflexivity|]. apply response_window_no_replay. exact is_id_sample. Defined.

Lemma response_window_memory_witness : len (ring (receiveAll sample).2) <= 2048.
Proof. apply (response_window_memory sample). exact is_id_sample. Defined.

Lemma response_window_available_witness :
  fst (Accept (receiveAll sample).2 3 130) = true.
Proof.
  apply response_window_available; [exact is_id_sample|unfold is_u64; lia..|vm_compute; discriminate|].
  intros s Hs. replace (receiveAll sample).1 with [(130, 2); (170, 3); (95, 7); (100, 2); (100, 1)] in Hs
    by (vm_compute; reflexivity).
  rewrite !elem_of_cons in Hs. destruct Hs as [?|[?|[?|[?|[?|Hs]]]]]; simplify_eq; try lia.
  by apply elem_of_nil in Hs.
Defined.
