(* ===== verification/Icmp.v ===== *)
(** * ICMP echo messages and the echo tracker of [internal/icmpmsg] (icmp.go)

    Packets are byte lists; the internet checksum is kept at [uint32] and
    [uint16] with its folding loop.  [EchoTracker] is the map of outstanding
    requests, together with the process-wide token counter. *)
From S2P Require Import Prelude.

Open Scope Z_scope.

(** ** The code *)

Definition IPv4EchoRequest : Z := 8.
Definition IPv4EchoReply : Z := 0.
Definition IPv6EchoRequest : Z := 128.
Definition IPv6EchoReply : Z := 129.

Record EchoMessage := mkEcho {
  Type_ : byte;
  Code : byte;
  Checksum_ : Z;
  ID : Z;
  Seq : Z;
  Data : list byte;
}.

(** [binary.BigEndian.PutUint16/32(l[a:], v)] with [n] the width in bytes. *)
Definition put (n a : nat) (v : Z) (l : list byte) : list byte :=
  take a l ++ be n v ++ drop (a + n) l.

(** [^x] of a [uint16] and of a [uint32]. *)
Definition not16 (x : Z) : Z := Z.lxor x 65535.
Definition not32 (x : Z) : Z := Z.lxor x 4294967295.

(** The word loop of [Checksum], two bytes at a time, then the odd byte. *)
Fixpoint sumWords (sum : Z) (b : list byte) : Z :=
  match b with
  | x :: y :: b' => sumWords (u32 (sum + be_val [x; y])) b'
  | [x] => u32 (sum + Z.shiftl (byteZ x) 8)
  | [] => sum
  end.

(** [for sum > 0xffff { sum = (sum >> 16) + (sum & 0xffff) }] *)
Fixpoint foldCarry (fuel : nat) (sum : Z) : Z :=
  match fuel with
  | O => sum
  | S fuel => if 65535 <? sum then foldCarry fuel (Z.shiftr sum 16 + Z.land sum 65535) else sum
  end.

(** Two iterations are always enough for a [uint32] ([foldCarry_spec]). *)
Definition foldFuel : nat := 2.

Definition Checksum (b : list byte) : Z := not16 (u16 (foldCarry foldFuel (sumWords 0 b))).

Definition buildEcho (msgType : Z) (id seq : Z) (data : list byte) (isIPv6 : bool) : list byte :=
  let pkt := [byte_of msgType; byte_of 0; byte_of 0; byte_of 0] ++ be 2 id ++ be 2 seq ++ data in
  if isIPv6 then pkt else put 2 2 (Checksum pkt) pkt.

Definition BuildEchoRequest (id seq : Z) (data : list byte) (isIPv6 : bool) : list byte :=
  buildEcho (if isIPv6 then IPv6EchoRequest else IPv4EchoRequest) id seq data isIPv6.

Definition BuildEchoReply (id seq : Z) (data : list byte) (isIPv6 : bool) : list byte :=
  buildEcho (if isIPv6 then IPv6EchoReply else IPv4EchoReply) id seq data isIPv6.

Definition ParseEcho (b : list byte) : result EchoMessage :=
  if len b <? 8 then Fail (Errorf "icmp packet too short")
  else Ok (mkEcho (at_ b 0) (at_ b 1) (be_val (slice 2 4 b)) (be_val (slice 4 6 b))
             (be_val (slice 6 8 b)) (drop 8 b)).

Definition ValidateEchoRequest (packet : list byte) (ipv6 : bool) : option error :=
  if len packet <? 8 then Some (Errorf "icmp echo request too short")
  else
    let want := if ipv6 then IPv6EchoRequest else IPv4EchoRequest in
    if negb (byteZ (at_ packet 0) =? want) || negb (byteZ (at_ packet 1) =? 0)
    then Some (Errorf "only ICMP echo requests are allowed")
    else if negb ipv6 && negb (Checksum packet =? 0)
    then Some (Errorf "invalid ICMPv4 checksum")
    else None.

Definition adjustChecksum (checksum oldValue newValue : Z) : Z :=
  let sum := u32 (not16 checksum + Z.land (not32 (Z.shiftr oldValue 16)) 65535
                  + Z.land (not32 oldValue) 65535) in
  let sum := u32 (sum + Z.shiftr newValue 16) in
  let sum := u32 (sum + Z.land newValue 65535) in
  not16 (u16 (foldCarry foldFuel sum)).

Definition rewriteToken (packet : list byte) (token : Z) (ipv6 : bool) : list byte :=
  let old := be_val (slice 4 8 packet) in
  let result := put 4 4 token packet in
  if ipv6 then
    let checksum := be_val (slice 2 4 result) in
    if negb (checksum =? 0) then put 2 2 (adjustChecksum checksum old token) result else result
  else
    let result := put 2 2 0 result in
    put 2 2 (Checksum result) result.

(** [pendingEcho]: the original identifier and sequence, and the creation time. *)
Record pendingEcho := mkPending { original : Z; created : Z }.

(** [t.pending], and the global [nextEchoToken]. *)
Record EchoTracker := mkTracker { pending : gmap Z pendingEcho; nextEchoToken : Z }.

Definition Minute : Z := 60 * 1000000000.

Definition maxPending : Z := 2048.

(** The entries that [PrepareRequest] keeps when the table is full. *)
Definition purge (now : Z) (m : gmap Z pendingEcho) : gmap Z pendingEcho :=
  filter (fun kv => now - created kv.2 < Minute) m.

Definition PrepareRequest (now : Z) (t : EchoTracker) (packet : list byte) (ipv6 : bool)
  : result (list byte) * EchoTracker :=
  match ValidateEchoRequest packet ipv6 with
  | Some err => (Fail err, t)
  | None =>
      let p := if maxPending <=? Z.of_nat (size (pending t)) then purge now (pending t) else pending t in
      if maxPending <=? Z.of_nat (size p)
      then (Fail (Errorf "too many outstanding ICMP echo requests"), mkTracker p (nextEchoToken t))
      else
        let token := u32 (nextEchoToken t + 1) in
        (Ok (rewriteToken packet token ipv6),
         mkTracker (<[token := mkPending (be_val (slice 4 8 packet)) now]> p) token)
  end.

Definition StripIPHeader (packet : list byte) (ipv6 : bool) : result (list byte) :=
  if len packet <? 8 then Fail (Errorf "icmp reply too short")
  else if negb ipv6 && (Z.shiftr (byteZ (at_ packet 0)) 4 =? 4) then
    if len packet <? 28 then Fail (Errorf "short IPv4 ICMP reply")
    else
      let ihl := Z.land (byteZ (at_ packet 0)) 15 * 4 in
      if (ihl <? 20) || (len packet <? ihl + 8) || negb (byteZ (at_ packet 9) =? 1)
      then Fail (Errorf "invalid IPv4 ICMP reply header")
      else Ok (zdrop ihl packet)
  else if ipv6 && (Z.shiftr (byteZ (at_ packet 0)) 4 =? 6) then
    if (len packet <? 48) || negb (byteZ (at_ packet 6) =? 58)
    then Fail (Errorf "invalid IPv6 ICMP reply header")
    else Ok (drop 40 packet)
  else Ok packet.

Definition RestoreReply (now : Z) (t : EchoTracker) (raw : list byte) (ipv6 : bool)
  : option (list byte) * EchoTracker :=
  match StripIPHeader raw ipv6 with
  | Fail _ => (None, t)
  | Ok packet =>
      if len packet <? 8 then (None, t)
      else
        let want := if ipv6 then IPv6EchoReply else IPv4EchoReply in
        if negb (byteZ (at_ packet 0) =? want) || negb (byteZ (at_ packet 1) =? 0) then (None, t)
        else
          let token := be_val (slice 4 8 packet) in
          match pending t !! token with
          | None => (None, t)
          | Some p =>
              let t' := mkTracker (delete token (pending t)) (nextEchoToken t) in
              if Minute <=? now - created p then (None, t')
              else (Some (rewriteToken packet (original p) ipv6), t')
          end
  end.

(** ** The internet checksum *)

(** The sum of the 16-bit words of a packet, without machine arithmetic. *)
Fixpoint wordSum (b : list byte) : Z :=
  match b with
  | x :: y :: b' => be_val [x; y] + wordSum b'
  | [x] => byteZ x * 256
  | [] => 0
  end.

Lemma pair_ind {A} (P : list A -> Prop) :
  P [] -> (forall x, P [x]) -> (forall x y l, P l -> P (x :: y :: l)) -> forall l, P l.
Proof.
  intros H0 H1 H2 l. assert (P l /\ forall x, P (x :: l)) as [H _]; [|done].
  induction l as [|y l [IH1 IH2]]; split; auto.
Qed.

Lemma be_val_2 x y : be_val [x; y] = byteZ x * 256 + byteZ y.
Proof. done. Qed.

Lemma wordSum_range l : 0 <= wordSum l <= 65535 * ((len l + 1) / 2).
Proof.
  induction l as [| x | x y l IH] using pair_ind; cbn [wordSum].
  - done.
  - pose proof (byteZ_range x). change (len [x]) with 1. lia.
  - rewrite be_val_2, !len_cons. pose proof (byteZ_range x). pose proof (byteZ_range y). lia.
Qed.

Lemma sumWords_spec l acc :
  0 <= acc -> acc + 65535 * ((len l + 1) / 2) < 2 ^ 32 -> sumWords acc l = acc + wordSum l.
Proof.
  revert acc. induction l as [| x | x y l IH] using pair_ind; intros acc H0 H; cbn [sumWords wordSum].
  - lia.
  - rewrite Z.shiftl_mul_pow2 by lia. pose proof (byteZ_range x). change (len [x]) with 1 in H.
    rewrite u32_id; unfold is_u32; lia.
  - rewrite !len_cons in H. pose proof (byteZ_range x). pose proof (byteZ_range y).
    rewrite be_val_2, u32_id by (unfold is_u32; lia). rewrite IH; lia.
Qed.

Lemma low16 s : Z.land s 65535 = s mod 65536.
Proof. apply (Z.land_ones s 16). lia. Qed.

Lemma shr16 s : Z.shiftr s 16 = s / 65536.
Proof. apply (Z.shiftr_div_pow2 s 16). lia. Qed.

Lemma lxor_ones n x : 0 <= n -> 0 <= x < 2 ^ n -> Z.lxor x (Z.ones n) = Z.ones n - x.
Proof.
  intros Hn Hx.
  assert (forall i, n <= i -> Z.testbit x i = false) as Hhi.
  { intros i Hi. destruct (decide (x = 0)) as [->|]; [apply Z.bits_0|].
    apply Z.bits_above_log2; [lia|]. eapply Z.lt_le_trans; [|exact Hi]. apply Z.log2_lt_pow2; lia. }
  rewrite Z.sub_nocarry_ldiff.
  - apply Z.bits_inj'. intros i Hi. rewrite Z.lxor_spec, Z.ldiff_spec, Z.testbit_ones_nonneg by lia.
    destruct (Z.ltb_spec i n); [by destruct (Z.testbit x i)|]. by rewrite Hhi.
  - apply Z.bits_inj'. intros i Hi. rewrite Z.ldiff_spec, Z.testbit_ones_nonneg, Z.bits_0 by lia.
    destruct (Z.ltb_spec i n); [apply andb_false_r|]. by rewrite Hhi.
Qed.

Lemma not16_sub x : 0 <= x <= 65535 -> not16 x = 65535 - x.
Proof. intros. apply (lxor_ones 16); lia. Qed.

Lemma not32_sub x : 0 <= x < 2 ^ 32 -> not32 x = 2 ^ 32 - 1 - x.
Proof. intros. apply (lxor_ones 32); lia. Qed.

(** The carry loop ends after two rounds for every [uint32], whatever the
    fuel beyond that, with the ones' complement residue of its input. *)
Lemma foldCarry_spec fuel s :
  (2 <= fuel)%nat -> 0 <= s < 2 ^ 32 ->
  let f := foldCarry fuel s in
  0 <= f <= 65535 /\ f mod 65535 = s mod 65535 /\ (f = 0 <-> s = 0).
Proof.
  intros Hf Hs. destruct fuel as [|[|fuel]]; [lia..|]. cbn [foldCarry].
  rewrite !low16, !shr16.
  destruct (Z.ltb_spec 65535 s); [|lia].
  destruct (Z.ltb_spec 65535 (s / 65536 + s mod 65536)); [|lia].
  set (r := (s / 65536 + s mod 65536) / 65536 + (s / 65536 + s mod 65536) mod 65536).
  assert (0 <= r <= 65535 /\ r mod 65535 = s mod 65535 /\ (r = 0 <-> s = 0)) as Hr by (unfold r; lia).
  destruct fuel as [|fuel]; cbn [foldCarry]; [done|].
  destruct (Z.ltb_spec 65535 r); [lia|done].
Qed.

Lemma fold_u32 s :
  0 <= s < 2 ^ 32 ->
  let f := u16 (foldCarry foldFuel s) in
  0 <= f <= 65535 /\ f mod 65535 = s mod 65535 /\ (f = 0 <-> s = 0).
Proof.
  intros Hs. pose proof (foldCarry_spec foldFuel s (le_n 2) Hs) as H. cbv zeta in *.
  rewrite u16_id; [done|]. unfold is_u16. lia.
Qed.

(** The packets of the tracker: no [uint32] overflow in [Checksum]. *)
Definition maxPacket : Z := 131072.

(** [Checksum] is the ones' complement of the word sum. *)
Lemma Checksum_spec b :
  len b <= maxPacket ->
  0 <= Checksum b <= 65535 /\
  (Checksum b + wordSum b) mod 65535 = 0 /\
  (Checksum b = 65535 <-> wordSum b = 0).
Proof.
  unfold maxPacket. intros Hb. pose proof (wordSum_range b) as R. unfold Checksum.
  rewrite sumWords_spec, Z.add_0_l by lia.
  pose proof (fold_u32 (wordSum b)) as F. cbv zeta in F.
  rewrite not16_sub by (apply F; lia). lia.
Qed.

Lemma Checksum_zero b :
  len b <= maxPacket -> (Checksum b = 0 <-> 0 < wordSum b /\ wordSum b mod 65535 = 0).
Proof.
  intros Hb. pose proof (Checksum_spec b Hb). pose proof (wordSum_range b). lia.
Qed.

(** ** Packets as eight header bytes and data *)

Lemma packet_shape (b : list byte) :
  8 <= len b -> exists b0 b1 b2 b3 b4 b5 b6 b7 d,
    b = b0 :: b1 :: b2 :: b3 :: b4 :: b5 :: b6 :: b7 :: d.
Proof.
  intros H. do 8 (destruct b as [|? b]; [cbn in H; lia|]). by repeat eexists.
Qed.

Lemma be_2 v : be 2 v = [byte_of (v / 256); byte_of v].
Proof. cbn. by rewrite Z.div_1_r. Qed.

Lemma be_4 v :
  be 4 v = [byte_of (v / 16777216); byte_of (v / 65536); byte_of (v / 256); byte_of v].
Proof. cbn. by rewrite Z.div_1_r. Qed.

Lemma length_put n a v l : (a + n <= length l)%nat -> length (put n a v l) = length l.
Proof. intros. unfold put. rewrite !length_app, length_take, length_be, length_drop. lia. Qed.

(** The word sum after a 16-bit field of the header is overwritten. *)
Lemma wordSum_put_checksum b v :
  8 <= len b -> is_u16 v ->
  wordSum (put 2 2 v b) = wordSum b - be_val (slice 2 4 b) + v.
Proof.
  intros Hb [H0 H1]. destruct (packet_shape b Hb) as (b0&b1&b2&b3&b4&b5&b6&b7&d&->).
  unfold put, slice. rewrite be_2. cbn [take drop app wordSum Nat.sub Nat.add].
  rewrite !be_val_2, !byteZ_of. lia.
Qed.

Lemma wordSum_put_token b v :
  8 <= len b -> is_u32 v ->
  wordSum (put 4 4 v b) =
  wordSum b - be_val (slice 4 6 b) - be_val (slice 6 8 b) + v / 65536 + v mod 65536.
Proof.
  intros Hb [H0 H1]. destruct (packet_shape b Hb) as (b0&b1&b2&b3&b4&b5&b6&b7&d&->).
  unfold put, slice. rewrite be_4. cbn [take drop app wordSum Nat.sub Nat.add].
  rewrite drop_0, !be_val_2, !byteZ_of.
  assert ((v / 16777216) mod 256 * 256 + (v / 65536) mod 256 = v / 65536) by (clear -H0 H1; lia).
  assert ((v / 256) mod 256 * 256 + v mod 256 = v mod 65536) by (clear; lia).
  lia.
Qed.

Lemma put_header n a v b m :
  (a + n <= m)%nat -> (m <= length b)%nat -> drop m (put n a v b) = drop m b.
Proof.
  intros H1 H2. unfold put. rewrite app_assoc, drop_app_ge.
  - rewrite drop_drop, length_app, length_take, length_be. f_equal. lia.
  - rewrite length_app, length_take, length_be. lia.
Qed.

Lemma put_field n a v b : (a <= length b)%nat -> slice a (a + n) (put n a v b) = be n v.
Proof.
  intros H. unfold put, slice. rewrite drop_app_ge; rewrite length_take; [|lia].
  rewrite Nat.min_l, Nat.sub_diag, drop_0 by lia. apply take_app_length'. rewrite length_be. lia.
Qed.

Lemma slice_token b : 8 <= len b -> be_val (slice 4 8 b) = be_val (slice 4 6 b) * 65536 + be_val (slice 6 8 b).
Proof.
  intros Hb. destruct (packet_shape b Hb) as (b0&b1&b2&b3&b4&b5&b6&b7&d&->).
  exact (be_val_app [b4; b5] [b6; b7]).
Qed.

(** ** Rewriting keeps packets valid *)

Lemma rewriteToken_length b token v6 : 8 <= len b -> length (rewriteToken b token v6) = length b.
Proof.
  intros Hb. unfold rewriteToken. destruct v6; [case_match|]; repeat first [done | lia | rewrite length_put].
Qed.

(** The incremental update keeps the word sum modulo 65535. *)
Lemma adjustChecksum_spec cs old new :
  is_u16 cs -> is_u32 old -> is_u32 new ->
  is_u16 (adjustChecksum cs old new) /\
  (adjustChecksum cs old new + new / 65536 + new mod 65536) mod 65535 =
  (cs + old / 65536 + old mod 65536) mod 65535.
Proof.
  intros Hcs Hold Hnew. unfold is_u16, is_u32 in *. unfold adjustChecksum.
  rewrite !low16, !shr16, !not32_sub, (not16_sub cs) by lia.
  set (s := u32 (u32 (u32 _ + _) + _)).
  assert (s = 65535 - cs + (65535 - old / 65536) + (65535 - old mod 65536) + new / 65536 + new mod 65536) as Es.
  { unfold s. rewrite (u32_id (65535 - _ + _ + _)) by (unfold is_u32; lia).
    rewrite (u32_id (65535 - _ + _ + _ + _)) by (unfold is_u32; lia).
    rewrite u32_id by (unfold is_u32; lia). lia. }
  pose proof (fold_u32 s) as F. cbv zeta in F. rewrite not16_sub by lia. lia.
Qed.

Lemma rewriteToken_shape b0 b1 b2 b3 b4 b5 b6 b7 d token v6 :
  exists c2 c3,
    rewriteToken (b0 :: b1 :: b2 :: b3 :: b4 :: b5 :: b6 :: b7 :: d) token v6 =
    b0 :: b1 :: c2 :: c3 :: be 4 token ++ d.
Proof.
  unfold rewriteToken. destruct v6.
  - unfold put. case_match; rewrite ?be_2; by repeat eexists.
  - do 2 eexists. unfold put at 1. rewrite be_2. done.
Qed.

Lemma rewriteToken_parse b token v6 :
  8 <= len b -> is_u32 token ->
  let r := rewriteToken b token v6 in
  at_ r 0 = at_ b 0 /\ at_ r 1 = at_ b 1 /\ be_val (slice 4 8 r) = token /\ drop 8 r = drop 8 b.
Proof.
  intros Hb Ht. destruct (packet_shape b Hb) as (b0&b1&b2&b3&b4&b5&b6&b7&d&->).
  destruct (rewriteToken_shape b0 b1 b2 b3 b4 b5 b6 b7 d token v6) as (c2 & c3 & ->).
  cbv zeta. split_and!; try done.
  change (slice 4 8 (b0 :: b1 :: c2 :: c3 :: be 4 token ++ d)) with (take 4 (be 4 token ++ d)).
  rewrite take_app_length' by (by rewrite length_be). by apply be_val_be4.
Qed.

(** Storing the checksum of a packet whose checksum field is zero makes it valid. *)
Lemma Checksum_stored b :
  8 <= len b <= maxPacket -> be_val (slice 2 4 b) = 0 -> Checksum (put 2 2 (Checksum b) b) = 0.
Proof.
  intros Hb Hz. pose proof (Checksum_spec b (proj2 Hb)) as Hc. pose proof (wordSum_range b).
  apply Checksum_zero; [rewrite length_put; lia|].
  rewrite wordSum_put_checksum, Hz by (unfold is_u16; lia). lia.
Qed.

Lemma rewriteToken_v4 b token :
  8 <= len b <= maxPacket -> Checksum (rewriteToken b token false) = 0.
Proof.
  intros Hb. unfold rewriteToken.
  apply Checksum_stored; [repeat first [lia | rewrite length_put]|].
  rewrite (put_field 2 2); [done|]. rewrite length_put; lia.
Qed.

Lemma rewriteToken_v6 b token :
  8 <= len b <= maxPacket -> is_u32 token -> be_val (slice 2 4 b) <> 0 ->
  wordSum (rewriteToken b token true) mod 65535 = wordSum b mod 65535.
Proof.
  intros Hb Ht Hc. unfold rewriteToken.
  assert (slice 2 4 (put 4 4 token b) = slice 2 4 b) as Es.
  { destruct (packet_shape b (proj1 Hb)) as (b0&b1&b2&b3&b4&b5&b6&b7&d&->). done. }
  rewrite Es, (proj2 (Z.eqb_neq _ _) Hc). cbn [negb].
  assert (forall m, (m + 2 <= length b)%nat -> is_u16 (be_val (slice m (m + 2) b))) as Hw.
  { intros m Hm. apply be_val_u16. rewrite length_slice; lia. }
  assert (is_u32 (be_val (slice 4 8 b))) as Ho by (apply be_val_u32; rewrite length_slice; lia).
  pose proof (adjustChecksum_spec _ _ _ (Hw 2%nat ltac:(lia)) Ho Ht) as [Ha Eq].
  rewrite wordSum_put_checksum, Es, wordSum_put_token by (rewrite ?length_put; try lia; done).
  pose proof (slice_token b (proj1 Hb)) as Et.
  pose proof (Hw 4%nat ltac:(lia)) as H4. pose proof (Hw 6%nat ltac:(lia)) as H6.
  unfold is_u16, is_u32 in *.
  replace (be_val (slice 4 8 b) / 65536) with (be_val (slice 4 6 b)) in Eq by (cbn [Nat.add] in *; lia).
  replace (be_val (slice 4 8 b) mod 65536) with (be_val (slice 6 8 b)) in Eq by (cbn [Nat.add] in *; lia).
  cbn [Nat.add] in *. clear Es Et. lia.
Qed.

(** ** The tracker as a state machine *)

#[local] Arguments slice : simpl never.
#[local] Arguments be_val : simpl never.

(** What a relay does with one association: an outgoing request, or a packet
    read from the raw socket, at a given time. *)
Inductive event :=
  | Request (now : Z) (packet : list byte) (ipv6 : bool)
  | RawReply (now : Z) (raw : list byte) (ipv6 : bool).

(** What it lets through. *)
Inductive outcome :=
  | Sent (now token original : Z)
  | Answered (now token original : Z).

Definition token_of (o : outcome) : Z :=
  match o with Sent _ t _ | Answered _ t _ => t end.

(** The outcomes so far, latest first, and the tracker. *)
Definition run_event (s : list outcome * EchoTracker) (e : event) : list outcome * EchoTracker :=
  match e with
  | Request now packet v6 =>
      let '(r, t') := PrepareRequest now (snd s) packet v6 in
      match r with
      | Ok wire => (Sent now (be_val (slice 4 8 wire)) (be_val (slice 4 8 packet)) :: fst s, t')
      | Fail _ => (fst s, t')
      end
  | RawReply now raw v6 =>
      let '(r, t') := RestoreReply now (snd s) raw v6 in
      match r, StripIPHeader raw v6 with
      | Some out, Ok packet => (Answered now (be_val (slice 4 8 packet)) (be_val (slice 4 8 out)) :: fst s, t')
      | _, _ => (fst s, t')
      end
  end.

Definition run (t0 : EchoTracker) (es : list event) : list outcome * EchoTracker :=
  fold_left run_event es ([], t0).

(** The latest outcome about a token. *)
Definition last_for (token : Z) (os : list outcome) : option outcome :=
  list_find (fun o => token_of o = token) os ≫= fun p => Some p.2.

(** Every answer carries the identifier of the request sent last under its
    token, less than a minute before, and no answer was given for it yet. *)
Fixpoint matched (os : list outcome) : Prop :=
  match os with
  | [] => True
  | Sent _ _ _ :: os' => matched os'
  | Answered now token orig :: os' =>
      (exists c, last_for token os' = Some (Sent c token orig) /\ now - c < Minute) /\ matched os'
  end.

Definition tracker_inv (os : list outcome) (t : EchoTracker) : Prop :=
  Z.of_nat (size (pending t)) <= maxPending /\
  (forall token p, pending t !! token = Some p ->
     is_u32 (original p) /\ last_for token os = Some (Sent (created p) token (original p))).

#[local] Arguments last_for : simpl never.

Lemma last_for_cons token o os :
  last_for token (o :: os) = if decide (token_of o = token) then Some o else last_for token os.
Proof.
  unfold last_for. cbn. case_decide; [done|].
  destruct (list_find _ os) as [[i x]|]; done.
Qed.

Lemma size_purge now m : (size (purge now m) <= size m)%nat.
Proof. apply map_subseteq_size, map_filter_subseteq. Qed.

Lemma slice_u32 b : 8 <= len b -> is_u32 (be_val (slice 4 8 b)).
Proof. intros. apply be_val_u32. rewrite length_slice; lia. Qed.

Lemma Validate_length b v6 : ValidateEchoRequest b v6 = None -> 8 <= len b.
Proof. unfold ValidateEchoRequest. case_match; [done|]. bool_to_prop. lia. Qed.

Lemma Strip_length b v6 p : StripIPHeader b v6 = Ok p -> len p <= len b.
Proof.
  unfold StripIPHeader, zdrop. intros H. inv_fun H; rewrite ?length_drop; lia.
Qed.

(** The table a request is stored in. *)
Definition room (now : Z) (m : gmap Z pendingEcho) : gmap Z pendingEcho :=
  if maxPending <=? Z.of_nat (size m) then purge now m else m.

Lemma room_sub now m k p : room now m !! k = Some p -> m !! k = Some p.
Proof.
  unfold room, purge. case_match; [|done]. intros Hk. by apply map_lookup_filter_Some in Hk as [? _].
Qed.

Lemma run_event_inv os t e :
  tracker_inv os t -> matched os ->
  tracker_inv (run_event (os, t) e).1 (run_event (os, t) e).2 /\ matched (run_event (os, t) e).1.
Proof.
  intros [Hsz Hp] Hm. destruct e as [now packet v6 | now raw v6]; cbn [run_event fst snd].
  - unfold PrepareRequest. destruct (ValidateEchoRequest packet v6) eqn:Ev; [done|].
    apply Validate_length in Ev. fold (room now (pending t)).
    destruct (Z.leb_spec maxPending (Z.of_nat (size (room now (pending t))))) as [Hfull|Hroom]; cbn.
    + split; [|done]. split; cbn.
      * unfold room in *. pose proof (size_purge now (pending t)). case_match; lia.
      * intros k p Hk. apply Hp. by eapply room_sub.
    + set (token := u32 (nextEchoToken t + 1)).
      destruct (rewriteToken_parse packet token v6 Ev (u32_range _)) as (_ & _ & -> & _).
      split; [|done]. split; cbn.
      * rewrite map_size_insert. case_match; cbn; lia.
      * intros k p Hk. rewrite last_for_cons. cbn. apply lookup_insert_Some in Hk as [[<- <-]|[Hne Hk]].
        -- rewrite decide_True by done. split; [by apply slice_u32|done].
        -- rewrite decide_False by done. apply Hp. by eapply room_sub.
  - unfold RestoreReply. destruct (StripIPHeader raw v6) as [packet|] eqn:Es; [|done].
    destruct (Z.ltb_spec (len packet) 8); [done|].
    destruct (_ || _) in |- *; [done|].
    destruct (pending t !! be_val (slice 4 8 packet)) as [p|] eqn:Ep; [|done].
    assert (tracker_inv os (mkTracker (delete (be_val (slice 4 8 packet)) (pending t)) (nextEchoToken t))) as Hd.
    { split; cbn; [rewrite map_size_delete; case_match; cbn; lia|].
      intros k q Hk. apply lookup_delete_Some in Hk as [_ Hk]. by apply Hp. }
    destruct (Hp _ _ Ep) as [Ho Hl].
    destruct (Z.leb_spec Minute (now - created p)); [done|]. cbn.
    destruct (rewriteToken_parse packet (original p) v6 ltac:(lia) Ho) as (_ & _ & -> & _).
    split; [|by eauto]. split; [apply Hd|]. cbn. intros k q Hk. rewrite last_for_cons. cbn.
    apply lookup_delete_Some in Hk as [Hne Hk]. rewrite decide_False by done. by apply Hp.
Qed.

Lemma run_inv t0 es :
  pending t0 = ∅ -> tracker_inv (run t0 es).1 (run t0 es).2 /\ matched (run t0 es).1.
Proof.
  intros H0. induction es as [|e es IH] using rev_ind.
  - cbn. split; [|done]. split; rewrite H0; [done|]. intros k p Hk. by rewrite lookup_empty in Hk.
  - unfold run in *. rewrite fold_left_app. cbn [fold_left].
    destruct (fold_left run_event es ([], t0)) as [os t]. apply run_event_inv; apply IH.
Qed.

Lemma ParseEcho_parts b :
  8 <= len b -> exists m, ParseEcho b = Ok m /\ Type_ m = at_ b 0 /\ Code m = at_ b 1 /\
    ID m * 65536 + Seq m = be_val (slice 4 8 b) /\ Data m = drop 8 b.
Proof.
  intros Hb. unfold ParseEcho. rewrite (proj2 (Z.ltb_ge _ _) Hb). eexists. split; [done|].
  split_and!; try done. cbn. symmetry. by apply slice_token.
Qed.

Lemma buildEcho_shape ty id seq data v6 :
  exists c2 c3, buildEcho ty id seq data v6 = byte_of ty :: byte_of 0 :: c2 :: c3 :: be 2 id ++ be 2 seq ++ data.
Proof.
  unfold buildEcho. destruct v6; [by repeat eexists|]. unfold put. rewrite (be_2 (Checksum _)). by repeat eexists.
Qed.

(** The reply a host sends for a wire request: same identifier, sequence and
    data. *)
Definition echo_reply (wire : list byte) (ipv6 : bool) : list byte :=
  BuildEchoReply (be_val (slice 4 6 wire)) (be_val (slice 6 8 wire)) (drop 8 wire) ipv6.

Lemma echo_reply_parts wire v6 :
  8 <= len wire ->
  let r := echo_reply wire v6 in
  len r = len wire /\ byteZ (at_ r 0) = (if v6 then IPv6EchoReply else IPv4EchoReply) /\
  byteZ (at_ r 1) = 0 /\ slice 4 8 r = slice 4 8 wire /\ drop 8 r = drop 8 wire.
Proof.
  intros Hw. destruct (packet_shape wire Hw) as (b0&b1&b2&b3&b4&b5&b6&b7&d&->).
  change (echo_reply _ v6) with (BuildEchoReply (be_val [b4; b5]) (be_val [b6; b7]) d v6).
  unfold BuildEchoReply. cbv zeta.
  destruct (buildEcho_shape (if v6 then IPv6EchoReply else IPv4EchoReply)
    (be_val [b4; b5]) (be_val [b6; b7]) d v6) as (c2 & c3 & E).
  rewrite E, !(be_be_val 2) by done.
  split_and!; try done. by destruct v6.
Qed.

Lemma Strip_reply r (v6 : bool) :
  8 <= len r -> byteZ (at_ r 0) = (if v6 then IPv6EchoReply else IPv4EchoReply) ->
  StripIPHeader r v6 = Ok r.
Proof.
  intros Hr E. unfold StripIPHeader. rewrite (proj2 (Z.ltb_ge _ _) Hr), E. by destruct v6.
Qed.

(** ** Properties *)

(** rewriting the identifier of an echo message keeps its checksum
    right: the rewritten ICMPv4 packet validates, the ICMPv6 packet keeps its
    word sum modulo 65535 (so the checksum over the pseudo-header stays
    correct), and nothing but checksum and identifier changes. *)
Theorem rewriteToken_checksum b token (v6 : bool) :
  8 <= len b <= maxPacket -> is_u32 token ->
  let r := rewriteToken b token v6 in
  (if v6 then be_val (slice 2 4 b) <> 0 -> wordSum r mod 65535 = wordSum b mod 65535
   else Checksum r = 0) /\
  length r = length b /\ take 2 r = take 2 b /\
  be_val (slice 4 8 r) = token /\ drop 8 r = drop 8 b.
Proof.
  intros Hb Ht. cbv zeta. split.
  { destruct v6; [intros; by apply rewriteToken_v6|by apply rewriteToken_v4]. }
  split; [apply rewriteToken_length; lia|].
  split; [|apply (rewriteToken_parse b token v6); [lia|done]].
  destruct (packet_shape b (proj1 Hb)) as (b0&b1&b2&b3&b4&b5&b6&b7&d&->).
  by destruct (rewriteToken_shape b0 b1 b2 b3 b4 b5 b6 b7 d token v6) as (c2 & c3 & ->).
Qed.

(** a request that [PrepareRequest] lets through comes back whole: the
    echo reply to the packet on the wire, arriving within a minute, is
    restored to a reply with the client's own identifier, sequence and data,
    and an ICMPv4 one carries a valid checksum. *)
Theorem echo_roundtrip now now' t packet v6 wire t' :
  PrepareRequest now t packet v6 = (Ok wire, t') ->
  len packet <= maxPacket -> now' - now < Minute ->
  exists out m m0 t'',
    RestoreReply now' t' (echo_reply wire v6) v6 = (Some out, t'') /\
    ParseEcho packet = Ok m0 /\ ParseEcho out = Ok m /\
    ID m * 65536 + Seq m = ID m0 * 65536 + Seq m0 /\ Data m = Data m0 /\
    byteZ (Type_ m) = (if v6 then IPv6EchoReply else IPv4EchoReply) /\ byteZ (Code m) = 0 /\
    (v6 = false -> Checksum out = 0).
Proof.
  intros E Hl Hn. unfold PrepareRequest in E.
  destruct (ValidateEchoRequest packet v6) eqn:Ev; [done|]. apply Validate_length in Ev.
  fold (room now (pending t)) in E. destruct (_ <=? _) in E; [done|].
  set (token := u32 (nextEchoToken t + 1)) in E. injection E as Ew Et.
  pose proof (rewriteToken_length packet token v6 Ev) as Hlw. rewrite Ew in Hlw.
  destruct (rewriteToken_parse packet token v6 Ev (u32_range _)) as (_ & _ & Etok & Edata).
  rewrite Ew in Etok, Edata.
  destruct (echo_reply_parts wire v6) as (Hrl & Hr0 & Hr1 & Hrt & Hrd); [lia|].
  set (r := echo_reply wire v6) in *.
  destruct (rewriteToken_parse r (be_val (slice 4 8 packet)) v6) as (P0 & P1 & P4 & Pd);
    [lia|by apply slice_u32|].
  set (out := rewriteToken r (be_val (slice 4 8 packet)) v6) in *.
  assert (len out = len packet) as Hlo by (unfold out; rewrite rewriteToken_length; lia).
  destruct (ParseEcho_parts packet Ev) as (m0 & Em0 & _ & _ & Ei0 & Ed0).
  destruct (ParseEcho_parts out) as (m & Em & Et0 & Et1 & Ei & Ed); [lia|].
  exists out, m, m0. eexists. split_and!.
  - unfold RestoreReply. rewrite Strip_reply by (done || lia).
    rewrite (proj2 (Z.ltb_ge _ _)) by lia. rewrite Hr0, Hr1, Z.eqb_refl. cbn [negb orb Z.eqb].
    rewrite Hrt, Etok, <- Et. cbn [pending]. rewrite lookup_insert_eq. cbn [created original].
    rewrite (proj2 (Z.leb_gt _ _)) by lia. done.
  - done.
  - done.
  - rewrite Ei, Ei0. done.
  - rewrite Ed, Ed0, Pd, Hrd. done.
  - rewrite Et0, P0. done.
  - rewrite Et1, P1. done.
  - intros ->. apply rewriteToken_v4. unfold maxPacket in *. lia.
Qed.

(** over any sequence of requests and packets read from the raw socket,
    replies of other associations, duplicates and late replies included, the
    tracker answers only a request it sent under that token less than a minute
    ago and has not answered since, with that request's identifier; and it
    never holds more than 2048 requests. *)
Theorem echo_tracker_safe t0 es :
  pending t0 = ∅ ->
  matched (run t0 es).1 /\ Z.of_nat (size (pending (run t0 es).2)) <= maxPending.
Proof. intros H0. destruct (run_inv t0 es H0) as [[Hs _] Hm]. done. Qed.

(** ** Witnesses *)

Definition ping : list byte := BuildEchoRequest 7 1 (bs "hello") false.

Lemma rewriteToken_checksum_witness :
  Checksum (rewriteToken ping 123456789 false) = 0 /\ drop 8 (rewriteToken ping 123456789 false) = bs "hello".
Proof.
  destruct (rewriteToken_checksum ping 123456789 false) as (H1 & H2 & H3 & H4 & H5).
  - vm_compute. split; discriminate.
  - unfold is_u32. lia.
  - exact (conj H1 H5).
Defined.

Definition tracker0 : EchoTracker := mkTracker ∅ 4294967295.

Lemma echo_roundtrip_witness :
  exists wire t' out t'',
    PrepareRequest 5 tracker0 ping false = (Ok wire, t') /\
    RestoreReply 1000 t' (echo_reply wire false) false = (Some out, t'') /\ Checksum out = 0.
Proof.
  set (p := PrepareRequest 5 tracker0 ping false).
  destruct p as [[wire|e] t'] eqn:E; [|exfalso; vm_compute in E; discriminate E].
  destruct (echo_roundtrip 5 1000 tracker0 ping false wire t') as (out & m & m0 & t'' & H & _ & _ & _ & _ & _ & _ & Hc).
  - exact E.
  - vm_compute. discriminate.
  - vm_compute. reflexivity.
  - exists wire, t', out, t''. split_and!; [done|done|by apply Hc].
Defined.

Lemma echo_tracker_safe_witness :
  let es := [Request 0 ping false; RawReply 9 (BuildEchoReply 0 0 (bs "hello") false) false;
             RawReply 9 (BuildEchoReply 0 0 (bs "hello") false) false;
             RawReply 9 (BuildEchoReply 0 1 [] false) false] in
  (run tracker0 es).1 = [Answered 9 0 458753; Sent 0 0 458753] /\ matched (run tracker0 es).1.
Proof.
  cbv zeta. split; [vm_compute; reflexivity|].
  exact (proj1 (echo_tracker_safe tracker0 _ eq_refl)).
Defined.
