(* ===== verification/Target.v ===== *)
(** * The target policy of [internal/target] (target.go)

    The classification of IP addresses, the special-use networks parsed from
    their CIDR notation, and the three functions that turn a requested target
    into an address to dial.  Name resolution and dialling are the
    environment: functions given to the operations. *)
From S2P Require Import Prelude GoNet.

Open Scope Z_scope.

(** ** [net.IP] and [net.IPNet] *)

Abbreviation IP := (list byte).

Definition zb (l : list Z) : list byte := byte_of <$> l.

Definition IPv4zero : IP := v4prefix ++ zb [0; 0; 0; 0].
Definition IPv4bcast : IP := v4prefix ++ zb [255; 255; 255; 255].
Definition IPv6unspecified : IP := replicate 16 Byte.x00.
Definition IPv6loopback : IP := replicate 15 Byte.x00 ++ [Byte.x01].

(** [ip.Equal(x)]: an IPv4 address and its mapped form are equal. *)
Definition Equal (ip x : IP) : bool :=
  if (length ip =? length x)%nat then bool_decide (ip = x)
  else if (length ip =? 4)%nat && (length x =? 16)%nat then bool_decide (x = v4prefix ++ ip)
  else if (length ip =? 16)%nat && (length x =? 4)%nat then bool_decide (ip = v4prefix ++ x)
  else false.

Definition byteAt (ip : IP) (i : nat) : Z := byteZ (at_ ip i).

Definition IsUnspecified (ip : IP) : bool := Equal ip IPv4zero || Equal ip IPv6unspecified.

Definition IsLoopback (ip : IP) : bool :=
  match To4 ip with
  | Some q => byteAt q 0 =? 127
  | None => Equal ip IPv6loopback
  end.

Definition IsPrivate (ip : IP) : bool :=
  match To4 ip with
  | Some q =>
      (byteAt q 0 =? 10) ||
      ((byteAt q 0 =? 172) && (Z.land (byteAt q 1) 240 =? 16)) ||
      ((byteAt q 0 =? 192) && (byteAt q 1 =? 168))
  | None => (length ip =? 16)%nat && (Z.land (byteAt ip 0) 254 =? 252)
  end.

Definition IsMulticast (ip : IP) : bool :=
  match To4 ip with
  | Some q => Z.land (byteAt q 0) 240 =? 224
  | None => (length ip =? 16)%nat && (byteAt ip 0 =? 255)
  end.

Definition IsLinkLocalMulticast (ip : IP) : bool :=
  match To4 ip with
  | Some q => (byteAt q 0 =? 224) && (byteAt q 1 =? 0) && (byteAt q 2 =? 0)
  | None => (length ip =? 16)%nat && (byteAt ip 0 =? 255) && (Z.land (byteAt ip 1) 15 =? 2)
  end.

Definition IsLinkLocalUnicast (ip : IP) : bool :=
  match To4 ip with
  | Some q => (byteAt q 0 =? 169) && (byteAt q 1 =? 254)
  | None => (length ip =? 16)%nat && (byteAt ip 0 =? 254) && (Z.land (byteAt ip 1) 192 =? 128)
  end.

Definition IsGlobalUnicast (ip : IP) : bool :=
  ((length ip =? 4)%nat || (length ip =? 16)%nat) &&
  negb (Equal ip IPv4bcast) && negb (IsUnspecified ip) && negb (IsLoopback ip) &&
  negb (IsMulticast ip) && negb (IsLinkLocalUnicast ip).

(** [net.IPNet]: number and mask, of the same length. *)
Record IPNet := mkNet { netIP : IP; netMask : list byte }.

(** [net.CIDRMask(ones, 8 * n)] *)
Fixpoint CIDRMask (ones : Z) (n : nat) : list byte :=
  match n with
  | O => []
  | S m => if 8 <=? ones then Byte.xff :: CIDRMask (ones - 8) m
           else byte_of (255 - Z.shiftr 255 ones) :: CIDRMask 0 m
  end.

Definition byte_and (a b : byte) : byte := byte_of (Z.land (byteZ a) (byteZ b)).

Definition mask (ip m : list byte) : list byte := zip_with byte_and ip m.

(** [net.ParseCIDR], the network part. *)
Definition ParseCIDR (s : gostring) : option IPNet :=
  match indexByte (byte_of 47) s with
  | None => None
  | Some i =>
      let addr := take i s in
      let digits := drop (S i) s in
      match ParseIP addr with
      | None => None
      | Some ip16 =>
          let ip := if bool_decide (ip_family addr = Some chDot) then drop 12 ip16 else ip16 in
          let n := dec_value digits in
          if bool_decide (digits = []) || negb (forallb is_digit digits) || (8 * len ip <? n) then None
          else Some (mkNet (mask ip (CIDRMask n (length ip))) (CIDRMask n (length ip)))
      end
  end.

Fixpoint sameMasked (nn ip m : list byte) : bool :=
  match nn, ip, m with
  | a :: nn', b :: ip', k :: m' =>
      (Z.land (byteZ a) (byteZ k) =? Z.land (byteZ b) (byteZ k)) && sameMasked nn' ip' m'
  | _, _, _ => true
  end.

(** [network.Contains(ip)] *)
Definition Contains (n : IPNet) (ip : IP) : bool :=
  let ip := default ip (To4 ip) in
  (length ip =? length (netIP n))%nat && sameMasked (netIP n) ip (netMask n).

(** ** The code *)

Definition ErrForbidden : error := Errorf "target is not a public unicast address".

Definition mustNetworks (values : list gostring) : list IPNet := omap ParseCIDR values.

Definition specialUseNetworks : list IPNet :=
  mustNetworks (bs <$>
    ["0.0.0.0/8"; "100.64.0.0/10"; "192.0.0.0/24"; "192.0.2.0/24"; "192.88.99.0/24";
     "198.18.0.0/15"; "198.51.100.0/24"; "203.0.113.0/24"; "240.0.0.0/4";
     "100::/64"; "2001:2::/48"; "2001:db8::/32"]%string).

(** [ip == nil] is the empty slice. *)
Definition allowed (ip : IP) : bool :=
  if bool_decide (ip = []) || negb (IsGlobalUnicast ip) || IsPrivate ip || IsUnspecified ip ||
     IsLoopback ip || IsLinkLocalUnicast ip || IsLinkLocalMulticast ip || IsMulticast ip
  then false
  else negb (existsb (fun network => Contains network ip) specialUseNetworks).

(** [net.IPAddr] and [net.UDPAddr]. *)
Record IPAddr := mkIPAddr { addrIP : IP; addrZone : gostring }.
Record UDPAddr := mkUDPAddr { udpIP : IP; udpPort : Z; udpZone : gostring }.

Section Environment.
  (** What [net.Resolver.LookupIPAddr] answers, and what dialling an address
      gives. *)
  Context {Conn : Type}.
  Variable LookupIPAddr : gostring -> result (list IPAddr).
  Variable dial : gostring -> result Conn.

Definition resolve (address : gostring) : result (gostring * gostring * list IPAddr) :=
  match SplitHostPort address with
  | None => Fail (Errorf "invalid target")
  | Some (host, portText) =>
      match Atoi portText with
      | None => Fail (Errorf "invalid target port")
      | Some port =>
          if (port <? 1) || (65535 <? port) then Fail (Errorf "invalid target port")
          else
            let? addresses := LookupIPAddr host in
            Ok (host, portText, addresses)
      end
  end.

(** The candidate loop of [DialContext]: the connection or the last error,
    and the addresses dialled. *)
Fixpoint dialLoop (portText : gostring) (addresses : list IPAddr) (err : option error)
  : (Conn + option error) * list gostring :=
  match addresses with
  | [] => (inr err, [])
  | candidate :: rest =>
      if negb (allowed (addrIP candidate)) then dialLoop portText rest err
      else
        let a := JoinHostPort (IPString (addrIP candidate)) portText in
        match dial a with
        | Ok conn => (inl conn, [a])
        | Fail dialErr =>
            let '(r, ds) := dialLoop portText rest (Some dialErr) in (r, a :: ds)
        end
  end.

Definition DialContext (address : gostring) : result Conn * list gostring :=
  match resolve address with
  | Fail err => (Fail err, [])
  | Ok (_, portText, addresses) =>
      match dialLoop portText addresses None with
      | (inl conn, ds) => (Ok conn, ds)
      | (inr (Some err), ds) => (Fail err, ds)
      | (inr None, ds) => (Fail ErrForbidden, ds)
      end
  end.

Definition firstCandidate (ok : IPAddr -> bool) (addresses : list IPAddr) : option IPAddr :=
  snd <$> list_find (fun c => ok c = true) addresses.

Definition ResolveUDPAddr (address : gostring) : result UDPAddr :=
  let? (_, portText, addresses) := resolve address in
  let port := default 0 (Atoi portText) in
  match firstCandidate (fun c => allowed (addrIP c)) addresses with
  | Some candidate => Ok (mkUDPAddr (addrIP candidate) port (addrZone candidate))
  | None => Fail ErrForbidden
  end.

Definition ResolveICMPIP (host : gostring) (allowPrivate : bool) : result IP :=
  match ParseIP host with
  | Some ip =>
      if negb allowPrivate && negb (allowed ip) then Fail ErrForbidden
      else if negb (IsGlobalUnicast ip) && negb (IsLoopback ip) then Fail ErrForbidden
      else Ok ip
  | None =>
      let? addresses := LookupIPAddr host in
      match firstCandidate (fun c => (allowPrivate || allowed (addrIP c)) &&
                                     (IsGlobalUnicast (addrIP c) || IsLoopback (addrIP c))) addresses with
      | Some candidate => Ok (addrIP candidate)
      | None => Fail ErrForbidden
      end
  end.

End Environment.

(** ** The specification: address ranges *)

(** [ip] lies in the range [base/p]: same length, same leading [p] bits. *)
Definition in_cidr (ip : IP) (net : list Z * Z) : bool :=
  let '(base, p) := net in
  let host := 2 ^ (8 * len ip - p) in
  (length ip =? length base)%nat && (be_val ip / host =? be_val (zb base) / host).

#[local] Arguments in_cidr : simpl never.

(** The ranges of the special-use list of the source. *)
Definition specialRanges : list (list Z * Z) :=
  [([0; 0; 0; 0], 8); ([100; 64; 0; 0], 10); ([192; 0; 0; 0], 24); ([192; 0; 2; 0], 24);
   ([192; 88; 99; 0], 24); ([198; 18; 0; 0], 15); ([198; 51; 100; 0], 24);
   ([203; 0; 113; 0], 24); ([240; 0; 0; 0], 4);
   ([1; 0; 0; 0; 0; 0; 0; 0; 0; 0; 0; 0; 0; 0; 0; 0], 64);
   ([32; 1; 0; 2; 0; 0; 0; 0; 0; 0; 0; 0; 0; 0; 0; 0], 48);
   ([32; 1; 13; 184; 0; 0; 0; 0; 0; 0; 0; 0; 0; 0; 0; 0], 32)].

(** The ranges of the [net.IP] classes the policy excludes: private,
    loopback, link-local and multicast IPv4. *)
Definition classRanges4 : list (list Z * Z) :=
  [([10; 0; 0; 0], 8); ([172; 16; 0; 0], 12); ([192; 168; 0; 0], 16);
   ([127; 0; 0; 0], 8); ([169; 254; 0; 0], 16); ([224; 0; 0; 0], 4)].

(** The same for IPv6: unspecified, loopback, unique-local, link-local,
    multicast. *)
Definition classRanges6 : list (list Z * Z) :=
  [([0; 0; 0; 0; 0; 0; 0; 0; 0; 0; 0; 0; 0; 0; 0; 0], 128);
   ([0; 0; 0; 0; 0; 0; 0; 0; 0; 0; 0; 0; 0; 0; 0; 1], 128);
   ([252; 0; 0; 0; 0; 0; 0; 0; 0; 0; 0; 0; 0; 0; 0; 0], 7);
   ([254; 128; 0; 0; 0; 0; 0; 0; 0; 0; 0; 0; 0; 0; 0; 0], 10);
   ([255; 0; 0; 0; 0; 0; 0; 0; 0; 0; 0; 0; 0; 0; 0; 0], 8)].

Definition forbiddenRanges : list (list Z * Z) := classRanges4 ++ classRanges6 ++ specialRanges.

(** An IPv4-mapped address counts as the IPv4 address. *)
Definition canonical (ip : IP) : IP := default ip (To4 ip).

(** ** Masks and prefixes *)

Lemma land_255 b : Z.land (byteZ b) 255 = byteZ b.
Proof. rewrite (Z.land_ones _ 8) by lia. apply Z.mod_small, byteZ_range. Qed.

Lemma sameMasked_zero nn ip n : sameMasked nn ip (CIDRMask 0 n) = true.
Proof.
  revert nn ip. induction n as [|n IH]; intros [|a nn] [|b ip]; try done.
  cbn. change (byteZ (byte_of 0)) with 0. rewrite !Z.land_0_r. cbn. apply IH.
Qed.

(** The partial byte of a mask keeps the high bits. *)
Lemma partial_mask p x :
  0 <= p < 8 -> 0 <= x < 256 ->
  Z.land x (byteZ (byte_of (255 - Z.shiftr 255 p))) = x / 2 ^ (8 - p) * 2 ^ (8 - p).
Proof.
  intros Hp Hx.
  assert (forallb (fun p => forallb (fun x =>
    Z.land x (byteZ (byte_of (255 - Z.shiftr 255 p))) =? x / 2 ^ (8 - p) * 2 ^ (8 - p))
    (seqZ 0 256)) (seqZ 0 8) = true) as H by (vm_compute; reflexivity).
  assert (forall i n, 0 <= i < n -> In i (seqZ 0 n)) as Hin
    by (intros; apply list_elem_of_In, elem_of_seqZ; lia).
  apply Z.eqb_eq. pose proof (proj1 (forallb_forall _ _) H p (Hin p 8 Hp)) as H'.
  exact (proj1 (forallb_forall _ _) H' x (Hin x 256 Hx)).
Qed.

Lemma div_prefix x v n k :
  0 <= k <= n -> 0 <= v < 2 ^ n -> (x * 2 ^ n + v) / 2 ^ k = x * 2 ^ (n - k) + v / 2 ^ k.
Proof.
  intros Hk Hv. replace (2 ^ n) with (2 ^ (n - k) * 2 ^ k) by (rewrite <- Z.pow_add_r by lia; f_equal; lia).
  rewrite Z.mul_assoc, Z.div_add_l; [done|]. apply Z.pow_nonzero; lia.
Qed.

Lemma be_val_range2 l : 0 <= be_val l < 2 ^ (8 * len l).
Proof. rewrite Z.pow_mul_r by lia. apply be_val_range. Qed.

Lemma be_val_cons2 b l : be_val (b :: l) = byteZ b * 2 ^ (8 * len l) + be_val l.
Proof. rewrite Z.pow_mul_r by lia. apply be_val_cons. Qed.

Lemma digit_unique a b P u v :
  b * P + u = a * P + v -> 0 <= u < P -> 0 <= v < P -> b = a /\ u = v.
Proof. intros. assert (b = a) as -> by nia. lia. Qed.

(** Agreement under a mask is agreement of the leading bits. *)
Lemma sameMasked_prefix nn ip p :
  length nn = length ip -> 0 <= p <= 8 * len ip ->
  sameMasked nn ip (CIDRMask p (length ip)) =
  (be_val ip / 2 ^ (8 * len ip - p) =? be_val nn / 2 ^ (8 * len ip - p)).
Proof.
  revert nn p. induction ip as [|b ip IH]; intros [|a nn] p Hl Hp; try done.
  injection Hl as Hl. cbn [length CIDRMask]. rewrite len_cons in Hp.
  replace (8 * Z.of_nat (S (length ip)) - p) with (8 * len ip + (8 - p)) by lia.
  pose proof (be_val_range2 ip) as Ri. pose proof (be_val_range2 nn) as Rn. rewrite Hl in Rn.
  rewrite !be_val_cons2, Hl.
  destruct (Z.leb_spec 8 p) as [H8|H8].
  - cbn [sameMasked]. change (byteZ Byte.xff) with 255. rewrite !land_255, (IH nn (p - 8)) by lia.
    replace (8 * len ip - (p - 8)) with (8 * len ip + (8 - p)) by lia.
    rewrite !div_prefix by lia. set (k := 8 * len ip + (8 - p)) in *.
    replace (8 * len ip - k) with (p - 8) by lia.
    assert (forall v, 0 <= v < 2 ^ (8 * len ip) -> 0 <= v / 2 ^ k < 2 ^ (p - 8)) as Hdiv.
    { intros v Hv. split; [apply Z.div_pos; lia|]. apply Z.div_lt_upper_bound; [lia|].
      rewrite <- Z.pow_add_r by lia. replace (k + (p - 8)) with (8 * len ip) by lia. lia. }
    apply eq_true_iff_eq. rewrite andb_true_iff, !Z.eqb_eq. split; [intros [-> ->]; done|].
    intros E. apply (digit_unique _ _ (2 ^ (p - 8))) in E as [-> ->]; auto.
  - cbn [sameMasked]. rewrite sameMasked_zero, andb_true_r.
    rewrite !partial_mask by (try lia; apply byteZ_range).
    rewrite Z.pow_add_r, <- !Z.div_div, !Z.div_add_l, !(Z.div_small (be_val _)) by lia.
    rewrite !Z.add_0_r. pose proof (Z.pow_pos_nonneg 2 (8 - p) eq_refl ltac:(lia)).
    generalize dependent (2 ^ (8 - p)). intros P HP.
    apply eq_true_iff_eq. rewrite !Z.eqb_eq. nia.
Qed.

Lemma in_cidr_masked ip base p :
  0 <= p <= 8 * len base ->
  in_cidr ip (base, p) =
  (length ip =? length base)%nat && sameMasked (zb base) ip (CIDRMask p (length base)).
Proof.
  intros Hp. unfold in_cidr. destruct (Nat.eqb_spec (length ip) (length base)) as [E|]; [|done].
  cbn. rewrite <- E, sameMasked_prefix; [done|unfold zb; rewrite length_fmap; done|lia].
Qed.

(** The source's networks are the special ranges. *)
Lemma specialUseNetworks_ranges ip :
  existsb (fun network => Contains network ip) specialUseNetworks =
  existsb (in_cidr (canonical ip)) specialRanges.
Proof.
  assert (specialUseNetworks =
    (fun '(base, p) => mkNet (zb base) (CIDRMask p (length base))) <$> specialRanges) as ->
    by (vm_compute; reflexivity).
  assert (forall r, r ∈ specialRanges -> 0 <= r.2 <= 8 * len r.1) as Hr.
  { intros r Hr. unfold specialRanges in Hr. rewrite !elem_of_cons, elem_of_nil in Hr.
    repeat destruct Hr as [->|Hr]; cbn; try done; lia. }
  revert Hr. generalize specialRanges. intros l Hr. induction l as [|[base p] l IH]; [done|].
  cbn. rewrite IH by (intros; apply Hr; set_solver). f_equal.
  rewrite in_cidr_masked by (apply (Hr (base, p)); set_solver). unfold Contains. cbn.
  unfold zb. rewrite length_fmap. done.
Qed.

(** ** The classes as ranges *)

(** Evaluate one agreement under a literal mask. *)
Ltac mask_eval :=
  lazymatch goal with |- context [sameMasked ?nn ?ip ?m] =>
    let nn' := eval vm_compute in nn in change nn with nn';
    let m' := eval vm_compute in m in change m with m'
  end;
  cbn [length Nat.eqb sameMasked andb];
  repeat match goal with |- context [byteZ ?b] =>
    let z := eval vm_compute in (byteZ b) in
    lazymatch isZcst z with true => change (byteZ b) with z end
  end;
  repeat match goal with |- context [Z.land ?x ?y] =>
    let z := eval vm_compute in (Z.land x y) in
    lazymatch isZcst z with true => change (Z.land x y) with z end
  end;
  rewrite ?land_255, ?Z.land_0_r, ?andb_true_r.

(** Evaluate membership of an address in a literal range. *)
Ltac cidr_eval := rewrite in_cidr_masked by (cbn; lia); mask_eval.

(** Boolean equality of tests on bytes. *)
Ltac bool_eq :=
  apply eq_true_iff_eq; rewrite ?orb_true_iff, ?andb_true_iff, ?Z.eqb_eq; lia.

Lemma shape4 (q : IP) : length q = 4%nat -> exists a b c d, q = [a; b; c; d].
Proof. intros H. do 4 (destruct q as [|? q]; [done|]). destruct q; [|done]. by repeat eexists. Qed.

(** The IPv4 classes; [To4] of a four-byte address is itself. *)
Lemma class_ranges4 q :
  length q = 4%nat ->
  IsPrivate q || IsLoopback q || IsLinkLocalUnicast q || IsMulticast q =
  existsb (in_cidr q) classRanges4.
Proof.
  intros (a & b & c & d & ->)%shape4. unfold classRanges4. cbn [existsb].
  unfold IsPrivate, IsLoopback, IsLinkLocalUnicast, IsMulticast. do 6 cidr_eval.
  cbn [To4 length bool_decide]. change (To4 [a; b; c; d]) with (Some [a; b; c; d]).
  cbv iota. unfold byteAt, at_. cbn [lookup list_lookup default id]. rewrite orb_false_r. bool_eq.
Qed.

Lemma Equal_mapped q x :
  length q = 4%nat -> length x = 4%nat -> Equal q (v4prefix ++ x) = true -> q = x.
Proof.
  intros Hq Hx. unfold Equal. rewrite length_app, Hx, Hq. cbn. intros H%bool_decide_eq_true.
  symmetry. exact (app_inv_head v4prefix x q H).
Qed.

Lemma Equal_other q x : length q = 4%nat -> length x = 16%nat -> take 12 x <> v4prefix -> Equal q x = false.
Proof.
  intros Hq Hx Hp. unfold Equal. rewrite Hx, Hq. cbn. apply bool_decide_eq_false. intros ->.
  by apply Hp.
Qed.

(** The broadcast, unspecified and link-local multicast addresses are inside
    ranges that are excluded anyway. *)
Lemma class_inside4 q :
  length q = 4%nat ->
  (Equal q IPv4bcast || IsUnspecified q || IsLinkLocalMulticast q) = true ->
  existsb (in_cidr q) (classRanges4 ++ specialRanges) = true.
Proof.
  intros Hq H. apply existsb_exists.
  rewrite !orb_true_iff in H. destruct H as [[H|H]|H].
  - exists ([240; 0; 0; 0], 4). split; [cbn; tauto|].
    apply Equal_mapped in H as ->; [|done..]. vm_compute. done.
  - exists ([0; 0; 0; 0], 8). split; [cbn; tauto|].
    unfold IsUnspecified in H. rewrite (Equal_other q IPv6unspecified), orb_false_r in H by done.
    apply Equal_mapped in H as ->; [|done..]. vm_compute. done.
  - apply shape4 in Hq as (a & b & c & d & ->).
    exists ([224; 0; 0; 0], 4). split; [cbn; tauto|].
    unfold IsLinkLocalMulticast, byteAt in H. change (To4 [a; b; c; d]) with (Some [a; b; c; d]) in H.
    cbn in H. bool_to_prop. cidr_eval. rewrite H. done.
Qed.

Lemma shape16 (ip : IP) : length ip = 16%nat -> exists a b l, ip = a :: b :: l /\ length l = 14%nat.
Proof. intros H. destruct ip as [|a [|b l]]; [done|done|]. exists a, b, l. split; [done|]. cbn in H. lia. Qed.

Lemma in_cidr_full ip base :
  length ip = length base -> in_cidr ip (base, 8 * len ip) = bool_decide (ip = zb base).
Proof.
  intros Hl. unfold in_cidr. rewrite Hl, Nat.eqb_refl, Z.sub_diag, Z.pow_0_r, !Z.div_1_r. cbn.
  apply eq_true_iff_eq. rewrite Z.eqb_eq, bool_decide_eq_true. split; [|by intros ->].
  apply be_val_inj. unfold zb. by rewrite length_fmap.
Qed.

Lemma sameMasked_first x y a b nn l m p :
  0 <= p <= 16 ->
  sameMasked (x :: y :: nn) (a :: b :: l) (CIDRMask p (S (S m))) = sameMasked [x; y] [a; b] (CIDRMask p 2).
Proof.
  intros Hp. cbn [CIDRMask sameMasked].
  destruct (Z.leb_spec 8 p); [destruct (Z.leb_spec 8 (p - 8))|]; cbn [sameMasked].
  - replace (p - 8 - 8) with 0 by lia. by rewrite sameMasked_zero.
  - by rewrite sameMasked_zero.
  - change (8 <=? 0) with false. cbn [sameMasked]. by rewrite sameMasked_zero.
Qed.

(** A range that fixes only the first byte or two. *)
Lemma in_cidr_first a b l x y p :
  length l = 14%nat -> 0 <= p <= 16 ->
  in_cidr (a :: b :: l) (x :: y :: replicate 14 0, p) =
  sameMasked (zb [x; y]) [a; b] (CIDRMask p 2).
Proof.
  intros Hl Hp. rewrite in_cidr_masked by (cbn; lia). cbn [length]. rewrite Hl. cbn [length Nat.eqb andb replicate].
  unfold zb. rewrite !fmap_cons. by apply sameMasked_first.
Qed.

Lemma length_16_4 (ip : IP) q : length ip = 16%nat -> To4 ip = Some q -> ip = v4prefix ++ q.
Proof.
  unfold To4. intros Hl H. rewrite Hl in H. inv_fun H.
  change (ip = v4prefix ++ drop 12 ip).
  match goal with E : take 12 ip = _ |- _ => rewrite <- E end. by rewrite take_drop.
Qed.

Lemma To4_mapped q : length q = 4%nat -> To4 (v4prefix ++ q) = Some q.
Proof. intros (a & b & c & d & ->)%shape4. reflexivity. Qed.

Lemma Equal_v4 (ip x : IP) :
  length ip = 16%nat -> To4 ip = None -> length x = 4%nat -> Equal ip (v4prefix ++ x) = false.
Proof.
  intros Hl H4 Hx. unfold Equal. rewrite length_app, Hl, Hx. cbn [Nat.eqb length v4prefix].
  apply bool_decide_eq_false. intros ->. by rewrite To4_mapped in H4.
Qed.

Lemma class_ranges6 ip :
  length ip = 16%nat -> To4 ip = None ->
  (IsUnspecified ip || (IsLoopback ip || (IsPrivate ip || (IsLinkLocalUnicast ip || (IsMulticast ip || false)))) =
   existsb (in_cidr ip) classRanges6) /\
  (IsLinkLocalMulticast ip = true -> IsMulticast ip = true) /\
  Equal ip IPv4bcast = false.
Proof.
  intros Hl H4. pose proof (in_cidr_full ip) as Hfull. rewrite Hl in Hfull.
  change (8 * Z.of_nat 16) with 128 in Hfull. split_and!.
  - unfold classRanges6. cbn [existsb].
    rewrite !Hfull by done.
    unfold IsUnspecified, IsLoopback, IsPrivate, IsLinkLocalUnicast, IsMulticast. rewrite H4.
    unfold IPv4zero. rewrite Equal_v4 by done. unfold Equal. rewrite Hl. cbn [orb Nat.eqb length].
    f_equal. f_equal. destruct (shape16 ip Hl) as (a & b & l & -> & Hl').
    change [252; 0; 0; 0; 0; 0; 0; 0; 0; 0; 0; 0; 0; 0; 0; 0] with (252 :: 0 :: replicate 14 0).
    change [254; 128; 0; 0; 0; 0; 0; 0; 0; 0; 0; 0; 0; 0; 0; 0] with (254 :: 128 :: replicate 14 0).
    change [255; 0; 0; 0; 0; 0; 0; 0; 0; 0; 0; 0; 0; 0; 0; 0] with (255 :: 0 :: replicate 14 0).
    rewrite !in_cidr_first by (done || lia).
    do 3 mask_eval. change (byteAt (a :: b :: l) 0) with (byteZ a).
    change (byteAt (a :: b :: l) 1) with (byteZ b). rewrite !orb_false_r. bool_eq.
  - unfold IsLinkLocalMulticast, IsMulticast. rewrite H4, Hl. cbn. intros H. bool_to_prop. by rewrite H.
  - apply Equal_v4; done.
Qed.

Lemma existsb_len (ip : IP) (rs : list (list Z * Z)) :
  (forall r, r ∈ rs -> length r.1 <> length ip) -> existsb (in_cidr ip) rs = false.
Proof.
  induction rs as [|[base p] rs IH]; intros H; [done|]. cbn. rewrite IH by set_solver.
  unfold in_cidr. destruct (Nat.eqb_spec (length ip) (length base)) as [E|]; [|done].
  destruct (H (base, p)); [set_solver|done].
Qed.

(** The whole policy on a four-byte address and on a sixteen-byte address
    that is not IPv4-mapped. *)
Lemma allowed_v4 q : length q = 4%nat -> allowed q = negb (existsb (in_cidr q) forbiddenRanges).
Proof.
  intros Hq. unfold allowed, forbiddenRanges. rewrite specialUseNetworks_ranges, !existsb_app.
  rewrite (existsb_len q classRanges6).
  2:{ rewrite Hq. unfold classRanges6. intros r. rewrite !elem_of_cons, elem_of_nil.
      intros Hr. repeat destruct Hr as [->|Hr]; done. }
  assert (To4 q = Some q) as E4. { apply shape4 in Hq as (a & b & c & d & ->). done. }
  assert (canonical q = q) as -> by (unfold canonical; by rewrite E4).
  pose proof (class_ranges4 q Hq) as Hc. pose proof (class_inside4 q Hq) as Hi.
  rewrite existsb_app in Hi. rewrite <- Hc in *. unfold IsGlobalUnicast. rewrite Hq.
  rewrite bool_decide_false by (by intros ->). cbn [orb andb Nat.eqb].
  destruct (Equal q IPv4bcast), (IsUnspecified q), (IsLinkLocalMulticast q), (IsPrivate q), (IsLoopback q),
    (IsLinkLocalUnicast q), (IsMulticast q), (existsb (in_cidr q) specialRanges);
    cbn in *; try done; specialize (Hi eq_refl); done.
Qed.

Lemma allowed_v6 ip :
  length ip = 16%nat -> To4 ip = None -> allowed ip = negb (existsb (in_cidr ip) forbiddenRanges).
Proof.
  intros Hl H4. unfold allowed, forbiddenRanges. rewrite specialUseNetworks_ranges, !existsb_app.
  rewrite (existsb_len ip classRanges4).
  2:{ rewrite Hl. unfold classRanges4. intros r. rewrite !elem_of_cons, elem_of_nil.
      intros Hr. repeat destruct Hr as [->|Hr]; done. }
  assert (canonical ip = ip) as -> by (unfold canonical; by rewrite H4).
  destruct (class_ranges6 ip Hl H4) as (<- & Hm & Hb). unfold IsGlobalUnicast. rewrite Hl, Hb.
  rewrite bool_decide_false by (by intros ->). cbn [orb andb Nat.eqb].
  destruct (IsUnspecified ip), (IsPrivate ip), (IsLoopback ip), (IsLinkLocalUnicast ip), (IsMulticast ip),
    (IsLinkLocalMulticast ip), (existsb (in_cidr ip) specialRanges);
    cbn in *; try done; specialize (Hm eq_refl); done.
Qed.

(** The policy does not depend on the representation of an IPv4 address. *)
Lemma Equal_canonical q x :
  length q = 4%nat -> length x = 16%nat -> Equal (v4prefix ++ q) x = Equal q x.
Proof.
  intros Hq Hx. unfold Equal. rewrite length_app, Hq, Hx. cbn [Nat.eqb length v4prefix andb].
  apply bool_decide_ext. split; intros; by symmetry.
Qed.

Lemma allowed_mapped q : length q = 4%nat -> allowed (v4prefix ++ q) = allowed q.
Proof.
  intros Hq. unfold allowed. rewrite !specialUseNetworks_ranges.
  unfold canonical, IsGlobalUnicast, IsPrivate, IsUnspecified, IsLoopback, IsLinkLocalUnicast,
    IsLinkLocalMulticast, IsMulticast.
  rewrite !Equal_canonical by done. rewrite To4_mapped by done.
  assert (To4 q = Some q) as -> by (apply shape4 in Hq as (a & b & c & d & ->); done).
  rewrite length_app, Hq. rewrite (bool_decide_false (v4prefix ++ q = [])) by done.
  rewrite bool_decide_false by (by intros ->). done.
Qed.

(** ** Dialling *)

Lemma resolve_port (LookupIPAddr : gostring -> result (list IPAddr)) address host port cs :
  resolve LookupIPAddr address = Ok (host, port, cs) ->
  exists n, Atoi port = Some n /\ 1 <= n <= 65535 /\ LookupIPAddr host = Ok cs.
Proof.
  unfold resolve. intros H. inv_fun H. eexists. split_and!; [done|lia..|done].
Qed.

Section DialLemmas.
  Context {Conn : Type}.
  Variable LookupIPAddr : gostring -> result (list IPAddr).
  Variable dial : gostring -> result Conn.

(** The address dialled for a candidate. *)
Definition dialAddress (port : gostring) (c : IPAddr) : gostring :=
  JoinHostPort (IPString (addrIP c)) port.

Lemma dialLoop_spec port cs err :
  let '(r, ds) := dialLoop dial port cs err in
  Forall (fun a => exists c, c ∈ cs /\ allowed (addrIP c) = true /\ a = dialAddress port c) ds /\
  (forall conn, r = inl conn -> exists a, last ds = Some a /\ dial a = Ok conn) /\
  (forall c conn, c ∈ cs -> allowed (addrIP c) = true -> dial (dialAddress port c) = Ok conn ->
     exists conn', r = inl conn') /\
  (ds = [] -> r = inr err).
Proof.
  revert err. induction cs as [|c cs IH]; intros err; cbn [dialLoop].
  { split_and!; [constructor|done|set_solver|done]. }
  destruct (allowed (addrIP c)) eqn:Ea; cbn [negb].
  - fold (dialAddress port c). destruct (dial (dialAddress port c)) as [conn|e] eqn:Ed.
    + split_and!; [|intros ? [= <-]; by exists (dialAddress port c)|by eauto|done].
      apply Forall_singleton. exists c. set_solver.
    + specialize (IH (Some e)). destruct (dialLoop dial port cs (Some e)) as [r ds].
      destruct IH as (Hf & Hc & Hcompl & He). split_and!; [| | |done].
      * constructor; [exists c; set_solver|]. eapply Forall_impl; [exact Hf|].
        intros a (c' & ? & ?). exists c'. set_solver.
      * intros conn Hr. destruct (Hc conn Hr) as (a & Hl & Hd). exists a. split; [|done].
        destruct ds; [done|exact Hl].
      * intros c' conn [->|Hin]%elem_of_cons Hal Hd; [congruence|by eauto].
  - specialize (IH err). destruct (dialLoop dial port cs err) as [r ds].
    destruct IH as (Hf & Hc & Hcompl & He). split_and!; [|done| |done].
    + eapply Forall_impl; [exact Hf|]. intros a (c' & ? & ?). exists c'. set_solver.
    + intros c' conn [->|Hin]%elem_of_cons Hal Hd; [congruence|by eauto].
Qed.

Lemma firstCandidate_some ok cs c : firstCandidate ok cs = Some c -> c ∈ cs /\ ok c = true.
Proof.
  unfold firstCandidate. intros H. apply fmap_Some in H as ([i x] & Hf & ->).
  apply list_find_Some in Hf as (Hl & Hok & _). split; [|done]. by eapply list_elem_of_lookup_2.
Qed.

(** ** Properties *)

(** [DialContext] only ever connects to public addresses: each address it
    dials is one of the resolved candidates and passed the policy, the
    connection it returns is the one of the last address dialled, and it
    returns one whenever some permitted candidate can be dialled. *)
Theorem dial_only_public address :
  let '(r, ds) := DialContext LookupIPAddr dial address in
  match resolve LookupIPAddr address with
  | Fail err => r = Fail err /\ ds = []
  | Ok (_, port, cs) =>
      Forall (fun a => exists c, c ∈ cs /\ allowed (addrIP c) = true /\ a = dialAddress port c) ds /\
      (forall conn, r = Ok conn -> exists a, last ds = Some a /\ dial a = Ok conn) /\
      (forall c conn, c ∈ cs -> allowed (addrIP c) = true -> dial (dialAddress port c) = Ok conn ->
         exists conn', r = Ok conn') /\
      (ds = [] -> r = Fail ErrForbidden)
  end.
Proof.
  unfold DialContext. destruct (resolve LookupIPAddr address) as [[[h port] cs]|err]; [|done].
  pose proof (dialLoop_spec port cs None) as H.
  destruct (dialLoop dial port cs None) as [[conn|[e|]] ds]; destruct H as (Hf & Hc & Hcompl & He);
    split_and!; try done.
  - intros ? [= <-]. by apply Hc.
  - eauto.
  - intros Hd. specialize (He Hd). done.
  - intros c conn Hin Hal Hd. by destruct (Hcompl c conn Hin Hal Hd).
  - intros Hd. specialize (He Hd). done.
  - intros c conn Hin Hal Hd. by destruct (Hcompl c conn Hin Hal Hd).
Qed.

End DialLemmas.

(** A UDP relay address and an ICMP destination pass the same policy as a
    dialled one, unless private targets were allowed for ICMP; the UDP port is
    a valid one. *)
Lemma ResolveUDPAddr_public (LookupIPAddr : gostring -> result (list IPAddr)) address u :
  ResolveUDPAddr LookupIPAddr address = Ok u -> allowed (udpIP u) = true /\ 1 <= udpPort u <= 65535.
Proof.
  unfold ResolveUDPAddr. intros Hu.
  destruct (resolve LookupIPAddr address) as [[[h port] cs]|] eqn:Er; [|done].
  apply resolve_port in Er as (n & Hn & Hr & _). rewrite Hn in Hu. cbn in Hu.
  destruct (firstCandidate _ cs) as [c|] eqn:Ec; [|done]. injection Hu as <-.
  apply firstCandidate_some in Ec as [_ Ha]. cbn. split_and!; [done|lia..].
Qed.

Lemma ResolveICMPIP_public (LookupIPAddr : gostring -> result (list IPAddr)) host ip :
  ResolveICMPIP LookupIPAddr host false = Ok ip -> allowed ip = true.
Proof.
  unfold ResolveICMPIP. intros Hi. destruct (ParseIP host) as [x|].
  - cbn [negb andb] in Hi. destruct (allowed x) eqn:Ex; [|done]. inv_fun Hi; done.
  - destruct (LookupIPAddr host) as [cs'|]; [|done].
    destruct (firstCandidate _ cs') as [c'|] eqn:Ec'; [|done]. injection Hi as <-.
    apply firstCandidate_some in Ec' as [_ Ha']. cbn in Ha'. bool_to_prop. done.
Qed.

(** C6: the SSRF policy is exactly a list of address ranges: an address is
    allowed when it is an IPv4 or IPv6 address outside every private,
    loopback, link-local, multicast, unspecified and special-use range, where
    an IPv4-mapped IPv6 address counts as the IPv4 address. *)
Theorem target_policy ip :
  allowed ip = true <->
  (length ip = 4%nat \/ length ip = 16%nat) /\
  forall r, r ∈ forbiddenRanges -> in_cidr (canonical ip) r = false.
Proof.
  assert (forall x, allowed x = negb (existsb (in_cidr x) forbiddenRanges) ->
    (allowed x = true <-> forall r, r ∈ forbiddenRanges -> in_cidr x r = false)) as Hspec.
  { intros x ->. rewrite negb_true_iff, <- not_true_iff_false, existsb_exists. split.
    - intros H r Hr. apply not_true_iff_false. intros E. apply H. exists r.
      by rewrite <- list_elem_of_In.
    - intros H (r & Hr%list_elem_of_In & E). rewrite H in E; done. }
  destruct (decide (length ip = 4%nat)) as [E4|N4].
  { assert (canonical ip = ip) as ->. { apply shape4 in E4 as (a & b & c & d & ->). done. }
    rewrite Hspec by (by apply allowed_v4). tauto. }
  destruct (decide (length ip = 16%nat)) as [E16|N16].
  { destruct (To4 ip) as [q|] eqn:Eq.
    - unfold canonical. rewrite Eq. pose proof (To4_length _ _ Eq) as Hq.
      rewrite (length_16_4 ip q E16 Eq), allowed_mapped by done.
      rewrite Hspec by (by apply allowed_v4). rewrite length_app, Hq. cbn. tauto.
    - unfold canonical. rewrite Eq. rewrite Hspec by (by apply allowed_v6). tauto. }
  split; [|tauto]. unfold allowed, IsGlobalUnicast.
  rewrite (proj2 (Nat.eqb_neq _ _) N4), (proj2 (Nat.eqb_neq _ _) N16). cbn.
  by rewrite orb_true_r.
Qed.

(** ** Witnesses *)

Definition sampleDNS (host : gostring) : result (list IPAddr) :=
  if bool_decide (host = bs "example.test")
  then Ok [mkIPAddr (zb [10; 0; 0; 1]) []; mkIPAddr (zb [8; 8; 8; 8]) []]
  else Fail (Errorf "no such host").

Example dial_skips_private :
  DialContext sampleDNS (fun a => Ok a) (bs "example.test:443") = (Ok (bs "8.8.8.8:443"), [bs "8.8.8.8:443"]).
Proof. vm_compute. reflexivity. Qed.
