(* ===== verification/Crypto.v ===== *)
(** * The cryptographic primitives the sources call

    HMAC-SHA-256 ([crypto/hmac], [crypto/sha256]) and the two AEAD ciphers
    ([crypto/cipher]'s AES-GCM and [x/crypto/chacha20poly1305]) are not part of
    the repository.  They are an interface here: functions, with the documented
    facts the code relies on.  Both AEADs are deterministic given key and nonce,
    add a sixteen-byte tag, open what they sealed, and open nothing else: the
    tag is recomputed and compared in full, so that a ciphertext that opens to
    [p] is the one that sealing [p] gives.  [toyCrypto] shows that the
    interface can be implemented; it is used to evaluate the witnesses. *)
From S2P Require Import Prelude.

Open Scope Z_scope.

Record AEAD := mkAEAD {
  seal : list byte -> list byte -> list byte -> list byte -> list byte;
  open : list byte -> list byte -> list byte -> list byte -> option (list byte);
  open_seal : forall key nonce p ad, open key nonce (seal key nonce p ad) ad = Some p;
  open_sound : forall key nonce c ad p, open key nonce c ad = Some p -> c = seal key nonce p ad;
  seal_length : forall key nonce p ad, len (seal key nonce p ad) = len p + 16;
}.

(** [aead.Overhead()] *)
Definition Overhead : Z := 16.

Class Crypto := {
  (** [hmac.New(sha256.New, key)], [Write(message)], [Sum(nil)]. *)
  hmac : list byte -> list byte -> list byte;
  hmac_length : forall key message, length (hmac key message) = 32%nat;
  AESGCM : AEAD;
  ChaCha20Poly1305 : AEAD;
  XChaCha20Poly1305 : AEAD;
}.

(** ** What follows from the laws *)

Lemma open_length (A : AEAD) key nonce c ad p : open A key nonce c ad = Some p -> len c = len p + 16.
Proof. intros ->%open_sound. apply seal_length. Qed.

(** Two ciphertexts that open to the same plaintext under one nonce are equal. *)
Lemma open_inj (A : AEAD) key nonce c1 c2 ad p :
  open A key nonce c1 ad = Some p -> open A key nonce c2 ad = Some p -> c1 = c2.
Proof. intros ->%open_sound ->%open_sound. done. Qed.

Lemma seal_inj (A : AEAD) key nonce p1 p2 ad :
  seal A key nonce p1 ad = seal A key nonce p2 ad -> p1 = p2.
Proof.
  intros E. pose proof (open_seal A key nonce p1 ad) as H1.
  rewrite E, open_seal in H1. congruence.
Qed.

(** ** A model of the interface *)

Definition toyTag (key nonce p ad : list byte) : list byte :=
  be 16 (be_val key + 3 * be_val nonce + 5 * be_val p + 7 * be_val ad + 11 * len p).

Definition toySeal (key nonce p ad : list byte) : list byte := p ++ toyTag key nonce p ad.

Definition toyOpen (key nonce c ad : list byte) : option (list byte) :=
  let p := take (length c - 16) c in
  if bool_decide (c = toySeal key nonce p ad) then Some p else None.

Lemma toy_take key nonce p ad :
  take (length (toySeal key nonce p ad) - 16) (toySeal key nonce p ad) = p.
Proof.
  unfold toySeal, toyTag. rewrite length_app, length_be. apply take_app_length'. lia.
Qed.

Definition toyAEAD : AEAD.
Proof.
  refine (mkAEAD toySeal toyOpen _ _ _).
  - intros. unfold toyOpen. rewrite toy_take. by rewrite bool_decide_true.
  - intros key nonce c ad p. unfold toyOpen. case_bool_decide as E; [|done]. intros [= <-]. done.
  - intros. unfold toySeal, toyTag. rewrite len_app, len_be. done.
Defined.

Definition toyHmac (key message : list byte) : list byte :=
  be 32 ((be_val key + 1) * 65599 + be_val message * 257 + len message).

#[global] Instance toyCrypto : Crypto := {
  hmac := toyHmac;
  hmac_length k m := length_be 32 _;
  AESGCM := toyAEAD;
  ChaCha20Poly1305 := toyAEAD;
  XChaCha20Poly1305 := toyAEAD;
}.
