(* ===== verification/Address.v ===== *)
(** * Target addresses on the wire

    The SOCKS5-style address (ATYP, host, port) that the OPEN frames of
    [internal/rawstream] and [internal/h1session], the packets of
    [internal/plainudp] and [internal/socks5] all use, with what decoding an
    encoded address gives.  The codecs differ in their checks and errors; the
    part they share is [appendHost]. *)
From S2P Require Import Prelude GoNet.

Open Scope Z_scope.

Definition atypIPv4 : byte := Byte.x01.
Definition atypDomain : byte := Byte.x03.
Definition atypIPv6 : byte := Byte.x04.

(** The host part: an IP literal in its shortest form, or a domain of 1 to
    255 bytes. *)
Definition appendHost (badLength : error) (host : gostring) : result (list byte) :=
  match ParseIP host with
  | Some ip =>
      match To4 ip with
      | Some ipv4 => Ok (atypIPv4 :: ipv4)
      | None => Ok (atypIPv6 :: ip)
      end
  | None =>
      if (len host =? 0) || (255 <? len host) then Fail badLength
      else Ok (atypDomain :: byte_of (len host) :: host)
  end.

(** [net.SplitHostPort] then [strconv.Atoi] with the range check of the
    caller. *)
Definition splitTarget (minPort : Z) (badAddress badPort : error) (address : gostring)
  : result (gostring * Z) :=
  match SplitHostPort address with
  | None => Fail badAddress
  | Some (host, portText) =>
      match Atoi portText with
      | None => Fail badPort
      | Some port =>
          if (port <? minPort) || (65535 <? port) then Fail badPort else Ok (host, port)
      end
  end.

(** ** What a decoder makes of an encoded host *)

(** The text an encoded host is decoded to. *)
Definition canonicalHost (host : gostring) : gostring :=
  match ParseIP host with
  | Some ip => IPString (default ip (To4 ip))
  | None => host
  end.

(** The address a peer sees for a target. *)
Definition canonicalAddress (host : gostring) (port : Z) : gostring :=
  JoinHostPort (canonicalHost host) (Itoa port).

(** The three encodings of a host. *)
Inductive encodedHost (host : gostring) : list byte -> Prop :=
  | enc_v4 q : length q = 4%nat -> canonicalHost host = IPString q -> encodedHost host (atypIPv4 :: q)
  | enc_v6 ip : length ip = 16%nat -> canonicalHost host = IPString ip -> encodedHost host (atypIPv6 :: ip)
  | enc_domain : 0 < len host <= 255 -> canonicalHost host = host ->
      encodedHost host (atypDomain :: byte_of (len host) :: host).

Lemma appendHost_encoded err host b : appendHost err host = Ok b -> encodedHost host b.
Proof.
  unfold appendHost. intros H. destruct (ParseIP host) as [ip|] eqn:Ep.
  - destruct (To4 ip) as [q|] eqn:E4; injection H as <-.
    + apply enc_v4; [by eapply To4_length|]. unfold canonicalHost. by rewrite Ep, E4.
    + apply enc_v6; [by eapply ParseIP_length|]. unfold canonicalHost. by rewrite Ep, E4.
  - inv_fun H. apply enc_domain; [lia|]. unfold canonicalHost. by rewrite Ep.
Qed.

Lemma appendHost_total err host :
  0 < len host <= 255 -> exists b, appendHost err host = Ok b.
Proof.
  intros H. unfold appendHost. destruct (ParseIP host) as [ip|]; [destruct (To4 ip); eauto|].
  rewrite (proj2 (Z.eqb_neq _ _)), (proj2 (Z.ltb_ge _ _)) by lia. eauto.
Qed.

(** The wire form is at least six bytes with the port. *)
Lemma encodedHost_length host b : encodedHost host b -> 3 <= len b <= 257.
Proof. intros []; len_simpl; lia. Qed.

Lemma splitTarget_ok minPort e1 e2 address host port :
  splitTarget minPort e1 e2 address = Ok (host, port) ->
  minPort <= port <= 65535 /\ exists t, SplitHostPort address = Some (host, t) /\ Atoi t = Some port.
Proof.
  unfold splitTarget. intros H. inv_fun H. split; [lia|eauto].
Qed.

Lemma be_port port rest : 0 <= port <= 65535 -> be_val (take 2 (be 2 port ++ rest)) = port.
Proof.
  intros. rewrite take_app_length' by (by rewrite length_be). apply be_val_be2. unfold is_u16. lia.
Qed.

(** A host and a port text joined and split again. *)
Lemma byteZ_len (host : gostring) : 0 <= len host <= 255 -> byteZ (byte_of (len host)) = len host.
Proof. intros. apply byteZ_of_small. lia. Qed.
