(* ===== verification/RawHandshake.v ===== *)
(** * The handshake of [internal/rawstream] (frame.go)

    ClientHello and ServerHello records in their fixed and polymorphic forms,
    the key derivations, the matching of a hello against the keys of several
    users (directly and with prepared masks), and the 0-RTT OPEN frame.  The
    random source is a reader; the network is a reader. *)
From S2P Require Import Prelude GoIO GoNet Crypto Address.

Open Scope Z_scope.

(** ** Constants and errors *)

Definition ClientHelloSize : Z := 48.
Definition ServerHelloSize : Z := 40.
Definition MaxTimestampSkew : Z := 90.
Definition DefaultMinPadding : Z := 32.
Definition DefaultMaxPadding : Z := 256.
Definition MaxPolymorphicPadding : Z := 64.

Definition DomainPolymorphicMask := bs "CHITANDA-RAWSTREAM-POLY-V1".
Definition DomainClientHello := bs "CHITANDA-RAWSTREAM-CLIENT-V1".
Definition DomainServerHello := bs "CHITANDA-RAWSTREAM-SERVER-V1".
Definition Domain0RTTKey := bs "CHITANDA-RAWSTREAM-0RTT-V1".
Definition DomainSessionKey := bs "CHITANDA-RAWSTREAM-SESSION-V1".

Definition ErrInvalidRecordLen := Errorf "rawstream: invalid handshake record length".
Definition ErrTimestampExpired := Errorf "rawstream: timestamp out of acceptable window".
Definition ErrInvalidClientAuth := Errorf "rawstream: invalid client authentication tag".
Definition ErrInvalidServerAuth := Errorf "rawstream: invalid server authentication tag".
Definition ErrInvalidPolymorphicPadding := Errorf "rawstream: invalid polymorphic padding length".
Definition ErrInvalidOpenFrame := Errorf "rawstream: invalid OPEN frame structure".
Definition ErrInvalidAddress := Errorf "rawstream: unsupported address type in OPEN frame".
Definition errShortPSK := Errorf "rawstream: PSK must be at least 32 bytes".

(** The match: key index, padding length, client nonce, timestamp. *)
Abbreviation matched := (nat * Z * list byte * Z)%type.

Section Handshake.
  Context `{Crypto}.

(** [mac.Sum(nil)] of a MAC over the domain, the server id and the rest. *)
Definition macOver (key domain serverID rest : list byte) : list byte :=
  hmac key (domain ++ serverID ++ rest).

(** ** Fixed-length hellos *)

Definition CreateClientHello (psk serverID : list byte) (now : Z) (rnd : reader)
  : result (list byte * list byte * Z * reader) :=
  if len psk <? 32 then Fail errShortPSK
  else
    let timestamp := u64 now in
    let? (clientNonce, rnd1) := randBytes "rawstream: random generator failed" 24 rnd in
    let tsBuf := be 8 timestamp in
    let fullTag := macOver psk DomainClientHello serverID (tsBuf ++ clientNonce) in
    Ok (tsBuf ++ clientNonce ++ take 16 fullTag, clientNonce, timestamp, rnd1).

Definition VerifyClientHello (psk serverID record : list byte) (now : Z) : result (list byte * Z) :=
  if len psk <? 32 then Fail errShortPSK
  else if negb (len record =? ClientHelloSize) then Fail ErrInvalidRecordLen
  else
    let timestamp := be_val (slice 0 8 record) in
    let clientNonce := slice 8 32 record in
    let clientTag := slice 32 48 record in
    if timestampExpired MaxTimestampSkew now timestamp then Fail ErrTimestampExpired
    else
      let expectedFullTag := macOver psk DomainClientHello serverID (slice 0 8 record ++ clientNonce) in
      if bool_decide (clientTag = take 16 expectedFullTag) then Ok (clientNonce, timestamp)
      else Fail ErrInvalidClientAuth.

Definition CreateServerHello (psk serverID : list byte) (timestamp : Z) (clientNonce : list byte) (rnd : reader)
  : result (list byte * list byte * reader) :=
  let? (serverNonce, rnd1) := randBytes "rawstream: server random failed" 24 rnd in
  let fullTag := macOver psk DomainServerHello serverID (be 8 timestamp ++ clientNonce ++ serverNonce) in
  Ok (serverNonce ++ take 16 fullTag, serverNonce, rnd1).

Definition VerifyServerHello (psk serverID : list byte) (timestamp : Z) (clientNonce record : list byte)
  : result (list byte) :=
  if negb (len record =? ServerHelloSize) then Fail ErrInvalidRecordLen
  else
    let serverNonce := slice 0 24 record in
    let serverTag := slice 24 40 record in
    let expectedFullTag :=
      macOver psk DomainServerHello serverID (be 8 timestamp ++ clientNonce ++ serverNonce) in
    if bool_decide (serverTag = take 16 expectedFullTag) then Ok serverNonce
    else Fail ErrInvalidServerAuth.

(** ** Polymorphic hellos *)

Definition DerivePolymorphicMasks (psk serverID : list byte) : byte * byte :=
  let sum := hmac psk (DomainPolymorphicMask ++ serverID) in
  (at_ sum 0, at_ sum 1).

Definition deriveTimestampMask (psk nonce : list byte) : list byte :=
  take 8 (hmac psk (bs "rawstream-ts-mask" ++ nonce)).

(** The padding: a length byte modulo 65, then that many bytes. *)
Definition randPadding (msgLen msgPad : string) (rnd : reader) : result (Z * list byte * reader) :=
  let? (padLenBuf, rnd1) := randBytes msgLen 1 rnd in
  let padLen := byteZ (at_ padLenBuf 0) mod (MaxPolymorphicPadding + 1) in
  if 0 <? padLen then
    let? (padBytes, rnd2) := randBytes msgPad padLen rnd1 in
    Ok (padLen, padBytes, rnd2)
  else Ok (padLen, [], rnd1).

Definition CreatePolymorphicClientHello (psk serverID : list byte) (now : Z) (rnd : reader)
  : result (list byte * list byte * Z * reader) :=
  if len psk <? 32 then Fail errShortPSK
  else
    let clientMask := fst (DerivePolymorphicMasks psk serverID) in
    let? (padLen, padBytes, rnd1) :=
      randPadding "rawstream: rand padLen failed" "rawstream: rand padBytes failed" rnd in
    let timestamp := u64 now in
    let? (clientNonce, rnd2) := randBytes "rawstream: random generator failed" 24 rnd1 in
    let tsBuf := be 8 timestamp in
    let fullTag := macOver psk DomainClientHello serverID (tsBuf ++ clientNonce ++ [byte_of padLen]) in
    let maskedTs := xorBytes tsBuf (deriveTimestampMask psk clientNonce) in
    Ok (byte_xor (byte_of padLen) clientMask :: maskedTs ++ clientNonce ++ take 16 fullTag ++ padBytes,
        clientNonce, timestamp, rnd2).

Definition VerifyPolymorphicClientHello (psk serverID record : list byte) (now : Z)
  : result (list byte * Z) :=
  if len psk <? 32 then Fail errShortPSK
  else if len record <? 1 + ClientHelloSize then Fail ErrInvalidRecordLen
  else
    let clientMask := fst (DerivePolymorphicMasks psk serverID) in
    let padLen := byteZ (byte_xor (at_ record 0) clientMask) in
    if MaxPolymorphicPadding <? padLen then Fail ErrInvalidPolymorphicPadding
    else if negb (len record =? 1 + ClientHelloSize + padLen) then Fail ErrInvalidRecordLen
    else
      let clientNonce := slice 9 33 record in
      let tsBuf := xorBytes (slice 1 9 record) (deriveTimestampMask psk clientNonce) in
      let timestamp := be_val tsBuf in
      if timestampExpired MaxTimestampSkew now timestamp then Fail ErrTimestampExpired
      else
        let expectedFullTag :=
          macOver psk DomainClientHello serverID (tsBuf ++ clientNonce ++ [byte_of padLen]) in
        if bool_decide (slice 33 49 record = take 16 expectedFullTag) then Ok (clientNonce, timestamp)
        else Fail ErrInvalidClientAuth.

(** ** Matching a hello against several keys *)

(** The loop of [MatchPolymorphicClientHelloHeader] over the keys from index [i]. *)
Fixpoint matchKeys (i : nat) (keys : list (list byte)) (serverID header : list byte) (now : Z)
    (expiredFound : bool) : result matched :=
  match keys with
  | [] => Fail (if expiredFound then ErrTimestampExpired else ErrInvalidClientAuth)
  | psk :: rest =>
      if len psk <? 32 then matchKeys (S i) rest serverID header now expiredFound
      else
        let clientMask := fst (DerivePolymorphicMasks psk serverID) in
        let pLen := byteZ (byte_xor (at_ header 0) clientMask) in
        if MaxPolymorphicPadding <? pLen then matchKeys (S i) rest serverID header now expiredFound
        else
          let clientNonce := slice 9 33 header in
          let tsBuf := xorBytes (slice 1 9 header) (deriveTimestampMask psk clientNonce) in
          let ts := be_val tsBuf in
          let expectedFullTag :=
            macOver psk DomainClientHello serverID (tsBuf ++ clientNonce ++ [byte_of pLen]) in
          if bool_decide (slice 33 49 header = take 16 expectedFullTag) then
            if timestampExpired MaxTimestampSkew now ts
            then matchKeys (S i) rest serverID header now true
            else Ok (i, pLen, clientNonce, ts)
          else matchKeys (S i) rest serverID header now expiredFound
  end.

Definition MatchPolymorphicClientHelloHeader (header : list byte) (keys : list (list byte))
    (serverID : list byte) (now : Z) : result matched :=
  if len header <? 1 + ClientHelloSize then Fail ErrInvalidRecordLen
  else
    let clientNonce := slice 9 33 header in
    let clientTag := slice 33 49 header in
    match keys with
    | [psk] =>
        if len psk <? 32 then Fail errShortPSK
        else
          let clientMask := fst (DerivePolymorphicMasks psk serverID) in
          let pLen := byteZ (byte_xor (at_ header 0) clientMask) in
          if MaxPolymorphicPadding <? pLen then Fail ErrInvalidPolymorphicPadding
          else
            let tsBuf := xorBytes (slice 1 9 header) (deriveTimestampMask psk clientNonce) in
            let ts := be_val tsBuf in
            if timestampExpired MaxTimestampSkew now ts then Fail ErrTimestampExpired
            else
              let expectedFullTag :=
                macOver psk DomainClientHello serverID (tsBuf ++ clientNonce ++ [byte_of pLen]) in
              if bool_decide (clientTag = take 16 expectedFullTag) then Ok (0%nat, pLen, clientNonce, ts)
              else Fail ErrInvalidClientAuth
    | _ => matchKeys 0 keys serverID header now false
    end.

(** [PreparedClientHelloMatcher]: every key with its mask. *)
Record PreparedClientHelloMatcher := mkMatcher {
  mKeys : list (list byte);
  mClientMasks : list byte;
  mServerID : list byte;
}.

Fixpoint prepareMasks (keys : list (list byte)) (serverID : list byte) : result (list byte) :=
  match keys with
  | [] => Ok []
  | key :: rest =>
      if len key <? 32 then Fail errShortPSK
      else
        let? masks := prepareMasks rest serverID in
        Ok (fst (DerivePolymorphicMasks key serverID) :: masks)
  end.

Definition NewPreparedClientHelloMatcher (keys : list (list byte)) (serverID : list byte)
  : result PreparedClientHelloMatcher :=
  if bool_decide (keys = []) then Fail (Errorf "rawstream: at least one PSK is required")
  else
    let? masks := prepareMasks keys serverID in
    Ok (mkMatcher keys masks serverID).

Fixpoint matchPrepared (i : nat) (keys : list (list byte)) (masks : list byte)
    (serverID header : list byte) (now : Z) (expiredFound : bool) : result matched :=
  match keys, masks with
  | psk :: rest, mask :: masks' =>
      let pLen := byteZ (byte_xor (at_ header 0) mask) in
      if MaxPolymorphicPadding <? pLen then matchPrepared (S i) rest masks' serverID header now expiredFound
      else
        let clientNonce := slice 9 33 header in
        let tsBuf := xorBytes (slice 1 9 header) (deriveTimestampMask psk clientNonce) in
        let expectedTag :=
          macOver psk DomainClientHello serverID (tsBuf ++ clientNonce ++ [byte_of pLen]) in
        if negb (bool_decide (slice 33 49 header = take 16 expectedTag))
        then matchPrepared (S i) rest masks' serverID header now expiredFound
        else
          let ts := be_val tsBuf in
          if timestampExpired MaxTimestampSkew now ts
          then matchPrepared (S i) rest masks' serverID header now true
          else Ok (i, pLen, clientNonce, ts)
  | _, _ => Fail (if expiredFound then ErrTimestampExpired else ErrInvalidClientAuth)
  end.

Definition MatchHeader (m : PreparedClientHelloMatcher) (header : list byte) (now : Z) : result matched :=
  if len header <? 1 + ClientHelloSize then Fail ErrInvalidRecordLen
  else matchPrepared 0 (mKeys m) (mClientMasks m) (mServerID m) header now false.

(** Reading the header, matching it, then reading the padding; shared by the
    two readers below, which differ in the matcher. *)
Definition readAndMatchWith (matchf : list byte -> result matched) (r : reader)
  : result (nat * list byte * Z) * reader :=
  let '(header, e, r1) := ReadFull (1 + ClientHelloSize) r in
  match e with
  | Some err => (Fail err, r1)
  | None =>
      match matchf header with
      | Fail err => (Fail err, r1)
      | Ok (i, padLen, nonce, ts) =>
          if 0 <? padLen then
            let '(_, e2, r2) := ReadFull padLen r1 in
            match e2 with
            | Some err => (Fail err, r2)
            | None => (Ok (i, nonce, ts), r2)
            end
          else (Ok (i, nonce, ts), r1)
      end
  end.

Definition ReadAndMatch (m : PreparedClientHelloMatcher) (r : reader) (now : Z)
  : result (nat * list byte * Z) * reader :=
  readAndMatchWith (fun header => MatchHeader m header now) r.

Definition ReadAndMatchPolymorphicClientHello (r : reader) (keys : list (list byte))
    (serverID : list byte) (now : Z) : result (nat * list byte * Z) * reader :=
  readAndMatchWith (fun header => MatchPolymorphicClientHelloHeader header keys serverID now) r.

Definition ReadAndVerifyPolymorphicClientHello (r : reader) (psk serverID : list byte) (now : Z)
  : result (list byte * Z) * reader :=
  if len psk <? 32 then (Fail errShortPSK, r)
  else
    let '(res, r1) := ReadAndMatchPolymorphicClientHello r [psk] serverID now in
    (match res with Ok (_, nonce, ts) => Ok (nonce, ts) | Fail err => Fail err end, r1).

(** ** Keys *)

Definition Derive0RTTKey (psk serverID : list byte) (timestamp : Z) (clientNonce : list byte) : list byte :=
  take 16 (macOver psk Domain0RTTKey serverID (be 8 timestamp ++ clientNonce)).

Definition DeriveSessionKeys (psk serverID : list byte) (timestamp : Z) (clientNonce serverNonce : list byte)
  : list byte * list byte :=
  let prk := macOver psk DomainSessionKey serverID (be 8 timestamp ++ clientNonce ++ serverNonce) in
  (take 16 (hmac prk (bs "C2S")), take 16 (hmac prk (bs "S2C"))).

(** ** Polymorphic ServerHello *)

Definition CreatePolymorphicServerHello (psk serverID : list byte) (timestamp : Z) (clientNonce : list byte)
    (rnd : reader) : result (list byte * list byte * reader) :=
  if len psk <? 32 then Fail errShortPSK
  else
    let serverMask := snd (DerivePolymorphicMasks psk serverID) in
    let? (padLen, padBytes, rnd1) :=
      randPadding "rawstream: server rand padLen failed" "rawstream: server rand padBytes failed" rnd in
    let? (serverNonce, rnd2) := randBytes "rawstream: server random failed" 24 rnd1 in
    let fullTag := macOver psk DomainServerHello serverID
      (be 8 timestamp ++ clientNonce ++ serverNonce ++ [byte_of padLen]) in
    Ok (byte_xor (byte_of padLen) serverMask :: serverNonce ++ take 16 fullTag ++ padBytes,
        serverNonce, rnd2).

Definition VerifyPolymorphicServerHello (psk serverID : list byte) (timestamp : Z)
    (clientNonce record : list byte) : result (list byte) :=
  if len psk <? 32 then Fail errShortPSK
  else if len record <? 1 + ServerHelloSize then Fail ErrInvalidRecordLen
  else
    let serverMask := snd (DerivePolymorphicMasks psk serverID) in
    let padLen := byteZ (byte_xor (at_ record 0) serverMask) in
    if MaxPolymorphicPadding <? padLen then Fail ErrInvalidPolymorphicPadding
    else if negb (len record =? 1 + ServerHelloSize + padLen) then Fail ErrInvalidRecordLen
    else
      let serverNonce := slice 1 25 record in
      let serverTag := slice 25 41 record in
      let expectedFullTag := macOver psk DomainServerHello serverID
        (be 8 timestamp ++ clientNonce ++ serverNonce ++ [byte_of padLen]) in
      if bool_decide (serverTag = take 16 expectedFullTag) then Ok serverNonce
      else Fail ErrInvalidServerAuth.

Definition ReadAndVerifyPolymorphicServerHello (r : reader) (psk serverID : list byte) (timestamp : Z)
    (clientNonce : list byte) : result (list byte) * reader :=
  if len psk <? 32 then (Fail errShortPSK, r)
  else
    let '(header, e, r1) := ReadFull (1 + ServerHelloSize) r in
    match e with
    | Some err => (Fail err, r1)
    | None =>
        let serverMask := snd (DerivePolymorphicMasks psk serverID) in
        let padLen := byteZ (byte_xor (at_ header 0) serverMask) in
        if MaxPolymorphicPadding <? padLen then (Fail ErrInvalidPolymorphicPadding, r1)
        else
          let serverNonce := slice 1 25 header in
          let serverTag := slice 25 41 header in
          let expectedFullTag := macOver psk DomainServerHello serverID
            (be 8 timestamp ++ clientNonce ++ serverNonce ++ [byte_of padLen]) in
          if negb (bool_decide (serverTag = take 16 expectedFullTag)) then (Fail ErrInvalidServerAuth, r1)
          else if 0 <? padLen then
            let '(_, e2, r2) := ReadFull padLen r1 in
            match e2 with
            | Some err => (Fail err, r2)
            | None => (Ok serverNonce, r2)
            end
          else (Ok serverNonce, r1)
    end.

End Handshake.

(** ** Randomness and record shapes *)

Lemma randPadding_ok m1 m2 rnd padLen pad rnd' :
  randPadding m1 m2 rnd = Ok (padLen, pad, rnd') -> 0 <= padLen <= 64 /\ len pad = padLen.
Proof.
  unfold randPadding, MaxPolymorphicPadding. intros E.
  destruct (randBytes m1 1 rnd) as [[b r1]|]; [|done].
  pose proof (Z.mod_pos_bound (byteZ (at_ b 0)) (64 + 1) eq_refl) as R.
  destruct (Z.ltb_spec 0 (byteZ (at_ b 0) mod (64 + 1))) as [Hp|Hz].
  - destruct (randBytes m2 _ r1) as [[q r2]|] eqn:Eq; [|done]. injection E as <- <- _.
    apply randBytes_ok in Eq; lia.
  - injection E as <- <- _. cbn. lia.
Qed.

Lemma pad_unmask padLen mask :
  0 <= padLen <= 64 -> byteZ (byte_xor (byte_xor (byte_of padLen) mask) mask) = padLen.
Proof. intros. rewrite byte_xor_cancel, byteZ_of_small; lia. Qed.

Section HandshakeProofs.
  Context `{Crypto}.

Lemma length_tag k d s m : length (take 16 (macOver k d s m)) = 16%nat.
Proof. unfold macOver. rewrite length_take, hmac_length. done. Qed.

Lemma length_tsMask k n : length (deriveTimestampMask k n) = 8%nat.
Proof. unfold deriveTimestampMask. rewrite length_take, hmac_length. done. Qed.

(** ** What a key says about a header *)

(** The specification of a match: the padding length and the timestamp, when
    the key is long enough, the padding within bounds, the tag right and the
    timestamp fresh. *)
Definition authenticates (psk serverID header : list byte) (now : Z) : option (Z * Z) :=
  let pLen := byteZ (byte_xor (at_ header 0) (fst (DerivePolymorphicMasks psk serverID))) in
  let nonce := slice 9 33 header in
  let tsBuf := xorBytes (slice 1 9 header) (deriveTimestampMask psk nonce) in
  if (len psk <? 32) || (MaxPolymorphicPadding <? pLen) ||
     negb (bool_decide (slice 33 49 header =
       take 16 (macOver psk DomainClientHello serverID (tsBuf ++ nonce ++ [byte_of pLen])))) ||
     timestampExpired MaxTimestampSkew now (be_val tsBuf)
  then None else Some (pLen, be_val tsBuf).

(** The first key of a list that authenticates the header. *)
Definition first_match (keys : list (list byte)) (serverID header : list byte) (now : Z)
    (r : matched) : Prop :=
  let '(i, padLen, nonce, ts) := r in
  nonce = slice 9 33 header /\
  (exists psk, keys !! i = Some psk /\ authenticates psk serverID header now = Some (padLen, ts)) /\
  (forall j psk, (j < i)%nat -> keys !! j = Some psk -> authenticates psk serverID header now = None).

(** One turn of the matching loop. *)
Lemma matchKeys_cons i psk keys sid h now ef :
  exists ef', matchKeys i (psk :: keys) sid h now ef =
  match authenticates psk sid h now with
  | Some (pLen, ts) => Ok (i, pLen, slice 9 33 h, ts)
  | None => matchKeys (S i) keys sid h now ef'
  end.
Proof.
  cbn [matchKeys]. unfold authenticates.
  destruct (len psk <? 32); cbn [orb]; [by eexists|].
  destruct (MaxPolymorphicPadding <? _); cbn [orb]; [by eexists|].
  case_bool_decide; cbn [orb negb]; [|by eexists].
  destruct (timestampExpired _ _ _); by eexists.
Qed.

Lemma matchKeys_spec i keys sid h now ef r :
  matchKeys i keys sid h now ef = Ok r <->
  exists j p n t, r = ((i + j)%nat, p, n, t) /\ first_match keys sid h now (j, p, n, t).
Proof.
  revert i ef. induction keys as [|psk keys IH]; intros i ef.
  { cbn. split; [done|]. intros (j & p & n & t & _ & _ & (psk & Hl & _) & _). done. }
  destruct (matchKeys_cons i psk keys sid h now ef) as (ef' & ->).
  destruct (authenticates psk sid h now) as [[p t]|] eqn:Ea.
  - split.
    + intros [= <-]. exists 0%nat, p, (slice 9 33 h), t. rewrite Nat.add_0_r. split; [done|].
      split_and!; [done|by exists psk|]. intros j k Hj. lia.
    + intros ([|j] & p' & n & t' & -> & -> & (psk' & Hl & Ha) & Hfirst).
      * injection Hl as <-. rewrite Ea in Ha. injection Ha as <- <-. by rewrite Nat.add_0_r.
      * rewrite (Hfirst 0%nat psk) in Ea; [done|lia|done].
  - rewrite IH. split.
    + intros (j & p & n & t & -> & -> & (psk' & Hl & Ha) & Hfirst).
      exists (S j), p, (slice 9 33 h), t. split; [do 3 f_equal; lia|].
      split_and!; [done|by exists psk'|]. intros [|k] q Hk Hq; [by injection Hq as <-|].
      apply (Hfirst k); [lia|done].
    + intros ([|j] & p & n & t & -> & -> & (psk' & Hl & Ha) & Hfirst).
      * injection Hl as <-. congruence.
      * exists j, p, (slice 9 33 h), t. split; [do 3 f_equal; lia|].
        split_and!; [done|by exists psk'|]. intros k q Hk Hq. apply (Hfirst (S k)); [lia|done].
Qed.

Lemma match_single h psk sid now r :
  49 <= len h ->
  (MatchPolymorphicClientHelloHeader h [psk] sid now = Ok r <->
   matchKeys 0 [psk] sid h now false = Ok r).
Proof.
  intros Hh. unfold MatchPolymorphicClientHelloHeader.
  rewrite (proj2 (Z.ltb_ge _ _)) by (unfold ClientHelloSize; lia). cbn [matchKeys].
  destruct (len psk <? 32); [done|]. destruct (MaxPolymorphicPadding <? _); [done|].
  case_bool_decide; destruct (timestampExpired _ _ _); done.
Qed.

Lemma match_header_spec h keys sid now r :
  49 <= len h ->
  (MatchPolymorphicClientHelloHeader h keys sid now = Ok r <-> first_match keys sid h now r).
Proof.
  intros Hh.
  assert (MatchPolymorphicClientHelloHeader h keys sid now = Ok r <->
    matchKeys 0 keys sid h now false = Ok r) as ->.
  { destruct keys as [|psk [|psk2 keys]]; [|by apply match_single|];
      unfold MatchPolymorphicClientHelloHeader;
      rewrite (proj2 (Z.ltb_ge _ _)) by (unfold ClientHelloSize; lia); done. }
  rewrite matchKeys_spec. split.
  - intros (j & p & n & t & -> & Hf). exact Hf.
  - destruct r as [[[i p] n] t]. intros Hf. exists i, p, n, t. done.
Qed.

(** ** The prepared matcher *)

Lemma matchPrepared_eq i keys masks sid h now ef :
  prepareMasks keys sid = Ok masks ->
  matchPrepared i keys masks sid h now ef = matchKeys i keys sid h now ef.
Proof.
  revert i masks ef. induction keys as [|psk keys IH]; intros i masks ef E; cbn [prepareMasks] in E.
  { by injection E as <-. }
  destruct (len psk <? 32) eqn:El; [done|].
  destruct (prepareMasks keys sid) as [ms|]; [|done].
  assert (masks = fst (DerivePolymorphicMasks psk sid) :: ms) as -> by congruence.
  cbn [matchPrepared matchKeys]. rewrite El.
  destruct (MaxPolymorphicPadding <? _); [by apply IH|].
  case_bool_decide; cbn [negb]; [|by apply IH].
  destruct (timestampExpired _ _ _); [by apply IH|done].
Qed.

Lemma NewPrepared_inv keys sid m :
  NewPreparedClientHelloMatcher keys sid = Ok m ->
  exists masks, m = mkMatcher keys masks sid /\ prepareMasks keys sid = Ok masks.
Proof.
  unfold NewPreparedClientHelloMatcher. case_bool_decide; [done|].
  destruct (prepareMasks keys sid) as [ms|] eqn:E; [|done]. intros [= <-]. eauto.
Qed.

Lemma NewPrepared_ok keys sid :
  keys <> [] -> Forall (fun k => 32 <= len k) keys ->
  exists m, NewPreparedClientHelloMatcher keys sid = Ok m.
Proof.
  intros Hne Hk. unfold NewPreparedClientHelloMatcher. rewrite bool_decide_false by done. clear Hne.
  assert (exists ms, prepareMasks keys sid = Ok ms) as [ms ->]; [|by eauto].
  induction Hk as [|k keys Hk1 Hk2 [ms IH]]; cbn; [by eauto|].
  rewrite (proj2 (Z.ltb_ge _ _)) by lia. rewrite IH. eauto.
Qed.

(** The prepared matcher answers the first key that authenticates. *)
Lemma prepared_header_spec keys sid m header now r :
  NewPreparedClientHelloMatcher keys sid = Ok m -> 49 <= len header ->
  (MatchHeader m header now = Ok r <-> first_match keys sid header now r).
Proof.
  intros Em Hh. apply NewPrepared_inv in Em as (masks & -> & Ems). unfold MatchHeader. cbn [mKeys mClientMasks mServerID].
  rewrite (proj2 (Z.ltb_ge _ _)) by (unfold ClientHelloSize; lia).
  rewrite matchPrepared_eq, matchKeys_spec by done. split.
  - intros (j & p & n & t & -> & Hf). exact Hf.
  - destruct r as [[[i p] n] t]. intros Hf. exists i, p, n, t. done.
Qed.

(** ** Hellos that were created *)

Lemma create_client_inv psk sid now rnd record nonce ts rnd' :
  CreatePolymorphicClientHello psk sid now rnd = Ok (record, nonce, ts, rnd') ->
  32 <= len psk /\ ts = u64 now /\ length nonce = 24%nat /\
  exists padLen pad, 0 <= padLen <= 64 /\ len pad = padLen /\
    record = byte_xor (byte_of padLen) (fst (DerivePolymorphicMasks psk sid)) ::
      xorBytes (be 8 ts) (deriveTimestampMask psk nonce) ++ nonce ++
      take 16 (macOver psk DomainClientHello sid (be 8 ts ++ nonce ++ [byte_of padLen])) ++ pad.
Proof.
  unfold CreatePolymorphicClientHello. intros E. destruct (len psk <? 32) eqn:El; [done|]. bool_to_prop.
  destruct (randPadding _ _ rnd) as [[[padLen pad] rnd1]|] eqn:Ep; [|done].
  apply randPadding_ok in Ep as [Hp Hl].
  destruct (randBytes _ 24 rnd1) as [[n rnd2]|] eqn:En; [|done].
  apply randBytes_ok in En; [|done].
  assert (n = nonce /\ u64 now = ts) as [-> ->] by (split; congruence).
  split_and!; [lia|done|lia|]. exists padLen, pad. split_and!; [lia..|done|congruence].
Qed.

(** The fields of an assembled ClientHello. *)
Lemma client_fields c (m n t pad : list byte) :
  length m = 8%nat -> length n = 24%nat -> length t = 16%nat ->
  let r := c :: m ++ n ++ t ++ pad in
  at_ r 0 = c /\ slice 1 9 r = m /\ slice 9 33 r = n /\ slice 33 49 r = t.
Proof.
  intros Hm Hn Ht. cbv zeta. split_and!; [done| | |].
  - apply (slice_field 1 9 [c] m); cbn; lia.
  - apply (slice_field2 9 33 [c] m n); cbn; lia.
  - change (c :: m ++ n ++ t ++ pad) with ((c :: m) ++ n ++ t ++ pad).
    apply slice_field2; cbn; lia.
Qed.

(** A hello splits into the authenticated header and the padding. *)
Lemma create_client_header psk sid now rnd record nonce ts rnd' now' :
  CreatePolymorphicClientHello psk sid now rnd = Ok (record, nonce, ts, rnd') ->
  - 90 <= now' - now <= 90 ->
  exists header pad padLen,
    record = header ++ pad /\ len header = 49 /\ len pad = padLen /\ 0 <= padLen /\
    nonce = slice 9 33 header /\ authenticates psk sid header now' = Some (padLen, ts).
Proof.
  intros E Hnow. apply create_client_inv in E as (Hk & -> & Hn & padLen & pad & Hp & Hl & ->).
  set (m := xorBytes _ _). set (t := take 16 _).
  assert (length m = 8%nat) as Hm
    by (unfold m; rewrite length_xorBytes; by rewrite length_be, ?length_tsMask).
  pose proof (length_tag psk DomainClientHello sid (be 8 (u64 now) ++ nonce ++ [byte_of padLen])) as Ht.
  fold t in Ht. exists (byte_xor (byte_of padLen) (fst (DerivePolymorphicMasks psk sid)) :: m ++ nonce ++ t), pad, padLen.
  split_and!; [cbn [app]; by rewrite <- !app_assoc|len_simpl; lia|done|lia| |].
  - symmetry. rewrite <- (app_nil_r t). by apply client_fields.
  - rewrite <- (app_nil_r t). unfold authenticates.
    destruct (client_fields (byte_xor (byte_of padLen) (fst (DerivePolymorphicMasks psk sid))) m nonce t [] Hm Hn Ht)
      as (-> & -> & -> & ->).
    rewrite pad_unmask by lia. unfold m. rewrite xorBytes_cancel by (by rewrite length_be, length_tsMask).
    rewrite be_val_be8 by apply u64_range. rewrite bool_decide_true by done.
    rewrite (proj2 (Z.ltb_ge (len psk) 32)), (proj2 (Z.ltb_ge MaxPolymorphicPadding padLen))
      by (unfold MaxPolymorphicPadding; lia).
    rewrite timestampExpired_fresh; [done|unfold MaxTimestampSkew; lia..].
Qed.

(** ** Reading a hello from the network *)

Lemma readAndMatchWith_ok matchf r header pad rest i padLen nonce ts :
  len header = 49 -> len pad = padLen -> delivers r (header ++ pad ++ rest) ->
  matchf header = Ok (i, padLen, nonce, ts) ->
  exists r', readAndMatchWith matchf r = (Ok (i, nonce, ts), r') /\ delivers r' rest.
Proof.
  intros Hh Hp Hd Hm. unfold readAndMatchWith.
  destruct (ReadFull_app (1 + ClientHelloSize) r header (pad ++ rest)) as (r1 & -> & Hd1);
    [unfold ClientHelloSize; lia|done|].
  rewrite Hm. destruct (Z.ltb_spec 0 padLen).
  - destruct (ReadFull_app padLen r1 pad rest) as (r2 & -> & Hd2); [done|done|]. eauto.
  - assert (pad = []) as -> by (apply len_zero; lia). eauto.
Qed.

Lemma readAndMatchWith_inv matchf r i nonce ts r' :
  readAndMatchWith matchf r = (Ok (i, nonce, ts), r') ->
  exists header pad padLen, len header = 49 /\ len pad = Z.max 0 padLen /\
    rd_content r = header ++ pad ++ rd_content r' /\ matchf header = Ok (i, padLen, nonce, ts).
Proof.
  unfold readAndMatchWith. destruct (ReadFull _ r) as [[header e] r1] eqn:Er. destruct e; [done|].
  pose proof (ReadFull_content _ _ _ _ _ Er) as ->.
  apply ReadFull_bound in Er as [_ [Hh _]]; [|done]. specialize (Hh eq_refl).
  destruct (matchf header) as [[[[j padLen] n] t]|] eqn:Em; [|done]. destruct (Z.ltb_spec 0 padLen).
  - destruct (ReadFull padLen r1) as [[pad e2] r2] eqn:Er2. destruct e2; [done|]. intros [= <- <- <- <-].
    pose proof (ReadFull_content _ _ _ _ _ Er2) as ->. apply ReadFull_bound in Er2 as [_ [Hp _]]; [|lia].
    specialize (Hp eq_refl). exists header, pad, padLen. split_and!; [unfold ClientHelloSize in Hh; lia|lia|done|done].
  - intros [= <- <- <- <-]. exists header, [], padLen. split_and!; [unfold ClientHelloSize in Hh; lia|cbn; lia|done|done].
Qed.

Lemma first_match_intro keys sid header now i psk padLen ts :
  keys !! i = Some psk -> authenticates psk sid header now = Some (padLen, ts) ->
  (forall j k, (j < i)%nat -> keys !! j = Some k -> authenticates k sid header now = None) ->
  first_match keys sid header now (i, padLen, slice 9 33 header, ts).
Proof. intros. split_and!; [done|by exists psk|done]. Qed.

(** ** The server's answer *)

Lemma create_server_inv psk sid ts nonce rnd record snonce rnd' :
  CreatePolymorphicServerHello psk sid ts nonce rnd = Ok (record, snonce, rnd') ->
  32 <= len psk /\ length snonce = 24%nat /\
  exists padLen pad, 0 <= padLen <= 64 /\ len pad = padLen /\
    record = byte_xor (byte_of padLen) (snd (DerivePolymorphicMasks psk sid)) ::
      snonce ++
      take 16 (macOver psk DomainServerHello sid (be 8 ts ++ nonce ++ snonce ++ [byte_of padLen])) ++ pad.
Proof.
  unfold CreatePolymorphicServerHello. intros E. destruct (len psk <? 32) eqn:El; [done|]. bool_to_prop.
  destruct (randPadding _ _ rnd) as [[[padLen pad] rnd1]|] eqn:Ep; [|done].
  apply randPadding_ok in Ep as [Hp Hl].
  destruct (randBytes _ 24 rnd1) as [[n rnd2]|] eqn:En; [|done].
  apply randBytes_ok in En; [|done].
  assert (n = snonce) as -> by congruence.
  split_and!; [lia|lia|]. exists padLen, pad. split_and!; [lia..|done|congruence].
Qed.

Lemma server_fields c (n t pad : list byte) :
  length n = 24%nat -> length t = 16%nat ->
  let r := c :: n ++ t ++ pad in at_ r 0 = c /\ slice 1 25 r = n /\ slice 25 41 r = t.
Proof.
  intros Hn Ht. cbv zeta. split_and!; [done| |].
  - apply (slice_field 1 25 [c] n); cbn; lia.
  - apply (slice_field2 25 41 [c] n t); cbn; lia.
Qed.

Lemma read_server_hello psk sid ts nonce rnd record snonce rnd' r rest :
  CreatePolymorphicServerHello psk sid ts nonce rnd = Ok (record, snonce, rnd') ->
  delivers r (record ++ rest) ->
  exists r', ReadAndVerifyPolymorphicServerHello r psk sid ts nonce = (Ok snonce, r') /\ delivers r' rest.
Proof.
  intros E Hd. apply create_server_inv in E as (Hk & Hn & padLen & pad & Hp & Hl & ->).
  set (c := byte_xor _ _) in Hd. set (t := take 16 _) in Hd.
  assert (length t = 16%nat) as Ht by apply length_tag.
  assert (delivers r ((c :: snonce ++ t) ++ pad ++ rest)) as Hd'.
  { by rewrite <- !app_comm_cons, <- !app_assoc in *. }
  unfold ReadAndVerifyPolymorphicServerHello. rewrite (proj2 (Z.ltb_ge (len psk) 32)) by lia.
  destruct (ReadFull_app (1 + ServerHelloSize) r (c :: snonce ++ t) (pad ++ rest)) as (r1 & -> & Hd1);
    [unfold ServerHelloSize; len_simpl; lia|done|].
  rewrite <- (app_nil_r t). destruct (server_fields c snonce t [] Hn Ht) as (-> & -> & ->).
  unfold c, t. rewrite pad_unmask, bool_decide_true by (done || lia).
  rewrite (proj2 (Z.ltb_ge MaxPolymorphicPadding padLen)) by (unfold MaxPolymorphicPadding; lia).
  cbn [negb]. destruct (Z.ltb_spec 0 padLen).
  - destruct (ReadFull_app padLen r1 pad rest) as (r2 & -> & Hd2); [done|done|]. eauto.
  - assert (pad = []) as -> by (apply len_zero; lia). eauto.
Qed.

(** ** Verification from memory *)

Lemma verify_client_created psk sid now now' rnd hello nonce ts rnd' :
  CreateClientHello psk sid now rnd = Ok (hello, nonce, ts, rnd') -> - 90 <= now' - now <= 90 ->
  VerifyClientHello psk sid hello now' = Ok (nonce, ts).
Proof.
  intros Ec Hnow. unfold CreateClientHello in Ec. destruct (len psk <? 32) eqn:El; [done|].
  destruct (randBytes _ 24 rnd) as [[n r]|] eqn:En; [|done]. apply randBytes_ok in En; [|done].
  assert (n = nonce /\ u64 now = ts) as [-> <-] by (split; congruence).
  set (t := take 16 _) in Ec. assert (length t = 16%nat) as Ht by apply length_tag.
  assert (hello = be 8 (u64 now) ++ nonce ++ t ++ []) as -> by (rewrite app_nil_r; congruence).
  unfold VerifyClientHello. rewrite El.
  rewrite slice_head, (slice_field 8 32), (slice_field2 32 48), !len_app, len_be, be_val_be8
    by (rewrite ?length_be; (apply u64_range || lia)).
  rewrite (proj2 (Z.eqb_eq _ _)) by (unfold ClientHelloSize; cbn [length]; lia).
  rewrite timestampExpired_fresh by (unfold MaxTimestampSkew; lia).
  rewrite bool_decide_true by done. done.
Qed.

Lemma verify_poly_client_created psk sid now now' rnd hello nonce ts rnd' :
  CreatePolymorphicClientHello psk sid now rnd = Ok (hello, nonce, ts, rnd') -> - 90 <= now' - now <= 90 ->
  VerifyPolymorphicClientHello psk sid hello now' = Ok (nonce, ts).
Proof.
  intros Ep Hnow. apply create_client_inv in Ep as (Hk & -> & Hn & padLen & pad & Hp & Hl & ->).
  set (ms := xorBytes _ _). set (t := take 16 _).
  assert (length ms = 8%nat) as Hm
    by (unfold ms; rewrite length_xorBytes; by rewrite length_be, ?length_tsMask).
  assert (length t = 16%nat) as Ht by apply length_tag.
  assert (xorBytes ms (deriveTimestampMask psk nonce) = be 8 (u64 now)) as Ex
    by (apply xorBytes_cancel; by rewrite length_be, length_tsMask).
  unfold VerifyPolymorphicClientHello.
  destruct (client_fields (byte_xor (byte_of padLen) (fst (DerivePolymorphicMasks psk sid))) ms nonce t pad Hm Hn Ht)
    as (-> & -> & -> & ->).
  rewrite pad_unmask, Ex, be_val_be8, bool_decide_true by (apply u64_range || done || lia).
  rewrite len_cons, !len_app, !(proj2 (Z.ltb_ge _ _)), (proj2 (Z.eqb_eq _ _))
    by (unfold ClientHelloSize, MaxPolymorphicPadding; lia).
  rewrite timestampExpired_fresh by (unfold MaxTimestampSkew; lia). done.
Qed.

Lemma verify_server_created psk sid ts nonce rnd answer snonce rnd' :
  CreateServerHello psk sid ts nonce rnd = Ok (answer, snonce, rnd') ->
  VerifyServerHello psk sid ts nonce answer = Ok snonce.
Proof.
  intros E. unfold CreateServerHello in E.
  destruct (randBytes _ 24 rnd) as [[n r]|] eqn:En; [|done]. apply randBytes_ok in En; [|done].
  assert (n = snonce) as -> by congruence.
  set (t := take 16 _) in E. assert (length t = 16%nat) as Ht by apply length_tag.
  assert (answer = snonce ++ t ++ []) as -> by (rewrite app_nil_r; congruence).
  unfold VerifyServerHello.
  rewrite slice_head, (slice_field 24 40) by lia.
  rewrite !len_app, (proj2 (Z.eqb_eq _ _)) by (unfold ServerHelloSize; cbn [length]; lia).
  rewrite bool_decide_true by done. done.
Qed.

Lemma verify_poly_server_created psk sid ts nonce rnd answer snonce rnd' :
  CreatePolymorphicServerHello psk sid ts nonce rnd = Ok (answer, snonce, rnd') ->
  VerifyPolymorphicServerHello psk sid ts nonce answer = Ok snonce.
Proof.
  intros E. apply create_server_inv in E as (Hk & Hn & padLen & pad & Hp & Hl & ->).
  set (t := take 16 _). assert (length t = 16%nat) as Ht by apply length_tag.
  unfold VerifyPolymorphicServerHello.
  destruct (server_fields (byte_xor (byte_of padLen) (snd (DerivePolymorphicMasks psk sid))) snonce t pad Hn Ht)
    as (-> & -> & ->).
  rewrite pad_unmask, bool_decide_true by (done || lia).
  rewrite len_cons, !len_app, !(proj2 (Z.ltb_ge _ _)), (proj2 (Z.eqb_eq _ _))
    by (unfold ServerHelloSize, MaxPolymorphicPadding; lia). done.
Qed.

(** ** Properties *)

(** the matcher prepared at start-up and the direct one authenticate the
    same hellos: both answer the first key, in the order of the list, whose
    padding mask gives a length of at most 64, whose tag over timestamp,
    nonce and padding length is the one in the header, and for which the
    timestamp is fresh; the special case for a single key included. *)
Theorem matchers_equivalent keys sid m header now r :
  NewPreparedClientHelloMatcher keys sid = Ok m -> 49 <= len header ->
  (MatchHeader m header now = Ok r <-> first_match keys sid header now r) /\
  (MatchPolymorphicClientHelloHeader header keys sid now = Ok r <-> first_match keys sid header now r).
Proof.
  intros Em Hh. split; [by eapply prepared_header_spec|by apply match_header_spec].
Qed.

(** no hello passes without the key: a match names a key of at least 32
    bytes for which the header carries the MAC of the domain, the server id,
    the returned timestamp, the returned nonce and the returned padding length,
    and a timestamp within 90 seconds of the server's clock. *)
Theorem hello_authentic header keys sid now i padLen nonce ts :
  49 <= len header ->
  MatchPolymorphicClientHelloHeader header keys sid now = Ok (i, padLen, nonce, ts) ->
  exists psk, keys !! i = Some psk /\ 32 <= len psk /\ 0 <= padLen <= 64 /\ nonce = slice 9 33 header /\
    slice 33 49 header =
      take 16 (hmac psk (DomainClientHello ++ sid ++ be 8 ts ++ nonce ++ [byte_of padLen])) /\
    exists k, - 90 <= k <= 90 /\ u64 now = u64 (ts + k).
Proof.
  intros Hh E. apply match_header_spec in E as (-> & (psk & Hl & Ha) & _); [|done].
  exists psk. unfold authenticates in Ha.
  set (pl := byteZ (byte_xor _ _)) in Ha. set (tb := xorBytes _ _) in Ha.
  assert (0 <= pl < 256) as Hpl by apply byteZ_range.
  assert (length tb = 8%nat) as Htb.
  { unfold tb. rewrite length_xorBytes; rewrite length_slice, ?length_tsMask; lia. }
  clearbody pl tb. destruct (_ || _) eqn:Ec in Ha; [done|]. injection Ha as -> <-. bool_to_prop.
  unfold MaxPolymorphicPadding, macOver in *. rewrite be_be_val by done.
  split_and!; try done; try lia. by apply (timestampExpired_spec MaxTimestampSkew).
Qed.

(** C4: client and server agree: when a client creates a polymorphic hello
    and a server that knows its key reads it, from a network that cuts the
    bytes in any way, with clocks at most 90 seconds apart and no earlier key
    matching by accident, the server identifies the client's key, learns the
    client's nonce and timestamp and leaves exactly the bytes after the hello;
    and the client accepts the server's answer to them, learns its nonce, and
    leaves exactly the bytes after it. *)
Theorem handshake_agreement keys sid m i psk now now' rnd hello nonce ts rnd' rs rest :
  NewPreparedClientHelloMatcher keys sid = Ok m -> keys !! i = Some psk ->
  CreatePolymorphicClientHello psk sid now rnd = Ok (hello, nonce, ts, rnd') ->
  - 90 <= now' - now <= 90 ->
  (forall j k, (j < i)%nat -> keys !! j = Some k -> authenticates k sid (take 49 hello) now' = None) ->
  delivers rs (hello ++ rest) ->
  exists rs', ReadAndMatch m rs now' = (Ok (i, nonce, ts), rs') /\ delivers rs' rest /\
    forall rnd2 answer snonce rnd2' rc rest2,
      CreatePolymorphicServerHello psk sid ts nonce rnd2 = Ok (answer, snonce, rnd2') ->
      delivers rc (answer ++ rest2) ->
      exists rc', ReadAndVerifyPolymorphicServerHello rc psk sid ts nonce = (Ok snonce, rc') /\
        delivers rc' rest2.
Proof.
  intros Em Hi Ec Hnow Hfirst Hd.
  destruct (create_client_header _ _ _ _ _ _ _ _ now' Ec Hnow)
    as (header & pad & padLen & -> & Hh & Hp & _ & -> & Ha).
  rewrite take_app_length' in Hfirst by lia. rewrite <- app_assoc in Hd.
  destruct (readAndMatchWith_ok (fun h => MatchHeader m h now') rs header pad rest i padLen
    (slice 9 33 header) ts) as (rs' & Hr & Hd'); [done..| |].
  { apply (prepared_header_spec keys sid); [done|lia|]. by eapply first_match_intro. }
  exists rs'. split_and!; [exact Hr|done|]. intros. by eapply read_server_hello.
Qed.

(** The records verified from memory, fixed and polymorphic, are those
    that were created: each verification accepts a created record within the
    window and returns its nonce and timestamp. *)
Theorem hello_records_roundtrip psk sid now now' rnd hello nonce ts rnd' phello pnonce pts rnd2 :
  CreateClientHello psk sid now rnd = Ok (hello, nonce, ts, rnd') ->
  CreatePolymorphicClientHello psk sid now rnd' = Ok (phello, pnonce, pts, rnd2) ->
  - 90 <= now' - now <= 90 ->
  VerifyClientHello psk sid hello now' = Ok (nonce, ts) /\
  VerifyPolymorphicClientHello psk sid phello now' = Ok (pnonce, pts) /\
  (forall rnd3 answer snonce rnd4, CreateServerHello psk sid ts nonce rnd3 = Ok (answer, snonce, rnd4) ->
     VerifyServerHello psk sid ts nonce answer = Ok snonce) /\
  (forall rnd3 answer snonce rnd4, CreatePolymorphicServerHello psk sid ts nonce rnd3 = Ok (answer, snonce, rnd4) ->
     VerifyPolymorphicServerHello psk sid ts nonce answer = Ok snonce).
Proof.
  intros Ec Ep Hnow. split_and!; [by eapply verify_client_created|by eapply verify_poly_client_created| |].
  - intros. by eapply verify_server_created.
  - intros. by eapply verify_poly_server_created.
Qed.

End HandshakeProofs.

(** ** Witnesses *)

Definition key1 : list byte := bs "0123456789abcdef0123456789abcdef".
Definition key2 : list byte := bs "another-user-with-another-secret-key".
Definition sampleRandom : reader := [RD (replicate 40 Byte.x05) None; RD (replicate 100 Byte.x37) None].

Definition sampleCreated := CreatePolymorphicClientHello key2 (bs "srv") 1700000000 sampleRandom.
Definition sampleHello : list byte := okOr [] (let? (h, _, _, _) := sampleCreated in Ok h).
Definition sampleNonce : list byte := okOr [] (let? (_, n, _, _) := sampleCreated in Ok n).
Definition sampleRest : reader := okOr [] (let? (_, _, _, r) := sampleCreated in Ok r).

Lemma sampleCreated_ok : sampleCreated = Ok (sampleHello, sampleNonce, 1700000000, sampleRest).
Proof. vm_compute. reflexivity. Qed.

Definition sampleMatcher : PreparedClientHelloMatcher :=
  okOr (mkMatcher [] [] []) (NewPreparedClientHelloMatcher [key1; key2] (bs "srv")).

Lemma sampleMatcher_ok : NewPreparedClientHelloMatcher [key1; key2] (bs "srv") = Ok sampleMatcher.
Proof. vm_compute. reflexivity. Qed.

Lemma matchers_equivalent_witness :
  MatchHeader sampleMatcher (take 49 sampleHello) 1700000060 = Ok (1%nat, 5, sampleNonce, 1700000000) /\
  first_match [key1; key2] (bs "srv") (take 49 sampleHello) 1700000060 (1%nat, 5, sampleNonce, 1700000000).
Proof.
  assert (MatchHeader sampleMatcher (take 49 sampleHello) 1700000060 = Ok (1%nat, 5, sampleNonce, 1700000000)) as E
    by (vm_compute; reflexivity).
  assert (49 <= len (take 49 sampleHello)) as Hl by (vm_compute; discriminate).
  exact (conj E (proj1 (proj1 (matchers_equivalent [key1; key2] (bs "srv") sampleMatcher
    (take 49 sampleHello) 1700000060 (1%nat, 5, sampleNonce, 1700000000) sampleMatcher_ok Hl)) E)).
Defined.

Lemma hello_authentic_witness :
  exists psk, [key1; key2] !! 1%nat = Some psk /\ 32 <= len psk.
Proof.
  destruct (hello_authentic (take 49 sampleHello) [key1; key2] (bs "srv") 1700000060 1 5 sampleNonce 1700000000)
    as (psk & H1 & H2 & _).
  - vm_compute. discriminate.
  - vm_compute. reflexivity.
  - exists psk. exact (conj H1 H2).
Defined.

Lemma handshake_agreement_witness :
  exists rs', ReadAndMatch sampleMatcher [RD (take 20 sampleHello) None; RD (drop 20 sampleHello ++ bs "data") None]
    1700000060 = (Ok (1%nat, sampleNonce, 1700000000), rs') /\ delivers rs' (bs "data").
Proof.
  destruct (handshake_agreement [key1; key2] (bs "srv") sampleMatcher 1 key2 1700000000 1700000060 sampleRandom
    sampleHello sampleNonce 1700000000 sampleRest
    [RD (take 20 sampleHello) None; RD (drop 20 sampleHello ++ bs "data") None] (bs "data"))
    as (rs' & H1 & H2 & _).
  - exact sampleMatcher_ok.
  - reflexivity.
  - exact sampleCreated_ok.
  - lia.
  - intros j k Hj Hk. assert (j = 0%nat) as -> by lia. injection Hk as <-. vm_compute. reflexivity.
  - split; [by repeat constructor|vm_compute; reflexivity].
  - exists rs'. exact (conj H1 H2).
Defined.

Definition sampleFixed := CreateClientHello key2 (bs "srv") 1700000000 sampleRandom.
Definition fixedHello : list byte := okOr [] (let? (h, _, _, _) := sampleFixed in Ok h).
Definition fixedNonce : list byte := okOr [] (let? (_, n, _, _) := sampleFixed in Ok n).
Definition fixedRest : reader := okOr [] (let? (_, _, _, r) := sampleFixed in Ok r).

Lemma hello_records_roundtrip_witness :
  CreateClientHello key2 (bs "srv") 1700000000 sampleRandom = Ok (fixedHello, fixedNonce, 1700000000, fixedRest) /\
  VerifyClientHello key2 (bs "srv") fixedHello 1699999950 = Ok (fixedNonce, 1700000000).
Proof.
  assert (CreateClientHello key2 (bs "srv") 1700000000 sampleRandom =
    Ok (fixedHello, fixedNonce, 1700000000, fixedRest)) as E by (vm_compute; reflexivity).
  split; [exact E|].
  destruct (CreatePolymorphicClientHello key2 (bs "srv") 1700000000 fixedRest) as [[[[h n] t] r]|e] eqn:Ep.
  - destruct (hello_records_roundtrip key2 (bs "srv") 1700000000 1699999950 sampleRandom fixedHello fixedNonce
      1700000000 fixedRest h n t r) as (Hv & _); [exact E|exact Ep|lia|exact Hv].
  - exfalso. vm_compute in Ep. discriminate Ep.
Defined.
