(* ===== verification/RawOpen.v ===== *)
(** * The 0-RTT OPEN frame of [internal/rawstream] (frame.go)

    The padded plaintext with the target address and the first payload bytes,
    its encryption under the 0-RTT key, and the padding lengths drawn with
    [crypto/rand]'s [Int]. *)
From S2P Require Import Prelude GoIO GoNet Crypto Address RawHandshake.

Open Scope Z_scope.

(** ** The code *)

Definition encodeTargetAddress (address : gostring) : result (list byte) :=
  let? (host, port) := splitTarget 1 (Errorf "invalid address") (Errorf "invalid port") address in
  let? buf := appendHost (Errorf "invalid domain length") host in
  Ok (buf ++ be 2 port).

Definition decodeTargetAddress (b : list byte) : result (gostring * Z) :=
  if len b <? 1 + 4 + 2 then Fail ErrInvalidOpenFrame
  else
    let atyp := at_ b 0 in
    if bool_decide (atyp = atypIPv4) then
      if len b <? 1 + 4 + 2 then Fail ErrInvalidOpenFrame
      else
        let port := be_val (slice 5 7 b) in
        Ok (JoinHostPort (IPString (slice 1 5 b)) (Itoa port), 7)
    else if bool_decide (atyp = atypIPv6) then
      if len b <? 1 + 16 + 2 then Fail ErrInvalidOpenFrame
      else
        let port := be_val (slice 17 19 b) in
        Ok (JoinHostPort (IPString (slice 1 17 b)) (Itoa port), 19)
    else if bool_decide (atyp = atypDomain) then
      let domainLen := byteZ (at_ b 1) in
      if (domainLen =? 0) || (len b <? 2 + domainLen + 2) then Fail ErrInvalidOpenFrame
      else
        let domain := ztake domainLen (drop 2 b) in
        let port := be_val (take 2 (zdrop domainLen (drop 2 b))) in
        Ok (JoinHostPort domain (Itoa port), 2 + domainLen + 2)
    else Fail ErrInvalidAddress.

(** [rand.Int(rand.Reader, max)]: [k] bytes masked to the bit length of
    [max - 1], drawn again until below [max].  Each turn of the loop consumes
    at least one byte of the source or fails. *)
Fixpoint randIntLoop (fuel : nat) (k b max : Z) (rnd : reader) : option (Z * reader) :=
  match fuel with
  | O => None
  | S fuel =>
      match ReadFull k rnd with
      | (_, Some _, _) => None
      | (bytes, None, rnd') =>
          let top := byte_of (Z.land (byteZ (at_ bytes 0)) (2 ^ b - 1)) in
          let n := be_val (top :: drop 1 bytes) in
          if n <? max then Some (n, rnd') else randIntLoop fuel k b max rnd'
      end
  end.

Definition randInt (max : Z) (rnd : reader) : option (Z * reader) :=
  let bitLen := if max - 1 =? 0 then 0 else Z.log2 (max - 1) + 1 in
  if bitLen =? 0 then Some (0, rnd)
  else
    let k := (bitLen + 7) / 8 in
    let b := if bitLen mod 8 =? 0 then 8 else bitLen mod 8 in
    randIntLoop (S (length (rd_content rnd))) k b max rnd.

(** The panic of [rand.Int] for [max <= 0]. *)
Definition panicRandInt := Errorf "panic: crypto/rand: argument to Int is <= 0".

Definition Encode0RTTOpenFrame (target : gostring) (initialPayload : list byte) (minPad maxPad : Z)
    (rnd : reader) : result (list byte * reader) :=
  let minPad := if minPad <? 0 then DefaultMinPadding else minPad in
  let maxPad := if maxPad <? minPad then DefaultMaxPadding else maxPad in
  let padSpan := maxPad - minPad + 1 in
  if padSpan <=? 0 then Fail panicRandInt
  else
    match randInt padSpan rnd with
    | None => Fail (Errorf "rawstream: rand padding")
    | Some (nBig, rnd1) =>
        let paddingLen := minPad + nBig in
        let? (padding, rnd2) := randBytes "rawstream: fill padding" paddingLen rnd1 in
        let? targetBytes := encodeTargetAddress target in
        Ok (be 2 (u16 paddingLen) ++ padding ++ targetBytes ++ initialPayload, rnd2)
    end.

Definition Decode0RTTOpenFrame (plaintext : list byte) : result (gostring * list byte) :=
  if len plaintext <? 2 then Fail ErrInvalidOpenFrame
  else
    let paddingLen := be_val (slice 0 2 plaintext) in
    if len plaintext <? 2 + paddingLen then Fail ErrInvalidOpenFrame
    else
      let rest := zdrop (2 + paddingLen) plaintext in
      let? (target, consumed) := decodeTargetAddress rest in
      Ok (target, zdrop consumed rest).

Section Chunk.
  Context `{Crypto}.

(** The fixed zero nonce. *)
Definition zeroNonce : list byte := replicate 12 Byte.x00.

Definition Encrypt0RTTChunk (k0RTT plaintext : list byte) : list byte :=
  seal AESGCM k0RTT zeroNonce plaintext [].

Definition Decrypt0RTTChunk (k0RTT ciphertext : list byte) : option (list byte) :=
  open AESGCM k0RTT zeroNonce ciphertext [].

End Chunk.

(** ** Addresses *)

Lemma encodeTargetAddress_inv address b :
  encodeTargetAddress address = Ok b ->
  exists host port h, splitTarget 1 (Errorf "invalid address") (Errorf "invalid port") address = Ok (host, port) /\
    1 <= port <= 65535 /\ encodedHost host h /\ b = h ++ be 2 port.
Proof.
  unfold encodeTargetAddress. destruct (splitTarget 1 _ _ address) as [[host port]|] eqn:Es; [|done].
  destruct (appendHost _ host) as [h|] eqn:Eh; [|done]. intros [= <-].
  exists host, port, h. apply splitTarget_ok in Es as [Hp _].
  split_and!; [done|lia..|by eapply appendHost_encoded|done].
Qed.

Lemma decode_v4 q port rest :
  length q = 4%nat -> is_u16 port ->
  decodeTargetAddress (atypIPv4 :: q ++ be 2 port ++ rest) = Ok (JoinHostPort (IPString q) (Itoa port), 7).
Proof.
  intros Hq Hp. unfold decodeTargetAddress. set (b := atypIPv4 :: _).
  assert (7 <= len b) by (unfold b; len_simpl; lia).
  assert (slice 1 5 b = q) as -> by (apply (slice_field 1 5 [atypIPv4] q); cbn; lia).
  assert (slice 5 7 b = be 2 port) as ->
    by (apply (slice_field2 5 7 [atypIPv4] q); rewrite ?length_be; cbn; lia).
  rewrite !(proj2 (Z.ltb_ge (len b) _)) by lia. by rewrite be_val_be2.
Qed.

Lemma decode_v6 ip port rest :
  length ip = 16%nat -> is_u16 port ->
  decodeTargetAddress (atypIPv6 :: ip ++ be 2 port ++ rest) = Ok (JoinHostPort (IPString ip) (Itoa port), 19).
Proof.
  intros Hq Hp. unfold decodeTargetAddress. set (b := atypIPv6 :: _).
  assert (19 <= len b) by (unfold b; len_simpl; lia).
  assert (slice 1 17 b = ip) as -> by (apply (slice_field 1 17 [atypIPv6] ip); cbn; lia).
  assert (slice 17 19 b = be 2 port) as ->
    by (apply (slice_field2 17 19 [atypIPv6] ip); rewrite ?length_be; cbn; lia).
  rewrite !(proj2 (Z.ltb_ge (len b) _)) by lia. by rewrite be_val_be2.
Qed.

Lemma decode_domain host port rest :
  0 < len host <= 255 -> is_u16 port ->
  decodeTargetAddress (atypDomain :: byte_of (len host) :: host ++ be 2 port ++ rest) =
  if len host + len rest <? 3 then Fail ErrInvalidOpenFrame
  else Ok (JoinHostPort host (Itoa port), 4 + len host).
Proof.
  intros Hh Hp. unfold decodeTargetAddress. set (b := atypDomain :: _).
  assert (len b = 4 + len host + len rest) as Hb by (unfold b; len_simpl; lia).
  change (at_ b 0) with atypDomain. change (at_ b 1) with (byte_of (len host)).
  change (drop 2 b) with (host ++ be 2 port ++ rest). rewrite byteZ_len by lia.
  rewrite ztake_app, zdrop_app by done. rewrite take_app_length', be_val_be2 by (by rewrite ?length_be).
  rewrite Hb. destruct (Z.ltb_spec (len host + len rest) 3).
  - rewrite (proj2 (Z.ltb_lt _ _)) by lia. done.
  - rewrite (proj2 (Z.ltb_ge _ _)) by lia. change (bool_decide _) with false at 1.
    change (bool_decide (atypDomain = atypIPv6)) with false.
    change (bool_decide (atypDomain = atypDomain)) with true. cbv iota.
    rewrite (proj2 (Z.eqb_neq _ _)), (proj2 (Z.ltb_ge _ _)) by lia. cbn [orb]. do 2 f_equal. lia.
Qed.

(** What decoding makes of an encoded address: the canonical address, except
    that the seven-byte minimum refuses short domains without payload. *)
Lemma decode_encoded host h port rest :
  encodedHost host h -> 1 <= port <= 65535 -> 3 <= len host + len rest \/ atypDomain <> at_ h 0 ->
  decodeTargetAddress (h ++ be 2 port ++ rest) = Ok (canonicalAddress host port, len h + 2).
Proof.
  intros He Hp Hl. assert (is_u16 port) by (unfold is_u16; lia). unfold canonicalAddress.
  destruct He as [q Hq Hc|ip Hi Hc|Hh Hc]; rewrite Hc.
  - cbn [app]. rewrite decode_v4 by done. do 2 f_equal. rewrite len_cons. lia.
  - cbn [app]. rewrite decode_v6 by done. do 2 f_equal. rewrite len_cons. lia.
  - cbn [app]. rewrite decode_domain by done.
    destruct Hl as [Hl|Hl]; [|done]. rewrite (proj2 (Z.ltb_ge _ _)) by lia.
    do 2 f_equal. rewrite !len_cons. lia.
Qed.

(** ** Padding *)

Lemma randIntLoop_range fuel k b max rnd n rnd' :
  randIntLoop fuel k b max rnd = Some (n, rnd') -> 0 <= n < max.
Proof.
  revert rnd. induction fuel as [|fuel IH]; intros rnd E; cbn [randIntLoop] in E; [done|].
  destruct (ReadFull k rnd) as [[bytes [e|]] r] eqn:Er; [done|].
  destruct (Z.ltb_spec (be_val (byte_of (Z.land (byteZ (at_ bytes 0)) (2 ^ b - 1)) :: drop 1 bytes)) max);
    [|by eapply IH].
  injection E as <- _. split; [apply be_val_range|done].
Qed.

Lemma randInt_range max rnd n rnd' : 0 < max -> randInt max rnd = Some (n, rnd') -> 0 <= n < max.
Proof.
  unfold randInt. intros Hm E. destruct (_ =? 0) eqn:Eb in E at 1.
  - injection E as <- _. lia.
  - by eapply randIntLoop_range.
Qed.

(** The loop of [rand.Int] never needs more turns than the source has bytes:
    with the fuel of [randInt] it stops on a value or on an error of the
    source. *)
Lemma ReadFull_consumes k rnd b rnd' :
  0 < k -> ReadFull k rnd = (b, None, rnd') -> len (rd_content rnd') = len (rd_content rnd) - k.
Proof.
  intros Hk E. unfold ReadFull in E.
  destruct (ReadFull_loop k rnd) as [[b0 e0] r0] eqn:El.
  assert (e0 = None /\ r0 = rnd') as [-> ->] by (inv_fun E; done). clear E b.
  revert k Hk b0 El. induction rnd as [|[c e] rnd IH]; intros k Hk b0 El; cbn [ReadFull_loop] in El.
  { rewrite (proj2 (Z.leb_gt k 0)) in El by lia. done. }
  rewrite (proj2 (Z.leb_gt k 0)) in El by lia. rewrite rd_content_cons, len_app. cbn [rd_bytes].
  destruct (Z.leb_spec (len c) k).
  - destruct (Z.eqb_spec (len c) k); [injection El as _ <-; lia|].
    destruct e; [done|]. destruct (ReadFull_loop (k - len c) rnd) as [[b1 e1] r1] eqn:E1.
    injection El as _ -> ->. rewrite (IH (k - len c)) with (b0 := b1) by (done || lia). lia.
  - injection El as _ <-. rewrite rd_content_cons, len_app. cbn [rd_bytes]. rewrite len_zdrop by lia. lia.
Qed.

Lemma randIntLoop_stops fuel k b max rnd :
  0 < k -> len (rd_content rnd) < Z.of_nat fuel -> randIntLoop fuel k b max rnd = None ->
  exists rnd' bytes e r, ReadFull k rnd' = (bytes, Some e, r).
Proof.
  revert rnd. induction fuel as [|fuel IH]; intros rnd Hk Hf E; [lia|]. cbn [randIntLoop] in E.
  destruct (ReadFull k rnd) as [[bytes [e|]] r] eqn:Er; [by eauto|].
  destruct (_ <? max); [done|]. apply ReadFull_consumes in Er; [|done]. apply (IH r); [done|lia|done].
Qed.

(** ** The frame *)

(** The parts of an encoded frame. *)
Lemma Encode0RTT_padding B target payload minPad maxPad rnd frame rnd' :
  Encode0RTTOpenFrame target payload minPad maxPad rnd = Ok (frame, rnd') -> maxPad <= B -> 256 <= B <= 65535 ->
  exists padding b, encodeTargetAddress target = Ok b /\ len padding <= B /\
    frame = be 2 (len padding) ++ padding ++ b ++ payload.
Proof.
  unfold Encode0RTTOpenFrame. intros E Hmax HB.
  set (mi := if minPad <? 0 then _ else _) in E. set (ma := if maxPad <? mi then _ else _) in E.
  assert (0 <= mi) as Hmi by (unfold mi, DefaultMinPadding; destruct (Z.ltb_spec minPad 0); lia).
  assert (ma <= B) as Hma by (unfold ma, DefaultMaxPadding; destruct (Z.ltb_spec maxPad mi); lia).
  destruct (Z.leb_spec (ma - mi + 1) 0); [done|].
  destruct (randInt (ma - mi + 1) rnd) as [[nb r1]|] eqn:Ei; [|done].
  apply randInt_range in Ei; [|lia].
  destruct (randBytes _ (mi + nb) r1) as [[padding r2]|] eqn:Ep; [|done].
  apply randBytes_ok in Ep; [|lia].
  destruct (encodeTargetAddress target) as [b|] eqn:Eb; [|done]. injection E as <- _.
  exists padding, b. split_and!; [done|lia|]. rewrite u16_id, Ep by (unfold is_u16; lia). done.
Qed.

Lemma Encode0RTT_inv target payload minPad maxPad rnd frame rnd' :
  Encode0RTTOpenFrame target payload minPad maxPad rnd = Ok (frame, rnd') -> maxPad <= 65535 ->
  exists padding b, encodeTargetAddress target = Ok b /\ len padding <= 65535 /\
    frame = be 2 (len padding) ++ padding ++ b ++ payload.
Proof. intros E Hm. by eapply Encode0RTT_padding. Qed.

Lemma Decode0RTT_frame padding rest :
  len padding <= 65535 ->
  Decode0RTTOpenFrame (be 2 (len padding) ++ padding ++ rest) =
  let? (target, consumed) := decodeTargetAddress rest in Ok (target, zdrop consumed rest).
Proof.
  intros Hp. unfold Decode0RTTOpenFrame. rewrite slice_head by (by rewrite length_be).
  rewrite be_val_be2 by (unfold is_u16; lia). rewrite !len_app, len_be.
  rewrite !(proj2 (Z.ltb_ge _ _)) by lia.
  rewrite app_assoc, zdrop_app by (rewrite len_app, len_be; lia). done.
Qed.

(** ** Properties *)

(** the server decodes from an OPEN frame the target the client asked
    for (in canonical form) and exactly the first payload bytes, whatever
    padding was drawn, provided the domain and the payload have at least three
    bytes together (IP targets always do); the frame survives the 0-RTT
    encryption. *)
Theorem open_frame_roundtrip `{Crypto} target payload minPad maxPad rnd frame rnd' k0RTT :
  Encode0RTTOpenFrame target payload minPad maxPad rnd = Ok (frame, rnd') -> maxPad <= 65535 ->
  Decrypt0RTTChunk k0RTT (Encrypt0RTTChunk k0RTT frame) = Some frame /\
  exists host port,
    splitTarget 1 (Errorf "invalid address") (Errorf "invalid port") target = Ok (host, port) /\
    (3 <= len host + len payload ->
     Decode0RTTOpenFrame frame = Ok (canonicalAddress host port, payload)).
Proof.
  intros E Hmax. split; [apply open_seal|].
  apply Encode0RTT_inv in E as (padding & b & Eb & Hp & ->); [|done].
  apply encodeTargetAddress_inv in Eb as (host & port & h & Es & Hport & He & ->).
  exists host, port. split; [done|]. intros Hl. rewrite Decode0RTT_frame by done.
  rewrite <- app_assoc, (decode_encoded host) by (done || by left).
  rewrite app_assoc, zdrop_app by (rewrite len_app, len_be; lia). done.
Qed.

(** C40: an OPEN frame for a domain of one or two bytes with too little
    payload is one the server refuses, although the client's encoder produces
    it: the decoder demands seven bytes before it looks at the address type. *)
Theorem open_frame_short_domain_refused target payload minPad maxPad rnd frame rnd' host port :
  Encode0RTTOpenFrame target payload minPad maxPad rnd = Ok (frame, rnd') -> maxPad <= 65535 ->
  splitTarget 1 (Errorf "invalid address") (Errorf "invalid port") target = Ok (host, port) ->
  ParseIP host = None -> len host + len payload < 3 ->
  Decode0RTTOpenFrame frame = Fail ErrInvalidOpenFrame.
Proof.
  intros E Hmax Es Hip Hl.
  apply Encode0RTT_inv in E as (padding & b & Eb & Hp & ->); [|done].
  unfold encodeTargetAddress in Eb. rewrite Es in Eb. unfold appendHost in Eb. rewrite Hip in Eb.
  destruct (_ || _) eqn:Ec in Eb; [done|]. bool_to_prop.
  assert (b = (atypDomain :: byte_of (len host) :: host) ++ be 2 port) as -> by congruence.
  apply splitTarget_ok in Es as [Hport _].
  rewrite Decode0RTT_frame by done. cbn [app].
  rewrite <- app_assoc, decode_domain by (unfold is_u16; lia).
  rewrite (proj2 (Z.ltb_lt _ _)) by lia. done.
Qed.

(** ** Witnesses *)

Definition openRandom : reader := [RD (replicate 300 Byte.x09) None].
Definition openSample (target : gostring) (payload : list byte) : list byte :=
  okOr [] (let? (f, _) := Encode0RTTOpenFrame target payload 32 256 openRandom in Ok f).
Definition openSampleRest : reader :=
  okOr [] (let? (_, r) := Encode0RTTOpenFrame (bs "[2001:db8::7]:443") (bs "GET") 32 256 openRandom in Ok r).

Lemma open_frame_roundtrip_witness :
  Decode0RTTOpenFrame (openSample (bs "[2001:db8::7]:443") (bs "GET")) =
    Ok (bs "[2001:db8::7]:443", bs "GET") /\
  exists host port, splitTarget 1 (Errorf "invalid address") (Errorf "invalid port") (bs "[2001:db8::7]:443") = Ok (host, port).
Proof.
  split; [vm_compute; reflexivity|].
  destruct (open_frame_roundtrip (bs "[2001:db8::7]:443") (bs "GET") 32 256 openRandom
    (openSample (bs "[2001:db8::7]:443") (bs "GET")) openSampleRest key1) as (_ & host & port & E & _).
  - vm_compute. reflexivity.
  - lia.
  - exists host, port. exact E.
Defined.

Lemma open_frame_short_domain_refused_witness :
  Decode0RTTOpenFrame (openSample (bs "a:80") []) = Fail ErrInvalidOpenFrame.
Proof.
  apply (open_frame_short_domain_refused (bs "a:80") [] 32 256 openRandom _
    (okOr [] (let? (_, r) := Encode0RTTOpenFrame (bs "a:80") [] 32 256 openRandom in Ok r)) (bs "a") 80).
  - vm_compute. reflexivity.
  - lia.
  - vm_compute. reflexivity.
  - vm_compute. reflexivity.
  - vm_compute. reflexivity.
Defined.
