(* ===== verification/Records.v ===== *)
(** * Streams of sealed records

    What [internal/rawstream] and [internal/h1session] share: a byte stream cut
    into records, each a two-byte length and an AEAD body sealed under the
    number of the record, ended by a sealed empty record.  [RecordLayer] is the
    interface between the framing and the cipher; [parse_records] is the
    meaning of a wire; [Reader] is the record reader of
    [h1session/stream.go], which the one of [rawstream/stream.go] is shown to
    simulate in [RawStream].  Reads are resumable: a read deadline may fire in
    the middle of a header or of a body. *)
From S2P Require Import Prelude GoIO.

Open Scope Z_scope.

(** ** The interface to the cipher *)

Record RecordLayer := mkLayer {
  maxPayload : Z;
  rseal : Z -> list byte -> list byte;
  ropen : Z -> list byte -> option (list byte);
  errDecrypt : error;
  errTooLarge : error;
  maxPayload_range : 0 < maxPayload < 65536 - 16;
  (** Records are opened by their number; the last number may be refused. *)
  ropen_seal : forall s p, 0 <= s < 2 ^ 64 - 1 -> len p <= maxPayload -> ropen s (rseal s p) = Some p;
  ropen_sound : forall s c p, ropen s c = Some p -> c = rseal s p;
  rseal_length : forall s p, len (rseal s p) = len p + 16;
  errDecrypt_final : is_timeout errDecrypt = false /\ errDecrypt <> EOF;
  errTooLarge_final : is_timeout errTooLarge = false /\ errTooLarge <> EOF;
}.

(** One record, and the records of a list of chunks from number [s] on. *)
Definition record (L : RecordLayer) (s : Z) (p : list byte) : list byte :=
  be 2 (len p + 16) ++ rseal L s p.

Fixpoint records (L : RecordLayer) (s : Z) (chunks : list (list byte)) : list byte :=
  match chunks with
  | [] => []
  | p :: rest => record L s p ++ records L (u64 (s + 1)) rest
  end.

(** The chunks a writer may send as data. *)
Definition data_chunks (L : RecordLayer) (chunks : list (list byte)) : Prop :=
  Forall (fun p => 0 < len p <= maxPayload L) chunks.

(** ** The meaning of a wire *)

Fixpoint parse_fuel (L : RecordLayer) (fuel : nat) (s : Z) (w : list byte) : list byte * error :=
  match fuel with
  | O => ([], ErrUnexpectedEOF)
  | S fuel' =>
      if len w <? 2 then ([], ErrUnexpectedEOF)
      else
        let n := be_val (ztake 2 w) in
        if n <? 16 then ([], errDecrypt L)
        else if maxPayload L + 16 <? n then ([], errTooLarge L)
        else if len (zdrop 2 w) <? n then ([], ErrUnexpectedEOF)
        else
          match ropen L s (ztake n (zdrop 2 w)) with
          | None => ([], errDecrypt L)
          | Some [] => ([], EOF)
          | Some p =>
              let '(d, e) := parse_fuel L fuel' (u64 (s + 1)) (zdrop n (zdrop 2 w)) in
              (p ++ d, e)
          end
  end.

Definition parse_records (L : RecordLayer) (s : Z) (w : list byte) : list byte * error :=
  parse_fuel L (S (length w)) s w.

#[global] Arguments parse_records : simpl never.

(** ** The reader (h1session's [FramedReader]) *)

(** [hdrBuf[:headerRead]] and [rawBuf[:bodyRead]] are kept as the bytes read so
    far; [decBuf] as the bytes not yet handed out. *)
Record Reader := mkReader {
  rr_r : reader;
  rr_seq : Z;
  rr_hdr : list byte;
  rr_body : list byte;
  rr_dec : list byte;
  rr_terminal : option error;
}.

Definition NewReader (r : reader) : Reader := mkReader r 0 [] [] [] None.

(** [readError]: a time-out leaves the state resumable. *)
Definition readError (err : error) : error * option error :=
  if is_timeout err then (err, None)
  else
    let err := match err with EOF | ErrUnexpectedEOF => ErrUnexpectedEOF | _ => err end in
    (err, Some err).

(** [Read] from the point where the header is complete. *)
Definition readBody (L : RecordLayer) (plen : Z) (r : Reader) : list byte * option error * Reader :=
  let wireLen := be_val (rr_hdr r) in
  let stop e := ([], Some e, mkReader (rr_r r) (rr_seq r) (rr_hdr r) (rr_body r) [] (Some e)) in
  if wireLen <? 16 then stop (errDecrypt L)
  else if maxPayload L + 16 <? wireLen then stop (errTooLarge L)
  else
    let '(b, readErr, rd) := ReadFull (wireLen - len (rr_body r)) (rr_r r) in
    let raw := rr_body r ++ b in
    match readErr with
    | Some err =>
        let '(err', terminal) := readError err in
        ([], Some err', mkReader rd (rr_seq r) (rr_hdr r) raw [] terminal)
    | None =>
        match ropen L (rr_seq r) raw with
        | None =>
            ([], Some (errDecrypt L),
             mkReader rd (u64 (rr_seq r + 1)) (rr_hdr r) raw [] (Some (errDecrypt L)))
        | Some [] => ([], Some EOF, mkReader rd (u64 (rr_seq r + 1)) [] [] [] (Some EOF))
        | Some p =>
            let n := Z.min plen (len p) in
            (ztake n p, None, mkReader rd (u64 (rr_seq r + 1)) [] [] (zdrop n p) None)
        end
    end.

Definition Reader_Read (L : RecordLayer) (r : Reader) (plen : Z) : list byte * option error * Reader :=
  if plen =? 0 then ([], None, r)
  else if 0 <? len (rr_dec r) then
    let n := Z.min plen (len (rr_dec r)) in
    (ztake n (rr_dec r), None,
     mkReader (rr_r r) (rr_seq r) (rr_hdr r) (rr_body r) (zdrop n (rr_dec r)) (rr_terminal r))
  else
    match rr_terminal r with
    | Some e => ([], Some e, r)
    | None =>
        if len (rr_hdr r) <? 2 then
          let '(b, err, rd) := ReadFull (2 - len (rr_hdr r)) (rr_r r) in
          let hdr := rr_hdr r ++ b in
          match err with
          | Some e =>
              let '(e', terminal) := readError e in
              ([], Some e', mkReader rd (rr_seq r) hdr (rr_body r) [] terminal)
          | None => readBody L plen (mkReader rd (rr_seq r) hdr (rr_body r) [] None)
          end
        else readBody L plen r
    end.

(** A consumer with buffers of [plen] bytes that retries after a deadline and
    stops at any other error. *)
Fixpoint readAll (L : RecordLayer) (fuel : nat) (r : Reader) (plen : Z) : list byte * option error :=
  match fuel with
  | O => ([], None)
  | S fuel' =>
      let '(b, err, r') := Reader_Read L r plen in
      match err with
      | Some e =>
          if is_timeout e then let '(b', e') := readAll L fuel' r' plen in (b ++ b', e')
          else (b, Some e)
      | None => let '(b', e') := readAll L fuel' r' plen in (b ++ b', e')
      end
  end.

(** Enough turns for every schedule: one for each byte and each event. *)
Definition readFuel (r : reader) : nat := S (length (rd_content r) + length r).

(** ** The reference parser *)

Section Layer.
  Context (L : RecordLayer).

Lemma parse_fuel_enough f1 f2 s w :
  (length w < f1)%nat -> (length w < f2)%nat -> parse_fuel L f1 s w = parse_fuel L f2 s w.
Proof.
  revert f2 s w. induction f1 as [|f1 IH]; intros f2 s w H1 H2; [lia|].
  destruct f2 as [|f2]; [lia|]. cbn [parse_fuel].
  destruct (Z.ltb_spec (len w) 2); [done|].
  destruct (be_val (ztake 2 w) <? 16); [done|].
  destruct (maxPayload L + 16 <? be_val (ztake 2 w)); [done|].
  destruct (Z.ltb_spec (len (zdrop 2 w)) (be_val (ztake 2 w))); [done|].
  destruct (ropen L s _) as [[|x p]|]; [done| |done].
  rewrite (IH f2); [done| |]; unfold zdrop; rewrite !length_drop; lia.
Qed.

Lemma parse_short s w : len w < 2 -> parse_records L s w = ([], ErrUnexpectedEOF).
Proof. intros. unfold parse_records. cbn. by rewrite (proj2 (Z.ltb_lt _ _)). Qed.

(** The meaning of a wire that starts with a complete header. *)
Lemma parse_header s h w :
  len h = 2 ->
  parse_records L s (h ++ w) =
    let n := be_val h in
    if n <? 16 then ([], errDecrypt L)
    else if maxPayload L + 16 <? n then ([], errTooLarge L)
    else if len w <? n then ([], ErrUnexpectedEOF)
    else
      match ropen L s (ztake n w) with
      | None => ([], errDecrypt L)
      | Some [] => ([], EOF)
      | Some p => let '(d, e) := parse_records L (u64 (s + 1)) (zdrop n w) in (p ++ d, e)
      end.
Proof.
  intros Hh. unfold parse_records at 1. cbn [parse_fuel].
  rewrite (proj2 (Z.ltb_ge _ _)) by (rewrite len_app; lia).
  rewrite ztake_app, zdrop_app by done. cbv zeta.
  destruct (be_val h <? 16); [done|]. destruct (maxPayload L + 16 <? be_val h); [done|].
  destruct (Z.ltb_spec (len w) (be_val h)); [done|].
  destruct (ropen L s _) as [[|x p]|]; [done| |done].
  rewrite (parse_fuel_enough _ (S (length (zdrop (be_val h) w)))); [done| |lia].
  unfold zdrop. rewrite length_drop, length_app. lia.
Qed.

Lemma len_record s p : len (record L s p) = len p + 18.
Proof. unfold record. rewrite len_app, len_be, rseal_length. lia. Qed.

(** A record contributes its plaintext. *)
Lemma parse_record s p w :
  0 <= s < 2 ^ 64 - 1 -> len p <= maxPayload L ->
  parse_records L s (record L s p ++ w) =
    match p with
    | [] => ([], EOF)
    | _ => let '(d, e) := parse_records L (u64 (s + 1)) w in (p ++ d, e)
    end.
Proof.
  intros Hs Hp. pose proof (maxPayload_range L). unfold record. rewrite <- app_assoc, parse_header by apply len_be.
  cbv zeta. rewrite be_val_be2 by (unfold is_u16; lia).
  rewrite (proj2 (Z.ltb_ge _ _)), (proj2 (Z.ltb_ge _ _)), (proj2 (Z.ltb_ge _ _))
    by (rewrite ?len_app, ?rseal_length; lia).
  rewrite ztake_app, zdrop_app by (by rewrite rseal_length).
  rewrite ropen_seal by (done || lia). by destruct p.
Qed.

Lemma parse_data s chunks w :
  0 <= s -> s + len chunks <= 2 ^ 64 - 1 -> data_chunks L chunks ->
  parse_records L s (records L s chunks ++ w) =
    let '(d, e) := parse_records L (s + len chunks) w in (concat chunks ++ d, e).
Proof.
  revert s. induction chunks as [|p chunks IH]; intros s Hs Hn Hd; cbn [records].
  { cbn. rewrite Z.add_0_r. by destruct (parse_records L s w). }
  rewrite len_cons in *. apply Forall_cons in Hd as [Hp Hd].
  rewrite <- app_assoc, parse_record by lia. rewrite u64_id by (unfold is_u64; lia).
  rewrite IH by (done || lia). replace (s + 1 + len chunks) with (s + (1 + len chunks)) by lia.
  destruct p; [cbn in Hp; lia|]. destruct (parse_records L _ w). cbn [concat]. by rewrite app_assoc.
Qed.

Lemma records_app s a b :
  0 <= s -> s + len a < 2 ^ 64 -> records L s (a ++ b) = records L s a ++ records L (s + len a) b.
Proof.
  revert s. induction a as [|p a IH]; intros s Hs Ha; cbn [records app].
  { cbn. by rewrite Z.add_0_r. }
  rewrite len_cons in *. rewrite (u64_id (s + 1)) by (unfold is_u64; lia). rewrite IH by lia.
  rewrite <- app_assoc. do 3 f_equal. lia.
Qed.

(** A stream that was closed: data, then a clean end. *)
Lemma parse_closed chunks :
  len chunks < 2 ^ 64 - 1 -> data_chunks L chunks ->
  parse_records L 0 (records L 0 chunks ++ record L (len chunks) []) = (concat chunks, EOF).
Proof.
  intros Hn Hd. pose proof (maxPayload_range L). rewrite parse_data by (done || lia).
  rewrite <- (app_nil_r (record L _ [])), Z.add_0_l, parse_record by (cbn; lia).
  by rewrite app_nil_r.
Qed.

(** ** The reader computes the reference *)

(** What a reader will deliver when [w] is still to come. *)
Definition pending (r : Reader) (w : list byte) : list byte * error :=
  let '(d, e) :=
    match rr_terminal r with
    | Some e => ([], e)
    | None => parse_records L (rr_seq r) (rr_hdr r ++ rr_body r ++ w)
    end in
  (rr_dec r ++ d, e).

Record reader_wf (r : Reader) : Prop := {
  wf_hdr : len (rr_hdr r) <= 2;
  wf_body : rr_terminal r = None -> rr_body r <> [] ->
    len (rr_hdr r) = 2 /\ len (rr_body r) < be_val (rr_hdr r);
  wf_terminal : forall e, rr_terminal r = Some e -> is_timeout e = false;
}.

(** What is left to do: bytes to come, bytes buffered, events. *)
Definition backlog (r : Reader) (w : list byte) : nat :=
  (length w + length (rr_r r) + length (rr_hdr r) + length (rr_body r) + length (rr_dec r))%nat.

(** The outcome of a [Read] when [w] is to come: what was pending is what it
    returns followed by what is pending afterwards. *)
Definition read_step (r : Reader) (w : list byte) (out : list byte * option error * Reader) : Prop :=
  let '(b, e, r') := out in
  reader_wf r' /\
  exists w', carries (rr_r r') w' /\
  if match e with Some x => negb (is_timeout x) | None => false end
  then exists x, e = Some x /\ pending r w = (b, x)
  else pending r w = (let '(d, y) := pending r' w' in (b ++ d, y)) /\ (backlog r' w' < backlog r w)%nat.

Lemma ropen_bound s c p : ropen L s c = Some p -> len c = len p + 16.
Proof. intros ->%ropen_sound. apply rseal_length. Qed.

(** Only [parse_records] of the whole wire matters to [pending]. *)
Lemma pending_live r w :
  rr_terminal r = None -> rr_dec r = [] ->
  pending r w = parse_records L (rr_seq r) (rr_hdr r ++ rr_body r ++ w).
Proof. intros Ht Hd. unfold pending. rewrite Ht, Hd. by destruct (parse_records L _ _). Qed.

(** A [Read] that fails for good with the error that was pending. *)
Lemma read_step_final r w x rd seq hdr body :
  is_timeout x = false -> len hdr <= 2 -> pending r w = ([], x) -> carries rd w \/ rd = [] ->
  read_step r w ([], Some x, mkReader rd seq hdr body [] (Some x)).
Proof.
  intros Hx Hh Hp Hc. unfold read_step. rewrite Hx. cbn [negb]. split.
  - split; cbn; [done|done|by intros e [= <-]].
  - destruct Hc as [Hc| ->]; [exists w|exists []]; (split; [|by exists x]); [done|].
    split; [constructor|done].
Qed.

Lemma readBody_step r w plen :
  rr_terminal r = None -> rr_dec r = [] -> len (rr_hdr r) = 2 ->
  (rr_body r <> [] -> len (rr_body r) < be_val (rr_hdr r)) ->
  carries (rr_r r) w -> 0 < plen ->
  read_step r w (readBody L plen r).
Proof.
  intros Ht Hd Hh Hb Hc Hp. pose proof (pending_live r w Ht Hd) as Hpend.
  rewrite parse_header in Hpend by done. cbv zeta in Hpend.
  unfold readBody. cbv zeta.
  destruct (Z.ltb_spec (be_val (rr_hdr r)) 16) as [|H16].
  { apply read_step_final; [apply errDecrypt_final|lia|done|by left]. }
  destruct (Z.ltb_spec (maxPayload L + 16) (be_val (rr_hdr r))) as [|Hmax].
  { apply read_step_final; [apply errTooLarge_final|lia|done|by left]. }
  assert (0 < be_val (rr_hdr r) - len (rr_body r)) as Hn.
  { destruct (decide (rr_body r = [])) as [->|Hne]; [cbn; lia|]. specialize (Hb Hne). lia. }
  destruct (ReadFull_carries (be_val (rr_hdr r) - len (rr_body r)) (rr_r r) w)
    as (b & e & rd & w' & -> & -> & Hc' & Hle & Hcase); [lia|done|].
  destruct Hcase as [[-> Hlb]|[(te & -> & Hte & Hlb & Hlt)|(He & -> & -> & Hlb)]].
  - assert (len (rr_body r ++ b) = be_val (rr_hdr r)) as Hraw by (rewrite len_app; lia).
    rewrite app_assoc, (proj2 (Z.ltb_ge _ _)), ztake_app, zdrop_app in Hpend by (done || rewrite len_app; lia).
    destruct (ropen L (rr_seq r) (rr_body r ++ b)) as [[|x p]|] eqn:Eo.
    + unfold read_step. cbn. split; [by split; cbn; [lia|done|intros e [= <-]]|].
      exists w'. split; [done|]. by exists EOF.
    + unfold read_step. split; [by split; cbn|]. exists w'. split; [done|].
      set (n := Z.min plen (len (x :: p))). split.
      * rewrite Hpend. unfold pending. cbn [rr_terminal rr_seq rr_hdr rr_body rr_dec app].
        destruct (parse_records L _ w'). by rewrite app_assoc, ztake_zdrop.
      * unfold backlog. cbn [rr_r rr_dec rr_hdr rr_body]. rewrite Hd, length_app. apply ropen_bound in Eo.
        assert (len (zdrop n (x :: p)) <= len (x :: p)) by (unfold zdrop; rewrite length_drop; lia).
        rewrite len_app in *. cbn [length] in *. lia.
    + destruct (errDecrypt_final L) as [Ef _]. unfold read_step. rewrite Ef. cbn [negb]. split.
      * split; cbn; [lia|done|by intros e [= <-]].
      * exists w'. split; [done|]. by eexists.
  - unfold readError. rewrite Hte. unfold read_step. rewrite Hte. cbn [negb]. split.
    + split; cbn; [lia| |done]. intros _ _. rewrite len_app. lia.
    + exists w'. split; [done|]. rewrite !pending_live by done. split.
      * cbn [rr_seq rr_hdr rr_body]. rewrite <- !app_assoc. generalize (parse_records L (rr_seq r) (rr_hdr r ++ rr_body r ++ b ++ w')). by intros [d y].
      * unfold backlog. cbn [rr_r rr_dec rr_hdr rr_body]. rewrite Hd, !length_app. cbn. lia.
  - assert (pending r (b ++ []) = ([], ErrUnexpectedEOF)) as Hend.
    { rewrite Hpend, app_nil_r, (proj2 (Z.ltb_lt _ _)); [done|]. rewrite len_app. lia. }
    destruct He as [-> | ->]; (apply read_step_final; [done|lia|done|by right]).
Qed.

Lemma Reader_Read_step r w plen :
  reader_wf r -> rr_dec r = [] -> rr_terminal r = None -> carries (rr_r r) w -> 0 < plen ->
  read_step r w (Reader_Read L r plen).
Proof.
  intros Hwf Hd Ht Hc Hp. unfold Reader_Read. rewrite (proj2 (Z.eqb_neq plen 0)) by lia.
  rewrite Hd, Ht. cbn [length Z.ltb]. rewrite (proj2 (Z.ltb_ge 0 (Z.of_nat 0))) by lia.
  destruct (Z.ltb_spec (len (rr_hdr r)) 2) as [Hh|Hh].
  2:{ apply readBody_step; try done; [|apply (wf_body _ Hwf Ht)]. pose proof (wf_hdr _ Hwf). lia. }
  assert (rr_body r = []) as Hb.
  { destruct (decide (rr_body r = [])) as [|Hne]; [done|].
    destruct (wf_body _ Hwf Ht Hne) as [? _]. lia. }
  pose proof (pending_live r w Ht Hd) as Hpend. rewrite Hb in Hpend. cbn [app] in Hpend.
  destruct (ReadFull_carries (2 - len (rr_hdr r)) (rr_r r) w)
    as (b & e & rd & w' & -> & -> & Hc' & Hle & Hcase); [lia|done|].
  destruct Hcase as [[-> Hlb]|[(te & -> & Hte & Hlb & Hlt)|(He & -> & -> & Hlb)]].
  - set (r1 := mkReader rd (rr_seq r) (rr_hdr r ++ b) (rr_body r) [] None).
    assert (read_step r1 w' (readBody L plen r1)) as Hstep.
    { apply readBody_step; try done; cbn; rewrite len_app; lia. }
    assert (pending r (b ++ w') = pending r1 w') as Hsame.
    { rewrite Hpend, pending_live by done. cbn. by rewrite Hb, <- app_assoc. }
    unfold read_step in Hstep |- *. rewrite Hsame.
    destruct (readBody L plen r1) as [[b1 e1] r2]. destruct Hstep as (Hwf2 & w2 & Hc2 & Hs).
    split; [done|]. exists w2. split; [done|].
    destruct (match e1 with Some x => negb (is_timeout x) | None => false end); [done|]. destruct Hs as [-> Hlt].
    split; [done|]. eapply Nat.lt_le_trans; [exact Hlt|].
    unfold backlog. cbn. rewrite Hb, Hd, !length_app. cbn. lia.
  - unfold readError. rewrite Hte. unfold read_step. rewrite Hte. cbn [negb]. split.
    + split; cbn; [rewrite len_app; lia|by rewrite Hb|done].
    + exists w'. split; [done|]. rewrite Hpend, pending_live by done. split.
      * cbn [rr_seq rr_hdr rr_body]. rewrite Hb, <- !app_assoc. cbn [app].
        generalize (parse_records L (rr_seq r) (rr_hdr r ++ b ++ w')). by intros [d y].
      * unfold backlog. cbn [rr_r rr_dec rr_hdr rr_body]. rewrite Hd, !length_app. cbn. lia.
  - assert (pending r (b ++ []) = ([], ErrUnexpectedEOF)) as Hend.
    { rewrite Hpend, app_nil_r, parse_short; [done|]. rewrite len_app. lia. }
    destruct He as [-> | ->]; (apply read_step_final; [done|rewrite len_app; lia|done|by right]).
Qed.

(** Handing out decrypted bytes. *)
Lemma Reader_Read_buffered r w plen :
  reader_wf r -> rr_dec r <> [] -> carries (rr_r r) w -> 0 < plen ->
  read_step r w (Reader_Read L r plen).
Proof.
  intros Hwf Hd Hc Hp. unfold Reader_Read. rewrite (proj2 (Z.eqb_neq plen 0)) by lia.
  assert (0 < len (rr_dec r)) as Hl by (destruct (rr_dec r); [done|cbn; lia]).
  rewrite (proj2 (Z.ltb_lt _ _)) by lia. set (n := Z.min plen (len (rr_dec r))).
  split; [destruct Hwf; split; done|]. exists w. split; [done|]. split.
  - unfold pending. cbn. destruct (rr_terminal r) as [x|]; [by rewrite !app_nil_r, ztake_zdrop|].
    destruct (parse_records L _ _) as [d y]. by rewrite app_assoc, ztake_zdrop.
  - unfold backlog. cbn. assert (len (zdrop n (rr_dec r)) < len (rr_dec r)) by (rewrite len_zdrop; lia). lia.
Qed.

Lemma readRecords_pending fuel r w plen :
  reader_wf r -> carries (rr_r r) w -> 0 < plen -> (backlog r w < fuel)%nat ->
  readAll L fuel r plen = let '(d, e) := pending r w in (d, Some e).
Proof.
  revert r w. induction fuel as [|fuel IH]; intros r w Hwf Hc Hp Hf; [lia|]. cbn [readAll].
  assert (rr_terminal r <> None /\ rr_dec r = [] \/ read_step r w (Reader_Read L r plen)) as [[Ht Hd]|Hs].
  { destruct (decide (rr_dec r = [])) as [Hd|Hd]; [|right; by apply Reader_Read_buffered].
    destruct (rr_terminal r) eqn:Ht; [by left|]. right. by apply Reader_Read_step. }
  - destruct (rr_terminal r) as [e|] eqn:Et; [|done]. unfold Reader_Read, pending.
    rewrite (proj2 (Z.eqb_neq plen 0)) by lia. rewrite Hd, Et. cbn [length].
    rewrite (proj2 (Z.ltb_ge 0 (Z.of_nat 0))) by lia. by rewrite (wf_terminal _ Hwf e Et).
  - destruct (Reader_Read L r plen) as [[b e] r']. destruct Hs as (Hwf' & w' & Hc' & Hs).
    destruct e as [x|]; [destruct (is_timeout x) eqn:Hx|]; cbn [negb] in Hs.
    + destruct Hs as [-> Hlt]. rewrite (IH r' w') by (done || lia). by destruct (pending r' w').
    + destruct Hs as (y & [= <-] & ->). done.
    + destruct Hs as [-> Hlt]. rewrite (IH r' w') by (done || lia). by destruct (pending r' w').
Qed.

(** The reader delivers what the wire means. *)
Lemma reader_reference r plen :
  rd_lossless r -> 0 < plen ->
  readAll L (readFuel r) (NewReader r) plen = let '(d, e) := parse_records L 0 (rd_content r) in (d, Some e).
Proof.
  intros Hr Hp. rewrite (readRecords_pending _ _ (rd_content r)); [|by split|done|done|].
  - unfold pending. cbn. by destruct (parse_records L 0 (rd_content r)).
  - unfold backlog, readFuel. cbn. lia.
Qed.

(** ** Truncation *)

Lemma app_prefix_split {A} (w1 w2 a b : list A) :
  w1 ++ w2 = a ++ b -> (length a <= length w1)%nat -> exists c, w1 = a ++ c /\ c ++ w2 = b.
Proof.
  intros E Hl. exists (drop (length a) w1).
  assert (take (length a) w1 = a) as Ht.
  { apply (f_equal (take (length a))) in E. rewrite take_app_length, take_app_le in E by lia. done. }
  split; [by rewrite <- Ht at 1; rewrite take_drop|].
  apply (f_equal (drop (length a))) in E. rewrite drop_app_length, drop_app_le in E by lia. done.
Qed.

Lemma parse_cut_record s p w1 w2 b :
  len p <= maxPayload L -> w1 ++ w2 = record L s p ++ b -> len w1 < len (record L s p) ->
  parse_records L s w1 = ([], ErrUnexpectedEOF).
Proof.
  intros Hp E Hl. pose proof (maxPayload_range L).
  destruct (decide (len w1 < 2)); [by apply parse_short|].
  unfold record in E. rewrite <- app_assoc in E.
  apply app_prefix_split in E as (c & -> & E); [|rewrite length_be; lia].
  rewrite parse_header by apply len_be. cbv zeta. rewrite be_val_be2 by (unfold is_u16; lia).
  rewrite (proj2 (Z.ltb_ge _ _)), (proj2 (Z.ltb_ge _ _)) by lia.
  rewrite len_record, len_app, len_be in Hl. rewrite (proj2 (Z.ltb_lt _ _)) by lia. done.
Qed.

Lemma parse_truncated s chunks w1 w2 :
  0 <= s -> s + len chunks < 2 ^ 64 - 1 -> data_chunks L chunks -> w2 <> [] ->
  w1 ++ w2 = records L s chunks ++ record L (s + len chunks) [] ->
  exists d, parse_records L s w1 = (d, ErrUnexpectedEOF) /\ d `prefix_of` concat chunks.
Proof.
  intros Hs Hn Hd Hw2. pose proof (maxPayload_range L).
  assert (0 < len w2) by (destruct w2; [done|cbn; lia]).
  revert s w1 Hs Hn. induction Hd as [|p chunks Hp Hd IH]; intros s w1 Hs Hn E; cbn [records] in E.
  - exists []. split; [|done]. change (len (@nil (list byte))) with 0 in E.
    rewrite Z.add_0_r, <- (app_nil_r (record L s [])) in E.
    apply (parse_cut_record s [] w1 w2 []); [cbn; lia|done|].
    apply (f_equal (fun l => len l)) in E. rewrite !len_app in E. cbn [length app] in E. lia.
  - rewrite len_cons in *. rewrite <- app_assoc in E.
    destruct (decide (len w1 < len (record L s p))) as [Hlt|Hge].
    { exists []. split; [eapply parse_cut_record; [|exact E|done]; lia|]. apply prefix_nil. }
    apply app_prefix_split in E as (c & -> & E); [|lia].
    rewrite (u64_id (s + 1)) in E by (unfold is_u64; lia).
    destruct (IH (s + 1) c) as (d & Hpd & Hpre); [lia|lia| |].
    { rewrite E. do 2 f_equal. lia. }
    exists (p ++ d). rewrite parse_record by lia. rewrite u64_id, Hpd by (unfold is_u64; lia).
    split; [by destruct p; [cbn in Hp; lia|]|]. cbn. by apply prefix_app.
Qed.

(** ** Integrity *)

(** The number of the record after [chunks]. *)
Fixpoint seqAfter (s : Z) (chunks : list (list byte)) : Z :=
  match chunks with [] => s | _ :: rest => seqAfter (u64 (s + 1)) rest end.

(** Whatever the wire holds, what is delivered are the chunks of records that
    were sealed in this order from number [s] on, and a clean end is a sealed
    empty record in the next place. *)
Lemma parse_inv s w d e :
  parse_records L s w = (d, e) ->
  exists chunks rest, w = records L s chunks ++ rest /\ d = concat chunks /\ data_chunks L chunks /\
    (e = EOF -> exists rest', rest = record L (seqAfter s chunks) [] ++ rest').
Proof.
  unfold parse_records. generalize (S (length w)). intros fuel. revert s w d e.
  induction fuel as [|fuel IH]; intros s w d e E; cbn [parse_fuel] in E.
  { exists [], w. injection E as <- <-. split_and!; [done|done|constructor|done]. }
  assert (forall x : error, x <> EOF -> ([], x) = (d, e) ->
    exists chunks rest, w = records L s chunks ++ rest /\ d = concat chunks /\ data_chunks L chunks /\
    (e = EOF -> exists rest', rest = record L (seqAfter s chunks) [] ++ rest')) as Hstop.
  { intros x Hx [= <- <-]. exists [], w. split_and!; [done|done|constructor|done]. }
  destruct (Z.ltb_spec (len w) 2); [by eapply Hstop; [|exact E]|].
  set (n := be_val (ztake 2 w)) in E.
  destruct (Z.ltb_spec n 16); [eapply Hstop; [apply errDecrypt_final|exact E]|].
  destruct (Z.ltb_spec (maxPayload L + 16) n); [eapply Hstop; [apply errTooLarge_final|exact E]|].
  destruct (Z.ltb_spec (len (zdrop 2 w)) n); [by eapply Hstop; [|exact E]|].
  destruct (ropen L s (ztake n (zdrop 2 w))) as [p|] eqn:Eo;
    [|eapply Hstop; [apply errDecrypt_final|exact E]].
  pose proof (ropen_bound _ _ _ Eo) as Hlp. rewrite len_ztake in Hlp by lia.
  apply ropen_sound in Eo.
  assert (w = record L s p ++ zdrop n (zdrop 2 w)) as Ew.
  { unfold record. rewrite <- Eo, <- Hlp. unfold n at 1. rewrite be_be_val.
    - by rewrite <- app_assoc, ztake_zdrop, ztake_zdrop.
    - pose proof (len_ztake 2 w). lia. }
  destruct p as [|x p].
  - injection E as <- <-. exists [], w. split_and!; [done|done|constructor|]. intros _. eexists. exact Ew.
  - destruct (parse_fuel L fuel (u64 (s + 1)) (zdrop n (zdrop 2 w))) as [d' e'] eqn:Ep.
    destruct (IH _ _ _ _ Ep) as (chunks & rest & Er & -> & Hd & He).
    assert ((x :: p) ++ concat chunks = d /\ e' = e) as [<- <-] by (split; congruence).
    exists ((x :: p) :: chunks), rest. split_and!.
    + cbn [records]. rewrite <- app_assoc, <- Er. exact Ew.
    + done.
    + constructor; [|done]. rewrite len_cons in *. lia.
    + exact He.
Qed.

(** What a reader makes of a prefix of the records of a writer. *)
Lemma parse_wire_prefix chunks (eof : bool) cut :
  data_chunks L chunks -> len chunks < 2 ^ 64 - 1 ->
  cut `prefix_of` records L 0 chunks ++ (if eof then record L (len chunks) [] else []) ->
  exists got e, parse_records L 0 cut = (got, e) /\ got `prefix_of` concat chunks /\
    (e = EOF \/ e = ErrUnexpectedEOF) /\ (e = EOF -> eof = true /\ got = concat chunks).
Proof.
  intros Hd Hn [rest E].
  assert (forall w2, w2 <> [] -> cut ++ w2 = records L 0 chunks ++ record L (len chunks) [] ->
    exists got e, parse_records L 0 cut = (got, e) /\ got `prefix_of` concat chunks /\
    (e = EOF \/ e = ErrUnexpectedEOF) /\ (e = EOF -> eof = true /\ got = concat chunks)) as Hcut.
  { intros w2 Hw E2. destruct (parse_truncated 0 chunks cut w2) as (d & Hp & Hpre); [lia..|done|done| |].
    { by rewrite Z.add_0_l. }
    exists d, ErrUnexpectedEOF. split_and!; [done|done|by right|done]. }
  destruct eof.
  - destruct (decide (rest = [])) as [->|Hr].
    + rewrite app_nil_r in E. subst cut. exists (concat chunks), EOF.
      split_and!; [by apply parse_closed|done|by left|done].
    + by apply (Hcut rest).
  - rewrite app_nil_r in E. apply (Hcut (rest ++ record L (len chunks) [])).
    + intros [_ E0]%app_eq_nil. apply (f_equal (fun l => len l)) in E0. rewrite len_record in E0. cbn in E0. lia.
    + by rewrite E, <- app_assoc.
Qed.

Lemma data_chunks_count chunks : data_chunks L chunks -> len chunks <= len (concat chunks).
Proof.
  intros Hd. induction Hd as [|p chunks Hp Hd IH]; [done|]. cbn [concat]. rewrite len_cons, len_app. lia.
Qed.

End Layer.

(** ** The interface of a record writer

    What a framed writer promises to the stream above it: while it is open, its
    carrier holds the records of the chunks it sealed; a write either sends the
    records of all its bytes or closes the writer after a prefix of them, and
    so does the end of the stream; a closed writer sends nothing any more. *)
Record RecordWriter (L : RecordLayer) := mkRecordWriter {
  rw_state : Type;
  rw_input : Type;
  rw_bytes : rw_input -> list byte;
  rw_out : rw_state -> list byte;
  rw_closed : rw_state -> bool;
  rw_write : rw_state -> rw_input -> rw_state;
  rw_eof : rw_state -> rw_state;
  rw_open : rw_state -> list (list byte) -> Prop;
  rw_open_out : forall s chunks, rw_open s chunks -> rw_out s = records L 0 chunks /\ data_chunks L chunks;
  rw_write_law : forall s chunks i,
    rw_open s chunks -> len chunks + len (rw_bytes i) < 2 ^ 64 - 1 ->
    exists sealed, data_chunks L sealed /\
      ((rw_open (rw_write s i) (chunks ++ sealed) /\ concat sealed = rw_bytes i) \/
       (rw_closed (rw_write s i) = true /\
        rw_out (rw_write s i) `prefix_of` records L 0 (chunks ++ sealed) /\
        concat sealed `prefix_of` rw_bytes i));
  rw_eof_law : forall s chunks,
    rw_open s chunks -> len chunks < 2 ^ 64 - 1 ->
    rw_closed (rw_eof s) = true /\
    rw_out (rw_eof s) `prefix_of` records L 0 chunks ++ record L (len chunks) [];
  rw_closed_write : forall s i, rw_closed s = true -> rw_write s i = s;
  rw_closed_eof : forall s, rw_closed s = true -> rw_eof s = s;
}.
Arguments rw_state {L} _.
Arguments rw_input {L} _.
Arguments rw_bytes {L} _ _.
Arguments rw_out {L} _ _.
Arguments rw_closed {L} _ _.
Arguments rw_write {L} _ _ _.
Arguments rw_eof {L} _ _.
Arguments rw_open {L} _ _ _.

(** What a user of a writer does: write something, or end the stream. *)
Inductive op (I : Type) :=
  | OpWrite (i : I)
  | OpEOF.
Arguments OpWrite {I} _.
Arguments OpEOF {I}.

Section Operations.
  Context {L : RecordLayer} (W : RecordWriter L).

Definition runOp (s : rw_state W) (o : op (rw_input W)) : rw_state W :=
  match o with OpWrite i => rw_write W s i | OpEOF => rw_eof W s end.

Definition runOps (s : rw_state W) (ops : list (op (rw_input W))) : rw_state W := fold_left runOp ops s.

(** The bytes handed to the writer before its end, and whether it was ended. *)
Definition writtenOp (d : list byte * bool) (o : op (rw_input W)) : list byte * bool :=
  match o with
  | OpWrite i => if snd d then d else (fst d ++ rw_bytes W i, false)
  | OpEOF => (fst d, true)
  end.

Definition written (ops : list (op (rw_input W))) : list byte * bool := fold_left writtenOp ops ([], false).

(** What is on the wire after some operations. *)
Definition wire_state (s : rw_state W) (d : list byte) (ended : bool) : Prop :=
  (ended = false /\ exists chunks, rw_open W s chunks /\ concat chunks = d) \/
  (rw_closed W s = true /\ exists chunks eof, data_chunks L chunks /\
     rw_out W s `prefix_of` records L 0 chunks ++ (if eof : bool then record L (len chunks) [] else []) /\
     concat chunks `prefix_of` d /\ (eof = true -> ended = true /\ concat chunks = d)).

Lemma open_count s chunks d : rw_open W s chunks -> concat chunks = d -> len chunks <= len d.
Proof. intros Ho <-. apply (data_chunks_count L). by apply (rw_open_out L W s). Qed.

Lemma write_state s i d :
  wire_state s d false -> len d + len (rw_bytes W i) < 2 ^ 64 - 1 ->
  wire_state (rw_write W s i) (d ++ rw_bytes W i) false.
Proof.
  intros [[_ (chunks & Ho & Hd)]|(Hc & chunks & eof & Hdata & Hpre & Hp & He)] Hn.
  - pose proof (open_count _ _ _ Ho Hd). destruct (rw_open_out L W _ _ Ho) as [_ Hdata].
    destruct (rw_write_law L W s chunks i Ho) as (sealed & Hs & [[Ho' Hcat]|(Hcl & Hw & Hpre)]); [lia| |].
    + left. split; [done|]. exists (chunks ++ sealed). by rewrite concat_app, Hd, Hcat.
    + right. split; [done|]. exists (chunks ++ sealed), false. rewrite app_nil_r.
      split_and!; [by apply Forall_app|done| |done]. rewrite concat_app, Hd. by apply prefix_app.
  - rewrite rw_closed_write by done. right. split; [done|]. exists chunks, eof.
    split_and!; [done|done|by apply prefix_app_r|]. intros Heof. by destruct (He Heof).
Qed.

Lemma eof_state s d : wire_state s d false -> len d < 2 ^ 64 - 1 -> wire_state (rw_eof W s) d true.
Proof.
  intros [[_ (chunks & Ho & Hd)]|(Hc & chunks & eof & Hdata & Hpre & Hp & He)] Hn.
  - pose proof (open_count _ _ _ Ho Hd). destruct (rw_open_out L W _ _ Ho) as [_ Hdata].
    destruct (rw_eof_law L W s chunks Ho) as [Hcl Hpre]; [lia|].
    right. split; [done|]. exists chunks, true. split_and!; [done|done|by rewrite Hd|done].
  - rewrite rw_closed_eof by done. right. split; [done|]. exists chunks, eof. split_and!; try done.
    intros Heof. by destruct (He Heof).
Qed.

Lemma closed_state s d s' :
  wire_state s d true -> (rw_closed W s = true -> s' = s) -> wire_state s' d true.
Proof. intros [[? _]|Hc] Heq; [done|]. rewrite Heq by apply Hc. by right. Qed.

Lemma writtenOp_mono d o : len (fst d) <= len (fst (writtenOp d o)).
Proof.
  destruct o; cbn; [|done]. destruct (snd d); [done|]. cbn [fst]. rewrite len_app. lia.
Qed.

Lemma runOps_state s ops :
  rw_open W s [] -> len (fst (written ops)) < 2 ^ 64 - 1 ->
  wire_state (runOps s ops) (fst (written ops)) (snd (written ops)).
Proof.
  intros Hw. induction ops as [|o ops IH] using rev_ind.
  { intros _. left. split; [done|]. by exists []. }
  unfold runOps, written in *. rewrite !fold_left_app. cbn [fold_left].
  set (s1 := fold_left runOp ops s) in *. set (d := fold_left writtenOp ops ([], false)) in *. intros Hn.
  pose proof (writtenOp_mono d o) as Hm. specialize (IH ltac:(lia)).
  destruct d as [d ended]. cbn [fst snd] in *.
  destruct o as [i|]; cbn [runOp writtenOp fst snd] in *; destruct ended; cbn [fst snd] in *.
  - eapply closed_state; [exact IH|]. apply rw_closed_write.
  - apply write_state; [done|]. rewrite len_app in Hn. lia.
  - eapply closed_state; [exact IH|]. apply rw_closed_eof.
  - by apply eof_state.
Qed.

(** Whatever happens to the writer's carrier and on the way, a parser of what
    arrived sees a prefix of what was written and no false end. *)
Lemma writer_safety s ops cut :
  rw_open W s [] -> len (fst (written ops)) < 2 ^ 64 - 1 ->
  cut `prefix_of` rw_out W (runOps s ops) ->
  exists got e, parse_records L 0 cut = (got, e) /\
    got `prefix_of` fst (written ops) /\ (e = EOF \/ e = ErrUnexpectedEOF) /\
    (e = EOF -> snd (written ops) = true /\ got = fst (written ops)).
Proof.
  intros Hs Hn Hcut. pose proof (runOps_state s ops Hs Hn) as Hw.
  assert (exists chunks eof, data_chunks L chunks /\ len chunks < 2 ^ 64 - 1 /\
    rw_out W (runOps s ops) `prefix_of`
      records L 0 chunks ++ (if eof : bool then record L (len chunks) [] else []) /\
    concat chunks `prefix_of` fst (written ops) /\
    (eof = true -> snd (written ops) = true /\ concat chunks = fst (written ops)))
    as (chunks & eof & Hd & Hcn & Hpre & Hcat & Heof).
  { destruct Hw as [[_ (chunks & Ho & Hd)]|(Hc & chunks & eof & Hdata & Hpre & Hp & He)].
    - pose proof (open_count _ _ _ Ho Hd). destruct (rw_open_out L W _ _ Ho) as [Ho1 Hdata].
      exists chunks, false. rewrite app_nil_r. split_and!; [done|lia|by rewrite Ho1|by rewrite Hd|done].
    - exists chunks, eof. split_and!; try done. apply data_chunks_count in Hdata.
      apply prefix_length in Hp. lia. }
  destruct (parse_wire_prefix L chunks eof cut Hd Hcn) as (got & e & Hparse & Hg & He & Hend); [by etrans|].
  exists got, e. split_and!; [done|by etrans|done|]. intros ->. destruct (Hend eq_refl) as [He1 ->].
  by destruct (Heof He1).
Qed.

End Operations.
