(* ===== verification/RawStream.v ===== *)
(** * AEAD streams of [internal/rawstream] (frame.go, stream.go)

    [AEADStream], [FramedWriter] with its adaptive record sizes and batching,
    [FramedReader] and [StreamConn].  The reader is shown to simulate the
    record reader of [Records], so that its meaning is [parse_records] over the
    record layer of AES-GCM; the writer is shown to put exactly the records of
    what was written on the wire, under every failure of the carrier.  The
    [bufio.Reader] between the reader and the connection is part of the
    reader's schedule. *)
From S2P Require Import Prelude GoIO Crypto Records.

Open Scope Z_scope.

(** ** The code *)

Definition MaxChunkPayloadLen : Z := 32768.
Definition MaxChunkWireLen : Z := MaxChunkPayloadLen + 16.
Definition MinRecordPayloadLen : Z := 1380.
Definition MidRecordPayloadLen : Z := 8192.
Definition MaxBatchFlushLen : Z := 128 * 1024.
Definition Phase1Threshold : Z := 128 * 1024.
Definition Phase2Threshold : Z := 1024 * 1024.
Definition IdleResetThreshold : Z := 1000000000.

Definition ErrDecryptionFailed := Errorf "rawstream: AEAD chunk decryption failed".
Definition ErrChunkTooLarge := Errorf "rawstream: AEAD chunk length exceeds maximum allowed size".
Definition ErrSequenceExhausted := Errorf "rawstream: AEAD sequence number exhausted".

Definition MaxUint64 : Z := 2 ^ 64 - 1.

Section Stream.
  Context `{Crypto}.

(** [aead] is AES-128-GCM under [key]. *)
Record AEADStream := mkStream {
  key : list byte;
  sequence : Z;
}.

Definition NewAEADStream (k : list byte) : AEADStream := mkStream k 0.

(** [nonceBuf]: four zero bytes and the sequence number. *)
Definition nonceBuf (seq : Z) : list byte := replicate 4 Byte.x00 ++ be 8 seq.

Definition EncryptChunk (s : AEADStream) (dst plaintext : list byte) : result (list byte) * AEADStream :=
  if MaxChunkPayloadLen <? len plaintext then (Fail ErrChunkTooLarge, s)
  else if sequence s =? MaxUint64 then (Fail ErrSequenceExhausted, s)
  else
    let nonce := nonceBuf (sequence s) in
    let wirePayloadLen := len plaintext + Overhead in
    let lenBuf := be 2 (u16 wirePayloadLen) in
    (Ok (dst ++ lenBuf ++ seal AESGCM (key s) nonce plaintext lenBuf),
     mkStream (key s) (sequence s + 1)).

Definition DecryptChunk (s : AEADStream) (ciphertext : list byte) (wireLen : Z)
  : result (list byte) * AEADStream :=
  if sequence s =? MaxUint64 then (Fail ErrSequenceExhausted, s)
  else
    let nonce := nonceBuf (sequence s) in
    let s' := mkStream (key s) (sequence s + 1) in
    match open AESGCM (key s) nonce ciphertext (be 2 wireLen) with
    | Some p => (Ok p, s')
    | None => (Fail ErrDecryptionFailed, s')
    end.

(** [FramedWriter]; [lastWrite] is [None] for the zero time, [buf] the bytes
    sealed and not yet flushed. *)
Record FramedWriter := mkFW {
  fw_w : writer;
  fw_stream : AEADStream;
  fw_buf : list byte;
  burstBytes : Z;
  lastWrite : option Z;
  fw_closed : bool;
}.

Definition NewFramedWriter (w : writer) (s : AEADStream) : FramedWriter := mkFW w s [] 0 None false.

(** [flush] fails closed on partial writes. *)
Definition flush (fw : FramedWriter) : option error * FramedWriter :=
  let '(n, err, w') := Write (fw_buf fw) (fw_w fw) in
  let err := match err with
             | None => if n =? len (fw_buf fw) then None else Some ErrShortWrite
             | Some e => Some e
             end in
  (err, mkFW w' (fw_stream fw) (fw_buf fw) (burstBytes fw) (lastWrite fw)
          (match err with Some _ => true | None => fw_closed fw end)).

Definition setBuf (fw : FramedWriter) (b : list byte) : FramedWriter :=
  mkFW (fw_w fw) (fw_stream fw) b (burstBytes fw) (lastWrite fw) (fw_closed fw).

(** The largest chunk and the flush threshold of the current phase. *)
Definition phase (burst : Z) : Z * Z :=
  if burst <? Phase1Threshold then (MinRecordPayloadLen, 0)
  else if burst <? Phase2Threshold then (MidRecordPayloadLen, MidRecordPayloadLen)
  else (MaxChunkPayloadLen, MaxBatchFlushLen).

(** The coalescing loop: up to [room] bytes from the remaining slices, the
    first of which starts at the current offset. *)
Fixpoint coalesce (room : Z) (rest : list (list byte)) : list byte * list (list byte) :=
  match rest with
  | [] => ([], [])
  | part :: more =>
      if room <=? 0 then ([], rest)
      else
        let n := Z.min (len part) room in
        if n =? len part then
          let '(c, rest') := coalesce (room - n) more in (part ++ c, rest')
        else (ztake n part, zdrop n part :: more)
  end.

(** The loop of [WriteBatch]: the slices still to send (the first from the
    current offset), the plaintext flushed and not yet flushed. *)
Fixpoint batchLoop (fuel : nat) (fw : FramedWriter) (rest : list (list byte))
    (totalPlaintext unflushed : Z) : Z * option error * FramedWriter :=
  match fuel with
  | O => (totalPlaintext, Some (Errorf "fuel"), fw)
  | S fuel =>
      match rest with
      | [] =>
          if 0 <? len (fw_buf fw) then
            let '(err, fw1) := flush fw in
            match err with
            | Some e => (totalPlaintext, Some e, fw1)
            | None => (totalPlaintext + unflushed, None, setBuf fw1 [])
            end
          else (totalPlaintext, None, fw)
      | [] :: more => batchLoop fuel fw more totalPlaintext unflushed
      | p :: more =>
          let '(maxChunk, flushThreshold) := phase (burstBytes fw) in
          let '(chunk, rest') :=
            if (len p <? maxChunk) && negb (bool_decide (more = [])) then coalesce maxChunk rest
            else
              let n := Z.min (len p) maxChunk in (ztake n p, zdrop n p :: more) in
          let chunkSize := len chunk in
          let '(sealed, s') := EncryptChunk (fw_stream fw) (fw_buf fw) chunk in
          match sealed with
          | Fail err =>
              (totalPlaintext, Some err,
               mkFW (fw_w fw) s' [] (burstBytes fw) (lastWrite fw) (fw_closed fw))
          | Ok buf =>
              let fw1 := mkFW (fw_w fw) s' buf (i64 (burstBytes fw + chunkSize)) (lastWrite fw)
                           (fw_closed fw) in
              let unflushed := unflushed + chunkSize in
              if (flushThreshold =? 0) || (flushThreshold <=? len buf) then
                let '(err, fw2) := flush fw1 in
                match err with
                | Some e => (totalPlaintext, Some e, fw2)
                | None => batchLoop fuel (setBuf fw2 []) rest' (totalPlaintext + unflushed) 0
                end
              else batchLoop fuel fw1 rest' totalPlaintext unflushed
          end
      end
  end.

(** One turn for each byte and for each slice is enough. *)
Definition batchFuel (buffers : list (list byte)) : nat :=
  S (length (concat buffers) + length buffers).

Definition WriteBatch (now : Z) (fw : FramedWriter) (buffers : list (list byte))
  : Z * option error * FramedWriter :=
  if fw_closed fw then (0, Some ErrClosedPipe, fw)
  else
    let burst := match lastWrite fw with
                 | Some t => if IdleResetThreshold <? now - t then 0 else burstBytes fw
                 | None => burstBytes fw
                 end in
    batchLoop (batchFuel buffers) (mkFW (fw_w fw) (fw_stream fw) [] burst (Some now) false) buffers 0 0.

Definition FramedWriter_Write (now : Z) (fw : FramedWriter) (p : list byte)
  : Z * option error * FramedWriter := WriteBatch now fw [p].

Definition WriteEOF (fw : FramedWriter) : option error * FramedWriter :=
  if fw_closed fw then (None, fw)
  else
    let '(sealed, s') := EncryptChunk (fw_stream fw) [] [] in
    match sealed with
    | Fail err => (Some err, mkFW (fw_w fw) s' [] (burstBytes fw) (lastWrite fw) true)
    | Ok buf => flush (mkFW (fw_w fw) s' buf (burstBytes fw) (lastWrite fw) true)
    end.

(** [FramedReader]: [hdrBuf[:headerRead]], [rawBuf[:bodyRead]] and
    [decBuf[decOff:]] as byte lists. *)
Record FramedReader := mkFR {
  fr_r : reader;
  fr_stream : AEADStream;
  hdrBuf : list byte;
  rawBuf : list byte;
  decBuf : list byte;
  eofReached : bool;
  fatalErr : option error;
}.

Definition NewFramedReader (r : reader) (s : AEADStream) : FramedReader := mkFR r s [] [] [] false None.

Definition fatal (fr : FramedReader) (e : error) : FramedReader :=
  mkFR (fr_r fr) (fr_stream fr) (hdrBuf fr) (rawBuf fr) (decBuf fr) (eofReached fr) (Some e).

Definition FramedReader_readError (fr : FramedReader) (err : error) : error * FramedReader :=
  if is_timeout err then (err, fr)
  else
    let err := match err with EOF => ErrUnexpectedEOF | _ => err end in
    (err, fatal fr err).

(** [Read] after the two header bytes are there. *)
Definition FramedReader_body (fr : FramedReader) (plen : Z) : list byte * option error * FramedReader :=
  let wireLen := be_val (hdrBuf fr) in
  if wireLen <? 16 then ([], Some ErrDecryptionFailed, fatal fr ErrDecryptionFailed)
  else if MaxChunkWireLen <? wireLen then ([], Some ErrChunkTooLarge, fatal fr ErrChunkTooLarge)
  else
    let '(b, readErr, rd) := ReadFull (wireLen - len (rawBuf fr)) (fr_r fr) in
    let fr1 := mkFR rd (fr_stream fr) (hdrBuf fr) (rawBuf fr ++ b) (decBuf fr) (eofReached fr) (fatalErr fr) in
    match readErr with
    | Some err => let '(e, fr2) := FramedReader_readError fr1 err in ([], Some e, fr2)
    | None =>
        let '(dec, s') := DecryptChunk (fr_stream fr) (rawBuf fr1) (u16 wireLen) in
        match dec with
        | Fail _ =>
            ([], Some ErrDecryptionFailed,
             mkFR rd s' (hdrBuf fr1) (rawBuf fr1) [] (eofReached fr) (Some ErrDecryptionFailed))
        | Ok p =>
            if len p =? 0 then ([], Some EOF, mkFR rd s' [] [] [] true (fatalErr fr))
            else
              let n := Z.min plen (len p) in
              (ztake n p, None, mkFR rd s' [] [] (zdrop n p) (eofReached fr) (fatalErr fr))
        end
    end.

Definition FramedReader_Read (fr : FramedReader) (plen : Z) : list byte * option error * FramedReader :=
  if plen =? 0 then ([], None, fr)
  else if 0 <? len (decBuf fr) then
    let n := Z.min plen (len (decBuf fr)) in
    (ztake n (decBuf fr), None,
     mkFR (fr_r fr) (fr_stream fr) (hdrBuf fr) (rawBuf fr) (zdrop n (decBuf fr)) (eofReached fr) (fatalErr fr))
  else
    match fatalErr fr with
    | Some e => ([], Some e, fr)
    | None =>
        if eofReached fr then ([], Some EOF, fr)
        else if len (hdrBuf fr) <? 2 then
          let '(b, err, rd) := ReadFull (2 - len (hdrBuf fr)) (fr_r fr) in
          let fr1 := mkFR rd (fr_stream fr) (hdrBuf fr ++ b) (rawBuf fr) (decBuf fr) (eofReached fr) (fatalErr fr) in
          match err with
          | Some e => let '(e', fr2) := FramedReader_readError fr1 e in ([], Some e', fr2)
          | None => FramedReader_body fr1 plen
          end
        else FramedReader_body fr plen
    end.

(** A consumer of the reader, as in [Records]. *)
Fixpoint rawReadAll (fuel : nat) (fr : FramedReader) (plen : Z) : list byte * option error :=
  match fuel with
  | O => ([], None)
  | S fuel' =>
      let '(b, err, fr') := FramedReader_Read fr plen in
      match err with
      | Some e =>
          if is_timeout e then let '(b', e') := rawReadAll fuel' fr' plen in (b ++ b', e')
          else (b, Some e)
      | None => let '(b', e') := rawReadAll fuel' fr' plen in (b ++ b', e')
      end
  end.

End Stream.

(** ** The record layer *)

Section Layer.
  Context `{Crypto}.

Definition rawSeal (k : list byte) (s : Z) (p : list byte) : list byte :=
  seal AESGCM k (nonceBuf s) p (be 2 (u16 (len p + Overhead))).

Definition rawOpen (k : list byte) (s : Z) (c : list byte) : option (list byte) :=
  if s =? MaxUint64 then None else open AESGCM k (nonceBuf s) c (be 2 (u16 (len c))).

Definition rawLayer (k : list byte) : RecordLayer.
Proof.
  refine (mkLayer MaxChunkPayloadLen (rawSeal k) (rawOpen k) ErrDecryptionFailed ErrChunkTooLarge _ _ _ _ _ _).
  - done.
  - intros s p Hs Hp. unfold rawOpen, rawSeal, MaxUint64. rewrite (proj2 (Z.eqb_neq _ _)) by lia.
    rewrite seal_length. apply open_seal.
  - intros s c p. unfold rawOpen, rawSeal. destruct (s =? MaxUint64); [done|]. intros E.
    unfold Overhead. rewrite <- (open_length _ _ _ _ _ _ E). by apply open_sound in E.
  - intros. apply seal_length.
  - done.
  - done.
Defined.

(** ** The reader simulates the record reader *)

Definition terminalOf (fr : FramedReader) : option error :=
  match fatalErr fr with Some e => Some e | None => if eofReached fr then Some EOF else None end.

Record simulates (fr : FramedReader) (r : Reader) : Prop := {
  sim_r : rr_r r = fr_r fr;
  sim_hdr : rr_hdr r = hdrBuf fr;
  sim_body : rr_body r = rawBuf fr;
  sim_dec : rr_dec r = decBuf fr;
  sim_terminal : rr_terminal r = terminalOf fr;
  sim_seq : rr_terminal r = None -> rr_seq r = sequence (fr_stream fr) /\ 0 <= rr_seq r <= MaxUint64;
}.

Lemma DecryptChunk_layer s c wireLen :
  wireLen = len c ->
  DecryptChunk s c (u16 wireLen) =
  match rawOpen (key s) (sequence s) c with
  | Some p => (Ok p, mkStream (key s) (sequence s + 1))
  | None => if sequence s =? MaxUint64 then (Fail ErrSequenceExhausted, s)
            else (Fail ErrDecryptionFailed, mkStream (key s) (sequence s + 1))
  end.
Proof.
  intros ->. unfold DecryptChunk, rawOpen. destruct (sequence s =? MaxUint64); [done|].
  by destruct (open _ _ _ _ _).
Qed.

(** One [Read] of the two readers: same bytes, same error, and they go on
    simulating each other. *)
Definition same_read (k : list byte) (x : list byte * option error * FramedReader)
    (y : list byte * option error * Reader) : Prop :=
  let '(b, e, fr) := x in let '(b', e', r) := y in
  b = b' /\ e = e' /\ simulates fr r /\ key (fr_stream fr) = k.

Lemma readError_sim k fr r err :
  simulates fr r -> key (fr_stream fr) = k -> terminalOf fr = None -> decBuf fr = [] ->
  same_read k (let '(e, fr2) := FramedReader_readError fr err in ([], Some e, fr2))
    (let '(e, t) := readError err in ([], Some e, mkReader (rr_r r) (rr_seq r) (rr_hdr r) (rr_body r) [] t)).
Proof.
  intros [] Hk Ht Hd. unfold FramedReader_readError, readError. destruct (is_timeout err) eqn:Et.
  - split_and!; [done|done| |done]. split; cbn; try done; try congruence.
    intros _. apply sim_seq0. congruence.
  - assert ((match err with EOF | ErrUnexpectedEOF => ErrUnexpectedEOF | _ => err end) =
      (match err with EOF => ErrUnexpectedEOF | _ => err end)) as -> by (destruct err; done).
    split_and!; [done|done| |done]. split; cbn; try done; congruence.
Qed.

Lemma body_sim fr r plen :
  simulates fr r -> terminalOf fr = None -> decBuf fr = [] ->
  (rr_body r <> [] -> len (rr_body r) < be_val (rr_hdr r)) ->
  same_read (key (fr_stream fr)) (FramedReader_body fr plen) (readBody (rawLayer (key (fr_stream fr))) plen r).
Proof.
  intros S Ht Hd Hb. pose proof S as []. unfold FramedReader_body, readBody. cbv zeta.
  rewrite sim_hdr0, sim_r0, sim_body0 in *.
  change (errDecrypt (rawLayer _)) with ErrDecryptionFailed.
  change (errTooLarge (rawLayer _)) with ErrChunkTooLarge.
  change (maxPayload (rawLayer _) + 16) with MaxChunkWireLen.
  assert (forall e, simulates (fatal fr e) (mkReader (fr_r fr) (rr_seq r) (hdrBuf fr) (rawBuf fr) [] (Some e))) as Hf
    by (intros; by split).
  destruct (Z.ltb_spec (be_val (hdrBuf fr)) 16); [by split_and!|].
  destruct (Z.ltb_spec MaxChunkWireLen (be_val (hdrBuf fr))); [by split_and!|].
  destruct (ReadFull (be_val (hdrBuf fr) - len (rawBuf fr)) (fr_r fr)) as [[b e] rd] eqn:Er.
  assert (rr_terminal r = None) as Htr by congruence. destruct (sim_seq0 Htr) as [Hseq Hrange].
  destruct e as [err|].
  { apply (readError_sim _ (mkFR rd (fr_stream fr) (hdrBuf fr) (rawBuf fr ++ b) (decBuf fr) (eofReached fr) (fatalErr fr))
      (mkReader rd (rr_seq r) (hdrBuf fr) (rawBuf fr ++ b) [] None)); [|done..].
    by split. }
  apply ReadFull_bound in Er as [_ Er].
  2:{ destruct (decide (rawBuf fr = [])) as [E|Hne]; [rewrite E; cbn; lia|]. specialize (Hb Hne). lia. }
  pose proof (proj1 Er eq_refl) as Hlb.
  cbn [rawBuf]. rewrite DecryptChunk_layer by (rewrite len_app; lia).
  change (ropen (rawLayer (key (fr_stream fr)))) with (rawOpen (key (fr_stream fr))). rewrite <- Hseq.
  assert (forall p, rawOpen (key (fr_stream fr)) (rr_seq r) (rawBuf fr ++ b) = Some p ->
    u64 (rr_seq r + 1) = rr_seq r + 1 /\ 0 <= rr_seq r + 1 <= MaxUint64) as Hnext.
  { intros p Ho. unfold rawOpen in Ho. destruct (Z.eqb_spec (rr_seq r) MaxUint64); [done|].
    unfold MaxUint64 in *. rewrite u64_id by (unfold is_u64; lia). lia. }
  assert (terminalOf fr = None -> eofReached fr = false /\ fatalErr fr = None) as Htf
    by (unfold terminalOf; repeat case_match; done).
  destruct (Htf Ht) as [He0 Hf0].
  destruct (rawOpen _ _ _) as [[|x p]|] eqn:Eo.
  - destruct (Hnext _ eq_refl) as [Hu Hr]. split_and!; try done.
    split; cbn; try done. unfold terminalOf. cbn. by rewrite Hf0.
  - destruct (Hnext _ eq_refl) as [Hu Hr]. cbn [length]. rewrite (proj2 (Z.eqb_neq _ _)) by lia.
    split_and!; try done. split; cbn; try done; rewrite ?He0, ?Hf0; try done.
    all: intros _; rewrite Hu; done.
  - destruct (rr_seq r =? MaxUint64); (split_and!; [done|done|by split|done]).
Qed.

Lemma Read_sim fr r plen :
  simulates fr r -> reader_wf r ->
  same_read (key (fr_stream fr)) (FramedReader_Read fr plen)
    (Reader_Read (rawLayer (key (fr_stream fr))) r plen).
Proof.
  intros S Hwf. pose proof S as []. unfold FramedReader_Read, Reader_Read.
  destruct (plen =? 0); [done|]. rewrite sim_dec0.
  destruct (Z.ltb_spec 0 (len (decBuf fr))); [by split_and!; try done; split|].
  assert (decBuf fr = []) as Hd by (apply len_zero; lia). rewrite sim_terminal0.
  destruct (fatalErr fr) as [e|] eqn:Ef.
  { unfold terminalOf. rewrite Ef. done. }
  destruct (eofReached fr) eqn:Ee.
  { unfold terminalOf. rewrite Ef, Ee. done. }
  assert (terminalOf fr = None) as Ht by (unfold terminalOf; by rewrite Ef, Ee). rewrite Ht, sim_hdr0.
  assert (rr_terminal r = None) as Htr by congruence.
  destruct (Z.ltb_spec (len (hdrBuf fr)) 2) as [Hh|Hh].
  2:{ apply body_sim; try done. intros Hne. apply (wf_body _ Hwf Htr Hne). }
  rewrite sim_r0. destruct (ReadFull (2 - len (hdrBuf fr)) (fr_r fr)) as [[b e] rd].
  assert (simulates (mkFR rd (fr_stream fr) (hdrBuf fr ++ b) (rawBuf fr) (decBuf fr) (eofReached fr) (fatalErr fr))
    (mkReader rd (rr_seq r) (hdrBuf fr ++ b) (rr_body r) [] None)) as S1.
  { split; cbn; try done. intros _. by apply sim_seq0. }
  rewrite <- Ee, <- Ef. destruct e as [err|]; [by apply (readError_sim _ _ _ err S1)|].
  apply (body_sim _ _ plen S1); try done. cbn. intros Hne. destruct (wf_body _ Hwf Htr Hne).
  rewrite sim_hdr0 in *. lia.
Qed.

Lemma rawReadAll_sim fuel fr r w plen :
  simulates fr r -> reader_wf r -> carries (rr_r r) w -> 0 < plen ->
  rawReadAll fuel fr plen = readAll (rawLayer (key (fr_stream fr))) fuel r plen.
Proof.
  revert fr r w. induction fuel as [|fuel IH]; intros fr r w S Hwf Hc Hp; [done|].
  cbn [rawReadAll readAll].
  pose proof (Read_sim fr r plen S Hwf) as Hs.
  assert (rr_terminal r <> None /\ rr_dec r = [] \/
    read_step (rawLayer (key (fr_stream fr))) r w (Reader_Read (rawLayer (key (fr_stream fr))) r plen))
    as [[Ht Hd]|Hstep].
  { destruct (decide (rr_dec r = [])) as [Hd|Hd]; [|right; by apply Reader_Read_buffered].
    destruct (rr_terminal r) eqn:Ht; [by left|]. right. by apply Reader_Read_step. }
  - destruct (FramedReader_Read fr plen) as [[b e] fr'].
    unfold Reader_Read in Hs |- *. rewrite (proj2 (Z.eqb_neq plen 0)) in * by lia.
    rewrite Hd in *. cbn [length] in *. rewrite (proj2 (Z.ltb_ge 0 (Z.of_nat 0))) in * by lia.
    destruct (rr_terminal r) as [x|] eqn:Et; [|done]. destruct Hs as (-> & -> & _ & _).
    by rewrite (wf_terminal _ Hwf x Et).
  - destruct (FramedReader_Read fr plen) as [[b e] fr'].
    destruct (Reader_Read (rawLayer (key (fr_stream fr))) r plen) as [[b' e'] r'].
    destruct Hs as (-> & -> & S' & Hk). destruct Hstep as (Hwf' & w' & Hc' & _).
    specialize (IH fr' r' w' S' Hwf' Hc' Hp). rewrite Hk in IH. by rewrite IH.
Qed.

(** The meaning of the reader. *)
Lemma rawReadAll_reference k r plen :
  rd_lossless r -> 0 < plen ->
  rawReadAll (readFuel r) (NewFramedReader r (NewAEADStream k)) plen =
  let '(d, e) := parse_records (rawLayer k) 0 (rd_content r) in (d, Some e).
Proof.
  intros Hr Hp. rewrite (rawReadAll_sim _ _ (NewReader r) (rd_content r)); [|by split|by split|done|done].
  by apply reader_reference.
Qed.

End Layer.

(** ** The writer puts records on the wire *)

Section Writer.
  Context `{Crypto}.

(** Coalescing takes a non-empty chunk of at most [room] bytes off the front. *)
Lemma coalesce_spec room rest c rest' :
  coalesce room rest = (c, rest') ->
  concat rest = c ++ concat rest' /\ len c <= Z.max room 0 /\
  (length rest' <= length rest)%nat.
Proof.
  revert room c rest'. induction rest as [|part more IH]; intros room c rest' E; cbn [coalesce] in E.
  { injection E as <- <-. split_and!; [done|cbn; lia|done]. }
  destruct (Z.leb_spec room 0); [injection E as <- <-; split_and!; [done|cbn; lia|done]|].
  destruct (Z.eqb_spec (Z.min (len part) room) (len part)) as [En|En].
  - rewrite En in E. destruct (coalesce (room - len part) more) as [c' r'] eqn:Ec. injection E as <- <-.
    destruct (IH _ _ _ Ec) as (Hc & Hl & Hr). split_and!.
    + cbn. by rewrite Hc, app_assoc.
    + rewrite len_app. lia.
    + cbn [length]. lia.
  - injection E as <- <-. split_and!.
    + cbn. by rewrite app_assoc, ztake_zdrop.
    + rewrite len_ztake; lia.
    + done.
Qed.

(** The chunk that a turn of the loop seals. *)
Definition pick (maxChunk : Z) (p : list byte) (more : list (list byte)) : list byte * list (list byte) :=
  if (len p <? maxChunk) && negb (bool_decide (more = [])) then coalesce maxChunk (p :: more)
  else let n := Z.min (len p) maxChunk in (ztake n p, zdrop n p :: more).

Lemma pick_spec maxChunk p more c rest' :
  0 < maxChunk -> p <> [] -> pick maxChunk p more = (c, rest') ->
  concat (p :: more) = c ++ concat rest' /\ 0 < len c <= maxChunk /\
  (length rest' <= S (length more))%nat.
Proof.
  intros Hm Hp E. assert (0 < len p) by (destruct p; [done|cbn; lia]).
  unfold pick in E. destruct (Z.ltb_spec (len p) maxChunk) as [Hl|Hl]; cbn [andb] in E.
  - case_bool_decide as Em; cbn [negb] in E.
    + injection E as <- <-. subst more. rewrite Z.min_l by lia.
      rewrite ztake_all, zdrop_all by lia. cbn. rewrite !app_nil_r. split_and!; [done|lia..].
    + pose proof (coalesce_spec _ _ _ _ E) as (Hc & Hlc & Hr). split_and!; [done| |lia|exact Hr].
      cbn [coalesce] in E. rewrite (proj2 (Z.leb_gt _ _)) in E by lia.
      rewrite Z.min_l, Z.eqb_refl in E by lia. destruct (coalesce _ more) as [c' r']. injection E as <- <-.
      rewrite len_app. lia.
  - injection E as <- <-. rewrite Z.min_r by lia. cbn [concat].
    split_and!; [by rewrite app_assoc, ztake_zdrop|rewrite len_ztake; lia..|done].
Qed.

Lemma phase_range burst m t : phase burst = (m, t) -> 0 < m <= MaxChunkPayloadLen.
Proof.
  unfold phase, MinRecordPayloadLen, MidRecordPayloadLen, MaxChunkPayloadLen.
  intros E. repeat case_match; simplify_eq; lia.
Qed.

(** The state of an open writer between operations and inside a batch: the
    chunks on the wire, and the ones sealed in the buffer. *)
Record open_writer (k : list byte) (fw : FramedWriter) (chunks pend : list (list byte)) : Prop := {
  ow_closed : fw_closed fw = false;
  ow_key : key (fw_stream fw) = k;
  ow_seq : sequence (fw_stream fw) = len chunks + len pend;
  ow_wire : wr_out (fw_w fw) = records (rawLayer k) 0 chunks;
  ow_buf : fw_buf fw = records (rawLayer k) (len chunks) pend;
  ow_data : data_chunks (rawLayer k) (chunks ++ pend);
}.

(** A writer that failed: what went out is a prefix of the sealed records. *)
Record failed_writer (k : list byte) (fw : FramedWriter) (chunks : list (list byte)) : Prop := {
  lw_closed : fw_closed fw = true;
  lw_wire : wr_out (fw_w fw) `prefix_of` records (rawLayer k) 0 chunks;
}.

(** [flush] sends the buffer or fails closed. *)
Lemma flush_spec k fw chunks pend err fw' :
  open_writer k fw chunks pend -> len chunks < 2 ^ 64 -> flush fw = (err, fw') ->
  match err with
  | None => open_writer k (setBuf fw' []) (chunks ++ pend) [] /\ burstBytes fw' = burstBytes fw
  | Some _ => failed_writer k fw' (chunks ++ pend)
  end.
Proof.
  intros [] Hn E. unfold flush in E.
  destruct (Write (fw_buf fw) (fw_w fw)) as [[n e] w'] eqn:Ew.
  pose proof (Write_count _ _ _ _ _ Ew) as [Hr Hout].
  assert (wr_out w' `prefix_of` records (rawLayer k) 0 (chunks ++ pend)) as Hpre.
  { rewrite records_app, Z.add_0_l, Hout, ow_wire0, ow_buf0 by lia. apply prefix_app.
    exists (zdrop n (records (rawLayer k) (len chunks) pend)). by rewrite ztake_zdrop. }
  destruct e as [x|]; [injection E as <- <-; by split|].
  destruct (Z.eqb_spec n (len (fw_buf fw))) as [En|En]; injection E as <- <-; [|by split].
  split; [|done]. split; cbn; try done.
  - rewrite ow_seq0. rewrite len_app. lia.
  - rewrite records_app, Z.add_0_l, Hout, ow_wire0, <- ow_buf0, ztake_all by lia. done.
  - by rewrite app_nil_r.
Qed.

(** Sealing a chunk into the buffer. *)
Lemma seal_spec k fw chunks pend c burst :
  open_writer k fw chunks pend -> 0 < len c <= MaxChunkPayloadLen ->
  len chunks + len pend < MaxUint64 ->
  exists buf s', EncryptChunk (fw_stream fw) (fw_buf fw) c = (Ok buf, s') /\
    open_writer k (mkFW (fw_w fw) s' buf burst (lastWrite fw) (fw_closed fw)) chunks (pend ++ [c]).
Proof.
  intros [] Hc Hn. unfold EncryptChunk. rewrite (proj2 (Z.ltb_ge _ _)) by lia.
  rewrite ow_seq0, (proj2 (Z.eqb_neq _ _)) by lia. do 2 eexists. split; [done|].
  unfold MaxUint64 in *. split; cbn [fw_closed fw_stream key sequence fw_w fw_buf]; try done.
  - rewrite len_app. change (len [c]) with 1. lia.
  - rewrite records_app by lia. cbn [records]. rewrite app_nil_r, <- ow_buf0. f_equal.
    unfold record. rewrite be_u16. cbn [rawLayer rseal]. unfold rawSeal. rewrite be_u16, ow_key0. done.
  - rewrite app_assoc. apply Forall_app. split; [done|]. by apply Forall_singleton.
Qed.

(** A carrier that takes everything never makes [flush] fail. *)
Lemma flush_sink fw err fw' :
  wr_sched (fw_w fw) = [] -> flush fw = (err, fw') -> err = None /\ wr_sched (fw_w fw') = [].
Proof.
  intros Hs E. unfold flush, Write in E. rewrite Hs, Z.eqb_refl in E. injection E as <- <-. done.
Qed.

(** What a batch does: all of it goes out, or the writer is closed after a
    prefix; [sched] is the schedule of the carrier. *)
Definition batch_result (k : list byte) (sched : list wr_event) (chunks pend rest : list (list byte)) (total : Z)
    (out : Z * option error * FramedWriter) : Prop :=
  let '(n, e, fw') := out in
  (sched = [] -> e = None /\ wr_sched (fw_w fw') = []) /\
  exists sealed, data_chunks (rawLayer k) sealed /\
  match e with
  | None =>
      open_writer k fw' (chunks ++ pend ++ sealed) [] /\ concat sealed = concat rest /\
      n = total + len (concat pend) + len (concat rest)
  | Some _ =>
      failed_writer k fw' (chunks ++ pend ++ sealed) /\ concat sealed `prefix_of` concat rest
  end.

Lemma records_nil k s chunks : records (rawLayer k) s chunks = [] -> chunks = [].
Proof.
  destruct chunks as [|p chunks]; [done|]. cbn [records]. intros E.
  apply app_eq_nil in E as [E _]. apply (f_equal (fun l => len l)) in E.
  rewrite len_record in E. cbn in E. lia.
Qed.

Lemma batch_result_cons k sched sched' chunks pend chunks' pend' rest rest' c total total' out :
  (sched = [] -> sched' = []) ->
  chunks' ++ pend' = chunks ++ pend ++ [c] -> concat rest = c ++ concat rest' ->
  0 < len c <= MaxChunkPayloadLen ->
  total' + len (concat pend') = total + len (concat pend) + len c ->
  batch_result k sched' chunks' pend' rest' total' out -> batch_result k sched chunks pend rest total out.
Proof.
  intros Hsc Ec Er Hc Et. unfold batch_result. destruct out as [[n e] fw'].
  intros (Hsink & sealed & Hd & Hres). split; [by auto|]. exists (c :: sealed). split; [by constructor|].
  assert (chunks ++ pend ++ c :: sealed = chunks' ++ pend' ++ sealed) as ->.
  { rewrite (app_assoc chunks'), Ec, <- !app_assoc. done. }
  rewrite Er. cbn [concat]. destruct e as [x|].
  - destruct Hres as [Hf Hp]. split; [done|]. by apply prefix_app.
  - destruct Hres as (Ho & Hcat & Hn). split_and!; [done|by rewrite Hcat|]. rewrite len_app. lia.
Qed.

Lemma batchLoop_spec fuel k fw chunks pend rest total :
  open_writer k fw chunks pend ->
  len chunks + len pend + len (concat rest) < MaxUint64 ->
  (length (concat rest) + length rest < fuel)%nat ->
  batch_result k (wr_sched (fw_w fw)) chunks pend rest total (batchLoop fuel fw rest total (len (concat pend))).
Proof.
  revert fw chunks pend rest total. induction fuel as [|fuel IH]; intros fw chunks pend rest total Ho Hn Hf; [lia|].
  cbn [batchLoop]. destruct rest as [|[|x p] more].
  - destruct (Z.ltb_spec 0 (len (fw_buf fw))) as [Hb|Hb].
    + destruct (flush fw) as [err fw1] eqn:Efl. pose proof (fun Hs => flush_sink _ _ _ Hs Efl) as Hsink.
      apply (flush_spec k _ _ _ _ _ Ho) in Efl; [|unfold MaxUint64 in *; lia].
      destruct err as [e|]; (split; [by intros Hs; destruct (Hsink Hs)|]);
        exists []; (split; [constructor|]); rewrite !app_nil_r; [done|].
      destruct Efl as [Ho' _]. split_and!; [done|done|cbn; lia].
    + assert (pend = []) as ->.
      { destruct Ho. apply (records_nil k (len chunks)). rewrite <- ow_buf0. apply len_zero. lia. }
      split; [done|]. exists []. split; [constructor|]. rewrite !app_nil_r. split_and!; [done|done|cbn; lia].
  - apply (IH fw chunks pend more total Ho); cbn [concat app] in *; [done|]. cbn [length] in Hf. lia.
  - destruct (phase (burstBytes fw)) as [maxChunk thr] eqn:Eph. apply phase_range in Eph.
    set (P := x :: p) in *. fold (pick maxChunk P more).
    destruct (pick maxChunk P more) as [c rest'] eqn:Ep.
    apply pick_spec in Ep as (Hcat & Hc & Hlen); [|lia|done].
    destruct (seal_spec k fw chunks pend c (i64 (burstBytes fw + len c)) Ho) as (buf & s' & -> & Ho1); [lia|lia|].
    assert (0 < length c)%nat by lia.
    assert (length (concat (P :: more)) = length c + length (concat rest'))%nat as Hl
      by (by rewrite Hcat, length_app).
    assert (length (concat rest') + length rest' < fuel)%nat by (cbn [length] in Hf; lia).
    destruct ((thr =? 0) || (thr <=? len buf)).
    + destruct (flush _) as [err fw2] eqn:Efl. pose proof (fun Hs => flush_sink _ _ _ Hs Efl) as Hsink.
      apply (flush_spec k _ _ _ _ _ Ho1) in Efl; [|unfold MaxUint64 in *; lia].
      destruct err as [e|].
      * split; [by intros Hs; destruct (Hsink Hs)|].
        exists [c]. split; [by apply Forall_singleton; unfold data_chunks in *; cbn; lia|]. split; [done|].
        rewrite Hcat. cbn. rewrite app_nil_r. by apply prefix_app_r.
      * destruct Efl as [Ho2 _].
        eapply (batch_result_cons k _ _ chunks pend (chunks ++ pend ++ [c]) []);
          [|by rewrite app_nil_r|exact Hcat|lia| |apply (IH _ (chunks ++ pend ++ [c]) [] rest')].
        -- by intros Hs; destruct (Hsink Hs).
        -- cbn. lia.
        -- done.
        -- rewrite !len_app. change (len [c]) with 1. cbn. lia.
        -- done.
    + assert (len (concat (pend ++ [c])) = len (concat pend) + len c) as Hpc.
      { rewrite concat_app, len_app. cbn. rewrite app_nil_r. done. }
      eapply (batch_result_cons k _ _ chunks pend chunks (pend ++ [c])); [|done|exact Hcat|lia| |].
      3:{ rewrite <- Hpc. apply (IH _ chunks (pend ++ [c]) rest'); [done| |done].
          rewrite len_app. change (len [c]) with 1. lia. }
      * done.
      * lia.
Qed.

(** ** The writer implements the interface *)

(** A writer between two operations; the buffer is reset by the next one. *)
Definition idle_writer (k : list byte) (fw : FramedWriter) (chunks : list (list byte)) : Prop :=
  open_writer k (setBuf fw []) chunks [].

Lemma idle_out k fw chunks :
  idle_writer k fw chunks ->
  wr_out (fw_w fw) = records (rawLayer k) 0 chunks /\ data_chunks (rawLayer k) chunks.
Proof. intros []. split; [done|]. by rewrite app_nil_r in ow_data0. Qed.

Lemma WriteBatch_law k fw chunks now buffers :
  idle_writer k fw chunks -> len chunks + len (concat buffers) < MaxUint64 ->
  let fw' := snd (WriteBatch now fw buffers) in
  exists sealed, data_chunks (rawLayer k) sealed /\
    ((idle_writer k fw' (chunks ++ sealed) /\ concat sealed = concat buffers) \/
     (fw_closed fw' = true /\ wr_out (fw_w fw') `prefix_of` records (rawLayer k) 0 (chunks ++ sealed) /\
      concat sealed `prefix_of` concat buffers)).
Proof.
  intros Ho Hn. unfold WriteBatch. assert (fw_closed fw = false) as -> by apply Ho.
  set (fw1 := mkFW _ _ _ _ _ _).
  assert (open_writer k fw1 chunks []) as Ho1 by (destruct Ho; by split).
  pose proof (batchLoop_spec (batchFuel buffers) k fw1 chunks [] buffers 0 Ho1) as Hb.
  cbn [length concat] in Hb. change (Z.of_nat 0) with 0 in Hb.
  destruct (batchLoop (batchFuel buffers) fw1 buffers 0 0) as [[n e] fw'].
  destruct Hb as (_ & sealed & Hs & Hres); [lia|unfold batchFuel; lia|]. cbn [snd app] in *.
  exists sealed. split; [done|]. destruct e as [x|].
  - right. destruct Hres as [[Hcl Hw] Hpre]. done.
  - left. destruct Hres as (Ho' & Hcat & _). split; [destruct Ho'; by split|done].
Qed.

Lemma WriteEOF_law k fw chunks :
  idle_writer k fw chunks -> len chunks < MaxUint64 ->
  fw_closed (snd (WriteEOF fw)) = true /\
  wr_out (fw_w (snd (WriteEOF fw))) `prefix_of`
    records (rawLayer k) 0 chunks ++ record (rawLayer k) (len chunks) [].
Proof.
  intros Ho Hn. unfold WriteEOF. assert (fw_closed fw = false) as -> by apply Ho.
  destruct (idle_out k fw chunks Ho) as [Hwire _]. destruct Ho. cbn [fw_stream setBuf] in *.
  unfold EncryptChunk. cbn [length]. rewrite (proj2 (Z.ltb_ge _ _)) by (unfold MaxChunkPayloadLen; lia).
  rewrite ow_seq0, (proj2 (Z.eqb_neq _ _)) by (cbn; lia). cbn [app length].
  unfold flush. cbn [fw_buf fw_w]. set (buf := be 2 _ ++ _).
  destruct (Write buf (fw_w fw)) as [[n e] w'] eqn:Ew. cbn [snd].
  split; [cbn; by case_match|]. cbn [fw_w].
  apply Write_count in Ew as [Hr ->]. rewrite Hwire. apply prefix_app.
  assert (record (rawLayer k) (len chunks) [] = buf) as ->.
  { unfold buf, record. rewrite !be_u16. cbn [rawLayer rseal]. unfold rawSeal. rewrite be_u16, ow_key0.
    change (Z.of_nat 0) with 0. rewrite Z.add_0_r. done. }
  exists (zdrop n buf). by rewrite ztake_zdrop.
Qed.

(** The batches of the writer: a time and the slices. *)
Definition rawWriter (k : list byte) : RecordWriter (rawLayer k).
Proof.
  refine (mkRecordWriter (rawLayer k) FramedWriter (Z * list (list byte)) (fun i => concat (snd i))
    (fun fw => wr_out (fw_w fw)) fw_closed (fun fw i => snd (WriteBatch (fst i) fw (snd i)))
    (fun fw => snd (WriteEOF fw)) (idle_writer k) _ _ _ _ _).
  - apply idle_out.
  - intros fw chunks [now buffers]. apply WriteBatch_law.
  - apply WriteEOF_law.
  - intros fw i Hc. unfold WriteBatch. by rewrite Hc.
  - intros fw Hc. unfold WriteEOF. by rewrite Hc.
Defined.

Lemma new_idle k w : wr_out w = [] -> idle_writer k (NewFramedWriter w (NewAEADStream k)) [].
Proof. intros Hw. split; cbn; try done. constructor. Qed.

(** ** Properties *)

(** C3: end to end over any failing network: whatever a sender writes in
    whatever batches, however its carrier fails or writes short, and wherever
    the bytes it put out are cut, fragmented or interrupted by deadlines on
    their way, the receiver reads a prefix of what was written, and it sees a
    clean end only when the sender ended the stream and everything written was
    delivered; otherwise it sees [io.ErrUnexpectedEOF]. *)
Theorem raw_stream_safety k w (ops : list (op (rw_input (rawWriter k)))) cut r plen :
  wr_out w = [] -> len (fst (written (rawWriter k) ops)) < MaxUint64 ->
  cut `prefix_of` wr_out (fw_w (runOps (rawWriter k) (NewFramedWriter w (NewAEADStream k)) ops)) ->
  carries r cut -> 0 < plen ->
  exists got e,
    rawReadAll (readFuel r) (NewFramedReader r (NewAEADStream k)) plen = (got, Some e) /\
    got `prefix_of` fst (written (rawWriter k) ops) /\ (e = EOF \/ e = ErrUnexpectedEOF) /\
    (e = EOF -> snd (written (rawWriter k) ops) = true /\ got = fst (written (rawWriter k) ops)).
Proof.
  intros Hw Hn Hcut [Hr Ec] Hp.
  destruct (writer_safety (rawWriter k) _ ops cut (new_idle k w Hw) Hn Hcut) as (got & e & Hparse & Hres).
  exists got, e. by rewrite rawReadAll_reference, Ec, Hparse by done.
Qed.

(** over a carrier that takes everything, nothing is lost: every batch is
    reported as written in full, and after [WriteEOF] the receiver reads all of
    it and then a clean end, for every fragmentation and with deadlines
    anywhere. *)
Theorem raw_stream_roundtrip k now buffers r plen :
  len (concat buffers) < MaxUint64 ->
  let '(n, e, fw) := WriteBatch now (NewFramedWriter sink (NewAEADStream k)) buffers in
  n = len (concat buffers) /\ e = None /\
  (carries r (wr_out (fw_w (snd (WriteEOF fw)))) -> 0 < plen ->
   rawReadAll (readFuel r) (NewFramedReader r (NewAEADStream k)) plen = (concat buffers, Some EOF)).
Proof.
  intros Hn. unfold WriteBatch. cbn [NewFramedWriter fw_closed lastWrite fw_w fw_stream burstBytes].
  set (fw1 := mkFW _ _ _ _ _ _).
  assert (open_writer k fw1 [] []) as Ho by (split; try done; constructor).
  pose proof (batchLoop_spec (batchFuel buffers) k fw1 [] [] buffers 0 Ho) as Hb.
  change (len (concat (@nil (list byte)))) with 0 in Hb.
  destruct (batchLoop (batchFuel buffers) fw1 buffers 0 0) as [[n e] fw'].
  destruct Hb as (Hsink & sealed & Hs & Hres); [cbn; lia|unfold batchFuel; lia|].
  destruct (Hsink eq_refl) as [-> Hsch]. destruct Hres as (Ho' & Hcat & Hlen). cbn in Hlen.
  split_and!; [lia|done|]. intros [Hr Ec] Hp. cbn [app] in Ho'.
  assert (len sealed <= len (concat buffers)) as Hcount by (rewrite <- Hcat; by apply (data_chunks_count (rawLayer k))).
  destruct Ho'.
  rewrite rawReadAll_reference, Ec by done.
  assert (wr_out (fw_w (snd (WriteEOF fw'))) = records (rawLayer k) 0 sealed ++ record (rawLayer k) (len sealed) []) as ->.
  { rewrite <- ow_wire0. unfold WriteEOF. rewrite ow_closed0. unfold EncryptChunk. cbn [length].
    rewrite (proj2 (Z.ltb_ge _ _)) by (unfold MaxChunkPayloadLen; lia).
    rewrite ow_seq0, (proj2 (Z.eqb_neq _ _)) by (cbn; lia). unfold flush, Write. cbn [fw_buf fw_w].
    rewrite Hsch. cbn [snd fw_w wr_out app]. f_equal. unfold record. rewrite !be_u16.
    cbn [rawLayer rseal length]. unfold rawSeal. rewrite be_u16, ow_key0. change (Z.of_nat 0) with 0.
    by rewrite Z.add_0_r. }
  rewrite parse_closed by (done || (unfold MaxUint64 in *; lia)). by rewrite Hcat.
Qed.

(** nothing but sealed records gets through: whatever bytes the network
    delivers, the plaintext a reader hands out is that of records sealed under
    the session key in exactly this order from number zero on, and a clean end
    is a sealed empty record in the next place; so no record can be replayed,
    reordered, dropped or moved between the two directions. *)
Theorem raw_stream_integrity k r plen got e :
  rd_lossless r -> 0 < plen ->
  rawReadAll (readFuel r) (NewFramedReader r (NewAEADStream k)) plen = (got, Some e) ->
  exists chunks rest, rd_content r = records (rawLayer k) 0 chunks ++ rest /\ got = concat chunks /\
    data_chunks (rawLayer k) chunks /\
    (e = EOF -> exists rest', rest = record (rawLayer k) (seqAfter 0 chunks) [] ++ rest').
Proof.
  intros Hr Hp E. rewrite rawReadAll_reference in E by done.
  destruct (parse_records (rawLayer k) 0 (rd_content r)) as [d x] eqn:Ep. injection E as -> ->.
  by apply parse_inv in Ep.
Qed.

End Writer.

(** ** Witnesses *)

Definition wkey : list byte := bs "0123456789abcdef".
Definition sampleOps : list (op (Z * list (list byte))) :=
  [OpWrite (0, [bs "hello "; []; bs "wor"]); OpWrite (5, [bs "ld"]); OpEOF; OpWrite (9, [bs "late"])].
Definition shortCarrier : writer := mkWriter [] [WR 1000 None; WR 7 None].
Definition sampleWire : list byte := wr_out (fw_w (runOps (rawWriter wkey) (NewFramedWriter shortCarrier (NewAEADStream wkey)) sampleOps)).

Lemma raw_stream_safety_witness :
  exists got e,
    rawReadAll (readFuel [RD sampleWire None]) (NewFramedReader [RD sampleWire None] (NewAEADStream wkey)) 4 = (got, Some e) /\
    got `prefix_of` fst (written (rawWriter wkey) sampleOps).
Proof.
  destruct (raw_stream_safety wkey shortCarrier sampleOps sampleWire [RD sampleWire None] 4)
    as (got & e & H1 & H2 & _).
  - reflexivity.
  - vm_compute. reflexivity.
  - reflexivity.
  - split; [by repeat constructor|]. vm_compute. reflexivity.
  - lia.
  - exists got, e. exact (conj H1 H2).
Defined.

Example shortCarrier_reads :
  rawReadAll (readFuel [RD sampleWire None]) (NewFramedReader [RD sampleWire None] (NewAEADStream wkey)) 4
  = (bs "hello wor", Some ErrUnexpectedEOF).
Proof. vm_compute. reflexivity. Qed.

Lemma raw_stream_roundtrip_witness :
  let '(n, e, fw) := WriteBatch 3 (NewFramedWriter sink (NewAEADStream wkey)) [bs "ab"; bs "c"] in
  n = 3 /\ e = None.
Proof.
  pose proof (raw_stream_roundtrip wkey 3 [bs "ab"; bs "c"] [] 1) as H.
  destruct (WriteBatch 3 (NewFramedWriter sink (NewAEADStream wkey)) [bs "ab"; bs "c"]) as [[n e] fw].
  destruct H as (Hn & He & _); [vm_compute; reflexivity|]. exact (conj Hn He).
Defined.

Lemma raw_stream_integrity_witness :
  exists chunks rest, rd_content [RD sampleWire None] = records (rawLayer wkey) 0 chunks ++ rest /\
    bs "hello wor" = concat chunks.
Proof.
  destruct (raw_stream_integrity wkey [RD sampleWire None] 4 (bs "hello wor") ErrUnexpectedEOF)
    as (chunks & rest & H1 & H2 & _).
  - repeat constructor.
  - lia.
  - vm_compute. reflexivity.
  - exists chunks, rest. exact (conj H1 H2).
Defined.
