(* ===== verification/H1Session.v ===== *)
(** * The session of [internal/h1session] (session.go, stream.go)

    The HTTP/1.1 carrier's handshake (matching of the ClientHello, 0-RTT chunk,
    ServerHello, key schedule), the OPEN frame, and the AEAD stream with its
    framed writer.  The framed reader is [Records.Reader] over the record layer
    of ChaCha20-Poly1305 defined here. *)
From S2P Require Import Prelude GoIO GoNet Crypto Address Records.

Open Scope Z_scope.

(** ** Constants and errors *)

Definition ClientHelloSize : Z := 48.
Definition ServerHelloSize : Z := 40.
Definition MaxChunkPayloadLen : Z := 16384.
Definition MaxChunkWireLen : Z := MaxChunkPayloadLen + 16.
Definition MaxTimestampSkew : Z := 90.

Definition DomainClientHello := bs "MYXRAY-H1-CLIENT-V1".
Definition DomainSessionInfo := bs "MYXRAY-H1-SESSION-V1".
Definition Domain0RTT := bs "MYXRAY-H1-0RTT-V1".
Definition CmdConnectTCP : byte := Byte.x01.

Definition ErrInvalidRecordLen := Errorf "h1session: invalid handshake record length".
Definition ErrTimestampExpired := Errorf "h1session: timestamp out of acceptable window".
Definition ErrInvalidClientAuth := Errorf "h1session: invalid client authentication tag".
Definition ErrInvalidServerAuth := Errorf "h1session: invalid server authentication tag".
Definition ErrDecryptionFailed := Errorf "h1session: AEAD chunk decryption failed".
Definition ErrChunkTooLarge := Errorf "h1session: AEAD chunk length exceeds maximum allowed size".
Definition ErrInvalidOpenFrame := Errorf "h1session: invalid OPEN frame structure".
Definition ErrInvalidAddressType := Errorf "h1session: unsupported address type in OPEN frame".
Definition errShortPSK := Errorf "h1session: PSK must be at least 32 bytes".

Section Session.
  Context `{Crypto}.

(** ** Handshake *)

Definition CreateClientHello (psk : list byte) (now : Z) (rnd : reader)
  : result (list byte * list byte * Z * reader) :=
  if len psk <? 32 then Fail errShortPSK
  else
    let timestamp := u64 now in
    let? (clientNonce, rnd1) := randBytes "h1session: random generator failed" 24 rnd in
    let tsBuf := be 8 timestamp in
    let fullTag := hmac psk (DomainClientHello ++ tsBuf ++ clientNonce) in
    Ok (tsBuf ++ clientNonce ++ take 16 fullTag, clientNonce, timestamp, rnd1).

Fixpoint matchKeys (i : nat) (keys : list (list byte)) (record : list byte) : option nat :=
  match keys with
  | [] => None
  | psk :: rest =>
      if len psk <? 32 then matchKeys (S i) rest record
      else
        let expectedFullTag := hmac psk (DomainClientHello ++ slice 0 8 record ++ slice 8 32 record) in
        if bool_decide (slice 32 48 record = take 16 expectedFullTag) then Some i
        else matchKeys (S i) rest record
  end.

Definition MatchClientHello (keys : list (list byte)) (record : list byte) (now : Z)
  : result (nat * list byte * Z) :=
  if negb (len record =? ClientHelloSize) then Fail ErrInvalidRecordLen
  else
    let timestamp := be_val (slice 0 8 record) in
    let clientNonce := slice 8 32 record in
    if timestampExpired MaxTimestampSkew now timestamp then Fail ErrTimestampExpired
    else match matchKeys 0 keys record with
    | Some i => Ok (i, clientNonce, timestamp)
    | None => Fail ErrInvalidClientAuth
    end.

Definition VerifyClientHello (psk record : list byte) (now : Z) : result (list byte * Z) :=
  if len psk <? 32 then Fail errShortPSK
  else
    let? (_, cNonce, ts) := MatchClientHello [psk] record now in
    Ok (cNonce, ts).

Definition Derive0RTTKey (psk : list byte) (timestamp : Z) (clientNonce : list byte) : result (list byte) :=
  if len psk <? 32 then Fail errShortPSK
  else
    let prk := hmac clientNonce psk in
    let t1 := hmac prk (Domain0RTT ++ be 8 timestamp ++ [Byte.x01]) in
    Ok (take 32 t1).

Definition nonce0RTT : list byte := bs "0RTT" ++ replicate 8 Byte.x00.

Definition Encrypt0RTTChunk (k plaintext : list byte) : result (list byte) :=
  if MaxChunkPayloadLen <? len plaintext then Fail ErrChunkTooLarge
  else
    let wireLen := len plaintext + Overhead in
    Ok (be 2 (u16 wireLen) ++ seal ChaCha20Poly1305 k nonce0RTT plaintext []).

Definition Decrypt0RTTChunk (k ciphertextWithTag : list byte) : result (list byte) :=
  if MaxChunkWireLen <? len ciphertextWithTag then Fail ErrChunkTooLarge
  else match open ChaCha20Poly1305 k nonce0RTT ciphertextWithTag [] with
  | Some p => Ok p
  | None => Fail ErrDecryptionFailed
  end.

Definition deriveKeys (psk clientNonce serverNonce : list byte) : list byte * list byte * list byte :=
  let prk := hmac (clientNonce ++ serverNonce) psk in
  let t1 := hmac prk (DomainSessionInfo ++ [Byte.x01]) in
  let t2 := hmac prk (t1 ++ DomainSessionInfo ++ [Byte.x02]) in
  let t3 := hmac prk (t2 ++ DomainSessionInfo ++ [Byte.x03]) in
  (t1, t2, take 16 t3).

Definition CreateServerHello (psk clientNonce : list byte) (rnd : reader)
  : result (list byte * list byte * list byte * reader) :=
  let? (serverNonce, rnd1) := randBytes "h1session: random generator failed" 24 rnd in
  let '(clientKey, serverKey, serverAuthTag) := deriveKeys psk clientNonce serverNonce in
  Ok (serverNonce ++ serverAuthTag, clientKey, serverKey, rnd1).

Definition VerifyServerHello (psk clientNonce serverHello : list byte) : result (list byte * list byte) :=
  if negb (len serverHello =? ServerHelloSize) then Fail ErrInvalidRecordLen
  else
    let serverNonce := slice 0 24 serverHello in
    let serverTag := slice 24 40 serverHello in
    let '(clientKey, serverKey, expectedServerAuthTag) := deriveKeys psk clientNonce serverNonce in
    if bool_decide (serverTag = expectedServerAuthTag) then Ok (clientKey, serverKey)
    else Fail ErrInvalidServerAuth.

(** ** OPEN frame *)

Definition EncodeOpenFrame (targetAddress : gostring) (initialPayload : list byte) : result (list byte) :=
  let? (host, port) := splitTarget 1 (Errorf "h1session: invalid target address")
    (Errorf "h1session: invalid port") targetAddress in
  let? buf := appendHost (Errorf "h1session: invalid domain host length") host in
  Ok (CmdConnectTCP :: buf ++ be 2 port ++ initialPayload).

(** The host of an OPEN frame and the offset behind it. *)
Definition decodeHost (data : list byte) : result (gostring * Z) :=
  let addrType := at_ data 1 in
  if bool_decide (addrType = atypIPv4) then
    if len data <? 2 + 4 + 2 then Fail ErrInvalidOpenFrame
    else Ok (IPString (slice 2 6 data), 6)
  else if bool_decide (addrType = atypDomain) then
    if len data <? 2 + 1 then Fail ErrInvalidOpenFrame
    else
      let domainLen := byteZ (at_ data 2) in
      if len data <? 3 + domainLen + 2 then Fail ErrInvalidOpenFrame
      else Ok (ztake domainLen (drop 3 data), 3 + domainLen)
  else if bool_decide (addrType = atypIPv6) then
    if len data <? 2 + 16 + 2 then Fail ErrInvalidOpenFrame
    else Ok (IPString (slice 2 18 data), 18)
  else Fail ErrInvalidAddressType.

Definition DecodeOpenFrame (data : list byte) : result (gostring * list byte) :=
  if len data <? 7 then Fail ErrInvalidOpenFrame
  else if negb (bool_decide (at_ data 0 = CmdConnectTCP)) then Fail (Errorf "h1session: unsupported command")
  else
    let? (host, offset) := decodeHost data in
    let port := be_val (take 2 (zdrop offset data)) in
    Ok (JoinHostPort host (Itoa port), zdrop (offset + 2) data).

(** ** AEAD streams *)

(** [Direction]: four bytes that separate the two nonce spaces. *)
Inductive Direction := DirClientToServer | DirServerToClient.

Definition dirBytes (d : Direction) : list byte :=
  match d with
  | DirClientToServer => bs "C2S" ++ [Byte.x00]
  | DirServerToClient => bs "S2C" ++ [Byte.x00]
  end.

Record AEADStream := mkStream {
  key : list byte;
  direction : Direction;
  seq : Z;
}.

Definition NewAEADStream (k : list byte) (dir : Direction) : AEADStream := mkStream k dir 0.

Definition streamNonce (dir : Direction) (seq : Z) : list byte := dirBytes dir ++ be 8 seq.

Definition EncryptChunk (s : AEADStream) (dst plaintext : list byte) : result (list byte) * AEADStream :=
  if MaxChunkPayloadLen <? len plaintext then (Fail ErrChunkTooLarge, s)
  else
    let wireLen := len plaintext + Overhead in
    (Ok (dst ++ be 2 (u16 wireLen) ++
         seal ChaCha20Poly1305 (key s) (streamNonce (direction s) (seq s)) plaintext []),
     mkStream (key s) (direction s) (u64 (seq s + 1))).

Definition DecryptChunk (s : AEADStream) (ciphertextWithTag : list byte) : result (list byte) * AEADStream :=
  if MaxChunkWireLen <? len ciphertextWithTag then (Fail ErrChunkTooLarge, s)
  else
    let s' := mkStream (key s) (direction s) (u64 (seq s + 1)) in
    match open ChaCha20Poly1305 (key s) (streamNonce (direction s) (seq s)) ciphertextWithTag [] with
    | Some p => (Ok p, s')
    | None => (Fail ErrDecryptionFailed, s')
    end.

(** ** [FramedWriter] *)

Record FramedWriter := mkFW {
  fw_w : writer;
  fw_stream : AEADStream;
  fw_closed : bool;
}.

Definition NewFramedWriter (w : writer) (s : AEADStream) : FramedWriter := mkFW w s false.

Definition flush (fw : FramedWriter) (buf : list byte) : option error * FramedWriter :=
  let '(n, err, w') := Write buf (fw_w fw) in
  let err := match err with
             | None => if n =? len buf then None else Some ErrShortWrite
             | Some e => Some e
             end in
  (err, mkFW w' (fw_stream fw) (match err with Some _ => true | None => fw_closed fw end)).

Fixpoint writeLoop (fuel : nat) (fw : FramedWriter) (p : list byte) (n total : Z)
  : Z * option error * FramedWriter :=
  if bool_decide (p = []) then (total, None, fw)
  else match fuel with
  | O => (n, Some (Errorf "fuel"), fw)
  | S fuel =>
      let chunkSize := Z.min (len p) MaxChunkPayloadLen in
      let '(sealed, s') := EncryptChunk (fw_stream fw) [] (ztake chunkSize p) in
      match sealed with
      | Fail err => (n, Some err, mkFW (fw_w fw) s' (fw_closed fw))
      | Ok buf =>
          let '(err, fw1) := flush (mkFW (fw_w fw) s' (fw_closed fw)) buf in
          match err with
          | Some e => (n, Some e, fw1)
          | None => writeLoop fuel fw1 (zdrop chunkSize p) (n + chunkSize) total
          end
      end
  end.

(** One turn for each chunk. *)
Definition writeFuel (p : list byte) : nat := Z.to_nat (len p / MaxChunkPayloadLen + 1).

Definition FramedWriter_Write (fw : FramedWriter) (p : list byte) : Z * option error * FramedWriter :=
  if fw_closed fw then (0, Some ErrClosedPipe, fw) else writeLoop (writeFuel p) fw p 0 (len p).

Definition WriteEOF (fw : FramedWriter) : option error * FramedWriter :=
  if fw_closed fw then (None, fw)
  else
    let '(sealed, s') := EncryptChunk (fw_stream fw) [] [] in
    match sealed with
    | Fail err => (Some err, mkFW (fw_w fw) s' true)
    | Ok buf => flush (mkFW (fw_w fw) s' true) buf
    end.

(** ** The record layer *)

Definition h1Seal (k : list byte) (dir : Direction) (s : Z) (p : list byte) : list byte :=
  seal ChaCha20Poly1305 k (streamNonce dir s) p [].

Definition h1Open (k : list byte) (dir : Direction) (s : Z) (c : list byte) : option (list byte) :=
  match fst (DecryptChunk (mkStream k dir s) c) with Ok p => Some p | Fail _ => None end.

Definition h1Layer (k : list byte) (dir : Direction) : RecordLayer.
Proof.
  refine (mkLayer MaxChunkPayloadLen (h1Seal k dir) (h1Open k dir) ErrDecryptionFailed ErrChunkTooLarge _ _ _ _ _ _).
  - done.
  - intros s p Hs Hp. unfold h1Open, DecryptChunk, h1Seal, MaxChunkWireLen. cbn [key direction seq].
    rewrite seal_length, (proj2 (Z.ltb_ge _ _)) by lia. by rewrite open_seal.
  - intros s c p. unfold h1Open, DecryptChunk, h1Seal. cbn [key direction seq].
    destruct (MaxChunkWireLen <? len c); [done|].
    destruct (open _ _ _ _ _) eqn:E; [|done]. cbn. intros [= <-]. by apply open_sound in E.
  - intros. apply seal_length.
  - done.
  - done.
Defined.

(** ** [Conn]: the framed reader and writer of one side *)

Record Conn := mkConn {
  connLayer : RecordLayer;
  connReader : Reader;
  connWriter : FramedWriter;
}.

(** [NewConn]: the keys and directions of the two streams. *)
Definition NewConn (r : reader) (w : writer) (clientKey serverKey : list byte) (isClient : bool) : Conn :=
  if isClient then
    mkConn (h1Layer serverKey DirServerToClient) (NewReader r)
      (NewFramedWriter w (NewAEADStream clientKey DirClientToServer))
  else
    mkConn (h1Layer clientKey DirClientToServer) (NewReader r)
      (NewFramedWriter w (NewAEADStream serverKey DirServerToClient)).

End Session.

(** ** Handshake *)

Section Proofs.
  Context `{Crypto}.

(** A key accepts a hello. *)
Definition accepts (psk record : list byte) : bool :=
  (32 <=? len psk) &&
  bool_decide (slice 32 48 record = take 16 (hmac psk (DomainClientHello ++ slice 0 8 record ++ slice 8 32 record))).

Lemma matchKeys_first i keys record j :
  matchKeys i keys record = Some j <->
  exists n psk, j = (i + n)%nat /\ keys !! n = Some psk /\ accepts psk record = true /\
    forall m k, (m < n)%nat -> keys !! m = Some k -> accepts k record = false.
Proof.
  revert i. induction keys as [|psk keys IH]; intros i; cbn [matchKeys].
  { split; [done|]. by intros (n & k & _ & Hk & _). }
  assert ((if len psk <? 32 then matchKeys (S i) keys record
    else if bool_decide (slice 32 48 record = take 16 (hmac psk (DomainClientHello ++ slice 0 8 record ++ slice 8 32 record)))
    then Some i else matchKeys (S i) keys record) =
    if accepts psk record then Some i else matchKeys (S i) keys record) as ->.
  { unfold accepts. destruct (Z.ltb_spec (len psk) 32).
    - by rewrite (proj2 (Z.leb_gt _ _)) by lia.
    - by rewrite (proj2 (Z.leb_le _ _)) by lia. }
  destruct (accepts psk record) eqn:Ea.
  - split.
    + intros [= <-]. exists 0%nat, psk. split_and!; [lia|done|done|]. intros m k Hm. lia.
    + intros ([|n] & k & -> & Hk & Hacc & Hfirst); [f_equal; lia|].
      rewrite (Hfirst 0%nat psk) in Ea; [done|lia|done].
  - rewrite IH. split.
    + intros (n & k & -> & Hk & Hacc & Hfirst). exists (S n), k. split_and!; [lia|done|done|].
      intros [|m] q Hm Hq; [by injection Hq as <-|]. apply (Hfirst m); [lia|done].
    + intros ([|n] & k & -> & Hk & Hacc & Hfirst); [injection Hk as <-; congruence|].
      exists n, k. split_and!; [lia|done|done|]. intros m q Hm Hq. apply (Hfirst (S m)); [lia|done].
Qed.

Lemma create_hello_inv psk now rnd hello nonce ts rnd' :
  CreateClientHello psk now rnd = Ok (hello, nonce, ts, rnd') ->
  len hello = 48 /\ ts = u64 now /\ slice 0 8 hello = be 8 ts /\ slice 8 32 hello = nonce /\
  accepts psk hello = true.
Proof.
  unfold CreateClientHello. destruct (len psk <? 32) eqn:El; [done|]. bool_to_prop.
  destruct (randBytes _ 24 rnd) as [[n r]|] eqn:En; [|done]. apply randBytes_ok in En; [|done].
  intros E. assert (n = nonce /\ u64 now = ts) as [-> <-] by (split; congruence).
  set (t := take 16 _) in E.
  assert (length t = 16%nat) as Ht by (unfold t; rewrite length_take, hmac_length; done).
  assert (hello = be 8 (u64 now) ++ nonce ++ t ++ []) as -> by (rewrite app_nil_r; congruence).
  assert (slice 0 8 (be 8 (u64 now) ++ nonce ++ t ++ []) = be 8 (u64 now)) as E0
    by (apply slice_head; by rewrite length_be).
  assert (slice 8 32 (be 8 (u64 now) ++ nonce ++ t ++ []) = nonce) as E8
    by (apply slice_field; rewrite length_be; lia).
  assert (slice 32 48 (be 8 (u64 now) ++ nonce ++ t ++ []) = t) as E32
    by (apply slice_field2; rewrite length_be; lia).
  split_and!; [rewrite !len_app, len_be; cbn; lia|done|done|done|].
  unfold accepts. rewrite E0, E8, E32, bool_decide_true by done.
  by rewrite (proj2 (Z.leb_le _ _)) by lia.
Qed.

Lemma match_created keys i psk now now' rnd hello nonce ts rnd' :
  CreateClientHello psk now rnd = Ok (hello, nonce, ts, rnd') -> - 90 <= now' - now <= 90 ->
  keys !! i = Some psk ->
  (forall j k, (j < i)%nat -> keys !! j = Some k -> accepts k hello = false) ->
  MatchClientHello keys hello now' = Ok (i, nonce, ts).
Proof.
  intros E Hnow Hi Hfirst. apply create_hello_inv in E as (Hl & -> & E0 & E8 & Hacc).
  unfold MatchClientHello. rewrite (proj2 (Z.eqb_eq (len hello) ClientHelloSize) Hl), E0, E8. cbn [negb].
  rewrite be_val_be8 by apply u64_range.
  rewrite timestampExpired_fresh by (unfold MaxTimestampSkew; lia).
  rewrite (proj2 (matchKeys_first 0 keys hello i)); [done|]. exists i, psk. done.
Qed.

Lemma h1_verify_server_created psk nonce rnd answer ck sk rnd' :
  CreateServerHello psk nonce rnd = Ok (answer, ck, sk, rnd') -> VerifyServerHello psk nonce answer = Ok (ck, sk).
Proof.
  unfold CreateServerHello. destruct (randBytes _ 24 rnd) as [[sn r]|] eqn:En; [|done].
  apply randBytes_ok in En; [|done].
  destruct (deriveKeys psk nonce sn) as [[k1 k2] tag] eqn:Ek.
  assert (length tag = 16%nat) as Ht.
  { unfold deriveKeys in Ek. injection Ek as _ _ <-. by rewrite length_take, hmac_length. }
  intros E. assert (answer = sn ++ tag ++ []) as -> by (rewrite app_nil_r; congruence).
  unfold VerifyServerHello.
  rewrite !len_app, (proj2 (Z.eqb_eq _ _)) by (unfold ServerHelloSize; cbn [length]; lia).
  rewrite slice_head, slice_field, Ek by lia. rewrite bool_decide_true by done. cbn. congruence.
Qed.

(** ** The writer puts records on the wire *)

Record idle_writer (k : list byte) (dir : Direction) (fw : FramedWriter) (chunks : list (list byte)) : Prop := {
  iw_closed : fw_closed fw = false;
  iw_stream : fw_stream fw = mkStream k dir (len chunks);
  iw_wire : wr_out (fw_w fw) = records (h1Layer k dir) 0 chunks;
  iw_data : data_chunks (h1Layer k dir) chunks;
}.

(** Sealing and sending one record. *)
Lemma send_record k dir fw chunks c closed err fw' :
  idle_writer k dir fw chunks -> len c <= MaxChunkPayloadLen -> len chunks < 2 ^ 64 - 1 ->
  exists buf, EncryptChunk (fw_stream fw) [] c = (Ok buf, mkStream k dir (len chunks + 1)) /\
    buf = record (h1Layer k dir) (len chunks) c /\
    (flush (mkFW (fw_w fw) (mkStream k dir (len chunks + 1)) closed) buf = (err, fw') ->
     wr_out (fw_w fw') `prefix_of` records (h1Layer k dir) 0 chunks ++ buf /\
     (err = None -> wr_out (fw_w fw') = records (h1Layer k dir) 0 chunks ++ buf /\
        fw_stream fw' = mkStream k dir (len chunks + 1) /\ fw_closed fw' = closed) /\
     (err <> None -> fw_closed fw' = true) /\
     (wr_sched (fw_w fw) = [] -> err = None /\ wr_sched (fw_w fw') = [])).
Proof.
  intros [] Hc Hn. unfold EncryptChunk. rewrite (proj2 (Z.ltb_ge _ _)) by lia. rewrite iw_stream0.
  cbn [key direction seq app]. rewrite u64_id by (unfold is_u64; lia). eexists. split; [done|].
  split. { unfold record. rewrite be_u16. done. }
  set (buf := be 2 _ ++ _). unfold flush. cbn [fw_w fw_stream fw_closed].
  destruct (Write buf (fw_w fw)) as [[n e] w'] eqn:Ew.
  pose proof (Write_count _ _ _ _ _ Ew) as [Hr Hout].
  assert (wr_out w' `prefix_of` records (h1Layer k dir) 0 chunks ++ buf) as Hpre.
  { rewrite Hout, iw_wire0. apply prefix_app. exists (zdrop n buf). by rewrite ztake_zdrop. }
  set (err0 := match e with None => _ | Some x => _ end). intros E.
  assert (err = err0) as -> by congruence.
  assert (fw' = mkFW w' (mkStream k dir (len chunks + 1)) (match err0 with Some _ => true | None => closed end)) as ->
    by congruence.
  clear E. cbn [fw_w fw_stream fw_closed]. split_and!; [done| |by destruct err0|].
  - intros E0. rewrite E0. unfold err0 in E0. destruct e; [done|].
    destruct (Z.eqb_spec n (len buf)); [|done]. rewrite Hout, iw_wire0, ztake_all by lia. done.
  - intros Hs. unfold Write in Ew. rewrite Hs in Ew. unfold err0.
    assert (e = None /\ n = len buf) as [-> ->] by (split; congruence). rewrite Z.eqb_refl.
    split; [done|]. by assert (w' = mkWriter (wr_out (fw_w fw) ++ buf) []) as -> by congruence.
Qed.

(** What a write does: all of it goes out, or the writer closes after a prefix. *)
Lemma writeLoop_spec fuel k dir fw chunks p n total :
  idle_writer k dir fw chunks -> len p <= Z.of_nat fuel * MaxChunkPayloadLen ->
  len chunks + len p < 2 ^ 64 - 1 ->
  let '(m, e, fw') := writeLoop fuel fw p n total in
  (wr_sched (fw_w fw) = [] -> e = None /\ wr_sched (fw_w fw') = []) /\
  exists sealed, data_chunks (h1Layer k dir) sealed /\
  match e with
  | None => idle_writer k dir fw' (chunks ++ sealed) /\ concat sealed = p /\ m = total
  | Some _ => fw_closed fw' = true /\
      wr_out (fw_w fw') `prefix_of` records (h1Layer k dir) 0 (chunks ++ sealed) /\ concat sealed `prefix_of` p
  end.
Proof.
  revert fw chunks p n. induction fuel as [|fuel IH]; intros fw chunks p n Ho Hf Hn; cbn [writeLoop];
    case_bool_decide as Hp;
    try (subst p; split; [done|]; exists []; rewrite app_nil_r; split; [constructor|]; done).
  { destruct p; cbn in Hf; done || lia. }
  assert (0 < len p) by (destruct p; [done|cbn; lia]).
  set (size := Z.min (len p) MaxChunkPayloadLen).
  assert (0 < size <= len p /\ size <= MaxChunkPayloadLen) as [Hs Hs'] by (unfold MaxChunkPayloadLen in *; lia).
  assert (len (ztake size p) = size) as Hsz by (rewrite len_ztake; lia).
  set (c := ztake size p) in *.
  assert (data_chunks (h1Layer k dir) [c]) as Hdc by (apply Forall_singleton; cbn; lia).
  assert (records (h1Layer k dir) 0 (chunks ++ [c]) =
    records (h1Layer k dir) 0 chunks ++ record (h1Layer k dir) (len chunks) c) as Hrec.
  { rewrite records_app by lia. cbn [records]. by rewrite app_nil_r, Z.add_0_l. }
  destruct (flush (mkFW (fw_w fw) (mkStream k dir (len chunks + 1)) (fw_closed fw)) (record (h1Layer k dir) (len chunks) c))
    as [err fw1] eqn:Efl.
  destruct (send_record k dir fw chunks c (fw_closed fw) err fw1 Ho) as (buf & -> & -> & Hsend); [lia|lia|].
  destruct (Hsend Efl) as (Hpre & Hok & Hbad & Hsink). rewrite Efl. rewrite <- Hrec in *.
  destruct err as [x|].
  - split; [intros Hsc; by destruct (Hsink Hsc)|]. exists [c]. split; [done|].
    split_and!; [by apply Hbad|done|]. cbn. rewrite app_nil_r.
    exists (zdrop size p). unfold c. by rewrite ztake_zdrop.
  - destruct (Hok eq_refl) as (Hwire & Hst & Hcl).
    assert (idle_writer k dir fw1 (chunks ++ [c])) as Ho1.
    { destruct Ho. split; [congruence|rewrite Hst, len_app; done|done|by apply Forall_app]. }
    specialize (IH fw1 (chunks ++ [c]) (zdrop size p) (n + size) Ho1).
    rewrite len_app, len_zdrop in IH by lia. change (len [c]) with 1 in IH.
    destruct (writeLoop fuel fw1 (zdrop size p) (n + size) total) as [[m e] fw'].
    destruct IH as (Hsink' & sealed & Hd & Hres); [unfold size, MaxChunkPayloadLen in *; lia|lia|].
    split; [intros Hsc; apply Hsink'; by apply Hsink|].
    exists (c :: sealed). split; [by apply (Forall_app_2 _ [c] sealed)|].
    replace (chunks ++ c :: sealed) with ((chunks ++ [c]) ++ sealed) by (by rewrite <- app_assoc).
    destruct e as [x|].
    + destruct Hres as (? & ? & Hpp). split_and!; [done|done|]. cbn.
      rewrite <- (ztake_zdrop size p). by apply prefix_app.
    + destruct Hres as (? & Hcat & ?). split_and!; [done| |done]. cbn. rewrite Hcat. apply ztake_zdrop.
Qed.

Lemma writeFuel_enough p : len p <= Z.of_nat (writeFuel p) * MaxChunkPayloadLen.
Proof. unfold writeFuel, MaxChunkPayloadLen. lia. Qed.

Lemma h1_write_law k dir fw chunks p :
  idle_writer k dir fw chunks -> len chunks + len p < 2 ^ 64 - 1 ->
  let fw' := snd (FramedWriter_Write fw p) in
  exists sealed, data_chunks (h1Layer k dir) sealed /\
    ((idle_writer k dir fw' (chunks ++ sealed) /\ concat sealed = p) \/
     (fw_closed fw' = true /\ wr_out (fw_w fw') `prefix_of` records (h1Layer k dir) 0 (chunks ++ sealed) /\
      concat sealed `prefix_of` p)).
Proof.
  intros Ho Hn. unfold FramedWriter_Write. assert (fw_closed fw = false) as -> by apply Ho.
  pose proof (writeLoop_spec (writeFuel p) k dir fw chunks p 0 (len p) Ho (writeFuel_enough p) Hn) as Hl.
  destruct (writeLoop _ fw p 0 (len p)) as [[m e] fw']. destruct Hl as (_ & sealed & Hd & Hres).
  exists sealed. split; [done|]. destruct e; [by right|left]. by destruct Hres as (? & ? & _).
Qed.

Lemma h1_eof_law k dir fw chunks :
  idle_writer k dir fw chunks -> len chunks < 2 ^ 64 - 1 ->
  fw_closed (snd (WriteEOF fw)) = true /\
  wr_out (fw_w (snd (WriteEOF fw))) `prefix_of`
    records (h1Layer k dir) 0 chunks ++ record (h1Layer k dir) (len chunks) [].
Proof.
  intros Ho Hn. unfold WriteEOF. assert (fw_closed fw = false) as -> by apply Ho.
  destruct (flush (mkFW (fw_w fw) (mkStream k dir (len chunks + 1)) true) (record (h1Layer k dir) (len chunks) []))
    as [err fw1] eqn:Efl.
  destruct (send_record k dir fw chunks [] true err fw1 Ho) as (buf & -> & -> & Hsend);
    [unfold MaxChunkPayloadLen; cbn; lia|lia|].
  destruct (Hsend Efl) as (Hpre & Hok & Hbad & _). rewrite Efl. cbn [snd]. split; [|done].
  destruct err; [by apply Hbad|]. by apply Hok.
Qed.

Definition h1Writer (k : list byte) (dir : Direction) : RecordWriter (h1Layer k dir).
Proof.
  refine (mkRecordWriter (h1Layer k dir) FramedWriter (list byte) id (fun fw => wr_out (fw_w fw)) fw_closed
    (fun fw p => snd (FramedWriter_Write fw p)) (fun fw => snd (WriteEOF fw)) (idle_writer k dir) _ _ _ _ _).
  - intros fw chunks []. done.
  - apply h1_write_law.
  - apply h1_eof_law.
  - intros fw p Hc. unfold FramedWriter_Write. by rewrite Hc.
  - intros fw Hc. unfold WriteEOF. by rewrite Hc.
Defined.

(** ** OPEN frame *)

Lemma decode_open h host port payload :
  encodedHost host h -> 1 <= port <= 65535 -> 2 <= len host + len payload \/ atypDomain <> at_ h 0 ->
  DecodeOpenFrame (CmdConnectTCP :: h ++ be 2 port ++ payload) = Ok (canonicalAddress host port, payload).
Proof.
  intros He Hp Hl. assert (is_u16 port) by (unfold is_u16; lia). unfold canonicalAddress, DecodeOpenFrame.
  assert (forall off b, off = len b -> zdrop off (b ++ be 2 port ++ payload) = be 2 port ++ payload /\
    zdrop (off + 2) (b ++ be 2 port ++ payload) = payload) as Htail.
  { intros off b ->. split; [by apply zdrop_app|]. rewrite app_assoc. apply zdrop_app.
    rewrite len_app, len_be. lia. }
  assert (be_val (take 2 (be 2 port ++ payload)) = port) as Hport by (apply be_port; lia).
  destruct He as [q Hq Hc|ip Hi Hc|Hh Hc]; rewrite Hc.
  - set (data := CmdConnectTCP :: _). assert (8 <= len data) by (unfold data; cbn [app]; len_simpl; lia).
    assert (slice 2 6 data = q) as Es by (apply (slice_field 2 6 [CmdConnectTCP; atypIPv4] q); cbn; lia).
    rewrite (proj2 (Z.ltb_ge _ _)) by lia. unfold decodeHost. rewrite Es.
    change (at_ data 0) with CmdConnectTCP. change (at_ data 1) with atypIPv4.
    rewrite !bool_decide_true by done. cbn [negb]. rewrite (proj2 (Z.ltb_ge _ _)) by lia.
    destruct (Htail 6 (CmdConnectTCP :: atypIPv4 :: q)) as [E1 E2]; [len_simpl; lia|].
    change ((CmdConnectTCP :: atypIPv4 :: q) ++ be 2 port ++ payload) with data in E1, E2. by rewrite E1, E2, Hport.
  - set (data := CmdConnectTCP :: _). assert (20 <= len data) by (unfold data; cbn [app]; len_simpl; lia).
    assert (slice 2 18 data = ip) as Es by (apply (slice_field 2 18 [CmdConnectTCP; atypIPv6] ip); cbn; lia).
    rewrite (proj2 (Z.ltb_ge _ _)) by lia. unfold decodeHost. rewrite Es.
    change (at_ data 0) with CmdConnectTCP. change (at_ data 1) with atypIPv6.
    rewrite (bool_decide_true (CmdConnectTCP = CmdConnectTCP)) by done. cbn [negb].
    rewrite !bool_decide_false, bool_decide_true by done. rewrite (proj2 (Z.ltb_ge _ _)) by lia.
    destruct (Htail 18 (CmdConnectTCP :: atypIPv6 :: ip)) as [E1 E2]; [len_simpl; lia|].
    change ((CmdConnectTCP :: atypIPv6 :: ip) ++ be 2 port ++ payload) with data in E1, E2. by rewrite E1, E2, Hport.
  - destruct Hl as [Hl|Hl]; [|done].
    set (data := CmdConnectTCP :: _). assert (len data = 5 + len host + len payload) as Hd by (unfold data; cbn [app]; len_simpl; lia).
    rewrite (proj2 (Z.ltb_ge _ _)) by lia. unfold decodeHost.
    change (at_ data 0) with CmdConnectTCP. change (at_ data 1) with atypDomain.
    change (at_ data 2) with (byte_of (len host)). change (drop 3 data) with (host ++ be 2 port ++ payload).
    rewrite byteZ_len, ztake_app by (done || lia).
    rewrite (bool_decide_true (CmdConnectTCP = CmdConnectTCP)) by done. cbn [negb].
    rewrite bool_decide_false, bool_decide_true by done. rewrite !(proj2 (Z.ltb_ge _ _)) by lia.
    destruct (Htail (3 + len host) (CmdConnectTCP :: atypDomain :: byte_of (len host) :: host)) as [E1 E2];
      [len_simpl; lia|].
    change ((CmdConnectTCP :: atypDomain :: byte_of (len host) :: host) ++ be 2 port ++ payload) with data in E1, E2. by rewrite E1, E2, Hport.
Qed.

(** ** Properties *)

(** client and server of the HTTP/1.1 carrier agree: a hello created by a
    client is matched to the client's key (unless an earlier key accepts it by
    accident), with its nonce and timestamp, when the clocks are at most 90
    seconds apart; the client accepts the server's answer and both ends hold
    the same pair of session keys; and the 0-RTT chunk of the client opens
    under the key the server derives. *)
Theorem h1_handshake_agreement keys i psk now now' rnd hello nonce ts rnd' :
  CreateClientHello psk now rnd = Ok (hello, nonce, ts, rnd') -> - 90 <= now' - now <= 90 ->
  keys !! i = Some psk ->
  (forall j k, (j < i)%nat -> keys !! j = Some k -> accepts k hello = false) ->
  MatchClientHello keys hello now' = Ok (i, nonce, ts) /\
  VerifyClientHello psk hello now' = Ok (nonce, ts) /\
  (forall rnd2 answer ck sk rnd3, CreateServerHello psk nonce rnd2 = Ok (answer, ck, sk, rnd3) ->
     VerifyServerHello psk nonce answer = Ok (ck, sk)) /\
  (forall p, len p <= MaxChunkPayloadLen -> exists k c,
     Derive0RTTKey psk ts nonce = Ok k /\ Encrypt0RTTChunk k p = Ok (be 2 (len c) ++ c) /\
     Decrypt0RTTChunk k c = Ok p).
Proof.
  intros E Hnow Hi Hfirst.
  assert (32 <= len psk) as Hk by (unfold CreateClientHello in E; destruct (len psk <? 32) eqn:El; [done|bool_to_prop; lia]).
  split_and!.
  - by eapply match_created.
  - unfold VerifyClientHello. rewrite (proj2 (Z.ltb_ge _ _)) by lia.
    rewrite (match_created [psk] 0 psk now now' rnd hello nonce ts rnd'); [done..|]. intros j k Hj. lia.
  - intros. by eapply h1_verify_server_created.
  - intros p Hp. unfold Derive0RTTKey. rewrite (proj2 (Z.ltb_ge _ _)) by lia.
    set (k := take 32 _). exists k, (seal ChaCha20Poly1305 k nonce0RTT p []). split; [done|].
    unfold Encrypt0RTTChunk, Decrypt0RTTChunk, MaxChunkWireLen, Overhead.
    rewrite seal_length, !(proj2 (Z.ltb_ge _ _)) by lia. rewrite be_u16, open_seal. done.
Qed.

(** the HTTP/1.1 OPEN frame gives the server the target the client asked
    for, in canonical form, and exactly the first payload bytes; except that a
    one-byte domain without payload, which the encoder accepts, is refused by
    the decoder's seven-byte minimum. *)
Theorem h1_open_frame target payload frame :
  EncodeOpenFrame target payload = Ok frame ->
  exists host port,
    splitTarget 1 (Errorf "h1session: invalid target address") (Errorf "h1session: invalid port") target
      = Ok (host, port) /\
    DecodeOpenFrame frame =
      if bool_decide (ParseIP host = None) && (len host + len payload <? 2) then Fail ErrInvalidOpenFrame
      else Ok (canonicalAddress host port, payload).
Proof.
  unfold EncodeOpenFrame. destruct (splitTarget 1 _ _ target) as [[host port]|] eqn:Es; [|done].
  destruct (appendHost _ host) as [h|] eqn:Eh; [|done]. intros E. exists host, port. split; [done|].
  assert (frame = CmdConnectTCP :: h ++ be 2 port ++ payload) as -> by congruence.
  apply splitTarget_ok in Es as [Hp _]. pose proof (appendHost_encoded _ _ _ Eh) as He.
  case_bool_decide as Hip; cbn [andb].
  - destruct (Z.ltb_spec (len host + len payload) 2) as [Hs|Hs].
    + unfold appendHost in Eh. rewrite Hip in Eh. destruct (_ || _) in Eh; [done|].
      assert (h = atypDomain :: byte_of (len host) :: host) as -> by congruence.
      unfold DecodeOpenFrame. rewrite (proj2 (Z.ltb_lt _ _)); [done|]. cbn [app]. len_simpl. lia.
    + apply decode_open; [done|lia|by left].
  - apply decode_open; [done|lia|]. right. unfold appendHost in Eh.
    destruct (ParseIP host) as [ip|]; [|done]. by destruct (To4 ip); injection Eh as <-.
Qed.

(** a connection of two ends over any failing network: whatever one end
    writes in whatever pieces, however its carrier fails, and wherever what it
    put out is cut or interrupted by deadlines, the other end reads a prefix of
    it and sees a clean end only after the writer ended the stream and
    everything arrived; the two ends use the same key and direction for each
    way. *)
Theorem h1_conn_safety ck sk (fromClient : bool) w r0 r w0 ops cut plen :
  let sender := NewConn r0 w ck sk fromClient in
  let receiver := NewConn r w0 ck sk (negb fromClient) in
  let W := h1Writer (if fromClient then ck else sk)
             (if fromClient then DirClientToServer else DirServerToClient) in
  wr_out w = [] -> len (fst (written W ops)) < 2 ^ 64 - 1 ->
  cut `prefix_of` wr_out (fw_w (runOps W (connWriter sender) ops)) ->
  carries r cut -> 0 < plen ->
  exists got e,
    readAll (connLayer receiver) (readFuel r) (connReader receiver) plen = (got, Some e) /\
    got `prefix_of` fst (written W ops) /\ (e = EOF \/ e = ErrUnexpectedEOF) /\
    (e = EOF -> snd (written W ops) = true /\ got = fst (written W ops)).
Proof.
  intros sender receiver W Hw Hn Hcut [Hr Ec] Hp.
  assert (rw_open W (connWriter sender) []) as Hopen.
  { unfold W, sender, NewConn. destruct fromClient; (split; [done|done|exact Hw|constructor]). }
  destruct (writer_safety W _ ops cut Hopen Hn Hcut) as (got & e & Hparse & Hres).
  exists got, e. split; [|done]. unfold receiver, NewConn, W in *.
  destruct fromClient; cbn [negb connLayer connReader]; by rewrite reader_reference, Ec, Hparse.
Qed.

(** On a carrier that takes everything, [Write] reports the full length,
    and the other end reads exactly the bytes written before [WriteEOF],
    followed by a clean end. *)
Theorem h1_stream_roundtrip k dir p r plen :
  len p < 2 ^ 64 - 1 ->
  let '(n, e, fw) := FramedWriter_Write (NewFramedWriter sink (NewAEADStream k dir)) p in
  n = len p /\ e = None /\
  (carries r (wr_out (fw_w (snd (WriteEOF fw)))) -> 0 < plen ->
   readAll (h1Layer k dir) (readFuel r) (NewReader r) plen = (p, Some EOF)).
Proof.
  intros Hn. unfold FramedWriter_Write. cbn [NewFramedWriter fw_closed].
  assert (idle_writer k dir (NewFramedWriter sink (NewAEADStream k dir)) []) as Ho by (split; try done; constructor).
  pose proof (writeLoop_spec (writeFuel p) k dir _ [] p 0 (len p) Ho (writeFuel_enough p) Hn) as Hl.
  destruct (writeLoop _ _ p 0 (len p)) as [[m e] fw']. destruct Hl as (Hsink & sealed & Hd & Hres).
  destruct (Hsink eq_refl) as [-> Hsc]. destruct Hres as (Ho' & Hcat & ->). cbn [app] in Ho'.
  split_and!; [done|done|]. intros [Hr Ec] Hp.
  assert (len sealed <= len p) by (rewrite <- Hcat; by apply (data_chunks_count (h1Layer k dir))).
  rewrite reader_reference, Ec by done.
  assert (wr_out (fw_w (snd (WriteEOF fw'))) = records (h1Layer k dir) 0 sealed ++ record (h1Layer k dir) (len sealed) []) as ->.
  { unfold WriteEOF. assert (fw_closed fw' = false) as -> by apply Ho'.
    destruct (flush (mkFW (fw_w fw') (mkStream k dir (len sealed + 1)) true) (record (h1Layer k dir) (len sealed) []))
      as [err fw1] eqn:Efl.
    destruct (send_record k dir fw' sealed [] true err fw1 Ho') as (buf & -> & -> & Hsend);
      [unfold MaxChunkPayloadLen; cbn; lia|lia|].
    destruct (Hsend Efl) as (_ & Hok & _ & Hs). rewrite Efl. destruct (Hs Hsc) as [-> _]. by apply Hok. }
  rewrite parse_closed by (done || lia). by rewrite Hcat.
Qed.

End Proofs.

(** ** Witnesses *)

Definition psk1 : list byte := bs "0123456789abcdef0123456789abcdef".
Definition h1Random : reader := [RD (replicate 60 Byte.x42) None].
Definition h1Hello : list byte := okOr [] (let? (h, _, _, _) := CreateClientHello psk1 5000 h1Random in Ok h).
Definition h1Rest : reader := okOr [] (let? (_, _, _, r) := CreateClientHello psk1 5000 h1Random in Ok r).

Lemma h1_handshake_agreement_witness :
  MatchClientHello [psk1] h1Hello 5090 = Ok (0%nat, replicate 24 Byte.x42, 5000).
Proof.
  apply (h1_handshake_agreement [psk1] 0 psk1 5000 5090 h1Random h1Hello (replicate 24 Byte.x42) 5000 h1Rest).
  - vm_compute. reflexivity.
  - lia.
  - reflexivity.
  - intros j k Hj. lia.
Defined.

Lemma h1_open_frame_witness :
  exists host port, splitTarget 1 (Errorf "h1session: invalid target address") (Errorf "h1session: invalid port")
    (bs "x:9") = Ok (host, port) /\
  DecodeOpenFrame (okOr [] (EncodeOpenFrame (bs "x:9") [])) = Fail ErrInvalidOpenFrame.
Proof.
  destruct (h1_open_frame (bs "x:9") [] (okOr [] (EncodeOpenFrame (bs "x:9") []))) as (host & port & E & _).
  - vm_compute. reflexivity.
  - exists host, port. split; [exact E|vm_compute; reflexivity].
Defined.

Definition h1Ops : list (op (list byte)) := [OpWrite (bs "ping"); OpEOF].
Definition h1Wire : list byte :=
  wr_out (fw_w (runOps (h1Writer psk1 DirClientToServer) (connWriter (NewConn [] sink psk1 (bs "sk") true)) h1Ops)).

Lemma h1_conn_safety_witness :
  exists got e, readAll (connLayer (NewConn [RD h1Wire None] sink psk1 (bs "sk") false)) (readFuel [RD h1Wire None])
    (connReader (NewConn [RD h1Wire None] sink psk1 (bs "sk") false)) 3 = (got, Some e).
Proof.
  destruct (h1_conn_safety psk1 (bs "sk") true sink [] [RD h1Wire None] sink h1Ops h1Wire 3)
    as (got & e & E & _).
  - reflexivity.
  - vm_compute. reflexivity.
  - reflexivity.
  - split; [by repeat constructor|]. vm_compute. reflexivity.
  - lia.
  - exists got, e. exact E.
Defined.

Lemma h1_stream_roundtrip_witness :
  let '(n, e, fw) := FramedWriter_Write (NewFramedWriter sink (NewAEADStream psk1 DirServerToClient)) (bs "abc") in
  n = 3 /\ e = None.
Proof.
  pose proof (h1_stream_roundtrip psk1 DirServerToClient (bs "abc") [] 1) as H.
  destruct (FramedWriter_Write (NewFramedWriter sink (NewAEADStream psk1 DirServerToClient)) (bs "abc")) as [[n e] fw].
  destruct H as (Hn & He & _); [vm_compute; reflexivity|]. exact (conj Hn He).
Defined.
