(* ===== verification/PlainUDP.v ===== *)
(** * The datagram codec of [internal/plainudp] (plainudp.go)

    A packet is a random 24-byte nonce and the XChaCha20-Poly1305 sealing of
    timestamp, sequence number, session id, target address and payload, with
    the direction as associated data and an independent key for each
    direction.  An ICMP target is an address with port 0. *)
From S2P Require Import Prelude GoIO GoNet Crypto Address.

Open Scope Z_scope.

(** ** The code *)

(** [Direction] is a byte. *)
Definition DirClientToServer : byte := Byte.x01.
Definition DirServerToClient : byte := Byte.x02.

Definition HeaderSize : Z := 24.
Definition MaxTimestampSkew : Z := 30.
Definition SaltUDP := bs "MYXRAY-PLAIN-UDP-SALT-V2".
Definition InfoUDP := bs "MYXRAY-PLAIN-UDP-KEY-V2".

Definition ErrPacketTooShort := Errorf "plainudp: packet too short".
Definition ErrTimestampExpired := Errorf "plainudp: timestamp out of acceptable window".
Definition ErrDecryptionFailed := Errorf "plainudp: AEAD packet decryption failed".
Definition ErrInvalidAddressType := Errorf "plainudp: unsupported SOCKS5 address type".
Definition ErrInvalidAddress := Errorf "plainudp: malformed address in packet".
Definition ErrInvalidDirection := Errorf "plainudp: invalid or unexpected direction".

Definition icmpPrefix : gostring := bs "icmp:".

(** [Codec]: the keys of the two ciphers and the sequence counter. *)
Record Codec := mkCodec {
  c2sKey : list byte;
  s2cKey : list byte;
  sequence : Z;
}.

(** The target of [appendTargetAddress]: host and port, port 0 for ICMP. *)
Definition parseTarget (address : gostring) : result (gostring * Z) :=
  if hasPrefix icmpPrefix address then Ok (drop (length icmpPrefix) address, 0)
  else splitTarget 1 (Errorf "invalid address") (Errorf "invalid port") address.

Definition appendTargetAddress (buf : list byte) (address : gostring) : result (list byte) :=
  let? (host, port) := parseTarget address in
  let? h := appendHost (Errorf "invalid domain host length") host in
  Ok (buf ++ h ++ be 2 port).

(** The host of an address and the offset behind it. *)
Definition decodeHost (data : list byte) : result (gostring * Z) :=
  let addrType := at_ data 0 in
  if bool_decide (addrType = atypIPv4) then
    if len data <? 1 + 4 + 2 then Fail ErrInvalidAddress else Ok (IPString (slice 1 5 data), 5)
  else if bool_decide (addrType = atypDomain) then
    if len data <? 1 + 1 then Fail ErrInvalidAddress
    else
      let domainLen := byteZ (at_ data 1) in
      if (domainLen =? 0) || (len data <? 2 + domainLen + 2) then Fail ErrInvalidAddress
      else Ok (ztake domainLen (drop 2 data), 2 + domainLen)
  else if bool_decide (addrType = atypIPv6) then
    if len data <? 1 + 16 + 2 then Fail ErrInvalidAddress else Ok (IPString (slice 1 17 data), 17)
  else Fail ErrInvalidAddressType.

Definition decodeTargetAddress (data : list byte) : result (gostring * list byte) :=
  if len data <? 1 then Fail ErrInvalidAddress
  else
    let? (host, offset) := decodeHost data in
    let port := be_val (take 2 (zdrop offset data)) in
    let targetAddress := if port =? 0 then icmpPrefix ++ host else JoinHostPort host (Itoa port) in
    Ok (targetAddress, zdrop (offset + 2) data).

(** What [DecodePacket] returns without an error; the fields it returns
    beside an error are left out. *)
Record packetInfo := mkInfo {
  p_sessionID : Z;
  p_target : gostring;
  p_payload : list byte;
  p_timestamp : Z;
  p_seq : Z;
}.

Section Codec.
  Context `{Crypto}.

Definition DeriveDirectionalKeys (psk : list byte) : list byte * list byte :=
  let prk := hmac SaltUDP psk in
  (hmac prk (InfoUDP ++ bs "C2S"), hmac prk (InfoUDP ++ bs "S2C")).

Definition NewCodec (psk : list byte) (serverIDs : list gostring) : result Codec :=
  if 1 <? len serverIDs then Fail (Errorf "plainudp: multiple server IDs")
  else
    let psk := match serverIDs with
               | [id] => if bool_decide (id = []) then psk
                         else hmac psk (bs "CHITANDA-PLAIN-UDP-SERVER-V3" ++ [Byte.x00] ++ id)
               | _ => psk
               end in
    let '(k1, k2) := DeriveDirectionalKeys psk in
    Ok (mkCodec k1 k2 0).

(** The cipher of a direction. *)
Definition aeadKey (c : Codec) (dir : byte) : option (list byte) :=
  if bool_decide (dir = DirClientToServer) then Some (c2sKey c)
  else if bool_decide (dir = DirServerToClient) then Some (s2cKey c)
  else None.

(** [EncodePacket] appends the packet to [dst]. *)
Definition EncodePacket (c : Codec) (dst : list byte) (dir : byte) (sessionID : Z) (targetAddr : gostring)
    (payload : list byte) (now : Z) (rnd : reader) : result (list byte * reader) * Codec :=
  let seq := u64 (sequence c + 1) in
  let c' := mkCodec (c2sKey c) (s2cKey c) seq in
  let ts := u64 now in
  let hdrBuf := be 8 ts ++ be 8 seq ++ be 8 sessionID in
  (let? plaintext := appendTargetAddress hdrBuf targetAddr in
   let plaintext := plaintext ++ payload in
   let? (nonce, rnd') := randBytes "plainudp: random nonce failed" 24 rnd in
   match aeadKey c dir with
   | None => Fail ErrInvalidDirection
   | Some k => Ok (dst ++ nonce ++ seal XChaCha20Poly1305 k nonce plaintext [dir], rnd')
   end, c').

Definition DecodePacket (c : Codec) (packet : list byte) (expectedDir : byte) (now : Z) : result packetInfo :=
  if len packet <? HeaderSize + 24 + 1 + 16 then Fail ErrPacketTooShort
  else
    let nonce := ztake HeaderSize packet in
    let ciphertextWithTag := zdrop HeaderSize packet in
    match aeadKey c expectedDir with
    | None => Fail ErrInvalidDirection
    | Some k =>
        match open XChaCha20Poly1305 k nonce ciphertextWithTag [expectedDir] with
        | None => Fail ErrDecryptionFailed
        | Some plaintext =>
            if len plaintext <? 24 then Fail ErrPacketTooShort
            else
              let timestamp := be_val (slice 0 8 plaintext) in
              if timestampExpired MaxTimestampSkew now timestamp then Fail ErrTimestampExpired
              else
                let seq := be_val (slice 8 16 plaintext) in
                let sessionID := be_val (slice 16 24 plaintext) in
                let? (targetAddr, rawPayload) := decodeTargetAddress (drop 24 plaintext) in
                Ok (mkInfo sessionID targetAddr rawPayload timestamp seq)
        end
    end.

(** The loop over the codecs of several users; a nil codec is skipped. *)
Fixpoint decodeMulti (i : nat) (codecs : list (option Codec)) (packet : list byte) (dir : byte) (now : Z)
  : result (nat * packetInfo) :=
  match codecs with
  | [] => Fail ErrDecryptionFailed
  | None :: rest => decodeMulti (S i) rest packet dir now
  | Some codec :: rest =>
      match DecodePacket codec packet dir now with
      | Ok info => Ok (i, info)
      | Fail _ => decodeMulti (S i) rest packet dir now
      end
  end.

Definition DecodePacketMulti (codecs : list (option Codec)) (packet : list byte) (expectedDir : byte) (now : Z)
  : result (nat * packetInfo) := decodeMulti 0 codecs packet expectedDir now.

End Codec.

(** ** Addresses *)

(** The target a peer sees. *)
Definition canonicalTarget (host : gostring) (port : Z) : gostring :=
  if port =? 0 then icmpPrefix ++ canonicalHost host else canonicalAddress host port.

Lemma parseTarget_ok address host port : parseTarget address = Ok (host, port) -> 0 <= port <= 65535.
Proof.
  unfold parseTarget. destruct (hasPrefix _ _); [intros [= <- <-]; lia|].
  intros E. apply splitTarget_ok in E as [? _]. lia.
Qed.

Lemma decode_host host h port payload :
  encodedHost host h ->
  decodeHost (h ++ be 2 port ++ payload) = Ok (canonicalHost host, len h).
Proof.
  intros He. unfold decodeHost. set (data := h ++ _).
  assert (len data = len h + 2 + len payload) as Hd by (unfold data; len_simpl; lia).
  destruct He as [q Hq Hc|ip Hi Hc|Hh Hc]; rewrite Hc; cbn [app] in data; rewrite ?len_cons in Hd.
  - assert (slice 1 5 data = q) as -> by (apply (slice_field 1 5 [atypIPv4] q); cbn; lia).
    change (at_ data 0) with atypIPv4. rewrite bool_decide_true by done.
    rewrite (proj2 (Z.ltb_ge (len data) _)) by lia. do 2 f_equal. rewrite len_cons. lia.
  - assert (slice 1 17 data = ip) as -> by (apply (slice_field 1 17 [atypIPv6] ip); cbn; lia).
    change (at_ data 0) with atypIPv6. rewrite !bool_decide_false, bool_decide_true by done.
    rewrite (proj2 (Z.ltb_ge (len data) _)) by lia. do 2 f_equal. rewrite len_cons. lia.
  - change (at_ data 0) with atypDomain. change (at_ data 1) with (byte_of (len host)).
    change (drop 2 data) with (host ++ be 2 port ++ payload).
    rewrite byteZ_len, ztake_app by (done || lia).
    rewrite bool_decide_false, bool_decide_true by done.
    rewrite !(proj2 (Z.ltb_ge (len data) _)) by lia. rewrite (proj2 (Z.eqb_neq _ _)) by lia.
    cbn [orb]. do 2 f_equal. rewrite !len_cons. lia.
Qed.

Lemma decode_target host h port payload :
  encodedHost host h -> 0 <= port <= 65535 ->
  decodeTargetAddress (h ++ be 2 port ++ payload) = Ok (canonicalTarget host port, payload).
Proof.
  intros He Hp. pose proof (encodedHost_length _ _ He). unfold decodeTargetAddress.
  rewrite (proj2 (Z.ltb_ge _ _)) by (len_simpl; lia). rewrite (decode_host host) by done.
  rewrite zdrop_app, be_port by (done || lia).
  rewrite app_assoc, zdrop_app by (rewrite len_app, len_be; lia). done.
Qed.

(** ** Packets *)

Section Properties.
  Context `{Crypto}.

Lemma EncodePacket_inv c dst dir sid target payload now rnd out rnd' c' :
  EncodePacket c dst dir sid target payload now rnd = (Ok (out, rnd'), c') ->
  exists k nonce host port h,
    aeadKey c dir = Some k /\ length nonce = 24%nat /\ parseTarget target = Ok (host, port) /\ encodedHost host h /\
    out = dst ++ nonce ++ seal XChaCha20Poly1305 k nonce
      ((be 8 (u64 now) ++ be 8 (u64 (sequence c + 1)) ++ be 8 sid) ++ h ++ be 2 port ++ payload) [dir].
Proof.
  unfold EncodePacket, appendTargetAddress. intros E.
  destruct (parseTarget target) as [[host port]|] eqn:Et; [|done].
  destruct (appendHost _ host) as [h|] eqn:Eh; [|done].
  destruct (randBytes _ 24 rnd) as [[nonce r]|] eqn:En; [|done]. apply randBytes_ok in En; [|done].
  destruct (aeadKey c dir) as [k|]; [|done].
  exists k, nonce, host, port, h. split_and!; [done|lia|done|by eapply appendHost_encoded|].
  assert (out = dst ++ nonce ++ seal XChaCha20Poly1305 k nonce
    (((be 8 (u64 now) ++ be 8 (u64 (sequence c + 1)) ++ be 8 sid) ++ h ++ be 2 port) ++ payload) [dir]) as ->
    by congruence.
  by rewrite <- !app_assoc.
Qed.

(** a packet that a codec encodes (appended to [dst]) is decoded by every codec with the same
    keys, in the same direction and with a clock at most 30 seconds apart, to
    the same session id, the same target in canonical form (ICMP targets
    included), exactly the same payload, and the sender's timestamp and
    sequence number. *)
Theorem udp_packet_roundtrip c d dst dir sid target payload now now' rnd out rnd' c' :
  EncodePacket c dst dir sid target payload now rnd = (Ok (out, rnd'), c') ->
  aeadKey d dir = aeadKey c dir -> is_u64 sid -> - 30 <= now' - now <= 30 ->
  exists packet host port, out = dst ++ packet /\ parseTarget target = Ok (host, port) /\
    DecodePacket d packet dir now' =
      Ok (mkInfo sid (canonicalTarget host port) payload (u64 now) (u64 (sequence c + 1))).
Proof.
  intros E Hkey Hsid Hnow.
  apply EncodePacket_inv in E as (k & nonce & host & port & h & Hk & Hn & Ht & He & ->).
  eexists _, host, port. split_and!; [done..|]. pose proof (encodedHost_length _ _ He) as Hh.
  unfold DecodePacket. rewrite Hkey, Hk. set (hdr := be 8 _ ++ be 8 _ ++ be 8 _).
  assert (len hdr = 24) as Hhdr by (unfold hdr; len_simpl; lia).
  assert (HeaderSize = len nonce) as -> by (unfold HeaderSize; lia).
  rewrite (proj2 (Z.ltb_ge _ _)) by (rewrite len_app, seal_length, !len_app, len_be; lia).
  rewrite ztake_app, zdrop_app, open_seal by done.
  rewrite (proj2 (Z.ltb_ge _ _)) by (rewrite len_app; lia).
  assert (slice 0 8 (hdr ++ h ++ be 2 port ++ payload) = be 8 (u64 now)) as ->.
  { unfold hdr. rewrite <- app_assoc. apply slice_head. by rewrite length_be. }
  assert (slice 8 16 (hdr ++ h ++ be 2 port ++ payload) = be 8 (u64 (sequence c + 1))) as ->.
  { unfold hdr. rewrite <- !app_assoc. apply slice_field; by rewrite !length_be. }
  assert (slice 16 24 (hdr ++ h ++ be 2 port ++ payload) = be 8 sid) as ->.
  { unfold hdr. rewrite <- !app_assoc. apply slice_field2; by rewrite !length_be. }
  rewrite drop_app_length' by lia. rewrite !be_val_be8 by (done || apply u64_range).
  rewrite timestampExpired_fresh by (unfold MaxTimestampSkew; lia).
  rewrite (decode_target host); [done..|by eapply parseTarget_ok].
Qed.

(** a packet is only accepted when it is the sealing, under the key and
    the associated data of the expected direction and under the nonce it
    carries, of a plaintext with the returned timestamp, sequence and session
    id, and when the timestamp is within 30 seconds of the clock: a packet
    reflected in the other direction is opened with another key and another
    associated data. *)
Theorem udp_packet_authentic c packet dir now info :
  DecodePacket c packet dir now = Ok info ->
  exists k plaintext rest,
    aeadKey c dir = Some k /\
    packet = ztake HeaderSize packet ++ seal XChaCha20Poly1305 k (ztake HeaderSize packet) plaintext [dir] /\
    plaintext = be 8 (p_timestamp info) ++ be 8 (p_seq info) ++ be 8 (p_sessionID info) ++ rest /\
    decodeTargetAddress rest = Ok (p_target info, p_payload info) /\
    exists t, - 30 <= t <= 30 /\ u64 now = u64 (p_timestamp info + t).
Proof.
  unfold DecodePacket. intros E. destruct (len packet <? _) eqn:El; [done|]. bool_to_prop.
  destruct (aeadKey c dir) as [k|]; [|done].
  destruct (open _ _ _ _ _) as [plaintext|] eqn:Eo; [|done].
  destruct (Z.ltb_spec (len plaintext) 24); [done|].
  destruct (timestampExpired _ _ _) eqn:Ets; [done|].
  destruct (decodeTargetAddress (drop 24 plaintext)) as [[t p]|] eqn:Et; [|done].
  assert (info = mkInfo (be_val (slice 16 24 plaintext)) t p (be_val (slice 0 8 plaintext)) (be_val (slice 8 16 plaintext)))
    as -> by congruence.
  exists k, plaintext, (drop 24 plaintext). cbn [p_timestamp p_seq p_sessionID p_target p_payload].
  split_and!; [done| | |done|].
  - apply open_sound in Eo. rewrite <- Eo. by rewrite ztake_zdrop.
  - rewrite !be_be_val by (rewrite length_slice; lia). unfold slice. cbn [Nat.sub].
    rewrite drop_0. change (drop 24 plaintext) with (drop (16 + 8) plaintext).
    rewrite <- (drop_drop plaintext 8 16), take_drop. change (drop 16 plaintext) with (drop (8 + 8) plaintext).
    by rewrite <- (drop_drop plaintext 8 8), !take_drop.
  - by apply (timestampExpired_spec MaxTimestampSkew).
Qed.

Lemma decodeMulti_spec i codecs packet dir now j info :
  decodeMulti i codecs packet dir now = Ok (j, info) <->
  exists n c, j = (i + n)%nat /\ codecs !! n = Some (Some c) /\ DecodePacket c packet dir now = Ok info /\
    forall m c', (m < n)%nat -> codecs !! m = Some (Some c') -> is_ok (DecodePacket c' packet dir now) = false.
Proof.
  revert i. induction codecs as [|[c|] codecs IH]; intros i; cbn [decodeMulti].
  { split; [done|]. by intros (n & c & _ & Hc & _). }
  - destruct (DecodePacket c packet dir now) as [info'|e] eqn:Ed.
    + split.
      * intros [= <- <-]. exists 0%nat, c. split_and!; [lia|done|done|]. intros m c' Hm. lia.
      * intros ([|n] & c' & -> & Hc & Hd & Hfirst).
        -- injection Hc as <-. rewrite Nat.add_0_r. congruence.
        -- specialize (Hfirst 0%nat c ltac:(lia) eq_refl). rewrite Ed in Hfirst. done.
    + rewrite IH. split.
      * intros (n & c' & -> & Hc & Hd & Hfirst). exists (S n), c'. split_and!; [lia|done|done|].
        intros [|m] q Hm Hq; [injection Hq as <-; by rewrite Ed|]. apply (Hfirst m); [lia|done].
      * intros ([|n] & c' & -> & Hc & Hd & Hfirst); [injection Hc as <-; congruence|].
        exists n, c'. split_and!; [lia|done|done|]. intros m q Hm Hq. apply (Hfirst (S m)); [lia|done].
  - rewrite IH. split.
    + intros (n & c' & -> & Hc & Hd & Hfirst). exists (S n), c'. split_and!; [lia|done|done|].
      intros [|m] q Hm Hq; [done|]. apply (Hfirst m); [lia|done].
    + intros ([|n] & c' & -> & Hc & Hd & Hfirst); [done|].
      exists n, c'. split_and!; [lia|done|done|]. intros m q Hm Hq. apply (Hfirst (S m)); [lia|done].
Qed.

(** on a server with several users, a packet goes to the first user whose
    codec decodes it, and to none otherwise; users without a codec are
    skipped. *)
Theorem udp_multi_first codecs packet dir now :
  (forall i info, DecodePacketMulti codecs packet dir now = Ok (i, info) <->
     exists c, codecs !! i = Some (Some c) /\ DecodePacket c packet dir now = Ok info /\
       forall m c', (m < i)%nat -> codecs !! m = Some (Some c') -> is_ok (DecodePacket c' packet dir now) = false) /\
  (forall e, DecodePacketMulti codecs packet dir now = Fail e -> e = ErrDecryptionFailed /\
     forall c, Some c ∈ codecs -> is_ok (DecodePacket c packet dir now) = false).
Proof.
  unfold DecodePacketMulti. split.
  - intros i info. rewrite decodeMulti_spec. split.
    + intros (n & c & -> & Hres). by exists c.
    + intros (c & Hres). by exists i, c.
  - generalize 0%nat. induction codecs as [|[c|] codecs IH]; intros i e; cbn [decodeMulti].
    + intros [= <-]. split; [done|]. intros c Hc. by apply elem_of_nil in Hc.
    + destruct (DecodePacket c packet dir now) as [info|x] eqn:Ed; [done|]. intros E.
      destruct (IH _ _ E) as [-> Hall]. split; [done|].
      intros c' [[= ->]|Hin]%elem_of_cons; [by rewrite Ed|by apply Hall].
    + intros E. destruct (IH _ _ E) as [-> Hall]. split; [done|].
      intros c' [?|Hin]%elem_of_cons; [done|by apply Hall].
Qed.

End Properties.

(** ** Witnesses *)

Definition udpPsk : list byte := bs "0123456789abcdef0123456789abcdef".
Definition udpCodec : Codec := okOr (mkCodec [] [] 0) (NewCodec udpPsk [bs "srv"]).
Definition udpRandom : reader := [RD (replicate 24 Byte.x5a) None].
Definition udpPacket : list byte :=
  okOr [] (let? (p, _) := fst (EncodePacket udpCodec [] DirClientToServer 77 (bs "icmp:8.8.8.8") (bs "ping") 1000 udpRandom) in Ok p).

Lemma udp_packet_roundtrip_witness :
  DecodePacket udpCodec udpPacket DirClientToServer 1030 =
    Ok (mkInfo 77 (bs "icmp:8.8.8.8") (bs "ping") 1000 1) /\
  exists host port, parseTarget (bs "icmp:8.8.8.8") = Ok (host, port).
Proof.
  split; [vm_compute; reflexivity|].
  destruct (udp_packet_roundtrip udpCodec udpCodec [] DirClientToServer 77 (bs "icmp:8.8.8.8") (bs "ping") 1000 1030
    udpRandom udpPacket [] (mkCodec (c2sKey udpCodec) (s2cKey udpCodec) 1)) as (packet & host & port & _ & E & _).
  - vm_compute. reflexivity.
  - reflexivity.
  - unfold is_u64. lia.
  - lia.
  - exists host, port. exact E.
Defined.

Lemma udp_packet_authentic_witness :
  exists k plaintext rest, aeadKey udpCodec DirClientToServer = Some k /\
    plaintext = be 8 1000 ++ be 8 1 ++ be 8 77 ++ rest.
Proof.
  destruct (udp_packet_authentic udpCodec udpPacket DirClientToServer 1030 (mkInfo 77 (bs "icmp:8.8.8.8") (bs "ping") 1000 1))
    as (k & plaintext & rest & H1 & _ & H2 & _).
  - vm_compute. reflexivity.
  - exists k, plaintext, rest. exact (conj H1 H2).
Defined.
