(* ===== verification/Socks5.v ===== *)
(** * SOCKS5: [internal/socks5] (socks5.go)

    The server side of the negotiation of a local SOCKS5 client, the reply,
    and the UDP packets of an association with their two caches: [UDPCache]
    remembers the text of the last destination that was parsed,
    [UDPBuilderCache] the encoding of the last destination that was built. *)
From S2P Require Import Prelude GoIO GoNet Address.

Open Scope Z_scope.

(** ** The code *)

Definition CommandConnect : byte := Byte.x01.
Definition CommandUDPAssociate : byte := Byte.x03.

Record Request := mkRequest {
  Command : byte;
  Target : gostring;
  Reader : reader;
}.

Definition errUnsupportedType := Errorf "unsupported SOCKS address type".

(** The method [Read] of [sliceReader], for a non-empty buffer. *)
Definition sliceReader_Read (n : Z) (value : list byte) : list byte * option error * list byte :=
  if len value =? 0 then ([], Some EOF, value)
  else (ztake n value, None, zdrop n value).

(** The schedule that a [sliceReader] answers. *)
Definition sliceReader (value : list byte) : reader :=
  match value with [] => [] | _ => [RD value None] end.

(** [io.ReadFull] in the code below. *)
Definition readN (n : Z) (r : reader) : result (list byte) * reader :=
  match ReadFull n r with
  | (b, None, r') => (Ok b, r')
  | (_, Some e, r') => (Fail e, r')
  end.

(** The switch of [readAddress]. *)
Definition readHost (r : reader) (addressType : byte) : result gostring * reader :=
  if bool_decide (addressType = atypIPv4) then
    let '(value, r) := readN 4 r in ((let? v := value in Ok (IPString v)), r)
  else if bool_decide (addressType = atypDomain) then
    match readN 1 r with
    | (Fail e, r) => (Fail e, r)
    | (Ok length, r) => readN (byteZ (at_ length 0)) r
    end
  else if bool_decide (addressType = atypIPv6) then
    let '(value, r) := readN 16 r in ((let? v := value in Ok (IPString v)), r)
  else (Fail errUnsupportedType, r).

Definition readAddress (r : reader) (addressType : byte) : result gostring * reader :=
  match readHost r addressType with
  | (Fail e, r) => (Fail e, r)
  | (Ok host, r) =>
      let '(port, r) := readN 2 r in
      ((let? p := port in Ok (JoinHostPort host (Itoa (be_val p)))), r)
  end.

(** [bufio.NewReader] only changes how the bytes are cut up, and the request
    keeps it. *)
Definition Negotiate (r : reader) (w : writer) : result Request * writer :=
  match readN 2 r with
  | (Fail _, _) => (Fail (Errorf "invalid SOCKS greeting"), w)
  | (Ok greeting, r) =>
      if negb (bool_decide (at_ greeting 0 = Byte.x05)) then (Fail (Errorf "invalid SOCKS greeting"), w)
      else match readN (byteZ (at_ greeting 1)) r with
      | (Fail e, _) => (Fail e, w)
      | (Ok methods, r) =>
          let noAuth := bool_decide (Byte.x00 ∈ methods) in
          if negb noAuth then
            let '(_, _, w) := Write [Byte.x05; Byte.xff] w in
            (Fail (Errorf "no supported authentication method"), w)
          else
            match Write [Byte.x05; Byte.x00] w with
            | (_, Some e, w) => (Fail e, w)
            | (_, None, w) =>
                match readN 4 r with
                | (Fail _, _) => (Fail (Errorf "invalid SOCKS request"), w)
                | (Ok header, r) =>
                    if negb (bool_decide (at_ header 0 = Byte.x05)) then
                      (Fail (Errorf "invalid SOCKS request"), w)
                    else if negb (bool_decide (at_ header 1 = CommandConnect))
                         && negb (bool_decide (at_ header 1 = CommandUDPAssociate)) then
                      (Fail (Errorf "unsupported SOCKS command"), w)
                    else match readAddress r (at_ header 3) with
                    | (Fail e, _) => (Fail e, w)
                    | (Ok target, r) => (Ok (mkRequest (at_ header 1) target r), w)
                    end
                end
            end
      end
  end.

Definition encodeAddressInto (dst : list byte) (address : gostring) : result (list byte) :=
  let? (host, port) := splitTarget 0 (Errorf "invalid address") (Errorf "invalid port") address in
  let? h := appendHost (Errorf "invalid host length") host in
  Ok (dst ++ h ++ be 2 port).

Definition encodeAddress (address : gostring) : result (list byte) := encodeAddressInto [] address.

(** The error of the reply, if any; [bound] is the text of the address. *)
Definition WriteReply (w : writer) (status : byte) (bound : option gostring) : option error * writer :=
  let address := default (bs "0.0.0.0:0") bound in
  match encodeAddress address with
  | Fail e => (Some e, w)
  | Ok encoded =>
      let '(_, err, w) := Write ([Byte.x05; status; Byte.x00] ++ encoded) w in (err, w)
  end.

Definition errFragmented := Errorf "invalid or fragmented SOCKS UDP packet".

Definition udpPayloadOffset (packet : list byte) : result Z :=
  if (len packet <? 4) || negb (bool_decide (at_ packet 0 = Byte.x00))
     || negb (bool_decide (at_ packet 1 = Byte.x00)) || negb (bool_decide (at_ packet 2 = Byte.x00))
  then Fail errFragmented
  else if bool_decide (at_ packet 3 = atypIPv4) then
    if len packet <? 10 then Fail ErrUnexpectedEOF else Ok 10
  else if bool_decide (at_ packet 3 = atypDomain) then
    if (len packet <? 5) || (len packet <? 7 + byteZ (at_ packet 4)) then Fail ErrUnexpectedEOF
    else Ok (7 + byteZ (at_ packet 4))
  else if bool_decide (at_ packet 3 = atypIPv6) then
    if len packet <? 22 then Fail ErrUnexpectedEOF else Ok 22
  else Fail errUnsupportedType.

Record UDPCache := mkUDPCache {
  c_key : list byte;
  c_address : gostring;
}.

Definition zeroUDPCache : UDPCache := mkUDPCache [] [].

Definition Parse (c : UDPCache) (packet : list byte) : result (gostring * list byte) * UDPCache :=
  match udpPayloadOffset packet with
  | Fail e => (Fail e, c)
  | Ok payloadOffset =>
      let key := drop 3 (ztake payloadOffset packet) in
      if negb (bool_decide (c_address c = [])) && bool_decide (c_key c = key) then
        (Ok (c_address c, zdrop payloadOffset packet), c)
      else
        let r := sliceReader (drop 4 (ztake payloadOffset packet)) in
        match fst (readAddress r (at_ packet 3)) with
        | Fail e => (Fail e, c)
        | Ok address => (Ok (address, zdrop payloadOffset packet), mkUDPCache key address)
        end
  end.

Definition ParseUDPPacket (packet : list byte) : result (gostring * list byte) :=
  fst (Parse zeroUDPCache packet).

Definition BuildUDPPacket (address : gostring) (payload : list byte) : result (list byte) :=
  let? encoded := encodeAddress address in
  Ok (replicate 3 Byte.x00 ++ encoded ++ payload).

Definition errBufferSmall := Errorf "UDP output buffer too small".

(** A caller's buffer is the bytes of its whole capacity. *)
Definition BuildUDPPacketInto (dst : list byte) (address : gostring) (payload : list byte)
  : result (list byte) :=
  if len dst <? 3 then Fail errBufferSmall
  else
    let? encoded := encodeAddressInto [] address in
    let length := 3 + len encoded + len payload in
    if len dst <? length then Fail errBufferSmall
    else Ok (take 3 dst ++ encoded ++ payload).

Record UDPBuilderCache := mkUDPBuilderCache {
  b_address : gostring;
  b_encoded : list byte;
}.

Definition buildUDPPacketWithEncoded (dst encoded payload : list byte) : result (list byte) :=
  let length := 3 + len encoded + len payload in
  if len dst <? length then Fail errBufferSmall
  else Ok (replicate 3 Byte.x00 ++ encoded ++ payload).

Definition BuildInto (c : UDPBuilderCache) (dst : list byte) (address : gostring) (payload : list byte)
  : result (list byte) * UDPBuilderCache :=
  if negb (bool_decide (b_address c = address)) || (len (b_encoded c) =? 0) then
    match encodeAddressInto [] address with
    | Fail e => (Fail e, c)
    | Ok encoded =>
        (buildUDPPacketWithEncoded dst encoded payload, mkUDPBuilderCache address encoded)
    end
  else (buildUDPPacketWithEncoded dst (b_encoded c) payload, c).

(** ** Reading addresses *)

(** The schedule of a [sliceReader] answers as its [Read] method does. *)
Lemma sliceReader_schedule n value :
  0 < n ->
  Read n (sliceReader value) =
    (let '(b, e, v) := sliceReader_Read n value in (b, e, sliceReader v)).
Proof.
  intros Hn. destruct value as [|x value]; [done|]. unfold sliceReader_Read.
  rewrite len_cons, (proj2 (Z.eqb_neq _ _)) by lia. cbn [sliceReader Read].
  destruct (Z.leb_spec (len (x :: value)) n).
  - by rewrite ztake_all, zdrop_all by done.
  - destruct (zdrop n (x :: value)) as [|y v] eqn:E; [|done].
    apply (f_equal (fun l => len l)) in E. rewrite len_zdrop, len_nil in E by lia. lia.
Qed.

Lemma sliceReader_delivers value : delivers (sliceReader value) value.
Proof.
  destruct value; (split; [|cbn; rewrite ?app_nil_r; done]); repeat constructor.
Qed.

Lemma readN_app n r b1 b2 :
  n = len b1 -> delivers r (b1 ++ b2) -> exists r', readN n r = (Ok b1, r') /\ delivers r' b2.
Proof.
  intros Hn Hd. destruct (ReadFull_app n r b1 b2 Hn Hd) as (r' & E & Hd').
  exists r'. unfold readN. by rewrite E.
Qed.

Lemma encodeAddressInto_inv dst address enc :
  encodeAddressInto dst address = Ok enc ->
  exists host port h, splitTarget 0 (Errorf "invalid address") (Errorf "invalid port") address = Ok (host, port) /\
    encodedHost host h /\ 0 <= port <= 65535 /\ enc = dst ++ h ++ be 2 port.
Proof.
  unfold encodeAddressInto. intros E. destruct (splitTarget _ _ _ address) as [[host port]|] eqn:Es; [|done].
  destruct (appendHost _ host) as [h|] eqn:Eh; [|done]. injection E as <-.
  exists host, port, h. pose proof (splitTarget_ok _ _ _ _ _ _ Es) as [Hp _].
  split_and!; [done|by eapply appendHost_encoded|lia|lia|done].
Qed.

Lemma readHost_encoded host h rest r :
  encodedHost host h -> delivers r (drop 1 h ++ rest) ->
  exists r', readHost r (at_ h 0) = (Ok (canonicalHost host), r') /\ delivers r' rest.
Proof.
  intros [q Hq Hc|ip Hi Hc|Hh Hc] Hd; rewrite Hc; unfold readHost; cbn [drop] in Hd.
  - change (at_ (atypIPv4 :: q) 0) with atypIPv4. rewrite bool_decide_true by done.
    destruct (readN_app 4 r q rest) as (r' & -> & Hr); [lia|done|]. by exists r'.
  - change (at_ (atypIPv6 :: ip) 0) with atypIPv6. rewrite !bool_decide_false, bool_decide_true by done.
    destruct (readN_app 16 r ip rest) as (r' & -> & Hr); [lia|done|]. by exists r'.
  - change (at_ (atypDomain :: _ :: _) 0) with atypDomain. rewrite bool_decide_false, bool_decide_true by done.
    destruct (readN_app 1 r [byte_of (len host)] (host ++ rest)) as (r1 & -> & H1); [done|done|].
    change (at_ [byte_of (len host)] 0) with (byte_of (len host)). rewrite byteZ_len by lia.
    apply readN_app; done.
Qed.

(** Reading back an encoded address, whatever the fragmentation. *)
Lemma readAddress_encoded host h port rest r :
  encodedHost host h -> 0 <= port <= 65535 -> delivers r (drop 1 h ++ be 2 port ++ rest) ->
  exists r', readAddress r (at_ h 0) = (Ok (canonicalAddress host port), r') /\ delivers r' rest.
Proof.
  intros He Hp Hd. destruct (readHost_encoded host h (be 2 port ++ rest) r He Hd) as (r1 & E & H1).
  unfold readAddress. rewrite E. destruct (readN_app 2 r1 (be 2 port) rest) as (r' & -> & Hr); [by rewrite len_be|done|].
  exists r'. split; [|done]. unfold canonicalAddress. rewrite be_val_be2 by (unfold is_u16; lia). done.
Qed.

(** ** Negotiation *)

(** a client that greets with version 5, offers its methods and asks for
    CONNECT or UDP ASSOCIATE of an encoded address, cut up in any way, is
    answered [05 00] exactly when it offers "no authentication", and its
    request is the command and the canonical address, with a reader that
    holds exactly the bytes behind the request; otherwise it is answered
    [05 ff] and refused. *)
Theorem socks_negotiate r w methods cmd rsv host h port rest :
  delivers r ([Byte.x05; byte_of (len methods)] ++ methods ++ [Byte.x05; cmd; rsv] ++ h ++ be 2 port ++ rest) ->
  len methods <= 255 -> cmd = CommandConnect \/ cmd = CommandUDPAssociate ->
  encodedHost host h -> 0 <= port <= 65535 -> wr_sched w = [] ->
  if bool_decide (Byte.x00 ∈ methods) then
    exists r', Negotiate r w = (Ok (mkRequest cmd (canonicalAddress host port) r'),
                                mkWriter (wr_out w ++ [Byte.x05; Byte.x00]) []) /\ delivers r' rest
  else Negotiate r w = (Fail (Errorf "no supported authentication method"),
                        mkWriter (wr_out w ++ [Byte.x05; Byte.xff]) []).
Proof.
  intros Hd Hm Hc He Hp Hw. unfold Negotiate, Write. rewrite Hw.
  destruct (readN_app 2 r [Byte.x05; byte_of (len methods)] _ eq_refl Hd) as (r1 & -> & H1).
  change (at_ [Byte.x05; byte_of (len methods)] 0) with Byte.x05.
  change (at_ [Byte.x05; byte_of (len methods)] 1) with (byte_of (len methods)).
  rewrite (bool_decide_true (Byte.x05 = _)) by done. cbn [negb]. rewrite byteZ_len by lia.
  destruct (readN_app (len methods) r1 methods _ eq_refl H1) as (r2 & -> & H2).
  destruct (bool_decide (Byte.x00 ∈ methods)); cbn [negb]; [|done].
  destruct (encodedHost_length _ _ He) as [Hl _]. destruct h as [|atyp h']; [cbn in Hl; lia|].
  destruct (readN_app 4 r2 [Byte.x05; cmd; rsv; atyp] (h' ++ be 2 port ++ rest) eq_refl) as (r3 & -> & H3).
  { by cbn in H2 |- *. }
  change (at_ [Byte.x05; cmd; rsv; atyp] 0) with Byte.x05. change (at_ [Byte.x05; cmd; rsv; atyp] 1) with cmd.
  rewrite (bool_decide_true (Byte.x05 = _)) by done. cbn [negb].
  replace (negb (bool_decide (cmd = CommandConnect)) && negb (bool_decide (cmd = CommandUDPAssociate)))
    with false by (by destruct Hc as [-> | ->]).
  destruct (readAddress_encoded host (atyp :: h') port rest r3 He Hp H3) as (r4 & E & H4).
  change (at_ [Byte.x05; cmd; rsv; atyp] 3) with (at_ (atyp :: h') 0). rewrite E. by exists r4.
Qed.

(** ** UDP packets *)

Lemma udpPayloadOffset_encoded host h port payload :
  encodedHost host h ->
  udpPayloadOffset (replicate 3 Byte.x00 ++ h ++ be 2 port ++ payload) = Ok (3 + len h + 2).
Proof.
  intros He. set (p := replicate 3 _ ++ _).
  assert (len p = 3 + len h + 2 + len payload) as Hl by (unfold p; len_simpl; lia).
  pose proof (encodedHost_length _ _ He) as Hh. unfold udpPayloadOffset.
  rewrite (proj2 (Z.ltb_ge (len p) 4)) by lia.
  change (at_ p 0) with Byte.x00. change (at_ p 1) with Byte.x00. change (at_ p 2) with Byte.x00.
  rewrite (bool_decide_true (Byte.x00 = _)) by done. cbn [orb negb].
  destruct He as [q Hq _|ip Hi _|Hd _]; rewrite !len_cons in *.
  - change (at_ p 3) with atypIPv4. rewrite bool_decide_true by done.
    rewrite (proj2 (Z.ltb_ge (len p) _)) by lia. f_equal. lia.
  - change (at_ p 3) with atypIPv6. rewrite !bool_decide_false, bool_decide_true by done.
    rewrite (proj2 (Z.ltb_ge (len p) _)) by lia. f_equal. lia.
  - change (at_ p 3) with atypDomain. change (at_ p 4) with (byte_of (len host)).
    rewrite bool_decide_false, bool_decide_true, byteZ_len by (done || lia).
    rewrite !(proj2 (Z.ltb_ge (len p) _)) by lia. cbn [orb]. f_equal. lia.
Qed.

(** The address a key stands for. *)
Definition keyAddress (key : list byte) : result gostring :=
  fst (readAddress (sliceReader (drop 1 key)) (at_ key 0)).

(** Parsing without a cache. *)
Definition parseReference (packet : list byte) : result (gostring * list byte) :=
  let? off := udpPayloadOffset packet in
  let? address := keyAddress (drop 3 (ztake off packet)) in
  Ok (address, zdrop off packet).

Definition cacheOk (c : UDPCache) : Prop := c_address c <> [] -> keyAddress (c_key c) = Ok (c_address c).

Lemma udpPayloadOffset_bound packet off : udpPayloadOffset packet = Ok off -> 7 <= off <= len packet.
Proof.
  unfold udpPayloadOffset. intros H. pose proof (byteZ_range (at_ packet 4)). inv_fun H; lia.
Qed.

Lemma Parse_reference c packet :
  cacheOk c -> fst (Parse c packet) = parseReference packet /\ cacheOk (snd (Parse c packet)).
Proof.
  intros Hc. unfold Parse, parseReference.
  destruct (udpPayloadOffset packet) as [off|e] eqn:Eo; [|done].
  apply udpPayloadOffset_bound in Eo as Hoff. set (key := drop 3 (ztake off packet)).
  assert (drop 4 (ztake off packet) = drop 1 key) as -> by (unfold key; by rewrite drop_drop).
  assert (at_ packet 3 = at_ key 0) as ->.
  { unfold key, at_, ztake. rewrite lookup_drop, lookup_take_lt by lia. done. }
  fold (keyAddress key). destruct (negb _ && _) eqn:E; bool_to_prop.
  - split; [|done].
    cbn [fst]. replace key with (c_key c) by done. by rewrite (Hc ltac:(done)).
  - destruct (keyAddress key) as [a|e] eqn:Ek; [|done]. split; [done|]. intros _. exact Ek.
Qed.

(** [Parse] on the packets of an association, one cache for all. *)
Fixpoint parseAll (c : UDPCache) (packets : list (list byte)) : list (result (gostring * list byte)) :=
  match packets with
  | [] => []
  | p :: rest => let '(res, c') := Parse c p in res :: parseAll c' rest
  end.

(** [BuildInto] on the packets of an association. *)
Fixpoint buildAll (c : UDPBuilderCache) (packets : list (list byte * gostring * list byte))
  : list (result (list byte)) :=
  match packets with
  | [] => []
  | (dst, address, payload) :: rest =>
      let '(res, c') := BuildInto c dst address payload in res :: buildAll c' rest
  end.

Definition builderOk (c : UDPBuilderCache) : Prop :=
  b_encoded c <> [] -> encodeAddress (b_address c) = Ok (b_encoded c).

(** Building without a cache, into a buffer of the caller. *)
Definition buildReference (request : list byte * gostring * list byte) : result (list byte) :=
  let '(dst, address, payload) := request in
  let? p := BuildUDPPacket address payload in
  if len dst <? len p then Fail errBufferSmall else Ok p.

Lemma BuildInto_reference c dst address payload :
  builderOk c ->
  fst (BuildInto c dst address payload) = buildReference (dst, address, payload) /\
  builderOk (snd (BuildInto c dst address payload)).
Proof.
  intros Hc. unfold BuildInto, buildReference, BuildUDPPacket, buildUDPPacketWithEncoded.
  assert (forall enc : list byte, len (replicate 3 Byte.x00 ++ enc ++ payload) = 3 + len enc + len payload) as Hl
    by (intros; len_simpl; lia).
  destruct (negb _ || _) eqn:E.
  - fold (encodeAddress address). destruct (encodeAddress address) as [enc|e] eqn:Ee; [|done].
    cbn [fst snd]. rewrite Hl. split; [done|]. intros _. exact Ee.
  - apply orb_false_elim in E as [E1 E2]. bool_to_prop. subst address.
    assert (b_encoded c <> []) as Hn by (intros Hx; by rewrite Hx in E2). rewrite (Hc Hn). cbn [fst snd]. by rewrite Hl.
Qed.

Lemma parseAll_reference c packets : cacheOk c -> parseAll c packets = ParseUDPPacket <$> packets.
Proof.
  assert (cacheOk zeroUDPCache) as H0 by (by intros []).
  revert c. induction packets as [|p packets IH]; intros c Hc; [done|]. cbn [parseAll fmap list_fmap].
  destruct (Parse_reference c p Hc) as [E Hc']. destruct (Parse_reference zeroUDPCache p H0) as [E0 _].
  unfold ParseUDPPacket at 1. rewrite E0. destruct (Parse c p) as [res c']. cbn [fst snd] in *. subst res.
  f_equal. by apply IH.
Qed.

Lemma buildAll_reference c packets : builderOk c -> buildAll c packets = buildReference <$> packets.
Proof.
  revert c. induction packets as [|[[dst a] p] packets IH]; intros c Hc; [done|]. cbn [buildAll fmap list_fmap].
  destruct (BuildInto_reference c dst a p Hc) as [E Hc'].
  destruct (BuildInto c dst a p) as [res c']. cbn [fst snd] in *. subst res. f_equal. by apply IH.
Qed.

(** the two caches are invisible: over any sequence of packets, parsing
    with one [UDPCache] gives what parsing each packet alone gives, and
    building with one [UDPBuilderCache] gives what building each packet alone
    gives, when the caller's buffer can hold it. *)
Theorem socks_udp_caches :
  (forall packets, parseAll zeroUDPCache packets = ParseUDPPacket <$> packets) /\
  (forall packets, buildAll (mkUDPBuilderCache [] []) packets = buildReference <$> packets).
Proof.
  split; intros packets; [apply parseAll_reference|apply buildAll_reference]; by intros [].
Qed.

(** a UDP packet built for an address is parsed to the canonical form of
    that address and exactly the payload, by a cache in any state that
    [Parse] can leave it in; [BuildUDPPacketInto] makes the same packet when
    the first three bytes of the caller's buffer are zero, and a packet that
    is refused otherwise. *)
Theorem socks_udp_roundtrip address payload packet c dst :
  BuildUDPPacket address payload = Ok packet -> cacheOk c ->
  (exists host port,
     splitTarget 0 (Errorf "invalid address") (Errorf "invalid port") address = Ok (host, port) /\
     fst (Parse c packet) = Ok (canonicalAddress host port, payload)) /\
  (len packet <= len dst ->
   exists packet', BuildUDPPacketInto dst address payload = Ok packet' /\
     if bool_decide (take 3 dst = replicate 3 Byte.x00) then packet' = packet
     else fst (Parse c packet') = Fail errFragmented).
Proof.
  intros E Hc. unfold BuildUDPPacket in E.
  destruct (encodeAddress address) as [enc|] eqn:Ee; [|done].
  assert (packet = replicate 3 Byte.x00 ++ enc ++ payload) as -> by congruence. clear E. split.
  - destruct (encodeAddressInto_inv _ _ _ Ee) as (host & port & h & Es & He & Hp & ->).
    exists host, port. split; [done|]. rewrite (proj1 (Parse_reference c _ Hc)).
    unfold parseReference. rewrite app_nil_l, <- (app_assoc h).
    rewrite (udpPayloadOffset_encoded host) by done.
    assert (ztake (3 + len h + 2) (replicate 3 Byte.x00 ++ h ++ be 2 port ++ payload)
            = replicate 3 Byte.x00 ++ h ++ be 2 port) as ->.
    { rewrite !app_assoc. apply ztake_app. len_simpl. lia. }
    assert (zdrop (3 + len h + 2) (replicate 3 Byte.x00 ++ h ++ be 2 port ++ payload) = payload) as ->.
    { rewrite !app_assoc. apply zdrop_app. len_simpl. lia. }
    rewrite drop_app_length' by (by rewrite length_replicate).
    destruct (encodedHost_length _ _ He) as [Hl _]. destruct h as [|atyp h']; [cbn in Hl; lia|].
    destruct (readAddress_encoded host (atyp :: h') port [] (sliceReader (h' ++ be 2 port)) He Hp) as (r' & E & _).
    { rewrite app_nil_r. apply sliceReader_delivers. }
    unfold keyAddress. change (drop 1 ((atyp :: h') ++ be 2 port)) with (h' ++ be 2 port).
    change (at_ ((atyp :: h') ++ be 2 port) 0) with (at_ (atyp :: h') 0). by rewrite E.
  - intros Hd. len_simpl. unfold BuildUDPPacketInto. fold (encodeAddress address).
    rewrite (proj2 (Z.ltb_ge (len dst) 3)), Ee by lia.
    rewrite (proj2 (Z.ltb_ge (len dst) _)) by lia. eexists. split; [done|].
    case_bool_decide as H3; [by rewrite H3|]. rewrite (proj1 (Parse_reference c _ Hc)).
    unfold parseReference, udpPayloadOffset.
    assert (exists x y z d, dst = x :: y :: z :: d) as (x & y & z & d & ->).
    { destruct dst as [|x [|y [|z d]]]; cbn in Hd; try lia. eauto. }
    cbn [take app]. change (at_ (x :: _) 0) with x. change (at_ (x :: _) 1) with y. change (at_ (x :: _) 2) with z.
    destruct (negb (bool_decide (x = _))) eqn:Ex; [by rewrite orb_true_r|].
    destruct (negb (bool_decide (y = _))) eqn:Ey; [by rewrite !orb_true_r|].
    destruct (negb (bool_decide (z = _))) eqn:Ez; [by rewrite !orb_true_r|].
    bool_to_prop. subst. done.
Qed.

(** ** Witnesses *)

Lemma socks_negotiate_witness :
  exists r', Negotiate [RD [Byte.x05; Byte.x01; Byte.x00; Byte.x05] None;
                       RD ([Byte.x01; Byte.x00; Byte.x01; Byte.x01; Byte.x02; Byte.x03; Byte.x04] ++ be 2 443 ++ bs "GET") None] sink
    = (Ok (mkRequest CommandConnect (bs "1.2.3.4:443") r'), mkWriter [Byte.x05; Byte.x00] []) /\ delivers r' (bs "GET").
Proof.
  apply (socks_negotiate _ sink [Byte.x00] CommandConnect Byte.x00 (bs "1.2.3.4")
    [Byte.x01; Byte.x01; Byte.x02; Byte.x03; Byte.x04] 443 (bs "GET")).
  - split; [repeat constructor|reflexivity].
  - cbn. lia.
  - by left.
  - by apply (appendHost_encoded EOF).
  - lia.
  - reflexivity.
Defined.

Lemma socks_udp_roundtrip_witness :
  exists host port,
    splitTarget 0 (Errorf "invalid address") (Errorf "invalid port") (bs "[::1]:53") = Ok (host, port).
Proof.
  destruct (socks_udp_roundtrip (bs "[::1]:53") (bs "dns")
    (okOr [] (BuildUDPPacket (bs "[::1]:53") (bs "dns"))) zeroUDPCache (replicate 64 Byte.x00))
    as [(host & port & E & _) _].
  - vm_compute. reflexivity.
  - by intros [].
  - exists host, port. exact E.
Defined.
