(* ===== verification/Encoding.v ===== *)
(** * [encoding/base64], [encoding/hex] and [strings] as [pkg/auth] uses them

    The URL alphabet of base64 without padding, hexadecimal decoding, and
    [strings.TrimSpace] and [strings.Cut], as executable functions on byte
    strings.  As in Go, the base64 decoder skips CR and LF and ignores the
    unused low bits of the last character. *)
From S2P Require Import Prelude GoNet.

Open Scope Z_scope.

(** ** base64.RawURLEncoding *)

Definition b64char (v : Z) : byte :=
  if v <? 26 then byte_of (65 + v)
  else if v <? 52 then byte_of (97 + (v - 26))
  else if v <? 62 then byte_of (48 + (v - 52))
  else if v =? 62 then Byte.x2d else Byte.x5f.

Definition b64value (c : byte) : option Z :=
  let z := byteZ c in
  if (65 <=? z) && (z <=? 90) then Some (z - 65)
  else if (97 <=? z) && (z <=? 122) then Some (z - 97 + 26)
  else if (48 <=? z) && (z <=? 57) then Some (z - 48 + 52)
  else if z =? 45 then Some 62
  else if z =? 95 then Some 63
  else None.

(** [EncodeToString] *)
Fixpoint b64encode (s : list byte) : gostring :=
  match s with
  | x :: y :: z :: rest =>
      let v := byteZ x * 65536 + byteZ y * 256 + byteZ z in
      b64char (v / 262144) :: b64char (v / 4096 mod 64) :: b64char (v / 64 mod 64) :: b64char (v mod 64)
        :: b64encode rest
  | [x; y] =>
      let v := byteZ x * 65536 + byteZ y * 256 in
      [b64char (v / 262144); b64char (v / 4096 mod 64); b64char (v / 64 mod 64)]
  | [x] => let v := byteZ x * 65536 in [b64char (v / 262144); b64char (v / 4096 mod 64)]
  | [] => []
  end.

(** The bytes of a sequence of six-bit values; a single value at the end is
    an error. *)
Fixpoint b64bytes (vs : list Z) : option (list byte) :=
  match vs with
  | a :: b :: c :: d :: rest =>
      let v := a * 262144 + b * 4096 + c * 64 + d in
      l ← b64bytes rest; Some (byte_of (v / 65536) :: byte_of (v / 256) :: byte_of v :: l)
  | [a; b; c] => let v := a * 262144 + b * 4096 + c * 64 in Some [byte_of (v / 65536); byte_of (v / 256)]
  | [a; b] => let v := a * 262144 + b * 4096 in Some [byte_of (v / 65536)]
  | [_] => None
  | [] => Some []
  end.

Definition notNewline (c : byte) : bool := negb (bool_decide (c = Byte.x0a)) && negb (bool_decide (c = Byte.x0d)).

(** [DecodeString] *)
Definition b64decode (s : gostring) : option (list byte) :=
  vs ← mapM b64value (filter notNewline s); b64bytes vs.

(** ** hex.DecodeString *)

Fixpoint hexdecode (s : gostring) : option (list byte) :=
  match s with
  | [] => Some []
  | [_] => None
  | a :: b :: rest =>
      x ← hex_val a; y ← hex_val b; l ← hexdecode rest; Some (byte_of (x * 16 + y) :: l)
  end.

(** [hex.EncodeToString] *)
Definition hexencode (b : list byte) : gostring :=
  concat ((fun c => [hexdigit (byteZ c / 16); hexdigit (byteZ c mod 16)]) <$> b).

(** ** strings *)

(** The encodings of the characters that [unicode.IsSpace] accepts. *)
Definition spaces : list gostring :=
  [[Byte.x09]; [Byte.x0a]; [Byte.x0b]; [Byte.x0c]; [Byte.x0d]; [Byte.x20];
   [Byte.xc2; Byte.x85]; [Byte.xc2; Byte.xa0]; [Byte.xe1; Byte.x9a; Byte.x80];
   [Byte.xe2; Byte.x80; Byte.x80]; [Byte.xe2; Byte.x80; Byte.x81]; [Byte.xe2; Byte.x80; Byte.x82];
   [Byte.xe2; Byte.x80; Byte.x83]; [Byte.xe2; Byte.x80; Byte.x84]; [Byte.xe2; Byte.x80; Byte.x85];
   [Byte.xe2; Byte.x80; Byte.x86]; [Byte.xe2; Byte.x80; Byte.x87]; [Byte.xe2; Byte.x80; Byte.x88];
   [Byte.xe2; Byte.x80; Byte.x89]; [Byte.xe2; Byte.x80; Byte.x8a]; [Byte.xe2; Byte.x80; Byte.xa8];
   [Byte.xe2; Byte.x80; Byte.xa9]; [Byte.xe2; Byte.x80; Byte.xaf]; [Byte.xe2; Byte.x81; Byte.x9f];
   [Byte.xe3; Byte.x80; Byte.x80]].

(** Strip spaces from the front while there is one; [fuel] is the length. *)
Fixpoint trimLeft (sp : list gostring) (fuel : nat) (s : gostring) : gostring :=
  match fuel with
  | O => s
  | S f => match list_find (fun p => hasPrefix p s = true) sp with
           | Some (_, p) => trimLeft sp f (drop (length p) s)
           | None => s
           end
  end.

Definition TrimSpace (s : gostring) : gostring :=
  let s1 := trimLeft spaces (length s) s in
  reverse (trimLeft (reverse <$> spaces) (length s1) (reverse s1)).

(** [strings.Cut(s, string(c))] *)
Fixpoint Cut (c : byte) (s : gostring) : gostring * gostring * bool :=
  match s with
  | [] => ([], [], false)
  | b :: rest =>
      if bool_decide (b = c) then ([], rest, true)
      else let '(before, after, found) := Cut c rest in
           if found then (b :: before, after, true) else (s, [], false)
  end.

(** [bufio.ScanLines] drops one CR before the LF. *)
Definition dropCR (s : gostring) : gostring :=
  match last s with
  | Some Byte.x0d => take (length s - 1) s
  | _ => s
  end.

(** The lines of a text, without their LF; the last may lack it. *)
Fixpoint scanLines (s cur : gostring) : list gostring :=
  match s with
  | [] => if bool_decide (cur = []) then [] else [cur]
  | b :: rest =>
      if bool_decide (b = Byte.x0a) then cur :: scanLines rest []
      else scanLines rest (cur ++ [b])
  end.

(** ** base64 round trip *)

Lemma b64_char_table : forallb (fun i => bool_decide (b64value (b64char (Z.of_nat i)) = Some (Z.of_nat i)))
  (seq 0 64) = true.
Proof. vm_compute. reflexivity. Qed.

Lemma b64value_char v : 0 <= v < 64 -> b64value (b64char v) = Some v.
Proof.
  intros Hv. pose proof b64_char_table as H. rewrite forallb_forall in H.
  specialize (H (Z.to_nat v) ltac:(apply in_seq; lia)). rewrite Z2Nat.id in H by lia.
  by apply bool_decide_eq_true in H.
Qed.

Lemma b64value_notNewline c v : b64value c = Some v -> notNewline c = true.
Proof.
  unfold notNewline. intros H. rewrite !bool_decide_false; [done| |]; intros ->; vm_compute in H; done.
Qed.

(** The values of an encoding. *)
Fixpoint b64values (s : list byte) : list Z :=
  match s with
  | x :: y :: z :: rest =>
      let v := byteZ x * 65536 + byteZ y * 256 + byteZ z in
      v / 262144 :: v / 4096 mod 64 :: v / 64 mod 64 :: v mod 64 :: b64values rest
  | [x; y] => let v := byteZ x * 65536 + byteZ y * 256 in [v / 262144; v / 4096 mod 64; v / 64 mod 64]
  | [x] => let v := byteZ x * 65536 in [v / 262144; v / 4096 mod 64]
  | [] => []
  end.

(** Induction by groups of three. *)
Lemma list_ind3 {A} (P : list A -> Prop) :
  P [] -> (forall x, P [x]) -> (forall x y, P [x; y]) ->
  (forall x y z l, P l -> P (x :: y :: z :: l)) -> forall l, P l.
Proof.
  intros H0 H1 H2 H3. fix IH 1. intros [|x [|y [|z l]]]; [done|apply H1|apply H2|apply H3, IH].
Qed.

Lemma b64encode_values s :
  b64encode s = b64char <$> b64values s /\ Forall (fun v => 0 <= v < 64) (b64values s).
Proof.
  induction s as [|x|x y|x y z s [IH1 IH2]] using list_ind3; cbn [b64encode b64values fmap list_fmap].
  - done.
  - pose proof (byteZ_range x). split; [done|]. repeat constructor; lia.
  - pose proof (byteZ_range x). pose proof (byteZ_range y). split; [done|]. repeat constructor; lia.
  - pose proof (byteZ_range x). pose proof (byteZ_range y). pose proof (byteZ_range z).
    rewrite IH1. split; [done|]. repeat (constructor; [lia|]). done.
Qed.

Lemma byte_of_eq v b : v mod 256 = byteZ b -> byte_of v = b.
Proof. intros H. apply byteZ_inj. by rewrite byteZ_of. Qed.

Lemma b64bytes_values s : b64bytes (b64values s) = Some s.
Proof.
  induction s as [|x|x y|x y z s IH] using list_ind3; cbn [b64values b64bytes].
  - done.
  - pose proof (byteZ_range x). do 2 f_equal. apply byte_of_eq. lia.
  - pose proof (byteZ_range x). pose proof (byteZ_range y).
    do 2 f_equal; [|f_equal]; apply byte_of_eq; lia.
  - pose proof (byteZ_range x). pose proof (byteZ_range y). pose proof (byteZ_range z).
    rewrite IH. cbn [mbind option_bind].
    set (v := byteZ x * 65536 + byteZ y * 256 + byteZ z).
    replace (v / 262144 * 262144 + v / 4096 mod 64 * 4096 + v / 64 mod 64 * 64 + v mod 64) with v by lia.
    rewrite (byte_of_eq (v / 65536) x), (byte_of_eq (v / 256) y), (byte_of_eq v z) by lia. done.
Qed.

Lemma b64decode_encode s : b64decode (b64encode s) = Some s.
Proof.
  destruct (b64encode_values s) as [E Hv]. unfold b64decode. rewrite E.
  assert (mapM b64value (filter notNewline (b64char <$> b64values s)) = Some (b64values s)) as ->.
  { clear E. induction Hv as [|v vs Hv Hvs IH]; [done|]. rewrite fmap_cons.
    pose proof (b64value_char v Hv) as Hc. rewrite filter_cons_True by (by rewrite (b64value_notNewline _ _ Hc)).
    cbn [mapM]. rewrite Hc. cbn.
    rewrite IH. done. }
  apply b64bytes_values.
Qed.

(** What an encoding is made of: no tab, no newline. *)
Lemma b64encode_chars s c : c ∈ b64encode s -> is_Some (b64value c).
Proof.
  destruct (b64encode_values s) as [-> Hv]. intros (v & -> & Hin)%list_elem_of_fmap.
  rewrite Forall_forall in Hv. rewrite b64value_char by (by apply Hv). eauto.
Qed.

Lemma b64encode_inj s1 s2 : b64encode s1 = b64encode s2 -> s1 = s2.
Proof.
  intros E. pose proof (b64decode_encode s1) as H. rewrite E, b64decode_encode in H. congruence.
Qed.

Lemma b64encode_nonnil s : s <> [] -> b64encode s <> [].
Proof. by destruct s as [|x [|y [|z s]]]. Qed.

(** ** Lines and fields *)

Lemma Cut_fresh c before after : c ∉ before -> Cut c (before ++ c :: after) = (before, after, true).
Proof.
  induction before as [|b before IH]; intros H; cbn.
  - by rewrite bool_decide_true.
  - apply not_elem_of_cons in H as [Hb H]. rewrite bool_decide_false by done. by rewrite IH.
Qed.

Lemma scanLines_line line rest cur :
  Byte.x0a ∉ line -> scanLines (line ++ Byte.x0a :: rest) cur = (cur ++ line) :: scanLines rest [].
Proof.
  revert cur. induction line as [|b line IH]; intros cur H; cbn.
  - by rewrite bool_decide_true, app_nil_r.
  - apply not_elem_of_cons in H as [Hb H]. rewrite bool_decide_false by done.
    rewrite IH by done. by rewrite <- app_assoc.
Qed.

Lemma dropCR_id s c : last s = Some c -> c <> Byte.x0d -> dropCR s = s.
Proof. intros H Hc. unfold dropCR. rewrite H. by destruct c. Qed.

(** ** Hexadecimal *)

Lemma hex_val_digit d : 0 <= d < 16 -> hex_val (hexdigit d) = Some d.
Proof.
  intros Hd. assert (forallb (fun i => bool_decide (hex_val (hexdigit (Z.of_nat i)) = Some (Z.of_nat i))) (seq 0 16) = true)
    as Ht by (vm_compute; reflexivity).
  rewrite forallb_forall in Ht. specialize (Ht (Z.to_nat d)). rewrite Z2Nat.id in Ht by lia.
  apply bool_decide_eq_true in Ht; [done|]. apply in_seq. lia.
Qed.

Lemma hexdecode_encode b : hexdecode (hexencode b) = Some b.
Proof.
  induction b as [|c b IH]; [done|]. unfold hexencode. rewrite fmap_cons. cbn [concat app]. fold (hexencode b).
  pose proof (byteZ_range c). assert (0 <= byteZ c / 16 < 16) as Hq by (split; [apply Z.div_pos; lia|apply Z.div_lt_upper_bound; lia]).
  assert (0 <= byteZ c mod 16 < 16) as Hr by (apply Z.mod_pos_bound; lia).
  cbn [hexdecode]. rewrite (hex_val_digit _ Hq), (hex_val_digit _ Hr), IH. cbn. do 2 f_equal. apply byte_of_eq.
  rewrite Z.mul_comm, <- Z.div_mod by lia. apply Z.mod_small. lia.
Qed.

Lemma hexencode_inj a b : hexencode a = hexencode b -> a = b.
Proof. intros E. pose proof (hexdecode_encode a) as Ha. rewrite E, hexdecode_encode in Ha. congruence. Qed.
