(* ===== verification/Auth.v ===== *)
(** * Request authentication: [pkg/auth] (auth.go)

    A request carries a timestamp, a nonce and a signature: the HMAC of a
    transcript in which every field is preceded by its length.  [Verify]
    checks the clock and the signature; the nonce goes to the replay cache
    ([ReplayCache.v]).  Times are nanoseconds since the Unix epoch. *)
From S2P Require Import Prelude GoNet Crypto Encoding.

Open Scope Z_scope.

(** ** The code *)

Definition second : Z := 1000000000.
Definition MaxClockSkew : Z := 90 * second.
Definition AuthDomainV2 : gostring := bs "MYXRAY-AUTH-V2".

(** What [writeLengthPrefixed] writes. *)
Definition writeLengthPrefixed (s : gostring) : list byte := be 2 (u16 (len s)) ++ s.

(** The signed fields of a request. *)
Record fields := mkFields {
  f_mode : gostring;
  f_method : gostring;
  f_path : gostring;
  f_target : gostring;
  f_timestamp : gostring;
  f_nonce : gostring;
}.

#[export] Instance fields_eq_dec : EqDecision fields.
Proof. solve_decision. Defined.

Definition transcript (f : fields) : list byte :=
  writeLengthPrefixed AuthDomainV2 ++ writeLengthPrefixed (f_mode f) ++ writeLengthPrefixed (f_method f) ++
  writeLengthPrefixed (f_path f) ++ writeLengthPrefixed (f_target f) ++
  writeLengthPrefixed (f_timestamp f) ++ writeLengthPrefixed (f_nonce f).

(** [LoadPSK], given what [os.ReadFile] returns. *)
Definition LoadPSK (file : result (list byte)) : result (list byte) :=
  let? raw := file in
  let value := TrimSpace raw in
  let fallback := Fail (Errorf "PSK must be at least 32 bytes encoded as hex or base64url") in
  let viaBase64 := match b64decode value with
                   | Some decoded => if 32 <=? len decoded then Ok decoded else fallback
                   | None => fallback
                   end in
  match hexdecode value with
  | Some decoded => if 32 <=? len decoded then Ok decoded else viaBase64
  | None => viaBase64
  end.

Section Auth.
  Context `{Crypto}.

Definition Signature (psk : list byte) (f : fields) : gostring := b64encode (hmac psk (transcript f)).

Definition Verify (psk : list byte) (f : fields) (signature : gostring) (now : Z) : bool :=
  match Atoi (f_timestamp f) with
  | None => false
  | Some unixSeconds =>
      if bool_decide (f_nonce f = []) || bool_decide (signature = []) then false
      else
        let requestTime := unixSeconds * second in
        if (requestTime <? now - MaxClockSkew) || (now + MaxClockSkew <? requestTime) then false
        else bool_decide (Signature psk f = signature)
  end.

(** ** Lemmas *)

Lemma Signature_nonempty psk f : Signature psk f <> [].
Proof.
  apply b64encode_nonnil. intros E. pose proof (hmac_length psk (transcript f)) as Hl. by rewrite E in Hl.
Qed.

Lemma Verify_spec psk f signature now :
  Verify psk f signature now = true <->
  exists s, Atoi (f_timestamp f) = Some s /\ f_nonce f <> [] /\
    now - MaxClockSkew <= s * second <= now + MaxClockSkew /\ signature = Signature psk f.
Proof.
  unfold Verify. destruct (Atoi (f_timestamp f)) as [s|]; [|split; [done|by intros (? & ? & _)]].
  split.
  - intros E. inv_fun E. exists s. split_and!; done || lia.
  - intros (s' & [= <-] & Hn & Ht & ->).
    rewrite !bool_decide_false by (done || apply Signature_nonempty).
    rewrite !(proj2 (Z.ltb_ge _ _)) by lia. cbn [orb]. by rewrite bool_decide_true.
Qed.

Lemma lengthPrefixed_inj s1 s2 r1 r2 :
  len s1 < 65536 -> len s2 < 65536 ->
  writeLengthPrefixed s1 ++ r1 = writeLengthPrefixed s2 ++ r2 -> s1 = s2 /\ r1 = r2.
Proof.
  intros H1 H2 E. unfold writeLengthPrefixed in E. rewrite <- !app_assoc, !be_u16 in E.
  apply app_inj_1 in E as [El E]; [|by rewrite !length_be].
  apply be_inj in El; [|cbn; lia..]. by apply app_inj_1; [lia|].
Qed.

(** Fields short enough for their length prefix. *)
Definition fieldsFit (f : fields) : Prop :=
  Forall (fun s => len s < 65536) [f_mode f; f_method f; f_path f; f_target f; f_timestamp f; f_nonce f].

Lemma transcript_inj f1 f2 : fieldsFit f1 -> fieldsFit f2 -> transcript f1 = transcript f2 -> f1 = f2.
Proof.
  destruct f1, f2. unfold fieldsFit, transcript. cbn [f_mode f_method f_path f_target f_timestamp f_nonce].
  rewrite !Forall_cons. intros F1 F2 E. apply app_inv_head in E. destruct_and!.
  do 5 (apply lengthPrefixed_inj in E as [? E]; [|done..]). subst.
  rewrite <- (app_nil_r (writeLengthPrefixed f_nonce0)), <- (app_nil_r (writeLengthPrefixed f_nonce1)) in E.
  apply lengthPrefixed_inj in E as [-> _]; done.
Qed.

(** [Verify] accepts exactly the signature of the given fields, with a
    non-empty nonce and a decimal timestamp within 90 seconds of the clock;
    and a signature that verifies for two requests is for one and the same
    request, field by field, unless HMAC collides: no field can be shifted
    into its neighbour. *)
Theorem auth_verify psk :
  (forall f signature now, Verify psk f signature now = true <->
     exists s, Atoi (f_timestamp f) = Some s /\ f_nonce f <> [] /\
       now - MaxClockSkew <= s * second <= now + MaxClockSkew /\ signature = Signature psk f) /\
  (forall f1 f2 signature now1 now2, fieldsFit f1 -> fieldsFit f2 ->
     Verify psk f1 signature now1 = true -> Verify psk f2 signature now2 = true ->
     f1 = f2 \/ exists a b, a <> b /\ hmac psk a = hmac psk b).
Proof.
  split; [intros; apply Verify_spec|]. intros f1 f2 signature now1 now2 F1 F2.
  rewrite !Verify_spec. intros (_ & _ & _ & _ & ->) (_ & _ & _ & _ & E). apply b64encode_inj in E.
  destruct (decide (f1 = f2)) as [->|Hn]; [by left|right].
  exists (transcript f1), (transcript f2). split; [|done]. intros Et. by apply Hn, transcript_inj.
Qed.

End Auth.

(** ** Pre-shared keys *)

Lemma trimLeft_stop sp f c s :
  Forall (fun p => exists h t, p = h :: t /\ b64value h = None) sp -> is_Some (b64value c) ->
  trimLeft sp f (c :: s) = c :: s.
Proof.
  intros Hsp [v Hv]. destruct f as [|f]; [done|]. cbn [trimLeft].
  replace (list_find (fun p => hasPrefix p (c :: s) = true) sp) with (@None (nat * gostring)); [done|].
  symmetry. apply list_find_None. eapply Forall_impl; [exact Hsp|]. intros p (h & t & -> & Hh).
  unfold hasPrefix. rewrite bool_decide_false; [done|]. cbn. intros E. congruence.
Qed.

Lemma spaces_heads : Forall (fun p => exists h t, p = h :: t /\ b64value h = None) spaces.
Proof. repeat (constructor; [by eexists _, _|]). constructor. Qed.

Lemma spaces_tails : Forall (fun p => exists h t, p = h :: t /\ b64value h = None) (reverse <$> spaces).
Proof. repeat (constructor; [by eexists _, _|]). constructor. Qed.

(** A base64 word with a newline behind it. *)
Lemma TrimSpace_word s : s <> [] -> (forall c, c ∈ s -> is_Some (b64value c)) -> TrimSpace (s ++ [Byte.x0a]) = s.
Proof.
  intros Hn Hs. unfold TrimSpace.
  assert (trimLeft spaces (length (s ++ [Byte.x0a])) (s ++ [Byte.x0a]) = s ++ [Byte.x0a]) as ->.
  { destruct s as [|c s]; [done|]. apply trimLeft_stop; [apply spaces_heads|apply Hs, list_elem_of_here]. }
  rewrite length_app, reverse_app. cbn [length]. rewrite Nat.add_1_r.
  change (reverse [Byte.x0a] ++ reverse s) with (Byte.x0a :: reverse s).
  change (trimLeft (reverse <$> spaces) (S (length s)) (Byte.x0a :: reverse s))
    with (trimLeft (reverse <$> spaces) (length s) (reverse s)).
  rewrite <- (reverse_involutive s) at 3. f_equal.
  destruct (reverse s) as [|c r] eqn:Er; [by apply (f_equal reverse) in Er; rewrite reverse_involutive in Er|].
  apply trimLeft_stop; [apply spaces_tails|]. apply Hs. rewrite <- elem_of_reverse, Er. apply list_elem_of_here.
Qed.

Lemma hexdecode_length : forall s b, hexdecode s = Some b -> len s = 2 * len b.
Proof.
  fix IH 1. intros [|x [|y s]] b E; cbn [hexdecode] in E; [by injection E as <-|done|].
  destruct (hex_val x), (hex_val y); try done. destruct (hexdecode s) as [l|] eqn:El; [|done].
  injection E as <-. apply IH in El. rewrite !len_cons. lia.
Qed.

Lemma b64encode_length s : 3 * len (b64encode s) <= 4 * len s + 2.
Proof. induction s as [|x|x y|x y z s IH] using list_ind3; cbn [b64encode]; rewrite ?len_cons, ?len_nil; lia. Qed.

(** a key file that holds a key of 32 to 47 bytes in base64url, with a
    newline, is loaded to exactly that key (it cannot be taken for
    hexadecimal), and no key of less than 32 bytes is ever loaded. *)
Theorem load_psk :
  (forall psk, 32 <= len psk <= 47 -> LoadPSK (Ok (b64encode psk ++ [Byte.x0a])) = Ok psk) /\
  (forall file psk, LoadPSK file = Ok psk -> 32 <= len psk).
Proof.
  split.
  - intros psk Hl. unfold LoadPSK. rewrite TrimSpace_word.
    + pose proof (b64encode_length psk) as Hb. rewrite b64decode_encode, (proj2 (Z.leb_le _ _)) by lia.
      destruct (hexdecode (b64encode psk)) as [d|] eqn:Eh; [|done].
      apply hexdecode_length in Eh. rewrite (proj2 (Z.leb_gt _ _)) by lia. done.
    + apply b64encode_nonnil. intros ->. cbn in Hl. lia.
    + apply b64encode_chars.
  - intros file psk E. unfold LoadPSK in E. inv_fun E; done.
Qed.
