(* ===== verification/Heap.v ===== *)
(** * [container/heap] as the replay cache uses it

    The binary heap of Go's standard library on a slice: [Push] appends and
    sifts up, [Pop] swaps the first element to the end and sifts down.  The
    order is the one of an integer key ([time.Time.Before]).  The loops carry
    fuel; the length of the slice is always enough, which is part of what is
    proved. *)
From Stdlib Require Import ZifyNat.
From S2P Require Import Prelude.

Open Scope nat_scope.

Section Heap.
  Context {A : Type} (key : A -> Z).

Definition keyAt (h : list A) (i : nat) : Z := from_option key 0%Z (h !! i).

Definition less (h : list A) (i j : nat) : bool := (keyAt h i <? keyAt h j)%Z.

Definition swap (h : list A) (i j : nat) : list A :=
  match h !! i, h !! j with
  | Some x, Some y => <[i := y]> (<[j := x]> h)
  | _, _ => h
  end.

Fixpoint up (fuel : nat) (h : list A) (j : nat) : list A :=
  match fuel with
  | O => h
  | S f =>
      let i := (j - 1) / 2 in
      if (i =? j) || negb (less h j i) then h else up f (swap h i j) i
  end.

(** The smaller of the children [j1] and [j1 + 1]. *)
Definition child (h : list A) (j1 n : nat) : nat :=
  if (j1 + 1 <? n) && less h (j1 + 1) j1 then j1 + 1 else j1.

Fixpoint down (fuel : nat) (h : list A) (i n : nat) : list A :=
  match fuel with
  | O => h
  | S f =>
      let j1 := 2 * i + 1 in
      if n <=? j1 then h
      else
        let j := child h j1 n in
        if negb (less h j i) then h else down f (swap h i j) j n
  end.

Definition heapPush (h : list A) (x : A) : list A :=
  let h1 := h ++ [x] in up (length h1) h1 (length h1 - 1).

Definition heapPop (h : list A) : option A * list A :=
  let n := length h - 1 in
  let h1 := down (length h) (swap h 0 n) 0 n in
  (h1 !! n, take n h1).

(** Every element but the first is at least its parent. *)
Definition heapOk (n : nat) (h : list A) : Prop :=
  forall i, 0 < i < n -> (keyAt h ((i - 1) / 2) <= keyAt h i)%Z.

(** ** Swapping *)

Lemma length_swap h i j : length (swap h i j) = length h.
Proof. unfold swap. repeat case_match; [|done..]. by rewrite !length_insert. Qed.

Lemma keyAt_swap h i j x :
  i < length h -> j < length h ->
  keyAt (swap h i j) x = if decide (x = i) then keyAt h j else if decide (x = j) then keyAt h i else keyAt h x.
Proof.
  intros [a Ha]%lookup_lt_is_Some_2 [b Hb]%lookup_lt_is_Some_2.
  pose proof (lookup_lt_Some _ _ _ Ha). pose proof (lookup_lt_Some _ _ _ Hb).
  unfold swap, keyAt. rewrite Ha, Hb. repeat case_decide; subst.
  - rewrite list_lookup_insert_eq by (by rewrite length_insert). done.
  - rewrite list_lookup_insert_ne, list_lookup_insert_eq by done. done.
  - by rewrite !list_lookup_insert_ne by done.
Qed.

Lemma swap_perm h i j : swap h i j ≡ₚ h.
Proof.
  unfold swap. destruct (h !! i) as [x|] eqn:Ei; [|done]. destruct (h !! j) as [y|] eqn:Ej; [|done].
  by apply (Permutation_insert_swap h j i y x).
Qed.

Lemma swap_lookup_ge h i j x : i < x -> j < x -> swap h i j !! x = h !! x.
Proof. intros. unfold swap. repeat case_match; [|done..]. by rewrite !list_lookup_insert_ne by lia. Qed.

(** ** Sifting *)

(** A heap but for the key of [j], which may be too small. *)
Definition upOk (h : list A) (j : nat) : Prop :=
  (forall x, 0 < x < length h -> x <> j -> (keyAt h ((x - 1) / 2) <= keyAt h x)%Z) /\
  (forall x, 0 < x < length h -> (x - 1) / 2 = j -> 0 < j -> (keyAt h ((j - 1) / 2) <= keyAt h x)%Z).

Lemma upOk_swap h j :
  0 < j < length h -> upOk h j -> (keyAt h j < keyAt h ((j - 1) / 2))%Z ->
  upOk (swap h ((j - 1) / 2) j) ((j - 1) / 2).
Proof.
  intros Hj [H1 H2] Hlt. set (i := (j - 1) / 2) in *. assert (i < j) as Hij by (unfold i; lia).
  split; intros x Hx; rewrite length_swap in Hx.
  - intros Hxi. rewrite !keyAt_swap by lia. rewrite (decide_False (P := x = i)) by done.
    destruct (decide (x = j)) as [->|Hxj]; [fold i; rewrite decide_True by done; lia|].
    destruct (decide ((x - 1) / 2 = i)) as [E|]; [specialize (H1 x Hx Hxj); rewrite E in H1; lia|].
    destruct (decide ((x - 1) / 2 = j)) as [E|]; [by apply (H2 x Hx E); lia|by apply H1].
  - intros Hp Hi. rewrite !keyAt_swap by lia.
    rewrite (decide_False (P := (i - 1) / 2 = i)), (decide_False (P := (i - 1) / 2 = j)),
      (decide_False (P := x = i)) by lia.
    pose proof (H1 i ltac:(lia) ltac:(lia)). destruct (decide (x = j)) as [->|Hxj]; [done|].
    specialize (H1 x Hx Hxj). rewrite Hp in H1. lia.
Qed.

Lemma up_ok fuel h j : j < fuel -> j < length h -> upOk h j -> heapOk (length h) (up fuel h j).
Proof.
  revert h j. induction fuel as [|f IH]; intros h j Hf Hj Hok; [lia|]. cbn [up].
  destruct (((j - 1) / 2 =? j) || negb (less h j ((j - 1) / 2))) eqn:E.
  - destruct Hok as [H1 _]. intros x Hx. destruct (decide (x = j)) as [->|]; [|by apply H1].
    unfold less in E. apply orb_true_iff in E as [E|E]; bool_to_prop; lia.
  - unfold less in E. bool_to_prop. rewrite <- (length_swap h ((j - 1) / 2) j).
    apply IH; [lia|rewrite length_swap; lia|]. apply upOk_swap; [lia|done|lia].
Qed.

Lemma up_perm fuel h j : up fuel h j ≡ₚ h.
Proof.
  revert h j. induction fuel as [|f IH]; intros h j; [done|]. cbn [up].
  case_match; [done|]. rewrite IH. apply swap_perm.
Qed.

(** A heap of the first [n] elements but for the key of [i], which may be too
    large. *)
Definition downOk (n : nat) (h : list A) (i : nat) : Prop :=
  (forall x, 0 < x < n -> (x - 1) / 2 <> i -> (keyAt h ((x - 1) / 2) <= keyAt h x)%Z) /\
  (forall x, 0 < x < n -> (x - 1) / 2 = i -> 0 < i -> (keyAt h ((i - 1) / 2) <= keyAt h x)%Z).

Lemma downOk_swap n h i j :
  n <= length h -> i < j < n -> (j - 1) / 2 = i -> downOk n h i -> (keyAt h j < keyAt h i)%Z ->
  (forall x, 0 < x < n -> (x - 1) / 2 = i -> (keyAt h j <= keyAt h x)%Z) ->
  downOk n (swap h i j) j.
Proof.
  intros Hn Hij Hp [H1 H2] Hlt Hmin. split; intros x Hx.
  - intros Hxj. rewrite !keyAt_swap by lia. rewrite (decide_False (P := (x - 1) / 2 = j)) by done.
    destruct (decide (x = i)) as [->|Hxi].
    { rewrite decide_False by lia. apply (H2 j); lia. }
    destruct (decide (x = j)) as [->|]; [rewrite decide_True by done; lia|].
    case_decide; [by apply Hmin|by apply H1].
  - intros Hpx _. rewrite Hp. rewrite !keyAt_swap by lia.
    rewrite (decide_True (P := i = i)), (decide_False (P := x = i)), (decide_False (P := x = j)) by (done || lia).
    specialize (H1 x Hx). rewrite Hpx in H1. apply H1. lia.
Qed.

(** The smaller child. *)
Lemma child_min n h i (j1 := 2 * i + 1) (j := child h j1 n) :
  j1 < n -> i < j < n /\ (j - 1) / 2 = i /\
  forall x, 0 < x < n -> (x - 1) / 2 = i -> (keyAt h j <= keyAt h x)%Z.
Proof.
  intros Hj1. unfold child, less in j. subst j. destruct (_ && _) eqn:E; bool_to_prop.
  - split_and!; [lia..|]. intros x Hx Hp. assert (x = j1 \/ x = j1 + 1) as [-> | ->] by lia; lia.
  - split_and!; [lia..|]. intros x Hx Hp. assert (x = j1 \/ x = j1 + 1) as [-> | ->] by lia; [lia|].
    apply andb_false_iff in E as [E|E]; bool_to_prop; lia.
Qed.

Lemma down_ok fuel n h i :
  n <= length h -> n <= fuel + i -> 0 < fuel -> downOk n h i -> heapOk n (down fuel h i n).
Proof.
  revert h i. induction fuel as [|f IH]; intros h i Hn Hf H0 Hok; [lia|]. cbn [down].
  destruct (Nat.leb_spec n (2 * i + 1)) as [Hle|Hlt].
  - intros x Hx. apply (proj1 Hok); lia.
  - destruct (child_min n h i Hlt) as (Hj & Hp & Hmin). set (j := child h (2 * i + 1) n) in *.
    unfold less at 1. destruct (Z.ltb_spec (keyAt h j) (keyAt h i)); cbn [negb].
    + apply IH; [by rewrite length_swap|lia|lia|]. by apply downOk_swap.
    + intros x Hx. destruct (decide ((x - 1) / 2 = i)) as [E|]; [|by apply (proj1 Hok)].
      rewrite E. specialize (Hmin x Hx E). lia.
Qed.

Lemma down_perm fuel h i n : down fuel h i n ≡ₚ h.
Proof.
  revert h i. induction fuel as [|f IH]; intros h i; [done|]. cbn [down].
  case_match; [done|]. case_match; [done|]. rewrite IH. apply swap_perm.
Qed.

Lemma down_lookup_ge fuel h i n x : i < n -> n <= x -> down fuel h i n !! x = h !! x.
Proof.
  revert h i. induction fuel as [|f IH]; intros h i Hi Hx; [done|]. cbn [down].
  destruct (Nat.leb_spec n (2 * i + 1)); [done|]. destruct (child_min n h i) as (Hj & _); [lia|].
  set (j := child h (2 * i + 1) n) in *. case_match; [done|]. rewrite IH by lia. apply swap_lookup_ge; lia.
Qed.

(** ** Push and Pop *)

Lemma keyAt_app h l i : i < length h -> keyAt (h ++ l) i = keyAt h i.
Proof. intros. unfold keyAt. by rewrite lookup_app_l. Qed.

Lemma keyAt_take h n i : i < n -> keyAt (take n h) i = keyAt h i.
Proof. intros. unfold keyAt. by rewrite lookup_take_lt. Qed.

Lemma heapPush_ok h x : heapOk (length h) h -> heapOk (length (heapPush h x)) (heapPush h x).
Proof.
  intros Hok. unfold heapPush. rewrite (Permutation_length (up_perm _ _ _)).
  apply up_ok; rewrite length_app; cbn [length]; [lia|lia|]. split; intros y Hy; rewrite length_app in Hy; cbn in Hy.
  - intros Hn. rewrite !keyAt_app by lia. apply Hok. lia.
  - lia.
Qed.

Lemma heapPush_perm h x : heapPush h x ≡ₚ x :: h.
Proof. unfold heapPush. rewrite up_perm. symmetry. apply Permutation_cons_append. Qed.

(** The first element of a heap is a smallest one. *)
Lemma heapOk_min h i : heapOk (length h) h -> i < length h -> (keyAt h 0 <= keyAt h i)%Z.
Proof.
  intros Hok. induction (lt_wf i) as [i _ IH]. intros Hi. destruct (decide (i = 0)) as [->|]; [lia|].
  specialize (Hok i ltac:(lia)). specialize (IH ((i - 1) / 2) ltac:(lia) ltac:(lia)). lia.
Qed.

(** [Pop] on a non-empty heap: the first element, a smallest one, and a heap
    of the others. *)
Lemma heapPop_ok h x :
  heapOk (length h) h -> h !! 0 = Some x ->
  exists h', heapPop h = (Some x, h') /\ h ≡ₚ x :: h' /\ heapOk (length h') h' /\
    Forall (fun y => (key x <= key y)%Z) h.
Proof.
  intros Hok Hx. pose proof (lookup_lt_Some _ _ _ Hx) as Hl. unfold heapPop. set (n := length h - 1).
  set (h1 := down (length h) (swap h 0 n) 0 n).
  assert (h1 ≡ₚ h) as Hperm by (unfold h1; by rewrite down_perm, swap_perm).
  assert (h1 !! n = Some x) as Hn.
  { unfold h1. destruct (decide (n = 0)) as [Hz|].
    - replace (length h) with 1 by lia. rewrite Hz. cbn [down].
      rewrite (proj2 (Nat.leb_le 0 _)) by lia. unfold swap. rewrite Hx.
      rewrite list_lookup_insert_eq by (rewrite length_insert; lia). done.
    - rewrite down_lookup_ge by lia. destruct (lookup_lt_is_Some_2 h n ltac:(lia)) as [y Hy].
      unfold swap. rewrite Hx, Hy, list_lookup_insert_ne, list_lookup_insert_eq by lia. done. }
  exists (take n h1). rewrite Hn. split; [done|]. split_and!.
  - rewrite <- Hperm at 1. rewrite <- (take_drop n h1) at 1.
    assert (drop n h1 = [x]) as ->.
    { rewrite (drop_S _ x) by done. f_equal. apply drop_ge. rewrite (Permutation_length Hperm). lia. }
    symmetry. apply Permutation_cons_append.
  - rewrite length_take, (Permutation_length Hperm). intros i Hi. rewrite !keyAt_take by lia.
    refine (down_ok (length h) n (swap h 0 n) 0 _ _ _ _ i _); [rewrite length_swap; lia|lia|lia| |lia].
    split; intros y Hy; [|lia]. intros Hp. rewrite !keyAt_swap, !decide_False by lia. apply Hok. lia.
  - apply Forall_lookup. intros i y Hy. pose proof (heapOk_min h i Hok (lookup_lt_Some _ _ _ Hy)) as H.
    unfold keyAt in H. by rewrite Hx, Hy in H.
Qed.
End Heap.
