(* ===== verification/ReplayCache.v ===== *)
(** * The replay cache of request nonces: [pkg/auth] (auth.go, [ReplayCache])

    In memory: a map from nonce to expiry and a heap of expiries.  On disk: an
    append-only file of records, compacted from time to time, synced by a
    group-commit goroutine; a persistent [Accept] waits, with the mutex
    released, until its record is synced.  The mutex makes the pieces between
    the waits atomic: they are the operations below, and a run of the system
    is a sequence of them, with crashes and restarts.

    The outcome of every file operation is an argument.  A record is appended
    by one [write] of a few bytes, which a crash keeps or loses as a whole. *)
From S2P Require Import Prelude GoNet Encoding Auth Heap.

Open Scope Z_scope.

(** ** The code *)

Definition replayCompactAfter : Z := 10000.
Definition replayCapacity : Z := 200000.

Record replayExpiry := mkExpiry {
  nonce : gostring;
  expiry : Z;
}.

Record Cache := mkCache {
  expires : gmap gostring Z;
  expiryQueue : list replayExpiry;
  file : bool;                      (* c.file != nil *)
  writesSince : Z;
  persistent : bool;
  persistErr : option error;
  syncedTx : Z;
  currentTx : Z;
  closed : bool;
  broadcasts : Z;                   (* c.cond: the calls of Broadcast so far *)
}.

Definition NewReplayCache : Cache := mkCache ∅ [] false 0 false None 0 0 false 0.

Definition setEntries (c : Cache) (m : gmap gostring Z) (q : list replayExpiry) : Cache :=
  mkCache m q (file c) (writesSince c) (persistent c) (persistErr c) (syncedTx c) (currentTx c) (closed c) (broadcasts c).
Definition setFile (c : Cache) (f : bool) (w : Z) : Cache :=
  mkCache (expires c) (expiryQueue c) f w (persistent c) (persistErr c) (syncedTx c) (currentTx c) (closed c) (broadcasts c).
Definition setTx (c : Cache) (synced current : Z) : Cache :=
  mkCache (expires c) (expiryQueue c) (file c) (writesSince c) (persistent c) (persistErr c) synced current (closed c) (broadcasts c).

(** [c.cond.Broadcast()]: it ends the [cond.Wait] of every call that began before it. *)
Definition Broadcast (c : Cache) : Cache :=
  mkCache (expires c) (expiryQueue c) (file c) (writesSince c) (persistent c) (persistErr c) (syncedTx c) (currentTx c) (closed c) (broadcasts c + 1).

(** The record of a nonce: expiry in seconds, nonce. *)
Abbreviation record := (Z * gostring)%type.

Definition tab : byte := Byte.x09.
Definition newline : byte := Byte.x0a.

Definition recordText (r : record) : gostring := Itoa r.1 ++ [tab] ++ b64encode r.2.
Definition encodeRecord (r : record) : list byte := recordText r ++ [newline].

(** [strconv.FormatInt(expiry.Unix(), 10)] of an entry. *)
Definition entryRecord (n : gostring) (e : Z) : record := (e / second, n).

(** The longest line a [bufio.Scanner] takes. *)
Definition maxScanTokenSize : Z := 65536.

Definition parseRecord (raw : gostring) : result record :=
  if maxScanTokenSize <=? len raw then Fail (Errorf "bufio.Scanner: token too long")
  else
    let '(expiryText, encodedNonce, ok) := Cut tab (dropCR raw) in
    match ok, Atoi expiryText with
    | true, Some expiryUnix =>
        match b64decode encodedNonce with
        | Some (b :: bytes) => Ok (expiryUnix, b :: bytes)
        | _ => Fail (Errorf "invalid replay cache nonce")
        end
    | _, _ => Fail (Errorf "invalid replay cache record")
    end.

Definition loadRecord (now : Z) (c : Cache) (r : record) : Cache :=
  let e := r.1 * second in
  if now <? e then
    setEntries c (<[r.2 := e]> (expires c)) (heapPush expiry (expiryQueue c) (mkExpiry r.2 e))
  else c.

Fixpoint loadLines (now : Z) (c : Cache) (lines : list gostring) : result Cache :=
  match lines with
  | [] => Ok c
  | raw :: rest => let? r := parseRecord raw in loadLines now (loadRecord now c r) rest
  end.

Definition load (now : Z) (c : Cache) (content : list byte) : result Cache :=
  loadLines now c (scanLines content []).

(** [OpenReplayCache] once the lock is held and the file is open. *)
Definition OpenReplayCache (content : list byte) (now : Z) : result Cache :=
  load now (mkCache ∅ [] true 0 true None 0 0 false 0) content.

(** The loop that drops what has expired. *)
Fixpoint evictLoop (fuel : nat) (now : Z) (m : gmap gostring Z) (q : list replayExpiry)
  : gmap gostring Z * list replayExpiry :=
  match fuel, q with
  | S f, e0 :: _ =>
      if now <? expiry e0 then (m, q)
      else match heapPop expiry q with
      | (Some expired, q') =>
          let m' := if bool_decide (m !! nonce expired = Some (expiry expired))
                    then delete (nonce expired) m else m in
          evictLoop f now m' q'
      | (None, q') => (m, q')
      end
  | _, _ => (m, q)
  end.

Definition evict (c : Cache) (now : Z) : Cache :=
  let '(m, q) := evictLoop (length (expiryQueue c)) now (expires c) (expiryQueue c) in
  setEntries c m q.

Definition Check (c : Cache) (n : gostring) (now : Z) : bool * Cache :=
  let c := evict c now in
  (bool_decide (is_Some (expires c !! n)), c).

(** [markPersistenceFailure]: the first error stays; only an opened cache has a [cond]. *)
Definition persistenceFailed := Errorf "replay cache persistence failed".

Definition markPersistenceFailure (c : Cache) : error * Cache :=
  let e := default persistenceFailed (persistErr c) in
  let c := mkCache (expires c) (expiryQueue c) (file c) (writesSince c) (persistent c) (Some e)
             (syncedTx c) (currentTx c) (closed c) (broadcasts c) in
  (e, if persistent c then Broadcast c else c).

(** The file: what has been synced, and what has only been written. *)
Record Disk := mkDisk {
  durable : list record;
  volatile : list record;
}.

Definition appendRecord (d : Disk) (r : record) : Disk := mkDisk (durable d) (volatile d ++ [r]).
Definition syncDisk (d : Disk) : Disk := mkDisk (durable d ++ volatile d) [].

(** Go does not fix the order in which [range] visits a map. *)
Class RangeOrder := {
  rangeOrder : gmap gostring Z -> list (gostring * Z);
  rangeOrder_perm : forall m, rangeOrder m ≡ₚ map_to_list m;
}.

#[export] Instance anyOrder : RangeOrder := {| rangeOrder := map_to_list; rangeOrder_perm m := Permutation_refl _ |}.

(** How [compact] ends; [kept] says whether a rename whose directory was not
    synced survives. *)
Inductive CompactIO :=
  | Compacted
  | NotReplaced                     (* before the rename: the file is as it was *)
  | RenameFailed (reopened : bool)
  | ReopenFailed (kept : bool)
  | SyncDirFailed (kept : bool).

Section Code.
  Context `{RangeOrder}.

(** The content of the temporary file. *)
Definition snapshot (c : Cache) : list record := (fun '(n, e) => entryRecord n e) <$> rangeOrder (expires c).

Definition compact (c : Cache) (d : Disk) (io : CompactIO) : bool * Cache * Disk :=
  let new := mkDisk (snapshot c) [] in
  match io with
  | Compacted => (true, setFile c true 0, new)
  | NotReplaced => (false, c, d)
  | RenameFailed reopened => (false, setFile c reopened (writesSince c), d)
  | ReopenFailed kept => (false, setFile c false (writesSince c), if kept then new else d)
  | SyncDirFailed kept => (false, setFile c true (writesSince c), if kept then new else d)
  end.

(** How the write of a record ends: [Some written] is an error, after the
    record or before it. *)
Record AcceptIO := mkIO {
  io_compact : CompactIO;
  io_write : option bool;
}.

(** [Accept] returns, or waits for its transaction. *)
Inductive AcceptResult :=
  | Returned (ok : bool) (err : option error)
  | Waits (thisTx : Z).

(** The part of [Accept] that writes the record: the transaction, or the
    error. *)
Definition writeRecord (c : Cache) (d : Disk) (n : gostring) (now : Z) (io : AcceptIO)
  : result Z * Cache * Disk :=
  if negb (file c) then (Ok 0, c, d)
  else
    let '(ok, c, d) := if replayCompactAfter <=? writesSince c then compact c d (io_compact io) else (true, c, d) in
    if negb ok then let '(e, c) := markPersistenceFailure c in (Fail e, c, d)
    else
      let r := entryRecord n (now + 2 * MaxClockSkew) in
      match io_write io with
      | Some written =>
          let '(e, c) := markPersistenceFailure c in
          (Fail e, c, if written then appendRecord d r else d)
      | None =>
          let tx := u64 (currentTx c + 1) in
          (Ok tx, setTx (setFile c true (writesSince c + 1)) (syncedTx c) tx, appendRecord d r)
      end.

(** [Accept] up to its return or its first wait. *)
Definition Accept (c : Cache) (d : Disk) (n : gostring) (now : Z) (io : AcceptIO) : AcceptResult * Cache * Disk :=
  if closed c then (Returned false (Some (Errorf "replay cache is closed")), c, d)
  else match persistErr c with
  | Some e => (Returned false (Some e), c, d)
  | None =>
      if persistent c && negb (file c) then
        let '(e, c) := markPersistenceFailure c in (Returned false (Some e), c, d)
      else
        let c := evict c now in
        if bool_decide (is_Some (expires c !! n)) then (Returned false None, c, d)
        else if replayCapacity <=? Z.of_nat (size (expires c)) then
          (Returned false (Some (Errorf "replay cache capacity exceeded")), c, d)
        else match writeRecord c d n now io with
        | (Fail e, c, d) => (Returned false (Some e), c, d)
        | (Ok thisTx, c, d) =>
            let e := now + 2 * MaxClockSkew in
            let c := setEntries c (<[n := e]> (expires c)) (heapPush expiry (expiryQueue c) (mkExpiry n e)) in
            if persistent c && (0 <? thisTx) then (Waits thisTx, c, d) else (Returned true None, c, d)
        end
  end.

End Code.

(** The loop around [cond.Wait] when it is woken, and what follows it: [None] waits again. *)
Definition acceptWake (c : Cache) (thisTx : Z) : option (bool * option error) :=
  match persistErr c with
  | Some e => Some (false, Some e)
  | None => if syncedTx c <? thisTx then None else Some (true, None)
  end.

(** One round of [groupCommitLoop], for a tick or for the stop signal; [err]
    is the outcome of [file.Sync]. *)
Definition groupCommit (c : Cache) (d : Disk) (failed : bool) : Cache * Disk :=
  if file c && (syncedTx c <? currentTx c) then
    if failed then (Broadcast (snd (markPersistenceFailure c)), d)
    else (Broadcast (setTx c (currentTx c) (currentTx c)), syncDisk d)
  else (c, d).

(** [Close] of the last reference: its first half marks the cache, the loop
    stops with a last round, and the second half closes the file. *)
Definition closeBegin (c : Cache) : Cache :=
  mkCache (expires c) (expiryQueue c) (file c) (writesSince c) (persistent c) (persistErr c)
    (syncedTx c) (currentTx c) true (broadcasts c).

Definition closeEnd (c : Cache) (d : Disk) (failed : bool) : Cache * Disk :=
  if file c then (setFile c false (writesSince c), if failed then d else syncDisk d) else (c, d).

(** ** Entries in memory *)

(** The heap is a heap, and knows every entry of the map. *)
Definition entriesOk (m : gmap gostring Z) (q : list replayExpiry) : Prop :=
  heapOk expiry (length q) q /\ forall n e, m !! n = Some e -> mkExpiry n e ∈ q.

Definition cacheInv (c : Cache) : Prop := entriesOk (expires c) (expiryQueue c).

(** The entries that have not expired. *)
Definition live (now : Z) (m : gmap gostring Z) : gmap gostring Z := filter (fun p => now < p.2) m.

Lemma live_lookup now m n e : live now m !! n = Some e <-> m !! n = Some e /\ now < e.
Proof. unfold live. by rewrite map_lookup_filter_Some. Qed.

Lemma live_all now m : (forall n e, m !! n = Some e -> now < e) -> live now m = m.
Proof. intros Hm. apply map_filter_id. intros n e He. by eapply Hm. Qed.

Lemma live_delete now m n e : m !! n = Some e -> e <= now -> live now (delete n m) = live now m.
Proof.
  intros He Hle. apply map_eq. intros x. apply option_eq. intros y. rewrite !live_lookup.
  rewrite lookup_delete_Some. split; [by intros [[_ ?] ?]|]. intros [Hx Hy]. split_and!; [|done|done].
  intros <-. assert (y = e) by congruence. lia.
Qed.

Lemma live_live t1 t2 m : t1 <= t2 -> live t2 (live t1 m) = live t2 m.
Proof.
  intros Ht. apply map_eq. intros x. apply option_eq. intros y. rewrite !live_lookup. intuition lia.
Qed.

(** The loop keeps exactly the live entries. *)
Lemma evictLoop_spec fuel now m q :
  (length q <= fuel)%nat -> entriesOk m q ->
  exists q', evictLoop fuel now m q = (live now m, q') /\ entriesOk (live now m) q'.
Proof.
  revert m q. induction fuel as [|f IH]; intros m q Hf [Hh Hm].
  - destruct q; [|cbn in Hf; lia]. assert (m = ∅) as ->.
    { apply map_empty. intros n. apply eq_None_not_Some. intros [e He%Hm]. by apply elem_of_nil in He. }
    exists []. by unfold live; rewrite map_filter_empty.
  - destruct q as [|e0 q]; cbn [evictLoop].
    { rewrite live_all; [by eexists|]. intros n e He%Hm. by apply elem_of_nil in He. }
    destruct (heapPop_ok expiry (e0 :: q) e0 Hh eq_refl) as (q' & Ep & Hperm & Hh' & Hmin).
    rewrite Forall_forall in Hmin. destruct (Z.ltb_spec now (expiry e0)) as [Hlt|Hge].
    { rewrite live_all; [by eexists|]. intros n e He%Hm%Hmin. cbn in He. lia. }
    rewrite Ep. set (m' := if bool_decide _ then _ else _).
    assert (live now m' = live now m) as <-.
    { unfold m'. case_bool_decide as Hd; [|done]. by apply live_delete with (e := expiry e0). }
    apply IH; [apply Permutation_length in Hperm; cbn in *; lia|]. split; [done|].
    intros n e He. assert (m !! n = Some e /\ mkExpiry n e <> e0) as [Hin Hne].
    { unfold m' in He. case_bool_decide as Hd.
      - apply lookup_delete_Some in He as [Hn He]. split; [done|]. by intros <-.
      - split; [done|]. by intros <-. }
    apply Hm in Hin. rewrite Hperm in Hin. by apply elem_of_cons in Hin as [?|].
Qed.

Lemma evict_spec c now :
  cacheInv c -> exists q, evict c now = setEntries c (live now (expires c)) q /\ entriesOk (live now (expires c)) q.
Proof.
  intros Hc. destruct (evictLoop_spec (length (expiryQueue c)) now _ _ (le_n _) Hc) as (q & E & Hq).
  exists q. unfold evict. by rewrite E.
Qed.

Lemma entriesOk_insert m q n e :
  entriesOk m q -> entriesOk (<[n := e]> m) (heapPush expiry q (mkExpiry n e)).
Proof.
  intros [Hh Hm]. split; [by apply heapPush_ok|]. intros x y. rewrite heapPush_perm, elem_of_cons.
  intros [[<- <-]|[_ ?]]%lookup_insert_Some; auto.
Qed.

(** The entries after an [Accept] that gets to the lookup. *)
Definition entriesAfter (r : AcceptResult) (n : gostring) (now : Z) (m : gmap gostring Z) : gmap gostring Z :=
  match r with
  | Returned true _ | Waits _ => <[n := now + 2 * MaxClockSkew]> (live now m)
  | Returned false _ => live now m
  end.

Lemma writeRecord_entries `{RangeOrder} c d n now io res c' d' :
  writeRecord c d n now io = (res, c', d') ->
  expires c' = expires c /\ expiryQueue c' = expiryQueue c /\ closed c' = closed c /\ persistent c' = persistent c.
Proof.
  unfold writeRecord, compact, markPersistenceFailure, setTx, setFile, Broadcast. intros E.
  destruct (file c); cbn [negb] in E; [|by simplify_eq].
  destruct (_ <=? _); [destruct (io_compact io)|]; cbn [negb persistent] in E; destruct (io_write io), (persistent c) eqn:Ep; simplify_eq; cbn; by rewrite ?Ep.
Qed.

(** On every branch behind the guards. *)
Lemma Accept_entries `{RangeOrder} c d n now io r c' d' :
  cacheInv c -> closed c = false -> persistErr c = None -> persistent c && negb (file c) = false ->
  Accept c d n now io = (r, c', d') ->
  expires c' = entriesAfter r n now (expires c) /\ cacheInv c' /\
  (is_Some (live now (expires c) !! n) <-> r = Returned false None).
Proof.
  intros Hc Hcl Hp Hf. unfold Accept. rewrite Hcl, Hp, Hf.
  destruct (evict_spec c now Hc) as (q & -> & Hq). cbn [expires setEntries].
  case_bool_decide as Hn; [intros [= <- <- <-]; done|].
  destruct (replayCapacity <=? _); [intros [= <- <- <-]; split; [done|]; split; [done|]; split; [by intros ?%Hn|done]|].
  destruct (writeRecord _ d n now io) as [[[tx|e] c1] d1] eqn:Ew;
    apply writeRecord_entries in Ew as (E1 & E2 & _); cbn [expires expiryQueue setEntries] in E1, E2.
  - rewrite E1, E2. intros E.
    assert (c' = setEntries c1 (<[n := now + 2 * MaxClockSkew]> (live now (expires c)))
              (heapPush expiry q (mkExpiry n (now + 2 * MaxClockSkew)))) as -> by (case_match; congruence).
    assert (exists k, r = Waits k \/ r = Returned true None) as (k & Hr)
      by (case_match; exists tx; simplify_eq; auto).
    unfold cacheInv. cbn [expires expiryQueue setEntries].
    split; [by destruct Hr as [-> | ->]|]. split; [by apply entriesOk_insert|].
    split; [by intros ?%Hn|]. by destruct Hr as [-> | ->].
  - intros [= <- <- <-]. unfold cacheInv. rewrite E1, E2. split; [done|]. split; [done|]. split; [by intros ?%Hn|done].
Qed.

(** ** The cache in memory as a map that forgets *)

(** What [Accept] promises: the nonces of the last 180 seconds are refused. *)
Definition specAccept (m : gmap gostring Z) (n : gostring) (now : Z) : bool * option error * gmap gostring Z :=
  let m := live now m in
  if bool_decide (is_Some (m !! n)) then (false, None, m)
  else if replayCapacity <=? Z.of_nat (size m) then
    (false, Some (Errorf "replay cache capacity exceeded"), m)
  else (true, None, <[n := now + 2 * MaxClockSkew]> m).

(** The answers of [Accept] and [Check] calls, in the order of the mutex. *)
Inductive memoryOp :=
  | OpAccept (n : gostring) (now : Z)
  | OpCheck (n : gostring) (now : Z).

Definition noIO : AcceptIO := mkIO Compacted None.

Fixpoint runMemory (c : Cache) (ops : list memoryOp) : list (bool * option error) * Cache :=
  match ops with
  | [] => ([], c)
  | OpAccept n now :: rest =>
      match Accept c (mkDisk [] []) n now noIO with
      | (Returned ok err, c', _) => let '(rs, c'') := runMemory c' rest in ((ok, err) :: rs, c'')
      | (Waits _, c', _) => runMemory c' rest
      end
  | OpCheck n now :: rest =>
      let '(found, c') := Check c n now in
      let '(rs, c'') := runMemory c' rest in ((found, None) :: rs, c'')
  end.

Fixpoint specMemory (m : gmap gostring Z) (ops : list memoryOp) : list (bool * option error) * gmap gostring Z :=
  match ops with
  | [] => ([], m)
  | OpAccept n now :: rest =>
      let '(ok, err, m') := specAccept m n now in
      let '(rs, m'') := specMemory m' rest in ((ok, err) :: rs, m'')
  | OpCheck n now :: rest =>
      let m' := live now m in
      let '(rs, m'') := specMemory m' rest in ((bool_decide (is_Some (m' !! n)), None) :: rs, m'')
  end.

(** A cache without a file, in working order. *)
Definition memoryOk (c : Cache) : Prop :=
  cacheInv c /\ closed c = false /\ persistErr c = None /\ persistent c = false /\ file c = false.

Lemma memoryOk_new : memoryOk NewReplayCache.
Proof.
  split_and!; [|done..]. split; [intros i Hi; cbn in Hi; lia|]. intros n e He. cbn [expires NewReplayCache] in He. by apply lookup_empty_Some in He.
Qed.

Lemma memoryOk_set c m q : memoryOk c -> entriesOk m q -> memoryOk (setEntries c m q).
Proof. by intros (_ & H) Hq. Qed.

(** One call refines the specification. *)
Lemma memory_accept c n now :
  memoryOk c ->
  exists ok err c', Accept c (mkDisk [] []) n now noIO = (Returned ok err, c', mkDisk [] []) /\
    specAccept (expires c) n now = (ok, err, expires c') /\ memoryOk c'.
Proof.
  intros Hc. pose proof Hc as (Hi & Hcl & Hp & Hper & Hf). unfold Accept, specAccept.
  rewrite Hcl, Hp, Hper. cbn [andb].
  destruct (evict_spec c now Hi) as (q & -> & Hq). cbn [expires setEntries].
  case_bool_decide; [eexists _, _, _; split; [done|]; split; [done|by apply memoryOk_set]|].
  destruct (_ <=? _); [eexists _, _, _; split; [done|]; split; [done|by apply memoryOk_set]|].
  unfold writeRecord. cbn [file setEntries]. rewrite Hf. cbn [negb andb persistent setEntries expires expiryQueue].
  rewrite Hper. eexists _, _, _. split; [done|]. split; [done|].
  apply memoryOk_set; [by apply memoryOk_set|by apply entriesOk_insert].
Qed.

Lemma memory_check c n now :
  memoryOk c -> fst (Check c n now) = bool_decide (is_Some (live now (expires c) !! n)) /\
    expires (snd (Check c n now)) = live now (expires c) /\ memoryOk (snd (Check c n now)).
Proof.
  intros Hc. unfold Check. destruct (evict_spec c now (proj1 Hc)) as (q & -> & Hq). cbn [fst snd expires setEntries].
  split_and!; [done..|by apply memoryOk_set].
Qed.

Lemma runMemory_spec c ops :
  memoryOk c ->
  fst (runMemory c ops) = fst (specMemory (expires c) ops) /\
  expires (snd (runMemory c ops)) = snd (specMemory (expires c) ops) /\ memoryOk (snd (runMemory c ops)).
Proof.
  revert c. induction ops as [|[n now|n now] ops IH]; intros c Hc; cbn [runMemory specMemory]; [done| |].
  - destruct (memory_accept c n now Hc) as (ok & err & c' & -> & -> & Hc').
    destruct (IH c' Hc') as (E1 & E2 & E3). destruct (runMemory c' ops), (specMemory (expires c') ops).
    cbn [fst snd] in *. split_and!; [by f_equal|done|done].
  - destruct (memory_check c n now Hc) as (E0 & Ee & Hc'). destruct (Check c n now) as [found c']. cbn [fst snd] in *.
    destruct (IH c' Hc') as (E1 & E2 & E3). rewrite Ee in E1, E2. destruct (runMemory c' ops), (specMemory _ ops).
    cbn [fst snd] in *. split_and!; [by rewrite E0; f_equal|done|done].
Qed.

(** C8: the in-memory cache, its map and its heap of expiries with their lazy
    eviction, answers every sequence of [Accept] and [Check] calls, with any
    clock values, exactly as a map that forgets a nonce 180 seconds after its
    acceptance and refuses new nonces at 200,000 entries. *)
Theorem replay_cache_refines ops :
  fst (runMemory NewReplayCache ops) = fst (specMemory ∅ ops) /\
  expires (snd (runMemory NewReplayCache ops)) = snd (specMemory ∅ ops).
Proof. destruct (runMemory_spec NewReplayCache ops memoryOk_new) as (E1 & E2 & _). done. Qed.

(** ** Verify and Accept together *)




(** ** Witnesses *)

Definition demoPsk : list byte := bs "0123456789abcdef0123456789abcdef".
Definition demoFields : fields :=
  mkFields (bs "tcp") (bs "POST") (bs "/api") (bs "example.com:443") (bs "1090") (bs "nonce-1").
Definition demoSignature : gostring := Signature demoPsk demoFields.
Definition demoNow : Z := 1000 * second.


(** The excepted instant: signed 90 seconds ahead, the same request verifies
    and is accepted twice, 180 seconds apart. *)
Lemma replay_boundary_instant :
  Verify demoPsk demoFields demoSignature demoNow = true /\
  Verify demoPsk demoFields demoSignature (demoNow + 2 * MaxClockSkew) = true /\
  fst (runMemory NewReplayCache [OpAccept (bs "nonce-1") demoNow;
                                 OpAccept (bs "nonce-1") (demoNow + 2 * MaxClockSkew)])
    = [(true, None); (true, None)].
Proof. split_and!; vm_compute; reflexivity. Qed.
