(* ===== verification/ReplayRuns.v ===== *)
(** * Runs of the persistent replay cache, with crashes

    [ReplayCache.v] has the pieces of code that the mutex makes atomic.  Here
    a run is a sequence of them: calls of [Accept] and [Check], rounds of the
    group-commit goroutine, woken waiters, the phases of [Close], process and
    machine crashes, and restarts that load the file.  A machine crash keeps
    what was synced and any prefix of the records written since. *)
From S2P Require Import Prelude GoNet Encoding Auth Heap ReplayCache.

Open Scope Z_scope.

(** ** Loading what was written *)

Definition records (d : Disk) : list record := durable d ++ volatile d.

(** The bytes of the file. *)
Definition content (d : Disk) : list byte := concat (encodeRecord <$> records d).

(** The expiry of an [Accept] at time [t], in the seconds of its record. *)
Definition secs (t : Z) : Z := (t + 2 * MaxClockSkew) / second.

Definition recordOk (r : record) : Prop := 0 <= r.1 < 2 ^ 63.

Lemma Itoa_notin n c : 0 <= n < 2 ^ 63 -> (byteZ c < 48 \/ 57 < byteZ c) -> c ∉ Itoa n.
Proof. intros Hn Hc Hin. pose proof (Itoa_chars n c Hn Hin). lia. Qed.

Lemma recordText_newline r : recordOk r -> newline ∉ recordText r.
Proof.
  intros Hr. unfold recordText. rewrite !not_elem_of_app. split_and!.
  - apply Itoa_notin; [done|]. left. done.
  - by intros ?%list_elem_of_singleton.
  - intros [v Hv]%b64encode_chars. done.
Qed.

Lemma recordText_dropCR r : dropCR (recordText r) = recordText r.
Proof.
  unfold recordText. destruct (last (b64encode r.2)) as [c|] eqn:El.
  - apply (dropCR_id _ c).
    + rewrite !last_app, El. done.
    + apply last_Some_elem_of, b64encode_chars in El as [v Hv]. by intros ->.
  - apply last_None in El. rewrite El. apply (dropCR_id _ tab); [|done]. by rewrite last_app.
Qed.

(** A line that was written is read back or refused, never misread. *)
Lemma parse_recordText r x : recordOk r -> parseRecord (recordText r) = Ok x -> x = r.
Proof.
  intros Hr. unfold parseRecord. destruct (_ <=? _); [done|]. rewrite recordText_dropCR.
  unfold recordText at 1. change ([tab] ++ b64encode r.2) with (tab :: b64encode r.2).
  rewrite Cut_fresh by (apply Itoa_notin; [done|by left]). rewrite Atoi_Itoa, b64decode_encode by done.
  destruct r as [e [|b n]]; cbn [fst snd]; [done|]. intros E. congruence.
Qed.

Lemma scan_records rs :
  Forall recordOk rs -> scanLines (concat (encodeRecord <$> rs)) [] = recordText <$> rs.
Proof.
  induction 1 as [|r rs Hr Hrs IH]; [done|]. cbn [fmap list_fmap concat]. unfold encodeRecord at 1.
  rewrite <- app_assoc. cbn [app]. rewrite scanLines_line by (by apply recordText_newline). by rewrite IH.
Qed.

Lemma loadLines_records now c rs c' :
  Forall recordOk rs -> loadLines now c (recordText <$> rs) = Ok c' -> c' = foldl (loadRecord now) c rs.
Proof.
  intros Hrs. revert c. induction Hrs as [|r rs Hr Hrs IH]; intros c E; cbn in E; [by simplify_eq|].
  destruct (parseRecord (recordText r)) as [x|] eqn:Ep; [|done]. apply parse_recordText in Ep as ->; [|done].
  by apply IH.
Qed.

(** What a load does to the entries. *)
Lemma loadRecords_spec now rs c :
  cacheInv c ->
  let c' := foldl (loadRecord now) c rs in
  cacheInv c' /\
  (forall n e, expires c' !! n = Some e -> expires c !! n = Some e \/ exists s, (s, n) ∈ rs /\ e = s * second /\ now < e).
Proof.
  revert c. induction rs as [|[s n] rs IH]; intros c Hc; cbn [foldl]; [split; [done|by left]|].
  unfold loadRecord at 2 4. cbn [fst snd]. destruct (Z.ltb_spec now (s * second)) as [Hlt|Hge].
  - destruct (IH (setEntries c (<[n:=s * second]> (expires c)) (heapPush expiry (expiryQueue c) (mkExpiry n (s * second)))))
      as (H1 & H2); [by apply entriesOk_insert|]. split; [done|].
    intros x e He. destruct (H2 x e He) as [Hx|(s' & Hin & ?)]; [|right; exists s'; split; [by right|done]].
    cbn [expires setEntries] in Hx. apply lookup_insert_Some in Hx as [[<- <-]|[_ Hx]]; [|by left].
    right. exists s. split; [by left|done].
  - destruct (IH c Hc) as (H1 & H2). split; [done|].
    intros x e He. destruct (H2 x e He) as [?|(s' & Hin & ?)]; [by left|]. right. exists s'. split; [by right|done].
Qed.

(** The last record of a nonce decides. *)
Lemma loadRecords_last now rs1 s n rs2 c :
  now < s * second -> (forall e, (e, n) ∉ rs2) -> expires (foldl (loadRecord now) c (rs1 ++ (s, n) :: rs2)) !! n = Some (s * second).
Proof.
  intros Hs Hn. rewrite foldl_app. cbn [foldl]. generalize (foldl (loadRecord now) c rs1). clear c. intros c.
  unfold loadRecord at 2. cbn [fst snd]. rewrite (proj2 (Z.ltb_lt _ _) Hs). set (c1 := setEntries _ _ _).
  assert (expires c1 !! n = Some (s * second)) as H1 by apply lookup_insert_eq. clearbody c1. revert c1 H1.
  induction rs2 as [|[e x] rs2 IH]; intros c1 H1; cbn [foldl]; [done|]. apply IH.
  - intros e' He'. apply (Hn e'). by right.
  - unfold loadRecord. cbn [fst snd]. destruct (_ <? _); [|done]. cbn [expires setEntries]. rewrite lookup_insert_ne; [done|].
    intros ->. apply (Hn e). by left.
Qed.

(** ** The system *)

Inductive status := Waiting | Accepted | Refused | Lost.

(** A call of [Accept]: its nonce, clock, transaction, fate, and the broadcasts
    it had seen when it went to sleep in [cond.Wait]. *)
Record call := mkCall {
  k_nonce : gostring;
  k_now : Z;
  k_tx : Z;
  k_status : status;
  k_seen : Z;
}.

Definition setStatus (s : status) (k : call) : call := mkCall (k_nonce k) (k_now k) (k_tx k) s (k_seen k).
Definition sleep (k : call) (seen : Z) : call := mkCall (k_nonce k) (k_now k) (k_tx k) (k_status k) seen.

(** The process (if it runs), whether its commit loop has stopped, the file,
    and the calls so far, in the order in which they took the mutex. *)
Record Sys := mkSys {
  cache : option Cache;
  stopped : bool;
  disk : Disk;
  calls : list call;
}.

Inductive event :=
  | EAccept (n : gostring) (io : AcceptIO)
  | ECheck (n : gostring)
  | ETick (failed : bool)             (* a round of the commit loop *)
  | EWake (i : nat)                   (* a waiting call is scheduled, if a broadcast woke it *)
  | ECloseBegin
  | EStop (failed : bool)             (* the last round of the commit loop *)
  | ECloseEnd (failed : bool)
  | EKill                             (* the process dies *)
  | ECrash (kept : nat)               (* the machine dies *)
  | EOpen.                            (* OpenReplayCache *)

(** The wait of a call is over. *)
Definition woken (c : Cache) (k : call) : bool := k_seen k <? broadcasts c.

(** What a waiting call returns when the cache [c] does not change any more. *)
Definition settle (c : option Cache) (k : call) : call :=
  match k_status k with
  | Waiting =>
      match c ≫= (fun c => if woken c k then acceptWake c (k_tx k) else None) with
      | Some (true, _) => setStatus Accepted k
      | Some (false, _) => setStatus Refused k
      | None => setStatus Lost k
      end
  | _ => k
  end.

(** A waiting call is scheduled: it sleeps on, or finds its transaction synced
    or the error recorded and returns, or waits again. *)
Definition wake (c : Cache) (k : call) : call :=
  match k_status k with
  | Waiting =>
      if woken c k then
        match acceptWake c (k_tx k) with
        | Some (ok, _) => setStatus (if ok then Accepted else Refused) k
        | None => sleep k (broadcasts c)
        end
      else k
  | _ => k
  end.

Section Runs.
  Context `{RangeOrder}.

Definition step (s : Sys) (te : Z * event) : Sys :=
  let '(now, ev) := te in
  let d := disk s in
  match ev, cache s with
  | EAccept n io, Some c =>
      let '(r, c', d') := Accept c d n now io in
      let k := match r with
               | Waits tx => mkCall n now tx Waiting (broadcasts c')
               | Returned ok _ => mkCall n now 0 (if ok then Accepted else Refused) (broadcasts c')
               end in
      mkSys (Some c') (stopped s) d' (calls s ++ [k])
  | ECheck n, Some c => mkSys (Some (snd (Check c n now))) (stopped s) d (calls s)
  | ETick failed, Some c =>
      if stopped s then s
      else let '(c', d') := groupCommit c d failed in mkSys (Some c') false d' (calls s)
  | EWake i, Some c => mkSys (Some c) (stopped s) d (alter (wake c) i (calls s))
  | ECloseBegin, Some c => mkSys (Some (closeBegin c)) (stopped s) d (calls s)
  | EStop failed, Some c =>
      if closed c && negb (stopped s) then
        let '(c', d') := groupCommit c d failed in mkSys (Some c') true d' (calls s)
      else s
  | ECloseEnd failed, Some c =>
      if stopped s then let '(c', d') := closeEnd c d failed in mkSys (Some c') true d' (calls s) else s
  | EKill, _ => mkSys None false d (settle None <$> calls s)
  | ECrash kept, _ =>
      mkSys None false (mkDisk (durable d ++ take kept (volatile d)) []) (settle None <$> calls s)
  | EOpen, oc =>
      (* the lock is free when no process holds it or its cache was closed *)
      if match oc with None => true | Some c => stopped s && negb (file c) end then
        match OpenReplayCache (content d) now with
        | Ok c' => mkSys (Some c') false d (settle oc <$> calls s)
        | Fail _ => mkSys None false d (settle oc <$> calls s)
        end
      else s
  | _, None => s
  end.

Definition run (s : Sys) (evs : list (Z * event)) : Sys := foldl step s evs.

(** ** The invariant *)

Definition held (k : call) : Prop := k_status k = Waiting \/ k_status k = Accepted.

(** In what follows [T] is the latest clock reading so far; a call may come with
    an earlier one. *)

(** A record that is alive is the last one of its nonce. *)
Definition diskOk (T : Z) (d : Disk) : Prop :=
  Forall recordOk (records d) /\
  forall l1 n e l2, records d = l1 ++ (e, n) :: l2 -> T < e * second -> forall e', (e', n) ∉ l2.

(** What is alive on disk is remembered. *)
Definition memOk (T : Z) (m : gmap gostring Z) (d : Disk) : Prop :=
  forall n e, (e, n) ∈ records d -> T < e * second -> exists e', m !! n = Some e' /\ e * second <= e'.

(** A record of nonce [n] that lives at least until second [s]. *)
Definition recorded (rs : list record) (n : gostring) (s : Z) : Prop := exists e, s <= e /\ (e, n) ∈ rs.

(** Entries of the map are within the range of a record. *)
Definition mapOk (m : gmap gostring Z) : Prop := forall n e, m !! n = Some e -> 0 <= e / second < 2 ^ 63.

Definition cacheOk (T : Z) (count : Z) (c : Cache) (d : Disk) : Prop :=
  cacheInv c /\ mapOk (expires c) /\ persistent c = true /\ 0 <= syncedTx c <= currentTx c /\ currentTx c <= count /\
  (persistErr c = None -> memOk T (expires c) d).

(** Calls that may return true have their record; those whose transaction is
    synced, or that have returned, have it on the synced part. *)
Definition callOk (T : Z) (oc : option Cache) (d : Disk) (k : call) : Prop :=
  0 <= k_now k <= T /\
  (k_status k = Waiting -> exists c, oc = Some c /\ 0 < k_tx k <= currentTx c) /\
  (held k -> T < secs (k_now k) * second -> recorded (records d) (k_nonce k) (secs (k_now k))) /\
  (k_status k = Accepted \/ (k_status k = Waiting /\ exists c, oc = Some c /\ k_tx k <= syncedTx c) ->
   T < secs (k_now k) * second -> recorded (durable d) (k_nonce k) (secs (k_now k))).

(** When two calls for one nonce may both return true, the first has expired. *)
Definition spaced (T : Z) (ks : list call) : Prop :=
  forall i j a b, (i < j)%nat -> ks !! i = Some a -> ks !! j = Some b -> held a -> held b ->
    k_nonce a = k_nonce b -> secs (k_now a) * second <= T.

Record sysInv (T count : Z) (s : Sys) : Prop := mkInv {
  inv_disk : diskOk T (disk s);
  inv_cache : forall c, cache s = Some c -> cacheOk T count c (disk s);
  inv_calls : Forall (callOk T (cache s) (disk s)) (calls s);
  inv_spaced : spaced T (calls s);
}.

(** Time passes. *)
Lemma sysInv_later T T' count count' s : T <= T' -> count <= count' -> sysInv T count s -> sysInv T' count' s.
Proof.
  intros HT Hn [[Hd1 Hd2] Hc Hk Hs]. split; [split; [done|]| | |].
  - intros l1 n e l2 H1 L1. apply (Hd2 l1 n e l2); done || lia.
  - intros c E. destruct (Hc c E) as (A1 & A2 & A3 & A4 & A5 & A6). split_and!; [done|done|done|lia..|].
    intros He n e Hin L. apply (A6 He n e Hin). lia.
  - eapply Forall_impl; [exact Hk|]. intros k (B1 & B2 & B3 & B4). split_and!; [lia|lia|done| |];
      intros; [apply B3|apply B4]; done || lia.
  - intros i j a b Hij Ha Hb Hha Hhb Hnn. specialize (Hs i j a b Hij Ha Hb Hha Hhb Hnn). lia.
Qed.

(** A change of the file keeps the records that matter. *)
Definition keeps (T : Z) (d d' : Disk) : Prop :=
  forall n s, T < s * second ->
    (recorded (records d) n s -> recorded (records d') n s) /\
    (recorded (durable d) n s -> recorded (durable d') n s).

Lemma keeps_refl T d : keeps T d d.
Proof. done. Qed.

Lemma keeps_trans T d1 d2 d3 : keeps T d1 d2 -> keeps T d2 d3 -> keeps T d1 d3.
Proof. intros H1 H2 n s L. destruct (H1 n s L), (H2 n s L). auto. Qed.

Lemma recorded_app_l rs1 rs2 n s : recorded rs1 n s -> recorded (rs1 ++ rs2) n s.
Proof. intros (e & He & Hin). exists e. split; [done|]. apply elem_of_app. by left. Qed.

Lemma records_append d r : records (appendRecord d r) = records d ++ [r].
Proof. unfold records, appendRecord. cbn. by rewrite app_assoc. Qed.

Lemma keeps_append T d r : keeps T d (appendRecord d r).
Proof.
  intros n s L. rewrite records_append. split; [apply recorded_app_l|done].
Qed.

(** Calls under a change of file and cache. *)
Lemma callsOk_keep T oc oc' d d' ks :
  keeps T d d' ->
  (forall c, oc = Some c -> exists c', oc' = Some c' /\ currentTx c <= currentTx c' /\ syncedTx c' = syncedTx c) ->
  Forall (callOk T oc d) ks -> Forall (callOk T oc' d') ks.
Proof.
  intros Hd Hc Hk. eapply Forall_impl; [exact Hk|]. intros k (B1 & B2 & B3 & B4). split_and!; [lia|lia| | |].
  - intros Hw. destruct (B2 Hw) as (c & Ec & Htx). destruct (Hc c Ec) as (c' & -> & Hle & _).
    exists c'. split; [done|lia].
  - intros Hh L. by apply (Hd _ _ L), B3.
  - intros Hh L. apply (Hd _ _ L), B4; [|done]. destruct Hh as [?|[Hw (c' & Ec & Htx)]]; [by left|right].
    split; [done|]. destruct (B2 Hw) as (c & E0 & _). destruct (Hc c E0) as (c1 & E1 & _ & Es).
    exists c. split; [done|]. assert (c1 = c') as -> by congruence. lia.
Qed.

(** *** Accept *)

Lemma memOk_live now T m d : now <= T -> memOk T m d -> memOk T (live now m) d.
Proof.
  intros Hnow Hm n e Hin L. destruct (Hm n e Hin L) as (e' & He & Hle). exists e'. split; [|done].
  apply live_lookup. split; [done|lia].
Qed.

Lemma elem_of_snapshot c e n :
  (e, n) ∈ snapshot c <-> exists e', expires c !! n = Some e' /\ e = e' / second.
Proof.
  unfold snapshot. rewrite list_elem_of_fmap. setoid_rewrite (rangeOrder_perm (expires c)). split.
  - intros ([x e'] & [= -> ->] & Hin%elem_of_map_to_list). eauto.
  - intros (e' & Hin%elem_of_map_to_list & ->). by exists (n, e').
Qed.

Lemma snapshot_nonces c : NoDup ((fun r : record => r.2) <$> snapshot c).
Proof.
  unfold snapshot. rewrite <- list_fmap_compose.
  replace ((fun r : record => r.2) ∘ (fun '(n, e) => entryRecord n e) <$> rangeOrder (expires c)) with (fst <$> rangeOrder (expires c)) by (by apply list_fmap_ext; intros ? [] _).
  rewrite (rangeOrder_perm (expires c)). apply NoDup_fst_map_to_list.
Qed.

(** A snapshot of the memory can replace the file. *)
Lemma snapshot_ok T c d (new := mkDisk (snapshot c) []) :
  memOk T (expires c) d -> mapOk (expires c) -> diskOk T new /\ memOk T (expires c) new /\ keeps T d new.
Proof.
  intros Hm Hr. assert (records new = snapshot c) as En by apply app_nil_r.
  assert (forall n s, T < s * second -> recorded (records d) n s -> recorded (snapshot c) n s) as Hk.
  { intros n s L (e & Hle & Hin). destruct (Hm n e Hin) as (e' & He & Hle'); [unfold second in *; lia|].
    exists (e' / second). split; [unfold second in *; lia|]. apply elem_of_snapshot. eauto. }
  split_and!.
  - split; rewrite En.
    + apply Forall_forall. intros [e n] (e' & He & ->)%elem_of_snapshot. by apply (Hr n).
    + intros l1 n e l2 E _ e' Hin. pose proof (snapshot_nonces c) as Hnd. rewrite E, fmap_app in Hnd. cbn in Hnd.
      apply NoDup_app in Hnd as (_ & _ & [Hni _]%NoDup_cons). apply Hni. apply list_elem_of_fmap. by exists (e', n).
  - intros n e. rewrite En. intros (e' & He & ->)%elem_of_snapshot _. exists e'. split; [done|unfold second; lia].
  - intros n s L. rewrite En. split; [by apply Hk|]. intros Hd. apply Hk; [done|]. by apply recorded_app_l.
Qed.

(** Everything of a cache but its file and its transactions. *)
Definition sameMemory (c c' : Cache) : Prop :=
  expires c' = expires c /\ expiryQueue c' = expiryQueue c /\ persistent c' = persistent c /\
  closed c' = closed c /\ syncedTx c' = syncedTx c.

Lemma mark_spec c : exists e c', markPersistenceFailure c = (e, c') /\ sameMemory c c' /\ file c' = file c /\ currentTx c' = currentTx c /\
  persistErr c' = Some e /\ (persistent c = true -> broadcasts c' = broadcasts c + 1).
Proof.
  unfold markPersistenceFailure. eexists _, _. split; [done|]. unfold sameMemory. cbn [persistent]. destruct (persistent c) eqn:E; cbn; split_and!; try done.
Qed.

Lemma compact_ok T c d io ok c' d' :
  diskOk T d -> memOk T (expires c) d -> mapOk (expires c) -> compact c d io = (ok, c', d') ->
  diskOk T d' /\ memOk T (expires c) d' /\ keeps T d d' /\ sameMemory c c' /\
  currentTx c' = currentTx c /\ persistErr c' = persistErr c.
Proof.
  intros Hd Hm Hr E. destruct (snapshot_ok T c d Hm Hr) as (S1 & S2 & S3).
  unfold compact, setFile in E. destruct io as [| |b|[|]|[|]]; injection E as <- <- <-;
    (split; [done|]; split; [done|]; split; [done|]; split; [by split_and!|done]).
Qed.

Lemma append_ok now T m d n :
  0 <= now <= T -> now < 2 ^ 62 -> diskOk T d -> memOk T m d -> m !! n = None ->
  diskOk T (appendRecord d (secs now, n)) /\
  memOk T (<[n := now + 2 * MaxClockSkew]> m) (appendRecord d (secs now, n)).
Proof.
  intros HT Hnow [Hd1 Hd2] Hm Hn. unfold diskOk, memOk. rewrite records_append.
  assert (forall e, (e, n) ∈ records d -> e * second <= T) as Hexp.
  { intros e Hin. destruct (Z.le_gt_cases (e * second) T) as [?|L]; [done|].
    destruct (Hm n e Hin L) as (e' & He & _). congruence. }
  split; [split|].
  - apply Forall_app. split; [done|]. constructor; [|done].
    change (0 <= secs now < 2 ^ 63). unfold secs, MaxClockSkew, second. lia.
  - intros l1 x e l2 E L e' Hin. destruct l2 as [|y l2' _] using rev_ind; [by apply elem_of_nil in Hin|].
    rewrite app_comm_cons, app_assoc in E. apply app_inj_2 in E as [E Ey]; [|done]. injection Ey as <-.
    apply elem_of_app in Hin as [Hin|Hin%list_elem_of_singleton]; [by apply (Hd2 _ _ _ _ E L e')|]. injection Hin as -> ->.
    assert (e * second <= T); [|lia]. apply Hexp. rewrite E. apply elem_of_app. right. by left.
  - intros x e [H1|H1%list_elem_of_singleton]%elem_of_app L.
    + destruct (decide (n = x)) as [<-|Hx]; [apply Hexp in H1; lia|]. rewrite lookup_insert_ne by done. by apply Hm.
    + simplify_eq. exists (now + 2 * MaxClockSkew). rewrite lookup_insert_eq. split; [done|].
      unfold secs, MaxClockSkew, second. lia.
Qed.

Lemma writeRecord_ok now T c d n io res c' d' :
  0 <= now <= T -> now < 2 ^ 62 -> 0 <= currentTx c < 2 ^ 64 - 1 -> file c = true -> persistErr c = None ->
  diskOk T d -> memOk T (expires c) d -> mapOk (expires c) -> expires c !! n = None ->
  writeRecord c d n now io = (res, c', d') ->
  diskOk T d' /\ keeps T d d' /\ sameMemory c c' /\
  match res with
  | Ok tx => tx = currentTx c + 1 /\ currentTx c' = tx /\ persistErr c' = None /\
      (secs now, n) ∈ records d' /\ memOk T (<[n := now + 2 * MaxClockSkew]> (expires c)) d'
  | Fail _ => currentTx c' = currentTx c /\ is_Some (persistErr c')
  end.
Proof.
  intros HT Hnow Htx Hf Hp Hd Hm Hr Hn E. unfold writeRecord in E. rewrite Hf in E. cbn [negb] in E.
  destruct (if replayCompactAfter <=? writesSince c then compact c d (io_compact io) else (true, c, d))
    as [[ok c1] d1] eqn:Ec.
  assert (diskOk T d1 /\ memOk T (expires c) d1 /\ keeps T d d1 /\ sameMemory c c1 /\
    currentTx c1 = currentTx c /\ persistErr c1 = persistErr c) as (D1 & M1 & K1 & (S1 & S2 & S3 & S4 & S5) & X1 & P1).
  { destruct (_ <=? _); [by eapply compact_ok|]. simplify_eq. by split_and!. }
  destruct (append_ok now T (expires c) d1 n HT Hnow D1 M1 Hn) as [D2 M2].
  change (entryRecord n (now + 2 * MaxClockSkew)) with (secs now, n) in E.
  destruct ok; cbn [negb] in E.
  - destruct (io_write io) as [written|].
    + destruct (mark_spec c1) as (e & c2 & Em & (M3 & M4 & M5 & M6 & M7) & _ & X2 & P2 & _). rewrite Em in E. injection E as <- <- <-.
      split; [by destruct written|]. split; [destruct written; [|done]; eapply keeps_trans; [done|apply keeps_append]|].
      split; [split_and!; congruence|]. split; [congruence|by eexists].
    + assert (u64 (currentTx c1 + 1) = currentTx c + 1) as Hu by (rewrite X1; apply u64_id; unfold is_u64; lia).
      rewrite Hu in E. injection E as <- <- <-. unfold sameMemory. cbn [setTx setFile expires expiryQueue persistent closed syncedTx currentTx persistErr].
      split; [done|]. split; [eapply keeps_trans; [done|apply keeps_append]|]. split; [by split_and!|].
      rewrite records_append. split_and!; [done|done|by rewrite P1|apply elem_of_app; right; by left|done].
  - destruct (mark_spec c1) as (e & c2 & Em & (M3 & M4 & M5 & M6 & M7) & _ & X2 & P2 & _). rewrite Em in E. injection E as <- <- <-.
    split; [done|]. split; [done|]. split; [split_and!; congruence|]. split; [congruence|by eexists].
Qed.

Lemma spaced_snoc T ks k :
  spaced T ks ->
  (held k -> forall a, a ∈ ks -> held a -> k_nonce a = k_nonce k -> secs (k_now a) * second <= T) ->
  spaced T (ks ++ [k]).
Proof.
  intros Hs Hk i j a b Hij Ha Hb. apply lookup_snoc_Some in Hb as [[Hj Hb]|[-> <-]].
  - rewrite lookup_app_l in Ha by lia. by apply (Hs i j a b).
  - rewrite lookup_app_l in Ha by lia. intros Hha Hhk Hn. apply Hk; [done| |done|done].
    by apply list_elem_of_lookup_2 in Ha.
Qed.

(** A call that ended at once, and did not change what matters. *)
Lemma inv_refused now T count s c c' d' n seen :
  0 <= now <= T -> sysInv T count s -> cache s = Some c -> keeps T (disk s) d' -> diskOk T d' ->
  cacheOk T count c' d' -> currentTx c <= currentTx c' -> syncedTx c' = syncedTx c ->
  sysInv T count (mkSys (Some c') (stopped s) d' (calls s ++ [mkCall n now 0 Refused seen])).
Proof.
  intros HT [Hd Hc Hk Hs] Ec Hkeep Hd' Hc' Htx Hsy. split; cbn [cache disk calls]; [done| | |].
  - by intros ? [= <-].
  - apply Forall_app. split.
    + eapply callsOk_keep; [done| |done]. intros c0 E0. exists c'. assert (c0 = c) as -> by congruence. done.
    + constructor; [|done]. split_and!; [cbn; lia|cbn; lia|done|by intros [?|?]|]. by intros [?|[? _]].
  - apply spaced_snoc; [done|]. by intros [?|?].
Qed.

(** A call that waits for its record. *)
Lemma inv_waiting now T count s c c' d' n tx seen :
  0 <= now <= T -> sysInv T count s -> cache s = Some c -> keeps T (disk s) d' -> diskOk T d' ->
  cacheOk T count c' d' -> currentTx c < currentTx c' -> syncedTx c' = syncedTx c -> tx = currentTx c' ->
  0 <= syncedTx c <= currentTx c ->
  (secs now, n) ∈ records d' -> (forall e, (e, n) ∈ records (disk s) -> e * second <= T) ->
  sysInv T count (mkSys (Some c') (stopped s) d' (calls s ++ [mkCall n now tx Waiting seen])).
Proof.
  intros HT [Hd Hc Hk Hs] Ec Hkeep Hd' Hc' Htx Hsy -> Hsc Hin Hexp. split; cbn [cache disk calls]; [done| | |].
  - by intros ? [= <-].
  - apply Forall_app. split.
    + eapply callsOk_keep; [done| |done]. intros c0 E0. exists c'. assert (c0 = c) as -> by congruence. split; [done|lia].
    + constructor; [|done]. split_and!; [cbn; lia|cbn; lia| | |].
      * intros _. exists c'. split; [done|cbn; lia].
      * intros _ _. by exists (secs now).
      * intros [?|[_ (c0 & [= <-] & Hle)]]; [done|]. cbn in Hle. lia.
  - apply spaced_snoc; [done|]. intros _ a Ha Hha Hn. cbn [k_nonce k_now] in *. subst n.
    destruct (Z.le_gt_cases (secs (k_now a) * second) T) as [?|L]; [done|].
    rewrite Forall_forall in Hk. destruct (Hk a Ha) as (_ & _ & B3 & _).
    destruct (B3 Hha L) as (e & Hle & Hin'). apply Hexp in Hin'. unfold second in *. lia.
Qed.

Lemma step_accept now T count s n io :
  0 <= now <= T -> now < 2 ^ 62 -> count < 2 ^ 64 - 1 -> sysInv T count s -> sysInv T (count + 1) (step s (now, EAccept n io)).
Proof.
  intros HT Hnow Hcnt Hinv. assert (sysInv T (count + 1) s) as Hinv' by (eapply sysInv_later; [| |done]; lia).
  unfold step. destruct (cache s) as [c|] eqn:Ec; [|done].
  pose proof (inv_disk _ _ _ Hinv) as Hd. destruct (inv_cache _ _ _ Hinv c Ec) as (A1 & A2 & A3 & A4 & A5 & A6).
  pose proof (inv_cache _ _ _ Hinv' c Ec) as Hc'. unfold Accept.
  destruct (closed c) eqn:Ecl; [eapply inv_refused; done || lia || apply keeps_refl|].
  destruct (persistErr c) as [err|] eqn:Ep; [eapply inv_refused; done || lia || apply keeps_refl|]. specialize (A6 eq_refl).
  rewrite A3. destruct (file c) eqn:Ef; cbn [andb negb].
  2:{ destruct (mark_spec c) as (e & c2 & -> & (M3 & M4 & M5 & M6 & M7) & _ & X2 & P2 & _).
      eapply (inv_refused now T _ s c c2 (disk s) n); [done|done|done|apply keeps_refl|done| |lia|done].
      split_and!; [unfold cacheInv; by rewrite M3, M4|by rewrite M3|by rewrite M5|lia|lia|lia|congruence]. }
  destruct (evict_spec c now A1) as (q & -> & Hq). set (m := live now (expires c)) in *.
  assert (memOk T m (disk s)) as Hm by (apply memOk_live; [lia|done]).
  assert (mapOk m) as Hmr by (intros x e [He _]%live_lookup; by eapply A2).
  assert (cacheOk T (count + 1) (setEntries c m q) (disk s)) as Hce.
  { split_and!; [done|done|done|cbn; lia|cbn; lia|cbn; lia|done]. }
  cbn [expires setEntries]. case_bool_decide as Hn; [eapply inv_refused; done || lia || apply keeps_refl|].
  destruct (_ <=? _); [eapply inv_refused; done || lia || apply keeps_refl|]. apply eq_None_not_Some in Hn.
  destruct (writeRecord (setEntries c m q) (disk s) n now io) as [[res c1] d1] eqn:Ew.
  apply (writeRecord_ok now T) in Ew as (D1 & K1 & (S1 & S2 & S3 & S4 & S5) & Hres); [|done|done|cbn; lia|done|done|done|done|done|done].
  cbn [expires expiryQueue persistent closed syncedTx currentTx setEntries] in *.
  destruct res as [tx|err].
  - destruct Hres as (-> & X1 & P1 & Hin & M1). rewrite S1, S2, S3, A3. cbn [andb].
    rewrite (proj2 (Z.ltb_lt 0 _)) by lia. eapply inv_waiting; [lia|done|done|done|done| |cbn; lia|done|done|lia|done|].
    + split_and!; cbn [setEntries expires expiryQueue persistent syncedTx currentTx persistErr];
        [by apply entriesOk_insert| |by rewrite S3|lia|lia|lia|done].
      intros x e [[_ <-]|[_ Hx]]%lookup_insert_Some; [unfold MaxClockSkew, second; lia|by eapply Hmr].
    + intros e He. destruct (Z.le_gt_cases (e * second) T) as [?|L]; [done|].
      destruct (Hm n e He L) as (e' & He' & _). congruence.
  - destruct Hres as [X1 [err' P1]]. eapply inv_refused; [lia|done|done|done|done| |lia|done].
    split_and!; [unfold cacheInv; by rewrite S1, S2|by rewrite S1|by rewrite S3|lia|lia|lia|].
    intros Hnone. congruence.
Qed.

(** *** The other events *)

Lemma step_check now T count s n : now <= T -> sysInv T count s -> sysInv T count (step s (now, ECheck n)).
Proof.
  intros HT Hinv. unfold step. destruct (cache s) as [c|] eqn:Ec; [|done]. destruct Hinv as [Hd Hc Hk Hs].
  destruct (Hc c Ec) as (A1 & A2 & A3 & A4 & A5 & A6). unfold Check.
  destruct (evict_spec c now A1) as (q & -> & Hq). cbn [snd]. split; cbn [cache disk calls]; [done| | |done].
  - intros ? [= <-]. split_and!; [done| |done|cbn; lia|cbn; lia|cbn; lia|].
    + intros x e [He _]%live_lookup. by eapply A2.
    + intros Hp. apply memOk_live; [done|]. by apply A6.
  - eapply callsOk_keep; [apply keeps_refl| |done]. intros c0 E0. assert (c0 = c) as -> by congruence. by eexists.
Qed.

Lemma records_sync d : records (syncDisk d) = records d.
Proof. unfold records, syncDisk. cbn. apply app_nil_r. Qed.

Lemma sync_keeps T d : keeps T d (syncDisk d).
Proof. intros n s L. rewrite records_sync. split; [done|]. apply recorded_app_l. Qed.

(** After a successful sync every transaction is on the synced part. *)
Lemma callOk_sync T c d k :
  callOk T (Some c) d k -> callOk T (Some (Broadcast (setTx c (currentTx c) (currentTx c)))) (syncDisk d) k.
Proof.
  intros (B1 & B2 & B3 & B4). split_and!; [lia|lia| | |].
  - intros Hw. destruct (B2 Hw) as (c0 & [= <-] & Htx). by eexists.
  - intros Hh L. rewrite records_sync. by apply B3.
  - intros Hh L. apply B3; [|done]. destruct Hh as [?|[? _]]; [by right|by left].
Qed.

Lemma groupCommit_ok T count c st d ks failed c' d' st' :
  sysInv T count (mkSys (Some c) st d ks) -> groupCommit c d failed = (c', d') ->
  sysInv T count (mkSys (Some c') st' d' ks).
Proof.
  intros [Hd Hc Hk Hs] E. cbn [cache disk calls] in *. destruct (Hc c eq_refl) as (A1 & A2 & A3 & A4 & A5 & A6).
  unfold groupCommit in E. destruct (file c && _); [destruct failed|]; [|injection E as <- <-; split; cbn [cache disk calls]; try done..].
  - destruct (mark_spec c) as (e & c2 & Em & (M3 & M4 & M5 & M6 & M7) & _ & X2 & P2 & _). rewrite Em in E. injection E as <- <-.
    split; cbn [cache disk calls snd]; [done| | |done].
    + intros ? [= <-]. split_and!; cbn [Broadcast expires expiryQueue persistent syncedTx currentTx persistErr];
        [unfold cacheInv; cbn; by rewrite M3, M4|by rewrite M3|by rewrite M5|lia|lia|lia|congruence].
    + eapply callsOk_keep; [apply keeps_refl| |done]. intros c0 [= <-]. eexists. split; [done|]. cbn. split; [lia|congruence].
  - destruct Hd as [D1 D2]. split; rewrite records_sync; done.
  - intros ? [= <-]. split_and!; [done|done|done|cbn; lia|cbn; lia|cbn; lia|].
    intros Hp n e. rewrite records_sync. by apply A6.
  - eapply Forall_impl; [exact Hk|]. intros k. apply callOk_sync.
Qed.

Lemma acceptWake_true c tx err : acceptWake c tx = Some (true, err) -> tx <= syncedTx c.
Proof. unfold acceptWake. intros E. inv_fun E. done. Qed.

Lemma wake_ok T c d k : callOk T (Some c) d k -> callOk T (Some c) d (wake c k).
Proof.
  intros Hk. unfold wake. destruct (k_status k) eqn:Ek; [|done..]. destruct (woken c k); [|done]. pose proof Hk as (B1 & B2 & B3 & B4).
  destruct (acceptWake c (k_tx k)) as [[[] err]|] eqn:Ew.
  - apply acceptWake_true in Ew. split_and!; [cbn; lia|cbn; lia|done| |].
    + intros _. apply B3. by left.
    + intros _. apply B4. right. split; [done|]. by exists c.
  - split_and!; [cbn; lia|cbn; lia|done|by intros [?|?]|by intros [?|[? _]]].
  - exact Hk.
Qed.

(** A function that changes statuses only, and makes no call held. *)
Definition statusOnly (f : call -> call) : Prop :=
  forall k, k_nonce (f k) = k_nonce k /\ k_now (f k) = k_now k /\ (held (f k) -> held k).

Lemma spaced_lookup T ks ks' :
  (forall i b, ks' !! i = Some b -> exists a, ks !! i = Some a /\ k_nonce b = k_nonce a /\ k_now b = k_now a /\
     (held b -> held a)) -> spaced T ks -> spaced T ks'.
Proof.
  intros Hf Hs i j a b Hij Ha Hb Hha Hhb Hn.
  apply Hf in Ha as (a0 & Ha & E1 & E2 & H1), Hb as (b0 & Hb & E3 & E4 & H2).
  rewrite E2. apply (Hs i j a0 b0); auto. congruence.
Qed.

Lemma spaced_fmap T f ks : statusOnly f -> spaced T ks -> spaced T (f <$> ks).
Proof.
  intros Hf. apply spaced_lookup. intros i b Hb. apply list_lookup_fmap_Some in Hb as (a & -> & Ha).
  exists a. split; [done|apply Hf].
Qed.

Lemma spaced_alter T f i ks : statusOnly f -> spaced T ks -> spaced T (alter f i ks).
Proof.
  intros Hf. apply spaced_lookup. intros j b Hb. destruct (decide (i = j)) as [->|Hn].
  - rewrite list_lookup_alter_eq in Hb. apply fmap_Some in Hb as (a & Ha & ->). exists a. split; [done|apply Hf].
  - rewrite list_lookup_alter_ne in Hb by done. by exists b.
Qed.

Lemma wake_status c : statusOnly (wake c).
Proof.
  intros k. unfold wake. destruct (k_status k) eqn:Ek; [|done..].
  destruct (woken c k); [|done]. destruct (acceptWake c (k_tx k)) as [[[] err]|]; split_and!; try done; by left.
Qed.

Lemma settle_status oc : statusOnly (settle oc).
Proof.
  intros k. unfold settle. destruct (k_status k) eqn:Ek; [|done..].
  destruct (oc ≫= _) as [[[] err]|]; split_and!; try done; by left.
Qed.

(** When the process goes away, what has returned is on the synced part. *)
Lemma settle_ok T oc0 oc oc' d d' k :
  oc = None \/ oc = oc0 -> callOk T oc0 d k -> keeps T (mkDisk (durable d) []) d' ->
  callOk T oc' d' (settle oc k).
Proof.
  intros Hoc Hk Hd. pose proof (settle_status oc k) as (En & Et & _). destruct Hk as (B1 & B2 & B3 & B4).
  assert (k_status (settle oc k) <> Waiting) as Hw.
  { unfold settle. destruct (k_status k) eqn:E; cbn; try (rewrite E; done). by repeat case_match. }
  assert (k_status (settle oc k) = Accepted -> T < secs (k_now k) * second ->
          recorded (durable d) (k_nonce k) (secs (k_now k))) as Hacc.
  { intros Ha. apply B4. unfold settle in Ha. destruct (k_status k) eqn:E; try (by rewrite ?E in Ha); [|by left].
    right. split; [done|]. destruct oc as [c|]; [|done]. destruct Hoc as [?|<-]; [done|].
    cbn in Ha. exists c. split; [done|].
    destruct (woken c k); [|done]. destruct (acceptWake c (k_tx k)) as [[[] err]|] eqn:Ew; [|done..]. by eapply acceptWake_true. }
  assert (forall n s, T < s * second -> recorded (durable d) n s -> recorded (records d') n s /\ recorded (durable d') n s)
    as Hrec.
  { intros n s L Hr. destruct (Hd n s L) as [H1 H2]. split; [apply H1|by apply H2].
    unfold records. cbn. by rewrite app_nil_r. }
  unfold callOk. rewrite En, Et. split_and!; [lia|lia|done| |].
  - intros [?|Ha] L; [done|]. by apply Hrec, Hacc.
  - intros [Ha|[? _]] L; [|done]. by apply Hrec, Hacc.
Qed.

Lemma keeps_durable T d1 d2 v : durable d2 = durable d1 ++ v -> keeps T (mkDisk (durable d1) []) d2.
Proof.
  intros E n s L. unfold records. cbn [durable volatile]. rewrite E, app_nil_r. split; intros Hr.
  - by do 2 apply recorded_app_l.
  - by apply recorded_app_l.
Qed.

(** The process is gone; the file keeps its synced part and some more. *)
Lemma inv_gone T count s d' v st :
  sysInv T count s -> durable d' = durable (disk s) ++ v -> (exists lost, records (disk s) = records d' ++ lost) ->
  forall oc, oc = None \/ oc = cache s -> sysInv T count (mkSys None st d' (settle oc <$> calls s)).
Proof.
  intros [[D1 D2] Hc Hk Hs] Ed [lost El] oc Hoc. split; cbn [cache disk calls]; [|done| |].
  - rewrite El in D1, D2. split; [by apply Forall_app in D1 as [? _]|]. intros l1 n e l2 E L e' Hin.
    apply (D2 l1 n e (l2 ++ lost)) with e'; [by rewrite E, <- app_assoc|done|]. apply elem_of_app. by left.
  - apply Forall_fmap. eapply Forall_impl; [exact Hk|]. intros k Hck.
    eapply settle_ok; [done|done|by eapply keeps_durable].
  - apply spaced_fmap; [apply settle_status|done].
Qed.

Lemma loadRecords_fields now rs c : exists m q, foldl (loadRecord now) c rs = setEntries c m q.
Proof.
  revert c. induction rs as [|r rs IH]; intros c; cbn [foldl]; [by exists (expires c), (expiryQueue c); destruct c|].
  unfold loadRecord at 2. destruct (_ <? _); [|apply IH].
  destruct (IH (setEntries c (<[r.2:=r.1 * second]> (expires c)) (heapPush expiry (expiryQueue c) (mkExpiry r.2 (r.1 * second)))))
    as (m & q & ->). by exists m, q.
Qed.

Lemma open_ok now T count d c :
  now <= T -> 0 <= count -> diskOk T d -> OpenReplayCache (content d) now = Ok c -> cacheOk T count c d /\ file c = true /\ closed c = false.
Proof.
  intros HT Hcnt [D1 D2] E. unfold OpenReplayCache, load, content in E. rewrite scan_records in E by done.
  apply loadLines_records in E; [|done]. set (c0 := mkCache ∅ [] true 0 true None 0 0 false 0) in E.
  assert (cacheInv c0) as H0.
  { split; [intros i Hi; cbn in Hi; lia|]. intros n e He. cbn in He. by apply lookup_empty_Some in He. }
  destruct (loadRecords_spec now (records d) c0 H0) as (L1 & L2). rewrite <- E in L1, L2.
  destruct (loadRecords_fields now (records d) c0) as (m & q & Em). rewrite <- E in Em.
  split; [|by rewrite Em]. split; [done|]. rewrite Em at 2 3 4 5 6. cbn [setEntries c0 persistent syncedTx currentTx].
  split_and!; [|done|lia|lia|lia|].
  - intros n e He. destruct (L2 n e He) as [Hx|(s & Hs & -> & _)]; [cbn in Hx; by apply lookup_empty_Some in Hx|]. rewrite Forall_forall in D1.
    rewrite Z.div_mul by done. exact (D1 _ Hs).
  - intros _ n e Hin L. apply list_elem_of_split in Hin as (l1 & l2 & Er). exists (e * second). split; [|done].
    rewrite E, Er. apply loadRecords_last; [lia|]. by apply (D2 l1 n e l2).
Qed.

Lemma inv_open now T count s :
  now <= T -> 0 <= count -> sysInv T count s ->
  sysInv T count match OpenReplayCache (content (disk s)) now with
                 | Ok c' => mkSys (Some c') false (disk s) (settle (cache s) <$> calls s)
                 | Fail _ => mkSys None false (disk s) (settle (cache s) <$> calls s)
                 end.
Proof.
  intros HT Hcnt Hinv.
  assert (sysInv T count (mkSys None false (disk s) (settle (cache s) <$> calls s))) as Hg.
  { eapply (inv_gone T count s _ []); [done|by rewrite app_nil_r|exists []; by rewrite app_nil_r|by right]. }
  destruct (OpenReplayCache _ now) as [c|e] eqn:Eo; [|done].
  destruct (open_ok now T count _ _ HT Hcnt (inv_disk _ _ _ Hinv) Eo) as (Hc & _).
  destruct Hg as [G1 _ G3 G4]. cbn [cache disk calls] in *.
  split; cbn [cache disk calls]; [done|by intros ? [= <-]| |done].
  apply (callsOk_keep T None (Some c) (disk s) (disk s)); [apply keeps_refl|done|done].
Qed.

(** Every event preserves the invariant. *)
Lemma step_inv now T count s ev :
  0 <= now <= T -> now < 2 ^ 62 -> 0 <= count < 2 ^ 64 - 1 -> sysInv T count s -> sysInv T (count + 1) (step s (now, ev)).
Proof.
  intros HT Hnow Hcnt Hinv. destruct ev as [n io|n|failed|i| |failed|failed| |kept|]; [apply step_accept; done || lia|..];
    (apply sysInv_later with T count; [lia|lia|]).
  - apply step_check; [lia|done].
  - destruct s as [[c|] st d ks]; [|done]. cbn. destruct st; [done|].
    destruct (groupCommit c d failed) as [c' d'] eqn:E. by eapply groupCommit_ok.
  - unfold step. destruct (cache s) as [c|] eqn:Ec; [|done]. destruct Hinv as [Hd Hc Hk Hs]. rewrite Ec in Hk.
    split; cbn [cache disk calls]; [done|by intros ? [= <-]; apply Hc| |].
    + apply Forall_alter; [done|]. intros k _. apply wake_ok.
    + apply spaced_alter; [apply wake_status|done].
  - unfold step. destruct (cache s) as [c|] eqn:Ec; [|done]. destruct Hinv as [Hd Hc Hk Hs]. rewrite Ec in Hk.
    split; cbn [cache disk calls]; [done| | |done].
    + intros ? [= <-]. exact (Hc c Ec).
    + eapply callsOk_keep; [apply keeps_refl| |done]. intros c0 [= <-]. by eexists.
  - destruct s as [[c|] st d ks]; [|done]. cbn. destruct (closed c && negb st); [|done].
    destruct (groupCommit c d failed) as [c' d'] eqn:E. by eapply groupCommit_ok.
  - unfold step. destruct (cache s) as [c|] eqn:Ec; [|done]. destruct (stopped s); [|done].
    destruct Hinv as [Hd Hc Hk Hs]. rewrite Ec in Hk. unfold closeEnd.
    destruct (file c); [destruct failed|]; (split; cbn [cache disk calls]; [..|done]).
    + done.
    + intros ? [= <-]. exact (Hc c Ec).
    + eapply callsOk_keep; [apply keeps_refl| |done]. intros c0 [= <-]. by eexists.
    + destruct Hd as [D1 D2]. split; rewrite records_sync; done.
    + intros ? [= <-]. destruct (Hc c Ec) as (A1 & A2 & A3 & A4 & A5 & A6).
      split_and!; [done|done|done|cbn; lia|cbn; lia|cbn; lia|]. intros Hp n e. rewrite records_sync. by apply A6.
    + eapply callsOk_keep; [apply sync_keeps| |done]. intros c0 [= <-]. by eexists.
    + done.
    + intros ? [= <-]. exact (Hc c Ec).
    + done.
  - unfold step. eapply (inv_gone T count s _ []); [done|by rewrite app_nil_r|exists []; by rewrite app_nil_r|by left].
  - unfold step. eapply (inv_gone T count s _ (take kept (volatile (disk s)))); [done|done| |by left].
    exists (drop kept (volatile (disk s))). unfold records. cbn. by rewrite app_nil_r, <- app_assoc, take_drop.
  - pose proof (inv_open now T count s (proj2 HT) (proj1 Hcnt) Hinv) as Ho. unfold step.
    destruct (cache s) as [c|]; [|done]. by destruct (stopped s && negb (file c)).
Qed.

(** ** Runs *)

(** No process, an empty file. *)
Definition initial : Sys := mkSys None false (mkDisk [] []) [].

(** Clock readings are from 1970 to 2116 (2^62 ns), in any order. *)
Definition clockOk (te : Z * event) : Prop := 0 <= te.1 < 2 ^ 62.

(** The latest reading. *)
Definition latest (T : Z) (evs : list (Z * event)) : Z := foldl (fun t te => Z.max t te.1) T evs.

Lemma latest_ge T evs : T <= latest T evs.
Proof. revert T. induction evs as [|te evs IH]; intros T; cbn; [done|]. specialize (IH (Z.max T te.1)). unfold latest in IH. lia. Qed.

Lemma latest_reached T evs v : T < v <= latest T evs -> Exists (fun te => v <= te.1) evs.
Proof.
  revert T. induction evs as [|te evs IH]; intros T Hv; cbn in Hv; [lia|].
  destruct (Z.le_gt_cases v te.1) as [?|?]; [by left|]. right. apply (IH (Z.max T te.1)). unfold latest. lia.
Qed.

Lemma initial_inv : sysInv 0 0 initial.
Proof.
  split; cbn [initial cache disk calls]; [|done|by constructor|by intros i j a b _ Ha].
  split; [by constructor|]. by intros [|? l1] n e l2.
Qed.

Lemma replayRun_inv evs T count s :
  0 <= T -> 0 <= count -> count + len evs < 2 ^ 64 -> Forall clockOk evs -> sysInv T count s ->
  sysInv (latest T evs) (count + len evs) (run s evs).
Proof.
  revert T count s. induction evs as [|[t ev] evs IH]; intros T count s HT Hcnt Hlen Hck Hinv; [cbn; by rewrite Z.add_0_r|].
  apply Forall_cons in Hck as [Ht Hck]. unfold clockOk in Ht. cbn [fst] in Ht. rewrite len_cons in *.
  replace (count + (1 + len evs)) with (count + 1 + len evs) by lia. apply (IH (Z.max T t)); [lia|lia|lia|done|].
  apply step_inv; [lia|lia|lia|]. eapply sysInv_later; [| |done]; lia.
Qed.

(** A step changes the status of the calls so far, and may add one. *)
Lemma step_calls s t ev i b :
  calls (step s (t, ev)) !! i = Some b ->
  (exists a, calls s !! i = Some a /\ k_nonce b = k_nonce a /\ k_now b = k_now a /\ (held b -> held a)) \/
  (i = length (calls s) /\ k_now b = t).
Proof.
  assert (forall f, statusOnly f -> (f <$> calls s) !! i = Some b ->
    exists a, calls s !! i = Some a /\ k_nonce b = k_nonce a /\ k_now b = k_now a /\ (held b -> held a)) as Hf.
  { intros f Hf Hb. apply list_lookup_fmap_Some in Hb as (a & -> & Ha). exists a. split; [done|apply Hf]. }
  assert (calls s !! i = Some b -> exists a, calls s !! i = Some a /\ k_nonce b = k_nonce a /\ k_now b = k_now a /\ (held b -> held a)) as Hsame by eauto.
  unfold step. destruct ev as [n io|n|failed|j| |failed|failed| |kept|]; try (destruct (cache s) as [c|]; [|by auto]).
  - destruct (Accept c (disk s) n t io) as [[r c'] d']. cbn [calls]. intros [Hb|[-> <-]]%lookup_snoc_Some; [naive_solver|]. right. by destruct r.
  - auto.
  - destruct (stopped s); [auto|]. destruct (groupCommit c _ failed). auto.
  - cbn [calls]. destruct (decide (j = i)) as [->|Hn]; [|rewrite list_lookup_alter_ne by done; auto].
    rewrite list_lookup_alter_eq. intros (a & Ha & ->)%fmap_Some. left. exists a. split; [done|apply wake_status].
  - auto.
  - destruct (closed c && _); [|auto]. destruct (groupCommit c _ failed). auto.
  - destruct (stopped s); [|auto]. destruct (closeEnd c _ failed). auto.
  - intros Hb. left. eapply Hf; [apply settle_status|done].
  - intros Hb. left. eapply Hf; [apply settle_status|done].
  - destruct (cache s) as [c|]; [destruct (_ && _); [|auto]|]; destruct (OpenReplayCache _ t); cbn [calls]; intros Hb; left; (eapply Hf; [apply settle_status|done]).
Qed.

Lemma run_calls evs s i b :
  calls (run s evs) !! i = Some b -> (i < length (calls s))%nat ->
  exists a, calls s !! i = Some a /\ k_nonce b = k_nonce a /\ k_now b = k_now a /\ (held b -> held a).
Proof.
  revert b. induction evs as [|[t ev] evs IH] using rev_ind; intros b Hb Hi; [by exists b|]. unfold run in Hb. rewrite foldl_app in Hb.
  fold (run s evs) in Hb. cbn [foldl] in Hb.
  assert (length (calls s) <= length (calls (run s evs)))%nat as Hle.
  { clear. induction evs as [|[t ev] evs IH] using rev_ind; [done|]. unfold run. rewrite foldl_app. fold (run s evs). cbn [foldl]. etrans; [exact IH|].
    generalize (run s evs). intros u. unfold step. destruct ev; try (destruct (cache u) as [c|]; [|done]); repeat case_match; cbn [calls]; rewrite ?length_app, ?length_fmap, ?length_alter; cbn; lia. }
  destruct (step_calls _ _ _ _ _ Hb) as [(a & Ha & E1 & E2 & E3)|[-> _]]; [|lia].
  destruct (IH a Ha Hi) as (a0 & Ha0 & F1 & F2 & F3). exists a0. split_and!; [done|congruence|congruence|auto].
Qed.

(** Two calls that may both return true: by the second, a clock has reached the expiry of the first. *)
Lemma durable_clock evs m i j a b :
  Forall clockOk evs -> len evs < 2 ^ 64 -> (i < j)%nat ->
  calls (run initial evs) !! i = Some a -> calls (run initial evs) !! j = Some b ->
  held a -> held b -> k_nonce a = k_nonce b -> (j < length (calls (run initial (take m evs))))%nat ->
  Exists (fun te => secs (k_now a) * second <= te.1) (take m evs).
Proof.
  intros Hck Hlen Hij Ha Hb Sa Sb Hn Hm. rewrite <- (take_drop m evs) in Ha, Hb, Hck. unfold run in Ha, Hb. rewrite foldl_app in Ha, Hb.
  fold (run initial (take m evs)) in Ha, Hb. apply Forall_app in Hck as [Hck _].
  destruct (run_calls _ _ _ _ Ha) as (a' & Ha' & E1 & E2 & E3); [lia|]. destruct (run_calls _ _ _ _ Hb Hm) as (b' & Hb' & F1 & F2 & F3).
  assert (len (take m evs) <= len evs) as Hl by (rewrite length_take; lia).
  pose proof (replayRun_inv (take m evs) 0 0 initial ltac:(lia) ltac:(lia) ltac:(lia) Hck initial_inv) as [_ _ Hk Hs].
  apply (latest_reached 0). rewrite E2. split; [|apply (Hs i j a' b'); auto; congruence].
  destruct (Forall_lookup_1 _ _ _ _ Hk Ha') as [? _]. unfold secs, MaxClockSkew, second. lia.
Qed.

(** C2: the persistent cache does not accept a nonce twice before it expires,
    through every interleaving of calls, group commits, wake-ups, failed
    writes, syncs and compactions, closings, process and machine crashes that
    lose unsynced records, and restarts, and for clock readings (from 1970 to
    2116) in any order, also ones that go back: if two calls returned true for
    one nonce, then by the time of the second some clock reading of the run had
    reached the expiry (in whole seconds) of the first.  [take m evs] is any
    beginning of the run in which the second call has been made. *)
Theorem replay_cache_durable evs m i j a b :
  Forall clockOk evs -> len evs < 2 ^ 64 -> (i < j)%nat ->
  calls (run initial evs) !! i = Some a -> calls (run initial evs) !! j = Some b ->
  k_status a = Accepted -> k_status b = Accepted -> k_nonce a = k_nonce b ->
  (j < length (calls (run initial (take m evs))))%nat ->
  Exists (fun te => (k_now a + 2 * MaxClockSkew) / second * second <= te.1) (take m evs).
Proof. intros Hck Hlen Hij Ha Hb Sa Sb Hn Hm. apply (durable_clock evs m i j a b); try done; by right. Qed.

(** When the readings do not go back: *)
Fixpoint inOrder (T : Z) (evs : list (Z * event)) : Prop :=
  match evs with
  | [] => True
  | (t, _) :: rest => T <= t < 2 ^ 62 /\ inOrder t rest
  end.

Lemma inOrder_clock T evs : 0 <= T -> inOrder T evs -> Forall clockOk evs.
Proof. revert T. induction evs as [|[t ev] evs IH]; intros T HT; [by constructor|]. intros [Ht Ho]. constructor; [unfold clockOk; cbn; lia|]. apply (IH t); [lia|done]. Qed.

Lemma inOrder_last T evs m t ev : inOrder T evs -> evs !! m = Some (t, ev) -> Forall (fun te => te.1 <= t) (take (S m) evs).
Proof.
  assert (forall evs T m t ev, inOrder T evs -> evs !! m = Some (t, ev) -> T <= t) as Hge.
  { clear. intros evs. induction evs as [|[t0 e0] evs IH]; intros T m t ev Hio Hm; [done|]. destruct Hio as [Ht Ho]. destruct m as [|m]; [cbn in Hm; injection Hm as <- <-; lia|]. specialize (IH _ _ _ _ Ho Hm). lia. }
  revert T m. induction evs as [|[t0 e0] evs IH]; intros T m Hio Hm; [done|]. destruct Hio as [Ht Ho]. destruct m as [|m]; [cbn in Hm; injection Hm as <- <-; by repeat constructor|].
  change (take (S (S m)) ((t0, e0) :: evs)) with ((t0, e0) :: take (S m) evs). constructor; [exact (Hge _ _ _ _ _ Ho Hm)|by apply (IH t0)].
Qed.

(** The event a call comes from. *)
Lemma call_event evs j b : calls (run initial evs) !! j = Some b ->
  exists m ev, evs !! m = Some (k_now b, ev) /\ (j < length (calls (run initial (take (S m) evs))))%nat.
Proof.
  revert b. induction evs as [|[t ev] evs IH] using rev_ind; intros b Hb; [done|]. pose proof Hb as Hb'. unfold run in Hb'. rewrite foldl_app in Hb'.
  fold (run initial evs) in Hb'. destruct (step_calls _ _ _ _ _ Hb') as [(a & Ha & _ & E & _)|[-> E]].
  - destruct (IH a Ha) as (m & ev' & Hm & Hj). pose proof (lookup_lt_Some _ _ _ Hm) as Hlt. exists m, ev'. rewrite E. split; [by apply lookup_app_l_Some|].
    by rewrite take_app_le by lia.
  - exists (length evs), ev. rewrite E. split; [by apply list_lookup_middle|]. rewrite take_ge by (rewrite length_app; cbn; lia). by apply lookup_lt_Some in Hb.
Qed.

Lemma durable_ordered evs i j a b :
  inOrder 0 evs -> len evs < 2 ^ 64 -> (i < j)%nat -> calls (run initial evs) !! i = Some a -> calls (run initial evs) !! j = Some b ->
  held a -> held b -> k_nonce a = k_nonce b -> secs (k_now a) * second <= k_now b.
Proof.
  intros Hord Hlen Hij Ha Hb Sa Sb Hn. destruct (call_event evs j b Hb) as (m & ev & Hm & Hj).
  pose proof (durable_clock evs (S m) i j a b (inOrder_clock 0 evs ltac:(done) Hord) Hlen Hij Ha Hb Sa Sb Hn Hj) as (te & Hin & Hle)%Exists_exists.
  pose proof (inOrder_last 0 evs m _ _ Hord Hm) as Hall. rewrite Forall_forall in Hall. specialize (Hall te Hin). lia.
Qed.

(** ** Waiting calls return *)

(** A waiting call that no broadcast has woken has nothing to find. *)
Definition asleepOk (c : Cache) (k : call) : Prop :=
  k_status k = Waiting -> k_seen k <= broadcasts c /\ (k_seen k = broadcasts c -> persistErr c = None /\ syncedTx c < k_tx k).

(** Until the loop stops the file is open or the error is recorded; when it
    has stopped everything is synced or the error is recorded. *)
Definition progressInv (s : Sys) : Prop :=
  forall c, cache s = Some c -> persistent c = true /\ Forall (asleepOk c) (calls s) /\
    (persistErr c = None -> if stopped s then closed c = true /\ syncedTx c = currentTx c else file c = true).

(** How a step of the code moves a cache: what could end a wait comes with a broadcast. *)
Definition announced (c c' : Cache) : Prop :=
  persistent c' = persistent c /\ broadcasts c <= broadcasts c' /\ (broadcasts c' = broadcasts c -> persistErr c' = persistErr c /\ syncedTx c' = syncedTx c).

Lemma announced_asleep c c' ks : announced c c' -> Forall (asleepOk c) ks -> Forall (asleepOk c') ks.
Proof.
  intros (_ & H1 & H2) Hk. eapply Forall_impl; [exact Hk|]. intros k Ha Hw. destruct (Ha Hw) as [A1 A2]. split; [lia|]. intros E.
  destruct H2 as [-> ->]; [lia|]. apply A2. lia.
Qed.

Lemma writeRecord_announced c d n now io res c' d' :
  persistent c = true -> file c = true -> writeRecord c d n now io = (res, c', d') ->
  announced c c' /\ match res with
  | Ok tx => persistErr c' = persistErr c /\ syncedTx c' = syncedTx c /\ tx = u64 (currentTx c + 1) /\ file c' = true
  | Fail _ => is_Some (persistErr c')
  end.
Proof.
  intros Hper Hf E. unfold writeRecord in E. rewrite Hf in E. cbn [negb] in E.
  destruct (if replayCompactAfter <=? writesSince c then compact c d (io_compact io) else (true, c, d)) as [[ok c1] d1] eqn:Ec.
  assert (persistent c1 = true /\ broadcasts c1 = broadcasts c /\ persistErr c1 = persistErr c /\ syncedTx c1 = syncedTx c /\ currentTx c1 = currentTx c) as (C1 & C2 & C3 & C4 & C5).
  { unfold compact in Ec. repeat case_match; simplify_eq; done. }
  assert (forall c2 e, markPersistenceFailure c1 = (e, c2) -> announced c c2 /\ is_Some (persistErr c2)) as Hm.
  { intros c2 e Em. destruct (mark_spec c1) as (e' & c2' & Em' & (_ & _ & M5 & _ & _) & _ & _ & P2 & B2). rewrite Em in Em'. injection Em' as <- <-.
    specialize (B2 C1). unfold announced. rewrite M5, B2, C2, C1, Hper. split_and!; [done|lia|lia|by eexists]. }
  destruct ok; cbn [negb] in E.
  - destruct (io_write io) as [written|].
    + destruct (markPersistenceFailure c1) as [e c2] eqn:Em. injection E as <- <- <-. by eapply Hm.
    + injection E as <- <- <-. unfold announced. cbn. rewrite C1, C2, C3, C4, C5, Hper. split_and!; done || lia.
  - destruct (markPersistenceFailure c1) as [e c2] eqn:Em. injection E as <- <- <-. by eapply Hm.
Qed.

Lemma Accept_file c d n now io r c' d' :
  persistent c = true -> Accept c d n now io = (r, c', d') ->
  announced c c' /\ closed c' = closed c /\ (closed c = true -> c' = c) /\
  ((persistErr c = None -> file c = true) -> persistErr c' = None -> file c' = true) /\
  (forall tx, r = Waits tx -> persistErr c' = None /\ syncedTx c' = syncedTx c /\ tx = u64 (currentTx c + 1)).
Proof.
  intros Hper E. assert (announced c c) as Hrefl by (split_and!; [done|lia|done]).
  unfold Accept, evict in E. destruct (closed c) eqn:Ecl; [by injection E as <- <- <-|].
  destruct (persistErr c) eqn:Ep; [injection E as <- <- <-; split_and!; try done; by intros ? ?%(eq_trans (eq_sym Ep))|].
  rewrite Hper in E. destruct (file c) eqn:Ef; cbn [andb negb] in E.
  2:{ destruct (mark_spec c) as (e & c2 & Em & (_ & _ & M5 & M6 & _) & M8 & _ & P2 & B2). rewrite Em in E. injection E as <- <- <-. specialize (B2 Hper).
      split_and!; [unfold announced; rewrite M5, B2; split_and!; [done|lia|lia]|congruence|done|congruence|done]. }
  destruct (evictLoop _ now _ _) as [m q]. cbn [expires setEntries] in E.
  case_bool_decide; [by injection E as <- <- <-|]. destruct (_ <=? _); [by injection E as <- <- <-|].
  destruct (writeRecord _ d n now io) as [[res c1] d1] eqn:Ew.
  pose proof (writeRecord_entries _ _ _ _ _ _ _ _ Ew) as (_ & _ & Ecl' & _). apply writeRecord_announced in Ew as [Ha Hres]; [|done|done].
  cbn [closed persistent setEntries currentTx persistErr] in *. assert (announced c c1) as Ha' by (exact Ha).
  destruct res as [tx|e]; [|injection E as <- <- <-; destruct Hres as [x Hx]; split_and!; [done|congruence|done|congruence|done]].
  destruct Hres as (R1 & R4 & R2 & R3). destruct Ha' as (H1 & H2 & H3). rewrite H1, Hper in E. cbn [andb] in E.
  set (c2 := setEntries c1 _ _) in E.
  assert (c' = c2 /\ forall t, r = Waits t -> t = tx) as [-> Hr] by (destruct (0 <? tx); simplify_eq; split; try done; by intros ? [= <-]).
  split_and!; [done|cbn; congruence|done|done|]. intros t Ht. rewrite (Hr t Ht). split_and!; [cbn; congruence|exact R4|done].
Qed.

Lemma groupCommit_progress c d failed c' d' :
  persistent c = true -> groupCommit c d failed = (c', d') ->
  announced c c' /\ closed c' = closed c /\ file c' = file c /\
  (syncedTx c < currentTx c -> file c = true -> broadcasts c < broadcasts c') /\
  (syncedTx c <= currentTx c -> file c = true -> persistErr c' = None -> syncedTx c' = currentTx c') /\
  (persistErr c' = None -> persistErr c = None) /\ currentTx c' = currentTx c.
Proof.
  intros Hper E. unfold groupCommit in E. destruct (file c) eqn:Ef; cbn [andb] in E; [|injection E as <- <-; by split_and!].
  destruct (Z.ltb_spec (syncedTx c) (currentTx c)); [destruct failed|].
  - destruct (mark_spec c) as (e & c2 & Em & (_ & _ & M5 & M6 & M7) & M8 & M9 & P2 & B2). rewrite Em in E. injection E as <- <-. specialize (B2 Hper).
    unfold announced. cbn. rewrite M5, M6, M8, M9, P2, B2. split_and!; done || lia.
  - injection E as <- <-. unfold announced. cbn. split_and!; done || lia.
  - injection E as <- <-. split_and!; try done; try lia.
Qed.

Lemma wake_asleep c k : asleepOk c k -> asleepOk c (wake c k).
Proof.
  intros Hk. unfold wake. destruct (k_status k) eqn:Ek; try done. destruct (woken c k); [|done]. unfold acceptWake.
  destruct (persistErr c) eqn:Ep; [done|]. destruct (Z.ltb_spec (syncedTx c) (k_tx k)); [|done]. intros _. cbn. split; [lia|done].
Qed.

Lemma settle_asleep oc c ks : Forall (asleepOk c) (settle oc <$> ks).
Proof.
  apply Forall_fmap, Forall_true. intros k Hw. exfalso. revert Hw. unfold settle. destruct (k_status k) eqn:E; cbn; try (by rewrite E). by repeat case_match.
Qed.

Lemma step_progress now T count s ev :
  now <= T -> count < 2 ^ 64 - 1 -> sysInv T count s -> progressInv s -> progressInv (step s (now, ev)).
Proof.
  intros HT Hcnt Hinv Hp. pose proof (inv_disk _ _ _ Hinv) as Hd. pose proof (inv_cache _ _ _ Hinv) as Hc.
  assert (forall d c ks, diskOk T d -> OpenReplayCache (content d) now = Ok c -> Forall (asleepOk c) ks -> progressInv (mkSys (Some c) false d ks)) as Hopen.
  { intros d c ks Hdd Eo Hks ? [= <-]. apply (open_ok now T 0) in Eo as ((_ & _ & Hper & _) & Hf & _); [|done|lia|done]. by split_and!. }
  destruct s as [[c|] st d ks]; cbn [cache disk] in *.
  2:{ destruct ev; try done; cbn. destruct (OpenReplayCache _ now) as [c|e] eqn:Eo; [|done]. apply Hopen; [done|done|apply settle_asleep]. }
  destruct (Hp c eq_refl) as (Hper & Has & Hpr). destruct (Hc c eq_refl) as (_ & _ & _ & Htx & Hcur & _). cbn [stopped cache calls] in *.
  destruct ev as [n io|n|failed|i| |failed|failed| |kept|]; cbn [step cache disk stopped calls].
  - destruct (Accept c d n now io) as [[r c'] d'] eqn:E. destruct (Accept_file _ _ _ _ _ _ _ _ Hper E) as (A1 & A2 & A3 & A4 & A5).
    intros ? [= <-]. split_and!; [by rewrite (proj1 A1)| |].
    + cbn [calls]. apply Forall_app. split; [by eapply announced_asleep|]. apply Forall_singleton. intros Hw. destruct r as [[] ?|tx]; try done.
      cbn. split; [lia|]. intros _. destruct (A5 tx eq_refl) as (-> & -> & ->). split; [done|]. rewrite u64_id by (unfold is_u64; lia). lia.
    + cbn [stopped]. destruct st; [|by apply A4]. destruct (persistErr c) eqn:Ep.
      * intros Hn. assert (c' = c) as -> by (unfold Accept in E; rewrite Ep in E; destruct (closed c); congruence). congruence.
      * destruct (Hpr eq_refl) as [Hcl Hs]. intros _. by rewrite A3.
  - unfold Check, evict. destruct (evictLoop _ now _ _) as [m q]. by intros ? [= <-].
  - destruct st; [done|]. destruct (groupCommit c d failed) as [c' d'] eqn:E.
    apply groupCommit_progress in E as (G1 & G2 & G3 & _ & G4 & G5 & G6); [|done]. intros ? [= <-]. cbn [stopped calls].
    split_and!; [by rewrite (proj1 G1)|by eapply announced_asleep|]. intros Hn. rewrite G3. by apply Hpr, G5.
  - intros ? [= <-]. cbn [calls stopped]. split_and!; [done| |done]. apply Forall_alter; [done|]. intros k _. apply wake_asleep.
  - intros ? [= <-]. split_and!; [done|exact Has|]. cbn. intros Hn. specialize (Hpr Hn). destruct st; [|done]. split; [done|apply Hpr].
  - destruct (closed c) eqn:Ecl, st; cbn [andb negb]; try done.
    destruct (groupCommit c d failed) as [c' d'] eqn:E.
    apply groupCommit_progress in E as (G1 & G2 & G3 & _ & G4 & G5 & G6); [|done]. intros ? [= <-]. cbn [stopped calls].
    split_and!; [by rewrite (proj1 G1)|by eapply announced_asleep|]. intros Hn. split; [congruence|]. apply G4; [lia| |done]. by apply Hpr, G5.
  - destruct st; [|done]. unfold closeEnd. destruct (file c); intros ? [= <-]; split_and!; done.
  - done.
  - done.
  - destruct (st && negb (file c)); [|done]. destruct (OpenReplayCache _ now) as [c'|e] eqn:Eo; [|done]. apply Hopen; [done|done|apply settle_asleep].
Qed.

Lemma run_progress evs T count s :
  0 <= T -> 0 <= count -> count + len evs < 2 ^ 64 -> Forall clockOk evs -> sysInv T count s -> progressInv s ->
  progressInv (run s evs) /\ sysInv (latest T evs) (count + len evs) (run s evs).
Proof.
  intros HT Hcnt Hlen Hck Hinv Hp. split; [|by apply replayRun_inv]. revert T count s HT Hcnt Hlen Hck Hinv Hp.
  induction evs as [|[t ev] evs IH]; intros T count s HT Hcnt Hlen Hck Hinv Hp; [done|].
  apply Forall_cons in Hck as [Ht Hck]. unfold clockOk in Ht. cbn [fst] in Ht. rewrite len_cons in *.
  assert (sysInv (Z.max T t) count s) as Hinv' by (eapply sysInv_later; [| |done]; lia).
  apply (IH (Z.max T t) (count + 1)); [lia|lia|lia|done|apply step_inv; done || lia|]. by apply (step_progress t (Z.max T t) count); [lia|lia|..].
Qed.

(** C10: no caller of a persistent [Accept] waits for ever: a call that sleeps in
    [cond.Wait] goes on only after a [Broadcast], and in every reachable state
    (clock readings from 1970 to 2116 in any order, fewer than 2^64 events) one
    round of the commit loop, whether its sync succeeds or fails, has every
    waiting call return when it is scheduled next; once [Close] has stopped the
    loop, every call still waiting returns when it is scheduled. *)
Theorem replay_cache_waiters evs now c i k :
  Forall clockOk evs -> len evs < 2 ^ 64 ->
  cache (run initial evs) = Some c -> calls (run initial evs) !! i = Some k -> k_status k = Waiting ->
  let returns s := exists k', calls (step s (now, EWake i)) !! i = Some k' /\ k_status k' <> Waiting in
  if stopped (run initial evs) then returns (run initial evs)
  else forall failed, returns (step (run initial evs) (now, ETick failed)).
Proof.
  intros Hck Hlen Hc Hi Hw returns.
  destruct (run_progress evs 0 0 initial) as (Hp & Hinv); [done|done|lia|done|apply initial_inv|done|].
  set (s := run initial evs) in *. destruct (Hp c Hc) as (Hper & Has & Hpr).
  pose proof (Forall_lookup_1 _ _ _ _ (inv_calls _ _ _ Hinv) Hi) as (_ & B2 & _).
  destruct (B2 Hw) as (c0 & Ec & Htx). assert (c0 = c) as -> by congruence.
  destruct (inv_cache _ _ _ Hinv c Hc) as (_ & _ & _ & Hsy & _). destruct (Forall_lookup_1 _ _ _ _ Has Hi Hw) as [A1 A2].
  assert (forall s' c', cache s' = Some c' -> calls s' = calls s -> broadcasts c' > k_seen k -> is_Some (persistErr c') \/ k_tx k <= syncedTx c' -> returns s') as Hret.
  { intros s' c' Hc' Hcalls Hb Hor. unfold returns, step. rewrite Hc'. cbn [calls]. rewrite list_lookup_alter_eq, Hcalls, Hi. eexists. split; [done|].
    unfold wake, woken, acceptWake. rewrite Hw, (proj2 (Z.ltb_lt _ _)) by lia. destruct (persistErr c') as [e|]; [done|]. destruct Hor as [[? ?]|Hle]; [done|]. by rewrite (proj2 (Z.ltb_ge _ _)) by lia. }
  destruct (stopped s) eqn:Est.
  - destruct (persistErr c) eqn:Ep; [apply (Hret s c); [done|done| |left; by eexists]|destruct (Hpr eq_refl) as [_ Hs]; apply (Hret s c); [done|done| |right; lia]].
    + destruct (decide (k_seen k = broadcasts c)) as [E|]; [by destruct (A2 E)|lia].
    + destruct (decide (k_seen k = broadcasts c)) as [E|]; [destruct (A2 E); lia|lia].
  - intros failed. unfold step at 1. rewrite Hc, Est. destruct (groupCommit c (disk s) failed) as [c' d'] eqn:E.
    apply groupCommit_progress in E as ((_ & G0 & _) & G2 & G3 & GB & G4 & G5 & G6); [|done]. apply (Hret _ c'); [done|done| |].
    + destruct (decide (k_seen k = broadcasts c)) as [E|]; [|lia]. destruct (A2 E) as [Hn Hlt]. specialize (GB ltac:(lia) (Hpr Hn)). lia.
    + destruct (persistErr c') eqn:Ep; [left; by eexists|right]. specialize (G5 eq_refl). specialize (Hpr G5). rewrite G4; [lia|lia|done|done].
Qed.
End Runs.

(** ** Witnesses *)

(** Two calls 180 seconds apart, with a machine crash after the first. *)
Definition demoRun : list (Z * event) :=
  [(0, EOpen); (5 * second, EAccept (bs "n") (mkIO Compacted None)); (6 * second, ETick false); (6 * second, EWake 0);
   (7 * second, ECrash 0); (8 * second, EOpen); (9 * second, EAccept (bs "n") (mkIO Compacted None));
   (185 * second, EAccept (bs "n") (mkIO Compacted None)); (186 * second, ETick false); (186 * second, EWake 2)].

Lemma demoRun_calls : calls (run initial demoRun) =
  [mkCall (bs "n") (5 * second) 1 Accepted 0; mkCall (bs "n") (9 * second) 0 Refused 0;
   mkCall (bs "n") (185 * second) 1 Accepted 0].
Proof. vm_compute. reflexivity. Qed.

Lemma demoRun_clocks : Forall clockOk demoRun /\ len demoRun < 2 ^ 64.
Proof. split; [|cbn; lia]. unfold demoRun, clockOk, second. repeat constructor; cbn; lia. Qed.

(** The second call is the eighth event. *)
Lemma replay_cache_durable_witness : Exists (fun te => (5 * second + 2 * MaxClockSkew) / second * second <= te.1) (take 8 demoRun).
Proof.
  apply (replay_cache_durable demoRun 8 0 2 (mkCall (bs "n") (5 * second) 1 Accepted 0)
    (mkCall (bs "n") (185 * second) 1 Accepted 0)).
  - apply demoRun_clocks.
  - apply demoRun_clocks.
  - lia.
  - by rewrite demoRun_calls.
  - by rewrite demoRun_calls.
  - reflexivity.
  - reflexivity.
  - reflexivity.
  - vm_compute. lia.
Defined.

Lemma replay_cache_waiters_witness :
  exists k', calls (step (step (run initial (take 2 demoRun)) (6 * second, ETick true)) (6 * second, EWake 0)) !! 0%nat = Some k' /\
    k_status k' <> Waiting.
Proof.
  assert (exists c, cache (run initial (take 2 demoRun)) = Some c) as [c Hc] by (vm_compute; by eexists).
  refine (replay_cache_waiters (take 2 demoRun) (6 * second) c 0 (mkCall (bs "n") (5 * second) 1 Waiting 0)
    _ _ Hc _ _ true).
  - apply Forall_take, demoRun_clocks.
  - cbn. lia.
  - vm_compute. reflexivity.
  - reflexivity.
Defined.
