(* ===== verification/Ring.v ===== *)
(** * Ring buffers

    The contents of a slice used as a ring: [count] elements from [head] on,
    wrapping at the end.  [pkg/client]'s buffered pipe and the packet queue of
    [integration/mihomo_tunnel] are both such rings; the lemmas say what
    reading from the head, writing behind the tail and growing do to the
    contents. *)
From S2P Require Import Prelude.

Open Scope Z_scope.

Section Ring.
  Context {A : Type}.
  Implicit Types buf data : list A.

Definition ring buf (head count : Z) : list A := ztake count (zdrop head buf ++ ztake head buf).

(** [copy(buf[at:], data)] when it fits. *)
Definition overwrite buf (pos : Z) data : list A := ztake pos buf ++ data ++ zdrop (pos + len data) buf.

(** The head and the count of a ring. *)
Definition ringOk buf (head count : Z) : Prop := 0 <= head <= len buf /\ 0 <= count <= len buf.

Lemma len_ring buf head count : ringOk buf head count -> len (ring buf head count) = count.
Proof.
  intros [Hh Hc]. apply len_ztake. rewrite len_app, len_zdrop, len_ztake by lia. lia.
Qed.

Lemma ring_zero buf head : ring buf head 0 = [].
Proof. done. Qed.

(** The ring from index 0. *)
Lemma ring_start data rest : ring (data ++ rest) 0 (len data) = data.
Proof. unfold ring. change (ztake 0 (data ++ rest)) with (@nil A). rewrite app_nil_r. by apply ztake_app. Qed.

(** A ring that does not wrap. *)
Lemma ring_straight buf head count :
  0 <= head -> 0 <= count -> head + count <= len buf -> ring buf head count = ztake count (zdrop head buf).
Proof.
  intros. unfold ring, ztake, zdrop in *. rewrite take_app_le; [done|]. rewrite length_drop. lia.
Qed.

(** A ring that wraps. *)
Lemma ring_wrapped buf head count :
  0 <= head <= len buf -> len buf <= head + count -> count <= len buf ->
  ring buf head count = zdrop head buf ++ ztake (head + count - len buf) buf.
Proof.
  intros. unfold ring, ztake, zdrop. rewrite take_app_ge by (rewrite length_drop; lia).
  rewrite length_drop, take_take. do 2 f_equal. lia.
Qed.

Lemma zdrop_zdrop a b buf : 0 <= a -> 0 <= b -> zdrop b (zdrop a buf) = zdrop (a + b) buf.
Proof. intros. unfold zdrop. rewrite drop_drop. f_equal. lia. Qed.

Lemma ztake_split a b buf : 0 <= a -> 0 <= b -> ztake (a + b) buf = ztake a buf ++ ztake b (zdrop a buf).
Proof.
  intros. unfold ztake, zdrop. rewrite <- (take_drop (Z.to_nat a) (take (Z.to_nat (a + b)) buf)) at 1.
  rewrite take_take, take_drop_commute. f_equal; [f_equal; lia|do 2 f_equal; lia].
Qed.

Lemma zdrop_ztake a b buf : 0 <= a -> 0 <= b -> zdrop a (ztake (a + b) buf) = ztake b (zdrop a buf).
Proof. intros. unfold ztake, zdrop. rewrite take_drop_commute. do 2 f_equal. lia. Qed.

(** Reading [chunk] elements from the head. *)
Lemma ring_read buf head count chunk :
  0 <= head < len buf -> 0 <= chunk <= count -> count <= len buf -> head + chunk <= len buf ->
  ring buf head count =
    ztake chunk (zdrop head buf) ++ ring buf ((head + chunk) mod len buf) (count - chunk).
Proof.
  intros Hh Hc Hn Hw. destruct (Z.eq_dec (head + chunk) (len buf)) as [E|E].
  - rewrite E, Z.mod_same by lia. rewrite ring_wrapped by lia. rewrite ring_straight by lia.
    rewrite (ztake_all chunk) by (rewrite len_zdrop; lia). f_equal. unfold zdrop. rewrite drop_0. f_equal. lia.
  - rewrite Z.mod_small by lia. destruct (Z.le_gt_cases (head + count) (len buf)).
    + rewrite !ring_straight by lia. rewrite <- zdrop_zdrop by lia.
      rewrite <- ztake_split by lia. f_equal. lia.
    + rewrite !ring_wrapped by lia. rewrite <- zdrop_zdrop, app_assoc, ztake_zdrop by lia. do 2 f_equal. lia.
Qed.

Lemma len_overwrite buf pos data :
  0 <= pos -> pos + len data <= len buf -> len (overwrite buf pos data) = len buf.
Proof. intros. unfold overwrite. rewrite !len_app, len_ztake, len_zdrop by lia. lia. Qed.

Lemma ztake_overwrite buf pos data n :
  0 <= n <= pos -> pos <= len buf -> ztake n (overwrite buf pos data) = ztake n buf.
Proof.
  intros. unfold overwrite, ztake. rewrite take_app_le by (rewrite length_take; lia). rewrite take_take. f_equal. lia.
Qed.

Lemma ztake_overwrite_to buf pos data :
  0 <= pos <= len buf -> ztake (pos + len data) (overwrite buf pos data) = ztake pos buf ++ data.
Proof.
  intros. unfold overwrite. rewrite app_assoc. apply ztake_app. rewrite len_app, len_ztake by lia. lia.
Qed.

Lemma zdrop_overwrite buf pos data n :
  0 <= pos -> pos + len data <= n -> n <= len buf -> zdrop n (overwrite buf pos data) = zdrop n buf.
Proof.
  intros. replace n with ((pos + len data) + (n - pos - len data)) at 1 by lia.
  rewrite <- zdrop_zdrop by lia. unfold overwrite. rewrite app_assoc, zdrop_app by (rewrite len_app, len_ztake by lia; lia).
  rewrite zdrop_zdrop by lia. f_equal. lia.
Qed.

(** Writing [data] behind the tail. *)
Lemma ring_write buf head count data (tail := (head + count) mod len buf) :
  0 <= head < len buf -> 0 <= count -> tail + len data <= len buf -> count + len data <= len buf ->
  ring (overwrite buf tail data) head (count + len data) = ring buf head count ++ data.
Proof.
  intros Hh Hc Ht Hn. destruct (Z.lt_ge_cases (head + count) (len buf)) as [Hlt|Hge].
  - unfold tail in *. rewrite Z.mod_small in * by lia.
    rewrite !ring_straight by (rewrite ?len_overwrite; lia).
    rewrite <- !zdrop_ztake by lia. rewrite Z.add_assoc, ztake_overwrite_to by lia.
    unfold zdrop. rewrite drop_app_le; [done|]. unfold ztake. rewrite length_take. lia.
  - assert (tail = head + count - len buf) as E.
    { unfold tail. replace (head + count) with (head + count - len buf + 1 * len buf) by lia.
      rewrite Z.mod_add, Z.mod_small by lia. lia. }
    rewrite !ring_wrapped by (rewrite ?len_overwrite; lia). rewrite len_overwrite by lia.
    rewrite zdrop_overwrite by lia. rewrite <- app_assoc. f_equal.
    replace (head + (count + len data) - len buf) with (tail + len data) by lia.
    rewrite ztake_overwrite_to by lia. by rewrite E.
Qed.

(** Clearing the element that was just read. *)
Lemma ring_clear buf head count x (next := (head + 1) mod len buf) :
  0 <= head < len buf -> 0 < count <= len buf ->
  ring (overwrite buf head [x]) next (count - 1) = ring buf next (count - 1).
Proof.
  intros Hh Hc. assert (len (overwrite buf head [x]) = len buf) as Hl by (apply len_overwrite; cbn; lia).
  unfold next. destruct (Z.eq_dec (head + 1) (len buf)) as [E|E].
  - rewrite E, Z.mod_same by lia. rewrite !ring_straight by lia. unfold zdrop. rewrite !drop_0.
    apply ztake_overwrite; lia.
  - rewrite Z.mod_small by lia. destruct (Z.le_gt_cases (head + 1 + (count - 1)) (len buf)).
    + rewrite !ring_straight by lia. rewrite zdrop_overwrite by (cbn; lia). done.
    + rewrite !ring_wrapped by lia. rewrite zdrop_overwrite by (cbn; lia). rewrite Hl, ztake_overwrite by lia. done.
Qed.

(** The elements by index. *)
Lemma ring_indexed (d : A) buf head n :
  0 <= head < len buf -> Z.of_nat n <= len buf ->
  (fun i => default d (buf !! Z.to_nat ((head + Z.of_nat i) mod len buf))) <$> seq 0 n = ring buf head (Z.of_nat n).
Proof.
  revert head. induction n as [|n IH]; intros head Hh Hn; [done|].
  rewrite (ring_read buf head (Z.of_nat (S n)) 1) by lia. cbn [seq fmap list_fmap].
  rewrite Z.add_0_r, Z.mod_small by lia.
  destruct (lookup_lt_is_Some_2 buf (Z.to_nat head) ltac:(lia)) as [x Hx]. rewrite Hx.
  assert (ztake 1 (zdrop head buf) = [x]) as ->.
  { unfold ztake, zdrop. change (Z.to_nat 1) with 1%nat. rewrite (drop_S _ x) by done. cbn [take]. by rewrite take_0. }
  cbn [app default]. f_equal. replace (Z.of_nat (S n) - 1) with (Z.of_nat n) by lia.
  rewrite <- IH by (lia || apply Z.mod_pos_bound; lia). rewrite <- fmap_S_seq, <- list_fmap_compose.
  apply list_fmap_ext. intros i y _. cbn. rewrite Zplus_mod_idemp_l. do 4 f_equal. lia.
Qed.

End Ring.
