(* ===== verification/BufPipe.v ===== *)
(** * The buffered pipe of [pkg/client] (bufpipe.go)

    A bounded pipe between a writing and a reading goroutine: a ring buffer
    that grows up to its capacity, one mutex and one condition variable.  The
    pieces of code between two waits are atomic; a call that would wait
    returns [RBlocks] or [WBlocks] here, and [Read] is called again, or
    [writeResume] continues the write, when the condition is signalled. *)
From S2P Require Import Prelude Ring.

Open Scope Z_scope.

(** ** The code *)

Record bufferedPipe := mkPipe {
  buf : list byte;
  capacity : Z;
  head : Z;
  tail : Z;
  count : Z;
  closed : bool;
  err : option error;
}.

Definition newBufferedPipe (cap : Z) : bufferedPipe :=
  mkPipe [] (if cap <=? 0 then 128 * 1024 else cap) 0 0 0 false None.

Inductive readResult :=
  | RDone (data : list byte) (e : option error)
  | RBlocks.

Inductive writeResult :=
  | WDone (n : Z) (e : option error)
  | WBlocks (written : Z).

(** The copying loop of [Read] into [want] bytes. *)
Fixpoint readLoop (fuel : nat) (p : bufferedPipe) (want : Z) : list byte * bufferedPipe :=
  match fuel with
  | O => ([], p)
  | S f =>
      if (0 <? want) && (0 <? count p) then
        let avail := Z.min (len (buf p) - head p) (count p) in
        let chunk := Z.min want avail in
        let data := ztake chunk (zdrop (head p) (buf p)) in
        let p' := mkPipe (buf p) (capacity p) ((head p + chunk) mod len (buf p)) (tail p) (count p - chunk)
                    (closed p) (err p) in
        let '(rest, p'') := readLoop f p' (want - chunk) in
        (data ++ rest, p'')
      else ([], p)
  end.

(** [Read] into a buffer of [n] bytes. *)
Definition Read (p : bufferedPipe) (n : Z) : readResult * bufferedPipe :=
  if n =? 0 then (RDone [] None, p)
  else if count p =? 0 then
    match err p with
    | Some e => (RDone [] (Some e), p)
    | None => if closed p then (RDone [] (Some EOF), p) else (RBlocks, p)
    end
  else let '(data, p') := readLoop (S (Z.to_nat (count p))) p n in (RDone data None, p').

(** The growing step of [Write], with [remaining] bytes to go. *)
Definition grow (p : bufferedPipe) (remaining : Z) : bufferedPipe :=
  if (len (buf p) <? capacity p) && (len (buf p) <? count p + remaining) then
    let cap := Z.min (capacity p) (Z.max (16 * 1024) (Z.max (len (buf p) * 2) (count p + remaining))) in
    let first := Z.min (count p) (len (buf p) - head p) in
    let old := if 0 <? count p then ztake first (zdrop (head p) (buf p)) ++ ztake (count p - first) (buf p) else [] in
    mkPipe (old ++ replicate (Z.to_nat (cap - len old)) Byte.x00) (capacity p) 0 (count p mod cap) (count p)
      (closed p) (err p)
  else p.

(** One chunk of [Write] behind the tail. *)
Definition putChunk (p : bufferedPipe) (rest : list byte) : Z * bufferedPipe :=
  let space := len (buf p) - count p in
  let avail := Z.min (len (buf p) - tail p) space in
  let chunk := Z.min (len rest) avail in
  (chunk, mkPipe (overwrite (buf p) (tail p) (ztake chunk rest)) (capacity p) (head p)
            ((tail p + chunk) mod len (buf p)) (count p + chunk) (closed p) (err p)).

(** The loop of [Write], [rest] being the bytes that are not yet written. *)
Fixpoint writeLoop (fuel : nat) (p : bufferedPipe) (rest : list byte) (written : Z) : writeResult * bufferedPipe :=
  match fuel with
  | O => (WBlocks written, p)
  | S f =>
      if len rest =? 0 then (WDone written None, p)
      else match err p with
      | Some e => (WDone written (Some e), p)
      | None =>
          if closed p then (WDone written (Some ErrClosedPipe), p)
          else
            let p := grow p (len rest) in
            if count p =? len (buf p) then (WBlocks written, p)
            else
              let '(chunk, p') := putChunk p rest in
              writeLoop f p' (zdrop chunk rest) (written + chunk)
      end
  end.

Definition Write (p : bufferedPipe) (b : list byte) : writeResult * bufferedPipe :=
  if len b =? 0 then (WDone 0 None, p) else writeLoop (S (length b)) p b 0.

(** A write that waited for room is woken: the inner loop tests again, then
    the write goes on. *)
Definition writeResume (p : bufferedPipe) (rest : list byte) (written : Z) : writeResult * bufferedPipe :=
  match err p with
  | Some e => (WDone written (Some e), p)
  | None =>
      if closed p then (WDone written (Some ErrClosedPipe), p)
      else if count p =? len (buf p) then (WBlocks written, p)
      else
        let '(chunk, p') := putChunk p rest in
        writeLoop (S (length rest)) p' (zdrop chunk rest) (written + chunk)
  end.

(** The first error stays. *)
Definition closeWith (p : bufferedPipe) (e : option error) : bufferedPipe :=
  mkPipe (buf p) (capacity p) (head p) (tail p) (count p) true
    (match err p with Some e0 => Some e0 | None => e end).

Definition Reader_CloseWithError (p : bufferedPipe) (e : option error) : bufferedPipe :=
  closeWith p (Some (default ErrClosedPipe e)).
Definition Reader_Close (p : bufferedPipe) : bufferedPipe := Reader_CloseWithError p (Some ErrClosedPipe).
Definition Writer_Close (p : bufferedPipe) : bufferedPipe := closeWith p None.
Definition Writer_CloseWithError (p : bufferedPipe) (e : option error) : bufferedPipe :=
  closeWith p (Some (default EOF e)).

(** ** The specification: a bounded queue of bytes *)

Record queue := mkQueue {
  q_bytes : list byte;
  q_capacity : Z;
  q_closed : bool;
  q_err : option error;
}.

Definition specRead (q : queue) (n : Z) : readResult * queue :=
  if n =? 0 then (RDone [] None, q)
  else if bool_decide (q_bytes q = []) then
    match q_err q with
    | Some e => (RDone [] (Some e), q)
    | None => if q_closed q then (RDone [] (Some EOF), q) else (RBlocks, q)
    end
  else (RDone (ztake n (q_bytes q)) None, mkQueue (zdrop n (q_bytes q)) (q_capacity q) (q_closed q) (q_err q)).

(** Take what fits, then wait if something is left. *)
Definition specWrite (q : queue) (b : list byte) (written : Z) : writeResult * queue :=
  if len b =? 0 then (WDone written None, q)
  else match q_err q with
  | Some e => (WDone written (Some e), q)
  | None =>
      if q_closed q then (WDone written (Some ErrClosedPipe), q)
      else
        let k := Z.min (len b) (q_capacity q - len (q_bytes q)) in
        (if k =? len b then WDone (written + len b) None else WBlocks (written + k),
         mkQueue (q_bytes q ++ ztake k b) (q_capacity q) false None)
  end.

Definition specClose (q : queue) (e : option error) : queue :=
  mkQueue (q_bytes q) (q_capacity q) true (match q_err q with Some e0 => Some e0 | None => e end).

(** ** The invariant and the abstraction *)

Definition pipeOk (p : bufferedPipe) : Prop :=
  0 < capacity p /\ len (buf p) <= capacity p /\ 0 <= count p <= len (buf p) /\
  (if len (buf p) =? 0 then head p = 0 else 0 <= head p < len (buf p)) /\
  tail p = (head p + count p) mod len (buf p).

Definition contents (p : bufferedPipe) : list byte := ring (buf p) (head p) (count p).

Definition abstract (p : bufferedPipe) : queue := mkQueue (contents p) (capacity p) (closed p) (err p).

Lemma pipeOk_new cap : pipeOk (newBufferedPipe cap).
Proof. unfold pipeOk, newBufferedPipe. cbn. destruct (Z.leb_spec cap 0); split_and!; lia || done. Qed.

Lemma pipeOk_ring p : pipeOk p -> ringOk (buf p) (head p) (count p).
Proof. intros (H1 & H2 & H3 & H4 & _). destruct (Z.eqb_spec (len (buf p)) 0); split; lia. Qed.

Lemma len_contents p : pipeOk p -> len (contents p) = count p.
Proof. intros Hp. by apply len_ring, pipeOk_ring. Qed.

Lemma contents_nil p : pipeOk p -> bool_decide (contents p = []) = (count p =? 0).
Proof.
  intros Hp. pose proof (len_contents p Hp) as Hl. destruct (Z.eqb_spec (count p) 0).
  - apply bool_decide_true. apply len_zero. lia.
  - apply bool_decide_false. intros E. rewrite E, len_nil in Hl. lia.
Qed.

(** *** Reading *)

(** [f] changes only the head and the count. *)
Definition sameEnds (p p' : bufferedPipe) : Prop :=
  capacity p' = capacity p /\ closed p' = closed p /\ err p' = err p.

Lemma readLoop_spec fuel p want data p' :
  (Z.to_nat (count p) < fuel)%nat -> 0 <= want -> pipeOk p -> readLoop fuel p want = (data, p') ->
  data = ztake want (contents p) /\ contents p' = zdrop want (contents p) /\ pipeOk p' /\ sameEnds p p'.
Proof.
  revert p want data p'. induction fuel as [|f IH]; intros p want data p' Hf Hw Hp E; [lia|]. cbn [readLoop] in E.
  pose proof (len_contents p Hp) as Hl. destruct (Z.ltb_spec 0 want), (Z.ltb_spec 0 (count p)); cbn [andb] in E.
  2,4: injection E as <- <-; assert (contents p = []) as -> by (apply len_zero; lia); unfold ztake, zdrop; rewrite take_nil, drop_nil; done.
  2: injection E as <- <-; assert (want = 0) as -> by lia; done.
  pose proof Hp as (H1 & H2 & H3 & H4 & H5). rewrite (proj2 (Z.eqb_neq _ _)) in H4 by lia.
  set (chunk := Z.min want (Z.min (len (buf p) - head p) (count p))) in *.
  assert (0 < chunk <= want /\ chunk <= count p /\ head p + chunk <= len (buf p)) as (Hc1 & Hc2 & Hc3) by lia.
  set (p1 := mkPipe _ _ _ _ _ _ _) in E. destruct (readLoop f p1 (want - chunk)) as [rest p2] eqn:Er. injection E as <- <-.
  assert (pipeOk p1) as Hp1.
  { unfold pipeOk, p1. cbn. rewrite (proj2 (Z.eqb_neq _ _)) by lia. split_and!; try lia.
    rewrite H5, Zplus_mod_idemp_l. f_equal. lia. }
  assert (contents p = ztake chunk (zdrop (head p) (buf p)) ++ contents p1) as Hsplit.
  { unfold contents, p1. cbn. apply ring_read; lia. }
  assert (len (ztake chunk (zdrop (head p) (buf p))) = chunk) as Hlc.
  { apply len_ztake. rewrite len_zdrop by lia. lia. }
  apply IH in Er as (-> & E2 & Hp2 & Hs2); [|cbn; lia|lia|done]. rewrite Hsplit, E2.
  split_and!; [| |done|exact Hs2].
  - unfold ztake at 3. rewrite take_app_ge by lia. unfold ztake at 2. do 2 f_equal. lia.
  - unfold zdrop at 2. rewrite drop_app_ge by lia. unfold zdrop at 1. f_equal. lia.
Qed.

Lemma Read_refines p n :
  pipeOk p -> 0 <= n ->
  fst (Read p n) = fst (specRead (abstract p) n) /\ abstract (snd (Read p n)) = snd (specRead (abstract p) n) /\
  pipeOk (snd (Read p n)) /\ buf (snd (Read p n)) = buf p.
Proof.
  intros Hp Hn. unfold Read, specRead. destruct (Z.eqb_spec n 0); [done|]. cbn [abstract q_bytes q_err q_closed].
  rewrite contents_nil by done. destruct (Z.eqb_spec (count p) 0); [by destruct (err p), (closed p)|].
  assert (forall f q w, buf (readLoop f q w).2 = buf q) as Hbuf.
  { induction f as [|f IH]; intros q w; [done|]. cbn [readLoop]. destruct (_ && _); [|done].
    set (q1 := mkPipe _ _ _ _ _ _ _). specialize (IH q1 (w - Z.min w (Z.min (len (buf q) - head q) (count q)))).
    destruct (readLoop f q1 _). done. }
  specialize (Hbuf (S (Z.to_nat (count p))) p n).
  destruct (readLoop _ p n) as [data p'] eqn:E. cbn [fst snd] in *.
  apply readLoop_spec in E as (-> & E2 & Hp' & (S1 & S2 & S3)); [|lia|lia|done].
  split_and!; [done| |done|done]. unfold abstract. by rewrite E2, S1, S2, S3.
Qed.

(** *** Writing *)

(** The contents of a ring in two pieces. *)
Lemma ring_pieces (b : list byte) h c :
  0 <= h -> h < len b -> 0 < c <= len b ->
  ztake (Z.min c (len b - h)) (zdrop h b) ++ ztake (c - Z.min c (len b - h)) b = ring b h c.
Proof.
  intros. destruct (Z.le_gt_cases (h + c) (len b)).
  - rewrite Z.min_l, Z.sub_diag, app_nil_r, ring_straight by lia. done.
  - rewrite Z.min_r, ring_wrapped by lia. rewrite ztake_all by (rewrite len_zdrop; lia). do 2 f_equal. lia.
Qed.

Lemma grow_spec p remaining :
  pipeOk p -> 0 < remaining ->
  let p' := grow p remaining in
  abstract p' = abstract p /\ pipeOk p' /\
  (len (buf p') = capacity p \/ count p + remaining <= len (buf p')) /\ 0 < len (buf p').
Proof.
  intros Hp Hr. pose proof Hp as (H1 & H2 & H3 & H4 & H5). unfold grow.
  destruct (Z.ltb_spec (len (buf p)) (capacity p)), (Z.ltb_spec (len (buf p)) (count p + remaining));
    cbn [andb]; [|split_and!; (done || lia)..].
  set (cap := Z.min (capacity p) _). set (old := if 0 <? count p then _ else _).
  assert (old = contents p) as Hold.
  { unfold old. destruct (Z.ltb_spec 0 (count p)).
    - rewrite (proj2 (Z.eqb_neq _ _)) in H4 by lia. apply ring_pieces; lia.
    - symmetry. apply len_zero. rewrite len_contents by done. lia. }
  rewrite Hold. pose proof (len_contents p Hp) as Hl. clearbody old.
  assert (count p < cap <= capacity p /\ (cap = capacity p \/ count p + remaining <= cap)) as (Hcap & Hroom)
    by (clear H5; unfold cap; lia). clearbody cap.
  assert (len (contents p ++ replicate (Z.to_nat (cap - len (contents p))) Byte.x00) = cap) as Hlen
    by (rewrite len_app, length_replicate; lia).
  split_and!; cbn [buf capacity]; rewrite ?Hlen; [|split_and!|lia|lia].
  - unfold abstract, contents at 1. cbn. f_equal. rewrite <- (ring_start (contents p) (replicate (Z.to_nat (cap - len (contents p))) Byte.x00)) at 3. by rewrite Hl.
  - cbn. lia.
  - cbn [buf capacity]. rewrite Hlen. lia.
  - cbn. lia.
  - cbn [buf count]. rewrite Hlen. lia.
  - cbn [buf head]. rewrite Hlen, (proj2 (Z.eqb_neq _ _)) by lia. lia.
  - cbn [buf head tail count]. rewrite Hlen. done.
Qed.

Lemma putChunk_spec p rest chunk p' :
  pipeOk p -> 0 < len rest -> count p < len (buf p) -> putChunk p rest = (chunk, p') ->
  0 < chunk <= len rest /\ chunk <= len (buf p) - count p /\ contents p' = contents p ++ ztake chunk rest /\
  pipeOk p' /\ sameEnds p p' /\ len (buf p') = len (buf p) /\ count p' = count p + chunk.
Proof.
  intros Hp Hr Hc E. pose proof Hp as (H1 & H2 & H3 & H4 & H5). rewrite (proj2 (Z.eqb_neq _ _)) in H4 by lia.
  unfold putChunk in E. injection E as E <-. rewrite E.
  assert (0 <= tail p < len (buf p)) by (rewrite H5; apply Z.mod_pos_bound; lia).
  assert (len (ztake chunk rest) = chunk) as Hlc by (apply len_ztake; lia).
  assert (len (overwrite (buf p) (tail p) (ztake chunk rest)) = len (buf p)) as Hlb by (apply len_overwrite; lia).
  split_and!; [lia|lia|lia| | |done|done|done].
  - unfold contents. cbn. rewrite H5. rewrite <- Hlc at 2. apply ring_write; rewrite <- ?H5; lia.
  - unfold pipeOk. cbn [buf capacity head tail count]. rewrite Hlb, (proj2 (Z.eqb_neq _ _)) by lia.
    split_and!; try lia. rewrite H5, Zplus_mod_idemp_l. f_equal. lia.
Qed.

Lemma pipeWriteLoop_spec fuel p rest written :
  (length rest < fuel)%nat -> pipeOk p ->
  fst (writeLoop fuel p rest written) = fst (specWrite (abstract p) rest written) /\
  abstract (snd (writeLoop fuel p rest written)) = snd (specWrite (abstract p) rest written) /\
  pipeOk (snd (writeLoop fuel p rest written)) /\
  (forall w, fst (writeLoop fuel p rest written) = WBlocks w ->
     len (buf (snd (writeLoop fuel p rest written))) = capacity p).
Proof.
  revert p rest written. induction fuel as [|f IH]; intros p rest written Hf Hp; [lia|]. cbn [writeLoop].
  unfold specWrite. cbn [abstract q_bytes q_err q_closed q_capacity].
  destruct (Z.eqb_spec (len rest) 0) as [Hz|Hz]; [done|].
  destruct (err p) as [e|] eqn:Ee; [done|]. destruct (closed p) eqn:Ec; [done|].
  destruct (grow_spec p (len rest) Hp ltac:(lia)) as (Ga & Gp & Gl & G0). set (p1 := grow p (len rest)) in *.
  assert (contents p1 = contents p /\ capacity p1 = capacity p /\ closed p1 = false /\ err p1 = None)
    as (C1 & C2 & C3 & C4) by (unfold abstract in Ga; rewrite Ee, Ec in Ga; by simplify_eq).
  pose proof (len_contents p1 Gp) as Hl1. pose proof (len_contents p Hp) as Hl. rewrite C1 in Hl1.
  pose proof Gp as (_ & P2 & P3 & _). destruct (Z.eqb_spec (count p1) (len (buf p1))) as [Hfull|Hroom].
  - assert (len (buf p1) = capacity p) by lia. cbn [fst snd]. rewrite Z.min_r, (proj2 (Z.eqb_neq _ _)) by lia.
    replace (capacity p - len (contents p)) with 0 by lia. rewrite Z.add_0_r, app_nil_r.
    split_and!; [done| |done|done]. unfold abstract. by rewrite C1, C2, C3, C4.
  - destruct (putChunk p1 rest) as [chunk p2] eqn:Ep.
    apply putChunk_spec in Ep as (Q1 & Q2 & Q3 & Q4 & (S1 & S2 & S3) & Q6 & Q7); [|done|lia|lia].
    assert (len (zdrop chunk rest) = len rest - chunk) as Hld by (apply len_zdrop; lia).
    destruct (IH p2 (zdrop chunk rest) (written + chunk)) as (I1 & I2 & I3 & I4); [lia|done|].
    rewrite S1, C2 in I4. split_and!; [| |done|done]; [rewrite I1|rewrite I2]; clear I1 I2 I3 I4;
      unfold specWrite; cbn [abstract q_bytes q_err q_closed q_capacity]; rewrite S1, S2, S3, C2, C3, C4, Q3, C1, Hld;
      rewrite len_app, len_ztake by lia.
    + destruct (Z.eqb_spec (len rest - chunk) 0).
      * rewrite Z.min_l, Z.eqb_refl by lia. cbn [fst]. f_equal. lia.
      * cbn [fst]. destruct (Z.le_gt_cases (len rest) (capacity p - len (contents p))).
        -- rewrite !Z.min_l, !Z.eqb_refl by lia. f_equal. lia.
        -- rewrite !Z.min_r, !(proj2 (Z.eqb_neq _ _)) by lia. f_equal. lia.
    + destruct (Z.eqb_spec (len rest - chunk) 0).
      * cbn [snd]. unfold abstract. rewrite S1, S2, S3, C2, C3, C4, Q3, C1. do 2 f_equal. rewrite Z.min_l by lia. f_equal. lia.
      * cbn [snd]. rewrite <- app_assoc. do 2 f_equal.
        set (k := Z.min (len rest - chunk) _). replace (Z.min (len rest) _) with (chunk + k) by lia.
        symmetry. apply ztake_split; lia.
Qed.

Lemma Write_refines p b :
  pipeOk p ->
  fst (Write p b) = fst (specWrite (abstract p) b 0) /\ abstract (snd (Write p b)) = snd (specWrite (abstract p) b 0) /\
  pipeOk (snd (Write p b)) /\
  (forall w, fst (Write p b) = WBlocks w -> len (buf (snd (Write p b))) = capacity p).
Proof.
  intros Hp. unfold Write. destruct (Z.eqb_spec (len b) 0) as [E|E].
  - unfold specWrite. by rewrite E.
  - apply pipeWriteLoop_spec; [lia|done].
Qed.

(** A woken write, when the buffer had grown to the capacity. *)
Lemma writeResume_refines p rest written :
  pipeOk p -> len (buf p) = capacity p -> 0 < len rest ->
  fst (writeResume p rest written) = fst (specWrite (abstract p) rest written) /\
  abstract (snd (writeResume p rest written)) = snd (specWrite (abstract p) rest written) /\
  pipeOk (snd (writeResume p rest written)) /\
  (forall w, fst (writeResume p rest written) = WBlocks w ->
     len (buf (snd (writeResume p rest written))) = capacity p).
Proof.
  intros Hp Hb Hr.
  assert (writeResume p rest written = writeLoop (S (S (length rest))) p rest written) as ->.
  { unfold writeResume. cbn [writeLoop]. rewrite (proj2 (Z.eqb_neq (len rest) 0)) by lia.
    replace (grow p (len rest)) with p; [done|]. unfold grow. by rewrite (proj2 (Z.ltb_ge _ _)) by lia. }
  apply pipeWriteLoop_spec; [lia|done].
Qed.

(** ** Runs: one reading and one writing goroutine *)

(** What the two goroutines use. *)
Class Pipe (S : Type) := {
  pipeRead : S -> Z -> readResult * S;
  pipeWrite : S -> list byte -> writeResult * S;
  pipeResume : S -> list byte -> Z -> writeResult * S;
  pipeClose : S -> option error -> S;
}.

#[export] Instance bufferedPipe_Pipe : Pipe bufferedPipe :=
  {| pipeRead := Read; pipeWrite := Write; pipeResume := writeResume; pipeClose := closeWith |}.

#[export] Instance queue_Pipe : Pipe queue :=
  {| pipeRead := specRead; pipeWrite := fun q b => specWrite q b 0; pipeResume := specWrite; pipeClose := specClose |}.

Inductive pipeOp :=
  | ORead (n : Z)
  | OWrite (b : list byte)
  | OWake                               (* the waiting write is scheduled *)
  | OReaderClose (e : option error)
  | OWriterClose
  | OWriterCloseWithError (e : option error).

Inductive answer :=
  | ARead (r : readResult)
  | AWrite (w : writeResult)
  | ADone.

(** What is left of a write that waits. *)
Definition waiting (b : list byte) (before : Z) (w : writeResult) : option (list byte * Z) :=
  match w with
  | WBlocks n => Some (zdrop (n - before) b, n)
  | WDone _ _ => None
  end.

Section Run.
  Context {S : Type} `{Pipe S}.

Definition pipeStep (s : S) (pending : option (list byte * Z)) (op : pipeOp)
  : answer * S * option (list byte * Z) :=
  match op, pending with
  | ORead n, _ => let '(r, s') := pipeRead s n in (ARead r, s', pending)
  | OWrite b, None => let '(w, s') := pipeWrite s b in (AWrite w, s', waiting b 0 w)
  | OWrite _, Some _ => (ADone, s, pending)     (* the writer is waiting *)
  | OWake, Some (rest, written) =>
      let '(w, s') := pipeResume s rest written in (AWrite w, s', waiting rest written w)
  | OWake, None => (ADone, s, None)
  | OReaderClose e, _ => (ADone, pipeClose s (Some (default ErrClosedPipe e)), pending)
  | OWriterClose, _ => (ADone, pipeClose s None, pending)
  | OWriterCloseWithError e, _ => (ADone, pipeClose s (Some (default EOF e)), pending)
  end.

Fixpoint pipeRun (s : S) (pending : option (list byte * Z)) (ops : list pipeOp) : list answer * S :=
  match ops with
  | [] => ([], s)
  | op :: rest =>
      let '(a, s', pending') := pipeStep s pending op in
      let '(l, s'') := pipeRun s' pending' rest in
      (a :: l, s'')
  end.
End Run.

(** A waiting write has bytes left and found the buffer at its capacity. *)
Definition pendingOk (p : bufferedPipe) (pending : option (list byte * Z)) : Prop :=
  match pending with
  | None => True
  | Some (rest, _) => 0 < len rest /\ len (buf p) = capacity p
  end.

Lemma specWrite_capacity q b written :
  q_capacity (snd (specWrite q b written)) = q_capacity q.
Proof. unfold specWrite. by repeat case_match. Qed.

Lemma waiting_ok p p' b before w :
  capacity p' = capacity p -> w = fst (specWrite (abstract p) b before) ->
  len (contents p) <= capacity p -> (forall n, w = WBlocks n -> len (buf p') = capacity p) ->
  pendingOk p' (waiting b before w).
Proof.
  intros Ec E Hle Hb. destruct w as [n e|n]; [done|]. cbn [waiting pendingOk].
  rewrite (Hb n eq_refl), Ec. split; [|done].
  unfold specWrite in E. cbn [abstract q_bytes q_err q_closed q_capacity] in E.
  repeat case_match; bool_to_prop; try done. injection E as ->. rewrite len_zdrop by lia. lia.
Qed.

Lemma pipeStep_refines p pending op :
  pipeOk p -> pendingOk p pending -> (forall n, op = ORead n -> 0 <= n) ->
  let '(a, p', pending') := pipeStep p pending op in
  pipeStep (abstract p) pending op = (a, abstract p', pending') /\ pipeOk p' /\ pendingOk p' pending'.
Proof.
  intros Hp Hw Hn. pose proof (len_contents p Hp) as Hl. pose proof Hp as (_ & Hle & Hc & _).
  assert (forall e, pipeOk (closeWith p e) /\ abstract (closeWith p e) = specClose (abstract p) e) as Hclose by done.
  destruct op as [n|b| |e| |e]; cbn [pipeStep pipeRead pipeWrite pipeResume pipeClose bufferedPipe_Pipe queue_Pipe].
  - destruct (Read_refines p n Hp (Hn n eq_refl)) as (R1 & R2 & R3 & R4).
    assert (capacity (Read p n).2 = capacity p) as Hcap.
    { apply (f_equal q_capacity) in R2. cbn [abstract q_capacity] in R2. rewrite R2.
      unfold specRead. by repeat case_match. }
    destruct (Read p n) as [r p']. destruct (specRead (abstract p) n) as [r' q']. cbn [fst snd] in *. subst.
    split_and!; [done|done|]. destruct pending as [[rest w]|]; [|done]. cbn [pendingOk] in *. by rewrite R4, Hcap.
  - destruct pending as [[rest w]|]; [done|]. destruct (Write_refines p b Hp) as (R1 & R2 & R3 & R4).
    pose proof (specWrite_capacity (abstract p) b 0) as Hcap. rewrite <- R2 in Hcap.
    pose proof (waiting_ok p (Write p b).2 b 0 _ Hcap R1 ltac:(lia) R4) as Hok.
    destruct (Write p b) as [w p']. destruct (specWrite (abstract p) b 0) as [w' q']. cbn [fst snd] in *. by subst.
  - destruct pending as [[rest written]|]; [|done]. destruct Hw as [Hr Hb].
    destruct (writeResume_refines p rest written Hp Hb Hr) as (R1 & R2 & R3 & R4).
    pose proof (specWrite_capacity (abstract p) rest written) as Hcap. rewrite <- R2 in Hcap.
    pose proof (waiting_ok p (writeResume p rest written).2 rest written _ Hcap R1 ltac:(lia) R4) as Hok.
    destruct (writeResume p rest written) as [w p']. destruct (specWrite (abstract p) rest written) as [w' q'].
    cbn [fst snd] in *. by subst.
  - destruct (Hclose (Some (default ErrClosedPipe e))) as [H1 H2]. rewrite H2. split_and!; [done|done|by destruct pending as [[]|]].
  - destruct (Hclose None) as [H1 H2]. rewrite H2. split_and!; [done|done|by destruct pending as [[]|]].
  - destruct (Hclose (Some (default EOF e))) as [H1 H2]. rewrite H2. split_and!; [done|done|by destruct pending as [[]|]].
Qed.

Definition readsOk (ops : list pipeOp) : Prop := Forall (fun op => forall n, op = ORead n -> 0 <= n) ops.

Lemma pipeRun_refines ops p pending :
  pipeOk p -> pendingOk p pending -> readsOk ops ->
  pipeRun (abstract p) pending ops = (fst (pipeRun p pending ops), abstract (snd (pipeRun p pending ops))) /\
  pipeOk (snd (pipeRun p pending ops)).
Proof.
  intros Hp Hw Hn. revert p pending Hp Hw. induction Hn as [|op ops Hop Hn IH]; intros p pending Hp Hw; [done|].
  cbn [pipeRun]. pose proof (pipeStep_refines p pending op Hp Hw Hop) as Hs.
  destruct (pipeStep p pending op) as [[a p'] pending']. destruct Hs as (-> & Hp' & Hw').
  destruct (IH p' pending' Hp' Hw') as [-> Hf]. by destruct (pipeRun p' pending' ops).
Qed.

(** C36: the growing ring buffer answers every interleaving of reads, writes,
    wake-ups and closings of one reader and one writer exactly as a queue of
    bytes bounded by the capacity does: bytes come out in order and once, a
    read ends with the error or EOF only when the queue is empty, a write
    waits only when the queue is full; and the buffer never exceeds the
    capacity. *)
Theorem pipe_refines cap ops :
  readsOk ops ->
  let p := newBufferedPipe cap in
  fst (pipeRun p None ops) = fst (pipeRun (mkQueue [] (capacity p) false None) None ops) /\
  count (snd (pipeRun p None ops)) <= len (buf (snd (pipeRun p None ops))) <= capacity (snd (pipeRun p None ops)).
Proof.
  intros Hn p. destruct (pipeRun_refines ops p None (pipeOk_new cap) I Hn) as [E Hp].
  change (abstract p) with (mkQueue [] (capacity p) false None) in E. rewrite E. split; [done|].
  destruct Hp as (_ & H2 & H3 & _). lia.
Qed.

(** ** Witness *)

Definition pipeDemo : list pipeOp :=
  [OWrite (bs "hello"); ORead 2; OWrite (bs "world"); ORead 3; OWake; OWriterClose; ORead 10; ORead 10].

Lemma pipe_refines_witness :
  fst (pipeRun (newBufferedPipe 6) None pipeDemo) =
    [AWrite (WDone 5 None); ARead (RDone (bs "he") None); AWrite (WBlocks 3); ARead (RDone (bs "llo") None);
     AWrite (WDone 5 None); ADone; ARead (RDone (bs "world") None); ARead (RDone [] (Some EOF))] /\
  fst (pipeRun (newBufferedPipe 6) None pipeDemo) = fst (pipeRun (mkQueue [] 6 false None) None pipeDemo).
Proof.
  split; [vm_compute; reflexivity|]. refine (proj1 (pipe_refines 6 pipeDemo _)).
  unfold readsOk, pipeDemo. repeat (apply Forall_cons; split; [intros n E; try discriminate E; injection E as <-; lia|]).
  apply Forall_nil. exact I.
Defined.
