(* ===== verification/SenderQueue.v ===== *)
(** * The packet queue of [integration/mihomo_tunnel] (chitanda_sender_queue.go)

    Packets that wait for an outbound connection: a ring per association that
    grows from 32 to 8192 slots, a byte limit per association, and a byte
    budget that all associations share.  Packets older than three seconds are
    dropped.  Each queue has its own mutex, while the budget is an atomic
    counter: an operation is cut at each of its accesses to the budget, and
    between two of them the operations on the other queues go on. *)
From S2P Require Import Prelude Ring.

Open Scope Z_scope.

(** ** The code *)

Definition chitandaSenderInitialCapacity : Z := 32.
Definition chitandaSenderMaxCapacity : Z := 8192.
Definition chitandaSenderMaxAge : Z := 3 * 1000000000.
Definition chitandaSenderMaxFlowBytes : Z := 12 * 2 ^ 20.
Definition chitandaSenderGlobalBytes : Z := 64 * 2 ^ 20.
Definition chitandaSenderPacketOverhead : Z := 128.

(** A packet, with the length and the capacity of its data. *)
Record packet := mkPacket {
  pk_id : Z;
  pk_len : Z;
  pk_cap : Z;
}.

Definition chitandaPacketSize (p : packet) : Z :=
  (if pk_len p <? pk_cap p then pk_cap p else pk_len p) + chitandaSenderPacketOverhead.

Record chitandaQueueBudget := mkBudget {
  used : Z;
  limit : Z;
}.

Definition reserve (b : chitandaQueueBudget) (size : Z) : bool * chitandaQueueBudget :=
  if limit b - used b <? size then (false, b) else (true, mkBudget (used b + size) (limit b)).

Definition release (b : chitandaQueueBudget) (size : Z) : chitandaQueueBudget :=
  mkBudget (used b - size) (limit b).

Record chitandaQueuedPacket := mkQueued {
  qp_packet : packet;
  qp_added : Z;
  qp_size : Z;
}.

(** [items] holds [None] where the code stores the zero value. *)
Record chitandaPacketQueue := mkQueue {
  items : list (option chitandaQueuedPacket);
  head : Z;
  qlength : Z;
  bytes : Z;
  closed : bool;
  ready : bool;                       (* a token in the channel *)
  dropped : Z;
}.

Definition emptyItems (n : Z) : list (option chitandaQueuedPacket) := replicate (Z.to_nat n) None.

Definition newChitandaPacketQueue : chitandaPacketQueue :=
  mkQueue (emptyItems chitandaSenderInitialCapacity) 0 0 0 false false 0.

Definition signal (q : chitandaPacketQueue) : chitandaPacketQueue :=
  mkQueue (items q) (head q) (qlength q) (bytes q) (closed q) true (dropped q).

Definition countDropped (n : Z) (q : chitandaPacketQueue) : chitandaPacketQueue :=
  mkQueue (items q) (head q) (qlength q) (bytes q) (closed q) (ready q) (u64 (dropped q + n)).

Definition zeroQueued : chitandaQueuedPacket := mkQueued (mkPacket 0 0 0) 0 0.

(** The item at an index. *)
Definition itemAt (its : list (option chitandaQueuedPacket)) (i : Z) : chitandaQueuedPacket :=
  default zeroQueued (mjoin (its !! Z.to_nat i)).

(** Take the item at the head off, and give its bytes back. *)
Definition takeHead (q : chitandaPacketQueue) (b : chitandaQueueBudget)
  : chitandaQueuedPacket * chitandaPacketQueue * chitandaQueueBudget :=
  let item := itemAt (items q) (head q) in
  (item,
   mkQueue (overwrite (items q) (head q) [None]) ((head q + 1) mod len (items q)) (qlength q - 1)
     (bytes q - qp_size item) (closed q) (ready q) (dropped q),
   release b (qp_size item)).

(** Double the slots when they are all taken. *)
Definition growItems (q : chitandaPacketQueue) : chitandaPacketQueue :=
  if qlength q =? len (items q) then
    let capacity := Z.min (len (items q) * 2) chitandaSenderMaxCapacity in
    let old := (fun i => default None (items q !! Z.to_nat ((head q + Z.of_nat i) mod len (items q))))
                 <$> seq 0 (Z.to_nat (qlength q)) in
    mkQueue (old ++ emptyItems (capacity - len old)) 0 (qlength q) (bytes q) (closed q) (ready q) (dropped q)
  else q.

(** What the goroutine that holds the mutex has still to do: to reserve the bytes
    of a packet, to take [n] more packets for a batch, to empty a closed queue. *)
Inductive work :=
  | WReserve (p : packet) (now : Z) (expired : list packet)
  | WBatch (n : nat) (now : Z) (batch expired : list packet)
  | WClose (taken : list packet).

(** [push] of a packet (compacted by its owner) at time [now], up to the
    reservation: the packets that are dropped and what is left to do. *)
Definition pushBegin (q : chitandaPacketQueue) (b : chitandaQueueBudget) (p : packet) (now : Z)
  : list packet * option work * chitandaPacketQueue * chitandaQueueBudget :=
  if closed q then ([p], None, countDropped 1 q, b)
  else
    let full := qlength q =? chitandaSenderMaxCapacity in
    if full && (now - qp_added (itemAt (items q) (head q)) <=? chitandaSenderMaxAge) then
      ([p], None, countDropped 1 q, b)
    else if full then
      let '(item, q, b) := takeHead q b in ([], Some (WReserve p now [qp_packet item]), countDropped 1 q, b)
    else ([], Some (WReserve p now []), q, b).

(** The rest of [push]. *)
Definition pushReserve (q : chitandaPacketQueue) (b : chitandaQueueBudget) (p : packet) (now : Z) (expired : list packet)
  : list packet * chitandaPacketQueue * chitandaQueueBudget :=
  let size := chitandaPacketSize p in
  let '(ok, b') := if chitandaSenderMaxFlowBytes - bytes q <? size then (false, b) else reserve b size in
  if negb ok then (p :: expired, countDropped 1 q, b)
  else
    let q := growItems q in
    let q := mkQueue (overwrite (items q) ((head q + qlength q) mod len (items q)) [Some (mkQueued p now size)])
               (head q) (qlength q + 1) (bytes q + size) (closed q) (ready q) (dropped q) in
    (expired, signal q, b').

(** [push] with nothing in between. *)
Definition push (q : chitandaPacketQueue) (b : chitandaQueueBudget) (p : packet) (now : Z)
  : list packet * chitandaPacketQueue * chitandaQueueBudget :=
  match pushBegin q b p now with
  | (_, Some (WReserve p now expired), q, b) => pushReserve q b p now expired
  | (ds, _, q, b) => (ds, q, b)
  end.

(** After a removal: wake the next reader, or shrink an empty ring. *)
Definition afterTake (q : chitandaPacketQueue) : chitandaPacketQueue :=
  if 0 <? qlength q then signal q
  else if chitandaSenderInitialCapacity <? len (items q) then
    mkQueue (emptyItems chitandaSenderInitialCapacity) 0 (qlength q) (bytes q) (closed q) (ready q) (dropped q)
  else q.

(** One round of [pop], under the mutex: the packet taken, if any; it is
    returned when fresh, dropped otherwise. *)
Definition popRound (q : chitandaPacketQueue) (b : chitandaQueueBudget) (now : Z)
  : option (packet * bool) * chitandaPacketQueue * chitandaQueueBudget :=
  if qlength q =? 0 then (None, q, b)
  else
    let '(item, q, b) := takeHead q b in
    let q := afterTake q in
    if now - qp_added item <=? chitandaSenderMaxAge then (Some (qp_packet item, true), q, b)
    else (Some (qp_packet item, false), countDropped 1 q, b).

(** [pop] with nothing in between: it loops over the expired packets and reads
    the clock in each round.  The fuel is the number of packets. *)
Fixpoint popLoop (fuel : nat) (q : chitandaPacketQueue) (b : chitandaQueueBudget) (clock : nat -> Z)
  : option packet * list packet * chitandaPacketQueue * chitandaQueueBudget :=
  match fuel with
  | O => (None, [], q, b)
  | S f =>
      match popRound q b (clock 0%nat) with
      | (None, q, b) => (None, [], q, b)
      | (Some (p, true), q, b) => (Some p, [], q, b)
      | (Some (p, false), q, b) => let '(r, ds, q', b') := popLoop f q b (fun k => clock (S k)) in (r, p :: ds, q', b')
      end
  end.

Definition pop (q : chitandaPacketQueue) (b : chitandaQueueBudget) (clock : nat -> Z)
  : option packet * list packet * chitandaPacketQueue * chitandaQueueBudget :=
  popLoop (S (Z.to_nat (qlength q))) q b clock.

(** One round of [popBatch] in steps: it takes the mutex, takes one packet after
    the other, and gives the mutex back. *)
Definition batchSize (max : Z) : Z := if max <=? 0 then 32 else max.

Definition batchBegin (q : chitandaPacketQueue) (max now : Z) : option work :=
  if qlength q =? 0 then None
  else Some (WBatch (Z.to_nat (if batchSize max <? qlength q then batchSize max else qlength q)) now [] []).

Definition batchItem (q : chitandaPacketQueue) (b : chitandaQueueBudget) (n : nat) (now : Z) (batch expired : list packet)
  : list packet * list packet * option work * chitandaPacketQueue * chitandaQueueBudget :=
  match n with
  | O => (batch, expired, None, countDropped (len expired) (afterTake q), b)
  | S n =>
      let '(item, q, b) := takeHead q b in
      if now - qp_added item <=? chitandaSenderMaxAge then
        ([], [], Some (WBatch n now (batch ++ [qp_packet item]) expired), q, b)
      else ([], [], Some (WBatch n now batch (expired ++ [qp_packet item])), q, b)
  end.

(** The same with nothing in between: [n] items, the fresh and the expired. *)
Fixpoint takeBatch (n : nat) (q : chitandaPacketQueue) (b : chitandaQueueBudget) (now : Z)
  : list packet * list packet * chitandaPacketQueue * chitandaQueueBudget :=
  match n with
  | O => ([], [], q, b)
  | S n =>
      let '(item, q, b) := takeHead q b in
      let '(batch, expired, q, b) := takeBatch n q b now in
      if now - qp_added item <=? chitandaSenderMaxAge then (qp_packet item :: batch, expired, q, b)
      else (batch, qp_packet item :: expired, q, b)
  end.

(** One round of [popBatch] with nothing in between; it returns unless the batch
    is empty and the queue is not. *)
Definition batchRound (q : chitandaPacketQueue) (b : chitandaQueueBudget) (max now : Z)
  : list packet * list packet * chitandaPacketQueue * chitandaQueueBudget :=
  let n := Z.min (qlength q) max in
  let '(batch, expired, q, b) := takeBatch (Z.to_nat n) q b now in
  (batch, expired, countDropped (len expired) (afterTake q), b).

Fixpoint popBatchLoop (fuel : nat) (q : chitandaPacketQueue) (b : chitandaQueueBudget) (max now : Z)
  : list packet * list packet * chitandaPacketQueue * chitandaQueueBudget :=
  match fuel with
  | O => ([], [], q, b)
  | S f =>
      if qlength q =? 0 then ([], [], q, b)
      else
        let '(batch, expired, q, b) := batchRound q b max now in
        if 0 <? len batch then (batch, expired, q, b)
        else
          let '(r, ds, q', b') := popBatchLoop f q b max now in
          (r, expired ++ ds, q', b')
  end.

Definition popBatch (q : chitandaPacketQueue) (b : chitandaQueueBudget) (max now : Z)
  : list packet * list packet * chitandaPacketQueue * chitandaQueueBudget :=
  popBatchLoop (S (Z.to_nat (qlength q))) q b (batchSize max) now.

(** [close] in steps. *)
Definition closeBegin (q : chitandaPacketQueue) : chitandaPacketQueue :=
  mkQueue (items q) (head q) (qlength q) (bytes q) true (ready q) (dropped q).

Definition closeItem (q : chitandaPacketQueue) (b : chitandaQueueBudget) (taken : list packet)
  : list packet * option work * chitandaPacketQueue * chitandaQueueBudget :=
  if 0 <? qlength q then
    let '(item, q, b) := takeHead q b in ([], Some (WClose (taken ++ [qp_packet item])), q, b)
  else (taken, None, mkQueue [] (head q) (qlength q) (bytes q) (closed q) (ready q) (dropped q), b).

Fixpoint closeLoop (n : nat) (q : chitandaPacketQueue) (b : chitandaQueueBudget)
  : list packet * chitandaPacketQueue * chitandaQueueBudget :=
  match n with
  | O => ([], q, b)
  | S n =>
      let '(item, q, b) := takeHead q b in
      let '(ds, q, b) := closeLoop n q b in
      (qp_packet item :: ds, q, b)
  end.

Definition close (q : chitandaPacketQueue) (b : chitandaQueueBudget)
  : list packet * chitandaPacketQueue * chitandaQueueBudget :=
  let q := closeBegin q in
  let '(ds, q, b) := closeLoop (Z.to_nat (qlength q)) q b in
  (ds, mkQueue [] (head q) (qlength q) (bytes q) (closed q) (ready q) (dropped q), b).

(** ** The specification: lists of waiting packets *)

Record waitList := mkWait {
  w_items : list chitandaQueuedPacket;
  w_closed : bool;
}.

Definition totalSize (l : list chitandaQueuedPacket) : Z := foldr (fun x n => qp_size x + n) 0 l.

Definition fresh (now : Z) (x : chitandaQueuedPacket) : bool := now - qp_added x <=? chitandaSenderMaxAge.

Inductive senderOp :=
  | SPush (p : packet) (now : Z)
  | SPop (now : Z)
  | SBatch (max now : Z)
  | SClose.

(** What a step hands out and drops, what is left to do, the queue and the budget. *)
Abbreviation outcome Q := (list packet * list packet * option work * Q * chitandaQueueBudget)%type.

(** An operation takes the mutex and goes up to its next access to the budget.  A
    push is refused when the queue is closed or 8192 fresh packets wait; an
    expired oldest one makes room. *)
Definition specBegin (w : waitList) (b : chitandaQueueBudget) (op : senderOp) : outcome waitList :=
  match op with
  | SPush p now =>
      if w_closed w then ([], [p], None, w, b)
      else if len (w_items w) =? chitandaSenderMaxCapacity then
        match w_items w with
        | x :: l =>
            if fresh now x then ([], [p], None, w, b)
            else ([], [], Some (WReserve p now [qp_packet x]), mkWait l false, release b (qp_size x))
        | [] => ([], [], None, w, b)
        end
      else ([], [], Some (WReserve p now []), w, b)
  | SPop now =>
      match w_items w with
      | [] => ([], [], None, w, b)
      | x :: l =>
          if fresh now x then ([qp_packet x], [], None, mkWait l (w_closed w), release b (qp_size x))
          else ([], [qp_packet x], None, mkWait l (w_closed w), release b (qp_size x))
      end
  | SBatch max now =>
      if len (w_items w) =? 0 then ([], [], None, w, b)
      else ([], [], Some (WBatch (length (ztake (batchSize max) (w_items w))) now [] []), w, b)
  | SClose => ([], [], Some (WClose []), mkWait (w_items w) true, b)
  end.

(** A packet is refused when its bytes do not fit. *)
Definition specGo (w : waitList) (b : chitandaQueueBudget) (wk : work) : outcome waitList :=
  match wk with
  | WReserve p now expired =>
      let size := chitandaPacketSize p in
      if (chitandaSenderMaxFlowBytes - totalSize (w_items w) <? size) || (limit b - used b <? size)
      then ([], p :: expired, None, w, b)
      else ([], expired, None, mkWait (w_items w ++ [mkQueued p now size]) (w_closed w), mkBudget (used b + size) (limit b))
  | WBatch n now batch expired =>
      match n, w_items w with
      | O, _ => (batch, expired, None, w, b)
      | S n, x :: l =>
          ([], [], Some (if fresh now x then WBatch n now (batch ++ [qp_packet x]) expired else WBatch n now batch (expired ++ [qp_packet x])),
            mkWait l (w_closed w), release b (qp_size x))
      | S _, [] => ([], [], Some wk, w, b)
      end
  | WClose taken =>
      match w_items w with
      | x :: l => ([], [], Some (WClose (taken ++ [qp_packet x])), mkWait l true, release b (qp_size x))
      | [] => ([], taken, None, w, b)
      end
  end.

(** ** The representation *)

Definition ringRep (q : chitandaPacketQueue) (l : list chitandaQueuedPacket) : Prop :=
  ring (items q) (head q) (qlength q) = Some <$> l /\ qlength q = len l /\ bytes q = totalSize l /\
  0 <= head q < len (items q) /\ len l <= len (items q) <= chitandaSenderMaxCapacity.

(** A closed queue has no slots and no packets, once [close] is through. *)
Definition rep (q : chitandaPacketQueue) (w : waitList) : Prop :=
  closed q = w_closed w /\
  (ringRep q (w_items w) \/ (w_closed w = true /\ w_items w = [] /\ qlength q = 0 /\ bytes q = 0)).

Lemma totalSize_cons x l : totalSize (x :: l) = qp_size x + totalSize l.
Proof. done. Qed.

Lemma totalSize_app l1 l2 : totalSize (l1 ++ l2) = totalSize l1 + totalSize l2.
Proof.
  induction l1 as [|x l1 IH]; [done|]. cbn [app]. rewrite !totalSize_cons, IH. lia.
Qed.

Lemma release_zero b : release b 0 = b.
Proof. destruct b. unfold release. cbn. by rewrite Z.sub_0_r. Qed.

Lemma release_add b m n : release (release b m) n = release b (m + n).
Proof. unfold release. cbn. f_equal. lia. Qed.

Lemma takeHead_rep q b x l :
  ringRep q (x :: l) -> exists q', takeHead q b = (x, q', release b (qp_size x)) /\ ringRep q' l /\
    closed q' = closed q.
Proof.
  intros (R1 & R2 & R3 & R4 & R5). rewrite len_cons in *. rewrite (ring_read _ _ _ 1) in R1 by lia.
  destruct (lookup_lt_is_Some_2 (items q) (Z.to_nat (head q)) ltac:(lia)) as [y Hy].
  assert (ztake 1 (zdrop (head q) (items q)) = [y]) as Hd.
  { unfold ztake, zdrop. change (Z.to_nat 1) with 1%nat. rewrite (drop_S _ y) by done. cbn [take]. by rewrite take_0. }
  rewrite Hd in R1. cbn [app fmap list_fmap] in R1. injection R1 as -> R1.
  assert (itemAt (items q) (head q) = x) as Hi by (unfold itemAt; by rewrite Hy).
  unfold takeHead. rewrite Hi. eexists. split; [done|]. split; [|done]. unfold ringRep. cbn [items head qlength bytes].
  assert (len (overwrite (items q) (head q) [None]) = len (items q)) as Hl by (apply len_overwrite; cbn; lia).
  rewrite ring_clear, R1, Hl by lia. rewrite totalSize_cons in R3.
  split_and!; try lia; [done|apply Z.mod_pos_bound; lia..].
Qed.

Lemma growItems_rep q l :
  ringRep q l -> len l < chitandaSenderMaxCapacity ->
  ringRep (growItems q) l /\ len l < len (items (growItems q)) /\ closed (growItems q) = closed q.
Proof.
  intros Hr Hl. pose proof Hr as (R1 & R2 & R3 & R4 & R5). unfold growItems.
  destruct (Z.eqb_spec (qlength q) (len (items q))) as [E|E]; [|split_and!; [done|lia|done]].
  rewrite (ring_indexed None (items q) (head q) (Z.to_nat (qlength q))) by lia.
  rewrite Z2Nat.id, R1 by lia. set (cap := Z.min _ _). assert (len l < cap <= chitandaSenderMaxCapacity) by lia.
  assert (len ((Some <$> l) ++ emptyItems (cap - len (Some <$> l))) = cap) as Hlen.
  { unfold emptyItems. rewrite len_app, length_replicate, length_fmap. lia. }
  split_and!; [|cbn [items]; lia|done]. unfold ringRep. cbn [items head qlength bytes]. rewrite Hlen.
  split_and!; try (done || lia). rewrite R2, <- (length_fmap Some l). apply ring_start.
Qed.

Lemma append_rep q l x (tail := (head q + qlength q) mod len (items q)) :
  ringRep q l -> len l < len (items q) ->
  ringRep (mkQueue (overwrite (items q) tail [Some x]) (head q) (qlength q + 1) (bytes q + qp_size x)
             (closed q) (ready q) (dropped q)) (l ++ [x]).
Proof.
  intros (R1 & R2 & R3 & R4 & R5) Hl.
  assert (0 <= tail < len (items q)) as Ht by (apply Z.mod_pos_bound; lia).
  assert (len (overwrite (items q) tail [Some x]) = len (items q)) as Hlen by (apply len_overwrite; cbn; lia).
  unfold ringRep. cbn [items head qlength bytes]. rewrite Hlen, len_app, totalSize_app, totalSize_cons, len_cons, len_nil. cbn [totalSize foldr].
  split_and!; try lia.
  rewrite fmap_app. cbn [fmap list_fmap]. rewrite <- R1.
  apply (ring_write (items q) (head q) (qlength q) [Some x]); fold tail; cbn [length]; lia.
Qed.

Lemma rep_open q w : rep q w -> w_closed w = false -> closed q = false /\ ringRep q (w_items w).
Proof. intros [Hc [Hr|[? _]]] E; [by rewrite E in Hc|congruence]. Qed.

Lemma rep_length q w : rep q w -> qlength q = len (w_items w) /\ bytes q = totalSize (w_items w).
Proof. intros [_ [(_ & ? & ? & _)|(_ & -> & -> & ->)]]; done. Qed.

(** A queue with packets has its ring. *)
Lemma rep_cons q x l c : rep q (mkWait (x :: l) c) -> closed q = c /\ ringRep q (x :: l).
Proof. by intros [Hc [Hr|(_ & [=] & _)]]. Qed.

(** Reading the head of a non-empty ring. *)
Lemma itemAt_rep q x l : ringRep q (x :: l) -> itemAt (items q) (head q) = x.
Proof. intros Hr. destruct (takeHead_rep q (mkBudget 0 0) x l Hr) as (q' & E & _). by injection E. Qed.

Lemma countDropped_rep n q l : ringRep q l -> ringRep (countDropped n q) l.
Proof. done. Qed.

Lemma pushReserve_rep q w b p now expired :
  rep q w -> w_closed w = false -> len (w_items w) < chitandaSenderMaxCapacity ->
  let '(ds, q', b') := pushReserve q b p now expired in
  exists w', specGo w b (WReserve p now expired) = ([], ds, None, w', b') /\ rep q' w'.
Proof.
  intros Hrep Hc Hl. destruct (rep_open q w Hrep Hc) as [Hq Hr]. pose proof Hr as (_ & _ & R3 & _). unfold pushReserve, reserve, specGo. rewrite R3. cbv zeta.
  destruct (_ - totalSize (w_items w) <? chitandaPacketSize p); cbn [negb orb]; [by exists w|].
  destruct (limit b - used b <? chitandaPacketSize p); cbn [negb orb]; [by exists w|].
  destruct (growItems_rep q _ Hr Hl) as (G1 & G2 & G3). set (g := growItems q) in *.
  eexists. split; [done|]. split; [cbn; congruence|]. left.
  exact (append_rep g _ (mkQueued p now (chitandaPacketSize p)) G1 G2).
Qed.

Lemma pushBegin_rep q w b p now :
  rep q w ->
  let '(ds, wk, q', b') := pushBegin q b p now in
  exists w', specBegin w b (SPush p now) = ([], ds, wk, w', b') /\ rep q' w'.
Proof.
  intros Hr. unfold pushBegin, specBegin. destruct (w_closed w) eqn:Ec.
  { pose proof Hr as [Hcl _]. rewrite Hcl, Ec. by exists w. }
  destruct (rep_open q w Hr Ec) as [Hcl Hrr]. rewrite Hcl. pose proof Hrr as (_ & R2 & _ & R4 & R5).
  rewrite R2. destruct w as [l c]. cbn [w_items w_closed] in *. subst c.
  destruct (Z.eqb_spec (len l) chitandaSenderMaxCapacity) as [Hfull|Hroom]; cbn [andb]; [|by exists (mkWait l false)].
  destruct l as [|x l]; [done|]. rewrite (itemAt_rep q x l) by done. fold (fresh now x).
  destruct (fresh now x) eqn:Ef; [by exists (mkWait (x :: l) false)|].
  destruct (takeHead_rep q b x l Hrr) as (q1 & -> & H1 & H1c). exists (mkWait l false). split; [done|].
  split; [by cbn; rewrite H1c, Hcl|by left].
Qed.

Lemma afterTake_rep q l : ringRep q l -> ringRep (afterTake q) l /\ closed (afterTake q) = closed q.
Proof.
  intros Hr. pose proof Hr as (R1 & R2 & R3 & R4 & R5). unfold afterTake.
  destruct (Z.ltb_spec 0 (qlength q)); [done|]. destruct (_ <? _); [|done]. split; [|done].
  assert (l = []) as -> by (apply len_zero; lia). unfold ringRep. cbn [items head qlength bytes].
  rewrite R2. split_and!; done.
Qed.

Lemma popRound_rep q w b now :
  rep q w ->
  let '(r, q', b') := popRound q b now in
  exists w', specBegin w b (SPop now) =
      (match r with Some (p, true) => [p] | _ => [] end, match r with Some (p, false) => [p] | _ => [] end, None, w', b') /\ rep q' w' /\
    match w_items w with [] => r = None /\ w' = w | x :: l => r = Some (qp_packet x, fresh now x) /\ w' = mkWait l (w_closed w) end.
Proof.
  intros Hr. unfold popRound, specBegin. destruct (rep_length q w Hr) as [-> _]. destruct w as [[|x l] c]; cbn [w_items w_closed].
  { by exists (mkWait [] c). }
  destruct (rep_cons _ _ _ _ Hr) as [Hcl Hrr]. rewrite len_cons, (proj2 (Z.eqb_neq _ _)) by lia.
  destruct (takeHead_rep q b x l Hrr) as (q1 & -> & H1 & H1c). destruct (afterTake_rep q1 l H1) as [H2 H2c].
  fold (fresh now x). destruct (fresh now x); exists (mkWait l c); (split; [done|]; split; [|done]; split; [cbn; congruence|by left]).
Qed.

Lemma batchBegin_rep q w b max now :
  rep q w ->
  specBegin w b (SBatch max now) = ([], [], batchBegin q max now, w, b).
Proof.
  intros Hr. unfold specBegin, batchBegin. assert (0 < batchSize max) as Hm by (unfold batchSize; destruct (Z.leb_spec max 0); lia). destruct (rep_length q w Hr) as [-> _]. destruct (len (w_items w) =? 0); [done|].
  do 4 f_equal. unfold ztake. rewrite length_take. f_equal. destruct (Z.ltb_spec (batchSize max) (len (w_items w))); [|rewrite Nat2Z.id]; lia.
Qed.

(** What is left to do fits the queue; a closed queue has nothing left. *)
Definition workOk (w : waitList) (wk : option work) : Prop :=
  match wk with
  | None => w_closed w = true -> w_items w = []
  | Some (WReserve _ _ _) => w_closed w = false /\ len (w_items w) < chitandaSenderMaxCapacity
  | Some (WBatch n _ _ _) => (n <= length (w_items w))%nat /\ (w_closed w = true -> w_items w = [])
  | Some (WClose _) => w_closed w = true
  end.

Lemma afterTake_nil q w n : rep q w -> rep (countDropped n (afterTake q)) w.
Proof.
  intros [Hc [Hr|(H1 & H2 & H3 & H4)]].
  - destruct (afterTake_rep q _ Hr) as [H2 H2c]. split; [cbn; congruence|by left].
  - unfold afterTake. rewrite H3. cbn [Z.ltb Z.compare]. destruct (_ <? len (items q)); (split; [done|by right]).
Qed.

Lemma batchItem_rep q w b n now batch expired :
  rep q w -> workOk w (Some (WBatch n now batch expired)) ->
  let '(out, ds, wk, q', b') := batchItem q b n now batch expired in
  exists w', specGo w b (WBatch n now batch expired) = (out, ds, wk, w', b') /\ rep q' w'.
Proof.
  intros Hr [Hn _]. unfold batchItem, specGo. destruct n as [|n]; [exists w; split; [done|by apply afterTake_nil]|].
  destruct w as [[|x l] c]; cbn [w_items w_closed] in *; [cbn in Hn; lia|]. destruct (rep_cons _ _ _ _ Hr) as [Hcl Hrr].
  destruct (takeHead_rep q b x l Hrr) as (q1 & -> & H1 & H1c). fold (fresh now x).
  destruct (fresh now x); exists (mkWait l c); (split; [done|]; split; [cbn; congruence|by left]).
Qed.

Lemma closeItem_rep q w b taken :
  rep q w -> workOk w (Some (WClose taken)) ->
  let '(ds, wk, q', b') := closeItem q b taken in
  exists w', specGo w b (WClose taken) = ([], ds, wk, w', b') /\ rep q' w'.
Proof.
  intros Hr Hc. unfold closeItem, specGo. destruct (rep_length q w Hr) as [Hq Hb]. rewrite Hq. cbn in Hc.
  destruct w as [[|x l] c]; cbn [w_items w_closed] in *.
  { exists (mkWait [] c). split; [done|]. destruct Hr as [Hcl _]. split; [done|]. right. by split_and!. }
  destruct (rep_cons _ _ _ _ Hr) as [Hcl Hrr]. rewrite len_cons, (proj2 (Z.ltb_lt _ _)) by lia.
  destruct (takeHead_rep q b x l Hrr) as (q1 & -> & H1 & H1c). exists (mkWait l true). split; [done|]. split; [cbn; congruence|by left].
Qed.

(** ** Many associations and one budget *)

(** A queue takes up an operation and goes on with it. *)
Class Sender (Q : Type) := {
  sBegin : Q -> chitandaQueueBudget -> senderOp -> outcome Q;
  sGo : Q -> chitandaQueueBudget -> work -> outcome Q;
}.

Definition queueBegin (q : chitandaPacketQueue) (b : chitandaQueueBudget) (op : senderOp) : outcome chitandaPacketQueue :=
  match op with
  | SPush p now => let '(ds, wk, q, b) := pushBegin q b p now in ([], ds, wk, q, b)
  | SPop now =>
      match popRound q b now with
      | (Some (p, true), q, b) => ([p], [], None, q, b)
      | (Some (p, false), q, b) => ([], [p], None, q, b)
      | (None, q, b) => ([], [], None, q, b)
      end
  | SBatch max now => ([], [], batchBegin q max now, q, b)
  | SClose => ([], [], Some (WClose []), closeBegin q, b)
  end.

Definition queueGo (q : chitandaPacketQueue) (b : chitandaQueueBudget) (wk : work) : outcome chitandaPacketQueue :=
  match wk with
  | WReserve p now expired => let '(ds, q, b) := pushReserve q b p now expired in ([], ds, None, q, b)
  | WBatch n now batch expired => batchItem q b n now batch expired
  | WClose taken => let '(ds, wk, q, b) := closeItem q b taken in ([], ds, wk, q, b)
  end.

#[export] Instance queue_Sender : Sender chitandaPacketQueue := {| sBegin := queueBegin; sGo := queueGo |}.
#[export] Instance waitList_Sender : Sender waitList := {| sBegin := specBegin; sGo := specGo |}.

(** An association: its queue, and what the holder of the mutex has still to do. *)
Record assoc (Q : Type) := mkAssoc {
  as_queue : Q;
  as_work : option work;
}.
Arguments mkAssoc {Q}. Arguments as_queue {Q}. Arguments as_work {Q}.

(** All associations, with the packets that were pushed, handed out and dropped,
    in the order in which that was decided. *)
Record senders (Q : Type) := mkSenders {
  s_assocs : list (assoc Q);
  s_budget : chitandaQueueBudget;
  s_pushed : list packet;
  s_delivered : list packet;
  s_dropped : list packet;
}.
Arguments mkSenders {Q}. Arguments s_assocs {Q}. Arguments s_budget {Q}.
Arguments s_pushed {Q}. Arguments s_delivered {Q}. Arguments s_dropped {Q}.

Inductive senderEvent :=
  | EBegin (op : senderOp)
  | EGo.

Definition assocStep {Q} `{Sender Q} (a : assoc Q) (b : chitandaQueueBudget) (ev : senderEvent) : outcome Q :=
  match as_work a, ev with
  | None, EBegin op => sBegin (as_queue a) b op
  | Some wk, EGo => sGo (as_queue a) b wk
  | wk, _ => ([], [], wk, as_queue a, b)
  end.

Definition pushedBy (op : senderOp) : list packet := match op with SPush p _ => [p] | _ => [] end.

Definition assocPush {Q} (a : assoc Q) (ev : senderEvent) : list packet :=
  match as_work a, ev with None, EBegin op => pushedBy op | _, _ => [] end.

(** A step at an association; an operation waits for the mutex. *)
Definition sendersStep {Q} `{Sender Q} (s : senders Q) (iev : nat * senderEvent) : senders Q :=
  match s_assocs s !! iev.1 with
  | None => s
  | Some a =>
      let '(out, ds, wk, q, b) := assocStep a (s_budget s) iev.2 in
      mkSenders (<[iev.1 := mkAssoc q wk]> (s_assocs s)) b (s_pushed s ++ assocPush a iev.2) (s_delivered s ++ out) (s_dropped s ++ ds)
  end.

Definition sendersRun {Q} `{Sender Q} (s : senders Q) (evs : list (nat * senderEvent)) : senders Q :=
  foldl sendersStep s evs.

Definition newSenders {Q} (q : Q) (n : nat) : senders Q :=
  mkSenders (replicate n (mkAssoc q None)) (mkBudget 0 chitandaSenderGlobalBytes) [] [] [].

(** Packets have a length. *)
Definition opOk (op : senderOp) : Prop :=
  match op with
  | SPush p _ => 0 <= pk_len p
  | _ => True
  end.

Definition evOk (ev : senderEvent) : Prop := match ev with EBegin op => opOk op | EGo => True end.

Definition assocRep (a : assoc chitandaPacketQueue) (w : assoc waitList) : Prop :=
  rep (as_queue a) (as_queue w) /\ as_work a = as_work w /\ workOk (as_queue w) (as_work w).

Definition sendersRep (s : senders chitandaPacketQueue) (w : senders waitList) : Prop :=
  Forall2 assocRep (s_assocs s) (s_assocs w) /\ s_budget s = s_budget w /\ s_pushed s = s_pushed w /\
  s_delivered s = s_delivered w /\ s_dropped s = s_dropped w.

(** What is left to do fits the list it is done on. *)
Lemma specBegin_work w b op :
  len (w_items w) <= chitandaSenderMaxCapacity -> workOk w None -> opOk op -> let '(_, _, wk, w', _) := specBegin w b op in workOk w' wk.
Proof.
  intros Hl Hw Ho. destruct op as [p now|now|max now|]; cbn [specBegin].
  - destruct (w_closed w) eqn:Ec; [done|]. destruct (Z.eqb_spec (len (w_items w)) chitandaSenderMaxCapacity) as [E|E]; [|split; [done|lia]].
    destruct (w_items w) as [|x l] eqn:El; [done|]. rewrite len_cons in *. destruct (fresh now x); [intros ?; congruence|]. split; [done|cbn; lia].
  - destruct (w_items w) as [|x l] eqn:El; [done|]. destruct (fresh now x); intros Hc; cbn in *; by apply Hw in Hc; rewrite El in Hc.
  - destruct (len (w_items w) =? 0); [done|]. split; [|done]. unfold ztake. rewrite length_take. lia.
  - done.
Qed.

Lemma specGo_work w b wk : workOk w (Some wk) -> let '(_, _, wk', w', _) := specGo w b wk in workOk w' wk'.
Proof.
  destruct wk as [p now expired|n now batch expired|taken]; cbn [specGo].
  - intros [Hc Hl]. destruct (_ || _); cbn; congruence.
  - intros [Hn Hc]. destruct n as [|n]; [done|]. destruct (w_items w) as [|x l] eqn:El; cbn in Hn; [lia|].
    destruct (fresh now x); (split; [cbn; lia|]); intros H; by apply Hc in H.
  - intros Hc. destruct (w_items w) eqn:El; [by intros _|done].
Qed.

Lemma assocStep_rep a w b ev :
  assocRep a w -> len (w_items (as_queue w)) <= chitandaSenderMaxCapacity -> evOk ev ->
  let '(out, ds, wk, q', b') := assocStep a b ev in
  exists w', assocStep w b ev = (out, ds, wk, w', b') /\ assocRep (mkAssoc q' wk) (mkAssoc w' wk).
Proof.
  intros (Hr & Hwk & Hok) Hl Ho. destruct a as [q wk], w as [w wk0]. cbn [as_queue as_work] in *. subst wk0. unfold assocStep. cbn [as_queue as_work].
  destruct wk as [wk|], ev as [op|]; try (by exists w).
  - pose proof (specGo_work w b wk Hok) as Hwork. cbn [sGo queue_Sender waitList_Sender]. unfold queueGo.
    destruct wk as [p now expired|n now batch expired|taken].
    + destruct Hok as [H1 H2]. pose proof (pushReserve_rep q w b p now expired Hr H1 H2) as Hs. destruct (pushReserve _ _ _ _ _) as [[ds q'] b'].
      destruct Hs as (w' & E & Hr'). exists w'. rewrite E in Hwork. by split_and!.
    + pose proof (batchItem_rep q w b n now batch expired Hr Hok) as Hs. destruct (batchItem _ _ _ _ _ _) as [[[[out ds] wk'] q'] b'].
      destruct Hs as (w' & E & Hr'). exists w'. rewrite E in Hwork. by split_and!.
    + pose proof (closeItem_rep q w b taken Hr Hok) as Hs. destruct (closeItem _ _ _) as [[[ds wk'] q'] b'].
      destruct Hs as (w' & E & Hr'). exists w'. rewrite E in Hwork. by split_and!.
  - pose proof (specBegin_work w b op Hl Hok Ho) as Hwork. cbn [sBegin queue_Sender waitList_Sender]. unfold queueBegin.
    destruct op as [p now|now|max now|].
    + pose proof (pushBegin_rep q w b p now Hr) as Hs. destruct (pushBegin _ _ _ _) as [[[ds wk'] q'] b'].
      destruct Hs as (w' & E & Hr'). exists w'. rewrite E in Hwork. by split_and!.
    + pose proof (popRound_rep q w b now Hr) as Hs. destruct (popRound _ _ _) as [[[[p []]|] q'] b'];
        destruct Hs as (w' & E & Hr' & _); exists w'; rewrite E in Hwork; by split_and!.
    + exists w. rewrite (batchBegin_rep q w b max now Hr) in Hwork |- *. by split_and!.
    + exists (mkWait (w_items w) true). split; [done|]. split; [|by split]. destruct Hr as [_ [Hr|(_ & ? & ? & ?)]]; (split; [done|]); [by left|by right].
Qed.

(** ** Accounting *)

Definition packetsOf (w : waitList) : list packet := qp_packet <$> w_items w.

Definition waitOk (w : waitList) : Prop :=
  Forall (fun x => 0 < qp_size x) (w_items w) /\ totalSize (w_items w) <= chitandaSenderMaxFlowBytes /\
  len (w_items w) <= chitandaSenderMaxCapacity.

Lemma totalSize_nonneg l : Forall (fun x => 0 < qp_size x) l -> 0 <= totalSize l.
Proof. induction 1; [done|]. rewrite totalSize_cons. lia. Qed.

Lemma totalSize_split n l : totalSize l = totalSize (ztake n l) + totalSize (zdrop n l).
Proof. by rewrite <- totalSize_app, ztake_zdrop. Qed.

Lemma filter_perm (f : chitandaQueuedPacket -> bool) l :
  filter (fun x => f x = true) l ++ filter (fun x => f x = false) l ≡ₚ l.
Proof.
  induction l as [|x l IH]; [done|]. rewrite !filter_cons. destruct (f x).
  - rewrite decide_True, decide_False by done. cbn. by rewrite IH.
  - rewrite decide_False, decide_True by done. rewrite <- Permutation_middle. by rewrite IH.
Qed.

(** What the holder of the mutex has in hand. *)
Definition heldBy (wk : option work) : list packet :=
  match wk with
  | None => []
  | Some (WReserve p _ expired) => p :: expired
  | Some (WBatch _ _ batch expired) => batch ++ expired
  | Some (WClose taken) => taken
  end.

(** An association of the specification. *)
Definition assocOk (a : assoc waitList) : Prop :=
  waitOk (as_queue a) /\ match as_work a with Some (WReserve p _ _) => 0 <= pk_len p /\ len (w_items (as_queue a)) < chitandaSenderMaxCapacity | _ => True end.

(** What one step of the specification does to sizes and packets. *)
Definition stepOk (a : assoc waitList) (b : chitandaQueueBudget) (pushed : list packet) (res : outcome waitList) : Prop :=
  let '(out, ds, wk', w', b') := res in
  assocOk (mkAssoc w' wk') /\ limit b' = limit b /\
  used b' - totalSize (w_items w') = used b - totalSize (w_items (as_queue a)) /\
  (used b <= limit b -> used b' <= limit b') /\
  pushed ++ heldBy (as_work a) ++ packetsOf (as_queue a) ≡ₚ out ++ ds ++ heldBy wk' ++ packetsOf w'.

Lemma waitOk_tail x l c c' : waitOk (mkWait (x :: l) c) -> 0 < qp_size x /\ waitOk (mkWait l c').
Proof.
  unfold waitOk. cbn [w_items]. intros ([H1 H2]%Forall_cons & H3 & H4). rewrite totalSize_cons, len_cons in *. split; [done|]. split_and!; [done|lia|lia].
Qed.

Ltac step_ok := unfold stepOk, assocOk, packetsOf; cbn [as_queue as_work w_items used limit release heldBy fmap list_fmap app pushedBy totalSize foldr];
  rewrite ?len_cons; split_and!; try done; try lia.

Lemma specBegin_ok w b op : waitOk w -> opOk op -> stepOk (mkAssoc w None) b (pushedBy op) (specBegin w b op).
Proof.
  intros Hw Ho. destruct w as [l c]. pose proof Hw as (_ & _ & W3). cbn [w_items] in W3. destruct op as [p now|now|max now|]; cbn [specBegin w_items w_closed].
  - destruct c; [step_ok|]. cbn in Ho. destruct (Z.eqb_spec (len l) chitandaSenderMaxCapacity) as [E|E]; [|step_ok].
    destruct l as [|x l]; [done|]. destruct (fresh now x); [step_ok|]. destruct (waitOk_tail x l false false Hw) as [Hx Hl]. rewrite len_cons in *. step_ok.
  - destruct l as [|x l]; [step_ok|]. destruct (waitOk_tail x l c c Hw) as [Hx Hl]. destruct (fresh now x); step_ok.
  - destruct (len l =? 0); step_ok.
  - step_ok.
Qed.

Lemma specGo_ok w b wk : assocOk (mkAssoc w (Some wk)) -> stepOk (mkAssoc w (Some wk)) b [] (specGo w b wk).
Proof.
  intros [Hw Hp]. destruct w as [l c]. cbn [as_queue as_work] in *. destruct wk as [p now expired|n now batch expired|taken]; cbn [specGo w_items w_closed].
  - destruct Hp as [Hp Hl]. cbn [w_items] in Hl. destruct (_ || _) eqn:E; [step_ok|]. bool_to_prop.
    assert (0 < chitandaPacketSize p) as Hsz.
    { unfold chitandaPacketSize, chitandaSenderPacketOverhead. destruct (Z.ltb_spec (pk_len p) (pk_cap p)); lia. }
    destruct Hw as (W1 & W2 & W3). cbn [w_items] in *.
    unfold stepOk, assocOk, waitOk, packetsOf. cbn [as_queue as_work w_items used limit heldBy app].
    rewrite totalSize_app, len_app. change (totalSize [mkQueued p now (chitandaPacketSize p)]) with (chitandaPacketSize p + 0).
    change (len [mkQueued p now (chitandaPacketSize p)]) with 1.
    split_and!; try done; try lia; [apply Forall_app; split; [done|by constructor]|].
    rewrite fmap_app. cbn [fmap list_fmap qp_packet]. rewrite app_assoc. rewrite <- Permutation_cons_append. done.
  - destruct n as [|n]; [step_ok; by rewrite app_assoc|]. destruct l as [|x l]; [step_ok|]. destruct (waitOk_tail x l c c Hw) as [Hx Hl].
    destruct (fresh now x); step_ok; rewrite <- !app_assoc; apply Permutation_app_head; [cbn; by rewrite Permutation_middle|done].
  - destruct l as [|x l]; [step_ok; by rewrite app_nil_r|]. destruct (waitOk_tail x l c true Hw) as [Hx Hl]. step_ok. by rewrite <- app_assoc.
Qed.

Lemma assocStep_ok a b ev : assocOk a -> evOk ev -> stepOk a b (assocPush a ev) (assocStep a b ev).
Proof.
  intros Ha Ho. destruct a as [w [wk|]]; unfold assocStep, assocPush; cbn [as_work as_queue].
  - destruct ev as [op|]; [by split_and!|]. by apply specGo_ok.
  - destruct Ha as [Hw _]. destruct ev as [op|]; [by apply specBegin_ok|by split_and!].
Qed.

(** The sums over all associations. *)
Definition sumSizes (ws : list (assoc waitList)) : Z := foldr (fun a n => totalSize (w_items (as_queue a)) + n) 0 ws.
Definition allPackets (ws : list (assoc waitList)) : list packet := ws ≫= fun a => heldBy (as_work a) ++ packetsOf (as_queue a).

Lemma sumSizes_insert ws i a a' :
  ws !! i = Some a -> sumSizes (<[i := a']> ws) = sumSizes ws - totalSize (w_items (as_queue a)) + totalSize (w_items (as_queue a')).
Proof.
  revert i. induction ws as [|x ws IH]; intros [|i] Hi; [done..|injection Hi as ->; cbn; lia|].
  change (totalSize (w_items (as_queue x)) + sumSizes (<[i := a']> ws) =
    totalSize (w_items (as_queue x)) + sumSizes ws - totalSize (w_items (as_queue a)) + totalSize (w_items (as_queue a'))).
  rewrite (IH i Hi). lia.
Qed.

Lemma allPackets_insert ws i a a' (extra out : list packet) :
  ws !! i = Some a -> extra ++ heldBy (as_work a) ++ packetsOf (as_queue a) ≡ₚ out ++ heldBy (as_work a') ++ packetsOf (as_queue a') ->
  extra ++ allPackets ws ≡ₚ out ++ allPackets (<[i := a']> ws).
Proof.
  revert i. induction ws as [|x ws IH]; intros [|i] Hi Hp; [done..| |].
  - injection Hi as ->. unfold allPackets. cbn. rewrite !(app_assoc _ _ (ws ≫= _)). by rewrite Hp.
  - change (<[S i := a']> (x :: ws)) with (x :: <[i := a']> ws). unfold allPackets in *. cbn [mbind list_bind]. rewrite !(Permutation_app_swap_app _ (heldBy (as_work x) ++ packetsOf (as_queue x))).
    by rewrite (IH i Hi Hp).
Qed.

Record sendersOk (s : senders waitList) : Prop := mkSendersOk {
  so_queues : Forall assocOk (s_assocs s);
  so_used : used (s_budget s) = sumSizes (s_assocs s);
  so_limit : used (s_budget s) <= limit (s_budget s) /\ limit (s_budget s) = chitandaSenderGlobalBytes;
  so_packets : s_pushed s ≡ₚ s_delivered s ++ s_dropped s ++ allPackets (s_assocs s);
}.

Lemma sendersStep_ok s iev : sendersOk s -> evOk iev.2 -> sendersOk (sendersStep s iev).
Proof.
  intros [Q U [L1 L2] P] Ho. destruct iev as [i ev]. unfold sendersStep. cbn [fst snd] in *.
  destruct (s_assocs s !! i) as [a|] eqn:Ei; [|done].
  pose proof (assocStep_ok a (s_budget s) ev (Forall_lookup_1 _ _ _ _ Q Ei) Ho) as Hs.
  destruct (assocStep a (s_budget s) ev) as [[[[out ds] wk'] w'] b']. destruct Hs as (S1 & S2 & S3 & S4 & S5).
  split; cbn [s_assocs s_budget s_pushed s_delivered s_dropped].
  - by apply Forall_insert.
  - rewrite (sumSizes_insert _ i a) by done. cbn [as_queue]. lia.
  - split; [by apply S4|congruence].
  - rewrite (app_assoc out ds) in S5. pose proof (allPackets_insert _ i a (mkAssoc w' wk') _ _ Ei S5) as Ha.
    rewrite P. rewrite <- !app_assoc. rewrite (Permutation_app_comm (allPackets (s_assocs s))), Ha.
    rewrite <- !app_assoc. apply Permutation_app_head. rewrite !app_assoc. apply Permutation_app_tail.
    rewrite <- !app_assoc. apply Permutation_app_swap_app.
Qed.

Lemma sendersStep_rep s w iev :
  sendersRep s w -> sendersOk w -> evOk iev.2 -> sendersRep (sendersStep s iev) (sendersStep w iev).
Proof.
  intros (Hq & Hb & H0 & H1 & H2) Hok Ho. destruct iev as [i ev]. cbn [snd] in Ho. unfold sendersStep. cbn [fst snd].
  destruct (s_assocs s !! i) as [a|] eqn:Ea.
  - destruct (Forall2_lookup_l _ _ _ _ _ Hq Ea) as (w0 & Ew & Hr). rewrite Ew, <- Hb.
    destruct (Forall_lookup_1 _ _ _ _ (so_queues _ Hok) Ew) as [(_ & _ & Hl) _].
    pose proof (assocStep_rep a w0 (s_budget s) ev Hr Hl Ho) as Hs.
    destruct (assocStep a (s_budget s) ev) as [[[[out ds] wk] q'] b']. destruct Hs as (w' & -> & Hr').
    assert (assocPush a ev = assocPush w0 ev) as -> by (destruct Hr as (_ & Hw & _); unfold assocPush; by rewrite Hw).
    split_and!; cbn; [by apply Forall2_insert|done|by rewrite H0|by rewrite H1|by rewrite H2].
  - assert (s_assocs w !! i = None) as ->; [|done].
    apply lookup_ge_None. apply Forall2_length in Hq. apply lookup_ge_None in Ea. lia.
Qed.

Lemma sendersRun_both evs s w :
  sendersRep s w -> sendersOk w -> Forall (fun iev => evOk iev.2) evs ->
  sendersRep (sendersRun s evs) (sendersRun w evs) /\ sendersOk (sendersRun w evs).
Proof.
  intros Hr Hok Ho. revert s w Hr Hok. induction Ho as [|iev evs Hev Ho IH]; intros s w Hr Hok; [done|].
  cbn. apply IH; [by apply sendersStep_rep|by apply sendersStep_ok].
Qed.

Lemma newSenders_rep n : sendersRep (newSenders newChitandaPacketQueue n) (newSenders (mkWait [] false) n).
Proof.
  split_and!; [|done..]. cbn. apply Forall2_replicate. split; [|done]. split; [done|]. left.
  split_and!; [done..| | | |]; vm_compute; done.
Qed.

Lemma newSenders_ok n : sendersOk (newSenders (mkWait [] false) n).
Proof.
  split; cbn [newSenders s_assocs s_budget s_pushed s_delivered s_dropped].
  - apply Forall_replicate. by split_and!.
  - induction n as [|n IH]; [done|]. cbn in *. exact IH.
  - by split.
  - induction n as [|n IH]; [done|]. cbn in *. exact IH.
Qed.

(** C37: the packet queues of any number of associations, with their growing and
    shrinking rings and the byte budget that they share, hand out and drop
    exactly the packets that plain lists of waiting packets do, in the same
    order, under every interleaving of pushes, pops, batches and closings, in
    which the holder of a queue's mutex is overtaken by the other queues at each
    of its accesses to the budget. *)
Theorem sender_queue_refines n evs :
  Forall (fun iev => evOk iev.2) evs ->
  let s := sendersRun (newSenders newChitandaPacketQueue n) evs in
  let w := sendersRun (newSenders (mkWait [] false) n) evs in
  s_delivered s = s_delivered w /\ s_dropped s = s_dropped w /\ s_budget s = s_budget w /\
  Forall2 (fun a b => rep (as_queue a) (as_queue b) /\ as_work a = as_work b) (s_assocs s) (s_assocs w).
Proof.
  intros Ho s w. destruct (sendersRun_both evs _ _ (newSenders_rep n) (newSenders_ok n) Ho) as [(H1 & H2 & H3 & H4 & H5) _].
  split_and!; try done. eapply Forall2_impl; [exact H1|]. by intros a b (? & ? & _).
Qed.

(** the budget is exact and never exceeded: after every step it equals the sum of
    the bytes held by all queues, each queue holds at most 8192 packets and 12
    MiB, all together at most 64 MiB; and no packet is lost or dropped twice: the
    packets pushed are those handed out, those dropped, and those in the queues or
    in the hands of the goroutines that work on them. *)
Theorem sender_queue_accounting n evs :
  Forall (fun iev => evOk iev.2) evs ->
  let s := sendersRun (newSenders newChitandaPacketQueue n) evs in
  used (s_budget s) = foldr Z.add 0 ((fun a => bytes (as_queue a)) <$> s_assocs s) /\ used (s_budget s) <= chitandaSenderGlobalBytes /\
  Forall (fun a => bytes (as_queue a) <= chitandaSenderMaxFlowBytes /\ qlength (as_queue a) <= chitandaSenderMaxCapacity) (s_assocs s) /\
  exists waiting, Forall2 (fun a l => qlength (as_queue a) + len (heldBy (as_work a)) = len l) (s_assocs s) waiting /\
    s_pushed s ≡ₚ s_delivered s ++ s_dropped s ++ concat waiting.
Proof.
  intros Ho s. destruct (sendersRun_both evs _ _ (newSenders_rep n) (newSenders_ok n) Ho) as [(H1 & H2 & H0 & H3 & H4) [Q U [L1 L2] P]].
  set (w := sendersRun (newSenders (mkWait [] false) n) evs) in *. fold s in H0, H1, H2, H3, H4.
  assert (forall a x, assocRep a x -> bytes (as_queue a) = totalSize (w_items (as_queue x)) /\ qlength (as_queue a) = len (w_items (as_queue x)) /\ as_work a = as_work x) as Hrep.
  { intros a x (Hr & Hw & _). by destruct (rep_length _ _ Hr). }
  rewrite H2, H0, H3, H4. split_and!.
  - rewrite U. clear - H1 Hrep. induction H1 as [|q x qs ws Hr _ IH]; [done|].
    change (totalSize (w_items (as_queue x)) + sumSizes ws = bytes (as_queue q) + foldr Z.add 0 ((fun a => bytes (as_queue a)) <$> qs)).
    destruct (Hrep q x Hr) as [-> _]. by rewrite IH.
  - by rewrite <- L2.
  - clear - H1 Q Hrep. induction H1 as [|q x qs ws Hr _ IH]; [done|]. apply Forall_cons in Q as [[(_ & Q1 & Q2) _] Q].
    constructor; [|by apply IH]. by destruct (Hrep q x Hr) as (-> & -> & _).
  - exists ((fun a => heldBy (as_work a) ++ packetsOf (as_queue a)) <$> s_assocs w). split.
    + clear - H1 Hrep. induction H1 as [|q x qs ws Hr _ IH]; [done|]. constructor; [|done].
      unfold packetsOf. rewrite len_app, length_fmap. destruct (Hrep q x Hr) as (_ & -> & ->). lia.
    + rewrite P. unfold allPackets. do 2 apply Permutation_app_head. clear.
      induction (s_assocs w) as [|x l IH]; [done|]. cbn. by rewrite IH.
Qed.

(** ** pop as a whole *)

(** The oldest fresh packet, behind the expired ones; the clock is read for each. *)
Fixpoint firstFresh (clock : nat -> Z) (l : list chitandaQueuedPacket) : option packet * list packet * list chitandaQueuedPacket :=
  match l with
  | [] => (None, [], [])
  | x :: l =>
      if fresh (clock 0%nat) x then (Some (qp_packet x), [], l)
      else let '(r, ds, rest) := firstFresh (fun k => clock (S k)) l in (r, qp_packet x :: ds, rest)
  end.

(** C38: [pop], with nothing in between, ends after at most one round per waiting
    packet, returns the oldest packet that is not older than three seconds at the
    round's reading of the clock and drops exactly the older ones before it; it
    returns nothing only when no fresh packet waits. *)
Theorem sender_pop q l b clock :
  rep q (mkWait l false) ->
  let '(r, ds, q', b') := pop q b clock in
  exists l', firstFresh clock l = (r, ds, l') /\ rep q' (mkWait l' false) /\
    (r = None -> forall k x, l !! k = Some x -> fresh (clock k) x = false).
Proof.
  intros Hr. unfold pop. destruct (rep_length _ _ Hr) as [R2 _]. cbn [w_items] in R2. rewrite R2, Nat2Z.id.
  assert (length l < S (length l))%nat as Hf by lia. revert Hf. generalize (S (length l)) as fuel. clear R2.
  intros fuel. revert q l b clock Hr. induction fuel as [|f IH]; intros q l b clock Hr Hf; [lia|]. cbn [popLoop].
  pose proof (popRound_rep q _ b (clock 0%nat) Hr) as Hs. cbn [w_items w_closed] in Hs.
  destruct l as [|x l]; destruct (popRound q b (clock 0%nat)) as [[r q'] b']; destruct Hs as (w' & E & Hr' & [-> ->]).
  - exists []. by split_and!.
  - cbn [firstFresh]. destruct (fresh (clock 0%nat) x) eqn:Ex; [by exists l|].
    specialize (IH q' l b' (fun k => clock (S k)) Hr' ltac:(cbn in Hf; lia)).
    destruct (popLoop f q' _ _) as [[[r ds] q''] b'']. destruct IH as (l' & -> & H1 & H2).
    exists l'. split_and!; [done|done|]. intros Hn [|k] y; [by intros [= <-]|by apply H2].
Qed.

(** ** Operations with nothing in between *)

(** The steps of an operation that is not overtaken are the whole operation. *)
Fixpoint steps (fuel : nat) (res : outcome chitandaPacketQueue) : outcome chitandaPacketQueue :=
  match fuel, res with
  | S fuel, (out, ds, Some wk, q, b) =>
      let '(out', ds', wk', q', b') := steps fuel (queueGo q b wk) in (out ++ out', ds ++ ds', wk', q', b')
  | _, _ => res
  end.

Lemma batch_steps n q b now batch expired :
  let '(fresh_, old, q', b') := takeBatch n q b now in
  steps (S n) ([], [], Some (WBatch n now batch expired), q, b) =
    (batch ++ fresh_, expired ++ old, None, countDropped (len (expired ++ old)) (afterTake q'), b').
Proof.
  revert q b batch expired. induction n as [|n IH]; intros q b batch expired; cbn [takeBatch].
  { cbn. by rewrite !app_nil_r. }
  remember (S n) as m eqn:Em. cbn [steps queueGo batchItem]. subst m. cbn [batchItem]. destruct (takeHead q b) as [[item q1] b1].
  destruct (now - qp_added item <=? chitandaSenderMaxAge).
  - specialize (IH q1 b1 (batch ++ [qp_packet item]) expired). destruct (takeBatch n q1 b1 now) as [[[f o] q2] b2]. rewrite IH. cbn [app].
    by rewrite <- app_assoc.
  - specialize (IH q1 b1 batch (expired ++ [qp_packet item])). destruct (takeBatch n q1 b1 now) as [[[f o] q2] b2]. rewrite IH. cbn [app].
    by rewrite <- !app_assoc.
Qed.

Lemma takeHead_length q b : qlength (takeHead q b).1.2 = qlength q - 1.
Proof. done. Qed.

Lemma close_steps n q b taken :
  qlength q = Z.of_nat n ->
  let '(ds, q', b') := closeLoop n q b in
  steps (S n) ([], [], Some (WClose taken), q, b) =
    ([], taken ++ ds, None, mkQueue [] (head q') (qlength q') (bytes q') (closed q') (ready q') (dropped q'), b').
Proof.
  revert q b taken. induction n as [|n IH]; intros q b taken Hq; cbn [closeLoop].
  { cbn [steps queueGo]. unfold closeItem. rewrite Hq. cbn. by rewrite !app_nil_r. }
  pose proof (takeHead_length q b) as Hl. remember (S n) as m eqn:Em. cbn [steps queueGo]. unfold closeItem.
  rewrite (proj2 (Z.ltb_lt 0 (qlength q))) by lia. destruct (takeHead q b) as [[item q1] b1]. cbn [fst snd] in Hl. subst m.
  specialize (IH q1 b1 (taken ++ [qp_packet item]) ltac:(lia)). destruct (closeLoop n q1 b1) as [[ds q2] b2]. rewrite IH. cbn [app].
  by rewrite <- app_assoc.
Qed.

(** ** Witnesses *)

Definition demoPacket (id : Z) : packet := mkPacket id 100 1500.
Definition demoEvents : list (nat * senderEvent) :=
  [(0%nat, EBegin (SPush (demoPacket 1) 0)); (1%nat, EBegin (SPush (demoPacket 2) 0)); (1%nat, EGo); (0%nat, EGo);
   (0%nat, EBegin (SPush (demoPacket 3) 4000000000)); (0%nat, EGo); (0%nat, EBegin (SPop 4000000000)); (0%nat, EBegin (SPop 4000000000));
   (1%nat, EBegin SClose); (1%nat, EGo); (1%nat, EGo)].

Lemma demoQueue_ok : Forall (fun iev => evOk iev.2) demoEvents.
Proof. repeat (apply Forall_cons; split; [cbn; try lia; exact I|]). apply Forall_nil. exact I. Qed.

Lemma sender_queue_refines_witness :
  s_delivered (sendersRun (newSenders newChitandaPacketQueue 2) demoEvents) = [demoPacket 3] /\
  s_dropped (sendersRun (newSenders newChitandaPacketQueue 2) demoEvents) =
    s_dropped (sendersRun (newSenders (mkWait [] false) 2) demoEvents).
Proof.
  split; [vm_compute; reflexivity|].
  exact (proj1 (proj2 (sender_queue_refines 2 demoEvents demoQueue_ok))).
Defined.

Lemma sender_queue_accounting_witness :
  used (s_budget (sendersRun (newSenders newChitandaPacketQueue 2) demoEvents)) <= chitandaSenderGlobalBytes.
Proof. exact (proj1 (proj2 (sender_queue_accounting 2 demoEvents demoQueue_ok))). Defined.

(** A full association whose oldest packet has expired: its bytes go to another
    association before it reserves those of the new packet, which is dropped. *)
Definition overtaken : senders waitList :=
  mkSenders [mkAssoc (mkWait (mkQueued (mkPacket 1 800 0) 0 928 :: replicate 8191 (mkQueued (mkPacket 2 0 0) 4000000000 128)) false) None;
             mkAssoc (mkWait [] false) None] (mkBudget (1000 - 72) 1000) [] [] [].

Lemma sender_overtaken :
  let s := sendersRun overtaken [(0%nat, EBegin (SPush (mkPacket 3 800 0) 4000000000)); (1%nat, EBegin (SPush (mkPacket 4 800 0) 4000000000));
    (1%nat, EGo); (0%nat, EGo)] in
  s_dropped s = [mkPacket 3 800 0; mkPacket 1 800 0] /\ (length ∘ w_items ∘ as_queue <$> s_assocs s) = [8191%nat; 1%nat].
Proof. vm_compute. done. Qed.

Definition demoQueue : chitandaPacketQueue :=
  let '(_, q, b) := push newChitandaPacketQueue (mkBudget 0 10000) (demoPacket 1) 0 in
  let '(_, q, _) := push q b (demoPacket 3) 4000000000 in q.

Definition demoClock (k : nat) : Z := 4000000000 + Z.of_nat k.

Lemma sender_pop_witness :
  fst (pop demoQueue (mkBudget 0 10000) demoClock) = (Some (demoPacket 3), [demoPacket 1],
    snd (fst (pop demoQueue (mkBudget 0 10000) demoClock))) /\
  let '(r, ds, _, _) := pop demoQueue (mkBudget 0 10000) demoClock in
  exists l', firstFresh demoClock [mkQueued (demoPacket 1) 0 1628; mkQueued (demoPacket 3) 4000000000 1628] = (r, ds, l').
Proof.
  split; [vm_compute; reflexivity|].
  pose proof (sender_pop demoQueue [mkQueued (demoPacket 1) 0 1628; mkQueued (demoPacket 3) 4000000000 1628]
    (mkBudget 0 10000) demoClock) as H.
  destruct (pop demoQueue (mkBudget 0 10000) demoClock) as [[[r ds] q'] b'].
  destruct H as (l' & E & _); [|by exists l'].
  split; [reflexivity|]. left. split_and!; [vm_compute; reflexivity..| | | |]; vm_compute; done.
Defined.
