(* ===== verification/UdpReplay.v ===== *)
(** * Replay protection of UDP sessions: [pkg/server] (udp_replay_persistent.go,
      [UDPReplayWindow] of plain_udp.go) and [integration/xray] (udp_replay.go)

    A session has a bitmap window of sequence numbers.  With a replay cache
    every ten-second bucket of timestamps must also be admitted once by the
    cache, so that a restarted or second window cannot accept what an earlier
    one accepted.  What the cache promises to this client is the class
    [SpacedAdmissions]; the runs of [ReplayRuns.v] are an instance.  Times are
    nanoseconds since the Unix epoch. *)
From S2P Require Import Prelude GoNet Crypto PlainUDP Encoding Auth ReplayWindow Heap ReplayCache ReplayRuns.

Open Scope Z_scope.

(** ** The code: a window *)

Definition UDPReplayBucketSeconds : Z := 10.

(** [hex.EncodeToString] and [%016x]. *)
Definition hexEncode (b : list byte) : gostring :=
  concat ((fun x => [hexdigit (byteZ x / 16); hexdigit (byteZ x mod 16)]) <$> b).
Definition hex016 (z : Z) : gostring := hexEncode (be 8 z).

(** The namespace of a user's sessions; [sha256] is [crypto/sha256]. *)
Definition UDPReplayNamespace (sha256 : list byte -> list byte) (psk : list byte) (serverID : gostring) : gostring :=
  hexEncode (sha256 ((bs "plainudp" ++ [Byte.x00] ++ serverID ++ [Byte.x00]) ++ psk ++ [Byte.x00])).

Definition udpReplayNamespaces (sha256 : list byte -> list byte) (psks : list (list byte)) (serverID : gostring)
  : list gostring := (fun psk => UDPReplayNamespace sha256 psk serverID) <$> psks.

Record UDPReplayWindow := mkUDPWindow {
  window : ReplayWindow.ReplayWindow;
  hasCache : bool;                   (* w.cache != nil *)
  namespace : gostring;
  sessionID : Z;
  buckets : gmap Z Z;
}.

Definition NewUDPReplayWindow : UDPReplayWindow := mkUDPWindow ReplayWindow.zeroWindow false [] 0 ∅.

Definition NewPersistentUDPReplayWindow (cache : bool) (ns : gostring) (id : Z) : UDPReplayWindow :=
  mkUDPWindow ReplayWindow.zeroWindow cache ns id ∅.

Definition setWindow (w : UDPReplayWindow) (rw : ReplayWindow.ReplayWindow) : UDPReplayWindow :=
  mkUDPWindow rw (hasCache w) (namespace w) (sessionID w) (buckets w).
Definition setBuckets (w : UDPReplayWindow) (b : gmap Z Z) : UDPReplayWindow :=
  mkUDPWindow (window w) (hasCache w) (namespace w) (sessionID w) b.

(** [UDPReplayWindow.Accept] *)
Definition acceptSeq (w : UDPReplayWindow) (seq : Z) : bool * UDPReplayWindow :=
  let '(ok, rw) := ReplayWindow.Accept (window w) seq in (ok, setWindow w rw).

(** [fmt.Sprintf("udp-bucket/%s/%016x/%d", ...)] *)
Definition bucketKey (ns : gostring) (id bucket : Z) : gostring :=
  bs "udp-bucket/" ++ ns ++ bs "/" ++ hex016 id ++ bs "/" ++ Itoa bucket.

(** [AcceptAuthenticated]: the decision, the key given to the replay cache (if
    it is called) and the window.  [answer] is the outcome of that call:
    accepted, and no error. *)
Definition AcceptAuthenticated (w : UDPReplayWindow) (answer : bool) (seq timestamp now : Z)
  : bool * option gostring * UDPReplayWindow :=
  if timestampExpired PlainUDP.MaxTimestampSkew (now / second) timestamp then (false, None, w)
  else if hasCache w then
    let bucket := timestamp / UDPReplayBucketSeconds in
    let w := setBuckets w (filter (fun p => now < p.2) (buckets w)) in
    if bool_decide (is_Some (buckets w !! bucket)) then
      let '(ok, w) := acceptSeq w seq in (ok, None, w)
    else
      let key := bucketKey (namespace w) (sessionID w) bucket in
      if negb answer then (false, Some key, w)
      else
        let w := setBuckets w (<[bucket := now + 2 * MaxClockSkew]> (buckets w)) in
        let '(ok, w) := acceptSeq w seq in (ok, Some key, w)
  else let '(ok, w) := acceptSeq w seq in (ok, None, w).

(** ** The code: the registry of the Xray inbound *)

Definition maxUDPReplaySessions : Z := 10000.
Definition udpReplayRetention : Z := 65 * second.

(** [time.Time{}], and [Sub], which saturates. *)
Definition zeroTime : Z := -62135596800 * second.
Definition Sub (a b : Z) : Z := Z.max (- 2 ^ 63) (Z.min (2 ^ 63 - 1) (a - b)).

Record udpReplayEntry := mkEntry {
  e_window : UDPReplayWindow;
  e_last : Z;
}.

Record udpReplayRegistry := mkRegistry {
  entries : gmap Z udpReplayEntry;
  r_closed : bool;
  r_cache : bool;
  r_namespace : gostring;
}.

Definition setRegistry (r : udpReplayRegistry) (m : gmap Z udpReplayEntry) : udpReplayRegistry :=
  mkRegistry m (r_closed r) (r_cache r) (r_namespace r).

(** [accept]; [timestamp] is the optional last argument. *)
Definition registryAccept (r : udpReplayRegistry) (answer : bool) (id seq now : Z) (timestamp : option Z)
  : bool * option gostring * udpReplayRegistry :=
  if r_closed r then (false, None, r)
  else
    let entry := match entries r !! id with
                 | Some e => Some e
                 | None =>
                     if maxUDPReplaySessions <=? Z.of_nat (size (entries r)) then None
                     else Some (mkEntry (NewPersistentUDPReplayWindow (r_cache r) (r_namespace r) id) zeroTime)
                 end in
    match entry with
    | None => (false, None, r)
    | Some e =>
        let '(accepted, key, w) :=
          match timestamp with
          | Some ts => AcceptAuthenticated (e_window e) answer seq ts now
          | None => let '(ok, w) := acceptSeq (e_window e) seq in (ok, None, w)
          end in
        let last := if accepted then now else e_last e in
        (accepted, key, setRegistry r (<[id := mkEntry w last]> (entries r)))
    end.

Definition registryExpire (r : udpReplayRegistry) (now : Z) : udpReplayRegistry :=
  setRegistry r (filter (fun p => Sub now (e_last p.2) <= udpReplayRetention) (entries r)).

(** What [run] does when its context ends. *)
Definition registryStop (r : udpReplayRegistry) : udpReplayRegistry :=
  mkRegistry ∅ true (r_cache r) (r_namespace r).

(** ** Freshness *)

(** The timestamp as the signed number the clock is compared with. *)
Lemma fresh_signed now ts :
  0 <= now < 2 ^ 62 -> is_u64 ts -> timestampExpired PlainUDP.MaxTimestampSkew (now / second) ts = false ->
  -30 <= now / second - i64 ts <= 30.
Proof.
  intros Hn Ht Hf. apply timestampExpired_spec in Hf as (k & Hk & Hu); [|unfold PlainUDP.MaxTimestampSkew; lia].
  unfold PlainUDP.MaxTimestampSkew, is_u64, u64, i64, second in *. lia.
Qed.

(** Timestamps of one bucket are within ten seconds, read as signed numbers
    near a clock. *)
Lemma bucket_near ts ts' :
  is_u64 ts -> is_u64 ts' -> -60 <= i64 ts < 2 ^ 62 -> -60 <= i64 ts' < 2 ^ 62 ->
  ts / UDPReplayBucketSeconds = ts' / UDPReplayBucketSeconds -> i64 ts - i64 ts' < 10.
Proof. unfold is_u64, i64, UDPReplayBucketSeconds. lia. Qed.

Lemma seconds_bound t : 0 <= t < 2 ^ 62 -> 0 <= t / second < 2 ^ 40.
Proof. unfold second. lia. Qed.

(** Clocks at which packets of one bucket are fresh. *)
Lemma bucket_clocks t1 ts1 t2 ts2 :
  0 <= t1 < 2 ^ 62 -> 0 <= t2 < 2 ^ 62 -> is_u64 ts1 -> is_u64 ts2 ->
  timestampExpired PlainUDP.MaxTimestampSkew (t1 / second) ts1 = false ->
  timestampExpired PlainUDP.MaxTimestampSkew (t2 / second) ts2 = false ->
  ts1 / UDPReplayBucketSeconds = ts2 / UDPReplayBucketSeconds -> -69 <= t1 / second - t2 / second <= 69.
Proof.
  intros T1 T2 U1 U2 F1%fresh_signed F2%fresh_signed B; [|done..].
  pose proof (seconds_bound t1 T1) as S1. pose proof (seconds_bound t2 T2) as S2.
  pose proof (bucket_near ts1 ts2 U1 U2) as N1. pose proof (bucket_near ts2 ts1 U2 U1) as N2.
  specialize (N1 ltac:(clear - F1 S1; lia) ltac:(clear - F2 S2; lia) B).
  specialize (N2 ltac:(clear - F2 S2; lia) ltac:(clear - F1 S1; lia) (eq_sym B)).
  clear - F1 F2 N1 N2. lia.
Qed.

(** ** What a window has accepted *)

(** The window never takes again a number of [H]. *)
Definition holds (w : ReplayWindow.ReplayWindow) (H : gset Z) : Prop :=
  exists a, refines w a /\ H ⊆ Spec.seen a /\ forall x, x ∈ Spec.seen a -> exists h, Spec.top a = Some h /\ x <= h.

Lemma holds_zero : holds ReplayWindow.zeroWindow ∅.
Proof. exists Spec.init. split; [done|]. split; [done|]. cbn. set_solver. Qed.

Lemma holds_accept w H seq :
  holds w H -> is_u64 seq ->
  let '(ok, w') := ReplayWindow.Accept w seq in
  (ok = true -> seq ∉ H) /\ holds w' (if ok then {[seq]} ∪ H else H).
Proof.
  intros (a & Hr & Hsub & Htop) Hs. destruct (refines_step w a seq Hr Hs) as [Ef Hr'].
  pose proof (spec_step_top a seq Htop) as Htop'. pose proof (spec_accepts_fresh a seq Htop) as Hfresh.
  destruct (ReplayWindow.Accept w seq) as [ok w']. cbn [fst snd] in *. subst ok. unfold Spec.step in *.
  destruct (Spec.accepts a seq) eqn:Ea; cbn [fst snd] in *.
  - split; [intros _ Hin; apply Hfresh; [done|by apply Hsub]|]. eexists. split; [exact Hr'|]. split; [cbn; set_solver|done].
  - split; [done|]. by exists a.
Qed.

Abbreviation fresh now ts := (timestampExpired PlainUDP.MaxTimestampSkew (now / second) ts = false).
Abbreviation bucketOf ts := (ts / UDPReplayBucketSeconds).
Abbreviation keyOf w ts := (bucketKey (namespace w) (sessionID w) (bucketOf ts)).

(** Everything one call does. *)
Record authenticated (w : UDPReplayWindow) (H : gset Z) (answer : bool) (seq ts now : Z)
    (ok : bool) (q : option gostring) (w' : UDPReplayWindow) : Prop := {
  au_same : hasCache w' = hasCache w /\ namespace w' = namespace w /\ sessionID w' = sessionID w;
  au_holds : holds (window w') (if ok then {[seq]} ∪ H else H);
  au_new : ok = true -> seq ∉ H /\ fresh now ts;
  au_bucket : ok = true -> hasCache w = true -> is_Some (buckets w' !! bucketOf ts);
  au_buckets : forall b e, buckets w' !! b = Some e ->
    buckets w !! b = Some e \/ (b = bucketOf ts /\ fresh now ts /\ q = Some (keyOf w ts) /\ answer = true);
}.

Lemma AcceptAuthenticated_spec w H answer seq ts now ok q w' :
  holds (window w) H -> is_u64 seq -> AcceptAuthenticated w answer seq ts now = (ok, q, w') ->
  authenticated w H answer seq ts now ok q w'.
Proof.
  intros Hw Hs. unfold AcceptAuthenticated, acceptSeq.
  pose proof (holds_accept (window w) H seq Hw Hs) as Ha.
  destruct (timestampExpired _ _ _) eqn:Ef; [intros [= <- <- <-]; by split; eauto|].
  destruct (hasCache w) eqn:Ec.
  2:{ destruct (ReplayWindow.Accept _ seq) as [ok0 rw]. intros [= <- <- <-]. destruct Ha as [Ha1 Ha2].
      split; cbn; [by rewrite Ec|done|by auto|by rewrite Ec|by auto]. }
  assert (forall b e, filter (fun p : Z * Z => now < p.2) (buckets w) !! b = Some e -> buckets w !! b = Some e) as Hfil
    by (intros b e [? _]%map_lookup_filter_Some; done).
  cbn [buckets window namespace sessionID setBuckets]. case_bool_decide as Hb.
  - destruct (ReplayWindow.Accept _ seq) as [ok0 rw]. intros [= <- <- <-]. destruct Ha as [Ha1 Ha2].
    split; cbn; [by rewrite Ec|done|by auto|done|by auto].
  - destruct answer; cbn [negb]; [|intros [= <- <- <-]; split; cbn; [by rewrite Ec|done|done|done|by auto]].
    destruct (ReplayWindow.Accept _ seq) as [ok0 rw]. intros [= <- <- <-]. destruct Ha as [Ha1 Ha2].
    split; cbn; [by rewrite Ec|done|by auto|by intros; rewrite lookup_insert_eq|].
    intros b e [[<- <-]|[_ ?]]%lookup_insert_Some; auto 6.
Qed.

(** ** Many windows of one session, one cache *)

(** The answers of the cache, in the order of the calls. *)
Abbreviation admission := (gostring * Z * bool)%type.

(** What the cache promises: a key is admitted again only after 180 seconds
    (in whole seconds). *)
Class SpacedAdmissions (log : list admission) :=
  spaced_admissions : forall i j k t t', (i < j)%nat -> log !! i = Some (k, t, true) -> log !! j = Some (k, t', true) ->
    (t + 2 * MaxClockSkew) / second * second <= t'.

#[export] Instance status_eq_dec : EqDecision status.
Proof. solve_decision. Defined.

(** The calls of a run of the persistent cache keep that promise. *)
Definition callLog (ks : list call) : list admission :=
  (fun k => (k_nonce k, k_now k, bool_decide (k_status k = Accepted))) <$> ks.

Lemma spaced_runs `{RangeOrder} evs :
  inOrder 0 evs -> len evs < 2 ^ 64 -> SpacedAdmissions (callLog (calls (ReplayRuns.run initial evs))).
Proof.
  intros Hord Hlen i j k t t' Hij Hi Hj.
  unfold callLog in Hi, Hj. apply list_lookup_fmap_Some in Hi as (a & Ea & Ha), Hj as (b & Eb & Hb).
  injection Ea as -> -> Sa. injection Eb as E -> Sb. symmetry in Sa, Sb. apply bool_decide_eq_true in Sa, Sb.
  apply (durable_ordered evs i j a b); try done; by right.
Qed.

(** Other callers of the cache do not matter. *)
Lemma spaced_sublist l1 l2 : l1 `sublist_of` l2 -> SpacedAdmissions l2 -> SpacedAdmissions l1.
Proof.
  intros Hs. unfold SpacedAdmissions. induction Hs as [|x l1 l2 Hs IH|x l1 l2 Hs IH]; [done| |].
  - intros H [|i] [|j] k t t' Hij; cbn; [lia| |lia|].
    + intros [= ->] Hj. assert ((k, t', true) ∈ l2) as (j' & Hj')%list_elem_of_lookup
        by (eapply elem_of_submseteq; [by eapply list_elem_of_lookup_2|by apply sublist_submseteq]).
      apply (H 0%nat (S j') k); [lia|done|done].
    + apply IH; [|lia]. intros i' j' k' u u' ?. apply (H (S i') (S j')). lia.
  - intros H. apply IH. intros i j k t t' ?. apply (H (S i) (S j)). lia.
Qed.

(** An authenticated packet that reaches a window, the clock, and what the
    cache answers when it is asked. *)
Record arrival := mkArrival {
  a_window : nat;
  a_seq : Z;
  a_ts : Z;
  a_now : Z;
  a_answer : bool;
}.

Definition arrivalOk (a : arrival) : Prop := is_u64 (a_seq a) /\ is_u64 (a_ts a) /\ 0 <= a_now a < 2 ^ 62.

(** The windows, the packets accepted and the questions asked so far. *)
Record Windows := mkWindows {
  windows : gmap nat UDPReplayWindow;
  taken : list arrival;
  asked : list (nat * admission);
}.

Section Session.
  Context (ns : gostring) (id : Z).

(** A window that did not exist is new: a restart or an expiry goes on with
    another number. *)
Definition deliver (s : Windows) (a : arrival) : Windows :=
  let i := a_window a in
  let w := default (NewPersistentUDPReplayWindow true ns id) (windows s !! i) in
  let '(ok, q, w') := AcceptAuthenticated w (a_answer a) (a_seq a) (a_ts a) (a_now a) in
  mkWindows (<[i := w']> (windows s))
    (taken s ++ if ok then [a] else [])
    (asked s ++ match q with Some k => [(i, (k, a_now a, a_answer a))] | None => [] end).

Definition deliverAll (arrivals : list arrival) : Windows := foldl deliver (mkWindows ∅ [] []) arrivals.

(** Bucket [b] was admitted to window [i]. *)
Definition bucketAdmitted (s : Windows) (i : nat) (b : Z) : Prop :=
  exists t ts, (i, (bucketKey ns id b, t, true)) ∈ asked s /\ bucketOf ts = b /\ fresh t ts /\ is_u64 ts /\ 0 <= t < 2 ^ 62.

Record windowOk (s : Windows) (i : nat) (w : UDPReplayWindow) : Prop := {
  wo_fields : hasCache w = true /\ namespace w = ns /\ sessionID w = id;
  wo_holds : exists H, holds (window w) H /\ forall a, a ∈ taken s -> a_window a = i -> a_seq a ∈ H;
  wo_buckets : forall b e, buckets w !! b = Some e -> bucketAdmitted s i b;
}.

Record sessionInv (s : Windows) : Prop := {
  si_windows : forall i w, windows s !! i = Some w -> windowOk s i w;
  si_present : forall a, a ∈ taken s -> is_Some (windows s !! a_window a);
  si_admitted : forall a, a ∈ taken s -> arrivalOk a /\ fresh (a_now a) (a_ts a) /\ bucketAdmitted s (a_window a) (bucketOf (a_ts a));
  si_distinct : NoDup ((fun a => (a_window a, a_seq a)) <$> taken s);
}.

Lemma sessionInv_start : sessionInv (mkWindows ∅ [] []).
Proof. split; cbn; [done| | |by constructor]; intros a Ha; by apply elem_of_nil in Ha. Qed.

Lemma window_at s i :
  sessionInv s -> windowOk s i (default (NewPersistentUDPReplayWindow true ns id) (windows s !! i)).
Proof.
  intros Hs. destruct (windows s !! i) as [w|] eqn:E; [by apply si_windows|]. split; cbn; [done| |done].
  exists ∅. split; [apply holds_zero|]. intros a Ha <-. destruct (si_present s Hs a Ha). congruence.
Qed.

(** Admissions are not forgotten. *)
Lemma bucketAdmitted_app s i b ws tk new :
  bucketAdmitted s i b -> bucketAdmitted (mkWindows ws tk (asked s ++ new)) i b.
Proof. intros (t & ts & Hin & H). exists t, ts. split; [by apply elem_of_app; left|done]. Qed.

Lemma deliver_inv s a : arrivalOk a -> sessionInv s -> sessionInv (deliver s a).
Proof.
  intros Ha Hs. pose proof (window_at s (a_window a) Hs) as Hw. unfold deliver.
  set (w := default _ _) in *. clearbody w. destruct Hw as [(Hc & Hn & Hi) (H & Hh & Htk) Hb].
  destruct (AcceptAuthenticated w _ _ _ _) as [[ok q] w'] eqn:E.
  apply (AcceptAuthenticated_spec _ H) in E as [(S1 & S2 & S3) S4 S5 S6 S7]; [|done|apply Ha].
  assert (forall b e, buckets w' !! b = Some e ->
    bucketAdmitted (mkWindows (windows s) (taken s)
      (asked s ++ match q with Some k => [(a_window a, (k, a_now a, a_answer a))] | None => [] end)) (a_window a) b) as Hadm.
  { intros b e He. destruct (S7 b e He) as [Hold|(-> & Hf & -> & Hans)]; [apply bucketAdmitted_app; by eapply Hb|].
    exists (a_now a), (a_ts a). rewrite Hans, Hn, Hi. split_and!; [|done|done|apply Ha..].
    apply elem_of_app; right. by left. }
  split; cbn [windows taken asked].
  - intros i wi. rewrite lookup_insert_Some. intros [[<- <-]|[Hne Hwi]].
    + split; [by rewrite S1, S2, S3| |exact Hadm]. eexists. split; [exact S4|].
      intros x [Hx|Hx]%elem_of_app Hxi; [destruct ok; [apply elem_of_union; right|]; by apply Htk|].
      destruct ok; [|by apply elem_of_nil in Hx]. apply list_elem_of_singleton in Hx as ->. set_solver.
    + destruct (si_windows s Hs i wi Hwi) as [F1 (H' & F2 & F3) F4]. split; [done| |].
      * exists H'. split; [done|]. intros x [Hx|Hx]%elem_of_app Hxi; [by apply F3|].
        destruct ok; [|by apply elem_of_nil in Hx]. by apply list_elem_of_singleton in Hx as ->.
      * intros b e He. apply bucketAdmitted_app. by eapply F4.
  - intros x [Hx|Hx]%elem_of_app.
    + destruct (decide (a_window a = a_window x)) as [<-|]; [rewrite lookup_insert_eq; by eexists|].
      rewrite lookup_insert_ne by done. by apply (si_present s Hs).
    + destruct ok; [|by apply elem_of_nil in Hx]. apply list_elem_of_singleton in Hx as ->.
      rewrite lookup_insert_eq. by eexists.
  - intros x [Hx|Hx]%elem_of_app.
    + destruct (si_admitted s Hs x Hx) as (A1 & A2 & A3). split_and!; [done|done|by apply bucketAdmitted_app].
    + destruct ok; [|by apply elem_of_nil in Hx]. apply list_elem_of_singleton in Hx as ->.
      destruct (S6 eq_refl Hc) as [e He]. split_and!; [done|by apply S5|by eapply Hadm].
  - rewrite fmap_app. destruct ok; [|by rewrite app_nil_r; apply (si_distinct s Hs)]. apply NoDup_app. split; [apply (si_distinct s Hs)|].
    split; [|by apply NoDup_singleton]. intros p Hp Hin. apply list_elem_of_singleton in Hin as ->.
    apply list_elem_of_fmap in Hp as (x & [= Ew Es] & Hx).
    apply (proj1 (S5 eq_refl)). rewrite Es. by apply Htk.
Qed.

Lemma deliverAll_inv arrivals : Forall arrivalOk arrivals -> sessionInv (deliverAll arrivals).
Proof.
  unfold deliverAll. generalize sessionInv_start. generalize (mkWindows ∅ [] []). intros s Hs Ha. revert s Hs.
  induction Ha as [|a arrivals Ha _ IH]; intros s Hs; [done|]. cbn. by apply IH, deliver_inv.
Qed.

(** One bucket is admitted to one window. *)
Lemma bucket_once s i j b :
  SpacedAdmissions (snd <$> asked s) -> bucketAdmitted s i b -> bucketAdmitted s j b -> i = j.
Proof.
  intros Hsp (t1 & ts1 & H1 & B1 & F1 & U1 & T1) (t2 & ts2 & H2 & B2 & F2 & U2 & T2).
  pose proof (bucket_clocks t1 ts1 t2 ts2 T1 T2 U1 U2 F1 F2 ltac:(congruence)) as Hnear.
  clear F1 F2 B1 B2. apply list_elem_of_lookup in H1 as (p1 & H1), H2 as (p2 & H2).
  assert (forall q i t, asked s !! q = Some (i, (bucketKey ns id b, t, true)) ->
    (snd <$> asked s) !! q = Some (bucketKey ns id b, t, true)) as Hlog.
  { intros q x t Hq. rewrite list_lookup_fmap, Hq. done. }
  destruct (Nat.lt_trichotomy p1 p2) as [Hlt|[->|Hlt]]; [|congruence|].
  - pose proof (Hsp _ _ _ _ _ Hlt (Hlog _ _ _ H1) (Hlog _ _ _ H2)). unfold MaxClockSkew, second in *. lia.
  - pose proof (Hsp _ _ _ _ _ Hlt (Hlog _ _ _ H2) (Hlog _ _ _ H1)). unfold MaxClockSkew, second in *. lia.
Qed.

Lemma taken_once arrivals :
  Forall arrivalOk arrivals -> SpacedAdmissions (snd <$> asked (deliverAll arrivals)) ->
  NoDup ((fun a => (a_seq a, a_ts a)) <$> taken (deliverAll arrivals)).
Proof.
  intros Ha Hsp. pose proof (deliverAll_inv arrivals Ha) as Hs. set (s := deliverAll arrivals) in *. clearbody s.
  apply NoDup_fmap_2_strong; [|by eapply NoDup_fmap_1, si_distinct].
  intros x y Hx Hy [= Es Et]. pose proof (si_distinct s Hs) as Hnd.
  assert (a_window x = a_window y) as Ew.
  { destruct (si_admitted s Hs x Hx) as (_ & _ & Ax), (si_admitted s Hs y Hy) as (_ & _ & Ay).
    rewrite Et in Ax. by eapply bucket_once. }
  apply list_elem_of_lookup in Hx as (i & Hi), Hy as (j & Hj).
  assert (i = j) as ->; [|congruence]. eapply NoDup_lookup; [exact Hnd|by rewrite list_lookup_fmap, Hi|].
  rewrite list_lookup_fmap, Hj. cbn. congruence.
Qed.
End Session.

(** no authenticated UDP packet is accepted twice while its timestamp is
    valid, through restarts and the expiry of sessions: whatever number of
    windows of one session exist at once or one after another, as long as the
    answers they get are those of one persistent replay cache, through any run
    of it with crashes and failing disks in which the clock does not go back, no (sequence, timestamp) is accepted
    by two of them or twice by one. *)
Theorem udp_session_no_replay `{RangeOrder} ns id arrivals evs :
  Forall arrivalOk arrivals -> inOrder 0 evs -> len evs < 2 ^ 64 ->
  (snd <$> asked (deliverAll ns id arrivals)) `sublist_of` callLog (calls (ReplayRuns.run initial evs)) ->
  NoDup ((fun a => (a_seq a, a_ts a)) <$> taken (deliverAll ns id arrivals)).
Proof. intros Ha Hord Hlen Hsub. apply taken_once; [done|]. eapply spaced_sublist; [exact Hsub|by apply spaced_runs]. Qed.

(** ** A table of windows that drops idle ones *)

(** A packet that a table accepted: its key, sequence, timestamp, and when. *)
Record tabled (K : Type) := mkTabled {
  t_key : K;
  t_seq : Z;
  t_ts : Z;
  t_at : Z;
}.
Arguments mkTabled {K}.
Arguments t_key {K}.
Arguments t_seq {K}.
Arguments t_ts {K}.
Arguments t_at {K}.

Section Table.
  Context {K : Type} `{EqDecision K}.
  Implicit Types (look : K -> option (UDPReplayWindow * Z)) (tk : list (tabled K)).

(** No clock from [T] on makes the timestamp fresh. *)
Definition stale (T ts : Z) : Prop := i64 ts + 30 < T / second.

(** [look] gives the window of a key and the second of its last activity. *)
Record tableInv (T : Z) look tk : Prop := {
  ti_holds : forall k w l, look k = Some (w, l) -> exists H, holds (window w) H /\
    forall a, a ∈ tk -> t_key a = k -> t_seq a ∈ H \/ stale T (t_ts a);
  ti_clock : forall k w l, look k = Some (w, l) -> l <= T / second;
  ti_last : forall a, a ∈ tk -> stale T (t_ts a) \/
    (exists w l, look (t_key a) = Some (w, l) /\ i64 (t_ts a) <= l + 30);
  ti_distinct : NoDup ((fun a => (t_key a, t_seq a, t_ts a)) <$> tk);
}.

Lemma seconds_mono T T' : T <= T' -> T / second <= T' / second.
Proof. intros. by apply Z.div_le_mono. Qed.

Lemma stale_later T T' ts : T <= T' -> stale T ts -> stale T' ts.
Proof. unfold stale. intros ?%seconds_mono. lia. Qed.

Lemma tableInv_empty T : tableInv T (fun _ => None) [].
Proof. split; [done|done|by intros a ?%elem_of_nil|by constructor]. Qed.

Lemma tableInv_later T T' look tk : T <= T' -> tableInv T look tk -> tableInv T' look tk.
Proof.
  intros HT [H1 H2 H3 H4]. split; [| | |done].
  - intros k w l Hk. destruct (H1 k w l Hk) as (H & Hh & Ha). exists H. split; [done|].
    intros a Hin Hka. destruct (Ha a Hin Hka); [by left|right; by eapply stale_later].
  - intros k w l Hk%H2. apply seconds_mono in HT. lia.
  - intros a Hin. destruct (H3 a Hin); [left; by eapply stale_later|by right].
Qed.

Lemma tableInv_ext T look look' tk : (forall k, look' k = look k) -> tableInv T look tk -> tableInv T look' tk.
Proof.
  intros E [H1 H2 H3 H4]. split; [intros k w l; rewrite E; apply H1|intros k w l; rewrite E; apply H2| |done].
  intros a Hin. rewrite E. by apply H3.
Qed.

(** A window for a key that has none starts empty. *)
Lemma table_holds T look tk k :
  tableInv T look tk ->
  exists H, holds (from_option (window ∘ fst) ReplayWindow.zeroWindow (look k)) H /\
    forall a, a ∈ tk -> t_key a = k -> t_seq a ∈ H \/ stale T (t_ts a).
Proof.
  intros [H1 _ H3 _]. destruct (look k) as [[w l]|] eqn:E; [by eapply H1|].
  exists ∅. split; [apply holds_zero|]. intros a Ha <-. right. destruct (H3 a Ha) as [?|(w & l & ? & _)]; [done|congruence].
Qed.

(** A packet arrives: the window of its key decides. *)
Lemma table_accept T look look' tk w0 k answer seq ts l' ok q w' :
  tableInv T look tk -> 0 <= T < 2 ^ 62 -> is_u64 seq -> is_u64 ts ->
  window w0 = from_option (window ∘ fst) ReplayWindow.zeroWindow (look k) ->
  AcceptAuthenticated w0 answer seq ts T = (ok, q, w') ->
  look' k = Some (w', l') -> (forall x, x <> k -> look' x = look x) ->
  l' <= T / second -> (if ok then l' = T / second else forall w l, look k = Some (w, l) -> l' = l) ->
  tableInv T look' (tk ++ if ok then [mkTabled k seq ts T] else []).
Proof.
  intros Hinv HT Hs Hts Hw0 E Hk Hx Hle Hl. destruct (table_holds T look tk k Hinv) as (H & Hh & Ha).
  rewrite <- Hw0 in Hh. apply (AcceptAuthenticated_spec _ H) in E as [_ S4 S5 _ _]; [|done|done].
  destruct Hinv as [H1 H2 H3 H4].
  assert (forall a, a ∈ (if ok then [mkTabled k seq ts T] else []) -> ok = true /\ a = mkTabled k seq ts T) as Hone.
  { intros a. destruct ok; [by intros ->%list_elem_of_singleton|by intros ?%elem_of_nil]. }
  assert (ok = true -> -30 <= T / second - i64 ts <= 30) as Hfresh by (intros Hok; apply fresh_signed; [done|done|by apply S5]).
  split.
  - intros x w l. destruct (decide (x = k)) as [->|Hne].
    + rewrite Hk. intros [= <- <-]. eexists. split; [exact S4|]. intros a [Hin|[-> ->]%Hone]%elem_of_app Hka; [|left; set_solver].
      destruct (Ha a Hin Hka); [left; destruct ok; set_solver|by right].
    + rewrite (Hx x Hne). intros Hxl. destruct (H1 x w l Hxl) as (H' & Hh' & Ha'). exists H'. split; [done|].
      intros a [Hin|[_ ->]%Hone]%elem_of_app Hka; [by apply Ha'|by destruct Hne].
  - intros x w l. destruct (decide (x = k)) as [->|Hne]; [rewrite Hk; intros [= <- <-]; done|rewrite (Hx x Hne); apply H2].
  - intros a [Hin|[Hok ->]%Hone]%elem_of_app.
    + destruct (H3 a Hin) as [?|(w & l & Hlk & Hal)]; [by left|]. right.
      destruct (decide (t_key a = k)) as [Ek|Hne]; [|exists w, l; by rewrite Hx]. rewrite Ek in *.
      exists w', l'. split; [done|]. specialize (H2 _ _ _ Hlk). destruct ok; [lia|]. by rewrite (Hl w l Hlk).
    + right. exists w', l'. rewrite Hok in Hl. cbn. specialize (Hfresh Hok). split; [done|lia].
  - rewrite fmap_app. apply NoDup_app. split; [done|]. split.
    + intros p Hp Hin. apply list_elem_of_fmap in Hp as (a & -> & Hina), Hin as (b & Eab & [Hok ->]%Hone).
      injection Eab as E1 E2 E3. destruct (S5 Hok) as [Hnew _].
      destruct (Ha a Hina E1) as [Hin|Hst]; [rewrite E2 in Hin; done|].
      specialize (Hfresh Hok). unfold stale in Hst. rewrite E3 in Hst. lia.
    + destruct ok; [apply NoDup_singleton|constructor].
Qed.

(** A new window enters. *)
Lemma table_fresh T look look' tk k w l :
  tableInv T look tk -> look k = None -> look' k = Some (w, l) -> window w = ReplayWindow.zeroWindow -> l <= T / second ->
  (forall x, x <> k -> look' x = look x) -> tableInv T look' tk.
Proof.
  intros Hinv Hk Hk' Hw Hl Hx. destruct (table_holds T look tk k Hinv) as (H & Hh & Ha). rewrite Hk in Hh. cbn in Hh.
  destruct Hinv as [H1 H2 H3 H4]. split; [| | |done].
  - intros x w' l'. destruct (decide (x = k)) as [->|Hne]; [|rewrite (Hx x Hne); apply H1].
    rewrite Hk'. intros [= <- <-]. exists H. by rewrite Hw.
  - intros x w' l'. destruct (decide (x = k)) as [->|Hne]; [rewrite Hk'; intros [= <- <-]; done|rewrite (Hx x Hne); apply H2].
  - intros a Hin. destruct (H3 a Hin) as [?|(w' & l' & Hlk & Hle)]; [by left|right].
    exists w', l'. rewrite Hx; [done|]. intros E. congruence.
Qed.

(** Idle windows are dropped, or their last activity moves on. *)
Lemma table_drop T look look' tk :
  tableInv T look tk ->
  (forall k w l', look' k = Some (w, l') -> l' <= T / second /\ exists l, look k = Some (w, l) /\ l <= l') ->
  (forall k w l, look k = Some (w, l) -> look' k = None -> l + 60 < T / second) ->
  tableInv T look' tk.
Proof.
  intros [H1 H2 H3 H4] Hkeep Hdrop. split; [| | |done].
  - intros k w l' Hk. destruct (Hkeep _ _ _ Hk) as (_ & l & Hl & _). by eapply H1.
  - intros k w l' Hk. by apply (Hkeep _ _ _ Hk).
  - intros a Hin. destruct (H3 a Hin) as [?|(w & l & Hlk & Hle)]; [by left|].
    destruct (look' (t_key a)) as [[w' l']|] eqn:E.
    + right. exists w', l'. split; [done|]. destruct (Hkeep _ _ _ E) as (_ & l0 & Hl0 & ?).
      assert (l0 = l) as -> by congruence. lia.
    + left. unfold stale. specialize (Hdrop _ _ _ Hlk E). lia.
Qed.
End Table.

(** ** The registry *)

Inductive registryOp :=
  | RAccept (answer : bool) (id seq ts : Z)
  | RExpire
  | RStop.

Definition registryOpOk (op : registryOp) : Prop :=
  match op with RAccept _ id seq ts => is_u64 seq /\ is_u64 ts | _ => True end.

(** The registry and the packets it accepted. *)
Definition registryStep (s : udpReplayRegistry * list (tabled Z)) (top : Z * registryOp)
  : udpReplayRegistry * list (tabled Z) :=
  let '(r, tk) := s in
  let '(now, op) := top in
  match op with
  | RAccept answer id seq ts =>
      let '(ok, _, r') := registryAccept r answer id seq now (Some ts) in
      (r', tk ++ if ok then [mkTabled id seq ts now] else [])
  | RExpire => (registryExpire r now, tk)
  | RStop => (registryStop r, tk)
  end.

Definition registryRun (cache : bool) (ns : gostring) (ops : list (Z * registryOp))
  : udpReplayRegistry * list (tabled Z) :=
  foldl registryStep (mkRegistry ∅ false cache ns, []) ops.

(** Clocks do not go back. *)
Fixpoint clocksOk (T : Z) (ops : list (Z * registryOp)) : Prop :=
  match ops with
  | [] => True
  | (t, op) :: rest => T <= t < 2 ^ 62 /\ registryOpOk op /\ clocksOk t rest
  end.

Definition registryLook (r : udpReplayRegistry) (id : Z) : option (UDPReplayWindow * Z) :=
  (fun e => (e_window e, e_last e / second)) <$> entries r !! id.

(** Once closed, the registry refuses everything. *)
Definition registryInv (T : Z) (r : udpReplayRegistry) (tk : list (tabled Z)) : Prop :=
  Z.of_nat (size (entries r)) <= maxUDPReplaySessions /\
  (tableInv T (registryLook r) tk \/
   (r_closed r = true /\ NoDup ((fun a => (t_key a, t_seq a, t_ts a)) <$> tk))).

Lemma registryStep_inv T r tk op :
  0 <= T < 2 ^ 62 -> registryOpOk op -> registryInv T r tk ->
  let '(r', tk') := registryStep (r, tk) (T, op) in registryInv T r' tk'.
Proof.
  intros HT Hop [Hsize Hinv]. destruct op as [answer id seq ts| |]; cbn [registryStep].
  - unfold registryAccept. destruct (r_closed r) eqn:Ecl.
    { split; [done|]. rewrite app_nil_r. destruct Hinv as [?|[_ ?]]; auto. }
    destruct Hinv as [Hinv|[? _]]; [|congruence].
    set (entry := match entries r !! id with Some e => Some e | None => _ end).
    destruct entry as [e|] eqn:Ee; [|split; [done|left]; by rewrite app_nil_r].
    destruct (AcceptAuthenticated (e_window e) answer seq ts T) as [[ok q] w'] eqn:Ea.
    assert (window (e_window e) = from_option (window ∘ fst) ReplayWindow.zeroWindow (registryLook r id) /\
      (e_last e / second <= T / second) /\ Z.of_nat (size (<[id := mkEntry w' (if ok then T else e_last e)]> (entries r))) <= maxUDPReplaySessions /\
      forall w l, registryLook r id = Some (w, l) -> l = e_last e / second) as (E1 & E2 & E3 & E4).
    { unfold entry, registryLook in *. clear entry. destruct (entries r !! id) as [e0|] eqn:El.
      - injection Ee as ->. cbn. split_and!; [done| |by rewrite map_size_insert_Some by eauto|].
        + apply (ti_clock _ _ _ Hinv id (e_window e)). unfold registryLook. by rewrite El.
        + intros w l [= _ <-]. done.
      - destruct (Z.leb_spec maxUDPReplaySessions (Z.of_nat (size (entries r)))); [done|]. injection Ee as <-. cbn.
        split_and!; [done| |rewrite map_size_insert_None by done; lia|done].
        unfold zeroTime, second. lia. }
    split; [done|]. left.
    apply (table_accept T (registryLook r) _ tk (e_window e) id answer seq ts (if ok then T / second else e_last e / second) ok q w');
      [done|done|apply Hop|apply Hop|done|done| | | |].
    + unfold registryLook, setRegistry. cbn [entries]. rewrite lookup_insert_eq. by destruct ok.
    + intros x Hx. unfold registryLook, setRegistry. cbn [entries]. by rewrite lookup_insert_ne.
    + destruct ok; lia.
    + destruct ok; [done|]. intros w l Hl. by rewrite (E4 w l Hl).
  - split; [cbn; etrans; [|exact Hsize]; apply Nat2Z.inj_le, map_subseteq_size, map_filter_subseteq|].
    destruct Hinv as [Hinv|Hinv]; [left|by right]. unfold registryExpire.
    apply (table_drop T (registryLook r)); [done| |]; unfold registryLook, setRegistry; cbn [entries].
    + intros k w l' Hk. apply fmap_Some in Hk as (e & [He _]%map_lookup_filter_Some & [= -> ->]). split.
      * apply (ti_clock _ _ _ Hinv k (e_window e)). unfold registryLook. by rewrite He.
      * rewrite He. by eexists.
    + intros k w l Hk Hnone. apply fmap_Some in Hk as (e & He & [= -> ->]). apply fmap_None in Hnone.
      rewrite map_lookup_filter_None in Hnone. destruct Hnone as [?|Hf]; [congruence|]. specialize (Hf _ He). cbn in Hf.
      unfold Sub, udpReplayRetention, second in *. lia.
  - split; [done|]. right. split; [done|]. destruct Hinv as [Hinv|[_ ?]]; [apply (ti_distinct _ _ _ Hinv)|done].
Qed.

Lemma registryInv_later T T' r tk : T <= T' -> registryInv T r tk -> registryInv T' r tk.
Proof. intros HT [Hs Hi]. split; [done|]. destruct Hi; [left; by eapply tableInv_later|by right]. Qed.

Lemma registryRun_inv ops T s :
  0 <= T -> clocksOk T ops -> registryInv T s.1 s.2 ->
  exists T', registryInv T' (foldl registryStep s ops).1 (foldl registryStep s ops).2.
Proof.
  revert T s. induction ops as [|[t op] ops IH]; intros T [r tk] HT Hc Hinv; [by exists T|].
  destruct Hc as (Ht & Hop & Hc). cbn [foldl]. apply (IH t); [lia|done|].
  pose proof (registryStep_inv t r tk op ltac:(lia) Hop (registryInv_later T t r tk ltac:(lia) Hinv)) as Hs.
  by destruct (registryStep (r, tk) (t, op)).
Qed.

(** the registry of UDP sessions in the Xray inbound, with or without a
    replay cache, never accepts a packet (session, sequence, timestamp) twice
    although it forgets sessions that were idle for 65 seconds, and never
    holds more than 10,000 sessions. *)
Theorem registry_no_replay cache ns ops (Hops : clocksOk 0 ops) :
  NoDup ((fun a => (t_key a, t_seq a, t_ts a)) <$> (registryRun cache ns ops).2) /\
  Z.of_nat (size (entries (registryRun cache ns ops).1)) <= maxUDPReplaySessions.
Proof.
  destruct (registryRun_inv ops 0 (mkRegistry ∅ false cache ns, [])) as (T & Hs & Hi); [done|done| |].
  - split; [done|]. left. eapply tableInv_ext; [|apply tableInv_empty]. intros k. unfold registryLook. cbn. by rewrite lookup_empty.
  - split; [|exact Hs]. destruct Hi as [Hi|[_ ?]]; [apply (ti_distinct _ _ _ Hi)|done].
Qed.

(** ** Witnesses *)

(** A packet accepted by one window; after a machine crash a second window is
    refused its bucket and gets the next one. *)
Definition demoArrivals : list arrival :=
  [mkArrival 0 1 1000 (1000 * second) true; mkArrival 0 1 1000 (1001 * second) true;
   mkArrival 0 2 1001 (1002 * second) true; mkArrival 1 1 1000 (1005 * second) false;
   mkArrival 1 3 1010 (1011 * second) true].

Definition demoKey (b : Z) : gostring := bucketKey (bs "ns") 7 b.

Definition demoCacheRun : list (Z * event) :=
  [(990 * second, EOpen); (1000 * second, EAccept (demoKey 100) (mkIO Compacted None)); (1001 * second, ETick false);
   (1001 * second, EWake 0); (1003 * second, ECrash 0); (1004 * second, EOpen);
   (1005 * second, EAccept (demoKey 100) (mkIO Compacted None));
   (1011 * second, EAccept (demoKey 101) (mkIO Compacted None)); (1012 * second, ETick false); (1012 * second, EWake 2)].

Lemma udp_session_no_replay_witness :
  taken (deliverAll (bs "ns") 7 demoArrivals) =
    [mkArrival 0 1 1000 (1000 * second) true; mkArrival 0 2 1001 (1002 * second) true;
     mkArrival 1 3 1010 (1011 * second) true] /\
  NoDup ((fun a => (a_seq a, a_ts a)) <$> taken (deliverAll (bs "ns") 7 demoArrivals)).
Proof.
  split; [vm_compute; reflexivity|].
  apply (udp_session_no_replay (bs "ns") 7 demoArrivals demoCacheRun).
  - unfold demoArrivals, arrivalOk, is_u64, second. rewrite !Forall_cons, Forall_nil. cbn. lia.
  - unfold demoCacheRun, second. cbn. lia.
  - cbn. lia.
  - assert ((snd <$> asked (deliverAll (bs "ns") 7 demoArrivals)) = callLog (calls (ReplayRuns.run initial demoCacheRun)))
      as -> by (vm_compute; reflexivity).
    reflexivity.
Defined.

(** Signed 30 seconds ahead, a packet is refused as a replay, and after its
    session was forgotten as stale. *)
Definition demoRegistryOps : list (Z * registryOp) :=
  [(1000 * second, RAccept true 7 1 1030); (1060 * second, RAccept true 7 1 1030); (1066 * second, RExpire);
   (1066 * second, RAccept true 7 1 1030); (1066 * second, RAccept true 7 2 1060)].

Lemma registry_no_replay_witness :
  (registryRun false [] demoRegistryOps).2 = [mkTabled 7 1 1030 (1000 * second); mkTabled 7 2 1060 (1066 * second)] /\
  NoDup ((fun a => (t_key a, t_seq a, t_ts a)) <$> (registryRun false [] demoRegistryOps).2).
Proof.
  split; [vm_compute; reflexivity|]. apply (registry_no_replay false [] demoRegistryOps).
  unfold demoRegistryOps, second. cbn. unfold is_u64. lia.
Defined.
