(* ===== verification/UdpBudget.v ===== *)
(** * The budget of UDP sockets: [pkg/server] (udp_budget.go)

    A process-wide counter and a counter per credential.  A reservation hands
    out a closure that gives it back once, however often it is called. *)
From S2P Require Import Prelude GoNet.

Open Scope Z_scope.

(** ** The code *)

Definition MaxUDPTargets : Z := 1024.
Definition MaxUserUDPTargets : Z := 256.

Record Budget := mkBudget {
  used : Z;
  users : gmap gostring Z;
}.

(** [udpTargetsBudget.users[identity]]: a missing key reads as zero. *)
Definition userCount (b : Budget) (identity : gostring) : Z := default 0 (users b !! identity).

(** The closure that [ReserveUDPTarget] returns, with its [sync.Once]. *)
Record lease := mkLease {
  l_identity : gostring;
  l_released : bool;
}.

Definition ReserveUDPTarget (b : Budget) (identity : gostring) : option lease * Budget :=
  if (MaxUDPTargets <=? used b) || (MaxUserUDPTargets <=? userCount b identity) then (None, b)
  else (Some (mkLease identity false),
        mkBudget (used b + 1) (<[identity := userCount b identity + 1]> (users b))).

Definition release (b : Budget) (l : lease) : Budget * lease :=
  if l_released l then (b, l)
  else
    let identity := l_identity l in
    let m := <[identity := userCount b identity - 1]> (users b) in
    let m := if bool_decide (default 0 (m !! identity) = 0) then delete identity m else m in
    (mkBudget (used b - 1) m, mkLease identity true).

(** ** The budget and the reservations that are out *)

Definition counts (identity : gostring) (out : list gostring) : Z := len (filter (eq identity) out).

(** The counters count the reservations [out], and have no entry for others. *)
Record budgetOk (b : Budget) (out : list gostring) : Prop := {
  bo_used : used b = len out;
  bo_users : forall i, users b !! i = if bool_decide (counts i out = 0) then None else Some (counts i out);
  bo_total : used b <= MaxUDPTargets;
  bo_user : forall i, counts i out <= MaxUserUDPTargets;
}.

Definition emptyBudget : Budget := mkBudget 0 ∅.

Lemma budgetOk_empty : budgetOk emptyBudget [].
Proof. split; [done| |done|done]. intros i. cbn. by rewrite lookup_empty. Qed.

Lemma counts_cons i j out : counts i (j :: out) = (if bool_decide (i = j) then 1 else 0) + counts i out.
Proof. unfold counts. rewrite filter_cons. case_decide; case_bool_decide; try done; rewrite ?len_cons; lia. Qed.

Lemma counts_nonneg i out : 0 <= counts i out.
Proof. unfold counts. lia. Qed.

#[export] Instance counts_proper i : Proper ((≡ₚ) ==> eq) (counts i).
Proof. intros a b H. unfold counts. by rewrite H. Qed.

#[export] Instance budgetOk_proper b : Proper ((≡ₚ) ==> iff) (budgetOk b).
Proof.
  intros x y H. assert (len x = len y) as El by (by rewrite H).
  assert (forall i, counts i x = counts i y) as Ec by (intros i; by rewrite H).
  split; intros [H1 H2 H3 H4]; split; try congruence; intros i; (rewrite Ec || rewrite <- Ec); by auto.
Qed.

Lemma userCount_ok b out i : budgetOk b out -> userCount b i = counts i out.
Proof. intros H. unfold userCount. rewrite (bo_users b out H). case_bool_decide; [by symmetry|done]. Qed.

Lemma reserve_ok b out i :
  budgetOk b out ->
  match ReserveUDPTarget b i with
  | (Some l, b') => l = mkLease i false /\ budgetOk b' (i :: out)
  | (None, b') => b' = b /\ (len out = MaxUDPTargets \/ counts i out = MaxUserUDPTargets)
  end.
Proof.
  intros Hb. pose proof Hb as [H1 H2 H3 H4]. unfold ReserveUDPTarget. rewrite (userCount_ok b out i Hb).
  specialize (H4 i) as H4i. destruct (Z.leb_spec MaxUDPTargets (used b)); cbn [orb]; [split; [done|]; left; lia|].
  destruct (Z.leb_spec MaxUserUDPTargets (counts i out)); [split; [done|]; right; lia|].
  split; [done|]. pose proof (counts_nonneg i out). split; cbn [used users].
  - rewrite len_cons. lia.
  - intros j. rewrite counts_cons. destruct (decide (i = j)) as [->|Hne].
    + rewrite lookup_insert_eq, (bool_decide_true (j = j)), bool_decide_false by (done || lia). f_equal. lia.
    + rewrite lookup_insert_ne, H2 by done. rewrite (bool_decide_false (j = i)) by done. done.
  - lia.
  - intros j. rewrite counts_cons. specialize (H4 j). case_bool_decide; subst; lia.
Qed.

Lemma release_ok b out l :
  l_released l = false -> budgetOk b (l_identity l :: out) ->
  exists b', release b l = (b', mkLease (l_identity l) true) /\ budgetOk b' out.
Proof.
  intros Hl Hb. pose proof Hb as [H1 H2 H3 H4]. unfold release. rewrite Hl. eexists. split; [done|].
  set (i := l_identity l) in *. pose proof (counts_nonneg i out).
  assert (userCount b i - 1 = counts i out) as ->.
  { rewrite (userCount_ok b _ i Hb), counts_cons, bool_decide_true by done. lia. }
  rewrite lookup_insert_eq. rewrite len_cons in H1. split; cbn [used users].
  - lia.
  - intros j. change (from_option id 0 (Some (counts i out))) with (counts i out).
    specialize (H2 j). rewrite counts_cons in H2. destruct (decide (i = j)) as [Ej|Hne].
    + subst j. destruct (decide (counts i out = 0)) as [E0|E0].
      * rewrite (bool_decide_true (counts i out = 0)) by done. by rewrite lookup_delete_eq.
      * rewrite (bool_decide_false (counts i out = 0)) by done. by rewrite lookup_insert_eq.
    + rewrite (bool_decide_false (j = i)) in H2 by done. rewrite Z.add_0_l in H2. rewrite <- H2.
      destruct (bool_decide (counts i out = 0)); [rewrite lookup_delete_ne by done|]; by rewrite lookup_insert_ne.
  - lia.
  - intros j. specialize (H4 j). rewrite counts_cons in H4. case_bool_decide; lia.
Qed.

(** ** Callers *)

Inductive budgetOp :=
  | Reserve (identity : gostring)
  | Release (k : nat).             (* the [k]-th closure handed out *)

(** The budget and the closures handed out. *)
Definition budgetStep (s : Budget * list lease) (op : budgetOp) : Budget * list lease :=
  let '(b, ls) := s in
  match op with
  | Reserve i => match ReserveUDPTarget b i with
                 | (Some l, b') => (b', ls ++ [l])
                 | (None, b') => (b', ls)
                 end
  | Release k => match ls !! k with
                 | Some l => let '(b', l') := release b l in (b', <[k := l']> ls)
                 | None => (b, ls)
                 end
  end.

Definition outstanding (ls : list lease) : list gostring := l_identity <$> filter (fun l => l_released l = false) ls.

Lemma outstanding_app l1 l2 : outstanding (l1 ++ l2) = outstanding l1 ++ outstanding l2.
Proof. unfold outstanding. by rewrite filter_app, fmap_app. Qed.

Lemma outstanding_cons l ls :
  outstanding (l :: ls) = (if l_released l then [] else [l_identity l]) ++ outstanding ls.
Proof. unfold outstanding. rewrite filter_cons. case_decide as H; [by rewrite H|]. by destruct (l_released l). Qed.

(** Beside reservations [rest] of others. *)
Lemma budgetStep_ok rest s op :
  budgetOk s.1 (rest ++ outstanding s.2) -> budgetOk (budgetStep s op).1 (rest ++ outstanding (budgetStep s op).2).
Proof.
  destruct s as [b ls]. cbn [fst snd]. intros Hb. destruct op as [i|k]; cbn [budgetStep].
  - pose proof (reserve_ok b _ i Hb) as Hr. destruct (ReserveUDPTarget b i) as [[l|] b']; cbn [fst snd].
    + destruct Hr as [-> Hr]. by rewrite outstanding_app, app_assoc, Permutation_app_comm.
    + by destruct Hr as [-> _].
  - destruct (ls !! k) as [l|] eqn:Ek; [|done]. destruct (l_released l) eqn:El.
    + unfold release. rewrite El. cbn. by rewrite list_insert_id.
    + rewrite <- (take_drop_middle ls k l Ek) in Hb.
      rewrite outstanding_app, outstanding_cons, El in Hb. cbn [app] in Hb. rewrite <- !Permutation_middle in Hb.
      destruct (release_ok b _ l El Hb) as (b' & -> & Hb'). cbn [fst snd].
      rewrite insert_take_drop by (by eapply lookup_lt_Some). by rewrite outstanding_app, outstanding_cons.
Qed.

(** whatever the order of reservations and releases, repeated releases
    included, the counters are exactly the reservations that are out, for the
    process and for every credential, never above 1024 and 256; the table has
    no entry for a credential without one; and a reservation is refused only
    at one of the two limits. *)
Theorem udp_budget_exact ops i :
  let '(b, ls) := foldl budgetStep (emptyBudget, []) ops in
  used b = len (outstanding ls) /\ used b <= MaxUDPTargets /\
  userCount b i = counts i (outstanding ls) /\ userCount b i <= MaxUserUDPTargets /\
  (is_Some (users b !! i) <-> i ∈ outstanding ls) /\
  (fst (ReserveUDPTarget b i) = None <-> used b = MaxUDPTargets \/ userCount b i = MaxUserUDPTargets).
Proof.
  assert (forall s, budgetOk s.1 (outstanding s.2) -> budgetOk (foldl budgetStep s ops).1 (outstanding (foldl budgetStep s ops).2)) as Hrun.
  { induction ops as [|op ops IH]; intros s Hs; [done|]. cbn. by apply IH, (budgetStep_ok []). }
  specialize (Hrun (emptyBudget, []) budgetOk_empty). destruct (foldl _ _ ops) as [b ls]. cbn [fst snd] in Hrun.
  pose proof (userCount_ok _ _ i Hrun) as Hu. destruct Hrun as [H1 H2 H3 H4]. rewrite Hu. specialize (H4 i).
  split_and!; [done|done|done|done| |].
  - rewrite H2. pose proof (counts_nonneg i (outstanding ls)). unfold counts in *. split.
    + case_bool_decide as E; [by intros []|]. intros _. destruct (filter _ _) as [|x f] eqn:Ef; [done|].
      assert (x ∈ filter (eq i) (outstanding ls)) as Hx by (rewrite Ef; left). by apply list_elem_of_filter in Hx as [<- ?].
    + intros Hin. case_bool_decide as E; [|by eexists].
      assert (i ∈ filter (eq i) (outstanding ls)) as Hx by (by apply list_elem_of_filter).
      destruct (filter _ _); [by apply elem_of_nil in Hx|]. rewrite len_cons in E. pose proof (len_nonneg l). lia.
  - unfold ReserveUDPTarget. rewrite Hu. destruct (Z.leb_spec MaxUDPTargets (used b)), (Z.leb_spec MaxUserUDPTargets (counts i (outstanding ls)));
      cbn; split; intros; try done; lia.
Qed.
