(* ===== verification/UdpRoutes.v ===== *)
(** * UDP routes of the Xray inbound: [integration/xray] (udp_routes.go,
    udp_route_budget.go)

    The table of one UDP association: a route (a dispatched link, or a raw ICMP
    socket) per user, session and target; routes that are being opened; the
    eviction of the oldest at 1024; the expiry of idle ones; and the shared
    budget of sockets.  Goroutines interleave: the calls of [Write] and
    [WriteICMP], a receiver per route, the ticker, and [Close].  A step of a
    call is what it does between two points at which others can run: under the
    table's mutex, or one call to the outside.  The closures of
    [reserveNativeRoute] are shared between an opening and its route: they are
    indices into the list of leases. *)
From S2P Require Import Prelude GoIO GoNet Crypto Icmp Target PlainUDP Auth UdpBudget.

Open Scope Z_scope.

#[local] Arguments icmpPrefix : simpl never.
#[local] Arguments bs : simpl never.

(** ** Data *)

Definition maxUDPRoutes : Z := 1024.
Definition udpRouteIdle : Z := 60 * second.

(** [udpRouteKey]: the index of the user, the session, the target. *)
Abbreviation udpRouteKey := (nat * Z * gostring)%type.

(** [udpRoute] and [icmpRoute]; [rt_open] until [once] has run. *)
Inductive routeKind :=
  | UDPRoute
  | ICMPRoute (target : IP) (tracker : gmap Z pendingEcho).

Record route := mkRoute {
  rt_key : udpRouteKey;
  rt_kind : routeKind;
  rt_last : Z;
  rt_open : bool;
  rt_lease : nat;
}.

Record routeOpening := mkOpening {
  ro_done : bool;
  ro_err : option error;
  ro_release : option nat;
}.

(** What [mu] protects. *)
Record table := mkTable {
  tb_closed : bool;
  tb_entries : gmap udpRouteKey nat;
  tb_icmp : gmap udpRouteKey nat;
  tb_opening : gmap udpRouteKey nat;
}.

(** Where a call of [Write] or [WriteICMP] is. *)
Inductive stage :=
  | SBegin                                      (* in the loop of beginRoute *)
  | SWait (o : nat)                             (* for another call's opening *)
  | SEvict (o : nat) (evicted : option nat)     (* its own opening is in the table *)
  | SOpen (o : nat)                             (* with a lease *)
  | SCleanup (o : nat) (e : option nat) (err : error)   (* finishRoute after the mutex, with an error *)
  | SUse (e : nat)                              (* a route to write to *)
  | SClose (e : nat) (err : error)              (* remove after the mutex *)
  | SDone (err : option error).

Record call := mkCall {
  cl_icmp : bool;                               (* WriteICMP *)
  cl_key : udpRouteKey;
  cl_payload : list byte;
  cl_stage : stage;
}.

Inductive output :=
  | ToTarget (key : udpRouteKey) (payload : list byte)
  | ToICMP (ip : IP) (wire : list byte)
  | ToClient (packet : list byte).

Record Routes := mkRoutes {
  rs_table : table;
  rs_ctxDone : bool;                            (* r.ctx.Err() != nil *)
  rs_routes : list route;
  rs_openings : list routeOpening;
  rs_money : Budget * list lease;               (* the budget, this table's closures *)
  rs_foreign : list lease;                      (* the closures of others *)
  rs_calls : list call;
  rs_closers : list nat;                        (* taken out of the table, to be closed *)
  rs_receivers : list nat;
  rs_codecs : list Codec;
  rs_echo : Z;                                  (* the process-wide echo token *)
  rs_out : list output;
  rs_panic : bool;
}.

(** Field updates. *)
Definition setTable (s : Routes) (t : table) : Routes :=
  mkRoutes t (rs_ctxDone s) (rs_routes s) (rs_openings s) (rs_money s) (rs_foreign s) (rs_calls s) (rs_closers s)
    (rs_receivers s) (rs_codecs s) (rs_echo s) (rs_out s) (rs_panic s).
Definition setRoutes (s : Routes) (r : list route) : Routes :=
  mkRoutes (rs_table s) (rs_ctxDone s) r (rs_openings s) (rs_money s) (rs_foreign s) (rs_calls s) (rs_closers s)
    (rs_receivers s) (rs_codecs s) (rs_echo s) (rs_out s) (rs_panic s).
Definition setOpenings (s : Routes) (o : list routeOpening) : Routes :=
  mkRoutes (rs_table s) (rs_ctxDone s) (rs_routes s) o (rs_money s) (rs_foreign s) (rs_calls s) (rs_closers s)
    (rs_receivers s) (rs_codecs s) (rs_echo s) (rs_out s) (rs_panic s).
Definition setMoney (s : Routes) (m : Budget * list lease) : Routes :=
  mkRoutes (rs_table s) (rs_ctxDone s) (rs_routes s) (rs_openings s) m (rs_foreign s) (rs_calls s) (rs_closers s)
    (rs_receivers s) (rs_codecs s) (rs_echo s) (rs_out s) (rs_panic s).
Definition setGoroutines (s : Routes) (closers receivers : list nat) : Routes :=
  mkRoutes (rs_table s) (rs_ctxDone s) (rs_routes s) (rs_openings s) (rs_money s) (rs_foreign s) (rs_calls s) closers
    receivers (rs_codecs s) (rs_echo s) (rs_out s) (rs_panic s).
Definition setCalls (s : Routes) (c : list call) : Routes :=
  mkRoutes (rs_table s) (rs_ctxDone s) (rs_routes s) (rs_openings s) (rs_money s) (rs_foreign s) c (rs_closers s)
    (rs_receivers s) (rs_codecs s) (rs_echo s) (rs_out s) (rs_panic s).
Definition setCodecs (s : Routes) (c : list Codec) : Routes :=
  mkRoutes (rs_table s) (rs_ctxDone s) (rs_routes s) (rs_openings s) (rs_money s) (rs_foreign s) (rs_calls s)
    (rs_closers s) (rs_receivers s) c (rs_echo s) (rs_out s) (rs_panic s).
Definition setEcho (s : Routes) (e : Z) : Routes :=
  mkRoutes (rs_table s) (rs_ctxDone s) (rs_routes s) (rs_openings s) (rs_money s) (rs_foreign s) (rs_calls s)
    (rs_closers s) (rs_receivers s) (rs_codecs s) e (rs_out s) (rs_panic s).
Definition send (s : Routes) (o : output) : Routes :=
  mkRoutes (rs_table s) (rs_ctxDone s) (rs_routes s) (rs_openings s) (rs_money s) (rs_foreign s) (rs_calls s)
    (rs_closers s) (rs_receivers s) (rs_codecs s) (rs_echo s) (rs_out s ++ [o]) (rs_panic s).
Definition panic (s : Routes) : Routes :=
  mkRoutes (rs_table s) (rs_ctxDone s) (rs_routes s) (rs_openings s) (rs_money s) (rs_foreign s) (rs_calls s)
    (rs_closers s) (rs_receivers s) (rs_codecs s) (rs_echo s) (rs_out s) true.

Definition goto (s : Routes) (c : nat) (g : stage) : Routes :=
  setCalls s (alter (fun k => mkCall (cl_icmp k) (cl_key k) (cl_payload k) g) c (rs_calls s)).

Definition putRoute (s : Routes) (e : nat) (r : route) : Routes := setRoutes s (<[e := r]> (rs_routes s)).

(** ** Closing *)

(** [pending.release()], the closure of a reservation. *)
Definition releaseLease (s : Routes) (k : nat) : Routes := setMoney s (budgetStep (rs_money s) (Release k)).

(** [close] of a route: cancel, close the socket, release; once. *)
Definition closeRoute (s : Routes) (e : nat) : Routes :=
  match rs_routes s !! e with
  | Some r =>
      if rt_open r then
        releaseLease (putRoute s e (mkRoute (rt_key r) (rt_kind r) (rt_last r) false (rt_lease r))) (rt_lease r)
      else s
  | None => s
  end.

(** The deletion in [remove] and [removeICMP]: only the route itself. *)
Definition deleteRoute (s : Routes) (key : udpRouteKey) (e : nat) : Routes :=
  let t := rs_table s in
  let keep (m : gmap udpRouteKey nat) := if bool_decide (m !! key = Some e) then delete key m else m in
  match rt_kind <$> rs_routes s !! e with
  | Some UDPRoute => setTable s (mkTable (tb_closed t) (keep (tb_entries t)) (tb_icmp t) (tb_opening t))
  | Some (ICMPRoute _ _) => setTable s (mkTable (tb_closed t) (tb_entries t) (keep (tb_icmp t)) (tb_opening t))
  | None => s
  end.

(** [expire]: the idle ones leave the table and are closed afterwards. *)
Definition isIdle (s : Routes) (now : Z) (e : nat) : bool :=
  match rs_routes s !! e with Some r => udpRouteIdle <=? now - rt_last r | None => false end.

Definition idle (s : Routes) (now : Z) (m : gmap udpRouteKey nat) : gmap udpRouteKey nat :=
  filter (fun p => isIdle s now p.2 = true) m.

Definition expire (s : Routes) (now : Z) : Routes :=
  let t := rs_table s in
  let e1 := idle s now (tb_entries t) in
  let e2 := idle s now (tb_icmp t) in
  setGoroutines
    (setTable s (mkTable (tb_closed t) (tb_entries t ∖ e1) (tb_icmp t ∖ e2) (tb_opening t)))
    (rs_closers s ++ (map_to_list e1).*2 ++ (map_to_list e2).*2) (rs_receivers s).

(** The order in which [range] visits a table. *)
Class RouteOrder := {
  routeOrder : gmap udpRouteKey nat -> list (udpRouteKey * nat);
  routeOrder_perm : forall m, routeOrder m ≡ₚ map_to_list m;
}.

#[export] Instance someRouteOrder : RouteOrder := {| routeOrder := map_to_list; routeOrder_perm m := Permutation_refl _ |}.

Section Code.
  Context `{Crypto} `{RouteOrder}.
  (** The resolver of [icmpmsg.ResolveIP]. *)
  Variable LookupIPAddr : gostring -> result (list IPAddr).

Definition MaxInt64 : Z := 2 ^ 63 - 1.

(** One loop of [evictOldestLocked]: the oldest so far, its time. *)
Fixpoint oldestLoop (s : Routes) (l : list (udpRouteKey * nat)) (best : option (udpRouteKey * nat)) (oldestTime : Z)
  : option (udpRouteKey * nat) * Z :=
  match l with
  | [] => (best, oldestTime)
  | (k, e) :: l =>
      let t := match rs_routes s !! e with Some r => rt_last r | None => 0 end in
      if t <? oldestTime then oldestLoop s l (Some (k, e)) t else oldestLoop s l best oldestTime
  end.

Definition evictOldestLocked (s : Routes) : option nat * table :=
  let t := rs_table s in
  if Z.of_nat (size (tb_entries t)) + Z.of_nat (size (tb_icmp t)) + Z.of_nat (size (tb_opening t)) <? maxUDPRoutes
  then (None, t)
  else
    let '(oldestEntry, t1) := oldestLoop s (routeOrder (tb_entries t)) None MaxInt64 in
    let '(oldestICMP, _) := oldestLoop s (routeOrder (tb_icmp t)) None t1 in
    match oldestICMP, oldestEntry with
    | Some (k, e), _ => (Some e, mkTable (tb_closed t) (tb_entries t) (delete k (tb_icmp t)) (tb_opening t))
    | None, Some (k, e) => (Some e, mkTable (tb_closed t) (delete k (tb_entries t)) (tb_icmp t) (tb_opening t))
    | None, None => (None, t)
    end.

(** ** [beginRoute], [finishRoute] *)

Definition stopped (s : Routes) : bool := tb_closed (rs_table s) || rs_ctxDone s.

(** A turn of the loop of [beginRoute], for a call that expects a UDP route or
    an ICMP route: of the two results it only looks at its own. *)
Definition beginRoute (s : Routes) (c : nat) (k : call) : Routes :=
  let t := rs_table s in
  if stopped s then goto s c (SDone (Some ErrNetClosed))
  else match tb_entries t !! cl_key k with
  | Some e => if cl_icmp k then panic s else goto s c (SUse e)
  | None =>
      match tb_icmp t !! cl_key k with
      | Some e => if cl_icmp k then goto s c (SUse e) else panic s
      | None =>
          match tb_opening t !! cl_key k with
          | Some o => goto s c (SWait o)
          | None =>
              if maxUDPRoutes <=? Z.of_nat (size (tb_opening t))
              then goto s c (SDone (Some (Errorf "UDP route creation limit reached")))
              else
                let '(evicted, t) := evictOldestLocked s in
                let o := length (rs_openings s) in
                let t := mkTable (tb_closed t) (tb_entries t) (tb_icmp t) (<[cl_key k := o]> (tb_opening t)) in
                goto (setOpenings (setTable s t) (rs_openings s ++ [mkOpening false None None])) c (SEvict o evicted)
          end
      end
  end.

(** [finishRoute] under the mutex; [e] is the new route. *)
Definition finishRoute (s : Routes) (c : nat) (key : udpRouteKey) (o : nat) (e : option nat) (err : option error) : Routes :=
  let t := rs_table s in
  let err := if stopped s then Some ErrNetClosed else err in
  let '(entries, icmp, receivers) :=
    match err, e with
    | None, Some i =>
        match rt_kind <$> rs_routes s !! i with
        | Some UDPRoute => (<[key := i]> (tb_entries t), tb_icmp t, rs_receivers s ++ [i])
        | Some (ICMPRoute _ _) => (tb_entries t, <[key := i]> (tb_icmp t), rs_receivers s ++ [i])
        | None => (tb_entries t, tb_icmp t, rs_receivers s)
        end
    | _, _ => (tb_entries t, tb_icmp t, rs_receivers s)
    end in
  let s := setTable s (mkTable (tb_closed t) entries icmp (delete key (tb_opening t))) in
  let s := setOpenings s (alter (fun p => mkOpening true err (ro_release p)) o (rs_openings s)) in
  let s := setGoroutines s (rs_closers s) receivers in
  goto s c match err, e with
           | Some err, _ => SCleanup o e err
           | None, Some i => SUse i
           | None, None => SDone None
           end.

(** ** A call *)

(** What the call meets at its next step. *)
Record input := mkInput {
  in_now : Z;
  in_pick : nat;                   (* which ready case of a select *)
  in_cancelled : bool;             (* the caller's context *)
  in_open : option error;          (* Dispatch, or the ICMP dial *)
  in_write : option error;         (* the write to the route *)
}.

Definition identityOf (identities : list gostring) (key : udpRouteKey) : gostring :=
  default (bs "invalid") (identities !! key.1.1).

(** After [beginRoute] has put the opening into the table: the evicted route is
    closed, then the budget is asked. *)
Definition reserveStep (identities : list gostring) (s : Routes) (c : nat) (k : call) (o : nat) (evicted : option nat) : Routes :=
  match evicted with
  | Some e => goto (closeRoute s e) c (SEvict o None)
  | None =>
      let n := length (rs_money s).2 in
      let m := budgetStep (rs_money s) (Reserve (identityOf identities (cl_key k))) in
      let s := setMoney s m in
      if bool_decide (length m.2 = n)
      then finishRoute s c (cl_key k) o None (Some (Errorf "native UDP route budget exhausted"))
      else goto (setOpenings s (alter (fun p => mkOpening (ro_done p) (ro_err p) (Some n)) o (rs_openings s))) c (SOpen o)
  end.

(** [Dispatch], or the resolution and the dial of ICMP, then [finishRoute]. *)
Definition openStep (s : Routes) (c : nat) (k : call) (o : nat) (i : input) : Routes :=
  let kind :=
    if cl_icmp k then
      let? ip := ResolveICMPIP LookupIPAddr (drop (length icmpPrefix) (cl_key k).2) false in
      match in_open i with Some err => Fail err | None => Ok (ICMPRoute ip ∅) end
    else match in_open i with Some err => Fail err | None => Ok UDPRoute end in
  match kind, rs_openings s !! o ≫= ro_release with
  | Fail err, _ => finishRoute s c (cl_key k) o None (Some err)
  | Ok kd, Some n =>
      let e := length (rs_routes s) in
      let s := setRoutes s (rs_routes s ++ [mkRoute (cl_key k) kd (in_now i) true n]) in
      finishRoute s c (cl_key k) o (Some e) None
  | Ok _, None => panic s
  end.

(** The write to the route. *)
Definition useStep (s : Routes) (c : nat) (k : call) (e : nat) (i : input) : Routes :=
  match rs_routes s !! e with
  | None => panic s
  | Some r =>
      let r := mkRoute (rt_key r) (rt_kind r) (in_now i) (rt_open r) (rt_lease r) in
      let writeErr := if rt_open r then in_write i else Some ErrNetClosed in
      let after (s : Routes) (o : output) :=
        match writeErr with
        | None => goto (send s o) c (SDone None)
        | Some err => goto (deleteRoute s (cl_key k) e) c (SClose e err)
        end in
      match rt_kind r with
      | UDPRoute => after (putRoute s e r) (ToTarget (cl_key k) (cl_payload k))
      | ICMPRoute ip pend =>
          let '(w, tr) := PrepareRequest (in_now i) (mkTracker pend (rs_echo s)) (cl_payload k) (bool_decide (To4 ip = None)) in
          let s := setEcho (putRoute s e (mkRoute (rt_key r) (ICMPRoute ip (pending tr)) (rt_last r) (rt_open r) (rt_lease r)))
                     (nextEchoToken tr) in
          match w with
          | Fail err => goto s c (SDone (Some err))
          | Ok wire => after s (ToICMP ip wire)
          end
      end
  end.

Definition callStep (identities : list gostring) (s : Routes) (c : nat) (i : input) : Routes :=
  match rs_calls s !! c with
  | None => s
  | Some k =>
      match cl_stage k with
      | SBegin => beginRoute s c k
      | SWait o =>
          match in_pick i with
          | 0%nat => match rs_openings s !! o with
                     | Some (mkOpening true (Some err) _) => goto s c (SDone (Some err))
                     | Some (mkOpening true None _) => goto s c SBegin
                     | _ => s
                     end
          | 1%nat => if in_cancelled i then goto s c (SDone (Some (Errorf "context canceled"))) else s
          | _ => if rs_ctxDone s then goto s c (SDone (Some ErrNetClosed)) else s
          end
      | SEvict o evicted => reserveStep identities s c k o evicted
      | SOpen o => openStep s c k o i
      | SCleanup o e err =>
          let s := match e with Some e => closeRoute s e | None => s end in
          let s := match rs_openings s !! o ≫= ro_release with Some n => releaseLease s n | None => s end in
          goto s c (SDone (Some err))
      | SUse e => useStep s c k e i
      | SClose e err => goto (closeRoute s e) c (SDone (Some err))
      | SDone _ => s
      end
  end.

(** ** Receivers, ticker, [Close] *)

(** [receive] and [receiveICMP]: a packet was read on route [e]. *)
Definition receiveData (s : Routes) (n : nat) (from : option IP) (fromText : gostring) (data : list byte) (now : Z) (rnd : reader)
  : Routes :=
  match rs_receivers s !! n with
  | None => s
  | Some e =>
      match rs_routes s !! e with
      | None => panic s
      | Some r =>
          if negb (rt_open r) then s                     (* a closed socket has no data *)
          else
            let answer (s : Routes) (address : gostring) (body : list byte) :=
              match rs_codecs s !! (rt_key r).1.1 with
              | None => s
              | Some c =>
                  let '(p, c') := EncodePacket c [] DirServerToClient (rt_key r).1.2 address body (now / second) rnd in
                  let s := setCodecs s (<[(rt_key r).1.1 := c']> (rs_codecs s)) in
                  match p with Ok (packet, _) => send s (ToClient packet) | Fail _ => s end
              end in
            match rt_kind r with
            | UDPRoute => answer (putRoute s e (mkRoute (rt_key r) UDPRoute now true (rt_lease r))) fromText data
            | ICMPRoute ip pend =>
                match from with
                | Some src =>
                    if negb (Equal src ip) then s
                    else
                      let '(b, tr) := RestoreReply now (mkTracker pend (rs_echo s)) data (bool_decide (To4 ip = None)) in
                      let s := putRoute s e (mkRoute (rt_key r) (ICMPRoute ip (pending tr))
                                 (match b with Some _ => now | None => rt_last r end) true (rt_lease r)) in
                      match b with
                      | Some body => answer s (icmpPrefix ++ IPString ip) body
                      | None => s
                      end
                | None => s
                end
            end
      end
  end.

(** A receiver returns: its deferred [remove]. *)
Definition receiverEnd (s : Routes) (n : nat) : Routes :=
  match rs_receivers s !! n with
  | None => s
  | Some e =>
      match rs_routes s !! e with
      | None => panic s
      | Some r =>
          let s := deleteRoute s (rt_key r) e in
          setGoroutines s (rs_closers s ++ [e]) (delete n (rs_receivers s))
      end
  end.

Definition closerStep (s : Routes) (n : nat) : Routes :=
  match rs_closers s !! n with
  | None => s
  | Some e => let s := closeRoute s e in setGoroutines s (delete n (rs_closers s)) (rs_receivers s)
  end.

(** [r.cancel()], also by the parent's cancellation. *)
Definition cancel (s : Routes) : Routes :=
  mkRoutes (rs_table s) true (rs_routes s) (rs_openings s) (rs_money s) (rs_foreign s) (rs_calls s) (rs_closers s)
    (rs_receivers s) (rs_codecs s) (rs_echo s) (rs_out s) (rs_panic s).

(** [Close]: cancel, then the tables are emptied under the mutex and their
    routes closed. *)
Definition closeTable (s : Routes) : Routes :=
  let s := cancel s in
  let t := rs_table s in
  setGoroutines (setTable s (mkTable true ∅ ∅ (tb_opening t)))
    (rs_closers s ++ (map_to_list (tb_entries t)).*2 ++ (map_to_list (tb_icmp t)).*2) (rs_receivers s).

(** ** Runs *)

Inductive event :=
  | ECall (icmp : bool) (key : udpRouteKey) (payload : list byte)
  | EStep (c : nat) (i : input)
  | EReceive (n : nat) (from : option IP) (fromText : gostring) (data : list byte) (now : Z) (rnd : reader)
  | EReceiverEnd (n : nat)
  | EExpire (now : Z)
  | ECloser (n : nat)
  | ECancel
  | ECloseTable
  | EForeign (op : budgetOp).                   (* another table of the process *)

Definition step (identities : list gostring) (s : Routes) (ev : event) : Routes :=
  if rs_panic s then s
  else match ev with
  | ECall icmp key payload => setCalls s (rs_calls s ++ [mkCall icmp key payload SBegin])
  | EStep c i => callStep identities s c i
  | EReceive n from fromText data now rnd => receiveData s n from fromText data now rnd
  | EReceiverEnd n => receiverEnd s n
  | EExpire now => expire s now
  | ECloser n => closerStep s n
  | ECancel => cancel s
  | ECloseTable => closeTable s
  | EForeign op =>
      let '(b, ls) := budgetStep ((rs_money s).1, rs_foreign s) op in
      mkRoutes (rs_table s) (rs_ctxDone s) (rs_routes s) (rs_openings s) (b, (rs_money s).2) ls (rs_calls s)
        (rs_closers s) (rs_receivers s) (rs_codecs s) (rs_echo s) (rs_out s) (rs_panic s)
  end.

Definition run (identities : list gostring) (s : Routes) (evs : list event) : Routes := foldl (step identities) s evs.

Definition newUDPRoutes (codecs : list Codec) (budget : Budget) (foreign : list lease) (echo : Z) : Routes :=
  mkRoutes (mkTable false ∅ ∅ ∅) false [] [] (budget, []) foreign [] [] [] codecs echo [] false.

End Code.
