(* ===== verification/UdpRouteRuns.v ===== *)
(** * Runs of the UDP route table

    The invariant of [UdpRoutes]: the sizes of the tables, which call is
    responsible for which opening, route and reservation; its preservation by
    every step; and what follows for whole runs. *)
From S2P Require Import Prelude GoIO GoNet Crypto Icmp Target PlainUDP Auth UdpBudget UdpRoutes.

Open Scope Z_scope.

#[local] Arguments icmpPrefix : simpl never.
#[local] Arguments bs : simpl never.

(** ** The invariant *)

Definition isICMP (r : route) : bool := match rt_kind r with UDPRoute => false | ICMPRoute _ _ => true end.

(** The table a route belongs to. *)
Definition tableOf (t : table) (icmp : bool) : gmap udpRouteKey nat := if icmp then tb_icmp t else tb_entries t.

(** The opening a call works on; the one it keeps in the table; the one whose
    lease it must pass on or release; the route it must close. *)
Definition worksOn (g : stage) : option nat := match g with SEvict o _ | SOpen o | SCleanup o _ _ => Some o | _ => None end.
Definition keeps (g : stage) : option nat := match g with SEvict o _ | SOpen o => Some o | _ => None end.
Definition owes (g : stage) : option nat := match g with SOpen o | SCleanup o None _ => Some o | _ => None end.
Definition mustClose (g : stage) : option nat :=
  match g with SEvict _ e => e | SClose e _ => Some e | SCleanup _ e _ => e | _ => None end.

Definition leaseOf (s : Routes) (o : nat) : option nat := rs_openings s !! o ≫= ro_release.

Definition tableSize (t : table) : Z :=
  Z.of_nat (size (tb_entries t)) + Z.of_nat (size (tb_icmp t)) + Z.of_nat (size (tb_opening t)).

Record routesInv (s : Routes) : Prop := {
  ri_bound : tableSize (rs_table s) <= maxUDPRoutes;
  ri_keeps : forall c k o, rs_calls s !! c = Some k -> keeps (cl_stage k) = Some o -> tb_opening (rs_table s) !! cl_key k = Some o;
  ri_fresh : forall c k o, rs_calls s !! c = Some k -> worksOn (cl_stage k) = Some o -> (o < length (rs_openings s))%nat;
  ri_unique : forall c1 c2 k1 k2 o, rs_calls s !! c1 = Some k1 -> rs_calls s !! c2 = Some k2 ->
    worksOn (cl_stage k1) = Some o -> worksOn (cl_stage k2) = Some o -> c1 = c2;
  ri_lease : forall c k o, rs_calls s !! c = Some k -> cl_stage k = SOpen o -> is_Some (leaseOf s o);
  ri_closed : tb_closed (rs_table s) = true -> tb_entries (rs_table s) = ∅ /\ tb_icmp (rs_table s) = ∅;
  ri_disjoint : forall b key, is_Some (tb_opening (rs_table s) !! key) -> tableOf (rs_table s) b !! key = None;
  ri_routes : forall b key e, tableOf (rs_table s) b !! key = Some e ->
    exists r, rs_routes s !! e = Some r /\ isICMP r = b /\ rt_key r = key;
  ri_last : forall e r, rs_routes s !! e = Some r -> rt_last r < MaxInt64;
  ri_use : forall c k e, rs_calls s !! c = Some k -> cl_stage k = SUse e -> is_Some (rs_routes s !! e);
  ri_receivers : forall e, e ∈ rs_receivers s -> is_Some (rs_routes s !! e);
  ri_reach : forall e r, rs_routes s !! e = Some r -> rt_open r = true ->
    tableOf (rs_table s) (isICMP r) !! rt_key r = Some e \/ e ∈ rs_closers s \/
    exists c k, rs_calls s !! c = Some k /\ mustClose (cl_stage k) = Some e;
  ri_money : budgetOk (rs_money s).1 (outstanding (rs_foreign s) ++ outstanding (rs_money s).2);
  ri_paid : forall n l, (rs_money s).2 !! n = Some l -> l_released l = false ->
    (exists e r, rs_routes s !! e = Some r /\ rt_open r = true /\ rt_lease r = n) \/
    (exists c k o, rs_calls s !! c = Some k /\ owes (cl_stage k) = Some o /\ leaseOf s o = Some n);
}.

(** ** Primitive steps *)

Lemma goto_lookup s c g d k :
  rs_calls (goto s c g) !! d = Some k ->
  (d <> c /\ rs_calls s !! d = Some k) \/
  (d = c /\ exists k0, rs_calls s !! c = Some k0 /\ k = mkCall (cl_icmp k0) (cl_key k0) (cl_payload k0) g).
Proof.
  unfold goto. cbn [rs_calls setCalls]. destruct (decide (d = c)) as [->|Hne].
  - rewrite list_lookup_alter_eq. intros Hd. right. split; [done|]. destruct (rs_calls s !! c) as [k0|]; [|done].
    injection Hd as <-. eauto.
  - rewrite list_lookup_alter_ne by done. auto.
Qed.

Lemma goto_self s c g k :
  rs_calls s !! c = Some k -> rs_calls (goto s c g) !! c = Some (mkCall (cl_icmp k) (cl_key k) (cl_payload k) g).
Proof. intros E. unfold goto. cbn [rs_calls setCalls]. by rewrite list_lookup_alter_eq, E. Qed.

Lemma goto_other s c g d : d <> c -> rs_calls (goto s c g) !! d = rs_calls s !! d.
Proof. intros Hne. unfold goto. cbn [rs_calls setCalls]. by rewrite list_lookup_alter_ne. Qed.

(** A call moves on without giving up what it is responsible for. *)
Lemma inv_goto s c k g :
  routesInv s -> rs_calls s !! c = Some k ->
  keeps g = None \/ keeps g = keeps (cl_stage k) ->
  worksOn g = None \/ worksOn g = worksOn (cl_stage k) ->
  (forall o, g = SOpen o -> is_Some (leaseOf s o)) ->
  (forall e, g = SUse e -> is_Some (rs_routes s !! e)) ->
  (forall e, mustClose (cl_stage k) = Some e -> mustClose g = Some e \/
     (forall r, rs_routes s !! e = Some r -> rt_open r = true ->
        tableOf (rs_table s) (isICMP r) !! rt_key r = Some e \/ e ∈ rs_closers s)) ->
  (forall o n l, owes (cl_stage k) = Some o -> leaseOf s o = Some n -> (rs_money s).2 !! n = Some l -> l_released l = false ->
     owes g = Some o \/ exists e r, rs_routes s !! e = Some r /\ rt_open r = true /\ rt_lease r = n) ->
  routesInv (goto s c g).
Proof.
  intros Hi Hc Hk Hw Hl Hu Hm Ho. destruct Hi as [A1 A2 A3 A4 A5 A6 A7 B1 B2 B3 B4 B5 C1 C2]. split; try done.
  - intros d q o [[Hne Hd]|(-> & k0 & Hd & ->)]%goto_lookup E; cbn [cl_stage cl_key] in *; [by eapply A2|].
    assert (k0 = k) as -> by congruence. destruct Hk as [Hk|Hk]; rewrite Hk in E; [done|]. by eapply A2.
  - intros d q o [[Hne Hd]|(-> & k0 & Hd & ->)]%goto_lookup E; cbn [cl_stage] in *; [by eapply A3|].
    assert (k0 = k) as -> by congruence. destruct Hw as [Hw|Hw]; rewrite Hw in E; [done|]. by eapply A3.
  - intros d1 d2 q1 q2 o [[Hne1 Hd1]|(-> & k1 & Hd1 & ->)]%goto_lookup [[Hne2 Hd2]|(-> & k2 & Hd2 & ->)]%goto_lookup E1 E2;
      cbn [cl_stage] in *; [by eapply A4| | |done].
    + assert (k2 = k) as -> by congruence. destruct Hw as [Hw|Hw]; rewrite Hw in E2; [done|]. by eapply A4.
    + assert (k1 = k) as -> by congruence. destruct Hw as [Hw|Hw]; rewrite Hw in E1; [done|]. by eapply A4.
  - intros d q o [[Hne Hd]|(-> & k0 & Hd & ->)]%goto_lookup E; cbn [cl_stage] in *; [by eapply A5|by apply Hl].
  - intros d q e [[Hne Hd]|(-> & k0 & Hd & ->)]%goto_lookup E; cbn [cl_stage] in *; [by eapply B3|by apply Hu].
  - intros e r Hr Hop. destruct (B5 e r Hr Hop) as [?|[?|(d & q & Hd & Hq)]]; [by left|by right; left|].
    destruct (decide (d = c)) as [->|Hne].
    + assert (q = k) as -> by congruence. destruct (Hm e Hq) as [Hg|Hg].
      * right; right. exists c. eexists. split; [by apply goto_self|done].
      * destruct (Hg r Hr Hop); [by left|by right; left].
    + right; right. exists d, q. by rewrite goto_other.
  - intros n l Hn Hrel. destruct (C2 n l Hn Hrel) as [?|(d & q & o & Hd & Hq & Ho')]; [by left|].
    destruct (decide (d = c)) as [->|Hne].
    + assert (q = k) as -> by congruence. destruct (Ho o n l Hq Ho' Hn Hrel) as [Hg|Hg]; [|by left].
      right. exists c. eexists. exists o. split; [by apply goto_self|done].
    + right. exists d, q, o. by rewrite goto_other.
Qed.

(** A call with nothing to pass on ends or changes to such a stage. *)
Lemma inv_goto_plain s c k g :
  routesInv s -> rs_calls s !! c = Some k -> keeps g = None -> worksOn g = None ->
  (forall e, g = SUse e -> is_Some (rs_routes s !! e)) ->
  mustClose (cl_stage k) = None -> owes (cl_stage k) = None -> routesInv (goto s c g).
Proof.
  intros Hi Hc Hk Hw Hu Hm Ho. apply (inv_goto s c k); auto; try (by rewrite ?Hm, ?Ho).
  intros o ->. done.
Qed.

Lemma release_lookup m n n' l :
  (budgetStep m (Release n)).2 !! n' = Some l -> l_released l = false -> n' <> n /\ m.2 !! n' = Some l.
Proof.
  destruct m as [b ls]. cbn [budgetStep snd]. destruct (ls !! n) as [l0|] eqn:El.
  - destruct (release b l0) as [b' l1] eqn:Er. cbn [snd]. intros Hn Hl.
    assert (l_released l1 = true) as Hl1.
    { unfold release in Er. destruct (l_released l0) eqn:E0; [by simplify_eq|]. injection Er as _ <-. done. }
    destruct (decide (n' = n)) as [->|Hne]; [|by rewrite list_lookup_insert_ne in Hn].
    rewrite list_lookup_insert_eq in Hn by (by eapply lookup_lt_Some). congruence.
  - cbn [snd]. intros Hn Hl. split; [|done]. intros ->. congruence.
Qed.

Lemma inv_release s n : routesInv s -> routesInv (releaseLease s n).
Proof.
  intros [A1 A2 A3 A4 A5 A6 A7 B1 B2 B3 B4 B5 C1 C2]. split; try done.
  - by apply (budgetStep_ok (outstanding (rs_foreign s)) (rs_money s)).
  - intros n' l Hn Hr. destruct (release_lookup _ _ _ _ Hn Hr) as [Hne Hl].
    destruct (C2 n' l Hl Hr) as [?|?]; [by left|by right].
Qed.

(** The closing of a route releases its lease. *)
Lemma inv_closeRoute s e : routesInv s -> routesInv (closeRoute s e).
Proof.
  intros Hi. unfold closeRoute. destruct (rs_routes s !! e) as [r|] eqn:Er; [|done]. destruct (rt_open r) eqn:Eo; [|done].
  destruct Hi as [A1 A2 A3 A4 A5 A6 A7 B1 B2 B3 B4 B5 C1 C2].
  assert (forall x, is_Some (rs_routes s !! x) ->
    is_Some (<[e := mkRoute (rt_key r) (rt_kind r) (rt_last r) false (rt_lease r)]> (rs_routes s) !! x)) as Hsome.
  { intros x Hx. by apply list_lookup_insert_is_Some. }
  assert (forall x y, <[e := mkRoute (rt_key r) (rt_kind r) (rt_last r) false (rt_lease r)]> (rs_routes s) !! x = Some y ->
    (x = e /\ y = mkRoute (rt_key r) (rt_kind r) (rt_last r) false (rt_lease r)) \/ (x <> e /\ rs_routes s !! x = Some y)) as Hlk.
  { intros x y Hy. apply list_lookup_insert_Some in Hy as [(<- & <- & _)|[? ?]]; [by left|by right]. }
  split; try done; cbn [releaseLease putRoute setMoney setRoutes rs_table rs_routes rs_money rs_foreign rs_calls rs_closers rs_receivers rs_openings leaseOf].
  - intros b key x Hx. destruct (B1 b key x Hx) as (y & Hy & Hb & Hk). destruct (decide (x = e)) as [->|Hne].
    + assert (y = r) as -> by congruence. eexists. split; [by rewrite list_lookup_insert_eq by (by eapply lookup_lt_Some)|done].
    + exists y. by rewrite list_lookup_insert_ne.
  - intros x y [[-> ->]|[? Hy]]%Hlk; [by apply (B2 e r)|by eapply B2].
  - intros c k x Hc Hk. apply Hsome. by eapply B3.
  - intros x Hx. apply Hsome. by apply B4.
  - intros x y [[-> ->]|[? Hy]]%Hlk Hop; [done|by eapply B5].
  - by apply (budgetStep_ok (outstanding (rs_foreign s)) (rs_money s)).
  - intros n l Hn Hr. destruct (release_lookup _ _ _ _ Hn Hr) as [Hne Hl]. destruct (C2 n l Hl Hr) as [(x & y & Hy & Ho & Hle)|?]; [|by right].
    left. exists x, y. split; [|done]. rewrite list_lookup_insert_ne; [done|]. intros <-. congruence.
Qed.

(** The time of last use and the tracker of a route may change. *)
Lemma inv_putRoute s e r r' :
  routesInv s -> rs_routes s !! e = Some r -> rt_key r' = rt_key r -> isICMP r' = isICMP r -> rt_open r' = rt_open r ->
  rt_lease r' = rt_lease r -> rt_last r' < MaxInt64 -> routesInv (putRoute s e r').
Proof.
  intros [A1 A2 A3 A4 A5 A6 A7 B1 B2 B3 B4 B5 C1 C2] Er Hk Hi Ho Hl Ht.
  assert (length (rs_routes s) > e)%nat as Hlt by (by eapply lookup_lt_Some).
  assert (forall x, is_Some (rs_routes s !! x) -> is_Some (<[e := r']> (rs_routes s) !! x)) as Hsome.
  { intros x Hx. by apply list_lookup_insert_is_Some. }
  split; try done; cbn [putRoute setRoutes rs_table rs_routes rs_money rs_foreign rs_calls rs_closers rs_receivers].
  - intros b key x Hx. destruct (B1 b key x Hx) as (y & Hy & Hb & Hkey). destruct (decide (x = e)) as [->|Hne].
    + assert (y = r) as -> by congruence. exists r'. split; [by apply list_lookup_insert_eq|]. by rewrite Hi, Hk.
    + exists y. by rewrite list_lookup_insert_ne.
  - intros x y [(<- & <- & _)|[? Hy]]%list_lookup_insert_Some; [done|by eapply B2].
  - intros c k x Hc Hst. apply Hsome. by eapply B3.
  - intros x Hx. apply Hsome. by apply B4.
  - intros x y [(<- & <- & _)|[? Hy]]%list_lookup_insert_Some Hop; [|by eapply B5].
    rewrite Hi, Hk. apply B5; [done|]. by rewrite <- Ho.
  - intros n l Hn Hrel. destruct (C2 n l Hn Hrel) as [(x & y & Hy & Hop & Hle)|?]; [|by right]. left.
    destruct (decide (x = e)) as [->|Hne].
    + assert (y = r) as -> by congruence. exists e, r'. split; [by apply list_lookup_insert_eq|]. by rewrite Ho, Hl.
    + exists x, y. by rewrite list_lookup_insert_ne.
Qed.

(** Fields the invariant does not mention. *)
Lemma inv_send s o : routesInv s -> routesInv (send s o).
Proof. by intros []. Qed.
Lemma inv_setEcho s e : routesInv s -> routesInv (setEcho s e).
Proof. by intros []. Qed.
Lemma inv_setCodecs s c : routesInv s -> routesInv (setCodecs s c).
Proof. by intros []. Qed.
Lemma inv_panic s : routesInv s -> routesInv (panic s).
Proof. by intros []. Qed.
Lemma inv_cancel s : routesInv s -> routesInv (cancel s).
Proof. by intros []. Qed.

Create HintDb routes.
#[local] Hint Resolve inv_send inv_setEcho inv_setCodecs inv_panic inv_cancel inv_closeRoute : routes.

(** Routes leave the table into the hands of someone who closes them. *)
Lemma inv_shrink s entries icmp closers receivers closed :
  routesInv s -> entries ⊆ tb_entries (rs_table s) -> icmp ⊆ tb_icmp (rs_table s) ->
  (forall e, e ∈ rs_closers s -> e ∈ closers) -> (forall e, e ∈ receivers -> e ∈ rs_receivers s) ->
  (forall key e b, tableOf (rs_table s) b !! key = Some e ->
     tableOf (mkTable closed entries icmp (tb_opening (rs_table s))) b !! key = Some e \/ e ∈ closers) ->
  (closed = true -> entries = ∅ /\ icmp = ∅) ->
  routesInv (setGoroutines (setTable s (mkTable closed entries icmp (tb_opening (rs_table s)))) closers receivers).
Proof.
  intros [A1 A2 A3 A4 A5 A6 A7 B1 B2 B3 B4 B5 C1 C2] He Hi Hc Hr Hkeep Hcl. split; try done;
    cbn [setGoroutines setTable rs_table rs_closers rs_receivers rs_calls rs_routes tb_opening tb_closed tb_entries tb_icmp].
  - unfold tableSize in *. cbn. pose proof (map_subseteq_size _ _ He). pose proof (map_subseteq_size _ _ Hi). lia.
  - intros b key Hop. specialize (A7 b key Hop). destruct b; cbn [tableOf] in *; by eapply lookup_weaken_None.
  - intros b key e Hlk. apply (B1 b key e). destruct b; cbn [tableOf] in *; by eapply lookup_weaken.
  - intros e Hin. apply B4. by apply Hr.
  - intros e r Hrt Ho. destruct (B5 e r Hrt Ho) as [Hin|[Hin|Hin]]; [|right; left; by apply Hc|by right; right].
    destruct (Hkeep _ _ _ Hin); [by left|by right; left].
Qed.

Lemma keep_spec (m : gmap udpRouteKey nat) key e :
  let m' := if bool_decide (m !! key = Some e) then delete key m else m in
  m' ⊆ m /\ forall key' e', m !! key' = Some e' -> m' !! key' = Some e' \/ e' = e.
Proof.
  cbv zeta. case_bool_decide as E; [|by split; [|auto]]. split; [apply delete_subseteq|]. intros key' e' Hk.
  destruct (decide (key = key')) as [<-|Hne]; [right; congruence|left]. by rewrite lookup_delete_ne.
Qed.

Lemma deleteRoute_spec s key e :
  exists entries icmp,
    deleteRoute s key e = setTable s (mkTable (tb_closed (rs_table s)) entries icmp (tb_opening (rs_table s))) /\
    entries ⊆ tb_entries (rs_table s) /\ icmp ⊆ tb_icmp (rs_table s) /\
    forall key' e' b, tableOf (rs_table s) b !! key' = Some e' ->
      tableOf (mkTable (tb_closed (rs_table s)) entries icmp (tb_opening (rs_table s))) b !! key' = Some e' \/ e' = e.
Proof.
  unfold deleteRoute. destruct (keep_spec (tb_entries (rs_table s)) key e) as [S1 K1].
  destruct (keep_spec (tb_icmp (rs_table s)) key e) as [S2 K2].
  destruct (rt_kind <$> rs_routes s !! e) as [[|ip pend]|].
  - eexists _, _. split_and!; [done|done|done|]. intros key' e' [] Hk; cbn [tableOf] in *; [by left|by apply K1].
  - eexists _, _. split_and!; [done|done|done|]. intros key' e' [] Hk; cbn [tableOf] in *; [by apply K2|by left].
  - exists (tb_entries (rs_table s)), (tb_icmp (rs_table s)). split_and!; [by destruct s as [[]]|done|done|].
    intros key' e' [] Hk; by left.
Qed.

Lemma inv_remove s key e receivers :
  routesInv s -> (forall x, x ∈ receivers -> x ∈ rs_receivers s) ->
  routesInv (setGoroutines (deleteRoute s key e) (rs_closers s ++ [e]) receivers).
Proof.
  intros Hi Hr. destruct (deleteRoute_spec s key e) as (en & ic & -> & He & Hic & Hk).
  apply inv_shrink; try done.
  - intros x Hx. by apply elem_of_app; left.
  - intros key' x b Hx. destruct (Hk _ _ _ Hx) as [?| ->]; [by left|right]. apply elem_of_app. right. by apply list_elem_of_singleton.
  - intros Hcl. destruct (ri_closed s Hi Hcl) as [E1 E2]. rewrite E1 in He. rewrite E2 in Hic.
    assert (forall m : gmap udpRouteKey nat, m ⊆ ∅ -> m = ∅) as Hempty.
    { intros m Hm. apply map_empty. intros i. destruct (m !! i) as [x|] eqn:Ex; [|done].
      eapply lookup_weaken in Ex; [|exact Hm]. by rewrite lookup_empty in Ex. }
    split; by apply Hempty.
Qed.

(** A route that some call is about to close need not be among the closers. *)
Lemma inv_dropCloser s closers :
  routesInv s ->
  (forall e r, e ∈ rs_closers s -> rs_routes s !! e = Some r -> rt_open r = true ->
     tableOf (rs_table s) (isICMP r) !! rt_key r = Some e \/ e ∈ closers \/
     exists c k, rs_calls s !! c = Some k /\ mustClose (cl_stage k) = Some e) ->
  routesInv (setGoroutines s closers (rs_receivers s)).
Proof.
  intros [A1 A2 A3 A4 A5 A6 A7 B1 B2 B3 B4 B5 C1 C2] Hcl. split; try done. intros e r Hr Ho.
  destruct (B5 e r Hr Ho) as [?|[Hin|?]]; [by left| |by right; right].
  by apply (Hcl e r).
Qed.

(** [remove] in a call, up to its unlock. *)
Lemma inv_removeCall s c k e err :
  routesInv s -> rs_calls s !! c = Some k -> cl_stage k = SUse e ->
  routesInv (goto (deleteRoute s (cl_key k) e) c (SClose e err)).
Proof.
  intros Hi Hc Hk. pose proof (inv_remove s (cl_key k) e (rs_receivers s) Hi ltac:(done)) as H1.
  destruct (deleteRoute_spec s (cl_key k) e) as (en & ic & E & _). rewrite E in *.
  set (s1 := setGoroutines _ _ _) in H1.
  assert (routesInv (goto s1 c (SClose e err))) as H2.
  { apply (inv_goto s1 c k); try (by auto); rewrite Hk; done. }
  change (routesInv (setGoroutines (goto s1 c (SClose e err)) (rs_closers s) (rs_receivers (goto s1 c (SClose e err))))).
  apply inv_dropCloser; [done|]. intros x r [Hx| ->%list_elem_of_singleton]%elem_of_app Hr Ho; [by right; left|].
  right; right. exists c. eexists. split; [by apply goto_self|done].
Qed.

Lemma inv_expire s now : routesInv s -> routesInv (expire s now).
Proof.
  intros Hi. unfold expire. set (e1 := idle s now (tb_entries (rs_table s))). set (e2 := idle s now (tb_icmp (rs_table s))).
  assert (forall (m x : gmap udpRouteKey nat), m ∖ x ⊆ m) as Hsub.
  { intros m x. apply map_subseteq_spec. intros i y Hy. by apply lookup_difference_Some in Hy as [? _]. }
  assert (forall m key e, m !! key = Some e ->
    (m ∖ idle s now m) !! key = Some e \/ e ∈ (map_to_list (idle s now m)).*2) as Hsplit.
  { intros m key e Hk. destruct (idle s now m !! key) as [y|] eqn:Ey.
    - right. apply map_lookup_filter_Some in Ey as Ey'. destruct Ey' as [Ey' _]. assert (y = e) as -> by congruence.
      apply list_elem_of_fmap. exists (key, e). split; [done|]. by apply elem_of_map_to_list.
    - left. by apply lookup_difference_Some. }
  apply inv_shrink; try done.
  - intros e He. by apply elem_of_app; left.
  - intros key e b Hk. rewrite !elem_of_app. destruct b; cbn [tableOf tb_entries tb_icmp] in *.
    + destruct (Hsplit _ _ _ Hk); tauto.
    + destruct (Hsplit _ _ _ Hk); tauto.
  - intros Hc. destruct (ri_closed s Hi Hc) as [E1 E2]. unfold e1, e2. rewrite E1, E2. split; apply map_empty_difference; apply map_empty_subseteq.
Qed.

Lemma inv_closeTable s : routesInv s -> routesInv (closeTable s).
Proof.
  intros Hi%inv_cancel. unfold closeTable. apply inv_shrink; try done; try apply map_empty_subseteq.
  - intros e He. by apply elem_of_app; left.
  - intros key e b Hk. right. rewrite !elem_of_app. right.
    assert (forall m : gmap udpRouteKey nat, m !! key = Some e -> e ∈ (map_to_list m).*2) as Hin.
    { intros m Hm. apply list_elem_of_fmap. exists (key, e). split; [done|]. by apply elem_of_map_to_list. }
    destruct b; cbn [tableOf] in Hk; [right|left]; by apply Hin.
Qed.

Lemma inv_receiverEnd s n : routesInv s -> routesInv (receiverEnd s n).
Proof.
  intros Hi. unfold receiverEnd. destruct (rs_receivers s !! n) as [e|] eqn:En; [|done].
  destruct (rs_routes s !! e) as [r|] eqn:Er; [|auto with routes].
  assert (rs_closers (deleteRoute s (rt_key r) e) = rs_closers s /\ rs_receivers (deleteRoute s (rt_key r) e) = rs_receivers s) as [-> ->].
  { destruct (deleteRoute_spec s (rt_key r) e) as (en & ic & -> & _). done. }
  apply inv_remove; [done|]. intros x Hx. by eapply list_elem_of_delete_inv.
Qed.

Lemma closeRoute_closed s e r : rs_routes (closeRoute s e) !! e = Some r -> rt_open r = false.
Proof.
  unfold closeRoute. destruct (rs_routes s !! e) as [r0|] eqn:Er; [|congruence]. destruct (rt_open r0) eqn:Eo; [|congruence].
  cbn [releaseLease putRoute setMoney setRoutes rs_routes].
  rewrite list_lookup_insert_eq by (by eapply lookup_lt_Some). by intros [= <-].
Qed.

Lemma closeRoute_frame s e :
  rs_table (closeRoute s e) = rs_table s /\ rs_calls (closeRoute s e) = rs_calls s /\ rs_openings (closeRoute s e) = rs_openings s /\
  rs_closers (closeRoute s e) = rs_closers s /\ rs_receivers (closeRoute s e) = rs_receivers s /\ rs_panic (closeRoute s e) = rs_panic s.
Proof. unfold closeRoute. destruct (rs_routes s !! e) as [r|]; [|done]. by destruct (rt_open r). Qed.

Lemma inv_closerStep s n : routesInv s -> routesInv (closerStep s n).
Proof.
  intros Hi. unfold closerStep. destruct (rs_closers s !! n) as [e|] eqn:En; [|done].
  destruct (closeRoute_frame s e) as (_ & _ & _ & Ec & Er & _).
  apply inv_dropCloser; [by apply inv_closeRoute|]. intros x r Hx Hr Ho. rewrite Ec in Hx |- *.
  destruct (decide (x = e)) as [->|Hne]; [apply closeRoute_closed in Hr; congruence|].
  right; left. apply list_elem_of_lookup in Hx as (m & Hm). apply list_elem_of_lookup.
  destruct (decide (m < n)%nat).
  - exists m. by rewrite list_lookup_delete_lt.
  - assert (m <> n) by (intros ->; congruence). exists (m - 1)%nat. rewrite list_lookup_delete_ge by lia.
    by replace (S (m - 1)) with m by lia.
Qed.

(** ** Openings *)

(** A call puts a fresh opening into the table. *)
Lemma inv_addOpening s c k evicted :
  routesInv s -> rs_calls s !! c = Some k -> cl_stage k = SBegin -> tableSize (rs_table s) < maxUDPRoutes ->
  tb_opening (rs_table s) !! cl_key k = None -> (forall b, tableOf (rs_table s) b !! cl_key k = None) ->
  let t := rs_table s in
  let o := length (rs_openings s) in
  routesInv (goto (setOpenings
    (setTable s (mkTable (tb_closed t) (tb_entries t) (tb_icmp t) (<[cl_key k := o]> (tb_opening t))))
    (rs_openings s ++ [mkOpening false None None])) c (SEvict o evicted)).
Proof.
  intros [A1 A2 A3 A4 A5 A6 A7 B1 B2 B3 B4 B5 C1 C2] Hc Hk Hsz Hno Hfree t o. subst t.
  assert (forall d q x, d <> c -> rs_calls s !! d = Some q -> worksOn (cl_stage q) = Some x -> x <> o) as Hold.
  { intros d q x _ Hd Hx ->. pose proof (A3 d q o Hd Hx). unfold o in *. lia. }
  assert (forall x, (x < o)%nat -> (rs_openings s ++ [mkOpening false None None]) !! x = rs_openings s !! x) as Hopen.
  { intros x Hx. by rewrite lookup_app_l. }
  split; try done; cbn [goto setCalls setOpenings setTable rs_table rs_openings rs_routes rs_receivers rs_closers rs_money tb_opening tb_closed tb_entries tb_icmp tableOf].
  - unfold tableSize in *. cbn [tb_entries tb_icmp tb_opening]. rewrite map_size_insert_None by done. lia.
  - intros d q x [[Hne Hd]|(-> & k0 & Hd & ->)]%goto_lookup E; cbn [cl_stage cl_key] in *.
    + pose proof (A2 d q x Hd E) as Hq. rewrite lookup_insert_ne; [done|]. intros Heq. cbn [rs_calls setOpenings setTable] in Hd. congruence.
    + cbn [rs_calls setOpenings setTable] in Hd. assert (k0 = k) as -> by congruence. injection E as <-. by rewrite lookup_insert_eq.
  - intros d q x [[Hne Hd]|(-> & k0 & Hd & ->)]%goto_lookup E; cbn [cl_stage] in *; rewrite length_app; cbn [length].
    + pose proof (A3 d q x Hd E). lia.
    + injection E as <-. unfold o. lia.
  - intros d1 d2 q1 q2 x [[Hne1 Hd1]|(-> & k1 & Hd1 & ->)]%goto_lookup [[Hne2 Hd2]|(-> & k2 & Hd2 & ->)]%goto_lookup E1 E2;
      cbn [cl_stage rs_calls setOpenings setTable] in *; [by eapply A4| | |done].
    + injection E2 as <-. by destruct (Hold d1 q1 o Hne1 Hd1 E1).
    + injection E1 as <-. by destruct (Hold d2 q2 o Hne2 Hd2 E2).
  - intros d q x [[Hne Hd]|(-> & k0 & Hd & ->)]%goto_lookup E; cbn [cl_stage] in *; [|done].
    unfold leaseOf. cbn [goto setCalls setOpenings setTable rs_openings]. rewrite Hopen; [by eapply A5|].
    apply (A3 d q x Hd). by rewrite E.
  - intros b key [x Hx]. destruct (decide (cl_key k = key)) as [<-|Hne]; [apply Hfree|]. rewrite lookup_insert_ne in Hx by done.
    apply (A7 b key). by exists x.
  - intros d q e [[Hne Hd]|(-> & k0 & Hd & ->)]%goto_lookup E; cbn [cl_stage] in *; [by eapply B3|done].
  - intros e r Hr Ho. destruct (B5 e r Hr Ho) as [?|[?|(d & q & Hd & Hq)]]; [by left|by right; left|].
    right; right. exists d, q. rewrite goto_other; [done|]. intros ->. assert (q = k) as -> by congruence. by rewrite Hk in Hq.
  - intros n l Hn Hr. destruct (C2 n l Hn Hr) as [?|(d & q & x & Hd & Hq & Hx)]; [by left|]. right. exists d, q, x.
    rewrite goto_other by (intros ->; assert (q = k) as -> by congruence; by rewrite Hk in Hq).
    split_and!; [done|done|]. unfold leaseOf in *. cbn [goto setCalls setOpenings setTable rs_openings]. rewrite Hopen; [done|].
    apply (A3 d q x Hd). destruct (cl_stage q) as [| | | |? []| | |]; done.
Qed.

(** The call gives its opening up: the table loses it, its lease stays. *)
Lemma inv_unopen s c k o f g :
  routesInv s -> rs_calls s !! c = Some k -> keeps (cl_stage k) = Some o -> mustClose (cl_stage k) = None ->
  (forall p, ro_release (f p) = ro_release p) ->
  keeps g = None -> worksOn g = None \/ worksOn g = Some o ->
  (forall e, g = SUse e -> is_Some (rs_routes s !! e)) ->
  (forall n l, owes (cl_stage k) = Some o -> leaseOf s o = Some n -> (rs_money s).2 !! n = Some l -> l_released l = false ->
     owes g = Some o \/ exists e r, rs_routes s !! e = Some r /\ rt_open r = true /\ rt_lease r = n) ->
  let t := rs_table s in
  let s' := goto (setOpenings (setTable s (mkTable (tb_closed t) (tb_entries t) (tb_icmp t) (delete (cl_key k) (tb_opening t))))
    (alter f o (rs_openings s))) c g in
  routesInv s' /\ tableSize (rs_table s') < maxUDPRoutes.
Proof.
  intros [A1 A2 A3 A4 A5 A6 A7 B1 B2 B3 B4 B5 C1 C2] Hc Hk Hm Hf Hg Hw Hu Ho t. subst t. cbv zeta.
  pose proof (A2 c k o Hc Hk) as Hopen.
  assert (worksOn (cl_stage k) = Some o) as Hwk by (destruct (cl_stage k); done).
  assert (forall x, alter f o (rs_openings s) !! x ≫= ro_release = leaseOf s x) as Hlease.
  { intros x. unfold leaseOf. destruct (decide (x = o)) as [->|Hne]; [|by rewrite list_lookup_alter_ne].
    rewrite list_lookup_alter_eq. destruct (rs_openings s !! o) as [p|]; [|done]. cbn. apply Hf. }
  set (t' := mkTable _ _ _ (delete _ _)). set (s1 := setOpenings _ _).
  assert (tableSize t' < maxUDPRoutes) as Hsz.
  { unfold tableSize, t' in *. cbn [tb_entries tb_icmp tb_opening]. rewrite map_size_delete, Hopen.
    assert (size (tb_opening (rs_table s)) <> 0%nat).
    { intros E. apply map_size_empty_iff in E. rewrite E, lookup_empty in Hopen. done. } lia. }
  split; [|exact Hsz]. split; try done; cbn [goto setCalls rs_table rs_openings rs_routes rs_receivers rs_closers rs_money s1 setOpenings setTable].
  - lia.
  - intros d q x [[Hne Hd]|(-> & k0 & Hd & ->)]%goto_lookup E; cbn [cl_stage cl_key] in *; [|congruence].
    pose proof (A2 d q x Hd E) as Hq. unfold t'. cbn [tb_opening]. rewrite lookup_delete_ne; [done|]. intros Heq.
    apply Hne. assert (x = o) as -> by congruence. apply (A4 d c q k o); try done. by destruct (cl_stage q).
  - intros d q x [[Hne Hd]|(-> & k0 & Hd & ->)]%goto_lookup E; cbn [cl_stage] in *; rewrite length_alter; [by eapply A3|].
    destruct Hw as [Hw|Hw]; rewrite Hw in E; [done|]. injection E as <-. exact (A3 c k o Hc Hwk).
  - intros d1 d2 q1 q2 x [[Hne1 Hd1]|(-> & k1 & Hd1 & ->)]%goto_lookup [[Hne2 Hd2]|(-> & k2 & Hd2 & ->)]%goto_lookup E1 E2;
      cbn [cl_stage] in *; [by eapply A4| | |done].
    + destruct Hw as [Hw|Hw]; rewrite Hw in E2; [done|]. injection E2 as <-. by apply (A4 d1 c q1 k o).
    + destruct Hw as [Hw|Hw]; rewrite Hw in E1; [done|]. injection E1 as <-. by apply (A4 c d2 k q2 o).
  - intros d q x [[Hne Hd]|(-> & k0 & Hd & ->)]%goto_lookup E; cbn [cl_stage] in *; [|by rewrite E in Hg].
    unfold leaseOf. cbn [goto setCalls rs_openings s1 setOpenings]. rewrite Hlease. by eapply A5.
  - intros b key [x Hx]. apply (A7 b key). unfold t' in Hx. cbn [tb_opening] in Hx. apply lookup_delete_Some in Hx as [_ Hx]. by exists x.
  - intros d q e [[Hne Hd]|(-> & k0 & Hd & ->)]%goto_lookup E; cbn [cl_stage] in *; [by eapply B3|by apply Hu].
  - intros e r Hr Hop. destruct (B5 e r Hr Hop) as [?|[?|(d & q & Hd & Hq)]]; [by left|by right; left|].
    right; right. exists d, q. rewrite goto_other; [done|]. intros ->. assert (q = k) as -> by congruence. congruence.
  - intros n l Hn Hr. destruct (C2 n l Hn Hr) as [?|(d & q & x & Hd & Hq & Hx)]; [by left|].
    destruct (decide (d = c)) as [->|Hne].
    + assert (q = k) as -> by congruence.
      assert (x = o) as -> by (destruct (cl_stage k) as [| | | |? []| | |]; simplify_eq/=; done).
      destruct (Ho n l Hq Hx Hn Hr) as [Hg'|?]; [|by left]. right. exists c. eexists. exists o. split; [by apply goto_self|].
      split; [done|]. unfold leaseOf. cbn [goto setCalls rs_openings s1 setOpenings]. by rewrite Hlease.
    + right. exists d, q, x. rewrite goto_other by done. split_and!; [done|done|].
      unfold leaseOf. cbn [goto setCalls rs_openings s1 setOpenings]. by rewrite Hlease.
Qed.

(** A new route, in the hands of a closer. *)
Lemma inv_addRoute s r receivers :
  routesInv s -> rt_last r < MaxInt64 ->
  (forall e, e ∈ receivers -> e ∈ rs_receivers s \/ e = length (rs_routes s)) ->
  routesInv (setGoroutines (setRoutes s (rs_routes s ++ [r])) (rs_closers s ++ [length (rs_routes s)]) receivers).
Proof.
  intros [A1 A2 A3 A4 A5 A6 A7 B1 B2 B3 B4 B5 C1 C2] Hl Hrc.
  assert (forall x y, rs_routes s !! x = Some y -> (rs_routes s ++ [r]) !! x = Some y) as Hold.
  { intros x y Hx. rewrite lookup_app_l; [done|by eapply lookup_lt_Some]. }
  assert (forall x y, (rs_routes s ++ [r]) !! x = Some y -> rs_routes s !! x = Some y \/ (x = length (rs_routes s) /\ y = r)) as Hnew.
  { intros x y Hx. apply lookup_app_Some in Hx as [?|[Hx Hy]]; [by left|right].
    apply list_lookup_singleton_Some in Hy as [Hz <-]. split; [lia|done]. }
  split; try done; cbn [setGoroutines setRoutes rs_table rs_routes rs_calls rs_closers rs_receivers rs_money].
  - intros b key e He. destruct (B1 b key e He) as (y & Hy & ?). exists y. split; [by apply Hold|done].
  - intros e y [Hy|[_ ->]]%Hnew; [by eapply B2|done].
  - intros c k e Hc Hk. destruct (B3 c k e Hc Hk) as [y Hy]. exists y. by apply Hold.
  - intros e He. destruct (Hrc e He) as [Hin| ->].
    + destruct (B4 e Hin) as [y Hy]. exists y. by apply Hold.
    + exists r. by rewrite lookup_app_r, Nat.sub_diag by done.
  - intros e y [Hy|[-> ->]]%Hnew Ho.
    + destruct (B5 e y Hy Ho) as [?|[?|?]]; [by left|right; left; by apply elem_of_app; left|by right; right].
    + right; left. apply elem_of_app. right. by apply list_elem_of_singleton.
  - intros n l Hn Hr. destruct (C2 n l Hn Hr) as [(e & y & Hy & ?)|?]; [|by right]. left. exists e, y. split; [by apply Hold|done].
Qed.

(** The route enters its table. *)
Lemma inv_insertRoute s e r :
  routesInv s -> rs_routes s !! e = Some r -> tb_closed (rs_table s) = false ->
  tb_opening (rs_table s) !! rt_key r = None -> tableOf (rs_table s) (isICMP r) !! rt_key r = None ->
  tableSize (rs_table s) < maxUDPRoutes ->
  let t := rs_table s in
  routesInv (setTable s (mkTable (tb_closed t)
    (if isICMP r then tb_entries t else <[rt_key r := e]> (tb_entries t))
    (if isICMP r then <[rt_key r := e]> (tb_icmp t) else tb_icmp t) (tb_opening t))).
Proof.
  intros [A1 A2 A3 A4 A5 A6 A7 B1 B2 B3 B4 B5 C1 C2] Hr Hcl Hno Hfree Hsz t. subst t.
  set (t' := mkTable _ _ _ _).
  assert (forall b key, tableOf t' b !! key =
    if bool_decide (b = isICMP r /\ key = rt_key r) then Some e else tableOf (rs_table s) b !! key) as Hlk.
  { intros b key. unfold t', tableOf. cbn [tb_entries tb_icmp]. case_bool_decide as Hb.
    - destruct Hb as [-> ->]. destruct (isICMP r); by rewrite lookup_insert_eq.
    - destruct (isICMP r), b; try done; rewrite lookup_insert_ne; (done || (intros <-; by destruct Hb)). }
  split; try done; cbn [setTable rs_table rs_routes rs_calls rs_closers rs_receivers rs_money].
  - unfold tableSize, t' in *. cbn [tb_entries tb_icmp tb_opening]. unfold tableOf in Hfree.
    destruct (isICMP r); rewrite map_size_insert_None by done; lia.
  - cbn [t' tb_closed]. congruence.
  - intros b key Hx. rewrite Hlk. cbn [t' tb_opening] in Hx. rewrite bool_decide_false; [by apply A7|].
    intros [_ ->]. rewrite Hno in Hx. by destruct Hx.
  - intros b key x. rewrite Hlk. case_bool_decide as Hb; [|by apply B1]. destruct Hb as [-> ->]. intros [= <-]. by exists r.
  - intros x y Hy Ho. rewrite Hlk. destruct (B5 x y Hy Ho) as [Hx|[?|?]]; [|by right; left|by right; right].
    case_bool_decide as Hb; [|by left]. destruct Hb as [E1 E2]. rewrite E1, E2 in Hx. congruence.
Qed.

(** ** Eviction *)

Section Steps.
  Context `{Crypto} `{RouteOrder}.
  Variable LookupIPAddr : gostring -> result (list IPAddr).

Lemma oldestLoop_in s l best T b T' :
  oldestLoop s l best T = (b, T') -> b = best \/ exists p, b = Some p /\ p ∈ l.
Proof.
  revert best T. induction l as [|[k e] l IH]; intros best T E; cbn [oldestLoop] in E; [left; congruence|].
  destruct (_ <? T); apply IH in E as [->|(p & -> & Hp)].
  - right. exists (k, e). split; [done|left].
  - right. exists p. split; [done|by right].
  - by left.
  - right. exists p. split; [done|by right].
Qed.

Lemma oldestLoop_some s l best T :
  Forall (fun p => forall r, rs_routes s !! p.2 = Some r -> rt_last r < T) l -> 0 < T -> l <> [] ->
  exists p, fst (oldestLoop s l best T) = Some p.
Proof.
  intros Hf HT Hl. destruct l as [|[k e] l]; [done|]. cbn [oldestLoop].
  apply Forall_cons in Hf as [Ht _]. cbn [snd] in Ht.
  assert (match rs_routes s !! e with Some r => rt_last r | None => 0 end < T) as Hlt.
  { destruct (rs_routes s !! e) as [r|]; [by apply Ht|done]. }
  rewrite (proj2 (Z.ltb_lt _ _) Hlt).
  destruct (oldestLoop s l (Some (k, e)) _) as [b T'] eqn:E. cbn [fst].
  apply oldestLoop_in in E as [->|(p & -> & _)]; eauto.
Qed.

Lemma routeOrder_nil m : routeOrder m = [] -> m = ∅.
Proof. intros E. pose proof (routeOrder_perm m) as Hp. rewrite E in Hp. by apply Permutation_nil, map_to_list_empty_iff in Hp. Qed.

Lemma routeOrder_elem m k e : (k, e) ∈ routeOrder m <-> m !! k = Some e.
Proof. by rewrite routeOrder_perm, elem_of_map_to_list. Qed.

Lemma route_evict_spec s ev t' :
  routesInv s -> Z.of_nat (size (tb_opening (rs_table s))) < maxUDPRoutes -> evictOldestLocked s = (ev, t') ->
  exists entries icmp, t' = mkTable (tb_closed (rs_table s)) entries icmp (tb_opening (rs_table s)) /\
    entries ⊆ tb_entries (rs_table s) /\ icmp ⊆ tb_icmp (rs_table s) /\ tableSize t' < maxUDPRoutes /\
    forall key e b, tableOf (rs_table s) b !! key = Some e -> tableOf t' b !! key = Some e \/ ev = Some e.
Proof.
  intros Hi Hop. unfold evictOldestLocked. set (t := rs_table s). fold (tableSize t).
  destruct (Z.ltb_spec (tableSize t) maxUDPRoutes) as [Hlt|Hge].
  { intros [= <- <-]. exists (tb_entries t), (tb_icmp t). split_and!; [by destruct t|done|done|done|by left]. }
  pose proof (ri_bound s Hi) as Hle. fold t in Hle.
  assert (forall m, Forall (fun p => forall r, rs_routes s !! p.2 = Some r -> rt_last r < MaxInt64) (routeOrder m)) as Hlast.
  { intros m. apply Forall_forall. intros p _ r Hr. by eapply ri_last. }
  destruct (oldestLoop s (routeOrder (tb_entries t)) None MaxInt64) as [oe t1] eqn:E1.
  destruct (oldestLoop s (routeOrder (tb_icmp t)) None t1) as [oi t2] eqn:E2.
  pose proof (oldestLoop_in _ _ _ _ _ _ E1) as I1. pose proof (oldestLoop_in _ _ _ _ _ _ E2) as I2.
  destruct oi as [[k e]|].
  - intros [= <- <-]. destruct I2 as [?|(p & [= <-] & Hin)]; [done|]. apply routeOrder_elem in Hin.
    exists (tb_entries t), (delete k (tb_icmp t)). split_and!; [done|done|apply delete_subseteq| |].
    + unfold tableSize in *. cbn [tb_entries tb_icmp tb_opening]. rewrite map_size_delete, Hin.
      assert (size (tb_icmp t) <> 0%nat) by (intros E%map_size_empty_iff; rewrite E, lookup_empty in Hin; done). lia.
    + intros key x b Hx. destruct b; cbn [tableOf tb_entries tb_icmp] in *; [|by left].
      destruct (decide (k = key)) as [<-|Hne]; [right; congruence|left; by rewrite lookup_delete_ne].
  - destruct oe as [[k e]|].
    + intros [= <- <-]. destruct I1 as [?|(p & [= <-] & Hin)]; [done|]. apply routeOrder_elem in Hin.
      exists (delete k (tb_entries t)), (tb_icmp t). split_and!; [done|apply delete_subseteq|done| |].
      * unfold tableSize in *. cbn [tb_entries tb_icmp tb_opening]. rewrite map_size_delete, Hin.
        assert (size (tb_entries t) <> 0%nat) by (intros E%map_size_empty_iff; rewrite E, lookup_empty in Hin; done). lia.
      * intros key x b Hx. destruct b; cbn [tableOf tb_entries tb_icmp] in *; [by left|].
        destruct (decide (k = key)) as [<-|Hne]; [right; congruence|left; by rewrite lookup_delete_ne].
    + exfalso. assert (tb_entries t = ∅) as Ee.
      { apply routeOrder_nil. destruct (decide (routeOrder (tb_entries t) = [])) as [?|Hne]; [done|].
        destruct (oldestLoop_some s _ None MaxInt64 (Hlast (tb_entries t)) ltac:(done) Hne) as [p Hp]. by rewrite E1 in Hp. }
      assert (routeOrder (tb_entries t) = []) as En.
      { apply Permutation_nil. rewrite <- (map_to_list_empty (K := udpRouteKey) (A := nat)), <- Ee. symmetry. apply routeOrder_perm. }
      rewrite En in E1. injection E1 as <-. assert (tb_icmp t = ∅) as Ei.
      { apply routeOrder_nil. destruct (decide (routeOrder (tb_icmp t) = [])) as [?|Hne]; [done|].
        destruct (oldestLoop_some s _ None MaxInt64 (Hlast (tb_icmp t)) ltac:(done) Hne) as [p Hp]. by rewrite E2 in Hp. }
      unfold tableSize in Hge. fold t in Hop. rewrite Ee, Ei, !map_size_empty in Hge. lia.
Qed.

Lemma inv_beginRoute s c k :
  routesInv s -> rs_calls s !! c = Some k -> cl_stage k = SBegin -> routesInv (beginRoute s c k).
Proof.
  intros Hi Hc Hk. unfold beginRoute.
  assert (forall g, keeps g = None -> worksOn g = None -> (forall e, g = SUse e -> is_Some (rs_routes s !! e)) ->
    routesInv (goto s c g)) as Hplain.
  { intros g H1 H2 H3. by apply (inv_goto_plain s c k); rewrite ?Hk. }
  assert (forall b e, tableOf (rs_table s) b !! cl_key k = Some e -> is_Some (rs_routes s !! e)) as Hroute.
  { intros b e He. destruct (ri_routes s Hi b _ e He) as (r & Hr & _). by exists r. }
  destruct (stopped s); [by apply Hplain|].
  destruct (tb_entries (rs_table s) !! cl_key k) as [e|] eqn:Ee.
  { destruct (cl_icmp k); [auto with routes|]. apply Hplain; try done. intros x [= ->]. by apply (Hroute false). }
  destruct (tb_icmp (rs_table s) !! cl_key k) as [e|] eqn:Ei.
  { destruct (cl_icmp k); [|auto with routes]. apply Hplain; try done. intros x [= ->]. by apply (Hroute true). }
  destruct (tb_opening (rs_table s) !! cl_key k) as [o|] eqn:Eo; [by apply Hplain|].
  destruct (Z.leb_spec maxUDPRoutes (Z.of_nat (size (tb_opening (rs_table s))))) as [|Hlt]; [by apply Hplain|].
  destruct (evictOldestLocked s) as [ev t'] eqn:Ev.
  destruct (route_evict_spec s ev t' Hi Hlt Ev) as (en & ic & -> & He & Hic & Hsz & Hkeep).
  set (closers := rs_closers s ++ option_list ev).
  assert (routesInv (setGoroutines (setTable s (mkTable (tb_closed (rs_table s)) en ic (tb_opening (rs_table s)))) closers (rs_receivers s))) as H1.
  { apply inv_shrink; try done.
    - intros x Hx. by apply elem_of_app; left.
    - intros key x b Hx. destruct (Hkeep _ _ _ Hx) as [?| ->]; [by left|right]. apply elem_of_app. right. cbn. by apply list_elem_of_singleton.
    - intros Hcl. destruct (ri_closed s Hi Hcl) as [F1 F2]. split; apply map_empty; intros i; eapply lookup_weaken_None; try done.
      + by rewrite F1, lookup_empty.
      + by rewrite F2, lookup_empty. }
  set (s1 := setGoroutines _ _ _) in H1.
  assert (forall b, tableOf (rs_table s1) b !! cl_key k = None) as Hfree.
  { intros []; [exact (lookup_weaken_None _ _ _ Ei Hic)|exact (lookup_weaken_None _ _ _ Ee He)]. }
  pose proof (inv_addOpening s1 c k ev H1 Hc Hk Hsz Eo Hfree) as H2. cbv zeta in H2.
  match type of H2 with routesInv ?x => set (s2 := x) in H2 end.
  assert (rs_calls s2 !! c = Some (mkCall (cl_icmp k) (cl_key k) (cl_payload k) (SEvict (length (rs_openings s)) ev))) as Hc2
    by (by apply goto_self).
  change (routesInv (setGoroutines s2 (rs_closers s) (rs_receivers s2))). apply inv_dropCloser; [done|].
  intros x r Hx Hr Ho. change (rs_closers s2) with closers in Hx. unfold closers in Hx. apply elem_of_app in Hx as [Hx|Hx]; [by right; left|].
  right; right. destruct ev as [v|]; cbn in Hx; [|by apply elem_of_nil in Hx]. apply list_elem_of_singleton in Hx as ->.
  eexists c, _. split; [exact Hc2|done].
Qed.

(** ** [finishRoute] *)

Lemma inv_finishNone s c k o err :
  routesInv s -> rs_calls s !! c = Some k -> keeps (cl_stage k) = Some o -> mustClose (cl_stage k) = None ->
  routesInv (finishRoute s c (cl_key k) o None (Some err)).
Proof.
  intros Hi Hc Hk Hm. unfold finishRoute. set (err' := if stopped s then Some ErrNetClosed else Some err).
  assert (exists e, err' = Some e) as (e & ->) by (unfold err'; destruct (stopped s); eauto).
  apply (inv_unopen s c k o (fun p => mkOpening true (Some e) (ro_release p)) (SCleanup o None e)); try done; [by right|by left].
Qed.

Lemma inv_finishRoute s c k o kd now n :
  routesInv s -> rs_calls s !! c = Some k -> cl_stage k = SOpen o -> leaseOf s o = Some n -> now < MaxInt64 ->
  routesInv (finishRoute (setRoutes s (rs_routes s ++ [mkRoute (cl_key k) kd now true n])) c (cl_key k) o
    (Some (length (rs_routes s))) None).
Proof.
  intros Hi Hc Hk Hl Hnow. set (r := mkRoute _ _ _ _ _). set (e := length (rs_routes s)).
  assert ((rs_routes s ++ [r]) !! e = Some r) as Hr by (unfold e; by rewrite lookup_app_r, Nat.sub_diag by done).
  pose proof (ri_keeps s Hi c k o Hc ltac:(by rewrite Hk)) as Hopen.
  unfold finishRoute. change (stopped (setRoutes s (rs_routes s ++ [r]))) with (stopped s).
  assert (forall s1 n0, rs_routes s1 = rs_routes s ++ [r] -> leaseOf s1 o = leaseOf s o -> leaseOf s1 o = Some n0 ->
    exists x y, rs_routes s1 !! x = Some y /\ rt_open y = true /\ rt_lease y = n0) as Hpay.
  { intros s1 n0 E1 E2 E3. exists e, r. rewrite E1. split_and!; [done|done|]. cbn. congruence. }
  destruct (stopped s) eqn:Hs.
  - (* the association is closed: the route is closed again *)
    set (s1 := setGoroutines (setRoutes s (rs_routes s ++ [r])) (rs_closers s ++ [e]) (rs_receivers s)).
    assert (routesInv s1) as H1 by (apply inv_addRoute; [done|done|by left]).
    destruct (inv_unopen s1 c k o (fun p => mkOpening true (Some ErrNetClosed) (ro_release p)) (SCleanup o (Some e) ErrNetClosed))
      as [H2 _]; try done; rewrite ?Hk; try done; [by right|intros n0 l _ En _ _; right; by apply (Hpay s1)|].
    match type of H2 with routesInv ?x => set (s2 := x) in H2 end.
    change (routesInv (setGoroutines s2 (rs_closers s) (rs_receivers s2))). apply inv_dropCloser; [done|].
    intros x y [Hx| ->%list_elem_of_singleton]%elem_of_app _ _; [by right; left|]. right; right.
    eexists c, _. split; [by apply goto_self|done].
  - set (s1 := setGoroutines (setRoutes s (rs_routes s ++ [r])) (rs_closers s ++ [e]) (rs_receivers s ++ [e])).
    assert (routesInv s1) as H1.
    { apply inv_addRoute; [done|done|]. intros x [?| ->%list_elem_of_singleton]%elem_of_app; [by left|by right]. }
    destruct (inv_unopen s1 c k o (fun p => mkOpening true None (ro_release p)) (SUse e))
      as [H2 Hsz]; try done; rewrite ?Hk; try done; [by left|intros x [= <-]; by exists r|intros n0 l _ En _ _; right; by apply (Hpay s1)|].
    match type of H2 with routesInv ?x => set (s2 := x) in H2, Hsz end.
    pose proof (inv_insertRoute s2 e r H2 Hr) as H3. cbv zeta in H3.
    match type of H3 with _ -> _ -> _ -> _ -> routesInv ?x => set (s3 := x) in H3 end.
    assert (routesInv s3) as H3'.
    { apply H3; [|apply lookup_delete_eq| |exact Hsz].
      - unfold stopped in Hs. by apply orb_false_iff in Hs as [? _].
      - apply (ri_disjoint s Hi (isICMP r)). by exists o. }
    change (rt_kind <$> rs_routes (setRoutes s (rs_routes s ++ [r])) !! e) with (rt_kind <$> (rs_routes s ++ [r]) !! e).
    rewrite Hr. cbn [fmap option_fmap option_map rt_kind].
    assert (routesInv (setGoroutines s3 (rs_closers s) (rs_receivers s3))) as H4.
    { apply inv_dropCloser; [done|]. intros x y [Hx| ->%list_elem_of_singleton]%elem_of_app Hy _; [by right; left|]. left.
      change (rs_routes s3) with (rs_routes s ++ [r]) in Hy. assert (y = r) as -> by congruence.
      unfold s3, tableOf. cbn [setTable rs_table tb_entries tb_icmp]. clearbody r. destruct (isICMP r); apply lookup_insert_eq. }
    unfold isICMP in s3. cbn [rt_kind r] in s3. destruct kd; exact H4.
Qed.

Lemma reserve_leases m i : (budgetStep m (Reserve i)).2 = m.2 \/ exists l, (budgetStep m (Reserve i)).2 = m.2 ++ [l].
Proof. destruct m as [b ls]. cbn [budgetStep]. destruct (ReserveUDPTarget b i) as [[l|] b']; cbn; eauto. Qed.

(** The lease goes to the opening of the call that reserved it. *)
Lemma inv_takeLease s c k o l m :
  routesInv s -> rs_calls s !! c = Some k -> cl_stage k = SEvict o None -> m.2 = (rs_money s).2 ++ [l] ->
  budgetOk m.1 (outstanding (rs_foreign s) ++ outstanding m.2) ->
  routesInv (goto (setOpenings (setMoney s m)
    (alter (fun p => mkOpening (ro_done p) (ro_err p) (Some (length (rs_money s).2))) o (rs_openings s))) c (SOpen o)).
Proof.
  intros [A1 A2 A3 A4 A5 A6 A7 B1 B2 B3 B4 B5 C1 C2] Hc Hk Em Hm. set (n := length (rs_money s).2). set (f := fun p => mkOpening _ _ _).
  pose proof (A3 c k o Hc ltac:(by rewrite Hk)) as Ho.
  assert (forall d q x, d <> c -> rs_calls s !! d = Some q -> worksOn (cl_stage q) = Some x -> x <> o) as Hne.
  { intros d q x Hd Hq Hx ->. apply Hd. apply (A4 d c q k o); try done. by rewrite Hk. }
  assert (alter f o (rs_openings s) !! o ≫= ro_release = Some n) as Hself.
  { rewrite list_lookup_alter_eq. destruct (lookup_lt_is_Some_2 _ _ Ho) as [p ->]. done. }
  set (s1 := setOpenings _ _). split; try done; cbn [goto setCalls rs_table rs_openings rs_routes rs_receivers rs_closers rs_money s1 setOpenings setMoney].
  - intros d q x [[Hd Hq]|(-> & k0 & Hq & ->)]%goto_lookup E; cbn [cl_stage cl_key] in *; [by eapply A2|].
    change (rs_calls s1) with (rs_calls s) in Hq. assert (k0 = k) as -> by congruence. injection E as <-. apply (A2 c k o Hc). by rewrite Hk.
  - intros d q x [[Hd Hq]|(-> & k0 & Hq & ->)]%goto_lookup E; cbn [cl_stage] in *; rewrite length_alter; [by eapply A3|].
    injection E as <-. exact Ho.
  - intros d1 d2 q1 q2 x [[Hd1 Hq1]|(-> & k1 & Hq1 & ->)]%goto_lookup [[Hd2 Hq2]|(-> & k2 & Hq2 & ->)]%goto_lookup E1 E2;
      cbn [cl_stage] in *; [by eapply A4| | |done].
    + injection E2 as <-. by destruct (Hne d1 q1 o Hd1 Hq1 E1).
    + injection E1 as <-. by destruct (Hne d2 q2 o Hd2 Hq2 E2).
  - intros d q x [[Hd Hq]|(-> & k0 & Hq & ->)]%goto_lookup E; cbn [cl_stage] in *; unfold leaseOf; cbn [goto setCalls s1 setOpenings rs_openings].
    + rewrite list_lookup_alter_ne; [by eapply A5|]. intros <-. apply (Hne d q o Hd Hq); [by rewrite E|done].
    + injection E as <-. rewrite Hself. by eexists.
  - intros d q e [[Hd Hq]|(-> & k0 & Hq & ->)]%goto_lookup E; cbn [cl_stage] in *; [by eapply B3|done].
  - intros e r Hr Hop. destruct (B5 e r Hr Hop) as [?|[?|(d & q & Hd & Hq)]]; [by left|by right; left|].
    right; right. exists d, q. rewrite goto_other; [done|]. intros ->. assert (q = k) as -> by congruence. by rewrite Hk in Hq.
  - intros n' l' Hn Hr. rewrite Em in Hn. apply lookup_app_Some in Hn as [Hn|[Hge Hn]].
    + destruct (C2 n' l' Hn Hr) as [?|(d & q & x & Hd & Hq & Hx)]; [by left|]. right. exists d, q, x.
      assert (d <> c) as Hdc by (intros ->; assert (q = k) as -> by congruence; by rewrite Hk in Hq).
      rewrite goto_other by done. split_and!; [done|done|]. unfold leaseOf. cbn [goto setCalls s1 setOpenings rs_openings].
      rewrite list_lookup_alter_ne; [done|]. intros <-. apply (Hne d q o Hdc Hd); [|done]. by destruct (cl_stage q) as [| | | |? []| | |].
    + apply list_lookup_singleton_Some in Hn as [Hz _]. right. exists c. eexists. exists o. split; [by apply goto_self|].
      split; [done|]. unfold leaseOf. cbn [goto setCalls s1 setOpenings rs_openings]. rewrite Hself. f_equal. unfold n. lia.
Qed.

Lemma inv_reserveStep identities s c k o ev :
  routesInv s -> rs_calls s !! c = Some k -> cl_stage k = SEvict o ev -> routesInv (reserveStep identities s c k o ev).
Proof.
  intros Hi Hc Hk. unfold reserveStep. destruct ev as [e|].
  - destruct (closeRoute_frame s e) as (Et & Ec & Eo & _). apply (inv_goto (closeRoute s e) c k);
      [by apply inv_closeRoute|by rewrite Ec|by right; rewrite Hk|by right; rewrite Hk|done|done| |by rewrite Hk].
    rewrite Hk. cbn [mustClose]. intros x [= <-]. right. intros r Hr Ho. apply closeRoute_closed in Hr. congruence.
  - set (n := length (rs_money s).2). set (m := budgetStep _ _).
    pose proof (budgetStep_ok (outstanding (rs_foreign s)) _ (Reserve (identityOf identities (cl_key k))) (ri_money s Hi)) as Hm.
    fold m in Hm. destruct (reserve_leases (rs_money s) (identityOf identities (cl_key k))) as [E|(l & E)]; fold m in E.
    + rewrite E, bool_decide_true by done. apply inv_finishNone; rewrite ?Hk; try done.
      destruct Hi. split; try done. cbn [setMoney rs_money]. by rewrite E.
    + rewrite E, length_app, bool_decide_false by (unfold n; cbn [length]; lia).
      exact (inv_takeLease s c k o l m Hi Hc Hk E Hm).
Qed.

Lemma inv_openStep s c k o i :
  routesInv s -> rs_calls s !! c = Some k -> cl_stage k = SOpen o -> in_now i < MaxInt64 ->
  routesInv (openStep LookupIPAddr s c k o i).
Proof.
  intros Hi Hc Hk Hnow. unfold openStep. destruct (ri_lease s Hi c k o Hc Hk) as [n Hn]. unfold leaseOf in Hn. rewrite Hn.
  set (kind := if cl_icmp k then _ else _). destruct kind as [kd|err].
  - by apply inv_finishRoute.
  - by apply inv_finishNone; rewrite ?Hk.
Qed.

Lemma inv_useStep s c k e i :
  routesInv s -> rs_calls s !! c = Some k -> cl_stage k = SUse e -> in_now i < MaxInt64 -> routesInv (useStep s c k e i).
Proof.
  intros Hi Hc Hk Hnow. unfold useStep. destruct (rs_routes s !! e) as [r|] eqn:Er; [|auto with routes].
  assert (forall s1, routesInv s1 -> rs_calls s1 = rs_calls s -> forall g, keeps g = None -> worksOn g = None ->
    (forall x, g = SUse x -> False) -> routesInv (goto s1 c g)) as Hdone.
  { intros s1 H1 Ec g G1 G2 G3. apply (inv_goto_plain s1 c k); try done; try (by rewrite Hk); [by rewrite Ec|].
    intros x Hx. by destruct (G3 x). }
  assert (forall s1 o w, routesInv s1 -> rs_calls s1 = rs_calls s ->
    routesInv (match w with
               | None => goto (send s1 o) c (SDone None)
               | Some err => goto (deleteRoute s1 (cl_key k) e) c (SClose e err)
               end)) as Hafter.
  { intros s1 o [err|] H1 Ec; [apply inv_removeCall; [done|by rewrite Ec|done]|].
    apply Hdone; auto with routes; done. }
  cbn [rt_kind rt_key rt_last rt_open rt_lease]. destruct (rt_kind r) as [|ip pend] eqn:Ek.
  - apply Hafter; [|done]. eapply inv_putRoute; try done. unfold isICMP. cbn [rt_kind]. by rewrite Ek.
  - destruct (PrepareRequest _ _ _ _) as [w tr].
    assert (routesInv (setEcho (putRoute s e (mkRoute (rt_key r) (ICMPRoute ip (pending tr)) (in_now i) (rt_open r) (rt_lease r))) (nextEchoToken tr))) as H1.
    { apply inv_setEcho. eapply inv_putRoute; try done. unfold isICMP. cbn [rt_kind]. by rewrite Ek. }
    destruct w as [wire|err]; [by apply Hafter|by apply Hdone].
Qed.

Lemma inv_cleanup s c k o e err :
  routesInv s -> rs_calls s !! c = Some k -> cl_stage k = SCleanup o e err ->
  routesInv (goto
    (let s1 := match e with Some e => closeRoute s e | None => s end in
     match rs_openings s1 !! o ≫= ro_release with Some n => releaseLease s1 n | None => s1 end) c (SDone (Some err))).
Proof.
  intros Hi Hc Hk. set (s1 := match e with Some e => closeRoute s e | None => s end).
  assert (routesInv s1 /\ rs_calls s1 = rs_calls s /\ forall x r, e = Some x -> rs_routes s1 !! x = Some r -> rt_open r = false) as (H1 & Ec & Hcl).
  { unfold s1. destruct e as [x|]; [|done]. destruct (closeRoute_frame s x) as (_ & -> & _).
    split_and!; [by apply inv_closeRoute|done|]. intros y r [= <-]. apply closeRoute_closed. }
  cbv zeta. set (s2 := match rs_openings s1 !! o ≫= ro_release with Some n => releaseLease s1 n | None => s1 end).
  assert (routesInv s2) as H2 by (unfold s2; destruct (rs_openings s1 !! o ≫= ro_release); [by apply inv_release|done]).
  assert (rs_calls s2 = rs_calls s /\ rs_routes s2 = rs_routes s1) as [Ec2 Er2] by (unfold s2; by destruct (rs_openings s1 !! o ≫= ro_release)).
  apply (inv_goto s2 c k); try done; try (by left); [by rewrite Ec2| |].
  - rewrite Hk. cbn [mustClose]. intros x ->. right. intros r Hr Ho. rewrite Er2 in Hr. rewrite (Hcl x r eq_refl Hr) in Ho. done.
  - rewrite Hk. intros o' n l E1 E2 E3 E4. assert (o' = o) as -> by (destruct e; cbn in E1; congruence).
    unfold leaseOf in E2. unfold s2 in E2, E3. destruct (rs_openings s1 !! o ≫= ro_release) as [n1|] eqn:En.
    + change (rs_openings (releaseLease s1 n1)) with (rs_openings s1) in E2. assert (n = n1) as -> by congruence.
      destruct (release_lookup _ _ _ _ E3 E4). done.
    + congruence.
Qed.

Lemma inv_receiveData s n from fromText data now rnd :
  routesInv s -> now < MaxInt64 -> routesInv (receiveData s n from fromText data now rnd).
Proof.
  intros Hi Hnow. unfold receiveData. destruct (rs_receivers s !! n) as [e|]; [|done].
  destruct (rs_routes s !! e) as [r|] eqn:Er; [|auto with routes]. destruct (rt_open r) eqn:Eo; [|done]. cbn [negb].
  assert (forall s1 address body, routesInv s1 ->
    routesInv match rs_codecs s1 !! (rt_key r).1.1 with
              | None => s1
              | Some c =>
                  let '(p, c') := EncodePacket c [] DirServerToClient (rt_key r).1.2 address body (now / second) rnd in
                  let s := setCodecs s1 (<[(rt_key r).1.1 := c']> (rs_codecs s1)) in
                  match p with Ok (packet, _) => send s (ToClient packet) | Fail _ => s end
              end) as Hans.
  { intros s1 address body H1. destruct (rs_codecs s1 !! _) as [cd|]; [|done].
    destruct (EncodePacket _ _ _ _ _ _ _ _) as [[[packet ?]|] c']; auto with routes. }
  destruct (rt_kind r) as [|ip pend] eqn:Ek.
  - apply Hans. eapply inv_putRoute; try done. unfold isICMP. cbn [rt_kind]. by rewrite Ek.
  - destruct from as [src|]; [|done]. destruct (negb (Equal src ip)); [done|].
    destruct (RestoreReply _ _ _ _) as [b tr].
    assert (routesInv (putRoute s e (mkRoute (rt_key r) (ICMPRoute ip (pending tr)) (match b with Some _ => now | None => rt_last r end) true (rt_lease r)))) as H1.
    { eapply inv_putRoute; try done; cbn [rt_open rt_last]; [unfold isICMP; cbn [rt_kind]; by rewrite Ek|].
      destruct b; [done|]. by eapply ri_last. }
    destruct b as [body|]; [by apply Hans|done].
Qed.

(** ** Runs *)

(** The clock is before the year 2262. *)
Definition eventOk (ev : event) : Prop :=
  match ev with
  | EStep _ i => in_now i < MaxInt64
  | EReceive _ _ _ _ now _ => now < MaxInt64
  | _ => True
  end.

Lemma inv_callStep identities s c i : routesInv s -> in_now i < MaxInt64 -> routesInv (callStep LookupIPAddr identities s c i).
Proof.
  intros Hi Hnow. unfold callStep. destruct (rs_calls s !! c) as [k|] eqn:Hc; [|done].
  destruct (cl_stage k) as [|o|o ev|o|o e err|e|e err|err] eqn:Hk.
  - by apply inv_beginRoute.
  - assert (forall g, keeps g = None -> worksOn g = None -> (forall e, g = SUse e -> False) -> routesInv (goto s c g)) as Hplain.
    { intros g G1 G2 G3. apply (inv_goto_plain s c k); try done; try (by rewrite Hk). intros x Hx. by destruct (G3 x). }
    destruct (in_pick i) as [|[|?]].
    + destruct (rs_openings s !! o) as [[[] [err|] ?]|]; [by apply Hplain|by apply Hplain|done..].
    + destruct (in_cancelled i); [by apply Hplain|done].
    + destruct (rs_ctxDone s); [by apply Hplain|done].
  - by apply inv_reserveStep.
  - by apply inv_openStep.
  - by apply (inv_cleanup s c k).
  - by apply inv_useStep.
  - destruct (closeRoute_frame s e) as (_ & Ec & _). apply (inv_goto (closeRoute s e) c k); try done; try (by left);
      [by apply inv_closeRoute|by rewrite Ec| |by rewrite Hk].
    rewrite Hk. cbn [mustClose]. intros x [= <-]. right. intros r Hr Ho. apply closeRoute_closed in Hr. congruence.
  - done.
Qed.

Lemma inv_call s icmp key payload : routesInv s -> routesInv (setCalls s (rs_calls s ++ [mkCall icmp key payload SBegin])).
Proof.
  intros [A1 A2 A3 A4 A5 A6 A7 B1 B2 B3 B4 B5 C1 C2].
  assert (forall d q, (rs_calls s ++ [mkCall icmp key payload SBegin]) !! d = Some q ->
    rs_calls s !! d = Some q \/ cl_stage q = SBegin) as Hnew.
  { intros d q [?|[_ Hq]]%lookup_app_Some; [by left|right]. apply list_lookup_singleton_Some in Hq as [_ <-]. done. }
  assert (forall d q, rs_calls s !! d = Some q -> (rs_calls s ++ [mkCall icmp key payload SBegin]) !! d = Some q) as Hold.
  { intros d q Hq. rewrite lookup_app_l; [done|by eapply lookup_lt_Some]. }
  split; try done; cbn [setCalls rs_calls].
  - intros d q o Hq%Hnew E. destruct Hq as [Hq|Hq]; [by eapply A2|by rewrite Hq in E].
  - intros d q o Hq%Hnew E. destruct Hq as [Hq|Hq]; [by eapply A3|by rewrite Hq in E].
  - intros d1 d2 q1 q2 o Hq1%Hnew Hq2%Hnew E1 E2. destruct Hq1 as [Hq1|Hq1]; [|by rewrite Hq1 in E1].
    destruct Hq2 as [Hq2|Hq2]; [by eapply A4|by rewrite Hq2 in E2].
  - intros d q o Hq%Hnew E. destruct Hq as [Hq|Hq]; [by eapply A5|congruence].
  - intros d q e Hq%Hnew E. destruct Hq as [Hq|Hq]; [by eapply B3|congruence].
  - intros e r Hr Ho. destruct (B5 e r Hr Ho) as [?|[?|(d & q & Hd & Hq)]]; [by left|by right; left|]. right; right. eauto.
  - intros n l Hn Hr. destruct (C2 n l Hn Hr) as [?|(d & q & o & Hd & Hq & Ho)]; [by left|]. right. exists d, q, o. split; [by apply Hold|done].
Qed.

Lemma inv_step identities s ev : routesInv s -> eventOk ev -> routesInv (step LookupIPAddr identities s ev).
Proof.
  intros Hi Hev. unfold step. destruct (rs_panic s); [done|].
  destruct ev as [icmp key payload|c i|n from ft data now rnd|n|now|n| | |op].
  - by apply inv_call.
  - by apply inv_callStep.
  - by apply inv_receiveData.
  - by apply inv_receiverEnd.
  - by apply inv_expire.
  - by apply inv_closerStep.
  - by apply inv_cancel.
  - by apply inv_closeTable.
  - pose proof (budgetStep_ok (outstanding (rs_money s).2) ((rs_money s).1, rs_foreign s) op) as Hm. cbn [fst snd] in Hm.
    destruct (budgetStep ((rs_money s).1, rs_foreign s) op) as [b ls]. cbn [fst snd] in Hm. destruct Hi. split; try done.
    cbn [rs_money rs_foreign fst snd]. rewrite Permutation_app_comm. apply Hm. by rewrite Permutation_app_comm.
Qed.

Lemma inv_run identities s evs : routesInv s -> Forall eventOk evs -> routesInv (run LookupIPAddr identities s evs).
Proof.
  intros Hi Hf. revert s Hi. induction Hf as [|ev evs Hev Hf IH]; intros s Hi; [done|].
  cbn [run foldl]. by apply IH, inv_step.
Qed.

Lemma inv_new codecs b foreign echo : budgetOk b (outstanding foreign) -> routesInv (newUDPRoutes codecs b foreign echo).
Proof.
  intros Hb. split; cbn [newUDPRoutes rs_table rs_calls rs_routes rs_receivers rs_closers rs_money rs_foreign rs_openings]; try done.
  - intros [] key [x Hx]; cbn [tb_opening] in Hx; by rewrite lookup_empty in Hx.
  - intros [] key e Hx; cbn [tableOf tb_entries tb_icmp] in Hx; by rewrite lookup_empty in Hx.
  - intros e Hx. by apply elem_of_nil in Hx.
  - cbn. by rewrite app_nil_r.
Qed.

(** ** Counting leases *)

Lemma distinct_routes s ls :
  (forall n l, ls !! n = Some l -> l_released l = false ->
     exists e r, rs_routes s !! e = Some r /\ rt_open r = true /\ rt_lease r = n) ->
  exists E, length E = length (outstanding ls) /\ NoDup E /\
    forall e, e ∈ E -> exists r, rs_routes s !! e = Some r /\ rt_open r = true /\ (rt_lease r < length ls)%nat.
Proof.
  induction ls as [|l ls IH] using rev_ind; intros Hls.
  { exists []. split_and!; [done|constructor|]. intros e He. by apply elem_of_nil in He. }
  destruct IH as (E & HE & Hnd & HEr).
  { intros n x Hx. apply Hls. rewrite lookup_app_l; [done|by eapply lookup_lt_Some]. }
  assert (forall e, e ∈ E -> exists r, rs_routes s !! e = Some r /\ rt_open r = true /\ (rt_lease r < length (ls ++ [l]))%nat) as HEr'.
  { intros e (r & ? & ? & ?)%HEr. exists r. rewrite length_app. split_and!; try done. lia. }
  rewrite outstanding_app, length_app. destruct (l_released l) eqn:El.
  - exists E. rewrite outstanding_cons, El. cbn. split_and!; [lia|done|done].
  - destruct (Hls (length ls) l) as (e & r & Hr & Ho & Hl); [by rewrite lookup_app_r, Nat.sub_diag by done|done|].
    exists (e :: E). rewrite outstanding_cons, El. cbn [app length]. split_and!.
    + unfold outstanding at 2. cbn. lia.
    + constructor; [|done]. intros (r' & Hr' & _ & Hlt)%HEr. assert (r' = r) as -> by congruence. lia.
    + intros x [->|Hx]%elem_of_cons; [|by apply HEr']. exists r. rewrite length_app. cbn [length]. split_and!; try done. lia.
Qed.

Lemma leases_in_table s :
  routesInv s -> rs_closers s = [] -> Forall (fun k => mustClose (cl_stage k) = None /\ owes (cl_stage k) = None) (rs_calls s) ->
  len (outstanding (rs_money s).2) <= Z.of_nat (size (tb_entries (rs_table s))) + Z.of_nat (size (tb_icmp (rs_table s))).
Proof.
  intros Hi Hcl Hq. rewrite Forall_lookup in Hq. destruct (distinct_routes s (rs_money s).2) as (E & HE & Hnd & HEr).
  { intros n l Hn Hr. destruct (ri_paid s Hi n l Hn Hr) as [?|(c & k & o & Hc & Ho & _)]; [done|].
    destruct (Hq c k Hc) as [_ Hno]. congruence. }
  rewrite <- HE. set (vals := (map_to_list (tb_entries (rs_table s))).*2 ++ (map_to_list (tb_icmp (rs_table s))).*2).
  assert (E ⊆+ vals) as Hsub.
  { apply NoDup_submseteq; [done|]. intros e (r & Hr & Ho & _)%HEr. unfold vals.
    destruct (ri_reach s Hi e r Hr Ho) as [Hin|[Hin|(c & k & Hc & Hm)]].
    - assert (e ∈ (map_to_list (tableOf (rs_table s) (isICMP r))).*2) as Hx.
      { apply list_elem_of_fmap. exists (rt_key r, e). split; [done|]. by apply elem_of_map_to_list. }
      apply elem_of_app. destruct (isICMP r); cbn [tableOf] in Hx; auto.
    - rewrite Hcl in Hin. by apply elem_of_nil in Hin.
    - destruct (Hq c k Hc) as [Hno _]. congruence. }
  apply submseteq_length in Hsub. unfold vals in Hsub. rewrite length_app, !length_fmap, !length_map_to_list in Hsub. lia.
Qed.

(** ** Kinds of keys *)

(** What a step keeps of calls and routes. *)
Record sameKeys (s s' : Routes) : Prop := {
  sk_panic : rs_panic s' = rs_panic s;
  sk_calls : forall c k', rs_calls s' !! c = Some k' -> exists k, rs_calls s !! c = Some k /\ cl_key k' = cl_key k /\ cl_icmp k' = cl_icmp k;
  sk_routes : forall e r', rs_routes s' !! e = Some r' -> exists r, rs_routes s !! e = Some r /\ rt_key r' = rt_key r /\ isICMP r' = isICMP r;
}.

Lemma sameKeys_refl s : sameKeys s s.
Proof. split; [done|..]; eauto. Qed.

Lemma sameKeys_trans s1 s2 s3 : sameKeys s1 s2 -> sameKeys s2 s3 -> sameKeys s1 s3.
Proof.
  intros [P1 C1 R1] [P2 C2 R2]. split; [congruence|..].
  - intros c k (k2 & L2 & ? & ?)%C2. destruct (C1 c k2 L2) as (k1 & L1 & ? & ?). exists k1. split_and!; [done|congruence..].
  - intros c k (k2 & L2 & ? & ?)%R2. destruct (R1 c k2 L2) as (k1 & L1 & ? & ?). exists k1. split_and!; [done|congruence..].
Qed.

Lemma sameKeys_goto s c g : sameKeys s (goto s c g).
Proof.
  split; [done| |eauto]. intros d k [[_ Hd]|(-> & k0 & Hd & ->)]%goto_lookup; eauto.
Qed.

Lemma sameKeys_putRoute s e r r' :
  rs_routes s !! e = Some r -> rt_key r' = rt_key r -> isICMP r' = isICMP r -> sameKeys s (putRoute s e r').
Proof.
  intros Hr Hk Hi. split; [done|eauto|]. intros x y [(<- & <- & _)|[_ Hy]]%list_lookup_insert_Some; eauto.
Qed.

Lemma sameKeys_closeRoute s e : sameKeys s (closeRoute s e).
Proof.
  unfold closeRoute. destruct (rs_routes s !! e) as [r|] eqn:Er; [|apply sameKeys_refl]. destruct (rt_open r); [|apply sameKeys_refl].
  apply (sameKeys_trans _ (putRoute s e (mkRoute (rt_key r) (rt_kind r) (rt_last r) false (rt_lease r)))).
  - by eapply sameKeys_putRoute.
  - split; [done|eauto|eauto].
Qed.

Lemma sameKeys_fields s s' : rs_panic s' = rs_panic s -> rs_calls s' = rs_calls s -> rs_routes s' = rs_routes s -> sameKeys s s'.
Proof. intros E1 E2 E3. split; [done|rewrite E2; eauto|rewrite E3; eauto]. Qed.

Lemma sameKeys_deleteRoute s key e : sameKeys s (deleteRoute s key e).
Proof. destruct (deleteRoute_spec s key e) as (en & ic & -> & _). by apply sameKeys_fields. Qed.

Lemma sameKeys_finishRoute s c key o e err : sameKeys s (finishRoute s c key o e err).
Proof.
  unfold finishRoute. destruct (if stopped s then Some ErrNetClosed else err) as [er|];
    [|destruct e as [i|]; [destruct (rt_kind <$> rs_routes s !! i) as [[|? ?]|]|]];
    (eapply sameKeys_trans; [|apply sameKeys_goto]; by apply sameKeys_fields).
Qed.

Lemma sameKeys_reserveStep identities s c k o ev : sameKeys s (reserveStep identities s c k o ev).
Proof.
  unfold reserveStep. destruct ev as [e|].
  - eapply sameKeys_trans; [apply sameKeys_closeRoute|apply sameKeys_goto].
  - set (m := budgetStep _ _). apply (sameKeys_trans _ (setMoney s m)); [by apply sameKeys_fields|].
    case_bool_decide; [apply sameKeys_finishRoute|]. eapply sameKeys_trans; [|apply sameKeys_goto]. by apply sameKeys_fields.
Qed.

(** A predicate on keys that tells the two kinds of calls apart. *)
Section Separated.
  Variable isEcho : udpRouteKey -> bool.

Definition separated (ev : event) : Prop := match ev with ECall icmp key _ => isEcho key = icmp | _ => True end.

Record kindsInv (s : Routes) : Prop := {
  ki_panic : rs_panic s = false;
  ki_calls : forall c k, rs_calls s !! c = Some k -> isEcho (cl_key k) = cl_icmp k;
  ki_routes : forall e r, rs_routes s !! e = Some r -> isEcho (rt_key r) = isICMP r;
}.

Lemma kinds_same s s' : kindsInv s -> sameKeys s s' -> kindsInv s'.
Proof.
  intros [K1 K2 K3] [P C R]. split; [congruence|..].
  - intros c k (k0 & Hk & -> & ->)%C. by eapply K2.
  - intros e r (r0 & Hr & -> & ->)%R. by eapply K3.
Qed.

Lemma kinds_begin s c k :
  routesInv s -> kindsInv s -> rs_calls s !! c = Some k -> kindsInv (beginRoute s c k).
Proof.
  intros Hi Hk Hc. assert (forall b e, tableOf (rs_table s) b !! cl_key k = Some e -> cl_icmp k = b) as Hb.
  { intros b e He. destruct (ri_routes s Hi b _ e He) as (r & Hr & <- & Er).
    rewrite <- (ki_routes s Hk e r Hr), Er. symmetry. by apply (ki_calls s Hk c k). }
  assert (forall g, kindsInv (goto s c g)) as Hg by (intros g; eapply kinds_same; [done|apply sameKeys_goto]).
  unfold beginRoute. destruct (stopped s); [done|].
  destruct (tb_entries (rs_table s) !! cl_key k) as [e|] eqn:Ee; [by rewrite (Hb false e Ee)|].
  destruct (tb_icmp (rs_table s) !! cl_key k) as [e|] eqn:Ei; [by rewrite (Hb true e Ei)|].
  destruct (tb_opening (rs_table s) !! cl_key k); [done|]. destruct (_ <=? _); [done|].
  destruct (evictOldestLocked s) as [ev t']. eapply kinds_same; [|apply sameKeys_goto].
  eapply kinds_same; [done|by apply sameKeys_fields].
Qed.

Lemma kinds_open s c k o i :
  routesInv s -> kindsInv s -> rs_calls s !! c = Some k -> cl_stage k = SOpen o -> kindsInv (openStep LookupIPAddr s c k o i).
Proof.
  intros Hi Hk Hc Hst. unfold openStep. destruct (ri_lease s Hi c k o Hc Hst) as [n Hn]. unfold leaseOf in Hn. rewrite Hn.
  set (kind := if cl_icmp k then _ else _).
  assert (forall kd, kind = Ok kd -> match kd with UDPRoute => false | _ => true end = cl_icmp k) as Hkind.
  { unfold kind. intros kd. destruct (cl_icmp k).
    - destruct (ResolveICMPIP _ _ _); [|done]. destruct (in_open i); [done|]. by intros [= <-].
    - destruct (in_open i); [done|]. by intros [= <-]. }
  destruct kind as [kd|err]; [|by eapply kinds_same; [|apply sameKeys_finishRoute]].
  eapply kinds_same; [|apply sameKeys_finishRoute]. destruct Hk as [K1 K2 K3]. split; [done|done|].
  cbn [setRoutes rs_routes]. intros e r [Hr|[_ Hr]]%lookup_app_Some; [by eapply K3|].
  apply list_lookup_singleton_Some in Hr as [_ <-]. unfold isICMP. cbn [rt_key rt_kind]. rewrite (Hkind kd eq_refl). by apply (K2 c k).
Qed.

Lemma sameKeys_use s c k e i r : rs_routes s !! e = Some r -> sameKeys s (useStep s c k e i).
Proof.
  intros Hr. unfold useStep. rewrite Hr.
  assert (forall s1 o w, sameKeys s s1 ->
    sameKeys s (match w with
                | None => goto (send s1 o) c (SDone None)
                | Some err => goto (deleteRoute s1 (cl_key k) e) c (SClose e err)
                end)) as Hafter.
  { intros s1 o [err|] Hs; (eapply sameKeys_trans; [exact Hs|]); (eapply sameKeys_trans; [|apply sameKeys_goto]).
    - apply sameKeys_deleteRoute.
    - by apply sameKeys_fields. }
  cbn [rt_kind rt_key rt_last rt_open rt_lease]. destruct (rt_kind r) as [|ip pend] eqn:Ek.
  - apply Hafter. eapply sameKeys_putRoute; [done|done|]. unfold isICMP. cbn [rt_kind]. by rewrite Ek.
  - destruct (PrepareRequest _ _ _ _) as [w tr].
    match goal with |- context [setEcho ?x ?y] => assert (sameKeys s (setEcho x y)) as H1 end.
    { eapply sameKeys_trans; [eapply sameKeys_putRoute; [done|..]|by apply sameKeys_fields]; [done|].
      unfold isICMP. cbn [rt_kind]. by rewrite Ek. }
    destruct w as [wire|err]; [by apply Hafter|]. eapply sameKeys_trans; [exact H1|apply sameKeys_goto].
Qed.

Lemma kinds_call s c i identities :
  routesInv s -> kindsInv s -> kindsInv (callStep LookupIPAddr identities s c i).
Proof.
  intros Hi Hk. unfold callStep. destruct (rs_calls s !! c) as [k|] eqn:Hc; [|done].
  assert (forall s1 g, sameKeys s s1 -> kindsInv (goto s1 c g)) as Hg.
  { intros s1 g Hs. eapply kinds_same; [done|]. eapply sameKeys_trans; [done|apply sameKeys_goto]. }
  destruct (cl_stage k) as [|o|o ev|o|o e err|e|e err|err] eqn:Hst.
  - by apply kinds_begin.
  - destruct (in_pick i) as [|[|?]].
    + destruct (rs_openings s !! o) as [[[] [err|] ?]|]; try done; apply Hg, sameKeys_refl.
    + destruct (in_cancelled i); [apply Hg, sameKeys_refl|done].
    + destruct (rs_ctxDone s); [apply Hg, sameKeys_refl|done].
  - eapply kinds_same; [done|apply sameKeys_reserveStep].
  - by apply kinds_open.
  - apply Hg. assert (sameKeys s (match e with Some e => closeRoute s e | None => s end)) as H1
      by (destruct e; [apply sameKeys_closeRoute|apply sameKeys_refl]).
    eapply sameKeys_trans; [exact H1|]. destruct (_ ≫= ro_release); by apply sameKeys_fields.
  - destruct (ri_use s Hi c k e Hc Hst) as [r Hr]. eapply kinds_same; [done|]. by eapply sameKeys_use.
  - apply Hg, sameKeys_closeRoute.
  - done.
Qed.

Lemma sameKeys_receive s n from ft data now rnd : routesInv s -> sameKeys s (receiveData s n from ft data now rnd).
Proof.
  intros Hi. unfold receiveData. destruct (rs_receivers s !! n) as [e|] eqn:En; [|apply sameKeys_refl].
  destruct (ri_receivers s Hi e) as [r Hr]; [by eapply list_elem_of_lookup_2|]. rewrite Hr.
  destruct (rt_open r); [|apply sameKeys_refl]. cbn [negb].
  assert (forall s1 address body, sameKeys s s1 ->
    sameKeys s match rs_codecs s1 !! (rt_key r).1.1 with
              | None => s1
              | Some c =>
                  let '(p, c') := EncodePacket c [] DirServerToClient (rt_key r).1.2 address body (now / second) rnd in
                  let s := setCodecs s1 (<[(rt_key r).1.1 := c']> (rs_codecs s1)) in
                  match p with Ok (packet, _) => send s (ToClient packet) | Fail _ => s end
              end) as Hans.
  { intros s1 address body H1. eapply sameKeys_trans; [exact H1|]. destruct (rs_codecs s1 !! _) as [cd|]; [|apply sameKeys_refl].
    destruct (EncodePacket _ _ _ _ _ _ _ _) as [[[packet ?]|] c']; by apply sameKeys_fields. }
  destruct (rt_kind r) as [|ip pend] eqn:Ek.
  - apply Hans. eapply sameKeys_putRoute; [done|done|]. unfold isICMP. cbn [rt_kind]. by rewrite Ek.
  - destruct from as [src|]; [|apply sameKeys_refl]. destruct (negb (Equal src ip)); [apply sameKeys_refl|].
    destruct (RestoreReply _ _ _ _) as [b tr].
    match goal with |- context [putRoute s e ?x] => assert (sameKeys s (putRoute s e x)) as H1 end.
    { eapply sameKeys_putRoute; [done|done|]. unfold isICMP. cbn [rt_kind]. by rewrite Ek. }
    destruct b as [body|]; [by apply Hans|exact H1].
Qed.

Lemma kinds_step identities s ev :
  routesInv s -> kindsInv s -> separated ev -> kindsInv (step LookupIPAddr identities s ev).
Proof.
  intros Hi Hk Hev. unfold step. rewrite (ki_panic s Hk).
  destruct ev as [icmp key payload|c i|n from ft data now rnd|n|now|n| | |op].
  - destruct Hk as [K1 K2 K3]. split; [done| |done]. cbn [setCalls rs_calls]. intros c k [Hc|[_ Hc]]%lookup_app_Some; [by eapply K2|].
    apply list_lookup_singleton_Some in Hc as [_ <-]. exact Hev.
  - by apply kinds_call.
  - eapply kinds_same; [done|by apply sameKeys_receive].
  - eapply kinds_same; [done|]. unfold receiverEnd. destruct (rs_receivers s !! n) as [e|] eqn:En; [|apply sameKeys_refl].
    destruct (ri_receivers s Hi e) as [r Hr]; [by eapply list_elem_of_lookup_2|]. rewrite Hr.
    eapply sameKeys_trans; [apply sameKeys_deleteRoute|]. by apply sameKeys_fields.
  - eapply kinds_same; [done|by apply sameKeys_fields].
  - eapply kinds_same; [done|]. unfold closerStep. destruct (rs_closers s !! n); [|apply sameKeys_refl].
    eapply sameKeys_trans; [apply sameKeys_closeRoute|by apply sameKeys_fields].
  - eapply kinds_same; [done|by apply sameKeys_fields].
  - eapply kinds_same; [done|by apply sameKeys_fields].
  - destruct (budgetStep _ op) as [b ls]. eapply kinds_same; [done|apply sameKeys_fields; try done; by rewrite (ki_panic s Hk)].
Qed.
End Separated.

Lemma kinds_run isEcho identities s evs :
  routesInv s -> kindsInv isEcho s -> Forall eventOk evs -> Forall (separated isEcho) evs ->
  kindsInv isEcho (run LookupIPAddr identities s evs).
Proof.
  intros Hi Hk Hf. revert s Hi Hk. induction Hf as [|ev evs Hev Hf IH]; intros s Hi Hk Hsep; [done|].
  apply Forall_cons in Hsep as [H1 H2]. cbn [run foldl]. apply IH; [by apply inv_step|by apply kinds_step|done].
Qed.

(** ** Properties *)

(** the table of an association is bounded under every interleaving of
    calls, receivers, expiry, eviction and shutdown: routes and openings
    together never exceed 1024, and the process-wide budget of sockets is
    exact, with at most 1024 in all and 256 for a user. *)
Theorem routes_bounded identities codecs b foreign echo evs i :
  budgetOk b (outstanding foreign) -> Forall eventOk evs ->
  let s := run LookupIPAddr identities (newUDPRoutes codecs b foreign echo) evs in
  tableSize (rs_table s) <= maxUDPRoutes /\
  used (rs_money s).1 = len (outstanding (rs_foreign s)) + len (outstanding (rs_money s).2) /\
  used (rs_money s).1 <= MaxUDPTargets /\ userCount (rs_money s).1 i <= MaxUserUDPTargets.
Proof.
  intros Hb Hev s. pose proof (inv_run identities _ evs (inv_new codecs b foreign echo Hb) Hev) as Hi. fold s in Hi.
  pose proof (ri_money s Hi) as Hm. rewrite (userCount_ok _ _ i Hm). destruct Hm as [M1 M2 M3 M4].
  split_and!; [apply (ri_bound s Hi)|by rewrite <- len_app|done|apply M4].
Qed.

(** no route's reservation leaks: a route that left the table is closed by
    whoever took it out, an opening that fails gives back what it reserved,
    whatever runs in between; when no call and no closing goroutine is under
    way, the table's share of the budget is at most one reservation per route
    in the table, and after [Close] it is nothing. *)
Theorem routes_leases identities codecs b foreign echo evs :
  budgetOk b (outstanding foreign) -> Forall eventOk evs ->
  let s := run LookupIPAddr identities (newUDPRoutes codecs b foreign echo) evs in
  rs_closers s = [] -> Forall (fun k => mustClose (cl_stage k) = None /\ owes (cl_stage k) = None) (rs_calls s) ->
  used (rs_money s).1 <= len (outstanding (rs_foreign s)) +
    Z.of_nat (size (tb_entries (rs_table s))) + Z.of_nat (size (tb_icmp (rs_table s))) /\
  (tb_closed (rs_table s) = true -> used (rs_money s).1 = len (outstanding (rs_foreign s))).
Proof.
  intros Hb Hev s Hcl Hq. pose proof (inv_run identities _ evs (inv_new codecs b foreign echo Hb) Hev) as Hi. fold s in Hi.
  pose proof (leases_in_table s Hi Hcl Hq) as Hle. pose proof (bo_used _ _ (ri_money s Hi)) as Hu. rewrite len_app in Hu.
  split; [lia|]. intros Hc. destruct (ri_closed s Hi Hc) as [E1 E2]. rewrite E1, E2, !map_size_empty in Hle. lia.
Qed.

(** C24: [Write] and [WriteICMP] share one table; as long as their keys never
    coincide, no call meets a route of the other kind, whose missing value it
    would dereference, and no call or receiver misses its route or lease. *)
Theorem routes_no_panic isEcho identities codecs b foreign echo evs :
  budgetOk b (outstanding foreign) -> Forall eventOk evs -> Forall (separated isEcho) evs ->
  rs_panic (run LookupIPAddr identities (newUDPRoutes codecs b foreign echo) evs) = false.
Proof.
  intros Hb Hev Hsep. apply (ki_panic isEcho). apply kinds_run; [by apply inv_new| |done|done]. by split.
Qed.
End Steps.

(** ** Witnesses *)

Definition noLookup : gostring -> result (list IPAddr) := fun _ => Fail (Errorf "no such host").
Definition quiet (now : Z) : input := mkInput now 0 false None None.
Definition udpKey : udpRouteKey := (0%nat, 7, bs "example.com:53").
Definition echoKey : udpRouteKey := (0%nat, 7, bs "icmp:8.8.8.8").
Definition demoRoutes : Routes := newUDPRoutes [] emptyBudget [] 0.

(** A UDP route and an ICMP route are opened and used; both are closed with the
    association. *)
Definition demoEvents : list event :=
  [ECall false udpKey (bs "query"); EStep 0 (quiet 1); EStep 0 (quiet 2); EStep 0 (quiet 3); EStep 0 (quiet 4);
   ECall true echoKey (BuildEchoRequest 1 1 (bs "ping") false); EStep 1 (quiet 5); EStep 1 (quiet 6); EStep 1 (quiet 7); EStep 1 (quiet 8)].
Definition demoClose : list event := [ECloseTable; ECloser 0; ECloser 0].

Lemma demoEvents_ok : Forall eventOk demoEvents /\ Forall eventOk (demoEvents ++ demoClose).
Proof. split; repeat constructor. Qed.

Definition holdings (s : Routes) : Z * nat * nat * list stage :=
  (used (rs_money s).1, size (tb_entries (rs_table s)), size (tb_icmp (rs_table s)), cl_stage <$> rs_calls s).

Lemma demo_open : holdings (run noLookup [bs "u"] demoRoutes demoEvents) = (2, 1%nat, 1%nat, [SDone None; SDone None]).
Proof. vm_compute. reflexivity. Qed.

Lemma routes_bounded_witness :
  tableSize (rs_table (run noLookup [bs "u"] demoRoutes demoEvents)) <= maxUDPRoutes /\
  used (rs_money (run noLookup [bs "u"] demoRoutes demoEvents)).1 = 2.
Proof.
  split; [|exact (f_equal (fun h => h.1.1.1) demo_open)].
  apply (routes_bounded noLookup [bs "u"] [] emptyBudget [] 0 demoEvents (bs "u")); [apply budgetOk_empty|apply demoEvents_ok].
Defined.

Lemma demo_closed :
  let s := run noLookup [bs "u"] demoRoutes (demoEvents ++ demoClose) in
  rs_closers s = [] /\ (cl_stage <$> rs_calls s) = [SDone None; SDone None] /\ tb_closed (rs_table s) = true /\ rs_foreign s = [].
Proof. vm_compute. split_and!; reflexivity. Qed.

Lemma routes_leases_witness : used (rs_money (run noLookup [bs "u"] demoRoutes (demoEvents ++ demoClose))).1 = 0.
Proof.
  destruct demo_closed as (E1 & E2 & E3 & E4).
  destruct (routes_leases noLookup [bs "u"] [] emptyBudget [] 0 (demoEvents ++ demoClose)) as [_ H];
    [apply budgetOk_empty|apply demoEvents_ok|exact E1| |].
  - assert (Forall (fun g => mustClose g = None /\ owes g = None)
      (cl_stage <$> rs_calls (run noLookup [bs "u"] demoRoutes (demoEvents ++ demoClose)))) as Hf by (rewrite E2; repeat constructor).
    apply Forall_fmap in Hf. exact Hf.
  - fold demoRoutes in H. rewrite (H E3), E4. reflexivity.
Defined.

Definition isEchoKey (k : udpRouteKey) : bool := hasPrefix icmpPrefix k.2.

Lemma routes_no_panic_witness : rs_panic (run noLookup [bs "u"] demoRoutes demoEvents) = false.
Proof.
  apply (routes_no_panic noLookup isEchoKey [bs "u"] [] emptyBudget [] 0 demoEvents);
    [apply budgetOk_empty|apply demoEvents_ok|repeat constructor].
Defined.

(** When the name of a UDP destination normalises to a text that starts with
    [icmp:], its route is met by a later ICMP packet for the same text. *)
Lemma routes_key_clash :
  let clash := (0%nat, 7, bs "icmp:80") in
  rs_panic (run noLookup [bs "u"] demoRoutes
    [ECall false clash (bs "query"); EStep 0 (quiet 1); EStep 0 (quiet 2); EStep 0 (quiet 3); EStep 0 (quiet 4);
     ECall true clash (bs "ping"); EStep 1 (quiet 5)]) = true.
Proof. vm_compute. reflexivity. Qed.
