(* ===== verification/StreamServer.v ===== *)
(** * The RawStream server and its client: [pkg/server] (stream_server.go,
    [ValidateUserKeys] of server.go) and [pkg/client] (conn_stream.go)

    The whole handler of a connection: the hello, the check of the replay
    cache, the encrypted OPEN frame, the admission of the nonce, the answer, the
    dial of the target and the first bytes to it; and the client's side of the
    same exchange.  The client connection is a reader and a writer, the answers
    of the replay cache and of the dialer are arguments, and so are the moments
    at which the handler looks at the clock (in nanoseconds). *)
From S2P Require Import Prelude GoIO GoNet Crypto Address RawHandshake RawOpen Records RawStream Encoding Auth Heap ReplayCache ReplayRuns ReplayWindow UdpReplay.

Open Scope Z_scope.

(** ** Users *)

Record UserKey := mkUser {
  Email : gostring;
  PSK : list byte;
  Level : Z;
}.

Definition MaxUserKeys : Z := 128.

Section Users.
  (** [strings.ToLower] *)
  Variable ToLower : gostring -> gostring.

(** The loop of [ValidateUserKeys] from user [i], with the e-mails and keys
    seen so far. *)
Fixpoint validateLoop (several : bool) (users : list UserKey) (seenEmails seenKeys : gset gostring) : option error :=
  match users with
  | [] => None
  | user :: rest =>
      let email := TrimSpace (Email user) in
      if several && bool_decide (email = []) then Some (Errorf "chitanda: user has no email")
      else
        let key := ToLower email in
        if negb (bool_decide (email = [])) && bool_decide (key ∈ seenEmails)
        then Some (Errorf "chitanda: duplicate user email")
        else
          let seenEmails := if bool_decide (email = []) then seenEmails else {[ key ]} ∪ seenEmails in
          if len (PSK user) <? 32 then Some (Errorf "chitanda: PSK must contain at least 32 bytes")
          else if bool_decide (PSK user ∈ seenKeys) then Some (Errorf "chitanda: duplicate PSK")
          else validateLoop several rest seenEmails ({[ PSK user ]} ∪ seenKeys)
  end.

Definition ValidateUserKeys (users : list UserKey) : option error :=
  if (len users =? 0) || (MaxUserKeys <? len users) then Some (Errorf "chitanda: user count must be between 1 and 128")
  else validateLoop (1 <? len users) users ∅ ∅.

Definition copyUserKeys (users : list UserKey) : list UserKey * list (list byte) :=
  let copied := (fun u => mkUser (TrimSpace (Email u)) (PSK u) (Level u)) <$> users in
  (copied, PSK <$> copied).

(** ** The server *)

Record StreamServer := mkStreamServer {
  ss_psk : list byte;
  ss_users : list UserKey;
  ss_matcher : option PreparedClientHelloMatcher;
  ss_serverID : gostring;
}.

Section Code.
  Context `{Crypto}.

Definition NewStreamServer (psk : list byte) (serverID : gostring) : StreamServer :=
  mkStreamServer psk (if 0 <? len psk then [mkUser [] psk 0] else []) None serverID.

Definition NewStreamServerWithUsers (users : list UserKey) (serverID : gostring) : result StreamServer :=
  match ValidateUserKeys users with
  | Some err => Fail err
  | None =>
      let '(validUsers, pskList) := copyUserKeys users in
      let? matcher := NewPreparedClientHelloMatcher pskList serverID in
      Ok (mkStreamServer (match validUsers with [u] => PSK u | _ => [] end) validUsers (Some matcher) serverID)
  end.

(** What the handler of one connection meets. *)
Record ConnIO := mkConnIO {
  c_in : reader;
  c_out : writer;
  t_hello : Z;
  t_check : Z;
  t_accept : Z;
  cacheCheck : gostring -> Z -> bool;
  cacheAccept : gostring -> Z -> bool * option error;
  c_rnd : reader;
  dialTarget : UserKey -> gostring -> result writer;
}.

(** What it leaves: the client connection's writer, the authenticated hello
    (user, nonce, timestamp), the admission it asked of the replay cache with
    the answer, the target it dialled, and the two connections it relays. *)
Record Outcome := mkOutcome {
  o_out : writer;
  o_hello : option (UserKey * list byte * Z);
  o_admission : option (gostring * Z * bool);
  o_dialled : option (UserKey * gostring);
  o_relay : option (FramedReader * FramedWriter * writer);
  o_err : option error;
}.

Definition panicNilMatcher := Errorf "panic: nil *PreparedClientHelloMatcher".
Definition errNoUser := Errorf "matched index out of range".

(** Step 1: the hello. *)
Definition readHello (s : StreamServer) (r : reader) (now : Z) : result (UserKey * list byte * Z) * reader :=
  if (0 <? len (ss_psk s)) && (len (ss_users s) <=? 1) then
    let '(res, r1) := ReadAndVerifyPolymorphicClientHello r (ss_psk s) (ss_serverID s) (now / second) in
    (let? (cNonce, tStamp) := res in
     Ok (match ss_users s with [u] => u | _ => mkUser [] (ss_psk s) 0 end, cNonce, tStamp), r1)
  else
    match ss_matcher s with
    | None => (Fail panicNilMatcher, r)
    | Some m =>
        let '(res, r1) := ReadAndMatch m r (now / second) in
        (let? (matchedIdx, cNonce, tStamp) := res in
         match ss_users s !! matchedIdx with
         | Some u => Ok (u, cNonce, tStamp)
         | None => Fail errNoUser
         end, r1)
    end.

(** Steps 3 to 6: the encrypted OPEN frame. *)
Definition errWireLen := Errorf "0-RTT wire length out of range".
Definition errOpenFrame := Errorf "0-RTT chunk decryption failed".

Definition readOpen (psk : list byte) (serverID : gostring) (ts : Z) (clientNonce : list byte) (r : reader)
  : result (gostring * list byte) * reader :=
  let '(lenBuf, e, r1) := ReadFull 2 r in
  match e with
  | Some err => (Fail err, r1)
  | None =>
      let wireLen := be_val lenBuf in
      if (wireLen <=? 16) || (MaxChunkWireLen <? wireLen) then (Fail errWireLen, r1)
      else
        let '(encFrame, e2, r2) := ReadFull wireLen r1 in
        match e2 with
        | Some err => (Fail err, r2)
        | None =>
            let k0RTT := Derive0RTTKey psk serverID ts clientNonce in
            match Decrypt0RTTChunk k0RTT encFrame with
            | None => (Fail errOpenFrame, r2)
            | Some openFramePlaintext => (Decode0RTTOpenFrame openFramePlaintext, r2)
            end
        end
  end.

(** The record of what was written starts anew with the records. *)
Definition sessionWriter (w : writer) : writer := mkWriter [] (wr_sched w).

(** Steps 8 to 13, after the admission of the nonce. *)
Definition serve (s : StreamServer) (io : ConnIO) (user : UserKey) (clientNonce : list byte) (ts : Z)
    (targetAddr : gostring) (initialPayload : list byte) (r : reader)
  : writer * option (UserKey * gostring) * option (FramedReader * FramedWriter * writer) * option error :=
  match CreatePolymorphicServerHello (PSK user) (ss_serverID s) ts clientNonce (c_rnd io) with
  | Fail err => (c_out io, None, None, Some err)
  | Ok (serverHelloRecord, serverNonce, _) =>
      let '(_, e, out) := Write serverHelloRecord (c_out io) in
      match e with
      | Some err => (out, None, None, Some err)
      | None =>
          let '(c2sKey, s2cKey) := DeriveSessionKeys (PSK user) (ss_serverID s) ts clientNonce serverNonce in
          let dialled := Some (user, targetAddr) in
          match dialTarget io user targetAddr with
          | Fail err => (out, dialled, None, Some err)
          | Ok upstream =>
              let '(e2, upstream) :=
                if 0 <? len initialPayload then let '(_, e, u) := Write initialPayload upstream in (e, u)
                else (None, upstream) in
              match e2 with
              | Some err => (out, dialled, None, Some err)
              | None =>
                  (out, dialled,
                   Some (NewFramedReader r (NewAEADStream c2sKey),
                         NewFramedWriter (sessionWriter out) (NewAEADStream s2cKey), upstream), None)
              end
          end
      end
  end.

Definition errReplayed := Errorf "replayed handshake".

Definition handleConn (s : StreamServer) (io : ConnIO) : Outcome :=
  match readHello s (c_in io) (t_hello io) with
  | (Fail err, _) => mkOutcome (c_out io) None None None None (Some err)
  | (Ok (user, clientNonce, ts), r1) =>
      let hello := Some (user, clientNonce, ts) in
      let nonceHex := hexencode clientNonce in
      if cacheCheck io nonceHex (t_check io) then mkOutcome (c_out io) hello None None None (Some errReplayed)
      else
        match readOpen (PSK user) (ss_serverID s) ts clientNonce r1 with
        | (Fail err, _) => mkOutcome (c_out io) hello None None None (Some err)
        | (Ok (targetAddr, initialPayload), r2) =>
            let '(accepted, err) := cacheAccept io nonceHex (t_accept io) in
            let admission := Some (nonceHex, t_accept io, bool_decide (err = None) && accepted) in
            if negb (bool_decide (err = None) && accepted)
            then mkOutcome (c_out io) hello admission None None (Some errReplayed)
            else
              let '(out, dialled, relay, e) := serve s io user clientNonce ts targetAddr initialPayload r2 in
              mkOutcome out hello admission dialled relay e
        end
  end.

(** ** The client *)

(** The first flight: hello, length and encrypted OPEN frame. *)
Definition flight1 (psk : list byte) (serverID target : gostring) (now : Z) (rnd : reader)
  : result (list byte * list byte * Z) :=
  let? (clientHello, clientNonce, ts, rnd1) := CreatePolymorphicClientHello psk serverID (now / second) rnd in
  let k0RTT := Derive0RTTKey psk serverID ts clientNonce in
  let? (openFramePlaintext, rnd2) := Encode0RTTOpenFrame target [] DefaultMinPadding DefaultMaxPadding rnd1 in
  let encrypted0RTT := Encrypt0RTTChunk k0RTT openFramePlaintext in
  Ok (clientHello ++ be 2 (u16 (len encrypted0RTT)) ++ encrypted0RTT, clientNonce, ts).

(** [dialRawStream] once the TCP connection is there: the reader and writer of
    the session. *)
Definition dialRawStream (psk : list byte) (serverID target : gostring) (now : Z) (rnd : reader)
    (connIn : reader) (connOut : writer) : result (FramedReader * FramedWriter) * writer :=
  match flight1 psk serverID target now rnd with
  | Fail err => (Fail err, connOut)
  | Ok (flight, clientNonce, ts) =>
      let '(_, e, out) := Write flight connOut in
      match e with
      | Some err => (Fail err, out)
      | None =>
          let '(res, r1) := ReadAndVerifyPolymorphicServerHello connIn psk serverID ts clientNonce in
          match res with
          | Fail err => (Fail err, out)
          | Ok serverNonce =>
              let '(c2sKey, s2cKey) := DeriveSessionKeys psk serverID ts clientNonce serverNonce in
              (Ok (NewFramedReader r1 (NewAEADStream s2cKey),
                   NewFramedWriter (sessionWriter out) (NewAEADStream c2sKey)), out)
          end
      end
  end.

(** ** The relay *)

(** [io.CopyBuffer(target, client, buf)] with a buffer of [plen] bytes: [None]
    is the end of the client's stream. *)
Fixpoint copyUpload (fuel : nat) (plen : Z) (client : FramedReader) (target : writer) : option error * writer :=
  match fuel with
  | O => (Some (Errorf "out of fuel"), target)
  | S fuel =>
      let '(b, er, client) := FramedReader_Read client plen in
      let '(ew, target) :=
        if 0 <? len b then
          let '(nw, e, target) := Write b target in
          (match e with Some _ => e | None => if nw =? len b then None else Some ErrShortWrite end, target)
        else (None, target) in
      match ew with
      | Some err => (Some err, target)
      | None =>
          match er with
          | Some EOF => (None, target)
          | Some err => (Some err, target)
          | None => copyUpload fuel plen client target
          end
      end
  end.

(** The upload half of [relayBidirectional]: whether it ends with
    [closeWriteConn(target)], and what the target got. *)
Definition copyBufferSize : Z := 256 * 1024.

Definition relayUpload (client : FramedReader) (target : writer) : bool * writer :=
  let '(err, target) := copyUpload (readFuel (fr_r client)) copyBufferSize client target in
  (bool_decide (err = None), target).

End Code.
End Users.

(** ** Users that pass validation *)

Section UserProofs.
  Variable ToLower : gostring -> gostring.

Lemma validateLoop_keys several users emails keys :
  validateLoop ToLower several users emails keys = None ->
  Forall (fun u => 32 <= len (PSK u)) users /\ NoDup (PSK <$> users) /\ Forall (fun u => PSK u ∉ keys) users.
Proof.
  revert emails keys. induction users as [|u users IH]; intros emails keys E; [by repeat constructor|].
  cbn [validateLoop] in E. destruct (_ && _); [done|]. destruct (_ && _); [done|].
  destruct (Z.ltb_spec (len (PSK u)) 32); [done|]. destruct (bool_decide_reflect (PSK u ∈ keys)); [done|].
  apply IH in E as (H1 & H2 & H3). rewrite Forall_forall in H3. split_and!.
  - by constructor.
  - rewrite fmap_cons. constructor; [|done]. intros (v & Ev & Hv)%list_elem_of_fmap. specialize (H3 v Hv). set_solver.
  - constructor; [done|]. rewrite Forall_forall. intros v Hv. specialize (H3 v Hv). set_solver.
Qed.

Lemma ValidateUserKeys_ok users :
  ValidateUserKeys ToLower users = None ->
  1 <= len users <= 128 /\ Forall (fun u => 32 <= len (PSK u)) users /\ NoDup (PSK <$> users).
Proof.
  unfold ValidateUserKeys, MaxUserKeys. destruct (_ || _) eqn:El; [done|]. bool_to_prop.
  intros (H1 & H2 & _)%validateLoop_keys. split_and!; [lia..|done|done].
Qed.
End UserProofs.

(** ** Servers that are ready to serve *)

Section ServerProofs.
  Context `{Crypto}.

(** One user whose key is the server's, or a matcher for the keys of all. *)
Definition serverOk (s : StreamServer) : Prop :=
  (exists u, ss_users s = [u] /\ ss_psk s = PSK u /\ 0 < len (PSK u)) \/
  (exists m, ss_psk s = [] /\ ss_matcher s = Some m /\
     NewPreparedClientHelloMatcher (PSK <$> ss_users s) (ss_serverID s) = Ok m).

Lemma NewStreamServer_serverOk psk sid : psk <> [] -> serverOk (NewStreamServer psk sid).
Proof.
  intros Hp. assert (0 < len psk) as Hl by (destruct psk; [done|cbn [length]; lia]).
  left. exists (mkUser [] psk 0). cbn. by rewrite (proj2 (Z.ltb_lt 0 (len psk)) Hl).
Qed.

Lemma NewStreamServerWithUsers_serverOk ToLower users sid s :
  NewStreamServerWithUsers ToLower users sid = Ok s ->
  serverOk s /\ ss_serverID s = sid /\ ss_users s = fst (copyUserKeys users).
Proof.
  unfold NewStreamServerWithUsers. destruct (ValidateUserKeys ToLower users) eqn:Ev; [done|].
  apply ValidateUserKeys_ok in Ev as (Hn & Hk & _). cbn [copyUserKeys].
  set (vs := (fun u => mkUser _ _ _) <$> users).
  destruct (NewPreparedClientHelloMatcher (PSK <$> vs) sid) as [m|] eqn:Em; [|done].
  intros [= <-]. cbn [ss_serverID ss_users]. split_and!; [|done|done].
  assert (length vs = length users) as Hl by apply length_fmap.
  destruct vs as [|u [|u' vs']] eqn:Evs; [cbn in Hl; lia| |].
  - left. exists u. cbn. split_and!; [done|done|]. destruct users as [|v [|? ?]]; try done.
    assert (PSK u = PSK v) as -> by (cbn in Evs; by injection Evs as <-). apply Forall_inv in Hk. cbn in Hk. lia.
  - right. exists m. cbn. done.
Qed.

(** Both ways of reading a hello match it against the keys of the users. *)
Lemma readHello_match s r now :
  serverOk s ->
  exists matchf, (forall header x, len header = 49 ->
      (matchf header = Ok x <-> first_match (PSK <$> ss_users s) (ss_serverID s) header (now / second) x)) /\
    forall u nonce ts r1,
      readHello s r now = (Ok (u, nonce, ts), r1) <->
      exists i, readAndMatchWith matchf r = (Ok (i, nonce, ts), r1) /\ ss_users s !! i = Some u /\
        (32 <= len (ss_psk s) \/ ss_psk s = []).
Proof.
  unfold readHello. intros [(u0 & Eu & Ep & Hl)|(m & Ep & Em & En)].
  - rewrite Ep, Eu. rewrite (proj2 (Z.ltb_lt _ _)) by done. cbn [andb length Z.leb]. change (1 <=? 1) with true. cbn iota.
    exists (fun header => MatchPolymorphicClientHelloHeader header [PSK u0] (ss_serverID s) (now / second)). split.
    { intros header x Hh. apply match_header_spec. lia. }
    intros u nonce ts r1. unfold ReadAndVerifyPolymorphicClientHello, ReadAndMatchPolymorphicClientHello.
    set (rm := readAndMatchWith _ r). destruct (Z.ltb_spec (len (PSK u0)) 32).
    { split; [done|]. intros (i & _ & _ & [?|E]); [lia|]. rewrite E in Hl. cbn in Hl. lia. }
    assert (forall i n t r0, rm = (Ok (i, n, t), r0) -> i = 0%nat) as Hi.
    { unfold rm, readAndMatchWith. intros i n t r0 E. destruct (ReadFull _ r) as [[hd e] r2] eqn:Er. destruct e; [done|].
      pose proof Er as Hb. apply ReadFull_bound in Hb as [_ [Hb _]]; [|done]. specialize (Hb eq_refl).
      destruct (MatchPolymorphicClientHelloHeader hd _ _ _) as [[[[i' p] n'] t']|] eqn:Em; [|done].
      apply match_header_spec in Em as (_ & (psk & Hlk & _) & _); [|unfold ClientHelloSize in Hb; lia].
      apply lookup_lt_Some in Hlk. cbn in Hlk.
      assert (i = i') as -> by (destruct (0 <? p); [destruct (ReadFull p r2) as [[? []] ?]|]; congruence). lia. }
    destruct rm as [[[[i n] t]|e] r2].
    + rewrite (Hi i n t r2 eq_refl). split.
      * intros [= <- <- <- <-]. exists 0%nat. split_and!; try done. by left.
      * intros (j & [= <- <- <- <-] & [= ->] & _). done.
    + split; [done|]. by intros (j & ? & _).
  - rewrite Ep. cbn [length Z.ltb andb]. change (0 <? 0) with false. cbn [andb]. rewrite Em.
    exists (fun header => MatchHeader m header (now / second)). split.
    { intros header x Hh. apply (prepared_header_spec _ _ _ _ _ _ En). lia. }
    intros u nonce ts r1. unfold ReadAndMatch. set (rm := readAndMatchWith _ r).
    destruct rm as [[[[i n] t]|e] r2].
    + split.
      * destruct (ss_users s !! i) as [v|] eqn:Ev; [|done]. intros [= <- <- <- <-]. exists i. split_and!; try done. by right.
      * intros (j & [= <- <- <- <-] & -> & _). done.
    + split; [done|]. by intros (j & ? & _).
Qed.

Lemma authenticates_pad psk sid header now padLen ts :
  authenticates psk sid header now = Some (padLen, ts) -> 0 <= padLen <= 64 /\ 32 <= len psk.
Proof.
  unfold authenticates. set (pl := byteZ (byte_xor _ _)). assert (0 <= pl < 256) by apply byteZ_range. clearbody pl.
  destruct (_ || _) eqn:Ec; [done|]. intros [= <- _]. bool_to_prop. unfold MaxPolymorphicPadding in *. lia.
Qed.

(** A hello that is taken is the authentic hello of one of the users, and
    exactly its bytes are consumed. *)
Lemma readHello_inv s r now u nonce ts r1 :
  serverOk s -> readHello s r now = (Ok (u, nonce, ts), r1) ->
  u ∈ ss_users s /\ exists header pad, rd_content r = header ++ pad ++ rd_content r1 /\
    len header = 49 /\ nonce = slice 9 33 header /\
    authenticates (PSK u) (ss_serverID s) header (now / second) = Some (len pad, ts).
Proof.
  intros Hs E. destruct (readHello_match s r now Hs) as (matchf & Hm & Hr).
  destruct (proj1 (Hr _ _ _ _) E) as (i & E1 & Hu & _). clear E. rename E1 into E. split; [by eapply list_elem_of_lookup_2|].
  apply readAndMatchWith_inv in E as (header & pad & padLen & Hh & Hp & Hc & Em).
  destruct (proj1 (Hm _ _ Hh) Em) as (En & (psk & Hk & Ha) & _).
  rewrite list_lookup_fmap, Hu in Hk. injection Hk as <-. pose proof (authenticates_pad _ _ _ _ _ _ Ha) as [? _].
  exists header, pad. split_and!; [done..|]. rewrite Ha. do 2 f_equal. lia.
Qed.

(** A hello created with a user's key is taken. *)
Lemma readHello_created s r now i u now0 rnd hello nonce ts rnd' rest :
  serverOk s -> ss_users s !! i = Some u ->
  CreatePolymorphicClientHello (PSK u) (ss_serverID s) now0 rnd = Ok (hello, nonce, ts, rnd') ->
  - 90 <= now / second - now0 <= 90 ->
  (forall j v, (j < i)%nat -> ss_users s !! j = Some v ->
     authenticates (PSK v) (ss_serverID s) (take 49 hello) (now / second) = None) ->
  delivers r (hello ++ rest) ->
  exists r1, readHello s r now = (Ok (u, nonce, ts), r1) /\ delivers r1 rest.
Proof.
  intros Hs Hu Ec Hnow Hfirst Hd. pose proof (create_client_inv _ _ _ _ _ _ _ _ Ec) as (Hl & _).
  destruct (create_client_header _ _ _ _ _ _ _ _ (now / second) Ec Hnow)
    as (header & pad & padLen & -> & Hh & Hp & _ & -> & Ha).
  rewrite take_app_length' in Hfirst by lia. rewrite <- app_assoc in Hd.
  destruct (readHello_match s r now Hs) as (matchf & Hm & Hr).
  destruct (readAndMatchWith_ok matchf r header pad rest i padLen (slice 9 33 header) ts) as (r1 & Hr1 & Hd1); [done..| |].
  { apply Hm; [done|]. apply (first_match_intro _ _ _ _ _ (PSK u)); [by rewrite list_lookup_fmap, Hu|done|].
    intros j k Hj Hk. rewrite list_lookup_fmap in Hk. destruct (ss_users s !! j) as [v|] eqn:Ev; [|done].
    injection Hk as <-. by eapply Hfirst. }
  exists r1. split; [|done]. apply Hr. exists i. split_and!; [done|done|].
  destruct Hs as [(u0 & Eu & Ep & _)|(m & Ep & _)]; [left|by right].
  rewrite Eu in Hu. destruct i; [|done]. injection Hu as ->. by rewrite Ep.
Qed.

(** ** The OPEN frame on the wire *)

Lemma readOpen_inv psk sid ts nonce r target payload r1 :
  readOpen psk sid ts nonce r = (Ok (target, payload), r1) ->
  exists plaintext, Decode0RTTOpenFrame plaintext = Ok (target, payload) /\
    let frame := Encrypt0RTTChunk (Derive0RTTKey psk sid ts nonce) plaintext in
    rd_content r = be 2 (len frame) ++ frame ++ rd_content r1.
Proof.
  unfold readOpen. destruct (ReadFull 2 r) as [[lenBuf e] r2] eqn:Er. destruct e; [done|].
  pose proof (ReadFull_content _ _ _ _ _ Er) as ->. apply ReadFull_bound in Er as [_ [Hl _]]; [|done].
  specialize (Hl eq_refl). destruct (_ || _); [done|].
  destruct (ReadFull (be_val lenBuf) r2) as [[frame e2] r3] eqn:Er2. destruct e2; [done|].
  pose proof (ReadFull_content _ _ _ _ _ Er2) as ->. apply ReadFull_bound in Er2 as [_ [Hf _]]; [|apply be_val_range].
  specialize (Hf eq_refl). unfold Decrypt0RTTChunk. destruct (open AESGCM _ _ frame []) as [p|] eqn:Eo; [|done].
  intros [= Ed <-]. apply open_sound in Eo. exists p. split; [done|]. cbv zeta. unfold Encrypt0RTTChunk. rewrite <- Eo, Hf.
  rewrite be_be_val; [done|lia].
Qed.

Lemma readOpen_encoded psk sid ts nonce r plaintext target payload rest :
  0 < len plaintext <= MaxChunkPayloadLen -> Decode0RTTOpenFrame plaintext = Ok (target, payload) ->
  let frame := Encrypt0RTTChunk (Derive0RTTKey psk sid ts nonce) plaintext in
  delivers r (be 2 (u16 (len frame)) ++ frame ++ rest) ->
  exists r1, readOpen psk sid ts nonce r = (Ok (target, payload), r1) /\ delivers r1 rest.
Proof.
  intros Hp Ed frame Hd. unfold MaxChunkPayloadLen in Hp.
  assert (len frame = len plaintext + 16) as Hf by apply seal_length.
  unfold readOpen. destruct (ReadFull_app 2 r (be 2 (u16 (len frame))) (frame ++ rest)) as (r1 & -> & Hd1);
    [by rewrite len_be|done|].
  rewrite be_val_be2 by apply u16_range. unfold u16. rewrite Z.mod_small by lia. unfold MaxChunkWireLen, MaxChunkPayloadLen.
  rewrite (proj2 (Z.leb_gt _ _)), (proj2 (Z.ltb_ge _ _)) by lia. cbn [orb].
  destruct (ReadFull_app (len frame) r1 frame rest) as (r2 & -> & Hd2); [done|done|].
  unfold Decrypt0RTTChunk, frame, Encrypt0RTTChunk. rewrite open_seal, Ed. eauto.
Qed.

(** The client's OPEN frame fits a chunk and decodes to the target. *)
Lemma open_frame_fits target rnd frame rnd' host port :
  Encode0RTTOpenFrame target [] DefaultMinPadding DefaultMaxPadding rnd = Ok (frame, rnd') ->
  splitTarget 1 (Errorf "invalid address") (Errorf "invalid port") target = Ok (host, port) -> 3 <= len host ->
  0 < len frame <= MaxChunkPayloadLen /\ Decode0RTTOpenFrame frame = Ok (canonicalAddress host port, []).
Proof.
  intros E Es Hl. apply (Encode0RTT_padding 256) in E as (padding & b & Eb & Hp & ->); [|done|done].
  apply encodeTargetAddress_inv in Eb as (host' & port' & h & Es' & Hport & He & ->).
  rewrite Es in Es'. injection Es' as <- <-. pose proof (encodedHost_length _ _ He). split.
  - unfold MaxChunkPayloadLen. len_simpl. lia.
  - rewrite Decode0RTT_frame by lia. rewrite <- app_assoc, (decode_encoded host) by (done || (left; cbn; lia)).
    rewrite app_assoc, zdrop_app by (rewrite len_app, len_be; lia). done.
Qed.

(** ** The upload *)

Lemma copyUpload_reads fuel plen fr w err w' got e :
  copyUpload fuel plen fr w = (err, w') -> rawReadAll fuel fr plen = (got, Some e) ->
  exists sent, wr_out w' = wr_out w ++ sent /\ sent `prefix_of` got /\ (err = None -> sent = got /\ e = EOF).
Proof.
  revert fr w got. induction fuel as [|fuel IH]; intros fr w got Hc Hr; [done|]. cbn [copyUpload rawReadAll] in *.
  destruct (FramedReader_Read fr plen) as [[b er] fr'].
  destruct (if 0 <? len b then _ else _) as [ew w1] eqn:Ew in Hc.
  assert (exists got', got = b ++ got' /\
    match er with
    | None => rawReadAll fuel fr' plen = (got', Some e)
    | Some e0 => e0 = EOF -> got' = [] /\ e = EOF
    end) as (got' & -> & Hgot).
  { destruct er as [e0|].
    - destruct (is_timeout e0) eqn:Et.
      + destruct (rawReadAll fuel fr' plen) as [b' e'] eqn:E1. injection Hr as <- ->. exists b'. split; [done|]. by intros ->.
      + injection Hr as <- ->. exists []. by rewrite app_nil_r.
    - destruct (rawReadAll fuel fr' plen) as [b' e'] eqn:E1. injection Hr as <- ->. eauto. }
  assert (exists s, wr_out w1 = wr_out w ++ s /\ s `prefix_of` b /\ (ew = None -> s = b)) as (s & Hs & Hpre & Hall).
  { destruct (Z.ltb_spec 0 (len b)).
    - destruct (Write b w) as [[nw we] w2] eqn:E2. apply Write_count in E2 as [Hn Ho]. injection Ew as <- <-.
      exists (ztake nw b). split_and!; [done|exists (zdrop nw b); by rewrite ztake_zdrop|].
      destruct we; [done|]. destruct (Z.eqb_spec nw (len b)); [|done]. intros _. by apply ztake_all; lia.
    - injection Ew as <- <-. exists []. rewrite app_nil_r. split_and!; [done|apply prefix_nil|].
      intros _. symmetry. apply len_zero. lia. }
  destruct ew as [err0|].
  { injection Hc as <- <-. exists s. split_and!; [done|by apply prefix_app_r|done]. }
  rewrite (Hall eq_refl) in Hs. destruct er as [e0|].
  - exists b. assert (err = None <-> e0 = EOF) as Hiff by (destruct e0; simplify_eq; split; done).
    assert (w' = w1) as -> by (destruct e0; congruence).
    split_and!; [done|by apply prefix_app_r|]. intros [-> ->]%Hiff%Hgot. by rewrite app_nil_r.
  - destruct (IH _ _ _ Hc Hgot) as (s2 & Ho & Hp2 & Ha2). exists (b ++ s2). rewrite Ho, Hs, app_assoc.
    split_and!; [done|by apply prefix_app|]. by intros [-> ->]%Ha2.
Qed.

(** ** Time *)

Lemma authenticates_fresh psk sid header now padLen ts :
  90 <= now < 2 ^ 62 -> authenticates psk sid header now = Some (padLen, ts) -> - 90 <= now - ts <= 90.
Proof.
  intros Hn. unfold authenticates. set (tb := xorBytes _ _).
  assert (length tb <= 8)%nat as Hl.
  { unfold tb, xorBytes. rewrite length_zip_with, length_tsMask. lia. }
  clearbody tb. destruct (_ || _) eqn:Ec; [done|]. intros [= _ <-].
  assert (timestampExpired MaxTimestampSkew now (be_val tb) = false) as Ht by (by bool_to_prop). clear Ec.
  apply (timestampExpired_spec MaxTimestampSkew) in Ht as (k & Hk & E); [|done]. unfold MaxTimestampSkew, u64 in *.
  pose proof (be_val_range tb) as Hb. assert (256 ^ len tb <= 2 ^ 64).
  { change (2 ^ 64) with (256 ^ 8). apply Z.pow_le_mono_r; lia. }
  rewrite (Z.mod_small now) in E by lia.
  destruct (decide (0 <= be_val tb + k < 2 ^ 64)); [rewrite Z.mod_small in E; lia|].
  destruct (decide (be_val tb + k < 0)).
  - rewrite <- (Z.mod_add _ 1), Z.mod_small in E; lia.
  - rewrite <- (Z.mod_add _ (-1)), Z.mod_small in E; lia.
Qed.

(** ** What one connection does *)

(** Nothing is written, nothing dialled. *)
Definition silent (io : ConnIO) (o : Outcome) : Prop :=
  o_out o = c_out io /\ o_dialled o = None /\ o_relay o = None.

(** The input starts with an authentic hello of the user, followed by an OPEN
    frame for the target sealed under the 0-RTT key of that hello. *)
Definition authenticOpen (s : StreamServer) (io : ConnIO) (u : UserKey) (nonce : list byte) (ts : Z) (target : gostring)
  : Prop :=
  u ∈ ss_users s /\ exists header pad plaintext payload rest,
    let frame := Encrypt0RTTChunk (Derive0RTTKey (PSK u) (ss_serverID s) ts nonce) plaintext in
    rd_content (c_in io) = header ++ pad ++ be 2 (len frame) ++ frame ++ rest /\
    len header = 49 /\ nonce = slice 9 33 header /\
    authenticates (PSK u) (ss_serverID s) header (t_hello io / second) = Some (len pad, ts) /\
    Decode0RTTOpenFrame plaintext = Ok (target, payload).

Lemma serve_dials s io u nonce ts target payload r out dialled relay e :
  serve s io u nonce ts target payload r = (out, dialled, relay, e) ->
  dialled = None \/ dialled = Some (u, target).
Proof.
  unfold serve. destruct (CreatePolymorphicServerHello _ _ _ _ _) as [[[h sn] rn]|]; [|intros [= <- <- <- <-]; by left].
  destruct (Write h (c_out io)) as [[n we] w]. destruct we; [intros [= <- <- <- <-]; by left|].
  destruct (DeriveSessionKeys _ _ _ _ _). destruct (dialTarget io u target); [|intros [= <- <- <- <-]; by right].
  destruct (if 0 <? len payload then _ else _) as [e2 up]. destruct e2; intros [= <- <- <- <-]; by right.
Qed.

Lemma handleConn_cases s io :
  serverOk s ->
  let o := handleConn s io in
  match o_admission o with
  | None => silent io o
  | Some (n, t, ok) =>
      exists u nonce ts target,
        o_hello o = Some (u, nonce, ts) /\ authenticOpen s io u nonce ts target /\
        n = hexencode nonce /\ t = t_accept io /\ cacheCheck io n (t_check io) = false /\
        (if ok : bool then o_dialled o = None \/ o_dialled o = Some (u, target) else silent io o)
  end.
Proof.
  intros Hs o. subst o. unfold handleConn.
  destruct (readHello s (c_in io) (t_hello io)) as [[[[u nonce] ts]|e] r1] eqn:Eh; [|done].
  destruct (cacheCheck io _ _) eqn:Ek; [done|].
  destruct (readOpen _ _ _ _ r1) as [[[target payload]|e] r2] eqn:Eo; [|done].
  destruct (cacheAccept io _ _) as [acc err].
  assert (authenticOpen s io u nonce ts target) as Ha.
  { apply readHello_inv in Eh as (Hu & header & pad & Hc & Hl & Hn & Ha); [|done].
    apply readOpen_inv in Eo as (plaintext & Ed & Hf). cbv zeta in Hf. rewrite Hf in Hc. split; [done|].
    by exists header, pad, plaintext, payload, (rd_content r2). }
  destruct (bool_decide (err = None) && acc); cbn [negb].
  - destruct (serve s io u nonce ts target payload r2) as [[[out dialled] relay] e] eqn:Es. apply serve_dials in Es.
    by exists u, nonce, ts, target.
  - by exists u, nonce, ts, target.
Qed.

(** ** Properties *)

(** C21: a probe gets nothing: before the replay cache has admitted the nonce of
    an authentic hello followed by an authentic OPEN frame, the server writes
    no byte and dials nothing; and what it dials is the target inside that
    frame, on behalf of the user whose key authenticated both. *)
Theorem stream_silent s io :
  serverOk s ->
  (~ silent io (handleConn s io) ->
   exists u nonce ts target,
     authenticOpen s io u nonce ts target /\ cacheCheck io (hexencode nonce) (t_check io) = false /\
     o_admission (handleConn s io) = Some (hexencode nonce, t_accept io, true) /\
     o_hello (handleConn s io) = Some (u, nonce, ts) /\
     (forall d, o_dialled (handleConn s io) = Some d -> d = (u, target))).
Proof.
  intros Hs Hns. pose proof (handleConn_cases s io Hs) as Hc. cbv zeta in Hc.
  destruct (o_admission (handleConn s io)) as [[[n t] ok]|]; [|done].
  destruct Hc as (u & nonce & ts & target & Hh & Ha & -> & -> & Hk & Hd). destruct ok; [|done].
  exists u, nonce, ts, target. split_and!; try done. intros d E. destruct Hd; congruence.
Qed.

(** C20: client and server of the RawStream carrier agree end to end.  A client
    dials a target whose host has at least three characters (shorter ones are
    refused, C40) through a server that has its key; the clocks are at most 90
    seconds apart, no earlier user's key opens the hello, the bytes arrive with
    any fragmentation, the replay cache admits the nonce, the server's hello can
    be made and the target be dialled.  Then the server dials exactly the target
    (in its canonical form) for that user, both sides hold the same two session
    keys, neither loses a byte that follows the handshake, and the upload half of
    the relay gives the target a prefix of what the application writes, closing
    it only after all of it. *)
Theorem stream_session ToLower users sid s i u target host port now rnd flight nonce ts io later answer snonce rnd' up :
  NewStreamServerWithUsers ToLower users sid = Ok s -> ss_users s !! i = Some u ->
  flight1 (PSK u) sid target now rnd = Ok (flight, nonce, ts) ->
  splitTarget 1 (Errorf "invalid address") (Errorf "invalid port") target = Ok (host, port) -> 3 <= len host ->
  - 90 <= t_hello io / second - now / second <= 90 ->
  (forall j v, (j < i)%nat -> ss_users s !! j = Some v ->
     authenticates (PSK v) sid (take 49 flight) (t_hello io / second) = None) ->
  delivers (c_in io) (flight ++ later) -> c_out io = sink ->
  cacheCheck io (hexencode nonce) (t_check io) = false ->
  cacheAccept io (hexencode nonce) (t_accept io) = (true, None) ->
  CreatePolymorphicServerHello (PSK u) sid ts nonce (c_rnd io) = Ok (answer, snonce, rnd') ->
  dialTarget io u (canonicalAddress host port) = Ok up ->
  exists c2s s2c rs,
    o_dialled (handleConn s io) = Some (u, canonicalAddress host port) /\
    wr_out (o_out (handleConn s io)) = answer /\
    o_relay (handleConn s io) =
      Some (NewFramedReader rs (NewAEADStream c2s), NewFramedWriter sink (NewAEADStream s2c), up) /\
    delivers rs later /\
    (forall cin rest, delivers cin (answer ++ rest) ->
       exists rc, dialRawStream (PSK u) sid target now rnd cin sink =
         (Ok (NewFramedReader rc (NewAEADStream s2c), NewFramedWriter sink (NewAEADStream c2s)), mkWriter flight []) /\
         delivers rc rest) /\
    (forall w ops, wr_out w = [] -> len (fst (written (rawWriter c2s) ops)) < MaxUint64 ->
       later `prefix_of` wr_out (fw_w (runOps (rawWriter c2s) (NewFramedWriter w (NewAEADStream c2s)) ops)) ->
       exists sent, wr_out (snd (relayUpload (NewFramedReader rs (NewAEADStream c2s)) up)) = wr_out up ++ sent /\
         sent `prefix_of` fst (written (rawWriter c2s) ops) /\
         (fst (relayUpload (NewFramedReader rs (NewAEADStream c2s)) up) = true ->
          snd (written (rawWriter c2s) ops) = true /\ sent = fst (written (rawWriter c2s) ops))).
Proof.
  intros En Hu Ef Es Hl Hnow Hfirst Hd Hout Hck Hacc Ea Edial.
  apply NewStreamServerWithUsers_serverOk in En as (Hs & <- & _).
  pose proof Ef as Ef0. unfold flight1 in Ef.
  destruct (CreatePolymorphicClientHello _ _ _ _) as [[[[hello nonce'] ts'] rnd1]|] eqn:Ec; [|done].
  destruct (Encode0RTTOpenFrame _ _ _ _ rnd1) as [[frame rnd2]|] eqn:Eo; [|done].
  set (enc := Encrypt0RTTChunk _ frame) in Ef.
  assert (hello ++ be 2 (u16 (len enc)) ++ enc = flight /\ nonce' = nonce /\ ts' = ts) as (<- & <- & <-) by (split_and!; congruence).
  destruct (open_frame_fits _ _ _ _ _ _ Eo Es Hl) as [Hfit Hdec].
  rewrite <- !app_assoc in Hd.
  assert (49 <= length hello)%nat as Hlen.
  { destruct (create_client_header _ _ _ _ _ _ _ _ _ Ec Hnow) as (header & pad & padLen & -> & Hh & _).
    rewrite length_app. clear -Hh. lia. }
  destruct (readHello_created s (c_in io) (t_hello io) i u (now / second) rnd hello nonce' ts' rnd1 (be 2 (u16 (len enc)) ++ enc ++ later)
    Hs Hu Ec Hnow) as (r1 & Hr1 & Hd1); [|exact Hd|].
  { intros j v Hj Hv. specialize (Hfirst j v Hj Hv). by rewrite take_app_le in Hfirst by lia. }
  destruct (readOpen_encoded (PSK u) (ss_serverID s) ts' nonce' r1 frame _ [] later Hfit Hdec Hd1) as (r2 & Hr2 & Hd2).
  destruct (DeriveSessionKeys (PSK u) (ss_serverID s) ts' nonce' snonce) as [c2s s2c] eqn:Ek.
  exists c2s, s2c, r2.
  assert (handleConn s io = mkOutcome (mkWriter answer []) (Some (u, nonce', ts')) (Some (hexencode nonce', t_accept io, true))
    (Some (u, canonicalAddress host port))
    (Some (NewFramedReader r2 (NewAEADStream c2s), NewFramedWriter sink (NewAEADStream s2c), up)) None) as ->.
  { unfold handleConn. rewrite Hr1, Hck, Hr2, Hacc. cbn [negb andb]. rewrite bool_decide_true by done. cbn [andb negb].
    unfold serve. rewrite Ea, Hout. unfold sink. rewrite Write_sink, Ek, Edial. cbn [length]. done. }
  cbn [o_dialled o_out o_relay wr_out]. split_and!; try done.
  - intros cin rest Hcin. destruct (read_server_hello _ _ _ _ _ _ _ _ _ _ Ea Hcin) as (rc & Hrc & Hdc).
    exists rc. split; [|done]. unfold dialRawStream. rewrite Ef0. unfold sink at 1. by rewrite Write_sink, Hrc, Ek.
  - intros w ops Hw Hn Hpre. destruct Hd2 as [Hcl Hct].
    destruct (writer_safety (rawWriter c2s) _ ops later (new_idle c2s w Hw) Hn Hpre) as (got & e & Hparse & Hgot & _ & Heof).
    unfold relayUpload. cbn [NewFramedReader fr_r]. fold (NewFramedReader r2 (NewAEADStream c2s)).
    destruct (copyUpload _ _ _ up) as [err up'] eqn:Eu.
    assert (rawReadAll (readFuel r2) (NewFramedReader r2 (NewAEADStream c2s)) copyBufferSize = (got, Some e)) as Hrd.
    { rewrite rawReadAll_reference, Hct, Hparse; [done| |done]. exact (proj1 (delivers_carries r2 later (conj Hcl Hct))). }
    destruct (copyUpload_reads _ _ _ _ _ _ _ _ Eu Hrd) as (sent & Ho & Hp & Hall). exists sent. cbn [fst snd].
    split_and!; [done|by etrans|]. intros Eerr%bool_decide_eq_true. destruct (Hall Eerr) as [-> ->]. by apply Heof.
Qed.

(** C22: a recorded hello opens no second connection, on this server or on
    another one that shares the replay cache, through restarts, crashes and disk
    failures and for clock readings (from 1970 to 2116) in any order: if two
    connections that carry the same nonce and timestamp are both served, their
    admissions are the [i]-th and the [j]-th call of the cache, the first clock
    of the first connection is not ahead of its second, and the second handshake
    finishes within its two seconds, then the first hello was dated at least 88
    seconds ahead of the server's clock, or the clock has gone back: before the
    second admission some call of the cache had read a later time, at or past the
    expiry of the first admission.  ([take m evs] is any beginning of the cache's
    run in which the second admission has been made.) *)
Theorem stream_no_replay `{RangeOrder} s1 s2 io1 io2 evs m i j u1 u2 nonce ts :
  serverOk s1 -> serverOk s2 -> Forall clockOk evs -> len evs < 2 ^ 64 -> (i < j)%nat ->
  callLog (calls (ReplayRuns.run initial evs)) !! i = o_admission (handleConn s1 io1) ->
  callLog (calls (ReplayRuns.run initial evs)) !! j = o_admission (handleConn s2 io2) ->
  (j < length (calls (ReplayRuns.run initial (take m evs))))%nat ->
  ~ silent io1 (handleConn s1 io1) -> ~ silent io2 (handleConn s2 io2) ->
  o_hello (handleConn s1 io1) = Some (u1, nonce, ts) -> o_hello (handleConn s2 io2) = Some (u2, nonce, ts) ->
  t_hello io1 <= t_accept io1 -> t_accept io2 <= t_hello io2 + 2 * second ->
  90 <= t_hello io1 / second -> 90 <= t_hello io2 / second < 2 ^ 62 ->
  t_hello io1 / second + 88 <= ts \/
  Exists (fun te => t_accept io2 < te.1 /\ (t_accept io1 + 2 * MaxClockSkew) / second * second <= te.1) (take m evs).
Proof.
  intros Hs1 Hs2 Hck Hlen Hij Hi Hj Hmade Hn1 Hn2 Hh1 Hh2 Ht1 Ht2 Hc1 Hc2.
  pose proof (handleConn_cases s1 io1 Hs1) as K1. pose proof (handleConn_cases s2 io2 Hs2) as K2. cbv zeta in K1, K2.
  destruct (o_admission (handleConn s1 io1)) as [[[n1 a1] ok1]|]; [|done].
  destruct (o_admission (handleConn s2 io2)) as [[[n2 a2] ok2]|]; [|done].
  destruct K1 as (v1 & m1 & x1 & g1 & E1 & A1 & -> & -> & _ & B1).
  destruct K2 as (v2 & m2 & x2 & g2 & E2 & A2 & -> & -> & _ & B2).
  assert (m1 = nonce /\ x1 = ts /\ m2 = nonce /\ x2 = ts) as (-> & -> & -> & ->) by (split_and!; congruence).
  destruct ok1; [|done]. destruct ok2; [|done].
  unfold callLog in Hi, Hj. apply list_lookup_fmap_Some in Hi as (k1 & Ek1 & Hk1), Hj as (k2 & Ek2 & Hk2).
  injection Ek1 as F1 F2 F3. injection Ek2 as G1 G2 G3. symmetry in F3, G3. apply bool_decide_eq_true in F3, G3.
  pose proof (durable_clock evs m i j k1 k2 Hck Hlen Hij Hk1 Hk2 (or_intror F3) (or_intror G3) ltac:(congruence) Hmade) as (te & Hin & Hsp)%Exists_exists.
  rewrite <- F2 in Hsp. unfold secs in Hsp.
  destruct (Z.le_gt_cases te.1 (t_accept io2)) as [Hle|Hgt]; [left|right; apply Exists_exists; exists te; split; [done|]; split; [lia|done]].
  assert ((t_accept io1 + 2 * MaxClockSkew) / second * second <= t_accept io2) as Hsp' by lia. clear Hsp. rename Hsp' into Hsp.
  destruct A2 as (_ & header & pad & pt & pl & rest & _ & _ & _ & Ha2 & _).
  apply authenticates_fresh in Ha2; [|lia]. unfold MaxClockSkew, second in *.
  pose proof (Z.div_le_mono (t_hello io1 + 180 * 1000000000) (t_accept io1 + 2 * 90000000000) 1000000000 ltac:(lia) ltac:(lia)) as Hm.
  rewrite Z.div_add in Hm by lia.
  assert (t_hello io1 / 1000000000 + 178 <= t_hello io2 / 1000000000); [|lia].
  apply Z.div_le_lower_bound; lia.
Qed.
End ServerProofs.

(** ** Witnesses *)

Definition demoUsers : list UserKey := [mkUser (bs "a@x") key1 0; mkUser (bs " b@x") key2 1].
Definition demoUser : UserKey := mkUser (bs "b@x") key2 1.
Definition demoRandom : reader := [RD (replicate 200 Byte.x05) None].
Definition clientTime : Z := 1700000090 * second.

Definition demoServer : StreamServer := Eval vm_compute in
  okOr (NewStreamServer [] []) (NewStreamServerWithUsers (fun e => e) demoUsers (bs "srv")).
Definition demoFlight : list byte * list byte * Z := Eval vm_compute in
  okOr ([], [], 0) (flight1 key2 (bs "srv") (bs "example.com:443") clientTime demoRandom).
Definition demoAnswer : list byte * list byte * reader := Eval vm_compute in
  okOr ([], [], []) (CreatePolymorphicServerHello key2 (bs "srv") 1700000090 demoFlight.1.2 demoRandom).
Definition demoNonce : gostring := hexencode demoFlight.1.2.

(** A connection that brings the flight. *)
Definition demoConn (t : Z) (accept : bool) : ConnIO :=
  mkConnIO [RD (demoFlight.1.1) None] sink t t t (fun _ _ => false) (fun _ _ => (accept, None)) demoRandom
    (fun _ _ => Ok sink).

(** A client whose clock is 90 seconds ahead, and its recorded bytes 180.5
    seconds later: the timestamp is still taken as 90 seconds old, since whole
    seconds are compared, and the nonce has just expired. *)
Definition firstTime : Z := 1700000000 * second.
Definition secondTime : Z := 1700000180 * second + 500000000.

Lemma demoServer_ok : NewStreamServerWithUsers (fun e => e) demoUsers (bs "srv") = Ok demoServer.
Proof. vm_compute. reflexivity. Qed.

Lemma demoServer_serverOk : serverOk demoServer.
Proof. apply (NewStreamServerWithUsers_serverOk _ _ _ _ demoServer_ok). Qed.

Definition outcomeOf (io : ConnIO) :=
  let o := handleConn demoServer io in (o_hello o, o_admission o, o_dialled o).

Lemma demo_outcomes :
  (fun t => outcomeOf (demoConn t true)) <$> [firstTime; secondTime] =
  (fun t => (Some (demoUser, demoFlight.1.2, 1700000090), Some (demoNonce, t, true), Some (demoUser, bs "example.com:443")))
    <$> [firstTime; secondTime].
Proof. vm_compute. reflexivity. Qed.

Lemma demo_outcome t :
  t ∈ [firstTime; secondTime] ->
  o_hello (handleConn demoServer (demoConn t true)) = Some (demoUser, demoFlight.1.2, 1700000090) /\
  o_admission (handleConn demoServer (demoConn t true)) = Some (demoNonce, t, true) /\
  o_dialled (handleConn demoServer (demoConn t true)) = Some (demoUser, bs "example.com:443").
Proof.
  intros (i & Hi)%list_elem_of_lookup. pose proof (f_equal (lookup i) demo_outcomes) as E.
  rewrite !list_lookup_fmap, Hi in E. cbn [fmap option_fmap option_map] in E. unfold outcomeOf in E.
  by split_and!; congruence.
Qed.

Lemma demo_served t : t ∈ [firstTime; secondTime] -> ~ silent (demoConn t true) (handleConn demoServer (demoConn t true)).
Proof. intros (_ & _ & E)%demo_outcome (_ & E' & _). congruence. Qed.

Lemma stream_silent_witness :
  exists u nonce ts target,
     authenticOpen demoServer (demoConn firstTime true) u nonce ts target /\ (u, target) = (demoUser, bs "example.com:443").
Proof.
  assert (firstTime ∈ [firstTime; secondTime]) as Hin by left.
  destruct (stream_silent demoServer (demoConn firstTime true) demoServer_serverOk (demo_served _ Hin))
    as (u & nonce & ts & target & Ha & _ & _ & _ & Hd).
  exists u, nonce, ts, target. split; [exact Ha|]. symmetry. apply Hd. apply (demo_outcome _ Hin).
Defined.

Definition edgeRun : list (Z * event) :=
  [(firstTime, EOpen); (firstTime, EAccept demoNonce (mkIO Compacted None)); (firstTime, ETick false); (firstTime, EWake 0);
   (secondTime, EAccept demoNonce (mkIO Compacted None)); (secondTime, ETick false); (secondTime, EWake 1)].

Lemma edgeRun_log : callLog (calls (ReplayRuns.run initial edgeRun)) = [(demoNonce, firstTime, true); (demoNonce, secondTime, true)].
Proof. vm_compute. reflexivity. Qed.

Lemma edgeRun_ordered : inOrder 0 edgeRun /\ len edgeRun < 2 ^ 64.
Proof. unfold edgeRun, firstTime, secondTime, second. cbn [inOrder length]. lia. Qed.

(** The replay cache admits the same hello twice, and both connections, which
    bring the same bytes, are served. *)
Lemma stream_hello_served_twice :
  callLog (calls (ReplayRuns.run initial edgeRun)) = [(demoNonce, firstTime, true); (demoNonce, secondTime, true)] /\
  Forall (fun t => c_in (demoConn t true) = [RD demoFlight.1.1 None] /\
    o_admission (handleConn demoServer (demoConn t true)) = Some (demoNonce, t, true) /\
    o_dialled (handleConn demoServer (demoConn t true)) = Some (demoUser, bs "example.com:443")) [firstTime; secondTime].
Proof.
  split; [apply edgeRun_log|]. rewrite Forall_forall. intros t Ht. split; [done|]. by apply demo_outcome.
Qed.

Lemma stream_no_replay_witness :
  firstTime / second + 88 <= 1700000090 \/
  Exists (fun te => secondTime < te.1 /\ (firstTime + 2 * MaxClockSkew) / second * second <= te.1) (take 5 edgeRun).
Proof.
  assert (firstTime ∈ [firstTime; secondTime]) as H1 by left.
  assert (secondTime ∈ [firstTime; secondTime]) as H2 by (right; left).
  apply (stream_no_replay demoServer demoServer (demoConn firstTime true) (demoConn secondTime true) edgeRun 5 0 1
    demoUser demoUser demoFlight.1.2 1700000090 demoServer_serverOk demoServer_serverOk).
  - exact (inOrder_clock 0 edgeRun (Z.le_refl 0) (proj1 edgeRun_ordered)).
  - apply edgeRun_ordered.
  - apply Nat.lt_0_1.
  - rewrite edgeRun_log, (proj1 (proj2 (demo_outcome _ H1))). reflexivity.
  - rewrite edgeRun_log, (proj1 (proj2 (demo_outcome _ H2))). reflexivity.
  - vm_compute. lia.
  - exact (demo_served _ H1).
  - exact (demo_served _ H2).
  - exact (proj1 (demo_outcome _ H1)).
  - exact (proj1 (demo_outcome _ H2)).
  - apply Z.le_refl.
  - vm_compute. discriminate.
  - vm_compute. discriminate.
  - vm_compute. split; [discriminate|reflexivity].
Defined.

Lemma delivers_one b : delivers [RD b None] (b ++ []).
Proof. rewrite app_nil_r. split; [by repeat constructor|]. unfold rd_content. cbn. by rewrite app_nil_r. Qed.

Lemma demo_exchange :
  flight1 key2 (bs "srv") (bs "example.com:443") clientTime demoRandom = Ok (demoFlight.1.1, demoFlight.1.2, 1700000090) /\
  splitTarget 1 (Errorf "invalid address") (Errorf "invalid port") (bs "example.com:443") = Ok (bs "example.com", 443) /\
  authenticates key1 (bs "srv") (take 49 demoFlight.1.1) (firstTime / second) = None /\
  CreatePolymorphicServerHello key2 (bs "srv") 1700000090 demoFlight.1.2 demoRandom = Ok demoAnswer.
Proof. split_and!; vm_compute; reflexivity. Qed.

Lemma demo_first_key j v : (j < 1)%nat -> ss_users demoServer !! j = Some v -> PSK v = key1.
Proof. intros Hj. assert (j = 0)%nat as -> by lia. by intros [= <-]. Qed.

Lemma stream_session_witness :
  exists c2s s2c rc, dialRawStream key2 (bs "srv") (bs "example.com:443") clientTime demoRandom [RD demoAnswer.1.1 None] sink =
    (Ok (NewFramedReader rc (NewAEADStream s2c), NewFramedWriter sink (NewAEADStream c2s)), mkWriter demoFlight.1.1 []).
Proof.
  destruct demo_exchange as (E1 & E2 & E3 & E4).
  destruct (stream_session (fun e => e) demoUsers (bs "srv") demoServer 1 demoUser (bs "example.com:443") (bs "example.com") 443
    clientTime demoRandom demoFlight.1.1 demoFlight.1.2 1700000090 (demoConn firstTime true) [] demoAnswer.1.1 demoAnswer.1.2
    demoAnswer.2 sink demoServer_ok) as (c2s & s2c & rs & _ & _ & _ & _ & Hc & _).
  - reflexivity.
  - exact E1.
  - exact E2.
  - vm_compute. discriminate.
  - vm_compute. split; discriminate.
  - intros j v Hj Hv. rewrite <- (demo_first_key j v Hj Hv) in E3. exact E3.
  - apply delivers_one.
  - reflexivity.
  - reflexivity.
  - reflexivity.
  - exact E4.
  - reflexivity.
  - destruct (Hc _ _ (delivers_one demoAnswer.1.1)) as (rc & E & _). by exists c2s, s2c, rc.
Defined.
