(* ===== verification/StreamAdmission.v ===== *)
(** * Admission of connections: [pkg/server] (stream_server.go)

    The counters that bound what a [StreamServer] handles at once: connections
    ([activeConns] against [maxConns]), handshakes (the channel [handshakeSem])
    and the wait group that [Close] waits for.  Connections are goroutines; a
    run is an interleaving of their steps with the accept loops, [SetMaxConns],
    [SetHandshakeLimit] and [Close].  [admitConnection] runs under [listenersMu], the mutex under
    which [Close] seals admission; its compare-and-swap loop succeeds at one
    moment, which is the step below. *)
From S2P Require Import Prelude.

Open Scope Z_scope.

(** ** The code *)

(** Where the goroutine of an admitted connection is: it holds a handshake
    slot; it has given it back; it has left [activeConns]; it is gone. *)
Inductive phase := Handshaking | Serving | Leaving | Gone.

#[export] Instance phase_eq_dec : EqDecision phase.
Proof. solve_decision. Defined.

Record Admission := mkAdmission {
  a_closed : bool;
  maxConns : Z;
  activeConns : Z;
  semCap : Z;                          (* capacity of the channel *)
  handshakeSem : Z;                    (* tokens in the channel *)
  wg : Z;
  replaysClosed : bool;                (* Close has released the replay cache *)
  conns : list phase;
}.

Definition newAdmission : Admission := mkAdmission false 10000 0 512 0 0 false [].

Definition reserveConnection (a : Admission) : bool * Admission :=
  if a_closed a then (false, a)
  else if (0 <? maxConns a) && (maxConns a <=? activeConns a) then (false, a)
  else (true, mkAdmission (a_closed a) (maxConns a) (activeConns a + 1) (semCap a) (handshakeSem a) (wg a)
                (replaysClosed a) (conns a)).

Definition admitConnection (a : Admission) : bool * Admission :=
  let '(ok, a1) := reserveConnection a in
  if negb ok then (false, a1)
  else if handshakeSem a1 <? semCap a1 then
    (true, mkAdmission (a_closed a1) (maxConns a1) (activeConns a1) (semCap a1) (handshakeSem a1 + 1) (wg a1 + 1)
             (replaysClosed a1) (conns a1 ++ [Handshaking]))
  else (false, mkAdmission (a_closed a1) (maxConns a1) (activeConns a1 - 1) (semCap a1) (handshakeSem a1) (wg a1)
                 (replaysClosed a1) (conns a1)).

(** [releaseHandshake] of the handler of connection [i], called when the
    handshake is over and again, without effect, when the handler returns. *)
Definition releaseHandshake (a : Admission) (i : nat) : Admission :=
  match conns a !! i with
  | Some Handshaking =>
      mkAdmission (a_closed a) (maxConns a) (activeConns a) (semCap a)
        (if 0 <? handshakeSem a then handshakeSem a - 1 else handshakeSem a) (wg a) (replaysClosed a)
        (<[i := Serving]> (conns a))
  | _ => a
  end.

(** The deferred calls of [runConnection], after those of [handleConn]:
    [activeConns.Add(-1)], then [wg.Done()]. *)
Definition leave (a : Admission) (i : nat) : Admission :=
  let a := releaseHandshake a i in
  match conns a !! i with
  | Some Serving =>
      mkAdmission (a_closed a) (maxConns a) (activeConns a - 1) (semCap a) (handshakeSem a) (wg a) (replaysClosed a)
        (<[i := Leaving]> (conns a))
  | _ => a
  end.

Definition done_ (a : Admission) (i : nat) : Admission :=
  match conns a !! i with
  | Some Leaving =>
      mkAdmission (a_closed a) (maxConns a) (activeConns a) (semCap a) (handshakeSem a) (wg a - 1) (replaysClosed a)
        (<[i := Gone]> (conns a))
  | _ => a
  end.

Definition SetMaxConns (a : Admission) (n : Z) : Admission :=
  mkAdmission (a_closed a) n (activeConns a) (semCap a) (handshakeSem a) (wg a) (replaysClosed a) (conns a).

(** [make] panics for a negative capacity and the limit stays. *)
Definition SetHandshakeLimit (a : Admission) (n : Z) : Admission :=
  if n <? 0 then a
  else mkAdmission (a_closed a) (maxConns a) (activeConns a) n 0 (wg a) (replaysClosed a) (conns a).

(** [Close]: it seals admission, waits for the wait group, and releases the
    replay cache. *)
Definition closeSeal (a : Admission) : Admission :=
  mkAdmission true (maxConns a) (activeConns a) (semCap a) (handshakeSem a) (wg a) (replaysClosed a) (conns a).

Definition closeReplays (a : Admission) : Admission :=
  if a_closed a && (wg a =? 0) then
    mkAdmission (a_closed a) (maxConns a) (activeConns a) (semCap a) (handshakeSem a) (wg a) true (conns a)
  else a.

(** ** Runs *)

Inductive admissionEvent :=
  | EAdmit
  | EHandshakeDone (i : nat)
  | ELeave (i : nat)
  | EDone (i : nat)
  | ESetMax (n : Z)
  | ESetHandshake (n : Z)
  | ECloseSeal
  | ECloseReplays.

Definition admissionStep (a : Admission) (ev : admissionEvent) : Admission :=
  match ev with
  | EAdmit => snd (admitConnection a)
  | EHandshakeDone i => releaseHandshake a i
  | ELeave i => leave a i
  | EDone i => done_ a i
  | ESetMax n => SetMaxConns a n
  | ESetHandshake n => SetHandshakeLimit a n
  | ECloseSeal => closeSeal a
  | ECloseReplays => closeReplays a
  end.

Definition admissionRun (evs : list admissionEvent) : Admission := foldl admissionStep newAdmission evs.

(** ** The counters are exact *)

Definition isHandshaking (p : phase) : bool := match p with Handshaking => true | _ => false end.
Definition isActive (p : phase) : bool := match p with Handshaking | Serving => true | _ => false end.
Definition isRunning (p : phase) : bool := match p with Gone => false | _ => true end.

(** The connections in their handshake. *)
Definition pending (a : Admission) : Z := countBy isHandshaking (conns a).

Record admissionInv (a : Admission) : Prop := {
  ai_active : activeConns a = countBy isActive (conns a);
  ai_sem : 0 <= handshakeSem a <= pending a;
  ai_wg : wg a = countBy isRunning (conns a);
  ai_cap : handshakeSem a <= semCap a;
  ai_replays : replaysClosed a = true -> a_closed a = true /\ wg a = 0;
}.

Ltac admission_counts :=
  rewrite ?countBy_app, ?countBy_one; try (erewrite countBy_insert by eassumption);
  cbn [isActive isHandshaking isRunning]; lia || tauto.

Lemma admit_inv a : admissionInv a -> admissionInv (snd (admitConnection a)).
Proof.
  intros Hi. unfold admitConnection, reserveConnection.
  destruct (a_closed a) eqn:Ec; [exact Hi|]. destruct (_ && _); [exact Hi|]. cbn [negb handshakeSem semCap].
  destruct Hi as [H1 H2 H3 H4 H5]. unfold pending in H2.
  destruct (Z.ltb_spec (handshakeSem a) (semCap a)); cbn [snd]; split; unfold pending; cbn; try done; try lia; try admission_counts.
  - intros Hr. destruct (H5 Hr). congruence.
  - intros Hr. destruct (H5 Hr). congruence.
Qed.

Lemma releaseHandshake_inv a i : admissionInv a -> admissionInv (releaseHandshake a i).
Proof.
  intros [H1 H2 H3 H4 H5]. unfold releaseHandshake, pending in *. destruct (conns a !! i) as [[]|] eqn:E; try by split.
  assert (0 < countBy isHandshaking (conns a)) as Hs.
  { pose proof (countBy_nonneg isHandshaking (conns a)). destruct (Z.eq_dec (countBy isHandshaking (conns a)) 0) as [Hz|]; [|lia].
    by apply (countBy_zero _ _ _ _ Hz) in E. }
  split; unfold pending; cbn; try done; destruct (Z.ltb_spec 0 (handshakeSem a)); try lia; admission_counts.
Qed.

Lemma leave_inv a i : admissionInv a -> admissionInv (leave a i).
Proof.
  intros Hi. unfold leave. pose proof (releaseHandshake_inv a i Hi) as [H1 H2 H3 H4 H5]. unfold pending in H2.
  destruct (conns (releaseHandshake a i) !! i) as [[]|] eqn:E; try by split.
  split; unfold pending; cbn; try done; try lia; admission_counts.
Qed.

Lemma done_inv a i : admissionInv a -> admissionInv (done_ a i).
Proof.
  intros [H1 H2 H3 H4 H5]. unfold done_. destruct (conns a !! i) as [[]|] eqn:E; try by split. unfold pending in H2.
  split; unfold pending; cbn; try done; try lia; try admission_counts. intros Hr. destruct (H5 Hr) as [_ Hz]. exfalso.
  rewrite H3 in Hz. by apply (countBy_zero _ _ _ _ Hz) in E.
Qed.

Lemma setHandshake_inv a n : admissionInv a -> admissionInv (SetHandshakeLimit a n).
Proof.
  intros [H1 H2 H3 H4 H5]. unfold SetHandshakeLimit. destruct (Z.ltb_spec n 0); [by split|]. pose proof (countBy_nonneg isHandshaking (conns a)).
  split; unfold pending in *; cbn; try done; lia.
Qed.

Lemma admissionStep_inv a ev : admissionInv a -> admissionInv (admissionStep a ev).
Proof.
  intros Hi. destruct ev as [|i|i|i|n|n| |]; cbn [admissionStep].
  - by apply admit_inv.
  - by apply releaseHandshake_inv.
  - by apply leave_inv.
  - by apply done_inv.
  - destruct Hi. by split.
  - by apply setHandshake_inv.
  - destruct Hi as [H1 H2 H3 H4 H5]. split; cbn; try done. intros Hr. by destruct (H5 Hr).
  - unfold closeReplays. destruct (_ && _) eqn:E; [|done]. bool_to_prop. destruct Hi. by split.
Qed.

Lemma newAdmission_inv : admissionInv newAdmission.
Proof. by split. Qed.

Lemma admissionRun_snoc evs ev : admissionRun (evs ++ [ev]) = admissionStep (admissionRun evs) ev.
Proof. unfold admissionRun. by rewrite foldl_app. Qed.

Lemma admissionRun_inv evs : admissionInv (admissionRun evs).
Proof.
  induction evs as [|ev evs IH] using rev_ind; [apply newAdmission_inv|]. rewrite admissionRun_snoc. by apply admissionStep_inv.
Qed.

(** ** The limit on handshakes *)

(** The limit is only set while no connection is in its handshake. *)
Definition calm (evs : list admissionEvent) : Prop :=
  forall k n, evs !! k = Some (ESetHandshake n) -> pending (admissionRun (take k evs)) = 0.

Lemma calm_snoc evs ev :
  calm (evs ++ [ev]) -> calm evs /\ forall n, ev = ESetHandshake n -> pending (admissionRun evs) = 0.
Proof.
  intros Hc. split.
  - intros k n Hk. pose proof (lookup_lt_Some _ _ _ Hk). specialize (Hc k n). rewrite lookup_app_l, take_app_le in Hc by lia. by apply Hc.
  - intros n ->. specialize (Hc (length evs) n). rewrite list_lookup_middle, take_app_length in Hc by done. by apply Hc.
Qed.

(** Each token in the channel is one of a connection in its handshake; a step that
    does not set the limit keeps the number of those that have none, or lets one
    of them go. *)
Definition excess (a : Admission) : Z := pending a - handshakeSem a.

Lemma excess_step a ev :
  admissionInv a -> (forall n, ev <> ESetHandshake n) ->
  excess (admissionStep a ev) <= excess a /\ semCap (admissionStep a ev) = semCap a.
Proof.
  intros Hi Hev. assert (forall i, excess (releaseHandshake a i) <= excess a /\ semCap (releaseHandshake a i) = semCap a) as Hrel.
  { intros i. unfold excess, pending, releaseHandshake. destruct (conns a !! i) as [[]|] eqn:E; try (split; [lia|done]). cbn. split; [|done].
    erewrite countBy_insert by eassumption. cbn [isHandshaking]. destruct (Z.ltb_spec 0 (handshakeSem a)); lia. }
  destruct ev as [|i|i|i|n|n| |]; cbn [admissionStep].
  - unfold admitConnection, reserveConnection, excess, pending. destruct (a_closed a); [cbn; split; [lia|done]|]. destruct (_ && _); [cbn; split; [lia|done]|].
    cbn [negb handshakeSem semCap]. destruct (_ <? _); cbn; (split; [|done]); [|lia]. rewrite countBy_app, countBy_one. cbn [isHandshaking]. lia.
  - apply Hrel.
  - destruct (Hrel i) as [H1 H2]. unfold leave. destruct (conns (releaseHandshake a i) !! i) as [[]|] eqn:E; try (by split).
    unfold excess, pending in *. cbn. erewrite countBy_insert by eassumption. cbn [isHandshaking]. split; [lia|done].
  - unfold done_, excess, pending. destruct (conns a !! i) as [[]|] eqn:E; try (split; [lia|done]). cbn. erewrite countBy_insert by eassumption.
    cbn [isHandshaking]. split; [lia|done].
  - split; [|done]. unfold excess, pending. cbn. lia.
  - by destruct (Hev n).
  - split; [|done]. unfold excess, pending. cbn. lia.
  - unfold closeReplays. destruct (_ && _); split; try done; unfold excess, pending; cbn; lia.
Qed.

Lemma isSet ev : (exists n, ev = ESetHandshake n) \/ (forall n, ev <> ESetHandshake n).
Proof. destruct ev; eauto. Qed.

Lemma excess_calm evs : calm evs -> excess (admissionRun evs) = 0.
Proof.
  induction evs as [|ev evs IH] using rev_ind; intros Hc; [done|]. apply calm_snoc in Hc as [Hc Hev]. specialize (IH Hc). rewrite admissionRun_snoc.
  pose proof (admissionStep_inv _ ev (admissionRun_inv evs)) as [_ [_ Hp] _ _ _]. fold (admissionStep (admissionRun evs) ev) in Hp.
  destruct (isSet ev) as [[n ->]|Hn].
  - specialize (Hev n eq_refl). cbn [admissionStep] in *. unfold SetHandshakeLimit in *. destruct (n <? 0); [done|]. unfold excess, pending in *. cbn in *. lia.
  - destruct (excess_step (admissionRun evs) ev (admissionRun_inv evs) Hn) as [H1 _]. unfold excess in *. lia.
Qed.

(** The limit is what was set last. *)
Definition limitSet (evs : list admissionEvent) : Z :=
  foldl (fun l ev => match ev with ESetHandshake n => if n <? 0 then l else n | _ => l end) 512 evs.

Lemma limitSet_cap evs : semCap (admissionRun evs) = limitSet evs.
Proof.
  induction evs as [|ev evs IH] using rev_ind; [done|]. rewrite admissionRun_snoc. unfold limitSet in *. rewrite foldl_app. cbn [foldl]. rewrite <- IH.
  destruct ev as [|i|i|i|n|n| |]; try (apply excess_step; [apply admissionRun_inv|done]).
  cbn [admissionStep]. unfold SetHandshakeLimit. by destruct (n <? 0).
Qed.

(** Without [SetMaxConns] the limit stays 10,000. *)
Lemma admissionStep_max a ev :
  (forall n, ev <> ESetMax n) -> maxConns a = 10000 -> activeConns a <= 10000 ->
  maxConns (admissionStep a ev) = 10000 /\ activeConns (admissionStep a ev) <= 10000.
Proof.
  intros Hev Hm Ha. destruct ev as [|i|i|i|n|n| |]; cbn [admissionStep].
  - unfold admitConnection, reserveConnection. rewrite Hm. destruct (a_closed a); [done|].
    destruct (_ && _) eqn:E; [done|]. cbn [negb handshakeSem semCap]. apply andb_false_iff in E as [E|E]; [done|].
    bool_to_prop. destruct (_ <? _); cbn [snd maxConns activeConns]; lia.
  - unfold releaseHandshake. destruct (conns a !! i) as [[]|]; done.
  - unfold leave. assert (maxConns (releaseHandshake a i) = 10000 /\ activeConns (releaseHandshake a i) <= 10000) as [H1 H2]
      by (unfold releaseHandshake; destruct (conns a !! i) as [[]|]; done).
    destruct (conns (releaseHandshake a i) !! i) as [[]|]; try done. cbn [maxConns activeConns]. lia.
  - unfold done_. destruct (conns a !! i) as [[]|]; done.
  - by destruct (Hev n).
  - unfold SetHandshakeLimit. by destruct (n <? 0).
  - done.
  - unfold closeReplays. destruct (_ && _); done.
Qed.

Lemma admissionRun_max evs :
  Forall (fun ev => forall n, ev <> ESetMax n) evs -> maxConns (admissionRun evs) = 10000 /\ activeConns (admissionRun evs) <= 10000.
Proof.
  induction evs as [|ev evs IH] using rev_ind; [done|]. intros [Hf Hev]%Forall_app. rewrite admissionRun_snoc. destruct (IH Hf).
  apply admissionStep_max; [by inversion Hev|done|done].
Qed.

(** ** Property *)

(** C23: admission under every interleaving of connections, changes of both limits
    and [Close].  The counters of connections and of the wait group are exact, so
    that every slot comes back.  The channel of handshakes holds at most the limit
    that was set last, 512 unless one was set, and never more than the connections
    that are in their handshake; it holds exactly those, so that the limit bounds
    them, where it was only set while none was in its handshake.  A connection is
    only admitted below both limits and before [Close]; at most 10,000 are active
    unless that limit is changed; and [Close] releases the replay cache only when
    no handler runs that could use it, and none starts afterwards. *)
Theorem stream_admission evs :
  let a := admissionRun evs in
  activeConns a = countBy isActive (conns a) /\ wg a = countBy isRunning (conns a) /\
  0 <= handshakeSem a <= countBy isHandshaking (conns a) /\ handshakeSem a <= limitSet evs /\
  (calm evs -> handshakeSem a = countBy isHandshaking (conns a)) /\
  (Forall (fun ev => forall n, ev <> ESetMax n) evs -> countBy isActive (conns a) <= 10000) /\
  (fst (admitConnection a) = true ->
     a_closed a = false /\ (0 < maxConns a -> activeConns a < maxConns a) /\ handshakeSem a < limitSet evs /\ replaysClosed a = false) /\
  (replaysClosed a = true -> Forall (eq Gone) (conns a)).
Proof.
  cbv zeta. pose proof (admissionRun_inv evs) as [H1 H2 H3 H4 H5]. rewrite <- limitSet_cap. split_and!; [done|done|apply H2|apply H2|done| | | |].
  - intros Hc. pose proof (excess_calm evs Hc). unfold excess, pending in *. lia.
  - intros Hf. rewrite <- H1. by apply admissionRun_max.
  - unfold admitConnection, reserveConnection. destruct (a_closed (admissionRun evs)) eqn:Ec; [done|].
    destruct (_ && _) eqn:E; [done|]. cbn [negb handshakeSem semCap]. destruct (Z.ltb_spec (handshakeSem (admissionRun evs)) (semCap (admissionRun evs))); [|done].
    intros _. split_and!; [done| |done|].
    + intros Hm. apply andb_false_iff in E as [E|E]; bool_to_prop; lia.
    + destruct (replaysClosed (admissionRun evs)); [|done]. by destruct (H5 eq_refl).
  - intros Hr. destruct (H5 Hr) as [_ Hz]. rewrite Forall_lookup. intros i p Hp. rewrite H3 in Hz.
    apply (countBy_zero _ _ _ _ Hz) in Hp. by destruct p.
Qed.

(** A connection that is served and leaves while another one is refused after
    [Close]. *)
Example stream_admission_demo :
  let a := admissionRun [EAdmit; EAdmit; EHandshakeDone 0; ELeave 1; ECloseSeal; EAdmit; ECloseReplays; EDone 1; ELeave 0;
    EDone 0; ECloseReplays] in
  (activeConns a, handshakeSem a, wg a, replaysClosed a, conns a) = (0, 0, 0, true, [Gone; Gone]).
Proof. reflexivity. Qed.

(** With the limit 0 nothing is admitted, with 2 two connections are. *)
Example stream_handshake_limits :
  conns (admissionRun [ESetHandshake 0; EAdmit]) = [] /\
  conns (admissionRun [ESetHandshake 2; EAdmit; EAdmit; EAdmit]) = [Handshaking; Handshaking].
Proof. split; reflexivity. Qed.

(** A limit that is set during handshakes forgets them: with the limit 1 three
    connections are in their handshake. *)
Example stream_handshake_reset :
  let a := admissionRun [EAdmit; EAdmit; ESetHandshake 1; EAdmit] in
  limitSet [EAdmit; EAdmit; ESetHandshake 1; EAdmit] = 1 /\ pending a = 3 /\ handshakeSem a = 1.
Proof. by split_and!. Qed.
