(* ===== verification/HttpServer.v ===== *)
(** * The HTTP handler: [pkg/server] (server.go, the dispatch of http3.go,
      [serveFallback] of fallback.go) and [signRequest] of [pkg/client]

    Which requests become tunnels and which are given to the fallback site.
    A request is its method, path, protocol, header and body; headers are keyed
    by their canonical names, [Get] is [Header.Get].  The answers of the replay
    cache and of the dialer are arguments; an upstream connection is what it
    will send and what it takes.  The two copy loops of a tunnel are functions
    of what they read and write; the UDP association of HTTP/3 is in
    [UdpRelay.v]. *)
From S2P Require Import Prelude GoIO GoNet Crypto Address Frame FrameStream Records H1Session Encoding Auth StreamServer.

Open Scope Z_scope.

#[local] Arguments bs : simpl never.

(** ** Data *)

Definition headerTarget : gostring := bs "X-Session-Target".
Definition headerTimestamp : gostring := bs "X-Session-Time".
Definition headerNonce : gostring := bs "X-Session-Nonce".
Definition headerSignature : gostring := bs "X-Session-Auth".
Definition headerMode : gostring := bs "X-Session-Mode".
Definition headerSessionOK : gostring := bs "X-Session-OK".
Definition headerFraming : gostring := bs "X-Session-Framing".

Definition modeTCPv2 : gostring := bs "tcp-v2".
Definition modeUDPv2 : gostring := bs "udp-v2".
Definition udpAuthName : gostring := bs "udp-association".
Definition MethodHead : gostring := bs "HEAD".
Definition MethodGet : gostring := bs "GET".
Definition MethodPost : gostring := bs "POST".
Definition MethodConnect : gostring := bs "CONNECT".

Abbreviation headers := (gmap gostring (list gostring)).

Definition Get (h : headers) (k : gostring) : gostring :=
  match h !! k with Some (v :: _) => v | _ => [] end.

Record Request := mkRequest {
  rq_method : gostring;
  rq_path : gostring;
  rq_proto : gostring;
  rq_major : Z;
  rq_header : headers;
  rq_body : reader;
  rq_length : Z;                      (* ContentLength *)
}.

Record Server := mkServer {
  sv_path : gostring;
  sv_psk : list byte;
  sv_users : list UserKey;
  sv_pskList : list (list byte);
  sv_replays : bool;                  (* a replay cache is installed *)
}.

(** An upstream connection, and what a handler meets. *)
Record Upstream := mkUpstream {
  up_in : reader;
  up_out : writer;
}.

Record HttpIO := mkHttpIO {
  h_now : Z;                                                    (* time.Now(), in nanoseconds *)
  h_accept : gostring -> Z -> bool * option error;              (* replays.Accept *)
  h_dial : UserKey -> gostring -> result Upstream;              (* dialTarget *)
  h_out : writer;                                               (* the body of the response *)
  h_rnd : reader;
  h_streamer : bool;                                            (* the ResponseWriter is an http3.HTTPStreamer *)
  h_early : bool;                                               (* the TLS handshake is not complete yet *)
}.

(** What the client gets: the fallback's answer to a request, or a status with
    headers and a text. *)
Inductive reply :=
  | Fallback (seen : Request) (close : bool)
  | Status (code : Z) (fields : list (gostring * gostring)) (text : list byte).

Inductive tunnel :=
  | TCPTunnel (h3 framed : bool) (body : reader) (up : Upstream) (out : writer)
  | H1Tunnel (layer : RecordLayer) (rd : Reader) (wr : FramedWriter) (up : Upstream)
  | UDPTunnel.

Record Outcome := mkOut {
  oc_reply : reply;
  oc_user : option UserKey;                                     (* who was authenticated *)
  oc_admission : option (gostring * Z * bool);                  (* the nonce, when, admitted *)
  oc_dialled : option (UserKey * gostring);
  oc_tunnel : option tunnel;
}.

(** ** Constructors *)

Definition NewServer (path : gostring) (psk : list byte) (replays : bool) : Server :=
  if 0 <? len psk then mkServer path psk [mkUser [] psk 0] [psk] replays
  else mkServer path psk [] [] replays.

Definition NewServerWithUsers (ToLower : gostring -> gostring) (path : gostring) (users : list UserKey) (replays : bool) : result Server :=
  match ValidateUserKeys ToLower users with
  | Some err => Fail err
  | None =>
      let '(validUsers, pskList) := copyUserKeys users in
      Ok (mkServer path (match validUsers with [u] => PSK u | _ => [] end) validUsers pskList replays)
  end.

(** ** The fallback *)

Definition privateNames : list gostring := [headerTarget; headerTimestamp; headerNonce; headerSignature; headerMode].

Definition delNames (names : list gostring) (h : headers) : headers := foldl (fun h n => delete n h) h names.

(** [serveFallback]: the request the fallback handler sees. *)
Definition serveFallback (rq : Request) : reply :=
  let privateAttempt := existsb (fun n => bool_decide (is_Some (rq_header rq !! n))) privateNames in
  let h := delNames privateNames (rq_header rq) in
  if privateAttempt then
    Fallback
      (mkRequest (rq_method rq) (rq_path rq) (rq_proto rq) (rq_major rq)
         (delNames [bs "Content-Length"; bs "Transfer-Encoding"; bs "Expect"] h) [] 0)
      (rq_major rq =? 1)
  else
    Fallback (mkRequest (rq_method rq) (rq_path rq) (rq_proto rq) (rq_major rq) h (rq_body rq) (rq_length rq)) false.

Definition withBody (rq : Request) (b : reader) : Request :=
  mkRequest (rq_method rq) (rq_path rq) (rq_proto rq) (rq_major rq) (rq_header rq) b (rq_length rq).

(** ** Authentication *)

Definition errInvalidSignature := Errorf "invalid signature".
Definition errReplayDetected := Errorf "replay detected".

Section Code.
  Context `{Crypto}.

(** [replays.Accept] as the handlers use it: without a cache everything is
    admitted. *)
Definition admit_ (s : Server) (io : HttpIO) (nonce : gostring) : bool * option (gostring * Z * bool) :=
  if sv_replays s then
    let '(accepted, err) := h_accept io nonce (h_now io) in
    let ok := accepted && bool_decide (err = None) in
    (ok, Some (nonce, h_now io, ok))
  else (true, None).

(** The fields a signature covers. *)
Definition requestFields (rq : Request) (targetAddress timestamp nonce : gostring) : fields :=
  let mode := Get (rq_header rq) headerMode in
  mkFields (if bool_decide (mode = []) then modeTCPv2 else mode) (rq_method rq) (rq_path rq) targetAddress timestamp nonce.

Fixpoint firstVerified (users : list UserKey) (f : fields) (signature : gostring) (now : Z) : option UserKey :=
  match users with
  | [] => None
  | u :: rest => if Verify (PSK u) f signature now then Some u else firstVerified rest f signature now
  end.

Definition authorize (s : Server) (io : HttpIO) (rq : Request) (targetAddress timestamp nonce signature : gostring)
  : result UserKey * option (gostring * Z * bool) :=
  let f := requestFields rq targetAddress timestamp nonce in
  if (0 <? len (sv_psk s)) && (len (sv_users s) <=? 1) then
    if negb (Verify (sv_psk s) f signature (h_now io)) then (Fail errInvalidSignature, None)
    else
      let '(ok, adm) := admit_ s io nonce in
      if negb ok then (Fail errReplayDetected, adm)
      else (Ok (match sv_users s with [u] => u | _ => mkUser [] (sv_psk s) 0 end), adm)
  else
    match firstVerified (sv_users s) f signature (h_now io) with
    | None => (Fail errInvalidSignature, None)
    | Some u =>
        let '(ok, adm) := admit_ s io nonce in
        if negb ok then (Fail errReplayDetected, adm) else (Ok u, adm)
    end.

(** [authorize] with the values of the request's own headers. *)
Definition authorizeRequest (s : Server) (io : HttpIO) (rq : Request) (targetAddress : gostring) :=
  authorize s io rq targetAddress (Get (rq_header rq) headerTimestamp) (Get (rq_header rq) headerNonce)
    (Get (rq_header rq) headerSignature).

Definition badRequest : reply := Status 400 [] (bs "Bad Request").

(** The answers to a request that is not authorised. *)
Definition refused (rq : Request) (err : error) (adm : option (gostring * Z * bool)) : Outcome :=
  mkOut (if bool_decide (err = errReplayDetected) then badRequest else serveFallback rq) None adm None None.

Definition octetStream : gostring * gostring := (bs "Content-Type", bs "application/octet-stream").
Definition noStore : gostring * gostring := (bs "Cache-Control", bs "no-store").
Definition sessionOK : gostring * gostring := (headerSessionOK, bs "1").

Definition useFraming (rq : Request) : bool :=
  bool_decide (Get (rq_header rq) headerFraming = bs "1") || bool_decide (Get (rq_header rq) headerMode = bs "tcp-h2-framed").

Definition tunnelFields (framed early : bool) : list (gostring * gostring) :=
  [octetStream; noStore; sessionOK] ++ (if framed then [(headerFraming, bs "1")] else []) ++
  (if early then [(bs "X-Session-Early", bs "1")] else []).

(** From the dial on: a TCP tunnel over HTTP/2 or HTTP/3. *)
Definition serveTCP (io : HttpIO) (rq : Request) (h3 : bool) (user : UserKey) (adm : option (gostring * Z * bool)) (targetAddress : gostring)
  : Outcome :=
  match h_dial io user targetAddress with
  | Fail _ => mkOut (Status 502 [] (bs "upstream unavailable")) (Some user) adm (Some (user, targetAddress)) None
  | Ok up =>
      mkOut (Status 200 (tunnelFields (useFraming rq) (h3 && h_early io)) []) (Some user) adm (Some (user, targetAddress))
        (Some (TCPTunnel h3 (useFraming rq) (rq_body rq) up (h_out io)))
  end.

(** ** HTTP/3 *)

Definition serveHTTP3 (s : Server) (io : HttpIO) (rq : Request) : Outcome :=
  let mode := Get (rq_header rq) headerMode in
  let targetAddress := Get (rq_header rq) headerTarget in
  if negb (bool_decide (rq_path rq = sv_path s)) then mkOut (serveFallback rq) None None None None
  else if bool_decide (rq_method rq = MethodGet) && bool_decide (mode = modeTCPv2) then
    match authorizeRequest s io rq targetAddress with
    | (Fail err, adm) => refused rq err adm
    | (Ok user, adm) =>
        if negb (h_streamer io) then mkOut (Status 500 [] (bs "HTTP/3 stream unavailable")) (Some user) adm None None
        else serveTCP io rq true user adm targetAddress
    end
  else if bool_decide (rq_method rq = MethodConnect) && bool_decide (rq_proto rq = bs "connect-udp") && bool_decide (mode = modeUDPv2) then
    if negb (bool_decide (targetAddress = udpAuthName)) then mkOut (serveFallback rq) None None None None
    else
      match authorizeRequest s io rq targetAddress with
      | (Fail err, adm) => refused rq err adm
      | (Ok user, adm) =>
          mkOut (Status 200 [(bs "Capsule-Protocol", bs "?1"); noStore; sessionOK] []) (Some user) adm None
            (if h_streamer io then Some UDPTunnel else None)
      end
  else mkOut (serveFallback rq) None None None None.

(** ** HTTP/1.1 *)

(** The hello: [VerifyClientHello] or [MatchClientHello]; the clock of the
    handshake counts seconds. *)
Definition matchHello (s : Server) (io : HttpIO) (hello : list byte) : result (UserKey * list byte * Z) :=
  if (0 <? len (sv_psk s)) && (len (sv_users s) <=? 1) then
    let? (cNonce, tStamp) := VerifyClientHello (sv_psk s) hello (h_now io / second) in
    Ok (match sv_users s with [u] => u | _ => mkUser [] (sv_psk s) 0 end, cNonce, tStamp)
  else
    let? (matchedIdx, cNonce, tStamp) := MatchClientHello (sv_pskList s) hello (h_now io / second) in
    match sv_users s !! matchedIdx with
    | Some u => Ok (u, cNonce, tStamp)
    | None => Fail errInvalidSignature
    end.

Definition internalError : reply := Status 500 [] (bs "Internal Server Error").

(** The encrypted OPEN frame from the body. *)
Definition readOpenH1 (k0RTT : list byte) (r : reader) : result (gostring * list byte) * reader :=
  let '(wireLenBuf, e, r1) := ReadFull 2 r in
  match e with
  | Some err => (Fail err, r1)
  | None =>
      let wireLen := be_val wireLenBuf in
      if (wireLen =? 0) || (MaxChunkWireLen <? wireLen) then (Fail ErrInvalidOpenFrame, r1)
      else
        let '(chunk0RTT, e2, r2) := ReadFull wireLen r1 in
        match e2 with
        | Some err => (Fail err, r2)
        | None => (let? decryptedOpen := Decrypt0RTTChunk k0RTT chunk0RTT in DecodeOpenFrame decryptedOpen, r2)
        end
  end.

Definition h1Fields : list (gostring * gostring) := [octetStream; (bs "Cache-Control", bs "no-store, no-cache, must-revalidate")].

(** After the answer: the OPEN frame, the dial, the first bytes. *)
Definition openH1 (io : HttpIO) (user : UserKey) (adm : option (gostring * Z * bool)) (k0RTT clientKey serverKey answer : list byte)
    (r : reader) (out : writer) : Outcome :=
  let ok := Status 200 h1Fields answer in
  match readOpenH1 k0RTT r with
  | (Fail _, _) => mkOut ok (Some user) adm None None
  | (Ok (targetAddress, initialPayload), r2) =>
      let dialled := Some (user, targetAddress) in
      match h_dial io user targetAddress with
      | Fail _ => mkOut ok (Some user) adm dialled None
      | Ok up =>
          let '(e, upOut) :=
            if 0 <? len initialPayload then let '(_, e, w) := Write initialPayload (up_out up) in (e, w) else (None, up_out up) in
          match e with
          | Some _ => mkOut ok (Some user) adm dialled None
          | None =>
              let conn := NewConn r2 (sessionWriter out) clientKey serverKey false in
              mkOut ok (Some user) adm dialled
                (Some (H1Tunnel (connLayer conn) (connReader conn) (connWriter conn) (mkUpstream (up_in up) upOut)))
          end
      end
  end.

Definition servePlainH1 (s : Server) (io : HttpIO) (rq : Request) : Outcome :=
  let '(clientHello, e, r1) := ReadFull ClientHelloSize (rq_body rq) in
  let fallback := mkOut (serveFallback (withBody rq r1)) None None None None in
  match e with
  | Some _ => fallback
  | None =>
      match matchHello s io clientHello with
      | Fail _ => fallback
      | Ok (user, clientNonce, ts) =>
          let '(ok, adm) := admit_ s io (hexencode clientNonce) in
          if negb ok then mkOut badRequest None adm None None
          else
            match Derive0RTTKey (PSK user) ts clientNonce with
            | Fail _ => mkOut internalError (Some user) adm None None
            | Ok k0RTT =>
                match CreateServerHello (PSK user) clientNonce (h_rnd io) with
                | Fail _ => mkOut internalError (Some user) adm None None
                | Ok (serverHello, clientKey, serverKey, _) =>
                    let '(_, we, out) := Write serverHello (h_out io) in
                    match we with
                    | Some _ => mkOut (Status 200 h1Fields (wr_out out)) (Some user) adm None None
                    | None => openH1 io user adm k0RTT clientKey serverKey serverHello r1 out
                    end
                end
            end
      end
  end.

(** ** The handler *)

Definition ServeHTTP (s : Server) (io : HttpIO) (rq : Request) : Outcome :=
  let onPath := bool_decide (rq_path rq = sv_path s) in
  if bool_decide (rq_method rq = MethodHead) && onPath && bool_decide (Get (rq_header rq) (bs "X-Carrier-Probe") = bs "1") then
    match authorizeRequest s io rq [] with
    | (Ok user, adm) => mkOut (Status 204 [noStore; sessionOK] []) (Some user) adm None None
    | (Fail _, adm) => mkOut (serveFallback rq) None adm None None
    end
  else if rq_major rq =? 3 then serveHTTP3 s io rq
  else if (rq_major rq =? 1) && bool_decide (rq_method rq = MethodPost) && onPath then servePlainH1 s io rq
  else if negb onPath || negb (bool_decide (rq_method rq = MethodPost)) || negb (rq_major rq =? 2) then
    mkOut (serveFallback rq) None None None None
  else
    let targetAddress := Get (rq_header rq) headerTarget in
    match authorizeRequest s io rq targetAddress with
    | (Fail err, adm) => refused rq err adm
    | (Ok user, adm) => serveTCP io rq false user adm targetAddress
    end.

(** ** The client's signature *)

(** [signRequest]: the headers it sets. *)
Definition signRequest (rq : Request) (psk : list byte) (path target mode : gostring) (unix : Z) (rnd : reader) : result Request :=
  let? (nonceBytes, _) := randBytes "rand" 18 rnd in
  let nonce := b64encode nonceBytes in
  let timestamp := Itoa unix in
  let signature := Signature psk (mkFields mode (rq_method rq) path target timestamp nonce) in
  Ok (mkRequest (rq_method rq) (rq_path rq) (rq_proto rq) (rq_major rq)
        (<[headerSignature := [signature]]> (<[headerNonce := [nonce]]> (<[headerTimestamp := [timestamp]]>
        (<[headerTarget := [target]]> (<[headerMode := [mode]]> (<[bs "Content-Type" := [bs "application/octet-stream"]]> (rq_header rq)))))))
        (rq_body rq) (rq_length rq)).

(** The first flight of [dialPlainH1]: the hello and the sealed OPEN frame, the
    two chunks of the request's body. *)
Definition flightH1 (psk : list byte) (target : gostring) (now : Z) (rnd : reader)
  : result (list byte * list byte * list byte) :=
  let? (clientHello, clientNonce, ts, _) := CreateClientHello psk (now / second) rnd in
  let? k0RTT := Derive0RTTKey psk ts clientNonce in
  let? openFrame := EncodeOpenFrame target [] in
  let? encrypted0RTT := Encrypt0RTTChunk k0RTT openFrame in
  Ok (clientHello, encrypted0RTT, clientNonce).

(** ** The copy loops *)

(** [io.CopyBuffer] between a reader and a writer given by their [Read] and
    [Write]. *)
Fixpoint copyLoop {S W : Type} (rd : S -> Z -> list byte * option error * S) (wr : W -> list byte -> Z * option error * W)
    (fuel : nat) (plen : Z) (src : S) (dst : W) : option error * W :=
  match fuel with
  | O => (Some (Errorf "out of fuel"), dst)
  | S fuel =>
      let '(b, er, src) := rd src plen in
      let '(ew, dst) :=
        if 0 <? len b then
          let '(nw, e, dst) := wr dst b in
          (match e with Some _ => e | None => if nw =? len b then None else Some ErrShortWrite end, dst)
        else (None, dst) in
      match ew with
      | Some err => (Some err, dst)
      | None =>
          match er with
          | Some EOF => (None, dst)
          | Some err => (Some err, dst)
          | None => copyLoop rd wr fuel plen src dst
          end
      end
  end.

Definition readFrom (r : reader) (n : Z) : list byte * option error * reader := Read n r.
Definition writeTo (w : writer) (p : list byte) : Z * option error * writer := Write p w.

Definition copyFuel (r : reader) : nat := S (length r + length (rd_content r)).

Definition copyBuffer (r : reader) (w : writer) : option error * writer :=
  copyLoop readFrom writeTo (copyFuel r) copyBufferSize r w.

(** [io.CopyN(dst, src, n)]: no error exactly when [n] bytes were written;
    [io.EOF] when the source ended early. *)
Fixpoint copyNLoop (fuel : nat) (n : Z) (src : reader) (dst : writer) : option error * reader * writer :=
  if n <=? 0 then (None, src, dst)
  else match fuel with
  | O => (Some (Errorf "out of fuel"), src, dst)
  | S fuel =>
      let '(b, er, src) := Read (Z.min n 32768) src in
      let '(nw, ew, dst) :=
        if 0 <? len b then
          let '(nw, e, dst) := Write b dst in
          (nw, match e with Some _ => e | None => if nw =? len b then None else Some ErrShortWrite end, dst)
        else (0, None, dst) in
      match ew with
      | Some err => if nw =? n then (None, src, dst) else (Some err, src, dst)
      | None =>
          match er with
          | Some err => if n =? len b then (None, src, dst) else (Some err, src, dst)
          | None => copyNLoop fuel (n - len b) src dst
          end
      end
  end.

Definition CopyN (n : Z) (src : reader) (dst : writer) : option error * reader * writer :=
  copyNLoop (copyFuel src) n src dst.

(** [copyDataFramesToTCP]: [None] when the client ended its stream. *)
Fixpoint framesLoop (fuel : nat) (stream : reader) (upstream : writer) : option error * writer :=
  match fuel with
  | O => (Some (Errorf "out of fuel"), upstream)
  | S fuel =>
      let '(header, stream) := ReadHeader stream in
      match header with
      | Fail err => (Some err, upstream)
      | Ok h =>
          if bool_decide (h_Type h = TypeData) then
            let '(e, stream, upstream) := CopyN (h_Length h) stream upstream in
            match e with Some err => (Some err, upstream) | None => framesLoop fuel stream upstream end
          else if bool_decide (h_Type h = TypeHalfClose) then
            if negb (h_Length h =? 0) then (Some (Errorf "HALF_CLOSE frame contains payload"), upstream)
            else (None, upstream)
          else if bool_decide (h_Type h = TypeReset) then (Some (Errorf "peer reset stream"), upstream)
          else
            let '(e, stream, _) := CopyN (h_Length h) stream sink in
            match e with Some err => (Some err, upstream) | None => framesLoop fuel stream upstream end
      end
  end.

Definition copyDataFramesToTCP (stream : reader) (upstream : writer) : option error * writer :=
  framesLoop (copyFuel stream) stream upstream.

(** The copy of the upload: the error that ends it, with what the target got. *)
Definition copyUp (t : tunnel) : option error * writer :=
  match t with
  | TCPTunnel true true body up _ => copyDataFramesToTCP body (up_out up)
  | TCPTunnel _ _ body up _ => copyBuffer body (up_out up)
  | H1Tunnel layer rd _ up => copyLoop (Reader_Read layer) writeTo (readFuel (rr_r rd)) copyBufferSize rd (up_out up)
  | UDPTunnel => (None, sink)
  end.

(** What the goroutine of the upload then does to the connection to the target:
    HTTP/2 and HTTP/1.1 call [closeWriteConn] in any case, HTTP/3 closes the
    connection after an error. *)
Inductive ending := Untouched | HalfClosed | Closed.

Definition uploadEnd (t : tunnel) (err : option error) : ending :=
  match t with
  | TCPTunnel true _ _ _ _ => match err with Some _ => Closed | None => HalfClosed end
  | TCPTunnel false _ _ _ _ | H1Tunnel _ _ _ _ => HalfClosed
  | UDPTunnel => Untouched
  end.

(** The goroutine of the upload: its result, what the target got, and how the
    connection to the target was ended. *)
Definition upload (t : tunnel) : option error * writer * ending :=
  let '(err, w) := copyUp t in (err, w, uploadEnd t err).

(** The goroutine of the download: its result, with what the client got. *)
Definition download (t : tunnel) : option error * writer :=
  match t with
  | TCPTunnel _ true _ up out => let '(e, w, _) := CopyAsDataFramesAndClose out (up_in up) in (e, w)
  | TCPTunnel _ false _ up out => copyBuffer (up_in up) out
  | H1Tunnel _ _ wr up =>
      let '(e, fw) := copyLoop readFrom FramedWriter_Write (copyFuel (up_in up)) copyBufferSize (up_in up) wr in
      match e with
      | Some _ => (e, fw_w fw)
      | None => let '(e, fw) := WriteEOF fw in (e, fw_w fw)
      end
  | UDPTunnel => (None, sink)
  end.

End Code.

(** ** Who is let in *)

(** Servers as the constructors make them. *)
Definition httpServerOk (s : Server) : Prop :=
  (forall u, sv_users s = [u] -> sv_psk s = PSK u) /\ sv_pskList s = PSK <$> sv_users s.

(** The users of a server. *)
Definition userOf (s : Server) (u : UserKey) : Prop :=
  u ∈ sv_users s \/ (sv_users s = [] /\ u = mkUser [] (sv_psk s) 0).

Lemma NewServer_ok path psk replays : httpServerOk (NewServer path psk replays).
Proof. unfold NewServer. destruct (0 <? len psk); split; try done. by intros u [= <-]. Qed.

Lemma NewServerWithUsers_ok ToLower path users replays s :
  NewServerWithUsers ToLower path users replays = Ok s -> httpServerOk s /\ sv_users s <> [] /\ sv_path s = path /\ PSK <$> sv_users s = PSK <$> users.
Proof.
  unfold NewServerWithUsers. destruct (ValidateUserKeys ToLower users) eqn:Ev; [done|]. cbn [copyUserKeys].
  set (copied := _ <$> users). intros [= <-]. unfold httpServerOk. cbn [sv_users sv_psk sv_pskList sv_path].
  apply ValidateUserKeys_ok in Ev as (Hl & _). split_and!; try done.
  - by intros u ->.
  - intros E. apply (f_equal length) in E. unfold copied in E. rewrite length_fmap in E. cbn in E. lia.
  - unfold copied. rewrite <- list_fmap_compose. by apply list_fmap_ext.
Qed.

Section Proofs.
  Context `{Crypto}.

(** A request that carries the signature of [u] over its own fields. *)
Definition signedBy (io : HttpIO) (rq : Request) (target : gostring) (u : UserKey) : Prop :=
  Verify (PSK u) (requestFields rq target (Get (rq_header rq) headerTimestamp) (Get (rq_header rq) headerNonce))
    (Get (rq_header rq) headerSignature) (h_now io) = true.

(** A body that begins with a fresh hello of [u]. *)
Definition helloBy (io : HttpIO) (rq : Request) (u : UserKey) (nonce : list byte) (ts : Z) (rest : reader) : Prop :=
  exists hello, ReadFull ClientHelloSize (rq_body rq) = (hello, None, rest) /\
    accepts (PSK u) hello = true /\ timestampExpired MaxTimestampSkew (h_now io / second) ts = false /\
    nonce = slice 8 32 hello /\ ts = be_val (slice 0 8 hello).

Lemma firstVerified_spec users f signature now u :
  firstVerified users f signature now = Some u -> u ∈ users /\ Verify (PSK u) f signature now = true.
Proof.
  induction users as [|v users IH]; [done|]. cbn. destruct (Verify (PSK v) f signature now) eqn:E.
  - intros [= <-]. split; [by left|done].
  - intros Hu. destruct (IH Hu). split; [by right|done].
Qed.

Lemma firstVerified_none users f signature now :
  firstVerified users f signature now = None <-> Forall (fun u => Verify (PSK u) f signature now = false) users.
Proof.
  induction users as [|v users IH]; cbn; [done|]. rewrite Forall_cons. destruct (Verify (PSK v) f signature now); [|rewrite IH]; naive_solver.
Qed.

(** What the replay cache was asked. *)
Definition admitted (s : Server) (io : HttpIO) (nonce : gostring) (ok : bool) (adm : option (gostring * Z * bool)) : Prop :=
  if sv_replays s then adm = Some (nonce, h_now io, ok) /\ (ok = true <-> h_accept io nonce (h_now io) = (true, None)) else adm = None /\ ok = true.

Lemma admit_spec s io nonce ok adm : admit_ s io nonce = (ok, adm) -> admitted s io nonce ok adm.
Proof.
  unfold admit_, admitted. destruct (sv_replays s); [|intros [= <- <-]; done].
  destruct (h_accept io nonce (h_now io)) as [a err]. intros [= <- <-]. split; [done|].
  rewrite andb_true_iff, bool_decide_eq_true. naive_solver.
Qed.

(** [authorize]: a user only with a valid signature of theirs and a nonce the
    replay cache has just admitted; [errReplayDetected] only for a valid
    signature. *)
Lemma authorize_spec s io rq target res adm :
  httpServerOk s -> authorizeRequest s io rq target = (res, adm) ->
  match res with
  | Ok u => userOf s u /\ signedBy io rq target u /\ admitted s io (Get (rq_header rq) headerNonce) true adm
  | Fail err =>
      (err = errReplayDetected /\ (exists u, userOf s u /\ signedBy io rq target u) /\ sv_replays s = true /\
         admitted s io (Get (rq_header rq) headerNonce) false adm) \/
      (err = errInvalidSignature /\ adm = None /\ forall u, userOf s u -> 0 < len (PSK u) -> ~ signedBy io rq target u)
  end.
Proof.
  intros [Hone _]. unfold authorizeRequest, authorize. set (f := requestFields _ _ _ _). set (nonce := Get _ headerNonce).
  assert (Hadm : forall ok adm0, admit_ s io nonce = (ok, adm0) -> ok = false -> sv_replays s = true).
  { intros ok adm0. unfold admit_. destruct (sv_replays s); [done|]. intros [= <- <-]. done. }
  destruct ((0 <? len (sv_psk s)) && (len (sv_users s) <=? 1)) eqn:Ec.
  - apply andb_true_iff in Ec as [_ Hl%Z.leb_le].
    set (u := match sv_users s with [u] => u | _ => _ end).
    assert (Hu : userOf s u /\ PSK u = sv_psk s).
    { unfold u, userOf. destruct (sv_users s) as [|v [|]] eqn:Eu; cbn in Hl; [auto| |lia]. split; [left; by left|]. by rewrite (Hone v). }
    destruct Hu as [Hu Hk]. destruct (Verify (sv_psk s) f _ (h_now io)) eqn:Ev; cbn [negb].
    + destruct (admit_ s io nonce) as [ok adm0] eqn:Ea. pose proof (admit_spec _ _ _ _ _ Ea) as Hs.
      destruct ok; cbn [negb]; intros [= <- <-].
      * split; [done|]. split; [|done]. unfold signedBy. by rewrite Hk.
      * left. split; [done|]. split; [exists u; split; [done|]; unfold signedBy; by rewrite Hk|]. split; [by apply (Hadm false adm0)|done].
    + intros [= <- <-]. right. split; [done|]. split; [done|]. intros v Hv _ Hsig.
      assert (PSK v = sv_psk s) as Hkv; [|unfold signedBy in Hsig; rewrite Hkv in Hsig; exact (eq_true_false_abs _ Hsig Ev)]. destruct Hv as [Hv|[_ ->]]; [|done].
      unfold u in Hk. destruct (sv_users s) as [|x [|]]; cbn in Hl; [set_solver| |lia]. by apply list_elem_of_singleton in Hv as ->.
  - destruct (firstVerified (sv_users s) f _ (h_now io)) as [u|] eqn:Ef.
    + destruct (firstVerified_spec _ _ _ _ _ Ef) as [Hu Hv].
      destruct (admit_ s io nonce) as [ok adm0] eqn:Ea. pose proof (admit_spec _ _ _ _ _ Ea) as Hs.
      destruct ok; cbn [negb]; intros [= <- <-].
      * split; [by left|]. done.
      * left. split; [done|]. split; [exists u; split; [by left|done]|]. split; [by apply (Hadm false adm0)|done].
    + intros [= <- <-]. right. split; [done|]. split; [done|]. intros v Hv Hp. apply firstVerified_none in Ef. rewrite Forall_forall in Ef.
      destruct Hv as [Hv|[Hn ->]]; [intros Hsig; specialize (Ef v Hv); cbn in Ef; exact (eq_true_false_abs _ Hsig Ef)|].
      apply andb_false_iff in Ec as [Ec|Ec]; [apply Z.ltb_ge in Ec; cbn in Hp; lia|]. rewrite Hn in Ec. done.
Qed.

(** What is left of the body when a hello was looked for in it. *)
Definition bodyAfter (rq : Request) (body : reader) : Prop :=
  body = rq_body rq \/ exists hello e, ReadFull ClientHelloSize (rq_body rq) = (hello, e, body).

(** A reply and what was done for it, given who was authenticated how. *)
Definition gateOk (s : Server) (io : HttpIO) (rq : Request) (o : Outcome) : Prop :=
  match oc_user o with
  | None =>
      oc_dialled o = None /\ oc_tunnel o = None /\
      ((exists body, bodyAfter rq body /\ oc_reply o = serveFallback (withBody rq body)) \/
       (oc_reply o = badRequest /\ sv_replays s = true /\ exists u nonce, userOf s u /\ oc_admission o = Some (nonce, h_now io, false) /\
          ((exists target, signedBy io rq target u) \/ exists n ts rest, helloBy io rq u n ts rest)))
  | Some u =>
      userOf s u /\
      ((exists target, signedBy io rq target u /\ admitted s io (Get (rq_header rq) headerNonce) true (oc_admission o) /\
          forall v t, oc_dialled o = Some (v, t) -> v = u /\ t = target) \/
       (exists nonce ts rest, helloBy io rq u nonce ts rest /\ admitted s io (hexencode nonce) true (oc_admission o) /\
          forall v t, oc_dialled o = Some (v, t) -> v = u /\
            exists k payload r2, Derive0RTTKey (PSK u) ts nonce = Ok k /\ readOpenH1 k rest = (Ok (t, payload), r2)))
  end.

Lemma withBody_same rq : withBody rq (rq_body rq) = rq.
Proof. by destruct rq. Qed.

Lemma fallback_gate s io rq adm : gateOk s io rq (mkOut (serveFallback rq) None adm None None).
Proof.
  unfold gateOk. cbn. split; [done|]. split; [done|]. left. exists (rq_body rq). rewrite withBody_same. split; [by left|done].
Qed.

Lemma refused_gate s io rq target err adm :
  httpServerOk s -> authorizeRequest s io rq target = (Fail err, adm) -> gateOk s io rq (refused rq err adm).
Proof.
  intros Hs Ha. apply (authorize_spec s io rq target _ _ Hs) in Ha. unfold refused.
  destruct Ha as [(-> & (u & Hu & Hsig) & Hr & Hadm)|(-> & -> & _)]; [|apply fallback_gate].
  rewrite bool_decide_true by done. unfold gateOk. cbn. split; [done|]. split; [done|]. right. split; [done|]. split; [done|].
  unfold admitted in Hadm. rewrite Hr in Hadm. destruct Hadm as [-> _]. exists u, (Get (rq_header rq) headerNonce). eauto 10.
Qed.

Lemma signed_gate s io rq target u adm reply_ dialled tun :
  httpServerOk s -> authorizeRequest s io rq target = (Ok u, adm) -> (forall v t, dialled = Some (v, t) -> v = u /\ t = target) ->
  gateOk s io rq (mkOut reply_ (Some u) adm dialled tun).
Proof.
  intros Hs Ha Hd. apply (authorize_spec s io rq target _ _ Hs) in Ha as (Hu & Hsig & Hadm). unfold gateOk. cbn. eauto 10.
Qed.

Lemma serveTCP_gate s io rq h3 target u adm :
  httpServerOk s -> authorizeRequest s io rq target = (Ok u, adm) -> gateOk s io rq (serveTCP io rq h3 u adm target).
Proof. intros Hs Ha. unfold serveTCP. destruct (h_dial io u target); apply (signed_gate s io rq target); try done; by intros v t [= <- <-]. Qed.

Lemma serveHTTP3_gate s io rq : httpServerOk s -> gateOk s io rq (serveHTTP3 s io rq).
Proof.
  intros Hs. unfold serveHTTP3. set (target := Get _ headerTarget).
  destruct (negb _); [apply fallback_gate|]. destruct (_ && _).
  - destruct (authorizeRequest s io rq target) as [[u|err] adm] eqn:Ea; [|by apply (refused_gate s io rq target)].
    destruct (h_streamer io); [by apply serveTCP_gate|]. by apply (signed_gate s io rq target).
  - destruct (_ && _ && _); [|apply fallback_gate]. destruct (negb _); [apply fallback_gate|].
    destruct (authorizeRequest s io rq target) as [[u|err] adm] eqn:Ea; [|by apply (refused_gate s io rq target)].
    by apply (signed_gate s io rq target).
Qed.

Lemma matchHello_spec s io hello u nonce ts :
  httpServerOk s -> matchHello s io hello = Ok (u, nonce, ts) ->
  userOf s u /\ accepts (PSK u) hello = true /\ timestampExpired MaxTimestampSkew (h_now io / second) ts = false /\
  nonce = slice 8 32 hello /\ ts = be_val (slice 0 8 hello).
Proof.
  intros [Hone Hlist]. unfold matchHello.
  assert (Hm : forall keys i n t, MatchClientHello keys hello (h_now io / second) = Ok (i, n, t) ->
    exists k, keys !! i = Some k /\ accepts k hello = true /\ timestampExpired MaxTimestampSkew (h_now io / second) t = false /\
      n = slice 8 32 hello /\ t = be_val (slice 0 8 hello)).
  { intros keys i n t. unfold MatchClientHello. destruct (negb _); [done|]. destruct (timestampExpired _ _ _) eqn:Et; [done|].
    destruct (matchKeys 0 keys hello) as [j|] eqn:Ej; [|done]. intros E. assert (j = i /\ n = slice 8 32 hello /\ t = be_val (slice 0 8 hello)) as (-> & -> & ->) by (split_and!; congruence).
    apply matchKeys_first in Ej as (m & k & -> & Hk & Hacc & _). exists k. done. }
  destruct ((0 <? len (sv_psk s)) && (len (sv_users s) <=? 1)) eqn:Ec.
  - apply andb_true_iff in Ec as [_ Hl%Z.leb_le]. unfold VerifyClientHello. destruct (len (sv_psk s) <? 32); [done|].
    destruct (MatchClientHello [sv_psk s] hello (h_now io / second)) as [[[i n] t]|] eqn:Em; [|done].
    apply Hm in Em as (k & Hk & Hacc & Ht & -> & ->). apply list_lookup_singleton_Some in Hk as [_ <-]. cbv beta iota.
    intros E. assert (u = match sv_users s with [u] => u | _ => mkUser [] (sv_psk s) 0 end /\ nonce = slice 8 32 hello /\ ts = be_val (slice 0 8 hello))
      as (-> & -> & ->) by (split_and!; congruence).
    destruct (sv_users s) as [|v [|]] eqn:Eu; cbn in Hl; [|rewrite (Hone v eq_refl) in Hacc|lia]; unfold userOf; rewrite Eu; split_and!; try done; [by right|left; by left].
  - destruct (MatchClientHello (sv_pskList s) hello (h_now io / second)) as [[[i n] t]|] eqn:Em; [|done]. cbn.
    apply Hm in Em as (k & Hk & Hacc & Ht & -> & ->). destruct (sv_users s !! i) as [v|] eqn:Ev; [|done].
    rewrite Hlist, list_lookup_fmap, Ev in Hk. injection Hk as <-.
    intros E. assert (u = v /\ nonce = slice 8 32 hello /\ ts = be_val (slice 0 8 hello)) as (-> & -> & ->) by (split_and!; congruence).
    split_and!; try done. left. apply list_elem_of_lookup. eauto.
Qed.

Lemma admit_gate_hello s io rq u nonce ts rest adm reply_ dialled tun :
  userOf s u -> helloBy io rq u nonce ts rest -> admitted s io (hexencode nonce) true adm ->
  (forall v t, dialled = Some (v, t) -> v = u /\
     exists k payload r2, Derive0RTTKey (PSK u) ts nonce = Ok k /\ readOpenH1 k rest = (Ok (t, payload), r2)) ->
  gateOk s io rq (mkOut reply_ (Some u) adm dialled tun).
Proof. intros Hu Hh Ha Hd. unfold gateOk. cbn. split; [done|]. right. exists nonce, ts, rest. done. Qed.

Lemma servePlainH1_gate s io rq : httpServerOk s -> gateOk s io rq (servePlainH1 s io rq).
Proof.
  intros Hs. unfold servePlainH1. destruct (ReadFull ClientHelloSize (rq_body rq)) as [[hello e] r1] eqn:Er.
  assert (Hf : gateOk s io rq (mkOut (serveFallback (withBody rq r1)) None None None None)).
  { unfold gateOk. cbn. split; [done|]. split; [done|]. left. exists r1. split; [right; eauto|done]. }
  destruct e; [done|]. destruct (matchHello s io hello) as [[[u nonce] ts]|] eqn:Em; [|done].
  destruct (matchHello_spec s io hello u nonce ts Hs Em) as (Hu & Hacc & Hts & Hn & Htv).
  assert (Hh : helloBy io rq u nonce ts r1) by (exists hello; done).
  destruct (admit_ s io (hexencode nonce)) as [ok adm] eqn:Ea. apply admit_spec in Ea. destruct ok; cbn [negb].
  - destruct (Derive0RTTKey (PSK u) ts nonce) as [k|] eqn:Ek; [|by apply (admit_gate_hello s io rq u nonce ts r1)].
    destruct (CreateServerHello (PSK u) nonce (h_rnd io)) as [[[[answer ck] sk] rnd']|]; [|by apply (admit_gate_hello s io rq u nonce ts r1)].
    destruct (Write answer (h_out io)) as [[? we] out]. destruct we; [by apply (admit_gate_hello s io rq u nonce ts r1)|].
    unfold openH1. destruct (readOpenH1 k r1) as [[[target payload]|] r2] eqn:Eo; [|by apply (admit_gate_hello s io rq u nonce ts r1)].
    assert (Hd : forall v t, Some (u, target) = Some (v, t) -> v = u /\
      exists k payload r2, Derive0RTTKey (PSK u) ts nonce = Ok k /\ readOpenH1 k r1 = (Ok (t, payload), r2)).
    { intros v t [= <- <-]. split; [done|]. exists k, payload, r2. done. }
    destruct (h_dial io u target) as [up|]; [|by apply (admit_gate_hello s io rq u nonce ts r1)].
    destruct (if 0 <? len payload then _ else _) as [[?|] upOut]; by apply (admit_gate_hello s io rq u nonce ts r1).
  - unfold admitted in Ea. destruct (sv_replays s) eqn:Er'; [|by destruct Ea]. destruct Ea as [-> _].
    unfold gateOk. cbn. split; [done|]. split; [done|]. right. split; [done|]. split; [done|]. exists u, (hexencode nonce). eauto 10.
Qed.

Lemma ServeHTTP_gate s io rq : httpServerOk s -> gateOk s io rq (ServeHTTP s io rq).
Proof.
  intros Hs. unfold ServeHTTP. destruct (_ && _ && _).
  { destruct (authorizeRequest s io rq []) as [[u|err] adm] eqn:Ea; [by apply (signed_gate s io rq [])|].
    apply (authorize_spec s io rq [] _ _ Hs) in Ea as [Ha|(_ & -> & _)]; [|apply fallback_gate].
    apply fallback_gate. }
  destruct (rq_major rq =? 3); [by apply serveHTTP3_gate|]. destruct (_ && _ && _); [by apply servePlainH1_gate|].
  destruct (_ || _); [apply fallback_gate|]. set (target := Get _ headerTarget).
  destruct (authorizeRequest s io rq target) as [[u|err] adm] eqn:Ea; [by apply serveTCP_gate|by apply (refused_gate s io rq target)].
Qed.

(** ** The fallback *)

Lemma delNames_lookup names h k : delNames names h !! k = if bool_decide (k ∈ names) then None else h !! k.
Proof.
  unfold delNames. revert h. induction names as [|n names IH]; intros h; cbn [foldl].
  { by rewrite bool_decide_false by set_solver. }
  rewrite IH. destruct (decide (k ∈ names)) as [Hk|Hk].
  { by rewrite !bool_decide_true by set_solver. }
  rewrite (bool_decide_false _ Hk). destruct (decide (k = n)) as [->|Hn].
  - rewrite bool_decide_true by set_solver. by rewrite lookup_delete_eq.
  - rewrite bool_decide_false by set_solver. by rewrite lookup_delete_ne.
Qed.

Definition bodyNames : list gostring := [bs "Content-Length"; bs "Transfer-Encoding"; bs "Expect"].

(** What the fallback site is shown of [rq]. *)
Definition shown (rq seen : Request) : Prop :=
  rq_method seen = rq_method rq /\ rq_path seen = rq_path rq /\ rq_major seen = rq_major rq /\
  (forall k, k ∈ privateNames -> rq_header seen !! k = None) /\
  (forall k, k ∉ privateNames -> k ∉ bodyNames -> rq_header seen !! k = rq_header rq !! k) /\
  ((exists k, k ∈ privateNames /\ is_Some (rq_header rq !! k)) ->
     rq_body seen = [] /\ rq_length seen = 0 /\ forall k, k ∈ bodyNames -> rq_header seen !! k = None) /\
  ((forall k, k ∈ privateNames -> rq_header rq !! k = None) -> seen = rq).

Lemma serveFallback_shown rq seen close : serveFallback rq = Fallback seen close -> shown rq seen.
Proof.
  unfold serveFallback. set (h := delNames privateNames (rq_header rq)). fold bodyNames. set (h' := delNames bodyNames h).
  destruct (existsb _ _) eqn:Ee; intros [= <- _]; unfold shown; cbn [rq_method rq_path rq_major rq_header rq_body rq_length].
  - apply existsb_exists in Ee as (k & Hk & Hs%bool_decide_eq_true). apply list_elem_of_In in Hk. split_and!; try done.
    + intros k' Hk'. unfold h', h. rewrite !delNames_lookup. rewrite (bool_decide_true _ Hk'). by destruct (bool_decide _).
    + intros k' Hk' Hb. unfold h', h. by rewrite !delNames_lookup, !bool_decide_false.
    + intros _. split_and!; try done. intros k' Hk'. unfold h'. by rewrite delNames_lookup, bool_decide_true.
    + intros Hn. rewrite Hn in Hs by done. by destruct Hs.
  - assert (Hnone : forall k, k ∈ privateNames -> rq_header rq !! k = None).
    { intros k Hk. apply eq_None_not_Some. intros Hs. apply not_true_iff_false in Ee. apply Ee, existsb_exists. exists k.
      split; [by apply list_elem_of_In|]. by apply bool_decide_eq_true. }
    assert (h = rq_header rq) as ->.
    { apply map_eq. intros k. unfold h. rewrite delNames_lookup. case_bool_decide; [|done]. by rewrite Hnone. }
    split_and!; try done.
    + intros (k & Hk & Hs). rewrite Hnone in Hs by done. by destruct Hs.
    + intros _. by destruct rq.
Qed.

(** A reply without an authenticated user is the fallback's, or the fixed
    answer to a replay. *)
Lemma Status_authenticated s io rq code fs text :
  httpServerOk s -> oc_reply (ServeHTTP s io rq) = Status code fs text -> oc_user (ServeHTTP s io rq) = None ->
  Status code fs text = badRequest /\ sv_replays s = true.
Proof.
  intros Hs Hr Hu. pose proof (ServeHTTP_gate s io rq Hs) as Hg. unfold gateOk in Hg. rewrite Hu in Hg.
  destruct Hg as (_ & _ & [(body & _ & Hf)|(Hb & Hrep & _)]).
  - rewrite Hr in Hf. unfold serveFallback in Hf. by destruct (existsb _ _).
  - by rewrite <- Hr.
Qed.

(** ** The request of a client *)

Lemma Get_insert h k v : Get (<[k := [v]]> h) k = v.
Proof. unfold Get. by rewrite lookup_insert_eq. Qed.

Lemma Get_insert_ne h k k' v : k <> k' -> Get (<[k := [v]]> h) k' = Get h k'.
Proof. intros. unfold Get. by rewrite lookup_insert_ne. Qed.

Lemma signRequest_inv rq psk path target mode unix rnd rq' :
  signRequest rq psk path target mode unix rnd = Ok rq' ->
  exists nonce, nonce <> [] /\ rq_method rq' = rq_method rq /\ rq_path rq' = rq_path rq /\ rq_proto rq' = rq_proto rq /\
    rq_major rq' = rq_major rq /\ rq_body rq' = rq_body rq /\
    Get (rq_header rq') headerMode = mode /\ Get (rq_header rq') headerTarget = target /\
    Get (rq_header rq') headerTimestamp = Itoa unix /\ Get (rq_header rq') headerNonce = nonce /\
    Get (rq_header rq') headerSignature = Signature psk (mkFields mode (rq_method rq) path target (Itoa unix) nonce) /\
    Get (rq_header rq') headerFraming = Get (rq_header rq) headerFraming.
Proof.
  unfold signRequest. destruct (randBytes "rand" 18 rnd) as [[nb rnd']|] eqn:En; [|done].
  apply randBytes_ok in En; [|done]. intros [= <-]. exists (b64encode nb). cbn [rq_method rq_path rq_proto rq_major rq_body rq_header].
  split; [apply b64encode_nonnil; by destruct nb|].
  split_and!; try done; repeat (first [apply Get_insert | rewrite Get_insert_ne by (vm_compute; discriminate)]); done.
Qed.

(** The fields the server checks are the ones the client signed. *)
Lemma signed_verifies io rq psk target mode unix rnd rq' u :
  signRequest rq psk (rq_path rq) target mode unix rnd = Ok rq' -> mode <> [] -> 0 <= unix < 2 ^ 63 ->
  h_now io - MaxClockSkew <= unix * second <= h_now io + MaxClockSkew ->
  signedBy io rq' target u <->
  Signature psk (requestFields rq' target (Itoa unix) (Get (rq_header rq') headerNonce)) =
  Signature (PSK u) (requestFields rq' target (Itoa unix) (Get (rq_header rq') headerNonce)).
Proof.
  intros Es Hm Hu Ht. apply signRequest_inv in Es as (nonce & Hn & Em & Ep & _ & _ & _ & Hmode & _ & Hts & Hno & Hsig & _).
  unfold signedBy. rewrite Hts, Hno, Hsig.
  assert (requestFields rq' target (Itoa unix) nonce = mkFields mode (rq_method rq) (rq_path rq) target (Itoa unix) nonce) as ->.
  { unfold requestFields. rewrite Hmode, Em, Ep. by rewrite bool_decide_false. }
  rewrite Verify_spec. split.
  - by intros (t & _ & _ & _ & E).
  - intros E. exists unix. cbn [f_timestamp f_nonce]. split_and!; try done; try lia. by apply Atoi_Itoa.
Qed.

Lemma firstVerified_at users f signature now i u :
  users !! i = Some u -> Verify (PSK u) f signature now = true ->
  (forall j v, (j < i)%nat -> users !! j = Some v -> Verify (PSK v) f signature now = false) ->
  firstVerified users f signature now = Some u.
Proof.
  revert i. induction users as [|v users IH]; intros i; [done|]. destruct i as [|i]; cbn [firstVerified].
  - intros [= ->] -> _. done.
  - intros Hi Hv Hf. rewrite (Hf 0%nat v) by (done || lia). apply (IH i); [done|done|].
    intros j w Hj Hw. apply (Hf (S j)); [lia|done].
Qed.

(** The first user whose key verifies is the one that is served. *)
Lemma authorize_first s io rq target i u :
  httpServerOk s -> sv_users s !! i = Some u -> signedBy io rq target u ->
  (forall j v, (j < i)%nat -> sv_users s !! j = Some v -> ~ signedBy io rq target v) ->
  (sv_replays s = true -> h_accept io (Get (rq_header rq) headerNonce) (h_now io) = (true, None)) ->
  exists adm, authorizeRequest s io rq target = (Ok u, adm).
Proof.
  intros [Hone _] Hi Hs Hf Ha. unfold authorizeRequest, authorize.
  assert (Hadm : exists adm, admit_ s io (Get (rq_header rq) headerNonce) = (true, adm)).
  { unfold admit_. destruct (sv_replays s); [|eauto]. rewrite (Ha eq_refl). cbn. eauto. }
  destruct Hadm as [adm Hadm]. exists adm. unfold signedBy in Hs.
  destruct ((0 <? len (sv_psk s)) && (len (sv_users s) <=? 1)) eqn:Ec.
  - apply andb_true_iff in Ec as [_ Hl%Z.leb_le].
    destruct (sv_users s) as [|v [|]] eqn:Eu; [done| |cbn in Hl; lia]. destruct i; [|done]. injection Hi as <-.
    rewrite (Hone v eq_refl). rewrite Hs, Hadm. done.
  - rewrite (firstVerified_at _ _ _ _ i u Hi Hs), Hadm; [done|]. intros j v Hj Hv. apply not_true_iff_false. by apply (Hf j).
Qed.

(** ** What reaches the fallback *)

(** The fallback is shown the request, or what HTTP/1.1 left of its body. *)
Definition fallbackOf (rq : Request) (h1 : bool) (o : Outcome) : Prop :=
  forall seen close, oc_reply o = Fallback seen close ->
    exists body, (body = rq_body rq \/ h1 = true /\ bodyAfter rq body) /\ serveFallback (withBody rq body) = Fallback seen close.

Lemma fallbackOf_refl rq h1 u adm dialled tun : fallbackOf rq h1 (mkOut (serveFallback rq) u adm dialled tun).
Proof. intros seen close E. exists (rq_body rq). rewrite withBody_same. split; [by left|done]. Qed.

Lemma fallbackOf_refused rq h1 err adm : fallbackOf rq h1 (refused rq err adm).
Proof. unfold refused. case_bool_decide; [done|]. apply fallbackOf_refl. Qed.

Lemma fallbackOf_serveTCP io rq h1 h3 u adm target : fallbackOf rq h1 (serveTCP io rq h3 u adm target).
Proof. unfold serveTCP. by destruct (h_dial io u target). Qed.

Lemma fallbackOf_plainH1 s io rq : fallbackOf rq true (servePlainH1 s io rq).
Proof.
  unfold servePlainH1. destruct (ReadFull ClientHelloSize (rq_body rq)) as [[hello e] r1] eqn:Er.
  assert (Hf : fallbackOf rq true (mkOut (serveFallback (withBody rq r1)) None None None None)).
  { intros seen close E. exists r1. split; [|done]. right. split; [done|]. right. by exists hello, e. }
  destruct e; [done|]. destruct (matchHello s io hello) as [[[u nonce] ts]|]; [|done].
  destruct (admit_ s io _) as [[|] adm]; [|done]. cbn [negb]. destruct (Derive0RTTKey _ _ _); [|done].
  destruct (CreateServerHello _ _ _) as [[[[answer ck] sk] rnd']|]; [|done].
  destruct (Write answer (h_out io)) as [[? we] out]. destruct we; [done|]. unfold openH1.
  destruct (readOpenH1 _ r1) as [[[target payload]|] r2]; [|done]. destruct (h_dial io u target); [|done].
  by destruct (if 0 <? len payload then _ else _) as [[?|] upOut].
Qed.

Lemma fallbackOf_serveHTTP3 s io rq h1 : fallbackOf rq h1 (serveHTTP3 s io rq).
Proof.
  unfold serveHTTP3. destruct (negb _); [apply fallbackOf_refl|]. destruct (_ && _).
  - destruct (authorizeRequest s io rq _) as [[u|err] adm]; [|apply fallbackOf_refused].
    destruct (h_streamer io); [apply fallbackOf_serveTCP|done].
  - destruct (_ && _ && _); [|apply fallbackOf_refl]. destruct (negb _); [apply fallbackOf_refl|].
    destruct (authorizeRequest s io rq _) as [[u|err] adm]; [done|apply fallbackOf_refused].
Qed.

Lemma ServeHTTP_fallback s io rq :
  fallbackOf rq ((rq_major rq =? 1) && bool_decide (rq_method rq = MethodPost) && bool_decide (rq_path rq = sv_path s)) (ServeHTTP s io rq).
Proof.
  unfold ServeHTTP. set (h1 := (rq_major rq =? 1) && _ && _).
  destruct (bool_decide (rq_method rq = MethodHead) && _ && _).
  { destruct (authorizeRequest s io rq []) as [[u|err] adm]; [done|]. apply fallbackOf_refl. }
  destruct (rq_major rq =? 3); [apply fallbackOf_serveHTTP3|].
  destruct h1; [apply fallbackOf_plainH1|]. destruct (_ || _); [apply fallbackOf_refl|].
  destruct (authorizeRequest s io rq _) as [[u|err] adm]; [apply fallbackOf_serveTCP|apply fallbackOf_refused].
Qed.

(** ** Properties *)

(** C11: Only authenticated requests become tunnels: on every request, whatever its
    version, path and method, the handler authenticates a user only on a fresh
    signature of that user over the request's own mode, method, path and target,
    or on a fresh hello of theirs in an HTTP/1.1 body, after the replay cache
    admitted its nonce; it dials only for that user and only the signed or
    sealed target; everybody else gets the fallback's answer without a dial, or,
    for an authentic request that is replayed, a fixed error. *)
Theorem http_gate s io rq : httpServerOk s -> gateOk s io rq (ServeHTTP s io rq).
Proof. apply ServeHTTP_gate. Qed.

(** C12: What the fallback site is shown of a request: never one of the five
    private headers that sign a request (X-Session-Target, -Time, -Nonce, -Auth and
    -Mode), and every other header as it came, X-Session-Framing and
    X-Carrier-Probe included; where a private header was there, also no
    Content-Length, Transfer-Encoding or Expect, no body and the length 0; where
    none was there, the request as it came, except that an HTTP/1.1 POST to the
    secret path has lost what was read in search of a hello. *)
Theorem http_fallback s io rq seen close :
  oc_reply (ServeHTTP s io rq) = Fallback seen close ->
  exists body, shown (withBody rq body) seen /\
    (body = rq_body rq \/
     rq_major rq = 1 /\ rq_method rq = MethodPost /\ rq_path rq = sv_path s /\ bodyAfter rq body).
Proof.
  intros E. destruct (ServeHTTP_fallback s io rq seen close E) as (body & Hb & Hf). exists body.
  split; [by eapply serveFallback_shown|]. destruct Hb as [Hb|[Hh Hb]]; [by left|right].
  apply andb_true_iff in Hh as [[H1%Z.eqb_eq H2%bool_decide_eq_true]%andb_true_iff H3%bool_decide_eq_true]. done.
Qed.

(** A POST over HTTP/1.1 that is not ours reaches the fallback without its
    first 48 bytes, under its old length. *)
Lemma h1_probe_truncated s io rq b :
  rq_major rq = 1 -> rq_method rq = MethodPost -> rq_path rq = sv_path s -> (forall k, k ∈ privateNames -> rq_header rq !! k = None) ->
  delivers (rq_body rq) b -> 48 <= len b -> (forall err, matchHello s io (ztake 48 b) <> Ok err) ->
  exists seen, oc_reply (ServeHTTP s io rq) = Fallback seen false /\ delivers (rq_body seen) (zdrop 48 b) /\ rq_length seen = rq_length rq.
Proof.
  intros Hm Hme Hp Hh Hb Hl Hn. unfold ServeHTTP. rewrite Hm, Hme, Hp.
  rewrite (bool_decide_false (MethodPost = MethodHead)) by (by vm_compute).
  rewrite (bool_decide_true (MethodPost = MethodPost)), (bool_decide_true (sv_path s = sv_path s)) by done. cbn [andb Z.eqb Pos.eqb]. unfold servePlainH1.
  destruct (ReadFull_clean ClientHelloSize (rq_body rq) b) as (r' & -> & Hd); [done|exact Hl|exact Hb|].
  destruct (matchHello s io _) as [x|]; [by destruct (Hn x)|].
  destruct (serveFallback (withBody rq r')) as [seen close|] eqn:Ef; [|by unfold serveFallback in Ef; destruct (existsb _ _)].
  pose proof (serveFallback_shown _ _ _ Ef) as (_ & _ & _ & _ & _ & _ & Hsame). rewrite (Hsame Hh) in *.
  exists (withBody rq r'). cbn [oc_reply rq_length withBody rq_body]. split_and!; [|done|done].
  f_equal. unfold serveFallback in Ef. destruct (existsb _ _) eqn:Ee; [|congruence].
  apply existsb_exists in Ee as (k & Hk%list_elem_of_In & Hs%bool_decide_eq_true). cbn in Hs. rewrite Hh in Hs by done. by destruct Hs.
Qed.
End Proofs.

(** ** Witnesses *)

Definition httpKey : list byte := bs "0123456789abcdef0123456789abcdef".
Definition httpServer : Server := NewServer (bs "/secret") httpKey true.
Definition httpIO : HttpIO :=
  mkHttpIO (1700000000 * second) (fun _ _ => (true, None)) (fun _ _ => Ok (mkUpstream [] sink)) sink [RD (replicate 60 Byte.x07) None] true false.

(** A browser's POST over HTTP/1.1 that also carries a private header. *)
Definition probe : Request :=
  mkRequest MethodPost (bs "/secret") (bs "HTTP/1.1") 1 (<[headerMode := [modeTCPv2]]> ∅) [RD (replicate 60 Byte.x41) None] 60.

Lemma http_gate_witness :
  httpServerOk httpServer /\ oc_user (ServeHTTP httpServer httpIO probe) = None /\ oc_dialled (ServeHTTP httpServer httpIO probe) = None.
Proof.
  pose proof (http_gate httpServer httpIO probe (NewServer_ok _ _ _)) as Hg. split; [apply NewServer_ok|].
  assert (oc_user (ServeHTTP httpServer httpIO probe) = None) as Hu by (vm_compute; reflexivity).
  unfold gateOk in Hg. rewrite Hu in Hg. split; [exact Hu|exact (proj1 Hg)].
Defined.

Lemma http_fallback_witness :
  exists seen close, oc_reply (ServeHTTP httpServer httpIO probe) = Fallback seen close /\ rq_header seen !! headerMode = None.
Proof.
  destruct (oc_reply (ServeHTTP httpServer httpIO probe)) as [seen close|] eqn:E; [|vm_compute in E; discriminate E].
  exists seen, close. split; [reflexivity|].
  destruct (http_fallback httpServer httpIO probe seen close E) as (body & (_ & _ & _ & Hp & _) & _). apply Hp.
  unfold privateNames. do 4 right. left.
Defined.
