(* ===== verification/HttpSession.v ===== *)
(** * Sessions over HTTP: the client and [HttpServer.v] together

    [copyLoop] and [copyDataFramesToTCP] against what their source delivers;
    a signed request over HTTP/2 and HTTP/3 and the first flight of HTTP/1.1
    from the client's side to the tunnel and through it. *)
From S2P Require Import Prelude GoIO GoNet Crypto Address Frame FrameStream RawHandshake Records H1Session Encoding Auth StreamServer HttpServer.

Open Scope Z_scope.

#[local] Arguments bs : simpl never.

(** ** [io.CopyBuffer]

    A source that still has [d] to give and then ends with [e]; a sink that has
    taken some bytes. *)
Section Copy.
  Context {S W : Type} (rd : S -> Z -> list byte * option error * S) (wr : W -> list byte -> Z * option error * W).
  Context (plen : Z) (gives : S -> list byte -> error -> Prop) (size : S -> nat) (takes : W -> list byte -> Prop).
  Context (rd_law : forall s d e, gives s d e ->
    let '(b, er, s') := rd s plen in
    exists d', d = b ++ d' /\
      match er with None => gives s' d' e /\ (size s' < size s)%nat | Some x => x = EOF -> d' = [] /\ e = EOF end).
  Context (wr_law : forall w t b n e w', takes w t -> wr w b = (n, e, w') ->
    exists b', b' `prefix_of` b /\ takes w' (t ++ b') /\ (e = None -> n = len b -> b' = b)).

(** Whatever fails, the sink has taken a prefix of what the source had to give,
    and a copy without an error took everything up to the source's end. *)
Lemma copyLoop_takes fuel s w d e t err w' :
  gives s d e -> takes w t -> copyLoop rd wr fuel plen s w = (err, w') ->
  exists sent, takes w' (t ++ sent) /\ sent `prefix_of` d /\ (err = None -> sent = d /\ e = EOF).
Proof.
  revert s w d t. induction fuel as [|fuel IH]; intros s w d t Hg Ht Hc; cbn [copyLoop] in Hc.
  { injection Hc as <- <-. exists []. rewrite app_nil_r. split_and!; [done|apply prefix_nil|done]. }
  specialize (rd_law s d e Hg). destruct (rd s plen) as [[b er] s']. destruct rd_law as (d' & -> & Hrest).
  destruct (if 0 <? len b then _ else _) as [ew w1] eqn:Ew in Hc.
  assert (exists b', takes w1 (t ++ b') /\ b' `prefix_of` b /\ (ew = None -> b' = b)) as (b' & Ht1 & Hp & Hall).
  { destruct (Z.ltb_spec 0 (len b)).
    - destruct (wr w b) as [[nw we] w2] eqn:E2. destruct (wr_law w t b nw we w2 Ht E2) as (b' & Hp & Ht2 & Hok).
      injection Ew as <- <-. exists b'. split_and!; [done|done|]. destruct we; [done|].
      destruct (Z.eqb_spec nw (len b)); [|done]. intros _. by apply Hok.
    - injection Ew as <- <-. exists []. rewrite app_nil_r. split_and!; [done|apply prefix_nil|]. intros _. symmetry. apply len_zero. lia. }
  destruct ew as [x|].
  { injection Hc as <- <-. exists b'. split_and!; [done|by apply prefix_app_r|done]. }
  rewrite (Hall eq_refl) in Ht1. destruct er as [x|].
  - exists b. assert (err = None <-> x = EOF) as Hiff by (destruct x; simplify_eq; split; done).
    assert (w' = w1) as -> by (destruct x; congruence).
    split_and!; [done|by apply prefix_app_r|]. intros [-> ->]%Hiff%Hrest. by rewrite app_nil_r.
  - destruct Hrest as [Hg' _]. destruct (IH _ _ _ _ Hg' Ht1 Hc) as (s2 & Ht2 & Hp2 & Ha2). exists (b ++ s2). rewrite app_assoc.
    split_and!; [done|by apply prefix_app|]. by intros [-> ->]%Ha2.
Qed.

(** A source without failures and a sink that takes everything. *)
Lemma copyLoop_all fuel s w d t :
  (forall s d, gives s d EOF -> match snd (fst (rd s plen)) with Some x => x = EOF | None => True end) ->
  (forall w t b, takes w t -> exists w', wr w b = (len b, None, w') /\ takes w' (t ++ b)) ->
  gives s d EOF -> takes w t -> (size s < fuel)%nat ->
  exists w', copyLoop rd wr fuel plen s w = (None, w') /\ takes w' (t ++ d).
Proof.
  intros Hclean Hsink. revert s w d t. induction fuel as [|fuel IH]; intros s w d t Hg Ht Hf; [lia|]. cbn [copyLoop].
  specialize (rd_law s d EOF Hg). specialize (Hclean s d Hg). destruct (rd s plen) as [[b er] s']. cbn [fst snd] in Hclean.
  destruct rd_law as (d' & -> & Hrest).
  assert (exists w1, (if 0 <? len b
      then let '(nw, e, dst) := wr w b in (match e with Some _ => e | None => if nw =? len b then None else Some ErrShortWrite end, dst)
      else (None, w)) = (None, w1) /\ takes w1 (t ++ b)) as (w1 & -> & Ht1).
  { destruct (Z.ltb_spec 0 (len b)).
    - destruct (Hsink w t b Ht) as (w1 & -> & Ht1). exists w1. by rewrite Z.eqb_refl.
    - exists w. assert (b = []) as -> by (apply len_zero; lia). by rewrite app_nil_r. }
  destruct er as [x|].
  - subst x. destruct (Hrest eq_refl) as [-> _]. exists w1. by rewrite app_nil_r.
  - destruct Hrest as [Hg' Hs']. destruct (IH s' w1 d' (t ++ b) Hg' Ht1) as (w' & -> & Ht'); [lia|]. exists w'. by rewrite app_assoc.
Qed.
End Copy.

(** A reader gives what [drain] says. *)
Definition readerGives (r : reader) (d : list byte) (e : error) : Prop :=
  drain r = (d, if bool_decide (e = EOF) then None else Some e).

Definition readerSize (r : reader) : nat := (length r + length (rd_content r))%nat.

Definition writerTakes (w : writer) (t : list byte) : Prop := wr_out w = t.

Lemma readerGives_drain r : exists e, readerGives r (fst (drain r)) e /\ (e = EOF <-> snd (drain r) = None).
Proof.
  unfold readerGives. destruct (drain r) as [d [e|]] eqn:E; [|by exists EOF].
  assert (e <> EOF) as Hne.
  { revert d E. induction r as [|[b [x|]] r IH]; intros d E; cbn in E; [done| |].
    - destruct x; congruence.
    - destruct (drain r) as [d' x]. injection E as _ ->. by eapply IH. }
  exists e. rewrite bool_decide_false by done. cbn. split; [done|]. split; [done|]. done.
Qed.

Lemma readFrom_law plen r d e :
  0 < plen -> readerGives r d e ->
  let '(b, er, r') := readFrom r plen in
  exists d', d = b ++ d' /\
    match er with None => readerGives r' d' e /\ (readerSize r' < readerSize r)%nat | Some x => x = EOF -> d' = [] /\ e = EOF end.
Proof.
  intros Hp. unfold readerGives, readerSize, readFrom. destruct r as [|[c x] r]; cbn [Read].
  { cbn. case_bool_decide; intros [= <-]. exists []. done. }
  destruct (Z.leb_spec (len c) plen) as [Hc|Hc].
  - destruct x as [x|].
    + intros E. exists []. cbn in E. destruct x; injection E as <-; rewrite app_nil_r; split; try done.
      intros _. by case_bool_decide.
    + cbn [drain]. destruct (drain r) as [d' y]. intros [= <- ->]. exists d'. split; [done|]. split; [done|].
      rewrite rd_content_cons, length_app. cbn. lia.
  - rewrite (drain_split plen). destruct (drain (RD (zdrop plen c) x :: r)) as [d' y] eqn:Ed. intros [= <- ->].
    exists d'. split; [done|]. split; [done|].
    rewrite !rd_content_cons, !length_app. cbn [rd_bytes length]. pose proof (len_zdrop plen c). lia.
Qed.

Lemma writeTo_law w t b n e w' :
  writerTakes w t -> writeTo w b = (n, e, w') ->
  exists b', b' `prefix_of` b /\ writerTakes w' (t ++ b') /\ (e = None -> n = len b -> b' = b).
Proof.
  unfold writerTakes, writeTo. intros <- E. apply Write_count in E as [Hn Ho]. exists (ztake n b).
  split_and!; [exists (zdrop n b); by rewrite ztake_zdrop|done|]. intros _ ->. apply ztake_all. lia.
Qed.

(** [copyBuffer] against the source. *)
Lemma copyBuffer_drain r w err w' :
  copyBuffer r w = (err, w') ->
  exists sent, wr_out w' = wr_out w ++ sent /\ sent `prefix_of` fst (drain r) /\
    (err = None -> sent = fst (drain r) /\ snd (drain r) = None).
Proof.
  intros Hc. destruct (readerGives_drain r) as (e & Hg & He). unfold copyBuffer in Hc.
  destruct (copyLoop_takes readFrom writeTo copyBufferSize readerGives readerSize writerTakes
    (fun s d e => readFrom_law copyBufferSize s d e eq_refl) writeTo_law _ r w _ e (wr_out w) err w' Hg eq_refl Hc) as (sent & Ht & Hp & Hall).
  exists sent. split_and!; [done|done|]. intros Hn. destruct (Hall Hn) as [-> ->]. split; [done|]. by apply He.
Qed.

Lemma copyBuffer_all r out :
  rd_clean r -> copyBuffer r (mkWriter out []) = (None, mkWriter (out ++ rd_content r) []).
Proof.
  intros Hr. assert (Hd : forall r, rd_clean r -> drain r = (rd_content r, None)).
  { clear. intros r Hr. induction Hr as [|[b x] r Hx Hr IH]; [done|]. cbn in Hx. subst x. cbn [drain]. rewrite IH. done. }
  unfold copyBuffer.
  destruct (copyLoop_all readFrom writeTo copyBufferSize (fun r d e => rd_clean r /\ readerGives r d e) readerSize (fun w t => w = mkWriter t []))
    with (fuel := copyFuel r) (s := r) (w := mkWriter out []) (d := rd_content r) (t := out) as (w' & -> & ->); try done.
  - intros s d e [Hs Hg]. pose proof (readFrom_law copyBufferSize s d e eq_refl Hg) as Hl.
    destruct (readFrom s copyBufferSize) as [[b er] s'] eqn:Er. destruct Hl as (d' & -> & Hl). exists d'. split; [done|].
    destruct er; [done|]. destruct Hl as [Hg' Hs']. split; [|done]. split; [|done].
    unfold readFrom in Er. destruct s as [|[c x] s]; [done|]. inversion Hs as [|? ? Hx Hs1]; subst. cbn in Hx. subst x. cbn [Read] in Er.
    destruct (len c <=? copyBufferSize); injection Er as <- <-; [done|]. by constructor.
  - intros s d [Hs _]. destruct s as [|[c x] s]; [done|]. inversion Hs as [|? ? Hx Hs1]; subst. cbn in Hx. subst x. cbn [readFrom Read].
    unfold readFrom. cbn [Read]. by destruct (len c <=? copyBufferSize).
  - intros w t b ->. exists (mkWriter (t ++ b) []). unfold writeTo. by rewrite Write_sink.
  - split; [done|]. unfold readerGives. by rewrite Hd.
  - unfold readerSize, copyFuel. lia.
Qed.

(** ** Framed uploads *)

Lemma Read_clean n r b :
  0 < n -> delivers r b -> 
  exists c er r', Read n r = (c, er, r') /\ c `prefix_of` ztake n b /\ delivers r' (zdrop (len c) b) /\
    ((er = None /\ (readerSize r' < readerSize r)%nat) \/ (er = Some EOF /\ b = [] /\ c = [])).
Proof.
  intros Hn [Hc <-]. unfold readerSize. destruct r as [|[c x] r]; cbn [Read].
  { exists [], (Some EOF), []. split_and!; [done|apply prefix_nil|done|]. by right. }
  inversion Hc as [|? ? Hx Hr]; subst. cbn in Hx. subst x. rewrite !rd_content_cons. cbn [rd_bytes].
  destruct (Z.leb_spec (len c) n) as [Hl|Hl].
  - exists c, None, r. split_and!; [done| | |].
    + unfold ztake. rewrite take_app_ge by lia. by eexists.
    + by rewrite zdrop_app.
    + left. split; [done|]. rewrite length_app. cbn. lia.
  - exists (ztake n c), None, (RD (zdrop n c) None :: r). split_and!; [done| | |].
    + unfold ztake. by rewrite take_app_le by lia.
    + rewrite len_ztake by lia. split; [by constructor|]. rewrite rd_content_cons. cbn [rd_bytes]. unfold zdrop. by rewrite drop_app_le by lia.
    + left. split; [done|]. rewrite !rd_content_cons, !length_app. cbn [rd_bytes length]. pose proof (len_zdrop n c). lia.
Qed.

Lemma copyNLoop_spec fuel n r b w e r' w' :
  0 <= n -> delivers r b -> (readerSize r < fuel)%nat -> copyNLoop fuel n r w = (e, r', w') ->
  exists sent, wr_out w' = wr_out w ++ sent /\ sent `prefix_of` ztake n b /\
    (e = None -> sent = ztake n b /\ n <= len b /\ delivers r' (zdrop n b)) /\
    (wr_sched w = [] -> wr_sched w' = [] /\ (n <= len b -> e = None)).
Proof.
  revert n r b w. induction fuel as [|fuel IH]; intros n r b w Hn Hd Hf Hc; [lia|]. cbn [copyNLoop] in Hc.
  destruct (Z.leb_spec n 0).
  { assert (n = 0) as -> by lia. injection Hc as <- <- <-. exists []. rewrite app_nil_r. split_and!; try done; try apply prefix_nil. intros _. split; [done|]. split; [lia|done]. }
  destruct (Read_clean (Z.min n 32768) r b) as (c & er & r1 & Er & Hpre & Hd1 & Hcase); [lia|done|]. rewrite Er in Hc.
  assert (c `prefix_of` ztake n b) as Hcn.
  { etrans; [exact Hpre|]. unfold ztake. rewrite <- (Nat.min_l (Z.to_nat (Z.min n 32768)) (Z.to_nat n)) by lia. rewrite <- take_take. apply prefix_take. }
  assert (exists rest, b = c ++ rest) as [rest ->].
  { destruct Hcn as [k Hk]. exists (k ++ zdrop n b). rewrite app_assoc, <- Hk. by rewrite ztake_zdrop. }
  assert (len c <= n) as Hlc by (apply prefix_length in Hcn; unfold ztake in Hcn; rewrite length_take in Hcn; lia).
  assert (ztake n (c ++ rest) = c ++ ztake (n - len c) rest) as Hsplit.
  { unfold ztake. rewrite take_app_ge by lia. do 2 f_equal. lia. }
  rewrite zdrop_app in Hd1 by done.
  destruct (if 0 <? len c then _ else _) as [[nw ew] w1] eqn:Ew in Hc.
  assert (exists s, wr_out w1 = wr_out w ++ s /\ s `prefix_of` c /\ (ew = None -> s = c) /\ (nw = n -> s = c /\ len c = n) /\
    (wr_sched w = [] -> wr_sched w1 = [] /\ ew = None)) as (s & Hs & Hsp & Hall & Hnw & Hsink).
  { destruct (Z.ltb_spec 0 (len c)).
    - destruct (Write c w) as [[k we] w2] eqn:E2. pose proof E2 as E2'. apply Write_count in E2 as [Hk Ho]. injection Ew as <- <- <-.
      exists (ztake k c). split_and!; [done|exists (zdrop k c); by rewrite ztake_zdrop| | |].
      + destruct we; [done|]. destruct (Z.eqb_spec k (len c)); [|done]. intros _. apply ztake_all. lia.
      + intros ->. assert (len c = n) by lia. split; [apply ztake_all; lia|done].
      + destruct w as [out sched]. cbn. intros ->. rewrite Write_sink in E2'. injection E2' as <- <- <-. by rewrite Z.eqb_refl.
    - injection Ew as <- <- <-. assert (c = []) as -> by (apply len_zero; lia). exists []. rewrite app_nil_r. split_and!; try done; try (intros <-; lia). }
  rewrite Hsplit. destruct ew as [x|].
  { destruct (Z.eqb_spec nw n) as [Hwn|Hwn]; injection Hc as <- <- <-; exists s; split_and!; try done; try (by apply prefix_app_r); try (intros Hsc; by destruct (Hsink Hsc)).
    intros _. destruct (Hnw Hwn) as [-> Hcl]. rewrite Hcl, Z.sub_diag. change (ztake 0 rest) with ([] : list byte). rewrite app_nil_r, len_app. split_and!; [done|lia|].
    by rewrite zdrop_app. }
  rewrite (Hall eq_refl) in *. destruct Hcase as [[-> Hsz]|(-> & Hb & ->)].
  - destruct (IH (n - len c) r1 rest w1) as (s2 & Ho2 & Hp2 & Hok2 & Hsk2); [lia|done|lia|done|].
    exists (c ++ s2). rewrite Ho2, Hs, app_assoc. split_and!; [done|by apply prefix_app| |].
    + intros Hn'. destruct (Hok2 Hn') as (-> & Hle & Hdr). split_and!; [done|rewrite len_app; lia|].
      replace (zdrop n (c ++ rest)) with (zdrop (n - len c) rest); [done|]. unfold zdrop. rewrite drop_app_ge by lia. f_equal. lia.
    + intros Hsc. destruct (Hsink Hsc) as [Hs1 _]. destruct (Hsk2 Hs1) as [? Hok]. split; [done|]. rewrite len_app. intros. apply Hok. lia.
  - rewrite (proj2 (Z.eqb_neq n (len []))) in Hc by (cbn; lia). injection Hc as <- <- <-. exists []. split_and!; try done; try apply prefix_nil.
    intros Hsc. destruct (Hsink Hsc). split; [done|]. rewrite Hb. cbn. lia.
Qed.

Lemma ReadHeader_encoded r t n rest :
  0 <= n <= MaxPayload -> delivers r (encodeHeader t 0 n ++ rest) ->
  exists r', ReadHeader r = (Ok (mkHeader t 0 n), r') /\ delivers r' rest.
Proof.
  intros Hn Hd. destruct (ReadFull_app HeaderSize r (encodeHeader t 0 n) rest) as (r' & Hr & Hd'); [by rewrite len_encodeHeader|done|].
  exists r'. split; [|done]. unfold ReadHeader. rewrite Hr, at_encodeHeader_0, bool_decide_true by done. cbn [negb].
  rewrite parseHeader_encodeHeader by (unfold is_u16, is_u32, MaxPayload in *; lia). cbn [h_Length].
  by rewrite (proj2 (Z.ltb_ge _ _)) by lia.
Qed.

Lemma ReadHeader_short r b : len b < HeaderSize -> delivers r b -> exists e r', ReadHeader r = (Fail e, r').
Proof. intros Hl Hd. unfold ReadHeader. rewrite (ReadFull_short HeaderSize r b Hl Hd). eauto. Qed.

(** What arrives of a framed upload: a prefix of the data, all of it when the
    loop ends without an error. *)
Lemma framesLoop_upload wire p : data_frames wire p -> forall fuel r b w err w',
  b `prefix_of` wire ++ encodeHeader TypeHalfClose 0 0 -> delivers r b -> (length b < fuel)%nat -> framesLoop fuel r w = (err, w') ->
  exists sent, wr_out w' = wr_out w ++ sent /\ sent `prefix_of` p /\
    (err = None -> sent = p /\ b = wire ++ encodeHeader TypeHalfClose 0 0) /\
    (wr_sched w = [] -> b = wire ++ encodeHeader TypeHalfClose 0 0 -> err = None).
Proof.
  intros Hdf. induction Hdf as [|d wire p Hd Hdf IH]; intros fuel r b w err w' Hp Hr Hf Hl; (destruct fuel as [|fuel]; [lia|]); cbn [framesLoop] in Hl.
  - cbn [app] in *. destruct (prefix_of_app b (encodeHeader TypeHalfClose 0 0) []) as [Hs|(b' & -> & Hb')]; [by rewrite app_nil_r| |].
    + destruct (ReadHeader_short r b) as (e & r' & Er); [by rewrite len_encodeHeader in Hs|done|]. rewrite Er in Hl. injection Hl as <- <-.
      exists []. rewrite app_nil_r. split_and!; try done. intros _ ->. lia.
    + apply prefix_nil_inv in Hb' as ->. rewrite app_nil_r in *. rewrite <- (app_nil_r (encodeHeader _ _ _)) in Hr.
      destruct (ReadHeader_encoded r TypeHalfClose 0 []) as (r' & Er & _); [by unfold MaxPayload|done|]. rewrite Er in Hl. cbn in Hl. injection Hl as <- <-.
      exists []. rewrite app_nil_r. done.
  - rewrite <- !app_assoc in Hp. destruct (prefix_of_app _ _ _ Hp) as [Hs|(b' & -> & Hb')].
    { destruct (ReadHeader_short r b) as (e & r' & Er); [by rewrite len_encodeHeader in Hs|done|]. rewrite Er in Hl. injection Hl as <- <-.
      exists []. rewrite app_nil_r. split_and!; try done; [apply prefix_nil|]. intros _ E. rewrite E, <- !app_assoc, len_app in Hs. lia. }
    destruct (ReadHeader_encoded r TypeData (len d) b') as (r1 & Er & Hd1); [lia|done|]. rewrite Er in Hl. cbn [h_Type h_Length] in Hl.
    rewrite bool_decide_true in Hl by done. destruct (CopyN (len d) r1 w) as [[e r2] w1] eqn:Ec. unfold CopyN, copyFuel in Ec.
    destruct (copyNLoop_spec _ (len d) r1 b' w e r2 w1 ltac:(lia) Hd1 (Nat.lt_succ_diag_r _) Ec) as (s & Ho & Hsp & Hok & Hsk).
    destruct (prefix_of_app _ _ _ Hb') as [Hs|(b2 & -> & Hb2)].
    + assert (ztake (len d) b' = b') as Ez by (apply ztake_all; lia). rewrite Ez in Hsp.
      assert (b' `prefix_of` d) as Hbd.
      { destruct Hb' as [k Hk]. symmetry in Hk. destruct (app_eq_inv _ _ _ _ Hk) as [(k' & -> & _)|(k' & -> & _)]; [|by exists k'].
        rewrite len_app in Hs. lia. }
      destruct e as [x|]; [|destruct (Hok eq_refl) as (_ & Hle & _); lia]. injection Hl as <- <-.
      exists s. split_and!; [done|apply prefix_app_r; by etrans|done|]. intros _ E. rewrite <- !app_assoc in E. apply app_inv_head in E. rewrite E, len_app in Hs. lia.
    + rewrite ztake_app in Hsp, Hok by done. rewrite zdrop_app in Hok by done.
      destruct e as [x|].
      { injection Hl as <- <-. exists s. split_and!; [done|by apply prefix_app_r|done|]. intros Hsc _. destruct (Hsk Hsc) as [_ Hn]. rewrite Hn; [done|]. rewrite len_app. lia. }
      destruct (Hok eq_refl) as (-> & _ & Hd2). 
      assert (length b2 < fuel)%nat as Hf2 by (rewrite !length_app in Hf; lia).
      destruct (IH fuel r2 b2 w1 err w' Hb2 Hd2 Hf2 Hl) as (s2 & Ho2 & Hp2 & Hn2 & Hk2). exists (d ++ s2). rewrite Ho2, Ho, app_assoc.
      split_and!; [done|by apply prefix_app| |].
      * intros Hn. destruct (Hn2 Hn) as [-> ->]. by rewrite <- !app_assoc.
      * intros Hsc E. rewrite <- !app_assoc in E. do 2 apply app_inv_head in E. apply Hk2; [by destruct (Hsk Hsc)|done].
Qed.

Section Session.
  Context `{Crypto}.

(** ** HTTP/1.1 *)

(** A record reader gives what is pending in it. *)
Definition recordsGive (L : RecordLayer) (r : Reader) (d : list byte) (e : error) : Prop :=
  reader_wf r /\ exists w, carries (rr_r r) w /\ Records.pending L r w = (d, e).

Definition recordsSize (r : Reader) : nat := backlog r (rd_content (rr_r r)).

Lemma Reader_Read_law L plen r d e :
  0 < plen -> recordsGive L r d e ->
  let '(b, er, r') := Reader_Read L r plen in
  exists d', d = b ++ d' /\
    match er with None => recordsGive L r' d' e /\ (recordsSize r' < recordsSize r)%nat | Some x => x = EOF -> d' = [] /\ e = EOF end.
Proof.
  intros Hp (Hwf & w & Hc & Hpend).
  assert (rr_terminal r <> None /\ rr_dec r = [] \/ Records.read_step L r w (Reader_Read L r plen)) as [[Ht Hd]|Hs].
  { destruct (decide (rr_dec r = [])) as [Hd|Hd]; [|right; by apply Reader_Read_buffered].
    destruct (rr_terminal r) eqn:Ht; [by left|]. right. by apply Reader_Read_step. }
  - destruct (rr_terminal r) as [x|] eqn:Et; [|done]. unfold Records.pending in Hpend. rewrite Et, Hd in Hpend. injection Hpend as <- <-.
    unfold Reader_Read. rewrite (proj2 (Z.eqb_neq plen 0)) by lia. rewrite Hd, Et. cbn [length].
    rewrite (proj2 (Z.ltb_ge 0 (Z.of_nat 0))) by lia. exists []. done.
  - unfold recordsSize. destruct Hc as [Hl <-]. destruct (Reader_Read L r plen) as [[b er] r']. destruct Hs as (Hwf' & w' & [Hl' <-] & Hs).
    rewrite Hpend in Hs. destruct er as [x|]; [destruct (is_timeout x) eqn:Hx|]; cbn [negb] in Hs.
    + destruct (Records.pending L r' _) as [d' y]. destruct Hs as [[= -> ->] _]. exists d'. split; [done|]. by intros ->.
    + destruct Hs as (y & [= <-] & [= -> ->]). exists []. by rewrite app_nil_r.
    + destruct (Records.pending L r' _) as [d' y] eqn:Ep. destruct Hs as [[= -> ->] Hlt]. exists d'. split; [done|]. split; [|done].
      split; [done|]. by exists (rd_content (rr_r r')).
Qed.

(** The operations of a user who writes [ps]. *)
Definition writes (k : list byte) (dir : Direction) (ps : list (list byte)) : list (op (rw_input (h1Writer k dir))) := OpWrite <$> ps.

(** A framed writer has been handed bytes. *)
Definition handed (k : list byte) (dir : Direction) (fw0 fw : FramedWriter) (t : list byte) : Prop :=
  exists ps, fw = runOps (h1Writer k dir) fw0 (writes k dir ps) /\ concat ps = t.

Lemma handed_law k dir fw0 fw t b n e fw' :
  handed k dir fw0 fw t -> FramedWriter_Write fw b = (n, e, fw') ->
  exists b', b' `prefix_of` b /\ handed k dir fw0 fw' (t ++ b') /\ (e = None -> n = len b -> b' = b).
Proof.
  intros (ps & -> & <-) E. exists b. split_and!; [done| |done]. exists (ps ++ [b]). split.
  - assert (fw' = snd (FramedWriter_Write (runOps (h1Writer k dir) fw0 (writes k dir ps)) b)) as -> by (by rewrite E).
    unfold runOps, writes. by rewrite fmap_app, fold_left_app.
  - rewrite concat_app. cbn. by rewrite app_nil_r.
Qed.

Lemma written_writes k dir ps :
  written (h1Writer k dir) (writes k dir ps) = (concat ps, false) /\
  written (h1Writer k dir) ((writes k dir ps) ++ [OpEOF]) = (concat ps, true).
Proof.
  unfold written.
  assert (forall d, fold_left (writtenOp (h1Writer k dir)) (writes k dir ps) (d, false) = (d ++ concat ps, false)) as Hw.
  { unfold writes. induction ps as [|p ps IH]; intros d; cbn [fmap list_fmap fold_left]; [by rewrite app_nil_r|].
    cbn [writtenOp snd fst]. rewrite IH. cbn. by rewrite app_assoc. }
  split; [exact (Hw [])|]. rewrite fold_left_app.
  transitivity (writtenOp (h1Writer k dir) ([] ++ concat ps, false) OpEOF); [|done]. by rewrite <- Hw.
Qed.

(** What the client reads of a download, however the carrier fails and wherever
    what it took is cut. *)
Lemma h1_download_safe k dir L up w t cut rdr :
  wr_out w = [] -> len (fst (drain (up_in up))) < 2 ^ 64 - 1 ->
  t = H1Tunnel L rdr (NewFramedWriter w (NewAEADStream k dir)) up ->
  cut `prefix_of` wr_out (snd (download t)) ->
  exists got e, parse_records (h1Layer k dir) 0 cut = (got, e) /\ got `prefix_of` fst (drain (up_in up)) /\
    (e = EOF \/ e = ErrUnexpectedEOF) /\ (e = EOF -> got = fst (drain (up_in up)) /\ snd (drain (up_in up)) = None).
Proof.
  intros Hw Hn -> Hcut. cbn [download] in Hcut. set (fw0 := NewFramedWriter w (NewAEADStream k dir)) in *.
  destruct (copyLoop _ _ _ _ (up_in up) fw0) as [err fw] eqn:Ec.
  destruct (readerGives_drain (up_in up)) as (e & Hg & He).
  destruct (copyLoop_takes readFrom FramedWriter_Write copyBufferSize readerGives readerSize (handed k dir fw0)
    (fun s d e => readFrom_law copyBufferSize s d e eq_refl) (handed_law k dir fw0) (copyFuel (up_in up)) (up_in up) fw0 _ e [] err fw Hg) as (sent & (ps & -> & Eps) & Hp & Hall);
    [by exists []|done|]. cbn [app] in Eps. subst sent.
  assert (rw_open (h1Writer k dir) fw0 []) as Hopen by (split; try done; constructor).
  destruct (written_writes k dir ps) as [W1 W2]. pose proof (prefix_length _ _ Hp) as Hlp.
  destruct err as [x|].
  - destruct (writer_safety (h1Writer k dir) fw0 (writes k dir ps) cut Hopen) as (got & y & Hparse & Hgot & Hy & Hend);
      [rewrite W1; cbn [fst]; lia|exact Hcut|]. rewrite W1 in Hgot, Hend. exists got, y. split_and!; [done|by etrans|done|].
    intros Ey. by destruct (Hend Ey).
  - destruct (WriteEOF _) as [x fw'] eqn:Ew in Hcut. cbn [snd] in Hcut.
    destruct (writer_safety (h1Writer k dir) fw0 ((writes k dir ps) ++ [OpEOF]) cut Hopen) as (got & y & Hparse & Hgot & Hy & Hend);
      [rewrite W2; cbn [fst]; lia| |].
    { unfold runOps. rewrite fold_left_app. change (cut `prefix_of` wr_out (fw_w (snd (WriteEOF (runOps (h1Writer k dir) fw0 (writes k dir ps)))))).
      rewrite Ew. exact Hcut. }
    rewrite W2 in Hgot, Hend. exists got, y. split_and!; [done|by etrans|done|].
    intros Ey. destruct (Hend Ey) as [_ ->]. destruct (Hall eq_refl) as [Hps ->]. split; [done|by apply He].
Qed.

(** The server's side of the first flight. *)
Lemma flightH1_inv psk target now rnd hello chunk nonce host port :
  flightH1 psk target now rnd = Ok (hello, chunk, nonce) ->
  splitTarget 1 (Errorf "h1session: invalid target address") (Errorf "h1session: invalid port") target = Ok (host, port) -> 2 <= len host ->
  exists ts rnd' k c frame, CreateClientHello psk (now / second) rnd = Ok (hello, nonce, ts, rnd') /\ Derive0RTTKey psk ts nonce = Ok k /\
    chunk = be 2 (len c) ++ c /\ 0 < len c <= MaxChunkWireLen /\
    Decrypt0RTTChunk k c = Ok frame /\ DecodeOpenFrame frame = Ok (canonicalAddress host port, []).
Proof.
  unfold flightH1. intros E Es Hl. destruct (CreateClientHello psk (now / second) rnd) as [[[[h n] ts] rnd']|] eqn:Ec; [|done].
  destruct (Derive0RTTKey psk ts n) as [k|] eqn:Ek; [|done]. destruct (EncodeOpenFrame target []) as [frame|] eqn:Ef; [|done].
  destruct (Encrypt0RTTChunk k frame) as [ch|] eqn:Ee; [|done]. assert (h = hello /\ ch = chunk /\ n = nonce) as (-> & -> & ->) by (split_and!; congruence).
  exists ts, rnd', k, (seal ChaCha20Poly1305 k nonce0RTT frame []), frame. split; [done|]. split; [done|].
  unfold Encrypt0RTTChunk in Ee. destruct (Z.ltb_spec MaxChunkPayloadLen (len frame)); [done|].
  assert (len (seal ChaCha20Poly1305 k nonce0RTT frame []) = len frame + 16) as Hsl by apply seal_length.
  assert (chunk = be 2 (u16 (len frame + Overhead)) ++ seal ChaCha20Poly1305 k nonce0RTT frame []) as -> by congruence.
  unfold Decrypt0RTTChunk, MaxChunkWireLen, Overhead in *. rewrite Hsl.
  split; [by rewrite be_u16|]. split; [lia|]. rewrite (proj2 (Z.ltb_ge _ _)), open_seal by lia. split; [done|].
  unfold EncodeOpenFrame in Ef. rewrite Es in Ef. destruct (appendHost _ host) as [hb|] eqn:Eh; [|done].
  assert (frame = CmdConnectTCP :: hb ++ be 2 port ++ []) as -> by congruence.
  apply splitTarget_ok in Es as [Hp _]. apply decode_open; [by eapply appendHost_encoded|lia|left; cbn; lia].
Qed.

Lemma readOpenH1_sealed k c frame target payload r rest :
  delivers r (be 2 (len c) ++ c ++ rest) -> 0 < len c <= MaxChunkWireLen -> Decrypt0RTTChunk k c = Ok frame ->
  DecodeOpenFrame frame = Ok (target, payload) -> exists r', readOpenH1 k r = (Ok (target, payload), r') /\ delivers r' rest.
Proof.
  intros Hd Hc Hdec Hopen. unfold readOpenH1.
  destruct (ReadFull_app 2 r (be 2 (len c)) (c ++ rest)) as (r1 & -> & Hd1); [by rewrite len_be|done|].
  rewrite be_val_be2 by (unfold is_u16, MaxChunkWireLen, MaxChunkPayloadLen in *; lia).
  rewrite (proj2 (Z.eqb_neq _ _)), (proj2 (Z.ltb_ge _ _)) by lia. cbn [orb].
  destruct (ReadFull_app (len c) r1 c rest eq_refl Hd1) as (r2 & -> & Hd2). exists r2. by rewrite Hdec, Hopen.
Qed.

(** The server's match of a hello its client created. *)
Lemma matchHello_created s io i u now rnd hello nonce ts rnd' :
  httpServerOk s -> sv_users s !! i = Some u -> CreateClientHello (PSK u) (now / second) rnd = Ok (hello, nonce, ts, rnd') ->
  - 90 <= h_now io / second - now / second <= 90 ->
  (forall j v, (j < i)%nat -> sv_users s !! j = Some v -> accepts (PSK v) hello = false) ->
  matchHello s io hello = Ok (u, nonce, ts).
Proof.
  intros [Hone Hlist] Hu Ec Hnow Hfirst. unfold matchHello.
  assert (32 <= len (PSK u)) as Hk by (unfold CreateClientHello in Ec; destruct (Z.ltb_spec (len (PSK u)) 32); [done|lia]).
  destruct ((0 <? len (sv_psk s)) && (len (sv_users s) <=? 1)) eqn:E.
  - apply andb_true_iff in E as [_ Hl%Z.leb_le]. destruct (sv_users s) as [|v [|]] eqn:Eu; [done| |cbn in Hl; lia].
    destruct i; [|done]. injection Hu as ->. rewrite (Hone u eq_refl). unfold VerifyClientHello. rewrite (proj2 (Z.ltb_ge _ _)) by lia.
    rewrite (match_created [PSK u] 0 (PSK u) (now / second) (h_now io / second) rnd hello nonce ts rnd'); try done. intros j k Hj. lia.
  - rewrite Hlist, (match_created (PSK <$> sv_users s) i (PSK u) (now / second) (h_now io / second) rnd hello nonce ts rnd'); try done.
    + by rewrite Hu.
    + by rewrite list_lookup_fmap, Hu.
    + intros j k Hj Hjk. rewrite list_lookup_fmap in Hjk. destruct (sv_users s !! j) as [v|] eqn:Ev; [|done]. injection Hjk as <-. by apply (Hfirst j).
Qed.

(** ** Properties *)

(** C13: A client is served over HTTP/2 and HTTP/3: a request it signed for a target
    within 90 seconds of the server's clock, by a key no earlier user's signature
    coincides with, and whose nonce the replay cache admits, makes the server
    dial exactly that target for that user and tunnel the request's body. *)
Theorem http_session ToLower path users replays s i u rq rq' target unix rnd io up :
  NewServerWithUsers ToLower path users replays = Ok s -> sv_users s !! i = Some u -> rq_path rq = path ->
  (rq_method rq = MethodPost /\ rq_major rq = 2) \/ (rq_method rq = MethodGet /\ rq_major rq = 3 /\ h_streamer io = true) ->
  signRequest rq (PSK u) path target modeTCPv2 unix rnd = Ok rq' -> 0 <= unix < 2 ^ 63 ->
  h_now io - MaxClockSkew <= unix * second <= h_now io + MaxClockSkew ->
  (forall j v, (j < i)%nat -> sv_users s !! j = Some v ->
     Signature (PSK u) (requestFields rq' target (Itoa unix) (Get (rq_header rq') headerNonce)) <>
     Signature (PSK v) (requestFields rq' target (Itoa unix) (Get (rq_header rq') headerNonce))) ->
  (sv_replays s = true -> h_accept io (Get (rq_header rq') headerNonce) (h_now io) = (true, None)) ->
  h_dial io u target = Ok up ->
  oc_user (ServeHTTP s io rq') = Some u /\ oc_dialled (ServeHTTP s io rq') = Some (u, target) /\
  oc_tunnel (ServeHTTP s io rq') = Some (TCPTunnel (rq_major rq =? 3) (bool_decide (Get (rq_header rq) headerFraming = bs "1")) (rq_body rq) up (h_out io)).
Proof.
  intros En Hu Hpath Hver Es Hunix Hskew Hfirst Hadm Hdial.
  apply NewServerWithUsers_ok in En as (Hs & _ & Hsp & _). rewrite <- Hpath in Es.
  assert (Hmode : modeTCPv2 <> []) by (by vm_compute).
  assert (Hsig : forall v, signedBy io rq' target v <-> _) by (intros v; apply (signed_verifies io rq (PSK u) target modeTCPv2 unix rnd rq' v Es Hmode Hunix Hskew)).
  destruct (authorize_first s io rq' target i u Hs Hu) as [adm Ha].
  { by apply Hsig. }
  { intros j v Hj Hv Hsv%Hsig. exact (Hfirst j v Hj Hv Hsv). }
  { exact Hadm. }
  apply signRequest_inv in Es as (nonce & _ & Em & Ep & _ & Ema & Eb & Hm & Ht & _ & _ & _ & Hfr).
  assert (Eserve : ServeHTTP s io rq' = serveTCP io rq' (rq_major rq =? 3) u adm target).
  { unfold ServeHTTP, serveHTTP3. rewrite Em, Ema, Ep, Hpath, Hsp, Ht, Hm, Ha.
    destruct Hver as [[-> ->]|(-> & -> & ->)].
    - rewrite (bool_decide_false (MethodPost = MethodHead)) by (by vm_compute).
      by rewrite (bool_decide_true (MethodPost = MethodPost)), (bool_decide_true (path = path)) by done.
    - rewrite (bool_decide_false (MethodGet = MethodHead)) by (by vm_compute).
      by rewrite (bool_decide_true (MethodGet = MethodGet)), (bool_decide_true (path = path)) by done. }
  rewrite Eserve. unfold serveTCP. rewrite Hdial. cbn [oc_user oc_dialled oc_tunnel]. rewrite Eb. split_and!; try done.
  unfold useFraming. rewrite Hfr, Hm. rewrite (bool_decide_false (modeTCPv2 = _)) by (by vm_compute). by rewrite orb_false_r.
Qed.

(** A tunnel over HTTP/2 and HTTP/3 loses and invents nothing: an unframed copy
    gives the other side a prefix of what its source delivers, and ends without
    an error only after all of it; the framed upload of HTTP/3 gives the target a
    prefix of what the client wrote wherever the stream is cut, and half-closes
    it only after the whole of it (an unframed one too, while HTTP/2 half-closes the
    target's connection in any case); what the framed download puts on the wire
    means the target's bytes, with a clean end exactly when the target ended. *)
Theorem http_relay h3 body up out :
  (forall w' err e, upload (TCPTunnel h3 false body up out) = (err, w', e) ->
     (e = HalfClosed <-> (h3 = true -> err = None)) /\
     exists sent, wr_out w' = wr_out (up_out up) ++ sent /\ sent `prefix_of` fst (drain body) /\
       (err = None -> sent = fst (drain body) /\ snd (drain body) = None)) /\
  (forall w' err, download (TCPTunnel h3 false body up out) = (err, w') ->
     exists sent, wr_out w' = wr_out out ++ sent /\ sent `prefix_of` fst (drain (up_in up)) /\
       (err = None -> sent = fst (drain (up_in up)) /\ snd (drain (up_in up)) = None)) /\
  (forall ps cut w' err e, cut `prefix_of` FrameStream.sent ps -> delivers body cut -> upload (TCPTunnel true true body up out) = (err, w', e) ->
     (e = HalfClosed <-> err = None) /\
     exists sent, wr_out w' = wr_out (up_out up) ++ sent /\ sent `prefix_of` concat ps /\
       (err = None -> sent = concat ps /\ cut = FrameStream.sent ps) /\
       (wr_sched (up_out up) = [] -> cut = FrameStream.sent ps -> err = None)) /\
  (let '(err, w) := download (TCPTunnel h3 true body up sink) in
   err = snd (drain (up_in up)) /\
   parse_stream (wr_out w) = (fst (drain (up_in up)), match snd (drain (up_in up)) with None => EOF | Some _ => errReset end)).
Proof.
  split_and!.
  - intros w' err e. unfold upload. replace (copyUp (TCPTunnel h3 false body up out)) with (copyBuffer body (up_out up)) by (by destruct h3).
    destruct (copyBuffer body (up_out up)) as [err1 w1] eqn:Ec. intros [= <- <- <-]. split; [|by apply copyBuffer_drain].
    destruct h3, err1; cbn; naive_solver.
  - intros w' err. apply copyBuffer_drain.
  - intros ps cut w' err e Hcut Hd Hu. unfold upload in Hu. destruct (copyUp _) as [err1 w1] eqn:Hc. injection Hu as <- <- <-.
    split; [destruct err1; cbn; naive_solver|]. cbn [copyUp] in Hc. destruct (sent_frames ps) as (wire & Hw & Es). rewrite Es in Hcut |- *.
    apply (framesLoop_upload wire (concat ps) Hw (copyFuel body) body cut (up_out up) err1 w1 Hcut Hd); [|exact Hc].
    destruct Hd as [_ <-]. unfold copyFuel. lia.
  - cbn [download]. pose proof (copy_and_close_meaning (up_in up)) as Hm.
    destruct (CopyAsDataFramesAndClose sink (up_in up)) as [[err w] r']. exact Hm.
Qed.

(** C14: Client and server of the HTTP/1.1 carrier agree end to end.  Let the first
    flight of a client for a host of at least two characters arrive, in any
    fragmentation, with clocks at most 90 seconds apart, while no earlier user's
    key accepts its hello, the replay cache admits its nonce, the server can make
    its hello and the target can be dialled.  Then the server dials exactly the
    client's target (in canonical form) for that user; the client accepts the
    answer and both ends hold the same two keys; no byte after the flight is lost.
    The target gets a prefix of what the client writes, all of it, with the
    client's end, where the upload ends without an error; its connection is
    half-closed after the copy in either case.  The client reads a prefix of what
    the target sends and a clean end only after the target ended and all of it
    arrived. *)
Theorem h1_session ToLower path users replays s i u rq target host port now rnd hello chunk nonce io later answer ck sk rnd' up :
  NewServerWithUsers ToLower path users replays = Ok s -> sv_users s !! i = Some u ->
  rq_path rq = path -> rq_method rq = MethodPost -> rq_major rq = 1 ->
  flightH1 (PSK u) target now rnd = Ok (hello, chunk, nonce) ->
  splitTarget 1 (Errorf "h1session: invalid target address") (Errorf "h1session: invalid port") target = Ok (host, port) -> 2 <= len host ->
  - 90 <= h_now io / second - now / second <= 90 ->
  (forall j v, (j < i)%nat -> sv_users s !! j = Some v -> accepts (PSK v) hello = false) ->
  delivers (rq_body rq) (hello ++ chunk ++ later) -> h_out io = sink ->
  (sv_replays s = true -> h_accept io (hexencode nonce) (h_now io) = (true, None)) ->
  CreateServerHello (PSK u) nonce (h_rnd io) = Ok (answer, ck, sk, rnd') ->
  h_dial io u (canonicalAddress host port) = Ok up ->
  VerifyServerHello (PSK u) nonce answer = Ok (ck, sk) /\
  exists rs t,
    oc_reply (ServeHTTP s io rq) = Status 200 h1Fields answer /\
    oc_dialled (ServeHTTP s io rq) = Some (u, canonicalAddress host port) /\
    oc_tunnel (ServeHTTP s io rq) = Some t /\ delivers rs later /\
    t = H1Tunnel (h1Layer ck DirClientToServer) (NewReader rs) (NewFramedWriter sink (NewAEADStream sk DirServerToClient)) up /\
    (forall w ops, wr_out w = [] -> len (fst (written (h1Writer ck DirClientToServer) ops)) < 2 ^ 64 - 1 ->
       later `prefix_of` wr_out (fw_w (runOps (h1Writer ck DirClientToServer) (NewFramedWriter w (NewAEADStream ck DirClientToServer)) ops)) ->
       exists sent err w', upload t = (err, w', HalfClosed) /\
         wr_out w' = wr_out (up_out up) ++ sent /\ sent `prefix_of` fst (written (h1Writer ck DirClientToServer) ops) /\
         (err = None ->
          snd (written (h1Writer ck DirClientToServer) ops) = true /\ sent = fst (written (h1Writer ck DirClientToServer) ops))) /\
    (forall cut r plen, len (fst (drain (up_in up))) < 2 ^ 64 - 1 -> cut `prefix_of` wr_out (snd (download t)) -> carries r cut -> 0 < plen ->
       exists got e, readAll (h1Layer sk DirServerToClient) (readFuel r) (NewReader r) plen = (got, Some e) /\
         got `prefix_of` fst (drain (up_in up)) /\ (e = EOF \/ e = ErrUnexpectedEOF) /\
         (e = EOF -> got = fst (drain (up_in up)) /\ snd (drain (up_in up)) = None)).
Proof.
  intros En Hu Hpath Hmethod Hmajor Ef Es Hl Hnow Hfirst Hd Hout Hacc Ea Hdial.
  apply NewServerWithUsers_ok in En as (Hs & _ & Hsp & _).
  split; [by eapply h1_verify_server_created|].
  destruct (flightH1_inv _ _ _ _ _ _ _ _ _ Ef Es Hl) as (ts & rnd1 & k & c & frame & Ec & Ek & -> & Hc & Hdec & Hopen).
  assert (len hello = ClientHelloSize) as Hlh by (by apply create_hello_inv in Ec as (Hlh & _)).
  destruct (ReadFull_app ClientHelloSize (rq_body rq) hello _ (eq_sym Hlh) Hd) as (r1 & Er & Hd1). rewrite <- app_assoc in Hd1.
  destruct (readOpenH1_sealed k c frame _ [] r1 later Hd1 Hc Hdec Hopen) as (rs & Eo & Hd2).
  set (t := H1Tunnel (h1Layer ck DirClientToServer) (NewReader rs) (NewFramedWriter sink (NewAEADStream sk DirServerToClient)) up).
  exists rs, t.
  assert (exists adm, ServeHTTP s io rq = mkOut (Status 200 h1Fields answer) (Some u) adm (Some (u, canonicalAddress host port)) (Some t)) as [adm ->].
  { assert (exists adm, admit_ s io (hexencode nonce) = (true, adm)) as [adm Hadm].
    { unfold admit_. destruct (sv_replays s); [|eauto]. rewrite (Hacc eq_refl). cbn. eauto. }
    exists adm. unfold ServeHTTP. rewrite Hmethod, Hpath, Hsp, Hmajor. rewrite (bool_decide_false (MethodPost = MethodHead)) by (by vm_compute).
    rewrite (bool_decide_true (MethodPost = MethodPost)), (bool_decide_true (path = path)) by done. cbn [andb Z.eqb Pos.eqb].
    unfold servePlainH1. rewrite Er, (matchHello_created s io i u now rnd hello nonce ts rnd1 Hs Hu Ec Hnow Hfirst), Hadm. cbn [negb].
    rewrite Ek, Ea, Hout. unfold sink. rewrite Write_sink. unfold openH1. rewrite Eo, Hdial. cbn [length]. unfold t. by destruct up. }
  cbn [oc_reply oc_dialled oc_tunnel]. split_and!; try done.
  - intros w ops Hw Hn Hpre. destruct Hd2 as [Hcl Hct].
    destruct (writer_safety (h1Writer ck DirClientToServer) (NewFramedWriter w (NewAEADStream ck DirClientToServer)) ops later) as (got & e & Hparse & Hgot & _ & Heof);
      [split; try done; constructor|done|done|].
    unfold upload, t. cbn [copyUp uploadEnd]. destruct (copyLoop _ _ _ _ (NewReader rs) (up_out up)) as [err w'] eqn:Eu.
    assert (recordsGive (h1Layer ck DirClientToServer) (NewReader rs) got e) as Hg.
    { split; [by split|]. exists later. split; [by apply delivers_carries|]. unfold Records.pending. cbn. by rewrite Hparse. }
    destruct (copyLoop_takes (Reader_Read (h1Layer ck DirClientToServer)) writeTo copyBufferSize (recordsGive (h1Layer ck DirClientToServer)) recordsSize writerTakes
      (fun s d e => Reader_Read_law _ copyBufferSize s d e eq_refl) writeTo_law _ _ _ got e (wr_out (up_out up)) err w' Hg eq_refl Eu) as (sent & Ht & Hp & Hall).
    exists sent, err, w'. split_and!; [done|done|by etrans|]. intros Hn0. destruct (Hall Hn0) as [-> ->]. by apply Heof.
  - intros cut r plen Hn Hcut [Hr Hct] Hp.
    destruct (h1_download_safe sk DirServerToClient _ up sink t cut _ eq_refl Hn eq_refl Hcut) as (got & e & Hparse & Hres).
    exists got, e. split; [|done]. by rewrite reader_reference, Hct, Hparse.
Qed.
End Session.

(** ** Witnesses *)

Definition httpUsers : list UserKey := [mkUser (bs "a@x") key1 0; mkUser (bs "b@x") key2 1].
Definition httpUser : UserKey := mkUser (bs "b@x") key2 1.
Definition httpServer2 : Server := Eval vm_compute in
  okOr (NewServer [] [] false) (NewServerWithUsers (fun e => e) (bs "/p") httpUsers true).

Lemma httpServer2_ok : NewServerWithUsers (fun e => e) (bs "/p") httpUsers true = Ok httpServer2.
Proof. vm_compute. reflexivity. Qed.

Lemma httpServer2_first j v : (j < 1)%nat -> sv_users httpServer2 !! j = Some v -> PSK v = key1.
Proof. intros Hj. assert (j = 0)%nat as -> by lia. by intros [= <-]. Qed.

Definition plainRequest (method : gostring) (major : Z) (body : reader) : Request := mkRequest method (bs "/p") [] major ∅ body 0.
Definition demoTarget : gostring := bs "example.com:443".
Definition signedRequest : Request := Eval vm_compute in
  okOr (plainRequest [] 0 []) (signRequest (plainRequest MethodPost 2 []) key2 (bs "/p") demoTarget modeTCPv2 1699999950 demoRandom).

Lemma signedRequest_ok :
  signRequest (plainRequest MethodPost 2 []) key2 (bs "/p") demoTarget modeTCPv2 1699999950 demoRandom = Ok signedRequest /\
  bool_decide (Signature key2 (requestFields signedRequest demoTarget (Itoa 1699999950) (Get (rq_header signedRequest) headerNonce)) =
    Signature key1 (requestFields signedRequest demoTarget (Itoa 1699999950) (Get (rq_header signedRequest) headerNonce))) = false.
Proof. split; vm_compute; reflexivity. Qed.

Lemma http_session_witness : oc_dialled (ServeHTTP httpServer2 httpIO signedRequest) = Some (httpUser, demoTarget).
Proof.
  destruct signedRequest_ok as [E1 E2].
  apply (http_session (fun e => e) (bs "/p") httpUsers true httpServer2 1 httpUser (plainRequest MethodPost 2 []) signedRequest demoTarget
    1699999950 demoRandom httpIO (mkUpstream [] sink) httpServer2_ok).
  - reflexivity.
  - reflexivity.
  - left. split; reflexivity.
  - exact E1.
  - vm_compute. split; [discriminate|reflexivity].
  - vm_compute. split; discriminate.
  - intros j v Hj Hv. rewrite (httpServer2_first j v Hj Hv). exact (proj1 (bool_decide_eq_false _) E2).
  - intros _. reflexivity.
  - reflexivity.
Defined.

Definition h1Time : Z := 1699999950 * second.
Definition demoFlightH1 : list byte * list byte * list byte := Eval vm_compute in
  okOr ([], [], []) (flightH1 key2 demoTarget h1Time demoRandom).
Definition demoAnswerH1 : list byte * list byte * list byte * reader := Eval vm_compute in
  okOr ([], [], [], []) (CreateServerHello key2 demoFlightH1.2 (h_rnd httpIO)).
Definition h1Request : Request := plainRequest MethodPost 1 [RD (demoFlightH1.1.1 ++ demoFlightH1.1.2) None].

Lemma h1_exchange :
  flightH1 key2 demoTarget h1Time demoRandom = Ok (demoFlightH1.1.1, demoFlightH1.1.2, demoFlightH1.2) /\
  splitTarget 1 (Errorf "h1session: invalid target address") (Errorf "h1session: invalid port") demoTarget = Ok (bs "example.com", 443) /\
  accepts key1 demoFlightH1.1.1 = false /\
  CreateServerHello key2 demoFlightH1.2 (h_rnd httpIO) = Ok demoAnswerH1.
Proof. split_and!; vm_compute; reflexivity. Qed.

Lemma h1_session_witness : oc_dialled (ServeHTTP httpServer2 httpIO h1Request) = Some (httpUser, bs "example.com:443").
Proof.
  destruct h1_exchange as (E1 & E2 & E3 & E4).
  destruct (h1_session (fun e => e) (bs "/p") httpUsers true httpServer2 1 httpUser h1Request demoTarget (bs "example.com") 443 h1Time demoRandom
    demoFlightH1.1.1 demoFlightH1.1.2 demoFlightH1.2 httpIO [] demoAnswerH1.1.1.1 demoAnswerH1.1.1.2 demoAnswerH1.1.2 demoAnswerH1.2 (mkUpstream [] sink)
    httpServer2_ok) as (_ & rs & t & _ & Hd & _).
  - reflexivity.
  - reflexivity.
  - reflexivity.
  - reflexivity.
  - exact E1.
  - exact E2.
  - vm_compute. discriminate.
  - vm_compute. split; discriminate.
  - intros j v Hj Hv. rewrite (httpServer2_first j v Hj Hv). exact E3.
  - rewrite app_assoc. apply delivers_one.
  - reflexivity.
  - intros _. reflexivity.
  - exact E4.
  - reflexivity.
  - exact Hd.
Defined.
