(* ===== verification/H1Chunked.v ===== *)
(** * The client's side of HTTP/1.1: [pkg/client/conn_h1.go]

    The bounded line reader, the response headers, the chunked reader and writer
    and the dial, over a [bufio.Reader] of 4096 bytes on a scheduled stream.
    The reference is a parser of the whole stream: it knows neither buffers nor
    deadlines. *)
From S2P Require Import Prelude GoIO GoNet Crypto RawHandshake Records H1Session Encoding Auth StreamServer HttpServer HttpSession.

Open Scope Z_scope.

#[local] Arguments bs : simpl never.

(** ** [bufio.Reader] *)

Definition bufSize : Z := 4096.
Definition lf : byte := Byte.x0a.
Definition cr : byte := Byte.x0d.
Definition ErrBufferFull := Errorf "bufio: buffer full".
Definition ErrNoProgress := Errorf "multiple Read calls return no data or error".

Record Bufio := mkBufio {
  bf_buf : list byte;          (* buffered, unread *)
  bf_err : option error;       (* the error of the last fill, not yet returned *)
  bf_rd : reader;
}.

Definition NewBufio (r : reader) : Bufio := mkBufio [] None r.

(** [fill]: at most [tries] empty reads. *)
Fixpoint fill (tries : nat) (b : Bufio) : Bufio :=
  match tries with
  | O => mkBufio (bf_buf b) (Some ErrNoProgress) (bf_rd b)
  | S tries =>
      let '(c, e, rd) := Read (bufSize - len (bf_buf b)) (bf_rd b) in
      match e with
      | Some err => mkBufio (bf_buf b ++ c) (Some err) rd
      | None => if 0 <? len c then mkBufio (bf_buf b ++ c) None rd else fill tries (mkBufio (bf_buf b) None rd)
      end
  end.

Fixpoint readSliceLoop (fuel : nat) (b : Bufio) : list byte * option error * Bufio :=
  match fuel with
  | O => ([], Some (Errorf "out of fuel"), b)
  | S fuel =>
      match indexByte lf (bf_buf b) with
      | Some i => (take (i + 1) (bf_buf b), None, mkBufio (drop (i + 1) (bf_buf b)) (bf_err b) (bf_rd b))
      | None =>
          match bf_err b with
          | Some err => (bf_buf b, Some err, mkBufio [] None (bf_rd b))
          | None =>
              if bufSize <=? len (bf_buf b) then (bf_buf b, Some ErrBufferFull, mkBufio [] None (bf_rd b))
              else readSliceLoop fuel (fill 100 b)
          end
      end
  end.

(** [ReadSlice]: a turn for every byte that can be buffered and one more. *)
Definition ReadSlice (b : Bufio) : list byte * option error * Bufio :=
  readSliceLoop (Z.to_nat (bufSize - len (bf_buf b)) + 2) b.

(** [Read] into [n > 0] bytes. *)
Definition Bufio_Read (n : Z) (b : Bufio) : list byte * option error * Bufio :=
  let fromBuffer (b : Bufio) := (ztake n (bf_buf b), None, mkBufio (zdrop n (bf_buf b)) (bf_err b) (bf_rd b)) in
  if negb (bool_decide (bf_buf b = [])) then fromBuffer b
  else match bf_err b with
  | Some err => ([], Some err, mkBufio [] None (bf_rd b))
  | None =>
      if bufSize <=? n then
        let '(c, e, rd) := Read n (bf_rd b) in (c, e, mkBufio [] None rd)
      else
        let '(c, e, rd) := Read bufSize (bf_rd b) in
        if len c =? 0 then ([], e, mkBufio [] None rd) else fromBuffer (mkBufio c e rd)
  end.

(** [io.ReadFull] on it. *)
Fixpoint readFullLoop (fuel : nat) (n : Z) (b : Bufio) : list byte * option error * Bufio :=
  if n <=? 0 then ([], None, b)
  else match fuel with
  | O => ([], Some (Errorf "out of fuel"), b)
  | S fuel =>
      let '(c, e, b) := Bufio_Read n b in
      match e with
      | Some err => (c, if n <=? len c then None else Some err, b)
      | None => let '(c', e', b) := readFullLoop fuel (n - len c) b in (c ++ c', e', b)
      end
  end.

Definition Bufio_ReadFull (n : Z) (b : Bufio) : list byte * option error * Bufio :=
  let '(c, e, b') := readFullLoop (S (Z.to_nat n + length (bf_rd b))) n b in
  (c, match e with Some EOF => if 0 <? len c then Some ErrUnexpectedEOF else e | _ => e end, b').

(** ** Lines *)

Definition maxH1HeaderBytes : Z := 16384.
Definition maxH1HeaderLine : Z := 4096.
Definition maxH1HeaderLines : Z := 64.
Definition maxH1ChunkLine : Z := 1024.

Definition errLineLimit := Errorf "H1 line exceeds byte limit".
Definition errCRLF := Errorf "H1 requires CRLF".

(** The text of a line that ends in LF. *)
Definition lineText (line : list byte) : result gostring :=
  if (len line <? 2) || negb (bool_decide (at_ line (length line - 2) = cr)) then Fail errCRLF
  else Ok (take (length line - 2) line).

(** [boundedH1Line.read]: the partial line is its state. *)
Fixpoint lineLoop (fuel : nat) (partial : list byte) (b : Bufio) (limit : Z) : result gostring * list byte * Bufio :=
  match fuel with
  | O => (Fail (Errorf "out of fuel"), partial, b)
  | S fuel =>
      let '(part, err, b) := ReadSlice b in
      if limit - len partial <? len part then (Fail errLineLimit, partial, b)
      else
        let partial := partial ++ part in
        match err with
        | Some e => if bool_decide (e = ErrBufferFull) then lineLoop fuel partial b limit else (Fail e, partial, b)
        | None =>
            match lineText partial with
            | Fail e => (Fail e, partial, b)
            | Ok text => (Ok text, [], b)
            end
        end
  end.

(** Every turn but the last takes a full buffer. *)
Definition readLine (partial : list byte) (b : Bufio) (limit : Z) : result gostring * list byte * Bufio :=
  lineLoop (Z.to_nat (limit / bufSize) + 2) partial b limit.

(** ** Chunk sizes and headers *)

Definition errChunkSize := Errorf "invalid chunk size".

Definition hexNumber (s : gostring) : Z := fold_left (fun acc c => acc * 16 + default 0 (hex_val c)) s 0.

Definition parseH1ChunkSize (line : gostring) : result Z :=
  if (len line =? 0) || (16 <? len line) then Fail errChunkSize
  else if negb (forallb (fun c => bool_decide (is_Some (hex_val c))) line) then Fail errChunkSize
  else if 2 ^ 63 <=? hexNumber line then Fail (Errorf "value out of range")
  else Ok (hexNumber line).

(** [httpguts]: tokens and field values. *)
Definition isToken (b : byte) : bool :=
  is_digit b || ((65 <=? byteZ b) && (byteZ b <=? 90)) || ((97 <=? byteZ b) && (byteZ b <=? 122)) ||
  bool_decide (b ∈ bs "!#$%&'*+-.^_`|~").
Definition ValidHeaderFieldName (v : gostring) : bool := (0 <? len v) && forallb isToken v.
Definition isLWS (b : byte) : bool := bool_decide (b = Byte.x20) || bool_decide (b = Byte.x09).
Definition isCTL (b : byte) : bool := (byteZ b <? 32) || bool_decide (b = Byte.x7f).
Definition ValidHeaderFieldValue (v : gostring) : bool := forallb (fun b => negb (isCTL b && negb (isLWS b))) v.

Definition validH1Header (line : gostring) : bool :=
  let '(name, value, ok) := Cut chColon line in
  ok && ValidHeaderFieldName name && ValidHeaderFieldValue value.

(** [strings.EqualFold(s, t)] for an ASCII [t] in lower case: besides the ASCII
    letters, the Kelvin sign folds to k and the long s to s. *)
Definition lower (b : byte) : byte := if (65 <=? byteZ b) && (byteZ b <=? 90) then byte_of (byteZ b + 32) else b.
Fixpoint EqualFold (s t : gostring) : bool :=
  match s, t with
  | [], [] => true
  | Byte.xe2 :: Byte.x84 :: Byte.xaa :: s, Byte.x6b :: t => EqualFold s t
  | Byte.xc5 :: Byte.xbf :: s, Byte.x73 :: t => EqualFold s t
  | b :: s, c :: t => bool_decide (lower b = c) && EqualFold s t
  | _, _ => false
  end.

(** ** The response *)

Definition errStatus := Errorf "unexpected H1 response status".
Definition errHeaders := Errorf "invalid H1 response headers".
Definition errContentLength := Errorf "unexpected H1 content length".
Definition errEncoding := Errorf "unsupported H1 transfer encoding".
Definition errNotChunked := Errorf "H1 response must use chunked transfer encoding".

(** The first two fields of [strings.SplitN(line, " ", 3)]. *)
Definition statusOK (line : gostring) : bool :=
  let '(version, rest, more) := Cut Byte.x20 line in
  let '(code, _, _) := Cut Byte.x20 rest in
  more && bool_decide (version = bs "HTTP/1.1") && bool_decide (code = bs "200").

(** What one header line does to the flag that the body is chunked. *)
Definition headerLine (line : gostring) (count : Z) (chunked : bool) : result bool :=
  if (maxH1HeaderLines <? count) || negb (validH1Header line) then Fail errHeaders
  else
    let '(name, value, _) := Cut chColon line in
    if EqualFold name (bs "content-length") then Fail errContentLength
    else if EqualFold name (bs "transfer-encoding") then
      if chunked || negb (EqualFold (TrimSpace value) (bs "chunked")) then Fail errEncoding else Ok true
    else Ok chunked.

Fixpoint headersLoop (fuel : nat) (b : Bufio) (used count : Z) (chunked : bool) : option error * Bufio :=
  match fuel with
  | O => (Some (Errorf "out of fuel"), b)
  | S fuel =>
      let '(res, _, b) := readLine [] b (Z.min maxH1HeaderLine (maxH1HeaderBytes - used)) in
      match res with
      | Fail e => (Some e, b)
      | Ok line =>
          if bool_decide (line = []) then (if chunked then None else Some errNotChunked, b)
          else
            match headerLine line (count + 1) chunked with
            | Fail e => (Some e, b)
            | Ok chunked => headersLoop fuel b (used + len line + 2) (count + 1) chunked
            end
      end
  end.

(** At most 64 headers are taken. *)
Definition readH1ResponseHeaders (b : Bufio) : option error * Bufio :=
  let '(res, _, b) := readLine [] b maxH1HeaderLine in
  match res with
  | Fail e => (Some e, b)
  | Ok line => if negb (statusOK line) then (Some errStatus, b) else headersLoop 66 b (len line + 2) 0 false
  end.

(** ** The chunked body *)

(** [chunkedWriter.Write] and [Close]. *)
Definition chunkOf (p : list byte) : list byte := hex_digits 16 (len p) ++ [cr; lf] ++ p ++ [cr; lf].

Definition chunkedWriter_Write (w : writer) (p : list byte) : Z * option error * writer :=
  if len p =? 0 then (0, None, w)
  else
    let '(n, err, w) := Write (chunkOf p) w in
    match err with
    | Some _ => (0, err, w)
    | None => if negb (n =? len (chunkOf p)) then (0, Some ErrShortWrite, w) else (len p, None, w)
    end.

Definition lastChunk : list byte := Byte.x30 :: [cr; lf; cr; lf].
Definition chunkedWriter_Close (w : writer) : option error * writer :=
  let '(_, err, w) := Write lastChunk w in (err, w).

Record chunkedReader := mkChunked {
  ck_r : Bufio;
  ck_left : Z;
  ck_ended : bool;
  ck_line : list byte;
  ck_needCRLF : bool;
  ck_crlf : list byte;               (* the first [crlfRead] bytes of crlf *)
  ck_trailers : bool;
  ck_trailerBytes : Z;
  ck_trailerLines : Z;
  ck_terminal : option error;
}.

Definition newChunkedReader (b : Bufio) : chunkedReader := mkChunked b 0 false [] false [] false 0 0 None.

Definition errTerminator := Errorf "invalid chunk terminator".
Definition errChunkLength := Errorf "invalid chunk length".
Definition errTrailer := Errorf "invalid chunk trailer".

(** [chunkedReader.readError]: the error to return and the one to remember. *)
Definition readErrorH1 (err : error) : error * option error :=
  if is_timeout err then (err, None)
  else let e := match err with EOF => ErrUnexpectedEOF | _ => err end in (e, Some e).

(** The outcome of a [Read] that fails in some state. *)
Definition failRead (b : Bufio) (left : Z) (line : list byte) (needCRLF : bool) (crlf : list byte) (trailers : bool) (tb tl : Z) (err : error)
  : list byte * option error * chunkedReader :=
  let '(e, terminal) := readErrorH1 err in
  ([], Some e, mkChunked b left false line needCRLF crlf trailers tb tl terminal).

Fixpoint trailersLoop (fuel : nat) (b : Bufio) (line : list byte) (tb tl : Z) : list byte * option error * chunkedReader :=
  match fuel with
  | O => failRead b 0 line false [] true tb tl (Errorf "out of fuel")
  | S fuel =>
      let '(res, line, b) := readLine line b (Z.min maxH1HeaderLine (maxH1HeaderBytes - tb)) in
      match res with
      | Fail e => failRead b 0 line false [] true tb tl e
      | Ok text =>
          let tb := tb + len text + 2 in
          if bool_decide (text = []) then ([], Some EOF, mkChunked b 0 true line false [] true tb tl None)
          else if (maxH1HeaderLines <? tl + 1) || negb (validH1Header text) then failRead b 0 line false [] true tb (tl + 1) errTrailer
          else trailersLoop fuel b line tb (tl + 1)
      end
  end.

(** The data of a chunk of which [left > 0] bytes are to come. *)
Definition readData (b : Bufio) (left : Z) (line : list byte) (tb tl plen : Z) : list byte * option error * chunkedReader :=
  let '(c, e, b) := Bufio_Read (Z.min plen left) b in
  let left := left - len c in
  let '(e, terminal) := match e with Some err => let '(e, t) := readErrorH1 err in (Some e, t) | None => (None, None) end in
  (c, e, mkChunked b left false line (left =? 0) [] false tb tl terminal).

(** From the size line on. *)
Definition readChunk (b : Bufio) (left : Z) (line : list byte) (trailers : bool) (tb tl plen : Z)
  : list byte * option error * chunkedReader :=
  if (left =? 0) && negb trailers then
    let '(res, line, b) := readLine line b maxH1ChunkLine in
    match res with
    | Fail e => failRead b 0 line false [] false tb tl e
    | Ok text =>
        match parseH1ChunkSize text with
        | Fail _ => failRead b 0 line false [] false tb tl errChunkLength
        | Ok size =>
            if 65536 <? size then failRead b 0 line false [] false tb tl errChunkLength
            else if size =? 0 then trailersLoop 66 b line tb tl
            else readData b size line tb tl plen
        end
    end
  else if trailers then trailersLoop 66 b line tb tl
  else readData b left line tb tl plen.

Definition chunkedReader_Read (r : chunkedReader) (plen : Z) : list byte * option error * chunkedReader :=
  if plen =? 0 then ([], None, r)
  else match ck_terminal r with
  | Some e => ([], Some e, r)
  | None =>
      if ck_ended r then ([], Some EOF, r)
      else if ck_needCRLF r then
        let '(c, e, b) := Bufio_ReadFull (2 - len (ck_crlf r)) (ck_r r) in
        let crlf := ck_crlf r ++ c in
        match e with
        | Some err => failRead b (ck_left r) (ck_line r) true crlf (ck_trailers r) (ck_trailerBytes r) (ck_trailerLines r) err
        | None =>
            if negb (bool_decide (crlf = [cr; lf])) then
              failRead b (ck_left r) (ck_line r) true crlf (ck_trailers r) (ck_trailerBytes r) (ck_trailerLines r) errTerminator
            else readChunk b (ck_left r) (ck_line r) (ck_trailers r) (ck_trailerBytes r) (ck_trailerLines r) plen
        end
      else readChunk (ck_r r) (ck_left r) (ck_line r) (ck_trailers r) (ck_trailerBytes r) (ck_trailerLines r) plen
  end.

(** A consumer with buffers of [plen] bytes that retries after a deadline. *)
Fixpoint readChunks (fuel : nat) (r : chunkedReader) (plen : Z) : list byte * option error :=
  match fuel with
  | O => ([], None)
  | S fuel =>
      let '(c, e, r) := chunkedReader_Read r plen in
      match e with
      | Some err =>
          if is_timeout err then let '(d, x) := readChunks fuel r plen in (c ++ d, x) else (c, Some err)
      | None => let '(d, x) := readChunks fuel r plen in (c ++ d, x)
      end
  end.

(** ** The dial *)

Section Dial.
  Context `{Crypto}.

(** The request line and headers. *)
Definition requestHead (path server : gostring) : list byte :=
  let line s := s ++ [cr; lf] in
  line (bs "POST " ++ path ++ bs " HTTP/1.1") ++ line (bs "Host: " ++ server) ++
  line (bs "User-Agent: Mozilla/5.0 (Windows NT 10.0; Win64; x64) AppleWebKit/537.36") ++
  line (bs "Content-Type: application/octet-stream") ++ line (bs "Transfer-Encoding: chunked") ++
  line (bs "Connection: keep-alive") ++ [cr; lf].

Definition errHelloLength := Errorf "invalid server hello chunk length".
Definition errHelloTerminator := Errorf "invalid server hello chunk terminator".

(** [io.CopyN(io.Discard, reader, n)]. *)
Definition discardN (n : Z) (b : Bufio) : option error * Bufio :=
  let '(c, e, b) := readFullLoop (S (Z.to_nat n + length (bf_rd b))) n b in (e, b).

(** The answer: the server's hello in the first chunk. *)
Definition readServerHello (psk clientNonce : list byte) (b : Bufio) : result (list byte * list byte) * Bufio :=
  match readH1ResponseHeaders b with
  | (Some e, b) => (Fail e, b)
  | (None, b) =>
      let '(res, _, b) := readLine [] b maxH1ChunkLine in
      match (let? line := res in parseH1ChunkSize line) with
      | Fail e => (Fail e, b)
      | Ok chunkLen =>
          if (chunkLen <? ServerHelloSize) || (ServerHelloSize + 1024 <? chunkLen) then (Fail errHelloLength, b)
          else
            let '(serverHello, e, b) := Bufio_ReadFull ServerHelloSize b in
            match e with
            | Some err => (Fail err, b)
            | None =>
                match VerifyServerHello psk clientNonce serverHello with
                | Fail err => (Fail err, b)
                | Ok keys =>
                    let '(e, b) := if ServerHelloSize <? chunkLen then discardN (chunkLen - ServerHelloSize) b else (None, b) in
                    match e with
                    | Some err => (Fail err, b)
                    | None =>
                        let '(crlf, e, b) := Bufio_ReadFull 2 b in
                        match e with
                        | Some err => (Fail err, b)
                        | None => if bool_decide (crlf = [cr; lf]) then (Ok keys, b) else (Fail errHelloTerminator, b)
                        end
                    end
                end
            end
      end
  end.

(** [dialPlainH1]: the two keys and the body that follows, or an error; with
    what was written. *)
Definition dialPlainH1 (psk : list byte) (path server target : gostring) (now : Z) (rnd conn : reader) (w : writer)
  : result (list byte * list byte * chunkedReader) * writer :=
  match flightH1 psk target now rnd with
  | Fail e => (Fail e, w)
  | Ok (clientHello, encrypted0RTT, clientNonce) =>
      let '(_, e, w) := Write (requestHead path server ++ chunkOf clientHello ++ chunkOf encrypted0RTT) w in
      match e with
      | Some err => (Fail err, w)
      | None =>
          match readServerHello psk clientNonce (NewBufio conn) with
          | (Fail err, _) => (Fail err, w)
          | (Ok (clientKey, serverKey), b) => (Ok (clientKey, serverKey, newChunkedReader b), w)
          end
      end
  end.
End Dial.

(** ** The reference: the whole stream at once *)

Definition parse_line (limit : Z) (w : list byte) : result (gostring * list byte) :=
  match indexByte lf w with
  | Some i =>
      if limit <? Z.of_nat i + 1 then Fail errLineLimit
      else let? text := lineText (take (i + 1) w) in Ok (text, drop (i + 1) w)
  | None => Fail (if limit <? len w then errLineLimit else EOF)
  end.

(** The end of a stream inside a message. *)
Definition cutShort (e : error) : error := match e with EOF => ErrUnexpectedEOF | _ => e end.

Fixpoint parse_trailers (fuel : nat) (tb tl : Z) (w : list byte) : error :=
  match fuel with
  | O => Errorf "out of fuel"
  | S fuel =>
      match parse_line (Z.min maxH1HeaderLine (maxH1HeaderBytes - tb)) w with
      | Fail e => cutShort e
      | Ok (text, w) =>
          if bool_decide (text = []) then EOF
          else if (maxH1HeaderLines <? tl + 1) || negb (validH1Header text) then errTrailer
          else parse_trailers fuel (tb + len text + 2) (tl + 1) w
      end
  end.

Definition parse_end (tb tl : Z) (w : list byte) : list byte * error := ([], parse_trailers 66 tb tl w).

Fixpoint parse_chunks (fuel : nat) (w : list byte) : list byte * error :=
  match fuel with
  | O => ([], Errorf "out of fuel")
  | S fuel =>
      match parse_line maxH1ChunkLine w with
      | Fail e => ([], cutShort e)
      | Ok (text, w) =>
          match parseH1ChunkSize text with
          | Fail _ => ([], errChunkLength)
          | Ok size =>
              if 65536 <? size then ([], errChunkLength)
              else if size =? 0 then parse_end 0 0 w
              else if len w <? size then (w, ErrUnexpectedEOF)
              else
                let rest := zdrop size w in
                if len rest <? 2 then (ztake size w, ErrUnexpectedEOF)
                else if negb (bool_decide (take 2 rest = [cr; lf])) then (ztake size w, errTerminator)
                else let '(d, e) := parse_chunks fuel (drop 2 rest) in (ztake size w ++ d, e)
          end
      end
  end.

Definition parse_body (w : list byte) : list byte * error := parse_chunks (S (length w)) w.

(** ** Streams under a buffer *)

(** No read returns nothing without an error. *)
Definition rd_live (r : reader) : Prop := Forall (fun ev => rd_bytes ev <> [] \/ rd_err ev <> None) r.

Record holds (b : Bufio) (w : list byte) : Prop := {
  hd_lossless : rd_lossless (bf_rd b);
  hd_live : rd_live (bf_rd b);
  hd_bytes : w = bf_buf b ++ rd_content (bf_rd b);
  hd_fits : len (bf_buf b) <= bufSize;
  hd_err : match bf_err b with None => True | Some e => is_timeout e = true end;
}.

Definition sizeB (b : Bufio) : nat :=
  (length (bf_buf b) + length (rd_content (bf_rd b)) + length (bf_rd b) + if bf_err b then 1 else 0)%nat.

Lemma NewBufio_holds r b : carries r b -> rd_live r -> holds (NewBufio r) b.
Proof. intros [Hl <-] Hv. by split. Qed.

(** A read of a live stream that is not at its end. *)
Lemma Read_live n ev r :
  0 < n -> rd_lossless (ev :: r) -> rd_live (ev :: r) ->
  exists c e r', Read n (ev :: r) = (c, e, r') /\ rd_content (ev :: r) = c ++ rd_content r' /\ rd_lossless r' /\ rd_live r' /\ len c <= n /\
    (length r' <= length (ev :: r))%nat /\
    match e with
    | None => c <> []
    | Some te => is_timeout te = true /\ (length r' < length (ev :: r))%nat
    end.
Proof.
  intros Hn Hl Hv. destruct ev as [c e]. inversion Hl as [|? ? He Hl']; subst. inversion Hv as [|? ? Hne Hv']; subst. cbn in He, Hne.
  rewrite rd_content_cons. cbn [Read rd_bytes]. destruct (Z.leb_spec (len c) n).
  - exists c, e, r. split_and!; try done; [cbn; lia|]. destruct e; [split; [done|cbn; lia]|]. by destruct Hne.
  - exists (ztake n c), None, (RD (zdrop n c) e :: r). rewrite rd_content_cons. cbn [rd_bytes].
    split_and!; try done; [by rewrite app_assoc, ztake_zdrop|by constructor| |rewrite len_ztake; lia|].
    + constructor; [|done]. left. cbn. intros E. apply (f_equal (fun l => len l)) in E. rewrite len_zdrop in E by lia. cbn in E. lia.
    + intros E. apply (f_equal (fun l => len l)) in E. rewrite len_ztake in E by lia. cbn in E. lia.
Qed.

Lemma fill_step tries b w :
  holds b w -> bf_err b = None -> len (bf_buf b) < bufSize ->
  (bf_rd b = [] /\ fill (S tries) b = mkBufio (bf_buf b) (Some EOF) []) \/
  (holds (fill (S tries) b) w /\ (sizeB (fill (S tries) b) <= sizeB b)%nat /\
   (bf_err (fill (S tries) b) = None -> (length (bf_buf b) < length (bf_buf (fill (S tries) b)))%nat)).
Proof.
  intros [Hl Hv Hw Hf _] He Hlen. destruct b as [buf err rd]. cbn [bf_buf bf_err bf_rd] in *. subst err.
  destruct rd as [|ev rd]; [left; cbn; by rewrite app_nil_r|]. right. cbn [fill bf_buf bf_rd].
  destruct (Read_live (bufSize - len buf) ev rd) as (c & e & r' & -> & Ec & Hl' & Hv' & Hc & Hle & Hcase); [lia|done|done|].
  assert (Hpost : forall e', match e' with None => True | Some te => is_timeout te = true /\ (length r' < length (ev :: rd))%nat end ->
    holds (mkBufio (buf ++ c) e' r') w /\ (sizeB (mkBufio (buf ++ c) e' r') <= sizeB (mkBufio buf None (ev :: rd)))%nat).
  { intros e' He'. split; [split; cbn; try done|].
    - by rewrite Hw, Ec, app_assoc.
    - rewrite len_app. lia.
    - destruct e'; [by destruct He'|done].
    - unfold sizeB. cbn [bf_buf bf_rd bf_err]. rewrite Ec, !length_app. destruct e'; [destruct He'|]; lia. }
  destruct e as [te|].
  - destruct (Hpost (Some te) Hcase). split_and!; done.
  - assert (0 < len c) by (destruct c; [done|cbn; lia]). rewrite (proj2 (Z.ltb_lt _ _)) by lia.
    destruct (Hpost None I). split_and!; try done. intros _. cbn. rewrite length_app. lia.
Qed.

Lemma holds_empty : holds (mkBufio [] None []) [].
Proof. by split; try constructor. Qed.

(** ** [ReadSlice] *)

Lemma indexByte_none c (s : list byte) : c ∉ s -> indexByte c s = None.
Proof. intros Hn. unfold indexByte. rewrite (proj2 (list_find_None _ _)); [done|]. apply Forall_forall. by intros x Hx ->. Qed.

Lemma indexByte_first c (l r : list byte) : c ∉ l -> indexByte c (l ++ c :: r) = Some (length l).
Proof.
  intros Hn. unfold indexByte. rewrite (list_find_app_r _ l); [|apply list_find_None, Forall_forall; by intros x Hx ->].
  cbn [list_find]. by rewrite decide_True by done.
Qed.

Lemma indexByte_cases c (s : list byte) :
  (c ∉ s /\ indexByte c s = None) \/ exists l r, s = l ++ c :: r /\ c ∉ l /\ indexByte c s = Some (length l).
Proof.
  destruct (decide (c ∈ s)) as [Hs|Hs]; [right|left; split; [done|by apply indexByte_none]].
  destruct (list_elem_of_split_l _ _ Hs) as (l & r & -> & Hl). exists l, r. split_and!; [done|done|by apply indexByte_first].
Qed.

(** What [ReadSlice] returns of a stream. *)
Definition sliceOf (b : Bufio) (w : list byte) (out : list byte * option error * Bufio) : Prop :=
  let '(part, err, b') := out in
  exists w', w = part ++ w' /\ holds b' w' /\
    match err with
    | None => exists l, part = l ++ [lf] /\ lf ∉ l /\ (sizeB b' < sizeB b)%nat
    | Some e =>
        lf ∉ part /\
        ((is_timeout e = true /\ (sizeB b' < sizeB b)%nat) \/
         (e = ErrBufferFull /\ len part = bufSize /\ (sizeB b' < sizeB b)%nat) \/
         (e = EOF /\ w' = []))
    end.

Lemma readSliceLoop_step fuel b w :
  holds b w -> (if bf_err b then 1 else bufSize - len (bf_buf b) + 2) <= Z.of_nat fuel -> sliceOf b w (readSliceLoop fuel b).
Proof.
  revert b. induction fuel as [|fuel IH]; intros b Hh Hfuel; pose proof (hd_fits _ _ Hh) as Hfit; [destruct (bf_err b); lia|]. cbn [readSliceLoop].
  destruct (indexByte_cases lf (bf_buf b)) as [[Hn ->]|(l & r & Eb & Hl & ->)].
  2:{ unfold sliceOf. destruct Hh as [Hll Hv Hw _ He]. rewrite Eb in *.
      replace (take (length l + 1) (l ++ lf :: r)) with (l ++ [lf]) by (rewrite take_app_ge by lia; by replace (length l + 1 - length l)%nat with 1%nat by lia).
      replace (drop (length l + 1) (l ++ lf :: r)) with r by (rewrite drop_app_ge by lia; by replace (length l + 1 - length l)%nat with 1%nat by lia).
      exists (r ++ rd_content (bf_rd b)). split_and!; [by rewrite Hw, <- !app_assoc| |].
      - split; cbn; try done. rewrite len_app in Hfit. cbn in Hfit. lia.
      - exists l. split_and!; try done. unfold sizeB. cbn [bf_buf bf_err bf_rd]. rewrite Eb, length_app. cbn [length]. lia. }
  destruct Hh as [Hll Hv Hw Hf He]. destruct (bf_err b) as [e|] eqn:Ee.
  { unfold sliceOf. exists (rd_content (bf_rd b)). split; [done|]. split; [by split|]. split; [done|]. left. split; [done|].
    unfold sizeB. cbn [bf_buf bf_err bf_rd length]. rewrite Ee. lia. }
  destruct (Z.leb_spec bufSize (len (bf_buf b))) as [Hfull|Hfree].
  { unfold sliceOf. exists (rd_content (bf_rd b)). split; [done|]. split; [by split|]. split; [done|]. right; left.
    split_and!; [done|lia|]. unfold sizeB, bufSize in *. cbn [bf_buf bf_err bf_rd length]. rewrite Ee. lia. }
  destruct (fill_step 99 b w) as [[Er Ef]|(Hh' & Hsz & Hgrow)]; [split; try done; by rewrite Ee|done|done| |].
  - rewrite Ef. destruct fuel as [|fuel]; [lia|]. cbn [readSliceLoop bf_buf bf_err bf_rd]. rewrite indexByte_none by done.
    unfold sliceOf. exists []. rewrite Er in Hw. cbn in Hw. rewrite app_nil_r in Hw |- *. split; [done|]. split; [apply holds_empty|]. split; [done|]. right; right. done.
  - assert (sliceOf (fill 100 b) w (readSliceLoop fuel (fill 100 b))) as Hs.
    { apply IH; [done|]. destruct (bf_err (fill 100 b)) eqn:Ee1; [lia|]. specialize (Hgrow eq_refl). lia. }
    unfold sliceOf in *. destruct (readSliceLoop fuel (fill 100 b)) as [[part err] b'].
    destruct Hs as (w' & -> & Hh2 & Hs). exists w'. split_and!; [done|done|].
    destruct err as [e|].
    + destruct Hs as [Hn' [[? ?]|[(? & ? & ?)|[-> ->]]]]; (split; [done|]); [left|right; left|right; right]; split_and!; try done; lia.
    + destruct Hs as (l & ? & ? & ?). exists l. split_and!; try done. lia.
Qed.

Lemma ReadSlice_step b w : holds b w -> sliceOf b w (ReadSlice b).
Proof. intros Hh. apply readSliceLoop_step; [done|]. pose proof (hd_fits _ _ Hh). destruct (bf_err b); lia. Qed.

(** ** Lines *)

Lemma parse_line_found limit l w :
  lf ∉ l -> len l + 1 <= limit -> parse_line limit (l ++ lf :: w) = let? text := lineText (l ++ [lf]) in Ok (text, w).
Proof.
  intros Hl Hlim. unfold parse_line. rewrite indexByte_first by done. rewrite (proj2 (Z.ltb_ge _ _)) by lia.
  replace (take (length l + 1) (l ++ lf :: w)) with (l ++ [lf]) by (rewrite take_app_ge by lia; by replace (length l + 1 - length l)%nat with 1%nat by lia).
  by replace (drop (length l + 1) (l ++ lf :: w)) with w by (rewrite drop_app_ge by lia; by replace (length l + 1 - length l)%nat with 1%nat by lia).
Qed.

Lemma parse_line_long limit l w : lf ∉ l -> limit < len l -> parse_line limit (l ++ w) = Fail errLineLimit.
Proof.
  intros Hl Hlim. unfold parse_line. destruct (indexByte_cases lf (l ++ w)) as [[Hn ->]|(l1 & r & E & Hl1 & ->)].
  - rewrite (proj2 (Z.ltb_lt _ _)); [done|]. rewrite len_app. lia.
  - rewrite (proj2 (Z.ltb_lt _ _)); [done|]. symmetry in E. destruct (app_eq_inv _ _ _ _ E) as [(k & -> & _)|(k & -> & Ek)].
    + rewrite len_app. lia.
    + destruct k as [|x k]; [rewrite app_nil_r in *; lia|]. injection Ek as <- _. set_solver.
Qed.

(** What [boundedH1Line.read] returns of a stream. *)
Definition lineOf (partial : list byte) (b : Bufio) (w : list byte) (limit : Z) (out : result gostring * list byte * Bufio) : Prop :=
  let '(res, partial', b') := out in
  exists w', holds b' w' /\
    match res with
    | Ok text => partial' = [] /\ parse_line limit (partial ++ w) = Ok (text, w') /\ (sizeB b' < sizeB b)%nat
    | Fail e =>
        if is_timeout e then
          partial ++ w = partial' ++ w' /\ lf ∉ partial' /\ len partial' <= limit /\ (sizeB b' < sizeB b)%nat
        else parse_line limit (partial ++ w) = Fail e
    end.

Lemma lineLoop_step fuel partial b w limit :
  holds b w -> lf ∉ partial -> len partial <= limit -> (limit - len partial) / bufSize + 1 < Z.of_nat fuel ->
  lineOf partial b w limit (lineLoop fuel partial b limit).
Proof.
  revert partial b w. induction fuel as [|fuel IH]; intros partial b w Hh Hp Hlim Hf.
  { pose proof (Z.div_pos (limit - len partial) bufSize). unfold bufSize in *. lia. }
  cbn [lineLoop]. pose proof (ReadSlice_step b w Hh) as Hs. destruct (ReadSlice b) as [[part err] b1].
  destruct Hs as (w1 & -> & Hh1 & Hs).
  destruct (Z.ltb_spec (limit - len partial) (len part)) as [Hlong|Hok].
  { exists w1. split; [done|]. cbn. destruct err as [e|].
    - destruct Hs as [Hn _]. rewrite app_assoc. apply parse_line_long; [set_solver|]. rewrite len_app. lia.
    - destruct Hs as (l & -> & Hl & _). rewrite len_app in Hlong. cbn in Hlong. rewrite <- app_assoc. cbn [app].
      unfold parse_line. rewrite app_assoc, indexByte_first by set_solver. rewrite length_app. by rewrite (proj2 (Z.ltb_lt _ _)) by lia. }
  destruct err as [e|].
  - destruct Hs as [Hn Hcase]. assert (lf ∉ partial ++ part) as Hn' by set_solver. assert (len (partial ++ part) <= limit) by (rewrite len_app; lia).
    destruct Hcase as [[Ht Hsz]|[(-> & Hfull & Hsz)|[-> ->]]].
    + rewrite bool_decide_false by (by intros ->). exists w1. split; [done|]. rewrite Ht. split_and!; try done. by rewrite app_assoc.
    + rewrite bool_decide_true by done.
      assert (lineOf (partial ++ part) b1 w1 limit (lineLoop fuel (partial ++ part) b1 limit)) as Hrec.
      { apply IH; try done. rewrite len_app, Hfull.
        replace (limit - len partial) with ((limit - (len partial + bufSize)) + 1 * bufSize) in Hf by lia.
        rewrite Z.div_add in Hf by done. lia. }
      unfold lineOf in *. destruct (lineLoop fuel (partial ++ part) b1 limit) as [[res p'] b']. destruct Hrec as (w' & Hh' & Hres).
      exists w'. split; [done|]. rewrite app_assoc. destruct res as [text|e]; [|destruct (is_timeout e)]; [| |done]; destruct_and!; split_and!; try done; lia.
    + rewrite bool_decide_false by done. exists []. split; [done|]. cbn [is_timeout]. rewrite app_nil_r. unfold parse_line.
      rewrite indexByte_none by done. by rewrite (proj2 (Z.ltb_ge _ _)) by lia.
  - destruct Hs as (l & -> & Hl & Hsz).
    assert (parse_line limit (partial ++ (l ++ [lf]) ++ w1) = let? text := lineText (partial ++ l ++ [lf]) in Ok (text, w1)) as Hpl.
    { replace (partial ++ (l ++ [lf]) ++ w1) with ((partial ++ l) ++ lf :: w1) by (by rewrite <- !app_assoc).
      rewrite (app_assoc partial l [lf]). apply parse_line_found; [set_solver|]. rewrite !len_app in *. cbn in Hok. lia. }
    destruct (lineText (partial ++ l ++ [lf])) as [text|e] eqn:Et; exists w1; (split; [done|]); [done|].
    unfold lineText in Et. destruct (_ || _) in Et; [|done]. by injection Et as <-.
Qed.

Lemma readLine_step partial b w limit :
  holds b w -> lf ∉ partial -> len partial <= limit -> lineOf partial b w limit (readLine partial b limit).
Proof.
  intros Hh Hp Hl. apply lineLoop_step; try done. assert ((limit - len partial) / bufSize <= limit / bufSize) by (apply Z.div_le_mono; [done|lia]).
  assert (0 <= limit / bufSize) by (apply Z.div_pos; [lia|done]). lia.
Qed.

(** ** [Read] and [io.ReadFull] *)

Definition readOf (n : Z) (b : Bufio) (w : list byte) (out : list byte * option error * Bufio) : Prop :=
  let '(c, e, b') := out in
  exists w', w = c ++ w' /\ holds b' w' /\ len c <= n /\ (sizeB b' <= sizeB b)%nat /\
    match e with
    | None => c <> [] /\ (sizeB b' < sizeB b)%nat
    | Some x => (is_timeout x = true /\ (sizeB b' < sizeB b)%nat) \/ (x = EOF /\ c = [] /\ w' = [])
    end.

Lemma readOf_buffer n b w b0 :
  0 < n -> holds b w -> bf_buf b <> [] -> (sizeB b <= sizeB b0)%nat ->
  readOf n b0 w (ztake n (bf_buf b), None, mkBufio (zdrop n (bf_buf b)) (bf_err b) (bf_rd b)).
Proof.
  intros Hn [Hl Hv Hw Hf He] Hne Hsz. exists (zdrop n (bf_buf b) ++ rd_content (bf_rd b)).
  assert (0 < len (bf_buf b)) as Hlen by (destruct (bf_buf b); [done|cbn; lia]).
  assert (length (zdrop n (bf_buf b)) < length (bf_buf b))%nat as Hd by (unfold zdrop; rewrite length_drop; lia).
  assert (sizeB (mkBufio (zdrop n (bf_buf b)) (bf_err b) (bf_rd b)) < sizeB b)%nat by (unfold sizeB; cbn [bf_buf bf_err bf_rd]; lia).
  split; [by rewrite app_assoc, ztake_zdrop|]. split; [split; cbn; try done; lia|].
  split; [unfold ztake; rewrite length_take; lia|]. split; [lia|]. split; [|lia].
  intros E. apply (f_equal length) in E. unfold ztake in E. rewrite length_take in E. cbn in E. lia.
Qed.

Lemma Bufio_Read_step n b w : 0 < n -> holds b w -> readOf n b w (Bufio_Read n b).
Proof.
  intros Hn Hh. unfold Bufio_Read. case_bool_decide as Eb; cbn [negb]; [|by apply readOf_buffer].
  pose proof Hh as [Hl Hv Hw Hf He]. destruct b as [buf err rd]. cbn [bf_buf bf_err bf_rd] in *. subst buf. cbn [app] in Hw.
  assert (Hend : rd = [] -> readOf n (mkBufio [] err rd) w ([], Some EOF, mkBufio [] None [])).
  { intros ->. exists []. split; [by rewrite Hw|]. split; [apply holds_empty|]. split; [cbn; lia|]. split; [unfold sizeB; cbn; lia|]. by right. }
  destruct err as [e|].
  { assert (sizeB (mkBufio [] None rd) < sizeB (mkBufio [] (Some e) rd))%nat by (unfold sizeB; cbn [bf_buf bf_err bf_rd]; lia).
    exists w. split; [done|]. split; [by split|]. split; [cbn; lia|]. split; [lia|]. by left. }
  destruct rd as [|ev rd].
  { destruct (bufSize <=? n); by apply Hend. }
  destruct (Z.leb_spec bufSize n) as [Hbig|Hsmall].
  - destruct (Read_live n ev rd Hn Hl Hv) as (c & e & r' & -> & Ec & Hl' & Hv' & Hc & Hle & Hcase).
    assert (match e with None => 0 < length c | Some _ => length r' < length (ev :: rd) end)%nat as Hdec
      by (destruct e; [by destruct Hcase|destruct c; [done|cbn; lia]]).
    assert (sizeB (mkBufio [] None r') < sizeB (mkBufio [] None (ev :: rd)))%nat.
    { unfold sizeB. cbn [bf_buf bf_err bf_rd]. rewrite Ec, length_app. destruct e; lia. }
    exists (rd_content r'). split; [by rewrite Hw|]. split; [by split|]. split; [done|]. split; [lia|].
    destruct e; [left; by destruct Hcase|done].
  - destruct (Read_live bufSize ev rd eq_refl Hl Hv) as (c & e & r' & -> & Ec & Hl' & Hv' & Hc & Hle & Hcase).
    destruct (Z.eqb_spec (len c) 0) as [Hz|Hz].
    + apply len_zero in Hz as ->. destruct e as [te|]; [|done]. destruct Hcase as [Ht Hlt].
      assert (sizeB (mkBufio [] None r') < sizeB (mkBufio [] None (ev :: rd)))%nat.
      { unfold sizeB. cbn [bf_buf bf_err bf_rd]. rewrite Ec, length_app. cbn [length] in *. lia. }
      exists (rd_content r'). split; [by rewrite Hw|]. split; [by split|]. split; [cbn; lia|]. split; [lia|]. by left.
    + apply (readOf_buffer n (mkBufio c e r') w); [done| |cbn; by intros ->|].
      * split; cbn; try done; [by rewrite Hw|]. destruct e; [by destruct Hcase|done].
      * unfold sizeB. cbn [bf_buf bf_err bf_rd]. rewrite Ec, length_app. destruct e; [destruct Hcase|]; lia.
Qed.

Definition fullOf (n : Z) (b : Bufio) (w : list byte) (out : list byte * option error * Bufio) : Prop :=
  let '(c, e, b') := out in
  exists w', w = c ++ w' /\ holds b' w' /\ (sizeB b' <= sizeB b)%nat /\
    match e with
    | None => len c = n
    | Some x => len c < n /\ ((is_timeout x = true /\ (sizeB b' < sizeB b)%nat) \/ (x = EOF /\ w' = []))
    end.

Lemma readFullLoop_step fuel n b w : 0 <= n <= Z.of_nat fuel -> holds b w -> fullOf n b w (readFullLoop fuel n b).
Proof.
  revert n b w. induction fuel as [|fuel IH]; intros n b w Hn Hh; cbn [readFullLoop].
  { rewrite (proj2 (Z.leb_le _ _)) by lia. exists w. split_and!; try done. cbn. lia. }
  destruct (Z.leb_spec n 0). { exists w. split_and!; try done. cbn. lia. }
  pose proof (Bufio_Read_step n b w ltac:(lia) Hh) as Hs. destruct (Bufio_Read n b) as [[c e] b1]. destruct Hs as (w1 & -> & Hh1 & Hc & Hle & Hcase).
  destruct e as [x|].
  - destruct (Z.leb_spec n (len c)) as [Hfull|Hshort].
    + exists w1. destruct Hcase as [[_ Hsz]|(-> & -> & ->)]; [|cbn in Hfull; lia]. split_and!; try done; lia.
    + destruct Hcase as [[Ht Hsz]|(-> & -> & ->)].
      * exists w1. split; [done|]. split; [done|]. split; [done|]. split; [done|]. by left.
      * exists []. split; [done|]. split; [done|]. split; [done|]. split; [done|]. by right.
  - destruct Hcase as [Hne Hsz]. assert (0 < len c) by (destruct c; [done|cbn; lia]).
    pose proof (IH (n - len c) b1 w1 ltac:(lia) Hh1) as Hr. destruct (readFullLoop fuel (n - len c) b1) as [[c' e'] b2].
    destruct Hr as (w2 & -> & Hh2 & Hsz2 & Hres). exists w2. split_and!; [by rewrite app_assoc|done|lia|].
    rewrite len_app. destruct e' as [x|]; [|lia]. destruct Hres as [Hl [[? ?]|[-> ->]]]; (split; [lia|]); [left; split; [done|lia]|right; done].
Qed.

Lemma Bufio_ReadFull_step n b w :
  0 <= n -> holds b w ->
  let '(c, e, b') := Bufio_ReadFull n b in
  exists w', w = c ++ w' /\ holds b' w' /\ (sizeB b' <= sizeB b)%nat /\
    match e with
    | None => len c = n
    | Some x => len c < n /\ ((is_timeout x = true /\ (sizeB b' < sizeB b)%nat) \/ ((x = EOF \/ x = ErrUnexpectedEOF) /\ w' = []))
    end.
Proof.
  intros Hn Hh. unfold Bufio_ReadFull. set (fuel := S _). pose proof (readFullLoop_step fuel n b w ltac:(lia) Hh) as Hs.
  destruct (readFullLoop fuel n b) as [[c e] b']. destruct Hs as (w' & -> & Hh' & Hsz & Hres). exists w'. split_and!; try done.
  destruct e as [x|]; [|done]. destruct Hres as [Hl [[Ht Hlt]|[-> ->]]].
  - destruct x; try done; (split; [done|by left]).
  - destruct (0 <? len c); (split; [done|]); right; auto.
Qed.

(** ** The chunked reader computes the reference *)

Definition prepend (c : list byte) (p : list byte * error) : list byte * error := (c ++ fst p, snd p).

Definition afterCRLF (w : list byte) : list byte * error :=
  if len w <? 2 then ([], ErrUnexpectedEOF)
  else if negb (bool_decide (take 2 w = [cr; lf])) then ([], errTerminator)
  else parse_body (drop 2 w).

Definition afterData (k : Z) (w : list byte) : list byte * error :=
  if len w <? k then (w, ErrUnexpectedEOF) else prepend (ztake k w) (afterCRLF (zdrop k w)).

Lemma parse_line_shrinks limit w text rest : parse_line limit w = Ok (text, rest) -> (length rest < length w)%nat /\ len text + 2 <= limit.
Proof.
  unfold parse_line. destruct (indexByte_cases lf w) as [[_ ->]|(l & r & -> & _ & ->)]; [done|].
  destruct (Z.ltb_spec limit (Z.of_nat (length l) + 1)); [done|].
  destruct (lineText _) as [x|] eqn:Et; [|done]. intros E. assert (x = text /\ drop (length l + 1) (l ++ lf :: r) = rest) as [<- <-] by (split; congruence).
  rewrite length_drop, !length_app. cbn [length]. split; [lia|].
  unfold lineText in Et. destruct (_ || _) eqn:Eo in Et; [done|]. injection Et as <-.
  apply orb_false_iff in Eo as [Eo%Z.ltb_ge _]. rewrite !length_take, !length_app in *. cbn [length] in *. lia.
Qed.

Lemma parse_chunks_fuel f1 f2 w : (length w < f1)%nat -> (length w < f2)%nat -> parse_chunks f1 w = parse_chunks f2 w.
Proof.
  revert f2 w. induction f1 as [|f1 IH]; intros f2 w H1 H2; [lia|]. destruct f2 as [|f2]; [lia|]. cbn [parse_chunks].
  destruct (parse_line maxH1ChunkLine w) as [[text rest]|e] eqn:El; [|done]. apply parse_line_shrinks in El as [Hs _].
  destruct (parseH1ChunkSize text) as [size|]; [|done]. destruct (65536 <? size); [done|]. destruct (size =? 0); [done|].
  destruct (len rest <? size); [done|]. destruct (len (zdrop size rest) <? 2); [done|]. destruct (negb _); [done|].
  rewrite (IH f2); [done| |]; unfold zdrop; rewrite !length_drop; lia.
Qed.

Lemma parse_body_unfold w :
  parse_body w =
  match parse_line maxH1ChunkLine w with
  | Fail e => ([], cutShort e)
  | Ok (text, rest) =>
      match parseH1ChunkSize text with
      | Fail _ => ([], errChunkLength)
      | Ok size =>
          if 65536 <? size then ([], errChunkLength) else if size =? 0 then parse_end 0 0 rest else afterData size rest
      end
  end.
Proof.
  unfold parse_body. cbn [parse_chunks]. destruct (parse_line maxH1ChunkLine w) as [[text rest]|e] eqn:El; [|done].
  apply parse_line_shrinks in El as [Hs _]. destruct (parseH1ChunkSize text) as [size|]; [|done].
  destruct (65536 <? size); [done|]. destruct (size =? 0); [done|]. unfold afterData, afterCRLF, prepend.
  destruct (len rest <? size); [done|]. destruct (len (zdrop size rest) <? 2); [by rewrite app_nil_r|].
  destruct (negb _); [by rewrite app_nil_r|]. unfold parse_body.
  rewrite (parse_chunks_fuel (length w) (S (length (drop 2 (zdrop size rest))))) by (unfold zdrop; rewrite ?length_drop; lia).
  by destruct (parse_chunks _ _).
Qed.

Lemma parse_trailers_fuel f1 f2 tb tl w :
  65 - tl < Z.of_nat f1 -> 65 - tl < Z.of_nat f2 -> tl <= 64 -> parse_trailers f1 tb tl w = parse_trailers f2 tb tl w.
Proof.
  revert f2 tb tl w. induction f1 as [|f1 IH]; intros f2 tb tl w H1 H2 Hl; [lia|]. destruct f2 as [|f2]; [lia|]. cbn [parse_trailers].
  destruct (parse_line _ w) as [[text rest]|]; [|done]. case_bool_decide; [done|].
  destruct (_ || _) eqn:Eo; [done|]. apply orb_false_iff in Eo as [Eo%Z.ltb_ge _]. unfold maxH1HeaderLines in Eo. apply IH; lia.
Qed.

Lemma afterData_app k c w : len c <= k -> afterData k (c ++ w) = prepend c (afterData (k - len c) w).
Proof.
  intros Hc. unfold afterData. rewrite len_app. destruct (Z.ltb_spec (len w) (k - len c)).
  - by rewrite (proj2 (Z.ltb_lt _ _)) by lia.
  - rewrite (proj2 (Z.ltb_ge _ _)) by lia. unfold ztake, zdrop, prepend. rewrite take_app_ge, drop_app_ge by lia. cbn [fst snd].
    replace (Z.to_nat k - length c)%nat with (Z.to_nat (k - len c)) by lia. by rewrite app_assoc.
Qed.

Lemma afterData_0 w : afterData 0 w = afterCRLF w.
Proof.
  unfold afterData. rewrite (proj2 (Z.ltb_ge _ _)) by lia. change (zdrop 0 w) with w. change (ztake 0 w) with ([] : list byte).
  symmetry. apply surjective_pairing.
Qed.

(** What a chunked reader will deliver when [w] is still to come. *)
Definition pendingC (r : chunkedReader) (w : list byte) : list byte * error :=
  match ck_terminal r with
  | Some e => ([], e)
  | None =>
      if ck_ended r then ([], EOF)
      else if ck_needCRLF r then afterCRLF (ck_crlf r ++ w)
      else if ck_trailers r then parse_end (ck_trailerBytes r) (ck_trailerLines r) (ck_line r ++ w)
      else if ck_left r =? 0 then parse_body (ck_line r ++ w)
      else afterData (ck_left r) w
  end.

(** The states between two calls. *)
Record liveC (r : chunkedReader) : Prop := {
  lc_left : 0 <= ck_left r;
  lc_line : lf ∉ ck_line r;
  lc_crlf : ck_needCRLF r = true -> ck_left r = 0 /\ ck_trailers r = false /\ ck_line r = [] /\ len (ck_crlf r) < 2;
  lc_trailers : if ck_trailers r
    then ck_left r = 0 /\ 0 <= ck_trailerLines r <= 64 /\ 0 <= ck_trailerBytes r <= maxH1HeaderBytes /\
      len (ck_line r) <= Z.min maxH1HeaderLine (maxH1HeaderBytes - ck_trailerBytes r)
    else ck_trailerBytes r = 0 /\ ck_trailerLines r = 0 /\ len (ck_line r) <= maxH1ChunkLine /\ (0 < ck_left r -> ck_line r = []);
}.

Definition wfC (r : chunkedReader) : Prop :=
  match ck_terminal r with
  | Some e => is_timeout e = false
  | None => ck_ended r = false -> liveC r
  end.

(** The outcome of a [Read] when [pend] was to be delivered. *)
Definition stepC (pend : list byte * error) (size : nat) (out : list byte * option error * chunkedReader) : Prop :=
  let '(c, e, r') := out in
  wfC r' /\ exists w', holds (ck_r r') w' /\
    if match e with Some x => negb (is_timeout x) | None => false end then exists x, e = Some x /\ pend = (c, x)
    else pend = prepend c (pendingC r' w') /\ (sizeB (ck_r r') < size)%nat.

(** A failed [Read]: for good, or at a deadline with nothing lost. *)
Lemma failRead_final pend size b w left line needCRLF crlf trailers tb tl e :
  holds b w -> is_timeout e = false -> pend = ([], cutShort e) -> stepC pend size (failRead b left line needCRLF crlf trailers tb tl e).
Proof.
  intros Hh He ->. unfold failRead, readErrorH1. rewrite He. fold (cutShort e).
  assert (is_timeout (cutShort e) = false) as He' by (by destruct e).
  unfold stepC. rewrite He'. cbn [negb]. split; [done|]. exists w. split; [done|]. by exists (cutShort e).
Qed.

Lemma failRead_deadline size b w left line needCRLF crlf trailers tb tl e pend :
  holds b w -> is_timeout e = true -> (sizeB b < size)%nat -> pend = pendingC (mkChunked b left false line needCRLF crlf trailers tb tl None) w ->
  liveC (mkChunked b left false line needCRLF crlf trailers tb tl None) ->
  stepC pend size (failRead b left line needCRLF crlf trailers tb tl e).
Proof.
  intros Hh He Hsz -> Hwf. unfold failRead, readErrorH1. rewrite He. unfold stepC. rewrite He. cbn [negb]. split; [exact (fun _ => Hwf)|].
  exists w. split; [done|]. split; [|done]. unfold prepend. cbn [app]. by destruct (pendingC _ w).
Qed.

Lemma stepC_le pend size size' out : (size <= size')%nat -> stepC pend size out -> stepC pend size' out.
Proof.
  intros Hle. unfold stepC. destruct out as [[c e] r']. intros (Hwf & w' & Hh & Hs). split; [done|]. exists w'. split; [done|].
  destruct (match e with Some x => negb (is_timeout x) | None => false end); [done|]. destruct Hs. split; [done|lia].
Qed.

Lemma readData_step b w left plen :
  holds b w -> 0 < left -> 0 < plen -> stepC (afterData left w) (sizeB b) (readData b left [] 0 0 plen).
Proof.
  intros Hh Hl Hp. unfold readData. pose proof (Bufio_Read_step (Z.min plen left) b w ltac:(lia) Hh) as Hs.
  destruct (Bufio_Read _ b) as [[c e] b']. destruct Hs as (w' & -> & Hh' & Hc & _ & Hcase).
  assert (Hpend : afterData left (c ++ w') = prepend c (pendingC (mkChunked b' (left - len c) false [] (left - len c =? 0) [] false 0 0 None) w')).
  { rewrite afterData_app by lia. unfold pendingC. cbn [ck_terminal ck_ended ck_needCRLF ck_trailers ck_left ck_crlf].
    destruct (Z.eqb_spec (left - len c) 0) as [->|]; [|done]. by rewrite afterData_0. }
  assert (Hwf : liveC (mkChunked b' (left - len c) false [] (left - len c =? 0) [] false 0 0 None)).
  { split; cbn; try done; try lia; [set_solver|]. intros E%Z.eqb_eq. split_and!; try done; lia. }
  destruct e as [x|].
  - destruct Hcase as [[Ht Hsz]|(-> & -> & ->)].
    + unfold readErrorH1. rewrite Ht. unfold stepC. rewrite Ht. cbn [negb]. split; [exact (fun _ => Hwf)|]. exists w'. done.
    + cbn [readErrorH1 is_timeout]. unfold stepC. cbn [is_timeout negb]. split; [done|].
      exists []. split; [done|]. exists ErrUnexpectedEOF. split; [done|]. unfold afterData. cbn. by rewrite (proj2 (Z.ltb_lt _ _)) by lia.
  - destruct Hcase as [Hne Hsz]. unfold stepC. split; [exact (fun _ => Hwf)|]. exists w'. done.
Qed.

Lemma trailersLoop_step fuel b w line tb tl :
  holds b w -> lf ∉ line -> 0 <= tl <= 64 -> 0 <= tb <= maxH1HeaderBytes -> len line <= Z.min maxH1HeaderLine (maxH1HeaderBytes - tb) ->
  65 - tl < Z.of_nat fuel ->
  stepC (parse_end tb tl (line ++ w)) (sizeB b) (trailersLoop fuel b line tb tl).
Proof.
  revert b w line tb tl. induction fuel as [|fuel IH]; intros b w line tb tl Hh Hn Htl Htb Hlen Hf; [lia|]. cbn [trailersLoop].
  set (limit := Z.min maxH1HeaderLine (maxH1HeaderBytes - tb)) in *.
  pose proof (readLine_step line b w limit Hh Hn Hlen) as Hs. destruct (readLine line b limit) as [[res line'] b'].
  destruct Hs as (w' & Hh' & Hres).
  assert (Hpe : forall x, parse_line limit (line ++ w) = Fail x -> parse_end tb tl (line ++ w) = ([], cutShort x)).
  { intros x Hx. unfold parse_end. cbn [parse_trailers]. fold limit. by rewrite Hx. }
  destruct res as [text|e].
  - destruct Hres as (-> & Hpl & Hsz). destruct (parse_line_shrinks _ _ _ _ Hpl) as [_ Hfit].
    assert (Hpt : parse_end tb tl (line ++ w) = ([], if bool_decide (text = []) then EOF
      else if (maxH1HeaderLines <? tl + 1) || negb (validH1Header text) then errTrailer else parse_trailers 65 (tb + len text + 2) (tl + 1) w')).
    { unfold parse_end. change 66%nat with (S 65). cbn [parse_trailers]. fold limit. by rewrite Hpl. }
    rewrite Hpt. case_bool_decide as Et.
    + unfold stepC. cbn [is_timeout negb]. split; [done|]. exists w'. split; [done|by exists EOF].
    + destruct (_ || _) eqn:Eo.
      * by apply (failRead_final _ _ _ w').
      * apply orb_false_iff in Eo as [Eo%Z.ltb_ge _]. unfold maxH1HeaderLines in Eo.
        apply (stepC_le _ (sizeB b')); [lia|]. rewrite (parse_trailers_fuel 65 66) by lia.
        apply (IH b' w' [] (tb + len text + 2) (tl + 1)); [done|apply not_elem_of_nil|..];
          clear -Htl Htb Hfit Eo Hf; unfold limit, maxH1HeaderLine, maxH1HeaderBytes in *; cbn [length]; lia.
  - destruct (is_timeout e) eqn:Ee.
    + destruct Hres as (Hw & Hn' & Hl' & Hsz). apply (failRead_deadline _ _ w'); try done.
      by rewrite Hw.
    + apply (failRead_final _ _ _ w'); [done..|]. by apply Hpe.
Qed.

Lemma hex_val_range c v : hex_val c = Some v -> 0 <= v < 16.
Proof.
  unfold hex_val. set (z := byteZ c). destruct ((48 <=? z) && (z <=? 57)) eqn:E1; [|destruct ((97 <=? z) && (z <=? 102)) eqn:E2; [|destruct ((65 <=? z) && (z <=? 70)) eqn:E3; [|done]]];
    intros E; injection E as E; lia.
Qed.

Lemma parseH1ChunkSize_pos line n : parseH1ChunkSize line = Ok n -> 0 <= n < 2 ^ 63.
Proof.
  unfold parseH1ChunkSize. destruct (_ || _); [done|]. destruct (negb _); [done|]. destruct (Z.leb_spec (2 ^ 63) (hexNumber line)); [done|].
  intros E. injection E as <-. split; [|done]. unfold hexNumber.
  assert (forall acc, 0 <= acc -> 0 <= fold_left (fun acc c => acc * 16 + default 0 (hex_val c)) line acc) as Hn; [clear|by apply Hn].
  induction line as [|c line IH]; intros acc Ha; cbn [fold_left]; [done|]. apply IH.
  destruct (hex_val c) as [v|] eqn:Ev; [apply hex_val_range in Ev; change (default 0 (Some v)) with v|change (default 0 None) with 0]; lia.
Qed.

Lemma readChunk_step b w left line trailers tb tl plen :
  let r := mkChunked b left false line false [] trailers tb tl None in
  holds b w -> liveC r -> 0 < plen -> stepC (pendingC r w) (sizeB b) (readChunk b left line trailers tb tl plen).
Proof.
  intros r Hh [Hl Hn _ Ht] Hp. unfold readChunk, pendingC. cbn [r ck_left ck_line ck_trailers ck_trailerBytes ck_trailerLines ck_terminal ck_ended ck_needCRLF] in *.
  destruct trailers.
  - rewrite andb_false_r. destruct Ht as (-> & ? & ? & ?). by apply trailersLoop_step; try lia.
  - destruct Ht as (-> & -> & Hlen & Hz). rewrite andb_true_r. destruct (Z.eqb_spec left 0) as [->|Hne].
    2:{ rewrite (Hz ltac:(lia)). apply readData_step; [done|lia|done]. }
    pose proof (readLine_step line b w maxH1ChunkLine Hh Hn Hlen) as Hs. destruct (readLine line b maxH1ChunkLine) as [[res line'] b'].
    destruct Hs as (w' & Hh' & Hres). rewrite parse_body_unfold. destruct res as [text|e].
    + destruct Hres as (-> & Hpl & Hsz). rewrite Hpl. apply (stepC_le _ (sizeB b')); [lia|].
      destruct (parseH1ChunkSize text) as [size|] eqn:Es; [|by apply (failRead_final _ _ _ w')].
      destruct (65536 <? size); [by apply (failRead_final _ _ _ w')|].
      destruct (Z.eqb_spec size 0).
      * apply (trailersLoop_step 66 b' w' [] 0 0); try done. apply not_elem_of_nil.
      * apply readData_step; [done| |done]. apply parseH1ChunkSize_pos in Es. lia.
    + destruct (is_timeout e) eqn:Ee.
      * destruct Hres as (Hw & Hn' & Hl' & Hsz). apply (failRead_deadline _ _ w'); try done.
        unfold pendingC. cbn [ck_terminal ck_ended ck_needCRLF ck_trailers ck_left ck_line]. by rewrite Z.eqb_refl, <- Hw, parse_body_unfold.
      * apply (failRead_final _ _ _ w'); [done..|]. by rewrite Hres.
Qed.

Lemma chunkedReader_Read_step r w plen :
  wfC r -> ck_terminal r = None -> ck_ended r = false -> holds (ck_r r) w -> 0 < plen ->
  stepC (pendingC r w) (sizeB (ck_r r)) (chunkedReader_Read r plen).
Proof.
  intros Hwf Ht He Hh Hp. unfold wfC in Hwf. rewrite Ht in Hwf. pose proof (Hwf He) as Hlive.
  unfold chunkedReader_Read. rewrite (proj2 (Z.eqb_neq _ _)), Ht, He by lia.
  destruct r as [b left ended line needCRLF crlf trailers tb tl terminal].
  cbn [ck_r ck_left ck_ended ck_line ck_needCRLF ck_crlf ck_trailers ck_trailerBytes ck_trailerLines ck_terminal] in *. subst terminal ended.
  destruct needCRLF.
  2:{ pose proof (readChunk_step b w left line trailers tb tl plen Hh) as Hs. cbn zeta in Hs. apply Hs; [|done].
      destruct Hlive as [? ? _ ?]. by split. }
  destruct (lc_crlf _ Hlive eq_refl) as (E1 & E2 & E3 & Hlen).
  destruct Hlive as [Hl Hn _ Htr]. cbn [ck_left ck_line ck_trailers ck_trailerBytes ck_trailerLines ck_crlf] in *. subst left trailers line.
  destruct Htr as (-> & -> & _ & _).
  pose proof (Bufio_ReadFull_step (2 - len crlf) b w ltac:(lia) Hh) as Hs. destruct (Bufio_ReadFull _ b) as [[c e] b'].
  destruct Hs as (w' & -> & Hh' & Hsz & Hres). unfold pendingC. cbn [ck_terminal ck_ended ck_needCRLF ck_crlf]. rewrite app_assoc.
  destruct e as [x|].
  - destruct Hres as [Hc [[Hx Hlt]|[Hx ->]]].
    + apply (failRead_deadline _ _ w'); try done. split; cbn; try done. intros _. split_and!; try done. rewrite len_app. lia.
    + apply (failRead_final _ _ _ []); [done|by destruct Hx as [-> | ->]|]. unfold afterCRLF. rewrite app_nil_r.
      rewrite (proj2 (Z.ltb_lt _ _)) by (rewrite len_app; lia). by destruct Hx as [-> | ->].
  - assert (length (crlf ++ c) = 2%nat) as H2 by (rewrite length_app; lia). unfold afterCRLF.
    rewrite (proj2 (Z.ltb_ge _ _)) by (rewrite len_app, H2; lia). rewrite take_app_length' by done.
    case_bool_decide as Ecr; cbn [negb]; [|by apply (failRead_final _ _ _ w')].
    rewrite drop_app_length' by done. apply (stepC_le _ (sizeB b')); [done|].
    pose proof (readChunk_step b' w' 0 [] false 0 0 plen Hh') as Hs. cbn zeta in Hs. apply Hs; [by split|done].
Qed.

Lemma readChunks_pending fuel r w plen :
  wfC r -> holds (ck_r r) w -> 0 < plen -> (sizeB (ck_r r) < fuel)%nat ->
  readChunks fuel r plen = (fst (pendingC r w), Some (snd (pendingC r w))).
Proof.
  revert r w. induction fuel as [|fuel IH]; intros r w Hwf Hh Hp Hf; [lia|]. cbn [readChunks].
  destruct (ck_terminal r) as [e|] eqn:Et.
  { unfold chunkedReader_Read, pendingC. rewrite (proj2 (Z.eqb_neq _ _)), Et by lia. unfold wfC in Hwf. rewrite Et in Hwf. by rewrite Hwf. }
  destruct (ck_ended r) eqn:Ee.
  { unfold chunkedReader_Read, pendingC. by rewrite (proj2 (Z.eqb_neq _ _)), Et, Ee by lia. }
  pose proof (chunkedReader_Read_step r w plen Hwf Et Ee Hh Hp) as Hs. destruct (chunkedReader_Read r plen) as [[c e] r'].
  destruct Hs as (Hwf' & w' & Hh' & Hs). destruct e as [x|]; [destruct (is_timeout x)|]; cbn [negb] in Hs.
  - destruct Hs as [-> Hlt]. rewrite (IH r' w') by (done || lia). done.
  - destruct Hs as (y & [= <-] & ->). done.
  - destruct Hs as [-> Hlt]. rewrite (IH r' w') by (done || lia). done.
Qed.

(** ** What the writer puts on the wire *)

Lemma hexNumber_app a b : hexNumber (a ++ [b]) = hexNumber a * 16 + default 0 (hex_val b).
Proof. unfold hexNumber. by rewrite fold_left_app. Qed.

Lemma hex_digits_number fuel n : 0 <= n < 16 ^ Z.of_nat fuel -> hexNumber (hex_digits fuel n) = n.
Proof.
  revert n. induction fuel as [|fuel IH]; intros n Hn; [cbn in *; lia|]. cbn [hex_digits]. rewrite Nat2Z.inj_succ, Z.pow_succ_r in Hn by lia.
  destruct (Z.ltb_spec n 16).
  - unfold hexNumber. cbn [fold_left]. rewrite hex_val_digit by lia. cbn. lia.
  - rewrite hexNumber_app, hex_val_digit by lia. rewrite IH by (split; [apply Z.div_pos|apply Z.div_lt_upper_bound]; lia).
    change (default 0 (Some (n mod 16))) with (n mod 16). lia.
Qed.

Lemma hex_digits_chars fuel n : 0 <= n -> Forall (fun c => is_Some (hex_val c)) (hex_digits fuel n).
Proof.
  revert n. induction fuel as [|fuel IH]; intros n Hn; cbn [hex_digits]; [constructor|].
  destruct (Z.ltb_spec n 16); [|apply Forall_app; split; [apply IH; lia|]]; (constructor; [|constructor]); rewrite hex_val_digit by lia; done.
Qed.

Lemma hex_digits_length fuel n : (0 < fuel)%nat -> (0 < length (hex_digits fuel n) <= fuel)%nat.
Proof.
  revert n. induction fuel as [|fuel IH]; intros n Hf; [lia|]. cbn [hex_digits]. destruct (n <? 16); [cbn; lia|].
  rewrite length_app. cbn. destruct fuel; [cbn; lia|]. pose proof (IH (n / 16) ltac:(lia)). lia.
Qed.

Lemma chunk_size_roundtrip n : 0 <= n < 2 ^ 63 -> parseH1ChunkSize (hex_digits 16 n) = Ok n.
Proof.
  intros Hn. unfold parseH1ChunkSize. pose proof (hex_digits_length 16 n ltac:(lia)) as Hl.
  rewrite (proj2 (Z.eqb_neq _ _)), (proj2 (Z.ltb_ge _ _)) by lia. cbn [orb].
  rewrite (proj2 (forallb_forall _ _)).
  - cbn [negb]. rewrite hex_digits_number by (change (16 ^ Z.of_nat 16) with (2 ^ 64); lia). by rewrite (proj2 (Z.leb_gt _ _)) by lia.
  - intros c Hc%list_elem_of_In. apply bool_decide_eq_true. by apply (proj1 (Forall_forall _ _) (hex_digits_chars 16 n ltac:(lia))).
Qed.

Lemma lineText_crlf l : lineText (l ++ [cr; lf]) = Ok l.
Proof.
  unfold lineText. rewrite len_app. cbn [length]. rewrite (proj2 (Z.ltb_ge _ _)) by lia. rewrite length_app. cbn [length].
  replace (length l + 2 - 2)%nat with (length l) by lia. unfold at_. rewrite lookup_app_r, Nat.sub_diag by lia. cbn [lookup list_lookup].
  rewrite bool_decide_true by done. cbn. by rewrite take_app_length.
Qed.

(** A line the peer wrote. *)
Lemma parse_line_crlf limit l w : lf ∉ l -> len l + 2 <= limit -> parse_line limit (l ++ [cr; lf] ++ w) = Ok (l, w).
Proof.
  intros Hl Hlim. replace (l ++ [cr; lf] ++ w) with ((l ++ [cr]) ++ lf :: w) by (by rewrite <- app_assoc).
  rewrite parse_line_found; [|set_solver|rewrite len_app; cbn; lia]. rewrite <- app_assoc. cbn [app]. by rewrite lineText_crlf.
Qed.

(** A prefix of such a line is cut short. *)
Lemma parse_line_cut limit l cut : lf ∉ l -> len l + 2 <= limit -> cut `prefix_of` l ++ [cr; lf] -> len cut < len l + 2 -> parse_line limit cut = Fail EOF.
Proof.
  intros Hl Hlim [k Hk] Hlen. assert (lf ∉ cut) as Hn.
  { assert (k <> []) as Hk0 by (intros ->; rewrite app_nil_r in Hk; rewrite <- Hk, len_app in Hlen; cbn in Hlen; lia).
    destruct (exists_last Hk0) as (k' & x & ->). replace (l ++ [cr; lf]) with ((l ++ [cr]) ++ [lf]) in Hk by (by rewrite <- app_assoc).
    rewrite app_assoc in Hk. apply app_inj_tail in Hk as [Hk _].
    intros Hc. assert (lf ∈ l ++ [cr]) as Hlc by (rewrite Hk; set_solver). apply elem_of_app in Hlc as [?|Hlc]; [done|]. by apply list_elem_of_singleton in Hlc. }
  unfold parse_line. rewrite indexByte_none by done. by rewrite (proj2 (Z.ltb_ge _ _)) by lia.
Qed.

Lemma hex_digits_nolf n : 0 <= n -> lf ∉ hex_digits 16 n.
Proof. intros Hn Hc. pose proof (proj1 (Forall_forall _ _) (hex_digits_chars 16 n Hn) _ Hc) as Hs. vm_compute in Hs. by destruct Hs. Qed.

Lemma hex_line_fits n : len (hex_digits 16 n) + 2 <= maxH1ChunkLine.
Proof. pose proof (hex_digits_length 16 n ltac:(lia)). unfold maxH1ChunkLine. lia. Qed.

(** One chunk in front. *)
Lemma parse_body_chunk p w : 0 < len p <= 65536 -> parse_body (chunkOf p ++ w) = prepend p (parse_body w).
Proof.
  intros Hp. rewrite parse_body_unfold. unfold chunkOf.
  replace ((hex_digits 16 (len p) ++ [cr; lf] ++ p ++ [cr; lf]) ++ w) with (hex_digits 16 (len p) ++ [cr; lf] ++ (p ++ [cr; lf] ++ w)) by (by rewrite <- !app_assoc).
  rewrite parse_line_crlf by (apply hex_digits_nolf || apply hex_line_fits; lia).
  rewrite chunk_size_roundtrip by lia. rewrite (proj2 (Z.ltb_ge _ _)), (proj2 (Z.eqb_neq _ _)) by lia.
  rewrite afterData_app, Z.sub_diag, afterData_0 by lia. f_equal. unfold afterCRLF. rewrite len_app.
  rewrite (proj2 (Z.ltb_ge _ _)) by (cbn; lia). by rewrite bool_decide_true.
Qed.

Lemma parse_body_last : parse_body lastChunk = ([], EOF).
Proof. by vm_compute. Qed.

(** The whole body. *)
Definition body_of (ps : list (list byte)) : list byte := concat (chunkOf <$> ps) ++ lastChunk.

Definition chunk_sizes (ps : list (list byte)) : Prop := Forall (fun p => 0 < len p <= 65536) ps.

Lemma parse_body_of ps : chunk_sizes ps -> parse_body (body_of ps) = (concat ps, EOF).
Proof.
  unfold body_of. induction 1 as [|p ps Hp Hps IH]; [apply parse_body_last|]. cbn [fmap list_fmap concat]. rewrite <- app_assoc.
  by rewrite parse_body_chunk, IH.
Qed.

(** Wherever the body is cut, a prefix of the data and no clean end. *)
Lemma parse_chunk_cut p cut :
  0 < len p <= 65536 -> cut `prefix_of` chunkOf p -> len cut < len (chunkOf p) ->
  exists d, parse_body cut = (d, ErrUnexpectedEOF) /\ d `prefix_of` p.
Proof.
  intros Hp Hcut Hlen. rewrite parse_body_unfold. unfold chunkOf in *. rewrite app_assoc in Hcut.
  destruct (prefix_of_app _ _ _ Hcut) as [Hs|(c2 & -> & Hc2)].
  { assert (cut `prefix_of` hex_digits 16 (len p) ++ [cr; lf]) as Hpre.
    { destruct Hcut as [k Hk]. symmetry in Hk. destruct (app_eq_inv _ _ _ _ Hk) as [(k' & -> & _)|(k' & Ek & _)]; [rewrite len_app in Hs; lia|by exists k']. }
    rewrite (parse_line_cut _ (hex_digits 16 (len p))); [exists []; split; [done|apply prefix_nil]|apply hex_digits_nolf; lia|apply hex_line_fits|done|].
    rewrite len_app in Hs. exact Hs. }
  rewrite <- app_assoc, parse_line_crlf by (apply hex_digits_nolf || apply hex_line_fits; lia).
  rewrite chunk_size_roundtrip by lia. rewrite (proj2 (Z.ltb_ge _ _)), (proj2 (Z.eqb_neq _ _)) by lia.
  rewrite !len_app in Hlen. destruct (prefix_of_app _ _ _ Hc2) as [Hs|(c3 & -> & Hc3)].
  - exists c2. unfold afterData. rewrite (proj2 (Z.ltb_lt _ _)) by done. split; [done|].
    destruct Hc2 as [k Hk]. symmetry in Hk. destruct (app_eq_inv _ _ _ _ Hk) as [(k' & -> & _)|(k' & -> & _)]; [rewrite len_app in Hs; lia|by exists k'].
  - exists p. rewrite afterData_app, Z.sub_diag, afterData_0 by lia. unfold afterCRLF. rewrite len_app in Hlen.
    rewrite (proj2 (Z.ltb_lt _ _)) by (cbn in Hlen; lia). unfold prepend. cbn. by rewrite app_nil_r.
Qed.

Lemma parse_last_cut cut : cut `prefix_of` lastChunk -> cut = lastChunk \/ parse_body cut = ([], ErrUnexpectedEOF).
Proof.
  intros [k Hk]. unfold lastChunk in *.
  destruct cut as [|? cut]; [by right|]. injection Hk as <- Hk.
  do 3 (destruct cut as [|? cut]; [right; by vm_compute|]; injection Hk as <- Hk).
  destruct cut as [|? cut]; [right; by vm_compute|]. injection Hk as <- Hk. destruct cut; [by left|done].
Qed.

Lemma parse_body_cut ps cut :
  chunk_sizes ps -> cut `prefix_of` body_of ps ->
  cut = body_of ps \/ exists d, parse_body cut = (d, ErrUnexpectedEOF) /\ d `prefix_of` concat ps.
Proof.
  unfold body_of. intros Hps. revert cut. induction Hps as [|p ps Hp Hps IH]; intros cut Hcut.
  { destruct (parse_last_cut cut Hcut) as [->|E]; [by left|right]. exists []. done. }
  cbn [fmap list_fmap concat] in *. rewrite <- app_assoc in *. destruct (prefix_of_app _ _ _ Hcut) as [Hs|(c2 & -> & Hc2)].
  - assert (cut `prefix_of` chunkOf p) as Hpre.
    { destruct Hcut as [k Hk]. symmetry in Hk. destruct (app_eq_inv _ _ _ _ Hk) as [(k' & -> & _)|(k' & Ek & _)]; [rewrite len_app in Hs; lia|by exists k']. }
    destruct (parse_chunk_cut p cut Hp Hpre Hs) as (d & E & Hd). right. exists d. split; [done|]. by apply prefix_app_r.
  - destruct (IH c2 Hc2) as [->|(d & E & Hd)]; [by left|right]. rewrite parse_body_chunk, E by done. exists (p ++ d). split; [done|]. by apply prefix_app.
Qed.

(** Writes on a carrier that takes everything, then the end. *)
Fixpoint writeChunks (w : writer) (ps : list (list byte)) : writer :=
  match ps with
  | [] => snd (chunkedWriter_Close w)
  | p :: rest => let '(_, _, w) := chunkedWriter_Write w p in writeChunks w rest
  end.

Lemma writeChunks_sink ps out :
  writeChunks (mkWriter out []) ps = mkWriter (out ++ body_of (filter (fun p => p <> []) ps)) [].
Proof.
  revert out. induction ps as [|p ps IH]; intros out; cbn [writeChunks].
  - unfold chunkedWriter_Close. by rewrite Write_sink.
  - unfold chunkedWriter_Write. destruct (Z.eqb_spec (len p) 0) as [Hz|Hz].
    + apply len_zero in Hz as ->. rewrite IH. by rewrite filter_cons_False by (by intros []).
    + rewrite Write_sink, Z.eqb_refl. cbn [negb]. rewrite IH. rewrite filter_cons_True by (by intros ->).
      unfold body_of. cbn [fmap list_fmap concat]. by rewrite <- !app_assoc.
Qed.

(** ** The response *)

Fixpoint parse_headers (fuel : nat) (used count : Z) (chunked : bool) (w : list byte) : result (list byte) :=
  match fuel with
  | O => Fail (Errorf "out of fuel")
  | S fuel =>
      let? (line, rest) := parse_line (Z.min maxH1HeaderLine (maxH1HeaderBytes - used)) w in
      if bool_decide (line = []) then if chunked then Ok rest else Fail errNotChunked
      else
        let? chunked := headerLine line (count + 1) chunked in
        parse_headers fuel (used + len line + 2) (count + 1) chunked rest
  end.

Definition parse_response (w : list byte) : result (list byte) :=
  let? (line, rest) := parse_line maxH1HeaderLine w in
  if negb (statusOK line) then Fail errStatus else parse_headers 66 (len line + 2) 0 false rest.

(** Sixty-five lines decide: more fuel changes nothing. *)
Lemma parse_headers_fuel f1 f2 used count chunked w :
  65 - count < Z.of_nat f1 -> 65 - count < Z.of_nat f2 -> count <= 64 -> parse_headers f1 used count chunked w = parse_headers f2 used count chunked w.
Proof.
  revert f2 used count chunked w. induction f1 as [|f1 IH]; intros f2 used count chunked w H1 H2 Hc; [lia|]. destruct f2 as [|f2]; [lia|]. cbn [parse_headers].
  destruct (parse_line _ w) as [[line rest]|]; [|done]. case_bool_decide; [done|].
  destruct (headerLine line (count + 1) chunked) as [ch|] eqn:Eh; [|done]. unfold headerLine in Eh. destruct (_ || _) eqn:Eo in Eh; [done|].
  apply orb_false_iff in Eo as [Eo%Z.ltb_ge _]. unfold maxH1HeaderLines in Eo. apply IH; lia.
Qed.

Lemma headersLoop_step fuel b w used count chunked :
  holds b w -> used <= maxH1HeaderBytes ->
  match headersLoop fuel b used count chunked with
  | (None, b') => exists w', parse_headers fuel used count chunked w = Ok w' /\ holds b' w'
  | (Some e, _) => is_timeout e = true \/ parse_headers fuel used count chunked w = Fail e
  end.
Proof.
  revert b w used count chunked. induction fuel as [|fuel IH]; intros b w used count chunked Hh Hu; cbn [headersLoop parse_headers]; [by right|].
  set (limit := Z.min maxH1HeaderLine (maxH1HeaderBytes - used)).
  assert (0 <= limit) as Hlim by (unfold limit, maxH1HeaderLine in *; lia).
  pose proof (readLine_step [] b w limit Hh (not_elem_of_nil _) Hlim) as Hs. destruct (readLine [] b limit) as [[res p'] b'].
  destruct Hs as (w' & Hh' & Hres). cbn [app] in Hres. destruct res as [line|e].
  - destruct Hres as (_ & Hpl & _). rewrite Hpl. destruct (parse_line_shrinks _ _ _ _ Hpl) as [_ Hfit]. case_bool_decide.
    + destruct chunked; [eauto|by right].
    + destruct (headerLine line (count + 1) chunked) as [ch|e]; [|by right]. apply IH; [done|]. unfold limit, maxH1HeaderLine, maxH1HeaderBytes in *. lia.
  - destruct (is_timeout e); [by left|]. right. by rewrite Hres.
Qed.

Lemma readH1ResponseHeaders_step b w :
  holds b w ->
  match readH1ResponseHeaders b with
  | (None, b') => exists w', parse_response w = Ok w' /\ holds b' w'
  | (Some e, _) => is_timeout e = true \/ parse_response w = Fail e
  end.
Proof.
  intros Hh. unfold readH1ResponseHeaders, parse_response.
  pose proof (readLine_step [] b w maxH1HeaderLine Hh (not_elem_of_nil _) ltac:(done)) as Hs. destruct (readLine [] b maxH1HeaderLine) as [[res p'] b'].
  destruct Hs as (w' & Hh' & Hres). cbn [app] in Hres. destruct res as [line|e].
  - destruct Hres as (_ & Hpl & _). rewrite Hpl. destruct (parse_line_shrinks _ _ _ _ Hpl) as [_ Hfit].
    destruct (negb (statusOK line)); [by right|]. apply headersLoop_step; [done|]. unfold maxH1HeaderLine, maxH1HeaderBytes in *. lia.
  - destruct (is_timeout e); [by left|]. right. by rewrite Hres.
Qed.

(** [io.ReadFull] of bytes that are there. *)
Lemma Bufio_ReadFull_have n b c w :
  holds b (c ++ w) -> len c = n ->
  match Bufio_ReadFull n b with
  | (c', None, b') => c' = c /\ holds b' w
  | (_, Some e, _) => is_timeout e = true
  end.
Proof.
  intros Hh Hc. pose proof (Bufio_ReadFull_step n b (c ++ w) ltac:(lia) Hh) as Hs. destruct (Bufio_ReadFull n b) as [[c' e] b'].
  destruct Hs as (w' & E & Hh' & _ & Hres). destruct e as [x|].
  - destruct Hres as [Hl [[? _]|[_ ->]]]; [done|]. rewrite app_nil_r in E. rewrite <- E, len_app in Hl. lia.
  - apply app_inj_1 in E as [-> ->]; [done|lia].
Qed.

Lemma discardN_have n b c w :
  holds b (c ++ w) -> len c = n ->
  match discardN n b with
  | (None, b') => holds b' w
  | (Some e, _) => is_timeout e = true
  end.
Proof.
  intros Hh Hc. unfold discardN. set (fuel := S _). pose proof (readFullLoop_step fuel n b (c ++ w) ltac:(lia) Hh) as Hs.
  destruct (readFullLoop fuel n b) as [[c' e] b']. destruct Hs as (w' & E & Hh' & _ & Hres). destruct e as [x|].
  - destruct Hres as [Hl [[? _]|[_ ->]]]; [done|]. rewrite app_nil_r in E. rewrite <- E, len_app in Hl. lia.
  - apply app_inj_1 in E as [_ ->]; [done|lia].
Qed.

Section DialProofs.
  Context `{Crypto}.

Lemma readServerHello_step psk nonce b w answer pad rest ck sk :
  holds b w -> parse_response w = Ok (chunkOf (answer ++ pad) ++ rest) -> len answer = ServerHelloSize -> len pad <= 1024 ->
  VerifyServerHello psk nonce answer = Ok (ck, sk) ->
  match readServerHello psk nonce b with
  | (Ok keys, b') => keys = (ck, sk) /\ holds b' rest
  | (Fail e, _) => is_timeout e = true
  end.
Proof.
  intros Hh Hresp Hla Hlp Hv. unfold readServerHello. pose proof (readH1ResponseHeaders_step b w Hh) as Hs.
  destruct (readH1ResponseHeaders b) as [[e|] b1]; [destruct Hs as [?|Hs]; [done|congruence]|].
  destruct Hs as (w1 & E1 & Hh1). assert (w1 = chunkOf (answer ++ pad) ++ rest) as -> by congruence. clear E1.
  pose proof (readLine_step [] b1 _ maxH1ChunkLine Hh1 (not_elem_of_nil _) ltac:(done)) as Hs. destruct (readLine [] b1 maxH1ChunkLine) as [[res p'] b2].
  destruct Hs as (w2 & Hh2 & Hres). cbn [app] in Hres.
  assert (parse_line maxH1ChunkLine (chunkOf (answer ++ pad) ++ rest) = Ok (hex_digits 16 (len (answer ++ pad)), (answer ++ pad) ++ [cr; lf] ++ rest)) as Hpl.
  { unfold chunkOf. rewrite <- !app_assoc. rewrite !app_assoc. rewrite <- (app_assoc (hex_digits _ _)).
    rewrite <- !app_assoc. apply parse_line_crlf; [apply hex_digits_nolf; lia|apply hex_line_fits]. }
  destruct res as [line|e].
  2:{ destruct (is_timeout e) eqn:Ee; [done|]. congruence. }
  destruct Hres as (_ & Hpl' & _). rewrite Hpl in Hpl'.
  assert (line = hex_digits 16 (len (answer ++ pad)) /\ w2 = (answer ++ pad) ++ [cr; lf] ++ rest) as [-> ->] by (split; congruence). clear Hpl Hpl'.
  assert (len (answer ++ pad) = ServerHelloSize + len pad) as Hlen by (rewrite len_app; lia).
  rewrite chunk_size_roundtrip by (unfold ServerHelloSize in *; lia). rewrite Hlen.
  rewrite !(proj2 (Z.ltb_ge _ _)) by lia. cbn [orb]. rewrite <- app_assoc in Hh2.
  pose proof (Bufio_ReadFull_have ServerHelloSize b2 answer _ Hh2 Hla) as Hs. destruct (Bufio_ReadFull ServerHelloSize b2) as [[c e] b3].
  destruct e as [e|]; [done|]. destruct Hs as [-> Hh3]. rewrite Hv.
  assert (match (if ServerHelloSize <? ServerHelloSize + len pad then discardN (ServerHelloSize + len pad - ServerHelloSize) b3 else (None, b3)) with
    | (None, b4) => holds b4 ([cr; lf] ++ rest) | (Some e, _) => is_timeout e = true end) as Hs.
  { destruct (Z.ltb_spec ServerHelloSize (ServerHelloSize + len pad)); [apply (discardN_have _ _ pad); [done|lia]|].
    assert (pad = []) as -> by (apply len_zero; lia). done. }
  destruct (if ServerHelloSize <? _ then _ else _) as [[e|] b4]; [done|].
  pose proof (Bufio_ReadFull_have 2 b4 [cr; lf] rest Hs eq_refl) as Hs2. destruct (Bufio_ReadFull 2 b4) as [[c e] b5]. destruct e as [e|]; [done|].
  destruct Hs2 as [-> Hh5]. by rewrite bool_decide_true.
Qed.
End DialProofs.

(** ** Properties *)

(** C15: The chunked reader over its buffered reader is the parser of the whole
    stream: however the connection cuts the response into reads and wherever
    deadlines interrupt a size line, the data, a terminator or the trailers, a
    consumer that retries gets exactly the bytes and the final error that the
    stream means, with the limits on line lengths, chunk sizes and trailers. *)
Theorem h1_chunked_reference r plen :
  rd_lossless r -> rd_live r -> 0 < plen ->
  readChunks (S (length (rd_content r) + length r)) (newChunkedReader (NewBufio r)) plen =
  (fst (parse_body (rd_content r)), Some (snd (parse_body (rd_content r)))).
Proof.
  intros Hl Hv Hp. rewrite (readChunks_pending _ _ (rd_content r)); [done| | |done|].
  - intros _. split; cbn; try done. apply not_elem_of_nil.
  - by apply NewBufio_holds.
  - unfold sizeB. cbn [newChunkedReader NewBufio ck_r bf_buf bf_err bf_rd length]. lia.
Qed.

(** A chunked body survives the way and cannot be truncated unnoticed: of what
    the chunked writer puts out, cut anywhere, the reader delivers a prefix of
    the data, and a clean end exactly when everything arrived. *)
Theorem h1_chunked_safe ps cut r plen :
  Forall (fun p => len p <= 65536) ps -> cut `prefix_of` wr_out (writeChunks sink ps) -> carries r cut -> rd_live r -> 0 < plen ->
  exists d e,
    readChunks (S (length (rd_content r) + length r)) (newChunkedReader (NewBufio r)) plen = (d, Some e) /\
    d `prefix_of` concat ps /\ (e = EOF \/ e = ErrUnexpectedEOF) /\
    (e = EOF <-> cut = wr_out (writeChunks sink ps)) /\ (e = EOF -> d = concat ps).
Proof.
  intros Hps Hcut [Hl Hct] Hv Hp. unfold sink in *. rewrite writeChunks_sink in *. cbn [wr_out app] in *.
  set (qs := filter (fun p => p <> []) ps) in *.
  assert (concat qs = concat ps) as Hq.
  { unfold qs. clear. induction ps as [|p ps IH]; [done|]. rewrite filter_cons. case_decide as Hd; cbn; rewrite IH; [done|].
    destruct p; [done|]. discriminate Hd. }
  assert (chunk_sizes qs) as Hqs.
  { apply Forall_forall. intros p [Hne Hin]%list_elem_of_filter. rewrite Forall_forall in Hps. specialize (Hps p Hin).
    destruct p; [done|]. cbn in *. lia. }
  rewrite (readChunks_pending _ _ cut); [|intros _; split; cbn; try done; apply not_elem_of_nil|by apply NewBufio_holds|done|].
  2:{ unfold sizeB. cbn [newChunkedReader NewBufio ck_r bf_buf bf_err bf_rd length]. lia. }
  change (pendingC (newChunkedReader (NewBufio r)) cut) with (parse_body cut).
  destruct (parse_body_cut qs cut Hqs Hcut) as [-> |(d & E & Hd)].
  - rewrite parse_body_of by done. exists (concat ps), EOF. cbn [fst snd]. rewrite Hq. split_and!; try done. by left.
  - rewrite E. exists d, ErrUnexpectedEOF. cbn [fst snd]. rewrite <- Hq. split_and!; try done; [by right|]. split; [done|].
    intros ->. rewrite parse_body_of in E by done. done.
Qed.

Section DialProperty.
  Context `{Crypto}.

(** The client's dial over HTTP/1.1: it writes the request with the hello and the
    sealed target as its first two chunks; given a response of status 200 with
    valid headers that declares a chunked body, whose first chunk is the server's
    answer with at most 1024 bytes of padding, it ends with the two keys of the
    server and a body reader at exactly the byte behind that chunk, unless a
    deadline stops it. *)
Theorem h1_client_dial psk path server target now rnd hello chunk nonce rnd2 answer ck sk rnd3 w pad rest conn :
  flightH1 psk target now rnd = Ok (hello, chunk, nonce) -> CreateServerHello psk nonce rnd2 = Ok (answer, ck, sk, rnd3) ->
  parse_response w = Ok (chunkOf (answer ++ pad) ++ rest) -> len pad <= 1024 -> carries conn w -> rd_live conn ->
  match dialPlainH1 psk path server target now rnd conn sink with
  | (Ok (clientKey, serverKey, body), out) =>
      clientKey = ck /\ serverKey = sk /\ wr_out out = requestHead path server ++ chunkOf hello ++ chunkOf chunk /\
      forall fuel plen, 0 < plen -> (sizeB (ck_r body) < fuel)%nat -> readChunks fuel body plen = (fst (parse_body rest), Some (snd (parse_body rest)))
  | (Fail e, _) => is_timeout e = true
  end.
Proof.
  intros Ef Ea Hresp Hpad Hc Hv. unfold dialPlainH1. rewrite Ef. unfold sink. rewrite Write_sink. cbn [app].
  assert (len answer = ServerHelloSize /\ VerifyServerHello psk nonce answer = Ok (ck, sk)) as [Hla Hver].
  { pose proof (h1_verify_server_created _ _ _ _ _ _ _ Ea) as Hver. split; [|done]. unfold VerifyServerHello in Hver.
    destruct (Z.eqb_spec (len answer) ServerHelloSize); [done|]. by cbn in Hver. }
  pose proof (readServerHello_step psk nonce (NewBufio conn) w answer pad rest ck sk (NewBufio_holds _ _ Hc Hv) Hresp Hla Hpad Hver) as Hs.
  destruct (readServerHello psk nonce (NewBufio conn)) as [[[k1 k2]|e] b]; [|done]. destruct Hs as [E Hb]. injection E as -> ->.
  split_and!; try done. intros fuel plen Hp Hf. rewrite (readChunks_pending _ _ rest); try done.
  intros _. split; cbn; try done. apply not_elem_of_nil.
Qed.
End DialProperty.

(** ** Witnesses *)

Definition demoChunks : list (list byte) := [bs "hello "; []; bs "world"].
Definition demoWire : list byte := Eval vm_compute in wr_out (writeChunks sink demoChunks).
(** Every byte in a read of its own, a deadline in the middle. *)
Definition demoReads : reader := Eval vm_compute in
  ((fun b => RD [b] None) <$> take 9 demoWire) ++ [RD [] (Some ErrDeadlineExceeded)] ++ ((fun b => RD [b] None) <$> drop 9 demoWire).

#[local] Instance rd_live_dec r : Decision (rd_live r).
Proof. unfold rd_live. apply _. Defined.

Lemma demoReads_ok : rd_lossless demoReads /\ rd_live demoReads /\ rd_content demoReads = demoWire.
Proof.
  split_and!; [|exact (proj1 (bool_decide_eq_true (rd_live demoReads)) eq_refl)|vm_compute; reflexivity].
  unfold rd_lossless, demoReads. repeat (apply Forall_cons; split; [exact I || reflexivity|]). apply Forall_nil_2.
Qed.

Lemma h1_chunked_reference_witness :
  readChunks (S (length (rd_content demoReads) + length demoReads)) (newChunkedReader (NewBufio demoReads)) 3 = (bs "hello world", Some EOF).
Proof. destruct demoReads_ok as (H1 & H2 & _). rewrite (h1_chunked_reference demoReads 3 H1 H2 ltac:(lia)). vm_compute. reflexivity. Defined.

Lemma h1_chunked_safe_witness :
  exists d, readChunks (S (length (rd_content demoReads) + length demoReads)) (newChunkedReader (NewBufio demoReads)) 3 = (d, Some EOF) /\ d = concat demoChunks.
Proof.
  destruct demoReads_ok as (H1 & H2 & H3).
  destruct (h1_chunked_safe demoChunks demoWire demoReads 3) as (d & e & E & _ & _ & [_ Hi] & Hd).
  - repeat constructor; vm_compute; discriminate.
  - exists []. vm_compute. reflexivity.
  - exact (conj H1 H3).
  - exact H2.
  - lia.
  - assert (e = EOF) as -> by (apply Hi; vm_compute; reflexivity). exists d. split; [exact E|apply Hd; reflexivity].
Defined.

(** A response as the server's library writes it. *)
Definition demoHead : list byte :=
  bs "HTTP/1.1 200 OK" ++ [cr; lf] ++ bs "Content-Type: application/octet-stream" ++ [cr; lf] ++ bs "Transfer-Encoding: chunked" ++ [cr; lf; cr; lf].
Definition demoResponse : list byte := Eval vm_compute in demoHead ++ (chunkOf (demoAnswerH1.1.1.1 ++ []) ++ demoWire).

Lemma demoResponse_ok :
  parse_response demoResponse = Ok (chunkOf (demoAnswerH1.1.1.1 ++ []) ++ demoWire) /\ carries [RD demoResponse None] demoResponse /\
  rd_live [RD demoResponse None] /\
  match dialPlainH1 key2 (bs "/p") (bs "srv:80") demoTarget h1Time demoRandom [RD demoResponse None] sink with (Ok _, _) => True | (Fail _, _) => False end.
Proof.
  split_and!; [vm_compute; reflexivity| |exact (proj1 (bool_decide_eq_true (rd_live [RD demoResponse None])) eq_refl)|vm_compute; exact I].
  split; [apply Forall_cons; split; [exact I|apply Forall_nil_2]|vm_compute; reflexivity].
Qed.

Lemma h1_client_dial_witness :
  exists body out, dialPlainH1 key2 (bs "/p") (bs "srv:80") demoTarget h1Time demoRandom [RD demoResponse None] sink =
    (Ok (demoAnswerH1.1.1.2, demoAnswerH1.1.2, body), out).
Proof.
  destruct h1_exchange as (E1 & _ & _ & E4). destruct demoResponse_ok as (P1 & P2 & P3 & P4).
  pose proof (h1_client_dial key2 (bs "/p") (bs "srv:80") demoTarget h1Time demoRandom demoFlightH1.1.1 demoFlightH1.1.2 demoFlightH1.2
    (h_rnd httpIO) demoAnswerH1.1.1.1 demoAnswerH1.1.1.2 demoAnswerH1.1.2 demoAnswerH1.2 demoResponse [] demoWire [RD demoResponse None]
    E1 E4 P1 ltac:(vm_compute; discriminate) P2 P3) as Hd.
  destruct (dialPlainH1 key2 _ _ _ _ _ _ _) as [[[[k1 k2] body]|e] out]; [|destruct P4].
  destruct Hd as (-> & -> & _ & _). exists body, out. reflexivity.
Defined.
