(* ===== verification/UdpRelay.v ===== *)
(** * The UDP association over HTTP/3: [udpRelay] of [pkg/server] (http3.go)

    One goroutine takes the client's datagrams and forwards them in batches; a
    goroutine per target carries the answers back; the context may be cancelled
    at any time.  A state holds the relay, the point the forwarding goroutine has
    reached and what went in and out; a step is one critical section or one call
    of the outside, whose results are arguments of the step.  A receiver reads,
    numbers and sends in one step: its numbers come from an atomic counter and
    its sends hold [sendMu].  Objects are numbered in the order of their
    creation. *)
From S2P Require Import Prelude GoNet ReplayWindow Frame Icmp Target UdpBudget.

Open Scope Z_scope.

#[local] Arguments bs : simpl never.

(** ** Data *)

Definition udpRelayBatchSize : Z := 64.
Definition icmpPrefix : gostring := bs "icmp:".
Definition errTooMany := Errorf "too many UDP/ICMP targets".
Definition errBudget := Errorf "UDP target budget exhausted".
Definition errDatagram := Errorf "invalid or replayed datagram".
Definition errICMPAddress := Errorf "invalid ICMP target address".
Definition errDatagramTooLarge := Errorf "DatagramTooLargeError".

(** [udpTarget] and [icmpTarget]: how batches are written and where the socket is
    connected to; the address and the outstanding requests of an echo. *)
Inductive kind :=
  | KUDP (writesBatch kernelBatch : bool) (remote : option UDPAddr)
  | KICMP (targetIP : IP) (outstanding : gmap Z pendingEcho).

Record tgt := mkTgt {
  t_address : gostring;
  t_kind : kind;
  t_lease : lease;
  t_closed : bool;              (* once *)
  t_active : Z;                 (* lastActive *)
  t_running : bool;             (* its receiver has not returned *)
}.

Record relay := mkRelay {
  r_identity : gostring;
  r_dialUDP : bool;             (* an embedder's dialer is installed *)
  r_allowPrivate : bool;
  r_objs : list tgt;
  r_targets : gmap gostring nat;
  r_icmp : gmap gostring nat;
  r_opening : gmap gostring lease;
  r_closed : bool;
  r_cancelled : bool;
  r_replay : ReplayWindow;
  r_decoder : DatagramCache;
  r_sequence : Z;
  r_echo : Z;                   (* nextEchoToken, shared with everyone *)
  r_budget : Budget;            (* shared with everyone *)
}.

(** Updates of one field. *)
Definition setObj (r : relay) (i : nat) (t : tgt) : relay :=
  mkRelay (r_identity r) (r_dialUDP r) (r_allowPrivate r) (<[i := t]> (r_objs r)) (r_targets r) (r_icmp r) (r_opening r) (r_closed r)
    (r_cancelled r) (r_replay r) (r_decoder r) (r_sequence r) (r_echo r) (r_budget r).
Definition addObj (r : relay) (t : tgt) : relay :=
  mkRelay (r_identity r) (r_dialUDP r) (r_allowPrivate r) (r_objs r ++ [t]) (r_targets r) (r_icmp r) (r_opening r) (r_closed r)
    (r_cancelled r) (r_replay r) (r_decoder r) (r_sequence r) (r_echo r) (r_budget r).
Definition setTables (r : relay) (m i : gmap gostring nat) (o : gmap gostring lease) (closed : bool) : relay :=
  mkRelay (r_identity r) (r_dialUDP r) (r_allowPrivate r) (r_objs r) m i o closed
    (r_cancelled r) (r_replay r) (r_decoder r) (r_sequence r) (r_echo r) (r_budget r).
Definition setBudget (r : relay) (b : Budget) : relay :=
  mkRelay (r_identity r) (r_dialUDP r) (r_allowPrivate r) (r_objs r) (r_targets r) (r_icmp r) (r_opening r) (r_closed r)
    (r_cancelled r) (r_replay r) (r_decoder r) (r_sequence r) (r_echo r) b.
Definition setInput (r : relay) (w : ReplayWindow) (d : DatagramCache) : relay :=
  mkRelay (r_identity r) (r_dialUDP r) (r_allowPrivate r) (r_objs r) (r_targets r) (r_icmp r) (r_opening r) (r_closed r)
    (r_cancelled r) w d (r_sequence r) (r_echo r) (r_budget r).
Definition setSequence (r : relay) (n : Z) : relay :=
  mkRelay (r_identity r) (r_dialUDP r) (r_allowPrivate r) (r_objs r) (r_targets r) (r_icmp r) (r_opening r) (r_closed r)
    (r_cancelled r) (r_replay r) (r_decoder r) n (r_echo r) (r_budget r).
Definition setEcho (r : relay) (n : Z) : relay :=
  mkRelay (r_identity r) (r_dialUDP r) (r_allowPrivate r) (r_objs r) (r_targets r) (r_icmp r) (r_opening r) (r_closed r)
    (r_cancelled r) (r_replay r) (r_decoder r) (r_sequence r) n (r_budget r).
Definition cancel (r : relay) : relay :=
  mkRelay (r_identity r) (r_dialUDP r) (r_allowPrivate r) (r_objs r) (r_targets r) (r_icmp r) (r_opening r) (r_closed r)
    true (r_replay r) (r_decoder r) (r_sequence r) (r_echo r) (r_budget r).

Definition touch (t : tgt) (now : Z) : tgt := mkTgt (t_address t) (t_kind t) (t_lease t) (t_closed t) now (t_running t).
Definition stopped (t : tgt) : tgt := mkTgt (t_address t) (t_kind t) (t_lease t) (t_closed t) (t_active t) false.
Definition withTracker (t : tgt) (ip : IP) (tr : gmap Z pendingEcho) (now : Z) : tgt :=
  mkTgt (t_address t) (KICMP ip tr) (t_lease t) (t_closed t) now (t_running t).

Definition newUDPRelay (identity : gostring) (dialUDP allowPrivate : bool) (b : Budget) : relay :=
  mkRelay identity dialUDP allowPrivate [] ∅ ∅ ∅ false false zeroWindow zeroDatagramCache 0 0 b.

(** ** Targets *)

(** [udpTarget.close] and [icmpTarget.close]. *)
Definition closeTarget (r : relay) (i : nat) : relay :=
  match r_objs r !! i with
  | None => r
  | Some t =>
      if t_closed t then r
      else
        let '(b, l) := release (r_budget r) (t_lease t) in
        setBudget (setObj r i (mkTgt (t_address t) (t_kind t) l true (t_active t) (t_running t))) b
  end.

(** [removeTarget] and [removeICMPTarget]: under the lock, then the close. *)
Definition removeTarget (r : relay) (i : nat) : relay :=
  match r_objs r !! i with
  | None => r
  | Some t =>
      let drop (m : gmap gostring nat) := if bool_decide (m !! t_address t = Some i) then delete (t_address t) m else m in
      let r := match t_kind t with
               | KUDP _ _ _ => setTables r (drop (r_targets r)) (r_icmp r) (r_opening r) (r_closed r)
               | KICMP _ _ => setTables r (r_targets r) (drop (r_icmp r)) (r_opening r) (r_closed r)
               end in
      closeTarget r i
  end.

(** [beginTarget]. *)
Inductive begun :=
  | Refused (err : error)
  | Pending                                  (* somebody else is creating it *)
  | Existing (udp icmp : option nat)
  | Create.

Definition beginTarget (r : relay) (address : gostring) : begun * relay :=
  if r_closed r || r_cancelled r then (Refused ErrNetClosed, r)
  else if bool_decide (is_Some (r_opening r !! address)) then (Pending, r)
  else match r_targets r !! address, r_icmp r !! address with
  | None, None =>
      if 64 <=? Z.of_nat (size (r_targets r)) + Z.of_nat (size (r_icmp r)) + Z.of_nat (size (r_opening r)) then (Refused errTooMany, r)
      else
        match ReserveUDPTarget (r_budget r) (r_identity r) with
        | (None, b) => (Refused errBudget, setBudget r b)
        | (Some l, b) => (Create, setBudget (setTables r (r_targets r) (r_icmp r) (<[address := l]> (r_opening r)) (r_closed r)) b)
        end
  | udp, icmp => (Existing udp icmp, r)
  end.

(** [finishTarget]: with what was dialled, or the error of the dial. *)
Definition finishTarget (r : relay) (address : gostring) (l : lease) (dialled : result kind) (now : Z) : result nat * relay :=
  let id := length (r_objs r) in
  let opening := delete address (r_opening r) in
  match dialled with
  | Fail err =>
      let r := setTables r (r_targets r) (r_icmp r) opening (r_closed r) in
      let '(b, _) := release (r_budget r) l in
      (Fail (if r_closed r || r_cancelled r then ErrNetClosed else err), setBudget r b)
  | Ok k =>
      if r_closed r || r_cancelled r then
        (Fail ErrNetClosed, closeTarget (addObj (setTables r (r_targets r) (r_icmp r) opening (r_closed r)) (mkTgt address k l false now false)) id)
      else
        let r := addObj r (mkTgt address k l false now true) in
        match k with
        | KUDP _ _ _ => (Ok id, setTables r (<[address := id]> (r_targets r)) (r_icmp r) opening (r_closed r))
        | KICMP _ _ => (Ok id, setTables r (r_targets r) (<[address := id]> (r_icmp r)) opening (r_closed r))
        end
  end.

(** What the outside answers to a dial: the socket of [dialUDP] or of
    [net.DialUDP], or an error; likewise for ICMP. *)
Record DialIO := mkDialIO {
  d_lookup : gostring -> result (list IPAddr);
  d_socket : result (bool * bool);           (* writes batches itself, IPv4 UDP socket *)
  d_packet : option error;                   (* the ICMP socket *)
}.

Definition dialUDPTarget (r : relay) (io : DialIO) (address : gostring) : result kind :=
  if r_dialUDP r then
    let? (bw, kernel) := d_socket io in Ok (KUDP bw kernel None)
  else
    let? resolved := ResolveUDPAddr (d_lookup io) address in
    let? (bw, kernel) := d_socket io in Ok (KUDP bw kernel (Some resolved)).

Definition dialICMPTarget (r : relay) (io : DialIO) (address : gostring) : result kind :=
  let targetStr := if hasPrefix icmpPrefix address then drop (length icmpPrefix) address else address in
  match ResolveICMPIP (d_lookup io) targetStr (r_allowPrivate r) with
  | Fail _ => Fail errICMPAddress                (* with the cause, as text *)
  | Ok ip =>
      match d_packet io with
      | Some err => Fail err
      | None => Ok (KICMP ip ∅)
      end
  end.

(** ** Writing to a target *)

(** What the socket answers: the count and error of a batch, the error of the
    write of the payload of an index. *)
Record WriteIO := mkWriteIO {
  w_batch : Z * option error;
  w_write : nat -> option error;
}.

(** One write after the other until one fails: what was delivered. *)
Fixpoint writeEach (w : nat -> option error) (i : nat) (ps : list (list byte)) : list (list byte) * option error :=
  match ps with
  | [] => ([], None)
  | p :: rest =>
      match w i with
      | Some err => ([], Some err)
      | None => let '(d, e) := writeEach w (S i) rest in (p :: d, e)
      end
  end.

Definition writeBatch (bw kernel : bool) (io : WriteIO) (ps : list (list byte)) : list (list byte) * option error :=
  if bw && (1 <? len ps) then (ztake (fst (w_batch io)) ps, snd (w_batch io))
  else if negb kernel || (len ps =? 1) then writeEach (w_write io) 0 ps
  else
    let written := Z.max 0 (Z.min (fst (w_batch io)) (len ps)) in
    let '(d, e) := writeEach (w_write io) (Z.to_nat written) (zdrop written ps) in
    (ztake written ps ++ d, e).

(** ** The forwarding goroutine *)

(** What [ForwardBatch] keeps between two datagrams. *)
Record batch := mkBatch {
  b_packets : list (list byte);
  b_current : option nat;
  b_payloads : list (list byte);
  b_err : option error;
}.

(** Where it goes on after a flush. *)
Inductive after :=
  | AICMP (address : gostring) (payload : list byte)
  | AUse (id : nat) (payload : list byte)
  | ANext
  | ADone.

Inductive point :=
  | Idle
  | Next (b : batch)
  | Lookup (b : batch) (address : gostring) (payload : list byte)
  | Begin (b : batch) (address : gostring) (payload : list byte)
  | Dialling (b : batch) (address : gostring) (payload : list byte)
  | Use (b : batch) (id : nat) (payload : list byte)
  | UseICMP (b : batch) (id : nat) (payload : list byte)
  | Flush (b : batch) (k : after)
  | Closing (ids : list nat)
  | Closed
  | Panic.

(** What went in and out. *)
Record log := mkLog {
  g_accepted : list (Z * gostring * list byte);      (* datagrams that passed the replay window *)
  g_writes : list (gostring * list byte);            (* to UDP targets *)
  g_echoes : list (gostring * list byte * list byte);  (* requests to ICMP targets, with their wire form *)
  g_answers : list (Z * gostring * list byte);       (* encoded for the client *)
  g_sent : list (list byte);                         (* datagrams the stream took *)
}.

Record sys := mkSys {
  s_relay : relay;
  s_point : point;
  s_log : log;
}.

(** With the leases of everybody else who shares the budget. *)
Record world := mkWorld {
  w_sys : sys;
  w_others : list lease;
}.

Definition isICMP (address : gostring) : bool := hasPrefix icmpPrefix address.

Definition note (b : batch) (err : error) : batch :=
  mkBatch (b_packets b) (b_current b) (b_payloads b) (match b_err b with None => Some err | e => e end).

(** The next datagram of the loop. *)
Definition nextStep (s : sys) (b : batch) : sys :=
  match b_packets b with
  | [] => mkSys (s_relay s) (Flush b ADone) (s_log s)
  | packet :: rest =>
      let b := mkBatch rest (b_current b) (b_payloads b) (b_err b) in
      let r := s_relay s in
      let '(res, decoder) := DatagramCache_Decode (r_decoder r) packet in
      match res with
      | Fail _ => mkSys (setInput r (r_replay r) decoder) (Next (note b errDatagram)) (s_log s)
      | Ok (sequence, address, payload) =>
          let '(ok, window) := Accept (r_replay r) sequence in
          let r := setInput r window decoder in
          if negb ok then mkSys r (Next (note b errDatagram)) (s_log s)
          else
            let g := s_log s in
            let g := mkLog (g_accepted g ++ [(sequence, address, payload)]) (g_writes g) (g_echoes g) (g_answers g) (g_sent g) in
            if isICMP address then mkSys r (Flush b (AICMP address payload)) g
            else
              match b_current b with
              | Some i =>
                  if bool_decide (t_address <$> r_objs r !! i = Some address) then mkSys r (Use b i payload) g
                  else mkSys r (Lookup b address payload) g
              | None => mkSys r (Lookup b address payload) g
              end
      end
  end.

(** A target was found or made; a nil one is dereferenced. *)
Definition useTarget (b : batch) (icmp : bool) (id : option nat) (payload : list byte) : point :=
  match id with
  | None => Panic
  | Some i => if icmp then UseICMP b i payload else Use b i payload
  end.

(** The first lookup of [target] and [getOrCreateICMPTarget]. *)
Definition lookupStep (s : sys) (b : batch) (address : gostring) (payload : list byte) : sys :=
  let r := s_relay s in
  if r_closed r then mkSys r (Next (note b ErrNetClosed)) (s_log s)
  else match (if isICMP address then r_icmp r else r_targets r) !! address with
  | Some i => mkSys r (useTarget b (isICMP address) (Some i) payload) (s_log s)
  | None => mkSys r (Begin b address payload) (s_log s)
  end.

(** [beginTarget] and the wait for somebody else's opening; [done] says which of
    two ready channels the select takes. *)
Definition beginStep (s : sys) (b : batch) (address : gostring) (payload : list byte) (done : bool) : sys :=
  let r := s_relay s in
  match beginTarget r address with
  | (Refused err, r) => mkSys r (Next (note b err)) (s_log s)
  | (Create, r) => mkSys r (Dialling b address payload) (s_log s)
  | (Pending, r) => if r_cancelled r then mkSys r (Next (note b ErrNetClosed)) (s_log s) else s
  | (Existing udp icmp, r) =>
      if r_cancelled r && negb done then mkSys r (Next (note b ErrNetClosed)) (s_log s)
      else mkSys r (useTarget b (isICMP address) (if isICMP address then icmp else udp) payload) (s_log s)
  end.

(** The dial and [finishTarget]. *)
Definition dialStep (s : sys) (io : DialIO) (now : Z) (b : batch) (address : gostring) (payload : list byte) : sys :=
  let r := s_relay s in
  match r_opening r !! address with
  | None => s
  | Some l =>
      let dialled := if isICMP address then dialICMPTarget r io address else dialUDPTarget r io address in
      match finishTarget r address l dialled now with
      | (Fail err, r) => mkSys r (Next (note b err)) (s_log s)
      | (Ok i, r) => mkSys r (useTarget b (isICMP address) (Some i) payload) (s_log s)
      end
  end.

(** A payload for the target [i]: switch to it, then add the payload. *)
Definition useStep (s : sys) (now : Z) (b : batch) (i : nat) (payload : list byte) : sys :=
  match r_objs (s_relay s) !! i with
  | None => s
  | Some t =>
      if bool_decide (is_Some (b_current b)) && negb (bool_decide (b_current b = Some i)) && (0 <? len (b_payloads b))
      then mkSys (s_relay s) (Flush b (AUse i payload)) (s_log s)
      else
        let b := mkBatch (b_packets b) (Some i) (b_payloads b ++ [payload]) (b_err b) in
        mkSys (setObj (s_relay s) i (touch t now))
          (if len (b_payloads b) =? udpRelayBatchSize then Flush b ANext else Next b) (s_log s)
  end.

(** [forwardICMP] from the target on. *)
Definition icmpStep (s : sys) (now : Z) (err : option error) (b : batch) (i : nat) (payload : list byte) : sys :=
  match r_objs (s_relay s) !! i with
  | Some t =>
      match t_kind t with
      | KICMP ip out =>
          let ipv6 := bool_decide (To4 ip = None) in
          let '(res, tr) := PrepareRequest now (mkTracker out (r_echo (s_relay s))) payload ipv6 in
          let r := setEcho (s_relay s) (nextEchoToken tr) in
          match res with
          | Fail e => mkSys (setObj r i (withTracker t ip (pending tr) (t_active t))) (Next (note b e)) (s_log s)
          | Ok wire =>
              let g := s_log s in
              let g := match err with
                       | None => mkLog (g_accepted g) (g_writes g) (g_echoes g ++ [(t_address t, payload, wire)]) (g_answers g) (g_sent g)
                       | Some _ => g
                       end in
              mkSys (setObj r i (withTracker t ip (pending tr) now)) (Next (match err with None => b | Some e => note b e end)) g
          end
      | KUDP _ _ _ => s
      end
  | None => s
  end.

(** Where the loop goes on. *)
Definition resume (b : batch) (k : after) : point :=
  match k with
  | AICMP address payload => Lookup (mkBatch (b_packets b) None (b_payloads b) (b_err b)) address payload
  | AUse i payload => Use b i payload
  | ANext => Next b
  | ADone => Idle
  end.

(** [flush]. *)
Definition flushStep (s : sys) (io : WriteIO) (b : batch) (k : after) : sys :=
  if len (b_payloads b) =? 0 then mkSys (s_relay s) (resume b k) (s_log s)
  else
    match b_current b with
    | None => mkSys (s_relay s) Panic (s_log s)
    | Some i =>
        match r_objs (s_relay s) !! i with
        | Some t =>
            match t_kind t with
            | KUDP bw kernel _ =>
                let '(delivered, err) := writeBatch bw kernel io (b_payloads b) in
                let g := s_log s in
                let g := mkLog (g_accepted g) (g_writes g ++ ((fun p => (t_address t, p)) <$> delivered)) (g_echoes g) (g_answers g) (g_sent g) in
                let fresh := bool_decide (b_err b = None) in
                let r := match err with Some _ => if fresh then removeTarget (s_relay s) i else s_relay s | None => s_relay s end in
                let b := mkBatch (b_packets b) (b_current b) [] (match err with Some e => if fresh then Some e else b_err b | None => b_err b end) in
                mkSys r (resume b k) g
            | KICMP _ _ => s
            end
        | None => s
        end
    end.

(** ** The receivers *)

(** What the stream answers: whether it takes batches, with how many taken and
    the error; the error for the datagram of an index. *)
Record SendIO := mkSendIO {
  o_batch : option (Z * option error);
  o_send : nat -> option error;
}.

Fixpoint sendEach (w : nat -> option error) (i : nat) (ds : list (list byte)) : list (list byte) * option error :=
  match ds with
  | [] => ([], None)
  | d :: rest =>
      match w i with
      | Some err =>
          if bool_decide (err = errDatagramTooLarge) then sendEach w (S i) rest else ([], Some err)
      | None => let '(sent, e) := sendEach w (S i) rest in (d :: sent, e)
      end
  end.

Definition sendResponseBatch (io : SendIO) (ds : list (list byte)) : list (list byte) * option error :=
  if len ds =? 0 then ([], None)
  else match o_batch io with
  | Some (n, err) =>
      if 1 <? len ds then
        match err with
        | None => (ds, None)
        | Some e =>
            if bool_decide (e = errDatagramTooLarge) then let '(sent, e) := sendEach (o_send io) 0 ds in (ztake n ds ++ sent, e)
            else (ztake n ds, Some e)
        end
      else sendEach (o_send io) 0 ds
  | None => sendEach (o_send io) 0 ds
  end.

(** The answers of one read, numbered and encoded. *)
Fixpoint encodeAll (sequence : Z) (address : gostring) (data : list (list byte)) : list (Z * gostring * list byte) * list (list byte) * Z :=
  match data with
  | [] => ([], [], sequence)
  | p :: rest =>
      if MaxDatagramPayload <? len p then encodeAll sequence address rest
      else
        let n := u64 (sequence + 1) in
        let '(answers, packets, last) := encodeAll n address rest in
        match EncodeDatagramInto MaxDatagramSize n address p with
        | Ok packet => ((n, address, p) :: answers, packet :: packets, last)
        | Fail _ => (answers, packets, last)
        end
  end.

(** The receiver of [i] returns: [removeTarget] or [removeICMPTarget]. *)
Definition endReceiver (r : relay) (i : nat) : relay :=
  match r_objs r !! i with
  | Some t => let r := removeTarget r i in
              match r_objs r !! i with Some t => setObj r i (stopped t) | None => r end
  | None => r
  end.

(** A read that failed: only a deadline while the target is not idle is
    survived. *)
Definition survives (r : relay) (t : tgt) (now : Z) (err : error) : bool :=
  is_timeout err && (now - t_active t <? Minute) && negb (r_cancelled r).

(** What a read of a receiver brings: datagrams of an address (one from
    [receiveSingle], up to 64 from [receiveBatch]), the error of the read, the
    answers of the stream. *)
Record ReadIO := mkReadIO {
  i_now : Z;
  i_from : gostring;                         (* the sender as text *)
  i_fromIP : option IP;                      (* the sender of an ICMP packet *)
  i_data : list (list byte);
  i_err : option error;
  i_send : SendIO;
}.

Definition deliver (s : sys) (i : nat) (t : tgt) (address : gostring) (data : list (list byte)) (io : ReadIO) : sys :=
  let r := setObj (s_relay s) i t in
  let '(answers, packets, last) := encodeAll (r_sequence r) address data in
  let '(sent, sendErr) := sendResponseBatch (i_send io) packets in
  let r := setSequence r last in
  let g := s_log s in
  let g := mkLog (g_accepted g) (g_writes g) (g_echoes g) (g_answers g ++ answers) (g_sent g ++ sent) in
  let ends := match sendErr with
              | Some _ => true
              | None => match i_err io with Some err => negb (survives r t (i_now io) err) | None => false end
              end in
  mkSys (if ends then endReceiver r i else r) (s_point s) g.

(** An iteration of [receiveSingle], or of [receiveBatch] for a kernel socket. *)
Definition receiveUDP (s : sys) (i : nat) (t : tgt) (kernel : bool) (io : ReadIO) : sys :=
  let data := match i_err io with Some _ => if kernel then i_data io else [] | None => i_data io end in
  let t' := if 0 <? len data then touch t (i_now io) else t in
  deliver s i t' (i_from io) data io.

(** An iteration of [receiveICMP]. *)
Definition receiveICMP (s : sys) (i : nat) (t : tgt) (ip : IP) (out : gmap Z pendingEcho) (io : ReadIO) : sys :=
  match i_err io with
  | Some err => if survives (s_relay s) t (i_now io) err then s else mkSys (endReceiver (s_relay s) i) (s_point s) (s_log s)
  | None =>
      match i_data io, i_fromIP io with
      | [raw], Some from =>
          if negb (Equal from ip) then s
          else
            let '(res, tr) := RestoreReply (i_now io) (mkTracker out (r_echo (s_relay s))) raw (bool_decide (To4 ip = None)) in
            match res with
            | Some data =>
                if MaxDatagramPayload <? len data then mkSys (setObj (s_relay s) i (withTracker t ip (pending tr) (t_active t))) (s_point s) (s_log s)
                else deliver s i (withTracker t ip (pending tr) (i_now io)) (icmpPrefix ++ IPString ip) [data] io
            | None => mkSys (setObj (s_relay s) i (withTracker t ip (pending tr) (t_active t))) (s_point s) (s_log s)
            end
      | _, _ => s
      end
  end.

(** An iteration of the receiver of [i], while it runs. *)
Definition receiveStep (s : sys) (i : nat) (io : ReadIO) : sys :=
  match r_objs (s_relay s) !! i with
  | None => s
  | Some t =>
      if negb (t_running t) then s
      else
        match t_kind t with
        | KUDP _ kernel _ => receiveUDP s i t kernel io
        | KICMP ip out => receiveICMP s i t ip out io
        end
  end.

(** ** Close *)

(** [Close] after the loop: cancel, seal and take the tables. *)
Definition closeRelay (s : sys) : sys :=
  let r := cancel (s_relay s) in
  let ids := (snd <$> map_to_list (r_targets r)) ++ (snd <$> map_to_list (r_icmp r)) in
  mkSys (setTables r ∅ ∅ (r_opening r) true) (Closing ids) (s_log s).

(** One target after the other, then the wait for the receivers. *)
Definition closingStep (s : sys) (ids : list nat) : sys :=
  match ids with
  | i :: rest => mkSys (closeTarget (s_relay s) i) (Closing rest) (s_log s)
  | [] => if existsb t_running (r_objs (s_relay s)) then s else mkSys (s_relay s) Closed (s_log s)
  end.

(** ** Steps *)

Inductive event :=
  | EBatch (packets : list (list byte))          (* a batch arrived *)
  | EForward (now : Z) (dial : DialIO) (write : WriteIO) (done : bool) (echoErr : option error)
  | ERead (i : nat) (io : ReadIO)
  | ECancel
  | EClose                                       (* the loop has ended *)
  | EOther (op : budgetOp)                       (* others, with the same budget *)
  | EToken (n : Z).                              (* others drew tokens *)

Definition forwardStep (s : sys) (now : Z) (dial : DialIO) (write : WriteIO) (done : bool) (echoErr : option error) : sys :=
  match s_point s with
  | Idle | Closed | Panic => s
  | Next b => nextStep s b
  | Lookup b address payload => lookupStep s b address payload
  | Begin b address payload => beginStep s b address payload done
  | Dialling b address payload => dialStep s dial now b address payload
  | Use b i payload => useStep s now b i payload
  | UseICMP b i payload => icmpStep s now echoErr b i payload
  | Flush b k => flushStep s write b k
  | Closing ids => closingStep s ids
  end.

Definition step (s : sys) (e : event) : sys :=
  match e with
  | EBatch packets =>
      match s_point s with
      | Idle => if len packets <=? udpRelayBatchSize then mkSys (s_relay s) (Next (mkBatch packets None [] None)) (s_log s) else s
      | _ => s
      end
  | EForward now dial write done echoErr => forwardStep s now dial write done echoErr
  | ERead i io => receiveStep s i io
  | ECancel => mkSys (cancel (s_relay s)) (s_point s) (s_log s)
  | EClose => match s_point s with Idle => closeRelay s | _ => s end
  | EOther _ => s
  | EToken n => mkSys (setEcho (s_relay s) (u32 (r_echo (s_relay s) + n))) (s_point s) (s_log s)
  end.

Definition worldStep (w : world) (e : event) : world :=
  match e with
  | EOther op =>
      let s := w_sys w in
      let '(b, ls) := budgetStep (r_budget (s_relay s), w_others w) op in
      mkWorld (mkSys (setBudget (s_relay s) b) (s_point s) (s_log s)) ls
  | _ => mkWorld (step (w_sys w) e) (w_others w)
  end.

Definition start (identity : gostring) (dialUDP allowPrivate : bool) (b : Budget) (others : list lease) : world :=
  mkWorld (mkSys (newUDPRelay identity dialUDP allowPrivate b) Idle (mkLog [] [] [] [] [])) others.

Definition run (w : world) (es : list event) : world := foldl worldStep w es.
