(* ===== verification/UdpRelayInv.v ===== *)
(** * Targets of the UDP association: the invariant of the relay of [UdpRelay.v]

    The tables, the objects, the openings and the reservations of the socket
    budget, and that every operation of http3.go on targets keeps them. *)
From S2P Require Import Prelude GoNet ReplayWindow Frame Icmp Target UdpBudget UdpRelay.

Open Scope Z_scope.

#[local] Arguments bs : simpl never.

(** ** The relay *)

Definition isUDP (t : tgt) : Prop := match t_kind t with KUDP _ _ _ => True | KICMP _ _ => False end.

(** Where a target may be. *)
Definition egressOk (r : relay) (t : tgt) : Prop :=
  match t_kind t with
  | KUDP _ _ (Some a) => isICMP (t_address t) = false /\ r_dialUDP r = false /\ allowed (udpIP a) = true
  | KUDP _ _ None => isICMP (t_address t) = false /\ r_dialUDP r = true
  | KICMP ip _ => isICMP (t_address t) = true /\ (r_allowPrivate r = false -> allowed ip = true)
  end.

(** An entry of a table. *)
Definition entryOk (objs : list tgt) (icmp : bool) (a : gostring) (i : nat) : Prop :=
  isICMP a = icmp /\ exists t, objs !! i = Some t /\ t_address t = a /\ t_closed t = false /\ t_running t = true.

Record objOk (r : relay) (t : tgt) : Prop := {
  ob_once : t_closed t = l_released (t_lease t);
  ob_identity : l_identity (t_lease t) = r_identity r;
  ob_stopped : t_running t = false -> t_closed t = true;
  ob_egress : egressOk r t;
}.

Definition config (r : relay) : gostring * bool * bool := (r_identity r, r_dialUDP r, r_allowPrivate r).

(** The object [i] is in the table of its kind. *)
Definition tabled (r : relay) (i : nat) (t : tgt) : Prop :=
  (if isICMP (t_address t) then r_icmp r else r_targets r) !! t_address t = Some i.

Record relayInv (r : relay) : Prop := {
  ri_targets : forall a i, r_targets r !! a = Some i -> entryOk (r_objs r) false a i;
  ri_icmp : forall a i, r_icmp r !! a = Some i -> entryOk (r_objs r) true a i;
  ri_objs : forall i t, r_objs r !! i = Some t -> objOk r t;
  ri_live : forall i t, r_closed r = false -> r_objs r !! i = Some t -> t_closed t = false -> tabled r i t;
  ri_bound : Z.of_nat (size (r_targets r)) + Z.of_nat (size (r_icmp r)) + Z.of_nat (size (r_opening r)) <= 64;
  ri_opening : forall a l, r_opening r !! a = Some l ->
    l = mkLease (r_identity r) false /\ r_targets r !! a = None /\ r_icmp r !! a = None;
  ri_closed : r_closed r = true -> r_targets r = ∅ /\ r_icmp r = ∅;
}.

(** The reservations of the relay. *)
Definition opened (r : relay) : list lease := snd <$> map_to_list (r_opening r).
Definition heldBy (r : relay) : list gostring := outstanding (opened r) ++ outstanding (t_lease <$> r_objs r).

Definition relayBudget (r : relay) (others : list gostring) : Prop := budgetOk (r_budget r) (others ++ heldBy r).

(** What every step keeps of the objects. *)
Record extends (r r' : relay) : Prop := {
  ex_objs : forall i t, r_objs r !! i = Some t ->
    exists t', r_objs r' !! i = Some t' /\ t_address t' = t_address t /\ (isUDP t' <-> isUDP t) /\
      (t_closed t = true -> t_closed t' = true) /\ (t_running t = false -> t_running t' = false);
  ex_config : config r' = config r;
}.

#[export] Instance extends_preorder : PreOrder extends.
Proof.
  split.
  - intros r. split; [|done]. intros i t Ht. by exists t.
  - intros r1 r2 r3 [H1 C1] [H2 C2]. split; [|congruence].
    intros i t Ht. destruct (H1 i t Ht) as (t2 & Ht2 & E2 & K2 & R2 & S2). destruct (H2 i t2 Ht2) as (t3 & Ht3 & E3 & K3 & R3 & S3).
    exists t3. split; [done|]. split; [congruence|]. split; [by rewrite K3|auto].
Qed.

(** What one object becomes. *)
Record becomes (r : relay) (t t' : tgt) : Prop := {
  bc_address : t_address t' = t_address t;
  bc_kind : isUDP t' <-> isUDP t;
  bc_closed : t_closed t = true -> t_closed t' = true;
  bc_running : t_closed t' = false -> t_running t' = t_running t;
  bc_stopped : t_running t = false -> t_running t' = false;
  bc_ok : objOk r t';
}.

(** The entries that stay when the object [i] becomes [t']. *)
Definition keeps (m m' : gmap gostring nat) (i : nat) (t' : tgt) : Prop :=
  forall a j, m' !! a = Some j <-> m !! a = Some j /\ (j = i -> t_closed t' = false).

Lemma objOk_config r r' t : config r' = config r -> objOk r t -> objOk r' t.
Proof.
  intros E [H1 H2 H3 H4]. unfold config in E. injection E as E1 E2 E3.
  split; [done|congruence|done|]. unfold egressOk in *. by rewrite E2, E3.
Qed.

Lemma update_inv r r' i t t' :
  relayInv r -> r_objs r !! i = Some t -> becomes r t t' ->
  r_objs r' = <[i := t']> (r_objs r) -> config r' = config r -> r_opening r' = r_opening r -> r_closed r' = r_closed r ->
  keeps (r_targets r) (r_targets r') i t' -> keeps (r_icmp r) (r_icmp r') i t' ->
  relayInv r' /\ extends r r'.
Proof.
  intros [H1 H2 H3 H3' H4 H5 H6] Hi [Ba Bk Bc Br Bs Bo] Eo Ec Ep El Kt Ki.
  pose proof (lookup_lt_Some _ _ _ Hi) as Hlt.
  assert (Hs : forall m m' : gmap gostring nat, keeps m m' i t' -> m' ⊆ m).
  { intros m m' K. apply map_subseteq_spec. intros a j Ha. by apply K in Ha as [? _]. }
  pose proof (map_subseteq_size _ _ (Hs _ _ Kt)) as St. pose proof (map_subseteq_size _ _ (Hs _ _ Ki)) as Si.
  assert (Hentry : forall icmp a j, entryOk (r_objs r) icmp a j -> (j = i -> t_closed t' = false) -> entryOk (r_objs r') icmp a j).
  { intros icmp a j [Hp (x & Hx & Hxa & Hxc & Hxr)] Hj. split; [done|]. rewrite Eo. destruct (decide (i = j)) as [<-|Hne].
    - rewrite list_lookup_insert_eq by done. rewrite Hi in Hx. injection Hx as <-. exists t'.
      specialize (Hj eq_refl). rewrite (Br Hj). split_and!; [done|congruence|done..].
    - rewrite list_lookup_insert_ne by done. eauto. }
  split; [split|split; [|done]].
  - intros a j [Ha Hj]%Kt. eauto.
  - intros a j [Ha Hj]%Ki. eauto.
  - intros j x. rewrite Eo. destruct (decide (i = j)) as [<-|Hne].
    + rewrite list_lookup_insert_eq by done. intros [= <-]. by apply (objOk_config r).
    + rewrite list_lookup_insert_ne by done. intros Hx. apply (objOk_config r); [done|eauto].
  - intros j x. rewrite Eo, El. unfold tabled. intros Hc Hx Hopen.
    assert (exists y, r_objs r !! j = Some y /\ t_address y = t_address x /\ t_closed y = false /\ (j = i -> x = t')) as (y & Hy & Ea & Hyc & Hx').
    { destruct (decide (i = j)) as [<-|Hne].
      - rewrite list_lookup_insert_eq in Hx by done. injection Hx as <-. exists t. split_and!; [done|done| |done].
        destruct (t_closed t); [|done]. rewrite Bc in Hopen by done. done.
      - rewrite list_lookup_insert_ne in Hx by done. exists x. split_and!; [done..|]. by intros ->. }
    specialize (H3' j y Hc Hy Hyc). unfold tabled in H3'. rewrite Ea in H3'. destruct (isICMP _); [apply Ki|apply Kt]; (split; [done|]);
      intros Hj; by rewrite <- (Hx' Hj).
  - rewrite Ep. lia.
  - intros a l. rewrite Ep. intros Hl. destruct (H5 a l Hl) as (-> & N1 & N2). injection Ec as -> _ _. split; [done|].
    split; apply eq_None_not_Some; intros [j Hj]; [apply Kt in Hj as [Hj _]|apply Ki in Hj as [Hj _]]; congruence.
  - rewrite El. intros Hc. destruct (H6 Hc) as [E1 E2]. split; apply map_eq; intros a; rewrite lookup_empty; apply eq_None_not_Some; intros [j Hj];
      [apply Kt in Hj as [Hj _]; rewrite E1 in Hj|apply Ki in Hj as [Hj _]; rewrite E2 in Hj]; by rewrite lookup_empty in Hj.
  - intros j x Hx. rewrite Eo. destruct (decide (i = j)) as [<-|Hne].
    + rewrite list_lookup_insert_eq by done. rewrite Hi in Hx. injection Hx as <-. by exists t'.
    + rewrite list_lookup_insert_ne by done. by exists x.
Qed.

(** The tables do not hold a closed object. *)
Lemma keeps_same r i t t' :
  relayInv r -> r_objs r !! i = Some t -> (t_closed t = false -> t_closed t' = false) ->
  keeps (r_targets r) (r_targets r) i t' /\ keeps (r_icmp r) (r_icmp r) i t'.
Proof.
  intros Hr Hi Hc. split; intros a j; (split; [|by intros [? _]]); intros Ha; (split; [done|]); intros ->; apply Hc;
    [destruct (ri_targets r Hr a i Ha) as [_ (x & Hx & _ & Hxc & _)]|destruct (ri_icmp r Hr a i Ha) as [_ (x & Hx & _ & Hxc & _)]]; congruence.
Qed.

(** Changing an object without its lease and its life. *)
Definition sameTgt (t t' : tgt) : Prop :=
  t_address t' = t_address t /\ t_lease t' = t_lease t /\ t_closed t' = t_closed t /\
  (t_closed t = false -> t_running t' = t_running t) /\ (t_running t = false -> t_running t' = false) /\
  match t_kind t, t_kind t' with
  | KUDP _ _ a, KUDP _ _ b => a = b
  | KICMP a _, KICMP b _ => a = b
  | _, _ => False
  end.

Lemma sameTgt_becomes r t t' : objOk r t -> sameTgt t t' -> becomes r t t'.
Proof.
  intros [O1 O2 O3 O4] (Ea & El & Ec & Er & Es & Ek). split.
  - done.
  - unfold isUDP. by destruct (t_kind t), (t_kind t').
  - by rewrite Ec.
  - rewrite Ec. done.
  - done.
  - split; [congruence|by rewrite El| |].
    + rewrite Ec. destruct (t_closed t); [done|]. rewrite Er by done. auto.
    + unfold egressOk in *. rewrite Ea. by destruct (t_kind t), (t_kind t'); try done; subst.
Qed.

(** What a step gives from what the relay had. *)
Definition goes (others : list gostring) (r r' : relay) : Prop :=
  relayInv r' /\ relayBudget r' others /\ extends r r' /\ r_opening r' = r_opening r /\ r_closed r' = r_closed r /\
  length (r_objs r') = length (r_objs r).

Lemma goes_trans others r1 r2 r3 : goes others r1 r2 -> goes others r2 r3 -> goes others r1 r3.
Proof. intros (_ & _ & E1 & O1 & C1 & L1) (I & B & E2 & O2 & C2 & L2). split_and!; [done|done|by etrans|congruence..]. Qed.

Lemma setObj_same others r i t t' :
  relayInv r -> relayBudget r others -> r_objs r !! i = Some t -> sameTgt t t' -> goes others r (setObj r i t').
Proof.
  intros Hr Hb Hi Hs. pose proof Hs as (_ & El & Ec & _).
  destruct (keeps_same r i t t' Hr Hi ltac:(by rewrite Ec)) as [Kt Ki].
  destruct (update_inv r (setObj r i t') i t t' Hr Hi (sameTgt_becomes r t t' (ri_objs r Hr i t Hi) Hs)) as [HI HE]; [done..|].
  split_and!; [done| |done|done|done|by cbn [setObj r_objs]; rewrite length_insert].
  unfold relayBudget, heldBy, opened in *. cbn [setObj r_budget r_opening r_objs]. rewrite list_fmap_insert, El, list_insert_id; [done|].
  by rewrite list_lookup_fmap, Hi.
Qed.

(** ** Removing a target *)

Definition shut (t : tgt) (l : lease) : tgt := mkTgt (t_address t) (t_kind t) l true (t_active t) (t_running t).

Lemma closeTarget_eq r i t :
  r_objs r !! i = Some t -> t_closed t = l_released (t_lease t) ->
  closeTarget r i = setBudget (setObj r i (shut t (snd (release (r_budget r) (t_lease t))))) (fst (release (r_budget r) (t_lease t))).
Proof.
  intros Hi Ho. unfold closeTarget. rewrite Hi. destruct (t_closed t) eqn:Ec.
  - unfold release. rewrite <- Ho. cbn [fst snd]. assert (shut t (t_lease t) = t) as -> by (destruct t; unfold shut; cbn in *; congruence).
    destruct r; unfold setBudget, setObj; cbn in *. by rewrite list_insert_id.
  - by destruct (release _ _).
Qed.

Lemma release_released b l : l_identity (snd (release b l)) = l_identity l /\ l_released (snd (release b l)) = true.
Proof. unfold release. by destruct (l_released l) eqn:E. Qed.

Lemma shut_becomes r t b : objOk r t -> becomes r t (shut t (snd (release b (t_lease t)))).
Proof.
  intros [O1 O2 O3 O4]. destruct (release_released b (t_lease t)) as [E1 E2]. split; [done..|].
  split; cbn [shut t_closed t_lease t_running]; [done|congruence|done|done].
Qed.

Lemma close_budget r i t others :
  relayBudget r others -> r_objs r !! i = Some t -> t_closed t = l_released (t_lease t) -> relayBudget (closeTarget r i) others.
Proof.
  intros Hb Hi Ho. rewrite (closeTarget_eq r i t Hi Ho). unfold relayBudget, heldBy, opened in *.
  cbn [setBudget setObj r_budget r_opening r_objs]. rewrite list_fmap_insert. cbn [shut t_lease].
  rewrite app_assoc in Hb |- *.
  pose proof (budgetStep_ok _ (r_budget r, t_lease <$> r_objs r) (Release i) Hb) as Hs.
  cbn [budgetStep] in Hs. rewrite list_lookup_fmap, Hi in Hs. cbn [fmap option_fmap option_map] in Hs.
  by destruct (release _ _) as [b' l'].
Qed.

(** The table of a kind without the entry of an object. *)
Definition dropped (m : gmap gostring nat) (a : gostring) (i : nat) : gmap gostring nat :=
  if bool_decide (m !! a = Some i) then delete a m else m.

Lemma keeps_dropped m a i t' objs icmp t :
  (forall b j, m !! b = Some j -> entryOk objs icmp b j) -> objs !! i = Some t -> t_address t = a -> t_closed t' = true ->
  keeps m (dropped m a i) i t'.
Proof.
  intros Hm Hi Ha Hc b j. rewrite Hc. unfold dropped.
  assert (m !! b = Some i -> b = a) as Hba.
  { intros Hb. destruct (Hm b i Hb) as [_ (x & Hx & Hxa & _)]. congruence. }
  case_bool_decide as Hd.
  - rewrite lookup_delete_Some. split.
    + intros [Hne Hb]. split; [done|]. intros ->. by apply Hba in Hb.
    + intros [Hb Hj]. split; [|done]. intros <-. rewrite Hd in Hb. injection Hb as ->. by specialize (Hj eq_refl).
  - split; [|by intros [? _]]. intros Hb. split; [done|]. intros ->. exfalso. apply Hd. by rewrite <- (Hba Hb).
Qed.

Lemma keeps_absent m objs icmp i t t' :
  (forall b j, m !! b = Some j -> entryOk objs icmp b j) -> objs !! i = Some t -> isICMP (t_address t) = negb icmp -> keeps m m i t'.
Proof.
  intros Hm Hi Ha b j. split; [|by intros [? _]]. intros Hb. split; [done|]. intros ->.
  destruct (Hm b i Hb) as [Hp (x & Hx & Hxa & _)]. rewrite Hi in Hx. injection Hx as <-. rewrite Hxa, Hp in Ha. by destruct icmp.
Qed.

Lemma egress_kind r t : egressOk r t -> isUDP t <-> isICMP (t_address t) = false.
Proof.
  unfold egressOk, isUDP. destruct (t_kind t) as [bw kernel [a|]|ip tr].
  - by intros (-> & _).
  - by intros (-> & _).
  - by intros (-> & _).
Qed.

(** [removeTarget]: the lock, then the close. *)
Lemma removeTarget_goes others r i t :
  relayInv r -> relayBudget r others -> r_objs r !! i = Some t -> 
  goes others r (removeTarget r i) /\ (exists t', r_objs (removeTarget r i) !! i = Some t' /\ t_closed t' = true).
Proof.
  intros Hr Hb Hi. pose proof (ri_objs r Hr i t Hi) as Ho. pose proof (egress_kind r t (ob_egress r t Ho)) as Hk.
  unfold removeTarget. rewrite Hi. change (fun m : gmap gostring nat => _) with (fun m => dropped m (t_address t) i).
  set (r1 := match t_kind t with KUDP _ _ _ => _ | _ => _ end).
  assert (E : r_objs r1 = r_objs r /\ r_budget r1 = r_budget r /\ r_opening r1 = r_opening r /\ r_closed r1 = r_closed r /\ config r1 = config r)
    by (by unfold r1; destruct (t_kind t)).
  destruct E as (Eo & Eb & Ep & Ec & Ef).
  assert (Hi1 : r_objs r1 !! i = Some t) by by rewrite Eo.
  assert (Hb1 : relayBudget r1 others) by (unfold relayBudget, heldBy, opened in *; by rewrite Eb, Ep, Eo).
  pose proof (close_budget r1 i t others Hb1 Hi1 (ob_once r t Ho)) as Hb2.
  rewrite (closeTarget_eq r1 i t Hi1 (ob_once r t Ho)) in *. set (t' := shut t _) in *. set (r2 := setBudget _ _) in *.
  assert (keeps (r_targets r) (r_targets r2) i t' /\ keeps (r_icmp r) (r_icmp r2) i t') as [Kt Ki].
  { change (r_targets r2) with (r_targets r1). change (r_icmp r2) with (r_icmp r1). unfold r1, isUDP in *. destruct (t_kind t); cbn [setTables r_targets r_icmp].
    - split; [by eapply (keeps_dropped _ _ _ _ _ false); [apply (ri_targets r Hr)|..]|].
      eapply (keeps_absent _ _ true); [apply (ri_icmp r Hr)|done|]. by apply Hk.
    - split; [|by eapply (keeps_dropped _ _ _ _ _ true); [apply (ri_icmp r Hr)|..]].
      eapply (keeps_absent _ _ false); [apply (ri_targets r Hr)|done|]. destruct (isICMP _); [done|]. by destruct Hk as [_ []]. }
  destruct (update_inv r r2 i t t' Hr Hi) as [HI HE]; try done.
  - apply shut_becomes, Ho.
  - cbn [r2 setBudget setObj r_objs]. by rewrite Eo.
  - split; [split_and!; try done; cbn [r2 setBudget setObj r_objs]; by rewrite length_insert, Eo|].
    exists t'. split; [|done]. cbn [r2 setBudget setObj r_objs].
    by rewrite list_lookup_insert_eq by (by eapply lookup_lt_Some).
Qed.

(** [close] of a target during [Close]: the tables are already empty. *)
Lemma closeTarget_goes others r i :
  relayInv r -> relayBudget r others -> r_closed r = true ->
  goes others r (closeTarget r i) /\
  (forall t', r_objs (closeTarget r i) !! i = Some t' -> t_closed t' = true).
Proof.
  intros Hr Hb Hc. destruct (r_objs r !! i) as [t|] eqn:Hi.
  2:{ unfold closeTarget. rewrite Hi. split; [by split_and!|]. intros t'. by rewrite Hi. }
  pose proof (ri_objs r Hr i t Hi) as Ho. pose proof (close_budget r i t others Hb Hi (ob_once r t Ho)) as Hb2.
  rewrite (closeTarget_eq r i t Hi (ob_once r t Ho)) in *. set (t' := shut t _) in *. set (r2 := setBudget _ _) in *.
  destruct (ri_closed r Hr Hc) as [E1 E2].
  destruct (update_inv r r2 i t t' Hr Hi) as [HI HE]; try done.
  - apply shut_becomes, Ho.
  - intros a j. cbn [r2 setBudget setObj r_targets]. rewrite E1, lookup_empty. by split; [|intros [? _]].
  - intros a j. cbn [r2 setBudget setObj r_icmp]. rewrite E2, lookup_empty. by split; [|intros [? _]].
  - split; [split_and!; try done; cbn [r2 setBudget setObj r_objs]; by rewrite length_insert|]. intros x. cbn [r2 setBudget setObj r_objs].
    rewrite list_lookup_insert_eq by (by eapply lookup_lt_Some). by intros [= <-].
Qed.

(** A receiver returns. *)
Lemma endReceiver_goes others r i :
  relayInv r -> relayBudget r others -> goes others r (endReceiver r i).
Proof.
  intros Hr Hb. unfold endReceiver. destruct (r_objs r !! i) as [t|] eqn:Hi; [|by split_and!].
  destruct (removeTarget_goes others r i t Hr Hb Hi) as [Hg (t' & Ht' & Hc')]. rewrite Ht'.
  eapply goes_trans; [exact Hg|]. destruct Hg as (HI & HB & _). apply (setObj_same others _ i t'); [done..|].
  split_and!; [done|done|done|by rewrite Hc'|done|]. by destruct (t_kind t') as [? ? ?|? ?] eqn:E; cbn [stopped t_kind]; rewrite E.
Qed.

(** ** Making a target *)

#[export] Instance outstanding_proper : Proper ((≡ₚ) ==> (≡ₚ)) outstanding.
Proof. intros a b H. unfold outstanding. by rewrite H. Qed.

(** Only the openings, the budget and the state of the window change. *)
Lemma opening_inv r r' :
  relayInv r -> r_objs r' = r_objs r -> config r' = config r -> r_targets r' = r_targets r -> r_icmp r' = r_icmp r -> r_closed r' = r_closed r ->
  (forall a l, r_opening r' !! a = Some l -> l = mkLease (r_identity r) false /\ r_targets r !! a = None /\ r_icmp r !! a = None) ->
  Z.of_nat (size (r_targets r)) + Z.of_nat (size (r_icmp r)) + Z.of_nat (size (r_opening r')) <= 64 ->
  relayInv r' /\ extends r r'.
Proof.
  intros [H1 H2 H3 H3' H4 H5 H6] Eo Ef Et Ei Ec Hop Hbd. split; [split|split; [|done]].
  - rewrite Et, Eo. done.
  - rewrite Ei, Eo. done.
  - intros i t. rewrite Eo. intros Hi. apply (objOk_config r); [done|eauto].
  - intros i t. rewrite Ec, Eo. unfold tabled. rewrite Et, Ei. apply H3'.
  - by rewrite Et, Ei.
  - rewrite Et, Ei. injection Ef as -> _ _. done.
  - by rewrite Ec, Et, Ei.
  - intros i t. rewrite Eo. intros Hi. by exists t.
Qed.

Lemma beginTarget_spec others r a :
  relayInv r -> relayBudget r others -> r_opening r = ∅ ->
  let '(res, r') := beginTarget r a in
  relayInv r' /\ relayBudget r' others /\ extends r r' /\ r_closed r' = r_closed r /\ r_cancelled r' = r_cancelled r /\
  match res with
  | Refused _ => r_opening r' = ∅
  | Pending => False
  | Existing udp icmp => r' = r /\ udp = r_targets r !! a /\ icmp = r_icmp r !! a /\ (is_Some udp \/ is_Some icmp)
  | Create => exists l, r_opening r' = {[a := l]}
  end.
Proof.
  intros Hr Hb Hop. unfold beginTarget. destruct (r_closed r || r_cancelled r); [by split_and!|].
  rewrite (bool_decide_false (is_Some (r_opening r !! a))) by (rewrite Hop, lookup_empty; by intros []).
  destruct (r_targets r !! a) as [u|] eqn:Eu; [by split_and!; eauto|].
  destruct (r_icmp r !! a) as [v|] eqn:Ev; [by split_and!; eauto|].
  destruct (Z.leb_spec 64 (Z.of_nat (size (r_targets r)) + Z.of_nat (size (r_icmp r)) + Z.of_nat (size (r_opening r)))) as [|Hsz]; [by split_and!|].
  pose proof (reserve_ok _ _ (r_identity r) Hb) as Hres. destruct (ReserveUDPTarget _ _) as [[l|] b']; cbn zeta beta iota.
  - destruct Hres as [-> Hb']. set (r' := setBudget _ _).
    assert (r_opening r' = {[a := mkLease (r_identity r) false]}) as Eo by (cbn [r' setBudget setTables r_opening]; by rewrite Hop, insert_empty).
    destruct (opening_inv r r') as [HI HE]; try done.
    + intros x l. rewrite Eo. intros [<- <-]%lookup_singleton_Some. done.
    + rewrite Eo, map_size_singleton. rewrite Hop, map_size_empty in Hsz. lia.
    + split_and!; [done| |done|done|done|by eexists].
      unfold relayBudget, heldBy, opened in *. rewrite Eo, map_to_list_singleton. change (r_budget r') with b'. change (r_objs r') with (r_objs r).
      rewrite Hop, map_to_list_empty in Hb'. revert Hb'. rewrite Permutation_middle. done.
  - destruct Hres as [-> _]. destruct r. by split_and!.
Qed.

Lemma entryOk_snoc objs t icmp a i : entryOk objs icmp a i -> entryOk (objs ++ [t]) icmp a i.
Proof. intros [Hp (x & Hx & Hxa)]. split; [done|]. exists x. split; [by apply lookup_app_l_Some|done]. Qed.

Lemma opened_delete r a l : r_opening r !! a = Some l -> opened r ≡ₚ l :: (snd <$> map_to_list (delete a (r_opening r))).
Proof. intros H. unfold opened. rewrite <- (map_to_list_delete (r_opening r) a l H). done. Qed.

(** One of the two tables. *)
Definition tab (r : relay) (icmp : bool) : gmap gostring nat := if icmp then r_icmp r else r_targets r.

Lemma ri_tab r icmp a i : relayInv r -> tab r icmp !! a = Some i -> entryOk (r_objs r) icmp a i.
Proof. intros Hr. destruct icmp; [apply (ri_icmp r Hr)|apply (ri_targets r Hr)]. Qed.

(** The tables after a new object: unchanged for a closed one, with it in the
    table of its kind otherwise. *)
Definition grown (r r' : relay) (t : tgt) : Prop :=
  forall icmp, tab r' icmp =
    if t_closed t then tab r icmp
    else if Bool.eqb icmp (isICMP (t_address t)) then <[t_address t := length (r_objs r)]> (tab r icmp) else tab r icmp.

Lemma grown_lookup r r' t icmp a i :
  grown r r' t -> tab r' icmp !! a = Some i ->
  tab r icmp !! a = Some i \/ (t_closed t = false /\ icmp = isICMP (t_address t) /\ a = t_address t /\ i = length (r_objs r)).
Proof.
  intros G. rewrite (G icmp). destruct (t_closed t); [by left|]. destruct (Bool.eqb_spec icmp (isICMP (t_address t))); [|by left].
  rewrite lookup_insert_Some. intros [[<- <-]|[_ ?]]; [by right|by left].
Qed.

Lemma grown_size r r' t :
  grown r r' t -> (size (r_targets r') + size (r_icmp r') <= S (size (r_targets r) + size (r_icmp r)))%nat.
Proof.
  intros G. pose proof (G false) as Gf. pose proof (G true) as Gt. cbn [tab] in Gf, Gt. rewrite Gf, Gt.
  assert (forall m : gmap gostring nat, size (<[t_address t := length (r_objs r)]> m) <= S (size m))%nat as Hs.
  { intros m. rewrite map_size_insert. by destruct (m !! _); cbn; lia. }
  destruct (t_closed t), (isICMP (t_address t)); cbn [Bool.eqb]; [lia|lia|specialize (Hs (r_icmp r)); lia|specialize (Hs (r_targets r)); lia].
Qed.

(** A new object, closed from the start or in its table. *)
Lemma addObj_inv r r' t :
  relayInv r -> r_objs r' = r_objs r ++ [t] -> config r' = config r -> r_closed r' = r_closed r ->
  objOk r t -> r_opening r' = delete (t_address t) (r_opening r) -> is_Some (r_opening r !! t_address t) ->
  grown r r' t -> (t_closed t = false -> t_running t = true /\ r_closed r = false) ->
  relayInv r' /\ extends r r'.
Proof.
  intros Hr Eo Ef Ec Ho Ep [l Hl] G Hnew.
  destruct (ri_opening r Hr _ _ Hl) as (_ & Nt & Ni).
  assert (Hsz : (size (r_opening r) = S (size (r_opening r')))%nat).
  { rewrite Ep, map_size_delete, Hl. assert (size (r_opening r) <> 0)%nat; [|cbn; lia].
    intros E%map_size_empty_inv. by rewrite E, lookup_empty in Hl. }
  assert (Hlast : r_objs r' !! length (r_objs r) = Some t) by (by rewrite Eo, lookup_app_r, Nat.sub_diag by lia).
  assert (Hmem : forall i x, r_objs r' !! i = Some x -> r_objs r !! i = Some x \/ (i = length (r_objs r) /\ x = t)).
  { intros i x. rewrite Eo. intros [?|[? ?]]%lookup_app_Some; [by left|]. right. destruct (i - _)%nat eqn:E; [|done]. cbn in *. split; [lia|congruence]. }
  assert (Hentry : forall icmp a i, tab r' icmp !! a = Some i -> entryOk (r_objs r') icmp a i).
  { intros icmp a i [Hi|(Hc & -> & -> & ->)]%(grown_lookup r r' t); [| |done].
    - rewrite Eo. apply entryOk_snoc. by apply ri_tab.
    - split; [done|]. exists t. by destruct (Hnew Hc). }
  split; [split|split; [|done]].
  - exact (Hentry false).
  - exact (Hentry true).
  - intros i x Hx. apply (objOk_config r); [done|]. destruct (Hmem i x Hx) as [?|[_ ->]]; [by apply (ri_objs r Hr i)|done].
  - intros i x. rewrite Ec. intros Hc Hx Hxc. change (tab r' (isICMP (t_address x)) !! t_address x = Some i). rewrite G.
    destruct (Hmem i x Hx) as [Hx'|[-> ->]]; [|by rewrite Hxc, Bool.eqb_reflx, lookup_insert_eq].
    pose proof (ri_live r Hr i x Hc Hx' Hxc) as Hlive. change (tab r (isICMP (t_address x)) !! t_address x = Some i) in Hlive.
    destruct (t_closed t); [done|]. destruct (Bool.eqb_spec (isICMP (t_address x)) (isICMP (t_address t))); [|done].
    rewrite lookup_insert_ne; [done|]. intros E. rewrite <- E in Hlive. unfold tab in Hlive. destruct (isICMP _); congruence.
  - pose proof (grown_size r r' t G). pose proof (ri_bound r Hr). lia.
  - intros a k. rewrite Ep, lookup_delete_Some. intros [Hne Hk]. destruct (ri_opening r Hr _ _ Hk) as (-> & Et & Ei). injection Ef as -> _ _.
    split; [done|]. split; apply eq_None_not_Some; intros [j Hj];
      [apply (grown_lookup r r' t false) in Hj|apply (grown_lookup r r' t true) in Hj]; try done; cbn [tab] in Hj; destruct Hj as [?|(_ & _ & ? & _)]; congruence.
  - rewrite Ec. intros Hc. pose proof (G false) as Gf. pose proof (G true) as Gt. cbn [tab] in Gf, Gt. rewrite Gf, Gt.
    destruct (t_closed t); [by apply (ri_closed r Hr)|]. destruct (Hnew eq_refl). congruence.
  - intros i x Hx. exists x. rewrite Eo. split; [by apply lookup_app_l_Some|done].
Qed.

(** An opening gives its reservation to its object, or gives it back. *)
Lemma opening_budget r r' others a :
  relayBudget r others -> r_opening r !! a = Some (mkLease (r_identity r) false) -> r_budget r' = r_budget r ->
  r_opening r' = delete a (r_opening r) -> outstanding (t_lease <$> r_objs r') = outstanding (t_lease <$> r_objs r) ++ [r_identity r] ->
  relayBudget r' others.
Proof.
  intros Hb Hl Eb Ep Eo. unfold relayBudget, heldBy in *. rewrite Eb, Eo.
  rewrite (opened_delete r a _ Hl), outstanding_cons in Hb. cbn [l_released l_identity app] in Hb.
  unfold opened. rewrite Ep. eapply budgetOk_proper; [|exact Hb]. f_equiv. rewrite app_assoc. symmetry. apply Permutation_cons_append.
Qed.

Lemma release_budget r r' others a :
  relayBudget r others -> r_opening r !! a = Some (mkLease (r_identity r) false) ->
  r_budget r' = fst (release (r_budget r) (mkLease (r_identity r) false)) -> r_opening r' = delete a (r_opening r) ->
  outstanding (t_lease <$> r_objs r') = outstanding (t_lease <$> r_objs r) -> relayBudget r' others.
Proof.
  intros Hb Hl Eb Ep Eo. unfold relayBudget, heldBy in *. rewrite Eb, Eo.
  rewrite (opened_delete r a _ Hl), outstanding_cons in Hb. cbn [l_released l_identity app] in Hb. rewrite <- Permutation_middle in Hb.
  destruct (release_ok _ _ (mkLease (r_identity r) false) eq_refl Hb) as (b' & -> & Hb'). unfold opened. by rewrite Ep.
Qed.

Lemma finishTarget_spec others r a l dialled now :
  relayInv r -> relayBudget r others -> r_opening r !! a = Some l ->
  (forall k, dialled = Ok k -> egressOk r (mkTgt a k l false now true)) ->
  let '(res, r') := finishTarget r a l dialled now in
  relayInv r' /\ relayBudget r' others /\ extends r r' /\ r_opening r' = delete a (r_opening r) /\ r_closed r' = r_closed r /\
  (forall i, res = Ok i -> exists t, r_objs r' !! i = Some t /\ t_address t = a).
Proof.
  intros Hr Hb Hl Hd. destruct (ri_opening r Hr a l Hl) as (-> & Nt & Ni). unfold finishTarget.
  destruct dialled as [k|err].
  - specialize (Hd k eq_refl). destruct (r_closed r || r_cancelled r) eqn:Ecl.
    + set (t := mkTgt a k (mkLease (r_identity r) false) false now false). set (r1 := addObj _ t).
      assert (Hi1 : r_objs r1 !! length (r_objs r) = Some t) by (cbn [r1 addObj setTables r_objs]; by rewrite lookup_app_r, Nat.sub_diag by lia).
      assert (Hb1 : relayBudget r1 others).
      { apply (opening_budget r r1 others a Hb Hl); [done..|]. cbn [r1 addObj setTables r_objs]. by rewrite fmap_app, outstanding_app. }
      pose proof (close_budget r1 _ t others Hb1 Hi1 eq_refl) as Hb2. rewrite (closeTarget_eq r1 _ t Hi1 eq_refl) in *.
      set (t' := shut t _) in *. set (r2 := setBudget _ _) in *.
      destruct (addObj_inv r r2 t') as [HI HE]; try done.
      * cbn [r2 setBudget setObj r1 addObj setTables r_objs]. by rewrite insert_app_r_alt, Nat.sub_diag by lia.
    + apply orb_false_iff in Ecl as [Ecl _].
      assert (HE : forall r', r_objs r' = r_objs r ++ [mkTgt a k (mkLease (r_identity r) false) false now true] -> config r' = config r ->
        r_closed r' = r_closed r -> r_budget r' = r_budget r -> r_opening r' = delete a (r_opening r) ->
        grown r r' (mkTgt a k (mkLease (r_identity r) false) false now true) ->
        relayInv r' /\ relayBudget r' others /\ extends r r' /\ r_opening r' = delete a (r_opening r) /\ r_closed r' = r_closed r /\
        (forall i, Ok (length (r_objs r)) = Ok i -> exists t, r_objs r' !! i = Some t /\ t_address t = a)).
      { intros r' Eo Ef Ec Eb Ep G. destruct (addObj_inv r r' _ Hr Eo Ef Ec) as [HI HE]; try done.
        split_and!; [done| |done..|].
        - apply (opening_budget r r' others a Hb Hl); [done..|]. by rewrite Eo, fmap_app, outstanding_app.
        - intros i [= <-]. eexists. by rewrite Eo, lookup_app_r, Nat.sub_diag by lia. }
      pose proof (egress_kind _ _ Hd) as Hk. cbn [t_address isUDP t_kind] in Hk. unfold isUDP in Hk. cbn [t_kind] in Hk.
      destruct k; apply HE; try done; intros icmp; cbn [t_closed t_address];
        [rewrite (proj1 Hk I)|destruct (isICMP a); [|by destruct (proj2 Hk)]]; by destruct icmp.
  - cbn zeta. destruct (release _ _) as [b' l'] eqn:Erel. cbn [setTables r_budget r_closed r_cancelled] in *. set (r' := setBudget _ _).
    assert (Hsz : (size (delete a (r_opening r)) <= size (r_opening r))%nat) by (apply map_subseteq_size, delete_subseteq).
    destruct (opening_inv r r') as [HI HE]; try done.
    + intros x l. cbn [r' setBudget setTables r_opening]. rewrite lookup_delete_Some. intros [_ Hx]. by apply (ri_opening r Hr).
    + pose proof (ri_bound r Hr). cbn [r' setBudget setTables r_opening]. lia.
    + split_and!; try done. apply (release_budget r r' others a Hb Hl); try done. by rewrite Erel.
Qed.
