(* ===== verification/UdpRelayRuns.v ===== *)
(** * Runs of the UDP association: what [UdpRelay.v] guarantees

    Every schedule of the forwarding goroutine, the receivers, cancellation,
    [Close] and the other users of the socket budget. *)
From Stdlib Require Import Sorting.Sorted.
From S2P Require Import Prelude GoNet ReplayWindow Frame Datagrams Icmp Target UdpBudget UdpRelay UdpRelayInv.

Open Scope Z_scope.

#[local] Arguments bs : simpl never.

(** ** Points *)

(** The object [i] is a target of the kind. *)
Definition valid (r : relay) (icmp : bool) (i : nat) : Prop :=
  exists t, r_objs r !! i = Some t /\ isICMP (t_address t) = icmp.

Definition batchOk (r : relay) (b : batch) : Prop :=
  (b_payloads b <> [] -> is_Some (b_current b)) /\ (forall i, b_current b = Some i -> valid r false i).

Definition afterOk (r : relay) (k : after) : Prop :=
  match k with
  | AICMP a _ => isICMP a = true
  | AUse i _ => valid r false i
  | ANext | ADone => True
  end.

Definition allClosed (r : relay) : Prop := forall i t, r_objs r !! i = Some t -> t_closed t = true.

(** The forwarding goroutine at a point. *)
Definition pointOk (r : relay) (p : point) : Prop :=
  match p with
  | Idle => r_closed r = false /\ r_opening r = ∅
  | Next b => r_closed r = false /\ r_opening r = ∅ /\ batchOk r b
  | Lookup b _ _ | Begin b _ _ => r_closed r = false /\ r_opening r = ∅ /\ batchOk r b
  | Dialling b a _ => r_closed r = false /\ (exists l, r_opening r = {[a := l]}) /\ batchOk r b
  | Use b i _ => r_closed r = false /\ r_opening r = ∅ /\ batchOk r b /\ valid r false i
  | UseICMP b i _ => r_closed r = false /\ r_opening r = ∅ /\ batchOk r b /\ valid r true i
  | Flush b k => r_closed r = false /\ r_opening r = ∅ /\ batchOk r b /\ afterOk r k
  | Closing ids => r_closed r = true /\ r_opening r = ∅ /\ len ids <= 64 /\ (forall i t, r_objs r !! i = Some t -> t_closed t = false -> i ∈ ids)
  | Closed => r_closed r = true /\ r_opening r = ∅ /\ allClosed r /\ (forall i t, r_objs r !! i = Some t -> t_running t = false)
  | Panic => False
  end.

Lemma valid_mono r r' icmp i : extends r r' -> valid r icmp i -> valid r' icmp i.
Proof. intros E (t & Ht & Hp). destruct (ex_objs r r' E i t Ht) as (t' & Ht' & Ea & _). exists t'. split; [done|congruence]. Qed.

Lemma batchOk_mono r r' b : extends r r' -> batchOk r b -> batchOk r' b.
Proof. intros E [H1 H2]. split; [done|]. intros i Hi. by eapply valid_mono, H2. Qed.

Lemma afterOk_mono r r' k : extends r r' -> afterOk r k -> afterOk r' k.
Proof. intros E. destruct k; cbn; eauto using valid_mono. Qed.

(** Objects of a later relay. *)
Lemma goes_back others r r' i t' :
  goes others r r' -> r_objs r' !! i = Some t' ->
  exists t, r_objs r !! i = Some t /\ (t_closed t' = false -> t_closed t = false) /\ (t_running t = false -> t_running t' = false).
Proof.
  intros (_ & _ & E & _ & _ & L) Hi. assert (i < length (r_objs r))%nat as Hlt by (rewrite <- L; by eapply lookup_lt_Some).
  apply lookup_lt_is_Some in Hlt as [t Ht]. exists t. destruct (ex_objs r r' E i t Ht) as (x & Hx & _ & _ & Hc & Hr).
  rewrite Hi in Hx. injection Hx as <-. split; [done|]. split; [|done]. destruct (t_closed t); [|done]. by rewrite Hc.
Qed.

Lemma pointOk_goes others r r' p : goes others r r' -> pointOk r p -> pointOk r' p.
Proof.
  intros G. pose proof G as (_ & _ & E & O & C & L).
  pose proof (valid_mono r r') as Hv. pose proof (batchOk_mono r r') as Hb. pose proof (afterOk_mono r r') as Ha.
  destruct p; cbn [pointOk]; rewrite ?O, ?C; try by intuition eauto.
  - intros (H1 & H2 & H2' & H3). split_and!; [done..|]. intros i t Hi Hc. destruct (goes_back others r r' i t G Hi) as (x & Hx & Hxc & _). eauto.
  - intros (H1 & H2 & H3 & H4). split_and!; [done..| |].
    + intros i t Hi. destruct (goes_back others r r' i t G Hi) as (x & Hx & Hxc & _). specialize (H3 i x Hx). destruct (t_closed t); [done|]. rewrite Hxc in H3; done.
    + intros i t Hi. destruct (goes_back others r r' i t G Hi) as (x & Hx & _ & Hxr). eauto.
Qed.

(** ** The system *)

Record sysOk (others : list gostring) (s : sys) : Prop := {
  so_relay : relayInv (s_relay s);
  so_budget : relayBudget (s_relay s) others;
  so_point : pointOk (s_relay s) (s_point s);
}.

Lemma same_goes others r r' :
  relayInv r -> relayBudget r others -> r_objs r' = r_objs r -> config r' = config r -> r_targets r' = r_targets r -> r_icmp r' = r_icmp r ->
  r_closed r' = r_closed r -> r_opening r' = r_opening r -> r_budget r' = r_budget r -> goes others r r'.
Proof.
  intros Hr Hb Eo Ef Et Ei Ec Ep Eb. destruct (opening_inv r r' Hr Eo Ef Et Ei Ec) as [HI HE].
  - rewrite Ep. apply (ri_opening r Hr).
  - rewrite Ep. apply (ri_bound r Hr).
  - split_and!; [done| |done..|by rewrite Eo]. unfold relayBudget, heldBy, opened in *. by rewrite Eb, Ep, Eo.
Qed.

Lemma goes_refl others r : relayInv r -> relayBudget r others -> goes others r r.
Proof. unfold goes. intros. by split_and!. Qed.

(** A step of the relay beside the forwarder, or a step of the forwarder to a
    point that fits the relay it left. *)
Lemma sysOk_goes others s r' p g :
  sysOk others s -> goes others (s_relay s) r' -> (pointOk r' (s_point s) -> pointOk r' p) -> sysOk others (mkSys r' p g).
Proof.
  intros [HI HB HP] G Hp. pose proof G as (HI' & HB' & _). split; [done..|]. by apply Hp, (pointOk_goes others (s_relay s)).
Qed.

Ltac same_goes := apply same_goes; try done.

Lemma batchOk_note r b err : batchOk r b -> batchOk r (note b err).
Proof. done. Qed.

Lemma nextStep_ok others s b : sysOk others s -> s_point s = Next b -> sysOk others (nextStep s b).
Proof.
  intros Hs Ep. pose proof Hs as [HI HB _]. unfold nextStep.
  assert (G : forall w d, goes others (s_relay s) (setInput (s_relay s) w d)) by (intros; same_goes).
  destruct (b_packets b) as [|packet rest].
  { apply (sysOk_goes others s); [done|by apply goes_refl|]. rewrite Ep. cbn [pointOk afterOk]. tauto. }
  destruct (DatagramCache_Decode _ packet) as [[[[n a] p]|] d].
  2:{ apply (sysOk_goes others s); [done|done|]. by rewrite Ep. }
  destruct (Accept _ n) as [ok w]. destruct ok; cbn [negb].
  2:{ apply (sysOk_goes others s); [done|done|]. by rewrite Ep. }
  destruct (isICMP a) eqn:Ei.
  { apply (sysOk_goes others s); [done|done|]. rewrite Ep. cbn [pointOk afterOk]. tauto. }
  cbn [b_current]. destruct (b_current b) as [i|] eqn:Ec.
  - case_bool_decide; (apply (sysOk_goes others s); [done|done|]); rewrite Ep; unfold pointOk, batchOk; cbn [b_current b_payloads]; rewrite Ec;
      intros (? & ? & Hb & Hv); split_and!; try done. by apply Hv.
  - apply (sysOk_goes others s); [done|done|]. rewrite Ep. unfold pointOk, batchOk. cbn [b_current b_payloads]. by rewrite Ec.
Qed.

Lemma tab_valid r icmp a i : relayInv r -> tab r icmp !! a = Some i -> valid r icmp i.
Proof. intros Hr Hi. destruct (ri_tab r icmp a i Hr Hi) as [Hp (t & Ht & Ha & _)]. exists t. split; [done|congruence]. Qed.

Lemma useTarget_ok r b icmp i payload :
  r_closed r = false -> r_opening r = ∅ -> batchOk r b -> valid r icmp i -> pointOk r (useTarget b icmp (Some i) payload).
Proof. intros. by destruct icmp. Qed.

Lemma lookupStep_ok others s b a p : sysOk others s -> s_point s = Lookup b a p -> sysOk others (lookupStep s b a p).
Proof.
  intros Hs Ep. pose proof Hs as [HI HB _]. unfold lookupStep. fold (tab (s_relay s) (isICMP a)). destruct (r_closed (s_relay s)) eqn:Ec.
  { apply (sysOk_goes others s); [done|by apply goes_refl|]. rewrite Ep. cbn [pointOk]. by rewrite Ec. }
  destruct (tab _ _ !! a) as [i|] eqn:El; (apply (sysOk_goes others s); [done|by apply goes_refl|]); rewrite Ep; cbn [pointOk].
  - intros (? & ? & ?). apply useTarget_ok; try done. by eapply tab_valid.
  - done.
Qed.

Lemma beginStep_ok others s b a p done : sysOk others s -> s_point s = Begin b a p -> sysOk others (beginStep s b a p done).
Proof.
  intros [HI HB HP] Ep. rewrite Ep in HP. destruct HP as (Hc & Ho & Hb). unfold beginStep.
  pose proof (beginTarget_spec others (s_relay s) a HI HB Ho) as Hspec. destruct (beginTarget (s_relay s) a) as [res r'].
  destruct Hspec as (HI' & HB' & HE & Hc' & Hx & Hres). pose proof (batchOk_mono _ _ b HE Hb) as Hb'. destruct res as [err| |udp icmp|].
  - split; [done..|]. cbn. by rewrite Hc'.
  - done.
  - destruct Hres as (-> & Eu & Ei & Hsome). destruct (_ && _); [by split|].
    assert (exists i, (if isICMP a then icmp else udp) = Some i /\ valid (s_relay s) (isICMP a) i) as (i & -> & Hv).
    { destruct (r_targets (s_relay s) !! a) as [u|] eqn:Et; [pose proof (ri_targets _ HI a u Et) as [Hp _]; rewrite Hp; exists u; split; [done|]; by apply (tab_valid _ _ a)|].
      destruct Hsome as [[x Hx']|[v Hv]]; [congruence|]. subst icmp. pose proof (ri_icmp _ HI a v Hv) as [Hp _]. rewrite Hp. exists v. split; [done|]. by apply (tab_valid _ _ a). }
    split; [done..|]. by apply useTarget_ok.
  - split; [done..|]. cbn. by rewrite Hc'.
Qed.

(** What is dialled may be dialled. *)
Lemma dial_egress r io a k l now :
  (if isICMP a then dialICMPTarget r io a else dialUDPTarget r io a) = Ok k -> egressOk r (mkTgt a k l false now true).
Proof.
  destruct (isICMP a) eqn:Ea.
  - unfold dialICMPTarget. cbn zeta. intros H. destruct (ResolveICMPIP _ _ _) as [ip|] eqn:Er; [|done]. destruct (d_packet io); [done|].
    injection H as <-. split; [done|]. intros Hp. rewrite Hp in Er. by eapply ResolveICMPIP_public.
  - unfold dialUDPTarget. destruct (r_dialUDP r) eqn:Ed.
    + destruct (d_socket io) as [[bw kernel]|]; [|done]. intros [= <-]. done.
    + destruct (ResolveUDPAddr _ _) as [u|] eqn:Er; [|done]. cbn. destruct (d_socket io) as [[bw kernel]|]; [|done]. intros [= <-].
      split_and!; [done..|]. by eapply ResolveUDPAddr_public.
Qed.

Lemma dialStep_ok others s io now b a p : sysOk others s -> s_point s = Dialling b a p -> sysOk others (dialStep s io now b a p).
Proof.
  intros [HI HB HP] Ep. rewrite Ep in HP. destruct HP as (Hc & (l & Ho) & Hb). unfold dialStep.
  assert (r_opening (s_relay s) !! a = Some l) as Hl by (rewrite Ho; apply lookup_singleton_eq). rewrite Hl.
  pose proof (finishTarget_spec others (s_relay s) a l _ now HI HB Hl (fun k => dial_egress (s_relay s) io a k l now)) as Hspec.
  cbn zeta. destruct (finishTarget _ _ _ _ _) as [res r']. destruct Hspec as (HI' & HB' & HE & Ho' & Hc' & Hres).
  rewrite Ho, delete_singleton_eq in Ho'. pose proof (batchOk_mono _ _ b HE Hb) as Hb'. rewrite Hc in Hc'. destruct res as [i|err]; (split; [done..|]).
  - destruct (Hres i eq_refl) as (t & Ht & Ha). apply useTarget_ok; try done. exists t. split; [done|congruence].
  - done.
Qed.

Lemma sameTgt_touch t now : sameTgt t (touch t now).
Proof. unfold sameTgt. cbn. split_and!; try done. by destruct (t_kind t). Qed.

Lemma sameTgt_tracker t ip tr tr' now : t_kind t = KICMP ip tr -> sameTgt t (withTracker t ip tr' now).
Proof. intros E. unfold sameTgt. cbn. rewrite E. by split_and!. Qed.

Lemma setTracker_goes others r i t ip tr tr' n now :
  relayInv r -> relayBudget r others -> r_objs r !! i = Some t -> t_kind t = KICMP ip tr ->
  goes others r (setObj (setEcho r n) i (withTracker t ip tr' now)).
Proof.
  intros HI HB Hi Ek. assert (G : goes others r (setEcho r n)) by same_goes. eapply goes_trans; [exact G|]. destruct G as (HI' & HB' & _).
  by apply (setObj_same others (setEcho r n) i t); [..|eapply sameTgt_tracker].
Qed.

Lemma useStep_ok others s now b i p : sysOk others s -> s_point s = Use b i p -> sysOk others (useStep s now b i p).
Proof.
  intros Hs Ep. pose proof Hs as [HI HB HP]. unfold useStep. destruct (r_objs (s_relay s) !! i) as [t|] eqn:Hi; [|done].
  destruct (_ && _ && _) eqn:Ec.
  - apply (sysOk_goes others s); [done|by apply goes_refl|]. by rewrite Ep.
  - cbn zeta. apply (sysOk_goes others s); [done| |].
    + apply (setObj_same others _ i t); try done. apply sameTgt_touch.
    + rewrite Ep. intros (? & ? & [H1 H2] & H3).
      assert (batchOk (setObj (s_relay s) i (touch t now)) (mkBatch (b_packets b) (Some i) (b_payloads b ++ [p]) (b_err b))).
      { split; [by eexists|]. intros j [= <-]. done. }
      by case_match.
Qed.

Lemma icmpStep_ok others s now err b i p : sysOk others s -> s_point s = UseICMP b i p -> sysOk others (icmpStep s now err b i p).
Proof.
  intros Hs Ep. pose proof Hs as [HI HB HP]. unfold icmpStep. destruct (r_objs (s_relay s) !! i) as [t|] eqn:Hi; [|done].
  destruct (t_kind t) as [|ip tr] eqn:Ek; [done|]. cbn zeta. destruct (PrepareRequest _ _ _ _) as [[wire|e] tr'].
  - apply (sysOk_goes others s); [done|by eapply setTracker_goes|].
    rewrite Ep. intros (? & ? & ? & ?). by destruct err.
  - apply (sysOk_goes others s); [done|by eapply setTracker_goes|].
    rewrite Ep. by intros (? & ? & ? & ?).
Qed.

Lemma resume_ok r b k : r_closed r = false -> r_opening r = ∅ -> batchOk r b -> b_payloads b = [] -> afterOk r k -> pointOk r (resume b k).
Proof. intros Hc Ho [H1 H2] He Ha. destruct k; cbn [resume pointOk]; done. Qed.

Lemma flushStep_ok others s io b k : sysOk others s -> s_point s = Flush b k -> sysOk others (flushStep s io b k).
Proof.
  intros Hs Ep. pose proof Hs as [HI HB HP]. unfold flushStep. destruct (Z.eqb_spec (len (b_payloads b)) 0) as [El|El].
  { apply (sysOk_goes others s); [done|by apply goes_refl|]. rewrite Ep. intros (? & ? & ? & ?). apply resume_ok; try done.
    by apply nil_length_inv, Nat2Z.inj. }
  rewrite Ep in HP. destruct HP as (_ & _ & [Hb1 Hb2] & _).
  destruct (b_current b) as [i|] eqn:Ec; [|by destruct Hb1 as [? ?]; [intros E; by rewrite E in El|]].
  destruct (r_objs (s_relay s) !! i) as [t|] eqn:Hi; [|done]. destruct (t_kind t) as [bw kernel a|] eqn:Ek; [|done].
  destruct (writeBatch _ _ _ _) as [delivered err]. cbn zeta. apply (sysOk_goes others s); [done| |].
  - destruct err; [|by apply goes_refl]. case_match; [|by apply goes_refl]. by destruct (removeTarget_goes others (s_relay s) i t HI HB Hi).
  - rewrite Ep. set (r' := match err with Some _ => _ | None => _ end). intros (? & ? & [H1 H2] & ?).
    apply resume_ok; try done. split; [done|]. cbn [b_current]. by rewrite Ec in H2.
Qed.

(** ** Receivers and the end *)

Lemma deliver_goes others s i t t' a data io :
  relayInv (s_relay s) -> relayBudget (s_relay s) others -> r_objs (s_relay s) !! i = Some t -> sameTgt t t' ->
  goes others (s_relay s) (s_relay (deliver s i t' a data io)) /\ s_point (deliver s i t' a data io) = s_point s.
Proof.
  intros HI HB Hi Hs. unfold deliver. cbn zeta. destruct (encodeAll _ _ _) as [[answers packets] last]. destruct (sendResponseBatch _ _) as [sent sendErr].
  split; [|done]. cbn [s_relay]. pose proof (setObj_same others (s_relay s) i t t' HI HB Hi Hs) as G. pose proof G as (HI1 & HB1 & _).
  assert (G2 : goes others (s_relay s) (setSequence (setObj (s_relay s) i t') last)) by (eapply goes_trans; [exact G|]; same_goes).
  pose proof G2 as (HI2 & HB2 & _). destruct (match sendErr with Some _ => _ | None => _ end); [|done]. eapply goes_trans; [exact G2|]. by apply endReceiver_goes.
Qed.

Lemma receiveStep_goes others s i io :
  relayInv (s_relay s) -> relayBudget (s_relay s) others ->
  goes others (s_relay s) (s_relay (receiveStep s i io)) /\ s_point (receiveStep s i io) = s_point s.
Proof.
  intros HI HB. pose proof (goes_refl others _ HI HB) as Hrefl. unfold receiveStep, receiveUDP, receiveICMP. destruct (r_objs (s_relay s) !! i) as [t|] eqn:Hi; [|done].
  destruct (negb (t_running t)); [done|]. destruct (t_kind t) as [bw kernel a|ip tr] eqn:Ek.
  - apply (deliver_goes others s i t); try done. case_match; [apply sameTgt_touch|]. unfold sameTgt. split_and!; try done. by destruct (t_kind t).
  - destruct (i_err io) as [err|]; [case_match; [done|]; split; [by apply endReceiver_goes|done]|].
    destruct (i_data io) as [|raw [|? ?]]; [done| |done]. destruct (i_fromIP io) as [from|]; [|done]. destruct (negb (Equal from ip)); [done|].
    destruct (RestoreReply _ _ _ _) as [[data|] tr'].
    + case_match; [split; [|done]; apply (setObj_same others _ i t)|apply (deliver_goes others s i t)]; try done; by eapply sameTgt_tracker.
    + split; [|done]. apply (setObj_same others _ i t); try done. by eapply sameTgt_tracker.
Qed.

(** An open object is in a table. *)
Lemma live_ids r i t :
  relayInv r -> r_closed r = false -> r_objs r !! i = Some t -> t_closed t = false ->
  i ∈ (snd <$> map_to_list (r_targets r)) ++ (snd <$> map_to_list (r_icmp r)).
Proof.
  intros Hr Hc Hi Hopen. pose proof (ri_live r Hr i t Hc Hi Hopen) as Hlive. unfold tabled in Hlive.
  apply elem_of_app. destruct (isICMP _); [right|left]; apply list_elem_of_fmap; eexists (_, i); (split; [done|]); by apply elem_of_map_to_list.
Qed.

Lemma closeRelay_ok others s : sysOk others s -> s_point s = Idle -> sysOk others (closeRelay s).
Proof.
  intros [HI HB HP] Ep. rewrite Ep in HP. destruct HP as (Hc & Ho). unfold closeRelay. cbn zeta.
  split; cbn [s_relay s_point]; [|exact HB|].
  - destruct HI as [H1 H2 H3 H4 H5 H6 H7]. split; cbn [setTables cancel r_targets r_icmp r_objs r_opening r_closed r_identity]; try done.
    + intros i t Hi. by apply (objOk_config (s_relay s)), (H3 i).
    + rewrite Ho, !map_size_empty. done.
    + intros a l. rewrite Ho. by rewrite lookup_empty.
  - split_and!; [done|done| |].
    { rewrite length_app, !length_fmap, !length_map_to_list. cbn [cancel r_targets r_icmp]. pose proof (ri_bound _ HI). lia. }
    intros i t Hi Hopen. by apply (live_ids (s_relay s) i t).
Qed.

Lemma closingStep_ok others s ids : sysOk others s -> s_point s = Closing ids -> sysOk others (closingStep s ids).
Proof.
  intros Hs Ep. pose proof Hs as [HI HB HP]. rewrite Ep in HP. destruct HP as (Hc & Ho & Hlen & Hin). unfold closingStep. destruct ids as [|i rest].
  - destruct (existsb _ _) eqn:Ee; [done|]. split; [done..|].
    assert (Hstop : forall i t, r_objs (s_relay s) !! i = Some t -> t_running t = false).
    { intros i t Hi. destruct (t_running t) eqn:Er; [|done]. rewrite <- Ee. symmetry. apply existsb_exists. exists t. split; [|done].
      by eapply list_elem_of_In, list_elem_of_lookup_2. }
    split_and!; try done. intros i t Hi. eapply (ob_stopped (s_relay s)); [by apply (ri_objs _ HI i)|eauto].
  - destruct (closeTarget_goes others (s_relay s) i HI HB Hc) as [G Hclosed]. pose proof G as (HI' & HB' & HE & Ho' & Hc' & _). split; [done..|].
    cbn [s_point s_relay pointOk]. split_and!; [congruence|congruence|rewrite len_cons in Hlen; lia|]. intros j t Hj Hopen.
    destruct (goes_back others _ _ j t G Hj) as (x & Hx & Hxc & _). pose proof (Hin j x Hx (Hxc Hopen)) as Hm.
    apply elem_of_cons in Hm as [->|?]; [|done]. rewrite (Hclosed t Hj) in Hopen. done.
Qed.

Lemma forwardStep_ok others s now dial write done echoErr : sysOk others s -> sysOk others (forwardStep s now dial write done echoErr).
Proof.
  intros Hs. unfold forwardStep.
  destruct (s_point s) eqn:Ep; auto using nextStep_ok, lookupStep_ok, beginStep_ok, dialStep_ok, useStep_ok, icmpStep_ok, flushStep_ok, closingStep_ok.
Qed.

Lemma relay_step_ok others s e : sysOk others s -> sysOk others (step s e).
Proof.
  intros Hs. pose proof Hs as [HI HB HP]. destruct e as [packets|now dial write done echoErr|i io| | |op|n]; cbn [step].
  - destruct (s_point s) eqn:Ep; try done. destruct (_ <=? _); [|done]. apply (sysOk_goes others s); [done|by apply goes_refl|]. rewrite Ep.
    intros [? ?]. done.
  - by apply forwardStep_ok.
  - destruct (receiveStep_goes others s i io HI HB) as [G E]. pose proof G as (HI' & HB' & _). split; [done..|]. rewrite E. by apply (pointOk_goes others (s_relay s)).
  - apply (sysOk_goes others s); [done|same_goes|done].
  - destruct (s_point s) eqn:Ep; try done. by apply closeRelay_ok.
  - done.
  - apply (sysOk_goes others s); [done|same_goes|done].
Qed.

Definition worldOk (w : world) : Prop := sysOk (outstanding (w_others w)) (w_sys w).

Lemma worldStep_ok w e : worldOk w -> worldOk (worldStep w e).
Proof.
  intros Hw. destruct e as [packets|now dial write done echoErr|i io| | |op|n]; try by apply relay_step_ok.
  unfold worldOk in *. destruct Hw as [HI HB HP]. cbn [worldStep].
  assert (HB1 : budgetOk (r_budget (s_relay (w_sys w))) (heldBy (s_relay (w_sys w)) ++ outstanding (w_others w))) by (by rewrite Permutation_app_comm).
  pose proof (budgetStep_ok _ (r_budget (s_relay (w_sys w)), w_others w) op HB1) as HB2. destruct (budgetStep _ op) as [b ls]. cbn [fst snd] in HB2.
  destruct (opening_inv (s_relay (w_sys w)) (setBudget (s_relay (w_sys w)) b) HI) as [HI' HE]; try done.
  { apply (ri_opening _ HI). }
  { apply (ri_bound _ HI). }
  split; cbn [w_sys w_others s_relay s_point]; [done| |].
  - unfold relayBudget. rewrite Permutation_app_comm. exact HB2.
  - exact HP.
Qed.

Lemma relay_run_ok w es : worldOk w -> worldOk (run w es).
Proof. unfold run. revert w. induction es as [|e es IH]; intros w Hw; [done|]. cbn [foldl]. by apply IH, worldStep_ok. Qed.

Lemma relay_start_ok identity dialUDP allowPrivate b others : budgetOk b (outstanding others) -> worldOk (start identity dialUDP allowPrivate b others).
Proof.
  intros Hb. split; cbn [start w_sys w_others s_relay s_point].
  - split; cbn [newUDPRelay r_targets r_icmp r_objs r_opening r_closed]; try done; intros *; by rewrite lookup_empty || by rewrite lookup_nil.
  - unfold relayBudget, heldBy, opened. cbn [newUDPRelay r_opening r_objs r_budget]. rewrite map_to_list_empty. cbn. by rewrite app_nil_r.
  - done.
Qed.

(** ** Sockets *)




(** ** Traffic to the targets *)

Definition addrOf (r : relay) (i : nat) : gostring := default [] (t_address <$> r_objs r !! i).

Definition queued (r : relay) (b : batch) : list (gostring * list byte) :=
  match b_current b with
  | Some i => (fun p => (addrOf r i, p)) <$> b_payloads b
  | None => []
  end.

(** Accepted datagrams that are still in the hands of the forwarder. *)
Definition pending (r : relay) (p : point) : list (gostring * list byte) :=
  match p with
  | Next b => queued r b
  | Lookup b a x | Begin b a x | Dialling b a x => queued r b ++ [(a, x)]
  | Use b i x | UseICMP b i x => queued r b ++ [(addrOf r i, x)]
  | Flush b (AICMP a x) => queued r b ++ [(a, x)]
  | Flush b (AUse i x) => queued r b ++ [(addrOf r i, x)]
  | Flush b _ => queued r b
  | Idle | Closing _ | Closed | Panic => []
  end.

Definition toKind (icmp : bool) (l : list (gostring * list byte)) : list (gostring * list byte) := filter (fun x => isICMP x.1 = icmp) l.

Definition contents (l : list (Z * gostring * list byte)) : list (gostring * list byte) := (fun x => (x.1.2, x.2)) <$> l.

(** Sent to targets of a kind, and on the way there. *)
Definition out (icmp : bool) (g : log) : list (gostring * list byte) := if icmp then fst <$> g_echoes g else g_writes g.
Definition flow (icmp : bool) (s : sys) : list (gostring * list byte) := out icmp (s_log s) ++ toKind icmp (pending (s_relay s) (s_point s)).

Definition moves (s s' : sys) : Prop :=
  exists new, g_accepted (s_log s') = g_accepted (s_log s) ++ new /\
    forall icmp, flow icmp s' `sublist_of` flow icmp s ++ toKind icmp (contents new).

Lemma addrOf_mono r r' icmp i : extends r r' -> valid r icmp i -> addrOf r' i = addrOf r i.
Proof. intros E (t & Ht & _). destruct (ex_objs r r' E i t Ht) as (t' & Ht' & Ea & _). unfold addrOf. rewrite Ht, Ht'. cbn. done. Qed.

Lemma queued_mono r r' b : extends r r' -> batchOk r b -> queued r' b = queued r b.
Proof. intros E [_ Hb]. unfold queued. destruct (b_current b) as [i|] eqn:Ec; [|done]. by rewrite (addrOf_mono r r' false i) by auto. Qed.

Lemma pending_mono r r' p : extends r r' -> pointOk r p -> pending r' p = pending r p.
Proof.
  intros E. pose proof (queued_mono r r') as Hq. pose proof (addrOf_mono r r') as Ha.
  destruct p as [|b|b a x|b a x|b a x|b i x|b i x|b k|ids| |]; cbn [pointOk pending]; try done.
  - intros (? & ? & ?). by rewrite Hq.
  - intros (? & ? & ?). by rewrite Hq.
  - intros (? & ? & ?). by rewrite Hq.
  - intros (? & ? & ?). by rewrite Hq.
  - intros (? & ? & ? & ?). by rewrite Hq, (Ha false).
  - intros (? & ? & ? & ?). by rewrite Hq, (Ha true).
  - intros (? & ? & ? & Hk). destruct k; cbn [afterOk] in Hk; rewrite ?Hq by done; try done. by rewrite (Ha false).
Qed.

Lemma queued_udp r b icmp : batchOk r b -> toKind icmp (queued r b) = if icmp then [] else queued r b.
Proof.
  intros [_ Hb]. unfold queued, toKind. destruct (b_current b) as [i|]; [|by destruct icmp]. destruct (Hb i eq_refl) as (t & Ht & Hp).
  assert (isICMP (addrOf r i) = false) as Ha by (unfold addrOf; by rewrite Ht). clear Ht Hb.
  induction (b_payloads b) as [|p ps IH]; [by destruct icmp|]. rewrite fmap_cons, filter_cons. cbn [fst]. rewrite Ha, IH. by destruct icmp.
Qed.

Lemma toKind_app icmp l1 l2 : toKind icmp (l1 ++ l2) = toKind icmp l1 ++ toKind icmp l2.
Proof. apply filter_app. Qed.

(** Nothing new, and what is on the way shrinks or has been sent. *)
Lemma moves_within s s' :
  g_accepted (s_log s') = g_accepted (s_log s) -> (forall icmp, flow icmp s' `sublist_of` flow icmp s) -> moves s s'.
Proof. intros E H. exists []. split; [by rewrite app_nil_r|]. intros icmp. by rewrite app_nil_r. Qed.

Lemma toKind_sublist icmp l k : l `sublist_of` k -> toKind icmp l `sublist_of` toKind icmp k.
Proof.
  unfold toKind. induction 1 as [|x l k _ IH|x l k _ IH]; [constructor| |]; rewrite ?filter_cons; case_decide; [by constructor|done|by constructor|done].
Qed.

Lemma moves_pending s r' p :
  pending r' p `sublist_of` pending (s_relay s) (s_point s) -> moves s (mkSys r' p (s_log s)).
Proof. intros H. apply moves_within; [done|]. intros icmp. unfold flow. apply sublist_app; [done|]. by apply toKind_sublist. Qed.

Lemma nextStep_moves others s b : sysOk others s -> s_point s = Next b -> moves s (nextStep s b).
Proof.
  intros [_ _ HP] Ep. rewrite Ep in HP. unfold nextStep. destruct (b_packets b) as [|packet rest].
  { apply moves_pending. by rewrite Ep. }
  destruct (DatagramCache_Decode _ packet) as [[[[n a] p]|] d].
  2:{ apply moves_pending. by rewrite Ep. }
  destruct (Accept _ n) as [ok w]. destruct ok; cbn [negb].
  2:{ apply moves_pending. by rewrite Ep. }
  assert (Hnew : forall r' q, pending r' q = queued (s_relay s) b ++ [(a, p)] ->
    moves s (mkSys r' q (mkLog (g_accepted (s_log s) ++ [(n, a, p)]) (g_writes (s_log s)) (g_echoes (s_log s)) (g_answers (s_log s)) (g_sent (s_log s))))).
  { intros r' q Hq. eexists. split; [done|]. intros icmp. unfold flow. cbn [s_relay s_point s_log]. rewrite Hq, Ep. cbn [pending]. by rewrite toKind_app, app_assoc. }
  destruct (isICMP a) eqn:Ei; [by apply Hnew|]. cbn [b_current]. destruct (b_current b) as [i|] eqn:Ec.
  - cbn [setInput r_objs]. case_bool_decide as Hd; apply Hnew; cbn [pending]; unfold queued; cbn [b_current b_payloads]; rewrite Ec; [|done].
    f_equal. destruct (r_objs (s_relay s) !! i) as [t|] eqn:Et; [|done]. cbn in Hd. injection Hd as Ha. unfold addrOf. cbn [setInput r_objs]. rewrite Et. cbn. by rewrite Ha.
  - apply Hnew. cbn [pending]. unfold queued. cbn [b_current]. by rewrite Ec.
Qed.

Lemma pending_use r b icmp i a p :
  addrOf r i = a -> pending r (useTarget b icmp (Some i) p) = queued r b ++ [(a, p)].
Proof. intros <-. by destruct icmp. Qed.

Lemma addrOf_lookup r i t : r_objs r !! i = Some t -> addrOf r i = t_address t.
Proof. intros E. unfold addrOf. by rewrite E. Qed.

Lemma tab_addr r icmp a i : relayInv r -> tab r icmp !! a = Some i -> addrOf r i = a.
Proof. intros Hr Hi. destruct (ri_tab r icmp a i Hr Hi) as [_ (t & Ht & Ha & _)]. by rewrite (addrOf_lookup r i t Ht). Qed.

Lemma lookupStep_moves others s b a p : sysOk others s -> s_point s = Lookup b a p -> moves s (lookupStep s b a p).
Proof.
  intros [HI HB _] Ep. unfold lookupStep. fold (tab (s_relay s) (isICMP a)). destruct (r_closed (s_relay s)).
  { apply moves_pending. rewrite Ep. cbn [pending]. by apply sublist_inserts_r. }
  destruct (tab _ _ !! a) as [i|] eqn:El; apply moves_pending; rewrite Ep; [|done].
  by rewrite (pending_use _ _ _ _ a) by (by eapply tab_addr).
Qed.

Lemma beginStep_moves others s b a p done : sysOk others s -> s_point s = Begin b a p -> moves s (beginStep s b a p done).
Proof.
  intros [HI HB HP] Ep. rewrite Ep in HP. destruct HP as (Hc & Ho & Hb). unfold beginStep.
  pose proof (beginTarget_spec others (s_relay s) a HI HB Ho) as Hspec. destruct (beginTarget (s_relay s) a) as [res r'].
  destruct Hspec as (_ & _ & HE & _ & _ & Hres). pose proof (queued_mono _ _ b HE Hb) as Hq.
  assert (Hdrop : forall err, moves s (mkSys r' (Next (note b err)) (s_log s))).
  { intros err. apply moves_pending. rewrite Ep. cbn [pending]. change (queued r' (note b err)) with (queued r' b). rewrite Hq. by apply sublist_inserts_r. }
  destruct res as [err| |udp icmp|]; [done|done| |].
  - destruct Hres as (-> & -> & -> & _). destruct (_ && _); [done|]. apply moves_pending. rewrite Ep.
    change (if isICMP a then r_icmp (s_relay s) !! a else r_targets (s_relay s) !! a) with (if isICMP a then tab (s_relay s) true !! a else tab (s_relay s) false !! a).
    destruct (isICMP a); (destruct (tab _ _ !! a) as [i|] eqn:Et; [|apply sublist_nil_l]); by rewrite (pending_use _ _ _ _ a) by (by eapply tab_addr).
  - apply moves_pending. rewrite Ep. cbn [pending]. by rewrite Hq.
Qed.

Lemma dialStep_moves others s io now b a p : sysOk others s -> s_point s = Dialling b a p -> moves s (dialStep s io now b a p).
Proof.
  intros [HI HB HP] Ep. rewrite Ep in HP. destruct HP as (Hc & (l & Ho) & Hb). unfold dialStep.
  assert (r_opening (s_relay s) !! a = Some l) as Hl by (rewrite Ho; apply lookup_singleton_eq). rewrite Hl.
  pose proof (finishTarget_spec others (s_relay s) a l _ now HI HB Hl (fun k => dial_egress (s_relay s) io a k l now)) as Hspec.
  cbn zeta. destruct (finishTarget _ _ _ _ _) as [res r']. destruct Hspec as (_ & _ & HE & _ & _ & Hres). pose proof (queued_mono _ _ b HE Hb) as Hq.
  destruct res as [i|err]; apply moves_pending; rewrite Ep.
  - destruct (Hres i eq_refl) as (t & Ht & Ha). by rewrite (pending_use _ _ _ _ a), Hq by (by rewrite (addrOf_lookup _ _ t)).
  - cbn [pending]. change (queued r' (note b err)) with (queued r' b). rewrite Hq. by apply sublist_inserts_r.
Qed.

Lemma useStep_moves others s now b i p : sysOk others s -> s_point s = Use b i p -> moves s (useStep s now b i p).
Proof.
  intros [HI HB HP] Ep. rewrite Ep in HP. destruct HP as (_ & _ & [Hb _] & Hv). unfold useStep.
  destruct (r_objs (s_relay s) !! i) as [t|] eqn:Hi; [|apply moves_pending; by destruct s].
  destruct (_ && _ && _) eqn:Ec; [apply moves_pending; by rewrite Ep|]. cbn zeta. apply moves_pending.
  destruct (setObj_same others (s_relay s) i t (touch t now) HI HB Hi (sameTgt_touch t now)) as (_ & _ & HE & _).
  pose proof (addrOf_mono _ _ false i HE Hv) as Ha. rewrite Ep.
  assert (queued (s_relay s) b = (fun x => (addrOf (s_relay s) i, x)) <$> b_payloads b) as Hq.
  { unfold queued. destruct (b_payloads b) as [|x xs] eqn:El; [by destruct (b_current b)|]. destruct (Hb ltac:(done)) as [j Hj]. rewrite Hj in Ec |- *.
    destruct (decide (j = i)) as [->|Hji]; [done|].
    rewrite (bool_decide_true (is_Some _)), (bool_decide_false (Some j = Some i)), len_cons in Ec by (by eexists || congruence). cbn [negb andb] in Ec. apply Z.ltb_ge in Ec. lia. }
  case_match; cbn [pending]; unfold queued at 1; cbn [b_current b_payloads]; by rewrite fmap_app, Ha, Hq.
Qed.

Lemma icmpStep_moves others s now err b i p : sysOk others s -> s_point s = UseICMP b i p -> moves s (icmpStep s now err b i p).
Proof.
  intros [HI HB HP] Ep. rewrite Ep in HP. destruct HP as (_ & _ & Hb & Hv). unfold icmpStep.
  destruct (r_objs (s_relay s) !! i) as [t|] eqn:Hi; [|apply moves_pending; by destruct s].
  destruct (t_kind t) as [|ip tr] eqn:Ek; [apply moves_pending; by destruct s|]. cbn zeta.
  assert (HE : forall n tr' at', extends (s_relay s) (setObj (setEcho (s_relay s) n) i (withTracker t ip tr' at')))
    by (intros n tr' at'; by destruct (setTracker_goes others (s_relay s) i t ip tr tr' n at' HI HB Hi Ek) as (_ & _ & ? & _)).
  assert (Hdrop : forall n tr' at' b', queued (s_relay s) b' = queued (s_relay s) b -> batchOk (s_relay s) b' ->
    moves s (mkSys (setObj (setEcho (s_relay s) n) i (withTracker t ip tr' at')) (Next b') (s_log s))).
  { intros n tr' at' b' Hq Hb'. apply moves_pending. rewrite Ep. cbn [pending]. rewrite (queued_mono _ _ b' (HE n tr' at') Hb'), Hq. by apply sublist_inserts_r. }
  destruct (PrepareRequest _ _ _ _) as [[wire|e] tr']; [|by apply Hdrop]. destruct err as [e|]; [by apply Hdrop|].
  apply moves_within; [done|]. intros icmp. unfold flow. cbn [s_log s_relay s_point]. rewrite Ep. cbn [pending].
  rewrite (queued_mono _ _ b (HE _ _ now) Hb), toKind_app, queued_udp by done. rewrite (addrOf_lookup _ _ t Hi).
  destruct Hv as (t0 & Ht0 & Hp). rewrite Hi in Ht0. injection Ht0 as <-. destruct icmp; cbn [out g_echoes g_writes].
  - rewrite fmap_app, app_nil_r. unfold toKind. by rewrite filter_cons, decide_True.
  - rewrite app_assoc. by apply sublist_inserts_r.
Qed.

Lemma writeEach_prefix w i ps : fst (writeEach w i ps) `prefix_of` ps.
Proof.
  revert i. induction ps as [|p ps IH]; intros i; [done|]. cbn [writeEach]. destruct (w i); [by exists (p :: ps)|].
  specialize (IH (S i)). destruct (writeEach w (S i) ps) as [d e]. by apply prefix_cons.
Qed.

(** What a target got of a batch is the start of it. *)
Lemma writeBatch_prefix bw kernel io ps : fst (writeBatch bw kernel io ps) `prefix_of` ps.
Proof.
  unfold writeBatch. destruct (_ && _); [apply prefix_take|]. destruct (_ || _); [apply writeEach_prefix|]. cbn zeta.
  set (n := Z.max 0 _). pose proof (writeEach_prefix (w_write io) (Z.to_nat n) (zdrop n ps)) as Hp.
  destruct (writeEach _ _ _) as [d e]. cbn [fst] in *. unfold ztake, zdrop in *. rewrite <- (take_drop (Z.to_nat n) ps) at 2. by apply prefix_app.
Qed.

Lemma flushStep_moves others s io b k : sysOk others s -> s_point s = Flush b k -> moves s (flushStep s io b k).
Proof.
  intros [HI HB HP] Ep. rewrite Ep in HP. destruct HP as (Hc & Ho & Hb & Hk). unfold flushStep. destruct (Z.eqb_spec (len (b_payloads b)) 0) as [El|El].
  { apply moves_pending. rewrite Ep. apply (f_equal Z.to_nat) in El. rewrite Nat2Z.id in El. apply nil_length_inv in El.
    destruct k; cbn [resume pending]; unfold queued; cbn [b_current b_payloads]; rewrite El; by destruct (b_current b). }
  destruct (b_current b) as [i|] eqn:Ec; [|apply moves_pending; rewrite Ep; apply sublist_nil_l].
  destruct (r_objs (s_relay s) !! i) as [t|] eqn:Hi; [|apply moves_pending; by destruct s].
  destruct (t_kind t) as [bw kernel a|] eqn:Ek; [|apply moves_pending; by destruct s].
  pose proof (writeBatch_prefix bw kernel io (b_payloads b)) as [rest Hd]. destruct (writeBatch _ _ _ _) as [delivered err]. cbn [fst] in Hd. cbn zeta.
  set (r' := match err with Some _ => _ | None => _ end). set (e' := match err with Some _ => _ | None => _ end).
  assert (extends (s_relay s) r') as HE.
  { unfold r'. destruct err; [|done]. case_match; [|done]. by destruct (removeTarget_goes others (s_relay s) i t HI HB Hi) as [(_ & _ & ? & _) _]. }
  apply moves_within; [done|]. intros icmp. unfold flow. cbn [s_log s_relay s_point]. rewrite Ep.
  assert (Hq : queued (s_relay s) b = ((fun p => (t_address t, p)) <$> delivered) ++ ((fun p => (t_address t, p)) <$> rest)).
  { unfold queued. rewrite Ec, Hd, fmap_app, (addrOf_lookup _ _ t Hi). done. }
  assert (Hres : exists tail, pending r' (resume (mkBatch (b_packets b) (Some i) [] e') k) = tail /\ pending (s_relay s) (Flush b k) = queued (s_relay s) b ++ tail).
  { eexists. split; [done|]. destruct k; cbn [resume pending]; unfold queued at 2; cbn [b_current b_payloads fmap list_fmap app]; rewrite ?app_nil_r; try done.
    by rewrite (addrOf_mono _ _ false id HE Hk). }
  destruct Hres as (tail & Ht & Hp). rewrite Ht, Hp, toKind_app, queued_udp by done. destruct icmp; cbn [out g_writes g_echoes]; [done|].
  rewrite Hq, <- !app_assoc. apply sublist_app; [done|]. apply sublist_app; [done|]. by apply sublist_inserts_l.
Qed.

Lemma moves_stay s s' :
  g_accepted (s_log s') = g_accepted (s_log s) -> g_writes (s_log s') = g_writes (s_log s) -> g_echoes (s_log s') = g_echoes (s_log s) ->
  pending (s_relay s') (s_point s') = pending (s_relay s) (s_point s) -> moves s s'.
Proof. intros Ea Ew Ee Ep. apply moves_within; [done|]. intros icmp. unfold flow, out. by rewrite Ew, Ee, Ep. Qed.

Lemma forwardStep_moves others s now dial write done echoErr : sysOk others s -> moves s (forwardStep s now dial write done echoErr).
Proof.
  intros Hs. unfold forwardStep.
  destruct (s_point s) eqn:Ep; eauto using nextStep_moves, lookupStep_moves, beginStep_moves, dialStep_moves, useStep_moves, icmpStep_moves, flushStep_moves, moves_stay.
  unfold closingStep. case_match; [case_match|]; apply moves_stay; by rewrite ?Ep.
Qed.

Lemma receiveStep_log s i io :
  g_accepted (s_log (receiveStep s i io)) = g_accepted (s_log s) /\ g_writes (s_log (receiveStep s i io)) = g_writes (s_log s) /\
  g_echoes (s_log (receiveStep s i io)) = g_echoes (s_log s).
Proof.
  unfold receiveStep, receiveUDP, receiveICMP, deliver. repeat (case_match; try done).
Qed.

Lemma worldStep_moves w e : worldOk w -> moves (w_sys w) (w_sys (worldStep w e)).
Proof.
  intros Hw. pose proof (worldStep_ok w e Hw) as Hw'. destruct Hw as [HI HB HP].
  destruct e as [packets|now dial write done echoErr|i io| | |op|n]; cbn [worldStep step w_sys].
  - destruct (s_point (w_sys w)) eqn:Ep; try by apply moves_stay. destruct (_ <=? _); [|by apply moves_stay]. apply moves_stay; try done. by rewrite Ep.
  - by eapply forwardStep_moves.
  - destruct (receiveStep_goes (outstanding (w_others w)) (w_sys w) i io HI HB) as [(_ & _ & HE & _) E].
    destruct (receiveStep_log (w_sys w) i io) as (? & ? & ?). apply moves_stay; try done. rewrite E. by apply pending_mono.
  - by apply moves_stay.
  - destruct (s_point (w_sys w)) eqn:Ep; try by apply moves_stay. apply moves_stay; try done. by rewrite Ep.
  - destruct (budgetStep _ op). by apply moves_stay.
  - by apply moves_stay.
Qed.

(** What is sent and on the way is part of what was accepted, in its order. *)
Definition flowOk (s : sys) : Prop := forall icmp, flow icmp s `sublist_of` toKind icmp (contents (g_accepted (s_log s))).

Lemma moves_flow s s' : moves s s' -> flowOk s -> flowOk s'.
Proof.
  intros (new & Ea & Hm) Hf icmp. rewrite Ea. unfold contents. rewrite fmap_app, toKind_app. etrans; [apply Hm|]. by apply sublist_app.
Qed.

(** ** Datagrams of the client *)

(** What is left of the batch in hand. *)
Definition packetsOf (p : point) : list (list byte) :=
  match p with
  | Next b | Lookup b _ _ | Begin b _ _ | Dialling b _ _ | Use b _ _ | UseICMP b _ _ | Flush b _ => b_packets b
  | Idle | Closing _ | Closed | Panic => []
  end.

(** What the operations on targets leave alone. *)
Definition inputs (r : relay) : ReplayWindow * DatagramCache * Z := (r_replay r, r_decoder r, r_sequence r).

Lemma closeTarget_inputs r i : inputs (closeTarget r i) = inputs r.
Proof. unfold closeTarget. repeat case_match; done. Qed.

Lemma removeTarget_inputs r i : inputs (removeTarget r i) = inputs r.
Proof. unfold removeTarget. destruct (r_objs r !! i) as [t|]; [|done]. rewrite closeTarget_inputs. by destruct (t_kind t). Qed.

Lemma endReceiver_inputs r i : inputs (endReceiver r i) = inputs r.
Proof. unfold endReceiver. destruct (r_objs r !! i); [|done]. cbn zeta. destruct (r_objs (removeTarget r i) !! i); apply removeTarget_inputs. Qed.

Lemma beginTarget_inputs r a : inputs (snd (beginTarget r a)) = inputs r.
Proof. unfold beginTarget. repeat case_match; done. Qed.

Lemma finishTarget_inputs r a l dialled now : inputs (snd (finishTarget r a l dialled now)) = inputs r.
Proof. unfold finishTarget. destruct dialled as [k|err]; [destruct (_ || _); [cbn [snd]; by rewrite closeTarget_inputs|by destruct k]|]. cbn zeta. by destruct (release _ _). Qed.

Definition quiet (s s' : sys) : Prop :=
  inputs (s_relay s') = inputs (s_relay s) /\ g_accepted (s_log s') = g_accepted (s_log s) /\ packetsOf (s_point s') `sublist_of` packetsOf (s_point s) /\
  g_answers (s_log s') = g_answers (s_log s) /\ g_sent (s_log s') = g_sent (s_log s).

Lemma quiet_refl s : quiet s s.
Proof. by split_and!. Qed.

Lemma resume_packets b k : packetsOf (resume b k) `sublist_of` b_packets b.
Proof. destruct k; try done. apply sublist_nil_l. Qed.

Lemma useTarget_packets b icmp i p : packetsOf (useTarget b icmp i p) `sublist_of` b_packets b.
Proof. destruct i, icmp; try done; apply sublist_nil_l. Qed.

Ltac quiet Ep :=
  first [apply quiet_refl
        |split; [cbn [s_relay]; by rewrite ?removeTarget_inputs, ?closeTarget_inputs|];
         split; [done|]; split; [|done]; cbn [s_point]; rewrite Ep; first [apply resume_packets|apply useTarget_packets|apply sublist_nil_l|done]].

(** Every step of the forwarder but the one that takes a datagram. *)
Lemma forwardStep_quiet s now dial write done echoErr :
  (forall b, s_point s <> Next b) -> quiet s (forwardStep s now dial write done echoErr).
Proof.
  intros Hn. unfold forwardStep. destruct (s_point s) as [|b|b a p|b a p|b a p|b i p|b i p|b k|ids| |] eqn:Ep; try apply quiet_refl.
  - by destruct (Hn b).
  - unfold lookupStep. repeat case_match; quiet Ep.
  - unfold beginStep. pose proof (beginTarget_inputs (s_relay s) a) as Hi. destruct (beginTarget _ a) as [res r']. cbn [snd] in Hi.
    destruct res; [| | |]; repeat case_match; quiet Ep.
  - unfold dialStep. destruct (r_opening _ !! a) as [l|]; [|apply quiet_refl]. cbn zeta.
    pose proof (finishTarget_inputs (s_relay s) a l (if isICMP a then dialICMPTarget (s_relay s) dial a else dialUDPTarget (s_relay s) dial a) now) as Hi.
    destruct (finishTarget _ _ _ _ _) as [[i|err] r']; quiet Ep.
  - unfold useStep. repeat case_match; quiet Ep.
  - unfold icmpStep. repeat case_match; quiet Ep.
  - unfold flushStep. repeat case_match; quiet Ep.
  - unfold closingStep. repeat case_match; quiet Ep.
Qed.

(** Datagrams that arrived. *)
Definition arrived (es : list event) : list (list byte) :=
  concat ((fun e => match e with EBatch packets => packets | _ => [] end) <$> es).

Record inputOk (es : list event) (s : sys) : Prop := {
  io_window : windowOk (r_replay (s_relay s)) (numbers (g_accepted (s_log s)));
  io_cache : cache_ok (r_decoder (s_relay s));
  io_order : g_accepted (s_log s) ++ omap decoded (packetsOf (s_point s)) `sublist_of` omap decoded (arrived es);
}.

Lemma arrived_snoc es e : arrived (es ++ [e]) = arrived es ++ (match e with EBatch packets => packets | _ => [] end).
Proof. unfold arrived. rewrite fmap_app, concat_app. cbn [fmap list_fmap concat]. by rewrite app_nil_r. Qed.

Lemma omap_sublist {A B} (f : A -> option B) l k : l `sublist_of` k -> omap f l `sublist_of` omap f k.
Proof. induction 1 as [|x l k _ IH|x l k _ IH]; [done| |]; cbn; destruct (f x); try done; by constructor. Qed.

Lemma quiet_input es s s' : quiet s s' -> inputOk es s -> inputOk es s'.
Proof.
  intros (Ei & Ea & Hp & _) [H1 H2 H3]. injection Ei as Er Ed _. split; [by rewrite Er, Ea|by rewrite Ed|]. rewrite Ea.
  etrans; [|exact H3]. apply sublist_app; [done|]. by apply omap_sublist.
Qed.

Lemma nextStep_input es s b : s_point s = Next b -> inputOk es s -> inputOk es (nextStep s b).
Proof.
  intros Ep [H1 H2 H3]. rewrite Ep in H3. cbn [packetsOf] in H3. unfold nextStep. destruct (b_packets b) as [|packet rest] eqn:Eb.
  { split; cbn [s_relay s_point s_log packetsOf]; [done|done|by rewrite Eb]. }
  destruct (Decode_cache (r_decoder (s_relay s)) packet H2) as [Hd Hc]. destruct (DatagramCache_Decode _ packet) as [res d]. cbn [fst snd] in Hd, Hc. subst res.
  cbn [omap list_omap] in H3. change (omap _ rest) with (omap decoded rest) in H3. unfold decoded at 1 in H3. destruct (DecodeDatagram packet) as [[[n a] p]|] eqn:Edec.
  - pose proof (windowOk_step _ _ n H1 (decoded_u64 packet n a p Edec)) as Hw. cbn zeta. destruct (Accept _ n) as [ok w]. cbn [fst snd] in Hw. destruct ok; cbn [negb].
    + set (g := mkLog _ _ _ _ _).
      assert (Hgen : forall q, packetsOf q = rest -> inputOk es (mkSys (setInput (s_relay s) w d) q g)).
      { intros q Hq. split; cbn [s_relay s_point s_log setInput r_replay r_decoder g g_accepted]; [unfold numbers; by rewrite fmap_app|done|]. by rewrite Hq, <- app_assoc. }
      repeat case_match; by apply Hgen.
    + split; cbn [s_relay s_point s_log setInput r_replay r_decoder packetsOf note b_packets]; [done|done|]. etrans; [|exact H3]. apply sublist_app; [done|]. by apply sublist_cons.
  - split; cbn [s_relay s_point s_log setInput r_replay r_decoder packetsOf note b_packets]; done.
Qed.

Lemma receiveStep_replay s i io :
  r_replay (s_relay (receiveStep s i io)) = r_replay (s_relay s) /\ r_decoder (s_relay (receiveStep s i io)) = r_decoder (s_relay s) /\
  s_point (receiveStep s i io) = s_point s.
Proof.
  assert (He : forall r j, r_replay (endReceiver r j) = r_replay r /\ r_decoder (endReceiver r j) = r_decoder r)
    by (intros r j; pose proof (endReceiver_inputs r j) as E; by injection E).
  unfold receiveStep, receiveUDP, receiveICMP, deliver. repeat (case_match; try done); cbn [s_relay s_point]; destruct (He (s_relay s) i); try done; by rewrite !(proj1 (He _ i)), !(proj2 (He _ i)).
Qed.

Lemma worldStep_input es w e : inputOk es (w_sys w) -> inputOk (es ++ [e]) (w_sys (worldStep w e)).
Proof.
  intros [H1 H2 H3].
  assert (Hmono : inputOk (es ++ [e]) (w_sys w)).
  { split; [done..|]. rewrite arrived_snoc, omap_app. by apply sublist_inserts_r. }
  destruct e as [packets|now dial write done echoErr|i io| | |op|n]; cbn [worldStep step w_sys].
  - destruct (s_point (w_sys w)) eqn:Ep; try done. destruct (_ <=? _); [|done]. split; [done..|]. cbn [s_log s_point packetsOf b_packets].
    rewrite arrived_snoc, omap_app. cbn [packetsOf omap list_omap] in H3. rewrite app_nil_r in H3. by apply sublist_app.
  - destruct (s_point (w_sys w)) as [|b| | | | | | | | |] eqn:Ep; try (eapply quiet_input; [apply forwardStep_quiet; by rewrite Ep|done]).
    unfold forwardStep. rewrite Ep. by apply nextStep_input.
  - destruct (receiveStep_replay (w_sys w) i io) as (Er & Ed & Ep). destruct (receiveStep_log (w_sys w) i io) as (Ea & _).
    destruct Hmono as [M1 M2 M3]. split; [by rewrite Er, Ea|by rewrite Ed|by rewrite Ea, Ep].
  - by destruct Hmono.
  - destruct (s_point (w_sys w)) eqn:Ep; try done. destruct Hmono as [M1 M2 M3]. rewrite Ep in M3. split; done.
  - destruct (budgetStep _ op). by destruct Hmono.
  - by destruct Hmono.
Qed.

(** ** Answers to the client *)

(** Datagrams read from targets. *)
Definition readCount (es : list event) : Z :=
  foldl (fun n e => match e with ERead _ io => n + len (i_data io) | _ => n end) 0 es.

(** The relay before an event. *)
Definition before (w0 : world) (es : list event) (n : nat) : relay := s_relay (w_sys (run w0 (take n es))).

(** The target's datagram that an answer comes from: the event of the read and
    the position in what was read.  A UDP target's datagram is the answer; of an
    echo target it is the reply that the target's tracker restores at that moment. *)
Definition source (w0 : world) (es : list event) (at_ : nat * nat) (x : Z * gostring * list byte) : Prop :=
  exists i io raw t, es !! at_.1 = Some (ERead i io) /\ i_data io !! at_.2 = Some raw /\
    r_objs (before w0 es at_.1) !! i = Some t /\ t_running t = true /\
    match t_kind t with
    | KUDP _ _ _ => x.1.2 = i_from io /\ x.2 = raw
    | KICMP ip out =>
        x.1.2 = icmpPrefix ++ IPString ip /\ (exists from, i_fromIP io = Some from /\ Equal from ip = true) /\
        fst (RestoreReply (i_now io) (mkTracker out (r_echo (before w0 es at_.1))) raw (bool_decide (To4 ip = None))) = Some x.2
    end.

(** Each answer has its own datagram. *)
Definition sourced (w0 : world) (es : list event) (answers : list (Z * gostring * list byte)) : Prop :=
  exists origins, NoDup origins /\ Forall2 (source w0 es) origins answers.

(** The request that an echo comes from: the event that sent it, the target, and
    what its tracker made of the payload. *)
Definition echoed (w0 : world) (es : list event) (e : gostring * list byte * list byte) : Prop :=
  exists n now dial write done i t ip out tr, es !! n = Some (EForward now dial write done None) /\
    r_objs (before w0 es n) !! i = Some t /\ t_address t = e.1.1 /\ t_kind t = KICMP ip out /\
    PrepareRequest now (mkTracker out (r_echo (before w0 es n))) e.1.2 (bool_decide (To4 ip = None)) = (Ok e.2, tr).

Record answersOk (w0 : world) (es : list event) (s : sys) : Prop := {
  an_sent : forall d, d ∈ g_sent (s_log s) -> exists x, x ∈ g_answers (s_log s) /\ DecodeDatagram d = Ok x;
  an_sourced : sourced w0 es (g_answers (s_log s));
  an_numbers : readCount es < 2 ^ 64 ->
    0 <= r_sequence (s_relay s) <= readCount es /\ StronglySorted Z.lt (numbers (g_answers (s_log s))) /\
    (forall n, n ∈ numbers (g_answers (s_log s)) -> n <= r_sequence (s_relay s));
}.

Lemma encodeAll_content sequence a data :
  let '(answers, packets, last) := encodeAll sequence a data in
  (forall d, d ∈ packets -> exists x, x ∈ answers /\ DecodeDatagram d = Ok x) /\
  (exists js, NoDup js /\ Forall2 (fun j (x : Z * gostring * list byte) => x.1.2 = a /\ data !! j = Some x.2) js answers).
Proof.
  revert sequence. induction data as [|p data IH]; intros sequence; cbn [encodeAll].
  { split; [intros ? H; by apply elem_of_nil in H|]. exists []. split; constructor. }
  assert (Hshift : forall js answers, NoDup js -> Forall2 (fun j (x : Z * gostring * list byte) => x.1.2 = a /\ data !! j = Some x.2) js answers ->
    NoDup (S <$> js) /\ Forall2 (fun j (x : Z * gostring * list byte) => x.1.2 = a /\ (p :: data) !! j = Some x.2) (S <$> js) answers).
  { intros js answers Hnd Hf. split; [by apply (NoDup_fmap_2 _)|]. apply Forall2_fmap_l. eapply Forall2_impl; [exact Hf|]. done. }
  destruct (_ <? _).
  { specialize (IH sequence). destruct (encodeAll _ _ _) as [[answers packets] last]. destruct IH as [I1 (js & J1 & J2)]. split; [done|].
    exists (S <$> js). by apply Hshift. }
  specialize (IH (u64 (sequence + 1))). destruct (encodeAll _ _ _) as [[answers packets] last]. destruct IH as [I1 (js & J1 & J2)].
  destruct (Hshift js answers J1 J2) as [K1 K2].
  destruct (EncodeDatagramInto _ _ _ _) as [packet|] eqn:Ee; [|split; [done|]; by exists (S <$> js)].
  split.
  - intros d [->|Hd]%elem_of_cons; [eexists; split; [by left|by eapply encode_decode; [apply u64_range|]]|]. destruct (I1 d Hd) as (x & Hx & ?). exists x. split; [by right|done].
  - exists (0%nat :: (S <$> js)). split.
    + constructor; [|done]. intros (k & ? & _)%list_elem_of_fmap. done.
    + by constructor.
Qed.

Lemma encodeAll_numbers sequence a data :
  0 <= sequence -> sequence + len data < 2 ^ 64 ->
  let '(answers, packets, last) := encodeAll sequence a data in
  sequence <= last <= sequence + len data /\ StronglySorted Z.lt (numbers answers) /\ (forall n, n ∈ numbers answers -> sequence < n <= last).
Proof.
  revert sequence. induction data as [|p data IH]; intros sequence Hs Hl; cbn [encodeAll].
  { split_and!; [lia|cbn; lia|constructor|]. intros n Hn. by apply elem_of_nil in Hn. }
  rewrite len_cons in Hl |- *. destruct (_ <? _).
  { specialize (IH sequence Hs ltac:(lia)). destruct (encodeAll _ _ _) as [[answers packets] last]. destruct IH as (I1 & I2 & I3). split_and!; [lia|lia|done|done]. }
  rewrite u64_id by (unfold is_u64; lia). specialize (IH (sequence + 1) ltac:(lia) ltac:(lia)). destruct (encodeAll _ _ _) as [[answers packets] last].
  destruct IH as (I1 & I2 & I3). destruct (EncodeDatagramInto _ _ _ _) as [packet|].
  - split_and!; [lia|lia| |].
    + cbn. constructor; [done|]. apply Forall_forall. intros n Hn%I3. lia.
    + intros n [->|Hn%I3]%elem_of_cons; cbn [fst snd]; lia.
  - split_and!; [lia|lia|done|]. intros n Hn%I3. lia.
Qed.

Lemma sendEach_mem w i ds d : d ∈ fst (sendEach w i ds) -> d ∈ ds.
Proof.
  revert i. induction ds as [|x ds IH]; intros i; cbn [sendEach]; [done|]. destruct (w i).
  - case_match; [intros H1; right; by eapply IH|]. intros H1. by apply elem_of_nil in H1.
  - specialize (IH (S i)). destruct (sendEach w (S i) ds) as [sent e]. cbn [fst] in *. rewrite !elem_of_cons. intros [->|?]; auto.
Qed.

Lemma sendResponseBatch_mem io ds d : d ∈ fst (sendResponseBatch io ds) -> d ∈ ds.
Proof.
  assert (Htake : forall n, d ∈ ztake n ds -> d ∈ ds) by (intros n Hn; rewrite <- (take_drop (Z.to_nat n) ds); apply elem_of_app; by left).
  unfold sendResponseBatch. destruct (_ =? 0); [intros H; by apply elem_of_nil in H|]. destruct (o_batch io) as [[n err]|]; [|apply sendEach_mem].
  destruct (1 <? len ds); [|apply sendEach_mem]. destruct err as [e|]; [|done]. case_match; [|apply Htake].
  pose proof (sendEach_mem (o_send io) 0 ds d) as Hs. destruct (sendEach _ _ _) as [sent e']. cbn [fst] in *. rewrite elem_of_app. intros [?|?]; eauto.
Qed.

Lemma readCount_snoc es e : readCount (es ++ [e]) = readCount es + match e with ERead _ io => len (i_data io) | _ => 0 end.
Proof. unfold readCount. rewrite foldl_app. cbn [foldl]. destruct e; lia. Qed.

Lemma before_snoc w0 es e n : (n <= length es)%nat -> before w0 (es ++ [e]) n = before w0 es n.
Proof. intros H. unfold before. by rewrite take_app_le by lia. Qed.

Lemma source_mono w0 es e at_ x : source w0 es at_ x -> source w0 (es ++ [e]) at_ x.
Proof.
  intros (i & io & raw & t & He & H). pose proof (lookup_lt_Some _ _ _ He) as Hlt. exists i, io, raw, t. rewrite before_snoc by lia.
  by rewrite lookup_app_l by done.
Qed.

Lemma echoed_mono w0 es e x : echoed w0 es x -> echoed w0 (es ++ [e]) x.
Proof.
  intros (n & now & dial & write & done_ & i & t & ip & out & tr & He & H). pose proof (lookup_lt_Some _ _ _ He) as Hlt.
  exists n, now, dial, write, done_, i, t, ip, out, tr. rewrite before_snoc by lia. by rewrite lookup_app_l by done.
Qed.

(** The answers of one more read, each from its position. *)
Lemma sourced_app w0 es e answers js new :
  sourced w0 es answers -> NoDup js -> Forall2 (fun j x => source w0 (es ++ [e]) (length es, j) x) js new -> sourced w0 (es ++ [e]) (answers ++ new).
Proof.
  intros (os & Hnd & Hf) Hj Hn. exists (os ++ (pair (length es) <$> js)). split.
  - apply NoDup_app. split; [done|]. split; [|by apply (NoDup_fmap_2 _)]. intros o Ho (j & -> & _)%list_elem_of_fmap.
    apply list_elem_of_lookup in Ho as [k Hk]. destruct (Forall2_lookup_l _ _ _ _ _ Hf Hk) as (x & _ & i & io & raw & t & He & _).
    apply lookup_lt_Some in He. cbn in He. lia.
  - apply Forall2_app; [|by apply Forall2_fmap_l]. eapply Forall2_impl; [exact Hf|]. intros. by apply source_mono.
Qed.

Lemma sourced_mono w0 es e answers : sourced w0 es answers -> sourced w0 (es ++ [e]) answers.
Proof. intros H. rewrite <- (app_nil_r answers). apply (sourced_app w0 es e answers [] []); [done|constructor|constructor]. Qed.

(** Nothing new for the client. *)
Lemma answers_mono w0 es e s s' :
  answersOk w0 es s -> g_answers (s_log s') = g_answers (s_log s) -> g_sent (s_log s') = g_sent (s_log s) -> r_sequence (s_relay s') = r_sequence (s_relay s) ->
  answersOk w0 (es ++ [e]) s'.
Proof.
  intros [A1 A2 A3] Ea Es Er. split; rewrite ?Ea, ?Es, ?Er; [done| |].
  - by apply sourced_mono.
  - rewrite readCount_snoc. intros Hlt. assert (0 <= match e with ERead _ io => len (i_data io) | _ => 0 end) by (destruct e; lia).
    destruct A3 as (B1 & B2 & B3); [lia|]. split_and!; [lia|lia|done|done].
Qed.

Lemma deliver_answers w0 es k s i t a data io :
  answersOk w0 es s ->
  (forall (x : Z * gostring * list byte) j, x.1.2 = a -> data !! j = Some x.2 -> source w0 (es ++ [ERead k io]) (length es, j) x) -> len data <= len (i_data io) ->
  answersOk w0 (es ++ [ERead k io]) (deliver s i t a data io).
Proof.
  intros [A1 A2 A3] Hrec Hlen. unfold deliver. cbn zeta. cbn [setObj r_sequence].
  pose proof (encodeAll_content (r_sequence (s_relay s)) a data) as Hc. pose proof (encodeAll_numbers (r_sequence (s_relay s)) a data) as Hnum.
  destruct (encodeAll _ _ _) as [[answers packets] last]. destruct Hc as [C1 (js & C2 & C3)].
  pose proof (sendResponseBatch_mem (i_send io) packets) as Hmem. destruct (sendResponseBatch _ _) as [sent sendErr]. cbn [fst] in Hmem.
  set (ends := match sendErr with Some _ => _ | None => _ end). set (r1 := setSequence _ last).
  assert (Hseq : r_sequence (if ends then endReceiver r1 i else r1) = last) by (destruct ends; [pose proof (endReceiver_inputs r1 i) as E; by injection E|done]).
  split; cbn [s_relay s_log g_sent g_answers].
  - intros d [Hd|Hd]%elem_of_app.
    + destruct (A1 d Hd) as (x & Hx & ?). exists x. split; [apply elem_of_app; by left|done].
    + destruct (C1 d (Hmem d Hd)) as (x & Hx & ?). exists x. split; [apply elem_of_app; by right|done].
  - apply (sourced_app _ _ _ _ js); [done|done|]. eapply Forall2_impl; [exact C3|]. intros j x [? ?]. by apply Hrec.
  - rewrite readCount_snoc, Hseq. intros Hlt. destruct A3 as (B1 & B2 & B3); [lia|]. destruct Hnum as (N1 & N2 & N3); [lia|lia|].
    unfold numbers in *. rewrite fmap_app. split_and!; [lia|lia| |].
    + apply (sorted_app _ _ (r_sequence (s_relay s))); try done. intros n Hn%N3. lia.
    + intros n [Hn%B3|Hn%N3]%elem_of_app; lia.
Qed.

Lemma receiveStep_answers w0 es i io :
  answersOk w0 es (w_sys (run w0 es)) -> answersOk w0 (es ++ [ERead i io]) (receiveStep (w_sys (run w0 es)) i io).
Proof.
  intros A. set (s := w_sys (run w0 es)) in *.
  assert (Hsame : forall s', g_answers (s_log s') = g_answers (s_log s) -> g_sent (s_log s') = g_sent (s_log s) ->
    r_sequence (s_relay s') = r_sequence (s_relay s) -> answersOk w0 (es ++ [ERead i io]) s') by (intros; by eapply answers_mono).
  assert (Hin : (es ++ [ERead i io]) !! length es = Some (ERead i io)) by (by apply list_lookup_middle).
  assert (Hbe : before w0 (es ++ [ERead i io]) (length es) = s_relay s) by (unfold before, s; by rewrite take_app_length).
  unfold receiveStep, receiveUDP, receiveICMP. destruct (r_objs (s_relay s) !! i) as [t|] eqn:Ht; [|by apply Hsame]. destruct (t_running t) eqn:Hrun; cbn [negb]; [|by apply Hsame].
  destruct (t_kind t) as [bw kernel u|ip tr] eqn:Ek.
  - assert (Hd : forall data, data = i_data io \/ data = [] -> answersOk w0 (es ++ [ERead i io]) (deliver s i (if 0 <? len data then touch t (i_now io) else t) (i_from io) data io)).
    { intros data Hd. apply deliver_answers; [done| |destruct Hd as [->| ->]; cbn; lia]. intros x j Ha Hx. exists i, io, x.2, t. cbn [fst snd]. rewrite Hbe, Ek.
      destruct Hd as [->| ->]; [by split_and!|done]. }
    apply Hd. destruct (i_err io), kernel; auto.
  - destruct (i_err io) as [err|].
    { case_match; apply Hsame; try done. cbn [s_relay]. pose proof (endReceiver_inputs (s_relay s) i) as E. by injection E. }
    destruct (i_data io) as [|raw [|? ?]] eqn:Ed; [by apply Hsame| |by apply Hsame]. destruct (i_fromIP io) as [from|] eqn:Ef; [|by apply Hsame].
    destruct (Equal from ip) eqn:Eeq; [|by apply Hsame]. cbn [negb].
    destruct (RestoreReply _ _ _ _) as [[data|] tr'] eqn:Er; [|by apply Hsame]. case_match; [by apply Hsame|]. apply deliver_answers; [done| |by rewrite Ed].
    intros x [|j] Ha Hx; [|done]. injection Hx as Hx. exists i, io, raw, t. cbn [fst snd]. rewrite Hbe, Ek, Ed, Er. split_and!; try done; [by exists from|by rewrite Hx].
Qed.

Lemma nextStep_answers s b :
  g_answers (s_log (nextStep s b)) = g_answers (s_log s) /\ g_sent (s_log (nextStep s b)) = g_sent (s_log s) /\
  r_sequence (s_relay (nextStep s b)) = r_sequence (s_relay s).
Proof. unfold nextStep. repeat (case_match; try done). Qed.

Lemma worldStep_answers w0 es e (w := run w0 es) : answersOk w0 es (w_sys w) -> answersOk w0 (es ++ [e]) (w_sys (worldStep w e)).
Proof.
  intros A. destruct e as [packets|now dial write done echoErr|i io| | |op|n]; cbn [worldStep step w_sys].
  - apply (answers_mono w0 es _ (w_sys w)); try done; repeat case_match; done.
  - destruct (s_point (w_sys w)) as [|b| | | | | | | | |] eqn:Ep.
    2:{ unfold forwardStep. rewrite Ep. destruct (nextStep_answers (w_sys w) b) as (? & ? & ?). by apply (answers_mono w0 es _ (w_sys w)). }
    all: pose proof (forwardStep_quiet (w_sys w) now dial write done echoErr ltac:(by rewrite Ep)) as (Ei & _ & _ & Ea & Es);
      injection Ei as _ _ Er; by apply (answers_mono w0 es _ (w_sys w)).
  - by apply receiveStep_answers.
  - by apply (answers_mono w0 es _ (w_sys w)).
  - apply (answers_mono w0 es _ (w_sys w)); try done; repeat case_match; done.
  - destruct (budgetStep _ op). by apply (answers_mono w0 es _ (w_sys w)).
  - by apply (answers_mono w0 es _ (w_sys w)).
Qed.

(** The echoes that go out are what the trackers made of requests. *)
Definition echoesOk (w0 : world) (es : list event) (s : sys) : Prop := Forall (echoed w0 es) (g_echoes (s_log s)).

Lemma echoes_mono w0 es e s s' : echoesOk w0 es s -> g_echoes (s_log s') = g_echoes (s_log s) -> echoesOk w0 (es ++ [e]) s'.
Proof. unfold echoesOk. intros H ->. eapply Forall_impl; [exact H|]. intros. by apply echoed_mono. Qed.

Lemma worldStep_echoes w0 es e (w := run w0 es) : echoesOk w0 es (w_sys w) -> echoesOk w0 (es ++ [e]) (w_sys (worldStep w e)).
Proof.
  intros A. assert (Hsame : forall s', g_echoes (s_log s') = g_echoes (s_log (w_sys w)) -> echoesOk w0 (es ++ [e]) s') by (intros; by eapply echoes_mono).
  destruct e as [packets|now dial write done_ echoErr|i io| | |op|n]; cbn [worldStep step w_sys].
  - apply Hsame. by repeat case_match.
  - unfold forwardStep. destruct (s_point (w_sys w)) as [|b|b a p|b a p|b a p|b i p|b i p|b k|ids| |]; try (by apply Hsame).
    + apply Hsame. unfold nextStep. by repeat case_match.
    + apply Hsame. unfold lookupStep. by repeat case_match.
    + apply Hsame. unfold beginStep. by repeat case_match.
    + apply Hsame. unfold dialStep. by repeat case_match.
    + apply Hsame. unfold useStep. by repeat case_match.
    + unfold icmpStep. destruct (r_objs (s_relay (w_sys w)) !! i) as [t|] eqn:Ht; [|by apply Hsame].
      destruct (t_kind t) as [|ip out_] eqn:Ek; [by apply Hsame|]. cbn zeta. destruct (PrepareRequest _ _ _ _) as [[wire|x] tr] eqn:Er; [|by apply Hsame].
      destruct echoErr as [x|]; [by apply Hsame|]. unfold echoesOk. cbn [s_log g_echoes]. apply Forall_app. split; [by apply (Hsame (w_sys w))|].
      constructor; [|done]. exists (length es), now, dial, write, done_, i, t, ip, out_, tr.
      assert (before w0 (es ++ [EForward now dial write done_ None]) (length es) = s_relay (w_sys w)) as -> by (unfold before, w; by rewrite take_app_length).
      split; [by apply list_lookup_middle|]. by split_and!.
    + apply Hsame. unfold flushStep. by repeat case_match.
    + apply Hsame. unfold closingStep. by repeat case_match.
  - apply Hsame. by apply receiveStep_log.
  - by apply Hsame.
  - apply Hsame. by repeat case_match.
  - destruct (budgetStep _ op). by apply Hsame.
  - by apply Hsame.
Qed.

Record runOk (w0 : world) (es : list event) : Prop := {
  ro_world : worldOk (run w0 es);
  ro_flow : flowOk (w_sys (run w0 es));
  ro_input : inputOk es (w_sys (run w0 es));
  ro_answers : answersOk w0 es (w_sys (run w0 es));
  ro_echoes : echoesOk w0 es (w_sys (run w0 es));
}.

Lemma run_snoc w es e : run w (es ++ [e]) = worldStep (run w es) e.
Proof. unfold run. by rewrite foldl_app. Qed.

Lemma runOk_run identity dialUDP allowPrivate es :
  runOk (start identity dialUDP allowPrivate emptyBudget []) es.
Proof.
  induction es as [|e es IH] using rev_ind.
  - split; [apply relay_start_ok, budgetOk_empty|by intros []| | |].
    + split; [apply windowOk_zero|apply cache_ok_zero|done].
    + split; cbn [run foldl start w_sys s_log g_sent g_answers].
      * intros d Hd. by apply elem_of_nil in Hd.
      * exists []. split; constructor.
      * intros _. split_and!; [done|done|constructor|]. intros n Hn. by apply elem_of_nil in Hn.
    + by constructor.
  - destruct IH as [I1 I2 I3 I4 I5]. split; rewrite run_snoc.
    + by apply worldStep_ok.
    + eapply moves_flow; [by apply worldStep_moves|done].
    + by apply worldStep_input.
    + by apply worldStep_answers.
    + by apply worldStep_echoes.
Qed.

(** ** The configuration *)








(** ** Theorems *)




(** The relay forwards each datagram of the client at most once and in
    order: the accepted datagrams are, in their order, among those that
    arrived and decode, with pairwise distinct numbers; and the packets written
    to UDP targets, and the echo requests sent to ICMP targets, are in order
    among the accepted datagrams of that kind, each to the address it names. *)
Theorem relay_forwards identity dialUDP allowPrivate es :
  let g := s_log (w_sys (run (start identity dialUDP allowPrivate emptyBudget []) es)) in
  g_accepted g `sublist_of` omap decoded (arrived es) /\ NoDup (numbers (g_accepted g)) /\
  g_writes g `sublist_of` toKind false (contents (g_accepted g)) /\
  (fst <$> g_echoes g) `sublist_of` toKind true (contents (g_accepted g)).
Proof.
  cbn zeta. destruct (runOk_run identity dialUDP allowPrivate es) as [_ HF [HW _ HO] _ _]. split_and!.
  - etrans; [|exact HO]. by apply sublist_inserts_r.
  - apply HW.
  - etrans; [|exact (HF false)]. by apply sublist_inserts_r.
  - etrans; [|exact (HF true)]. by apply sublist_inserts_r.
Qed.

(** Every datagram the client gets decodes to an answer; the answers come from
    the targets, each from a datagram of its own, under the address of the
    sender; and they are numbered in strictly increasing order until 2^64
    datagrams have been read. *)
Theorem relay_answers identity dialUDP allowPrivate es :
  let w0 := start identity dialUDP allowPrivate emptyBudget [] in
  let g := s_log (w_sys (run w0 es)) in
  (forall d, d ∈ g_sent g -> exists x, DecodeDatagram d = Ok x /\ x ∈ g_answers g) /\
  sourced w0 es (g_answers g) /\
  (readCount es < 2 ^ 64 -> StronglySorted Z.lt (numbers (g_answers g))).
Proof.
  cbn zeta. destruct (runOk_run identity dialUDP allowPrivate es) as [_ _ _ [A1 A2 A3] _]. split_and!; [|done|].
  - intros d Hd. destruct (A1 d Hd) as (x & Hx & Hdec). eauto.
  - intros H. by apply A3.
Qed.

(** What goes on the wire for an echo: the payload with the relay's token as its
    identifier and sequence number, and the checksum for it. *)
Definition withToken (payload wire : list byte) : Prop :=
  exists token ipv6, is_u32 token /\ ValidateEchoRequest payload ipv6 = None /\ wire = rewriteToken payload token ipv6 /\
    length wire = length payload /\ take 2 wire = take 2 payload /\ be_val (slice 4 8 wire) = token /\ drop 8 wire = drop 8 payload.

Lemma echoed_wire w0 es a payload wire : echoed w0 es (a, payload, wire) -> withToken payload wire.
Proof.
  intros (n & now & dial & write & done_ & i & t & ip & out_ & tr & _ & _ & _ & _ & E). cbn [fst snd] in E. unfold PrepareRequest in E.
  set (v6 := bool_decide _) in *. destruct (ValidateEchoRequest payload v6) eqn:Ev; [done|]. pose proof (Validate_length _ _ Ev) as Hl.
  destruct (_ <=? _) in E; [done|]. set (token := u32 _) in E. injection E as <- _.
  destruct (rewriteToken_parse payload token v6 Hl (u32_range _)) as (_ & _ & P3 & P4).
  exists token, v6. split_and!; [apply u32_range..|done|done|by apply rewriteToken_length| |done|done].
  destruct (packet_shape payload Hl) as (b0&b1&b2&b3&b4&b5&b6&b7&d&->). by destruct (rewriteToken_shape b0 b1 b2 b3 b4 b5 b6 b7 d token v6) as (c2 & c3 & ->).
Qed.

(** ** A run *)

(** Two datagrams for one target and a repetition of the first, then an answer,
    then the end. *)
Definition packetOf (n : Z) (p : gostring) : list byte := match EncodeDatagram n (bs "8.8.8.8:53") p with Ok d => d | Fail _ => [] end.

Definition forward : event :=
  EForward 0 (mkDialIO (fun _ => Ok [mkIPAddr (zb [8; 8; 8; 8]) []]) (Ok (true, false)) None) (mkWriteIO (2, None) (fun _ => None)) true None.

Definition sampleRun : list event :=
  [EBatch [packetOf 5 (bs "a"); packetOf 6 (bs "b"); packetOf 5 (bs "a")]] ++ replicate 12 forward ++
  [ERead 0 (mkReadIO 1 (bs "8.8.8.8:53") None [bs "c"] None (mkSendIO None (fun _ => None)));
   ERead 0 (mkReadIO 2 [] None [] (Some ErrNetClosed) (mkSendIO None (fun _ => None))); EClose] ++ replicate 3 forward.

Definition sampleEnd : world := Eval vm_compute in run (start (bs "user") false false emptyBudget []) sampleRun.

Lemma sample_run : run (start (bs "user") false false emptyBudget []) sampleRun = sampleEnd.
Proof. vm_cast_no_check (eq_refl sampleEnd). Qed.

(** The relay of the example does its work: one batch to the target, the answer
    with number 1, and the budget as before. *)
Lemma sample_run_works :
  g_writes (s_log (w_sys sampleEnd)) = [(bs "8.8.8.8:53", bs "a"); (bs "8.8.8.8:53", bs "b")] /\
  g_sent (s_log (w_sys sampleEnd)) = [packetOf 1 (bs "c")] /\
  s_point (w_sys sampleEnd) = Closed /\ used (r_budget (s_relay (w_sys sampleEnd))) = 0.
Proof. by vm_compute. Qed.
