(* ===== verification/PacketConn.v ===== *)
(** * The client's UDP association over HTTP/3: [quicPacketConn] of [pkg/client]

    [conn_udp.go] from [packetStream] on, and the address functions of
    [client.go].  Any number of goroutines read, write, move the deadlines and
    close; the physical connection may go down at any time.  A step is the code
    of one goroutine between two points where it can be overtaken: a critical
    section, a call of the stream, whose result is an argument of the step, or
    the code between them.  Contexts are numbered in the order of their
    creation. *)
From S2P Require Import Prelude GoNet ReplayWindow Frame Target.

Open Scope Z_scope.

#[local] Arguments bs : simpl never.

(** ** Addresses *)

(** [net.Addr] as the callers pass it: [*net.UDPAddr], [*ICMPAddr] (its [IP] may
    be nil), [domainUDPAddr] and any other type by its two methods. *)
Inductive Addr :=
  | AUDP (u : UDPAddr)
  | AICMPAddr (ip : option IP)
  | ADomain (s : gostring)
  | AOther (network text : gostring).

Definition UDPAddr_String (u : UDPAddr) : gostring :=
  let ip := if bool_decide (udpIP u = []) then [] else IPString (udpIP u) in
  let host := if bool_decide (udpZone u = []) then ip else ip ++ [chPercent] ++ udpZone u in
  JoinHostPort host (Itoa (udpPort u)).

Definition Addr_String (a : Addr) : gostring :=
  match a with
  | AUDP u => UDPAddr_String u
  | AICMPAddr ip => match ip with None => [] | Some ip => IPString ip end
  | ADomain s => s
  | AOther _ text => text
  end.

Definition Addr_Network (a : Addr) : gostring :=
  match a with
  | AUDP _ | ADomain _ => bs "udp"
  | AICMPAddr _ => bs "icmp"
  | AOther network _ => network
  end.

Definition icmpText : gostring := bs "icmp:".

Definition icmpNetworks : list gostring := [bs "icmp"; bs "icmp4"; bs "icmp6"; bs "ip4:icmp"; bs "ip6:ipv6-icmp"].

Definition isICMPAddr (a : Addr) : bool :=
  match a with
  | AICMPAddr _ => true
  | _ => bool_decide (Addr_Network a ∈ icmpNetworks) || hasPrefix icmpText (Addr_String a)
  end.

(** A nil address is [None]. *)
Definition formatDatagramAddress (addr : option Addr) : gostring :=
  match addr with
  | None => []
  | Some a =>
      let s := Addr_String a in
      if isICMPAddr a && negb (hasPrefix icmpText s) then icmpText ++ s else s
  end.

(** [netip.ParseAddrPort] followed by [net.UDPAddrFromAddrPort]. *)
Definition ParseUint16 (s : gostring) : option Z :=
  if bool_decide (s = []) || negb (forallb is_digit s) then None
  else if dec_value s <=? 65535 then Some (dec_value s) else None.

Definition ParseAddr (s : gostring) : option (IP * gostring) :=
  match ip_family s with
  | None => None
  | Some c =>
      if bool_decide (c = chDot) then (fun q => (q, [])) <$> parseIPv4 s
      else if bool_decide (c = chColon) then
        match indexByte chPercent s with
        | None => (fun q => (q, [])) <$> parseIPv6 s
        | Some i => if bool_decide (drop (S i) s = []) then None else (fun q => (q, drop (S i) s)) <$> parseIPv6 (take i s)
        end
      else None
  end.

Definition ParseAddrPort (s : gostring) : option UDPAddr :=
  match lastIndexByte chColon s with
  | None => None
  | Some i =>
      let ip := take i s in
      let port := drop (S i) s in
      if bool_decide (ip = []) || bool_decide (port = []) then None
      else
        let v6 := bool_decide (ip !! 0%nat = Some chLBracket) in
        if v6 && (bool_decide (length ip < 2)%nat || negb (bool_decide (last ip = Some chRBracket))) then None
        else
          let ip := if v6 then take (length ip - 2) (drop 1 ip) else ip in
          match ParseUint16 port, ParseAddr ip with
          | Some n, Some (a, zone) =>
              if eqb v6 (bool_decide (length a = 16%nat)) then Some (mkUDPAddr a n zone) else None
          | _, _ => None
          end
  end.

Definition parseUDPAddr (addrStr : gostring) : Addr :=
  if hasPrefix icmpText addrStr then
    let target := drop (length icmpText) addrStr in
    match ParseIP target with Some ip => AICMPAddr (Some ip) | None => AICMPAddr (Some IPv4zero) end
  else match ParseAddrPort addrStr with
  | Some u => AUDP u
  | None =>
      match SplitHostPort addrStr with
      | Some (host, portStr) =>
          match Atoi portStr with
          | Some port => match ParseIP host with Some ip => AUDP (mkUDPAddr ip port []) | None => ADomain addrStr end
          | None => AUDP (mkUDPAddr IPv4zero 0 [])
          end
      | None => AUDP (mkUDPAddr IPv4zero 0 [])
      end
  end.

(** ** Data *)

Definition errCanceled := Errorf "context canceled".
Definition errBatchLengths := Errorf "chitanda: payload/address batch lengths differ".
Definition errNilAddr := Errorf "nil datagram destination".

(** A context below the one of the association. *)
Record context := mkCtx {
  x_deadline : option Z;
  x_cancelled : bool;
}.

(** Calls: [ReadFrom] with a buffer of [size] bytes, at its loop, at the lock,
    inside [ReceiveDatagram], after it, at the checks that follow; a write at
    its lock, inside the send, at the second lock; [SetWriteDeadline] before
    [oldCancel]. *)
Inductive call :=
  | RTop (size : Z)
  | RLock (size : Z)
  | RReceive (size id : Z) (ctx : nat)
  | RUnlink (size id : Z) (ctx : nat) (res : result (list byte))
  | RCheck (size : Z) (dl : option Z) (res : result (list byte))
  | RDone (res : result (list byte * Addr))
  | WTop (frames : list (list byte))
  | WSend (frames : list (list byte)) (ctx : nat)
  | WJudge (frames : list (list byte)) (ctx : nat) (err : error)
  | WDone (err : option error)
  | DCancel (old : nat)
  | DDone.

Record conn := mkConn {
  c_closed : bool;
  c_done : bool;                        (* ctx.Err() is not nil *)
  c_sequence : Z;
  c_replay : ReplayWindow;
  c_decoder : DatagramCache;
  c_readDeadline : option Z;
  c_writeDeadline : option Z;
  c_write : option nat;                 (* writeContext, with its writeCancel *)
  c_reads : list (Z * nat);             (* readCancels *)
  c_nextReadID : Z;
  c_ctxs : list context;
  c_calls : list call;
  c_active : Z;                         (* what the association takes from activeStreams *)
}.

Definition newConn : conn := mkConn false false 0 zeroWindow zeroDatagramCache None None None [] 0 [] [] 0.

Definition setCall (c : conn) (k : nat) (x : call) : conn :=
  mkConn (c_closed c) (c_done c) (c_sequence c) (c_replay c) (c_decoder c) (c_readDeadline c) (c_writeDeadline c) (c_write c) (c_reads c)
    (c_nextReadID c) (c_ctxs c) (<[k := x]> (c_calls c)) (c_active c).
Definition addCall (c : conn) (x : call) : conn :=
  mkConn (c_closed c) (c_done c) (c_sequence c) (c_replay c) (c_decoder c) (c_readDeadline c) (c_writeDeadline c) (c_write c) (c_reads c)
    (c_nextReadID c) (c_ctxs c) (c_calls c ++ [x]) (c_active c).
Definition setSeq (c : conn) (n : Z) : conn :=
  mkConn (c_closed c) (c_done c) n (c_replay c) (c_decoder c) (c_readDeadline c) (c_writeDeadline c) (c_write c) (c_reads c)
    (c_nextReadID c) (c_ctxs c) (c_calls c) (c_active c).
Definition setIn (c : conn) (w : ReplayWindow) (d : DatagramCache) : conn :=
  mkConn (c_closed c) (c_done c) (c_sequence c) w d (c_readDeadline c) (c_writeDeadline c) (c_write c) (c_reads c)
    (c_nextReadID c) (c_ctxs c) (c_calls c) (c_active c).
Definition setDeadlines (c : conn) (r w : option Z) (ctx : option nat) : conn :=
  mkConn (c_closed c) (c_done c) (c_sequence c) (c_replay c) (c_decoder c) r w ctx (c_reads c)
    (c_nextReadID c) (c_ctxs c) (c_calls c) (c_active c).
Definition setReads (c : conn) (l : list (Z * nat)) (n : Z) : conn :=
  mkConn (c_closed c) (c_done c) (c_sequence c) (c_replay c) (c_decoder c) (c_readDeadline c) (c_writeDeadline c) (c_write c) l
    n (c_ctxs c) (c_calls c) (c_active c).
Definition setCtxs (c : conn) (l : list context) : conn :=
  mkConn (c_closed c) (c_done c) (c_sequence c) (c_replay c) (c_decoder c) (c_readDeadline c) (c_writeDeadline c) (c_write c) (c_reads c)
    (c_nextReadID c) l (c_calls c) (c_active c).
Definition setEnd (c : conn) (closed done : bool) (active : Z) : conn :=
  mkConn closed done (c_sequence c) (c_replay c) (c_decoder c) (c_readDeadline c) (c_writeDeadline c) (c_write c) (c_reads c)
    (c_nextReadID c) (c_ctxs c) (c_calls c) active.

(** ** Contexts *)

Definition reached (dl : option Z) (now : Z) : bool := match dl with Some d => d <=? now | None => false end.

(** [cancel()]. *)
Definition cancelCtx (c : conn) (i : nat) : conn :=
  setCtxs c (alter (fun x => mkCtx (x_deadline x) true) i (c_ctxs c)).

Definition cancelReads (c : conn) : conn := foldl (fun c e => cancelCtx c (snd e)) c (c_reads c).

(** [ctx.Err() != nil]. *)
Definition ctxErr (c : conn) (i : nat) (now : Z) : bool :=
  c_done c || match c_ctxs c !! i with Some x => x_cancelled x || reached (x_deadline x) now | None => false end.

(** The entry [id] leaves [readCancels]: the last one takes its place. *)
Definition unlink (l : list (Z * nat)) (id : Z) : list (Z * nat) :=
  match list_find (fun e => fst e = id) l, last l with
  | Some (i, _), Some e => take (length l - 1) (<[i := e]> l)
  | _, _ => l
  end.

(** ** What went in and out *)

Record log := mkLog {
  g_writes : list (Z * gostring * list byte);     (* what the callers wrote, numbered *)
  g_sent : list (list byte);                      (* datagrams the stream took *)
  g_received : list (list byte);                  (* datagrams the stream gave *)
  g_reads : list (Z * gostring * list byte);      (* what the callers got, before the cut to their buffers *)
}.

Record state := mkState {
  s_conn : conn;
  s_log : log;
}.

(** ** Reading *)

Definition readTop (c : conn) (k : nat) (size : Z) : conn :=
  if c_done c then setCall c k (RDone (Fail errCanceled)) else setCall c k (RLock size).

Definition readLock (c : conn) (k : nat) (now size : Z) : conn :=
  if c_closed c then setCall c k (RDone (Fail ErrNetClosed))
  else if reached (c_readDeadline c) now then setCall c k (RDone (Fail ErrDeadlineExceeded))
  else
    let ctx := length (c_ctxs c) in
    let c := setCtxs c (c_ctxs c ++ [mkCtx (c_readDeadline c) false]) in
    let id := u64 (c_nextReadID c + 1) in
    setCall (setReads c (c_reads c ++ [(id, ctx)]) id) k (RReceive size id ctx).

(** [ReceiveDatagram] returned. *)
Definition readReceived (s : state) (k : nat) (size id : Z) (ctx : nat) (res : result (list byte)) : state :=
  let g := s_log s in
  mkState (setCall (cancelCtx (s_conn s) ctx) k (RUnlink size id ctx res))
    (mkLog (g_writes g) (g_sent g) (match res with Ok p => g_received g ++ [p] | Fail _ => g_received g end) (g_reads g)).

Definition readUnlink (c : conn) (k : nat) (size id : Z) (res : result (list byte)) : conn :=
  let c := setReads c (unlink (c_reads c) id) (c_nextReadID c) in
  if c_closed c then setCall c k (RDone (Fail ErrNetClosed)) else setCall c k (RCheck size (c_readDeadline c) res).

Definition readCheck (s : state) (k : nat) (now size : Z) (dl : option Z) (res : result (list byte)) : state :=
  let c := s_conn s in
  match res with
  | Fail err =>
      if bool_decide (err = errCanceled) || bool_decide (err = ErrDeadlineExceeded) then
        if c_done c then mkState (setCall c k (RDone (Fail errCanceled))) (s_log s)
        else if reached dl now then mkState (setCall c k (RDone (Fail ErrDeadlineExceeded))) (s_log s)
        else mkState (setCall c k (RTop size)) (s_log s)
      else mkState (setCall c k (RDone (Fail err))) (s_log s)
  | Ok raw =>
      let '(decoded, decoder) := DatagramCache_Decode (c_decoder c) raw in
      match decoded with
      | Fail _ => mkState (setCall (setIn c (c_replay c) decoder) k (RTop size)) (s_log s)
      | Ok (seq, address, payload) =>
          let '(accepted, window) := Accept (c_replay c) seq in
          let c := setIn c window decoder in
          if accepted then
            let g := s_log s in
            mkState (setCall c k (RDone (Ok (ztake size payload, parseUDPAddr address))))
              (mkLog (g_writes g) (g_sent g) (g_received g) (g_reads g ++ [(seq, address, payload)]))
          else mkState (setCall c k (RTop size)) (s_log s)
      end
  end.

(** ** Writing *)

(** The payloads with their addresses, numbered and encoded; a number is used
    up by a failed encoding, too. *)
Fixpoint encodeFrames (sequence : Z) (batch : list (list byte * option Addr)) : result (list (Z * gostring * list byte) * list (list byte)) * Z :=
  match batch with
  | [] => (Ok ([], []), sequence)
  | (p, addr) :: rest =>
      let n := u64 (sequence + 1) in
      let address := formatDatagramAddress addr in
      match EncodeDatagram n address p with
      | Fail err => (Fail err, n)
      | Ok packet =>
          match encodeFrames n rest with
          | (Ok (ws, frames), last) => (Ok ((n, address, p) :: ws, packet :: frames), last)
          | (Fail err, last) => (Fail err, last)
          end
      end
  end.

Definition startWrite (s : state) (batch : list (list byte * option Addr)) : state :=
  let c := s_conn s in
  match encodeFrames (c_sequence c) batch with
  | (Fail err, n) => mkState (addCall (setSeq c n) (WDone (Some err))) (s_log s)
  | (Ok (ws, frames), n) =>
      let g := s_log s in
      mkState (addCall (setSeq c n) (WTop frames)) (mkLog (g_writes g ++ ws) (g_sent g) (g_received g) (g_reads g))
  end.

(** [WriteTo]. *)
Definition WriteTo (s : state) (p : list byte) (addr : option Addr) : state := startWrite s [(p, addr)].

(** [WriteBatch]. *)
Definition WriteBatch (s : state) (payloads : list (list byte)) (addrs : list (option Addr)) : state :=
  let refuse err := mkState (addCall (s_conn s) (WDone (Some err))) (s_log s) in
  if negb (len payloads =? len addrs) then refuse errBatchLengths
  else if existsb (fun a => match a with None => true | Some _ => false end) addrs then refuse errNilAddr
  else if len payloads =? 0 then mkState (addCall (s_conn s) (WDone None)) (s_log s)
  else startWrite s (zip payloads addrs).

Definition writeTop (c : conn) (k : nat) (now : Z) (frames : list (list byte)) : conn :=
  if c_closed c || c_done c then setCall c k (WDone (Some ErrNetClosed))
  else if reached (c_writeDeadline c) now then setCall c k (WDone (Some ErrDeadlineExceeded))
  else
    match c_write c with
    | Some ctx => setCall c k (WSend frames ctx)
    | None =>
        let ctx := length (c_ctxs c) in
        let c := setCtxs c (c_ctxs c ++ [mkCtx None false]) in
        setCall (setDeadlines c (c_readDeadline c) (c_writeDeadline c) (Some ctx)) k (WSend frames ctx)
    end.

(** The send returned: how many frames the stream took, the error; without one
    it took them all. *)
Definition writeSent (s : state) (k : nat) (now : Z) (frames : list (list byte)) (ctx taken : nat) (err : option error) : state :=
  let c := s_conn s in
  let g := s_log s in
  let took := match err with None => frames | Some _ => take taken frames end in
  let g := mkLog (g_writes g) (g_sent g ++ took) (g_received g) (g_reads g) in
  match err with
  | None => mkState (setCall c k (WDone None)) g
  | Some e => mkState (setCall c k (if ctxErr c ctx now then WJudge frames ctx e else WDone (Some e))) g
  end.

Definition writeJudge (c : conn) (k : nat) (frames : list (list byte)) (ctx : nat) (err : error) : conn :=
  if c_closed c then setCall c k (WDone (Some ErrNetClosed))
  else if bool_decide (c_write c = Some ctx) then setCall c k (WDone (Some err))
  else setCall c k (WTop frames).

(** ** Deadlines and the end *)

Definition Close (c : conn) : conn :=
  if c_closed c then c
  else
    let c := cancelReads c in
    let c := match c_write c with Some ctx => cancelCtx c ctx | None => c end in
    setEnd c true true (c_active c - 1).

(** A zero time is [None]. *)
Definition SetReadDeadline (c : conn) (t : option Z) (now : Z) : conn :=
  let old := c_readDeadline c in
  let c := setDeadlines c t (c_writeDeadline c) (c_write c) in
  let wakes := match t, old with
               | Some t, Some old => (t <? old) || (old <=? now)
               | _, _ => true
               end in
  if wakes then cancelReads c else c.

(** The lock; [oldCancel] follows outside of it. *)
Definition SetWriteDeadline (c : conn) (t : option Z) : conn :=
  let ctx := length (c_ctxs c) in
  let old := c_write c in
  let c := setCtxs c (c_ctxs c ++ [mkCtx t false]) in
  let c := setDeadlines c (c_readDeadline c) t (Some ctx) in
  addCall c (match old with Some o => DCancel o | None => DDone end).

(** ** Steps *)

Inductive event :=
  | ERead (size : Z)
  | EWrite (p : list byte) (addr : option Addr)
  | EWriteBatch (payloads : list (list byte)) (addrs : list (option Addr))
  | EClose
  | ESetRead (t : option Z) (now : Z)
  | ESetWrite (t : option Z)
  | EDown                                     (* the connection or the manager ends *)
  | EStep (k : nat) (now : Z) (res : result (list byte)) (taken : nat) (err : option error).

Definition callStep (s : state) (k : nat) (now : Z) (res : result (list byte)) (taken : nat) (err : option error) : state :=
  let c := s_conn s in
  match c_calls c !! k with
  | Some (RTop size) => mkState (readTop c k size) (s_log s)
  | Some (RLock size) => mkState (readLock c k now size) (s_log s)
  | Some (RReceive size id ctx) => readReceived s k size id ctx res
  | Some (RUnlink size id _ res) => mkState (readUnlink c k size id res) (s_log s)
  | Some (RCheck size dl res) => readCheck s k now size dl res
  | Some (WTop frames) => mkState (writeTop c k now frames) (s_log s)
  | Some (WSend frames ctx) => writeSent s k now frames ctx taken err
  | Some (WJudge frames ctx e) => mkState (writeJudge c k frames ctx e) (s_log s)
  | Some (DCancel old) => mkState (setCall (cancelCtx c old) k DDone) (s_log s)
  | Some (RDone _) | Some (WDone _) | Some DDone | None => s
  end.

Definition step (s : state) (e : event) : state :=
  let c := s_conn s in
  match e with
  | ERead size => mkState (addCall c (RTop size)) (s_log s)
  | EWrite p addr => WriteTo s p addr
  | EWriteBatch payloads addrs => WriteBatch s payloads addrs
  | EClose => mkState (Close c) (s_log s)
  | ESetRead t now => mkState (SetReadDeadline c t now) (s_log s)
  | ESetWrite t => mkState (SetWriteDeadline c t) (s_log s)
  | EDown => mkState (setEnd c (c_closed c) true (c_active c)) (s_log s)
  | EStep k now res taken err => callStep s k now res taken err
  end.

Definition start : state := mkState newConn (mkLog [] [] [] []).

Definition run (s : state) (es : list event) : state := foldl step s es.
