(* ===== verification/PacketConnRuns.v ===== *)
(** * Runs of the client's UDP association: what [PacketConn.v] guarantees

    For every interleaving of readers, writers, deadlines, [Close] and the end of
    the connection. *)
From Stdlib Require Import Sorting.Sorted.
From S2P Require Import Prelude GoNet ReplayWindow Frame Datagrams Target PacketConn.

Open Scope Z_scope.

#[local] Arguments bs : simpl never.

(** ** The list of reads *)

Lemma unlink_perm l id ctx : NoDup (fst <$> l) -> (id, ctx) ∈ l -> (id, ctx) :: unlink l id ≡ₚ l.
Proof.
  intros Hnd Hin. unfold unlink. destruct (list_find _ l) as [[i v]|] eqn:Ef.
  2:{ rewrite list_find_None, Forall_forall in Ef. by destruct (Ef (id, ctx) Hin). }
  apply list_find_Some in Ef as (Hi & Hv & _). assert (v = (id, ctx)) as ->.
  { apply list_elem_of_lookup in Hin as [j Hj]. enough (i = j) as -> by congruence.
    eapply (NoDup_lookup (fst <$> l)); [done| |]; rewrite list_lookup_fmap; [rewrite Hi|rewrite Hj]; cbn; by rewrite ?Hv. }
  destruct l as [|e l0] using rev_ind; [done|]. rewrite last_snoc, length_app. cbn [length].
  rewrite Nat.add_sub. destruct (decide (i < length l0)%nat) as [Hlt|Hge].
  - rewrite insert_app_l, take_app_length' by (rewrite ?length_insert; done). rewrite lookup_app_l in Hi by done.
    rewrite (insert_swap l0 i _ e Hi). symmetry. by rewrite Permutation_app_comm.
  - assert (i = length l0) as -> by (apply lookup_lt_Some in Hi; rewrite length_app in Hi; cbn in Hi; lia).
    rewrite list_insert_id by (rewrite lookup_app_r, Nat.sub_diag in Hi |- * by lia; done). rewrite take_app_length.
    rewrite lookup_app_r, Nat.sub_diag in Hi by lia. injection Hi as ->. by rewrite Permutation_app_comm.
Qed.

(** ** The invariant of the contexts *)

(** Reads that are in [readCancels]. *)
Definition flight (x : call) : option (Z * nat) :=
  match x with
  | RReceive _ id ctx | RUnlink _ id ctx _ => Some (id, ctx)
  | _ => None
  end.

(** A context that serves under the deadline in force: it ends by then. *)
Definition serves (dl : option Z) (x : context) : Prop :=
  x_cancelled x = true \/
  match dl with
  | Some d => exists e, x_deadline x = Some e /\ e <= d
  | None => x_deadline x = None
  end.

Definition cancelled (c : conn) (ctx : nat) : Prop := exists x, c_ctxs c !! ctx = Some x /\ x_cancelled x = true.

(** A send waits on the context in force, or on one that is cancelled or about
    to be. *)
Definition sendOk (c : conn) (ctx : nat) : Prop :=
  c_write c = Some ctx \/ cancelled c ctx \/ (DCancel ctx ∈ c_calls c /\ is_Some (c_ctxs c !! ctx)).

Record connOk (n : Z) (c : conn) : Prop := {
  co_flights : omap flight (c_calls c) ≡ₚ c_reads c;
  co_ids : n < 2 ^ 64 -> 0 <= c_nextReadID c <= n /\ NoDup (fst <$> c_reads c) /\ (forall id ctx, (id, ctx) ∈ c_reads c -> id <= c_nextReadID c);
  co_reads : forall id ctx, (id, ctx) ∈ c_reads c -> exists x, c_ctxs c !! ctx = Some x /\ serves (c_readDeadline c) x;
  co_write : match c_write c with
             | Some ctx => exists x, c_ctxs c !! ctx = Some x /\ x_deadline x = c_writeDeadline c
             | None => c_writeDeadline c = None
             end;
  co_sends : forall frames ctx, WSend frames ctx ∈ c_calls c -> sendOk c ctx;
  co_closed : c_closed c = true -> c_done c = true;
}.

Lemma connOk_le n n' c : n <= n' -> connOk n c -> connOk n' c.
Proof. intros Hn [H1 H2 H3 H4 H5 H6]. split; try done. intros Hlt. destruct H2 as (B1 & B2 & B3); [lia|]. split; [lia|done]. Qed.

(** Contexts stay and stay cancelled. *)
Definition grows (l l' : list context) : Prop :=
  forall i x, l !! i = Some x -> exists x', l' !! i = Some x' /\ x_deadline x' = x_deadline x /\ (x_cancelled x = true -> x_cancelled x' = true).

Lemma serves_grows dl x x' : x_deadline x' = x_deadline x -> (x_cancelled x = true -> x_cancelled x' = true) -> serves dl x -> serves dl x'.
Proof. intros E H [Hc|Hd]; [left; auto|right]. by rewrite E. Qed.

Lemma setCtxs_ok n c l : grows (c_ctxs c) l -> connOk n c -> connOk n (setCtxs c l).
Proof.
  intros G [H1 H2 H3 H4 H5 H6]. split; cbn [setCtxs c_calls c_reads c_nextReadID c_ctxs c_readDeadline c_writeDeadline c_write c_closed c_done]; try done.
  - intros id ctx Hin. destruct (H3 id ctx Hin) as (x & Hx & Hs). destruct (G ctx x Hx) as (x' & Hx' & E & Hc). exists x'. split; [done|]. by eapply serves_grows.
  - destruct (c_write c) as [ctx|]; [|done]. destruct H4 as (x & Hx & Hd). destruct (G ctx x Hx) as (x' & Hx' & E & Hc). exists x'. split; [done|congruence].
  - intros frames ctx Hin. destruct (H5 frames ctx Hin) as [?|[(x & Hx & Hc)|[? [x Hx]]]]; [by left|right; left|right; right; split; [done|]];
    destruct (G ctx x Hx) as (x' & Hx' & _ & Hc'); exists x'; auto.
Qed.

Lemma grows_snoc l x : grows l (l ++ [x]).
Proof. intros i y Hi. exists y. split; [by apply lookup_app_l_Some|done]. Qed.

Lemma grows_cancel l i : grows l (alter (fun x => mkCtx (x_deadline x) true) i l).
Proof.
  intros j x Hj. rewrite list_lookup_alter. destruct (decide (i = j)) as [->|]; [|by exists x]. rewrite Hj. eexists. split; [done|]. done.
Qed.

Lemma cancelCtx_ok n c i : connOk n c -> connOk n (cancelCtx c i).
Proof. apply setCtxs_ok, grows_cancel. Qed.

Lemma cancelCtx_cancels c i x : c_ctxs c !! i = Some x -> cancelled (cancelCtx c i) i.
Proof. intros Hi. unfold cancelled, cancelCtx. cbn [setCtxs c_ctxs]. rewrite list_lookup_alter, decide_True, Hi by done. eexists. split; done. Qed.

Lemma cancelled_cancelCtx c i j : cancelled c j -> cancelled (cancelCtx c i) j.
Proof. intros (x & Hx & Hc). destruct (grows_cancel (c_ctxs c) i j x Hx) as (x' & Hx' & _ & Hc'). exists x'. auto. Qed.

(** What [cancelReads] leaves alone, and that it cancels every read. *)
Lemma cancelReads_fold l c :
  let c' := foldl (fun c e => cancelCtx c (snd e)) c l in
  c' = setCtxs c (c_ctxs c') /\ grows (c_ctxs c) (c_ctxs c') /\
  (forall e : Z * nat, e ∈ l -> is_Some (c_ctxs c !! snd e) -> cancelled c' (snd e)).
Proof.
  cbn zeta. revert c. induction l as [|e l IH]; intros c; cbn [foldl].
  - split; [by destruct c|]. split; [intros i x Hx; by exists x|]. intros e He. by apply elem_of_nil in He.
  - destruct (IH (cancelCtx c (snd e))) as (E & G & Hc). split; [by rewrite E at 1; destruct c|]. split.
    + intros i x Hx. destruct (grows_cancel (c_ctxs c) (snd e) i x Hx) as (y & Hy & Ed & Hyc).
      destruct (G i y Hy) as (z & Hz & Ed' & Hzc). exists z. split; [done|]. split; [congruence|auto].
    + intros e' [->|He']%elem_of_cons [x Hx].
      * destruct (cancelCtx_cancels c (snd e) x Hx) as (y & Hy & Hyc). destruct (G _ y Hy) as (z & Hz & _ & Hzc). exists z. auto.
      * apply Hc; [done|]. destruct (grows_cancel (c_ctxs c) (snd e) (snd e') x Hx) as (y & Hy & _). by exists y.
Qed.

Lemma cancelReads_spec n c :
  connOk n c -> exists l, cancelReads c = setCtxs c l /\ grows (c_ctxs c) l /\ (forall id ctx, (id, ctx) ∈ c_reads c -> exists x, l !! ctx = Some x /\ x_cancelled x = true).
Proof.
  intros Hok. destruct (cancelReads_fold (c_reads c) c) as (E & G & Hc). eexists. split; [exact E|]. split; [exact G|].
  intros id ctx Hin. destruct (co_reads n c Hok id ctx Hin) as (x & Hx & _). apply (Hc (id, ctx) Hin). by exists x.
Qed.

(** A call goes on without touching [readCancels]. *)
Lemma setCall_ok n c k x y :
  connOk n c -> c_calls c !! k = Some y -> flight x = flight y -> (forall frames ctx, x = WSend frames ctx -> sendOk c ctx) ->
  (forall ctx, y = DCancel ctx -> is_Some (c_ctxs c !! ctx) -> cancelled c ctx) -> connOk n (setCall c k x).
Proof.
  intros [H1 H2 H3 H4 H5 H6] Hk Hf Hs Hd.
  assert (Hsend : forall ctx, sendOk c ctx -> sendOk (setCall c k x) ctx).
  { intros ctx [?|[?|[Hin Hx]]]; [by left|by right; left|]. apply list_elem_of_lookup in Hin as [j Hj]. destruct (decide (k = j)) as [<-|Hne].
    - right. left. apply Hd; [congruence|done].
    - right. right. split; [|done]. apply list_elem_of_lookup. exists j. cbn [setCall c_calls]. by rewrite list_lookup_insert_ne. }
  split; cbn [setCall c_calls c_reads c_nextReadID c_ctxs c_readDeadline c_writeDeadline c_write c_closed c_done]; try done.
  - rewrite <- H1. pose proof (omap_insert flight (c_calls c) k x y Hk) as Hp. rewrite Hf in Hp. by apply Permutation_app_inv_l in Hp.
  - intros frames ctx Hin. apply Hsend. apply list_elem_of_lookup in Hin as [j Hj]. destruct (decide (k = j)) as [<-|Hne].
    + rewrite list_lookup_insert_eq in Hj by (by eapply lookup_lt_Some). injection Hj as ->. eauto.
    + rewrite list_lookup_insert_ne in Hj by done. eapply H5. apply list_elem_of_lookup. eauto.
Qed.

Lemma addCall_ok n c x : connOk n c -> flight x = None -> (forall frames ctx, x <> WSend frames ctx) -> connOk n (addCall c x).
Proof.
  intros [H1 H2 H3 H4 H5 H6] Hf Hs. split; cbn [addCall c_calls c_reads c_nextReadID c_ctxs c_readDeadline c_writeDeadline c_write c_closed c_done]; try done.
  - rewrite omap_app. cbn. rewrite Hf. by rewrite app_nil_r.
  - intros frames ctx [Hin|Hin]%elem_of_app; [|apply list_elem_of_singleton in Hin; by destruct (Hs frames ctx)].
    destruct (H5 frames ctx Hin) as [?|[?|[? ?]]]; [by left|by right; left|right; right; split; [|done]]. apply elem_of_app. by left.
Qed.

(** ** Steps keep it *)

Lemma readLock_ok n c k now size : connOk n c -> c_calls c !! k = Some (RLock size) -> connOk (n + 1) (readLock c k now size).
Proof.
  intros Hok Hk. apply (connOk_le n (n + 1)) in Hok as Hok'; [|lia]. unfold readLock.
  destruct (c_closed c) eqn:Ec; [by eapply setCall_ok|]. destruct (reached (c_readDeadline c) now) eqn:Er; [by eapply setCall_ok|]. cbn zeta.
  set (ctx := length (c_ctxs c)). set (c1 := setCtxs c (c_ctxs c ++ [mkCtx (c_readDeadline c) false])).
  pose proof (setCtxs_ok _ _ _ (grows_snoc (c_ctxs c) (mkCtx (c_readDeadline c) false)) Hok) as [H1 H2 H3 H4 H5 H6]. fold c1 in H1, H2, H3, H4, H5, H6.
  change (c_nextReadID c1) with (c_nextReadID c). change (c_reads c1) with (c_reads c). set (id := u64 (c_nextReadID c + 1)).
  split; cbn [setCall setReads c_calls c_reads c_nextReadID c_ctxs c_readDeadline c_writeDeadline c_write c_closed c_done]; try done.
  - pose proof (omap_insert flight (c_calls c) k (RReceive size id ctx) (RLock size) Hk) as Hp. cbn [flight app] in Hp. change (c_calls c1) with (c_calls c) in *.
    rewrite Hp, H1. change (c_reads c1) with (c_reads c). apply Permutation_cons_append.
  - intros Hn. destruct H2 as (B1 & B2 & B3); [lia|]. change (c_nextReadID c1) with (c_nextReadID c) in *. change (c_reads c1) with (c_reads c) in *.
    assert (id = c_nextReadID c + 1) as Hid by (apply u64_id; unfold is_u64; lia). rewrite Hid. split; [lia|]. split.
    + rewrite fmap_app. apply NoDup_app. split_and!; [done| |apply NoDup_singleton]. intros z Hz ->%list_elem_of_singleton.
      apply list_elem_of_fmap in Hz as ([z' ctx'] & Ez & Hin). cbn in Ez. specialize (B3 _ _ Hin). lia.
    + intros i x [Hin|Hin]%elem_of_app; [specialize (B3 i x Hin); lia|]. apply list_elem_of_singleton in Hin. injection Hin as -> _. lia.
  - intros i x [Hin|Hin]%elem_of_app; [by apply (H3 i x)|]. apply list_elem_of_singleton in Hin. injection Hin as _ ->.
    exists (mkCtx (c_readDeadline c) false). split; [cbn [c1 setCtxs c_ctxs]; unfold ctx; by rewrite lookup_app_r, Nat.sub_diag by lia|].
    right. cbn [c1 setCtxs c_readDeadline x_deadline]. destruct (c_readDeadline c); [eexists; split; [done|lia]|done].
  - intros frames x Hin. apply list_elem_of_lookup in Hin as [j Hj]. destruct (decide (k = j)) as [<-|Hne].
    + rewrite list_lookup_insert_eq in Hj by (by eapply lookup_lt_Some). done.
    + rewrite list_lookup_insert_ne in Hj by done. destruct (H5 frames x) as [?|[?|[Hd Hx]]]; [apply list_elem_of_lookup; eauto|by left|by right; left|right; right; split; [|done]].
      apply list_elem_of_lookup in Hd as [i Hi]. apply list_elem_of_lookup. exists i. cbn [setCall setReads c_calls]. rewrite list_lookup_insert_ne; [done|].
      intros ->. change (c_calls c1) with (c_calls c) in Hi. congruence.
Qed.

Lemma readUnlink_ok n c k size id ctx res :
  n < 2 ^ 64 -> connOk n c -> c_calls c !! k = Some (RUnlink size id ctx res) -> connOk n (readUnlink c k size id res).
Proof.
  intros Hn Hok Hk. pose proof Hok as [H1 H2 H3 H4 H5 H6]. destruct (H2 Hn) as (B1 & B2 & B3).
  assert (Hin : (id, ctx) ∈ c_reads c).
  { rewrite <- H1. apply list_elem_of_omap. exists (RUnlink size id ctx res). split; [by eapply list_elem_of_lookup_2|done]. }
  pose proof (unlink_perm (c_reads c) id ctx B2 Hin) as Hu.
  assert (Hsub : forall e, e ∈ unlink (c_reads c) id -> e ∈ c_reads c) by (intros e He; rewrite <- Hu; by right).
  assert (Hgen : forall x, flight x = None -> (forall frames ctx', x <> WSend frames ctx') ->
    connOk n (setCall (setReads c (unlink (c_reads c) id) (c_nextReadID c)) k x)).
  { intros x Hf Hs. split; cbn [setCall setReads c_calls c_reads c_nextReadID c_ctxs c_readDeadline c_writeDeadline c_write c_closed c_done]; try done.
    - pose proof (omap_insert flight (c_calls c) k x _ Hk) as Hp. rewrite Hf in Hp. cbn [flight app] in Hp. rewrite H1, <- Hu in Hp. by apply Permutation_cons_inv in Hp.
    - intros _. split; [done|]. split; [|eauto]. rewrite <- Hu in B2. cbn in B2. by apply NoDup_cons in B2 as [_ ?].
    - intros i y Hi. eauto.
    - intros frames y Hy. apply list_elem_of_lookup in Hy as [j Hj]. destruct (decide (k = j)) as [<-|Hne].
      + rewrite list_lookup_insert_eq in Hj by (by eapply lookup_lt_Some). injection Hj as ->. by destruct (Hs frames y).
      + rewrite list_lookup_insert_ne in Hj by done. destruct (H5 frames y) as [?|[?|[Hd Hx]]]; [apply list_elem_of_lookup; eauto|by left|by right; left|right; right; split; [|done]].
        apply list_elem_of_lookup in Hd as [i Hi]. apply list_elem_of_lookup. exists i. cbn [setCall setReads c_calls]. rewrite list_lookup_insert_ne; [done|]. intros ->. congruence. }
  unfold readUnlink. cbn zeta. destruct (c_closed _); by apply Hgen.
Qed.

(** Fields the invariant does not read. *)
Lemma connOk_in n c w d : connOk n c -> connOk n (setIn c w d).
Proof. by intros [? ? ? ? ? ?]. Qed.

Lemma connOk_seq n c x : connOk n c -> connOk n (setSeq c x).
Proof. by intros [? ? ? ? ? ?]. Qed.

Lemma connOk_end n c closed active : connOk n c -> connOk n (setEnd c closed true active).
Proof. by intros [? ? ? ? ? ?]. Qed.

Lemma writeTop_ok n c k now frames : connOk n c -> c_calls c !! k = Some (WTop frames) -> connOk n (writeTop c k now frames).
Proof.
  intros Hok Hk. unfold writeTop. destruct (_ || _); [by eapply setCall_ok|]. destruct (reached _ _) eqn:Er; [by eapply setCall_ok|].
  destruct (c_write c) as [ctx|] eqn:Ew.
  - eapply setCall_ok; try done. intros f x [= _ <-]. by left.
  - cbn zeta. pose proof (setCtxs_ok _ _ _ (grows_snoc (c_ctxs c) (mkCtx None false)) Hok) as [H1 H2 H3 H4 H5 H6].
    set (c1 := setCtxs c _) in *. set (c2 := setDeadlines _ _ _ _).
    assert (connOk n c2) as Hok2.
    { split; cbn [c2 setDeadlines c_calls c_reads c_nextReadID c_ctxs c_readDeadline c_writeDeadline c_write c_closed c_done]; try done.
      - exists (mkCtx None false). split; [cbn [c1 setCtxs c_ctxs]; by rewrite lookup_app_r, Nat.sub_diag by lia|].
        cbn [c1 setCtxs c_write] in H4. rewrite Ew in H4. cbn [x_deadline]. by symmetry.
      - intros f x Hin. destruct (H5 f x Hin) as [Hx|[?|?]]; [|by right; left|by right; right]. cbn [c1 setCtxs c_write] in Hx. congruence. }
    eapply setCall_ok; try done. intros f x [= _ <-]. by left.
Qed.

Lemma SetWriteDeadline_ok n c t : connOk n c -> connOk n (SetWriteDeadline c t).
Proof.
  intros Hok. pose proof (setCtxs_ok _ _ _ (grows_snoc (c_ctxs c) (mkCtx t false)) Hok) as [H1 H2 H3 H4 H5 H6].
  unfold SetWriteDeadline. cbn zeta. set (c1 := setCtxs c _) in *.
  split; cbn [addCall setDeadlines c_calls c_reads c_nextReadID c_ctxs c_readDeadline c_writeDeadline c_write c_closed c_done]; try done.
  - rewrite omap_app. cbn. destruct (c_write c); cbn; by rewrite app_nil_r.
  - exists (mkCtx t false). split; [cbn [c1 setCtxs c_ctxs]; by rewrite lookup_app_r, Nat.sub_diag by lia|done].
  - intros f x [Hin|Hin]%elem_of_app; [|apply list_elem_of_singleton in Hin; by destruct (c_write c)].
    right. destruct (H5 f x Hin) as [Hx|[?|[? ?]]]; [|by left|].
    + right. change (c_write c1) with (c_write c) in *. rewrite Hx in *. destruct H4 as (y & Hy & _). split; [|by exists y]. apply elem_of_app. right. by left.
    + right. split; [|done]. apply elem_of_app. by left.
Qed.

Lemma SetReadDeadline_ok n c t now : connOk n c -> connOk n (SetReadDeadline c t now).
Proof.
  intros Hok. pose proof Hok as [H1 H2 H3 H4 H5 H6]. unfold SetReadDeadline. cbn zeta. set (c1 := setDeadlines c _ _ _).
  destruct (match t with Some _ => _ | None => _ end) eqn:Ew.
  - destruct (cancelReads_fold (c_reads c1) c1) as (E & G & Hc). unfold cancelReads. rewrite E. set (l := c_ctxs (foldl _ c1 (c_reads c1))) in *.
    assert (Hr : forall id ctx, (id, ctx) ∈ c_reads c -> exists x, l !! ctx = Some x /\ x_cancelled x = true).
    { intros id ctx Hin. destruct (H3 id ctx Hin) as (x & Hx & _). apply (Hc (id, ctx) Hin). by exists x. }
    split; cbn [setCtxs c1 setDeadlines c_calls c_reads c_nextReadID c_ctxs c_readDeadline c_writeDeadline c_write c_closed c_done]; try done.
    + intros id ctx Hin. destruct (Hr id ctx Hin) as (x & Hx & Hxc). exists x. split; [done|by left].
    + destruct (c_write c) as [ctx|]; [|done]. destruct H4 as (x & Hx & Hd). destruct (G ctx x Hx) as (x' & Hx' & Ed & _). exists x'. split; [done|congruence].
    + intros f x Hin. destruct (H5 f x Hin) as [?|[(y & Hy & Hyc)|[? [y Hy]]]]; [by left|right; left|right; right; split; [done|]];
      destruct (G x y Hy) as (y' & Hy' & _ & Hyc'); exists y'; auto.
  - destruct t as [t|]; [|done]. destruct (c_readDeadline c) as [old|] eqn:Eold; [|done]. apply orb_false_iff in Ew as [Ew _]. apply Z.ltb_ge in Ew.
    split; cbn [c1 setDeadlines c_calls c_reads c_nextReadID c_ctxs c_readDeadline c_writeDeadline c_write c_closed c_done]; try done.
    intros id ctx Hin. destruct (H3 id ctx Hin) as (x & Hx & [?|Hs]); exists x; (split; [done|]); [by left|right].
    destruct Hs as (e & He & Hle). exists e. split; [done|lia].
Qed.

Lemma Close_ok n c : connOk n c -> connOk n (Close c).
Proof.
  intros Hok. unfold Close. destruct (c_closed c); [done|]. cbn zeta. apply connOk_end.
  destruct (cancelReads_spec n c Hok) as (l & -> & G & _). pose proof (setCtxs_ok n c l G Hok) as Hok1.
  cbn [setCtxs c_write]. destruct (c_write c); [by apply cancelCtx_ok|done].
Qed.

Lemma startWrite_conn n s batch : connOk n (s_conn s) -> connOk n (s_conn (startWrite s batch)).
Proof. intros Hok. unfold startWrite. destruct (encodeFrames _ _) as [[[ws frames]|err] m]; cbn [s_conn]; by apply addCall_ok; [apply connOk_seq|..]. Qed.

Lemma callStep_ok n s k now res taken err :
  n < 2 ^ 64 -> connOk n (s_conn s) -> connOk (n + 1) (s_conn (callStep s k now res taken err)).
Proof.
  intros Hn Hok. assert (Hok' : connOk (n + 1) (s_conn s)) by (by apply (connOk_le n); [lia|]).
  unfold callStep. destruct (c_calls (s_conn s) !! k) as [x|] eqn:Hk; [|done].
  destruct x as [size|size|size id ctx|size id ctx r|size dl r|r|frames|frames ctx|frames ctx e|e|old|]; cbn [s_conn]; try done.
  - unfold readTop. destruct (c_done _); by eapply setCall_ok.
  - by apply readLock_ok.
  - unfold readReceived. cbn [s_conn]. eapply setCall_ok; [by apply cancelCtx_ok|done|done|done|done].
  - apply (connOk_le n); [lia|]. by eapply readUnlink_ok.
  - unfold readCheck. destruct r as [raw|e].
    + destruct (DatagramCache_Decode _ _) as [[[[seq address] payload]|] decoder]; [destruct (Accept _ _) as [acc w]; destruct acc|]; cbn [s_conn];
        (eapply setCall_ok; [by apply connOk_in|done..]).
    + destruct (_ || _); [destruct (c_done _); [|destruct (reached dl now)]|]; cbn [s_conn]; by eapply setCall_ok.
  - by apply writeTop_ok.
  - unfold writeSent. cbn zeta. destruct err as [e|]; cbn [s_conn]; [destruct (ctxErr _ _ _)|]; by eapply setCall_ok.
  - unfold writeJudge. destruct (c_closed _); [by eapply setCall_ok|]. case_match; by eapply setCall_ok.
  - eapply setCall_ok; [by apply cancelCtx_ok|done|done|done|]. intros ctx [= <-]. unfold cancelCtx. cbn [setCtxs c_ctxs].
    rewrite list_lookup_alter, decide_True by done. intros [x Hx]. destruct (c_ctxs (s_conn s) !! old) as [y|] eqn:Ey; [|done]. by eapply cancelCtx_cancels.
Qed.

Lemma conn_step_ok n s e : n < 2 ^ 64 -> connOk n (s_conn s) -> connOk (n + 1) (s_conn (step s e)).
Proof.
  intros Hn Hok. destruct e as [size|p addr|payloads addrs| |t now|t| |k now res taken err]; cbn [step s_conn];
    [apply (connOk_le n); [lia|]..|].
  - by apply addCall_ok.
  - by apply startWrite_conn.
  - unfold WriteBatch. cbn zeta. repeat (destruct (bool_decide _) || case_match); cbn [s_conn]; try (by apply addCall_ok). by apply startWrite_conn.
  - by apply Close_ok.
  - by apply SetReadDeadline_ok.
  - by apply SetWriteDeadline_ok.
  - by apply connOk_end.
  - by apply callStep_ok.
Qed.

Lemma conn_start_ok : connOk 0 (s_conn start).
Proof.
  split; cbn; try done.
  - intros _. split_and!; [done|done|constructor|]. intros id ctx Hin. by apply elem_of_nil in Hin.
  - intros id ctx Hin. by apply elem_of_nil in Hin.
  - intros f ctx Hin. by apply elem_of_nil in Hin.
Qed.

Lemma conn_run_ok es : len es < 2 ^ 64 -> connOk (len es) (s_conn (run start es)).
Proof.
  induction es as [|e es IH] using rev_ind; intros Hn; [apply conn_start_ok|]. unfold run in *. rewrite foldl_app. cbn [foldl].
  rewrite length_app, Nat2Z.inj_add in Hn |- *. apply conn_step_ok; [cbn in Hn; lia|]. apply IH. cbn in Hn. lia.
Qed.

(** ** Datagrams *)

Definition framesOk (g : log) (frames : list (list byte)) : Prop :=
  forall d, d ∈ frames -> exists x, x ∈ g_writes g /\ DecodeDatagram d = Ok x.

(** What a call holds. *)
Definition callOk (g : log) (x : call) : Prop :=
  match x with
  | RUnlink _ _ _ (Ok raw) | RCheck _ _ (Ok raw) => raw ∈ g_received g
  | RDone (Ok (p, a)) => exists n t q, a = parseUDPAddr t /\ (n, t, q) ∈ g_reads g /\ p `prefix_of` q
  | WTop frames | WSend frames _ | WJudge frames _ _ => framesOk g frames
  | _ => True
  end.

(** The sender of what a call returned. *)
Definition sender (x : call) : option Addr := match x with RDone (Ok (_, a)) => Some a | _ => None end.

(** Payloads handed to [WriteTo] and [WriteBatch]. *)
Definition writeCount (es : list event) : Z :=
  foldl (fun n e => match e with EWrite _ _ => n + 1 | EWriteBatch ps _ => n + len ps | _ => n end) 0 es.

Record dataOk (es : list event) (s : state) : Prop := {
  da_window : windowOk (c_replay (s_conn s)) (numbers (g_reads (s_log s)));
  da_cache : cache_ok (c_decoder (s_conn s));
  da_reads : forall x, x ∈ g_reads (s_log s) -> exists raw, raw ∈ g_received (s_log s) /\ DecodeDatagram raw = Ok x;
  da_calls : forall x, x ∈ c_calls (s_conn s) -> callOk (s_log s) x;
  da_senders : omap sender (c_calls (s_conn s)) ≡ₚ (fun x => parseUDPAddr x.1.2) <$> g_reads (s_log s);
  da_sent : framesOk (s_log s) (g_sent (s_log s));
  da_numbers : writeCount es < 2 ^ 64 ->
    0 <= c_sequence (s_conn s) <= writeCount es /\ StronglySorted Z.lt (numbers (g_writes (s_log s))) /\
    (forall n, n ∈ numbers (g_writes (s_log s)) -> n <= c_sequence (s_conn s));
}.

Lemma writeCount_snoc es e :
  writeCount (es ++ [e]) = writeCount es + match e with EWrite _ _ => 1 | EWriteBatch ps _ => len ps | _ => 0 end.
Proof. unfold writeCount. rewrite foldl_app. cbn [foldl]. destruct e; lia. Qed.

(** Logs only grow. *)
Definition logLe (g g' : log) : Prop :=
  g_writes g `prefix_of` g_writes g' /\ g_sent g `prefix_of` g_sent g' /\ g_received g `prefix_of` g_received g' /\ g_reads g `prefix_of` g_reads g'.

Lemma prefix_elem {A} (l k : list A) x : l `prefix_of` k -> x ∈ l -> x ∈ k.
Proof. intros [r ->] Hx. apply elem_of_app. by left. Qed.

Lemma framesOk_mono g g' frames : g_writes g `prefix_of` g_writes g' -> framesOk g frames -> framesOk g' frames.
Proof. intros Hp H d Hd. destruct (H d Hd) as (x & Hx & ?). exists x. split; [by eapply prefix_elem|done]. Qed.

Lemma callOk_mono g g' x : logLe g g' -> callOk g x -> callOk g' x.
Proof.
  intros (H1 & H2 & H3 & H4). pose proof (framesOk_mono g g') as Hf. pose proof (fun A => @prefix_elem A) as Hp.
  destruct x as [size|size|size id ctx|size id ctx [r|]|size dl [r|]|[[p a]|]|frames|frames ctx|frames ctx e|e|old|]; cbn [callOk]; try done; eauto.
  intros (n & t & q & Ht & Hq & Hpre). exists n, t, q. split; [done|]. split; [by eapply prefix_elem|done].
Qed.

(** A call goes on; windows and what is delivered stay. *)
Lemma data_call es e s k x y c' g' :
  dataOk es s -> c_calls (s_conn s) !! k = Some y -> c_calls c' = <[k := x]> (c_calls (s_conn s)) ->
  match e with EStep _ _ _ _ _ => True | _ => False end ->
  logLe (s_log s) g' -> g_writes g' = g_writes (s_log s) -> g_reads g' = g_reads (s_log s) -> c_sequence c' = c_sequence (s_conn s) ->
  windowOk (c_replay c') (numbers (g_reads g')) -> cache_ok (c_decoder c') ->
  framesOk g' (g_sent g') -> callOk g' x -> sender x = None -> sender y = None ->
  dataOk (es ++ [e]) (mkState c' g').
Proof.
  intros [D1 D2 D3 D4 D5 D6 D7] Hk Ec He Hle Ew Er Es Hw Hcache Hsent Hx Sx Sy.
  assert (writeCount (es ++ [e]) = writeCount es) as Ecount by (rewrite writeCount_snoc; destruct e; (done || lia)).
  split; cbn [s_conn s_log]; try done.
  - intros z. rewrite Er. intros Hz. destruct (D3 z Hz) as (raw & Hraw & ?). exists raw. split; [|done]. destruct Hle as (_ & _ & Hle & _). by eapply prefix_elem.
  - intros z. rewrite Ec. intros Hz. apply list_elem_of_lookup in Hz as [j Hj]. destruct (decide (k = j)) as [<-|Hne].
    + rewrite list_lookup_insert_eq in Hj by (by eapply lookup_lt_Some). by injection Hj as <-.
    + rewrite list_lookup_insert_ne in Hj by done. eapply callOk_mono; [exact Hle|]. apply D4. by eapply list_elem_of_lookup_2.
  - rewrite Ec, Er. pose proof (omap_insert sender (c_calls (s_conn s)) k x y Hk) as Hp. rewrite Sx, Sy in Hp. cbn [app] in Hp. by rewrite Hp.
  - by rewrite Ecount, Es, Ew.
Qed.

Lemma logLe_refl g : logLe g g.
Proof. by split_and!. Qed.

(** A read that delivers. *)
Lemma data_deliver es s k size dl raw seq address payload w d now res taken err :
  dataOk es s -> c_calls (s_conn s) !! k = Some (RCheck size dl (Ok raw)) -> DecodeDatagram raw = Ok (seq, address, payload) -> cache_ok d ->
  Accept (c_replay (s_conn s)) seq = (true, w) ->
  dataOk (es ++ [EStep k now res taken err])
    (mkState (setCall (setIn (s_conn s) w d) k (RDone (Ok (ztake size payload, parseUDPAddr address))))
      (mkLog (g_writes (s_log s)) (g_sent (s_log s)) (g_received (s_log s)) (g_reads (s_log s) ++ [(seq, address, payload)]))).
Proof.
  intros [D1 D2 D3 D4 D5 D6 D7] Hk Hdec Hd Hacc. set (g' := mkLog _ _ _ _).
  assert (Hle : logLe (s_log s) g') by (split_and!; try done; by eexists).
  pose proof (windowOk_step _ _ seq D1 (decoded_u64 _ _ _ _ Hdec)) as Hw. rewrite Hacc in Hw. cbn [fst snd] in Hw.
  assert (Hraw : raw ∈ g_received (s_log s)) by (apply (D4 (RCheck size dl (Ok raw))); by eapply list_elem_of_lookup_2).
  split; cbn [s_conn s_log setCall setIn c_replay c_decoder c_calls c_sequence g' g_reads g_received g_sent g_writes]; try done.
  - unfold numbers. by rewrite fmap_app.
  - intros x [Hx|Hx]%elem_of_app; [by apply D3|]. apply list_elem_of_singleton in Hx as ->. by exists raw.
  - intros z Hz. apply list_elem_of_lookup in Hz as [j Hj]. destruct (decide (k = j)) as [<-|Hne].
    + rewrite list_lookup_insert_eq in Hj by (by eapply lookup_lt_Some). injection Hj as <-. exists seq, address, payload. split; [done|]. split; [apply elem_of_app; right; by left|apply prefix_take].
    + rewrite list_lookup_insert_ne in Hj by done. eapply callOk_mono; [exact Hle|]. apply D4. by eapply list_elem_of_lookup_2.
  - pose proof (omap_insert sender (c_calls (s_conn s)) k (RDone (Ok (ztake size payload, parseUDPAddr address))) _ Hk) as Hp. cbn [sender app] in Hp.
    rewrite Hp, fmap_app, D5. apply Permutation_cons_append.
  - rewrite writeCount_snoc, Z.add_0_r. done.
Qed.

Lemma callStep_data es s k now res taken err :
  dataOk es s -> dataOk (es ++ [EStep k now res taken err]) (callStep s k now res taken err).
Proof.
  intros Hd. pose proof Hd as [D1 D2 D3 D4 D5 D6 D7]. unfold callStep. destruct (c_calls (s_conn s) !! k) as [y|] eqn:Hk.
  2:{ destruct s. split; try done. by rewrite writeCount_snoc, Z.add_0_r. }
  assert (Hy : callOk (s_log s) y) by (apply D4; by eapply list_elem_of_lookup_2).
  assert (Hgo : forall c' x, c_calls c' = <[k := x]> (c_calls (s_conn s)) -> c_sequence c' = c_sequence (s_conn s) ->
    windowOk (c_replay c') (numbers (g_reads (s_log s))) -> cache_ok (c_decoder c') -> callOk (s_log s) x -> sender x = None -> sender y = None ->
    dataOk (es ++ [EStep k now res taken err]) (mkState c' (s_log s))).
  { intros c' x Ec Es Hw Hc Hx Sx Sy. apply (data_call es _ s k x y); try done; apply logLe_refl. }
  assert (Hstay : dataOk (es ++ [EStep k now res taken err]) s) by (split; try done; by rewrite writeCount_snoc, Z.add_0_r).
  destruct y as [size|size|size id ctx|size id ctx r|size dl r|r|frames|frames ctx|frames ctx e|e|old|]; try done.
  - unfold readTop. destruct (c_done _); by eapply Hgo.
  - unfold readLock. destruct (c_closed _); [by eapply Hgo|]. destruct (reached _ _); by eapply Hgo.
  - unfold readReceived. cbn zeta. apply (data_call es _ s k (RUnlink size id ctx res) _ _ _ Hd Hk); try done.
    + split_and!; try done. destruct res; [by eexists|done].
    + cbn [callOk]. destruct res; [apply elem_of_app; right; by left|done].
  - unfold readUnlink. cbn zeta. destruct (c_closed _); by eapply Hgo.
  - unfold readCheck. destruct r as [raw|e].
    + destruct (Decode_cache (c_decoder (s_conn s)) raw D2) as [Hdec Hcache]. destruct (DatagramCache_Decode _ _) as [dr decoder]. cbn [fst snd] in Hdec, Hcache. subst dr.
      destruct (DecodeDatagram raw) as [[[seq address] payload]|] eqn:Edec; [|by eapply Hgo].
      pose proof (windowOk_step _ _ seq D1 (decoded_u64 _ _ _ _ Edec)) as Hw. destruct (Accept _ _) as [acc w] eqn:Eacc. cbn [fst snd] in Hw.
      destruct acc; [by eapply data_deliver|by eapply Hgo].
    + destruct (_ || _); [destruct (c_done _); [|destruct (reached dl now)]|]; by eapply Hgo.
  - unfold writeTop. destruct (_ || _); [by eapply Hgo|]. destruct (reached _ _); [by eapply Hgo|]. destruct (c_write _); by eapply Hgo.
  - assert (Hsent : forall took, (forall d, d ∈ took -> d ∈ frames) -> framesOk (s_log s) (g_sent (s_log s) ++ took)).
    { intros took Ht d [Hin|Hin]%elem_of_app; [by apply D6|]. apply Hy. by apply Ht. }
    unfold writeSent. cbn zeta. destruct err as [e|].
    + eapply (data_call es _ s k); try done.
      * split_and!; try done. by eexists.
      * apply Hsent. intros d Hin. eapply prefix_elem; [apply prefix_take|exact Hin].
      * by destruct (ctxErr _ _ _).
      * by destruct (ctxErr _ _ _).
    + apply (data_call es _ s k (WDone None) _ _ _ Hd Hk); try done; [split_and!; try done; by eexists|by apply Hsent].
  - unfold writeJudge. destruct (c_closed _); [by eapply Hgo|]. destruct (bool_decide _); by eapply Hgo.
  - by eapply Hgo.
Qed.

Lemma encodeFrames_content sequence batch ws frames last :
  encodeFrames sequence batch = (Ok (ws, frames), last) -> forall d, d ∈ frames -> exists x, x ∈ ws /\ DecodeDatagram d = Ok x.
Proof.
  revert sequence ws frames last. induction batch as [|[p addr] batch IH]; intros sequence ws frames last; cbn [encodeFrames].
  { intros [= <- <- _] d Hd. by apply elem_of_nil in Hd. }
  destruct (EncodeDatagram _ _ _) as [packet|] eqn:Ee; [|done]. destruct (encodeFrames _ batch) as [[[ws' frames']|] last'] eqn:Er; [|done]. intros [= <- <- _].
  intros d [->|Hd]%elem_of_cons.
  - eexists. split; [by left|]. eapply (DecodeDatagram_Encode); [apply u64_range|done].
  - destruct (IH _ _ _ _ Er d Hd) as (x & Hx & ?). exists x. split; [by right|done].
Qed.

Lemma encodeFrames_numbers sequence batch :
  0 <= sequence -> sequence + len batch < 2 ^ 64 ->
  let '(res, last) := encodeFrames sequence batch in
  sequence <= last <= sequence + len batch /\
  forall ws frames, res = Ok (ws, frames) -> StronglySorted Z.lt (numbers ws) /\ (forall n, n ∈ numbers ws -> sequence < n <= last).
Proof.
  revert sequence. induction batch as [|[p addr] batch IH]; intros sequence Hs Hl; cbn [encodeFrames].
  { split; [cbn; lia|]. intros ws frames [= <- <-]. split; [constructor|]. intros n Hn. by apply elem_of_nil in Hn. }
  rewrite len_cons in Hl |- *. rewrite u64_id by (unfold is_u64; lia). destruct (EncodeDatagram _ _ _) as [packet|]; [|split; [lia|done]].
  specialize (IH (sequence + 1) ltac:(lia) ltac:(lia)). destruct (encodeFrames _ batch) as [[[ws' frames']|] last']; destruct IH as [I1 I2]; [|split; [lia|done]].
  split; [lia|]. intros ws frames [= <- <-]. destruct (I2 _ _ eq_refl) as [S1 S2]. split.
  - cbn. constructor; [done|]. apply Forall_forall. intros n Hn%S2. lia.
  - intros n [->|Hn%S2]%elem_of_cons; cbn [fst snd]; lia.
Qed.

Lemma startWrite_data es e s batch :
  dataOk es s -> writeCount (es ++ [e]) = writeCount es + len batch -> dataOk (es ++ [e]) (startWrite s batch).
Proof.
  intros [D1 D2 D3 D4 D5 D6 D7] Ecount. unfold startWrite. pose proof (encodeFrames_numbers (c_sequence (s_conn s)) batch) as Hnum.
  pose proof (encodeFrames_content (c_sequence (s_conn s)) batch) as Hcon. destruct (encodeFrames _ _) as [[[ws frames]|err] last].
  - set (g' := mkLog _ _ _ _). assert (Hle : logLe (s_log s) g') by (split_and!; try done; by eexists).
    split; cbn [s_conn s_log addCall setSeq c_replay c_decoder c_calls c_sequence]; try done.
    + intros x [Hx|Hx]%elem_of_app; [by eapply callOk_mono, D4|]. apply list_elem_of_singleton in Hx as ->. intros d Hd.
      destruct (Hcon _ _ _ eq_refl d Hd) as (x & Hx & ?). exists x. split; [apply elem_of_app; by right|done].
    + rewrite omap_app. cbn. rewrite app_nil_r. done.
    + eapply framesOk_mono; [apply Hle|done].
    + rewrite Ecount. intros Hlt. destruct D7 as (B1 & B2 & B3); [lia|]. destruct Hnum as [N1 N2]; [lia|lia|]. destruct (N2 _ _ eq_refl) as [N3 N4].
      unfold numbers in *. cbn [g' g_writes]. rewrite fmap_app. split; [lia|]. split.
      * apply (sorted_app _ _ (c_sequence (s_conn s))); try done. intros n Hn%N4. lia.
      * intros n [Hn%B3|Hn%N4]%elem_of_app; lia.
  - split; cbn [s_conn s_log addCall setSeq c_replay c_decoder c_calls c_sequence]; try done.
    + intros x [Hx|Hx]%elem_of_app; [by apply D4|]. by apply list_elem_of_singleton in Hx as ->.
    + rewrite omap_app. cbn. rewrite app_nil_r. done.
    + rewrite Ecount. intros Hlt. destruct D7 as (B1 & B2 & B3); [lia|]. destruct Hnum as [N1 _]; [lia|lia|]. split; [lia|]. split; [done|]. intros n Hn%B3. lia.
Qed.

(** Deadlines, [Close] and calls that hold nothing. *)
Lemma data_same es e s c' new :
  dataOk es s -> c_replay c' = c_replay (s_conn s) -> c_decoder c' = c_decoder (s_conn s) -> c_sequence c' = c_sequence (s_conn s) ->
  c_calls c' = c_calls (s_conn s) ++ new -> Forall (fun x => callOk (s_log s) x /\ sender x = None) new ->
  dataOk (es ++ [e]) (mkState c' (s_log s)).
Proof.
  intros [D1 D2 D3 D4 D5 D6 D7] Er Ed Es Ec Hnew. split; cbn [s_conn s_log]; rewrite ?Er, ?Ed, ?Es, ?Ec; try done.
  - intros x [Hx|Hx]%elem_of_app; [by apply D4|]. rewrite Forall_forall in Hnew. by apply Hnew.
  - rewrite omap_app, D5. assert (omap sender new = []) as ->; [|by rewrite app_nil_r]. clear -Hnew. induction Hnew as [|x l [_ Hx] _ IH]; [done|]. cbn. by rewrite Hx.
  - rewrite writeCount_snoc. assert (0 <= match e with EWrite _ _ => 1 | EWriteBatch ps _ => len ps | _ => 0 end) by (destruct e; lia).
    intros Hlt. destruct D7 as (B1 & B2 & B3); [lia|]. split; [lia|done].
Qed.

Lemma cancelReads_same c : exists l, cancelReads c = setCtxs c l.
Proof. destruct (cancelReads_fold (c_reads c) c) as (E & _). by eexists. Qed.

Lemma step_data es s e : dataOk es s -> dataOk (es ++ [e]) (step s e).
Proof.
  intros Hd. destruct e as [size|p addr|payloads addrs| |t now|t| |k now res taken err]; cbn [step].
  - eapply data_same; try done. by repeat constructor.
  - apply startWrite_data; [done|]. rewrite writeCount_snoc. done.
  - unfold WriteBatch. cbn zeta. destruct (Z.eqb_spec (len payloads) (len addrs)) as [El|]; cbn [negb]; [|eapply data_same; try done; by repeat constructor].
    destruct (existsb _ _); [eapply data_same; try done; by repeat constructor|].
    destruct (len payloads =? 0); [eapply data_same; try done; by repeat constructor|].
    apply startWrite_data; [done|]. rewrite writeCount_snoc, length_zip_with_l_eq by lia. done.
  - unfold Close. destruct (c_closed _); [apply (data_same _ _ s _ []); try done; by rewrite app_nil_r|]. cbn zeta.
    destruct (cancelReads_same (s_conn s)) as (l & ->). cbn [setCtxs c_write].
    apply (data_same _ _ s _ []); try done; destruct (c_write (s_conn s)); try done; cbn; by rewrite app_nil_r.
  - unfold SetReadDeadline. cbn zeta. set (c1 := setDeadlines _ _ _ _). destruct (cancelReads_same c1) as (l & ->).
    case_match; apply (data_same _ _ s _ []); try done; cbn; by rewrite app_nil_r.
  - eapply data_same; try done. constructor; [by destruct (c_write _)|constructor].
  - apply (data_same _ _ s _ []); try done; cbn; by rewrite app_nil_r.
  - by apply callStep_data.
Qed.

Lemma run_data es : dataOk es (run start es).
Proof.
  induction es as [|e es IH] using rev_ind.
  - split; cbn; try done.
    + apply windowOk_zero.
    + intros x Hx. by apply elem_of_nil in Hx.
    + intros x Hx. by apply elem_of_nil in Hx.
    + intros d Hd. by apply elem_of_nil in Hd.
    + intros _. split_and!; [done|done|constructor|]. intros n Hn. by apply elem_of_nil in Hn.
  - unfold run in *. rewrite foldl_app. cbn [foldl]. by apply step_data.
Qed.

(** ** Theorems *)

(** C17: No wake-up is lost. In every run, whatever the interleaving: a
    reader blocked in [ReceiveDatagram] is let go when the association is
    closed or its connection is down, and at the read deadline in force,
    however often and from whichever goroutine it was moved; a writer blocked
    in a send likewise, at the write deadline or as soon as the goroutine that
    replaced its context has cancelled it; and [readCancels] holds exactly the
    reads in flight. *)
Theorem client_udp_wakeups es k call now (Hes : len es < 2 ^ 64) (Hcall : c_calls (s_conn (run start es)) !! k = Some call) :
  let c := s_conn (run start es) in
  omap flight (c_calls c) ≡ₚ c_reads c /\
  match call with
  | RReceive _ _ ctx => c_closed c || c_done c || reached (c_readDeadline c) now = true -> ctxErr c ctx now = true
  | WSend _ ctx => c_closed c || c_done c || reached (c_writeDeadline c) now = true -> ctxErr c ctx now = true \/ DCancel ctx ∈ c_calls c
  | _ => True
  end.
Proof.
  cbn zeta. destruct (conn_run_ok es Hes) as [H1 H2 H3 H4 H5 H6]. split; [done|]. set (c := s_conn (run start es)) in *. unfold ctxErr.
  destruct call as [|size|size id ctx| | | | |frames ctx| | | |]; try done; (destruct (c_done c) eqn:Ed; [by try left|]);
    (destruct (c_closed c) eqn:Ec; [by specialize (H6 eq_refl)|]); cbn [orb]; intros Hreach.
  - assert (Hin : (id, ctx) ∈ c_reads c).
    { rewrite <- H1. apply list_elem_of_omap. exists (RReceive size id ctx). split; [by eapply list_elem_of_lookup_2|done]. }
    destruct (H3 id ctx Hin) as (x & -> & [->|Hs]); [done|]. destruct (c_readDeadline c) as [d|]; [|done]. destruct Hs as (e & -> & Hle).
    apply orb_true_iff. right. cbn [reached] in *. apply Z.leb_le. apply Z.leb_le in Hreach. lia.
  - destruct (H5 frames ctx (list_elem_of_lookup_2 _ _ _ Hcall)) as [Hw|[(x & -> & ->)|[? _]]]; [|by left|by right].
    rewrite Hw in H4. destruct H4 as (x & -> & Hd). left. rewrite Hd, Hreach. by rewrite orb_true_r.
Qed.

(** In every run: the datagrams handed to readers have pairwise distinct
    numbers and each is one the stream delivered, whole and under the address
    it carries; each goes to exactly one caller, cut to its buffer; and every
    datagram handed to the stream, in a first attempt or after a change of the
    deadline, is one a caller wrote, numbered in increasing order until 2^64
    payloads have been written. *)
Theorem client_udp_datagrams es :
  let c := s_conn (run start es) in
  let g := s_log (run start es) in
  NoDup (numbers (g_reads g)) /\
  (forall x, x ∈ g_reads g -> exists raw, raw ∈ g_received g /\ DecodeDatagram raw = Ok x) /\
  (forall p a, RDone (Ok (p, a)) ∈ c_calls c -> exists n t q, a = parseUDPAddr t /\ (n, t, q) ∈ g_reads g /\ p `prefix_of` q) /\
  omap sender (c_calls c) ≡ₚ (fun x => parseUDPAddr x.1.2) <$> g_reads g /\
  (forall d, d ∈ g_sent g -> exists x, x ∈ g_writes g /\ DecodeDatagram d = Ok x) /\
  (writeCount es < 2 ^ 64 -> StronglySorted Z.lt (numbers (g_writes g))).
Proof.
  cbn zeta. destruct (run_data es) as [D1 D2 D3 D4 D5 D6 D7]. split; [apply D1|]. split; [done|]. split.
  - intros p a Hin. exact (D4 _ Hin).
  - split; [done|]. split; [done|]. intros Hlt. by apply D7.
Qed.

(** A reader blocked without a deadline when one is set. *)
Definition blockedRead : list event :=
  [ERead 10; EStep 0 0 (Fail EOF) 0 None; EStep 0 0 (Fail EOF) 0 None; ESetRead (Some 5) 1].

Lemma client_udp_wakeups_witness :
  c_calls (s_conn (run start blockedRead)) !! 0%nat = Some (RReceive 10 1 0) /\
  reached (c_readDeadline (s_conn (run start blockedRead))) 7 = true /\ ctxErr (s_conn (run start blockedRead)) 0 7 = true.
Proof.
  assert (H : c_calls (s_conn (run start blockedRead)) !! 0%nat = Some (RReceive 10 1 0)) by (vm_compute; reflexivity).
  split; [exact H|]. split; [vm_compute; reflexivity|].
  refine (proj2 (client_udp_wakeups blockedRead 0 (RReceive 10 1 0) 7 _ H) _); [vm_compute; reflexivity|vm_compute; reflexivity].
Defined.

(** ** Addresses *)

Lemma hasPrefix_app p s : hasPrefix p (p ++ s) = true.
Proof. unfold hasPrefix. rewrite take_app_length. by apply bool_decide_eq_true. Qed.

(** The text of an address starts with [icmp:] exactly when the client takes it
    for an ICMP address. *)
Lemma format_icmp a : hasPrefix icmpText (formatDatagramAddress (Some a)) = isICMPAddr a.
Proof.
  unfold formatDatagramAddress. cbn zeta. destruct (hasPrefix icmpText (Addr_String a)) eqn:Ep.
  - rewrite andb_false_r, Ep. destruct a; cbn [isICMPAddr]; try done; cbn [Addr_String] in *; by rewrite Ep, orb_true_r.
  - destruct (isICMPAddr a); cbn [andb negb]; [apply hasPrefix_app|done].
Qed.
