(* ===== verification/UdpAssociation.v ===== *)
(** * A UDP association end to end

    The client of [PacketConn.v] and the server of [UdpRelay.v] over a network
    that loses, repeats and reorders datagrams. *)
From S2P Require Import Prelude GoNet ReplayWindow Frame Datagrams Icmp Target UdpBudget PacketConn PacketConnRuns UdpRelay UdpRelayInv UdpRelayRuns.

Open Scope Z_scope.

#[local] Arguments bs : simpl never.

Definition client (es : list PacketConn.event) : PacketConn.log := PacketConn.s_log (PacketConn.run PacketConn.start es).

Definition association (identity : gostring) (dialUDP allowPrivate : bool) : world := UdpRelay.start identity dialUDP allowPrivate emptyBudget [].

Definition server (identity : gostring) (dialUDP allowPrivate : bool) (es : list UdpRelay.event) : UdpRelay.log :=
  UdpRelay.s_log (w_sys (UdpRelay.run (association identity dialUDP allowPrivate) es)).

(** The network brings only what the other side sent, in any order and number. *)
Definition network (sent delivered : list (list byte)) : Prop := Forall (fun d => d ∈ sent) delivered.

Lemma once {A} (f : A -> Z) (l k : list A) : NoDup (f <$> l) -> (forall x, x ∈ l -> x ∈ k) -> l ⊆+ k.
Proof. intros Hnd Hin. apply NoDup_submseteq; [|done]. by eapply NoDup_fmap_1. Qed.

Lemma toKind_split l : toKind false l ++ toKind true l ≡ₚ l.
Proof.
  unfold toKind. induction l as [|[a p] l IH]; [done|]. rewrite !filter_cons. cbn [fst]. destruct (isICMP a).
  - rewrite decide_False, decide_True by done. rewrite <- Permutation_middle. by rewrite IH.
  - rewrite decide_True, decide_False by done. cbn [app]. by rewrite IH.
Qed.

Lemma decoded_in (raws : list (list byte)) x : x ∈ omap decoded raws -> exists raw, raw ∈ raws /\ DecodeDatagram raw = Ok x.
Proof.
  rewrite list_elem_of_omap. intros (raw & Hraw & Hx). exists raw. split; [done|]. unfold decoded in Hx. destruct (DecodeDatagram raw) as [y|]; [|done]. congruence.
Qed.

(** C16: End to end, over any network and in every schedule of both sides.  What
    the relay writes to its targets is what the client's callers wrote, each
    write at most once and to the address it named: datagrams as they are, and
    echo requests as the target's tracker makes them of the caller's, with a token
    of the relay as their identifier and sequence number and the checksum for it,
    and otherwise unchanged.  What the callers read are the relay's answers, each
    at most once; and to each of those answers belongs a datagram of its own, by
    event and position, that the receiver of a target read: of a UDP target the
    answer is that datagram, under its sender's address, and of an echo target,
    under the target's address, the reply that the target's tracker restores from
    it at that moment. *)
Theorem udp_association identity dialUDP allowPrivate ces ses
    (Hup : network (PacketConn.g_sent (client ces)) (arrived ses))
    (Hdown : network (UdpRelay.g_sent (server identity dialUDP allowPrivate ses)) (PacketConn.g_received (client ces))) :
  let cg := client ces in
  let sg := server identity dialUDP allowPrivate ses in
  UdpRelay.g_writes sg ++ (fst <$> g_echoes sg) ⊆+ contents (PacketConn.g_writes cg) /\
  Forall (fun x => echoed (association identity dialUDP allowPrivate) ses x /\ withToken x.1.2 x.2) (g_echoes sg) /\
  PacketConn.g_reads cg ⊆+ g_answers sg /\
  exists origins, NoDup origins /\ Forall2 (source (association identity dialUDP allowPrivate) ses) origins (g_answers sg).
Proof.
  cbn zeta. unfold network in *. rewrite Forall_forall in Hup, Hdown.
  destruct (runOk_run identity dialUDP allowPrivate ses) as [_ HF [[HN _] _ HO] [A1 A2 _] HE]. fold (association identity dialUDP allowPrivate) in *. fold (server identity dialUDP allowPrivate ses) in *.
  destruct (run_data ces) as [[DN _] _ DR _ _ DS _]. fold (client ces) in *.
  assert (Hacc : g_accepted (server identity dialUDP allowPrivate ses) ⊆+ PacketConn.g_writes (client ces)).
  { eapply once; [exact HN|]. intros x Hx. assert (x ∈ omap decoded (arrived ses)) as Hin.
    { eapply elem_of_submseteq; [|by apply sublist_submseteq, HO]. apply elem_of_app. by left. }
    apply decoded_in in Hin as (raw & Hraw & Hdec). destruct (DS raw (Hup raw Hraw)) as (y & Hy & Hdec'). congruence. }
  assert (Hread : forall x, x ∈ PacketConn.g_reads (client ces) -> x ∈ g_answers (server identity dialUDP allowPrivate ses)).
  { intros x Hx. destruct (DR x Hx) as (raw & Hraw & Hdec). destruct (A1 raw (Hdown raw Hraw)) as (y & Hy & Hdec'). congruence. }
  split; [|split_and!; [|by eapply once|exact A2]].
  2:{ eapply Forall_impl; [exact HE|]. intros [[a p] wire] Hx. split; [done|by eapply echoed_wire]. }
  etrans; [|apply fmap_submseteq, Hacc]. fold (contents (g_accepted (server identity dialUDP allowPrivate ses))).
  rewrite <- (toKind_split (contents _)). apply submseteq_app; apply sublist_submseteq; (etrans; [|apply HF]); by apply sublist_inserts_r.
Qed.

(** ** An association *)

(** A caller writes [query] to a public resolver, the relay forwards it, the
    answer comes back twice and is read once. *)
Definition resolver : Addr := AUDP (mkUDPAddr (zb [8; 8; 8; 8]) 53 []).
Definition call0 (res : result (list byte)) : PacketConn.event := PacketConn.EStep 0 0 res 0 None.
Definition call1 (res : result (list byte)) : PacketConn.event := PacketConn.EStep 1 0 res 0 None.
Definition answer1 : list byte := packetOf 1 (bs "answer").

Definition clientSample : list PacketConn.event :=
  [PacketConn.EWrite (bs "query") (Some resolver); call0 (Fail EOF); call0 (Fail EOF); PacketConn.ERead 512] ++
  [call1 (Fail EOF); call1 (Fail EOF); call1 (Ok answer1); call1 (Fail EOF); call1 (Fail EOF)].

Definition serverSample : list UdpRelay.event :=
  [EBatch [packetOf 1 (bs "query"); packetOf 1 (bs "query")]] ++ replicate 9 forward ++
  [UdpRelay.ERead 0 (mkReadIO 1 (bs "8.8.8.8:53") None [bs "answer"] None (mkSendIO None (fun _ => None)))].

Definition clientResult : PacketConn.log := Eval vm_compute in client clientSample.
Definition serverResult : UdpRelay.log := Eval vm_compute in server (bs "user") false false serverSample.

Lemma client_sample : client clientSample = clientResult.
Proof. vm_cast_no_check (eq_refl clientResult). Qed.

Lemma server_sample : server (bs "user") false false serverSample = serverResult.
Proof. vm_cast_no_check (eq_refl serverResult). Qed.

Lemma udp_association_witness :
  UdpRelay.g_writes serverResult = [(bs "8.8.8.8:53", bs "query")] /\
  PacketConn.g_reads clientResult = [(1, bs "8.8.8.8:53", bs "answer")] /\
  PacketConn.g_reads clientResult ⊆+ g_answers serverResult.
Proof.
  split; [vm_compute; reflexivity|]. split; [vm_compute; reflexivity|].
  rewrite <- client_sample, <- server_sample.
  refine (proj1 (proj2 (proj2 (udp_association (bs "user") false false clientSample serverSample _ _)))).
  - unfold network. rewrite client_sample. apply Forall_forall. intros d Hd. vm_compute in Hd |- *. set_solver.
  - unfold network. rewrite client_sample, server_sample. apply Forall_forall. intros d Hd. vm_compute in Hd |- *. set_solver.
Defined.
