(* ===== verification/Relay.v ===== *)
(** * The end of a relay: [pkg/server] (relay.go, [waitRelay])

    Two goroutines copy, one in each direction, signal activity and send their
    result; the handler waits for both.  A state holds the clock, the idle timer
    with its channel, the channel of activity signals, both workers and the point
    the handler has reached; where several cases of its [select] are ready, the
    step's argument picks one. *)
From S2P Require Import Prelude.

Open Scope Z_scope.

(** ** State *)

Definition DefaultIdleTimeout : Z := 300 * 1000000000.

(** Capacity of the activity channel. *)
Definition activityCap : nat := 64.

(** A worker copies, has sent its result, or its result was received. *)
Inductive worker :=
  | Copying
  | Sent (err : option error)
  | Joined (err : option error).

(** Why [abort] was called.  For the timer: when, when a worker had last signalled
    activity, and how many signals were still in the channel. *)
Inductive reason := Cancelled | Idle (t signal : Z) (pending : nat) | UploadFailed | DownloadFailed.

(** The handler: at its select, in [join] at the upload, at the download, returned. *)
Inductive stage := RSelect | RJoinUpload | RJoinDownload | RReturned.

Record relay := mkRelay {
  now : Z;
  cancelled : bool;                 (* ctx.Done() *)
  armed : option Z;                 (* when the timer goes off *)
  fired : bool;                     (* timer.C holds a value *)
  activity : nat;                   (* signals in the channel *)
  up : worker;
  down : worker;
  upload : bool;                    (* the variable [upload] is not nil *)
  download : bool;
  at_ : stage;
  aborted : option reason;          (* why [abort] was called *)
  heard : Z;                        (* when the handler last received a signal, or started *)
  signalled : Z;                    (* when a worker last signalled, or the start *)
}.

Definition setTimer (r : relay) (t : Z) (a : option Z) (f : bool) : relay :=
  mkRelay t (cancelled r) a f (activity r) (up r) (down r) (upload r) (download r) (at_ r) (aborted r) (heard r) (signalled r).
Definition setActivity (r : relay) (n : nat) : relay :=
  mkRelay (now r) (cancelled r) (armed r) (fired r) n (up r) (down r) (upload r) (download r) (at_ r) (aborted r) (heard r) (signalled r).
Definition setUp (r : relay) (w : worker) (chan : bool) : relay :=
  mkRelay (now r) (cancelled r) (armed r) (fired r) (activity r) w (down r) chan (download r) (at_ r) (aborted r) (heard r) (signalled r).
Definition setDown (r : relay) (w : worker) (chan : bool) : relay :=
  mkRelay (now r) (cancelled r) (armed r) (fired r) (activity r) (up r) w (upload r) chan (at_ r) (aborted r) (heard r) (signalled r).
Definition goto (r : relay) (s : stage) : relay :=
  mkRelay (now r) (cancelled r) (armed r) (fired r) (activity r) (up r) (down r) (upload r) (download r) s (aborted r) (heard r) (signalled r).
Definition setCancelled (r : relay) : relay :=
  mkRelay (now r) true (armed r) (fired r) (activity r) (up r) (down r) (upload r) (download r) (at_ r) (aborted r) (heard r) (signalled r).
Definition setHeard (r : relay) : relay :=
  mkRelay (now r) (cancelled r) (armed r) (fired r) (activity r) (up r) (down r) (upload r) (download r) (at_ r) (aborted r) (now r) (signalled r).
Definition setSignalled (r : relay) : relay :=
  mkRelay (now r) (cancelled r) (armed r) (fired r) (activity r) (up r) (down r) (upload r) (download r) (at_ r) (aborted r) (heard r) (now r).

(** ** The handler *)

Definition start (t : Z) : relay :=
  mkRelay t false (Some (t + DefaultIdleTimeout)) false 0 Copying Copying true true RSelect None t t.

(** [timer.Stop()], the drain of its channel and [timer.Reset]: a value the timer
    has already sent is gone. *)
Definition resetTimer (r : relay) : relay :=
  let stopped := bool_decide (is_Some (armed r)) in
  let f := if stopped then fired r else false in
  mkRelay (now r) (cancelled r) (Some (now r + DefaultIdleTimeout)) f (activity r) (up r) (down r) (upload r) (download r) (at_ r) (aborted r) (heard r) (signalled r).

(** [join()]: abort, then wait for the workers still out. *)
Definition join (r : relay) (why : reason) : relay :=
  mkRelay (now r) (cancelled r) (armed r) (fired r) (activity r) (up r) (down r) (upload r) (download r)
    (if upload r then RJoinUpload else if download r then RJoinDownload else RReturned) (Some why) (heard r) (signalled r).

(** The condition of the loop. *)
Definition loopTop (r : relay) : relay := if upload r || download r then goto r RSelect else goto r RReturned.

Inductive pick := PCtx | PTimer | PActivity | PUpload | PDownload.

Definition select (r : relay) (c : pick) : relay :=
  match c with
  | PCtx => if cancelled r then join r Cancelled else r
  | PTimer => if fired r then join (setTimer r (now r) (armed r) false) (Idle (now r) (signalled r) (activity r)) else r
  | PActivity => match activity r with S n => loopTop (resetTimer (setHeard (setActivity r n))) | O => r end
  | PUpload =>
      match upload r, up r with
      | true, Sent err => let r := setUp r (Joined err) false in if err then join r UploadFailed else loopTop r
      | _, _ => r
      end
  | PDownload =>
      match download r, down r with
      | true, Sent err => let r := setDown r (Joined err) false in if err then join r DownloadFailed else loopTop r
      | _, _ => r
      end
  end.

Definition handlerStep (r : relay) (c : pick) : relay :=
  match at_ r with
  | RSelect => select r c
  | RJoinUpload => match up r with Sent err => goto (setUp r (Joined err) (upload r)) (if download r then RJoinDownload else RReturned) | _ => r end
  | RJoinDownload => match down r with Sent err => goto (setDown r (Joined err) (download r)) RReturned | _ => r end
  | RReturned => r
  end.

(** ** Steps *)

Inductive event :=
  | ETime (dt : Z)                  (* the clock goes on *)
  | ECancel
  | EActivity                       (* [onActivity] *)
  | EUpload (err : option error)    (* a worker is done *)
  | EDownload (err : option error)
  | EHandler (c : pick).

Definition tick (r : relay) (dt : Z) : relay :=
  let t := now r + Z.max 0 dt in
  match armed r with
  | Some d => if d <=? t then setTimer r t None true else setTimer r t (Some d) (fired r)
  | None => setTimer r t None (fired r)
  end.

Definition step (r : relay) (e : event) : relay :=
  match e with
  | ETime dt => tick r dt
  | ECancel => setCancelled r
  | EActivity => let r := setSignalled r in if (activity r <? activityCap)%nat then setActivity r (S (activity r)) else r
  | EUpload err => match up r with Copying => setUp r (Sent err) (upload r) | _ => r end
  | EDownload err => match down r with Copying => setDown r (Sent err) (download r) | _ => r end
  | EHandler c => handlerStep r c
  end.

Definition run (r : relay) (es : list event) : relay := foldl step r es.

(** ** Invariant *)

Definition out (w : worker) : Prop := match w with Joined _ => False | _ => True end.
Definition ended (w : worker) : Prop := match w with Joined _ => True | _ => False end.
Definition failed (w : worker) : Prop := match w with Joined (Some _) => True | _ => False end.
Definition clean (w : worker) : Prop := w = Joined None.

(** The variable of a direction and its worker. *)
Definition sideOk (chan : bool) (w : worker) : Prop := if chan then out w else clean w.

(** Why [abort] may be called. *)
Definition justified (r : relay) (why : reason) : Prop :=
  match why with
  | Cancelled => cancelled r = true
  | Idle t signal pending => heard r + DefaultIdleTimeout <= t /\ (pending = 0%nat -> signal + DefaultIdleTimeout <= t)
  | UploadFailed => failed (up r)
  | DownloadFailed => failed (down r)
  end.

(** The timer goes off [DefaultIdleTimeout] after the last signal that the handler
    received, or has done so. *)
Definition timerOk (r : relay) : Prop :=
  (armed r = Some (heard r + DefaultIdleTimeout) /\ fired r = false) \/
  (armed r = None /\ fired r = true /\ heard r + DefaultIdleTimeout <= now r).

Definition stageOk (r : relay) : Prop :=
  match at_ r with
  | RSelect => sideOk (upload r) (up r) /\ sideOk (download r) (down r) /\ upload r || download r = true /\ aborted r = None /\ timerOk r
  | RJoinUpload => out (up r) /\ (if download r then out (down r) else ended (down r)) /\ is_Some (aborted r)
  | RJoinDownload => ended (up r) /\ out (down r) /\ is_Some (aborted r)
  | RReturned => ended (up r) /\ ended (down r) /\ (aborted r = None -> clean (up r) /\ clean (down r))
  end.

(** A signal later than the last one received is in the channel. *)
Definition signalOk (r : relay) : Prop := signalled r <= now r /\ (activity r = 0%nat -> signalled r <= heard r).

Definition inv (r : relay) : Prop := stageOk r /\ (forall why, aborted r = Some why -> justified r why) /\ signalOk r.

Lemma clean_ended w : clean w -> ended w.
Proof. by intros ->. Qed.

Lemma side_ended (chan : bool) w : chan = false -> sideOk chan w -> ended w.
Proof. intros ->. apply clean_ended. Qed.

Lemma inv_join r why :
  (if upload r then out (up r) else ended (up r)) -> (if download r then out (down r) else ended (down r)) -> justified (join r why) why -> signalOk r -> inv (join r why).
Proof.
  intros Hu Hd Hj Hg. split; [|split; [by intros w [= <-]|exact Hg]]. unfold stageOk, join. cbn [at_ up down upload download aborted].
  destruct (upload r); [done|]. destruct (download r); [done|]. by split_and!.
Qed.

Lemma inv_loopTop r : aborted r = None -> sideOk (upload r) (up r) -> sideOk (download r) (down r) -> timerOk r -> signalOk r -> inv (loopTop r).
Proof.
  intros Ha Hu Hd Ht Hg. unfold loopTop, inv. destruct (upload r) eqn:Eu, (download r) eqn:Ed; cbn [orb]; (split; [|split; [cbn; congruence|exact Hg]]);
    unfold stageOk; cbn [goto at_ up down upload download aborted]; rewrite ?Eu, ?Ed, ?Ha; (split_and!; first [done|by apply clean_ended|by intros _; split]).
Qed.

Lemma inv_select r c : inv r -> at_ r = RSelect -> inv (select r c).
Proof.
  intros Hi Hat. pose proof Hi as (Hs & Hj & Hg). unfold stageOk in Hs. rewrite Hat in Hs. destruct Hs as (Hu & Hd & Hor & Ha & Ht).
  assert (Hu' : if upload r then out (up r) else ended (up r)) by (destruct (upload r); [done|by apply clean_ended]).
  assert (Hd' : if download r then out (down r) else ended (down r)) by (destruct (download r); [done|by apply clean_ended]).
  destruct c; cbn [select].
  - destruct (cancelled r) eqn:Hc; [|done]. by apply inv_join.
  - destruct (fired r) eqn:Hf; [|done]. apply inv_join; [done|done| |exact Hg]. cbn. destruct Hg as [_ Hg].
    destruct Ht as [[_ ?]|(_ & _ & ?)]; [congruence|]. split; [done|]. intros Hn. specialize (Hg Hn). lia.
  - destruct (activity r) eqn:En; [done|]. apply inv_loopTop; try done.
    + left. split; [done|]. cbn. destruct Ht as [[-> ->]|(-> & _ & _)]; by rewrite ?Tauto.if_same.
    + destruct Hg as [Hg _]. split; cbn; [done|by intros _].
  - destruct (upload r) eqn:Eu; [|done]. destruct (up r) as [|err|] eqn:Ew; try done. destruct err; [by apply inv_join|by apply inv_loopTop].
  - destruct (download r) eqn:Eu; [|done]. destruct (down r) as [|err|] eqn:Ew; try done. destruct err; [by apply inv_join|by apply inv_loopTop].
Qed.

Lemma signalOk_activity r : signalOk r -> signalOk (step r EActivity).
Proof.
  intros [Hg Hn]. unfold signalOk, step. destruct (Nat.ltb_spec (activity (setSignalled r)) activityCap) as [_|Hc]; (split; [cbn [signalled setSignalled setActivity now]; lia|]); [done|].
  intros H0. rewrite H0 in Hc. unfold activityCap in Hc. lia.
Qed.

Lemma signalOk_tick r dt : signalOk r -> signalOk (tick r dt).
Proof. intros [Hg Hn]. unfold tick. destruct (armed r) as [d|]; [destruct (d <=? _)|]; (split; cbn; [lia|exact Hn]). Qed.

Lemma relay_inv_step r e : inv r -> inv (step r e).
Proof.
  intros Hi. pose proof Hi as (Hs & Hj & Hg). destruct e as [dt| | |err|err|c]; cbn [step].
  - unfold inv. split; [|split; [unfold tick; destruct (armed r) as [d|]; [destruct (d <=? _)|]; exact Hj|by apply signalOk_tick]].
    unfold tick, stageOk in *. destruct (armed r) as [d|] eqn:Ha; [destruct (Z.leb_spec d (now r + Z.max 0 dt))|]; cbn [at_ setTimer up down upload download aborted];
      destruct (at_ r); try done; destruct Hs as (? & ? & ? & ? & Ht); split_and!; try done;
      (destruct Ht as [[E ?]|(E & ? & ?)]; rewrite Ha in E; [|]); try done.
    + right. cbn. split_and!; [done|done|]. congruence || (injection E as ->; lia).
    + left. done.
    + right. cbn. split_and!; [done|done|lia].
  - split; [by destruct r|]. split; [|exact Hg]. intros why Hw. specialize (Hj why Hw). by destruct why.
  - split; [|split; [|by apply signalOk_activity]]; cbv zeta; destruct (Nat.ltb_spec (activity (setSignalled r)) activityCap); exact Hs || exact Hj.
  - destruct (up r) eqn:E; [|done..]. split; [|split; [|exact Hg]; intros why Hw; specialize (Hj why Hw); destruct why; try done; cbn in Hj; by rewrite E in Hj].
    unfold stageOk in *. cbn [setUp at_ up down upload download aborted]. rewrite E in Hs. destruct (at_ r); try done; destruct Hs as [Hu Hs]; (split; [by destruct (upload r)|done]) || done.
  - destruct (down r) eqn:E; [|done..]. split; [|split; [|exact Hg]; intros why Hw; specialize (Hj why Hw); destruct why; try done; cbn in Hj; by rewrite E in Hj].
    unfold stageOk in *. cbn [setDown at_ up down upload download aborted]. rewrite E in Hs. destruct (at_ r); try done; destruct Hs as (Hu & Hd & Hs); split; try done; (split; [by destruct (download r)|done]) || done.
  - unfold handlerStep. destruct (at_ r) eqn:Hat; [by apply inv_select| | |done].
    + destruct (up r) as [|err|] eqn:E; try done. unfold stageOk in Hs. rewrite Hat in Hs. destruct Hs as (Hu & Hd & Ha).
      split; [|split; [|exact Hg]; intros why Hw; specialize (Hj why Hw); destruct why; try done; cbn in Hj; by rewrite E in Hj].
      unfold stageOk. cbn [goto setUp at_ up down upload download aborted]. destruct (download r); split_and!; try done. intros Hn. rewrite Hn in Ha. by destruct Ha.
    + destruct (down r) as [|err|] eqn:E; try done. unfold stageOk in Hs. rewrite Hat in Hs. destruct Hs as (Hu & Hd & Ha).
      split; [|split; [|exact Hg]; intros why Hw; specialize (Hj why Hw); destruct why; try done; cbn in Hj; by rewrite E in Hj].
      unfold stageOk. cbn [goto setDown at_ up down upload download aborted]. split_and!; try done. intros Hn. rewrite Hn in Ha. by destruct Ha.
Qed.

Lemma relay_inv_run t es : inv (run (start t) es).
Proof.
  induction es as [|e es IH] using rev_ind; [|unfold run in *; rewrite foldl_app; by apply relay_inv_step].
  split; [|split; [done|by split]]. cbn. split_and!; try done. left. done.
Qed.

(** ** Theorems *)

(** C27: when the handler returns, both workers have ended and their results were
    received, so that nothing uses the response or the buffers any more; without
    an abort both directions ended cleanly.  The other direction is aborted only
    for a reason: the request was cancelled, a direction failed, or the idle time
    went by since the handler last received a signal of activity, and, where no
    signal is left in the channel, since a worker last signalled; a clean end of
    one direction is no reason. *)
Theorem relay_ends (t : Z) (es : list event) :
  let r := run (start t) es in
  (at_ r = RReturned -> ended (up r) /\ ended (down r) /\ (aborted r = None -> clean (up r) /\ clean (down r))) /\
  (forall why, aborted r = Some why ->
     match why with
     | Cancelled => cancelled r = true
     | Idle t' signal pending => heard r + DefaultIdleTimeout <= t' /\ (pending = 0%nat -> signal + DefaultIdleTimeout <= t')
     | UploadFailed => failed (up r)
     | DownloadFailed => failed (down r)
     end).
Proof.
  cbv zeta. destruct (relay_inv_run t es) as (Hs & Hj & _). split; [|exact Hj]. intros Hat. unfold stageOk in Hs. by rewrite Hat in Hs.
Qed.

(** Once both workers have sent their results the handler returns in two steps. *)
Definition join_steps (r : relay) (c : pick) : relay := handlerStep (handlerStep r c) c.

(** a relay does not hang.  At its select the handler can take a
    cancellation, a result, and the timer, which is due [DefaultIdleTimeout]
    after the last activity it has seen; in [join] it only waits for the
    workers: once they have sent their results it returns. *)
Theorem relay_wakes (t : Z) (es : list event) :
  let r := run (start t) es in
  (at_ r = RSelect ->
     (cancelled r = true -> at_ (handlerStep r PCtx) <> RSelect) /\
     (forall dt, 0 <= dt -> heard r + DefaultIdleTimeout <= now r + dt -> at_ (handlerStep (tick r dt) PTimer) <> RSelect) /\
     (forall err, up r = Sent (Some err) -> at_ (handlerStep r PUpload) <> RSelect) /\
     (forall err, down r = Sent (Some err) -> at_ (handlerStep r PDownload) <> RSelect) /\
     ((exists err, up r = Sent err) -> (exists err, down r = Sent err) -> at_ (handlerStep (handlerStep r PUpload) PDownload) = RReturned)) /\
  (at_ r <> RSelect -> up r <> Copying -> down r <> Copying -> forall c, at_ (join_steps r c) = RReturned).
Proof.
  cbv zeta. destruct (relay_inv_run t es) as [Hs _]. set (r := run (start t) es) in *. clearbody r. unfold stageOk in Hs. split.
  - intros Hat. rewrite Hat in Hs. destruct Hs as (Hu & Hd & Hor & Ha & Ht). unfold handlerStep. rewrite Hat. split_and!.
    + intros Hc. cbn [select]. rewrite Hc. cbn. by destruct (upload r), (download r).
    + intros dt Hdt Hl. unfold tick. rewrite (Z.max_r 0 dt Hdt). destruct Ht as [[Ea Ef]|(Ea & Ef & _)]; rewrite Ea; cbn [select].
      * rewrite (proj2 (Z.leb_le _ _) Hl). cbn. rewrite Hat. cbn. by destruct (upload r), (download r).
      * cbn. rewrite Hat, Ef. cbn. by destruct (upload r), (download r).
    + intros err Hw. cbn [select]. rewrite Hw in *. destruct (upload r); [|done]. cbn. by destruct (download r).
    + intros err Hw. cbn [select]. rewrite Hw in *. destruct (download r); [|done]. cbn. by destruct (upload r).
    + intros [e1 E1] [e2 E2]. rewrite E1, E2 in *. destruct (upload r) eqn:Eu, (download r) eqn:Ed; try done. cbn [select]. rewrite Eu, E1.
      destruct e1; cbn; rewrite ?Ed, ?E2; cbn; rewrite ?Ed, ?E2; [done|]. unfold loopTop. cbn. rewrite ?Ed. cbn. rewrite ?Ed, ?E2. by destruct e2.
  - intros Hns Hu Hd c. unfold join_steps, handlerStep. destruct (at_ r) eqn:Hat; [done| | |by rewrite Hat].
    + destruct Hs as (Ou & Od & _). destruct (up r) as [|e1|] eqn:E1; [done| |done]. cbn. destruct (download r) eqn:Ed; [|done].
      destruct (down r) as [|e2|] eqn:E2; [done|done|done].
    + destruct Hs as (Ou & Od & _). destruct (down r) as [|e2|] eqn:E2; [done|done|done].
Qed.
