(* ===== verification/RawLifecycle.v ===== *)
(** * The lifetime of raw connections: [pkg/client] (lifecycle_raw.go, client.go, conn_plain_udp.go)

    [DialContext] and [ListenPacket] of the raw transports: the context of a dial
    is kept for the life of the connection; the caller's context and the client's
    lifetime are hooked to it, the caller's only until the connection is handed
    over.  Connections are registered, so that [Client.Close] closes them.

    Dials, calls of [Close] on connections and of [Client.Close], and the
    goroutines of the context hooks run in any order.  A dial makes one opening
    and at most one connection, so that all three share its number. *)
From S2P Require Import Prelude GoNet.

Open Scope Z_scope.

(** ** State *)

Definition errCanceled := Errorf "context canceled".
Definition errClientClosed := Errorf "client closed".

(** A connection: none, open, and the three parts of its [Close]: the opening is
    closed, the socket is closed, it is unregistered and the [Once] is done. *)
Inductive connState := NoConn | COpen | CCancelled | CSocket | CDone.

#[export] Instance connState_eq_dec : EqDecision connState.
Proof. solve_decision. Defined.

(** A dial: at the check of [DialContext] or [ListenPacket], in [beginRawOpen],
    in the dialer, before [registerRaw], in the handshake, before [establish],
    closing its connection, at the deferred [opening.close], returned. *)
Inductive stage :=
  | DTop
  | DBegin
  | DDial
  | DGot
  | DShake
  | DEstablish
  | DFailed (dialErr : bool) (err : error)   (* an error of the dial functions gives way to the caller's *)
  | DAbort (err : error)
  | DReturned (res : option error).

Record dial := mkDial {
  d_udp : bool;                 (* ListenPacket *)
  d_stage : stage;
  d_caller : bool;              (* the caller's context is done *)
  d_opened : bool;              (* beginRawOpen has made the opening *)
  d_hook : bool;                (* stopCaller not called *)
  d_life : bool;                (* stopLifetime not called *)
  d_ctx : bool;                 (* the opening's context is cancelled *)
  d_conn : connState;
}.

(** A call of [Client.Close]: at the lock, at [cancelRaw], closing the
    connections of its snapshot, done with them; a second call returns at once. *)
Inductive closer :=
  | XLock
  | XCancel (snap : list nat)
  | XConns (snap : list nat)
  | XDone
  | XSecond.

Record client := mkClient {
  closed : bool;
  lifetime : option bool;       (* rawLifetime, and whether it is cancelled *)
  registered : gset nat;        (* rawConnections *)
  dials : list dial;
  closers : list closer;
}.

Definition newClient : client := mkClient false None ∅ [] [].

Definition setStage (d : dial) (s : stage) : dial := mkDial (d_udp d) s (d_caller d) (d_opened d) (d_hook d) (d_life d) (d_ctx d) (d_conn d).
Definition setConn (d : dial) (c : connState) : dial := mkDial (d_udp d) (d_stage d) (d_caller d) (d_opened d) (d_hook d) (d_life d) (d_ctx d) c.
Definition setCaller (d : dial) : dial := mkDial (d_udp d) (d_stage d) true (d_opened d) (d_hook d) (d_life d) (d_ctx d) (d_conn d).
Definition cancelCtx (d : dial) : dial := mkDial (d_udp d) (d_stage d) (d_caller d) (d_opened d) (d_hook d) (d_life d) true (d_conn d).

Definition setDials (c : client) (ds : list dial) : client := mkClient (closed c) (lifetime c) (registered c) ds (closers c).
Definition setClosers (c : client) (xs : list closer) : client := mkClient (closed c) (lifetime c) (registered c) (dials c) xs.
Definition put (c : client) (k : nat) (d : dial) : client := setDials c (<[k := d]> (dials c)).

(** ** Openings *)

(** [rawOpening.close]. *)
Definition closeOpening (d : dial) : dial := mkDial (d_udp d) (d_stage d) (d_caller d) (d_opened d) false false true (d_conn d).

(** [rawOpening.establish]. *)
Definition establish (d : dial) : dial * option error :=
  let d := mkDial (d_udp d) (d_stage d) (d_caller d) (d_opened d) false (d_life d) (d_ctx d) (d_conn d) in
  (d, if d_caller d then Some errCanceled else if d_ctx d then Some errCanceled else None).

(** [beginRawOpen]. *)
Definition beginRawOpen (c : client) (k : nat) (d : dial) : client :=
  if d_caller d then put c k (setStage d (DReturned (Some errCanceled)))
  else if closed c then put c k (setStage d (DReturned (Some ErrNetClosed)))
  else
    let life := match lifetime c with None => Some false | l => l end in
    put (mkClient (closed c) life (registered c) (dials c) (closers c)) k (mkDial (d_udp d) DDial (d_caller d) true true true false NoConn).

(** The hooks of an opening: its context follows the caller's and the client's. *)
Definition hookStep (c : client) (k : nat) (d : dial) : client :=
  if (d_hook d && d_caller d) || (d_life d && bool_decide (lifetime c = Some true)) then put c k (cancelCtx d) else c.

(** ** Connections *)

(** [registerRaw]. *)
Definition registerRaw (c : client) (k : nat) : client * option error :=
  if closed c then (c, Some ErrNetClosed)
  else (mkClient (closed c) (lifetime c) (registered c ∪ {[k]}) (dials c) (closers c), None).

(** [releaseRaw]. *)
Definition releaseRaw (c : client) (k : nat) : client := mkClient (closed c) (lifetime c) (registered c ∖ {[k]}) (dials c) (closers c).

(** [Close] of a connection: the first call runs the body. *)
Definition beginClose (c : client) (k : nat) (d : dial) : client :=
  match d_conn d with COpen => put c k (setConn (closeOpening d) CCancelled) | _ => c end.

(** The rest of the body. *)
Definition closeStep (c : client) (k : nat) (d : dial) : client :=
  match d_conn d with
  | CCancelled => put c k (setConn d CSocket)
  | CSocket => put (releaseRaw c k) k (setConn d CDone)
  | NoConn | COpen | CDone => c
  end.

(** ** Dials *)

(** [if ctx.Err() != nil { return nil, ctx.Err() }]. *)
Definition callerErr (d : dial) (err : error) : error := if d_caller d then errCanceled else err.

(** [outcome]: how the dialer or the handshake ended. *)
Definition dialStep (c : client) (k : nat) (d : dial) (outcome : option error) : client :=
  match d_stage d with
  | DTop => put c k (setStage d (if closed c then DReturned (Some errClientClosed) else DBegin))
  | DBegin => beginRawOpen c k d
  | DDial =>
      match outcome with
      | Some err => put c k (setStage d (DAbort (callerErr d err)))
      | None => put c k (setStage (setConn d COpen) DGot)
      end
  | DGot =>
      let '(c, err) := registerRaw c k in
      put c k (setStage d (match err with Some e => DFailed (negb (d_udp d)) e | None => if d_udp d then DEstablish else DShake end))
  | DShake =>
      match outcome with
      | Some err => put c k (setStage d (DFailed true err))
      | None => put c k (setStage d DEstablish)
      end
  | DEstablish =>
      let '(d, err) := establish d in
      put c k (setStage d (match err with Some e => DFailed false e | None => DReturned None end))
  | DFailed dialErr err =>
      match d_conn d with
      | COpen => beginClose c k d
      | CDone => put c k (setStage d (DAbort (if dialErr then callerErr d err else err)))
      | _ => c
      end
  | DAbort err => put c k (setStage (closeOpening d) (DReturned (Some err)))
  | DReturned _ => c
  end.

(** During the handshake the cancelled context closes the connection. *)
Definition handshakeHook (c : client) (k : nat) (d : dial) : client :=
  match d_stage d with DShake => if d_ctx d then beginClose c k d else c | _ => c end.

(** ** [Client.Close] *)

Definition closerStep (c : client) (j : nat) (x : closer) : client :=
  let goto c x := setClosers c (<[j := x]> (closers c)) in
  match x with
  | XLock =>
      if closed c then goto c XSecond
      else goto (mkClient true (lifetime c) ∅ (dials c) (closers c)) (XCancel (elements (registered c)))
  | XCancel snap => goto (mkClient (closed c) (match lifetime c with Some _ => Some true | None => None end) (registered c) (dials c) (closers c)) (XConns snap)
  | XConns (k :: rest) =>
      match dials c !! k with
      | Some d => match d_conn d with COpen => beginClose c k d | CDone => goto c (XConns rest) | _ => c end
      | None => goto c (XConns rest)
      end
  | XConns [] => goto c XDone
  | XDone | XSecond => c
  end.

(** ** Steps *)

Inductive event :=
  | EDial (udp : bool)
  | EClientClose
  | ECancel (k : nat)                             (* the caller's context ends *)
  | EConnClose (k : nat)                          (* the owner of a returned connection closes it *)
  | EDialStep (k : nat) (outcome : option error)
  | EHook (k : nat)
  | EHandshakeHook (k : nat)
  | ECloseStep (k : nat)
  | ECloser (j : nat).

Definition newDial (udp : bool) : dial := mkDial udp DTop false false false false false NoConn.

Definition onDial (c : client) (k : nat) (f : dial -> client) : client := match dials c !! k with Some d => f d | None => c end.

Definition step (c : client) (e : event) : client :=
  match e with
  | EDial udp => setDials c (dials c ++ [newDial udp])
  | EClientClose => setClosers c (closers c ++ [XLock])
  | ECancel k => onDial c k (fun d => put c k (setCaller d))
  | EConnClose k => onDial c k (fun d => match d_stage d with DReturned None => beginClose c k d | _ => c end)
  | EDialStep k outcome => onDial c k (fun d => dialStep c k d outcome)
  | EHook k => onDial c k (hookStep c k)
  | EHandshakeHook k => onDial c k (handshakeHook c k)
  | ECloseStep k => onDial c k (closeStep c k)
  | ECloser j => match closers c !! j with Some x => closerStep c j x | None => c end
  end.

Definition run (c : client) (es : list event) : client := foldl step c es.

(** ** Invariant *)

Definition inSnap (x : closer) (k : nat) : Prop := match x with XCancel snap | XConns snap => k ∈ snap | _ => False end.

(** Somebody will close the connection, or it is closed. *)
Definition tracked (c : client) (k : nat) (d : dial) : Prop :=
  k ∈ registered c \/ (exists j x, closers c !! j = Some x /\ inSnap x k) \/ d_conn d = CDone.

Definition stageOk (c : client) (k : nat) (d : dial) : Prop :=
  match d_stage d with
  | DTop | DBegin => d_conn d = NoConn /\ d_opened d = false
  | DDial => d_conn d = NoConn
  | DGot => d_conn d = COpen
  | DShake | DEstablish => tracked c k d /\ d_conn d <> NoConn
  | DFailed _ _ => d_conn d <> NoConn
  | DAbort _ => d_conn d = NoConn \/ d_conn d = CDone
  | DReturned None => tracked c k d /\ d_conn d <> NoConn /\ d_hook d = false /\ (d_ctx d = true -> d_conn d <> COpen \/ lifetime c = Some true)
  | DReturned (Some _) => (d_conn d = NoConn \/ d_conn d = CDone) /\ (d_opened d = true -> d_ctx d = true)
  end.

(** Only a connection that was registered is known to others. *)
Definition known (c : client) (k : nat) : Prop := k ∈ registered c \/ exists j x, closers c !! j = Some x /\ inSnap x k.

Definition past (d : dial) : Prop := d_conn d <> NoConn /\ d_stage d <> DGot.

Definition dialOk (c : client) (k : nat) (d : dial) : Prop :=
  (d_conn d <> NoConn -> d_conn d <> COpen -> d_ctx d = true) /\
  ((k ∈ registered c -> d_conn d <> CDone) /\ (known c k -> past d)) /\ stageOk c k d.

(** The call that closed the client. *)
Definition first (x : closer) : bool := match x with XCancel _ | XConns _ | XDone => true | _ => false end.

Record inv (c : client) : Prop := {
  iv_dials : forall k d, dials c !! k = Some d -> dialOk c k d;
  iv_reg : forall k, k ∈ registered c -> closed c = false;
  iv_known : forall k, known c k -> is_Some (dials c !! k);
  iv_first : forall j x, closers c !! j = Some x -> first x = true -> closed c = true;
  iv_one : forall i j x y, closers c !! i = Some x -> closers c !! j = Some y -> first x = true -> first y = true -> i = j;
}.

(** What the state of a dial depends on. *)
Record keeps (c c' : client) (k : nat) : Prop := {
  ke_reg : k ∈ registered c' <-> k ∈ registered c;
  ke_life : lifetime c = Some true -> lifetime c' = Some true;
  ke_closers : closers c' = closers c;
}.

Lemma raw_dialOk_keeps c c' k d : keeps c c' k -> dialOk c k d -> dialOk c' k d.
Proof.
  intros [H1 H2 H3] (A & [B B'] & C). split_and!; [done|by rewrite H1|unfold known in *; by rewrite H1, H3|]. unfold stageOk, tracked in *. destruct (d_stage d) as [| | | | | | | |[]]; try done; rewrite H1, H3; try done.
  destruct C as (? & ? & ? & C). split_and!; try done. intros Hc. destruct (C Hc); auto.
Qed.

Lemma lookup_put (l : list dial) k d j d' : <[k := d]> l !! j = Some d' -> (j = k /\ d' = d /\ (k < length l)%nat) \/ (j <> k /\ l !! j = Some d').
Proof.
  destruct (decide (k = j)) as [<-|Hne]; [|rewrite list_lookup_insert_ne by done; auto].
  intros H. left. pose proof (lookup_lt_Some _ _ _ H) as Hl. rewrite length_insert in Hl. rewrite list_lookup_insert_eq in H by done. by injection H as <-.
Qed.

(** A step that changes one dial. *)
Lemma raw_inv_put c c' k d d' :
  inv c -> dials c !! k = Some d -> dials c' = dials c -> closed c' = closed c ->
  (forall j, j <> k -> keeps c c' j) -> closers c' = closers c -> (k ∈ registered c' -> closed c = false) -> dialOk c' k d' -> inv (put c' k d').
Proof.
  intros [H1 H2 H0 H3 H4] Hk Ed Ec Hke Ecl Hr Hd. split; cbn [put setDials dials closed closers registered]; rewrite ?Ed, ?Ec, ?Ecl; try done.
  - intros j d'' [(-> & -> & _)|[Hne Hj]]%lookup_put; [exact Hd|]. apply (raw_dialOk_keeps c c'); [by apply Hke|by apply H1].
  - intros j Hj. destruct (decide (j = k)) as [->|Hne]; [by apply Hr|]. apply (H2 j). by apply (Hke j Hne).
  - intros j Hj. destruct (decide (j = k)) as [->|Hne]; [rewrite list_lookup_insert_eq; [done|by eapply lookup_lt_Some]|].
    rewrite list_lookup_insert_ne by done. apply H0. unfold known in *. cbn [put setDials registered closers] in Hj. rewrite Ecl in Hj. destruct Hj; [left; by apply (Hke j Hne)|by right].
Qed.

Lemma raw_keeps_refl c k : keeps c c k.
Proof. by split. Qed.

#[local] Hint Resolve raw_keeps_refl : core.

(** A step that changes one dial and nothing else. *)
Lemma raw_inv_put_same c k d d' : inv c -> dials c !! k = Some d -> dialOk c k d' -> inv (put c k d').
Proof. intros Hi Hk Hd. apply (raw_inv_put c c k d d'); auto. exact (iv_reg _ Hi k). Qed.

Lemma raw_inv_beginClose c k d : inv c -> dials c !! k = Some d -> d_stage d <> DGot -> inv (beginClose c k d).
Proof.
  intros Hi Hk Hg. unfold beginClose. destruct (d_conn d) eqn:Hc; try done. apply (raw_inv_put_same c k d); [done..|].
  destruct (iv_dials _ Hi _ _ Hk) as (A & [B B'] & C). split_and!; try done.
  unfold stageOk, tracked in *. cbn [setConn closeOpening d_stage d_conn d_opened d_hook d_ctx]. destruct (d_stage d) as [| | | | | | | |[]]; rewrite Hc in C; naive_solver.
Qed.

Lemma raw_inv_closeStep c k d : inv c -> dials c !! k = Some d -> inv (closeStep c k d).
Proof.
  intros Hi Hk. destruct (iv_dials _ Hi _ _ Hk) as (A & [B B'] & C). unfold closeStep. destruct (d_conn d) eqn:Hc; try done.
  - apply (raw_inv_put_same c k d); [done..|]. split_and!; [by intros; apply A|done|by intros H; destruct (B' H)|].
    unfold stageOk, tracked in *. cbn [setConn d_stage d_conn d_opened d_hook d_ctx]. rewrite Hc in C. destruct (d_stage d) as [| | | | | | | |[]]; naive_solver.
  - assert (Hreg : forall j, j <> k -> keeps c (releaseRaw c k) j) by (intros j Hj; split; try done; cbn; set_solver).
    apply (raw_inv_put c (releaseRaw c k) k d); [done|done|done|done|done|done|cbn; set_solver|]. split_and!; [by intros; apply A|cbn; set_solver| |].
    + intros Hkn. destruct B' as [_ ?]; [|done]. unfold known in *. cbn [releaseRaw registered closers] in Hkn. set_solver.
    + unfold stageOk, tracked in *. cbn [setConn d_stage d_conn d_opened d_hook d_ctx releaseRaw lifetime]. rewrite Hc in C. destruct (d_stage d) as [| | | | | | | |[]]; naive_solver.
Qed.

Lemma inv_hookStep c k d : inv c -> dials c !! k = Some d -> inv (hookStep c k d).
Proof.
  intros Hi Hk. destruct (iv_dials _ Hi _ _ Hk) as (A & B & C). unfold hookStep. destruct (_ || _) eqn:Hc; [|done]. apply (raw_inv_put_same c k d); [done..|].
  split; [done|]. split; [done|]. unfold stageOk, tracked in *. cbn [cancelCtx d_stage d_conn d_opened d_hook d_ctx]. destruct (d_stage d) as [| | | | | | | |[]]; try done.
  - by destruct C.
  - destruct C as (? & ? & Hh & ?). split_and!; try done. intros _. right. rewrite Hh in Hc. cbn in Hc. apply andb_true_iff in Hc as [_ Hc]. by apply bool_decide_eq_true in Hc.
Qed.

Lemma inv_caller c k d : inv c -> dials c !! k = Some d -> inv (put c k (setCaller d)).
Proof. intros Hi Hk. apply (raw_inv_put_same c k d); [done..|]. exact (iv_dials _ Hi _ _ Hk). Qed.

(** A step that only moves to another stage, other than [DGot]. *)
Lemma raw_inv_goto c k d s : inv c -> dials c !! k = Some d -> s <> DGot -> stageOk c k (setStage d s) -> inv (put c k (setStage d s)).
Proof.
  intros Hi Hk Hs Hok. destruct (iv_dials _ Hi _ _ Hk) as (A & [B B'] & C). apply (raw_inv_put_same c k d); [done..|].
  split; [exact A|]. split; [|exact Hok]. split; [exact B|]. intros Hkn. destruct (B' Hkn). by split.
Qed.

Lemma unknown c k d : inv c -> dials c !! k = Some d -> d_conn d = NoConn \/ d_stage d = DGot -> ~ known c k.
Proof. intros Hi Hk H Hkn. destruct (iv_dials _ Hi _ _ Hk) as (A & [B B'] & C). destruct (B' Hkn), H; done. Qed.

Lemma raw_inv_dialStep c k d outcome : inv c -> dials c !! k = Some d -> inv (dialStep c k d outcome).
Proof.
  intros Hi Hk. pose proof (iv_dials _ Hi _ _ Hk) as (A & [B B'] & C). pose proof (unknown c k d Hi Hk) as Hu. unfold dialStep, stageOk in *. destruct (d_stage d) as [| | | | | |dialErr err|err|res] eqn:Hs.
  - destruct C as [Hc Ho]. apply raw_inv_goto; try done; [by destruct (closed c)|]. unfold stageOk. cbn [setStage d_stage d_conn d_opened]. rewrite Hc, Ho. destruct (closed c); auto.
  - destruct C as [Hc Ho]. specialize (Hu (or_introl Hc)). unfold beginRawOpen. destruct (d_caller d) eqn:Ed; [|destruct (closed c) eqn:Ec].
    + apply raw_inv_goto; try done. unfold stageOk. cbn [setStage d_stage d_conn d_opened]. rewrite Hc, Ho. auto.
    + apply raw_inv_goto; try done. unfold stageOk. cbn [setStage d_stage d_conn d_opened]. rewrite Hc, Ho. auto.
    + apply (raw_inv_put c _ k d); [done|done|done|done| |done|done|]; [|split_and!; try done; by intros ?; exfalso; apply Hu; left].
      intros j _. split; try done. cbn. by destruct (lifetime c).
  - specialize (Hu (or_introl C)). destruct outcome as [e|].
    + apply raw_inv_goto; try done. by left.
    + apply (raw_inv_put_same c k d); [done..|]. split_and!; try done.
  - specialize (Hu (or_intror eq_refl)). unfold registerRaw. destruct (closed c) eqn:Ec.
    + apply raw_inv_goto; try done. unfold stageOk. cbn. congruence.
    + apply (raw_inv_put c _ k d); [done|done|done|done| |done|done|].
      * intros j Hj. split; try done. cbn. set_solver.
      * split_and!; [done|cbn; rewrite C; done|cbn; split; [cbn; congruence|by destruct (d_udp d)]|]. unfold stageOk, tracked. cbn. destruct (d_udp d); cbn; rewrite C; split; try done; left; set_solver.
  - destruct C as [Ht Hn]. destruct outcome as [e|]; apply raw_inv_goto; try done.
  - destruct C as [Ht Hn]. unfold establish. cbv zeta. apply (raw_inv_put_same c k d); [done..|]. split; [exact A|]. split.
    + split; [exact B|]. intros Hkn. destruct (B' Hkn). split; [done|]. cbn. destruct (d_caller d); [done|]. by destruct (d_ctx d).
    + unfold stageOk. cbn. destruct (d_caller d); [done|]. destruct (d_ctx d) eqn:Ex; [done|]. by split_and!.
  - destruct (d_conn d) eqn:Hc; try done.
    + apply raw_inv_beginClose; try done; congruence.
    + apply raw_inv_goto; try done. by right.
  - apply (raw_inv_put_same c k d); [done..|]. split; [done|]. split; [split; [exact B|]; intros Hkn; destruct (B' Hkn); by split|]. unfold stageOk. cbn. auto.
  - done.
Qed.

Lemma inv_closers c j x y c' :
  inv c -> closers c !! j = Some x -> dials c' = dials c -> closers c' = closers c -> (closed c = true -> closed c' = true) -> (first y = true -> closed c' = true) ->
  (first x = true \/ closed c = false \/ first y = false) ->
  (forall k, k ∈ registered c' -> k ∈ registered c /\ closed c' = false) ->
  (forall k d, dials c !! k = Some d -> k ∈ registered c \/ inSnap x k -> k ∈ registered c' \/ inSnap y k \/ d_conn d = CDone) ->
  (forall k, inSnap y k -> k ∈ registered c \/ inSnap x k) ->
  (lifetime c = Some true -> lifetime c' = Some true) ->
  inv (setClosers c' (<[j := y]> (closers c'))).
Proof.
  intros [H1 H2 H0 H3 H4] Hj Ed Ecl Hc Hy Hf Hr Ht Hs Hl. pose proof (lookup_lt_Some _ _ _ Hj) as Hlt.
  assert (Hlk : forall i z, <[j := y]> (closers c) !! i = Some z -> (i = j /\ z = y) \/ (i <> j /\ closers c !! i = Some z)).
  { intros i z. destruct (decide (j = i)) as [<-|Hne]; [rewrite list_lookup_insert_eq by done; intros [= <-]; auto|rewrite list_lookup_insert_ne by done; auto]. }
  assert (Hkn : forall k, known (setClosers c' (<[j:=y]> (closers c))) k -> known c k).
  { intros k. unfold known. cbn [setClosers registered closers]. intros [Hreg|(i & z & [[-> ->]|[Hne Hi]]%Hlk & Hz)]; [left; by apply Hr| |right; eauto].
    destruct (Hs k Hz); [by left|right; eauto]. }
  split; cbn [setClosers closers dials closed registered]; rewrite ?Ed, ?Ecl.
  - intros k d Hk. destruct (H1 k d Hk) as (A & [B B'] & C).
    assert (Htr : tracked c k d -> tracked (setClosers c' (<[j:=y]> (closers c))) k d).
    { unfold tracked. cbn [setClosers registered closers]. intros [Hreg|[(i & z & Hi & Hz)|?]]; [|destruct (decide (i = j)) as [->|Hne]|auto].
      - destruct (Ht k d Hk (or_introl Hreg)) as [?|[?|?]]; auto. right; left. exists j, y. by rewrite list_lookup_insert_eq.
      - rewrite Hj in Hi. injection Hi as <-. destruct (Ht k d Hk (or_intror Hz)) as [?|[?|?]]; auto. right; left. exists j, y. by rewrite list_lookup_insert_eq.
      - right; left. exists i, z. by rewrite list_lookup_insert_ne. }
    split; [done|]. split; [split; [intros Hk'; apply B; by apply Hr|auto]|].
    unfold stageOk in *. destruct (d_stage d) as [| | | | | | | |[]]; try done; cbn [setClosers lifetime]; naive_solver.
  - intros k Hk. by destruct (Hr k Hk).
  - intros k Hk. by apply H0, Hkn.
  - intros i z [[-> ->]|[Hne Hi]]%Hlk Hz; [by apply Hy|]. apply Hc. by apply (H3 i z).
  - intros i i' z z' [[-> ->]|[Hne Hi]]%Hlk [[-> ->]|[Hne' Hi']]%Hlk Fz Fz'; [done| | |by apply (H4 i i' z z')].
    + destruct Hf as [Fx|[Hcf|?]]; [by apply (H4 j i' x z')| |congruence]. specialize (H3 _ _ Hi' Fz'). congruence.
    + destruct Hf as [Fx|[Hcf|?]]; [by apply (H4 i j z x)| |congruence]. specialize (H3 _ _ Hi Fz). congruence.
Qed.

Lemma raw_inv_closerStep c j x : inv c -> closers c !! j = Some x -> inv (closerStep c j x).
Proof.
  intros Hi Hj. assert (Hreg : forall k, k ∈ registered c -> k ∈ registered c /\ closed c = false) by (intros k Hk; split; [done|by apply (iv_reg _ Hi k)]).
  pose proof (iv_first _ Hi _ _ Hj) as Hf. unfold closerStep. destruct x as [|snap|[|k rest]| |]; try done.
  - destruct (closed c) eqn:Hc.
    + apply (inv_closers c j XLock); rewrite ?Hc; auto. intros k d _ [?|[]]; auto.
    + apply (inv_closers c j XLock); cbn; auto; [set_solver| |].
      * intros k d _ [Hk|[]]. right; left. by apply elem_of_elements.
      * intros k Hk. left. by apply elem_of_elements.
  - apply (inv_closers c j (XCancel snap)); cbn; auto; [intros k d _ [?|?]; auto|by intros ->].
  - apply (inv_closers c j (XConns [])); cbn; auto; [|by intros ? []]. intros k d _ [?|Hk]; [auto|by apply elem_of_nil in Hk].
  - destruct (dials c !! k) as [d|] eqn:Hk; [destruct (d_conn d) eqn:Hd; try done|].
    + apply raw_inv_beginClose; try done. destruct (iv_dials _ Hi _ _ Hk) as (_ & [_ B'] & _). apply B'. right. exists j, (XConns (k :: rest)). split; [done|by left].
    + apply (inv_closers c j (XConns (k :: rest))); cbn; auto; [|intros i Hi'; right; by right].
      intros i d' Hd' [?|[-> |?]%elem_of_cons]; auto. right; right. congruence.
    + apply (inv_closers c j (XConns (k :: rest))); cbn; auto; [|intros i Hi'; right; by right].
      intros i d' Hd' [?|[-> |?]%elem_of_cons]; auto. congruence.
Qed.

Lemma inv_new_dial c udp : inv c -> inv (setDials c (dials c ++ [newDial udp])).
Proof.
  intros Hi. pose proof Hi as [H1 H2 H0 H3 H4]. split; cbn [setDials dials closers closed registered]; try done.
  - intros k d [Hk|[Hk Hd]]%lookup_app_Some; [exact (H1 k d Hk)|]. apply list_lookup_singleton_Some in Hd as [E <-].
    split_and!; try done. intros Hkn. destruct (H0 k Hkn) as [d Hd]. apply lookup_lt_Some in Hd. lia.
  - intros k Hk. destruct (H0 k Hk) as [d Hd]. exists d. by apply lookup_app_l_Some.
Qed.

Lemma inv_new_closer c : inv c -> inv (setClosers c (closers c ++ [XLock])).
Proof.
  intros Hi. pose proof Hi as [H1 H2 H0 H3 H4].
  assert (Hl : forall j x, (closers c ++ [XLock]) !! j = Some x -> closers c !! j = Some x \/ x = XLock).
  { intros j x [?|[_ Hx]]%lookup_app_Some; [by left|]. apply list_lookup_singleton_Some in Hx as [_ <-]. by right. }
  assert (Hkn : forall k, known (setClosers c (closers c ++ [XLock])) k <-> known c k).
  { intros k. unfold known. cbn [setClosers registered closers]. split; (intros [?|(j & x & Hj & Hx)]; [by left|right]).
    - destruct (Hl _ _ Hj) as [?| ->]; [eauto|done].
    - exists j, x. split; [by apply lookup_app_l_Some|done]. }
  split; cbn [setClosers dials closers closed registered]; try done.
  - intros k d Hk. destruct (H1 k d Hk) as (A & [B B'] & C). split; [done|]. split; [split; [done|by rewrite Hkn]|].
    assert (Ht : tracked c k d -> tracked (setClosers c (closers c ++ [XLock])) k d).
    { intros [?|[?|?]]; [by left| |by right; right]. destruct (proj2 (Hkn k)) as [?|?]; [by right|by left|by right; left]. }
    unfold stageOk in *. destruct (d_stage d) as [| | | | | | | |[]]; try done; cbn [setClosers lifetime]; naive_solver.
  - intros k Hk. by apply H0, Hkn.
  - intros j x [?| ->]%Hl; [by apply (H3 j x)|done].
  - intros i j x y [?| ->]%Hl [?| ->]%Hl; try done. by apply H4.
Qed.

Lemma raw_inv_step c e : inv c -> inv (step c e).
Proof.
  intros Hi. destruct e as [udp| |k|k|k outcome|k|k|k|j]; cbn [step]; unfold onDial; try (destruct (dials c !! k) as [d|] eqn:Hk; [|done]).
  - by apply inv_new_dial.
  - by apply inv_new_closer.
  - by apply inv_caller.
  - destruct (d_stage d) as [| | | | | | | |[]] eqn:Hs; try done. apply raw_inv_beginClose; congruence.
  - by apply raw_inv_dialStep.
  - by apply inv_hookStep.
  - unfold handshakeHook. destruct (d_stage d) eqn:Hs; try done. destruct (d_ctx d); [|done]. apply raw_inv_beginClose; congruence.
  - by apply raw_inv_closeStep.
  - destruct (closers c !! j) eqn:Hj; [by apply raw_inv_closerStep|done].
Qed.

Lemma raw_inv_run es : inv (run newClient es).
Proof.
  induction es as [|e es IH] using rev_ind; [|unfold run in *; rewrite foldl_app; by apply raw_inv_step].
  split; try done. intros k [?|(j & x & Hj & _)]; [set_solver|done].
Qed.

(** ** Theorems *)

(** C26: no connection escapes a closed client: once [Client.Close] has returned,
    every connection it made is closed and unregistered, whichever dial was under
    way, except one whose dial has just got it and is closing it itself; no dial
    returns a connection that stays open. *)
Theorem raw_no_escape (es : list event) (j : nat) :
  closers (run newClient es) !! j = Some XDone ->
  forall k d, dials (run newClient es) !! k = Some d ->
  k ∉ registered (run newClient es) /\
  match d_stage d with
  | DReturned None | DShake | DEstablish => d_conn d = CDone
  | DReturned (Some _) | DAbort _ => d_conn d = NoConn \/ d_conn d = CDone
  | DGot => d_conn d = COpen /\ exists err, dials (dialStep (run newClient es) k d None) !! k = Some (setStage d (DFailed (negb (d_udp d)) err))
  | DFailed _ _ => d_conn d <> NoConn
  | DTop | DBegin | DDial => d_conn d = NoConn
  end.
Proof.
  intros Hj k d Hk. pose proof (raw_inv_run es) as Hi. set (c := run newClient es) in *. clearbody c. destruct (iv_dials _ Hi _ _ Hk) as (A & [B B'] & C).
  pose proof (iv_first _ Hi _ _ Hj eq_refl) as Hcl.
  assert (Hr : k ∉ registered c) by (intros Hr; apply (iv_reg _ Hi) in Hr; congruence). split; [done|].
  assert (Ht : tracked c k d -> d_conn d = CDone).
  { intros [?|[(i & x & Hx & Hs)|?]]; [done| |done]. destruct x as [|snap|snap| |]; try done.
    - pose proof (iv_one _ Hi _ _ _ _ Hx Hj eq_refl eq_refl). congruence.
    - pose proof (iv_one _ Hi _ _ _ _ Hx Hj eq_refl eq_refl). congruence. }
  unfold stageOk in C. destruct (d_stage d) as [| | | | | | | |[]] eqn:Hs; try tauto; try (destruct C; auto; fail).
  split; [done|]. exists ErrNetClosed. unfold dialStep. rewrite Hs. unfold registerRaw. rewrite Hcl. cbn. apply list_lookup_insert_eq. by eapply lookup_lt_Some.
Qed.

(** the context of a dial lives as long as the connection: after the hand-over
    the caller's context no longer matters, only closing the connection or the
    client cancels it; a closed connection has its context cancelled and is
    unregistered, a failed dial leaves neither a socket nor a live context. *)
Theorem raw_context (es : list event) (k : nat) (d : dial) :
  dials (run newClient es) !! k = Some d ->
  (d_stage d = DReturned None -> d_conn d = COpen -> lifetime (run newClient es) <> Some true -> d_ctx d = false) /\
  (d_conn d = CDone -> d_ctx d = true /\ k ∉ registered (run newClient es)) /\
  (forall err, d_stage d = DReturned (Some err) -> (d_conn d = NoConn \/ d_conn d = CDone) /\ (d_opened d = true -> d_ctx d = true)).
Proof.
  intros Hk. destruct (iv_dials _ (raw_inv_run es) _ _ Hk) as (A & [B B'] & C). unfold stageOk in C. split_and!.
  - intros Hs Hc Hl. rewrite Hs in C. destruct C as (_ & _ & _ & C). destruct (d_ctx d); [|done]. by destruct (C eq_refl).
  - intros Hc. split; [apply A; congruence|]. intros Hr. by apply B in Hr.
  - intros err Hs. by rewrite Hs in C.
Qed.

(** ** Witnesses *)

(** A dial is handed over; then its caller's context ends. *)
Definition handedOver : list event := [EDial false] ++ replicate 6 (EDialStep 0 None) ++ [ECancel 0; EHook 0].

(** A second dial is under way when the client is closed, and gets its connection afterwards. *)
Definition lateDial : list event :=
  handedOver ++ [EDial true; EDialStep 1 None; EDialStep 1 None; EClientClose; ECloser 0; ECloser 0; ECloser 0; ECloseStep 0; ECloseStep 0; ECloser 0; ECloser 0; EDialStep 1 None].

Lemma raw_no_escape_witness :
  d_conn <$> (dials (run newClient lateDial) !! 0%nat) = Some CDone /\ 1%nat ∉ registered (run newClient lateDial).
Proof.
  split; [vm_compute; reflexivity|]. eapply (raw_no_escape lateDial 0); vm_compute; reflexivity.
Defined.

Lemma raw_context_witness :
  let d := mkDial false (DReturned None) true true false true false COpen in
  dials (run newClient handedOver) !! 0%nat = Some d /\ d_caller d = true /\ d_ctx d = false.
Proof.
  cbv zeta. split; [vm_compute; reflexivity|]. split; [reflexivity|].
  apply (raw_context handedOver 0); vm_compute; congruence.
Defined.
