(* ===== verification/PlainUDPClient.v ===== *)
(** * The client of the plain UDP protocol: [plainUDPConn] of [pkg/client] (conn_plain_udp.go)

    Any number of goroutines read, write and close.  A step is the code of one of
    them between two points where it can be overtaken; what the socket does is an
    argument of the step. *)
From S2P Require Import Prelude GoIO GoNet Target Crypto PlainUDP ResponseReplay PacketConn.

Open Scope Z_scope.

(** ** State *)

(** A read: at its first check, in the socket, at the replay window, done; a
    write: at its check, at the socket, done; [Close], done. *)
Inductive call :=
  | RTop (size : Z)
  | RSocket (size : Z)
  | RReplay (size : Z) (info : packetInfo)
  | RDone (res : result (list byte * Addr))
  | WTop (p : list byte) (addr : option Addr)
  | WSocket (p packet : list byte)
  | WDone (res : result Z)
  | XWait
  | XDone.

(** The body of [closeOnce]: not begun, [closed] is set, the socket is closed,
    the window is dropped. *)
Inductive closing := CNot | CSet | CSocket | CReset.

#[export] Instance closing_eq_dec : EqDecision closing.
Proof. solve_decision. Defined.

Record conn := mkConn {
  sessionID : Z;
  serverAddr : UDPAddr;
  codec : Codec;
  closed : bool;
  replay : ResponseReplayWindow;
  closeOnce : closing;
  calls : list call;
  taken : list (list byte * Addr * Z);      (* what the socket gave: packet, origin, time *)
  sent : list (list byte);                  (* what was written to the server *)
  reads : list packetInfo;                  (* what [ReadFrom] returned, latest first *)
}.

Definition setCall (c : conn) (k : nat) (x : call) : conn :=
  mkConn (sessionID c) (serverAddr c) (codec c) (closed c) (replay c) (closeOnce c) (<[k := x]> (calls c)) (taken c) (sent c) (reads c).
Definition addCall (c : conn) (x : call) : conn :=
  mkConn (sessionID c) (serverAddr c) (codec c) (closed c) (replay c) (closeOnce c) (calls c ++ [x]) (taken c) (sent c) (reads c).
Definition setClose (c : conn) (x : closing) (cl : bool) (w : ResponseReplayWindow) : conn :=
  mkConn (sessionID c) (serverAddr c) (codec c) cl w x (calls c) (taken c) (sent c) (reads c).

Section Conn.
  Context `{Crypto}.

(** [newPlainUDPConn] once the server is resolved and the socket open. *)
Definition newPlainUDPConn (psk : list byte) (serverID : gostring) (srvAddr : UDPAddr) (rnd : reader) : result (conn * reader) :=
  let? codec := NewCodec psk [serverID] in
  let? (sessionBytes, rnd') := randBytes "generate session ID" 8 rnd in
  Ok (mkConn (be_val sessionBytes) srvAddr codec false zeroWindow CNot [] [] [] [], rnd').

(** ** Reading *)

Definition fromServer (c : conn) (remote : Addr) : bool :=
  match remote with
  | AUDP ua => Equal (udpIP ua) (udpIP (serverAddr c)) && (udpPort ua =? udpPort (serverAddr c))
  | _ => true
  end.

(** The socket returned a datagram: origin, decoding, session. *)
Definition readSocket (c : conn) (k : nat) (size : Z) (got : result (list byte * Addr)) (now : Z) : conn :=
  match got with
  | Fail err => setCall c k (RDone (Fail err))
  | Ok (datagram, remote) =>
      let buf := ztake 65536 datagram in
      let c := mkConn (sessionID c) (serverAddr c) (codec c) (closed c) (replay c) (closeOnce c) (calls c) ((buf, remote, now) :: taken c) (sent c) (reads c) in
      if negb (fromServer c remote) then c
      else
        match DecodePacket (codec c) buf DirServerToClient now with
        | Fail _ => c
        | Ok info => if negb (p_sessionID info =? sessionID c) then c else setCall c k (RReplay size info)
        end
  end.

(** Behind [replayMu]. *)
Definition readReplay (c : conn) (k : nat) (size : Z) (info : packetInfo) : conn :=
  if closed c then setCall c k (RDone (Fail ErrNetClosed))
  else
    let '(accepted, w) := Accept (replay c) (p_seq info) (p_timestamp info) in
    if accepted then
      setCall (mkConn (sessionID c) (serverAddr c) (codec c) (closed c) w (closeOnce c) (calls c) (taken c) (sent c) (info :: reads c)) k
        (RDone (Ok (ztake size (p_payload info), parseUDPAddr (p_target info))))
    else setCall (mkConn (sessionID c) (serverAddr c) (codec c) (closed c) w (closeOnce c) (calls c) (taken c) (sent c) (reads c)) k (RSocket size).

(** ** Writing *)

Definition writeTop (c : conn) (k : nat) (p : list byte) (addr : option Addr) (now : Z) (rnd : reader) : conn :=
  if closed c then setCall c k (WDone (Fail ErrNetClosed))
  else
    let '(res, codec') := EncodePacket (codec c) [] DirClientToServer (sessionID c) (formatDatagramAddress addr) p now rnd in
    let c := mkConn (sessionID c) (serverAddr c) codec' (closed c) (replay c) (closeOnce c) (calls c) (taken c) (sent c) (reads c) in
    match res with
    | Fail err => setCall c k (WDone (Fail err))
    | Ok (packet, _) => setCall c k (WSocket p packet)
    end.

Definition writeSocket (c : conn) (k : nat) (p packet : list byte) (err : option error) : conn :=
  let c := mkConn (sessionID c) (serverAddr c) (codec c) (closed c) (replay c) (closeOnce c) (calls c) (taken c) (packet :: sent c) (reads c) in
  setCall c k (WDone (match err with Some e => Fail e | None => Ok (len p) end)).

(** ** Closing *)

(** The goroutine in the body of [closeOnce]. *)
Definition closeStep (c : conn) : conn :=
  match closeOnce c with
  | CNot => c
  | CSet => setClose c CSocket (closed c) (replay c)
  | CSocket => setClose c CReset (closed c) zeroWindow
  | CReset => c
  end.

Definition closeCall (c : conn) (k : nat) : conn :=
  match closeOnce c with
  | CNot => setClose c CSet true (replay c)
  | CReset => setCall c k XDone
  | CSet | CSocket => c
  end.

(** ** Steps *)

Record input := mkInput {
  i_got : result (list byte * Addr);
  i_err : option error;
  i_now : Z;
  i_rnd : reader;
}.

Definition callStep (c : conn) (k : nat) (i : input) : conn :=
  match calls c !! k with
  | Some (RTop size) => setCall c k (if closed c then RDone (Fail ErrNetClosed) else RSocket size)
  | Some (RSocket size) => readSocket c k size (i_got i) (i_now i)
  | Some (RReplay size info) => readReplay c k size info
  | Some (WTop p addr) => writeTop c k p addr (i_now i) (i_rnd i)
  | Some (WSocket p packet) => writeSocket c k p packet (i_err i)
  | Some XWait => closeCall c k
  | Some (RDone _) | Some (WDone _) | Some XDone | None => c
  end.

Inductive event :=
  | EReadFrom (size : Z)
  | EWriteTo (p : list byte) (addr : option Addr)
  | EClose
  | ECall (k : nat) (i : input)
  | ECloseStep.

Definition step (c : conn) (e : event) : conn :=
  match e with
  | EReadFrom size => addCall c (RTop size)
  | EWriteTo p addr => addCall c (WTop p addr)
  | EClose => addCall c XWait
  | ECall k i => callStep c k i
  | ECloseStep => closeStep c
  end.

Definition run (c : conn) (es : list event) : conn := foldl step c es.

(** ** Invariant *)

Definition idOf (i : packetInfo) : responseID := (p_timestamp i, p_seq i).

(** The packet was sealed by the server for this session and came from its
    address in time. *)
Definition genuine (c : conn) (info : packetInfo) : Prop :=
  exists packet remote now, (packet, remote, now) ∈ taken c /\ fromServer c remote = true /\
    DecodePacket (codec c) packet DirServerToClient now = Ok info /\ p_sessionID info = sessionID c.

(** The window remembers what was returned, until it is dropped; then nothing
    is returned any more. *)
Definition windowOk (c : conn) : Prop :=
  NoDup (idOf <$> reads c) /\ (if bool_decide (closeOnce c = CReset) then True else invariant (idOf <$> reads c) (replay c)).

Record inv (c : conn) : Prop := {
  iv_window : windowOk c;
  iv_closed : closeOnce c <> CNot -> closed c = true;
  iv_reads : forall info, info ∈ reads c -> genuine c info;
  iv_calls : forall k size info, calls c !! k = Some (RReplay size info) -> genuine c info;
}.

(** What a packet's origin depends on. *)
Definition sameOrigin (c c' : conn) : Prop :=
  sessionID c' = sessionID c /\ serverAddr c' = serverAddr c /\ aeadKey (codec c') DirServerToClient = aeadKey (codec c) DirServerToClient /\ taken c ⊆ taken c'.

Lemma decode_key c c' packet dir now : aeadKey c' dir = aeadKey c dir -> DecodePacket c' packet dir now = DecodePacket c packet dir now.
Proof. intros E. unfold DecodePacket. by rewrite E. Qed.

Lemma genuine_same c c' info : sameOrigin c c' -> genuine c info -> genuine c' info.
Proof.
  intros (E1 & E2 & E3 & E4) (packet & remote & now & Ht & Hf & Hd & Hs). exists packet, remote, now. split_and!; [by apply E4| |by rewrite (decode_key _ _ _ _ _ E3)|by rewrite E1].
  unfold fromServer in *. by rewrite E2.
Qed.

Lemma decode_id c packet dir now info : DecodePacket c packet dir now = Ok info -> 0 <= p_seq info /\ 0 <= p_timestamp info.
Proof.
  unfold DecodePacket. intros E. destruct (_ <? _); [done|]. destruct (aeadKey c dir); [|done]. destruct (open _ _ _ _ _) as [plaintext|]; [|done].
  destruct (_ <? _); [done|]. destruct (timestampExpired _ _ _); [done|]. destruct (decodeTargetAddress _) as [[t q]|]; [|done]. injection E as <-. cbn.
  split; apply be_val_range.
Qed.

(** A step that moves one call and touches neither window nor results. *)
Lemma udpc_inv_move c c' k x :
  inv c -> sameOrigin c c' -> reads c' = reads c -> replay c' = replay c -> closeOnce c' = closeOnce c -> closed c' = closed c -> calls c' = calls c ->
  (forall size info, x = RReplay size info -> genuine c' info) -> inv (setCall c' k x).
Proof.
  intros [H1 H2 H3 H4] Hs Er Ew Eo Ec El Hx. split.
  - unfold windowOk in *. cbn [setCall reads replay closeOnce]. by rewrite Er, Ew, Eo.
  - cbn. by rewrite Eo, Ec.
  - cbn. rewrite Er. intros info Hi. apply (genuine_same c c'); auto.
  - intros j size info. cbn [setCall calls]. rewrite El. destruct (decide (k = j)) as [<-|Hne].
    + destruct (decide (k < length (calls c))%nat); [|rewrite list_insert_ge by lia; intros Hl; apply lookup_lt_Some in Hl; lia].
      rewrite list_lookup_insert_eq by done. intros Hj. injection Hj as ->. by apply (Hx size).
    + rewrite list_lookup_insert_ne by done. intros Hj. apply (genuine_same c c'); [done|]. by apply (H4 j size).
Qed.

Lemma same_refl c : sameOrigin c c.
Proof. by split_and!. Qed.

#[local] Hint Resolve same_refl : core.

Lemma inv_readSocket c k size got now : inv c -> inv (readSocket c k size got now).
Proof.
  intros Hi. unfold readSocket. destruct got as [[datagram remote]|err]; [|by apply (udpc_inv_move c c)]. cbv zeta.
  set (c' := mkConn _ _ _ _ _ _ _ _ _ _). assert (Hs : sameOrigin c c') by (split_and!; try done; set_solver).
  assert (Hi' : inv c').
  { destruct Hi as [H1 H2 H3 H4]. split; try done; [intros info Hr|intros j sz info Hj]; apply (genuine_same c c'); eauto. }
  destruct (fromServer c' remote) eqn:Hf; [|done]. cbn [negb]. destruct (DecodePacket _ _ _ _) as [info|] eqn:Hd; [|done].
  destruct (Z.eqb_spec (p_sessionID info) (sessionID c')) as [Es|]; [|done]. cbn [negb]. apply (udpc_inv_move c' c'); try done.
  intros sz info' [= -> ->]. exists (ztake 65536 datagram), remote, now. split_and!; try done. left.
Qed.

Lemma inv_readReplay c k size info : inv c -> calls c !! k = Some (RReplay size info) -> inv (readReplay c k size info).
Proof.
  intros Hi Hk. pose proof (iv_calls _ Hi _ _ _ Hk) as Hg. unfold readReplay. destruct (closed c) eqn:Hc; [by apply (udpc_inv_move c c)|].
  destruct Hi as [[Hnd Hw] H2 H3 H4]. assert (Ho : closeOnce c = CNot) by (destruct (decide (closeOnce c = CNot)); [done|]; specialize (H2 n); congruence).
  destruct (Accept _ _ _) as [accepted w] eqn:Ha. rewrite Ho in Hw. cbn in Hw. pose proof Hg as (packet & remote & now & _ & _ & Hd & _). destruct (decode_id _ _ _ _ _ Hd) as [Hq Ht].
  destruct (Accept_invariant _ _ _ _ _ _ Hw Hq Ht Ha) as [Hw' Hn].
  set (c' := mkConn (sessionID c) (serverAddr c) (codec c) false w (closeOnce c) (calls c) (taken c) (sent c) (if accepted then info :: reads c else reads c)).
  assert (Hi' : inv c').
  { split.
    - unfold windowOk. cbn [c' reads replay closeOnce]. rewrite Ho. cbn. destruct accepted; [|done]. cbn. split; [|done]. constructor; [by apply Hn|done].
    - done.
    - cbn. intros info' Hi'. destruct accepted; [apply elem_of_cons in Hi' as [-> |?]|]; [exact Hg|by apply H3|by apply H3].
    - exact H4. }
  destruct accepted; (apply (udpc_inv_move c' c'); done).
Qed.

Lemma encode_keys c dst dir sid target payload now rnd res c' d :
  EncodePacket c dst dir sid target payload now rnd = (res, c') -> aeadKey c' d = aeadKey c d.
Proof. unfold EncodePacket. intros [= _ <-]. done. Qed.

Lemma udpc_inv_step c e : inv c -> inv (step c e).
Proof.
  intros Hi. assert (Hadd : forall x, (forall size info, x <> RReplay size info) -> inv (addCall c x)).
  { intros x Hx. destruct Hi as [H1 H2 H3 H4]. split; try done. intros k size info [Hk|[_ Hk]]%lookup_app_Some; [by apply (H4 k size)|].
    apply list_lookup_singleton_Some in Hk as [_ Hk]. by apply Hx in Hk. }
  destruct e as [size|p addr| |k i|]; cbn [step]; [by apply Hadd..| |].
  - unfold callStep. destruct (calls c !! k) as [x|] eqn:Hk; [|done]. destruct x as [size|size|size info|res|p addr|p packet|res| |]; try done.
    + apply (udpc_inv_move c c); try done. by destruct (closed c).
    + by apply inv_readSocket.
    + by apply inv_readReplay.
    + unfold writeTop. destruct (closed c) eqn:Hc; [by apply (udpc_inv_move c c)|]. destruct (EncodePacket _ _ _ _ _ _ _ _) as [res codec'] eqn:He.
      pose proof (encode_keys _ _ _ _ _ _ _ _ _ _ DirServerToClient He) as Ek. destruct res as [[packet rnd]|err]; (apply (udpc_inv_move c _ k); try done); by split_and!.
    + by apply (udpc_inv_move c _ k).
    + unfold closeCall. destruct (closeOnce c) eqn:Ho; [|done..|by apply (udpc_inv_move c c)]. destruct Hi as [H1 H2 H3 H4]. split; try done.
      unfold windowOk in *. rewrite Ho in H1. done.
  - unfold closeStep. destruct (closeOnce c) eqn:Ho; try done; destruct Hi as [[H1 H1'] H2 H3 H4]; split; try done; rewrite Ho in H1', H2; try (intros _; by apply H2); by split.
Qed.

Lemma udpc_inv_new psk serverID srvAddr rnd c rnd' : newPlainUDPConn psk serverID srvAddr rnd = Ok (c, rnd') -> inv c.
Proof.
  unfold newPlainUDPConn. destruct (NewCodec _ _) as [cd|]; [|done]. destruct (randBytes _ _ _) as [[b r]|]; [|done]. intros [= <- _].
  split; try done; [|set_solver]. split; [constructor|]. cbn. apply invariant_zero.
Qed.

Lemma udpc_inv_run c es : inv c -> inv (run c es).
Proof. intros Hi. induction es as [|e es IH] using rev_ind; [done|]. unfold run in *. rewrite foldl_app. by apply udpc_inv_step. Qed.

(** ** Theorems *)

(** what [ReadFrom] returns, for any number of readers, writers and calls of
    [Close]: each response at most once, also while the window is dropped by
    [Close], and only packets that came from the server's address and were sealed
    with the server's key for this session within 30 seconds of the clock. *)
Theorem plain_udp_client_reads psk serverID srvAddr rnd c rnd' es :
  newPlainUDPConn psk serverID srvAddr rnd = Ok (c, rnd') ->
  NoDup (idOf <$> reads (run c es)) /\
  forall info, info ∈ reads (run c es) ->
    exists packet remote now key rest, (packet, remote, now) ∈ taken (run c es) /\ fromServer (run c es) remote = true /\
      aeadKey (codec (run c es)) DirServerToClient = Some key /\
      packet = ztake HeaderSize packet ++ seal XChaCha20Poly1305 key (ztake HeaderSize packet)
        (be 8 (p_timestamp info) ++ be 8 (p_seq info) ++ be 8 (sessionID (run c es)) ++ rest) [DirServerToClient] /\
      decodeTargetAddress rest = Ok (p_target info, p_payload info) /\
      exists t, - 30 <= t <= 30 /\ u64 now = u64 (p_timestamp info + t).
Proof.
  intros Hc. pose proof (udpc_inv_run c es (udpc_inv_new _ _ _ _ _ _ Hc)) as [[Hnd _] _ Hr _]. split; [done|].
  intros info Hi. destruct (Hr info Hi) as (packet & remote & now & Ht & Hf & Hd & Hs).
  destruct (udp_packet_authentic _ _ _ _ _ Hd) as (key & plaintext & rest & Hk & Hp & Hpl & Hrest & Htime).
  exists packet, remote, now, key, rest. split_and!; try done. by rewrite <- Hs, <- Hpl.
Qed.

(** C28: an exchange of an open connection with a server that has the same keys
    and whose clock is at most 30 seconds away: what [WriteTo] sends is decoded
    there as this session's payload for the target.  An answer that the server
    encodes, of at most 65536 bytes and arriving from its address, comes to the
    replay window; the window takes it exactly when its sequence number is not 0
    and the window does not block it (it has the identity already, or the
    timestamp is retired, or the number is not above the floor of its timestamp):
    then [ReadFrom] returns the first [size] bytes of the payload, the size of the
    caller's buffer, with the target's address; otherwise it reads on. *)
Theorem plain_udp_client_exchange (c : conn) (server : Codec) k p addr now now' rnd packet rnd' cd :
  EncodePacket (codec c) [] DirClientToServer (sessionID c) (formatDatagramAddress addr) p now rnd = (Ok (packet, rnd'), cd) ->
  (forall dir, aeadKey server dir = aeadKey (codec c) dir) -> is_u64 (sessionID c) -> - 30 <= now' - now <= 30 ->
  closed c = false -> calls c !! k = Some (WTop p addr) ->
  (exists host port, parseTarget (formatDatagramAddress addr) = Ok (host, port) /\
     calls (callStep c k (mkInput (Fail EOF) None now rnd)) !! k = Some (WSocket p packet) /\
     DecodePacket server packet DirClientToServer now' =
       Ok (mkInfo (sessionID c) (canonicalTarget host port) p (u64 now) (u64 (sequence (codec c) + 1)))) /\
  (forall j size target q rnd1 answer rnd2 server',
     EncodePacket server [] DirServerToClient (sessionID c) target q now rnd1 = (Ok (answer, rnd2), server') ->
     calls c !! j = Some (RSocket size) -> len answer <= 65536 -> fromServer c (AUDP (serverAddr c)) = true ->
     exists host port, parseTarget target = Ok (host, port) /\
       let info := mkInfo (sessionID c) (canonicalTarget host port) q (u64 now) (u64 (sequence server + 1)) in
       let c1 := callStep c j (mkInput (Ok (answer, AUDP (serverAddr c))) None now' rnd) in
       calls c1 !! j = Some (RReplay size info) /\ replay c1 = replay c /\
       (p_seq info <> 0 -> ~ blocked (replay c) (idOf info) ->
        calls (readReplay c1 j size info) !! j = Some (RDone (Ok (ztake size q, parseUDPAddr (canonicalTarget host port))))) /\
       (p_seq info = 0 \/ blocked (replay c) (idOf info) -> calls (readReplay c1 j size info) !! j = Some (RSocket size))).
Proof.
  intros He Hkeys Hsid Hnow Hcl Hk. split.
  - destruct (udp_packet_roundtrip _ server _ _ _ _ _ _ now' _ _ _ _ He (Hkeys _) Hsid Hnow) as (pk & host & port & -> & Ht & Hd).
    exists host, port. split_and!; [done| |done]. unfold callStep. rewrite Hk. unfold writeTop. rewrite Hcl. cbn [i_now i_rnd]. rewrite He. cbn.
    rewrite list_lookup_insert_eq; [done|]. by eapply lookup_lt_Some.
  - intros j size target q rnd1 answer rnd2 server' Ha Hj Hlen Hfrom.
    destruct (udp_packet_roundtrip _ (codec c) _ _ _ _ _ _ now' _ _ _ _ Ha (eq_sym (Hkeys _)) Hsid Hnow) as (pk & host & port & -> & Ht & Hd).
    exists host, port. split; [done|]. cbv zeta. cbn [p_seq p_timestamp p_payload app] in *.
    assert (Hstep : callStep c j (mkInput (Ok (pk, AUDP (serverAddr c))) None now' rnd) =
      setCall (mkConn (sessionID c) (serverAddr c) (codec c) (closed c) (replay c) (closeOnce c) (calls c) ((ztake 65536 pk, AUDP (serverAddr c), now') :: taken c) (sent c) (reads c)) j
        (RReplay size (mkInfo (sessionID c) (canonicalTarget host port) q (u64 now) (u64 (sequence server + 1))))).
    { unfold callStep. rewrite Hj. unfold readSocket. cbn [i_got i_now]. change (fromServer _ (AUDP (serverAddr c))) with (fromServer c (AUDP (serverAddr c))). rewrite Hfrom. cbn [negb codec].
      rewrite (ztake_all 65536 pk) by lia. rewrite Hd. cbn [p_sessionID sessionID]. by rewrite Z.eqb_refl. }
    rewrite Hstep. pose proof (lookup_lt_Some _ _ _ Hj) as Hlt. split_and!.
    + cbn. by rewrite list_lookup_insert_eq.
    + done.
    + intros Hz Hb. pose proof (proj2 (Accept_blocked (replay c) _ _) (conj Hz Hb)) as Hacc. unfold readReplay. cbn [setCall closed replay p_seq p_timestamp] in *.
      rewrite Hcl. destruct (Accept _ _ _) as [[] w]; [|done]. cbn. by rewrite list_lookup_insert_eq by (by rewrite length_insert).
    + intros Hb. pose proof (proj1 (Accept_blocked (replay c) (u64 (sequence server + 1)) (u64 now))) as Hacc. unfold readReplay.
      cbn [setCall closed replay p_seq p_timestamp] in *. rewrite Hcl. destruct (Accept _ _ _) as [[] w]; [exfalso; by destruct (Hacc eq_refl), Hb|].
      cbn. by rewrite list_lookup_insert_eq by (by rewrite length_insert).
Qed.

End Conn.

(** ** Witnesses *)

Definition demoServer : UDPAddr := mkUDPAddr [Byte.xc0; Byte.x00; Byte.x02; Byte.x01] 8443 [].
Definition demoTarget : Addr := AUDP (mkUDPAddr [Byte.x08; Byte.x08; Byte.x08; Byte.x08] 53 []).

(** A connection with session 7, and the server's codec. *)
Definition demoConn : conn := mkConn 7 demoServer udpCodec false zeroWindow CNot [] [] [] [].
Definition answerOf (seq : Z) (q : list byte) : list byte :=
  okOr [] (let? (a, _) := fst (EncodePacket (mkCodec (c2sKey udpCodec) (s2cKey udpCodec) seq) [] DirServerToClient 7 (bs "8.8.8.8:53") q 1000 udpRandom) in Ok a).

Definition idle : input := mkInput (Fail EOF) None 1000 udpRandom.
Definition receives (a : list byte) : input := mkInput (Ok (a, AUDP demoServer)) None 1010 udpRandom.

(** The same answer arrives twice, then another one; a third read is closed. *)
Definition demoReads : list event :=
  [EReadFrom 1500; ECall 0 idle; ECall 0 (receives (answerOf 0 (bs "one"))); ECall 0 idle;
   EReadFrom 1500; ECall 1 idle; ECall 1 (receives (answerOf 0 (bs "one"))); ECall 1 idle; ECall 1 (receives (answerOf 1 (bs "two"))); ECall 1 idle;
   EReadFrom 1500; ECall 2 idle; EClose; ECall 2 (receives (answerOf 0 (bs "one"))); ECall 3 idle; ECloseStep; ECloseStep; ECall 2 idle; ECall 3 idle].

Lemma plain_udp_client_reads_witness :
  p_payload <$> reads (run demoConn demoReads) = [bs "two"; bs "one"] /\
  NoDup (idOf <$> reads (run demoConn demoReads)).
Proof.
  split; [vm_compute; reflexivity|].
  apply (plain_udp_client_reads udpPsk (bs "srv") demoServer [RD (be 8 7) None] demoConn []). vm_compute. reflexivity.
Defined.

Definition demoBusy : conn :=
  mkConn 7 demoServer udpCodec false zeroWindow CNot [WTop (bs "query") (Some demoTarget); RSocket 1500] [] [] [].

Lemma plain_udp_client_exchange_witness :
  exists packet, calls (callStep demoBusy 0 idle) !! 0%nat = Some (WSocket (bs "query") packet) /\
    DecodePacket udpCodec packet DirClientToServer 1010 = Ok (mkInfo 7 (bs "8.8.8.8:53") (bs "query") 1000 1).
Proof.
  destruct (plain_udp_client_exchange demoBusy udpCodec 0 (bs "query") (Some demoTarget) 1000 1010 udpRandom
    (okOr [] (let? (a, _) := fst (EncodePacket udpCodec [] DirClientToServer 7 (bs "8.8.8.8:53") (bs "query") 1000 udpRandom) in Ok a)) []
    (mkCodec (c2sKey udpCodec) (s2cKey udpCodec) 1)) as [(host & port & Ht & Hc & Hd) _].
  - vm_compute. reflexivity.
  - reflexivity.
  - unfold is_u64. cbn. lia.
  - lia.
  - reflexivity.
  - reflexivity.
  - eexists. split; [exact Hc|]. vm_compute. reflexivity.
Defined.
