(* ===== verification/ReadDeadline.v ===== *)
(** * The debounced read deadline of the mihomo adapter: [chitandaReadDeadline]
    (integration/mihomo/chitanda_deadline.go, and the loop of [ReadFrom] in chitanda.go)

    The core moves the read deadline before every read; routine extensions are
    passed on to the socket once a second only.  Callers, timer callbacks and
    readers run in any order; a callback that was stopped may still run if it had
    begun, so a stopped timer keeps its callback here.  What the socket's
    [SetReadDeadline] returns is an argument of the step. *)
From S2P Require Import Prelude.

Open Scope Z_scope.

(** ** Times *)

(** [time.Time]; [None] is the zero time, before every other. *)
Abbreviation time := (option Z).

Definition Second : Z := 1000000000.

Definition After (a b : time) : bool :=
  match a, b with
  | Some x, Some y => y <? x
  | Some _, None => true
  | None, _ => false
  end.

(** [now.Sub(t) < time.Second]; the distance to the zero time is maximal. *)
Definition recent (now : Z) (t : time) : bool := match t with Some x => now - x <? Second | None => false end.

(** ** State *)

Record deadline := mkDeadline {
  requested : time;
  forwarded : time;
  lastCall : time;
  timer : bool;                     (* d.timer != nil *)
  closed : bool;
  generation : Z;
  callbacks : list (Z * Z);         (* outstanding: generation, due *)
  socket : time;                    (* the deadline of the socket *)
  clock : Z;
  exposed : list (Z * time * bool); (* timeouts that [ReadFrom] returned: time, requested, closed *)
}.

Definition new (now : Z) : deadline := mkDeadline None None None false false 0 [] None now [].

Definition setRequested (d : deadline) (t : time) : deadline :=
  mkDeadline t (forwarded d) (lastCall d) (timer d) (closed d) (generation d) (callbacks d) (socket d) (clock d) (exposed d).
Definition setTimer (d : deadline) (b : bool) (g : Z) (cs : list (Z * Z)) : deadline :=
  mkDeadline (requested d) (forwarded d) (lastCall d) b (closed d) g cs (socket d) (clock d) (exposed d).
Definition setForwarded (d : deadline) (t : time) : deadline :=
  mkDeadline (requested d) t (Some (clock d)) (timer d) (closed d) (generation d) (callbacks d) (socket d) (clock d) (exposed d).

(** [apply]. *)
Definition apply_ (d : deadline) (t : time) (err : option error) : deadline :=
  match err with
  | None => mkDeadline (requested d) (forwarded d) (lastCall d) (timer d) (closed d) (generation d) (callbacks d) t (clock d) (exposed d)
  | Some _ => d
  end.

(** ** Operations *)

Definition stopTimer (d : deadline) : deadline := if timer d then setTimer d false (generation d + 1) (callbacks d) else d.

(** A routine extension. *)
Definition routine (d : deadline) (t : time) : bool :=
  bool_decide (is_Some t) && After t (forwarded d) && After (forwarded d) (Some (clock d + 2 * Second)) && recent (clock d) (lastCall d).

Definition set_ (d : deadline) (t : time) (err : option error) : deadline * option error :=
  if closed d then (d, Some ErrNetClosed)
  else
    let d := setRequested d t in
    if routine d t then
      if timer d then (d, None)
      else
        let due := clock d + (Second - (clock d - default 0 (lastCall d))) in
        (setTimer d true (generation d + 1) ((generation d + 1, due) :: callbacks d), None)
    else
      let d := apply_ (stopTimer d) t err in
      match err with None => (setForwarded d t, None) | Some e => (d, Some e) end.

(** The timer's function. *)
Definition callback (d : deadline) (g : Z) (err : option error) : deadline :=
  if g =? generation d then
    let d := if closed d then d else setForwarded (apply_ d (requested d) err) (requested d) in
    setTimer d false (generation d) (callbacks d)
  else d.

(** [retryTimeout] for a local deadline error ([isDeadline]) or another one. *)
Definition retryTimeout (d : deadline) (isDeadline : bool) (err : option error) : deadline * bool :=
  if negb isDeadline then (d, false)
  else if closed d || (bool_decide (is_Some (requested d)) && negb (After (requested d) (Some (clock d)))) then (d, false)
  else
    let d := apply_ (stopTimer d) (requested d) err in
    match err with
    | Some _ => (d, false)
    | None => (setForwarded d (requested d), true)
    end.

(** [Close]. *)
Definition Close (d : deadline) : deadline :=
  mkDeadline (requested d) (forwarded d) (lastCall d) false true (generation d + 1) (callbacks d) (socket d) (clock d) (exposed d).

(** A round of [ReadFrom] whose read was ended by the socket's deadline. *)
Definition readTimeout (d : deadline) (err : option error) : deadline :=
  let '(d', again) := retryTimeout d true err in
  if again then d'
  else mkDeadline (requested d') (forwarded d') (lastCall d') (timer d') (closed d') (generation d') (callbacks d') (socket d') (clock d')
         ((clock d, requested d, closed d) :: exposed d').

(** ** Steps *)

Inductive event :=
  | ESet (t : time) (err : option error)
  | ECallback (g due : Z) (err : option error)
  | ERead (err : option error)
  | EClose
  | ETime (dt : Z).

Definition step (d : deadline) (e : event) : deadline :=
  match e with
  | ESet t err => fst (set_ d t err)
  | ECallback g due err => if bool_decide ((g, due) ∈ callbacks d) && (due <=? clock d) then callback d g err else d
  | ERead err => match socket d with Some s => if s <=? clock d then readTimeout d err else d | None => d end
  | EClose => Close d
  | ETime dt => mkDeadline (requested d) (forwarded d) (lastCall d) (timer d) (closed d) (generation d) (callbacks d) (socket d) (clock d + Z.max 0 dt) (exposed d)
  end.

Definition run (d : deadline) (es : list event) : deadline := foldl step d es.

(** ** Invariant *)

(** The socket takes every deadline. *)
Definition applies (e : event) : bool :=
  match e with ESet _ err | ECallback _ _ err | ERead err => bool_decide (err = None) | _ => true end.

(** The socket's deadline is the requested one, or an earlier one that a
    callback refreshes a second after it was set. *)
Definition synced (d : deadline) : Prop :=
  socket d = forwarded d /\
  if timer d then
    After (requested d) (forwarded d) = true /\ is_Some (forwarded d) /\
    exists last, lastCall d = Some last /\ (generation d, last + Second) ∈ callbacks d
  else requested d = forwarded d.

Definition inv (d : deadline) : Prop :=
  (closed d = false -> synced d) /\ (forall t r c, (t, r, c) ∈ exposed d -> c = true \/ exists x, r = Some x /\ x <= t).

Lemma inv_set d t : inv d -> inv (fst (set_ d t None)).
Proof.
  intros Hi. pose proof Hi as [Hs He]. unfold set_. destruct (closed d) eqn:Hc; [exact Hi|]. specialize (Hs eq_refl). destruct Hs as [Hf Ht]. cbn [apply_].
  destruct (routine _ _) eqn:Hr.
  - unfold routine in Hr. cbn [setRequested forwarded clock lastCall timer] in *. apply andb_true_iff in Hr as [Hr Hrec]. apply andb_true_iff in Hr as [Hr Hfar]. apply andb_true_iff in Hr as [_ Haft].
    destruct (timer d) eqn:Etm; (split; [intros _|exact He]); cbn [fst].
    + split; [done|]. cbn [setRequested timer]. rewrite Etm. destruct Ht as (_ & ? & ?). by split_and!.
    + split; [done|]. cbn [setTimer setRequested timer requested forwarded lastCall generation callbacks]. split_and!; [done| |].
      * destruct (forwarded d); [done|by destruct t].
      * destruct (lastCall d) as [last|]; [|done]. exists last. split; [done|]. replace (last + Second) with (clock d + (Second - (clock d - last))) by lia. left.
  - split; [|unfold stopTimer; cbn; by destruct (timer d)]. intros _. unfold stopTimer. cbn [fst setRequested timer]. by destruct (timer d) eqn:Etm; split; cbn; rewrite ?Etm.
Qed.

Lemma inv_callback d g : inv d -> inv (callback d g None).
Proof.
  intros Hi. pose proof Hi as [Hs He]. unfold callback. destruct (_ =? _); [|exact Hi]. destruct (closed d) eqn:Hc; (split; [|exact He]); [cbn; congruence|].
  intros _. by split.
Qed.

Lemma inv_read d : inv d -> inv (readTimeout d None).
Proof.
  intros [Hs He]. unfold readTimeout, retryTimeout. cbn [negb]. destruct (_ || _) eqn:Hx.
  - split; [exact Hs|]. cbn. intros t r c [[= -> -> ->]|Hi]%elem_of_cons; [|by apply He]. apply orb_true_iff in Hx as [?|Hx]; [by left|right].
    apply andb_true_iff in Hx as [Hx1 Hx]. apply bool_decide_eq_true in Hx1 as [x Hr]. rewrite Hr in *. exists x. split; [done|]. cbn in Hx. bool_to_prop. lia.
  - apply orb_false_iff in Hx as [Hc _]. split; [|unfold stopTimer; cbn; by destruct (timer d)]. intros _. unfold stopTimer. by destruct (timer d) eqn:Etm; split; cbn; rewrite ?Etm.
Qed.

Lemma dl_inv_step d e : inv d -> applies e = true -> inv (step d e).
Proof.
  intros Hi Ha. destruct e as [t err|g due err|err| |dt]; cbn [step applies] in *; rewrite ?bool_decide_eq_true in Ha; try subst err.
  - by apply inv_set.
  - destruct (_ && _); [by apply inv_callback|done].
  - destruct (socket d) as [s|]; [|done]. destruct (s <=? clock d); [by apply inv_read|done].
  - by destruct Hi as [_ He].
  - exact Hi.
Qed.

Lemma dl_inv_run now es : Forall (fun e => applies e = true) es -> inv (run (new now) es).
Proof.
  intros Hes. induction es as [|e es IH] using rev_ind.
  - split; [by intros _|]. cbn. set_solver.
  - apply Forall_app in Hes as [Hes He]. rewrite Forall_singleton in He. unfold run in *. rewrite foldl_app. by apply dl_inv_step; [apply IH|].
Qed.

(** ** Theorems *)

(** debouncing does not change what a reader sees.  While the connection is
    open the socket's deadline is the requested one, or earlier: then a refresh is
    under way that runs a second after the last one and sets it; so a read never
    outlives the requested deadline.  A timeout reaches the caller only when the
    requested deadline has passed, or after [Close]; and a read is repeated only
    with the requested deadline in force, which has not passed. *)
Theorem read_deadline (now : Z) (es : list event) :
  Forall (fun e => applies e = true) es ->
  let d := run (new now) es in
  (closed d = false ->
     socket d = requested d \/
     (After (requested d) (socket d) = true /\ is_Some (socket d) /\
      exists last, lastCall d = Some last /\ (generation d, last + Second) ∈ callbacks d /\
        forall e, last + Second <= clock d -> e = ECallback (generation d) (last + Second) None -> socket (step d e) = requested d)) /\
  (forall t r c, (t, r, c) ∈ exposed d -> c = true \/ exists x, r = Some x /\ x <= t) /\
  (forall d', retryTimeout d true None = (d', true) -> socket d' = requested d /\ forall x, socket d' = Some x -> clock d' < x).
Proof.
  intros Hes. cbv zeta. destruct (dl_inv_run now es Hes) as [Hs He]. set (d := run (new now) es) in *. clearbody d. split_and!; [|exact He|].
  - intros Hc. destruct (Hs Hc) as [Hf Ht]. destruct (timer d); [|left; congruence]. right. destruct Ht as (Ha & Hsome & last & Hl & Hcb). rewrite Hf. split_and!; [done|done|].
    exists last. split_and!; [done|done|]. intros e Hdue ->. cbn [step]. rewrite bool_decide_true by done. rewrite (proj2 (Z.leb_le _ _) Hdue). cbn [andb].
    unfold callback. rewrite Z.eqb_refl, Hc. done.
  - intros d'. unfold retryTimeout. cbn [negb]. destruct (_ || _) eqn:Hx; [done|]. intros [= <-].
    apply orb_false_iff in Hx as [Hc Hx]. split; [by unfold stopTimer; destruct (timer d)|]. intros x Hsx.
    assert (Hr : requested d = Some x) by (revert Hsx; unfold stopTimer; by destruct (timer d)). rewrite Hr in Hx. cbn in Hx. bool_to_prop.
    replace (clock _) with (clock d) by (unfold stopTimer; by destruct (timer d)). lia.
Qed.

(** ** Witness *)

(** An extension is held back, the socket's old deadline ends a read, which is repeated. *)
Definition held : list event :=
  [ESet (Some (10 * Second)) None; ETime 500000000; ESet (Some (11 * Second)) None; ETime (10 * Second); ERead None].

Lemma read_deadline_witness :
  socket (run (new 0) (take 4 held)) = Some (10 * Second) /\ requested (run (new 0) (take 4 held)) = Some (11 * Second) /\
  socket (run (new 0) held) = Some (11 * Second) /\ (forall t r c, (t, r, c) ∈ exposed (run (new 0) held) -> c = true \/ exists x, r = Some x /\ x <= t).
Proof.
  split; [vm_compute; reflexivity|]. split; [vm_compute; reflexivity|]. split; [vm_compute; reflexivity|].
  apply (read_deadline 0 held). repeat constructor.
Defined.
