(* ===== verification/H2Streams.v ===== *)
(** * TCP tunnels over HTTP/2: [h2TransportClient] and [rawH2Conn] of [pkg/client] (conn_tcp.go)

    The streams of one carrier: their registration, the counter of active streams
    that the pool and the autoscaler use, the contexts, [close] of the carrier and
    [Close] of a stream.  [DialContext] (client.go) and the health probe hold a
    reservation of the counter while they work.

    Dials, calls of [Close], calls of [close] and the goroutines of the context
    hooks run in any order; what the HTTP client returned is an argument of the
    step.  A dial makes at most one stream, so that both share its number. *)
From S2P Require Import Prelude GoNet.

Open Scope Z_scope.

(** ** State *)

Definition errH2Canceled := Errorf "context canceled".

(** A stream: none, open, and the parts of its [Close]: [closed] is swapped, it
    is deleted from [streams], the counter is decremented, the context is
    cancelled and both directions are closed. *)
Inductive connState := NoConn | COpen | CSwapped | CDeleted | CCounted | CDone.

#[export] Instance h2_connState_eq_dec : EqDecision connState.
Proof. solve_decision. Defined.

(** A dial with its attempt: at the first lock of [dialH2TCPOnce], in the request,
    at the second lock, closing a stream it may not register, waiting for the
    second attempt, releasing the reservation, returned. *)
Inductive stage :=
  | HTop (attempt : nat)
  | HRequest (attempt : nat)
  | HRegister (attempt : nat)
  | HRefused (attempt : nat)
  | HWait (err : error)
  | HFailed (err : error)
  | HReturned (res : option error).

Record dial := mkDial {
  d_stage : stage;
  d_caller : bool;              (* the caller's context is done *)
  d_hook : bool;                (* stopCancel not called *)
  d_fired : bool;               (* the hook's function has begun *)
  d_life : bool;                (* stopLifecycle not called *)
  d_ctx : bool;                 (* streamCtx is cancelled *)
  d_conn : connState;
  d_owned : bool;               (* conn.h2Client != nil *)
}.

(** A call of [close]: at the lock, at the next of its streams, in the [Close] of
    one, done; a second call. *)
Inductive closer :=
  | XLock
  | XStreams (snap : list nat)
  | XClosing (k : nat) (rest : list nat)
  | XDone
  | XSecond.

Record client := mkClient {
  closed : bool;                (* the lifetime is cancelled with it *)
  streams : gset nat;
  activeStreams : Z;
  probes : nat;                 (* health probes under way *)
  dials : list dial;
  closers : list closer;
}.

Definition newH2TransportClient : client := mkClient false ∅ 0 0 [] [].

Definition setStage (d : dial) (s : stage) : dial := mkDial s (d_caller d) (d_hook d) (d_fired d) (d_life d) (d_ctx d) (d_conn d) (d_owned d).
Definition setConn (d : dial) (s : connState) : dial := mkDial (d_stage d) (d_caller d) (d_hook d) (d_fired d) (d_life d) (d_ctx d) s (d_owned d).

(** [cancel()] of a stream. *)
Definition cancelStream (d : dial) : dial := mkDial (d_stage d) (d_caller d) (d_hook d) (d_fired d) false true (d_conn d) (d_owned d).

(** The caller's context ends; its hook begins. *)
Definition callerDone (d : dial) : dial := mkDial (d_stage d) true (d_hook d) (d_fired d || d_hook d) (d_life d) (d_ctx d) (d_conn d) (d_owned d).

(** The deferred [stopCancel()] when [dialH2TCPOnce] returns. *)
Definition stopCancel (d : dial) : dial := mkDial (d_stage d) (d_caller d) false (d_fired d) (d_life d) (d_ctx d) (d_conn d) (d_owned d).

Definition setStreams (c : client) (s : gset nat) : client := mkClient (closed c) s (activeStreams c) (probes c) (dials c) (closers c).
Definition addActive (c : client) (n : Z) : client := mkClient (closed c) (streams c) (activeStreams c + n) (probes c) (dials c) (closers c).
Definition put (c : client) (k : nat) (d : dial) : client := mkClient (closed c) (streams c) (activeStreams c) (probes c) (<[k := d]> (dials c)) (closers c).
Definition setCloser (c : client) (j : nat) (x : closer) : client := mkClient (closed c) (streams c) (activeStreams c) (probes c) (dials c) (<[j := x]> (closers c)).

(** ** Streams *)

(** [rawH2Conn.Close]: the first caller. *)
Definition beginClose (c : client) (k : nat) (d : dial) : client :=
  match d_conn d with COpen => put c k (setConn d CSwapped) | _ => c end.

(** The rest of it; a stream without a carrier skips the registration. *)
Definition closeStep (c : client) (k : nat) (d : dial) : client :=
  match d_conn d with
  | CSwapped => if d_owned d then put (setStreams c (streams c ∖ {[k]})) k (setConn d CDeleted) else put c k (setConn (cancelStream d) CDone)
  | CDeleted => put (addActive c (-1)) k (setConn d CCounted)
  | CCounted => put c k (setConn (cancelStream d) CDone)
  | NoConn | COpen | CDone => c
  end.

(** ** Dials *)

(** An attempt failed: [dialH2TCP] waits once, then gives up. *)
Definition attemptFailed (d : dial) (attempt : nat) (err : error) : dial :=
  stopCancel (setStage d (match attempt with O => HWait err | S _ => HFailed err end)).

Definition dialStep (c : client) (k : nat) (d : dial) (outcome : option error) : client :=
  match d_stage d with
  | HTop attempt =>
      if closed c then put c k (attemptFailed d attempt ErrNetClosed)
      else put c k (mkDial (HRequest attempt) (d_caller d) true (d_fired d || d_caller d) true false NoConn true)
  | HRequest attempt =>
      match outcome with
      | Some err => put c k (attemptFailed (cancelStream d) attempt err)
      | None => put c k (setStage (setConn d COpen) (HRegister attempt))
      end
  | HRegister attempt =>
      if closed c then put c k (mkDial (HRefused attempt) (d_caller d) (d_hook d) (d_fired d) (d_life d) (d_ctx d) (d_conn d) false)
      else put (setStreams c (streams c ∪ {[k]})) k (stopCancel (setStage d (HReturned None)))
  | HRefused attempt =>
      match d_conn d with
      | COpen => beginClose c k d
      | CDone => put c k (attemptFailed d attempt ErrNetClosed)
      | _ => c
      end
  | HWait err =>                (* the timer, or the caller's context *)
      match outcome with
      | Some _ => if d_caller d then put c k (setStage d (HFailed errH2Canceled)) else c
      | None => put c k (setStage d (HTop 1))
      end
  | HFailed err => put (addActive c (-1)) k (setStage d (HReturned (Some err)))
  | HReturned _ => c
  end.

(** The hooks of a stream's context. *)
Definition callerHook (c : client) (k : nat) (d : dial) : client := if d_fired d then put c k (cancelStream d) else c.
Definition lifeHook (c : client) (k : nat) (d : dial) : client := if d_life d && closed c then put c k (cancelStream d) else c.

(** ** The carrier *)

(** [pickBestH2Client] chose this carrier. *)
Definition newDial : dial := mkDial (HTop 0) false false false false false NoConn true.
Definition reserveDial (c : client) : client := mkClient (closed c) (streams c) (activeStreams c + 1) (probes c) (dials c ++ [newDial]) (closers c).
Definition beginProbe (c : client) : client := mkClient (closed c) (streams c) (activeStreams c + 1) (S (probes c)) (dials c) (closers c).
Definition endProbe (c : client) : client :=
  match probes c with S n => mkClient (closed c) (streams c) (activeStreams c - 1) n (dials c) (closers c) | O => c end.

(** [close]. *)
Definition closerStep (c : client) (j : nat) (x : closer) : client :=
  match x with
  | XLock =>
      if closed c then setCloser c j XSecond
      else setCloser (mkClient true (streams c) (activeStreams c) (probes c) (dials c) (closers c)) j (XStreams (elements (streams c)))
  | XStreams (k :: rest) =>
      match dials c !! k with
      | Some d => if bool_decide (d_conn d = COpen) then setCloser (beginClose c k d) j (XClosing k rest) else setCloser c j (XStreams rest)
      | None => setCloser c j (XStreams rest)
      end
  | XClosing k rest =>
      match dials c !! k with
      | Some d => if bool_decide (d_conn d = CDone) then setCloser c j (XStreams rest) else c
      | None => c
      end
  | XStreams [] => setCloser c j XDone
  | XDone | XSecond => c
  end.

(** ** Steps *)

Inductive event :=
  | EDial
  | EProbe
  | EProbeEnd
  | ECarrierClose
  | ECancel (k : nat)
  | EClose (k : nat)
  | EDialStep (k : nat) (outcome : option error)
  | ECallerHook (k : nat)
  | ELifeHook (k : nat)
  | ECloseStep (k : nat)
  | ECloser (j : nat).

Definition onDial (c : client) (k : nat) (f : dial -> client) : client := match dials c !! k with Some d => f d | None => c end.

Definition step (c : client) (e : event) : client :=
  match e with
  | EDial => reserveDial c
  | EProbe => beginProbe c
  | EProbeEnd => endProbe c
  | ECarrierClose => mkClient (closed c) (streams c) (activeStreams c) (probes c) (dials c) (closers c ++ [XLock])
  | ECancel k => onDial c k (fun d => put c k (callerDone d))
  | EClose k => onDial c k (fun d => match d_stage d with HReturned None => beginClose c k d | _ => c end)
  | EDialStep k outcome => onDial c k (fun d => dialStep c k d outcome)
  | ECallerHook k => onDial c k (callerHook c k)
  | ELifeHook k => onDial c k (lifeHook c k)
  | ECloseStep k => onDial c k (closeStep c k)
  | ECloser j => match closers c !! j with Some x => closerStep c j x | None => c end
  end.

Definition run (c : client) (es : list event) : client := foldl step c es.

(** ** Accounting *)

(** The reservation of a dial is held until it fails or its stream's [Close] has
    decremented the counter. *)
Definition holding (d : dial) : bool :=
  match d_stage d with
  | HReturned (Some _) => false
  | HReturned None => match d_conn d with CCounted | CDone => false | _ => true end
  | _ => true
  end.

Definition reservations (ds : list dial) : Z := len (filter (fun d => holding d = true) ds).

Definition b2z (b : bool) : Z := if b then 1 else 0.

Lemma reservations_cons d ds : reservations (d :: ds) = b2z (holding d) + reservations ds.
Proof. unfold reservations. rewrite filter_cons. destruct (holding d); cbn; [rewrite decide_True by done; cbn; lia|rewrite decide_False by done; lia]. Qed.

Lemma reservations_insert ds k d d' : ds !! k = Some d -> reservations (<[k := d']> ds) = reservations ds - b2z (holding d) + b2z (holding d').
Proof.
  revert k. induction ds as [|x ds IH]; intros k; [done|]. destruct k as [|k].
  - intros [= ->]. cbn [insert list_insert]. rewrite !reservations_cons. lia.
  - intros H. change (<[S k := d']> (x :: ds)) with (x :: <[k := d']> ds). rewrite !reservations_cons, (IH k H). lia.
Qed.

Lemma reservations_snoc ds d : reservations (ds ++ [d]) = reservations ds + b2z (holding d).
Proof. induction ds as [|x ds IH]; [change ([] ++ [d]) with (d :: []); rewrite reservations_cons; change (reservations []) with 0; lia|]. cbn [app]. rewrite !reservations_cons, IH. lia. Qed.

Definition balanced (c : client) : Prop := activeStreams c = reservations (dials c) + Z.of_nat (probes c).

Lemma balanced_put c k d d' n :
  balanced c -> dials c !! k = Some d -> n = b2z (holding d') - b2z (holding d) -> balanced (put (addActive c n) k d').
Proof. unfold balanced. intros Hb Hk ->. cbn [put addActive activeStreams probes dials]. rewrite (reservations_insert _ _ _ _ Hk). lia. Qed.

(** ** Invariant *)

Definition inSnap (x : closer) (k : nat) : Prop := match x with XStreams rest | XClosing _ rest => k ∈ rest | _ => False end.

Definition stageOk (c : client) (k : nat) (d : dial) : Prop :=
  match d_stage d with
  | HTop _ | HWait _ | HFailed _ | HReturned (Some _) => d_conn d = NoConn \/ d_conn d = CDone
  | HRequest _ => d_conn d = NoConn /\ d_owned d = true /\ (d_ctx d = true -> closed c = true \/ d_fired d = true)
  | HRegister _ => d_conn d = COpen /\ d_owned d = true /\ (d_ctx d = true -> closed c = true \/ d_fired d = true)
  | HRefused _ => closed c = true /\ d_owned d = false /\ (d_conn d = COpen \/ d_conn d = CSwapped \/ d_conn d = CDone)
  | HReturned None =>
      d_owned d = true /\ d_conn d <> NoConn /\ d_hook d = false /\
      (d_conn d = COpen -> k ∈ streams c /\ (closed c = false \/ exists j x, closers c !! j = Some x /\ inSnap x k)) /\
      (d_ctx d = true -> d_conn d = CDone \/ closed c = true \/ d_fired d = true)
  end.

Definition dialOk (c : client) (k : nat) (d : dial) : Prop :=
  stageOk c k d /\ (k ∈ streams c -> d_stage d = HReturned None /\ (d_conn d = COpen \/ d_conn d = CSwapped)) /\
  (d_fired d = true -> d_caller d = true).

Definition first (x : closer) : bool := match x with XStreams _ | XClosing _ _ | XDone => true | _ => false end.

Record inv (c : client) : Prop := {
  iv_balanced : balanced c;
  iv_dials : forall k d, dials c !! k = Some d -> dialOk c k d;
  iv_streams : forall k, k ∈ streams c -> is_Some (dials c !! k);
  iv_snap : forall j x k, closers c !! j = Some x -> inSnap x k -> exists d, dials c !! k = Some d /\ d_stage d = HReturned None;
  iv_first : forall j x, closers c !! j = Some x -> first x = true -> closed c = true;
  iv_one : forall i j x y, closers c !! i = Some x -> closers c !! j = Some y -> first x = true -> first y = true -> i = j;
}.

Lemma lookup_dial (l : list dial) k d j d' : <[k := d]> l !! j = Some d' -> (j = k /\ d' = d) \/ (j <> k /\ l !! j = Some d').
Proof.
  destruct (decide (k = j)) as [<-|Hne]; [|rewrite list_lookup_insert_ne by done; auto].
  intros H. left. pose proof (lookup_lt_Some _ _ _ H) as Hl. rewrite length_insert in Hl. rewrite list_lookup_insert_eq in H by done. by injection H as <-.
Qed.

Lemma h2_dialOk_keeps c c' k d : (k ∈ streams c' <-> k ∈ streams c) -> closed c' = closed c -> closers c' = closers c -> dialOk c k d -> dialOk c' k d.
Proof.
  intros Hs Hc Hx (A & B & C). split; [|split; [by rewrite Hs|done]]. unfold stageOk in *. destruct (d_stage d) as [| | | | | |[]]; rewrite ?Hc; try done. by rewrite Hs, Hx.
Qed.

(** A step of a dial: the counter moves with its reservation, the set only in
    its own number. *)
Lemma h2_inv_put c k d d' n s :
  inv c -> dials c !! k = Some d -> n = b2z (holding d') - b2z (holding d) -> (forall j, j <> k -> j ∈ s <-> j ∈ streams c) ->
  dialOk (mkClient (closed c) s (activeStreams c) (probes c) (dials c) (closers c)) k d' ->
  (d_stage d = HReturned None -> d_stage d' = HReturned None) -> inv (put (addActive (setStreams c s) n) k d').
Proof.
  intros [H1 H2 H3 H0 H4 H5] Hk Hn Hs Hd Hret. split; cbn [put addActive setStreams closed streams activeStreams probes dials closers]; try done.
  - by apply (balanced_put (setStreams c s) k d d' n).
  - intros j d'' [[-> ->]|[Hne Hj]]%lookup_dial; [exact Hd|]. apply (h2_dialOk_keeps c); [by apply Hs|done|done|by apply H2].
  - intros j Hj. destruct (decide (j = k)) as [->|Hne]; [rewrite list_lookup_insert_eq; [done|by eapply lookup_lt_Some]|].
    rewrite list_lookup_insert_ne by done. apply H3. by apply Hs.
  - intros j x i Hj Hx. destruct (H0 j x i Hj Hx) as (e & He & Hst). destruct (decide (i = k)) as [->|Hne]; [|rewrite list_lookup_insert_ne by done; eauto].
    exists d'. rewrite list_lookup_insert_eq by (by eapply lookup_lt_Some). split; [done|]. apply Hret. congruence.
Qed.

Lemma h2_inv_put_same c k d d' :
  inv c -> dials c !! k = Some d -> holding d' = holding d -> dialOk c k d' -> (d_stage d = HReturned None -> d_stage d' = HReturned None) -> inv (put c k d').
Proof.
  intros Hi Hk Hh Hd Hret. pose proof (h2_inv_put c k d d' 0 (streams c) Hi Hk) as H. unfold put, addActive, setStreams in H |- *. cbn in H |- *. rewrite Z.add_0_r in H.
  apply H; [rewrite Hh; lia|done|exact Hd|exact Hret].
Qed.

Lemma h2_inv_beginClose c k d : inv c -> dials c !! k = Some d -> (forall a, d_stage d <> HRegister a) -> inv (beginClose c k d).
Proof.
  intros Hi Hk Hg. unfold beginClose. destruct (d_conn d) eqn:Hc; try done. destruct (iv_dials _ Hi _ _ Hk) as (A & B & C).
  unfold stageOk in A. destruct (d_stage d) as [| |a|a| | |[]] eqn:Hs; rewrite Hc in A; try (by destruct A); try (by destruct (Hg a)); try done.
  - apply (h2_inv_put_same c k d); [done|done|unfold holding; cbn; by rewrite Hs| |done]. split_and!; [unfold stageOk; cbn; rewrite Hs; naive_solver|intros Hin; by destruct (B Hin)|done].
  - apply (h2_inv_put_same c k d); [done|done|unfold holding; cbn; by rewrite ?Hs, ?Hc| |done]. split_and!; [unfold stageOk; cbn; rewrite Hs; naive_solver|intros _; cbn; auto|done].
Qed.

Lemma h2_inv_closeStep c k d : inv c -> dials c !! k = Some d -> inv (closeStep c k d).
Proof.
  intros Hi Hk. unfold closeStep. destruct (iv_dials _ Hi _ _ Hk) as (A & B & C). unfold stageOk in A. destruct (d_conn d) eqn:Hc; try done.
  - destruct (d_owned d) eqn:Ho; destruct (d_stage d) as [| |a|a| | |[]] eqn:Hs; try (by destruct A as [?|?]); try (by destruct A as [? ?]); try (by destruct A as (? & ? & ?)); try done.
    + pose proof (h2_inv_put c k d (setConn d CDeleted) 0 (streams c ∖ {[k]}) Hi Hk) as H. unfold put, addActive, setStreams in H |- *. cbn in H |- *. rewrite Z.add_0_r in H. apply H.
      * unfold holding. cbn. by rewrite ?Hs, ?Hc.
      * set_solver.
      * split_and!; [|cbn; set_solver|done]. unfold stageOk. cbn. rewrite Hs. naive_solver.
      * done.
    + apply (h2_inv_put_same c k d); [done|done|unfold holding; cbn; by rewrite Hs| |done]. split_and!; [unfold stageOk; cbn; rewrite Hs; naive_solver|intros Hin; by destruct (B Hin)|done].
  - destruct (d_stage d) as [| |a|a| | |[]] eqn:Hs; try (by destruct A as [?|?]); try (by destruct A as [? ?]); try done; try (destruct A as (_ & _ & [?|[?|?]]); done).
    pose proof (h2_inv_put c k d (setConn d CCounted) (-1) (streams c) Hi Hk) as H. unfold put, addActive, setStreams in H |- *. cbn in H |- *. apply H.
    + unfold holding. cbn. by rewrite ?Hs, ?Hc.
    + done.
    + split_and!; [unfold stageOk; cbn; rewrite Hs; naive_solver| |done]. intros Hin. destruct (B Hin) as [_ [?|?]]; done.
    + done.
  - destruct (d_stage d) as [| |a|a| | |[]] eqn:Hs; try (by destruct A as [?|?]); try (by destruct A as [? ?]); try done; try (destruct A as (_ & _ & [?|[?|?]]); done).
    apply (h2_inv_put_same c k d); [done|done|unfold holding; cbn; by rewrite ?Hs, ?Hc| |done].
    split_and!; [unfold stageOk; cbn; rewrite Hs; naive_solver| |done]. intros Hin. destruct (B Hin) as [_ [?|?]]; done.
Qed.

Lemma notIn c k d : inv c -> dials c !! k = Some d -> d_stage d <> HReturned None -> k ∉ streams c.
Proof. intros Hi Hk Hs Hin. destruct (iv_dials _ Hi _ _ Hk) as (_ & B & _). by destruct (B Hin). Qed.

Definition under (d : dial) : bool := match d_stage d with HReturned _ => false | _ => true end.

(** A step of a dial that is under way and stays so. *)
Lemma h2_inv_move c k d d' :
  inv c -> dials c !! k = Some d -> under d = true -> under d' = true -> stageOk c k d' -> (d_fired d' = true -> d_caller d' = true) -> inv (put c k d').
Proof.
  intros Hi Hk Hs Hs' Hok Hf. unfold under in *. apply (h2_inv_put_same c k d); [done|done| | |intros E; by rewrite E in Hs].
  - unfold holding. by destruct (d_stage d), (d_stage d').
  - split_and!; [done| |done]. intros Hin. apply (notIn c k d Hi Hk) in Hin; [done|]. intros E. by rewrite E in Hs.
Qed.

Lemma h2_inv_dialStep c k d outcome : inv c -> dials c !! k = Some d -> inv (dialStep c k d outcome).
Proof.
  intros Hi Hk. destruct (iv_dials _ Hi _ _ Hk) as (A & B & C). unfold dialStep, stageOk in *. destruct (d_stage d) as [a|a|a|a|err|err|res] eqn:Hs.
  - assert (Hu : under d = true) by (unfold under; by rewrite Hs). destruct (closed c) eqn:Hc; [by destruct a; apply (h2_inv_move c k d)|].
    apply (h2_inv_move c k d); try done. cbn. intros Hf. by apply orb_true_iff in Hf as [?|?]; auto.
  - assert (Hu : under d = true) by (unfold under; by rewrite Hs). destruct A as (Hco & Ho & Hx).
    destruct outcome as [err|]; [destruct a; apply (h2_inv_move c k d); try done; by left|by apply (h2_inv_move c k d)].
  - destruct A as (Hco & Ho & Hx). destruct (closed c) eqn:Hc.
    + apply (h2_inv_move c k d); try done; [unfold under; by rewrite Hs|]. unfold stageOk. cbn. auto.
    + pose proof (h2_inv_put c k d (stopCancel (setStage d (HReturned None))) 0 (streams c ∪ {[k]}) Hi Hk) as H. unfold put, addActive, setStreams in H |- *. cbn in H |- *. rewrite Z.add_0_r in H. rewrite Hc in *. apply H.
      * unfold holding. cbn. by rewrite Hs, Hco.
      * set_solver.
      * split_and!; [|intros _; split; [done|by left]|done]. unfold stageOk. cbn. rewrite Hco. split_and!; try done; [intros _; split; [set_solver|by left]|].
        intros Hctx. destruct (Hx Hctx); auto.
      * done.
  - destruct A as (Hcl & Ho & A). destruct (d_conn d) eqn:Hco; try done; [by apply h2_inv_beginClose; [..|congruence]|].
    assert (Hu : under d = true) by (unfold under; by rewrite Hs). destruct a; apply (h2_inv_move c k d); try done; by right.
  - destruct outcome as [e|]; [destruct (d_caller d) eqn:Hca; [|done]|]; (apply (h2_inv_move c k d); try done; unfold under; by rewrite Hs).
  - pose proof (h2_inv_put c k d (setStage d (HReturned (Some err))) (-1) (streams c) Hi Hk) as H. unfold put, addActive, setStreams in H |- *. cbn in H |- *. apply H.
    + unfold holding. cbn. by rewrite Hs.
    + done.
    + split_and!; [done| |done]. intros Hin. by destruct (B Hin).
    + by rewrite Hs.
  - done.
Qed.

(** A step that touches only the contexts. *)
Lemma inv_ctx c k d d' :
  inv c -> dials c !! k = Some d -> d_stage d' = d_stage d -> d_conn d' = d_conn d -> d_owned d' = d_owned d -> d_hook d' = d_hook d ->
  (d_fired d = true -> d_fired d' = true) -> (d_fired d' = true -> d_caller d' = true) ->
  (d_ctx d' = true -> d_ctx d = true \/ closed c = true \/ d_fired d' = true) -> inv (put c k d').
Proof.
  intros Hi Hk Es Ec Eo Eh Hf Hf' Hx. destruct (iv_dials _ Hi _ _ Hk) as (A & B & C). apply (h2_inv_put_same c k d); [done|done|unfold holding; by rewrite Es, Ec| |by rewrite Es].
  split_and!; [|by rewrite Es, Ec|done]. unfold stageOk in *. rewrite Es, Ec, Eo, Eh. destruct (d_stage d) as [| | | | | |[]]; try done.
  - destruct A as (? & ? & A). split_and!; try done. intros Hn. destruct (Hx Hn) as [Hn'|[?|?]]; auto. destruct (A Hn'); auto.
  - destruct A as (? & ? & A). split_and!; try done. intros Hn. destruct (Hx Hn) as [Hn'|[?|?]]; auto. destruct (A Hn'); auto.
  - destruct A as (? & ? & ? & ? & A). split_and!; try done. intros Hn. destruct (Hx Hn) as [Hn'|[?|?]]; auto. destruct (A Hn') as [?|[?|?]]; auto.
Qed.

Lemma inv_hooks c k d : inv c -> dials c !! k = Some d -> inv (callerHook c k d) /\ inv (lifeHook c k d) /\ inv (put c k (callerDone d)).
Proof.
  intros Hi Hk. destruct (iv_dials _ Hi _ _ Hk) as (A & B & C). split_and!.
  - unfold callerHook. destruct (d_fired d) eqn:Hf; [|done]. apply (inv_ctx c k d); cbn; auto.
  - unfold lifeHook. destruct (_ && _) eqn:Hf; [|done]. apply andb_true_iff in Hf as [_ Hf]. apply (inv_ctx c k d); cbn; auto.
  - apply (inv_ctx c k d); cbn; auto. by intros ->.
Qed.

(** A step of a call of [close] that leaves the dials alone. *)
Lemma inv_setCloser c j x y cl :
  inv c -> closers c !! j = Some x -> (closed c = true -> cl = true) -> (first y = true -> cl = true) -> (first x = true \/ closed c = false \/ first y = false) ->
  (forall k d, dials c !! k = Some d -> d_stage d = HReturned None -> d_conn d = COpen -> k ∈ streams c -> closed c = false \/ inSnap x k -> cl = false \/ inSnap y k) ->
  (forall k, inSnap y k -> k ∈ streams c \/ inSnap x k) ->
  inv (setCloser (mkClient cl (streams c) (activeStreams c) (probes c) (dials c) (closers c)) j y).
Proof.
  intros [H0 H1 H2 H5 H3 H4] Hj Hcl Hy Hf Hs Hsy'. pose proof (lookup_lt_Some _ _ _ Hj) as Hlt.
  assert (Hlk : forall i z, <[j := y]> (closers c) !! i = Some z -> (i = j /\ z = y) \/ (i <> j /\ closers c !! i = Some z)).
  { intros i z. destruct (decide (j = i)) as [<-|Hne]; [rewrite list_lookup_insert_eq by done; intros [= <-]; auto|rewrite list_lookup_insert_ne by done; auto]. }
  split; try done; cbn [setCloser closers dials closed streams].
  - intros k d Hk. destruct (H1 k d Hk) as (A & B & C). split_and!; try done. unfold stageOk in *. cbn [setCloser closers closed streams].
    destruct (d_stage d) as [| | | | | |[]] eqn:Hst; try done.
    { destruct A as (? & ? & A). split_and!; try done. intros Hn. destruct (A Hn); auto. }
    { destruct A as (? & ? & A). split_and!; try done. intros Hn. destruct (A Hn); auto. }
    { destruct A as (? & ? & A). split_and!; auto. }
    destruct A as (? & ? & ? & A & A'). split_and!; try done; [|intros Hn; destruct (A' Hn) as [?|[?|?]]; auto]. intros Hc. destruct (A Hc) as [Hin Ho]. split; [done|].
    assert (Hsy : cl = false \/ inSnap y k -> cl = false \/ exists j0 x0, <[j := y]> (closers c) !! j0 = Some x0 /\ inSnap x0 k).
    { intros [?|?]; [by left|right]. exists j, y. by rewrite list_lookup_insert_eq. }
    destruct Ho as [Ho|(i & z & Hi & Hz)]; [apply Hsy, (Hs k d); auto|]. destruct (decide (i = j)) as [->|Hne].
    + rewrite Hj in Hi. injection Hi as <-. apply Hsy, (Hs k d); auto.
    + right. exists i, z. by rewrite list_lookup_insert_ne.
  - intros i z k [[-> ->]|[Hne Hi]]%Hlk Hz; [|by apply (H5 i z)]. destruct (Hsy' k Hz) as [Hk|?]; [|by apply (H5 j x)].
    destruct (H2 k Hk) as [d Hd]. destruct (H1 k d Hd) as (_ & B & _). destruct (B Hk). eauto.
  - intros i z [[-> ->]|[Hne Hi]]%Hlk Hz; [by apply Hy|]. apply Hcl. by apply (H3 i z).
  - intros i i' z z' [[-> ->]|[Hne Hi]]%Hlk [[-> ->]|[Hne' Hi']]%Hlk Fz Fz'; [done| | |by apply (H4 i i' z z')].
    + destruct Hf as [Fx|[Hcf|?]]; [by apply (H4 j i' x z')| |congruence]. specialize (H3 _ _ Hi' Fz'). congruence.
    + destruct Hf as [Fx|[Hcf|?]]; [by apply (H4 i j z x)| |congruence]. specialize (H3 _ _ Hi Fz). congruence.
Qed.

Lemma client_eta c : c = mkClient (closed c) (streams c) (activeStreams c) (probes c) (dials c) (closers c).
Proof. by destruct c. Qed.

(** A call of [close] goes on with fewer streams. *)
Lemma inv_next c j x y :
  inv c -> closers c !! j = Some x -> first x = true ->
  (forall k d, dials c !! k = Some d -> d_conn d = COpen -> inSnap x k -> inSnap y k) -> (forall k, inSnap y k -> inSnap x k) -> inv (setCloser c j y).
Proof.
  intros Hi Hj Hx Hs Hs'. pose proof (iv_first _ Hi _ _ Hj Hx) as Hc. rewrite (client_eta c). apply (inv_setCloser c j x); auto.
  intros k d Hk _ Ho _ [?|?]; [by left|right; eauto].
Qed.

Lemma h2_inv_closerStep c j x : inv c -> closers c !! j = Some x -> inv (closerStep c j x).
Proof.
  intros Hi Hj. pose proof (iv_first _ Hi _ _ Hj) as Hf. unfold closerStep. destruct x as [|[|k rest]|k rest| |]; try done.
  - destruct (closed c) eqn:Hc.
    + rewrite (client_eta c). apply (inv_setCloser c j XLock); rewrite ?Hc; auto.
    + apply (inv_setCloser c j XLock); auto.
      * intros k d _ _ _ Hin _. right. by apply elem_of_elements.
      * intros k Hk. left. by apply elem_of_elements.
  - apply (inv_next c j (XStreams [])); try done. intros k d _ _ Hk. by apply elem_of_nil in Hk.
  - assert (Hrest : (forall d, dials c !! k = Some d -> d_conn d <> COpen) -> inv (setCloser c j (XStreams rest))).
    { intros Hn. apply (inv_next c j (XStreams (k :: rest))); try done; [|intros i Hi'; by right].
      intros i d' Hd' Hc' [->|?]%elem_of_cons; [|done]. by apply Hn in Hc'. }
    destruct (dials c !! k) as [d|] eqn:Hk; [|apply Hrest; congruence]. case_bool_decide as Hc; [|apply Hrest; congruence].
    destruct (iv_snap _ Hi j _ k Hj) as (e & He & Hst); [by left|]. rewrite Hk in He. injection He as <-.
    assert (Hb : inv (beginClose c k d)) by (apply h2_inv_beginClose; [done|done|congruence]).
    apply (inv_next _ j (XStreams (k :: rest))); try done.
    + unfold beginClose. by rewrite Hc.
    + intros i d' Hd' Hc' [->|?]%elem_of_cons; [|done]. exfalso. revert Hd'. unfold beginClose. rewrite Hc. cbn. rewrite list_lookup_insert_eq by (by eapply lookup_lt_Some).
      intros [= <-]. done.
    + intros i Hi'. by right.
  - destruct (dials c !! k) as [d|] eqn:Hk; [|done]. case_bool_decide; [|done]. apply (inv_next c j (XClosing k rest)); done.
Qed.

Lemma h2_inv_step c e : inv c -> inv (step c e).
Proof.
  intros Hi. destruct e as [| | | |k|k|k outcome|k|k|k|j]; cbn [step]; unfold onDial; try (destruct (dials c !! k) as [d|] eqn:Hk; [|done]).
  - destruct Hi as [H0 H1 H2 H5 H3 H4]. split; cbn [reserveDial dials closers closed streams]; try done.
    + unfold balanced in *. cbn. rewrite reservations_snoc, H0. cbn. lia.
    + intros k d [Hk|[Hk Hd]]%lookup_app_Some; [exact (H1 k d Hk)|]. apply list_lookup_singleton_Some in Hd as [E <-]. split_and!; [by left| |done].
      cbn. intros Hin. destruct (H2 k Hin) as [d Hd]. apply lookup_lt_Some in Hd. lia.
    + intros k Hin. destruct (H2 k Hin) as [d Hd]. exists d. by apply lookup_app_l_Some.
    + intros j x k Hj Hx. destruct (H5 j x k Hj Hx) as (d & Hd & ?). exists d. split; [by apply lookup_app_l_Some|done].
  - destruct Hi as [H0 H1 H2 H5 H3 H4]. split; try done. unfold balanced in *. cbn. lia.
  - unfold endProbe. destruct (probes c) eqn:Hp; [done|]. destruct Hi as [H0 H1 H2 H5 H3 H4]. split; try done. unfold balanced in *. cbn. lia.
  - destruct Hi as [H0 H1 H2 H5 H3 H4].
    assert (Hl : forall j x, (closers c ++ [XLock]) !! j = Some x -> closers c !! j = Some x \/ x = XLock).
    { intros j x [?|[_ Hx]]%lookup_app_Some; [by left|]. apply list_lookup_singleton_Some in Hx as [_ <-]. by right. }
    split; cbn [dials closers closed streams]; try done.
    + intros k d Hk. destruct (H1 k d Hk) as (A & B & C). split_and!; try done. unfold stageOk in *. destruct (d_stage d) as [| | | | | |[]]; try done.
      destruct A as (? & ? & ? & A & A'). split_and!; try done. intros Hc. destruct (A Hc) as [? [?|(j & x & Hj & Hx)]]; cbn; split; auto.
      right. exists j, x. split; [by apply lookup_app_l_Some|done].
    + intros j x k [Hj| ->]%Hl Hx; [by apply (H5 j x)|done].
    + intros j x [Hj| ->]%Hl Hx; [by apply (H3 j x)|done].
    + intros i j x y [?| ->]%Hl [?| ->]%Hl; try done. by apply H4.
  - by apply inv_hooks.
  - destruct (d_stage d) as [| | | | | |[]] eqn:Hs; try done. apply h2_inv_beginClose; congruence.
  - by apply h2_inv_dialStep.
  - by apply inv_hooks.
  - by apply inv_hooks.
  - by apply h2_inv_closeStep.
  - destruct (closers c !! j) eqn:Hj; [by apply h2_inv_closerStep|done].
Qed.

Lemma h2_inv_run es : inv (run newH2TransportClient es).
Proof.
  induction es as [|e es IH] using rev_ind; [|unfold run in *; rewrite foldl_app; by apply h2_inv_step].
  by split.
Qed.

(** ** Theorems *)

(** C25: the counter of active streams is exact, whatever fails, is retried, refused
    or closed twice: it is the number of dials under way, of streams whose [Close]
    has not counted down yet, and of probes under way; so it never goes below zero
    and comes back to zero.  The carrier knows exactly the streams that are open,
    or that have just begun to close. *)
Theorem h2_active_streams (es : list event) :
  let c := run newH2TransportClient es in
  activeStreams c = len (filter (fun d => holding d = true) (dials c)) + Z.of_nat (probes c) /\
  (forall k d, dials c !! k = Some d ->
     (k ∈ streams c -> d_stage d = HReturned None /\ (d_conn d = COpen \/ d_conn d = CSwapped)) /\
     (d_stage d = HReturned None -> d_conn d = COpen -> k ∈ streams c)).
Proof.
  cbv zeta. pose proof (h2_inv_run es) as Hi. split; [apply (iv_balanced _ Hi)|]. intros k d Hk. destruct (iv_dials _ Hi _ _ Hk) as (A & B & _). split; [exact B|].
  intros Hs Hc. unfold stageOk in A. rewrite Hs in A. destruct A as (_ & _ & _ & A & _). by apply A.
Qed.

(** once [close] of a carrier has returned no stream of it is open, and a dial
    that gets its stream afterwards does not hand it out. *)
Theorem h2_carrier_closed (es : list event) (j : nat) :
  closers (run newH2TransportClient es) !! j = Some XDone ->
  forall k d, dials (run newH2TransportClient es) !! k = Some d ->
  (d_stage d = HReturned None -> d_conn d <> COpen) /\
  (forall a, d_stage d = HRegister a -> exists d', dials (dialStep (run newH2TransportClient es) k d None) !! k = Some d' /\ d_stage d' = HRefused a /\ d_owned d' = false).
Proof.
  intros Hj k d Hk. pose proof (h2_inv_run es) as Hi. set (c := run newH2TransportClient es) in *. clearbody c. pose proof (iv_first _ Hi _ _ Hj eq_refl) as Hcl.
  destruct (iv_dials _ Hi _ _ Hk) as (A & B & _). unfold stageOk in A. split.
  - intros Hs Hc. rewrite Hs in A. destruct A as (_ & _ & _ & A & _). destruct (A Hc) as [_ [?|(i & x & Hx & Hin)]]; [congruence|].
    destruct (decide (first x = true)) as [Hfx|Hfx]; [|by destruct x]. pose proof (iv_one _ Hi _ _ _ _ Hx Hj Hfx eq_refl) as ->. rewrite Hj in Hx. by injection Hx as <-.
  - intros a Hs. unfold dialStep. rewrite Hs, Hcl. eexists. cbn. rewrite list_lookup_insert_eq by (by eapply lookup_lt_Some). done.
Qed.

(** the context of a handed-out stream is cancelled only by its [Close], by
    [close] of the carrier, or by the caller's context when it ended during the
    dial; afterwards the caller's context does not matter. *)
Theorem h2_stream_context (es : list event) (k : nat) (d : dial) :
  dials (run newH2TransportClient es) !! k = Some d -> d_stage d = HReturned None ->
  (d_ctx d = true -> d_conn d = CDone \/ closed (run newH2TransportClient es) = true \/ d_fired d = true) /\
  d_fired (callerDone d) = d_fired d.
Proof.
  intros Hk Hs. destruct (iv_dials _ (h2_inv_run es) _ _ Hk) as (A & _ & _). unfold stageOk in A. rewrite Hs in A. destruct A as (_ & _ & Hh & _ & A).
  split; [exact A|]. cbn. rewrite Hh. apply orb_false_r.
Qed.

(** ** Witnesses *)

Definition oneStream : list event := [EDial; EDialStep 0 None; EDialStep 0 None; EDialStep 0 None].

(** The carrier is closed while a second dial is in its request. *)
Definition closedCarrier : list event :=
  oneStream ++ [EDial; EDialStep 1 None; ECarrierClose; ECloser 0; ECloser 0; ECloseStep 0; ECloseStep 0; ECloseStep 0; ECloser 0; ECloser 0; EDialStep 1 None].

Lemma h2_carrier_closed_witness :
  d_conn <$> (dials (run newH2TransportClient closedCarrier) !! 0%nat) = Some CDone /\
  exists d', dials (dialStep (run newH2TransportClient closedCarrier) 1 (mkDial (HRegister 0) false true false true false COpen true) None) !! 1%nat = Some d' /\ d_stage d' = HRefused 0 /\ d_owned d' = false.
Proof.
  split; [vm_compute; reflexivity|]. apply (h2_carrier_closed closedCarrier 0); vm_compute; reflexivity.
Defined.

Lemma h2_stream_context_witness :
  let d := mkDial (HReturned None) false false false true false COpen true in
  dials (run newH2TransportClient oneStream) !! 0%nat = Some d /\ d_fired (callerDone d) = d_fired d.
Proof.
  cbv zeta. split; [vm_compute; reflexivity|]. apply (h2_stream_context oneStream 0); vm_compute; reflexivity.
Defined.

(** A dial whose caller gives up just before the stream is registered returns
    it without an error, and the hook that has begun cancels it: unlike
    [rawOpening.establish] and [h3DialLifetime.establish], [dialH2TCPOnce] does not
    look at the context again.  The carrier is open, and nobody closed the stream. *)
Lemma h2_returns_cancelled :
  let c := run newH2TransportClient [EDial; EDialStep 0 None; EDialStep 0 None; ECancel 0; EDialStep 0 None; ECallerHook 0] in
  closed c = false /\ dials c !! 0%nat = Some (mkDial (HReturned None) true false true false true COpen true).
Proof. vm_compute. split; reflexivity. Qed.
