(* ===== verification/VirtualConn.v ===== *)
(** * The packet connection below HTTP/3 of the Xray inbound: [virtualPacketConn]
    (integration/xray/inbound.go)

    Xray hands the inbound one connection per UDP peer; their packets are fed into
    one queue from which quic-go reads, and answers go to the connection that is
    registered for the peer.  The queue is bounded by its length and by bytes, the
    bytes of all such connections together by a shared counter.

    Feeders, readers, writers, registrations and calls of [Close] run in any order;
    a step is the code between two points where another goroutine can come in: the
    atomic counters are read and changed one at a time, as in the code.  What
    [registerConn], [unregisterConn] and [WriteTo] do behind [mu] is one step; of what
    they look at only [closed] changes outside of [mu], once, and [Close] looks at the
    table behind [mu] after that.  The [connio.Writer] of a peer is a number
    ([ConnioWriter] models it), a [WriteTo] without an error is a call of its
    [WritePacket].  Write deadlines, the contexts of peers and the answers of
    [WriteTo] to a nil address are left out. *)
From S2P Require Import Prelude GoNet.

Open Scope Z_scope.

(** ** State *)

Definition item : Type := list byte * gostring.
Definition cost (it : item) : Z := len (fst it) + 64.

Definition recvCap : Z := 8192.
Definition connLimit : Z := 16 * 2 ^ 20.
Definition virtualLimit : Z := 64 * 2 ^ 20.

Inductive stage :=
  (* feed: at feedMu, behind it, at [reserveVirtualBytes], at [queuedBytes.Add], at the queue, taking both back *)
  | FLock (it : item)
  | FAdmit (it : item)
  | FReserve (it : item)
  | FAdd (it : item)
  | FSend (it : item)
  | FUndo (it : item)
  | FUndoVirtual (it : item)
  (* ReadFrom: at the top of its loop, at its select, with a packet, before the shared counter, returned *)
  | RTop
  | RSelect (dl : option Z) (ver : nat)
  | RTook (it : item)
  | RVirtual (it : item)
  | RDone (res : result item)
  (* Close: at feedMu, draining, with a packet, before the shared counter, at the table, closing writers, returned *)
  | XLock
  | XDrain
  | XDrop (it : item)
  | XDropVirtual (it : item)
  | XTable
  | XWriters (ws : list nat)
  | XDone
  (* registerConn, closing the writer it replaced; unregisterConn, closing its writer *)
  | GTop (key : gostring) (conn : nat)
  | UTop (key : gostring) (conn : nat)
  | CloseWriter (w : nat)
  (* WriteTo: at its checks, with the writer, returned *)
  | WTop (key : gostring) (data : list byte)
  | WSend (w : nat) (data : list byte)
  | WFailed
  | Finished.

Record vconn := mkV {
  closed : bool;
  recvCh : list item;
  queuedBytes : Z;
  feedDrops : Z;
  feedMu : option nat;
  readDeadline : option Z;
  deadlineVer : nat;
  table : gmap gostring (nat * nat);          (* connection and writer of a peer *)
  writers : list bool;                        (* the writers made so far; closed? *)
  refused : list nat;                         (* connections closed at registration *)
  threads : list stage;
  fed : list item;                            (* what entered the queue *)
  out : list item;                            (* what left it *)
  written : list (nat * list byte);
}.

Record system := mkSys {
  virtualQueuedBytes : Z;
  conns : list vconn;
}.

Definition newVirtualPacketConn : vconn := mkV false [] 0 0 None None 0 ∅ [] [] [] [] [] [].

Definition setThread (v : vconn) (k : nat) (x : stage) : vconn :=
  mkV (closed v) (recvCh v) (queuedBytes v) (feedDrops v) (feedMu v) (readDeadline v) (deadlineVer v) (table v) (writers v) (refused v) (<[k := x]> (threads v)) (fed v) (out v) (written v).
Definition setMu (v : vconn) (m : option nat) : vconn :=
  mkV (closed v) (recvCh v) (queuedBytes v) (feedDrops v) m (readDeadline v) (deadlineVer v) (table v) (writers v) (refused v) (threads v) (fed v) (out v) (written v).
Definition addQueued (v : vconn) (n : Z) : vconn :=
  mkV (closed v) (recvCh v) (queuedBytes v + n) (feedDrops v) (feedMu v) (readDeadline v) (deadlineVer v) (table v) (writers v) (refused v) (threads v) (fed v) (out v) (written v).
Definition addDrop (v : vconn) : vconn :=
  mkV (closed v) (recvCh v) (queuedBytes v) (feedDrops v + 1) (feedMu v) (readDeadline v) (deadlineVer v) (table v) (writers v) (refused v) (threads v) (fed v) (out v) (written v).
Definition push (v : vconn) (it : item) : vconn :=
  mkV (closed v) (recvCh v ++ [it]) (queuedBytes v) (feedDrops v) (feedMu v) (readDeadline v) (deadlineVer v) (table v) (writers v) (refused v) (threads v) (fed v ++ [it]) (out v) (written v).
Definition pop (v : vconn) (it : item) (rest : list item) : vconn :=
  mkV (closed v) rest (queuedBytes v) (feedDrops v) (feedMu v) (readDeadline v) (deadlineVer v) (table v) (writers v) (refused v) (threads v) (fed v) (out v ++ [it]) (written v).
Definition setClosed (v : vconn) : vconn :=
  mkV true (recvCh v) (queuedBytes v) (feedDrops v) (feedMu v) (readDeadline v) (deadlineVer v) (table v) (writers v) (refused v) (threads v) (fed v) (out v) (written v).
Definition setTable (v : vconn) (t : gmap gostring (nat * nat)) (ws : list bool) (rs : list nat) : vconn :=
  mkV (closed v) (recvCh v) (queuedBytes v) (feedDrops v) (feedMu v) (readDeadline v) (deadlineVer v) t ws rs (threads v) (fed v) (out v) (written v).
Definition setDeadline (v : vconn) (t : option Z) : vconn :=
  mkV (closed v) (recvCh v) (queuedBytes v) (feedDrops v) (feedMu v) t (S (deadlineVer v)) (table v) (writers v) (refused v) (threads v) (fed v) (out v) (written v).
Definition addWritten (v : vconn) (w : nat) (data : list byte) : vconn :=
  mkV (closed v) (recvCh v) (queuedBytes v) (feedDrops v) (feedMu v) (readDeadline v) (deadlineVer v) (table v) (writers v) (refused v) (threads v) (fed v) (out v) (written v ++ [(w, data)]).
Definition spawn (v : vconn) (x : stage) : vconn :=
  mkV (closed v) (recvCh v) (queuedBytes v) (feedDrops v) (feedMu v) (readDeadline v) (deadlineVer v) (table v) (writers v) (refused v) (threads v ++ [x]) (fed v) (out v) (written v).

(** The deferred unlock of [feedMu]. *)
Definition unlock (v : vconn) (k : nat) (x : stage) : vconn := setThread (setMu v None) k x.

(** ** Feeding *)

Definition feedStep (virt : Z) (v : vconn) (k : nat) (x : stage) : Z * vconn :=
  match x with
  | FLock it => match feedMu v with None => (virt, setThread (setMu v (Some k)) k (FAdmit it)) | Some _ => (virt, v) end
  | FAdmit it =>
      if closed v then (virt, unlock v k Finished)
      else if connLimit - queuedBytes v <? cost it then (virt, unlock (addDrop v) k Finished)
      else (virt, setThread v k (FReserve it))
  | FReserve it =>
      if virtualLimit - virt <? cost it then (virt, unlock (addDrop v) k Finished) else (virt + cost it, setThread v k (FAdd it))
  | FAdd it => (virt, setThread (addQueued v (cost it)) k (FSend it))
  | FSend it => if len (recvCh v) <? recvCap then (virt, unlock (push v it) k Finished) else (virt, setThread v k (FUndo it))
  | FUndo it => (virt, setThread (addQueued v (- cost it)) k (FUndoVirtual it))
  | FUndoVirtual it => (virt - cost it, unlock (addDrop v) k Finished)
  | _ => (virt, v)
  end.

(** ** Reading *)

Inductive pick := PQueue | PClosed | PChanged | PTimeout.

Definition expired (dl : option Z) (now : Z) : bool := match dl with Some t => t <=? now | None => false end.

Definition readStep (virt : Z) (v : vconn) (k : nat) (x : stage) (c : pick) (now : Z) : Z * vconn :=
  match x with
  | RTop =>
      (virt, setThread v k (if closed v then RDone (Fail ErrNetClosed)
                            else if expired (readDeadline v) now then RDone (Fail ErrDeadlineExceeded)
                            else RSelect (readDeadline v) (deadlineVer v)))
  | RSelect dl ver =>
      match c with
      | PQueue => match recvCh v with it :: rest => (virt, setThread (pop v it rest) k (RTook it)) | [] => (virt, v) end
      | PClosed => if closed v then (virt, setThread v k (RDone (Fail ErrNetClosed))) else (virt, v)
      | PChanged => if bool_decide (ver = deadlineVer v) then (virt, v) else (virt, setThread v k RTop)
      | PTimeout => if expired dl now then (virt, setThread v k RTop) else (virt, v)
      end
  | RTook it => (virt, setThread (addQueued v (- cost it)) k (RVirtual it))
  | RVirtual it => (virt - cost it, setThread v k (RDone (Ok it)))
  | _ => (virt, v)
  end.

(** ** Closing *)

Definition closeStep (virt : Z) (v : vconn) (k : nat) (x : stage) : Z * vconn :=
  match x with
  | XLock =>
      match feedMu v with
      | None => if closed v then (virt, setThread v k XTable) else (virt, setThread (setClosed (setMu v (Some k))) k XDrain)
      | Some _ => (virt, v)
      end
  | XDrain => match recvCh v with it :: rest => (virt, setThread (pop v it rest) k (XDrop it)) | [] => (virt, unlock v k XTable) end
  | XDrop it => (virt, setThread (addQueued v (- cost it)) k (XDropVirtual it))
  | XDropVirtual it => (virt - cost it, setThread v k XDrain)
  | XTable => (virt, setThread v k (XWriters ((fun kv => snd (snd kv)) <$> map_to_list (table v))))
  | XWriters (w :: ws) => (virt, setThread (setTable v (table v) (<[w := true]> (writers v)) (refused v)) k (XWriters ws))
  | XWriters [] => (virt, setThread v k XDone)
  | _ => (virt, v)
  end.

(** ** Peers *)

Definition registerConn (v : vconn) (k : nat) (key : gostring) (conn : nat) : vconn :=
  if closed v then setThread (setTable v (table v) (writers v) (conn :: refused v)) k Finished
  else
    match table v !! key with
    | Some (c, w) =>
        if bool_decide (c = conn) then setThread v k Finished
        else setThread (setTable v (<[key := (conn, length (writers v))]> (table v)) (writers v ++ [false]) (refused v)) k (CloseWriter w)
    | None => setThread (setTable v (<[key := (conn, length (writers v))]> (table v)) (writers v ++ [false]) (refused v)) k Finished
    end.

Definition unregisterConn (v : vconn) (k : nat) (key : gostring) (conn : nat) : vconn :=
  match table v !! key with
  | Some (c, w) => if bool_decide (c = conn) then setThread (setTable v (delete key (table v)) (writers v) (refused v)) k (CloseWriter w) else setThread v k Finished
  | None => setThread v k Finished
  end.

Definition peerStep (v : vconn) (k : nat) (x : stage) : vconn :=
  match x with
  | GTop key conn => registerConn v k key conn
  | UTop key conn => unregisterConn v k key conn
  | CloseWriter w => setThread (setTable v (table v) (<[w := true]> (writers v)) (refused v)) k Finished
  | WTop key data =>
      if closed v then setThread v k WFailed
      else match table v !! key with Some (_, w) => setThread v k (WSend w data) | None => setThread v k WFailed end
  | WSend w data => setThread (addWritten v w data) k Finished
  | _ => v
  end.

(** ** Steps *)

Definition threadStep (virt : Z) (v : vconn) (k : nat) (c : pick) (now : Z) : Z * vconn :=
  match threads v !! k with
  | None => (virt, v)
  | Some x =>
      match x with
      | FLock _ | FAdmit _ | FReserve _ | FAdd _ | FSend _ | FUndo _ | FUndoVirtual _ => feedStep virt v k x
      | RTop | RSelect _ _ | RTook _ | RVirtual _ => readStep virt v k x c now
      | XLock | XDrain | XDrop _ | XDropVirtual _ | XTable | XWriters _ => closeStep virt v k x
      | GTop _ _ | UTop _ _ | CloseWriter _ | WTop _ _ | WSend _ _ => (virt, peerStep v k x)
      | RDone _ | XDone | WFailed | Finished => (virt, v)
      end
  end.

(** What a new goroutine does. *)
Inductive request :=
  | QFeed (it : item)
  | QRead
  | QClose
  | QRegister (key : gostring) (conn : nat)
  | QUnregister (key : gostring) (conn : nat)
  | QWrite (key : gostring) (data : list byte).

Definition first (q : request) : stage :=
  match q with
  | QFeed it => FLock it
  | QRead => RTop
  | QClose => XLock
  | QRegister key conn => GTop key conn
  | QUnregister key conn => UTop key conn
  | QWrite key data => WTop key data
  end.

Inductive event :=
  | ENew                                     (* another inbound *)
  | EStart (i : nat) (q : request)
  | EDeadline (i : nat) (t : option Z)
  | EStep (i k : nat) (c : pick) (now : Z).

Definition step (s : system) (e : event) : system :=
  match e with
  | ENew => mkSys (virtualQueuedBytes s) (conns s ++ [newVirtualPacketConn])
  | EStart i q => match conns s !! i with Some v => mkSys (virtualQueuedBytes s) (<[i := spawn v (first q)]> (conns s)) | None => s end
  | EDeadline i t => match conns s !! i with Some v => mkSys (virtualQueuedBytes s) (<[i := setDeadline v t]> (conns s)) | None => s end
  | EStep i k c now =>
      match conns s !! i with
      | Some v => let '(virt, v') := threadStep (virtualQueuedBytes s) v k c now in mkSys virt (<[i := v']> (conns s))
      | None => s
      end
  end.

Definition run (es : list event) : system := foldl step (mkSys 0 []) es.
