(* ===== verification/VirtualConnRuns.v ===== *)
(** * Runs of the packet connections below HTTP/3: what [VirtualConn.v] guarantees

    For any number of connections that share the counter and every interleaving of
    their feeders, readers, writers, registrations and calls of [Close]. *)
From S2P Require Import Prelude GoNet VirtualConn.

Open Scope Z_scope.

#[local] Arguments recvCap : simpl never.
#[local] Arguments connLimit : simpl never.
#[local] Arguments virtualLimit : simpl never.
#[local] Arguments cost : simpl never.

(** ** Sums *)

Fixpoint sumZ {A} (f : A -> Z) (l : list A) : Z := match l with [] => 0 | x :: rest => f x + sumZ f rest end.

Lemma sumZ_app {A} (f : A -> Z) l1 l2 : sumZ f (l1 ++ l2) = sumZ f l1 + sumZ f l2.
Proof. induction l1 as [|x l1 IH]; cbn; [done|]. lia. Qed.

Lemma sumZ_insert {A} (f : A -> Z) l k x y : l !! k = Some y -> sumZ f (<[k := x]> l) = sumZ f l - f y + f x.
Proof.
  intros Hk. pose proof (lookup_lt_Some _ _ _ Hk) as Hlt. rewrite insert_take_drop by done. rewrite <- (take_drop_middle l k y Hk) at 3.
  rewrite !sumZ_app. cbn. lia.
Qed.

Lemma sumZ_nonneg {A} (f : A -> Z) l : (forall x, 0 <= f x) -> 0 <= sumZ f l.
Proof. intros Hf. induction l as [|x l IH]; cbn; [done|]. specialize (Hf x). lia. Qed.

Lemma cost_pos it : 0 < cost it.
Proof. unfold cost. lia. Qed.

(** ** Accounts *)

(** Bytes a goroutine has counted in [queuedBytes], and in the shared counter. *)
Definition heldLocal (x : stage) : Z :=
  match x with FSend it | FUndo it | RTook it | XDrop it => cost it | _ => 0 end.
Definition heldVirtual (x : stage) : Z :=
  match x with FAdd it | FSend it | FUndo it | FUndoVirtual it | RTook it | RVirtual it | XDrop it | XDropVirtual it => cost it | _ => 0 end.

Definition load (v : vconn) : Z := sumZ cost (recvCh v) + sumZ heldVirtual (threads v).

(** The goroutine that has [feedMu]. *)
Definition locked (x : stage) : bool :=
  match x with FAdmit _ | FReserve _ | FAdd _ | FSend _ | FUndo _ | FUndoVirtual _ | XDrain | XDrop _ | XDropVirtual _ => true | _ => false end.

Definition fits (v : vconn) (x : stage) : Prop := match x with FReserve it | FAdd it => queuedBytes v + cost it <= connLimit | _ => True end.

Record vOk (v : vconn) : Prop := {
  vo_queued : queuedBytes v = sumZ cost (recvCh v) + sumZ heldLocal (threads v);
  vo_limit : queuedBytes v <= connLimit;
  vo_len : len (recvCh v) <= recvCap;
  vo_order : out v ++ recvCh v = fed v;
  vo_mu : forall k x, threads v !! k = Some x -> locked x = true <-> feedMu v = Some k;
  vo_held : forall k, feedMu v = Some k -> is_Some (threads v !! k);
  vo_fits : forall k x, threads v !! k = Some x -> fits v x;
}.

Lemma held_nonneg x : 0 <= heldLocal x /\ 0 <= heldVirtual x.
Proof. destruct x; cbn; split; try lia; pose proof (cost_pos it); lia. Qed.

Lemma lookup_thread (l : list stage) k x j y : <[k := x]> l !! j = Some y -> (j = k /\ y = x) \/ (j <> k /\ l !! j = Some y).
Proof.
  destruct (decide (k = j)) as [<-|Hne]; [|rewrite list_lookup_insert_ne by done; auto].
  intros H. left. pose proof (lookup_lt_Some _ _ _ H) as Hl. rewrite length_insert in Hl. rewrite list_lookup_insert_eq in H by done. by injection H as <-.
Qed.

(** A step of one goroutine: the counters move with what it holds. *)
Lemma vOk_step v k x y v' :
  vOk v -> threads v !! k = Some x -> threads v' = threads v ->
  queuedBytes v' - queuedBytes v = sumZ cost (recvCh v') - sumZ cost (recvCh v) + heldLocal y - heldLocal x ->
  (queuedBytes v' <= queuedBytes v \/ queuedBytes v' <= connLimit /\ locked x = true) -> len (recvCh v') <= recvCap -> out v' ++ recvCh v' = fed v' ->
  feedMu v' = (if locked y then Some k else if locked x then None else feedMu v) -> (locked x = true \/ feedMu v = None \/ locked y = false) ->
  fits v' y -> vOk (setThread v' k y).
Proof.
  intros [H1 H2 H3 H4 H5 H6 H7] Hk Et Hq Hl Hlen Ho Hm Hx Hf. pose proof (H5 k x Hk) as Hmu. pose proof (lookup_lt_Some _ _ _ Hk) as Hlt.
  split; cbn [setThread queuedBytes recvCh threads feedMu fed out]; rewrite ?Et; try done.
  - rewrite (sumZ_insert _ _ _ _ _ Hk). lia.
  - destruct Hl as [?|[? _]]; lia.
  - intros j z [[-> ->]|[Hne Hj]]%lookup_thread.
    + rewrite Hm. destruct (locked y) eqn:Ey; [done|]. split; [done|]. destruct (locked x) eqn:Ex; [done|]. intros Hs. by apply Hmu in Hs.
    + rewrite (H5 j z Hj), Hm. destruct (locked x) eqn:Ex.
      { rewrite (proj1 Hmu eq_refl). destruct (locked y); split; congruence. }
      destruct (locked y) eqn:Ey; [|done]. destruct Hx as [?|[Hn|?]]; [done| |done]. rewrite Hn. split; congruence.
  - intros j Hj. destruct (decide (j = k)) as [->|Hne]; [by rewrite list_lookup_insert_eq|]. rewrite list_lookup_insert_ne by done. apply H6.
    rewrite Hm in Hj. destruct (locked y); [congruence|]. by destruct (locked x).
  - intros j z [[-> ->]|[Hne Hj]]%lookup_thread; [exact Hf|]. specialize (H7 j z Hj). destruct Hl as [Hl|[_ Hlx]]; [|].
    + destruct z; cbn in *; try done; lia.
    + destruct (locked z) eqn:Ez; [|by destruct z]. apply (H5 j z Hj) in Ez. apply Hmu in Hlx. congruence.
Qed.

(** What a step does to a connection and to the shared counter. *)
Definition goodStep (virt : Z) (v : vconn) (r : Z * vconn) : Prop :=
  vOk (snd r) /\ load (snd r) - load v = fst r - virt /\ (fst r <= virt \/ fst r <= virtualLimit).

Lemma good_same virt v : vOk v -> goodStep virt v (virt, v).
Proof. intros Hv. split_and!; cbn; [done|lia|lia]. Qed.

Lemma good v k x y v' virt virt' :
  vOk v -> threads v !! k = Some x -> threads v' = threads v ->
  queuedBytes v' - queuedBytes v = sumZ cost (recvCh v') - sumZ cost (recvCh v) + heldLocal y - heldLocal x ->
  virt' - virt = sumZ cost (recvCh v') - sumZ cost (recvCh v) + heldVirtual y - heldVirtual x ->
  (queuedBytes v' <= queuedBytes v \/ queuedBytes v' <= connLimit /\ locked x = true) -> (virt' <= virt \/ virt' <= virtualLimit) ->
  len (recvCh v') <= recvCap -> out v' ++ recvCh v' = fed v' ->
  feedMu v' = (if locked y then Some k else if locked x then None else feedMu v) -> (locked x = true \/ feedMu v = None \/ locked y = false) ->
  fits v' y -> goodStep virt v (virt', setThread v' k y).
Proof.
  intros Hv Hk Et Hq Hvi Hl Hvl Hlen Ho Hm Hx Hf. split_and!; cbn [fst snd]; [by apply (vOk_step v k x y v')| |done].
  unfold load. cbn [setThread recvCh threads]. rewrite Et, (sumZ_insert _ _ _ _ _ Hk). lia.
Qed.

(** The side conditions of [good]. *)
Ltac side := cbn in *; first [done|lia|by left; lia|by right; lia|by right; left|by auto|by right; split; [lia|]|idtac].

Section steps.
  Context (virt : Z) (v : vconn) (k : nat).
  Hypothesis Hv : vOk v.

Lemma mu_of x : threads v !! k = Some x -> locked x = true -> feedMu v = Some k.
Proof. intros Hk Hx. by apply (vo_mu _ Hv k x Hk). Qed.

(** The common case: only the stage changes. *)
Lemma good_goto x y :
  threads v !! k = Some x -> heldLocal y = heldLocal x -> heldVirtual y = heldVirtual x -> locked y = locked x -> fits v y -> goodStep virt v (virt, setThread v k y).
Proof.
  intros Hk E1 E2 E3 Hf. apply (good v k x y v); auto; try lia; [apply (vo_len _ Hv)|apply (vo_order _ Hv)| |].
  - rewrite E3. destruct (locked x) eqn:Ex; [by apply (mu_of x)|done].
  - rewrite E3. destruct (locked x); auto.
Qed.

Lemma good_feed x : threads v !! k = Some x -> goodStep virt v (feedStep virt v k x).
Proof.
  intros Hk. pose proof (vo_len _ Hv) as Hlen. pose proof (vo_order _ Hv) as Ho. pose proof (vo_fits _ Hv _ _ Hk) as Hf. pose proof (mu_of x Hk) as Hmu. pose proof cost_pos as Hpos.
  destruct x as [it|it|it|it|it|it|it| | | | | | | | | | | | | | | | | | |]; cbn [feedStep]; try (by apply good_same); specialize (Hpos it).
  - destruct (feedMu v) eqn:Hm; [by apply good_same|]. apply (good v k (FLock it)); side.
  - destruct (closed v); [apply (good v k (FAdmit it)); side|]. destruct (Z.ltb_spec (connLimit - queuedBytes v) (cost it)).
    + apply (good v k (FAdmit it)); side.
    + apply (good_goto (FAdmit it)); side.
  - destruct (Z.ltb_spec (virtualLimit - virt) (cost it)); apply (good v k (FReserve it)); side.
  - apply (good v k (FAdd it)); side.
  - destruct (Z.ltb_spec (len (recvCh v)) recvCap); [|by apply (good_goto (FSend it))].
    apply (good v k (FSend it)); side; rewrite ?sumZ_app, ?length_app; side. by rewrite app_assoc, Ho.
  - apply (good v k (FUndo it)); side.
  - apply (good v k (FUndoVirtual it)); side.
Qed.

Lemma good_read x c now : threads v !! k = Some x -> goodStep virt v (readStep virt v k x c now).
Proof.
  intros Hk. pose proof (vo_len _ Hv) as Hlen. pose proof (vo_order _ Hv) as Ho. pose proof cost_pos as Hpos.
  destruct x as [| | | | | | | |dl ver|it|it| | | | | | | | | | | | | | |]; cbn [readStep]; try (by apply good_same).
  - destruct (closed v); [by apply (good_goto RTop)|]. destruct (expired _ _); by apply (good_goto RTop).
  - destruct c.
    + destruct (recvCh v) as [|it rest] eqn:Hr; [by apply good_same|]. apply (good v k (RSelect dl ver)); rewrite ?Hr; side. by rewrite <- app_assoc.
    + destruct (closed v); [by apply (good_goto (RSelect dl ver))|by apply good_same].
    + case_bool_decide; [by apply good_same|by apply (good_goto (RSelect dl ver))].
    + destruct (expired _ _); [by apply (good_goto (RSelect dl ver))|by apply good_same].
  - specialize (Hpos it). apply (good v k (RTook it)); side.
  - specialize (Hpos it). apply (good v k (RVirtual it)); side.
Qed.

Lemma good_close x : threads v !! k = Some x -> goodStep virt v (closeStep virt v k x).
Proof.
  intros Hk. pose proof (vo_len _ Hv) as Hlen. pose proof (vo_order _ Hv) as Ho. pose proof (mu_of x Hk) as Hmu. pose proof cost_pos as Hpos.
  destruct x as [| | | | | | | | | | | | | |it|it| |[|w ws]| | | | | | | |]; cbn [closeStep]; try (by apply good_same).
  - destruct (feedMu v) eqn:Hm; [by apply good_same|]. destruct (closed v); [by apply (good_goto XLock)|]. apply (good v k XLock); side.
  - destruct (recvCh v) as [|it rest] eqn:Hr; apply (good v k XDrain); cbn; rewrite ?Hr; side. by rewrite <- app_assoc.
  - specialize (Hpos it). apply (good v k (XDrop it)); side.
  - specialize (Hpos it). apply (good v k (XDropVirtual it)); side.
  - by apply (good_goto XTable).
  - by apply (good_goto (XWriters [])).
  - apply (good v k (XWriters (w :: ws))); side.
Qed.

Lemma good_peer x : threads v !! k = Some x -> heldLocal x = 0 -> heldVirtual x = 0 -> locked x = false -> goodStep virt v (virt, peerStep v k x).
Proof.
  intros Hk E1 E2 E3. pose proof (vo_len _ Hv) as Hlen. pose proof (vo_order _ Hv) as Ho.
  assert (Hset : forall v' y, threads v' = threads v -> queuedBytes v' = queuedBytes v -> recvCh v' = recvCh v -> feedMu v' = feedMu v -> fed v' = fed v -> out v' = out v ->
    heldLocal y = 0 -> heldVirtual y = 0 -> locked y = false -> fits v' y -> goodStep virt v (virt, setThread v' k y)).
  { intros v' y Et Eq Er Em Ef Eo F1 F2 F3 Hf. apply (good v k x y v'); auto; rewrite ?Er, ?Eq, ?F1, ?F2, ?F3, ?E1, ?E2, ?E3, ?Em, ?Ef, ?Eo; auto; lia. }
  destruct x as [| | | | | | | | | | | | | | | | | | |key conn|key conn|w|key data|w data| |]; cbn [peerStep]; try (by apply good_same); try (by apply Hset).
  - unfold registerConn. destruct (closed v); [by apply Hset|]. destruct (table v !! key) as [[c w]|]; [case_bool_decide|]; by apply Hset.
  - unfold unregisterConn. destruct (table v !! key) as [[c w]|]; [case_bool_decide|]; by apply Hset.
  - destruct (closed v); [by apply Hset|]. destruct (table v !! key) as [[c w]|]; by apply Hset.
Qed.

Lemma good_thread c now : goodStep virt v (threadStep virt v k c now).
Proof.
  unfold threadStep. destruct (threads v !! k) as [x|] eqn:Hk; [|by apply good_same].
  destruct x; try (by apply good_feed); try (by apply good_read); try (by apply good_close); try (by apply good_peer); by apply good_same.
Qed.

End steps.

(** ** The system *)

Record virtOk (s : system) : Prop := {
  so_conns : Forall vOk (conns s);
  so_virtual : virtualQueuedBytes s = sumZ load (conns s);
  so_limit : virtualQueuedBytes s <= virtualLimit;
}.

Lemma vOk_spawn v x : vOk v -> heldLocal x = 0 -> locked x = false -> fits v x -> vOk (spawn v x).
Proof.
  intros [H1 H2 H3 H4 H5 H6 H7] E1 E2 Hf.
  assert (Hl : forall k y, (threads v ++ [x]) !! k = Some y -> threads v !! k = Some y \/ (y = x /\ threads v !! k = None)).
  { intros k y. rewrite lookup_app. destruct (threads v !! k) eqn:Hk; [by left|]. intros H. apply list_lookup_singleton_Some in H as [_ <-]. auto. }
  split; cbn [spawn queuedBytes recvCh threads feedMu fed out]; try done.
  - rewrite sumZ_app. cbn. lia.
  - intros k y [Hk|[-> Hk]]%Hl; [by apply H5|]. rewrite E2. split; [done|]. intros Hm. destruct (H6 _ Hm). congruence.
  - intros k Hm. destruct (H6 _ Hm) as [y Hy]. exists y. by apply lookup_app_l_Some.
  - intros k y [Hk|[-> Hk]]%Hl; [by apply (H7 k)|done].
Qed.

Lemma load_insert cs i v v' : cs !! i = Some v -> sumZ load (<[i := v']> cs) = sumZ load cs + (load v' - load v).
Proof. intros Hi. rewrite (sumZ_insert _ _ _ _ _ Hi). lia. Qed.

Lemma virtOk_put s i v v' virt :
  virtOk s -> conns s !! i = Some v -> vOk v' -> load v' - load v = virt - virtualQueuedBytes s -> (virt <= virtualQueuedBytes s \/ virt <= virtualLimit) ->
  virtOk (mkSys virt (<[i := v']> (conns s))).
Proof.
  intros [H1 H2 H3] Hi Hv Hl Hb. split; cbn [conns virtualQueuedBytes].
  - by apply Forall_insert.
  - rewrite (load_insert _ _ _ _ Hi). lia.
  - lia.
Qed.

Lemma virtOk_step s e : virtOk s -> virtOk (step s e).
Proof.
  intros Hs. destruct e as [|i q|i t|i k c now]; cbn [step]; try (destruct (conns s !! i) as [v|] eqn:Hi; [|done]); pose proof Hs as [H1 H2 H3].
  - split; cbn [conns virtualQueuedBytes]; [|rewrite sumZ_app; change (sumZ load [newVirtualPacketConn]) with 0; lia|done]. apply Forall_app. split; [done|]. apply Forall_singleton. split; cbn; try done; unfold connLimit, recvCap; lia.
  - pose proof (Forall_lookup_1 _ _ _ _ H1 Hi) as Hv. apply (virtOk_put s i v); [done|done| | |by left; lia].
    + by apply vOk_spawn; destruct q.
    + unfold load. cbn [spawn recvCh threads]. rewrite sumZ_app. destruct q; cbn; lia.
  - pose proof (Forall_lookup_1 _ _ _ _ H1 Hi) as Hv. apply (virtOk_put s i v); [done|done|by destruct Hv|unfold load; cbn; lia|by left; lia].
  - pose proof (Forall_lookup_1 _ _ _ _ H1 Hi) as Hv. destruct (good_thread (virtualQueuedBytes s) v k Hv c now) as (Hv' & Hl & Hb).
    destruct (threadStep _ _ _ _ _) as [virt v']. by apply (virtOk_put s i v).
Qed.

Lemma virtOk_run es : virtOk (run es).
Proof.
  induction es as [|e es IH] using rev_ind; [split; cbn; [done|done|unfold virtualLimit; lia]|]. unfold run in *. rewrite foldl_app. by apply virtOk_step.
Qed.

(** ** Peers *)

Definition stageOk (v : vconn) (x : stage) : Prop :=
  match x with
  | XDrain | XDrop _ | XDropVirtual _ | XTable => closed v = true
  | XWriters ws => closed v = true /\ forall key c w, table v !! key = Some (c, w) -> writers v !! w = Some true \/ w ∈ ws
  | XDone => closed v = true /\ forall key c w, table v !! key = Some (c, w) -> writers v !! w = Some true
  | _ => True
  end.

(** Every writer is closed, registered for one peer, or about to be closed. *)
Record peersOk (v : vconn) : Prop := {
  po_range : forall key c w, table v !! key = Some (c, w) -> (w < length (writers v))%nat;
  po_writers : forall w, (w < length (writers v))%nat -> writers v !! w = Some true \/ (exists key c, table v !! key = Some (c, w)) \/ (exists k, threads v !! k = Some (CloseWriter w));
  po_stages : forall k x, threads v !! k = Some x -> stageOk v x;
}.

(** A step that keeps the table. *)
Lemma peersOk_goto v k x y v' :
  peersOk v -> threads v !! k = Some x -> (forall w, x <> CloseWriter w) -> threads v' = threads v -> table v' = table v -> writers v' = writers v ->
  (closed v = true -> closed v' = true) -> stageOk v' y -> peersOk (setThread v' k y).
Proof.
  intros [H1 H2 H3] Hk Hx Et Eb Ew Ec Hy. split; cbn [setThread table writers threads]; rewrite ?Et, ?Eb, ?Ew; try done.
  - intros w Hw. destruct (H2 w Hw) as [?|[?|[j Hj]]]; auto. right; right. exists j. rewrite list_lookup_insert_ne; [done|]. intros ->. rewrite Hk in Hj. injection Hj as ->. by apply (Hx w).
  - intros j z [[-> ->]|[Hne Hj]]%lookup_thread; [by destruct y|]. specialize (H3 j z Hj). destruct z; cbn in *; rewrite ?Eb, ?Ew; auto; destruct H3; auto.
Qed.

(** A writer is closed. *)
Lemma peersOk_close v k x y w :
  peersOk v -> threads v !! k = Some x -> (x = CloseWriter w \/ forall w', x <> CloseWriter w') ->
  stageOk (setTable v (table v) (<[w := true]> (writers v)) (refused v)) y ->
  peersOk (setThread (setTable v (table v) (<[w := true]> (writers v)) (refused v)) k y).
Proof.
  intros [H1 H2 H3] Hk Hx Hy. split; cbn [setThread setTable table writers threads].
  - intros key c w'. rewrite length_insert. apply H1.
  - intros w'. rewrite length_insert. intros Hw. destruct (decide (w' = w)) as [->|Hne]; [left; by rewrite list_lookup_insert_eq|].
    rewrite list_lookup_insert_ne by done. destruct (H2 w' Hw) as [?|[?|[j Hj]]]; auto. right; right. exists j. rewrite list_lookup_insert_ne; [done|].
    intros ->. rewrite Hk in Hj. injection Hj as ->. destruct Hx as [[= ->]|Hx]; [done|by apply (Hx w')].
  - assert (Hmono : forall w', writers v !! w' = Some true -> <[w := true]> (writers v) !! w' = Some true).
    { intros w' Hw. destruct (decide (w' = w)) as [->|Hne]; [rewrite list_lookup_insert_eq; [done|by eapply lookup_lt_Some]|by rewrite list_lookup_insert_ne]. }
    intros j z [[-> ->]|[Hne Hj]]%lookup_thread; [by destruct y|]. specialize (H3 j z Hj). destruct z; cbn in *; try done.
    + destruct H3 as [? H3]. split; [done|]. intros key c w' Hw. destruct (H3 key c w' Hw); auto.
    + destruct H3 as [? H3]. split; [done|]. intros key c w' Hw. eauto.
Qed.

Lemma peersOk_register v k key conn : peersOk v -> threads v !! k = Some (GTop key conn) -> peersOk (registerConn v k key conn).
Proof.
  intros Hp Hk. unfold registerConn. destruct (closed v) eqn:Hc; [by eapply (peersOk_goto v k _ _ _ Hp Hk)|].
  assert (Hnew : forall y, (forall c w, table v !! key = Some (c, w) -> y = CloseWriter w) -> stageOk v y -> (forall ws, y <> XWriters ws) -> y <> XDone ->
    peersOk (setThread (setTable v (<[key := (conn, length (writers v))]> (table v)) (writers v ++ [false]) (refused v)) k y)).
  { intros y Hy Hys Hyx Hyd. destruct Hp as [H1 H2 H3]. pose proof (lookup_lt_Some _ _ _ Hk) as Hlt. split; cbn [setThread setTable table writers threads].
    - intros key' c w. rewrite length_app. cbn. destruct (decide (key = key')) as [<-|Hne]; [rewrite lookup_insert_eq; intros [= _ <-]; lia|].
      rewrite lookup_insert_ne by done. intros Hw. specialize (H1 _ _ _ Hw). lia.
    - intros w. rewrite length_app. cbn. intros Hw. destruct (decide (w = length (writers v))) as [->|Hne]; [right; left; exists key, conn; by rewrite lookup_insert_eq|].
      destruct (H2 w ltac:(lia)) as [?|[(key' & c & Hw')|[j Hj]]].
      + left. by apply lookup_app_l_Some.
      + destruct (decide (key = key')) as [<-|Hnk]; [|right; left; exists key', c; by rewrite lookup_insert_ne]. right; right. exists k. rewrite (Hy _ _ Hw'). by apply list_lookup_insert_eq.
      + right; right. exists j. rewrite list_lookup_insert_ne; [done|]. intros ->. congruence.
    - intros j z [[-> ->]|[Hne Hj]]%lookup_thread; [destruct y; cbn in *; try done; by exfalso; eapply Hyx|].
      specialize (H3 j z Hj). destruct z; cbn in *; try done; try congruence; destruct H3; congruence. }
  destruct (table v !! key) as [[c w]|] eqn:Ht; [case_bool_decide|].
  - by eapply (peersOk_goto v k _ _ _ Hp Hk).
  - apply Hnew; try done. by intros ? ? [= _ ->].
  - by apply Hnew.
Qed.

Lemma peersOk_unregister v k key conn : peersOk v -> threads v !! k = Some (UTop key conn) -> peersOk (unregisterConn v k key conn).
Proof.
  intros Hp Hk. unfold unregisterConn. destruct (table v !! key) as [[c w]|] eqn:Ht; [case_bool_decide|]; try (by eapply (peersOk_goto v k _ _ _ Hp Hk)).
  destruct Hp as [H1 H2 H3]. pose proof (lookup_lt_Some _ _ _ Hk) as Hlt. split; cbn [setThread setTable table writers threads].
  - intros key' c' w' [_ Hw]%lookup_delete_Some. eauto.
  - intros w' Hw. destruct (H2 w' Hw) as [?|[(key' & c' & Hw')|[j Hj]]]; [by left| |].
    + destruct (decide (key = key')) as [<-|Hnk]; [|right; left; exists key', c'; by rewrite lookup_delete_ne]. right; right. exists k.
      rewrite Ht in Hw'. injection Hw' as -> ->. by apply list_lookup_insert_eq.
    + right; right. exists j. rewrite list_lookup_insert_ne; [done|]. intros ->. congruence.
  - intros j z [[-> ->]|[Hne Hj]]%lookup_thread; [done|]. specialize (H3 j z Hj). destruct z; cbn in *; try done; destruct H3 as [? H3]; (split; [done|]);
      intros key' c' w' [_ Hw]%lookup_delete_Some; eauto.
Qed.

Lemma peersOk_step virt v k c now : peersOk v -> peersOk (snd (threadStep virt v k c now)).
Proof.
  intros Hp. unfold threadStep. destruct (threads v !! k) as [x|] eqn:Hk; [|done]. pose proof (po_stages _ Hp _ _ Hk) as Hs.
  assert (Hg : forall v' y, (forall w, x <> CloseWriter w) -> threads v' = threads v -> table v' = table v -> writers v' = writers v -> (closed v = true -> closed v' = true) -> stageOk v' y -> peersOk (setThread v' k y))
    by (intros; by eapply (peersOk_goto v k x)).
  destruct x as [it|it|it|it|it|it|it| |dl ver|it|it|res| | |it|it| |[|w ws]| |key conn|key conn|w|key data|w data| |]; cbn [feedStep readStep closeStep peerStep snd]; try done.
  - destruct (feedMu v); [done|by apply Hg].
  - destruct (closed v) eqn:Hc; [by apply Hg|]. destruct (_ <? _); by apply Hg.
  - destruct (_ <? _); by apply Hg.
  - by apply Hg.
  - destruct (_ <? _); by apply Hg.
  - by apply Hg.
  - by apply Hg.
  - destruct (closed v) eqn:Hc; [by apply Hg; rewrite ?Hc|]. destruct (expired _ _); by apply Hg.
  - destruct c.
    + destruct (recvCh v); [done|by apply Hg].
    + destruct (closed v) eqn:Hc; [by apply Hg; rewrite ?Hc|done].
    + case_bool_decide; [done|by apply Hg].
    + destruct (expired _ _); [by apply Hg|done].
  - by apply Hg.
  - by apply Hg.
  - destruct (feedMu v); [done|]. destruct (closed v) eqn:Hc; apply Hg; cbn; rewrite ?Hc; done.
  - destruct (recvCh v); by apply Hg.
  - by apply Hg.
  - by apply Hg.
  - apply Hg; try done. split; [done|]. intros key c' w Hw. right. apply list_elem_of_fmap. exists (key, (c', w)). split; [done|]. by apply elem_of_map_to_list.
  - apply Hg; try done. destruct Hs as [? Hs]. split; [done|]. intros key c' w Hw. destruct (Hs key c' w Hw) as [?|Hn]; [done|by apply elem_of_nil in Hn].
  - destruct Hs as [Hc Hs]. eapply (peersOk_close v k _ _ _ Hp Hk); [by right|]. split; [done|]. cbn. intros key c' w' Hw.
    destruct (decide (w' = w)) as [->|Hne]; [left; rewrite list_lookup_insert_eq; [done|by eapply (po_range _ Hp)]|]. rewrite list_lookup_insert_ne by done.
    destruct (Hs key c' w' Hw) as [?|[?|?]%elem_of_cons]; [by left|done|by right].
  - by apply peersOk_register.
  - by apply peersOk_unregister.
  - eapply (peersOk_close v k _ _ _ Hp Hk); [by left|done].
  - destruct (closed v) eqn:Hc; [by apply Hg; rewrite ?Hc|]. destruct (table v !! key) as [[c' w]|]; by apply Hg.
  - by apply Hg.
Qed.

(** ** The queue of a closed connection *)

Definition draining (x : stage) : bool := match x with XDrain | XDrop _ | XDropVirtual _ => true | _ => false end.

Definition queueOk (v : vconn) (x : stage) : Prop :=
  match x with
  | FReserve _ | FAdd _ | FSend _ => closed v = false
  | XDrain | XDrop _ | XDropVirtual _ => closed v = true
  | XTable | XWriters _ | XDone => closed v = true /\ recvCh v = []
  | _ => True
  end.

Record drainOk (v : vconn) : Prop := {
  do_closed : closed v = true -> recvCh v = [] \/ exists k x, threads v !! k = Some x /\ draining x = true;
  do_stages : forall k x, threads v !! k = Some x -> queueOk v x;
}.

(** A step of one goroutine that leaves [closed] as it is. *)
Lemma drainOk_goto v k x y v' :
  drainOk v -> threads v !! k = Some x -> threads v' = threads v -> closed v' = closed v -> (closed v = true -> recvCh v = [] -> recvCh v' = []) ->
  (draining x = true -> draining y = true \/ recvCh v' = []) ->
  queueOk v' y -> drainOk (setThread v' k y).
Proof.
  intros [H1 H2] Hk Et Ec Hr Hd Hy. pose proof (lookup_lt_Some _ _ _ Hk) as Hlt. split; cbn [setThread closed recvCh threads]; rewrite ?Et, ?Ec.
  - intros Hc. destruct (H1 Hc) as [He|(j & z & Hj & Hz)]; [left; auto|]. destruct (decide (j = k)) as [->|Hne].
    + rewrite Hk in Hj. injection Hj as <-. destruct (Hd Hz) as [Hy'|?]; [|by left]. right. exists k, y. by rewrite list_lookup_insert_eq.
    + right. exists j, z. by rewrite list_lookup_insert_ne.
  - intros j z [[-> ->]|[Hne Hj]]%lookup_thread; [by destruct y|]. specialize (H2 j z Hj).
    destruct z; cbn in *; rewrite ?Ec; auto; destruct H2; auto.
Qed.

(** Nothing else holds [feedMu] when [Close] marks the connection. *)
Lemma drainOk_mark v k : vOk v -> drainOk v -> threads v !! k = Some XLock -> feedMu v = None -> drainOk (setThread (setClosed (setMu v (Some k))) k XDrain).
Proof.
  intros Hv [H1 H2] Hk Hm. pose proof (lookup_lt_Some _ _ _ Hk) as Hlt. split; cbn [setThread setClosed setMu closed recvCh threads].
  - intros _. right. exists k, XDrain. by rewrite list_lookup_insert_eq.
  - intros j z [[-> ->]|[Hne Hj]]%lookup_thread; [done|]. specialize (H2 j z Hj). pose proof (vo_mu _ Hv j z Hj) as Hl. rewrite Hm in Hl.
    destruct z; cbn in *; try done; try (by pose proof (proj1 Hl eq_refl)); by destruct H2.
Qed.

Lemma drainOk_step virt v k c now : vOk v -> drainOk v -> drainOk (snd (threadStep virt v k c now)).
Proof.
  intros Hv Hp. unfold threadStep. destruct (threads v !! k) as [x|] eqn:Hk; [|done]. pose proof (do_stages _ Hp _ _ Hk) as Hs.
  assert (Hg : forall v' y, threads v' = threads v -> closed v' = closed v -> recvCh v' = recvCh v -> (draining x = true -> draining y = true) -> queueOk v' y -> drainOk (setThread v' k y)).
  { intros v' y Et Ec Er Hd Hy. apply (drainOk_goto v k x); auto; intros; rewrite ?Er; auto. }
  assert (Hpop : forall it rest y, recvCh v = it :: rest -> (draining x = true -> draining y = true) -> queueOk (pop v it rest) y -> drainOk (setThread (pop v it rest) k y)).
  { intros it rest y Hr Hd Hy. apply (drainOk_goto v k x); auto; cbn; intros; try congruence; auto. }
  assert (Hnone : feedMu v = None -> closed v = true -> recvCh v = []).
  { intros Hm Hc. destruct (do_closed _ Hp Hc) as [?|(j & z & Hj & Hz)]; [done|]. pose proof (vo_mu _ Hv j z Hj) as Hl. rewrite Hm in Hl. destruct z; try done; by pose proof (proj1 Hl eq_refl). }
  destruct x as [it|it|it|it|it|it|it| |dl ver|it|it|res| | |it|it| |[|w ws]| |key conn|key conn|w|key data|w data| |]; cbn [feedStep readStep closeStep peerStep snd]; try done.
  - destruct (feedMu v); [done|by apply Hg].
  - destruct (closed v) eqn:Hc; [by apply Hg|]. destruct (_ <? _); by apply Hg.
  - destruct (_ <? _); by apply Hg.
  - by apply Hg.
  - cbn in Hs. destruct (_ <? _); [|by apply Hg]. apply (drainOk_goto v k (FSend it)); auto; cbn; intros; try congruence; auto.
  - by apply Hg.
  - by apply Hg.
  - destruct (closed v) eqn:Hc; [by apply Hg|]. destruct (expired _ _); by apply Hg.
  - destruct c.
    + destruct (recvCh v) eqn:Hr; [done|]. by apply Hpop.
    + destruct (closed v) eqn:Hc; [by apply Hg|done].
    + case_bool_decide; [done|by apply Hg].
    + destruct (expired _ _); [by apply Hg|done].
  - by apply Hg.
  - by apply Hg.
  - destruct (feedMu v) eqn:Hm; [done|]. pose proof (Hnone eq_refl) as He. destruct (closed v) eqn:Hc; [|by apply drainOk_mark]. apply Hg; try done. cbn. auto.
  - destruct (recvCh v) eqn:Hr; [|by apply Hpop]. apply (drainOk_goto v k XDrain); auto; cbn; auto.
  - by apply Hg.
  - by apply Hg.
  - by apply Hg.
  - by apply Hg.
  - by apply Hg.
  - unfold registerConn. destruct (closed v) eqn:Hc; [by apply Hg|]. destruct (table v !! key) as [[c' w]|]; [case_bool_decide|]; by apply Hg.
  - unfold unregisterConn. destruct (table v !! key) as [[c' w]|]; [case_bool_decide|]; by apply Hg.
  - by apply Hg.
  - destruct (closed v) eqn:Hc; [by apply Hg|]. destruct (table v !! key) as [[c' w]|]; by apply Hg.
  - by apply Hg.
Qed.

(** ** Every connection of a run *)

Definition connOk (v : vconn) : Prop := vOk v /\ peersOk v /\ drainOk v.

Lemma connOk_new : connOk newVirtualPacketConn.
Proof. split_and!; split; cbn; try done; unfold connLimit, recvCap; lia. Qed.

Lemma lookup_spawn v q k y : threads (spawn v (first q)) !! k = Some y -> threads v !! k = Some y \/ y = first q.
Proof. cbn. intros [Hk|[_ Hk]]%lookup_app_Some; [by left|]. apply list_lookup_singleton_Some in Hk as [_ <-]. by right. Qed.

Lemma connOk_spawn v q : connOk v -> connOk (spawn v (first q)).
Proof.
  intros (Hv & [P1 P2 P3] & [D1 D2]). split_and!; [by apply vOk_spawn; destruct q| |].
  - split; [done| |].
    + intros w Hw. destruct (P2 w Hw) as [?|[?|[j Hj]]]; auto. right; right. exists j. by apply lookup_app_l_Some.
    + intros k y [Hk| ->]%lookup_spawn; [|by destruct q]. specialize (P3 k y Hk). by destruct y.
  - split.
    + intros Hc. destruct (D1 Hc) as [?|(j & z & Hj & Hz)]; [by left|]. right. exists j, z. split; [by apply lookup_app_l_Some|done].
    + intros k y [Hk| ->]%lookup_spawn; [|by destruct q]. specialize (D2 k y Hk). by destruct y.
Qed.

Lemma connOk_deadline v t : connOk v -> connOk (setDeadline v t).
Proof. intros ([] & [P1 P2 P3] & [D1 D2]). split_and!; by split. Qed.

Lemma connOk_step s e : Forall connOk (conns s) -> Forall connOk (conns (step s e)).
Proof.
  intros Hs. destruct e as [|i q|i t|i k c now]; cbn [step]; try (destruct (conns s !! i) as [v|] eqn:Hi; [|done]; pose proof (Forall_lookup_1 _ _ _ _ Hs Hi) as Hv).
  - apply Forall_app. split; [done|]. apply Forall_singleton, connOk_new.
  - by apply Forall_insert, connOk_spawn.
  - by apply Forall_insert, connOk_deadline.
  - destruct Hv as (Hv & Hp & Hd). destruct (good_thread (virtualQueuedBytes s) v k Hv c now) as [Hv' _].
    pose proof (peersOk_step (virtualQueuedBytes s) v k c now Hp) as Hp'. pose proof (drainOk_step (virtualQueuedBytes s) v k c now Hv Hd) as Hd'.
    destruct (threadStep _ _ _ _ _) as [virt v']. by apply Forall_insert.
Qed.

Lemma connOk_run es : Forall connOk (conns (run es)).
Proof. induction es as [|e es IH] using rev_ind; [done|]. unfold run in *. rewrite foldl_app. by apply connOk_step. Qed.

Lemma load_nonneg v : 0 <= load v.
Proof. unfold load. pose proof (sumZ_nonneg cost (recvCh v) ltac:(intros it; pose proof (cost_pos it); lia)). pose proof (sumZ_nonneg heldVirtual (threads v) ltac:(apply held_nonneg)). lia. Qed.

(** ** After Close *)

Lemma thread_frame virt v j c now k : k <> j -> threads (snd (threadStep virt v j c now)) !! k = threads v !! k.
Proof.
  intros Hne. unfold threadStep. destruct (threads v !! j) as [x|]; [|done].
  assert (Hins : forall y, <[j := y]> (threads v) !! k = threads v !! k) by (intros; by rewrite list_lookup_insert_ne).
  destruct x; try done; cbn [feedStep readStep closeStep peerStep snd]; unfold registerConn, unregisterConn;
    repeat case_match; try done; cbn [setThread unlock setMu addQueued addDrop push pop setClosed setTable addWritten threads snd]; try done; apply Hins.
Qed.

Lemma fed_closed virt v j c now : connOk v -> closed v = true -> fed (snd (threadStep virt v j c now)) = fed v.
Proof.
  intros (_ & _ & Hd) Hc. unfold threadStep. destruct (threads v !! j) as [x|] eqn:Hj; [|done]. pose proof (do_stages _ Hd _ _ Hj) as Hs.
  destruct x; cbn in Hs; try congruence; cbn [feedStep readStep closeStep peerStep snd]; unfold registerConn, unregisterConn; by repeat case_match.
Qed.

Lemma done_step s e i v k :
  Forall connOk (conns s) -> conns s !! i = Some v -> threads v !! k = Some XDone ->
  exists v', conns (step s e) !! i = Some v' /\ threads v' !! k = Some XDone /\ fed v' = fed v.
Proof.
  intros Hs Hi Hk. pose proof (Forall_lookup_1 _ _ _ _ Hs Hi) as Hv. pose proof (lookup_lt_Some _ _ _ Hi) as Hlt.
  destruct e as [|i' q|i' t|i' j c now]; cbn [step]; try (destruct (conns s !! i') as [u|] eqn:Hi'; [|by exists v]);
    try (destruct (decide (i' = i)) as [->|Hne]; [rewrite Hi in Hi'; injection Hi' as <-|]).
  - exists v. split; [by apply lookup_app_l_Some|done].
  - eexists. cbn [conns]. rewrite list_lookup_insert_eq by done. split_and!; [done|by apply lookup_app_l_Some|done].
  - exists v. cbn [conns]. by rewrite list_lookup_insert_ne.
  - eexists. cbn [conns]. by rewrite list_lookup_insert_eq.
  - exists v. cbn [conns]. by rewrite list_lookup_insert_ne.
  - pose proof Hv as (_ & Hp & _). destruct (po_stages _ Hp _ _ Hk) as [Hc _]. pose proof (fed_closed (virtualQueuedBytes s) v j c now Hv Hc) as Hf.
    assert (Ht : threads (snd (threadStep (virtualQueuedBytes s) v j c now)) !! k = Some XDone).
    { destruct (decide (k = j)) as [->|Hne]; [|by rewrite thread_frame]. unfold threadStep. by rewrite Hk. }
    destruct (threadStep _ _ _ _ _) as [virt v']. exists v'. cbn [conns]. by rewrite list_lookup_insert_eq.
  - destruct (threadStep _ _ _ _ _) as [virt v']. exists v. cbn [conns]. by rewrite list_lookup_insert_ne.
Qed.

Lemma done_run es i v k : conns (run es) !! i = Some v -> threads v !! k = Some XDone ->
  forall es', exists v', conns (run (es ++ es')) !! i = Some v' /\ threads v' !! k = Some XDone /\ fed v' = fed v.
Proof.
  intros Hi Hk es'. induction es' as [|e es' (v' & Hi' & Hk' & Hf)] using rev_ind; [rewrite app_nil_r; by exists v|].
  destruct (done_step _ e i v' k (connOk_run (es ++ es')) Hi' Hk') as (v'' & ? & ? & Hf'). exists v''. rewrite app_assoc. unfold run. rewrite foldl_app. split_and!; [done|done|congruence].
Qed.

(** ** What the connections guarantee *)

(** C29: Bytes and order: at every moment of every run the shared counter is the exact sum
    of what the queues of all connections and the goroutines at work on them hold, it is
    never negative and never above 64 MiB; a connection's own counter is exact too and
    never above 16 MiB, at most 8192 packets wait in its queue, and packets leave it in
    the order they were admitted, none lost and none twice. *)
Theorem virtual_bytes es :
  virtualQueuedBytes (run es) = sumZ load (conns (run es)) /\ 0 <= virtualQueuedBytes (run es) <= virtualLimit /\
  forall i v, conns (run es) !! i = Some v ->
    queuedBytes v = sumZ cost (recvCh v) + sumZ heldLocal (threads v) /\ 0 <= queuedBytes v <= connLimit /\
    len (recvCh v) <= recvCap /\ out v ++ recvCh v = fed v.
Proof.
  destruct (virtOk_run es) as [H1 H2 H3]. pose proof (sumZ_nonneg load (conns (run es)) load_nonneg). split_and!; [done|lia|done|].
  intros i v Hi. destruct (Forall_lookup_1 _ _ _ _ H1 Hi) as [V1 V2 V3 V4 _ _ _].
  pose proof (sumZ_nonneg cost (recvCh v) ltac:(intros it; pose proof (cost_pos it); lia)). pose proof (sumZ_nonneg heldLocal (threads v) ltac:(apply held_nonneg)).
  split_and!; [done|lia|done|done|done].
Qed.

(** C30: Close: once a call of [Close] has returned, its connection is closed and its queue
    empty, both for good: whatever runs afterwards, no packet is admitted any more.  Every
    writer ever made for a peer is then closed, or the goroutine that replaced or
    unregistered it is about to close it. *)
Theorem virtual_close es i v k :
  conns (run es) !! i = Some v -> threads v !! k = Some XDone ->
  (forall w, (w < length (writers v))%nat -> writers v !! w = Some true \/ exists j, threads v !! j = Some (CloseWriter w)) /\
  forall es', exists v', conns (run (es ++ es')) !! i = Some v' /\ closed v' = true /\ recvCh v' = [] /\ fed v' = fed v.
Proof.
  intros Hi Hk. destruct (Forall_lookup_1 _ _ _ _ (connOk_run es) Hi) as (_ & Hp & _). split.
  - intros w Hw. destruct (po_writers _ Hp w Hw) as [?|[(key & c & Ht)|?]]; auto. left. by apply (proj2 (po_stages _ Hp _ _ Hk) key c).
  - intros es'. destruct (done_run es i v k Hi Hk es') as (v' & Hi' & Hk' & Hf). exists v'. split; [done|].
    destruct (Forall_lookup_1 _ _ _ _ (connOk_run _) Hi') as (_ & _ & Hd). by destruct (do_stages _ Hd _ _ Hk').
Qed.

(** One connection: a peer is registered, a packet fed, the peer replaced, the connection
    closed with the packet still queued. *)
Definition closeRun : list event :=
  [ENew; EStart 0 (QRegister (bs "192.0.2.7:4000") 1); EStep 0 0 PQueue 0; EStart 0 (QFeed ([Byte.x01; Byte.x02], (bs "192.0.2.7:4000")))]
    ++ replicate 5 (EStep 0 1 PQueue 0)
    ++ [EStart 0 (QRegister (bs "192.0.2.7:4000") 2); EStep 0 2 PQueue 0; EStep 0 2 PQueue 0; EStart 0 QClose]
    ++ replicate 8 (EStep 0 3 PQueue 0).

(** The packet was admitted, [Close] gives its 66 bytes back and closes both writers. *)
Lemma virtual_close_witness :
  exists v, conns (run closeRun) !! 0%nat = Some v /\ threads v !! 3%nat = Some XDone /\ writers v = [true; true] /\ len (fed v) = 1 /\
    virtualQueuedBytes (run (take 9 closeRun)) = 66 /\ virtualQueuedBytes (run closeRun) = 0 /\
    (forall es', exists v', conns (run (closeRun ++ es')) !! 0%nat = Some v' /\ closed v' = true /\ recvCh v' = [] /\ fed v' = fed v).
Proof.
  assert (Hw : exists v, conns (run closeRun) !! 0%nat = Some v /\ threads v !! 3%nat = Some XDone /\ writers v = [true; true] /\ len (fed v) = 1) by (eexists; vm_compute; eauto).
  destruct Hw as (v & Hi & Hk & Hwr & Hfed). exists v. split_and!; [done|done|done|done|by vm_compute|by vm_compute|]. exact (proj2 (virtual_close closeRun 0 v 3 Hi Hk)).
Defined.
