(* ===== verification/Prober.v ===== *)
(** * The HTTP/2 health probe of the client: [pkg/client] (prober.go)

    Every three seconds one probe; two failures in a row send TCP tunnels to
    HTTP/3, ten successes in a row bring them back. *)
From S2P Require Import Prelude.

Open Scope Z_scope.

(** ** The code *)

Definition Millisecond : Z := 1000000.
Definition ErrCarrierNotReady := Errorf "chitanda: carrier dialer not ready".

(** [classifyH2Probe]: skip, failed. *)
Definition classifyH2Probe (rtt : Z) (err : option error) : bool * bool :=
  if bool_decide (err = Some ErrCarrierNotReady) then (true, false)
  else (false, bool_decide (is_Some err) || (2500 * Millisecond <? rtt)).

(** What [pingH2] makes of the answer: its status and session header. *)
Definition pingAnswer (rtt : Z) (err : option error) (status : Z) (sessionOK : bool) : Z * option error :=
  match err with
  | Some e => (0, Some e)
  | None => if negb (status =? 204) || negb sessionOK then (0, Some (Errorf "probe rejected")) else (rtt, None)
  end.

Record h2Prober := mkProber {
  h2Degraded : bool;
  consecutiveFails : Z;
  consecutiveSuccesses : Z;
}.

Definition newH2Prober : h2Prober := mkProber false 0 0.

(** One tick of [loop]. *)
Definition tick (p : h2Prober) (probe : Z * option error) : h2Prober :=
  let '(skip, failed) := classifyH2Probe (fst probe) (snd probe) in
  if skip then mkProber (h2Degraded p) 0 0
  else if failed then
    let fails := consecutiveFails p + 1 in
    mkProber (h2Degraded p || ((2 <=? fails) && negb (h2Degraded p))) fails 0
  else
    let successes := consecutiveSuccesses p + 1 in
    mkProber (h2Degraded p && negb ((10 <=? successes) && h2Degraded p)) 0 successes.

Definition loop (p : h2Prober) (probes : list (Z * option error)) : h2Prober := foldl tick p probes.

(** ** What it decides *)

Inductive verdict := Skipped | Failed | Succeeded.

#[export] Instance verdict_eq_dec : EqDecision verdict.
Proof. solve_decision. Defined.

Definition verdictOf (probe : Z * option error) : verdict :=
  match classifyH2Probe (fst probe) (snd probe) with
  | (true, _) => Skipped
  | (false, true) => Failed
  | (false, false) => Succeeded
  end.

(** The last [n] probes all ended so. *)
Definition lately (n : nat) (v : verdict) (probes : list (Z * option error)) : Prop :=
  replicate n v `suffix_of` (verdictOf <$> probes).

#[export] Instance lately_dec n v probes : Decision (lately n v probes).
Proof. unfold lately. apply _. Defined.

(** The rule: judged by the last probes only, otherwise as before. *)
Definition ruled (probes : list (Z * option error)) (before : bool) : bool :=
  if decide (lately 2 Failed probes) then true else if decide (lately 10 Succeeded probes) then false else before.

(** The counters are the lengths of the current runs. *)
Record counted (p : h2Prober) (probes : list (Z * option error)) : Prop := {
  ct_fails : 0 <= consecutiveFails p /\ forall n, lately n Failed probes <-> Z.of_nat n <= consecutiveFails p;
  ct_successes : 0 <= consecutiveSuccesses p /\ forall n, lately n Succeeded probes <-> Z.of_nat n <= consecutiveSuccesses p;
}.

Lemma lately_snoc n v probes x :
  lately n v (probes ++ [x]) <-> n = 0%nat \/ (verdictOf x = v /\ lately (pred n) v probes).
Proof.
  unfold lately. rewrite fmap_app. cbn. destruct n as [|n]; [split; [by left|intros _; apply suffix_nil]|].
  rewrite replicate_S_end. split.
  - intros H. right. pose proof (suffix_snoc_inv_1 _ _ _ _ H) as E. split; [by symmetry|]. by apply suffix_snoc_inv_2 in H.
  - intros [?|[-> H]]; [done|]. by apply suffix_snoc.
Qed.

Lemma run_step c v w probes x :
  0 <= c -> (forall n, lately n v probes <-> Z.of_nat n <= c) -> verdictOf x = w ->
  0 <= (if decide (w = v) then c + 1 else 0) /\ forall n, lately n v (probes ++ [x]) <-> Z.of_nat n <= (if decide (w = v) then c + 1 else 0).
Proof.
  intros Hc H <-. split; [case_decide; lia|]. intros n. rewrite lately_snoc. case_decide as E.
  - rewrite H. split; [intros [->|[_ ?]]; lia|]. intros ?. destruct n; [by left|]. right. split; [done|]. cbn. lia.
  - split; [intros [->|[? _]]; [lia|done]|]. intros ?. left. lia.
Qed.

Lemma tick_counted p probes x : counted p probes -> counted (tick p x) (probes ++ [x]).
Proof.
  intros [[F0 F] [S0 S]]. pose proof (run_step _ Failed (verdictOf x) probes x F0 F eq_refl) as HF.
  pose proof (run_step _ Succeeded (verdictOf x) probes x S0 S eq_refl) as HS. unfold tick, verdictOf in *.
  destruct (classifyH2Probe _ _) as [[] []]; split; done.
Qed.

Lemma counted_nil : counted newH2Prober [].
Proof.
  assert (H : forall v n, lately n v [] <-> Z.of_nat n <= 0).
  { intros v n. unfold lately. cbn. split.
    - intros Hs%suffix_length. rewrite length_replicate in Hs. cbn in Hs. lia.
    - intros Hn. assert (n = 0%nat) as -> by lia. apply suffix_nil. }
  split; (split; [done|]); apply H.
Qed.

Lemma loop_counted probes : counted (loop newH2Prober probes) probes.
Proof. unfold loop. induction probes as [|x probes IH] using rev_ind; [apply counted_nil|]. rewrite foldl_app. by apply tick_counted. Qed.

(** A run of failures is not a run of successes. *)
Lemma lately_exclusive n m probes : (0 < n)%nat -> (0 < m)%nat -> lately n Failed probes -> lately m Succeeded probes -> False.
Proof.
  destruct probes as [|x probes _] using rev_ind.
  - unfold lately. cbn. intros Hn _ Hs%suffix_length. rewrite length_replicate in Hs. cbn in Hs. lia.
  - rewrite !lately_snoc. intros Hn Hm [?|[E1 _]] [?|[E2 _]]; [lia..|congruence].
Qed.

(** ** Theorems *)

(** The fail-over rule, whatever the sequence of probes: TCP goes to HTTP/3
    exactly when the last two probes failed, back to HTTP/2 exactly when the
    last ten succeeded, and stays where it was otherwise; a probe without a
    dialer counts for neither and starts both counts afresh. *)
Theorem prober_rule probes x :
  h2Degraded (loop newH2Prober []) = false /\
  h2Degraded (loop newH2Prober (probes ++ [x])) = ruled (probes ++ [x]) (h2Degraded (loop newH2Prober probes)).
Proof.
  split; [done|]. pose proof (loop_counted probes) as [[F0 F] [S0 S]]. unfold loop at 1. rewrite foldl_app. cbn [foldl]. fold (loop newH2Prober probes).
  generalize dependent (loop newH2Prober probes). intros p F0 F S0 S.
  unfold ruled. pose proof (lately_snoc 2 Failed probes x) as H2. pose proof (lately_snoc 10 Succeeded probes x) as H10. cbn [pred] in H2, H10. rewrite F in H2. rewrite S in H10.
  rewrite (decide_ext _ _ true _ H2), (decide_ext _ _ false _ H10). unfold tick, verdictOf. destruct (classifyH2Probe _ _) as [[] []]; cbn [h2Degraded].
  - rewrite !decide_False by (intros [?|[? ?]]; done). done.
  - rewrite !decide_False by (intros [?|[? ?]]; done). done.
  - destruct (Z.leb_spec 2 (consecutiveFails p + 1)).
    + rewrite decide_True by (right; split; [done|lia]). by destruct (h2Degraded p).
    + rewrite !decide_False by (intros [?|[? ?]]; (done || lia)). by rewrite orb_false_r.
  - rewrite decide_False by (intros [?|[? ?]]; done). destruct (Z.leb_spec 10 (consecutiveSuccesses p + 1)).
    + rewrite decide_True by (right; split; [done|lia]). by destruct (h2Degraded p).
    + rewrite decide_False by (intros [?|[? ?]]; (done || lia)). cbn. by rewrite andb_true_r.
Qed.

(** A slow answer is a failure; a website instead of the tunnel is, too. *)
Lemma decoy_is_failure rtt status : pingAnswer rtt None status false = (0, Some (Errorf "probe rejected")) /\ verdictOf (pingAnswer rtt None status false) = Failed.
Proof. unfold pingAnswer. cbn [negb]. rewrite orb_true_r. by split. Qed.
