(* ===== verification/H3Manager.v ===== *)
(** * HTTP/3 connections of the client: [h3TransportManager] of [pkg/client]
      ([conn_udp.go], [lifecycle_h3_dial.go])

    One physical connection for TCP tunnels and one for UDP associations, dialled
    on demand: [ensureConnection] lets one caller dial and the others wait;
    [invalidate] drops a connection that is down; [close] ends everything.  A
    step is one critical section, one close of a connection or the dial, whose
    result is an argument.  Connections, dials and calls are numbered in the
    order of their creation. *)
From S2P Require Import Prelude GoNet.

Open Scope Z_scope.

Definition errCanceled := Errorf "context canceled".

(** ** Data *)

(** [&m.currentTCP] and [&m.currentUDP]. *)
Inductive slot := TCP | UDP.

#[export] Instance slot_eq_dec : EqDecision slot.
Proof. solve_decision. Defined.

(** [h3Connection]: whether its QUIC connection has ended, [closeOnce], and the
    dial it retains. *)
Record h3Connection := mkH3 {
  h_down : bool;
  h_closed : bool;
  h_dial : nat;
}.

(** [h3Dial] with its [h3DialLifetime]: the call that dials, whether the end of
    that call's context still cancels the dial, whether the dial's context is
    cancelled. *)
Record h3Dial := mkDial {
  d_owner : nat;
  d_hook : bool;
  d_cancelled : bool;
  d_done : bool;
  d_conn : option nat;
  d_err : option error;
}.

(** Calls: [ensureConnection] at its first check, at the lock, waiting for
    another's dial, with the old connection to close, dialling, before
    [establish], at the second lock, cleaning up; [invalidate] and [close] after
    their locks.  [ENil] is a nil connection without an error. *)
Inductive stage :=
  | EStart (s : slot)
  | ELock (s : slot)
  | EWait (p : nat)
  | EOld (s : slot) (p : nat) (old : nat)
  | EDial (s : slot) (p : nat)
  | EEstablish (s : slot) (p : nat) (conn : option nat) (err : option error)
  | EFinish (s : slot) (p : nat) (conn : option nat) (err : option error)
  | EAbort (p : nat) (conn : option nat) (err : error)
  | EDone (res : result nat)
  | ENil
  | IClose (c : nat)
  | XClose (l : list nat)
  | XDone.

Record manager := mkM {
  m_closed : bool;
  m_stopped : bool;                      (* lifetime *)
  m_tcp : option nat;
  m_udp : option nat;
  m_openTCP : option nat;                (* opening[&m.currentTCP] *)
  m_openUDP : option nat;
  m_conns : list h3Connection;
  m_dials : list h3Dial;
  m_calls : list stage;
  m_ended : list bool;                   (* ctx.Err() of the calls *)
}.

Definition newH3TransportManager : manager := mkM false false None None None None [] [] [] [].

Definition current (m : manager) (s : slot) : option nat := match s with TCP => m_tcp m | UDP => m_udp m end.
Definition opening (m : manager) (s : slot) : option nat := match s with TCP => m_openTCP m | UDP => m_openUDP m end.

(** Updates. *)
Definition setCurrent (m : manager) (s : slot) (c : option nat) : manager :=
  mkM (m_closed m) (m_stopped m) (match s with TCP => c | UDP => m_tcp m end) (match s with TCP => m_udp m | UDP => c end)
    (m_openTCP m) (m_openUDP m) (m_conns m) (m_dials m) (m_calls m) (m_ended m).
Definition setOpening (m : manager) (s : slot) (p : option nat) : manager :=
  mkM (m_closed m) (m_stopped m) (m_tcp m) (m_udp m) (match s with TCP => p | UDP => m_openTCP m end) (match s with TCP => m_openUDP m | UDP => p end)
    (m_conns m) (m_dials m) (m_calls m) (m_ended m).
Definition setConns (m : manager) (l : list h3Connection) : manager :=
  mkM (m_closed m) (m_stopped m) (m_tcp m) (m_udp m) (m_openTCP m) (m_openUDP m) l (m_dials m) (m_calls m) (m_ended m).
Definition setDials (m : manager) (l : list h3Dial) : manager :=
  mkM (m_closed m) (m_stopped m) (m_tcp m) (m_udp m) (m_openTCP m) (m_openUDP m) (m_conns m) l (m_calls m) (m_ended m).
Definition setCalls (m : manager) (l : list stage) (e : list bool) : manager :=
  mkM (m_closed m) (m_stopped m) (m_tcp m) (m_udp m) (m_openTCP m) (m_openUDP m) (m_conns m) (m_dials m) l e.
Definition goto (m : manager) (k : nat) (x : stage) : manager := setCalls m (<[k := x]> (m_calls m)) (m_ended m).
Definition spawn (m : manager) (x : stage) : manager := setCalls m (m_calls m ++ [x]) (m_ended m ++ [false]).

Definition ended (m : manager) (k : nat) : bool := default false (m_ended m !! k).

(** ** Connections and dials *)

(** [h3Connection.close]; nil is nobody. *)
Definition closeConn (m : manager) (c : option nat) : manager :=
  match c with
  | None => m
  | Some i => setConns m (alter (fun h => if h_closed h then h else mkH3 true true (h_dial h)) i (m_conns m))
  end.

Definition cancelDial (m : manager) (p : nat) : manager :=
  setDials m (alter (fun d => mkDial (d_owner d) false true (d_done d) (d_conn d) (d_err d)) p (m_dials m)).

Definition cancelOpening (m : manager) (s : slot) : manager :=
  match opening m s with None => m | Some p => cancelDial m p end.

(** [quic.Context().Err() == nil]. *)
Definition alive (m : manager) (i : nat) : bool := match m_conns m !! i with Some h => negb (h_down h) | None => false end.

(** ** [ensureConnection] *)

(** Without a live connection: wait for the dial that is under way or begin one. *)
Definition ensureOpen (m : manager) (k : nat) (s : slot) : manager :=
  match opening m s with
  | Some p => goto m k (EWait p)
  | None =>
      let old := current m s in
      let p := length (m_dials m) in
      let dead := ended m k || m_stopped m in
      let m := setCurrent m s None in
      let m := setDials m (m_dials m ++ [mkDial k (negb dead) dead false None None]) in
      goto (setOpening m s (Some p)) k (match old with Some i => EOld s p i | None => EDial s p end)
  end.

Definition ensureLock (m : manager) (k : nat) (s : slot) : manager :=
  if m_closed m then goto m k (EDone (Fail ErrNetClosed))
  else match current m s with
  | Some i => if alive m i then goto m k (EDone (Ok i)) else ensureOpen m k s
  | None => ensureOpen m k s
  end.

(** [dialConnection] returned. *)
Definition ensureDialled (m : manager) (k : nat) (s : slot) (p : nat) (res : option error) : manager :=
  match res with
  | Some err => goto m k (EEstablish s p None (Some err))
  | None =>
      let i := length (m_conns m) in
      goto (setConns m (m_conns m ++ [mkH3 false false p])) k (EEstablish s p (Some i) None)
  end.

(** [establish], unless the dial failed. *)
Definition ensureEstablish (m : manager) (k : nat) (s : slot) (p : nat) (conn : option nat) (err : option error) : manager :=
  match err, m_dials m !! p with
  | None, Some d =>
      let m1 := setDials m (<[p := mkDial (d_owner d) false (d_cancelled d) (d_done d) (d_conn d) (d_err d)]> (m_dials m)) in
      goto m1 k (EFinish s p conn (if ended m k || d_cancelled d then Some errCanceled else None))
  | _, _ => goto m k (EFinish s p conn err)
  end.

(** The second critical section. *)
Definition ensureFinish (m : manager) (k : nat) (s : slot) (p : nat) (conn : option nat) (err : option error) : manager :=
  match m_dials m !! p with
  | None => m
  | Some d =>
      let err := if m_closed m then Some ErrNetClosed else if d_cancelled d then Some errCanceled else err in
      let publish c e := setOpening (setDials m (<[p := mkDial (d_owner d) (d_hook d) (d_cancelled d) true c e]> (m_dials m))) s None in
      match err with
      | Some e => goto (publish None (Some e)) k (EAbort p conn e)
      | None =>
          match conn with
          | None => goto (publish None None) k ENil
          | Some i => goto (setCurrent (publish (Some i) None) s (Some i)) k (EDone (Ok i))
          end
      end
  end.

(** The select of a waiter: [pick] says which ready case it takes. *)
Inductive pick := PDone | PCtx | PStopped.

Definition ensureWait (m : manager) (k p : nat) (c : pick) : manager :=
  match c with
  | PDone =>
      match m_dials m !! p with
      | Some d =>
          if d_done d then
            match d_err d with
            | Some e => goto m k (EDone (Fail e))
            | None => match d_conn d with Some i => goto m k (EDone (Ok i)) | None => goto m k ENil end
            end
          else m
      | None => m
      end
  | PCtx => if ended m k then goto m k (EDone (Fail errCanceled)) else m
  | PStopped => if m_stopped m then goto m k (EDone (Fail ErrNetClosed)) else m
  end.

(** ** [invalidate] and [close] *)

Definition invalidate (m : manager) (c : nat) : manager :=
  let t := bool_decide (m_tcp m = Some c) in
  let u := bool_decide (m_udp m = Some c) in
  let m := if t then setCurrent m TCP None else m in
  let m := if u then setCurrent m UDP None else m in
  spawn m (if t || u then IClose c else XDone).

Definition close (m : manager) : manager :=
  if m_closed m then spawn m XDone
  else
    let l := option_list (m_tcp m) ++ option_list (m_udp m) in
    let m := mkM true true (m_tcp m) (m_udp m) (m_openTCP m) (m_openUDP m) (m_conns m) (m_dials m) (m_calls m) (m_ended m) in
    let m := cancelOpening (cancelOpening m TCP) UDP in
    spawn (setCurrent (setCurrent m TCP None) UDP None) (XClose l).

(** ** Steps *)

Inductive event :=
  | EvEnsure (s : slot)
  | EvInvalidate (c : nat)
  | EvClose
  | EvStep (k : nat) (c : pick) (res : option error)
  | EvEnd (k : nat)                        (* the context of call [k] ends *)
  | EvHook (p : nat)                       (* and cancels the dial it owns *)
  | EvDown (i : nat)                       (* a QUIC connection ends *)
  | EvRelease (i : nat).                   (* and cancels the dial it retains *)

Definition callStep (m : manager) (k : nat) (c : pick) (res : option error) : manager :=
  match m_calls m !! k with
  | Some (EStart s) => if ended m k then goto m k (EDone (Fail errCanceled)) else goto m k (ELock s)
  | Some (ELock s) => ensureLock m k s
  | Some (EWait p) => ensureWait m k p c
  | Some (EOld s p old) => goto (closeConn m (Some old)) k (EDial s p)
  | Some (EDial s p) => ensureDialled m k s p res
  | Some (EEstablish s p conn err) => ensureEstablish m k s p conn err
  | Some (EFinish s p conn err) => ensureFinish m k s p conn err
  | Some (EAbort p conn err) => goto (closeConn (cancelDial m p) conn) k (EDone (Fail err))
  | Some (IClose c) => goto (closeConn m (Some c)) k XDone
  | Some (XClose (i :: l)) => goto (closeConn m (Some i)) k (XClose l)
  | Some (XClose []) => goto m k XDone
  | Some (EDone _) | Some ENil | Some XDone | None => m
  end.

Definition step (m : manager) (e : event) : manager :=
  match e with
  | EvEnsure s => spawn m (EStart s)
  | EvInvalidate c => invalidate m c
  | EvClose => close m
  | EvStep k c res => callStep m k c res
  | EvEnd k => setCalls m (m_calls m) (<[k := true]> (m_ended m))
  | EvHook p =>
      match m_dials m !! p with
      | Some d => if d_hook d && ended m (d_owner d) then cancelDial m p else m
      | None => m
      end
  | EvDown i => setConns m (alter (fun h => mkH3 true (h_closed h) (h_dial h)) i (m_conns m))
  | EvRelease i =>
      match m_conns m !! i with
      | Some h => if h_down h then cancelDial m (h_dial h) else m
      | None => m
      end
  end.

Definition run (m : manager) (es : list event) : manager := foldl step m es.
