(* ===== verification/H3ManagerRuns.v ===== *)
(** * Runs of the HTTP/3 connection manager: what [H3Manager.v] guarantees *)
From S2P Require Import Prelude GoNet H3Manager.

Open Scope Z_scope.

(** ** The invariant *)

(** Connections a call will publish or close. *)
Definition holds (x : stage) : list nat :=
  match x with
  | EOld _ _ old => [old]
  | EEstablish _ _ conn _ | EFinish _ _ conn _ | EAbort _ conn _ => option_list conn
  | IClose c => [c]
  | XClose l => l
  | _ => []
  end.

(** Connections a call may still publish. *)
Definition cands (x : stage) : list nat :=
  match x with
  | EEstablish _ _ conn _ | EFinish _ _ conn _ => option_list conn
  | _ => []
  end.

(** Calls that are dialling. *)
Definition opener (x : stage) : option (slot * nat) :=
  match x with
  | EOld s p _ | EDial s p | EEstablish s p _ _ | EFinish s p _ _ => Some (s, p)
  | _ => None
  end.

Definition currents (m : manager) : list nat := option_list (m_tcp m) ++ option_list (m_udp m).
Definition owners (m : manager) : list nat := currents m ++ concat (holds <$> m_calls m).
Definition openings (m : manager) : list (slot * nat) := (pair TCP <$> option_list (m_openTCP m)) ++ (pair UDP <$> option_list (m_openUDP m)).

Definition stageOk (m : manager) (x : stage) : Prop :=
  match x with
  | EWait p => (p < length (m_dials m))%nat
  | EEstablish _ _ None None | EFinish _ _ None None | ENil => False
  | EDone (Ok i) => (i < length (m_conns m))%nat
  | _ => True
  end.

(** A dial that is done has a result; one that is not is some slot's. *)
Definition dialOk (m : manager) (p : nat) (d : h3Dial) : Prop :=
  (d_done d = true -> is_Some (d_err d) \/ exists i, d_conn d = Some i /\ (i < length (m_conns m))%nat) /\
  (d_done d = false -> exists s, opening m s = Some p).

Record inv (m : manager) : Prop := {
  iv_openers : omap opener (m_calls m) ≡ₚ openings m;
  iv_opening : forall s p, opening m s = Some p -> exists d, m_dials m !! p = Some d /\ d_done d = false /\ (m_closed m = true -> d_cancelled d = true);
  iv_distinct : forall p, m_openTCP m = Some p -> m_openUDP m = Some p -> False;
  iv_owned : forall i h, m_conns m !! i = Some h -> h_closed h = false -> i ∈ owners m;
  iv_nodup : NoDup (owners m);
  iv_range : forall i, i ∈ owners m -> (i < length (m_conns m))%nat;
  iv_live : forall i, i ∈ currents m \/ i ∈ concat (cands <$> m_calls m) -> exists h, m_conns m !! i = Some h /\ h_closed h = false;
  iv_exclusive : forall s p, opening m s = Some p -> current m s = None;
  iv_dials : forall p d, m_dials m !! p = Some d -> dialOk m p d;
  iv_stages : forall x, x ∈ m_calls m -> stageOk m x;
  iv_closed : m_closed m = true -> m_stopped m = true /\ m_tcp m = None /\ m_udp m = None;
}.

Lemma in_option_list {A} (o : option A) x : x ∈ option_list o <-> o = Some x.
Proof. destruct o as [y|]; cbn; [rewrite list_elem_of_singleton; split; congruence|]. split; [intros H; by apply elem_of_nil in H|done]. Qed.

Lemma in_openings m s p : (s, p) ∈ openings m <-> opening m s = Some p.
Proof.
  unfold openings, opening. rewrite elem_of_app, !list_elem_of_fmap. split.
  - intros [(q & [= -> ->] & Hq)|(q & [= -> ->] & Hq)]; by apply in_option_list in Hq.
  - destruct s; intros H; [left|right]; exists p; (split; [done|]); by apply in_option_list.
Qed.

Lemma opener_open m k x s p : inv m -> m_calls m !! k = Some x -> opener x = Some (s, p) -> opening m s = Some p.
Proof.
  intros Hi Hk Ho. apply in_openings. rewrite <- (iv_openers m Hi). apply list_elem_of_omap. exists x. split; [by eapply list_elem_of_lookup_2|done].
Qed.

Lemma owners_goto m k x y : m_calls m !! k = Some y -> holds y ++ owners (goto m k x) ≡ₚ holds x ++ owners m.
Proof.
  intros Hk. unfold owners. change (currents (goto m k x)) with (currents m). cbn [goto setCalls m_calls].
  rewrite !(Permutation_app_comm (currents m)), !app_assoc. f_equiv. by apply concat_fmap_insert.
Qed.

Lemma cands_holds l i : i ∈ concat (cands <$> l) -> i ∈ concat (holds <$> l).
Proof.
  induction l as [|x l IH]; cbn; [done|]. rewrite !elem_of_app. intros [Hi|Hi]; [left|right; auto]. destruct x; cbn in *; try done; by apply elem_of_nil in Hi.
Qed.

Lemma cands_goto m k x y i :
  m_calls m !! k = Some y -> cands x = [] \/ cands x = cands y -> i ∈ concat (cands <$> m_calls (goto m k x)) -> i ∈ concat (cands <$> m_calls m).
Proof.
  intros Hk Hc Hi. assert (i ∈ cands y ++ concat (cands <$> <[k := x]> (m_calls m))) as Hin by (apply elem_of_app; by right).
  rewrite (concat_fmap_insert cands (m_calls m) k x y Hk) in Hin. apply elem_of_app in Hin as [Hin|?]; [|done]. destruct Hc as [E|E]; rewrite E in Hin; [by apply elem_of_nil in Hin|].
  rewrite <- (take_drop_middle _ _ _ Hk), fmap_app, fmap_cons, concat_app, concat_cons, !elem_of_app. tauto.
Qed.

Lemma stages_goto m k x y : (forall z, z ∈ m_calls m -> stageOk m z) -> m_calls m !! k = Some y -> stageOk m x ->
  forall z, z ∈ m_calls (goto m k x) -> stageOk m z.
Proof.
  intros Hs Hk Hx z Hz. apply list_elem_of_lookup in Hz as [j Hj]. cbn [goto setCalls m_calls] in Hj. destruct (decide (k = j)) as [<-|Hne].
  - rewrite list_lookup_insert_eq in Hj by (by eapply lookup_lt_Some). by injection Hj as <-.
  - rewrite list_lookup_insert_ne in Hj by done. apply Hs. by eapply list_elem_of_lookup_2.
Qed.

(** A call goes on with what it holds. *)
Lemma goto_inv m k x y :
  inv m -> m_calls m !! k = Some y -> holds x = holds y -> opener x = opener y -> cands x = [] \/ cands x = cands y -> stageOk m x -> inv (goto m k x).
Proof.
  intros [H1 H2 H3 H4 H5 H6 H7 H7' H8 H9 H10] Hk Hh Ho Hcand Hx. pose proof (owners_goto m k x y Hk) as Hp. rewrite Hh in Hp. apply Permutation_app_inv_l in Hp.
  split; try done.
  - change (openings (goto m k x)) with (openings m). rewrite <- H1. pose proof (omap_insert opener (m_calls m) k x y Hk) as Hq. rewrite Ho in Hq. by apply Permutation_app_inv_l in Hq.
  - intros i h Hi Hc. rewrite Hp. eauto.
  - by rewrite Hp.
  - intros i Hi. rewrite Hp in Hi. eauto.
  - intros i [Hi|Hi]; apply H7; [by left|right]. eapply (cands_goto m k x); [exact Hk|auto|eassumption].
  - by apply (stages_goto m k x y).
Qed.

Ltac goes := eapply goto_inv; [eassumption|eassumption|done|done|by (left + right)|try done].

Lemma spawn_inv m x : inv m -> opener x = None -> holds x = [] -> stageOk m x -> inv (spawn m x).
Proof.
  intros [H1 H2 H3 H4 H5 H6 H7 H7' H8 H9 H10] Ho Hh Hx.
  assert (owners (spawn m x) = owners m) as Eo by (unfold owners; cbn [spawn setCalls m_calls]; rewrite fmap_app, concat_app; cbn; by rewrite Hh, !app_nil_r).
  split; try done; rewrite ?Eo; try done.
  - cbn [spawn setCalls m_calls]. rewrite omap_app. cbn. by rewrite Ho, app_nil_r.
  - intros i [Hi|Hi]; apply H7; [by left|right]. cbn [spawn setCalls m_calls] in Hi. rewrite fmap_app, concat_app, elem_of_app in Hi. destruct Hi as [?|Hi]; [done|].
    apply (cands_holds [x]) in Hi. cbn in Hi. rewrite Hh in Hi. by apply elem_of_nil in Hi.
  - intros z [Hz|Hz]%elem_of_app; [by apply H9|]. by apply list_elem_of_singleton in Hz as ->.
Qed.

(** ** Closing *)

Lemma conns_close m i j h' :
  m_conns (closeConn m (Some i)) !! j = Some h' -> exists h, m_conns m !! j = Some h /\ (h_closed h' = false -> h_closed h = false /\ j <> i) /\ (j <> i -> h' = h).
Proof.
  cbn [closeConn setConns m_conns]. rewrite list_lookup_alter. case_decide as Hd; [subst j|intros Hj; exists h'; split; [done|]; split; [intros Hc; split; [done|congruence]|done]].
  destruct (m_conns m !! i) as [h|]; [|done]. cbn. intros [= <-]. exists h. split; [done|]. split; [|done]. destruct (h_closed h) eqn:E; cbn; [by rewrite E|done].
Qed.

(** A call closes a connection it holds. *)
Lemma close_goto m k i x y :
  inv m -> m_calls m !! k = Some y -> holds y = i :: holds x -> opener x = opener y -> cands x = [] -> stageOk m x -> inv (goto (closeConn m (Some i)) k x).
Proof.
  intros Hinv Hk Hh Ho Hcand Hx. pose proof Hinv as [H1 H2 H3 H4 H5 H6 H7 H7' H8 H9 H10]. set (m1 := closeConn m (Some i)).
  assert (Hp : i :: owners (goto m1 k x) ≡ₚ owners m).
  { pose proof (owners_goto m k x y Hk) as Hp. rewrite Hh in Hp. change (owners (goto m1 k x)) with (owners (goto m k x)).
    rewrite <- app_comm_cons, Permutation_middle in Hp. by apply Permutation_app_inv_l in Hp. }
  assert (Hlen : length (m_conns m1) = length (m_conns m)) by (cbn [m1 closeConn setConns m_conns]; apply length_alter).
  assert (Hstage : forall z, stageOk m z -> stageOk (goto m1 k x) z) by (intros z; unfold stageOk; cbn [goto setCalls m_conns m_dials]; by rewrite Hlen).
  assert (Hnd : NoDup (i :: owners (goto m1 k x))) by (by rewrite Hp). apply NoDup_cons in Hnd as [Hnot Hnd].
  split; try done.
  - change (openings (goto m1 k x)) with (openings m). rewrite <- H1. pose proof (omap_insert opener (m_calls m) k x y Hk) as Hq. rewrite Ho in Hq. by apply Permutation_app_inv_l in Hq.
  - intros j h' Hj Hc. destruct (conns_close m i j h' Hj) as (h & Hh' & Hcl & _). destruct (Hcl Hc) as [Hcl' Hne].
    pose proof (H4 j h Hh' Hcl') as Hin. rewrite <- Hp in Hin. by apply elem_of_cons in Hin as [->|?].
  - intros j Hj. cbn [goto setCalls m_conns]. rewrite Hlen. apply H6. rewrite <- Hp. by right.
  - intros j Hj. assert (j ∈ owners (goto m1 k x)) as Hown by (apply elem_of_app; destruct Hj as [?|?%cands_holds]; [by left|by right]).
    destruct (H7 j) as (h & Hh' & Hc); [destruct Hj as [?|Hj]; [by left|right; eapply cands_goto; [exact Hk|by left|exact Hj]]|].
    exists h. split; [|done]. cbn [goto setCalls m1 closeConn setConns m_conns]. rewrite list_lookup_alter_ne; [done|]. by intros ->.
  - intros p d Hd. destruct (H8 p d Hd) as [D1 D2]. split; [|done]. intros Hdone. destruct (D1 Hdone) as [?|(j & ? & ?)]; [by left|right; exists j]. cbn [goto setCalls m_conns]. by rewrite Hlen.
  - intros z Hz. apply Hstage. by apply (stages_goto m k x y).
Qed.

(** Dials that change only in their contexts. *)
Lemma dials_inv m l :
  inv m -> length l = length (m_dials m) ->
  (forall p d', l !! p = Some d' -> exists d, m_dials m !! p = Some d /\ d_done d' = d_done d /\ d_conn d' = d_conn d /\ d_err d' = d_err d /\ (d_cancelled d = true -> d_cancelled d' = true)) ->
  inv (setDials m l).
Proof.
  intros [H1 H2 H3 H4 H5 H6 H7 H7' H8 H9 H10] Hlen Hl. split; try done.
  - intros s p Hp. destruct (H2 s p Hp) as (d & Hd & Hdone & Hc). assert (p < length l)%nat as Hlt by (rewrite Hlen; by eapply lookup_lt_Some).
    apply lookup_lt_is_Some in Hlt as [d' Hd']. destruct (Hl p d' Hd') as (d0 & Hd0 & E1 & _ & _ & E4). rewrite Hd in Hd0. injection Hd0 as <-. exists d'. split; [done|]. split; [congruence|auto].
  - intros p d' Hd'. destruct (Hl p d' Hd') as (d & Hd & E1 & E2 & E3 & _). destruct (H8 p d Hd) as [D1 D2]. split; rewrite ?E1, ?E2, ?E3; done.
  - intros z Hz. specialize (H9 z Hz). destruct z as [| |p| | |? ? [?|] [?|]|? ? [?|] [?|]| |[?|]| | | |]; cbn [stageOk setDials m_dials m_conns] in *; try done. by rewrite Hlen.
Qed.

Lemma cancelDial_inv m p : inv m -> inv (cancelDial m p).
Proof.
  intros Hi. apply dials_inv; [done|apply length_alter|]. intros q d'. rewrite list_lookup_alter. case_decide as E; [subst q|intros H; by exists d'].
  destruct (m_dials m !! p) as [d|]; [|done]. cbn. intros [= <-]. by exists d.
Qed.

(** ** [ensureConnection] *)

Lemma ensureOpen_inv m k s : inv m -> m_calls m !! k = Some (ELock s) -> m_closed m = false -> inv (ensureOpen m k s).
Proof.
  intros Hinv Hk Hcl. pose proof Hinv as [H1 H2 H3 H4 H5 H6 H7 H7' H8 H9 H10]. unfold ensureOpen. destruct (opening m s) as [p|] eqn:Eo.
  { goes. destruct (H2 s p Eo) as (d & Hd & _). by eapply lookup_lt_Some. }
  cbn zeta. set (p := length (m_dials m)). set (dead := ended m k || m_stopped m). set (d0 := mkDial k (negb dead) dead false None None).
  set (x := match current m s with Some i => EOld s p i | None => EDial s p end).
  change (m_dials (setCurrent m s None)) with (m_dials m). set (m1 := setDials (setCurrent m s None) (m_dials m ++ [d0])). set (m2 := setOpening m1 s (Some p)).
  assert (Hown : owners (goto m2 k x) ≡ₚ owners m).
  { pose proof (owners_goto m2 k x (ELock s) Hk) as Hp. cbn [holds app] in Hp. rewrite Hp. unfold owners, currents.
    change (m_calls m2) with (m_calls m). unfold x. destruct s; cbn [current m2 setOpening m1 setDials setCurrent m_tcp m_udp option_list app].
    - destruct (m_tcp m); cbn [holds app option_list]; done.
    - destruct (m_udp m); cbn [holds app option_list]; rewrite ?app_nil_r; [|done].
      cbn [option_list]. rewrite <- app_assoc. cbn [app]. apply Permutation_middle. }
  assert (Hcur : forall i, i ∈ currents (goto m2 k x) -> i ∈ currents m).
  { intros i. unfold currents. destruct s; cbn [goto setCalls m2 setOpening m1 setDials setCurrent m_tcp m_udp option_list app]; rewrite ?elem_of_app; set_solver. }
  assert (Hop : forall s' q, opening (goto m2 k x) s' = Some q -> (s' = s /\ q = p) \/ opening m s' = Some q).
  { intros s' q. destruct s, s'; cbn; intros E; try (by right); left; (split; [done|congruence]). }
  assert (Hnotp : forall s' q, opening m s' = Some q -> q <> p).
  { intros s' q Hq ->. destruct (H2 s' p Hq) as (d & Hd & _). apply lookup_lt_Some in Hd. unfold p in Hd. lia. }
  split.
  - pose proof (omap_insert opener (m_calls m) k x (ELock s) Hk) as Hq. cbn [opener app] in Hq. cbn [goto setCalls m_calls m2 setOpening m1 setDials setCurrent]. rewrite Hq.
    assert (opener x = Some (s, p)) as -> by (unfold x; by destruct (current m s)). rewrite H1. unfold openings. unfold opening in Eo.
    destruct s; cbn [goto setCalls m2 setOpening m1 setDials setCurrent m_openTCP m_openUDP]; rewrite Eo; cbn; [done|]. rewrite app_nil_r. apply Permutation_cons_append.
  - intros s' q Hq. destruct (Hop s' q Hq) as [[-> ->]|Hq'].
    + exists d0. split; [|split; [done|]]; [cbn [goto setCalls m2 setOpening m1 setDials m_dials]; unfold p; by rewrite lookup_app_r, Nat.sub_diag by lia|]. cbn. congruence.
    + destruct (H2 s' q Hq') as (d & Hd & ? & ?). exists d. split; [|done]. by apply lookup_app_l_Some.
  - intros q. destruct s; cbn; [intros [= <-] Hq; by apply (Hnotp UDP p)|intros Hq [= <-]; by apply (Hnotp TCP p)].
  - intros i h Hi Hc. rewrite Hown. by apply (H4 i h).
  - by rewrite Hown.
  - intros i Hi. rewrite Hown in Hi. by apply H6.
  - intros i [Hi|Hi]; apply H7; [left; by apply Hcur|right]. eapply (cands_goto m k x); [exact Hk|left; unfold x; by destruct (current m s)|exact Hi].
  - intros s' q Hq. destruct (Hop s' q Hq) as [[-> ->]|Hq']; [by destruct s|]. pose proof (H7' s' q Hq'). by destruct s, s'.
  - intros q d Hd. cbn [goto setCalls m2 setOpening m1 setDials m_dials] in Hd. apply lookup_app_Some in Hd as [Hd|[Hge Hd]].
    + destruct (H8 q d Hd) as [D1 D2]. split; [done|]. intros Hdone. destruct (D2 Hdone) as [s' Hs']. exists s'. destruct s, s'; cbn in *; congruence.
    + fold p in Hge, Hd. destruct (q - p)%nat eqn:E; [|done]. injection Hd as <-. split; [done|]. intros _. exists s. assert (q = p) as -> by lia. by destruct s.
  - assert (Hmono : forall z, stageOk m z -> stageOk (goto m2 k x) z).
    { intros z. destruct z as [| |q| | |? ? [?|] [?|]|? ? [?|] [?|]| |[?|]| | | |]; cbn [stageOk goto setCalls m2 setOpening m1 setDials m_dials m_conns setCurrent]; try done. rewrite length_app. lia. }
    intros z Hz. apply Hmono. apply (stages_goto m k x (ELock s)); try done. unfold x. by destruct (current m s).
  - cbn. congruence.
Qed.

Lemma ensureLock_inv m k s : inv m -> m_calls m !! k = Some (ELock s) -> inv (ensureLock m k s).
Proof.
  intros Hinv Hk. unfold ensureLock. destruct (m_closed m) eqn:Ec; [goes|].
  destruct (current m s) as [i|] eqn:Ecur; [|by apply ensureOpen_inv]. destruct (alive m i); [|by apply ensureOpen_inv].
  goes. apply (iv_range m Hinv). unfold owners, currents. destruct s; cbn [current] in Ecur; rewrite Ecur; set_solver.
Qed.

Lemma ensureDialled_inv m k s p res : inv m -> m_calls m !! k = Some (EDial s p) -> inv (ensureDialled m k s p res).
Proof.
  intros Hinv Hk. unfold ensureDialled. destruct res as [err|]; [goes|]. cbn zeta.
  pose proof Hinv as [H1 H2 H3 H4 H5 H6 H7 H7' H8 H9 H10]. set (i := length (m_conns m)). set (m1 := setConns m (m_conns m ++ [mkH3 false false p])).
  set (x := EEstablish s p (Some i) None).
  assert (Hown : owners (goto m1 k x) ≡ₚ i :: owners m) by (pose proof (owners_goto m1 k x _ Hk) as Hp; by rewrite Hp).
  assert (Hlen : length (m_conns m1) = S (length (m_conns m))) by (cbn [m1 setConns m_conns]; rewrite length_app; cbn; lia).
  split; try done.
  - change (openings (goto m1 k x)) with (openings m). rewrite <- H1. pose proof (omap_insert opener (m_calls m) k x _ Hk) as Hq. by apply Permutation_app_inv_l in Hq.
  - intros j h Hj Hc. rewrite Hown. cbn [goto setCalls m1 setConns m_conns] in Hj. apply lookup_app_Some in Hj as [Hj|[Hge Hj]]; [right; by apply (H4 j h)|].
    fold i in Hge, Hj. destruct (j - i)%nat eqn:E; [|done]. assert (j = i) as -> by lia. by left.
  - rewrite Hown. apply NoDup_cons. split; [|done]. intros Hi%H6. unfold i in Hi. lia.
  - intros j. rewrite Hown. cbn [goto setCalls m_conns]. rewrite Hlen. intros [->|Hj%H6]%elem_of_cons; unfold i; lia.
  - intros j Hj. assert (j = i \/ (j ∈ currents m \/ j ∈ concat (cands <$> m_calls m))) as [->|Hj'].
    { destruct Hj as [Hj|Hj]; [by right; left|]. assert (j ∈ cands (EDial s p) ++ concat (cands <$> <[k := x]> (m_calls m))) as Hin by (apply elem_of_app; by right).
      rewrite (concat_fmap_insert cands (m_calls m) k x _ Hk) in Hin. apply elem_of_app in Hin as [Hin|?]; [left; by apply list_elem_of_singleton in Hin|by right; right]. }
    + exists (mkH3 false false p). split; [|done]. cbn [goto setCalls m1 setConns m_conns]. unfold i. by rewrite lookup_app_r, Nat.sub_diag by lia.
    + destruct (H7 j Hj') as (h & Hh & Hc). exists h. split; [by apply lookup_app_l_Some|done].
  - intros q d Hd. destruct (H8 q d Hd) as [D1 D2]. split; [|done]. intros Hdone. destruct (D1 Hdone) as [?|(j & ? & ?)]; [by left|right; exists j]. cbn [goto setCalls m_conns]. rewrite Hlen. split; [done|lia].
  - intros z Hz. assert (stageOk m z \/ z = x) as [Hz'| ->]; [|clear -Hz'|done].
    + apply list_elem_of_lookup in Hz as [j Hj]. cbn [goto setCalls m_calls m1 setConns] in Hj. destruct (decide (k = j)) as [<-|Hne].
      * rewrite list_lookup_insert_eq in Hj by (by eapply lookup_lt_Some). injection Hj as <-. by right.
      * rewrite list_lookup_insert_ne in Hj by done. left. apply H9. by eapply list_elem_of_lookup_2.
    + destruct z as [| |q| | |? ? [?|] [?|]|? ? [?|] [?|]| |[?|]| | | |]; cbn [stageOk goto setCalls m1 setConns m_dials m_conns] in *; try done. rewrite length_app. lia.
Qed.

Lemma ensureEstablish_inv m k s p conn err : inv m -> m_calls m !! k = Some (EEstablish s p conn err) -> inv (ensureEstablish m k s p conn err).
Proof.
  intros Hinv Hk. pose proof (iv_stages m Hinv _ (list_elem_of_lookup_2 _ _ _ Hk)) as Hst. unfold ensureEstablish.
  destruct err as [e|]; [goes; by destruct conn|]. destruct conn as [i|]; [|done].
  destruct (m_dials m !! p) as [d|] eqn:Ed; [|goes]. cbn zeta. set (m1 := setDials m _).
  assert (inv m1) as Hinv1.
  { apply dials_inv; [done|apply length_insert|]. intros q d'. destruct (decide (p = q)) as [<-|Hne].
    - rewrite list_lookup_insert_eq by (by eapply lookup_lt_Some). intros [= <-]. by exists d.
    - rewrite list_lookup_insert_ne by done. intros Hq. by exists d'. }
  goes.
Qed.

(** The dial is done: the slot is free, the result is there for the waiters. *)
Lemma publish_inv m k s p conn err d c e x :
  inv m -> m_calls m !! k = Some (EFinish s p conn err) -> m_dials m !! p = Some d ->
  (is_Some e \/ exists i, c = Some i /\ (i < length (m_conns m))%nat) -> opener x = None -> cands x = [] -> stageOk m x ->
  let m1 := setOpening (setDials m (<[p := mkDial (d_owner d) (d_hook d) (d_cancelled d) true c e]> (m_dials m))) s None in
  (holds x = option_list conn -> inv (goto m1 k x)) /\
  (forall i, conn = Some i -> m_closed m = false -> holds x = [] -> inv (goto (setCurrent m1 s (Some i)) k x)).
Proof.
  intros Hinv Hk Hd Hres Hox Hcx Hx m1. pose proof Hinv as [H1 H2 H3 H4 H5 H6 H7 H7' H8 H9 H10].
  pose proof (opener_open m k _ s p Hinv Hk eq_refl) as Hopen.
  assert (Hopn : forall s' q, opening m1 s' = Some q -> s' <> s /\ opening m s' = Some q /\ q <> p).
  { intros s' q Hq. destruct s, s'; cbn in Hq |- *; try done; (split; [done|]); (split; [done|]); intros ->; cbn in Hopen; eauto. }
  assert (Hdial : forall q, q <> p -> m_dials m1 !! q = m_dials m !! q) by (intros q Hq; cbn [m1 setOpening setDials m_dials]; by rewrite list_lookup_insert_ne).
  assert (Hperm : omap opener (<[k := x]> (m_calls m)) ≡ₚ openings m1).
  { pose proof (omap_insert opener (m_calls m) k x _ Hk) as Hq. rewrite Hox in Hq. cbn [opener app] in Hq. rewrite H1 in Hq. unfold openings in *. destruct s; cbn in Hopen |- *; rewrite Hopen in Hq; cbn in Hq.
    - by apply Permutation_cons_inv in Hq.
    - rewrite app_nil_r. rewrite (Permutation_app_comm _ [_]) in Hq. cbn in Hq. by apply Permutation_cons_inv in Hq. }
  assert (Hdials : forall q d', m_dials m1 !! q = Some d' -> dialOk m1 q d').
  { intros q d'. destruct (decide (q = p)) as [->|Hne].
    - cbn [m1 setOpening setDials m_dials]. rewrite list_lookup_insert_eq by (by eapply lookup_lt_Some). intros [= <-]. split; [done|by cbn].
    - rewrite (Hdial q Hne). intros Hq. destruct (H8 q d' Hq) as [D1 D2]. split; [done|]. intros Hdone. destruct (D2 Hdone) as [s' Hs']. exists s'.
      destruct s, s'; cbn in *; congruence. }
  assert (Hstages : forall z, z ∈ <[k := x]> (m_calls m) -> stageOk m1 z).
  { intros z Hz. assert (stageOk m z) as Hz' by (by apply (stages_goto m k x (EFinish s p conn err))).
    destruct z as [| |q| | |? ? [?|] [?|]|? ? [?|] [?|]| |[?|]| | | |]; cbn [stageOk m1 setOpening setDials m_dials m_conns] in *; try done. by rewrite length_insert. }
  assert (Hopening : forall s' q, opening m1 s' = Some q -> exists d', m_dials m1 !! q = Some d' /\ d_done d' = false /\ (m_closed m = true -> d_cancelled d' = true)).
  { intros s' q Hq. destruct (Hopn s' q Hq) as (_ & Hq' & Hne). rewrite (Hdial q Hne). eauto. }
  assert (Hdist : forall q, m_openTCP m1 = Some q -> m_openUDP m1 = Some q -> False) by (intros q; destruct s; done).
  split.
  - intros Hh. pose proof (owners_goto m1 k x _ Hk) as Hp. cbn [holds] in Hp. rewrite Hh in Hp. apply Permutation_app_inv_l in Hp. change (owners m1) with (owners m) in Hp.
    split; try done.
    + intros i h Hi Hc. rewrite Hp. eauto.
    + by rewrite Hp.
    + intros i Hi. rewrite Hp in Hi. by apply H6.
    + intros i [Hi|Hi]; apply H7; [by left|right]. eapply (cands_goto m k x); [exact Hk|auto|eassumption].
    + intros s' q Hq. destruct (Hopn s' q Hq) as (_ & Hq' & _). by apply (H7' s' q).
  - intros i -> Hcl Hh. pose proof (H7' s p Hopen) as Hcur.
    destruct (H7 i) as (h0 & Hh0 & Hc0). { right. rewrite <- (take_drop_middle _ _ _ Hk), fmap_app, fmap_cons, concat_app, concat_cons, !elem_of_app. right. left. by left. }
    set (m2 := setCurrent m1 s (Some i)).
    assert (Hp : owners (goto m2 k x) ≡ₚ owners m).
    { pose proof (owners_goto m2 k x _ Hk) as Hp. rewrite Hh in Hp. cbn [holds option_list app] in Hp. apply (Permutation_cons_inv (a := i)). rewrite Hp. unfold owners. change (m_calls m2) with (m_calls m).
      rewrite app_comm_cons. f_equiv. unfold currents. destruct s; cbn in Hcur |- *; rewrite Hcur; cbn; [done|]. rewrite app_nil_r. symmetry. apply Permutation_cons_append. }
    split; try done.
    + intros j h Hj Hc. rewrite Hp. by apply (H4 j h).
    + by rewrite Hp.
    + intros j Hj. rewrite Hp in Hj. by apply H6.
    + intros j [Hj|Hj]; [|apply H7; right; eapply (cands_goto m k x); [exact Hk|auto|eassumption]].
      assert (j = i \/ j ∈ currents m) as [->|Hj']; [|by exists h0|by apply H7; left].
      unfold currents in *. destruct s; cbn in Hj |- *; rewrite ?elem_of_cons, ?elem_of_app, ?list_elem_of_singleton in *; tauto.
    + intros s' q Hq. destruct (Hopn s' q) as (Hne & Hq' & _); [by destruct s'|]. pose proof (H7' s' q Hq'). by destruct s, s'.
    + cbn. congruence.
Qed.

Lemma ensureFinish_inv m k s p conn err : inv m -> m_calls m !! k = Some (EFinish s p conn err) -> inv (ensureFinish m k s p conn err).
Proof.
  intros Hinv Hk. pose proof (iv_stages m Hinv _ (list_elem_of_lookup_2 _ _ _ Hk)) as Hst. pose proof (opener_open m k _ s p Hinv Hk eq_refl) as Hopen.
  unfold ensureFinish. destruct (iv_opening m Hinv s p Hopen) as (d & Hd & _). rewrite Hd. cbn zeta.
  assert (Hfail : forall e, inv (goto (setOpening (setDials m (<[p := mkDial (d_owner d) (d_hook d) (d_cancelled d) true None (Some e)]> (m_dials m))) s None) k (EAbort p conn e))).
  { intros e. eapply (publish_inv m k s p conn err d None (Some e)); try done. left. by eexists. }
  destruct (m_closed m) eqn:Ec; [apply Hfail|]. destruct (d_cancelled d) eqn:Edc; [apply Hfail|]. destruct err as [e|]; [apply Hfail|]. destruct conn as [i|]; [|done].
  assert (Hlt : (i < length (m_conns m))%nat).
  { apply (iv_range m Hinv), elem_of_app. right. rewrite <- (take_drop_middle _ _ _ Hk), fmap_app, fmap_cons, concat_app, concat_cons, !elem_of_app. right. left. by left. }
  destruct (publish_inv m k s p (Some i) None d (Some i) None (EDone (Ok i))) as [_ Hpub]; try done; [right; by exists i|]. rewrite Edc in Hpub. by apply Hpub.
Qed.

Lemma ensureWait_inv m k p c : inv m -> m_calls m !! k = Some (EWait p) -> inv (ensureWait m k p c).
Proof.
  intros Hinv Hk. unfold ensureWait. destruct c.
  - destruct (m_dials m !! p) as [d|] eqn:Ed; [|done]. destruct (d_done d) eqn:Edone; [|done]. destruct (iv_dials m Hinv p d Ed) as [D1 _].
    destruct (D1 Edone) as [[e He]|(i & Hi & Hlt)]; [rewrite He; goes|]. destruct (d_err d); [goes|]. rewrite Hi. goes.
  - destruct (ended m k); [goes|done].
  - destruct (m_stopped m); [goes|done].
Qed.

(** ** [invalidate], [close] and the outside *)

(** Connections leave their slots for a call that will close them. *)
Lemma retire_inv m m' x l :
  inv m -> m_calls m' = m_calls m -> m_conns m' = m_conns m -> m_dials m' = m_dials m -> m_openTCP m' = m_openTCP m -> m_openUDP m' = m_openUDP m ->
  m_closed m' = m_closed m -> m_stopped m' = m_stopped m ->
  currents m ≡ₚ currents m' ++ l -> (forall s, current m' s = current m s \/ current m' s = None) -> holds x = l -> opener x = None -> cands x = [] -> stageOk m x ->
  inv (spawn m' x).
Proof.
  intros [H1 H2 H3 H4 H5 H6 H7 H7' H8 H9 H10] E1 E2 E3 E4 E5 E6 E7 Hp Hcur Hh Ho Hc Hx.
  assert (Eop : forall s, opening m' s = opening m s) by (intros []; cbn; done).
  assert (Hown : owners (spawn m' x) ≡ₚ owners m).
  { unfold owners. cbn [spawn setCalls m_calls]. rewrite E1, fmap_app, concat_app. cbn. rewrite Hh, app_nil_r, Hp, (Permutation_app_comm (concat _)), app_assoc. done. }
  assert (Hsub : forall i, i ∈ currents m' -> i ∈ currents m) by (intros i Hi; rewrite Hp; apply elem_of_app; by left).
  split; cbn [spawn setCalls m_conns m_dials m_closed m_stopped m_openTCP m_openUDP m_tcp m_udp m_calls].
  - rewrite E1, omap_app. cbn. rewrite Ho, app_nil_r, H1. unfold openings. cbn. by rewrite E4, E5.
  - intros s p. change (opening (spawn m' x) s) with (opening m' s). rewrite Eop, E3, E6. apply H2.
  - rewrite E4, E5. done.
  - intros i h. rewrite E2, Hown. apply H4.
  - by rewrite Hown.
  - intros i. rewrite Hown, E2. apply H6.
  - intros i Hi. rewrite E2. apply H7. destruct Hi as [Hi|Hi]; [left; by apply Hsub|right]. rewrite E1, fmap_app, concat_app in Hi. cbn in Hi. rewrite Hc in Hi. by rewrite app_nil_r in Hi.
  - intros s p. change (opening (spawn m' x) s) with (opening m' s). change (current (spawn m' x) s) with (current m' s). rewrite Eop. intros Hs.
    destruct (Hcur s) as [->|]; [by apply (H7' s p)|done].
  - intros p d Hd. rewrite E3 in Hd. destruct (H8 p d Hd) as [D1 D2]. split; cbn [spawn setCalls m_conns].
    + rewrite E2. done.
    + intros Hdone. destruct (D2 Hdone) as [s Hs]. exists s. change (opening (spawn m' x) s) with (opening m' s). by rewrite Eop.
  - intros z Hz. assert (stageOk m z) as Hz' by (rewrite E1 in Hz; apply elem_of_app in Hz as [Hz|Hz]; [by apply H9|by apply list_elem_of_singleton in Hz as ->]).
    destruct z as [| |q| | |? ? [?|] [?|]|? ? [?|] [?|]| |[?|]| | | |]; cbn [stageOk spawn setCalls m_dials m_conns] in *; rewrite ?E2, ?E3; done.
  - rewrite E6, E7. intros Hcl. destruct (H10 Hcl) as (? & Ht & Hu). split; [done|]. destruct (Hcur TCP) as [E|E], (Hcur UDP) as [E'|E']; cbn in E, E'; split; congruence.
Qed.

Lemma invalidate_inv m c : inv m -> inv (invalidate m c).
Proof.
  intros Hinv. pose proof Hinv as [H1 H2 H3 H4 H5 H6 H7 H7' H8 H9 H10]. unfold invalidate. cbn zeta. unfold owners in H5. apply NoDup_app in H5 as (Hnd & _ & _).
  unfold currents in Hnd. destruct (bool_decide_reflect (m_tcp m = Some c)) as [Ht|Ht], (bool_decide_reflect (m_udp m = Some c)) as [Hu|Hu]; cbn [orb].
  - rewrite Ht, Hu in Hnd. cbn in Hnd. apply NoDup_cons in Hnd as [Hnot _]. exfalso. apply Hnot. by left.
  - eapply (retire_inv m _ _ [c]); try done; [unfold currents; cbn; rewrite Ht; cbn; apply Permutation_cons_append|]. intros []; [by right|by left].
  - eapply (retire_inv m _ _ [c]); try done; [unfold currents; cbn; rewrite Hu; cbn; by rewrite app_nil_r|]. intros []; [by left|by right].
  - by apply spawn_inv.
Qed.

(** The flags of the end, with the dials cancelled. *)
Lemma seal_inv m :
  inv m -> m_tcp m = None -> m_udp m = None -> (forall s p d, opening m s = Some p -> m_dials m !! p = Some d -> d_cancelled d = true) ->
  inv (mkM true true (m_tcp m) (m_udp m) (m_openTCP m) (m_openUDP m) (m_conns m) (m_dials m) (m_calls m) (m_ended m)).
Proof.
  intros [H1 H2 H3 H4 H5 H6 H7 H7' H8 H9 H10] Ht Hu Hc. split; try done.
  intros s p Hp. destruct (H2 s p Hp) as (d & Hd & Hdone & _). exists d. split; [done|]. split; [done|]. intros _. by apply (Hc s p d).
Qed.

Lemma cancelOpening_inv m s : inv m -> inv (cancelOpening m s).
Proof. intros H. unfold cancelOpening. destruct (opening m s); [by apply cancelDial_inv|done]. Qed.

(** Everything but the dials. *)
Definition rest (m : manager) : bool * bool * option nat * option nat * option nat * option nat * list h3Connection * list stage * list bool :=
  (m_closed m, m_stopped m, m_tcp m, m_udp m, m_openTCP m, m_openUDP m, m_conns m, m_calls m, m_ended m).

Lemma cancelOpening_rest m s : rest (cancelOpening m s) = rest m.
Proof. unfold cancelOpening. by destruct (opening m s). Qed.

Lemma cancelDial_cancels m p q d : m_dials (cancelDial m p) !! q = Some d -> q = p \/ (exists d0, m_dials m !! q = Some d0 /\ d_cancelled d0 = true) -> d_cancelled d = true.
Proof.
  cbn [cancelDial setDials m_dials]. rewrite list_lookup_alter. case_decide as E.
  - subst q. intros Hd _. destruct (m_dials m !! p); [|done]. by injection Hd as <-.
  - intros Hd [->|(d0 & Hd0 & Hc)]; [done|]. congruence.
Qed.

Lemma close_inv m : inv m -> inv (close m).
Proof.
  intros Hinv. unfold close. destruct (m_closed m) eqn:Ec; [by apply spawn_inv|]. cbn zeta.
  set (m0 := cancelOpening (cancelOpening m TCP) UDP).
  assert (Hinv0 : inv m0) by (by apply cancelOpening_inv, cancelOpening_inv).
  assert (Hrest : rest m0 = rest m) by (unfold m0; by rewrite !cancelOpening_rest). injection Hrest as _ _ S1 S2 S3 S4 S6 S5 S7.
  assert (Hcan : forall s p d, opening m0 s = Some p -> m_dials m0 !! p = Some d -> d_cancelled d = true).
  { set (m1 := cancelOpening m TCP). pose proof (cancelOpening_rest m TCP) as Hr1. injection Hr1 as _ _ _ _ R3 R4 _ _ _. fold m1 in R3, R4.
    assert (H1 : forall q d, m_openTCP m = Some q -> m_dials m1 !! q = Some d -> d_cancelled d = true).
    { intros q d Hq. unfold m1, cancelOpening. cbn [opening]. rewrite Hq. intros Hd. eapply cancelDial_cancels; [exact Hd|by left]. }
    intros s p d Hp Hd. unfold m0 in Hd. fold m1 in Hd. unfold cancelOpening in Hd. cbn [opening] in Hd. rewrite R4 in Hd.
    destruct s; cbn [opening] in Hp; [rewrite S3 in Hp|rewrite S4 in Hp; rewrite Hp in Hd; by eapply cancelDial_cancels; [exact Hd|left]].
    destruct (m_openUDP m) as [b|]; [|by apply (H1 p)]. eapply cancelDial_cancels; [exact Hd|]. destruct (decide (p = b)) as [->|Hne]; [by left|right].
    cbn [cancelDial setDials m_dials] in Hd. rewrite list_lookup_alter_ne in Hd by done. exists d. split; [exact Hd|]. by apply (H1 p). }
  assert (Hr : inv (spawn (setCurrent (setCurrent m0 TCP None) UDP None) (XClose (currents m0)))).
  { apply (retire_inv m0 _ _ (currents m0) Hinv0); try done. intros []; by right. }
  match goal with |- inv ?x => assert (x = mkM true true None None (m_openTCP m0) (m_openUDP m0) (m_conns m0) (m_dials m0) (m_calls m0 ++ [XClose (currents m0)]) (m_ended m0 ++ [false])) as -> end.
  { unfold currents. rewrite S1, S2, S3, S4, S5, S6, S7. unfold m0, spawn, setCurrent, setCalls, cancelOpening. cbn [opening m_openTCP]. destruct (m_openTCP m); cbn; destruct (m_openUDP m); done. }
  apply (seal_inv _ Hr); done.
Qed.

Lemma callStep_inv m k c res : inv m -> inv (callStep m k c res).
Proof.
  intros Hinv. unfold callStep. destruct (m_calls m !! k) as [x|] eqn:Hk; [|done].
  destruct x as [s|s|p|s p old|s p|s p conn err|s p conn err|p conn err|r| |i|[|i l]|]; try done.
  - destruct (ended m k); goes.
  - by apply ensureLock_inv.
  - by apply ensureWait_inv.
  - by eapply close_goto.
  - by apply ensureDialled_inv.
  - by apply ensureEstablish_inv.
  - by apply ensureFinish_inv.
  - pose proof (cancelDial_inv m p Hinv) as Hinv1. assert (m_calls (cancelDial m p) !! k = Some (EAbort p conn err)) as Hk1 by done.
    destruct conn as [i|]; [by eapply close_goto|]. cbn [closeConn]. goes.
  - by eapply close_goto.
  - goes.
  - by eapply close_goto.
Qed.

Lemma h3_step_inv m e : inv m -> inv (step m e).
Proof.
  intros Hinv. destruct e as [s|c| |k c res|k|p|i|i]; cbn [step].
  - by apply spawn_inv.
  - by apply invalidate_inv.
  - by apply close_inv.
  - by apply callStep_inv.
  - by destruct Hinv as [H1 H2 H3 H4 H5 H6 H7 H7' H8 H9 H10].
  - destruct (m_dials m !! p) as [d|]; [|done]. destruct (_ && _); [by apply cancelDial_inv|done].
  - destruct Hinv as [H1 H2 H3 H4 H5 H6 H7 H7' H8 H9 H10]. set (l := alter _ i (m_conns m)).
    assert (Hlen : length l = length (m_conns m)) by apply length_alter.
    assert (Hl : forall j, h_closed <$> l !! j = h_closed <$> m_conns m !! j).
    { intros j. unfold l. rewrite list_lookup_alter. case_decide as E; [subst j|done]. by destruct (m_conns m !! i). }
    split; try done; cbn [setConns m_conns].
    + intros j h Hj Hc. specialize (Hl j). rewrite Hj in Hl. destruct (m_conns m !! j) as [h0|] eqn:E; [|done]. cbn in Hl. injection Hl as Hl. apply (H4 j h0 E). congruence.
    + intros j Hj. rewrite Hlen. by apply H6.
    + intros j Hj. destruct (H7 j Hj) as (h & Hh & Hc). specialize (Hl j). rewrite Hh in Hl. destruct (l !! j) as [h0|]; [|done]. cbn in Hl. injection Hl as Hl. exists h0. split; [done|congruence].
    + intros p d Hd. destruct (H8 p d Hd) as [D1 D2]. split; [|done]. cbn [setConns m_conns]. by rewrite Hlen.
    + intros z Hz. specialize (H9 z Hz). destruct z as [| |q| | |? ? [?|] [?|]|? ? [?|] [?|]| |[?|]| | | |]; cbn [stageOk setConns m_dials m_conns] in *; rewrite ?Hlen; done.
  - destruct (m_conns m !! i) as [h|]; [|done]. destruct (h_down h); [by apply cancelDial_inv|done].
Qed.

Lemma inv_start : inv newH3TransportManager.
Proof.
  split; cbn; try done; try (by intros []); try (by constructor); intros i; try (intros [Hi|Hi]; by apply elem_of_nil in Hi); intros Hi; by apply elem_of_nil in Hi.
Qed.

Lemma h3_run_inv es : inv (run newH3TransportManager es).
Proof. unfold run. induction es as [|e es IH] using rev_ind; [apply inv_start|]. rewrite foldl_app. by apply h3_step_inv. Qed.

(** ** Theorems *)

Lemma openings_nodup m : NoDup (fst <$> openings m).
Proof. unfold openings. destruct (m_openTCP m), (m_openUDP m); cbn; repeat constructor; set_solver. Qed.

Definition returned (x : stage) : bool := match x with EDone _ | ENil | XDone => true | _ => false end.

Lemma returned_holds l : forallb returned l = true -> concat (holds <$> l) = [].
Proof. induction l as [|x l IH]; [done|]. cbn. intros [Hx Hl]%andb_true_iff. rewrite IH by done. by destruct x. Qed.

(** C18: In every schedule of callers, [invalidate], [close] and the network:
    at most one dial per slot is under way; no call ends with neither a
    connection nor an error; the connections in the slots are distinct and not
    closed; every other connection that is not closed is in the hands of exactly
    one call that will publish or close it, so that none is left once the
    manager is closed and the calls have returned; and after [close] the slots
    stay empty and every dial that is still under way is cancelled. *)
Theorem h3_manager es :
  let m := run newH3TransportManager es in
  NoDup (fst <$> omap opener (m_calls m)) /\
  ENil ∉ m_calls m /\
  NoDup (currents m ++ concat (holds <$> m_calls m)) /\
  Forall (fun i => exists h, m_conns m !! i = Some h /\ h_closed h = false) (currents m) /\
  (forall i h, m_conns m !! i = Some h -> h_closed h = false -> i ∈ currents m ++ concat (holds <$> m_calls m)) /\
  (m_closed m = true -> currents m = [] /\ (forall s p, opening m s = Some p -> d_cancelled <$> m_dials m !! p = Some true)) /\
  (m_closed m = true -> forallb returned (m_calls m) = true -> Forall (fun h => h_closed h = true) (m_conns m)).
Proof.
  cbn zeta. destruct (h3_run_inv es) as [H1 H2 H3 H4 H5 H6 H7 H7' H8 H9 H10]. set (m := run newH3TransportManager es) in *.
  assert (Hcur : m_closed m = true -> currents m = []) by (intros Hc; destruct (H10 Hc) as (_ & Ht & Hu); unfold currents; by rewrite Ht, Hu).
  split; [rewrite H1; apply openings_nodup|]. split; [by intros Hin%H9|]. split; [done|]. split; [apply Forall_forall; auto|]. split; [done|]. split.
  - intros Hc. split; [auto|]. intros s p Hp. destruct (H2 s p Hp) as (d & -> & _ & Hcan). cbn. by rewrite Hcan.
  - intros Hc Hret. apply Forall_lookup. intros i h Hi. destruct (h_closed h) eqn:E; [done|]. pose proof (H4 i h Hi E) as Hin. unfold owners in Hin.
    rewrite (Hcur Hc), (returned_holds _ Hret) in Hin. by apply elem_of_nil in Hin.
Qed.

(** Nobody waits for a dial that nobody makes: the dial a caller waits for
    has ended with a connection or an error, or another call is making it; and
    after [close] every waiter may leave at once. *)
Theorem h3_waiters es k p (Hwait : m_calls (run newH3TransportManager es) !! k = Some (EWait p)) :
  let m := run newH3TransportManager es in
  exists d, m_dials m !! p = Some d /\
  (if d_done d then is_Some (d_err d) \/ exists i, d_conn d = Some i /\ (i < length (m_conns m))%nat
   else exists j x s, m_calls m !! j = Some x /\ opener x = Some (s, p)) /\
  (m_closed m = true -> m_calls (callStep m k PStopped None) !! k = Some (EDone (Fail ErrNetClosed))).
Proof.
  cbn zeta. destruct (h3_run_inv es) as [H1 H2 H3 H4 H5 H6 H7 H7' H8 H9 H10]. set (m := run newH3TransportManager es) in *.
  pose proof (H9 _ (list_elem_of_lookup_2 _ _ _ Hwait)) as Hp. cbn [stageOk] in Hp. apply lookup_lt_is_Some in Hp as [d Hd]. exists d. split; [done|].
  destruct (H8 p d Hd) as [D1 D2]. split.
  - destruct (d_done d); [auto|]. destruct (D2 eq_refl) as [s Hs]. apply in_openings in Hs. rewrite <- H1 in Hs. apply list_elem_of_omap in Hs as (x & Hx & Ho).
    apply list_elem_of_lookup in Hx as [j Hj]. by exists j, x, s.
  - intros Hc. destruct (H10 Hc) as (Hs & _). unfold callStep. rewrite Hwait. cbn [ensureWait]. rewrite Hs. cbn [goto setCalls m_calls].
    by rewrite list_lookup_insert_eq by (by eapply lookup_lt_Some).
Qed.

(** Two callers of one slot: the second waits for the first. *)
Definition twoCallers : list event :=
  [EvEnsure TCP; EvStep 0 PDone None; EvStep 0 PDone None; EvEnsure TCP; EvStep 1 PDone None; EvStep 1 PDone None].

Lemma h3_waiters_witness :
  m_calls (run newH3TransportManager twoCallers) !! 1%nat = Some (EWait 0) /\
  exists d, m_dials (run newH3TransportManager twoCallers) !! 0%nat = Some d /\ d_done d = false.
Proof.
  assert (H : m_calls (run newH3TransportManager twoCallers) !! 1%nat = Some (EWait 0)) by (vm_compute; reflexivity).
  split; [exact H|]. destruct (h3_waiters twoCallers 1 0 H) as (d & Hd & _). exists d. split; [exact Hd|].
  vm_compute in Hd. injection Hd as <-. reflexivity.
Defined.
