(* ===== verification/PlainUDPServer.v ===== *)
(** * The plain UDP server: [pkg/server] (plain_udp.go)

    One goroutine reads datagrams and hands them to workers, a worker handles
    the tasks of its sessions one after another, every upstream socket has a
    goroutine that reads it, and a cleaner drops idle sessions.  Sessions and
    targets are shared objects: they live in lists and are referred to by
    position, as the code refers to them by pointer.  The operations below are
    the pieces of the handlers between two points at which another goroutine
    can see or change what they use; the answers of the network, of the
    resolver, of the replay cache and the clock are their arguments. *)
From S2P Require Import Prelude GoIO GoNet Crypto Icmp Target PlainUDP Auth UdpReplay UdpBudget.

Open Scope Z_scope.

(** ** Tasks and their cost *)

Definition DefaultUDPWorkerQueueSize : Z := 1024.
Definition DefaultUDPMemoryBudget : Z := Z.shiftl 64 20.
Definition plainUDPTaskOverhead : Z := 256.

(** The loop of [plainUDPTaskMemoryCost]; it ends within 64 rounds, when the
    condition fails or the shift has left the 64 bits. *)
Fixpoint growBacking (fuel : nat) (backing wireLen : Z) : Z :=
  match fuel with
  | O => backing
  | S f => if backing <? wireLen then growBacking f (i64 (Z.shiftl backing 1)) wireLen else backing
  end.

Definition plainUDPTaskMemoryCost (wireLen : Z) : Z := growBacking 64 256 wireLen + plainUDPTaskOverhead.

Record udpTask := mkTask {
  userIndex : nat;
  task_sessionID : Z;
  task_client : UDPAddr;
  targetAddr : gostring;
  payload : list byte;
  memoryCost : Z;
  task_seq : Z;
  task_timestamp : Z;
}.

(** [plainUDPSessionKey] *)
Abbreviation sessionKey := (nat * Z)%type.

Definition keyOfTask (t : udpTask) : sessionKey := (userIndex t, task_sessionID t).

(** ** Targets and sessions *)

(** [*plainUDPTarget] with the address it is connected to, or
    [*plainICMPTarget] with its outstanding requests. *)
Inductive targetKind :=
  | UDPTarget (addr : UDPAddr)
  | ICMPTarget (ip : IP) (outstanding : gmap Z pendingEcho).

Record target := mkTarget {
  t_kind : targetKind;
  t_lease : lease;
  t_closed : bool;                   (* its [once] has run *)
}.

Record plainUDPSession := mkSession {
  s_key : sessionKey;
  s_guard : UDPReplayWindow;
  s_identity : gostring;
  s_client : option UDPAddr;
  s_targets : gmap gostring nat;     (* sync.Map *)
  s_targetCount : Z;
  s_lastActive : Z;
  s_closed : bool;
}.

(** ** The server *)

(** Where a worker is in [processTask]. *)
Inductive worker :=
  | Idle
  | Taken (t : udpTask)                                 (* before sessions.Load *)
  | Storing (t : udpTask)                               (* the session is to be created *)
  | Having (t : udpTask) (session : nat)                (* before targetMu.Lock *)
  | Dialing (t : udpTask) (session : nat) (l : lease) (icmp : option IP).  (* with targetMu, opening a socket *)

(** The goroutine that reads a target: session, address, target. *)
Abbreviation listener := (nat * gostring * nat)%type.

(** What the server sends. *)
Inductive output :=
  | ToTarget (addr : UDPAddr) (data : list byte)
  | ToICMP (ip : IP) (data : list byte)
  | ToClient (addr : UDPAddr) (data : list byte).

Record Config := mkConfig {
  cf_cache : bool;                   (* s.replays != nil *)
  cf_namespaces : list gostring;
  cf_identities : list gostring;
  cf_maxSessions : Z;
  cf_maxMem : Z;
  cf_resolveUDP : (gostring -> result (list IPAddr)) -> gostring -> result UDPAddr;
  cf_allowPrivateICMP : bool;
}.

(** Queues, workers, [inFlightMem]. *)
Record Load := mkLoad {
  ld_queues : list (list udpTask);
  ld_workers : list worker;
  ld_mem : Z;
}.

(** [sessions], [sessionCount] and all session objects. *)
Record Table := mkTable {
  tb_sessions : gmap sessionKey nat;
  tb_count : Z;
  tb_heap : list plainUDPSession;
}.

(** All target objects, their listeners, the process-wide budget. *)
Record Sockets := mkSockets {
  so_targets : list target;
  so_listeners : list listener;
  so_budget : Budget;
  so_foreign : list lease;           (* what other listeners of the process hold *)
}.

Record Server := mkServer {
  sv_load : Load;
  sv_table : Table;
  sv_sockets : Sockets;
  sv_codecs : list Codec;
  sv_echo : Z;                       (* nextEchoToken *)
  sv_stopped : bool;                 (* closed, and the context cancelled *)
  sv_serving : bool;                 (* the read loop runs *)
  sv_panic : bool;
  sv_out : list output;
}.

Definition setLoad (s : Server) (l : Load) : Server :=
  mkServer l (sv_table s) (sv_sockets s) (sv_codecs s) (sv_echo s) (sv_stopped s) (sv_serving s) (sv_panic s) (sv_out s).
Definition setTable (s : Server) (t : Table) : Server :=
  mkServer (sv_load s) t (sv_sockets s) (sv_codecs s) (sv_echo s) (sv_stopped s) (sv_serving s) (sv_panic s) (sv_out s).
Definition setSockets (s : Server) (k : Sockets) : Server :=
  mkServer (sv_load s) (sv_table s) k (sv_codecs s) (sv_echo s) (sv_stopped s) (sv_serving s) (sv_panic s) (sv_out s).
Definition setCodecs (s : Server) (c : list Codec) : Server :=
  mkServer (sv_load s) (sv_table s) (sv_sockets s) c (sv_echo s) (sv_stopped s) (sv_serving s) (sv_panic s) (sv_out s).
Definition setEcho (s : Server) (e : Z) : Server :=
  mkServer (sv_load s) (sv_table s) (sv_sockets s) (sv_codecs s) e (sv_stopped s) (sv_serving s) (sv_panic s) (sv_out s).
Definition setStopped (s : Server) : Server :=
  mkServer (sv_load s) (sv_table s) (sv_sockets s) (sv_codecs s) (sv_echo s) true (sv_serving s) (sv_panic s) (sv_out s).
Definition endServing (s : Server) : Server :=
  mkServer (sv_load s) (sv_table s) (sv_sockets s) (sv_codecs s) (sv_echo s) (sv_stopped s) false (sv_panic s) (sv_out s).
Definition setPanic (s : Server) : Server :=
  mkServer (sv_load s) (sv_table s) (sv_sockets s) (sv_codecs s) (sv_echo s) (sv_stopped s) (sv_serving s) true (sv_out s).
Definition send (s : Server) (o : output) : Server :=
  mkServer (sv_load s) (sv_table s) (sv_sockets s) (sv_codecs s) (sv_echo s) (sv_stopped s) (sv_serving s) (sv_panic s) (sv_out s ++ [o]).

Definition setBudget (k : Sockets) (b : Budget) : Sockets := mkSockets (so_targets k) (so_listeners k) b (so_foreign k).

(** A field of a session object, of a target object. *)
Definition putSession (s : Server) (i : nat) (x : plainUDPSession) : Server :=
  setTable s (mkTable (tb_sessions (sv_table s)) (tb_count (sv_table s)) (<[i := x]> (tb_heap (sv_table s)))).
Definition putTarget (s : Server) (i : nat) (x : target) : Server :=
  setSockets s (mkSockets (<[i := x]> (so_targets (sv_sockets s))) (so_listeners (sv_sockets s)) (so_budget (sv_sockets s)) (so_foreign (sv_sockets s))).

Definition withTargets (x : plainUDPSession) (m : gmap gostring nat) (count : Z) : plainUDPSession :=
  mkSession (s_key x) (s_guard x) (s_identity x) (s_client x) m count (s_lastActive x) (s_closed x).
Definition withActive (x : plainUDPSession) (now : Z) : plainUDPSession :=
  mkSession (s_key x) (s_guard x) (s_identity x) (s_client x) (s_targets x) (s_targetCount x) (now / second) (s_closed x).

(** [plainUDPTarget.Close] and [plainICMPTarget.Close]. *)
Definition closeTarget (k : Sockets) (i : nat) : Sockets :=
  match so_targets k !! i with
  | Some x =>
      if t_closed x then k
      else
        let '(b, l) := release (so_budget k) (t_lease x) in
        mkSockets (<[i := mkTarget (t_kind x) l true]> (so_targets k)) (so_listeners k) b (so_foreign k)
  | None => k
  end.

Definition closeTargets (k : Sockets) (l : list nat) : Sockets := foldl closeTarget k l.

(** The worker is done with its task: [inFlightMem.Add(-task.memoryCost)]. *)
Definition setWorker (s : Server) (w : nat) (x : worker) : Server :=
  setLoad s (mkLoad (ld_queues (sv_load s)) (<[w := x]> (ld_workers (sv_load s))) (ld_mem (sv_load s))).
Definition finish (s : Server) (w : nat) (t : udpTask) : Server :=
  setLoad s (mkLoad (ld_queues (sv_load s)) (<[w := Idle]> (ld_workers (sv_load s))) (ld_mem (sv_load s) - memoryCost t)).

(** Nothing is queued and no worker is busy. *)
Definition idleLoad (ld : Load) : bool :=
  forallb (fun q => match q with [] => true | _ => false end) (ld_queues ld) &&
  forallb (fun x => match x with Idle => true | _ => false end) (ld_workers ld).

Section Server.
  Context `{Crypto} (cf : Config).

(** ** [Serve]: one datagram *)

Definition decodeAny (codecs : list Codec) (packet : list byte) (now : Z) : result (nat * packetInfo) :=
  match codecs with
  | [c] => let? info := DecodePacket c packet DirClientToServer (now / second) in Ok (0%nat, info)
  | _ => DecodePacketMulti (Some <$> codecs) packet DirClientToServer (now / second)
  end.

(** The task goes to the worker of its session, if there is room. *)
Definition enqueue (s : Server) (cost : Z) (user : nat) (info : packetInfo) (client : UDPAddr) : Server :=
  let ld := sv_load s in
  let workerIdx := Z.to_nat (u64 (Z.lxor (p_sessionID info) (Z.of_nat user)) mod len (ld_queues ld)) in
  let task := mkTask user (p_sessionID info) client (p_target info) (p_payload info) cost (p_seq info) (p_timestamp info) in
  match ld_queues ld !! workerIdx with
  | None => setPanic s
  | Some q =>
      if DefaultUDPWorkerQueueSize <=? len q then s
      else setLoad s (mkLoad (<[workerIdx := q ++ [task]]> (ld_queues ld)) (ld_workers ld) (ld_mem ld + cost))
  end.

(** The read takes what fits the 64 KiB buffer; the cost is added to
    [inFlightMem] first and taken back when the datagram is dropped. *)
Definition serveOne (s : Server) (datagram : list byte) (client : UDPAddr) (now : Z) : Server :=
  let packet := ztake (Z.shiftl 64 10) datagram in
  let cost := plainUDPTaskMemoryCost (len packet) in
  if cf_maxMem cf <? ld_mem (sv_load s) + cost then s
  else match decodeAny (sv_codecs s) packet now with
  | Fail _ => s
  | Ok (user, info) => enqueue s cost user info client
  end.

(** ** [workerLoop] and [processTask] *)

(** The worker takes a task; once the context is done it only releases it. *)
Definition workerTake (s : Server) (w : nat) : Server :=
  let ld := sv_load s in
  match ld_workers ld !! w, ld_queues ld !! w with
  | Some Idle, Some (t :: q) =>
      let s' := setLoad s (mkLoad (<[w := q]> (ld_queues ld)) (<[w := Taken t]> (ld_workers ld)) (ld_mem ld)) in
      if sv_stopped s then finish s' w t else s'
  | _, _ => s
  end.

(** The index check, [sessions.Load] and the test of [sessionCount]. *)
Definition workerLoad (s : Server) (w : nat) : Server :=
  match ld_workers (sv_load s) !! w with
  | Some (Taken t) =>
      if len (sv_codecs s) <=? Z.of_nat (userIndex t) then finish s w t
      else match tb_sessions (sv_table s) !! keyOfTask t with
      | Some i => setWorker s w (Having t i)
      | None =>
          if (0 <? cf_maxSessions cf) && (cf_maxSessions cf <=? tb_count (sv_table s)) then finish s w t
          else setWorker s w (Storing t)
      end
  | _ => s
  end.

(** The new session, [LoadOrStore] and [sessionCount.Add(1)]. *)
Definition workerStore (s : Server) (w : nat) : Server :=
  match ld_workers (sv_load s) !! w with
  | Some (Storing t) =>
      match cf_namespaces cf !! userIndex t with
      | None => setPanic s
      | Some ns =>
          let tb := sv_table s in
          match tb_sessions tb !! keyOfTask t with
          | Some i => setWorker s w (Having t i)
          | None =>
              let guard := NewPersistentUDPReplayWindow (cf_cache cf) ns (task_sessionID t) in
              let x := mkSession (keyOfTask t) guard (default [] (cf_identities cf !! userIndex t)) None ∅ 0 0 false in
              let i := length (tb_heap tb) in
              setWorker (setTable s (mkTable (<[keyOfTask t := i]> (tb_sessions tb)) (tb_count tb + 1) (tb_heap tb ++ [x])))
                w (Having t i)
          end
      end
  | _ => s
  end.

(** Whether a worker holds the session's [targetMu] while it dials. *)
Definition dialing (i : nat) (x : worker) : bool :=
  match x with Dialing _ j _ _ => bool_decide (i = j) | _ => false end.
Definition locked (s : Server) (i : nat) : bool := existsb (dialing i) (ld_workers (sv_load s)).

(** The echo request to a target and its tracker. *)
Definition sendEcho (s : Server) (now : Z) (j : nat) (x : target) (ip : IP) (data : list byte) : Server :=
  match t_kind x with
  | ICMPTarget tip out =>
      let '(r, tr) := PrepareRequest now (mkTracker out (sv_echo s)) data (bool_decide (To4 ip = None)) in
      let s := setEcho (putTarget s j (mkTarget (ICMPTarget tip (pending tr)) (t_lease x) (t_closed x))) (nextEchoToken tr) in
      match r with
      | Ok wire => if t_closed x then s else send s (ToICMP ip wire)   (* a closed socket only fails *)
      | Fail _ => s
      end
  | UDPTarget _ => s
  end.

(** What follows the replay check for a session [i]: an existing target is
    used, a new one is reserved. *)
Definition handleUDP (s : Server) (w : nat) (t : udpTask) (i : nat) (x : plainUDPSession) : Server :=
  match s_targets x !! targetAddr t with
  | Some j =>
      match so_targets (sv_sockets s) !! j with
      | Some (mkTarget (UDPTarget addr) _ closed) =>
          finish (if closed then s else send s (ToTarget addr (payload t))) w t
      | _ => setPanic s
      end
  | None =>
      if 32 <=? s_targetCount x then finish s w t
      else
        let k := sv_sockets s in
        match ReserveUDPTarget (so_budget k) (s_identity x) with
        | (None, _) => finish s w t
        | (Some l, b) => setWorker (setSockets s (setBudget k b)) w (Dialing t i l None)
        end
  end.

Definition handleICMP (s : Server) (lookup : gostring -> result (list IPAddr)) (now : Z)
    (w : nat) (t : udpTask) (i : nat) (x : plainUDPSession) : Server :=
  match ResolveICMPIP lookup (drop (length icmpPrefix) (targetAddr t)) (cf_allowPrivateICMP cf) with
  | Fail _ => finish s w t
  | Ok ip =>
      match s_targets x !! targetAddr t with
      | Some j =>
          match so_targets (sv_sockets s) !! j with
          | Some (mkTarget (ICMPTarget tip out) l closed) =>
              finish (sendEcho s now j (mkTarget (ICMPTarget tip out) l closed) ip (payload t)) w t
          | Some _ => finish s w t
          | None => setPanic s
          end
      | None =>
          if 32 <=? s_targetCount x then finish s w t
          else
            let k := sv_sockets s in
            match ReserveUDPTarget (so_budget k) (s_identity x) with
            | (None, _) => finish s w t
            | (Some l, b) => setWorker (setSockets s (setBudget k b)) w (Dialing t i l (Some ip))
            end
      end
  end.

(** [processTask] from [targetMu.Lock] on, up to its end or to the call that
    opens a socket; [answer] is what the replay cache says. *)
Definition workerRun (s : Server) (w : nat) (answer : bool) (lookup : gostring -> result (list IPAddr)) (now : Z) : Server :=
  match ld_workers (sv_load s) !! w with
  | Some (Having t i) =>
      match tb_heap (sv_table s) !! i with
      | None => setPanic s
      | Some x =>
          if locked s i then s                              (* waits *)
          else if s_closed x || sv_stopped s then finish s w t
          else
            let '(accepted, _, guard) := AcceptAuthenticated (s_guard x) answer (task_seq t) (task_timestamp t) now in
            if negb accepted then
              finish (putSession s i (mkSession (s_key x) guard (s_identity x) (s_client x) (s_targets x)
                       (s_targetCount x) (s_lastActive x) (s_closed x))) w t
            else
              let x := mkSession (s_key x) guard (s_identity x) (Some (task_client t)) (s_targets x)
                         (s_targetCount x) (now / second) (s_closed x) in
              let s := putSession s i x in
              if hasPrefix icmpPrefix (targetAddr t) then handleICMP s lookup now w t i x else handleUDP s w t i x
      end
  | _ => s
  end.

(** What opening the socket gives: [resolve] and [net.DialUDP], or the ICMP
    socket. *)
Definition newKind (lookup : gostring -> result (list IPAddr)) (t : udpTask) (icmp : option IP) : result targetKind :=
  match icmp with
  | Some ip => Ok (ICMPTarget ip ∅)
  | None => let? addr := cf_resolveUDP cf lookup (targetAddr t) in Ok (UDPTarget addr)
  end.

(** The reservation is given back. *)
Definition giveBack (s : Server) (l : lease) : Server :=
  let k := sv_sockets s in setSockets s (setBudget k (fst (release (so_budget k) l))).

(** The new target object with its goroutine, stored in session [i]. *)
Definition addTarget (s : Server) (i : nat) (x : plainUDPSession) (address : gostring) (tg : target) : Server :=
  let k := sv_sockets s in
  let j := length (so_targets k) in
  putSession (setSockets s (mkSockets (so_targets k ++ [tg]) (so_listeners k ++ [(i, address, j)]) (so_budget k) (so_foreign k)))
    i (withTargets x (<[address := j]> (s_targets x)) (s_targetCount x + 1)).

(** The write at the end of [processTask] and [processICMPTask]; the type
    assertion panics on a target of the other kind. *)
Definition deliverTo (s : Server) (now : Z) (w : nat) (t : udpTask) (j : nat) (icmp : option IP) : Server :=
  match so_targets (sv_sockets s) !! j, icmp with
  | Some (mkTarget (UDPTarget addr) _ closed), None =>
      finish (if closed then s else send s (ToTarget addr (payload t))) w t
  | Some (mkTarget (ICMPTarget tip out) l closed), Some ip =>
      finish (sendEcho s now j (mkTarget (ICMPTarget tip out) l closed) ip (payload t)) w t
  | _, _ => setPanic s
  end.

(** The rest of [processTask] behind the reservation; [dialOk] is the outcome
    of the socket call. *)
Definition workerDial (s : Server) (w : nat) (lookup : gostring -> result (list IPAddr)) (dialOk : bool) (now : Z) : Server :=
  match ld_workers (sv_load s) !! w with
  | Some (Dialing t i l icmp) =>
      match tb_heap (sv_table s) !! i with
      | None => setPanic s
      | Some x =>
          match newKind lookup t icmp with
          | Fail _ => finish (giveBack s l) w t
          | Ok kind =>
              if sv_stopped s || negb dialOk then finish (giveBack s l) w t
              else
                (* LoadOrStore *)
                match s_targets x !! targetAddr t with
                | Some j => deliverTo (giveBack s l) now w t j icmp
                | None =>
                    deliverTo (addTarget s i x (targetAddr t) (mkTarget kind l false)) now w t
                      (length (so_targets (sv_sockets s))) icmp
                end
          end
      end
  | _ => s
  end.

(** ** [listenUpstream] and [listenICMPUpstream] *)

(** The goroutine returns, closing its target. *)
Definition endListener (s : Server) (n : nat) (j : nat) : Server :=
  let k := closeTarget (sv_sockets s) j in
  setSockets s (mkSockets (so_targets k) (delete n (so_listeners k)) (so_budget k) (so_foreign k)).

(** A failed read: [LoadAndDelete], [targetCount.Add(-1)], [Close]. *)
Definition listenError (s : Server) (n : nat) : Server :=
  match so_listeners (sv_sockets s) !! n with
  | None => s
  | Some (i, address, j) =>
      match tb_heap (sv_table s) !! i with
      | None => s
      | Some x =>
          let s := match s_targets x !! address with
                   | Some _ => putSession s i (withTargets x (delete address (s_targets x)) (s_targetCount x - 1))
                   | None => s
                   end in
          endListener s n j
      end
  end.

(** The top of the loop when the server has stopped. *)
Definition listenStop (s : Server) (n : nat) : Server :=
  match so_listeners (sv_sockets s) !! n with
  | Some (_, _, j) => if sv_stopped s then endListener s n j else s
  | None => s
  end.

(** A reply goes back to the client: [lastActive], [EncodePacket],
    [WriteToUDP]. *)
Definition reply (s : Server) (i : nat) (x : plainUDPSession) (address : gostring) (data : list byte) (now : Z) (rnd : reader)
  : Server :=
  let s := putSession s i (withActive x now) in
  match sv_codecs s !! (s_key x).1 with
  | None => setPanic s
  | Some c =>
      let '(r, c') := EncodePacket c [] DirServerToClient (s_key x).2 address data (now / second) rnd in
      let s := setCodecs s (<[(s_key x).1 := c']> (sv_codecs s)) in
      match r, s_client x with
      | Ok (encrypted, _), Some client => send s (ToClient client encrypted)
      | _, _ => s
      end
  end.

(** A read returned [data], from [from] on an ICMP socket. *)
Definition listenData (s : Server) (n : nat) (from : option IP) (data : list byte) (now : Z) (rnd : reader) : Server :=
  match so_listeners (sv_sockets s) !! n with
  | None => s
  | Some (i, address, j) =>
      match tb_heap (sv_table s) !! i, so_targets (sv_sockets s) !! j with
      | Some x, Some tg =>
          if t_closed tg then s                              (* a closed socket has no data *)
          else match t_kind tg with
          | UDPTarget _ => reply s i x address data now rnd
          | ICMPTarget ip out =>
              match from with
              | Some src =>
                  if negb (Equal src ip) then s
                  else
                    let '(r, tr) := RestoreReply now (mkTracker out (sv_echo s)) data (bool_decide (To4 ip = None)) in
                    let s := putTarget s j (mkTarget (ICMPTarget ip (pending tr)) (t_lease tg) (t_closed tg)) in
                    match r with
                    | Some body => reply s i x address body now rnd
                    | None => s
                    end
              | None => s
              end
          end
      | _, _ => s
      end
  end.

(** ** [cleaner], [Close], [closeSessions] *)

(** One visit of the cleaner's [Range]; [now] was read before it. *)
Definition cleanOne (s : Server) (key : sessionKey) (now : Z) : Server :=
  let tb := sv_table s in
  match tb_sessions tb !! key with
  | None => s
  | Some i =>
      match tb_heap tb !! i with
      | None => s
      | Some x =>
          if negb (60 <? now / second - s_lastActive x) then s
          else if locked s i then s                          (* TryLock *)
          else
            let x' := mkSession (s_key x) (s_guard x) (s_identity x) (s_client x) ∅ (s_targetCount x) (s_lastActive x) true in
            let s := setSockets s (closeTargets (sv_sockets s) (snd <$> map_to_list (s_targets x))) in
            setTable s (mkTable (delete key (tb_sessions tb)) (tb_count tb - 1) (<[i := x']> (tb_heap tb)))
      end
  end.

(** The targets of the sessions in the table. *)
Definition tableTargets (s : Server) : list nat :=
  concat ((fun '(_, i) => match tb_heap (sv_table s) !! i with
                          | Some x => snd <$> map_to_list (s_targets x)
                          | None => []
                          end) <$> map_to_list (tb_sessions (sv_table s))).

(** [closeSessions], behind [workerWg.Wait]. *)
Definition closeSessions (s : Server) : Server :=
  if negb (sv_serving s) && idleLoad (sv_load s) then
    let s := setSockets s (closeTargets (sv_sockets s) (tableTargets s)) in
    setTable s (mkTable ∅ (tb_count (sv_table s)) (tb_heap (sv_table s)))
  else s.

(** ** Runs *)

Inductive event :=
  | EServe (packet : list byte) (client : UDPAddr)
  | EServeEnd                                                (* the read loop returns *)
  | ETake (w : nat)
  | ELoad (w : nat)
  | EStore (w : nat)
  | ERun (w : nat) (answer : bool) (lookup : gostring -> result (list IPAddr))
  | EDial (w : nat) (lookup : gostring -> result (list IPAddr)) (dialOk : bool)
  | EData (n : nat) (from : option IP) (data : list byte) (rnd : reader)
  | EError (n : nat)
  | EListenStop (n : nat)
  | EClean (key : sessionKey) (age : Z)                      (* the clock was read [age] before *)
  | EStop                                                    (* Close, or the parent context *)
  | ECloseSessions
  | EForeign (op : budgetOp).                                (* another listener of the process *)

Definition step (s : Server) (te : Z * event) : Server :=
  let '(now, ev) := te in
  if sv_panic s then s
  else match ev with
  | EServe packet client => if sv_serving s then serveOne s packet client now else s
  | EServeEnd => setStopped (endServing s)
  | ETake w => workerTake s w
  | ELoad w => workerLoad s w
  | EStore w => workerStore s w
  | ERun w answer lookup => workerRun s w answer lookup now
  | EDial w lookup dialOk => workerDial s w lookup dialOk now
  | EData n from data rnd => listenData s n from data now rnd
  | EError n => listenError s n
  | EListenStop n => listenStop s n
  | EClean key age => cleanOne s key (now - age)
  | EStop => setStopped s
  | ECloseSessions => closeSessions s
  | EForeign op =>
      let k := sv_sockets s in
      let '(b, ls) := budgetStep (so_budget k, so_foreign k) op in
      setSockets s (mkSockets (so_targets k) (so_listeners k) b ls)
  end.

Definition run (s : Server) (evs : list (Z * event)) : Server := foldl step s evs.

(** A new server with its workers started. *)
Definition initial (codecs : list Codec) (budget : Budget) (foreign : list lease) (echo : Z) (numWorkers : nat) : Server :=
  mkServer (mkLoad (replicate numWorkers []) (replicate numWorkers Idle) 0) (mkTable ∅ 0 []) (mkSockets [] [] budget foreign)
    codecs echo false true false [].

End Server.
