(* ===== verification/PlainUDPRuns.v ===== *)
(** * Runs of the plain UDP server

    [PlainUDPServer.v] has the pieces of code that goroutines interleave; a
    run is any sequence of them, with any answers of the network.  Here are
    the invariants of all runs: the memory budget, the session limit, the
    sockets and their leases, and the replay protection of the sessions. *)
From S2P Require Import Prelude GoIO GoNet Crypto Icmp Target PlainUDP Auth UdpReplay UdpBudget PlainUDPServer.

Open Scope Z_scope.

#[local] Arguments icmpPrefix : simpl never.

(** ** Replacing one element *)

Lemma concat_insert {A} (ls : list (list A)) i x y :
  ls !! i = Some x -> exists rest, concat ls ≡ₚ x ++ rest /\ concat (<[i := y]> ls) ≡ₚ y ++ rest.
Proof.
  intros Hi. exists (concat (take i ls) ++ concat (drop (S i) ls)). split.
  - rewrite <- (take_drop_middle ls i x Hi) at 1. rewrite concat_app. cbn [concat]. by rewrite Permutation_app_swap_app.
  - rewrite insert_take_drop by (by eapply lookup_lt_Some). rewrite concat_app. cbn [concat].
    by rewrite Permutation_app_swap_app.
Qed.

Lemma len_ztake_le {A} n (l : list A) : 0 <= n -> len (ztake n l) <= n.
Proof. intros Hn. unfold ztake. rewrite length_take. lia. Qed.

(** ** Memory *)

Fixpoint costs (ts : list udpTask) : Z :=
  match ts with
  | [] => 0
  | t :: rest => memoryCost t + costs rest
  end.

Lemma costs_app a b : costs (a ++ b) = costs a + costs b.
Proof. induction a as [|t a IH]; cbn; [done|]. rewrite IH. lia. Qed.

#[export] Instance costs_proper : Proper ((≡ₚ) ==> eq) costs.
Proof. induction 1; cbn; lia. Qed.

(** The task a worker is busy with. *)
Definition tasksOf (x : worker) : list udpTask :=
  match x with
  | Idle => []
  | Taken t | Storing t | Having t _ | Dialing t _ _ _ => [t]
  end.

(** All tasks that the server has taken in and not finished. *)
Definition pendingTasks (ld : Load) : list udpTask :=
  concat (ld_queues ld) ++ concat (tasksOf <$> ld_workers ld).

Definition taskOk (t : udpTask) : Prop := is_u64 (task_seq t) /\ is_u64 (task_timestamp t) /\ 512 <= memoryCost t.

Record loadOk (cf : Config) (ld : Load) : Prop := {
  lo_mem : ld_mem ld = costs (pendingTasks ld);
  lo_limit : ld_mem ld <= Z.max 0 (cf_maxMem cf);
  lo_tasks : Forall taskOk (pendingTasks ld);
  lo_queue : Forall (fun q => len q <= DefaultUDPWorkerQueueSize) (ld_queues ld);
  lo_width : length (ld_queues ld) = length (ld_workers ld);
}.

Lemma costs_nonneg ts : Forall taskOk ts -> 0 <= costs ts.
Proof. induction 1 as [|t ts (_ & _ & Ht) _ IH]; cbn; lia. Qed.

Lemma loadOk_initial cf n : loadOk cf (mkLoad (replicate n []) (replicate n Idle) 0).
Proof.
  assert (pendingTasks (mkLoad (replicate n []) (replicate n Idle) 0) = []) as E.
  { unfold pendingTasks. cbn. by induction n. }
  split; rewrite ?E; cbn [ld_mem ld_queues ld_workers]; [done|lia|by constructor| |by rewrite !length_replicate].
  apply Forall_replicate. done.
Qed.

(** A worker goes on with the same task. *)
Lemma loadOk_worker cf ld w x y :
  ld_workers ld !! w = Some x -> tasksOf y = tasksOf x -> loadOk cf ld ->
  loadOk cf (mkLoad (ld_queues ld) (<[w := y]> (ld_workers ld)) (ld_mem ld)).
Proof.
  intros Hw Hy [H1 H2 H3 H4 H5].
  assert (pendingTasks (mkLoad (ld_queues ld) (<[w := y]> (ld_workers ld)) (ld_mem ld)) = pendingTasks ld) as E.
  { unfold pendingTasks. cbn. rewrite list_fmap_insert, Hy, list_insert_id; [done|]. by rewrite list_lookup_fmap, Hw. }
  split; rewrite ?E; cbn; [done..|]. by rewrite length_insert.
Qed.

(** It finishes. *)
Lemma loadOk_finish cf ld w x t :
  ld_workers ld !! w = Some x -> tasksOf x = [t] -> loadOk cf ld ->
  loadOk cf (mkLoad (ld_queues ld) (<[w := Idle]> (ld_workers ld)) (ld_mem ld - memoryCost t)).
Proof.
  intros Hw Hx [H1 H2 H3 H4 H5].
  assert (pendingTasks ld ≡ₚ t :: pendingTasks (mkLoad (ld_queues ld) (<[w := Idle]> (ld_workers ld)) (ld_mem ld - memoryCost t))) as E.
  { unfold pendingTasks. cbn. rewrite list_fmap_insert. cbn [tasksOf].
    destruct (concat_insert (tasksOf <$> ld_workers ld) w [t] []) as (rest & -> & ->); [by rewrite list_lookup_fmap, Hw; cbn; rewrite Hx|].
    cbn [app]. by rewrite Permutation_middle. }
  rewrite E in H1, H3. cbn in H1. apply Forall_cons in H3 as [(_ & _ & Ht) H3].
  split; cbn [ld_mem ld_queues ld_workers]; [cbn in H1 |- *; lia|lia|done|done|by rewrite length_insert].
Qed.

Lemma loadOk_take cf ld w t q :
  ld_workers ld !! w = Some Idle -> ld_queues ld !! w = Some (t :: q) -> loadOk cf ld ->
  loadOk cf (mkLoad (<[w := q]> (ld_queues ld)) (<[w := Taken t]> (ld_workers ld)) (ld_mem ld)).
Proof.
  intros Hw Hq [H1 H2 H3 H4 H5].
  assert (pendingTasks (mkLoad (<[w := q]> (ld_queues ld)) (<[w := Taken t]> (ld_workers ld)) (ld_mem ld)) ≡ₚ pendingTasks ld) as E.
  { unfold pendingTasks. cbn. rewrite list_fmap_insert. cbn [tasksOf].
    destruct (concat_insert (ld_queues ld) w (t :: q) q Hq) as (r1 & -> & ->).
    destruct (concat_insert (tasksOf <$> ld_workers ld) w [] [t]) as (r2 & -> & ->); [by rewrite list_lookup_fmap, Hw|].
    cbn [app]. by rewrite <- Permutation_middle. }
  split; rewrite ?E; cbn [ld_mem ld_queues ld_workers]; [done..| |by rewrite !length_insert].
  apply Forall_insert; [done|]. apply (Forall_lookup_1 _ _ _ _ H4) in Hq. rewrite len_cons in Hq. lia.
Qed.

Lemma loadOk_serve cf ld w q t :
  ld_queues ld !! w = Some q -> len q < DefaultUDPWorkerQueueSize -> taskOk t -> ld_mem ld + memoryCost t <= cf_maxMem cf ->
  loadOk cf ld -> loadOk cf (mkLoad (<[w := q ++ [t]]> (ld_queues ld)) (ld_workers ld) (ld_mem ld + memoryCost t)).
Proof.
  intros Hq Hlen Ht Hm [H1 H2 H3 H4 H5].
  assert (pendingTasks (mkLoad (<[w := q ++ [t]]> (ld_queues ld)) (ld_workers ld) (ld_mem ld + memoryCost t)) ≡ₚ t :: pendingTasks ld) as E.
  { unfold pendingTasks. cbn. destruct (concat_insert (ld_queues ld) w q (q ++ [t]) Hq) as (r1 & -> & ->).
    rewrite <- !app_assoc. cbn [app]. by rewrite <- Permutation_middle. }
  split; rewrite ?E; cbn [ld_mem ld_queues ld_workers]; [cbn; lia|lia|by constructor| |by rewrite length_insert].
  apply Forall_insert; [done|]. rewrite len_app. cbn. lia.
Qed.

(** The cost of a task: a power of two that holds the datagram, and the
    overhead; the loop stops by its condition. *)
Lemma growBacking_spec fuel k n :
  0 <= k <= 62 -> n <= 2 ^ 62 -> 62 - k <= Z.of_nat fuel ->
  exists j, growBacking fuel (2 ^ k) n = 2 ^ j /\ k <= j <= 62 /\ n <= 2 ^ j /\ (j = k \/ 2 ^ (j - 1) < n).
Proof.
  revert k. induction fuel as [|f IH]; intros k Hk Hn Hf; cbn [growBacking].
  { exists k. split; [done|]. assert (k = 62) as -> by lia. split_and!; [lia|lia|lia|by left]. }
  destruct (Z.ltb_spec (2 ^ k) n) as [Hlt|Hge]; [|exists k; split_and!; [done|lia|lia|lia|by left]].
  assert (k < 62) as Hk' by (destruct (Z.eq_dec k 62) as [->|]; lia).
  assert (i64 (Z.shiftl (2 ^ k) 1) = 2 ^ (k + 1)) as ->.
  { rewrite Z.shiftl_mul_pow2, Z.pow_add_r by lia. unfold i64.
    assert (0 < 2 ^ k < 2 ^ 62) by (split; [lia|apply Z.pow_lt_mono_r; lia]). rewrite Z.mod_small; lia. }
  destruct (IH (k + 1)) as (j & -> & H1 & H2 & H3); [lia|lia|lia|]. exists j. split_and!; [done|lia|lia|lia|].
  right. destruct H3 as [->|H3]; [|done]. by replace (k + 1 - 1) with k by lia.
Qed.

Lemma memoryCost_spec n :
  0 <= n <= 2 ^ 62 -> exists j, plainUDPTaskMemoryCost n = 2 ^ j + 256 /\ 8 <= j <= 62 /\ n <= 2 ^ j /\ (j = 8 \/ 2 ^ j < 2 * n).
Proof.
  intros Hn. destruct (growBacking_spec 64 8 n) as (j & E & H1 & H2 & H3); [lia|lia|lia|]. exists j.
  unfold plainUDPTaskMemoryCost, plainUDPTaskOverhead. change 256 with (2 ^ 8) at 1. rewrite E. split_and!; [done|lia|lia|lia|].
  destruct H3 as [->|H3]; [by left|right]. assert (2 ^ j = 2 * 2 ^ (j - 1)) by (rewrite <- Z.pow_succ_r by lia; f_equal; lia). lia.
Qed.

(** ** Sessions and sockets *)

Definition storingOf (x : worker) : list udpTask := match x with Storing t => [t] | _ => [] end.
Definition dialersOf (i : nat) (x : worker) : list nat := if dialing i x then [i] else [].
Definition leasesOf (x : worker) : list gostring := match x with Dialing _ _ l _ => [l_identity l] | _ => [] end.
Definition targetLease (tg : target) : list gostring := if t_closed tg then [] else [l_identity (t_lease tg)].

Definition storing (ld : Load) : Z := len (concat (storingOf <$> ld_workers ld)).
Definition dialers (ld : Load) (i : nat) : Z := len (concat (dialersOf i <$> ld_workers ld)).

(** The leases this server holds. *)
Definition leases (ld : Load) (k : Sockets) : list gostring :=
  concat (targetLease <$> so_targets k) ++ concat (leasesOf <$> ld_workers ld).

Definition isICMP (k : targetKind) : bool := match k with ICMPTarget _ _ => true | UDPTarget _ => false end.

(** What a worker's position says about the tables. *)
Definition workerOk (ncodecs : nat) (tb : Table) (x : worker) : Prop :=
  match x with
  | Storing t => (userIndex t < ncodecs)%nat
  | Having t i => exists y, tb_heap tb !! i = Some y /\ s_key y = keyOfTask t
  | Dialing t i l icmp => l_released l = false /\ bool_decide (is_Some icmp) = hasPrefix icmpPrefix (targetAddr t) /\
      exists y, tb_heap tb !! i = Some y /\ s_key y = keyOfTask t /\ s_closed y = false /\ s_targets y !! targetAddr t = None /\
        l_identity l = s_identity y
  | _ => True
  end.

Record sessionOk (ncodecs : nat) (ld : Load) (k : Sockets) (i : nat) (x : plainUDPSession) : Prop := {
  se_user : ((s_key x).1 < ncodecs)%nat;
  se_targets : forall a j, s_targets x !! a = Some j ->
    exists tg, so_targets k !! j = Some tg /\ isICMP (t_kind tg) = hasPrefix icmpPrefix a;
  se_count : s_closed x = false ->
    s_targetCount x = Z.of_nat (size (s_targets x)) /\ s_targetCount x + dialers ld i <= 32;
  se_lock : dialers ld i <= 1;
}.

Record serverOk (cf : Config) (serving : bool) (ncodecs : nat) (ld : Load) (tb : Table) (k : Sockets) : Prop := {
  so_load : loadOk cf ld;
  so_size : Z.of_nat (size (tb_sessions tb)) <= tb_count tb;
  so_limit : 0 < cf_maxSessions cf -> tb_count tb + storing ld < cf_maxSessions cf + Z.max 1 (len (ld_workers ld));
  so_entry : forall key i, tb_sessions tb !! key = Some i ->
    exists x, tb_heap tb !! i = Some x /\ s_key x = key /\ s_closed x = false;
  so_live : forall i x, tb_heap tb !! i = Some x -> s_closed x = false ->
    tb_sessions tb !! s_key x = Some i \/ (serving = false /\ idleLoad ld = true);
  so_workers : Forall (workerOk ncodecs tb) (ld_workers ld);
  so_sessions : forall i x, tb_heap tb !! i = Some x -> sessionOk ncodecs ld k i x;
  so_leases : budgetOk (so_budget k) (leases ld k ++ outstanding (so_foreign k));
  so_released : Forall (fun tg => l_released (t_lease tg) = t_closed tg) (so_targets k);
  so_listened : forall j tg, so_targets k !! j = Some tg -> t_closed tg = false -> exists i a, (i, a, j) ∈ so_listeners k;
  so_listeners_ok : forall i a j, (i, a, j) ∈ so_listeners k -> is_Some (tb_heap tb !! i) /\ is_Some (so_targets k !! j);
}.

Definition good (cf : Config) (s : Server) : Prop :=
  serverOk cf (sv_serving s) (length (sv_codecs s)) (sv_load s) (sv_table s) (sv_sockets s).

(** ** Changing one worker *)

Lemma worker_swap {A} (f : worker -> list A) ws w x y :
  ws !! w = Some x -> exists rest, concat (f <$> ws) ≡ₚ f x ++ rest /\ concat (f <$> <[w := y]> ws) ≡ₚ f y ++ rest.
Proof. intros Hw. rewrite list_fmap_insert. apply concat_insert. by rewrite list_lookup_fmap, Hw. Qed.

Lemma busy ld w x : ld_workers ld !! w = Some x -> x <> Idle -> idleLoad ld = false.
Proof.
  intros Hw Hx. unfold idleLoad. apply andb_false_iff. right. apply not_true_iff_false. rewrite forallb_forall.
  intros Hall. specialize (Hall x (proj1 (list_elem_of_In _ _) (list_elem_of_lookup_2 _ _ _ Hw))). by destruct x.
Qed.

Lemma queued ld w t q : ld_queues ld !! w = Some (t :: q) -> idleLoad ld = false.
Proof.
  intros Hw. unfold idleLoad. apply andb_false_iff. left. apply not_true_iff_false. rewrite forallb_forall.
  intros Hall. by specialize (Hall _ (proj1 (list_elem_of_In _ _) (list_elem_of_lookup_2 _ _ _ Hw))).
Qed.

Lemma storing_le ld : storing ld <= len (ld_workers ld).
Proof.
  unfold storing. induction (ld_workers ld) as [|x ws IH]; [done|]. cbn [fmap list_fmap concat].
  rewrite len_app, len_cons. destruct x; cbn [storingOf length]; lia.
Qed.

Lemma dialers_pos ld t i l ic : Dialing t i l ic ∈ ld_workers ld -> 0 < dialers ld i.
Proof.
  intros (w & Hw)%list_elem_of_lookup. unfold dialers.
  assert ((dialersOf i <$> ld_workers ld) !! w = Some [i]) as Hf.
  { rewrite list_lookup_fmap, Hw. cbn. unfold dialersOf. cbn. by rewrite bool_decide_true. }
  destruct (concat_insert _ w [i] [] Hf) as (r & -> & _). rewrite len_app. cbn [length]. lia.
Qed.

Lemma not_dialing i x : leasesOf x = [] -> dialersOf i x = [].
Proof. by destruct x. Qed.

Lemma sessionOk_dialers n ld ld' k i x :
  dialers ld' i <= dialers ld i -> sessionOk n ld k i x -> sessionOk n ld' k i x.
Proof. intros Hd [H1 H2 H3 H4]. split; [done|done| |lia]. intros Hc. destruct (H3 Hc). split; [done|lia]. Qed.

(** A worker that is not dialing moves on to a place where it is not either. *)
Lemma move_worker cf sv n ld tb k w x y qs m :
  serverOk cf sv n ld tb k -> ld_workers ld !! w = Some x -> idleLoad ld = false -> leasesOf x = [] -> leasesOf y = [] ->
  (storingOf y = [] \/ (0 < cf_maxSessions cf -> tb_count tb < cf_maxSessions cf)) -> workerOk n tb y ->
  loadOk cf (mkLoad qs (<[w := y]> (ld_workers ld)) m) ->
  serverOk cf sv n (mkLoad qs (<[w := y]> (ld_workers ld)) m) tb k.
Proof.
  intros [H1 H2 H3 H4 H5 H6 H7 H8 H9 H10 H11] Hw Hi Hx Hy Hst Hok Hld.
  set (ld' := mkLoad qs (<[w := y]> (ld_workers ld)) m) in *.
  split; try done.
  - intros Hmax. specialize (H3 Hmax). destruct Hst as [Hst|Hst].
    + assert (storing ld' <= storing ld) as Hle; [|cbn; rewrite length_insert; lia].
      unfold storing. cbn [ld_workers ld']. destruct (worker_swap storingOf _ w x y Hw) as (r & -> & ->).
      rewrite Hst, !len_app. cbn. lia.
    + pose proof (storing_le ld') as Hs. specialize (Hst Hmax). cbn [ld_workers ld'] in Hs |- *. lia.
  - intros i z Hz Hc. destruct (H5 i z Hz Hc) as [?|[_ ?]]; [by left|congruence].
  - cbn. by apply Forall_insert.
  - intros i z Hz. eapply sessionOk_dialers; [|by apply H7]. unfold dialers. cbn [ld_workers ld'].
    destruct (worker_swap (dialersOf i) _ w x y Hw) as (r & -> & ->). by rewrite !not_dialing by done.
  - assert (leases ld' k ≡ₚ leases ld k) as ->; [|done]. unfold leases. cbn [ld_workers ld'].
    destruct (worker_swap leasesOf _ w x y Hw) as (r & -> & ->). by rewrite Hx, Hy.
Qed.

(** The operations on workers, for a state that is good. *)
Lemma good_finish cf s w x t :
  good cf s -> ld_workers (sv_load s) !! w = Some x -> tasksOf x = [t] -> leasesOf x = [] -> good cf (finish s w t).
Proof.
  intros Hg Hw Ht Hl. apply (move_worker _ _ _ _ _ _ _ x); [done|done| |done|done|by left|done|].
  - apply (busy _ w x); [done|]. by intros ->.
  - eapply loadOk_finish; [done|done|apply Hg].
Qed.

Lemma good_setWorker cf s w x y :
  good cf s -> ld_workers (sv_load s) !! w = Some x -> tasksOf y = tasksOf x -> tasksOf x <> [] -> leasesOf x = [] -> leasesOf y = [] ->
  (storingOf y = [] \/ (0 < cf_maxSessions cf -> tb_count (sv_table s) < cf_maxSessions cf)) ->
  workerOk (length (sv_codecs s)) (sv_table s) y -> good cf (setWorker s w y).
Proof.
  intros Hg Hw Ht Hne Hl Hl' Hs Hok. apply (move_worker _ _ _ _ _ _ _ x); [done|done| |done|done|done|done|].
  - apply (busy _ w x); [done|]. by intros ->.
  - eapply loadOk_worker; [done|done|apply Hg].
Qed.

(** ** Taking in, taking up, finding the session *)

(** Only the queues change. *)
Lemma good_load cf s qs m :
  good cf s -> sv_serving s = true -> loadOk cf (mkLoad qs (ld_workers (sv_load s)) m) ->
  good cf (setLoad s (mkLoad qs (ld_workers (sv_load s)) m)).
Proof.
  intros [H1 H2 H3 H4 H5 H6 H7 H8 H9 H10 H11] Hs Hld. split; try done.
  - intros i x Hi Hc. destruct (H5 i x Hi Hc) as [?|[? _]]; [by left|congruence].
  - intros i x Hi. eapply sessionOk_dialers; [|by apply H7]. done.
Qed.

Lemma decode_u64 `{Crypto} c packet dir now info :
  DecodePacket c packet dir now = Ok info -> is_u64 (p_seq info) /\ is_u64 (p_timestamp info).
Proof.
  assert (forall x y (l : list byte), (y - x <= 8)%nat -> is_u64 (be_val (slice x y l))) as Hr.
  { intros x y l Hxy. pose proof (be_val_range (slice x y l)) as Hb. unfold is_u64.
    assert (len (slice x y l) <= 8) as Hl by (unfold slice; rewrite length_take; lia).
    assert (256 ^ len (slice x y l) <= 256 ^ 8) by (apply Z.pow_le_mono_r; lia). lia. }
  unfold DecodePacket. destruct (_ <? _); [done|]. destruct (aeadKey c dir); [|done].
  destruct (open _ _ _ _ _) as [p|]; [|done]. destruct (_ <? _); [done|]. destruct (timestampExpired _ _ _); [done|].
  destruct (decodeTargetAddress _) as [[a b]|]; [|done]. intros [= <-]. cbn [p_seq p_timestamp].
  split; apply Hr; lia.
Qed.

Lemma decodeAny_ok `{Crypto} codecs packet now user info :
  decodeAny codecs packet now = Ok (user, info) ->
  (user < length codecs)%nat /\ is_u64 (p_seq info) /\ is_u64 (p_timestamp info).
Proof.
  assert (forall cs i, decodeMulti i (Some <$> cs) packet DirClientToServer (now / second) = Ok (user, info) ->
    (user < i + length cs)%nat /\ is_u64 (p_seq info) /\ is_u64 (p_timestamp info)) as Hm.
  { induction cs as [|c cs IH]; intros i E; cbn in E; [done|].
    destruct (DecodePacket c packet _ _) as [x|] eqn:Ed.
    - injection E as <- <-. apply decode_u64 in Ed. cbn. split; [lia|done].
    - apply IH in E as [? ?]. cbn. split; [lia|done]. }
  unfold decodeAny, DecodePacketMulti. destruct codecs as [|c [|c' cs]]; [apply Hm| |apply Hm].
  destruct (DecodePacket c packet _ _) as [x|] eqn:Ed; [|done]. intros [= <- <-]. apply decode_u64 in Ed. cbn. split; [lia|done].
Qed.

Lemma good_enqueue cf s cost user info client :
  good cf s -> sv_serving s = true -> ld_workers (sv_load s) <> [] -> 512 <= cost -> ld_mem (sv_load s) + cost <= cf_maxMem cf ->
  is_u64 (p_seq info) -> is_u64 (p_timestamp info) ->
  good cf (enqueue s cost user info client) /\ sv_panic (enqueue s cost user info client) = sv_panic s.
Proof.
  intros Hg Hs Hne Hcost Hm Hseq Hts. unfold enqueue. pose proof (lo_width _ _ (so_load _ _ _ _ _ _ Hg)) as Hw.
  assert (0 < len (ld_queues (sv_load s))) by (destruct (ld_workers (sv_load s)); [done|]; cbn in Hw; lia).
  set (idx := Z.to_nat _). assert (idx < length (ld_queues (sv_load s)))%nat as Hidx.
  { unfold idx. pose proof (Z.mod_pos_bound (u64 (Z.lxor (p_sessionID info) (Z.of_nat user))) (len (ld_queues (sv_load s)))). lia. }
  destruct (lookup_lt_is_Some_2 _ _ Hidx) as [q Hq]. rewrite Hq.
  destruct (Z.leb_spec DefaultUDPWorkerQueueSize (len q)); [done|]. split; [|done]. apply good_load; [done|done|].
  apply (loadOk_serve cf _ idx q (mkTask user (p_sessionID info) client (p_target info) (p_payload info) cost (p_seq info) (p_timestamp info)));
    [done|lia|done|cbn; lia|apply Hg].
Qed.

Lemma cost_min (d : list byte) : 512 <= plainUDPTaskMemoryCost (len (ztake (Z.shiftl 64 10) d)).
Proof.
  destruct (memoryCost_spec (len (ztake (Z.shiftl 64 10) d))) as (j & -> & Hj & _).
  - split; [lia|]. etrans; [apply len_ztake_le; done|done].
  - assert (2 ^ 8 <= 2 ^ j) by (apply Z.pow_le_mono_r; lia). lia.
Qed.

Lemma good_serve `{Crypto} cf s d client now :
  good cf s -> sv_serving s = true -> ld_workers (sv_load s) <> [] ->
  good cf (serveOne cf s d client now) /\ sv_panic (serveOne cf s d client now) = sv_panic s.
Proof.
  intros Hg Hs Hne. unfold serveOne. pose proof (cost_min d) as Hcost.
  destruct (Z.ltb_spec (cf_maxMem cf) (ld_mem (sv_load s) + plainUDPTaskMemoryCost (len (ztake (Z.shiftl 64 10) d)))); [done|].
  destruct (decodeAny _ _ now) as [[user info]|] eqn:Ed; [|done]. apply decodeAny_ok in Ed as (_ & Hseq & Hts).
  by apply good_enqueue.
Qed.

Lemma good_take cf s w : good cf s -> good cf (workerTake s w) /\ sv_panic (workerTake s w) = sv_panic s.
Proof.
  intros Hg. unfold workerTake.
  destruct (ld_workers (sv_load s) !! w) as [[]|] eqn:Hw; try done.
  destruct (ld_queues (sv_load s) !! w) as [[|t q]|] eqn:Hq; try done.
  set (s' := setLoad s _). assert (good cf s') as Hg'.
  { apply (move_worker cf _ _ (sv_load s) _ _ w Idle (Taken t)); [done|done|by eapply queued|done|done|by left|done|].
    eapply loadOk_take; [done|done|apply Hg]. }
  destruct (sv_stopped s); [|done]. split; [|done]. apply (good_finish cf s' w (Taken t)); [done| |done|done].
  unfold s'. cbn. apply list_lookup_insert_eq. by eapply lookup_lt_Some.
Qed.

Lemma good_workerLoad cf s w :
  good cf s -> good cf (workerLoad cf s w) /\ sv_panic (workerLoad cf s w) = sv_panic s.
Proof.
  intros Hg. unfold workerLoad. destruct (ld_workers (sv_load s) !! w) as [x|] eqn:Hw; [|done]. destruct x; try done.
  destruct (Z.leb_spec (len (sv_codecs s)) (Z.of_nat (userIndex t))); [split; [by eapply good_finish|done]|].
  destruct (tb_sessions _ !! _) as [i|] eqn:Hk.
  - split; [|done]. eapply good_setWorker; [done|done|done|done|done|done|by left|].
    destruct (so_entry _ _ _ _ _ _ Hg _ _ Hk) as (x & Hx & Hkey & _). by exists x.
  - destruct (Z.ltb_spec 0 (cf_maxSessions cf)), (Z.leb_spec (cf_maxSessions cf) (tb_count (sv_table s))); cbn [andb];
      (split; [|done]); try (by eapply good_finish); (eapply good_setWorker; [done|done|done|done|done|done| |cbn; lia]); right; lia.
Qed.

(** [dom] of a table grows by one. *)
Lemma good_newSession cf s w t ns x :
  good cf s -> ld_workers (sv_load s) !! w = Some (Storing t) -> tb_sessions (sv_table s) !! keyOfTask t = None ->
  x = mkSession (keyOfTask t) (NewPersistentUDPReplayWindow (cf_cache cf) ns (task_sessionID t))
        (default [] (cf_identities cf !! userIndex t)) None ∅ 0 0 false ->
  good cf (setWorker (setTable s (mkTable (<[keyOfTask t := length (tb_heap (sv_table s))]> (tb_sessions (sv_table s)))
    (tb_count (sv_table s) + 1) (tb_heap (sv_table s) ++ [x]))) w (Having t (length (tb_heap (sv_table s))))).
Proof.
  intros Hg Hw Hk Ex. pose proof (busy _ _ _ Hw ltac:(done)) as Hbusy.
  pose proof (Forall_lookup_1 _ _ _ _ (so_workers _ _ _ _ _ _ Hg) Hw) as Hu.
  destruct Hg as [H1 H2 H3 H4 H5 H6 H7 H8 H9 H10 H11].
  set (h := tb_heap (sv_table s)) in *. set (y := Having t (length h)).
  assert (forall i z, (h ++ [x]) !! i = Some z -> h !! i = Some z \/ (i = length h /\ z = x)) as Hlook.
  { intros i z Hz. apply lookup_app_Some in Hz as [?|[Hle Hz]]; [by left|right].
    apply list_lookup_singleton_Some in Hz as [? <-]. split; [lia|done]. }
  assert (forall i z, h !! i = Some z -> (h ++ [x]) !! i = Some z) as Hold by (intros; by apply lookup_app_l_Some).
  assert (forall z, workerOk (length (sv_codecs s)) (sv_table s) z ->
    workerOk (length (sv_codecs s)) (mkTable (<[keyOfTask t := length h]> (tb_sessions (sv_table s))) (tb_count (sv_table s) + 1) (h ++ [x])) z) as Hwk.
  { intros [| | |t' i|t' i l ic]; try done; cbn.
    - intros (z & Hz & ?). exists z. split; [by apply Hold|done].
    - intros (? & ? & z & Hz & ?). split_and!; [done|done|]. exists z. split; [by apply Hold|done]. }
  unfold good. cbn [sv_serving sv_codecs sv_load sv_table sv_sockets setWorker setTable setLoad].
  split; cbn [tb_sessions tb_count tb_heap].
  - eapply loadOk_worker; [done|done|done].
  - rewrite map_size_insert_None by done. lia.
  - intros Hmax. specialize (H3 Hmax). cbn [ld_workers]. rewrite length_insert. unfold storing in *. cbn [ld_workers].
    destruct (worker_swap storingOf _ w _ y Hw) as (r & Hr & ->). rewrite Hr in H3.
    rewrite !len_app in *. cbn [storingOf length] in *. change (storingOf y) with (@nil udpTask). rewrite len_nil. lia.
  - intros key i. rewrite lookup_insert_Some. intros [[<- <-]|[Hne Hi]].
    + exists x. rewrite list_lookup_middle by done. by rewrite Ex.
    + destruct (H4 key i Hi) as (z & Hz & ?). exists z. split; [by apply Hold|done].
  - intros i z Hz Hc. left. destruct (Hlook i z Hz) as [Hz'|[-> ->]].
    + destruct (H5 i z Hz' Hc) as [Hs|[_ ?]]; [|congruence]. rewrite lookup_insert_ne; [done|]. intros E. congruence.
    + rewrite Ex. cbn. by rewrite lookup_insert_eq.
  - apply Forall_insert; [by eapply Forall_impl; [exact H6|]|]. cbn. exists x. rewrite list_lookup_middle by done. by rewrite Ex.
  - assert (forall i, dialers (mkLoad (ld_queues (sv_load s)) (<[w := y]> (ld_workers (sv_load s))) (ld_mem (sv_load s))) i
      <= dialers (sv_load s) i) as Hd.
    { intros i. unfold dialers. cbn [ld_workers]. destruct (worker_swap (dialersOf i) _ w _ y Hw) as (r & -> & ->). done. }
    intros i z Hz. destruct (Hlook i z Hz) as [Hz'|[-> ->]]; [by eapply sessionOk_dialers; [|apply H7]|].
    specialize (Hd (length h)). assert (dialers (sv_load s) (length h) = 0) as E0.
    2:{ rewrite Ex. split; [done|by intros a j; cbn; rewrite lookup_empty| |lia]. intros _. split; [by cbn; rewrite map_size_empty|]. cbn. cbn in Hd. lia. }
    unfold dialers. assert (concat (dialersOf (length h) <$> ld_workers (sv_load s)) = []) as ->; [|done].
    apply concat_nil_Forall, Forall_fmap. eapply Forall_impl; [exact H6|]. intros [| | | |t' i l ic] Hok; try done.
    destruct Hok as (_ & _ & z' & Hz' & _). apply lookup_lt_Some in Hz'. cbn. unfold dialersOf. cbn.
    rewrite bool_decide_false; [done|]. unfold h. lia.
  - assert (leases (mkLoad (ld_queues (sv_load s)) (<[w := y]> (ld_workers (sv_load s))) (ld_mem (sv_load s))) (sv_sockets s)
      ≡ₚ leases (sv_load s) (sv_sockets s)) as E; [|by rewrite E].
    unfold leases. cbn [ld_workers]. destruct (worker_swap leasesOf _ w _ y Hw) as (r & -> & ->). done.
  - done.
  - done.
  - intros i a j Hin. destruct (H11 i a j Hin) as [[z Hz] ?]. split; [|done]. exists z. by apply Hold.
Qed.

Lemma good_store cf s w :
  length (cf_namespaces cf) = length (sv_codecs s) -> good cf s ->
  good cf (workerStore cf s w) /\ sv_panic (workerStore cf s w) = sv_panic s.
Proof.
  intros Hns Hg. unfold workerStore. destruct (ld_workers (sv_load s) !! w) as [x|] eqn:Hw; [|done]. destruct x; try done.
  pose proof (Forall_lookup_1 _ _ _ _ (so_workers _ _ _ _ _ _ Hg) Hw) as Hu. cbn in Hu. rewrite <- Hns in Hu.
  destruct (lookup_lt_is_Some_2 _ _ Hu) as [ns ->]. destruct (tb_sessions (sv_table s) !! keyOfTask t) as [i|] eqn:Hk.
  - split; [|done]. eapply good_setWorker; [done|done|done|done|done|done|by left|].
    destruct (so_entry _ _ _ _ _ _ Hg _ _ Hk) as (x & Hx & Hkey & _). by exists x.
  - split; [|done]. by eapply good_newSession.
Qed.

(** ** Changing one session or one target *)

Lemma good_putSession cf s i x y :
  good cf s -> tb_heap (sv_table s) !! i = Some x ->
  s_key y = s_key x -> s_closed y = s_closed x -> s_identity y = s_identity x ->
  ((forall a, s_targets x !! a = None -> s_targets y !! a = None) \/ dialers (sv_load s) i = 0) ->
  sessionOk (length (sv_codecs s)) (sv_load s) (sv_sockets s) i y -> good cf (putSession s i y).
Proof.
  intros [H1 H2 H3 H4 H5 H6 H7 H8 H9 H10 H11] Hx Ek Ec Ei Et Hy.
  assert (i < length (tb_heap (sv_table s)))%nat as Hlt by (by eapply lookup_lt_Some).
  assert (forall j z, tb_heap (sv_table s) !! j = Some z -> exists z', <[i := y]> (tb_heap (sv_table s)) !! j = Some z' /\
    s_key z' = s_key z /\ s_closed z' = s_closed z /\ s_identity z' = s_identity z /\
    ((forall a, s_targets z !! a = None -> s_targets z' !! a = None) \/ dialers (sv_load s) j = 0)) as Hnew.
  { intros j z Hz. destruct (decide (i = j)) as [<-|Hne]; [|exists z; rewrite list_lookup_insert_ne by done; by auto 6].
    rewrite list_lookup_insert_eq by done. assert (z = x) as -> by congruence. by exists y. }
  assert (forall j z', <[i := y]> (tb_heap (sv_table s)) !! j = Some z' ->
    (j = i /\ z' = y) \/ (j <> i /\ tb_heap (sv_table s) !! j = Some z')) as Hold.
  { intros j z' Hz. destruct (decide (i = j)) as [<-|Hne]; [left|right; rewrite list_lookup_insert_ne in Hz by done; auto].
    rewrite list_lookup_insert_eq in Hz by done. split; congruence. }
  unfold good, putSession. cbn [sv_serving sv_codecs sv_load sv_table sv_sockets setTable].
  split; cbn [tb_sessions tb_count tb_heap]; [done|done|done| | | | |done|done|done| ].
  - intros key j Hj. destruct (H4 key j Hj) as (z & Hz & K1 & K2). destruct (Hnew j z Hz) as (z' & Hz' & N1 & N2 & _).
    exists z'. split_and!; [done|congruence|congruence].
  - intros j z Hz Hc. destruct (Hold j z Hz) as [[-> ->]|[_ Hz']]; [|by apply H5].
    rewrite Ek. apply H5; [done|congruence].
  - apply Forall_forall. intros wk Hin. pose proof (proj1 (Forall_forall _ _) H6 wk Hin) as Hwk. revert Hwk.
    destruct wk as [| | |t j|t j l ic]; try done; cbn.
    + intros (z & Hz & K1). destruct (Hnew j z Hz) as (z' & Hz' & N1 & _). exists z'. split; [done|congruence].
    + intros (K0 & K1 & z & Hz & K2 & K3 & K4 & K5). destruct (Hnew j z Hz) as (z' & Hz' & N1 & N2 & N3 & N4).
      split_and!; [done|done|]. exists z'. split_and!; [done|congruence|congruence| |congruence].
      destruct N4 as [N4|N4]; [by apply N4|]. pose proof (dialers_pos (sv_load s) t j l ic Hin). lia.
  - intros j z Hz. destruct (Hold j z Hz) as [[-> ->]|[_ Hz']]; [done|by apply H7].
  - intros j a m Hin. destruct (H11 j a m Hin) as [[z Hz] ?]. split; [|done]. destruct (Hnew j z Hz) as (z' & Hz' & _). by exists z'.
Qed.

(** The fields that no table depends on. *)
Lemma good_touch cf s i x y :
  good cf s -> tb_heap (sv_table s) !! i = Some x ->
  s_key y = s_key x -> s_closed y = s_closed x -> s_identity y = s_identity x ->
  s_targets y = s_targets x -> s_targetCount y = s_targetCount x -> good cf (putSession s i y).
Proof.
  intros Hg Hx E1 E2 E3 E4 E5. eapply good_putSession; [done|done|done|done|done|left; by rewrite E4|].
  destruct (so_sessions _ _ _ _ _ _ Hg i x Hx) as [S1 S2 S3 S0]. split; [by rewrite E1|by rewrite E4|by rewrite E2, E4, E5|done].
Qed.

(** A target changes, but not its kind. *)
Lemma serverOk_target cf sv n ld tb k j tg tg' b :
  serverOk cf sv n ld tb k -> so_targets k !! j = Some tg -> isICMP (t_kind tg') = isICMP (t_kind tg) ->
  l_released (t_lease tg') = t_closed tg' -> (t_closed tg' = false -> t_closed tg = false) ->
  let k' := mkSockets (<[j := tg']> (so_targets k)) (so_listeners k) b (so_foreign k) in
  budgetOk b (leases ld k' ++ outstanding (so_foreign k)) -> serverOk cf sv n ld tb k'.
Proof.
  intros [H1 H2 H3 H4 H5 H6 H7 H8 H9 H10 H11] Htg Ek Er Ec k' Hb.
  assert (j < length (so_targets k))%nat as Hlt by (by eapply lookup_lt_Some).
  split; try done.
  - intros i x Hx. destruct (H7 i x Hx) as [S1 S2 S3 S0]. split; [done| |done|done]. intros a m Hm.
    destruct (S2 a m Hm) as (z & Hz & Hk). unfold k'. cbn. destruct (decide (j = m)) as [<-|Hne].
    + exists tg'. rewrite list_lookup_insert_eq by done. split; [done|]. congruence.
    + exists z. by rewrite list_lookup_insert_ne.
  - apply Forall_insert; done.
  - intros m z Hz Hc. unfold k' in Hz |- *. cbn in Hz |- *. destruct (decide (j = m)) as [<-|Hne].
    + rewrite list_lookup_insert_eq in Hz by done. assert (z = tg') as -> by congruence. by apply (H10 j tg), Ec.
    + rewrite list_lookup_insert_ne in Hz by done. by apply (H10 m z).
  - intros i a m Hin. destruct (H11 i a m Hin) as [? Hm]. split; [done|]. unfold k'. cbn.
    destruct (decide (j = m)) as [<-|Hne]; [rewrite list_lookup_insert_eq by done; by eexists|by rewrite list_lookup_insert_ne].
Qed.

Lemma target_swap ts j tg tg' :
  ts !! j = Some tg -> exists rest, concat (targetLease <$> ts) ≡ₚ targetLease tg ++ rest /\
    concat (targetLease <$> <[j := tg']> ts) ≡ₚ targetLease tg' ++ rest.
Proof. intros Hw. rewrite list_fmap_insert. apply concat_insert. by rewrite list_lookup_fmap, Hw. Qed.

Lemma good_putTarget cf s j tg tg' :
  good cf s -> so_targets (sv_sockets s) !! j = Some tg -> isICMP (t_kind tg') = isICMP (t_kind tg) ->
  t_lease tg' = t_lease tg -> t_closed tg' = t_closed tg -> good cf (putTarget s j tg').
Proof.
  intros Hg Htg Ek El Ec. pose proof (Forall_lookup_1 _ _ _ _ (so_released _ _ _ _ _ _ Hg) Htg) as Hr.
  eapply serverOk_target; [done|done|done|congruence|congruence|].
  pose proof (so_leases _ _ _ _ _ _ Hg) as Hb. unfold leases in *. cbn [so_targets].
  destruct (target_swap _ _ tg tg' Htg) as (r & E1 & E2). rewrite E1 in Hb. rewrite E2. unfold targetLease in *.
  by rewrite El, Ec.
Qed.

(** Closing a target gives its lease back, once. *)
Lemma closeTarget_ok cf sv n ld tb k j :
  serverOk cf sv n ld tb k ->
  serverOk cf sv n ld tb (closeTarget k j) /\ so_listeners (closeTarget k j) = so_listeners k /\
  (forall tg, so_targets (closeTarget k j) !! j = Some tg -> t_closed tg = true).
Proof.
  intros Hok. unfold closeTarget. destruct (so_targets k !! j) as [tg|] eqn:Htg.
  2:{ split_and!; [done|done|]. intros z Hz. congruence. }
  destruct (t_closed tg) eqn:Ec. { split_and!; [done|done|]. intros z Hz. congruence. }
  pose proof (Forall_lookup_1 _ _ _ _ (so_released _ _ _ _ _ _ Hok) Htg) as Hr. cbn in Hr. rewrite Ec in Hr.
  pose proof (so_leases _ _ _ _ _ _ Hok) as Hb. unfold leases in Hb.
  destruct (target_swap _ _ tg (mkTarget (t_kind tg) (mkLease (l_identity (t_lease tg)) true) true) Htg) as (r & E1 & E2).
  rewrite E1 in Hb. unfold targetLease at 1 in Hb. rewrite Ec in Hb. cbn [app] in Hb.
  destruct (release_ok _ _ _ Hr Hb) as (b & -> & Hb'). split_and!.
  - eapply serverOk_target; [done|done|done|done|done|]. unfold leases. cbn [so_targets]. by rewrite E2.
  - done.
  - cbn. intros z Hz. rewrite list_lookup_insert_eq in Hz by (by eapply lookup_lt_Some).
    by assert (z = mkTarget (t_kind tg) (mkLease (l_identity (t_lease tg)) true) true) as -> by congruence.
Qed.

Lemma closeTargets_ok cf sv n ld tb k js :
  serverOk cf sv n ld tb k -> serverOk cf sv n ld tb (closeTargets k js).
Proof.
  revert k. induction js as [|j js IH]; intros k Hok; [done|]. cbn. by apply IH, closeTarget_ok.
Qed.

Lemma good_endListener cf s m i a j :
  good cf s -> so_listeners (sv_sockets s) !! m = Some (i, a, j) -> good cf (endListener s m j).
Proof.
  intros Hg Hm. destruct (closeTarget_ok _ _ _ _ _ _ j Hg) as (Hok & El & Hcl). unfold good, endListener.
  cbn [sv_serving sv_codecs sv_load sv_table sv_sockets setSockets]. set (k := closeTarget (sv_sockets s) j) in *. clearbody k.
  rewrite <- El in Hm. destruct Hok as [H1 H2 H3 H4 H5 H6 H7 H8 H9 H10 H11]. split; try done.
  - intros x y Hx. destruct (H7 x y Hx) as [S1 S2 S3 S0]. by split.
  - intros x tg Hx Hc. destruct (H10 x tg Hx Hc) as (i' & a' & Hin). exists i', a'. cbn.
    assert (x <> j) as Hne by (intros ->; specialize (Hcl tg Hx); congruence).
    apply list_elem_of_lookup in Hin as (q & Hq). apply list_elem_of_lookup.
    assert (q <> m) as Hqm by (intros ->; congruence). destruct (decide (q < m)%nat).
    + exists q. by rewrite list_lookup_delete_lt by done.
    + exists (Nat.pred q). rewrite list_lookup_delete_ge by lia. rewrite Nat.succ_pred by lia. done.
  - intros x a' y Hin. apply (H11 x a' y). cbn in Hin. by eapply list_elem_of_delete_inv.
Qed.

(** ** Opening sockets *)

Lemma not_locked s i : locked s i = false -> dialers (sv_load s) i = 0.
Proof.
  unfold locked, dialers. intros Hl. assert (concat (dialersOf i <$> ld_workers (sv_load s)) = []) as ->; [|done].
  apply concat_nil_Forall, Forall_fmap, Forall_forall. intros x Hx. cbn. unfold dialersOf.
  destruct (dialing i x) eqn:E; [|done]. exfalso. apply not_true_iff_false in Hl. apply Hl, existsb_exists. exists x.
  split; [by apply list_elem_of_In|done].
Qed.

(** A worker reserves a lease and starts to dial. *)
Lemma good_reserve cf s w t i x l b ic :
  good cf s -> ld_workers (sv_load s) !! w = Some (Having t i) -> tb_heap (sv_table s) !! i = Some x ->
  locked s i = false -> s_closed x = false -> s_targets x !! targetAddr t = None -> s_targetCount x < 32 ->
  bool_decide (is_Some ic) = hasPrefix icmpPrefix (targetAddr t) ->
  ReserveUDPTarget (so_budget (sv_sockets s)) (s_identity x) = (Some l, b) ->
  good cf (setWorker (setSockets s (setBudget (sv_sockets s) b)) w (Dialing t i l ic)).
Proof.
  intros Hg Hw Hx Hl Hc Ht Hcnt Hic Hr.
  pose proof (Forall_lookup_1 _ _ _ _ (so_workers _ _ _ _ _ _ Hg) Hw) as (x' & Hx' & Hkey).
  assert (x' = x) as -> by congruence. pose proof (busy _ _ _ Hw ltac:(done)) as Hbusy.
  apply not_locked in Hl. pose proof Hg as [H1 H2 H3 H4 H5 H6 H7 H8 H9 H10 H11].
  pose proof (reserve_ok _ _ (s_identity x) H8) as Hres. rewrite Hr in Hres. destruct Hres as [-> Hb].
  set (y := Dialing t i (mkLease (s_identity x) false) ic).
  unfold good. cbn [sv_serving sv_codecs sv_load sv_table sv_sockets setWorker setSockets setLoad]. split.
  - by eapply loadOk_worker.
  - done.
  - intros Hmax. specialize (H3 Hmax). cbn [ld_workers]. rewrite length_insert. unfold storing in *. cbn [ld_workers].
    destruct (worker_swap storingOf _ w _ y Hw) as (r & E & ->). rewrite E in H3. done.
  - done.
  - intros j z Hz Hzc. destruct (H5 j z Hz Hzc) as [?|[_ ?]]; [by left|congruence].
  - apply Forall_insert; [done|]. split_and!; [done|done|]. by exists x.
  - assert (forall j, dialers (mkLoad (ld_queues (sv_load s)) (<[w := y]> (ld_workers (sv_load s))) (ld_mem (sv_load s))) j =
      (if bool_decide (j = i) then 1 else 0) + dialers (sv_load s) j) as Hd.
    { intros j. unfold dialers. cbn [ld_workers]. destruct (worker_swap (dialersOf j) _ w _ y Hw) as (r & -> & ->).
      rewrite !len_app. change (dialersOf j y) with (if bool_decide (j = i) then [j] else []).
      destruct (bool_decide (j = i)); cbn; lia. }
    clear Hic. intros j z Hz. destruct (H7 j z Hz) as [S1 S2 S3 S0]. split; [done|done| |].
    + intros Hzc. destruct (S3 Hzc) as [S4 S5]. split; [done|]. rewrite Hd. case_bool_decide as E; [|lia]. subst j.
      assert (z = x) as -> by congruence. lia.
    + rewrite Hd. case_bool_decide as E; [subst j|]; lia.
  - cbn [so_budget so_foreign setBudget]. unfold leases in *. cbn [so_targets setBudget ld_workers].
    destruct (worker_swap leasesOf _ w _ y Hw) as (r & E & ->). rewrite E in Hb. cbn [leasesOf y app l_identity] in *.
    rewrite <- Permutation_middle. done.
  - done.
  - done.
  - done.
Qed.

(** What dialing holds, without the worker: the lease and the place in the
    session. *)
Lemma worker_done cf s w t i l ic k b :
  good cf s -> ld_workers (sv_load s) !! w = Some (Dialing t i l ic) -> k = setBudget (sv_sockets s) b ->
  budgetOk b (concat (targetLease <$> so_targets (sv_sockets s)) ++
    concat (leasesOf <$> <[w := Idle]> (ld_workers (sv_load s))) ++ outstanding (so_foreign (sv_sockets s))) ->
  good cf (finish (setSockets s k) w t) /\ dialers (sv_load (finish (setSockets s k) w t)) i = 0 /\
  (forall x, tb_heap (sv_table s) !! i = Some x -> s_closed x = false -> s_targetCount x + 1 <= 32).
Proof.
  intros Hg Hw -> Hb. pose proof (busy _ _ _ Hw ltac:(done)) as Hbusy. destruct Hg as [H1 H2 H3 H4 H5 H6 H7 H8 H9 H10 H11].
  assert (forall j, dialers (sv_load s) j = (if bool_decide (j = i) then 1 else 0) +
    dialers (mkLoad (ld_queues (sv_load s)) (<[w := Idle]> (ld_workers (sv_load s))) (ld_mem (sv_load s) - memoryCost t)) j) as Hd.
  { intros j. unfold dialers. cbn [ld_workers]. destruct (worker_swap (dialersOf j) _ w _ Idle Hw) as (r & -> & ->).
    rewrite !len_app. change (dialersOf j (Dialing t i l ic)) with (if bool_decide (j = i) then [j] else []).
    by case_bool_decide. }
  split.
  - unfold good, finish. cbn [sv_serving sv_codecs sv_load sv_table sv_sockets setSockets setLoad]. split.
    + by eapply loadOk_finish.
    + done.
    + intros Hmax. specialize (H3 Hmax). cbn [ld_workers]. rewrite length_insert. unfold storing in *. cbn [ld_workers].
      destruct (worker_swap storingOf _ w _ Idle Hw) as (r & E & ->). rewrite E in H3. done.
    + done.
    + intros j z Hz Hzc. destruct (H5 j z Hz Hzc) as [?|[_ ?]]; [by left|congruence].
    + by apply Forall_insert.
    + intros j z Hz. destruct (H7 j z Hz) as [S1 S2 S3 S0]. rewrite Hd in S0, S3.
      split; [done|done| |case_bool_decide; lia]. intros Hzc. destruct (S3 Hzc). split; [done|case_bool_decide; lia].
    + cbn. unfold leases. cbn. by rewrite <- app_assoc.
    + done.
    + done.
    + done.
  - destruct (Forall_lookup_1 _ _ _ _ H6 Hw) as (_ & _ & x & Hx & _). destruct (H7 i x Hx) as [S1 S2 S3 S0].
    specialize (Hd i). rewrite bool_decide_true in Hd by done. unfold finish. cbn [sv_load setLoad setSockets].
    assert (0 <= dialers (mkLoad (ld_queues (sv_load s)) (<[w := Idle]> (ld_workers (sv_load s))) (ld_mem (sv_load s) - memoryCost t)) i) by (unfold dialers; lia).
    split; [lia|]. intros x' Hx' Hc. assert (x' = x) as -> by congruence. destruct (S3 Hc). lia.
Qed.

Lemma leases_dialing cf s w t i l ic :
  good cf s -> ld_workers (sv_load s) !! w = Some (Dialing t i l ic) ->
  budgetOk (so_budget (sv_sockets s)) (l_identity l :: concat (targetLease <$> so_targets (sv_sockets s)) ++
    concat (leasesOf <$> <[w := Idle]> (ld_workers (sv_load s))) ++ outstanding (so_foreign (sv_sockets s))).
Proof.
  intros Hg Hw. pose proof (so_leases _ _ _ _ _ _ Hg) as Hb. unfold leases in Hb.
  destruct (worker_swap leasesOf _ w _ Idle Hw) as (r & E1 & E2). rewrite E1 in Hb. rewrite E2. cbn [leasesOf app] in *.
  rewrite <- app_assoc in Hb. cbn [app] in Hb. by rewrite <- Permutation_middle in Hb.
Qed.

(** The dial failed: the lease goes back. *)
Lemma good_giveBack cf s w t i l ic :
  good cf s -> ld_workers (sv_load s) !! w = Some (Dialing t i l ic) -> good cf (finish (giveBack s l) w t).
Proof.
  intros Hg Hw. pose proof (leases_dialing cf s w t i l ic Hg Hw) as Hb.
  pose proof (Forall_lookup_1 _ _ _ _ (so_workers _ _ _ _ _ _ Hg) Hw) as (Hl & _).
  destruct (release_ok _ _ l Hl Hb) as (b & Er & Hb'). unfold giveBack. rewrite Er. cbn [fst].
  by eapply (worker_done cf s w t i l ic _ b).
Qed.

(** A target object with an open lease enters the tables. *)
Lemma good_newTarget cf s i x a kind l b :
  good cf s -> tb_heap (sv_table s) !! i = Some x -> s_closed x = false -> s_targets x !! a = None ->
  s_targetCount x + 1 <= 32 -> dialers (sv_load s) i = 0 -> isICMP kind = hasPrefix icmpPrefix a -> l_released l = false ->
  budgetOk b (l_identity l :: leases (sv_load s) (sv_sockets s) ++ outstanding (so_foreign (sv_sockets s))) ->
  let k := sv_sockets s in
  let j := length (so_targets k) in
  good cf (putSession (setSockets s (mkSockets (so_targets k ++ [mkTarget kind l false]) (so_listeners k ++ [(i, a, j)]) b (so_foreign k)))
    i (withTargets x (<[a := j]> (s_targets x)) (s_targetCount x + 1))).
Proof.
  intros Hg Hx Hc Ha Hcnt Hd Hk Hl Hb k j. pose proof Hg as [H1 H2 H3 H4 H5 H6 H7 H8 H9 H10 H11].
  set (tg := mkTarget kind l false).
  assert (forall m z, so_targets k !! m = Some z -> (so_targets k ++ [tg]) !! m = Some z) as Hold by (intros; by apply lookup_app_l_Some).
  assert ((so_targets k ++ [tg]) !! j = Some tg) as Hj by (by apply list_lookup_middle).
  assert (good cf (setSockets s (mkSockets (so_targets k ++ [tg]) (so_listeners k ++ [(i, a, j)]) b (so_foreign k)))) as Hg'.
  { unfold good. cbn [sv_serving sv_codecs sv_load sv_table sv_sockets setSockets]. split; [done..| | | | |].
    - intros m z Hz. destruct (H7 m z Hz) as [S1 S2 S3 S0]. split; [done| |done|done]. intros a' q Hq.
      destruct (S2 a' q Hq) as (z' & Hz' & ?). exists z'. split; [by apply Hold|done].
    - cbn. unfold leases in *. cbn [so_targets]. rewrite fmap_app, concat_app. cbn [fmap list_fmap concat app].
      unfold targetLease at 2. cbn [t_closed tg t_lease app].
      rewrite <- !app_assoc. cbn [app]. rewrite <- app_assoc in Hb. by rewrite <- Permutation_middle.
    - cbn. apply Forall_app. split; [done|]. by repeat constructor.
    - cbn. intros m z Hz Hzc. apply lookup_app_Some in Hz as [Hz|[Hge Hz]].
      + destruct (H10 m z Hz Hzc) as (i' & a' & Hin). exists i', a'. apply elem_of_app. by left.
      + apply list_lookup_singleton_Some in Hz as [Hz _]. exists i, a. apply elem_of_app. right.
        assert (m = j) as -> by (unfold j, k in *; lia). by apply list_elem_of_singleton.
    - cbn. intros i' a' m [Hin|Hin]%elem_of_app.
      + destruct (H11 i' a' m Hin) as [? [z Hz]]. split; [done|]. exists z. by apply Hold.
      + apply list_elem_of_singleton in Hin as [= -> -> ->]. split; by eexists. }
  destruct (so_sessions _ _ _ _ _ _ Hg' i x Hx) as [S1 S2 S3 S0]. destruct (S3 Hc) as [S4 S5].
  eapply good_putSession; [exact Hg'|exact Hx|done|done|done|by right|]. split; [done| | |done].
  - cbn [s_targets withTargets]. intros a' m. rewrite lookup_insert_Some. intros [[<- <-]|[_ Hm]]; [by exists tg|by apply S2].
  - cbn [s_targets s_targetCount s_closed withTargets]. intros _. rewrite map_size_insert_None by done. cbn [sv_load setSockets] in *. lia.
Qed.

(** The end of a successful dial. *)
Lemma good_addTarget cf s w t i l ic x kind :
  good cf s -> ld_workers (sv_load s) !! w = Some (Dialing t i l ic) -> tb_heap (sv_table s) !! i = Some x ->
  isICMP kind = bool_decide (is_Some ic) ->
  good cf (finish (addTarget s i x (targetAddr t) (mkTarget kind l false)) w t).
Proof.
  intros Hg Hw Hx Hk. pose proof (leases_dialing cf s w t i l ic Hg Hw) as Hb.
  destruct (Forall_lookup_1 _ _ _ _ (so_workers _ _ _ _ _ _ Hg) Hw) as (Hl & Hic & x' & Hx' & _ & Hc & Ha & _).
  assert (x' = x) as -> by congruence. destruct (release_ok _ _ l Hl Hb) as (b & Er & Hb').
  destruct (worker_done cf s w t i l ic _ b Hg Hw eq_refl Hb') as (Hg2 & Hd & Hcnt).
  assert (isICMP kind = hasPrefix icmpPrefix (targetAddr t)) as Hk' by congruence.
  apply (good_newTarget cf _ i x (targetAddr t) kind l (so_budget (sv_sockets s)) Hg2 Hx Hc Ha (Hcnt x Hx Hc) Hd Hk' Hl).
  unfold leases. cbn. by rewrite <- app_assoc.
Qed.

(** ** The steps *)

(** A good state without a panic, as wide as before. *)
Record keeps (cf : Config) (s s' : Server) : Prop := {
  kp_good : good cf s';
  kp_panic : sv_panic s' = sv_panic s;
  kp_codecs : length (sv_codecs s') = length (sv_codecs s);
  kp_width : length (ld_workers (sv_load s')) = length (ld_workers (sv_load s));
}.

Lemma serverKeeps_trans cf s1 s2 s3 : keeps cf s1 s2 -> keeps cf s2 s3 -> keeps cf s1 s3.
Proof. intros [_ A2 A3 A4] [B1 B2 B3 B4]. split; [done|congruence..]. Qed.

Lemma serverKeeps_refl cf s : good cf s -> keeps cf s s.
Proof. by split. Qed.

Lemma keeps_send cf s s' o : keeps cf s s' -> keeps cf s (send s' o).
Proof. intros []. by split. Qed.

Lemma keeps_finish cf s w x t :
  good cf s -> ld_workers (sv_load s) !! w = Some x -> tasksOf x = [t] -> leasesOf x = [] -> keeps cf s (finish s w t).
Proof. intros. split; [by eapply good_finish|done|done|]. cbn. by rewrite length_insert. Qed.

Lemma keeps_sendEcho cf s now j tg ip data :
  good cf s -> so_targets (sv_sockets s) !! j = Some tg -> keeps cf s (sendEcho s now j tg ip data).
Proof.
  intros Hg Hj. unfold sendEcho. destruct (t_kind tg) as [addr|tip out] eqn:Ek; [by apply serverKeeps_refl|].
  destruct (PrepareRequest _ _ _ _) as [r tr].
  assert (keeps cf s (setEcho (putTarget s j (mkTarget (ICMPTarget tip (pending tr)) (t_lease tg) (t_closed tg))) (nextEchoToken tr))) as Hk.
  { split; [|done..]. apply (good_putTarget cf s j tg); [done|done|by rewrite Ek|done|done]. }
  destruct r; [|done]. destruct (t_closed tg); [done|]. destruct Hk. by split.
Qed.

(** Sending and finishing do not interfere. *)
Lemma finish_sendEcho s now j tg ip data w t :
  finish (sendEcho s now j tg ip data) w t = sendEcho (finish s w t) now j tg ip data.
Proof.
  unfold sendEcho. destruct (t_kind tg); [done|]. cbn [sv_echo finish setLoad]. destruct (PrepareRequest _ _ _ _) as [[wire|e] tr]; [|done].
  by destruct (t_closed tg).
Qed.

(** The assertions of [deliverTo] hold for a target of the right kind. *)
Lemma keeps_deliverTo cf s0 s now w t j ic tg :
  good cf (finish s w t) -> keeps cf s0 (finish s w t) -> so_targets (sv_sockets s) !! j = Some tg ->
  isICMP (t_kind tg) = bool_decide (is_Some ic) -> keeps cf s0 (deliverTo s now w t j ic).
Proof.
  intros Hg Hk Hj Hkind. unfold deliverTo. rewrite Hj. destruct tg as [[addr|tip out] l cl], ic as [ip|]; cbn in Hkind; try done.
  - destruct cl; [done|]. destruct Hk. by split.
  - rewrite finish_sendEcho. eapply serverKeeps_trans; [exact Hk|]. by apply keeps_sendEcho.
Qed.

Lemma keeps_run `{Crypto} cf s w answer lookup now : good cf s -> keeps cf s (workerRun cf s w answer lookup now).
Proof.
  intros Hg. unfold workerRun. destruct (ld_workers (sv_load s) !! w) as [wk|] eqn:Hw; [|by apply serverKeeps_refl].
  destruct wk as [|t|t|t i|t i l ic]; try by apply serverKeeps_refl.
  destruct (Forall_lookup_1 _ _ _ _ (so_workers _ _ _ _ _ _ Hg) Hw) as (x & Hx & Hkey). rewrite Hx.
  destruct (locked s i) eqn:Hl; [by apply serverKeeps_refl|].
  destruct (s_closed x) eqn:Hc; cbn [orb]; [by eapply keeps_finish|]. destruct (sv_stopped s); [by eapply keeps_finish|].
  destruct (AcceptAuthenticated _ _ _ _ _) as [[ok q] guard].
  assert (forall y, s_key y = s_key x -> s_closed y = s_closed x -> s_identity y = s_identity x -> s_targets y = s_targets x ->
    s_targetCount y = s_targetCount x -> good cf (putSession s i y)) as Hput by (intros; by eapply good_touch).
  destruct ok; cbn [negb].
  2:{ eapply serverKeeps_trans; [|eapply keeps_finish; [|exact Hw|done|done]]; [|by apply Hput].
      split; [by apply Hput|done..]. }
  set (y := mkSession _ _ _ _ _ _ _ _). assert (keeps cf s (putSession s i y)) as Hs1 by (split; [by apply Hput|done..]).
  eapply serverKeeps_trans; [exact Hs1|]. destruct Hs1 as [Hg1 _ _ _].
  assert (tb_heap (sv_table (putSession s i y)) !! i = Some y) as Hy.
  { cbn. apply list_lookup_insert_eq. by eapply lookup_lt_Some. }
  set (s1 := putSession s i y) in *. assert (ld_workers (sv_load s1) !! w = Some (Having t i)) as Hw1 by done.
  assert (locked s1 i = false) as Hl1 by done. assert (s_closed y = false) as Hcy by done. clearbody s1.
  destruct (so_sessions _ _ _ _ _ _ Hg1 i y Hy) as [S1 S2 S3 S0].
  assert (forall ic, s_targets y !! targetAddr t = None -> s_targetCount y < 32 ->
    bool_decide (is_Some ic) = hasPrefix icmpPrefix (targetAddr t) ->
    keeps cf s1 (match ReserveUDPTarget (so_budget (sv_sockets s1)) (s_identity y) with
      | (None, _) => finish s1 w t
      | (Some l, b) => setWorker (setSockets s1 (setBudget (sv_sockets s1) b)) w (Dialing t i l ic)
      end)) as Hres.
  { intros ic Hnone Hcnt Hic. destruct (ReserveUDPTarget _ _) as [[l|] b] eqn:Er; [|by eapply keeps_finish].
    split; [by eapply good_reserve|done|done|]. cbn. by rewrite length_insert. }
  destruct (hasPrefix icmpPrefix (targetAddr t)) eqn:Hp.
  - unfold handleICMP. destruct (ResolveICMPIP _ _ _) as [ip|]; [|by eapply keeps_finish].
    destruct (s_targets y !! targetAddr t) as [j|] eqn:Ej.
    + destruct (S2 _ _ Ej) as (tg & Htg & Hk). rewrite Htg. destruct tg as [[addr|tip out] l cl]; [by eapply keeps_finish|].
      rewrite finish_sendEcho. eapply serverKeeps_trans; [eapply keeps_finish; [done|exact Hw1|done|done]|].
      apply keeps_sendEcho; [eapply good_finish; [done|exact Hw1|done|done]|done].
    + destruct (Z.leb_spec 32 (s_targetCount y)); [by eapply keeps_finish|]. by apply Hres.
  - unfold handleUDP. destruct (s_targets y !! targetAddr t) as [j|] eqn:Ej.
    + destruct (S2 _ _ Ej) as (tg & Htg & Hk). rewrite Htg. rewrite Hp in Hk. destruct tg as [[addr|tip out] l cl]; [|done].
      destruct cl; [by eapply keeps_finish|]. apply (keeps_send cf s1 (finish s1 w t)). by eapply keeps_finish.
    + destruct (Z.leb_spec 32 (s_targetCount y)); [by eapply keeps_finish|]. by apply Hres.
Qed.

Lemma keeps_dial `{Crypto} cf s w lookup dialOk now : good cf s -> keeps cf s (workerDial cf s w lookup dialOk now).
Proof.
  intros Hg. unfold workerDial. destruct (ld_workers (sv_load s) !! w) as [wk|] eqn:Hw; [|by apply serverKeeps_refl].
  destruct wk as [|t|t|t i|t i l ic]; try by apply serverKeeps_refl.
  destruct (Forall_lookup_1 _ _ _ _ (so_workers _ _ _ _ _ _ Hg) Hw) as (Hl & Hic & x & Hx & Hkey & Hc & Ha & _). rewrite Hx.
  assert (keeps cf s (finish (giveBack s l) w t)) as Hback.
  { split; [by eapply good_giveBack|done|done|]. cbn. by rewrite length_insert. }
  destruct (newKind cf lookup t ic) as [kind|] eqn:Ek; [|done]. destruct (sv_stopped s || negb dialOk); [done|]. rewrite Ha.
  assert (isICMP kind = bool_decide (is_Some ic)) as Hk.
  { unfold newKind in Ek. destruct ic as [ip|]; [by injection Ek as <-|]. by destruct (cf_resolveUDP cf lookup _); [injection Ek as <-|]. }
  pose proof (good_addTarget cf s w t i l ic x kind Hg Hw Hx Hk) as Hadd.
  apply (keeps_deliverTo cf s _ now w t _ ic (mkTarget kind l false)); [done| | |exact Hk].
  - split; [done|done|done|]. cbn. by rewrite length_insert.
  - cbn. by apply list_lookup_middle.
Qed.

Lemma keeps_endListener cf s m i a j :
  good cf s -> so_listeners (sv_sockets s) !! m = Some (i, a, j) -> keeps cf s (endListener s m j).
Proof. intros. split; [by eapply good_endListener|done..]. Qed.

Lemma keeps_listenError cf s m : good cf s -> keeps cf s (listenError s m).
Proof.
  intros Hg. unfold listenError. destruct (so_listeners (sv_sockets s) !! m) as [[[i a] j]|] eqn:Hm; [|by apply serverKeeps_refl].
  destruct (so_listeners_ok _ _ _ _ _ _ Hg i a j (list_elem_of_lookup_2 _ _ _ Hm)) as [[x Hx] _]. rewrite Hx.
  destruct (s_targets x !! a) as [j'|] eqn:Ha; [|by eapply keeps_endListener].
  assert (good cf (putSession s i (withTargets x (delete a (s_targets x)) (s_targetCount x - 1)))) as Hg'.
  { destruct (so_sessions _ _ _ _ _ _ Hg i x Hx) as [S1 S2 S3 S0].
    eapply good_putSession; [done|done|done|done|done| |].
    - left. intros b Hb. cbn. rewrite lookup_delete_None. auto.
    - split; [done| | |done]; cbn.
      + intros b q [_ Hq]%lookup_delete_Some. by apply S2.
      + intros Hc. destruct (S3 Hc) as [S4 S5]. rewrite map_size_delete_Some by eauto.
        assert (0 < size (s_targets x))%nat by (apply Nat.neq_0_lt_0; intros E%map_size_empty_inv; by rewrite E, lookup_empty in Ha). lia. }
  eapply serverKeeps_trans; [|eapply keeps_endListener; [exact Hg'|exact Hm]]. split; [exact Hg'|done..].
Qed.

Lemma keeps_listenStop cf s m : good cf s -> keeps cf s (listenStop s m).
Proof.
  intros Hg. unfold listenStop. destruct (so_listeners (sv_sockets s) !! m) as [[[i a] j]|] eqn:Hm; [|by apply serverKeeps_refl].
  destruct (sv_stopped s); [by eapply keeps_endListener|by apply serverKeeps_refl].
Qed.

Lemma good_setCodecs cf s c : length c = length (sv_codecs s) -> good cf s -> good cf (setCodecs s c).
Proof. intros E. unfold good. cbn. by rewrite E. Qed.

Lemma keeps_reply `{Crypto} cf s i x a data now rnd :
  good cf s -> tb_heap (sv_table s) !! i = Some x -> keeps cf s (reply s i x a data now rnd).
Proof.
  intros Hg Hx. unfold reply. cbn [sv_codecs putSession setTable].
  assert (good cf (putSession s i (withActive x now))) as Hg' by (by eapply good_touch).
  destruct (so_sessions _ _ _ _ _ _ Hg i x Hx) as [S1 _ _ _]. destruct (lookup_lt_is_Some_2 _ _ S1) as [c ->].
  destruct (EncodePacket _ _ _ _ _ _ _ _) as [r c'].
  assert (keeps cf s (setCodecs (putSession s i (withActive x now)) (<[(s_key x).1 := c']> (sv_codecs s)))) as Hk.
  { split; [apply good_setCodecs; [by rewrite length_insert|done]|done|cbn; by rewrite length_insert|done]. }
  destruct r as [[enc rnd']|]; [|done]. destruct (s_client x); [by apply keeps_send|done].
Qed.

Lemma keeps_listenData `{Crypto} cf s m from data now rnd : good cf s -> keeps cf s (listenData s m from data now rnd).
Proof.
  intros Hg. unfold listenData. destruct (so_listeners (sv_sockets s) !! m) as [[[i a] j]|] eqn:Hm; [|by apply serverKeeps_refl].
  destruct (tb_heap (sv_table s) !! i) as [x|] eqn:Hx; [|by apply serverKeeps_refl].
  destruct (so_targets (sv_sockets s) !! j) as [tg|] eqn:Hj; [|by apply serverKeeps_refl].
  destruct (t_closed tg) eqn:Hc; [by apply serverKeeps_refl|]. destruct (t_kind tg) as [addr|ip out] eqn:Hk; [by apply keeps_reply|].
  destruct from as [src|]; [|by apply serverKeeps_refl]. destruct (negb _); [by apply serverKeeps_refl|].
  destruct (RestoreReply _ _ _ _) as [r tr].
  assert (good cf (putTarget s j (mkTarget (ICMPTarget ip (pending tr)) (t_lease tg) false))) as Hg'.
  { apply (good_putTarget cf s j tg); [done|done|by rewrite Hk|done|done]. }
  destruct r; [|by split]. eapply serverKeeps_trans; [|by apply keeps_reply]. by split.
Qed.

(** The cleaner closes a session that nobody uses. *)
Lemma keeps_clean cf s key now : good cf s -> keeps cf s (cleanOne s key now).
Proof.
  intros Hg. unfold cleanOne. destruct (tb_sessions (sv_table s) !! key) as [i|] eqn:Hk; [|by apply serverKeeps_refl].
  destruct (so_entry _ _ _ _ _ _ Hg key i Hk) as (x & Hx & Hkey & Hc). rewrite Hx.
  destruct (negb _); [by apply serverKeeps_refl|]. destruct (locked s i) eqn:Hl; [by apply serverKeeps_refl|].
  apply not_locked in Hl. split; [|done..].
  assert (good cf (setSockets s (closeTargets (sv_sockets s) (snd <$> map_to_list (s_targets x))))) as Hg1
    by (by apply closeTargets_ok). unfold good in *.
  cbn [sv_serving sv_codecs sv_load sv_table sv_sockets setSockets setTable] in *. revert Hg1.
  generalize (closeTargets (sv_sockets s) (snd <$> map_to_list (s_targets x))). intros k [H1 H2 H3 H4 H5 H6 H7 H8 H9 H10 H11].
  set (y := mkSession _ _ _ _ _ _ _ _). set (h := tb_heap (sv_table s)) in *.
  assert (i < length h)%nat as Hlt by (by eapply lookup_lt_Some).
  assert (forall m z, <[i := y]> h !! m = Some z -> (m = i /\ z = y) \/ (m <> i /\ h !! m = Some z)) as Hold.
  { intros m z Hz. destruct (decide (i = m)) as [<-|Hne]; [left|right; rewrite list_lookup_insert_ne in Hz by done; auto].
    rewrite list_lookup_insert_eq in Hz by done. split; congruence. }
  assert (forall m z, h !! m = Some z -> exists z', <[i := y]> h !! m = Some z' /\ s_key z' = s_key z /\ (m <> i -> z' = z)) as Hnew.
  { intros m z Hz. destruct (decide (i = m)) as [<-|Hne]; [|exists z; by rewrite list_lookup_insert_ne].
    exists y. rewrite list_lookup_insert_eq by done. assert (z = x) as -> by congruence. done. }
  split; cbn [tb_sessions tb_count tb_heap]; [done| | | | | | |done|done|done|].
  - rewrite map_size_delete_Some by eauto.
    assert (0 < size (tb_sessions (sv_table s)))%nat by (apply Nat.neq_0_lt_0; intros E%map_size_empty_inv; by rewrite E, lookup_empty in Hk). lia.
  - intros Hmax. specialize (H3 Hmax). lia.
  - intros key' m [Hne Hm]%lookup_delete_Some. destruct (H4 key' m Hm) as (z & Hz & Z1 & Z2). destruct (Hnew m z Hz) as (z' & Hz' & _ & Hz2).
    assert (m <> i) as Hmi by (intros ->; congruence). rewrite (Hz2 Hmi) in Hz'. by exists z.
  - intros m z Hz Hzc. destruct (Hold m z Hz) as [[-> ->]|[Hne Hz']]; [done|]. destruct (H5 m z Hz' Hzc) as [Hs|?]; [|by right].
    left. rewrite lookup_delete_ne; [done|]. intros E. rewrite <- E in Hs. congruence.
  - apply Forall_forall. intros wk Hin. pose proof (proj1 (Forall_forall _ _) H6 wk Hin) as Hwk. revert Hwk.
    destruct wk as [| | |t m|t m l ic]; try done; cbn.
    + intros (z & Hz & K1). destruct (Hnew m z Hz) as (z' & Hz' & N1 & _). exists z'. split; [done|congruence].
    + intros (K0 & K1 & z & Hz & K2). split_and!; [done|done|]. exists z. split; [|done].
      destruct (Hnew m z Hz) as (z' & Hz' & _ & N1). rewrite N1 in Hz'; [done|]. intros ->.
      pose proof (dialers_pos (sv_load s) t i l ic Hin). lia.
  - intros m z Hz. destruct (Hold m z Hz) as [[-> ->]|[_ Hz']]; [|by apply H7].
    destruct (H7 i x Hx) as [S1 S2 S3 S0]. by split.
  - intros m a q Hin. destruct (H11 m a q Hin) as [[z Hz] ?]. split; [|done]. destruct (Hnew m z Hz) as (z' & Hz' & _). by exists z'.
Qed.

Lemma keeps_closeSessions cf s : good cf s -> keeps cf s (closeSessions s).
Proof.
  intros Hg. unfold closeSessions. destruct (sv_serving s) eqn:Es; [by apply serverKeeps_refl|]. cbn [negb andb].
  destruct (idleLoad (sv_load s)) eqn:Ei; [|by apply serverKeeps_refl]. split; [|done..].
  assert (good cf (setSockets s (closeTargets (sv_sockets s) (tableTargets s)))) as Hg1 by (by apply closeTargets_ok).
  unfold good in *. cbn [sv_serving sv_codecs sv_load sv_table sv_sockets setSockets setTable] in *. revert Hg1.
  generalize (closeTargets (sv_sockets s) (tableTargets s)). intros k [H1 H2 H3 H4 H5 H6 H7 H8 H9 H10 H11].
  split; cbn [tb_sessions tb_count tb_heap]; try done.
  - rewrite map_size_empty. lia.
  - intros i x Hx Hc. right. by rewrite Es.
Qed.

Lemma keeps_foreign cf s op :
  good cf s -> keeps cf s (let k := sv_sockets s in
    let '(b, ls) := budgetStep (so_budget k, so_foreign k) op in setSockets s (mkSockets (so_targets k) (so_listeners k) b ls)).
Proof.
  intros Hg. pose proof (budgetStep_ok (leases (sv_load s) (sv_sockets s)) (so_budget (sv_sockets s), so_foreign (sv_sockets s)) op
    (so_leases _ _ _ _ _ _ Hg)) as Hb. cbn zeta. destruct (budgetStep _ op) as [b ls]. cbn [fst snd] in Hb.
  split; [|done..]. destruct Hg as [H1 H2 H3 H4 H5 H6 H7 H8 H9 H10 H11]. split; try done.
  intros i x Hx. destruct (H7 i x Hx) as [S1 S2 S3 S0]. by split.
Qed.

Section Runs.
  Context `{Crypto} (cf : Config).

Lemma keeps_step s te :
  length (cf_namespaces cf) = length (sv_codecs s) -> ld_workers (sv_load s) <> [] -> good cf s ->
  keeps cf s (step cf s te).
Proof.
  intros Hns Hne Hg. destruct te as [now ev]. unfold step. destruct (sv_panic s) eqn:Hp; [by apply serverKeeps_refl|].
  assert (forall s', good cf s' /\ sv_panic s' = sv_panic s -> sv_codecs s' = sv_codecs s ->
    length (ld_workers (sv_load s')) = length (ld_workers (sv_load s)) -> keeps cf s s') as Hmk.
  { intros s' [? ?] Hcod ?. split; [done|done|by rewrite Hcod|done]. }
  destruct ev as [packet client| |w|w|w|w answer lookup|w lookup ok|m from data rnd|m|m|key age| | |op].
  - destruct (sv_serving s) eqn:Es; [|by apply serverKeeps_refl]. apply Hmk; [by apply good_serve|..];
      unfold serveOne, enqueue; repeat case_match; done.
  - split; [|done..]. destruct Hg as [H1 H2 H3 H4 H5 H6 H7 H8 H9 H10 H11]. split; try done.
    intros i x Hx Hc. destruct (H5 i x Hx Hc) as [?|[? ?]]; auto.
  - apply Hmk; [by apply good_take|unfold workerTake; repeat case_match; done|].
    unfold workerTake. repeat case_match; cbn; by rewrite ?length_insert.
  - apply Hmk; [by apply good_workerLoad|unfold workerLoad; repeat case_match; done|].
    unfold workerLoad. repeat case_match; cbn; by rewrite ?length_insert.
  - apply Hmk; [by apply good_store|unfold workerStore; repeat case_match; done|].
    unfold workerStore. repeat case_match; cbn; by rewrite ?length_insert.
  - by apply keeps_run.
  - by apply keeps_dial.
  - by apply keeps_listenData.
  - by apply keeps_listenError.
  - by apply keeps_listenStop.
  - by apply keeps_clean.
  - split; [exact Hg|done..].
  - by apply keeps_closeSessions.
  - by apply keeps_foreign.
Qed.

(** Configuration and start. *)
Record startOk (s : Server) : Prop := {
  st_good : good cf s;
  st_panic : sv_panic s = false;
  st_ns : length (cf_namespaces cf) = length (sv_codecs s);
  st_workers : ld_workers (sv_load s) <> [];
}.

Lemma startOk_initial codecs b foreign echo n :
  length (cf_namespaces cf) = length codecs -> (0 < n)%nat -> budgetOk b (outstanding foreign) ->
  startOk (initial codecs b foreign echo n).
Proof.
  intros Hns Hn Hb. assert (forall {A} (f : worker -> list A), f Idle = [] -> concat (f <$> replicate n Idle) = []) as Hz.
  { intros A f Hf. clear Hn. induction n as [|m IH]; [done|]. cbn. by rewrite Hf, IH. }
  split; [|done|done|by destruct n; [lia|]].
  unfold good, initial. cbn [sv_serving sv_codecs sv_load sv_table sv_sockets]. split; cbn [tb_sessions tb_count tb_heap].
  - apply loadOk_initial.
  - done.
  - intros Hmax. unfold storing. cbn [ld_workers]. rewrite (Hz _ storingOf) by done. cbn. lia.
  - intros key i. by rewrite lookup_empty.
  - intros i x. by rewrite lookup_nil.
  - by apply Forall_replicate.
  - intros i x. by rewrite lookup_nil.
  - cbn. unfold leases. cbn [so_targets ld_workers]. rewrite (Hz _ leasesOf) by done. done.
  - constructor.
  - intros j tg. cbn. by rewrite lookup_nil.
  - cbn. by intros i a j ?%elem_of_nil.
Qed.

Lemma startOk_step s te : startOk s -> startOk (step cf s te).
Proof.
  intros [H1 H2 H3 H4]. destruct (keeps_step s te H3 H4 H1) as [K1 K2 K3 K4].
  split; [done|congruence|congruence|]. intros E. rewrite E in K4. by destruct (ld_workers (sv_load s)).
Qed.

Lemma startOk_run s evs : startOk s -> startOk (run cf s evs).
Proof. revert s. induction evs as [|te evs IH]; intros s Hs; [done|]. cbn. by apply IH, startOk_step. Qed.

Lemma run_width s evs : startOk s -> length (ld_workers (sv_load (run cf s evs))) = length (ld_workers (sv_load s)).
Proof.
  revert s. induction evs as [|te evs IH]; intros s Hs; [done|].
  change (run cf s (te :: evs)) with (run cf (step cf s te) evs). rewrite IH by (by apply startOk_step).
  destruct Hs as [H1 H2 H3 H4]. by apply (kp_width cf s), keeps_step.
Qed.
End Runs.

(** at every moment of every run of the UDP server, whatever datagrams,
    clocks, answers of the network and interleavings of its goroutines: the
    memory counter is exactly the cost of the tasks that are queued or being
    handled, within the 64 MiB budget, so that everything is given back when
    the server is idle; every queue is bounded; and the sessions exceed their
    limit by less than the number of workers. *)
Theorem plain_udp_bounds `{Crypto} cf codecs b foreign echo n evs :
  length (cf_namespaces cf) = length codecs -> (0 < n)%nat -> budgetOk b (outstanding foreign) ->
  let s := run cf (initial codecs b foreign echo n) evs in
  ld_mem (sv_load s) = costs (pendingTasks (sv_load s)) /\ ld_mem (sv_load s) <= Z.max 0 (cf_maxMem cf) /\
  (idleLoad (sv_load s) = true -> ld_mem (sv_load s) = 0) /\
  Forall (fun q => len q <= DefaultUDPWorkerQueueSize) (ld_queues (sv_load s)) /\
  (0 < cf_maxSessions cf -> Z.of_nat (size (tb_sessions (sv_table s))) < cf_maxSessions cf + Z.of_nat n).
Proof.
  intros Hns Hn Hb s. pose proof (startOk_initial cf codecs b foreign echo n Hns Hn Hb) as H0.
  pose proof (run_width cf _ evs H0) as Hw. pose proof (startOk_run cf _ evs H0) as [Hg _ _ _]. fold s in Hw, Hg. clearbody s.
  cbn in Hw. rewrite length_replicate in Hw. destruct Hg as [[L1 L2 L3 L4 L5] H2 H3 _ _ _ _ _ _ _ _]. split_and!; [done|done| |done|].
  - intros Hi. rewrite L1. assert (pendingTasks (sv_load s) = []) as ->; [|done]. unfold idleLoad in Hi.
    apply andb_true_iff in Hi as [Hq Hi]. rewrite forallb_forall in Hq, Hi. unfold pendingTasks.
    apply app_nil. split; [|rename Hi into Hq']; apply concat_nil_Forall, Forall_forall.
    + intros q Hin. specialize (Hq q (proj1 (list_elem_of_In _ _) Hin)). by destruct q.
    + intros q (x & -> & Hin)%list_elem_of_fmap. specialize (Hq' x (proj1 (list_elem_of_In _ _) Hin)). by destruct x.
  - intros Hmax. specialize (H3 Hmax). assert (0 <= storing (sv_load s)) by (unfold storing; lia). lia.
Qed.

(** no run of the UDP server panics: the type assertions on the targets of
    a session always meet the kind they expect, and no index or pointer is
    missing. *)
Theorem plain_udp_no_panic `{Crypto} cf codecs b foreign echo n evs :
  length (cf_namespaces cf) = length codecs -> (0 < n)%nat -> budgetOk b (outstanding foreign) ->
  sv_panic (run cf (initial codecs b foreign echo n) evs) = false.
Proof. intros Hns Hn Hb. by apply (st_panic cf), startOk_run, startOk_initial. Qed.

(** the socket budget of the process counts exactly the sockets the server
    has open or is opening, beside those of other listeners: a session has at
    most 32 targets, every open socket has the goroutine that will close it,
    and when all workers and listeners have ended nothing of the server's share
    is left in the budget. *)
Theorem plain_udp_leases `{Crypto} cf codecs b foreign echo n evs :
  length (cf_namespaces cf) = length codecs -> (0 < n)%nat -> budgetOk b (outstanding foreign) ->
  let s := run cf (initial codecs b foreign echo n) evs in
  let k := sv_sockets s in
  used (so_budget k) = len (leases (sv_load s) k) + len (outstanding (so_foreign k)) /\
  (forall i x, tb_heap (sv_table s) !! i = Some x -> s_closed x = false -> Z.of_nat (size (s_targets x)) <= 32) /\
  (forall j tg, so_targets k !! j = Some tg -> t_closed tg = false -> exists i a, (i, a, j) ∈ so_listeners k) /\
  (idleLoad (sv_load s) = true -> so_listeners k = [] -> used (so_budget k) = len (outstanding (so_foreign k))).
Proof.
  intros Hns Hn Hb s k. pose proof (startOk_run cf _ evs (startOk_initial cf codecs b foreign echo n Hns Hn Hb)) as [Hg _ _ _].
  fold s in Hg. destruct Hg as [_ _ _ _ _ _ H7 H8 _ H10 _]. pose proof (bo_used _ _ H8) as Hu. rewrite len_app in Hu.
  split_and!; [done| |done|].
  - intros i x Hx Hc. destruct (H7 i x Hx) as [_ _ S3 _]. destruct (S3 Hc) as [<- S5].
    assert (0 <= dialers (sv_load s) i) by (unfold dialers; lia). lia.
  - intros Hi Hl. unfold k. rewrite Hu. assert (leases (sv_load s) (sv_sockets s) = []) as ->; [|done].
    unfold leases. apply app_nil. split; apply concat_nil_Forall, Forall_forall.
    + intros q (tg & -> & Hin)%list_elem_of_fmap. unfold targetLease. destruct (t_closed tg) eqn:Hc; [done|].
      apply list_elem_of_lookup in Hin as (j & Hj). destruct (H10 j tg Hj Hc) as (i & a & Hia). fold k in Hia.
      rewrite Hl in Hia. by apply elem_of_nil in Hia.
    + intros q (x & -> & Hin)%list_elem_of_fmap. unfold idleLoad in Hi. apply andb_true_iff in Hi as [_ Hi].
      rewrite forallb_forall in Hi. specialize (Hi x (proj1 (list_elem_of_In _ _) Hin)). by destruct x.
Qed.
