(* ===== verification/PlainUDPReplay.v ===== *)
(** * What the plain UDP server accepts and sends

    Along the runs of [PlainUDPRuns.v]: the packets whose replay check passed,
    the clients they came from, and the addresses the server sends to. *)
From S2P Require Import Prelude GoIO GoNet Crypto Icmp Target PlainUDP Auth UdpReplay UdpBudget PlainUDPServer PlainUDPRuns.

Open Scope Z_scope.

#[local] Arguments icmpPrefix : simpl never.

(** ** The packets that are accepted *)

(** The task whose packet passes the replay check in this step, and when. *)
Definition passes (s : Server) (te : Z * event) : list (udpTask * Z) :=
  match te with
  | (now, ERun w answer _) =>
      match ld_workers (sv_load s) !! w with
      | Some (Having t i) =>
          match tb_heap (sv_table s) !! i with
          | Some x =>
              if sv_panic s || locked s i || s_closed x || sv_stopped s then []
              else if (AcceptAuthenticated (s_guard x) answer (task_seq t) (task_timestamp t) now).1.1 then [(t, now)] else []
          | None => []
          end
      | _ => []
      end
  | _ => []
  end.

(** A run with its accepted packets. *)
Definition traceStep `{Crypto} (cf : Config) (p : Server * list (udpTask * Z)) (te : Z * event) : Server * list (udpTask * Z) :=
  (step cf p.1 te, p.2 ++ passes p.1 te).

Definition trace `{Crypto} (cf : Config) (s : Server) (evs : list (Z * event)) : Server * list (udpTask * Z) :=
  foldl (traceStep cf) (s, []) evs.

Definition tabledOf (p : udpTask * Z) : tabled sessionKey :=
  mkTabled (keyOfTask p.1) (task_seq p.1) (task_timestamp p.1) p.2.

(** Clocks do not go back, and the cleaner's clock was read before. *)
Definition ageOk (ev : event) : Prop := match ev with EClean _ age => 0 <= age | _ => True end.

Fixpoint timely (T : Z) (evs : list (Z * event)) : Prop :=
  match evs with
  | [] => True
  | (t, ev) :: rest => T <= t < 2 ^ 62 /\ ageOk ev /\ timely t rest
  end.

(** ** The table of windows *)

Definition guards (tb : Table) : list (UDPReplayWindow * Z) := (fun x => (s_guard x, s_lastActive x)) <$> tb_heap tb.

Definition look (tb : Table) (key : sessionKey) : option (UDPReplayWindow * Z) := tb_sessions tb !! key ≫= fun i => guards tb !! i.

(** What the replay protection sees of a table. *)
Definition view (tb : Table) : gmap sessionKey nat * list (UDPReplayWindow * Z) := (tb_sessions tb, guards tb).

Lemma look_view tb tb' : view tb' = view tb -> forall key, look tb' key = look tb key.
Proof. intros [= E1 E2] key. unfold look. by rewrite E1, E2. Qed.

Lemma guards_insert tb i y :
  guards (mkTable (tb_sessions tb) (tb_count tb) (<[i := y]> (tb_heap tb))) = <[i := (s_guard y, s_lastActive y)]> (guards tb).
Proof. unfold guards. cbn [tb_heap]. by rewrite list_fmap_insert. Qed.

Lemma view_put s i x y :
  tb_heap (sv_table s) !! i = Some x -> s_guard y = s_guard x -> s_lastActive y = s_lastActive x ->
  view (sv_table (putSession s i y)) = view (sv_table s).
Proof.
  intros Hx E1 E2. unfold view, putSession. cbn [sv_table setTable tb_sessions]. rewrite guards_insert, E1, E2.
  rewrite list_insert_id; [done|]. unfold guards. by rewrite list_lookup_fmap, Hx.
Qed.

Lemma table_sendEcho s now j tg ip data : sv_table (sendEcho s now j tg ip data) = sv_table s.
Proof. unfold sendEcho. destruct (t_kind tg); [done|]. destruct (PrepareRequest _ _ _ _) as [[]]; [by destruct (t_closed tg)|done]. Qed.

Lemma table_deliverTo s now w t j ic : sv_table (deliverTo s now w t j ic) = sv_table s.
Proof.
  unfold deliverTo. destruct (so_targets (sv_sockets s) !! j) as [[[] l c]|]; [destruct ic; [done|by destruct c]| |done].
  destruct ic; [|done]. exact (table_sendEcho _ _ _ _ _ _).
Qed.

Lemma table_handle `{Crypto} cf s lookup now w t i x :
  sv_table (handleUDP s w t i x) = sv_table s /\ sv_table (handleICMP cf s lookup now w t i x) = sv_table s.
Proof.
  unfold handleUDP, handleICMP. split.
  - repeat case_match; done.
  - destruct (ResolveICMPIP _ _ _); [|done]. destruct (s_targets x !! _).
    + destruct (so_targets _ !! _) as [[[] l c]|]; [done| |done]. exact (table_sendEcho _ _ _ _ _ _).
    + repeat case_match; done.
Qed.

(** The steps that leave the windows alone. *)
Definition quiet (ev : event) : bool :=
  match ev with EStore _ | ERun _ _ _ | EData _ _ _ _ | EClean _ _ | ECloseSessions => false | _ => true end.

Lemma view_quiet `{Crypto} cf s now ev : quiet ev = true -> view (sv_table (step cf s (now, ev))) = view (sv_table s).
Proof.
  intros Hq. unfold step. destruct (sv_panic s); [done|].
  destruct ev as [packet client| |w|w|w|w answer lookup|w lookup ok|m from data rnd|m|m|key age| | |op]; try done.
  - destruct (sv_serving s); [|done]. unfold serveOne, enqueue. repeat case_match; done.
  - unfold workerTake. repeat case_match; done.
  - unfold workerLoad. repeat case_match; done.
  - unfold workerDial. destruct (ld_workers (sv_load s) !! w) as [[| | | |t i l ic]|]; try done.
    destruct (tb_heap (sv_table s) !! i) as [x|] eqn:Hx; [|done]. destruct (newKind cf lookup t ic) as [kind|]; [|done].
    destruct (_ || _); [done|]. destruct (s_targets x !! _); rewrite table_deliverTo; [done|]. unfold addTarget.
    rewrite (view_put _ i x); [done|exact Hx|done|done].
  - unfold listenError. destruct (so_listeners _ !! m) as [[[i a] j]|]; [|done].
    destruct (tb_heap (sv_table s) !! i) as [x|] eqn:Hx; [|done]. destruct (s_targets x !! a); [|done]. exact (view_put s i x (withTargets x _ _) Hx eq_refl eq_refl).
  - unfold listenStop. repeat case_match; done.
  - destruct (budgetStep _ op). done.
Qed.

(** ** No packet is accepted twice *)

(** The table is protected; or the server has ended. *)
Definition protected (T : Z) (s : Server) (log : list (udpTask * Z)) : Prop :=
  tableInv T (look (sv_table s)) (tabledOf <$> log) \/
  (sv_serving s = false /\ idleLoad (sv_load s) = true /\
   NoDup ((fun a => (t_key a, t_seq a, t_ts a)) <$> (tabledOf <$> log))).

Lemma look_session cf s i x :
  good cf s -> idleLoad (sv_load s) = false -> tb_heap (sv_table s) !! i = Some x -> s_closed x = false ->
  tb_sessions (sv_table s) !! s_key x = Some i /\ look (sv_table s) (s_key x) = Some (s_guard x, s_lastActive x).
Proof.
  intros Hg Hi Hx Hc. destruct (so_live _ _ _ _ _ _ Hg i x Hx Hc) as [Hs|[_ ?]]; [|congruence]. split; [done|].
  unfold look, guards. rewrite Hs. cbn. by rewrite list_lookup_fmap, Hx.
Qed.

(** The windows of other keys. *)
Lemma look_other cf s i x y key :
  good cf s -> tb_heap (sv_table s) !! i = Some x -> key <> s_key x ->
  look (sv_table (putSession s i y)) key = look (sv_table s) key.
Proof.
  intros Hg Hx Hne. unfold look, putSession. cbn [sv_table setTable tb_sessions]. rewrite guards_insert.
  destruct (tb_sessions (sv_table s) !! key) as [j|] eqn:Hj; [|done]. cbn. rewrite list_lookup_insert_ne; [done|].
  intros ->. destruct (so_entry _ _ _ _ _ _ Hg key j Hj) as (x' & Hx' & Hk & _). congruence.
Qed.

Lemma look_put s i x y :
  tb_heap (sv_table s) !! i = Some x -> tb_sessions (sv_table s) !! s_key x = Some i ->
  look (sv_table (putSession s i y)) (s_key x) = Some (s_guard y, s_lastActive y).
Proof.
  intros Hx Hs. unfold look, putSession. cbn [sv_table setTable tb_sessions]. rewrite guards_insert, Hs. cbn [mbind option_bind].
  apply list_lookup_insert_eq. unfold guards. rewrite length_fmap. by eapply lookup_lt_Some.
Qed.

Section Trace.
  Context `{Crypto} (cf : Config).

(** A state that has ended stays so. *)
Lemma ended_step s te :
  sv_serving s = false -> idleLoad (sv_load s) = true ->
  sv_serving (step cf s te) = false /\ idleLoad (sv_load (step cf s te)) = true /\ passes s te = [].
Proof.
  intros Hs Hi. assert (forall w, ld_workers (sv_load s) !! w = None \/ ld_workers (sv_load s) !! w = Some Idle) as Hw.
  { intros w. destruct (ld_workers (sv_load s) !! w) as [x|] eqn:E; [right|by left]. f_equal.
    destruct x; [done|..]; pose proof (busy _ _ _ E ltac:(done)); congruence. }
  assert (forall w t q, ld_queues (sv_load s) !! w <> Some (t :: q)) as Hq.
  { intros w t q Hq. apply queued in Hq. congruence. }
  destruct te as [now ev]. unfold step, passes. destruct (sv_panic s); [by destruct ev; repeat case_match|].
  destruct ev as [packet client| |w|w|w|w answer lookup|w lookup ok|m from data rnd|m|m|key age| | |op].
  - by rewrite Hs.
  - done.
  - unfold workerTake. destruct (Hw w) as [-> | ->]; [done|]. destruct (ld_queues (sv_load s) !! w) as [[|t q]|] eqn:E; try done.
    by apply Hq in E.
  - unfold workerLoad. by destruct (Hw w) as [-> | ->].
  - unfold workerStore. by destruct (Hw w) as [-> | ->].
  - unfold workerRun. by destruct (Hw w) as [-> | ->].
  - unfold workerDial. by destruct (Hw w) as [-> | ->].
  - unfold listenData, reply. repeat case_match; done.
  - unfold listenError. repeat case_match; done.
  - unfold listenStop. repeat case_match; done.
  - unfold cleanOne. repeat case_match; done.
  - done.
  - unfold closeSessions. repeat case_match; done.
  - destruct (budgetStep _ op). done.
Qed.
(** A reply moves the last activity on. *)
Lemma table_reply s i x a data now rnd :
  sv_table (reply s i x a data now rnd) = sv_table (putSession s i (withActive x now)).
Proof.
  unfold reply. destruct (sv_codecs _ !! _); [|done]. destruct (EncodePacket _ _ _ _ _ _ _ _) as [[[enc r]|e] c']; [|done].
  by destruct (s_client x).
Qed.

Lemma table_listenData s m from data now rnd :
  sv_table (listenData s m from data now rnd) = sv_table s \/
  exists i x, tb_heap (sv_table s) !! i = Some x /\
    sv_table (listenData s m from data now rnd) = sv_table (putSession s i (withActive x now)).
Proof.
  unfold listenData. destruct (so_listeners _ !! m) as [[[i a] j]|]; [|by left].
  destruct (tb_heap (sv_table s) !! i) as [x|] eqn:Hx; [|by left]. destruct (so_targets _ !! j) as [tg|]; [|by left].
  destruct (t_closed tg); [by left|]. destruct (t_kind tg); [right; exists i, x; by rewrite table_reply|].
  destruct from; [|by left]. destruct (negb _); [by left|]. destruct (RestoreReply _ _ _ _) as [[body|] tr]; [|by left].
  right. exists i, x. split; [done|]. by rewrite table_reply.
Qed.

Lemma protect_touch T s i x tk :
  good cf s -> tb_heap (sv_table s) !! i = Some x -> tableInv T (look (sv_table s)) tk ->
  tableInv T (look (sv_table (putSession s i (withActive x T)))) tk.
Proof.
  intros Hg Hx Hinv. assert (forall k, look (sv_table (putSession s i (withActive x T))) k = look (sv_table s) k \/
    (look (sv_table s) k = Some (s_guard x, s_lastActive x) /\
     look (sv_table (putSession s i (withActive x T))) k = Some (s_guard x, T / second))) as Hk.
  { intros k. destruct (decide (k = s_key x)) as [->|Hne]; [|left; by eapply look_other].
    destruct (tb_sessions (sv_table s) !! s_key x) as [j|] eqn:Hj.
    2:{ left. unfold look, putSession. cbn [sv_table setTable tb_sessions]. by rewrite Hj. }
    destruct (decide (j = i)) as [->|Hne].
    - right. split; [|by apply (look_put s i x (withActive x T))]. unfold look, guards. rewrite Hj. cbn. by rewrite list_lookup_fmap, Hx.
    - left. unfold look, putSession. cbn [sv_table setTable tb_sessions]. rewrite Hj, guards_insert. cbn [mbind option_bind].
      by rewrite list_lookup_insert_ne. }
  apply (table_drop T (look (sv_table s))); [done| |].
  - intros k w l' Hl'. destruct (Hk k) as [E|[E1 E2]].
    + rewrite E in Hl'. split; [by eapply ti_clock|]. by exists l'.
    + rewrite E2 in Hl'. injection Hl' as <- <-. split; [done|]. exists (s_lastActive x). split; [done|]. by eapply (ti_clock _ _ _ Hinv).
  - intros k w l Hl Hnone. destruct (Hk k) as [E|[_ E2]]; congruence.
Qed.

(** The cleaner drops a window that is out of date. *)
Lemma protect_clean T s key age tk :
  good cf s -> 0 <= age -> tableInv T (look (sv_table s)) tk -> tableInv T (look (sv_table (cleanOne s key (T - age)))) tk.
Proof.
  intros Hg Hage Hinv. unfold cleanOne. destruct (tb_sessions (sv_table s) !! key) as [i|] eqn:Hi; [|done].
  destruct (so_entry _ _ _ _ _ _ Hg key i Hi) as (x & Hx & Hkey & Hc). rewrite Hx.
  destruct (Z.ltb_spec 60 ((T - age) / second - s_lastActive x)) as [Hold|]; cbn [negb]; [|done]. destruct (locked s i); [done|].
  set (y := mkSession _ _ _ _ _ _ _ _). cbn [sv_table setTable setSockets].
  assert (forall k, look (mkTable (delete key (tb_sessions (sv_table s))) (tb_count (sv_table s) - 1) (<[i := y]> (tb_heap (sv_table s)))) k =
    if decide (k = key) then None else look (sv_table s) k) as Hk.
  { intros k. unfold look. cbn [tb_sessions]. destruct (decide (k = key)) as [->|Hne]; [by rewrite lookup_delete_eq|].
    rewrite lookup_delete_ne by done. destruct (tb_sessions (sv_table s) !! k) as [j|] eqn:Hj; [|done]. cbn [mbind option_bind].
    change (guards (mkTable (delete key (tb_sessions (sv_table s))) (tb_count (sv_table s) - 1) (<[i := y]> (tb_heap (sv_table s)))))
      with (guards (mkTable (tb_sessions (sv_table s)) (tb_count (sv_table s)) (<[i := y]> (tb_heap (sv_table s))))).
    rewrite guards_insert, list_lookup_insert_ne; [done|]. intros ->.
    destruct (so_entry _ _ _ _ _ _ Hg k j Hj) as (x' & Hx' & Hk' & _). congruence. }
  apply (table_drop T (look (sv_table s))); [done| |].
  - intros k w l'. rewrite Hk. destruct (decide (k = key)); [done|]. intros Hl. split; [by eapply ti_clock|]. by exists l'.
  - intros k w l Hl. rewrite Hk. destruct (decide (k = key)) as [->|]; [intros _|congruence].
    unfold look, guards in Hl. rewrite Hi in Hl. cbn in Hl. rewrite list_lookup_fmap, Hx in Hl. cbn in Hl. injection Hl as <- <-.
    assert ((T - age) / second <= T / second) by (apply seconds_mono; lia). lia.
Qed.

(** A new session has an empty window. *)
Lemma protect_store T s w tk :
  good cf s -> 0 <= T -> tableInv T (look (sv_table s)) tk -> tableInv T (look (sv_table (workerStore cf s w))) tk.
Proof.
  intros Hg HT Hinv. unfold workerStore. destruct (ld_workers (sv_load s) !! w) as [[| |t| |]|]; try done.
  destruct (cf_namespaces cf !! _) as [ns|]; [|done]. destruct (tb_sessions (sv_table s) !! keyOfTask t) as [i|] eqn:Hk; [done|].
  cbn [sv_table setTable setWorker setLoad]. set (x := mkSession _ _ _ _ _ _ _ _).
  assert (forall k j, tb_sessions (sv_table s) !! k = Some j -> (j < length (tb_heap (sv_table s)))%nat) as Hlt.
  { intros k j Hj. destruct (so_entry _ _ _ _ _ _ Hg k j Hj) as (z & Hz & _). by eapply lookup_lt_Some. }
  apply (table_fresh T (look (sv_table s)) _ tk (keyOfTask t) (s_guard x) 0); [done| | |done| |].
  - unfold look. by rewrite Hk.
  - unfold look, guards. cbn [tb_sessions tb_heap]. rewrite lookup_insert_eq. cbn [mbind option_bind].
    by rewrite list_lookup_fmap, list_lookup_middle.
  - unfold second. apply Z.div_pos; lia.
  - intros k Hne. unfold look, guards. cbn [tb_sessions tb_heap]. rewrite lookup_insert_ne by done.
    destruct (tb_sessions (sv_table s) !! k) as [j|] eqn:Hj; [|done]. cbn [mbind option_bind].
    rewrite fmap_app, lookup_app_l; [done|]. rewrite length_fmap. by eapply Hlt.
Qed.
Lemma worker_task cs ld w x t : loadOk cs ld -> ld_workers ld !! w = Some x -> tasksOf x = [t] -> taskOk t.
Proof.
  intros Hld Hw Ht. apply (proj1 (Forall_forall _ _) (lo_tasks _ _ Hld)). unfold pendingTasks.
  destruct (worker_swap tasksOf _ w x x Hw) as (r & -> & _). rewrite Ht. apply elem_of_app. right. by left.
Qed.

(** The window decides. *)
Lemma protect_run T s w answer lookup log :
  good cf s -> sv_panic s = false -> 0 <= T < 2 ^ 62 -> tableInv T (look (sv_table s)) (tabledOf <$> log) ->
  tableInv T (look (sv_table (workerRun cf s w answer lookup T))) (tabledOf <$> (log ++ passes s (T, ERun w answer lookup))).
Proof.
  intros Hg Hp HT Hinv. unfold workerRun, passes. rewrite Hp. cbn [orb].
  destruct (ld_workers (sv_load s) !! w) as [wk|] eqn:Hw; [|by rewrite app_nil_r].
  destruct wk as [|t|t|t i|t i l ic]; try by rewrite app_nil_r.
  destruct (Forall_lookup_1 _ _ _ _ (so_workers _ _ _ _ _ _ Hg) Hw) as (x & Hx & Hkey). rewrite Hx.
  destruct (locked s i); cbn [orb]; [by rewrite app_nil_r|].
  destruct (s_closed x) eqn:Hc; cbn [orb]; [by rewrite app_nil_r|]. destruct (sv_stopped s); [by rewrite app_nil_r|].
  destruct (worker_task cf _ w _ t (so_load _ _ _ _ _ _ Hg) Hw eq_refl) as (Hseq & Hts & _).
  destruct (look_session cf s i x Hg (busy _ _ _ Hw ltac:(done)) Hx Hc) as [Hs Hl].
  destruct (AcceptAuthenticated (s_guard x) answer (task_seq t) (task_timestamp t) T) as [[ok q] guard] eqn:E. cbn [fst].
  set (last := if ok then T / second else s_lastActive x).
  assert (exists y, s_guard y = guard /\ s_lastActive y = last /\
    sv_table (if negb ok then finish (putSession s i (mkSession (s_key x) guard (s_identity x) (s_client x) (s_targets x)
                       (s_targetCount x) (s_lastActive x) (s_closed x))) w t
              else
              let x := mkSession (s_key x) guard (s_identity x) (Some (task_client t)) (s_targets x)
                         (s_targetCount x) (T / second) (s_closed x) in
              let s := putSession s i x in
              if hasPrefix icmpPrefix (targetAddr t) then handleICMP cf s lookup T w t i x else handleUDP s w t i x)
    = sv_table (putSession s i y)) as (y & Y1 & Y2 & Etb).
  { destruct ok; cbn [negb]; [|by eexists (mkSession _ _ _ _ _ _ _ _)].
    cbv zeta. set (y := mkSession _ _ _ _ _ _ _ _). exists y. split_and!; [done|done|].
    destruct (table_handle cf (putSession s i y) lookup T w t i y) as [E1 E2]. by destruct (hasPrefix icmpPrefix (targetAddr t)). }
  cbv zeta in Etb. cbv zeta. rewrite Hc in Etb. rewrite Etb. rewrite fmap_app.
  assert (tabledOf <$> (if ok then [(t, T)] else []) = if ok then [mkTabled (s_key x) (task_seq t) (task_timestamp t) T] else []) as ->.
  { destruct ok; [|done]. cbn. unfold tabledOf. cbn. by rewrite Hkey. }
  apply (table_accept T (look (sv_table s)) _ (tabledOf <$> log) (s_guard x) (s_key x) answer (task_seq t) (task_timestamp t) last ok q guard);
    [done|done|done|done|by rewrite Hl|done| | | |].
  - rewrite (look_put s i x y Hx Hs). by rewrite Y1, Y2.
  - intros k Hk. by eapply look_other.
  - unfold last. destruct ok; [done|]. by eapply (ti_clock _ _ _ Hinv).
  - unfold last. destruct ok; [done|]. intros w' l' Hl'. congruence.
Qed.

Lemma passes_other s now ev : (forall w answer lookup, ev <> ERun w answer lookup) -> passes s (now, ev) = [].
Proof. intros He. destruct ev; try done. by edestruct He. Qed.

Lemma protected_step T s log ev :
  startOk cf s -> 0 <= T < 2 ^ 62 -> ageOk ev -> protected T s log ->
  protected T (step cf s (T, ev)) (log ++ passes s (T, ev)).
Proof.
  intros [Hg Hp Hns Hne] HT Hage [Hinv|(Hs & Hi & Hnd)].
  2:{ right. destruct (ended_step s (T, ev) Hs Hi) as (E1 & E2 & ->). by rewrite app_nil_r. }
  destruct (quiet ev) eqn:Hq.
  { left. rewrite passes_other by (by intros w a lk ->). rewrite app_nil_r.
    eapply tableInv_ext; [|exact Hinv]. by apply look_view, view_quiet. }
  unfold step. rewrite Hp. destruct ev as [packet client| |w|w|w|w answer lookup|w lookup ok|m from data rnd|m|m|key age| | |op]; try done.
  - left. rewrite app_nil_r. apply protect_store; [done|lia|done].
  - left. by apply protect_run.
  - left. rewrite app_nil_r. destruct (table_listenData s m from data T rnd) as [-> |(i & x & Hx & ->)]; [done|].
    by apply protect_touch.
  - left. rewrite app_nil_r. by apply protect_clean.
  - rewrite app_nil_r. unfold closeSessions. destruct (sv_serving s) eqn:Es; [by left|].
    destruct (idleLoad (sv_load s)) eqn:Ei; [|by left]. right. split_and!; [done|done|]. apply (ti_distinct _ _ _ Hinv).
Qed.

Lemma protected_later T T' s log : T <= T' -> protected T s log -> protected T' s log.
Proof. intros HT [?|?]; [left; by eapply tableInv_later|by right]. Qed.

Lemma protected_trace evs T s log :
  startOk cf s -> 0 <= T -> timely T evs -> protected T s log ->
  exists T', protected T' (foldl (traceStep cf) (s, log) evs).1 (foldl (traceStep cf) (s, log) evs).2.
Proof.
  revert T s log. induction evs as [|[t ev] evs IH]; intros T s log Hs HT Hev Hpr; [by exists T|].
  destruct Hev as (Ht & Hage & Hev). cbn [foldl]. unfold traceStep at 2 4. cbn [fst snd].
  apply (IH t); [by apply startOk_step|lia|done|]. apply protected_step; [done|lia|done|]. eapply protected_later; [|done]. lia.
Qed.
End Trace.

(** C35: as long as the clock is not set back, the UDP server never acts twice on
    one packet of a session: along every run in which the readings of the clock
    do not go back from step to step (and the cleaner uses one that is not ahead),
    with its sessions created and dropped as idle and its workers interleaved in
    any way, with or without a replay cache, no (user, session, sequence,
    timestamp) passes the replay check twice.  A clock that is set back can let a
    packet in again whose window was dropped. *)
Theorem plain_udp_no_replay `{Crypto} cf codecs b foreign echo n evs :
  length (cf_namespaces cf) = length codecs -> (0 < n)%nat -> budgetOk b (outstanding foreign) -> timely 0 evs ->
  NoDup ((fun p => (keyOfTask p.1, task_seq p.1, task_timestamp p.1)) <$> (trace cf (initial codecs b foreign echo n) evs).2).
Proof.
  intros Hns Hn Hb Hev. destruct (protected_trace cf evs 0 (initial codecs b foreign echo n) []) as (T & Hpr);
    [by apply startOk_initial|done|done| |].
  - left. eapply tableInv_ext; [|apply tableInv_empty]. intros k. unfold look. cbn. by rewrite lookup_empty.
  - unfold trace. assert (NoDup ((fun a => (t_key a, t_seq a, t_ts a)) <$> (tabledOf <$> (foldl (traceStep cf) (initial codecs b foreign echo n, []) evs).2))) as Hnd.
    { destruct Hpr as [Hi|(_ & _ & ?)]; [apply (ti_distinct _ _ _ Hi)|done]. }
    by rewrite <- list_fmap_compose in Hnd.
Qed.

(** ** Where the server sends *)

Definition kindOk (k : targetKind) : Prop :=
  match k with UDPTarget addr => allowed (udpIP addr) = true | ICMPTarget ip _ => allowed ip = true end.
Definition dialOk (x : worker) : Prop := match x with Dialing _ _ _ (Some ip) => allowed ip = true | _ => True end.
Definition outOk (o : output) : Prop :=
  match o with ToTarget addr _ => allowed (udpIP addr) = true | ToICMP ip _ => allowed ip = true | ToClient _ _ => True end.

Record egress (s : Server) : Prop := {
  eg_targets : Forall (fun tg => kindOk (t_kind tg)) (so_targets (sv_sockets s));
  eg_workers : Forall dialOk (ld_workers (sv_load s));
  eg_out : Forall outOk (sv_out s);
}.

Lemma egress_send s o : egress s -> outOk o -> egress (send s o).
Proof. intros [] Ho. split; [done|done|]. cbn. apply Forall_app. split; [done|]. by constructor. Qed.

Lemma egress_worker s w y : egress s -> dialOk y -> egress (setWorker s w y).
Proof. intros [] Ho. split; [done| |done]. cbn. by apply Forall_insert. Qed.

Lemma egress_finish s w t : egress s -> egress (finish s w t).
Proof. intros []. split; [done| |done]. cbn. by apply Forall_insert. Qed.

Lemma egress_putTarget s j tg : egress s -> kindOk (t_kind tg) -> egress (putTarget s j tg).
Proof. intros [] Ho. split; [|done|done]. cbn. by apply Forall_insert. Qed.

Lemma egress_sockets s k : egress s -> Forall (fun tg => kindOk (t_kind tg)) (so_targets k) -> egress (setSockets s k).
Proof. intros [] Hk. by split. Qed.

Lemma closeTarget_kinds k j :
  Forall (fun tg => kindOk (t_kind tg)) (so_targets k) -> Forall (fun tg => kindOk (t_kind tg)) (so_targets (closeTarget k j)).
Proof.
  intros Hk. unfold closeTarget. destruct (so_targets k !! j) as [x|] eqn:Hx; [|done]. destruct (t_closed x); [done|].
  destruct (release _ _). cbn. apply Forall_insert; [done|]. cbn. by apply (Forall_lookup_1 _ _ _ _ Hk Hx).
Qed.

Lemma closeTargets_kinds k js :
  Forall (fun tg => kindOk (t_kind tg)) (so_targets k) -> Forall (fun tg => kindOk (t_kind tg)) (so_targets (closeTargets k js)).
Proof. revert k. induction js as [|j js IH]; intros k Hk; [done|]. cbn. by apply IH, closeTarget_kinds. Qed.

Lemma egress_sendEcho s now j tg ip data :
  egress s -> kindOk (t_kind tg) -> allowed ip = true -> egress (sendEcho s now j tg ip data).
Proof.
  intros Hs Hk Hip. unfold sendEcho. destruct (t_kind tg) as [addr|tip out] eqn:Ek; [done|].
  destruct (PrepareRequest _ _ _ _) as [r tr]. set (s' := setEcho _ _).
  assert (egress s') as Hs' by (destruct (egress_putTarget s j (mkTarget (ICMPTarget tip (pending tr)) (t_lease tg) (t_closed tg)) Hs Hk); by split).
  destruct r; [|done]. destruct (t_closed tg); [done|]. by apply egress_send.
Qed.

Lemma egress_deliverTo s now w t j ic :
  egress s -> (forall ip, ic = Some ip -> allowed ip = true) -> egress (deliverTo s now w t j ic).
Proof.
  intros Hs Hip. unfold deliverTo. destruct (so_targets (sv_sockets s) !! j) as [[[addr|tip out] l c]|] eqn:Hj;
    [| |by destruct Hs; split].
  - destruct ic; [by destruct Hs; split|]. apply egress_finish. destruct c; [done|]. apply egress_send; [done|].
    by apply (Forall_lookup_1 _ _ _ _ (eg_targets s Hs) Hj).
  - destruct ic as [ip|]; [|by destruct Hs; split]. apply egress_finish, egress_sendEcho; [done| |by apply Hip].
    by apply (Forall_lookup_1 _ _ _ _ (eg_targets s Hs) Hj).
Qed.

Section Egress.
  Context `{Crypto} (cf : Config).
  Hypothesis Hresolve : cf_resolveUDP cf = ResolveUDPAddr.
  Hypothesis Hprivate : cf_allowPrivateICMP cf = false.

Lemma egress_run s w answer lookup now : egress s -> egress (workerRun cf s w answer lookup now).
Proof.
  intros Hs. assert (forall s', egress s' -> egress (setPanic s')) as Hpanic by (intros s' []; by split).
  assert (forall i y, egress (putSession s i y)) as Hput by (intros; destruct Hs; by split).
  unfold workerRun. destruct (ld_workers (sv_load s) !! w) as [[| | |t i|]|]; try done.
  destruct (tb_heap (sv_table s) !! i) as [x|]; [|by apply Hpanic]. destruct (locked s i); [done|].
  destruct (_ || _); [by apply egress_finish|]. destruct (AcceptAuthenticated _ _ _ _ _) as [[[] q] guard]; cbn [negb];
    [|by apply egress_finish]. set (y := mkSession _ _ _ _ _ _ _ _). specialize (Hput i y). revert Hput.
  generalize (putSession s i y). clear Hs s. intros s Hs.
  assert (forall ic, (forall ip, ic = Some ip -> allowed ip = true) -> egress (match ReserveUDPTarget (so_budget (sv_sockets s)) (s_identity y) with
      | (None, _) => finish s w t
      | (Some l, b) => setWorker (setSockets s (setBudget (sv_sockets s) b)) w (Dialing t i l ic)
      end)) as Hres.
  { intros ic Hic. destruct (ReserveUDPTarget _ _) as [[l|] b]; [|by apply egress_finish].
    apply egress_worker; [apply egress_sockets; [done|apply Hs]|]. cbn. destruct ic as [ip|]; [by apply Hic|done]. }
  destruct (hasPrefix icmpPrefix (targetAddr t)).
  - unfold handleICMP. rewrite Hprivate. destruct (ResolveICMPIP _ _ _) as [ip|] eqn:Er; [|by apply egress_finish].
    apply ResolveICMPIP_public in Er. destruct (s_targets y !! _) as [j|].
    + destruct (so_targets _ !! j) as [[[addr|tip out] l c]|] eqn:Hj; [by apply egress_finish| |by apply Hpanic].
      apply egress_finish, egress_sendEcho; [done| |done]. by apply (Forall_lookup_1 _ _ _ _ (eg_targets s Hs) Hj).
    + destruct (32 <=? _); [by apply egress_finish|]. apply Hres. by intros ? [= <-].
  - unfold handleUDP. destruct (s_targets y !! _) as [j|].
    + destruct (so_targets _ !! j) as [[[addr|tip out] l c]|] eqn:Hj; [|by apply Hpanic|by apply Hpanic].
      apply egress_finish. destruct c; [done|]. apply egress_send; [done|]. by apply (Forall_lookup_1 _ _ _ _ (eg_targets s Hs) Hj).
    + destruct (32 <=? _); [by apply egress_finish|]. by apply Hres.
Qed.

Lemma egress_dial s w lookup ok now : egress s -> egress (workerDial cf s w lookup ok now).
Proof.
  intros Hs. unfold workerDial. destruct (ld_workers (sv_load s) !! w) as [[| | | |t i l ic]|] eqn:Hw; try done.
  destruct (tb_heap (sv_table s) !! i) as [x|]; [|by destruct Hs; split].
  assert (egress (giveBack s l)) as Hback by (apply egress_sockets; [done|apply Hs]).
  pose proof (Forall_lookup_1 _ _ _ _ (eg_workers s Hs) Hw) as Hd.
  assert (forall ip, ic = Some ip -> allowed ip = true) as Hip by (by intros ip ->).
  destruct (newKind cf lookup t ic) as [kind|] eqn:Ek; [|by apply egress_finish].
  destruct (_ || _); [by apply egress_finish|]. destruct (s_targets x !! _) as [j|]; [by apply egress_deliverTo|].
  apply egress_deliverTo; [|done]. assert (kindOk kind) as Hk.
  { unfold newKind in Ek. destruct ic as [ip|]; [injection Ek as <-; by apply Hip|]. rewrite Hresolve in Ek.
    destruct (ResolveUDPAddr lookup _) as [addr|] eqn:Er; [|done]. injection Ek as <-. by apply ResolveUDPAddr_public in Er as [? _]. }
  destruct Hs as [E1 E2 E3]. split; [|done|done]. cbn. apply Forall_app. split; [done|]. by constructor.
Qed.

Lemma egress_reply s i x a data now rnd : egress s -> egress (reply s i x a data now rnd).
Proof.
  intros Hs. unfold reply. cbn [sv_codecs putSession setTable]. destruct (sv_codecs s !! _) as [c|]; [|by destruct Hs; split].
  destruct (EncodePacket _ _ _ _ _ _ _ _) as [[[enc r]|e] c']; [|by destruct Hs; split].
  destruct (s_client x); [|by destruct Hs; split]. apply egress_send; [by destruct Hs; split|done].
Qed.

Lemma egress_step s te : egress s -> egress (step cf s te).
Proof.
  intros Hs. destruct te as [now ev]. unfold step. destruct (sv_panic s); [done|].
  assert (forall s', sv_sockets s' = sv_sockets s -> sv_out s' = sv_out s -> Forall dialOk (ld_workers (sv_load s')) -> egress s') as Hmk.
  { intros s' E1 E2 Hd. destruct Hs. split; by rewrite ?E1, ?E2. }
  pose proof (eg_workers s Hs) as Hwk.
  destruct ev as [packet client| |w|w|w|w answer lookup|w lookup ok|m from data rnd|m|m|key age| | |op].
  - destruct (sv_serving s); [|done]. unfold serveOne, enqueue. repeat case_match; try done; by apply Hmk.
  - by apply Hmk.
  - unfold workerTake. repeat case_match; try done; apply Hmk; try done; cbn; by repeat apply Forall_insert.
  - unfold workerLoad. repeat case_match; try done; apply Hmk; try done; cbn; by repeat apply Forall_insert.
  - unfold workerStore. repeat case_match; try done; apply Hmk; try done; cbn; by repeat apply Forall_insert.
  - by apply egress_run.
  - by apply egress_dial.
  - unfold listenData. destruct (so_listeners _ !! m) as [[[i a] j]|]; [|done]. destruct (tb_heap _ !! i); [|done].
    destruct (so_targets _ !! j) as [tg|] eqn:Hj; [|done]. destruct (t_closed tg); [done|].
    destruct (t_kind tg) as [addr|ip out] eqn:Ek; [by apply egress_reply|]. destruct from; [|done]. destruct (negb _); [done|].
    destruct (RestoreReply _ _ _ _) as [r tr].
    assert (egress (putTarget s j (mkTarget (ICMPTarget ip (pending tr)) (t_lease tg) false))) as Hs'.
    { apply egress_putTarget; [done|]. pose proof (Forall_lookup_1 _ _ _ _ (eg_targets s Hs) Hj) as Hk. cbn in Hk. by rewrite Ek in Hk. }
    destruct r; [by apply egress_reply|done].
  - unfold listenError. destruct (so_listeners _ !! m) as [[[i a] j]|]; [|done]. destruct (tb_heap _ !! i) as [x|]; [|done].
    destruct Hs as [E1 E2 E3]. destruct (s_targets x !! a); (split; [by apply closeTarget_kinds|done|done]).
  - unfold listenStop. destruct (so_listeners _ !! m) as [[[i a] j]|]; [|done]. destruct (sv_stopped s); [|done].
    destruct Hs as [E1 E2 E3]. split; [by apply closeTarget_kinds|done|done].
  - unfold cleanOne. destruct (tb_sessions _ !! key) as [i|]; [|done]. destruct (tb_heap _ !! i) as [x|]; [|done].
    destruct (negb _); [done|]. destruct (locked s i); [done|]. destruct Hs as [E1 E2 E3]. split; [by apply closeTargets_kinds|done|done].
  - by apply Hmk.
  - unfold closeSessions. destruct (_ && _); [|done]. destruct Hs as [E1 E2 E3]. split; [by apply closeTargets_kinds|done|done].
  - destruct (budgetStep _ op) as [b ls]. destruct Hs as [E1 E2 E3]. by split.
Qed.
End Egress.

(** with the default resolver and without the permission for private ICMP
    targets, everything the UDP server sends upstream goes to a public address:
    whatever its clients ask for and whatever the name service answers, also
    for names that resolve differently at every question. *)
Theorem plain_udp_egress `{Crypto} cf codecs b foreign echo n evs :
  cf_resolveUDP cf = ResolveUDPAddr -> cf_allowPrivateICMP cf = false ->
  Forall outOk (sv_out (run cf (initial codecs b foreign echo n) evs)).
Proof.
  intros Hr Hp. apply eg_out. assert (egress (initial codecs b foreign echo n)) as H0.
  { split; cbn; [constructor|by apply Forall_replicate|constructor]. }
  revert H0. generalize (initial codecs b foreign echo n). induction evs as [|te evs IH]; intros s Hs; [done|].
  cbn. apply IH. by apply (egress_step cf Hr Hp).
Qed.

(** ** Whom the server answers *)

(** A client of session [key] from which an accepted packet came. *)
Definition heardFrom (log : list (udpTask * Z)) (key : sessionKey) (a : UDPAddr) : Prop :=
  exists p, p ∈ log /\ keyOfTask p.1 = key /\ task_client p.1 = a.

Definition answersOnly (log : list (udpTask * Z)) (o : output) : Prop :=
  match o with ToClient a _ => exists key, heardFrom log key a | _ => True end.

Record replies (s : Server) (log : list (udpTask * Z)) : Prop := {
  re_sessions : Forall (fun x => forall a, s_client x = Some a -> heardFrom log (s_key x) a) (tb_heap (sv_table s));
  re_out : Forall (answersOnly log) (sv_out s);
}.

Lemma heardFrom_app log new key a : heardFrom log key a -> heardFrom (log ++ new) key a.
Proof. intros (p & Hin & Hp). exists p. split; [|done]. apply elem_of_app. by left. Qed.

Lemma replies_app s log new : replies s log -> replies s (log ++ new).
Proof.
  intros [H1 H2]. split; (eapply Forall_impl; [eassumption|]).
  - intros x Hx a Ha. by apply heardFrom_app, Hx.
  - intros [| |a d] Ho; try done. destruct Ho as [key Ho]. exists key. by apply heardFrom_app.
Qed.

Lemma replies_put s i y log :
  replies s log -> (forall a, s_client y = Some a -> heardFrom log (s_key y) a) -> replies (putSession s i y) log.
Proof. intros [] Hy. split; [|done]. cbn. by apply Forall_insert. Qed.

Lemma replies_same s s' log : sv_table s' = sv_table s -> sv_out s' = sv_out s -> replies s log -> replies s' log.
Proof. intros E1 E2 []. split; by rewrite ?E1, ?E2. Qed.

Lemma replies_send s o log : replies s log -> answersOnly log o -> replies (send s o) log.
Proof. intros [] Ho. split; [done|]. cbn. apply Forall_app. split; [done|]. by constructor. Qed.

Lemma replies_sendEcho s now j tg ip data log : replies s log -> replies (sendEcho s now j tg ip data) log.
Proof.
  intros Hs. unfold sendEcho. destruct (t_kind tg); [done|]. destruct (PrepareRequest _ _ _ _) as [[wire|e] tr];
    [|by eapply replies_same; [..|exact Hs]]. destruct (t_closed tg); [by eapply replies_same; [..|exact Hs]|].
  apply replies_send; [by eapply replies_same; [..|exact Hs]|done].
Qed.

Lemma replies_deliverTo s now w t j ic log : replies s log -> replies (deliverTo s now w t j ic) log.
Proof.
  intros Hs. unfold deliverTo. destruct (so_targets (sv_sockets s) !! j) as [[[addr|tip out] l c]|];
    [destruct ic| |]; try (by eapply replies_same; [..|exact Hs]).
  - destruct c; [by eapply replies_same; [..|exact Hs]|]. eapply (replies_same (send s (ToTarget addr (payload t)))); [done|done|].
    by apply replies_send.
  - destruct ic as [ip|]; [|by eapply replies_same; [..|exact Hs]].
    eapply (replies_same (sendEcho s now j _ ip (payload t))); [done|done|]. by apply replies_sendEcho.
Qed.

Lemma replies_step `{Crypto} cf s te log :
  good cf s -> replies s log -> replies (step cf s te) (log ++ passes s te).
Proof.
  intros Hg Hs0. destruct te as [now ev]. unfold step.
  assert (replies s (log ++ passes s (now, ev))) as Hs by (by apply replies_app).
  destruct (sv_panic s) eqn:Hp; [done|].
  destruct ev as [packet client| |w|w|w|w answer lookup|w lookup ok|m from data rnd|m|m|key age| | |op].
  - destruct (sv_serving s); [|done]. unfold serveOne, enqueue. repeat case_match; by eapply replies_same; [..|exact Hs].
  - by eapply replies_same; [..|exact Hs].
  - unfold workerTake. repeat case_match; by eapply replies_same; [..|exact Hs].
  - unfold workerLoad. repeat case_match; by eapply replies_same; [..|exact Hs].
  - unfold workerStore. repeat case_match; try (by eapply replies_same; [..|exact Hs]).
    destruct Hs as [R1 R2]. split; [|done]. cbn. apply Forall_app. split; [done|]. by repeat constructor.
  - unfold workerRun, passes in *. rewrite Hp in *. destruct (ld_workers (sv_load s) !! w) as [[| | |t i|]|] eqn:Hw; try done.
    destruct (Forall_lookup_1 _ _ _ _ (so_workers _ _ _ _ _ _ Hg) Hw) as (x & Hx & Hkey). rewrite Hx in *.
    destruct (locked s i); [done|]. destruct (s_closed x); cbn [orb] in *; [by eapply replies_same; [..|exact Hs]|].
    destruct (sv_stopped s); [by eapply replies_same; [..|exact Hs]|].
    destruct (AcceptAuthenticated _ _ _ _ _) as [[[] q] guard]; cbn [negb fst] in *.
    2:{ eapply (replies_same (putSession s i _)); [done|done|]. apply replies_put; [done|]. cbn. intros a Ha.
        by apply (Forall_lookup_1 _ _ _ _ (re_sessions _ _ Hs) Hx). }
    set (y := mkSession _ _ _ _ _ _ _ _). assert (replies (putSession s i y) (log ++ [(t, now)])) as Hs1.
    { apply replies_put; [done|]. intros a [= <-]. exists (t, now). split; [|done]. apply elem_of_app. right. by left. }
    revert Hs1. generalize (putSession s i y). clear Hs. intros s1 Hs1. unfold handleICMP, handleUDP.
    destruct (hasPrefix icmpPrefix (targetAddr t)).
    + destruct (ResolveICMPIP _ _ _) as [ip|]; [|by eapply replies_same; [..|exact Hs1]]. destruct (s_targets y !! _) as [j|].
      * destruct (so_targets _ !! j) as [[[addr|tip out] l c]|]; try (by eapply replies_same; [..|exact Hs1]).
        eapply (replies_same (sendEcho s1 now j _ ip (payload t))); [done|done|]. by apply replies_sendEcho.
      * repeat case_match; by eapply replies_same; [..|exact Hs1].
    + destruct (s_targets y !! _) as [j|].
      * destruct (so_targets _ !! j) as [[[addr|tip out] l c]|]; try (by eapply replies_same; [..|exact Hs1]).
        destruct c; [by eapply replies_same; [..|exact Hs1]|].
        eapply (replies_same (send s1 (ToTarget addr (payload t)))); [done|done|]. by apply replies_send.
      * repeat case_match; by eapply replies_same; [..|exact Hs1].
  - unfold workerDial. destruct (ld_workers (sv_load s) !! w) as [[| | | |t i l ic]|]; try done.
    destruct (tb_heap (sv_table s) !! i) as [x|] eqn:Hx; [|by eapply replies_same; [..|exact Hs]].
    destruct (newKind cf lookup t ic) as [kind|]; [|by eapply replies_same; [..|exact Hs]].
    destruct (_ || _); [by eapply replies_same; [..|exact Hs]|]. destruct (s_targets x !! _) as [j|]; apply replies_deliverTo.
    + by eapply replies_same; [..|exact Hs].
    + unfold addTarget. apply replies_put; [by eapply replies_same; [..|exact Hs]|]. cbn. intros a Ha.
      by apply (Forall_lookup_1 _ _ _ _ (re_sessions _ _ Hs) Hx).
  - assert (forall s1 i x a body, sv_table s1 = sv_table s -> sv_out s1 = sv_out s -> tb_heap (sv_table s) !! i = Some x ->
      replies (reply s1 i x a body now rnd) (log ++ passes s (now, EData m from data rnd))) as Hr.
    { intros s1 i x a body E1 E2 Hx. pose proof (Forall_lookup_1 _ _ _ _ (re_sessions _ _ Hs) Hx) as Hcl.
      assert (replies (putSession s1 i (withActive x now)) (log ++ passes s (now, EData m from data rnd))) as Hs1
        by (apply replies_put; [by eapply replies_same; [..|exact Hs]|done]).
      unfold reply. destruct (sv_codecs _ !! _); [|by eapply replies_same; [..|exact Hs1]].
      destruct (EncodePacket _ _ _ _ _ _ _ _) as [[[enc r]|e] c']; [|by eapply replies_same; [..|exact Hs1]].
      destruct (s_client x) as [cl|] eqn:Ecl; [|by eapply replies_same; [..|exact Hs1]].
      apply replies_send; [by eapply replies_same; [..|exact Hs1]|]. exists (s_key x). by apply Hcl. }
    unfold listenData. destruct (so_listeners _ !! m) as [[[i a] j]|]; [|done]. destruct (tb_heap _ !! i) as [x|] eqn:Hx; [|done].
    destruct (so_targets _ !! j) as [tg|]; [|done]. destruct (t_closed tg); [done|]. destruct (t_kind tg); [by apply Hr|].
    destruct from; [|done]. destruct (negb _); [done|]. destruct (RestoreReply _ _ _ _) as [[body|] tr]; [by apply Hr|].
    by eapply replies_same; [..|exact Hs].
  - unfold listenError. destruct (so_listeners _ !! m) as [[[i a] j]|]; [|done]. destruct (tb_heap _ !! i) as [x|] eqn:Hx; [|done].
    destruct (s_targets x !! a); [|by eapply replies_same; [..|exact Hs]].
    eapply (replies_same (putSession s i (withTargets x _ _))); [done|done|]. apply replies_put; [done|]. cbn. intros b Hb.
    by apply (Forall_lookup_1 _ _ _ _ (re_sessions _ _ Hs) Hx).
  - unfold listenStop. repeat case_match; by eapply replies_same; [..|exact Hs].
  - unfold cleanOne. destruct (tb_sessions _ !! key) as [i|]; [|done]. destruct (tb_heap _ !! i) as [x|] eqn:Hx; [|done].
    destruct (negb _); [done|]. destruct (locked s i); [done|]. pose proof (Forall_lookup_1 _ _ _ _ (re_sessions _ _ Hs) Hx) as Hcl.
    destruct Hs as [R1 R2]. split; [|done]. cbn. by apply Forall_insert.
  - by eapply replies_same; [..|exact Hs].
  - unfold closeSessions. destruct (_ && _); [|done]. destruct Hs as [R1 R2]. by split.
  - destruct (budgetStep _ op). by eapply replies_same; [..|exact Hs].
Qed.

(** the UDP server answers nobody who did not authenticate: every datagram
    it sends to a client goes to an address from which a packet came that was
    decrypted and passed the replay check. *)
Theorem plain_udp_answers `{Crypto} cf codecs b foreign echo n evs a d :
  length (cf_namespaces cf) = length codecs -> (0 < n)%nat -> budgetOk b (outstanding foreign) ->
  let '(s, log) := trace cf (initial codecs b foreign echo n) evs in
  ToClient a d ∈ sv_out s -> exists t now, (t, now) ∈ log /\ task_client t = a.
Proof.
  intros Hns Hn Hb. unfold trace.
  assert (forall s log, startOk cf s -> replies s log ->
    let '(s', log') := foldl (traceStep cf) (s, log) evs in replies s' log') as Hrun.
  { induction evs as [|te evs' IH]; intros s log Hs Hr; [done|]. cbn [foldl]. unfold traceStep at 2. cbn [fst snd].
    apply IH; [by apply startOk_step|]. apply replies_step; [apply Hs|done]. }
  specialize (Hrun _ [] (startOk_initial cf codecs b foreign echo n Hns Hn Hb)).
  destruct (foldl _ _ evs) as [s log]. intros Hin. destruct Hrun as [_ Ho]; [split; cbn; constructor|].
  rewrite Forall_forall in Ho. specialize (Ho _ Hin) as (key & [t now] & Hp & _ & Ha). by exists t, now.
Qed.

(** ** Witnesses *)

Definition demoConfig : Config :=
  mkConfig false [bs "ns"] [bs "id"] 10000 DefaultUDPMemoryBudget ResolveUDPAddr false.
Definition demoClient : UDPAddr := mkUDPAddr (zb [192; 0; 2; 9]) 4000 [].
Definition demoClientCodec : Codec := udpCodec.
Definition demoPacket : list byte :=
  match fst (EncodePacket demoClientCodec [] DirClientToServer 7 (bs "example.test:53") (bs "query") 1000 udpRandom) with
  | Ok (p, _) => p
  | Fail _ => []
  end.
Definition demoStart : Server := initial [udpCodec] emptyBudget [] 0 8.

(** A packet arrives twice, its socket is opened, an answer comes back, the
    session is dropped as idle, and the server stops. *)
Definition demoRunUDP : list (Z * event) :=
  [(1000 * second, EServe demoPacket demoClient); (1000 * second, EServe demoPacket demoClient);
   (1001 * second, ETake 7); (1001 * second, ELoad 7); (1001 * second, EStore 7); (1001 * second, ERun 7 true sampleDNS);
   (1002 * second, EDial 7 sampleDNS true); (1002 * second, ETake 7); (1002 * second, ELoad 7);
   (1002 * second, ERun 7 true sampleDNS); (1003 * second, EData 0 None (bs "answer") udpRandom);
   (1100 * second, EClean (0%nat, 7) 0); (1100 * second, EError 0); (1101 * second, EStop); (1101 * second, EServeEnd);
   (1101 * second, ECloseSessions)].

Lemma demo_namespaces : length (cf_namespaces demoConfig) = length [udpCodec].
Proof. reflexivity. Qed.

Lemma demo_before : let s := run demoConfig demoStart (take 7 demoRunUDP) in
  ld_mem (sv_load s) = 512 /\ len (so_targets (sv_sockets s)) = 1 /\ used (so_budget (sv_sockets s)) = 1.
Proof. vm_compute. done. Qed.

Lemma plain_udp_bounds_witness :
  let s := run demoConfig demoStart (take 2 demoRunUDP) in
  ld_mem (sv_load s) = 1024 /\ ld_mem (sv_load s) = costs (pendingTasks (sv_load s)).
Proof.
  split; [vm_compute; reflexivity|].
  exact (proj1 (plain_udp_bounds demoConfig [udpCodec] emptyBudget [] 0 8 (take 2 demoRunUDP) eq_refl ltac:(lia) budgetOk_empty)).
Defined.

Lemma plain_udp_no_panic_witness : sv_panic (run demoConfig demoStart demoRunUDP) = false.
Proof.
  exact (plain_udp_no_panic demoConfig [udpCodec] emptyBudget [] 0 8 demoRunUDP eq_refl ltac:(lia) budgetOk_empty).
Defined.

Lemma plain_udp_leases_witness :
  let k := sv_sockets (run demoConfig demoStart demoRunUDP) in
  used (so_budget k) = 0 /\ used (so_budget k) = len (outstanding (so_foreign k)).
Proof.
  split; [vm_compute; reflexivity|].
  destruct (plain_udp_leases demoConfig [udpCodec] emptyBudget [] 0 8 demoRunUDP eq_refl ltac:(lia) budgetOk_empty) as (_ & _ & _ & H).
  apply H; vm_compute; reflexivity.
Defined.

Lemma plain_udp_no_replay_witness :
  len (trace demoConfig demoStart demoRunUDP).2 = 1 /\
  NoDup ((fun p => (keyOfTask p.1, task_seq p.1, task_timestamp p.1)) <$> (trace demoConfig demoStart demoRunUDP).2).
Proof.
  split; [vm_compute; reflexivity|].
  apply (plain_udp_no_replay demoConfig [udpCodec] emptyBudget [] 0 8 demoRunUDP eq_refl ltac:(lia) budgetOk_empty).
  unfold demoRunUDP, second. cbn [timely ageOk]. lia.
Defined.

(** The clock is set back by 90 seconds after the session was dropped as idle. *)
Definition setBackRun : list (Z * event) :=
  take 7 demoRunUDP ++ [(1100 * second, EClean (0%nat, 7) 0); (1010 * second, EServe demoPacket demoClient); (1010 * second, ETake 7);
    (1010 * second, ELoad 7); (1010 * second, EStore 7); (1010 * second, ERun 7 true sampleDNS)].

Lemma plain_udp_set_back : len (trace demoConfig demoStart setBackRun).2 = 2.
Proof. vm_compute. reflexivity. Qed.

Lemma plain_udp_egress_witness :
  head (sv_out (run demoConfig demoStart demoRunUDP)) = Some (ToTarget (mkUDPAddr (zb [8; 8; 8; 8]) 53 []) (bs "query")) /\
  Forall outOk (sv_out (run demoConfig demoStart demoRunUDP)).
Proof.
  split; [vm_compute; reflexivity|].
  exact (plain_udp_egress demoConfig [udpCodec] emptyBudget [] 0 8 demoRunUDP eq_refl eq_refl).
Defined.

Lemma plain_udp_answers_witness :
  match sv_out (trace demoConfig demoStart demoRunUDP).1 !! 1%nat with
  | Some (ToClient a d) => exists t now, (t, now) ∈ (trace demoConfig demoStart demoRunUDP).2 /\ task_client t = a
  | _ => False
  end.
Proof.
  destruct (sv_out (trace demoConfig demoStart demoRunUDP).1 !! 1%nat) as [o|] eqn:E; [|by vm_compute in E].
  destruct o as [a d|ip d|a d]; [vm_compute in E; discriminate E|vm_compute in E; discriminate E|].
  pose proof (plain_udp_answers demoConfig [udpCodec] emptyBudget [] 0 8 demoRunUDP a d eq_refl ltac:(lia) budgetOk_empty) as H.
  change (initial [udpCodec] emptyBudget [] 0 8) with demoStart in H.
  destruct (trace demoConfig demoStart demoRunUDP) as [s log]. cbn [fst snd] in *. apply H. by eapply list_elem_of_lookup_2.
Defined.
