(* ===== verification/ConnioWriter.v ===== *)
(** * The bounded writer of [pkg/connio] (deadline.go, [Writer])

    A worker goroutine hands packets to a blocking [write]; callers put them
    into a queue of one under a gate, wait for the result, and give up at their
    deadline, at [Close] or when the worker stops.  Requests and their buffers
    are pooled and carry a reference count: two while the caller holds both,
    one for each side after the queue has taken the request.

    A step of a goroutine is one iteration of one of its [select] loops or the
    code between two of them; where several cases of a [select] are ready, the
    step's argument picks one.  A pooled object that is reused is a new request
    here, so that touching a request after its return to the pool shows as a
    fault. *)
From S2P Require Import Prelude GoNet.

Open Scope Z_scope.

(** ** Data *)

Record writeRequest := mkReq {
  q_data : list byte;
  q_addr : gostring;
  q_refs : Z;
  q_res : option (Z * option error);        (* resCh *)
  q_freed : bool;                           (* back in the pool *)
}.

(** The worker: not started, at its select, inside [write], and the parts of
    [drainOnExit]: close(stopping), wait for the gate, drain. *)
Inductive workerStage :=
  | WNew
  | WSelect
  | WWriting (q : nat)
  | WExit
  | WGate
  | WDrain
  | WExited.

(** What a caller wants the gate for: [WritePacket], [CloseWrite]. *)
Inductive purpose :=
  | Packet (p : list byte) (addr : gostring)
  | HalfClose.

(** A caller: in [acquire], with the gate, in the loop that enqueues, in
    [awaitWrite] (each at the top of its loop and at its select), in the last
    loop of [CloseWrite], returned with the request it had created. *)
Inductive callerStage :=
  | AcquireTop (k : purpose)
  | AcquireSelect (k : purpose)
  | Gated (k : purpose)
  | EnqueueTop (q : nat)
  | EnqueueSelect (q : nat)
  | AwaitTop (q : nat)
  | AwaitSelect (q : nat)
  | FinTop
  | FinSelect
  | Returned (q : option nat) (n : Z) (err : option error).

Record Writer := mkW {
  w_done : bool;
  w_stopping : bool;
  w_exited : bool;
  w_queue : option nat;                     (* a channel of capacity one *)
  w_qclosed : bool;
  w_gate : bool;                            (* the token is in the channel *)
  w_err : option error;
  w_fin : bool;
  w_at : option Z;                          (* the deadline *)
  w_reqs : list writeRequest;
  w_worker : workerStage;
  w_callers : list callerStage;
  w_accepted : list nat;                    (* requests in the order of their acceptance *)
  w_written : list (nat * Z);               (* calls of [write] that returned, with their count *)
  w_finished : bool;                        (* [finish] was called *)
  w_fault : bool;                           (* a panic, or a request used after its release *)
}.

Definition NewWriter : Writer :=
  mkW false false false None false true None false None [] WNew [] [] [] false false.

(** Field updates. *)
Definition setSignals (w : Writer) (d s e : bool) : Writer :=
  mkW d s e (w_queue w) (w_qclosed w) (w_gate w) (w_err w) (w_fin w) (w_at w) (w_reqs w) (w_worker w) (w_callers w)
    (w_accepted w) (w_written w) (w_finished w) (w_fault w).
Definition setQueue (w : Writer) (q : option nat) (acc : list nat) : Writer :=
  mkW (w_done w) (w_stopping w) (w_exited w) q (w_qclosed w) (w_gate w) (w_err w) (w_fin w) (w_at w) (w_reqs w) (w_worker w)
    (w_callers w) acc (w_written w) (w_finished w) (w_fault w).
Definition setGate (w : Writer) (g : bool) : Writer :=
  mkW (w_done w) (w_stopping w) (w_exited w) (w_queue w) (w_qclosed w) g (w_err w) (w_fin w) (w_at w) (w_reqs w) (w_worker w)
    (w_callers w) (w_accepted w) (w_written w) (w_finished w) (w_fault w).
Definition setErr (w : Writer) (e : option error) (finished : bool) : Writer :=
  mkW (w_done w) (w_stopping w) (w_exited w) (w_queue w) (w_qclosed w) (w_gate w) e (w_fin w) (w_at w) (w_reqs w) (w_worker w)
    (w_callers w) (w_accepted w) (w_written w) finished (w_fault w).
(** [w.fin = true; close(w.queue)]: a second close would panic. *)
Definition setFin (w : Writer) : Writer :=
  mkW (w_done w) (w_stopping w) (w_exited w) (w_queue w) true (w_gate w) (w_err w) true (w_at w) (w_reqs w) (w_worker w)
    (w_callers w) (w_accepted w) (w_written w) (w_finished w) (w_fault w || w_qclosed w).
Definition setAt (w : Writer) (t : option Z) : Writer :=
  mkW (w_done w) (w_stopping w) (w_exited w) (w_queue w) (w_qclosed w) (w_gate w) (w_err w) (w_fin w) t (w_reqs w) (w_worker w)
    (w_callers w) (w_accepted w) (w_written w) (w_finished w) (w_fault w).
Definition setReqs (w : Writer) (r : list writeRequest) (fault : bool) : Writer :=
  mkW (w_done w) (w_stopping w) (w_exited w) (w_queue w) (w_qclosed w) (w_gate w) (w_err w) (w_fin w) (w_at w) r (w_worker w)
    (w_callers w) (w_accepted w) (w_written w) (w_finished w) fault.
Definition setWorker (w : Writer) (g : workerStage) : Writer :=
  mkW (w_done w) (w_stopping w) (w_exited w) (w_queue w) (w_qclosed w) (w_gate w) (w_err w) (w_fin w) (w_at w) (w_reqs w) g
    (w_callers w) (w_accepted w) (w_written w) (w_finished w) (w_fault w).
Definition setCallers (w : Writer) (c : list callerStage) : Writer :=
  mkW (w_done w) (w_stopping w) (w_exited w) (w_queue w) (w_qclosed w) (w_gate w) (w_err w) (w_fin w) (w_at w) (w_reqs w)
    (w_worker w) c (w_accepted w) (w_written w) (w_finished w) (w_fault w).
Definition setWritten (w : Writer) (l : list (nat * Z)) : Writer :=
  mkW (w_done w) (w_stopping w) (w_exited w) (w_queue w) (w_qclosed w) (w_gate w) (w_err w) (w_fin w) (w_at w) (w_reqs w)
    (w_worker w) (w_callers w) (w_accepted w) l (w_finished w) (w_fault w).

(** [w.gate <- struct{}{}]: a second token would block its sender for ever. *)
Definition putGate (w : Writer) : Writer := setReqs (setGate w true) (w_reqs w) (w_fault w || w_gate w).

Definition goto (w : Writer) (c : nat) (g : callerStage) : Writer := setCallers w (<[c := g]> (w_callers w)).

(** ** Requests *)

(** [req.release()]; a request in the pool is nobody's. *)
Definition release (w : Writer) (q : nat) : Writer :=
  match w_reqs w !! q with
  | Some r =>
      let refs := q_refs r - 1 in
      setReqs w (<[q := mkReq (q_data r) (q_addr r) refs (if refs =? 0 then None else q_res r) (q_freed r || (refs =? 0))]> (w_reqs w))
        (w_fault w || q_freed r)
  | None => setReqs w (w_reqs w) true
  end.

(** [req.resCh <- result]: a second one would block for ever. *)
Definition post (w : Writer) (q : nat) (res : Z * option error) : Writer :=
  match w_reqs w !! q with
  | Some r =>
      setReqs w (<[q := mkReq (q_data r) (q_addr r) (q_refs r) (Some res) (q_freed r)]> (w_reqs w))
        (w_fault w || q_freed r || bool_decide (is_Some (q_res r)))
  | None => setReqs w (w_reqs w) true
  end.

(** ** The worker *)

Definition setError (w : Writer) (err : option error) (finished : bool) : Writer :=
  setErr w (match w_err w with Some e => Some e | None => err end) finished.

(** A result for a request and the worker's reference. *)
Definition answer (w : Writer) (q : nat) (res : Z * option error) : Writer := release (post w q res) q.

Definition drainError (w : Writer) : error := default ErrClosedPipe (w_err w).

(** What the worker's call returns: [write], or [finish]. *)
Record workerIO := mkWorkerIO {
  io_pick : nat;
  io_n : Z;
  io_err : option error;
}.

(** [drainOnExit] and the close of [exited] *)
Definition drainOnExit (w : Writer) : Writer :=
  match w_worker w with
  | WExit => setWorker (setSignals w (w_done w) true (w_exited w)) WGate
  | WGate => if w_gate w then setWorker (setGate w false) WDrain else w
  | WDrain =>
      match w_queue w with
      | Some q => answer (setQueue w None (w_accepted w)) q (0, Some (drainError w))
      | None => setWorker (setSignals (putGate w) (w_done w) (w_stopping w) true) WExited
      end
  | _ => w
  end.

Section Code.
  (** Whether the writer has a [finish] function. *)
  Variable hasFinish : bool.

Definition workerStep (w : Writer) (io : workerIO) : Writer :=
  match w_worker w with
  | WNew | WExited => w
  | WSelect =>
      match io_pick io with
      | 0%nat => if w_done w then setWorker w WExit else w
      | _ =>
          match w_queue w with
          | Some q =>
              let w := setQueue w None (w_accepted w) in
              if w_done w then setWorker (answer w q (0, Some ErrNetClosed)) WExit
              else setWorker w (WWriting q)
          | None =>
              if w_qclosed w then
                setWorker (if hasFinish then setError w (io_err io) true else w) WExit
              else w
          end
      end
  | WWriting q =>
      match w_reqs w !! q with
      | None => setReqs w (w_reqs w) true
      | Some r =>
          let w := setReqs w (w_reqs w) (w_fault w || q_freed r) in
          let n := io_n io in
          let err := match io_err io with
                     | None => if n =? len (q_data r) then None else Some ErrShortWrite
                     | Some e => Some e
                     end in
          let w := setWritten w (w_written w ++ [(q, n)]) in
          match err with
          | Some e => setWorker (answer (setError w (Some e) (w_finished w)) q (n, Some e)) WExit
          | None => setWorker (answer w q (n, None)) WSelect
          end
      end
  | WExit | WGate | WDrain => drainOnExit w
  end.

(** ** Callers *)

Definition expired (w : Writer) (now : Z) : bool := match w_at w with Some t => t <=? now | None => false end.

(** The return from the critical section: the gate is given back. *)
Definition leave (w : Writer) (c : nat) (q : option nat) (n : Z) (err : error) : Writer :=
  goto (putGate w) c (Returned q n (Some err)).

(** The return of a call that gives up its request before the queue has it. *)
Definition giveUp (w : Writer) (c : nat) (q : nat) (err : error) : Writer :=
  leave (release (release w q) q) c (Some q) 0 err.

(** The return from [awaitWrite] and [WritePacket]. *)
Definition finishCall (w : Writer) (c : nat) (q : nat) (n : Z) (err : option error) : Writer :=
  goto (putGate (release w q)) c (Returned (Some q) n err).

Definition dataLen (w : Writer) (q : nat) : Z := match w_reqs w !! q with Some r => len (q_data r) | None => 0 end.

(** [<-req.resCh] *)
Definition takeResult (w : Writer) (q : nat) : option (Z * option error * Writer) :=
  match w_reqs w !! q with
  | Some r =>
      match q_res r with
      | Some (n, err) =>
          Some (n, err, setReqs w (<[q := mkReq (q_data r) (q_addr r) (q_refs r) None (q_freed r)]> (w_reqs w)) (w_fault w || q_freed r))
      | None => None
      end
  | None => None
  end.

Definition startWorker (w : Writer) : Writer := match w_worker w with WNew => setWorker w WSelect | _ => w end.

(** The error of a stopped writer, for the three places that ask. *)
Definition stopError (w : Writer) (dflt : error) : error := default dflt (w_err w).

(** [acquire] *)
Definition acquireTop (w : Writer) (c : nat) (k : purpose) (now : Z) : Writer :=
  let w := startWorker w in
  if expired w now then goto w c (Returned None 0 (Some ErrDeadlineExceeded)) else goto w c (AcquireSelect k).

Definition acquireSelect (w : Writer) (c : nat) (k : purpose) (pick : nat) : Writer :=
  match pick with
  | 0%nat => if w_done w then goto w c (Returned None 0 (Some ErrNetClosed)) else w
  | 1%nat => if w_stopping w then goto w c (Returned None 0 (Some (stopError w ErrClosedPipe))) else w
  | 2%nat => if w_gate w then goto (setGate w false) c (Gated k) else w
  | _ => goto w c (AcquireTop k)
  end.

(** [WritePacket], with the gate, before its loop *)
Definition newRequest (w : Writer) (c : nat) (p : list byte) (addr : gostring) : Writer :=
  match w_err w with
  | Some e => leave w c None 0 e
  | None =>
      if w_fin w then leave w c None 0 ErrClosedPipe
      else
        let q := length (w_reqs w) in
        goto (setReqs w (w_reqs w ++ [mkReq p addr 2 None false]) (w_fault w)) c (EnqueueTop q)
  end.

(** ... and in it *)
Definition enqueueTop (w : Writer) (c : nat) (q : nat) (now : Z) (pick : nat) : Writer :=
  if w_done w && negb (w_stopping w && bool_decide (pick = 1%nat)) then giveUp w c q ErrNetClosed
  else if w_stopping w then giveUp w c q (stopError w ErrNetClosed)
  else if expired w now then giveUp w c q ErrDeadlineExceeded
  else goto w c (EnqueueSelect q).

Definition enqueueSelect (w : Writer) (c : nat) (q : nat) (pick : nat) : Writer :=
  match pick with
  | 0%nat => if w_done w then giveUp w c q ErrNetClosed else w
  | 1%nat => if w_stopping w then giveUp w c q (stopError w ErrNetClosed) else w
  | 2%nat =>
      if w_qclosed w then setReqs w (w_reqs w) true                      (* send on closed channel *)
      else match w_queue w with
      | None => goto (setQueue w (Some q) (w_accepted w ++ [q])) c (AwaitTop q)
      | Some _ => w
      end
  | _ => goto w c (EnqueueTop q)
  end.

(** [awaitWrite] *)
Definition awaitTop (w : Writer) (c : nat) (q : nat) (now : Z) : Writer :=
  match takeResult w q with
  | Some (n, err, w) => finishCall w c q n err
  | None =>
      if expired w now then finishCall w c q (dataLen w q) (Some ErrDeadlineExceeded)
      else goto w c (AwaitSelect q)
  end.

Definition awaitSelect (w : Writer) (c : nat) (q : nat) (pick : nat) : Writer :=
  match pick with
  | 0%nat =>
      match takeResult w q with Some (n, err, w) => finishCall w c q n err | None => w end
  | 1%nat => if w_done w then finishCall w c q (dataLen w q) (Some ErrNetClosed) else w
  | 2%nat =>
      if w_stopping w then
        match takeResult w q with
        | Some (n, err, w) => finishCall w c q n err
        | None => finishCall w c q (dataLen w q) (Some (stopError w ErrNetClosed))
        end
      else w
  | _ => goto w c (AwaitTop q)
  end.

(** [CloseWrite], with the gate and in its loop *)
Definition closeQueue (w : Writer) (c : nat) : Writer :=
  let w := if w_fin w then w else setFin w in
  goto (putGate w) c FinTop.

Definition finTop (w : Writer) (c : nat) (now : Z) : Writer :=
  if w_exited w then goto w c (Returned None 0 (w_err w))
  else if expired w now then goto w c (Returned None 0 (Some ErrDeadlineExceeded))
  else goto w c FinSelect.

Definition finSelect (w : Writer) (c : nat) (pick : nat) : Writer :=
  match pick with
  | 0%nat => if w_exited w then goto w c (Returned None 0 (w_err w)) else w
  | 1%nat => if w_done w then goto w c (Returned None 0 (Some ErrNetClosed)) else w
  | _ => goto w c FinTop
  end.

Definition callerStep (w : Writer) (c : nat) (now : Z) (pick : nat) : Writer :=
  match w_callers w !! c with
  | None => w
  | Some g =>
      match g with
      | AcquireTop k => acquireTop w c k now
      | AcquireSelect k => acquireSelect w c k pick
      | Gated (Packet p addr) => newRequest w c p addr
      | Gated HalfClose => closeQueue w c
      | EnqueueTop q => enqueueTop w c q now pick
      | EnqueueSelect q => enqueueSelect w c q pick
      | AwaitTop q => awaitTop w c q now
      | AwaitSelect q => awaitSelect w c q pick
      | FinTop => finTop w c now
      | FinSelect => finSelect w c pick
      | Returned _ _ _ => w
      end
  end.

(** ** Runs *)

Inductive event :=
  | EWritePacket (p : list byte) (addr : gostring)
  | ECloseWrite
  | ECaller (c : nat) (now : Z) (pick : nat)
  | EWorker (io : workerIO)
  | ESetDeadline (t : option Z)
  | EClose.

Definition step (w : Writer) (ev : event) : Writer :=
  match ev with
  | EWritePacket p addr =>
      setCallers w (w_callers w ++ [if 65535 <? len p then Returned None 0 (Some ErrShortBuffer)
                                    else AcquireTop (Packet p addr)])
  | ECloseWrite => setCallers w (w_callers w ++ [if w_fin w then FinTop else AcquireTop HalfClose])
  | ECaller c now pick => callerStep w c now pick
  | EWorker io => workerStep w io
  | ESetDeadline t => setAt w t
  | EClose => startWorker (setSignals w true (w_stopping w) (w_exited w))
  end.

Definition run (w : Writer) (evs : list event) : Writer := foldl step w evs.

End Code.

(** ** [Write] *)

Inductive writeEnd :=
  | WriteReturns (written : Z) (err : option error) (handed : list (list byte))   (* the chunks given to [WritePacket] *)
  | WritePanics                                                                   (* p[n:] out of range *)
  | WriteRuns.

(** The loop of [Write]; [WritePacket i chunk] is what the i-th call returns. *)
Fixpoint writeLoop (WritePacket : nat -> list byte -> Z * option error) (fuel : nat) (i : nat) (p : list byte) (written : Z)
    (handed : list (list byte)) : writeEnd :=
  match p with
  | [] => WriteReturns written None handed
  | _ :: _ =>
      match fuel with
      | O => WriteRuns
      | S fuel =>
          let size := Z.min (len p) 65535 in
          let chunk := take (Z.to_nat size) p in
          let '(n, err) := WritePacket i chunk in
          if (n <? 0) || (len p <? n) then WritePanics
          else
            let written := written + n in
            let p := drop (Z.to_nat n) p in
            match err with
            | Some e => WriteReturns written (Some e) (handed ++ [chunk])
            | None => writeLoop WritePacket fuel (S i) p written (handed ++ [chunk])
            end
      end
  end.

Definition Write (WritePacket : nat -> list byte -> Z * option error) (p : list byte) : writeEnd :=
  writeLoop WritePacket (length p) 0 p 0 [].
