(* ===== verification/ConnioWriterRuns.v ===== *)
(** * Runs of the bounded writer

    The invariant of [ConnioWriter]: one gate token, the references of every
    request, which requests the worker has handed to [write] and in which
    order; its preservation by every step of every goroutine, and what follows
    for whole runs. *)
From S2P Require Import Prelude GoNet ConnioWriter.

Open Scope Z_scope.

(** ** The invariant *)

(** Who has the gate's token, and how many references to a request each
    goroutine has. *)
Definition holdsGate (g : callerStage) : bool :=
  match g with
  | Gated _ | EnqueueTop _ | EnqueueSelect _ | AwaitTop _ | AwaitSelect _ => true
  | _ => false
  end.

Definition callerRefs (q : nat) (g : callerStage) : Z :=
  match g with
  | EnqueueTop p | EnqueueSelect p => if decide (p = q) then 2 else 0
  | AwaitTop p | AwaitSelect p => if decide (p = q) then 1 else 0
  | _ => 0
  end.

Definition queueRefs (q : nat) (queue : option nat) : Z := if decide (queue = Some q) then 1 else 0.
Definition inflight (g : workerStage) : option nat := match g with WWriting q => Some q | _ => None end.
Definition draining (g : workerStage) : bool := match g with WDrain => true | _ => false end.
Definition running (g : workerStage) : bool := match g with WNew | WSelect | WWriting _ => true | _ => false end.

(** The worker's references. *)
Definition workerRefs (q : nat) (w : Writer) : Z := queueRefs q (w_queue w) + queueRefs q (inflight (w_worker w)).

(** What became of a request the worker is through with: [write] was called
    with it and reported [n], or it was dropped after the worker had failed or
    the writer was closed. *)
Definition outcome (w : Writer) (q : nat) (size n : Z) (err : option error) : Prop :=
  ((q, n) ∈ w_written w /\ (err = None -> n = size)) \/
  (q ∈ w_accepted w /\ q ∉ (w_written w).*1 /\ workerRefs q w = 0 /\ n = 0 /\ err <> None).

(** What the caller of a request is told. *)
Definition reported (w : Writer) (q : nat) (n : Z) (err : option error) : Prop :=
  exists r, w_reqs w !! q = Some r /\
    ((q ∉ w_accepted w /\ q_freed r = true /\ n = 0 /\ err <> None) \/
     (q ∈ w_accepted w /\ n = len (q_data r) /\ err <> None) \/
     outcome w q (len (q_data r)) n err).

Definition stableOk (w : Writer) (g : callerStage) : Prop :=
  match g with
  | AwaitTop q | AwaitSelect q => q ∈ w_accepted w
  | Returned (Some q) n err => reported w q n err
  | Returned None n _ => n = 0
  | _ => True
  end.

Definition enqueueOk (w : Writer) (g : callerStage) : Prop :=
  match g with
  | EnqueueTop q => (q < length (w_reqs w))%nat /\ q ∉ w_accepted w /\ w_fin w = false
  | EnqueueSelect q => (q < length (w_reqs w))%nat /\ q ∉ w_accepted w /\ w_fin w = false /\ w_worker w <> WExited
  | _ => True
  end.

(** The order in which the worker takes requests; only after it has stopped
    does it drop any. *)
Definition ordered (w : Writer) : Prop :=
  exists dropped,
    w_accepted w = (w_written w).*1 ++ option_list (inflight (w_worker w)) ++ dropped ++ option_list (w_queue w) /\
    (running (w_worker w) = true -> dropped = []).

Record winv (w : Writer) : Prop := {
  wi_fault : w_fault w = false;
  wi_gate : countBy holdsGate (w_callers w) + Z.b2z (draining (w_worker w)) + Z.b2z (w_gate w) = 1;
  wi_fin : w_fin w = w_qclosed w;
  wi_refs : forall q r, w_reqs w !! q = Some r ->
    q_refs r = sumBy (callerRefs q) (w_callers w) + workerRefs q w /\ q_freed r = (q_refs r =? 0);
  wi_res : forall q r n err, w_reqs w !! q = Some r -> q_res r = Some (n, err) ->
    q_freed r = false /\ outcome w q (len (q_data r)) n err;
  wi_nodup : NoDup (w_accepted w);
  wi_bound : forall q, q ∈ w_accepted w -> (q < length (w_reqs w))%nat;
  wi_order : ordered w;
  wi_stop : running (w_worker w) = false -> w_worker w <> WExit -> w_stopping w = true;
  wi_exit : w_worker w = WExited -> w_queue w = None;
  wi_exited : w_exited w = true <-> w_worker w = WExited;
  wi_calls : forall c g, w_callers w !! c = Some g -> stableOk w g;
  wi_enqueue : forall c g, w_callers w !! c = Some g -> enqueueOk w g;
  wi_finished : w_finished w = true -> w_qclosed w = true /\ running (w_worker w) = false /\ w_accepted w = (w_written w).*1;
}.

Ltac cbn_w :=
  cbn [goto leave setCallers setGate setReqs setFin setQueue setWorker setWritten setErr setSignals setError
       w_fault w_callers w_worker w_gate w_fin w_qclosed w_reqs w_accepted w_stopping w_exited w_finished
       w_written w_queue w_done w_err w_at].

Ltac unfold_caller :=
  unfold callerStep, acquireTop, acquireSelect, newRequest, enqueueTop, enqueueSelect, awaitTop, awaitSelect, closeQueue, finTop, finSelect.

(** ** Facts about a state *)

Lemma callerRefs_nonneg q g : 0 <= callerRefs q g.
Proof. destruct g; cbn [callerRefs]; try case_decide; lia. Qed.

Lemma queueRefs_range q queue : 0 <= queueRefs q queue <= 1.
Proof. unfold queueRefs. case_decide; lia. Qed.

Lemma queueRefs_zero q queue : queueRefs q queue = 0 <-> queue <> Some q.
Proof. unfold queueRefs. case_decide; split; intros; try lia; congruence. Qed.

Lemma sumBy_ge {A} (f : A -> Z) l i x : (forall y, 0 <= f y) -> l !! i = Some x -> f x <= sumBy f l.
Proof.
  intros Hf. revert i. induction l as [|y l IH]; intros [|i] E; [done..| |];
    change (f x <= f y + sumBy f l); pose proof (sumBy_nonneg f l Hf); pose proof (Hf y).
  - injection E as ->. lia.
  - specialize (IH i E). lia.
Qed.

Lemma callers_refs w c g q : w_callers w !! c = Some g -> callerRefs q g <= sumBy (callerRefs q) (w_callers w).
Proof. apply sumBy_ge, callerRefs_nonneg. Qed.

Lemma refs_pos w q r : winv w -> w_reqs w !! q = Some r -> 0 < sumBy (callerRefs q) (w_callers w) + workerRefs q w -> q_freed r = false.
Proof. intros Hi Hr Hp. destruct (wi_refs _ Hi q r Hr) as [E ->]. apply Z.eqb_neq. lia. Qed.

(** A property of every element, after one has been replaced. *)
Lemma insert_all {A} (P : A -> Prop) (l : list A) (i : nat) (x y : A) :
  l !! i = Some x -> P y -> (forall j z, j <> i -> l !! j = Some z -> P z) ->
  forall j z, <[i := y]> l !! j = Some z -> P z.
Proof.
  intros Hi Hy Hall j z Hj. destruct (decide (j = i)) as [->|Hne].
  - rewrite list_lookup_insert_eq in Hj by (by eapply lookup_lt_Some). by injection Hj as <-.
  - rewrite list_lookup_insert_ne in Hj by done. by apply (Hall j).
Qed.

(** The holder of the gate is alone. *)
Lemma holder_alone w c g :
  winv w -> w_callers w !! c = Some g -> holdsGate g = true ->
  w_gate w = false /\ w_worker w <> WDrain /\
  forall c' g', c' <> c -> w_callers w !! c' = Some g' -> holdsGate g' = false.
Proof.
  intros Hi Hc Hg. pose proof (wi_gate _ Hi) as E.
  pose proof (countBy_insert holdsGate _ _ _ FinTop Hc) as Hins. rewrite Hg in Hins. cbn [holdsGate] in Hins.
  pose proof (countBy_nonneg holdsGate (<[c := FinTop]> (w_callers w))) as Hnn.
  destruct (w_gate w), (w_worker w); cbn [draining Z.b2z] in E; try lia; (split; [done|]; split; [done|]);
    intros c' g' Hne Hc'; apply (countBy_zero holdsGate (<[c := FinTop]> (w_callers w)) c'); [lia| |lia|..];
    try (by rewrite list_lookup_insert_ne); lia.
Qed.

Lemma draining_alone w c g :
  winv w -> w_worker w = WDrain -> w_callers w !! c = Some g -> holdsGate g = false.
Proof.
  intros Hi Hw Hc. destruct (holdsGate g) eqn:Hg; [|done]. destruct (holder_alone w c g Hi Hc Hg) as (_ & ? & _). done.
Qed.

(** A request with the worker has been accepted, not yet written, and is at
    one place only. *)
Lemma worker_holds w q :
  winv w -> workerRefs q w <> 0 -> q ∈ w_accepted w /\ q ∉ (w_written w).*1 /\ workerRefs q w = 1.
Proof.
  intros Hi Hq. destruct (wi_order _ Hi) as (dr & E & _). pose proof (wi_nodup _ Hi) as Hn. rewrite E in Hn |- *.
  apply NoDup_app in Hn as (_ & Hd1 & Hn). apply NoDup_app in Hn as (_ & Hd2 & Hn).
  unfold workerRefs, queueRefs in *. case_decide as D1; case_decide as D2; try lia.
  - exfalso. apply (Hd2 q); rewrite ?D1, ?D2; set_solver.
  - split; [rewrite D1; set_solver|]. split; [|done]. intros Hw. apply (Hd1 q Hw). rewrite D1. set_solver.
  - split; [rewrite D2; set_solver|]. split; [|done]. intros Hw. apply (Hd1 q Hw). rewrite D2. set_solver.
Qed.

Lemma worker_request w q :
  winv w -> workerRefs q w <> 0 ->
  exists r, w_reqs w !! q = Some r /\ q_freed r = false /\ q_res r = None /\ 0 < q_refs r.
Proof.
  intros Hi Hq. destruct (worker_holds w q Hi Hq) as (Ha & Hw & H1).
  destruct (lookup_lt_is_Some_2 _ _ (wi_bound _ Hi q Ha)) as [r Hr]. exists r. split; [done|].
  pose proof (sumBy_nonneg (callerRefs q) (w_callers w) (callerRefs_nonneg q)) as Hnn.
  destruct (wi_refs _ Hi q r Hr) as [E _].
  split; [apply (refs_pos w q r Hi Hr); lia|]. split; [|lia].
  destruct (q_res r) as [[n err]|] eqn:Er; [|done]. exfalso.
  destruct (wi_res _ Hi q r n err Hr Er) as [_ [[Hin _]|(_ & _ & Hz & _)]]; [|lia].
  apply Hw, list_elem_of_fmap. by exists (q, n).
Qed.

(** ** Steps that leave the requests alone *)

(** A caller moves on, with or without the gate. *)
Lemma winv_move w c g g' gate :
  winv w -> w_callers w !! c = Some g ->
  (forall q, callerRefs q g' = callerRefs q g) ->
  Z.b2z gate + Z.b2z (holdsGate g') = Z.b2z (w_gate w) + Z.b2z (holdsGate g) ->
  stableOk w g' -> enqueueOk w g' -> winv (goto (setGate w gate) c g').
Proof.
  intros Hi Hc Hr Hg Hs He. destruct Hi. split; cbn_w; try done.
  - rewrite (countBy_insert _ _ _ _ _ Hc). destruct (holdsGate g), (holdsGate g'); cbn [Z.b2z] in *; lia.
  - intros q r Hq. rewrite (sumBy_insert _ _ _ _ _ Hc), Hr. destruct (wi_refs0 q r Hq) as [-> ->]. split; [|done].
    unfold workerRefs. cbn. lia.
  - eapply insert_all; [done|done|]. intros d h _ Hd. by apply (wi_calls0 d).
  - eapply insert_all; [done|done|]. intros d h _ Hd. by apply (wi_enqueue0 d).
Qed.

Lemma setGate_same w : setGate w (w_gate w) = w.
Proof. by destruct w. Qed.

Lemma winv_goto w c g g' :
  winv w -> w_callers w !! c = Some g -> (forall q, callerRefs q g' = callerRefs q g) -> holdsGate g' = holdsGate g ->
  stableOk w g' -> enqueueOk w g' -> winv (goto w c g').
Proof. intros Hi Hc Hr Hg Hs He. rewrite <- (setGate_same w). eapply winv_move; try done. by rewrite Hg. Qed.

Lemma putGate_held w c g : winv w -> w_callers w !! c = Some g -> holdsGate g = true -> putGate w = setGate w true.
Proof.
  intros Hi Hc Hg. destruct (holder_alone w c g Hi Hc Hg) as (Hf & _ & _). pose proof (wi_fault _ Hi) as E.
  destruct w. cbn in *. by subst.
Qed.

(** The gate goes back without a request. *)
Lemma winv_leave w c g n err :
  winv w -> w_callers w !! c = Some g -> holdsGate g = true -> (forall q, callerRefs q g = 0) -> n = 0 ->
  winv (leave w c None n err).
Proof.
  intros Hi Hc Hg Hr ->. unfold leave. rewrite (putGate_held w c g Hi Hc Hg).
  destruct (holder_alone w c g Hi Hc Hg) as (Hf & _ & _).
  eapply winv_move; try done. by rewrite Hf, Hg.
Qed.

(** ** Steps that change a request *)

(** What callers were told stays true while requests are released, taken and
    written. *)
Lemma reported_mono w w' q n err :
  reported w q n err ->
  (forall r, w_reqs w !! q = Some r -> exists r', w_reqs w' !! q = Some r' /\ q_data r' = q_data r /\ (q_freed r = true -> q_freed r' = true)) ->
  (q ∈ w_accepted w -> q ∈ w_accepted w') ->
  (forall r, w_reqs w !! q = Some r -> q_freed r = true -> q ∉ w_accepted w -> q ∉ w_accepted w') ->
  (forall m, (q, m) ∈ w_written w -> (q, m) ∈ w_written w') ->
  (q ∈ w_accepted w -> q ∉ (w_written w).*1 -> workerRefs q w = 0 -> q ∉ (w_written w').*1 /\ workerRefs q w' = 0) ->
  reported w' q n err.
Proof.
  intros (r & Hr & H) Hreq Ha Hna Hw Hd. destruct (Hreq r Hr) as (r' & Hr' & Hdata & Hfr). exists r'. split; [done|].
  rewrite Hdata. destruct H as [(H1 & H2 & H3)|[(H1 & H2)|[(H1 & H2)|(H1 & H2 & H3 & H4)]]].
  - left. split; [by apply (Hna r)|]. auto.
  - right; left. auto.
  - right; right; left. auto.
  - right; right; right. destruct (Hd H1 H2 H3). auto.
Qed.

Lemma stable_mono w w' g :
  stableOk w g ->
  (forall q n err, reported w q n err -> reported w' q n err) ->
  (forall q, q ∈ w_accepted w -> q ∈ w_accepted w') -> stableOk w' g.
Proof. intros Hs Hr Ha. destruct g as [| | | | | | | | |[q|] n err]; cbn [stableOk] in *; auto. Qed.

(** [CloseWrite] closes the queue. *)
Lemma winv_setFin w c k :
  winv w -> w_callers w !! c = Some (Gated k) -> w_fin w = false -> winv (setFin w).
Proof.
  intros Hi Hc Hf. destruct (holder_alone w c _ Hi Hc eq_refl) as (_ & _ & Ho). destruct Hi.
  split; cbn_w; try done.
  - rewrite wi_fault0, <- wi_fin0, Hf. done.
  - intros d g Hd. destruct (decide (d = c)) as [->|Hne]; [by replace g with (Gated k) by congruence|].
    specialize (Ho d g Hne Hd). by destruct g.
  - intros Hfin. destruct (wi_finished0 Hfin). done.
Qed.

(** The requests of other callers are not affected by a change of one. *)
Definition changed (r r' : writeRequest) : Prop :=
  q_data r' = q_data r /\ q_freed r' = (q_refs r' =? 0) /\ (q_freed r = true -> q_freed r' = true) /\
  (forall res, q_res r' = Some res -> q_res r = Some res /\ q_freed r' = false).

Lemma reported_insert w w' p r r' q n err :
  w_reqs w !! p = Some r -> w_reqs w' = <[p := r']> (w_reqs w) -> q_data r' = q_data r -> (q_freed r = true -> q_freed r' = true) ->
  w_accepted w' = w_accepted w -> w_written w' = w_written w -> (workerRefs q w = 0 -> workerRefs q w' = 0) ->
  reported w q n err -> reported w' q n err.
Proof.
  intros Hp Hreqs Hd Hfr Ha Hw Hh Hrep. eapply reported_mono; [exact Hrep|..]; rewrite ?Ha, ?Hw; auto.
  intros r0 Hr0. rewrite Hreqs. destruct (decide (q = p)) as [->|Hne].
  - exists r'. rewrite list_lookup_insert_eq by (by eapply lookup_lt_Some). replace r0 with r by congruence. auto.
  - exists r0. by rewrite list_lookup_insert_ne by done.
Qed.

(** A caller returns with its references given back. *)
Lemma winv_return w c g q r r' n err :
  winv w -> w_callers w !! c = Some g -> holdsGate g = true ->
  (forall p, p <> q -> callerRefs p g = 0) ->
  w_reqs w !! q = Some r -> changed r r' -> q_refs r' = q_refs r - callerRefs q g ->
  ((q ∉ w_accepted w /\ q_freed r' = true /\ n = 0 /\ err <> None) \/
   (q ∈ w_accepted w /\ n = len (q_data r) /\ err <> None) \/
   outcome w q (len (q_data r)) n err) ->
  winv (goto (setGate (setReqs w (<[q := r']> (w_reqs w)) false) true) c (Returned (Some q) n err)).
Proof.
  intros Hi Hc Hg Hother Hq (Hdata & Hfr & Hmono & Hres) Hrefs Hrep.
  destruct (holder_alone w c g Hi Hc Hg) as (Hgf & Hwd & Ho).
  assert (Hlq : (q < length (w_reqs w))%nat) by (by eapply lookup_lt_Some).
  destruct Hi. split; cbn_w; try done.
  - rewrite (countBy_insert _ _ _ _ _ Hc), Hg. rewrite Hgf in wi_gate0. cbn [holdsGate Z.b2z] in *. lia.
  - intros p s Hp. rewrite (sumBy_insert _ _ _ _ _ Hc). unfold workerRefs. cbn_w. fold (workerRefs p w).
    destruct (decide (p = q)) as [->|Hne].
    + rewrite list_lookup_insert_eq in Hp by done. injection Hp as <-. destruct (wi_refs0 q r Hq) as [E _].
      split; [|done]. rewrite Hrefs, E. unfold workerRefs. cbn [callerRefs]. lia.
    + rewrite list_lookup_insert_ne in Hp by done. destruct (wi_refs0 p s Hp) as [E ->]. split; [|done].
      rewrite E, (Hother p Hne). unfold workerRefs. cbn [callerRefs]. lia.
  - intros p s m e Hp Hs. change (outcome _ p) with (outcome w p). destruct (decide (p = q)) as [->|Hne].
    + rewrite list_lookup_insert_eq in Hp by done. injection Hp as <-. destruct (Hres _ Hs) as [H1 H2]. split; [done|].
      rewrite Hdata. by apply (wi_res0 q r).
    + rewrite list_lookup_insert_ne in Hp by done. by apply (wi_res0 p s).
  - intros p Hp. rewrite length_insert. auto.
  - eapply insert_all; [exact Hc| |].
    + cbn [stableOk]. exists r'. cbn_w. rewrite list_lookup_insert_eq by done. split; [done|]. rewrite Hdata. exact Hrep.
    + intros d h _ Hd. eapply stable_mono; [by apply (wi_calls0 d)| |done].
      intros p m e. eapply (reported_insert w _ q r r'); done.
  - eapply insert_all; [exact Hc|done|]. intros d h Hne Hd. specialize (Ho d h Hne Hd). by destruct h.
Qed.

Lemma sumBy_zero {A} (f : A -> Z) l : (forall i x, l !! i = Some x -> f x = 0) -> sumBy f l = 0.
Proof.
  induction l as [|x l IH]; intros Hf; [done|]. change (f x + sumBy f l = 0).
  rewrite (Hf 0%nat x eq_refl), IH; [done|]. intros i y Hy. by apply (Hf (S i)).
Qed.

(** Nobody refers to a request that is not there yet. *)
Lemma fresh_refs w :
  winv w -> length (w_reqs w) ∉ w_accepted w /\ sumBy (callerRefs (length (w_reqs w))) (w_callers w) + workerRefs (length (w_reqs w)) w = 0.
Proof.
  intros Hi. assert (Hfresh : length (w_reqs w) ∉ w_accepted w) by (intros Ha; specialize (wi_bound _ Hi _ Ha); lia).
  split; [done|]. rewrite sumBy_zero.
  - destruct (decide (workerRefs (length (w_reqs w)) w = 0)) as [->|Hne]; [done|].
    destruct (worker_holds w _ Hi Hne). done.
  - intros d g Hd. pose proof (wi_enqueue _ Hi d g Hd) as H1. pose proof (wi_calls _ Hi d g Hd) as H2.
    destruct g as [| | |q|q|q|q| | |]; cbn [callerRefs enqueueOk stableOk] in *; try done; case_decide; subst; try done;
      destruct H1; lia.
Qed.

(** Only the holder of the gate has references on the callers' side. *)
Lemma holder_refs w c g q :
  winv w -> w_callers w !! c = Some g -> holdsGate g = true -> sumBy (callerRefs q) (w_callers w) = callerRefs q g.
Proof.
  intros Hi Hc Hg. destruct (holder_alone w c g Hi Hc Hg) as (_ & _ & Ho).
  assert (sumBy (callerRefs q) (<[c := FinTop]> (w_callers w)) = 0) as E.
  { apply sumBy_zero. eapply insert_all; [exact Hc|done|]. intros d h Hne Hd. specialize (Ho d h Hne Hd). by destruct h. }
  rewrite (sumBy_insert _ _ _ _ _ Hc) in E. cbn [callerRefs] in E. lia.
Qed.

(** [WritePacket] takes a request from the pool. *)
Lemma winv_newRequest w c p addr :
  winv w -> w_callers w !! c = Some (Gated (Packet p addr)) -> w_fin w = false ->
  winv (goto (setReqs w (w_reqs w ++ [mkReq p addr 2 None false]) (w_fault w)) c (EnqueueTop (length (w_reqs w)))).
Proof.
  intros Hi Hc Hf. destruct (holder_alone w c _ Hi Hc eq_refl) as (_ & _ & Ho).
  pose proof (fresh_refs w Hi) as [Hfresh Hz]. destruct Hi.
  assert (Hnew : forall q r, (w_reqs w ++ [mkReq p addr 2 None false]) !! q = Some r ->
            w_reqs w !! q = Some r \/ (q = length (w_reqs w) /\ r = mkReq p addr 2 None false)).
  { intros q r [Hq|[Hq E]]%lookup_app_Some; [by left|]. apply list_lookup_singleton_Some in E as [E <-]. right. split; [lia|done]. }
  split; cbn_w; try done.
  - rewrite (countBy_insert _ _ _ _ _ Hc). cbn [holdsGate]. lia.
  - intros q r Hq. rewrite (sumBy_insert _ _ _ _ _ Hc). unfold workerRefs. cbn_w. fold (workerRefs q w).
    destruct (Hnew q r Hq) as [Hold|[-> ->]].
    + destruct (wi_refs0 q r Hold) as [E ->]. split; [|done]. rewrite E. unfold workerRefs. cbn [callerRefs].
      rewrite decide_False by (apply lookup_lt_Some in Hold; lia). lia.
    + cbn [q_refs q_freed callerRefs]. rewrite decide_True by done. unfold workerRefs in Hz |- *. split; [lia|done].
  - intros q r n err Hq Hr. destruct (Hnew q r Hq) as [Hold|[-> ->]]; [by apply (wi_res0 q r)|done].
  - intros q Hq. rewrite length_app. specialize (wi_bound0 q Hq). lia.
  - eapply insert_all; [exact Hc|done|]. intros d h _ Hd. eapply stable_mono; [by apply (wi_calls0 d)| |done].
    intros q n err Hrep. eapply reported_mono; [exact Hrep|..]; try done.
    intros r Hr. exists r. cbn_w. rewrite lookup_app_l by (by eapply lookup_lt_Some). done.
  - eapply insert_all; [exact Hc| |].
    + cbn [enqueueOk]. cbn_w. rewrite length_app. cbn [length]. split; [lia|done].
    + intros d h Hne Hd. specialize (Ho d h Hne Hd). by destruct h.
Qed.

(** The queue takes the request. *)
Lemma winv_accept w c q :
  winv w -> w_callers w !! c = Some (EnqueueSelect q) -> w_queue w = None -> w_qclosed w = false ->
  winv (goto (setQueue w (Some q) (w_accepted w ++ [q])) c (AwaitTop q)).
Proof.
  intros Hi Hc Hnone Hopen. destruct (holder_alone w c _ Hi Hc eq_refl) as (_ & _ & Ho).
  destruct (wi_enqueue _ Hi c _ Hc) as (Hl & Hna & Hf & Hex).
  assert (Hinfl : inflight (w_worker w) <> Some q).
  { intros E. apply Hna. apply (worker_holds w q Hi). unfold workerRefs, queueRefs. rewrite Hnone, E. rewrite decide_False by done.
    rewrite decide_True by done. done. }
  assert (Hlive : forall r, w_reqs w !! q = Some r -> q_freed r = false).
  { intros r Hr. apply (refs_pos w q r Hi Hr). pose proof (callers_refs w c _ q Hc) as Hge. cbn [callerRefs] in Hge.
    rewrite decide_True in Hge by done. unfold workerRefs. pose proof (queueRefs_range q (w_queue w)).
    pose proof (queueRefs_range q (inflight (w_worker w))). lia. }
  assert (Hwr : forall p, workerRefs p (goto (setQueue w (Some q) (w_accepted w ++ [q])) c (AwaitTop q)) =
                          workerRefs p w + if decide (p = q) then 1 else 0).
  { intros p. unfold workerRefs. cbn_w. rewrite Hnone. unfold queueRefs. rewrite (decide_False (P := None = Some p)) by done.
    destruct (decide (p = q)) as [->|Hne]; [rewrite (decide_True (P := Some q = Some q)) by done; lia|].
    rewrite (decide_False (P := Some q = Some p)) by congruence. lia. }
  assert (Hout : forall p s n err, outcome w p s n err -> outcome (goto (setQueue w (Some q) (w_accepted w ++ [q])) c (AwaitTop q)) p s n err).
  { intros p s n err [H|(H1 & H2 & H3 & H4)]; [by left|]. right. rewrite Hwr. cbn_w. rewrite decide_False by congruence.
    split; [set_solver|]. split; [done|]. split; [lia|done]. }
  destruct Hi. split; cbn_w; try done.
  - rewrite (countBy_insert _ _ _ _ _ Hc). cbn [holdsGate]. lia.
  - intros p r Hp. rewrite (sumBy_insert _ _ _ _ _ Hc), Hwr. destruct (wi_refs0 p r Hp) as [E ->]. split; [|done].
    rewrite E. cbn [callerRefs]. destruct (decide (q = p)), (decide (p = q)); try congruence; lia.
  - intros p r n err Hp Hr. destruct (wi_res0 p r n err Hp Hr) as [H1 H2]. auto.
  - apply NoDup_app. split; [done|]. split; [|apply NoDup_singleton]. set_solver.
  - intros p [Hp|Hp]%elem_of_app; [auto|]. apply list_elem_of_singleton in Hp as ->. done.
  - destruct wi_order0 as (dr & E & Hdr). exists dr. cbn_w. rewrite E, Hnone. cbn [option_list]. rewrite app_nil_r, <- !app_assoc. done.
  - eapply insert_all; [exact Hc|cbn [stableOk]; cbn_w; set_solver|]. intros d h _ Hd.
    eapply stable_mono; [by apply (wi_calls0 d)| |cbn_w; set_solver].
    intros p n err Hrep. eapply reported_mono; [exact Hrep|..]; cbn_w; try done; [eauto|set_solver| |].
    + intros r Hr Hfr Hp [?|Hq]%elem_of_app; [done|]. apply list_elem_of_singleton in Hq as ->. specialize (Hlive r Hr). congruence.
    + intros Hp Hw Hz. rewrite Hwr, decide_False by congruence. split; [done|lia].
  - eapply insert_all; [exact Hc|done|]. intros d h Hne Hd. specialize (Ho d h Hne Hd). by destruct h.
  - intros Hfin. destruct (wi_finished0 Hfin) as [? _]. congruence.
Qed.

(** [WritePacket] gives its request up. *)
Lemma winv_giveUp w c g q err :
  winv w -> w_callers w !! c = Some g -> g = EnqueueTop q \/ g = EnqueueSelect q -> winv (giveUp w c q err).
Proof.
  intros Hi Hc Hg.
  assert (Hh : holdsGate g = true) by (by destruct Hg as [->| ->]).
  assert (Hcr : forall p, callerRefs p g = if decide (q = p) then 2 else 0) by (by destruct Hg as [->| ->]).
  assert (Hen : (q < length (w_reqs w))%nat /\ q ∉ w_accepted w).
  { pose proof (wi_enqueue _ Hi c g Hc) as H. destruct Hg as [->| ->]; cbn [enqueueOk] in H; naive_solver. }
  destruct Hen as [Hl Hna]. destruct (lookup_lt_is_Some_2 _ _ Hl) as [r Hr].
  assert (Hrefs : q_refs r = 2 /\ q_freed r = false).
  { destruct (wi_refs _ Hi q r Hr) as [E ->]. rewrite (holder_refs w c g q Hi Hc Hh), Hcr, decide_True in E by done.
    destruct (decide (workerRefs q w = 0)) as [Hz|Hne]; [|by destruct (worker_holds w q Hi Hne)].
    rewrite Hz in E. by rewrite E. }
  destruct Hrefs as [Hrefs Hfr]. destruct (holder_alone w c g Hi Hc Hh) as (Hgf & _ & _). pose proof (wi_fault _ Hi) as Hfa.
  assert (giveUp w c q err = goto (setGate (setReqs w (<[q := mkReq (q_data r) (q_addr r) 0 None true]> (w_reqs w)) false) true) c
                               (Returned (Some q) 0 (Some err))) as ->.
  { unfold giveUp, leave, release. rewrite Hr, Hrefs, Hfr. cbn_w. rewrite list_lookup_insert_eq by done. cbn.
    rewrite Hfa, list_insert_insert_eq. unfold putGate. cbn_w. rewrite Hgf. done. }
  eapply winv_return; try done.
  - intros p Hne. rewrite Hcr. by rewrite decide_False.
  - cbn [q_refs]. rewrite Hcr, decide_True, Hrefs by done. done.
  - left. done.
Qed.

(** A caller leaves [awaitWrite]. *)
Lemma winv_await w c g q r res n err :
  winv w -> w_callers w !! c = Some g -> g = AwaitTop q \/ g = AwaitSelect q ->
  w_reqs w !! q = Some r -> (forall x, res = Some x -> q_res r = Some x /\ q_refs r <> 1) ->
  (n = len (q_data r) /\ err <> None) \/ q_res r = Some (n, err) ->
  winv (goto (setGate (setReqs w (<[q := mkReq (q_data r) (q_addr r) (q_refs r - 1) res (q_refs r - 1 =? 0)]> (w_reqs w)) false) true) c
          (Returned (Some q) n err)).
Proof.
  intros Hi Hc Hg Hr Hres Hrep.
  assert (Hh : holdsGate g = true) by (by destruct Hg as [->| ->]).
  assert (Hcr : forall p, callerRefs p g = if decide (q = p) then 1 else 0) by (by destruct Hg as [->| ->]).
  assert (Hac : q ∈ w_accepted w) by (pose proof (wi_calls _ Hi c g Hc) as H; by destruct Hg as [->| ->]).
  assert (Hfr : q_freed r = false).
  { apply (refs_pos w q r Hi Hr). rewrite (holder_refs w c g q Hi Hc Hh), Hcr, decide_True by done.
    unfold workerRefs. pose proof (queueRefs_range q (w_queue w)). pose proof (queueRefs_range q (inflight (w_worker w))). lia. }
  eapply winv_return; try done.
  - intros p Hne. rewrite Hcr. by rewrite decide_False.
  - split; [done|]. split; [done|]. cbn [q_freed q_refs q_res]. split; [congruence|].
    intros x Hx. destruct (Hres x Hx) as [? ?]. split; [done|]. apply Z.eqb_neq. lia.
  - cbn [q_refs]. rewrite Hcr, decide_True by done. done.
  - destruct Hrep as [[? ?]|Hq]; [by right; left|]. right; right. by apply (wi_res _ Hi q r).
Qed.

Lemma await_request w c g q :
  winv w -> w_callers w !! c = Some g -> g = AwaitTop q \/ g = AwaitSelect q -> exists r, w_reqs w !! q = Some r /\ q_freed r = false.
Proof.
  intros Hi Hc Hg.
  assert (Hac : q ∈ w_accepted w) by (pose proof (wi_calls _ Hi c g Hc) as H; by destruct Hg as [->| ->]).
  destruct (lookup_lt_is_Some_2 _ _ (wi_bound _ Hi q Hac)) as [r Hr]. exists r. split; [done|].
  apply (refs_pos w q r Hi Hr). rewrite (holder_refs w c g q Hi Hc) by (by destruct Hg as [->| ->]).
  replace (callerRefs q g) with 1 by (destruct Hg as [->| ->]; cbn [callerRefs]; by rewrite decide_True).
  unfold workerRefs. pose proof (queueRefs_range q (w_queue w)). pose proof (queueRefs_range q (inflight (w_worker w))). lia.
Qed.

(** ... without a result, *)
Lemma winv_finishCall w c g q err :
  winv w -> w_callers w !! c = Some g -> g = AwaitTop q \/ g = AwaitSelect q -> err <> None ->
  winv (finishCall w c q (dataLen w q) err).
Proof.
  intros Hi Hc Hg He. destruct (await_request w c g q Hi Hc Hg) as (r & Hr & Hfr).
  destruct (holder_alone w c g Hi Hc) as (Hgf & _ & _); [by destruct Hg as [->| ->]|]. pose proof (wi_fault _ Hi) as Hfa.
  unfold finishCall, release, putGate, dataLen. rewrite Hr, Hfr. cbn_w. rewrite Hfa, Hgf. cbn [orb].
  apply (winv_await w c g q r (if q_refs r - 1 =? 0 then None else q_res r)); try done; [|by left].
  intros x. destruct (q_refs r - 1 =? 0) eqn:E; [done|]. intros Hx. split; [done|]. apply Z.eqb_neq in E. lia.
Qed.

(** ... or with one. *)
Lemma winv_takeResult w c g q n err w' :
  winv w -> w_callers w !! c = Some g -> g = AwaitTop q \/ g = AwaitSelect q -> takeResult w q = Some (n, err, w') ->
  winv (finishCall w' c q n err).
Proof.
  intros Hi Hc Hg Ht. destruct (await_request w c g q Hi Hc Hg) as (r & Hr & Hfr).
  destruct (holder_alone w c g Hi Hc) as (Hgf & _ & _); [by destruct Hg as [->| ->]|]. pose proof (wi_fault _ Hi) as Hfa.
  unfold takeResult in Ht. rewrite Hr, Hfr in Ht. destruct (q_res r) as [[m e]|] eqn:Er; [|done].
  injection Ht as <- <- <-. unfold finishCall, release, putGate. cbn_w.
  rewrite list_lookup_insert_eq by (by eapply lookup_lt_Some). cbn_w. cbn [q_data q_addr q_refs q_res q_freed].
  rewrite list_insert_insert_eq, Hfa, Hgf. cbn [orb].
  replace (if q_refs r - 1 =? 0 then None else None) with (@None (Z * option error)) by (by destruct (q_refs r - 1 =? 0)).
  apply (winv_await w c g q r None); try done. by right.
Qed.

(** ** The worker *)

Definition answered (r : writeRequest) (res : Z * option error) : writeRequest :=
  mkReq (q_data r) (q_addr r) (q_refs r - 1) (if q_refs r - 1 =? 0 then None else Some res) (q_refs r - 1 =? 0).

Lemma answer_eq w q r res :
  w_reqs w !! q = Some r -> q_freed r = false -> q_res r = None -> w_fault w = false ->
  answer w q res = setReqs w (<[q := answered r res]> (w_reqs w)) false.
Proof.
  intros Hr Hf Hn Hfa. unfold answer, post. rewrite Hr, Hf, Hn, Hfa. unfold release. cbn_w.
  rewrite list_lookup_insert_eq by (by eapply lookup_lt_Some). cbn [q_data q_addr q_refs q_res q_freed].
  rewrite list_insert_insert_eq. cbn. done.
Qed.

(** A request leaves the worker with a result. *)
Lemma winv_answer w w' q r n err :
  winv w -> workerRefs q w <> 0 -> w_reqs w !! q = Some r ->
  w_reqs w' = <[q := answered r (n, err)]> (w_reqs w) -> w_fault w' = false ->
  w_callers w' = w_callers w -> w_accepted w' = w_accepted w -> w_fin w' = w_fin w -> w_qclosed w' = w_qclosed w ->
  w_gate w' = w_gate w -> w_stopping w' = w_stopping w -> w_exited w' = w_exited w -> w_finished w' = w_finished w ->
  draining (w_worker w') = draining (w_worker w) -> w_worker w' <> WExited ->
  (running (w_worker w') = false -> w_worker w' = WExit \/ w_worker w' = w_worker w) ->
  (forall p, workerRefs p w' = workerRefs p w - if decide (p = q) then 1 else 0) ->
  (w_written w' = w_written w /\ n = 0 /\ err <> None) \/ (w_written w' = w_written w ++ [(q, n)] /\ (err = None -> n = len (q_data r))) ->
  ordered w' -> winv w'.
Proof.
  intros Hi Hh Hr Ereq Efa Eca Eac Efi Eqc Ega Est Eex Efn Edr Hnx Hrun Hwr Hres Hord.
  destruct (worker_holds w q Hi Hh) as (Hac & Hnw & H1).
  assert (Hl : (q < length (w_reqs w))%nat) by (by eapply lookup_lt_Some).
  assert (Hself : outcome w' q (len (q_data r)) n err).
  { destruct Hres as [(E & -> & He)|(E & He)].
    - right. rewrite Eac, E, Hwr, decide_True, H1 by done. done.
    - left. rewrite E. split; [set_solver|done]. }
  assert (Hsub : forall p m, (p, m) ∈ w_written w -> (p, m) ∈ w_written w').
  { intros p m Hm. destruct Hres as [(-> & _)|(-> & _)]; set_solver. }
  assert (Hout : forall p, p ∈ w_accepted w -> p ∉ (w_written w).*1 -> workerRefs p w = 0 -> p ∉ (w_written w').*1 /\ workerRefs p w' = 0).
  { intros p Hp Hpw Hz. assert (p <> q) as Hne by congruence. rewrite Hwr, decide_False by done. split; [|lia].
    destruct Hres as [(-> & _)|(-> & _)]; [done|]. rewrite fmap_app. set_solver. }
  assert (Hmono : forall p s m e, outcome w p s m e -> outcome w' p s m e).
  { intros p s m e [[H2 H3]|(H2 & H3 & H4 & H5)]; [left; auto|]. right. rewrite Eac. destruct (Hout p H2 H3 H4). done. }
  assert (Hw0 : w_worker w <> WExited).
  { intros E. apply Hh. unfold workerRefs. rewrite (wi_exit _ Hi E), E. done. }
  assert (Hnf : w_finished w = false).
  { destruct (w_finished w) eqn:Efin; [|done]. destruct (wi_finished _ Hi Efin) as (_ & _ & E). rewrite E in Hac. done. }
  destruct Hi. split; rewrite ?Efa, ?Eca, ?Eac, ?Efi, ?Eqc, ?Ega, ?Est, ?Eex, ?Efn, ?Edr, ?Hnf; try done.
  - intros p s. rewrite Ereq, Hwr. destruct (decide (p = q)) as [->|Hne].
    + rewrite list_lookup_insert_eq by done. intros [= <-]. destruct (wi_refs0 q r Hr) as [E _]. cbn [answered q_refs q_freed].
      split; [lia|done].
    + rewrite list_lookup_insert_ne by done. intros Hp. destruct (wi_refs0 p s Hp) as [E ->]. split; [lia|done].
  - intros p s m e. rewrite Ereq. destruct (decide (p = q)) as [->|Hne].
    + rewrite list_lookup_insert_eq by done. intros [= <-]. cbn [answered q_res q_freed q_data].
      destruct (q_refs r - 1 =? 0); [done|]. intros [= <- <-]. done.
    + rewrite list_lookup_insert_ne by done. intros Hp Hs. destruct (wi_res0 p s m e Hp Hs). auto.
  - intros p Hp. rewrite Ereq, length_insert. auto.
  - intros Hr1 Hr2. destruct (Hrun Hr1) as [?|E]; [done|]. apply wi_stop0; congruence.
  - rewrite wi_exited0. done.
  - intros d g Hd. eapply stable_mono; [by apply (wi_calls0 d)| |by rewrite Eac].
    intros p m e Hrep. eapply reported_mono; [exact Hrep| |by rewrite Eac|by rewrite Eac|auto|auto].
    intros s Hs. rewrite Ereq. destruct (decide (p = q)) as [->|Hne]; [|rewrite list_lookup_insert_ne by done; eauto].
    exists (answered r (n, err)). rewrite list_lookup_insert_eq by done. replace s with r by congruence. split; [done|]. split; [done|].
    intros Hfr. destruct (wi_refs0 q r Hr) as [E Hfr']. rewrite Hfr in Hfr'. symmetry in Hfr'. apply Z.eqb_eq in Hfr'.
    pose proof (sumBy_nonneg (callerRefs q) (w_callers w) (callerRefs_nonneg q)). lia.
  - intros d g Hd. specialize (wi_enqueue0 d g Hd). destruct g; cbn [enqueueOk] in *; try done; rewrite Ereq, length_insert, Eac, Efi; naive_solver.
Qed.

(** The worker changes its stage without touching a request. *)
Lemma winv_stage w w' :
  winv w ->
  w_reqs w' = w_reqs w -> w_fault w' = false ->
  w_callers w' = w_callers w -> w_accepted w' = w_accepted w -> w_written w' = w_written w -> w_fin w' = w_fin w -> w_qclosed w' = w_qclosed w ->
  (forall p, workerRefs p w' = workerRefs p w) -> ordered w' ->
  Z.b2z (w_gate w') + Z.b2z (draining (w_worker w')) = Z.b2z (w_gate w) + Z.b2z (draining (w_worker w)) ->
  (running (w_worker w') = false -> w_worker w' <> WExit -> w_stopping w' = true) ->
  (w_worker w' = WExited -> w_queue w' = None /\ (w_worker w = WDrain \/ w_worker w = WExited)) ->
  (w_exited w' = true <-> w_worker w' = WExited) ->
  (w_finished w' = true -> w_qclosed w' = true /\ running (w_worker w') = false /\ w_accepted w' = (w_written w').*1) ->
  winv w'.
Proof.
  intros Hi Ereq Efa Eca Eac Ewr Efi Eqc Hwr Hord Hg Hst Hex Hexd Hfin.
  assert (Hout : forall p s m e, outcome w p s m e -> outcome w' p s m e).
  { intros p s m e. unfold outcome. by rewrite Hwr, Ewr, Eac. }
  assert (Hen : forall d g, w_callers w !! d = Some g -> enqueueOk w' g).
  { intros d g Hd. pose proof (wi_enqueue _ Hi d g Hd) as He.
    destruct g; cbn [enqueueOk] in *; try done; rewrite Ereq, Eac, Efi; [naive_solver|].
    destruct He as (H1 & H2 & H3 & H4). split_and!; try done. intros E. destruct (Hex E) as [_ [Hd'|Hd']]; [|done].
    pose proof (draining_alone w d _ Hi Hd' Hd). done. }
  destruct Hi. split; rewrite ?Efa, ?Eca, ?Eac, ?Efi, ?Eqc, ?Ereq; try done; [lia| | |naive_solver| |].
  - intros p r. rewrite Hwr. apply wi_refs0.
  - intros p r m e Hp Hr. destruct (wi_res0 p r m e Hp Hr). auto.
  - intros d g Hd. eapply stable_mono; [by apply (wi_calls0 d)| |by rewrite Eac].
    intros p m e (r & Hr & Hrep). exists r. rewrite Ereq, Eac. split; [done|]. destruct Hrep as [?|[?|?]]; auto.
  - intros Hf. destruct (Hfin Hf) as (H1 & H2 & H3). rewrite Eqc in H1. rewrite Eac in H3. done.
Qed.

(** ** Every step *)

Lemma ordered_stage w w' :
  ordered w -> w_accepted w' = w_accepted w -> w_written w' = w_written w -> w_queue w' = w_queue w ->
  inflight (w_worker w') = inflight (w_worker w) -> (running (w_worker w') = true -> running (w_worker w) = true) -> ordered w'.
Proof. intros (dr & E & Hd) Ha Hw Hq Hf Hr. exists dr. rewrite Ha, Hw, Hq, Hf. auto. Qed.

Lemma winv_startWorker w : winv w -> winv (startWorker w).
Proof.
  intros Hi. unfold startWorker. destruct (w_worker w) eqn:Ew; try done.
  apply (winv_stage w); try done.
  - apply (wi_fault _ Hi).
  - intros p. unfold workerRefs. by rewrite Ew.
  - eapply ordered_stage; [apply (wi_order _ Hi)|..]; try done; by rewrite Ew.
  - cbn_w. by rewrite Ew.
  - cbn_w. rewrite (wi_exited _ Hi). split; congruence.
  - cbn_w. intros E. destruct (wi_finished _ Hi E) as (_ & H & _). by rewrite Ew in H.
Qed.

(** The worker hands out the result of a request it held. *)
Lemma queued_refs w q : winv w -> w_queue w = Some q -> workerRefs q w <> 0 /\ inflight (w_worker w) <> Some q.
Proof.
  intros Hi Hq. assert (Hne : workerRefs q w <> 0).
  { unfold workerRefs. rewrite Hq. pose proof (queueRefs_range q (inflight (w_worker w))). unfold queueRefs at 1.
    rewrite decide_True by done. lia. }
  split; [done|]. intros E. destruct (worker_holds w q Hi Hne) as (_ & _ & H). unfold workerRefs in H. rewrite Hq, E in H.
  unfold queueRefs in H. rewrite decide_True in H by done. lia.
Qed.

Lemma queueRefs_None p : queueRefs p None = 0.
Proof. unfold queueRefs. by rewrite decide_False. Qed.

Lemma queueRefs_Some p q : queueRefs p (Some q) = if decide (p = q) then 1 else 0.
Proof. unfold queueRefs. destruct (decide (p = q)) as [->|Hne]; [by rewrite decide_True|rewrite decide_False; [done|congruence]]. Qed.

(** ... from the queue, when it stops or drains, *)
Lemma winv_discard w q g e :
  winv w -> w_queue w = Some q -> inflight (w_worker w) = None -> g = WExit /\ draining (w_worker w) = false \/ g = w_worker w /\ running g = false ->
  winv (setWorker (answer (setQueue w None (w_accepted w)) q (0, Some e)) g).
Proof.
  intros Hi Hq Hin Hg. destruct (queued_refs w q Hi Hq) as [Hh _]. destruct (worker_request w q Hi Hh) as (r & Hr & Hf & Hn & _).
  rewrite (answer_eq _ q r) by (try done; apply (wi_fault _ Hi)).
  assert (Hig : inflight g = None) by (by destruct Hg as [[-> _]|[-> _]]).
  eapply (winv_answer w _ q r); try done; cbn_w.
  - destruct Hg as [[-> E]|[-> _]]; [by rewrite E|done].
  - intros ->. destruct Hg as [[? _]|[Hg _]]; [done|]. rewrite <- Hg in *. rewrite (wi_exit _ Hi) in Hq by done. done.
  - intros _. destruct Hg as [[-> _]|[-> _]]; auto.
  - intros p. unfold workerRefs. cbn_w. rewrite Hq, Hin, Hig, queueRefs_None, queueRefs_Some. lia.
  - by left.
  - destruct (wi_order _ Hi) as (dr & E & Hd). exists (dr ++ [q]). cbn_w. rewrite E, Hq, Hin, Hig. split; [by rewrite app_nil_r|].
    destruct Hg as [[-> _]|[_ Hg]]; [done|]. by rewrite Hg.
Qed.

(** ... and from its call of [write]. *)
Lemma winv_written w q r n err g e :
  winv w -> w_worker w = WWriting q -> w_reqs w !! q = Some r -> (err = None -> n = len (q_data r)) -> g = WSelect \/ g = WExit ->
  winv (setWorker (answer (setErr (setWritten w (w_written w ++ [(q, n)])) e (w_finished w)) q (n, err)) g).
Proof.
  intros Hi Hw Hr He Hg. assert (Hh : workerRefs q w <> 0).
  { unfold workerRefs. rewrite Hw. cbn [inflight]. rewrite queueRefs_Some, decide_True by done.
    pose proof (queueRefs_range q (w_queue w)). lia. }
  destruct (worker_request w q Hi Hh) as (r0 & Hr0 & Hf & Hn & _). replace r0 with r in * by congruence.
  rewrite (answer_eq _ q r) by (try done; apply (wi_fault _ Hi)).
  assert (inflight g = None /\ draining g = false /\ g <> WExited) as (Hig & Hdg & Hxg) by (by destruct Hg as [->| ->]).
  eapply (winv_answer w _ q r); try done; cbn_w.
  - by rewrite Hw.
  - destruct Hg as [->| ->]; [done|auto].
  - intros p. unfold workerRefs. cbn_w. rewrite Hw, Hig, queueRefs_None. cbn [inflight]. rewrite queueRefs_Some. lia.
  - right. split; [done|exact He].
  - destruct (wi_order _ Hi) as (dr & E & Hd). rewrite Hw in E, Hd. exists []. cbn_w. rewrite E, Hig, Hd by done.
    rewrite fmap_app, <- app_assoc. done.
Qed.

(** The worker takes a request from the queue to hand it to [write]. *)
Lemma winv_take w q :
  winv w -> w_worker w = WSelect -> w_queue w = Some q -> winv (setWorker (setQueue w None (w_accepted w)) (WWriting q)).
Proof.
  intros Hi Hw Hq. apply (winv_stage w); try done; cbn_w.
  - apply (wi_fault _ Hi).
  - intros p. unfold workerRefs. cbn_w. rewrite Hw, Hq. cbn [inflight]. rewrite queueRefs_None. lia.
  - destruct (wi_order _ Hi) as (dr & E & Hd). rewrite Hw, Hq in *. exists []. cbn_w. rewrite E, Hd by done.
    split; [|done]. cbn [inflight option_list]. by rewrite app_nil_r.
  - by rewrite Hw.
  - rewrite (wi_exited _ Hi). split; congruence.
  - intros E. destruct (wi_finished _ Hi E) as (_ & H & _). by rewrite Hw in H.
Qed.

(** The worker leaves its loop, with the error it found or [finish]'s. *)
Lemma winv_quit w e fin :
  winv w -> w_worker w = WSelect -> w_finished w = false -> (fin = true -> w_qclosed w = true /\ w_queue w = None) ->
  winv (setWorker (setErr w e fin) WExit).
Proof.
  intros Hi Hw Hnf Hf. apply (winv_stage w); try done; cbn_w.
  - apply (wi_fault _ Hi).
  - intros p. unfold workerRefs. cbn_w. by rewrite Hw.
  - eapply ordered_stage; [apply (wi_order _ Hi)|..]; try done; by rewrite Hw.
  - by rewrite Hw.
  - rewrite (wi_exited _ Hi). split; congruence.
  - intros E. destruct (Hf E) as [Hc Hq]. split; [done|]. split; [done|].
    destruct (wi_order _ Hi) as (dr & E' & Hd). rewrite E', Hw, Hq, Hd by (by rewrite Hw). cbn. by rewrite app_nil_r.
Qed.

Lemma setErr_same w : setErr w (w_err w) (w_finished w) = w.
Proof. by destruct w. Qed.

Lemma running_unfinished w : winv w -> running (w_worker w) = true -> w_finished w = false.
Proof. intros Hi Hr. destruct (w_finished w) eqn:E; [|done]. destruct (wi_finished _ Hi E) as (_ & ? & _). congruence. Qed.

(** [drainOnExit]: close(stopping), take the gate, give it back. *)
Lemma winv_shutdown w g gate s x :
  winv w -> inflight (w_worker w) = None -> running (w_worker w) = false -> running g = false -> inflight g = None -> g <> WExit -> s = true ->
  Z.b2z gate + Z.b2z (draining g) = Z.b2z (w_gate w) + Z.b2z (draining (w_worker w)) ->
  (g = WExited -> w_queue w = None /\ w_worker w = WDrain) -> (x = true <-> g = WExited) ->
  winv (setWorker (setSignals (setGate w gate) (w_done w) s x) g).
Proof.
  intros Hi H1 H2 H3 H4 H5 -> H6 H7 H8. apply (winv_stage w); try done; cbn_w.
  - apply (wi_fault _ Hi).
  - intros p. unfold workerRefs. cbn_w. by rewrite H1, H4.
  - eapply ordered_stage; [apply (wi_order _ Hi)|..]; try done; cbn_w; congruence.
  - naive_solver.
  - intros E. destruct (wi_finished _ Hi E) as (? & _ & ?). auto.
Qed.

Lemma setWorker_same w : setWorker w (w_worker w) = w.
Proof. by destruct w. Qed.

Lemma setSignals_same w : setSignals w (w_done w) (w_stopping w) (w_exited w) = w.
Proof. by destruct w. Qed.

Lemma not_exited w : winv w -> w_worker w <> WExited -> w_exited w = false.
Proof. intros Hi Hw. destruct (w_exited w) eqn:E; [|done]. by apply (wi_exited _ Hi) in E. Qed.

Lemma winv_workerStep hasFinish w io : winv w -> winv (workerStep hasFinish w io).
Proof.
  intros Hi. unfold workerStep, drainOnExit. destruct (w_worker w) as [| |q| | | |] eqn:Ew; try done.
  - pose proof (running_unfinished w Hi) as Hnf. rewrite Ew in Hnf. specialize (Hnf eq_refl).
    destruct (io_pick io).
    { destruct (w_done w); [|done]. rewrite <- (setErr_same w). apply winv_quit; try done. congruence. }
    destruct (w_queue w) as [q|] eqn:Eq.
    + cbn_w. destruct (w_done w); [|by apply winv_take]. apply winv_discard; try done; [by rewrite Ew|]. left. by rewrite Ew.
    + destruct (w_qclosed w) eqn:Ec; [|done]. destruct hasFinish; [by apply winv_quit|].
      rewrite <- (setErr_same w). apply winv_quit; try done.
  - assert (Hh : workerRefs q w <> 0).
    { unfold workerRefs. rewrite Ew. cbn [inflight]. rewrite queueRefs_Some, decide_True by done.
      pose proof (queueRefs_range q (w_queue w)). lia. }
    destruct (worker_request w q Hi Hh) as (r & Hr & Hf & Hn & _). rewrite Hr, Hf, (wi_fault _ Hi). cbn [orb].
    replace (setReqs w (w_reqs w) false) with w by (pose proof (wi_fault _ Hi); destruct w; cbn in *; by subst).
    assert (Hend : forall err g e, (err = None -> io_n io = len (q_data r)) -> g = WSelect \/ g = WExit ->
      winv (setWorker (answer (setErr (setWritten w (w_written w ++ [(q, io_n io)])) e (w_finished w)) q (io_n io, err)) g))
      by (intros; by apply (winv_written w q r)).
    rewrite <- (setErr_same (setWritten w _)). destruct (io_err io) as [e|].
    + unfold setError. cbn_w. by apply Hend; auto.
    + destruct (io_n io =? len (q_data r)) eqn:En; [apply Z.eqb_eq in En; apply Hend; auto|].
      unfold setError. cbn_w. by apply Hend; auto.
  - rewrite <- (setGate_same w) at 1. apply winv_shutdown; try done; rewrite ?Ew; try done.
    rewrite not_exited; [done|done|congruence].
  - destruct (w_gate w) eqn:Eg; [|done]. rewrite <- (setSignals_same (setGate w false)). cbn_w.
    apply winv_shutdown; try done; rewrite ?Ew, ?Eg; try done.
    + apply (wi_stop _ Hi); by rewrite Ew.
    + rewrite not_exited; [done|done|congruence].
  - destruct (w_queue w) as [q|] eqn:Eq.
    + rewrite <- (setWorker_same (answer _ _ _)). apply winv_discard; try done; [by rewrite Ew|]. right.
      unfold answer, release, post. cbn_w. destruct (w_reqs w !! q); cbn_w; repeat case_match; cbn_w; rewrite ?Ew; done.
    + assert (w_gate w = false) as Hg.
      { pose proof (wi_gate _ Hi) as E. rewrite Ew in E. pose proof (countBy_nonneg holdsGate (w_callers w)).
        destruct (w_gate w); [cbn in E; lia|done]. }
      unfold putGate. rewrite Hg, (wi_fault _ Hi). cbn [orb].
      replace (setReqs (setGate w true) (w_reqs w) false) with (setGate w true) by (pose proof (wi_fault _ Hi); destruct w; cbn in *; by subst).
      cbn_w. apply winv_shutdown; try done; rewrite ?Ew, ?Hg; try done. apply (wi_stop _ Hi); by rewrite Ew.
Qed.

Lemma winv_callerStep w c now pick : winv w -> winv (callerStep w c now pick).
Proof.
  intros Hi. unfold_caller. destruct (w_callers w !! c) as [g|] eqn:Hc; [|done].
  destruct g as [k|k|[p addr|]|q|q|q|q| | |].
  - pose proof (winv_startWorker w Hi) as Hs.
    assert (Hc' : w_callers (startWorker w) !! c = Some (AcquireTop k)) by (unfold startWorker; by destruct (w_worker w)).
    destruct (expired (startWorker w) now); by eapply winv_goto.
  - destruct pick as [|[|[|pick]]].
    + destruct (w_done w); [by eapply winv_goto|done].
    + destruct (w_stopping w); [by eapply winv_goto|done].
    + destruct (w_gate w) eqn:Eg; [|done]. eapply winv_move; try done. by rewrite Eg.
    + by eapply winv_goto.
  - destruct (w_err w); [by eapply winv_leave|]. destruct (w_fin w) eqn:Ef; [by eapply winv_leave|]. by apply winv_newRequest.
  - assert (Hs : winv (if w_fin w then w else setFin w)) by (destruct (w_fin w) eqn:Ef; [done|by eapply winv_setFin]).
    assert (Hc' : w_callers (if w_fin w then w else setFin w) !! c = Some (Gated HalfClose)) by (by destruct (w_fin w)).
    destruct (holder_alone _ _ _ Hs Hc' eq_refl) as (Hg & _).
    rewrite (putGate_held _ _ _ Hs Hc' eq_refl). eapply winv_move; try done. by rewrite Hg.
  - assert (Hgu : forall err, winv (giveUp w c q err)) by (intros; eapply winv_giveUp; eauto).
    destruct (w_done w && _); [done|]. destruct (w_stopping w) eqn:Es; [done|]. destruct (expired w now); [done|].
    pose proof (wi_enqueue _ Hi c _ Hc) as (H1 & H2 & H3). eapply winv_goto; try done. cbn [enqueueOk]. split_and!; try done.
    intros E. pose proof (wi_stop _ Hi) as Hst. rewrite E in Hst. rewrite Hst in Es; done.
  - assert (Hgu : forall err, winv (giveUp w c q err)) by (intros; eapply winv_giveUp; eauto).
    pose proof (wi_enqueue _ Hi c _ Hc) as (H1 & H2 & H3 & H4).
    destruct pick as [|[|[|pick]]].
    + by destruct (w_done w).
    + by destruct (w_stopping w).
    + rewrite <- (wi_fin _ Hi), H3. destruct (w_queue w) eqn:Eq; [done|]. apply winv_accept; try done. by rewrite <- (wi_fin _ Hi).
    + by eapply winv_goto.
  - destruct (takeResult w q) as [[[n err] w']|] eqn:Et; [eapply winv_takeResult; eauto|].
    destruct (expired w now); [by eapply winv_finishCall; eauto|].
    eapply winv_goto; try done. exact (wi_calls _ Hi c _ Hc).
  - destruct pick as [|[|[|pick]]].
    + destruct (takeResult w q) as [[[n err] w']|] eqn:Et; [eapply winv_takeResult; eauto|done].
    + destruct (w_done w); [by eapply winv_finishCall; eauto|done].
    + destruct (w_stopping w); [|done].
      destruct (takeResult w q) as [[[n err] w']|] eqn:Et; [eapply winv_takeResult; eauto|by eapply winv_finishCall; eauto].
    + eapply winv_goto; try done. exact (wi_calls _ Hi c _ Hc).
  - destruct (w_exited w); [by eapply winv_goto|]. destruct (expired w now); by eapply winv_goto.
  - destruct pick as [|[|pick]].
    + destruct (w_exited w); [by eapply winv_goto|done].
    + destruct (w_done w); [by eapply winv_goto|done].
    + by eapply winv_goto.
  - done.
Qed.

(** A call begins. *)
Lemma winv_call w g :
  winv w -> holdsGate g = false -> (forall q, callerRefs q g = 0) -> stableOk w g -> enqueueOk w g ->
  winv (setCallers w (w_callers w ++ [g])).
Proof.
  intros Hi Hh Hr Hs He. destruct Hi. split; cbn_w; try done.
  - rewrite countBy_app, countBy_one, Hh. lia.
  - intros q r Hq. rewrite sumBy_app. replace (sumBy (callerRefs q) [g]) with 0 by (unfold sumBy; cbn [foldr]; rewrite Hr; lia).
    rewrite Z.add_0_r. by apply wi_refs0.
  - intros c h [Hc|[_ Hc]]%lookup_app_Some; [by apply (wi_calls0 c)|]. apply list_lookup_singleton_Some in Hc as [_ <-]. done.
  - intros c h [Hc|[_ Hc]]%lookup_app_Some; [by apply (wi_enqueue0 c)|]. apply list_lookup_singleton_Some in Hc as [_ <-]. done.
Qed.

Lemma winv_step hasFinish w ev : winv w -> winv (step hasFinish w ev).
Proof.
  intros Hi. destruct ev as [p addr| |c now pick|io|t|]; cbn [step].
  - destruct (_ <? _); by apply winv_call.
  - destruct (w_fin w); by apply winv_call.
  - by apply winv_callerStep.
  - by apply winv_workerStep.
  - destruct Hi. by split.
  - apply winv_startWorker. destruct Hi. by split.
Qed.

Lemma winv_init : winv NewWriter.
Proof.
  split; cbn; try done; try (intros; by rewrite lookup_nil in *).
  - constructor.
  - set_solver.
  - by exists [].
Qed.

Lemma winv_run hasFinish evs : winv (run hasFinish NewWriter evs).
Proof.
  unfold run. generalize winv_init. generalize NewWriter. induction evs as [|ev evs IH]; intros w Hw; [done|].
  cbn [foldl]. by apply IH, winv_step.
Qed.

(** ** A worker that stops without an error has written everything *)

Record clean (w : Writer) : Prop := {
  cl_all : running (w_worker w) = false -> w_err w = None -> w_done w = false -> w_qclosed w = true /\ w_accepted w = (w_written w).*1;
  cl_whole : w_err w = None -> forall q n, (q, n) ∈ w_written w -> exists r, w_reqs w !! q = Some r /\ n = len (q_data r);
  cl_new : w_done w = true -> w_worker w <> WNew;
}.

(** Steps that leave the order and the lengths alone. *)
Lemma clean_mono w w' :
  clean w -> w_accepted w' = w_accepted w -> w_written w' = w_written w ->
  (w_qclosed w = true -> w_qclosed w' = true) ->
  (w_err w' = None -> w_err w = None) -> (w_done w' = false -> w_done w = false) ->
  (w_done w' = true -> w_worker w' <> WNew) ->
  (running (w_worker w') = false -> w_err w' = None -> w_done w' = false -> running (w_worker w) = false) ->
  (forall q r, w_reqs w !! q = Some r -> exists r', w_reqs w' !! q = Some r' /\ q_data r' = q_data r) -> clean w'.
Proof.
  intros [C1 C2 C3] Ha Hw Hq He Hd Hn Hr Hreq. split; [|rewrite Hw|done].
  - intros H1 H2 H3. rewrite Ha, Hw. destruct C1; auto.
  - intros H q n Hin. destruct (C2 (He H) q n Hin) as (r & Hr' & ->). destruct (Hreq q r Hr') as (r' & ? & <-). eauto.
Qed.

Lemma data_insert (l : list writeRequest) i r' :
  (forall r, l !! i = Some r -> q_data r' = q_data r) ->
  forall q r, l !! q = Some r -> exists s, <[i := r']> l !! q = Some s /\ q_data s = q_data r.
Proof.
  intros H q r Hq. destruct (decide (q = i)) as [->|Hne]; [|rewrite list_lookup_insert_ne by done; eauto].
  rewrite list_lookup_insert_eq by (by eapply lookup_lt_Some). eauto.
Qed.

Lemma data_release w q p r :
  w_reqs w !! p = Some r -> exists s, w_reqs (release w q) !! p = Some s /\ q_data s = q_data r.
Proof.
  intros Hp. unfold release. destruct (w_reqs w !! q) as [r0|] eqn:E; cbn_w; [|eauto].
  eapply data_insert; [|exact Hp]. intros r1 H1. by replace r1 with r0 by congruence.
Qed.

Lemma data_post w q res p r :
  w_reqs w !! p = Some r -> exists s, w_reqs (post w q res) !! p = Some s /\ q_data s = q_data r.
Proof.
  intros Hp. unfold post. destruct (w_reqs w !! q) as [r0|] eqn:E; cbn_w; [|eauto].
  eapply data_insert; [|exact Hp]. intros r1 H1. by replace r1 with r0 by congruence.
Qed.

Lemma data_answer w q res p r :
  w_reqs w !! p = Some r -> exists s, w_reqs (answer w q res) !! p = Some s /\ q_data s = q_data r.
Proof.
  intros Hp. destruct (data_post w q res p r Hp) as (s & Hs & <-). by apply data_release.
Qed.

(** What the requests' operations leave alone. *)
Lemma release_eq w q : exists l f, release w q = setReqs w l f.
Proof. unfold release. case_match; eauto. Qed.

Lemma answer_form w q res : exists l f, answer w q res = setReqs w l f.
Proof.
  unfold answer. destruct (release_eq (post w q res) q) as (l & f & ->). exists l, f. unfold post. by case_match.
Qed.

Lemma takeResult_eq w q n err w' :
  takeResult w q = Some (n, err, w') ->
  (exists l f, w' = setReqs w l f) /\ forall p r, w_reqs w !! p = Some r -> exists s, w_reqs w' !! p = Some s /\ q_data s = q_data r.
Proof.
  unfold takeResult. intros H. destruct (w_reqs w !! q) as [r0|] eqn:E; [|done]. destruct (q_res r0) as [[m e]|]; [|done].
  injection H as <- <- <-. split; [eauto|]. cbn_w. apply data_insert. intros r1 H1. by replace r1 with r0 by congruence.
Qed.

(** A caller's step changes none of it; one that is accepted is not in a
    closed queue. *)
Lemma clean_callerStep w c now pick : winv w -> clean w -> clean (callerStep w c now pick).
Proof.
  intros Hi Hcl.
  assert (Hsame : forall h w', w_accepted w' = w_accepted w -> w_written w' = w_written w -> (w_qclosed w = true -> w_qclosed w' = true) ->
    w_err w' = w_err w -> w_done w' = w_done w -> w_worker w' = w_worker w ->
    (forall q r, w_reqs w !! q = Some r -> exists r', w_reqs w' !! q = Some r' /\ q_data r' = q_data r) -> clean (goto w' c h)).
  { intros h w' H1 H2 H3 H4 H5 H6 H7. apply (clean_mono w); try done; cbn_w; rewrite ?H4, ?H5, ?H6; try done. apply (cl_new _ Hcl). }
  assert (Hgoto : forall h, clean (goto w c h)) by (intros h; apply Hsame; eauto).
  assert (Hgive : forall q err, clean (giveUp w c q err)).
  { intros q err. unfold giveUp, leave, putGate. destruct (release_eq w q) as (l1 & f1 & E1).
    destruct (release_eq (release w q) q) as (l2 & f2 & E2).
    apply Hsame; cbn_w; try (rewrite E2, E1; done). intros p r Hp.
    destruct (data_release w q p r Hp) as (s & Hs & <-). by apply data_release. }
  assert (Hfin : forall w0 q n err, (exists l f, w0 = setReqs w l f) ->
    (forall p r, w_reqs w !! p = Some r -> exists s, w_reqs w0 !! p = Some s /\ q_data s = q_data r) -> clean (finishCall w0 c q n err)).
  { intros w0 q n err (l & f & ->) Hd. unfold finishCall, putGate. destruct (release_eq (setReqs w l f) q) as (l1 & f1 & E1).
    apply Hsame; cbn_w; try (rewrite E1; done). intros p r Hp.
    destruct (Hd p r Hp) as (s & Hs & <-). by apply data_release. }
  assert (Hself : exists l f, w = setReqs w l f) by (exists (w_reqs w), (w_fault w); by destruct w).
  assert (Htake : forall q n err w', takeResult w q = Some (n, err, w') -> clean (finishCall w' c q n err)).
  { intros q n err w' Et. destruct (takeResult_eq w q n err w' Et). by apply Hfin. }
  unfold_caller. destruct (w_callers w !! c) as [g|] eqn:Hc; [|done].
  destruct g as [k|k|[p addr|]|q|q|q|q| | |].
  - assert (Hs : forall h, clean (goto (startWorker w) c h)).
    { intros h. unfold startWorker. destruct (w_worker w) eqn:Ew; auto. apply (clean_mono w); eauto; done. }
    destruct (expired _ now); apply Hs.
  - destruct pick as [|[|[|pick]]]; repeat case_match; auto. apply Hsame; eauto.
  - unfold leave. destruct (w_err w) eqn:Ee; [apply Hsame; eauto|]. destruct (w_fin w); [apply Hsame; eauto|].
    apply Hsame; cbn_w; try done. intros q r Hq. exists r. by rewrite lookup_app_l by (by eapply lookup_lt_Some).
  - unfold putGate. destruct (w_fin w); apply Hsame; cbn_w; eauto; done.
  - repeat case_match; auto.
  - destruct pick as [|[|[|pick]]]; [by case_match|by case_match| |done].
    pose proof (wi_enqueue _ Hi c _ Hc) as (H1 & H2 & H3 & H4). rewrite <- (wi_fin _ Hi), H3. destruct (w_queue w); [done|].
    destruct Hcl as [C1 C2 C3]. split; cbn_w; try done. intros Hr He Hd. destruct (C1 Hr He Hd) as [Hq _].
    rewrite <- (wi_fin _ Hi) in Hq. congruence.
  - repeat case_match; simplify_eq; eauto.
  - destruct pick as [|[|[|pick]]]; repeat case_match; simplify_eq; eauto.
  - repeat case_match; auto.
  - destruct pick as [|[|pick]]; repeat case_match; auto.
  - done.
Qed.

(** [write] has returned: a count other than the length leaves an error. *)
Lemma clean_written w q r n res e fin g :
  clean w -> w_worker w = WWriting q -> w_reqs w !! q = Some r -> g <> WNew ->
  (e = None -> w_err w = None /\ g = WSelect /\ n = len (q_data r)) ->
  clean (setWorker (answer (setErr (setWritten w (w_written w ++ [(q, n)])) e fin) q res) g).
Proof.
  intros [C1 C2 C3] Hw Hr Hg He. set (w1 := setErr (setWritten w (w_written w ++ [(q, n)])) e fin).
  destruct (answer_form w1 q res) as (l & f & E). pose proof (data_answer w1 q res) as Hd. rewrite E in *.
  split; cbn_w; subst w1; cbn_w; [|intros -> p m Hin|done].
  - intros H1 -> _. destruct (He eq_refl) as (_ & -> & _). done.
  - destruct (He eq_refl) as (He' & _ & Hn). cbn_w. apply elem_of_app in Hin as [Hin|Hin].
    + destruct (C2 He' p m Hin) as (s & Hs & ->). destruct (Hd p s Hs) as (s' & ? & <-). eauto.
    + apply list_elem_of_singleton in Hin as [= -> ->]. destruct (Hd q r Hr) as (s' & Hs' & Es). exists s'. by rewrite Es.
Qed.

Lemma clean_workerStep hasFinish w io : winv w -> clean w -> clean (workerStep hasFinish w io).
Proof.
  intros Hi Hcl. unfold workerStep, drainOnExit. destruct (w_worker w) as [| |q| | | |] eqn:Ew; try done.
  - destruct (io_pick io).
    { destruct (w_done w) eqn:Ed; [|done]. apply (clean_mono w); cbn_w; try done; [congruence|eauto]. }
    destruct (w_queue w) as [q|] eqn:Eq.
    + cbn_w. destruct (w_done w) eqn:Ed; [|apply (clean_mono w); eauto; done].
      destruct (answer_form (setQueue w None (w_accepted w)) q (0, Some ErrNetClosed)) as (l & f & E).
      apply (clean_mono w); [done|..]; try (rewrite E; cbn_w; congruence).
      intros p r Hp. by apply (data_answer (setQueue w None (w_accepted w)) q).
    + destruct (w_qclosed w) eqn:Ec; [|done].
      assert (Hall : w_accepted w = (w_written w).*1).
      { destruct (wi_order _ Hi) as (dr & E & Hd). rewrite E, Ew, Eq, Hd by (by rewrite Ew). cbn. by rewrite app_nil_r. }
      destruct Hcl as [C1 C2 C3]. destruct hasFinish; split; cbn_w; try done. destruct (w_err w); [done|]. auto.
  - destruct (w_reqs w !! q) as [r|] eqn:Hr.
    2: { apply (clean_mono w); cbn_w; try done; [apply (cl_new _ Hcl)|eauto]. }
    assert (Hh : workerRefs q w <> 0).
    { unfold workerRefs. rewrite Ew. cbn [inflight]. rewrite queueRefs_Some, decide_True by done.
      pose proof (queueRefs_range q (w_queue w)). lia. }
    destruct (worker_request w q Hi Hh) as (r0 & Hr0 & Hf & _). replace r0 with r in Hf by congruence. rewrite Hf, (wi_fault _ Hi).
    replace (setReqs w (w_reqs w) (false || false)) with w by (pose proof (wi_fault _ Hi); destruct w; cbn in *; by subst).
    rewrite <- (setErr_same (setWritten w _)). unfold setError. cbn_w. destruct (io_err io) as [e|].
    + apply (clean_written w q r); try done. by destruct (w_err w).
    + destruct (io_n io =? len (q_data r)) eqn:En; [apply Z.eqb_eq in En|]; apply (clean_written w q r); try done. by destruct (w_err w).
  - apply (clean_mono w); eauto; cbn_w; try done. by rewrite Ew.
  - destruct (w_gate w); [|done]. apply (clean_mono w); eauto; cbn_w; try done. by rewrite Ew.
  - destruct (w_queue w) as [q|].
    + destruct (answer_form (setQueue w None (w_accepted w)) q (0, Some (drainError w))) as (l & f & E).
      apply (clean_mono w); [done|..]; try (rewrite E; cbn_w; try done; apply (cl_new _ Hcl)).
      intros p r Hp. by apply (data_answer (setQueue w None (w_accepted w)) q).
    + apply (clean_mono w); eauto; cbn_w; try done. by rewrite Ew.
Qed.

Lemma clean_step hasFinish w ev : winv w -> clean w -> clean (step hasFinish w ev).
Proof.
  intros Hi Hc. destruct ev as [p addr| |c now pick|io|t|]; cbn [step].
  - apply (clean_mono w); cbn_w; try done; [apply (cl_new _ Hc)|eauto].
  - apply (clean_mono w); cbn_w; try done; [apply (cl_new _ Hc)|eauto].
  - by apply clean_callerStep.
  - by apply clean_workerStep.
  - apply (clean_mono w); cbn_w; try done; [apply (cl_new _ Hc)|eauto].
  - unfold startWorker. cbn_w. destruct (w_worker w) eqn:Ew; apply (clean_mono w); cbn_w; rewrite ?Ew; try done; eauto.
Qed.

Lemma clean_run hasFinish evs : clean (run hasFinish NewWriter evs).
Proof.
  assert (clean NewWriter) as H0 by (split; cbn; set_solver). unfold run. revert H0. generalize winv_init. generalize NewWriter.
  induction evs as [|ev evs IH]; intros w Hw Hc; [done|]. cbn [foldl]. apply IH; [by apply winv_step|by apply clean_step].
Qed.

(** ** [CloseWrite] *)

(** Only [CloseWrite] returns without a request and without an error, and only
    once the worker has gone. *)
Definition nilReturn (w : Writer) : Prop :=
  forall c n, w_callers w !! c = Some (Returned None n None) -> w_exited w = true /\ w_err w = None.

Lemma goto_form w w0 c h :
  w_exited w0 = w_exited w -> w_err w0 = w_err w -> w_callers w0 = w_callers w ->
  (forall n, h = Returned None n None -> w_exited w = true /\ w_err w = None) -> nilReturn w -> nilReturn (goto w0 c h).
Proof.
  intros Hx He Hc Hh Hn d n. cbn_w. rewrite Hx, He, Hc. destruct (decide (d = c)) as [->|Hne].
  - intros [Hi|[_ Hi]]%list_lookup_insert_Some; [|by apply (Hn c n)]. destruct Hi as (_ & Hi & _). by apply (Hh n).
  - rewrite list_lookup_insert_ne by done. apply Hn.
Qed.

Lemma nilReturn_callerStep w c now pick : nilReturn w -> nilReturn (callerStep w c now pick).
Proof.
  intros Hn. unfold_caller. destruct (w_callers w !! c) as [g|] eqn:Hc; [|done].
  assert (Hrel : forall w0 q, w_exited (release w0 q) = w_exited w0 /\ w_err (release w0 q) = w_err w0 /\ w_callers (release w0 q) = w_callers w0).
  { intros w0 q. destruct (release_eq w0 q) as (l & f & ->). done. }
  assert (Hgive : forall q err, nilReturn (giveUp w c q err)).
  { intros q err. unfold giveUp, leave, putGate. destruct (Hrel w q) as (A1 & A2 & A3). destruct (Hrel (release w q) q) as (B1 & B2 & B3).
    apply (goto_form w); cbn_w; try done; congruence. }
  assert (Hfin : forall w0 q n err, (exists l f, w0 = setReqs w l f) -> nilReturn (finishCall w0 c q n err)).
  { intros w0 q n err (l & f & ->). unfold finishCall, putGate. destruct (Hrel (setReqs w l f) q) as (A1 & A2 & A3).
    apply (goto_form w); cbn_w; try done; congruence. }
  assert (Hself : exists l f, w = setReqs w l f) by (exists (w_reqs w), (w_fault w); by destruct w).
  assert (Htake : forall q n err w', takeResult w q = Some (n, err, w') -> nilReturn (finishCall w' c q n err)).
  { intros q n err w' Et. destruct (takeResult_eq w q n err w' Et). by apply Hfin. }
  destruct g as [k|k|[p addr|]|q|q|q|q| | |].
  - assert (Hs : w_exited (startWorker w) = w_exited w /\ w_err (startWorker w) = w_err w /\ w_callers (startWorker w) = w_callers w)
      by (unfold startWorker; by destruct (w_worker w)).
    destruct Hs as (S1 & S2 & S3). destruct (expired _ now); by apply (goto_form w).
  - destruct pick as [|[|[|pick]]]; repeat case_match; try done; by apply (goto_form w).
  - unfold leave, putGate. repeat case_match; by apply (goto_form w).
  - unfold putGate. destruct (w_fin w); by apply (goto_form w).
  - repeat case_match; try done; by apply (goto_form w).
  - destruct pick as [|[|[|pick]]]; repeat case_match; try done; by apply (goto_form w).
  - repeat case_match; simplify_eq; eauto; by apply (goto_form w).
  - destruct pick as [|[|[|pick]]]; repeat case_match; simplify_eq; eauto; by apply (goto_form w).
  - repeat case_match; try (by apply (goto_form w)); apply (goto_form w); try done; intros n [= _ E]; auto.
  - destruct pick as [|[|pick]]; repeat case_match; try done; try (by apply (goto_form w)); apply (goto_form w); try done; intros n [= _ E]; auto.
  - done.
Qed.

Lemma nilReturn_step hasFinish w ev : winv w -> nilReturn w -> nilReturn (step hasFinish w ev).
Proof.
  intros Hi Hn. destruct ev as [p addr| |c now pick|io|t|]; cbn [step]; try done.
  - intros d n. cbn_w. intros [?|[_ Hd]]%lookup_app_Some; [by eapply Hn|]. apply list_lookup_singleton_Some in Hd as [_ Hd]. by case_match.
  - intros d n. cbn_w. intros [?|[_ Hd]]%lookup_app_Some; [by eapply Hn|]. apply list_lookup_singleton_Some in Hd as [_ Hd]. by case_match.
  - by apply nilReturn_callerStep.
  - intros d n Hd.
    assert (Hca : w_callers (workerStep hasFinish w io) = w_callers w).
    { unfold workerStep, drainOnExit, answer, release, post, setError, putGate. by repeat (case_match; cbn_w). }
    rewrite Hca in Hd. destruct (Hn d n Hd) as [Hx He]. unfold workerStep, drainOnExit. by rewrite (proj1 (wi_exited _ Hi) Hx).
  - unfold startWorker. by destruct (w_worker _).
Qed.

Lemma nilReturn_run hasFinish evs : nilReturn (run hasFinish NewWriter evs).
Proof.
  assert (nilReturn NewWriter) as H0 by (intros c n; cbn; by rewrite lookup_nil). unfold run. revert H0. generalize winv_init. generalize NewWriter.
  induction evs as [|ev evs IH]; intros w Hw Hc; [done|]. cbn [foldl]. apply IH; [by apply winv_step|by apply nilReturn_step].
Qed.

(** ** [Close] *)

(** The goroutines' own steps; the environment only lets [write] return. *)
Definition internal (ev : event) : bool := match ev with ECaller _ _ _ | EWorker _ => true | _ => false end.

(** [w'] is reached from [w] by at most [k] steps of the goroutines. *)
Definition drives (hasFinish : bool) (k : nat) (w w' : Writer) : Prop :=
  exists evs, forallb internal evs = true /\ (length evs <= k)%nat /\ run hasFinish w evs = w'.

Lemma drives_refl hasFinish w : drives hasFinish 0 w w.
Proof. by exists []. Qed.

Lemma drives_step hasFinish k w ev w' : internal ev = true -> drives hasFinish k (step hasFinish w ev) w' -> drives hasFinish (S k) w w'.
Proof. intros Hi (evs & H1 & H2 & H3). exists (ev :: evs). cbn. rewrite Hi, H1. split; [done|]. split; [lia|done]. Qed.

Lemma drives_trans hasFinish j k w1 w2 w3 : drives hasFinish j w1 w2 -> drives hasFinish k w2 w3 -> drives hasFinish (j + k) w1 w3.
Proof.
  intros (e1 & H1 & H2 & H3) (e2 & H4 & H5 & H6). exists (e1 ++ e2). rewrite forallb_app, H1, H4, length_app. split; [done|]. split; [lia|].
  unfold run in *. by rewrite foldl_app, H3.
Qed.

Lemma drives_more hasFinish j k w w' : (j <= k)%nat -> drives hasFinish j w w' -> drives hasFinish k w w'.
Proof. intros Hk (e & H1 & H2 & H3). exists e. split; [done|]. split; [lia|done]. Qed.

Lemma winv_drives hasFinish k w w' : winv w -> drives hasFinish k w w' -> winv w'.
Proof.
  intros Hi (evs & _ & _ & <-). revert w Hi. induction evs as [|ev evs IH]; intros w Hi; [done|]. cbn. by apply IH, winv_step.
Qed.

Lemma clean_drives hasFinish k w w' : winv w -> clean w -> drives hasFinish k w w' -> clean w'.
Proof.
  intros Hi Hc (evs & _ & _ & <-). revert w Hi Hc. induction evs as [|ev evs IH]; intros w Hi Hc; [done|].
  cbn. apply IH; [by apply winv_step|by apply clean_step].
Qed.

Lemma countBy_pos {A} (p : A -> bool) l : countBy p l <> 0 -> exists i x, l !! i = Some x /\ p x = true.
Proof.
  induction l as [|x l IH]; [done|]. change (countBy p (x :: l)) with ((if p x then 1 else 0) + countBy p l).
  destruct (p x) eqn:E; [by exists 0%nat, x|]. intros H. destruct IH as (i & y & ? & ?); [lia|]. by exists (S i), y.
Qed.

(** [w'] is [w] with the caller [c] out of the gate. *)
Definition leftGate (c : nat) (w w' : Writer) : Prop :=
  w_done w' = w_done w /\ w_worker w' = w_worker w /\ exists h, w_callers w' = <[c := h]> (w_callers w) /\ holdsGate h = false.

Lemma release_frame w q :
  w_done (release w q) = w_done w /\ w_worker (release w q) = w_worker w /\ w_callers (release w q) = w_callers w.
Proof. by destruct (release_eq w q) as (l & f & ->). Qed.

Lemma leave_left w c q n err : leftGate c w (leave w c q n err).
Proof. split; [done|]. split; [done|]. by eexists. Qed.

Lemma giveUp_left w c q err : leftGate c w (giveUp w c q err).
Proof.
  destruct (release_frame w q) as (A1 & A2 & A3). destruct (release_frame (release w q) q) as (B1 & B2 & B3).
  destruct (leave_left (release (release w q) q) c (Some q) 0 err) as (C1 & C2 & h & C3 & C4).
  unfold giveUp. split; [congruence|]. split; [congruence|]. exists h. split; [congruence|done].
Qed.

Lemma finishCall_left w c q n err l f : leftGate c w (finishCall (setReqs w l f) c q n err).
Proof.
  destruct (release_frame (setReqs w l f) q) as (A1 & A2 & A3). split; [exact A1|]. split; [exact A2|].
  eexists. unfold finishCall, putGate. cbn_w. by rewrite A3.
Qed.

Lemma left_after c w1 w2 w3 g :
  w_done w2 = w_done w1 -> w_worker w2 = w_worker w1 -> w_callers w2 = <[c := g]> (w_callers w1) -> leftGate c w2 w3 -> leftGate c w1 w3.
Proof.
  intros H1 H2 H3 (A1 & A2 & h & A3 & A4). split; [congruence|]. split; [congruence|]. exists h.
  by rewrite A3, H3, list_insert_insert_eq.
Qed.

Lemma drives_one hasFinish k w ev w' : internal ev = true -> step hasFinish w ev = w' -> drives hasFinish (S k) w w'.
Proof. intros Hi <-. eapply drives_step; [done|]. apply (drives_more _ 0); [lia|apply drives_refl]. Qed.

(** The callers that have the gate give it back once the writer is closed:
    from the loop that enqueues, *)
Lemma enqueue_returns w c q :
  w_done w = true -> w_callers w !! c = Some (EnqueueTop q) \/ w_callers w !! c = Some (EnqueueSelect q) ->
  callerStep w c 0 0 = giveUp w c q ErrNetClosed.
Proof. intros Hd [Hc|Hc]; unfold_caller; rewrite Hc, Hd; [|done]. by rewrite andb_false_r. Qed.

(** ... from [awaitWrite], *)
Lemma await_returns hasFinish w c q :
  w_done w = true -> w_callers w !! c = Some (AwaitTop q) \/ w_callers w !! c = Some (AwaitSelect q) ->
  exists w', drives hasFinish 2 w w' /\ leftGate c w w'.
Proof.
  intros Hd Hc.
  assert (Hsel : forall w, w_done w = true -> w_callers w !! c = Some (AwaitSelect q) ->
    callerStep w c 0 1 = finishCall (setReqs w (w_reqs w) (w_fault w)) c q (dataLen w q) (Some ErrNetClosed)).
  { intros w0 Hd0 Hc0. unfold_caller. rewrite Hc0, Hd0. by destruct w0. }
  destruct Hc as [Hc|Hc].
  2: { eexists. split; [|apply finishCall_left]. apply (drives_one _ _ _ (ECaller c 0 1)); [done|]. by apply Hsel. }
  assert (Htop : callerStep w c 0 0 = match takeResult w q with
    | Some (n, err, w) => finishCall w c q n err
    | None => if expired w 0 then finishCall w c q (dataLen w q) (Some ErrDeadlineExceeded) else goto w c (AwaitSelect q) end)
    by (unfold_caller; by rewrite Hc).
  destruct (takeResult w q) as [[[n err] w1]|] eqn:Et.
  - destruct (takeResult_eq w q n err w1 Et) as [(l & f & ->) _]. eexists. split; [|apply finishCall_left].
    apply (drives_one _ _ _ (ECaller c 0 0)); [done|]. exact Htop.
  - destruct (expired w 0).
    + exists (finishCall (setReqs w (w_reqs w) (w_fault w)) c q (dataLen w q) (Some ErrDeadlineExceeded)). split; [|apply finishCall_left].
      apply (drives_one _ _ _ (ECaller c 0 0)); [done|]. cbn [step]. rewrite Htop. by destruct w.
    + eexists. split.
      * apply (drives_step _ _ _ (ECaller c 0 0)); [done|]. cbn [step]. rewrite Htop.
        apply (drives_one _ _ _ (ECaller c 0 1)); [done|]. apply Hsel; [done|]. cbn.
        by rewrite list_lookup_insert_eq by (by eapply lookup_lt_Some).
      * by eapply left_after; [..|apply finishCall_left].
Qed.

(** ... and from the code in between. *)
Lemma holder_returns hasFinish w c g :
  w_done w = true -> w_callers w !! c = Some g -> holdsGate g = true -> exists w', drives hasFinish 2 w w' /\ leftGate c w w'.
Proof.
  intros Hd Hc Hg.
  destruct g as [k|k|[p addr|]|q|q|q|q| | |]; try done; [| | | |by apply (await_returns _ _ _ q); auto|by apply (await_returns _ _ _ q); auto].
  - assert (Hone : forall w', callerStep w c 0 0 = w' -> leftGate c w w' -> exists w', drives hasFinish 2 w w' /\ leftGate c w w').
    { intros w' E Hl. exists w'. split; [|done]. by apply (drives_one _ _ _ (ECaller c 0 0)). }
    destruct (w_err w) as [e|] eqn:Ee; [eapply Hone; [unfold_caller; by rewrite Hc, Ee|apply leave_left]|].
    destruct (w_fin w) eqn:Ef; [eapply Hone; [unfold_caller; by rewrite Hc, Ee, Ef|apply leave_left]|].
    eexists. split.
    + apply (drives_step _ _ _ (ECaller c 0 0)); [done|]. cbn [step]. unfold_caller. rewrite Hc, Ee, Ef.
      apply (drives_one _ _ _ (ECaller c 0 0)); [done|]. apply enqueue_returns; [done|]. left. cbn.
      by rewrite list_lookup_insert_eq by (by eapply lookup_lt_Some).
    + by eapply left_after; [..|apply giveUp_left].
  - eexists. split; [apply (drives_one _ _ _ (ECaller c 0 0)); [done|]; cbn [step]; unfold_caller; rewrite Hc; reflexivity|].
    destruct (w_fin w); (split; [done|]; split; [done|]; by eexists).
  - eexists. split; [|apply giveUp_left]. apply (drives_one _ _ _ (ECaller c 0 0)); [done|]. apply enqueue_returns; [done|eauto].
  - eexists. split; [|apply giveUp_left]. apply (drives_one _ _ _ (ECaller c 0 0)); [done|]. apply enqueue_returns; [done|eauto].
Qed.

(** The worker of a closed writer ends, when nobody else has the gate. *)
Definition ends (hasFinish : bool) (k : nat) (w : Writer) : Prop :=
  exists w', drives hasFinish k w w' /\ w_exited w' = true /\ w_callers w' = w_callers w.

Lemma ends_step hasFinish k w io w1 :
  workerStep hasFinish w io = w1 -> w_callers w1 = w_callers w -> ends hasFinish k w1 -> ends hasFinish (S k) w.
Proof.
  intros <- Hc (w' & H1 & H2 & H3). exists w'. split; [by apply (drives_step _ _ _ (EWorker io))|]. split; [done|congruence].
Qed.

Lemma ends_more hasFinish j k w : (j <= k)%nat -> ends hasFinish j w -> ends hasFinish k w.
Proof. intros Hk (w' & H1 & H2). exists w'. split; [by apply (drives_more _ j)|done]. Qed.

Definition idleIO : workerIO := mkWorkerIO 0 0 None.

Lemma ends_drain hasFinish w : w_worker w = WDrain -> ends hasFinish 2 w.
Proof.
  assert (Hlast : forall w k, w_worker w = WDrain -> w_queue w = None -> ends hasFinish (S k) w).
  { intros w0 k E0 Q0. apply (ends_more _ 1); [lia|]. eapply (ends_step _ _ _ idleIO); [unfold workerStep, drainOnExit; by rewrite E0, Q0|done|].
    eexists. split; [apply drives_refl|done]. }
  intros Ew. destruct (w_queue w) as [q|] eqn:Eq; [|by apply Hlast].
  destruct (answer_form (setQueue w None (w_accepted w)) q (0, Some (drainError w))) as (l & f & E).
  eapply (ends_step _ _ _ idleIO); [unfold workerStep, drainOnExit; rewrite Ew, Eq, E; reflexivity|done|]. by apply Hlast.
Qed.

Lemma ends_gate hasFinish w : winv w -> countBy holdsGate (w_callers w) = 0 -> w_worker w = WGate -> ends hasFinish 3 w.
Proof.
  intros Hi Hn Ew. pose proof (wi_gate _ Hi) as Eg. rewrite Hn, Ew in Eg.
  assert (w_gate w = true) as Hg by (by destruct (w_gate w)).
  eapply (ends_step _ _ _ idleIO); [unfold workerStep, drainOnExit; by rewrite Ew, Hg|done|]. by apply ends_drain.
Qed.

Lemma ends_exit hasFinish w : winv w -> countBy holdsGate (w_callers w) = 0 -> w_worker w = WExit -> ends hasFinish 4 w.
Proof.
  intros Hi Hn Ew. pose proof (winv_workerStep hasFinish w idleIO Hi) as Hi1.
  eapply (ends_step _ _ _ idleIO); [reflexivity|..]; unfold workerStep, drainOnExit in *; rewrite Ew in *; [done|]. by apply ends_gate.
Qed.

Lemma ends_select hasFinish w : winv w -> w_done w = true -> countBy holdsGate (w_callers w) = 0 -> w_worker w = WSelect -> ends hasFinish 5 w.
Proof.
  intros Hi Hd Hn Ew. pose proof (winv_workerStep hasFinish w idleIO Hi) as Hi1.
  eapply (ends_step _ _ _ idleIO); [reflexivity|..]; unfold workerStep, drainOnExit in *; rewrite Ew in *; cbn [io_pick idleIO] in *; rewrite Hd in *; [done|].
  by apply ends_exit.
Qed.

(** ... and wherever it is, [write] returning included. *)
Lemma ends_anywhere hasFinish w :
  winv w -> clean w -> w_done w = true -> countBy holdsGate (w_callers w) = 0 -> ends hasFinish 6 w.
Proof.
  intros Hi Hcl Hd Hn. destruct (w_worker w) as [| |q| | | |] eqn:Ew.
  - by destruct (cl_new _ Hcl Hd).
  - apply (ends_more _ 5); [lia|]. by apply ends_select.
  - pose proof (winv_workerStep hasFinish w (mkWorkerIO 0 0 (Some ErrNetClosed)) Hi) as Hi1.
    assert (Hr : exists r, w_reqs w !! q = Some r).
    { destruct (worker_request w q Hi) as (r & Hr & _); [|by exists r]. unfold workerRefs. rewrite Ew. cbn [inflight].
      rewrite queueRefs_Some, decide_True by done. pose proof (queueRefs_range q (w_queue w)). lia. }
    destruct Hr as [r Hr]. unfold workerStep, drainOnExit in Hi1. rewrite Ew, Hr in Hi1. cbn [io_err io_n] in Hi1.
    eapply (ends_step _ _ _ (mkWorkerIO 0 0 (Some ErrNetClosed))); [unfold workerStep, drainOnExit; rewrite Ew, Hr; reflexivity|..]; cbn [io_err io_n].
    + match goal with |- context [answer ?a ?b ?c] => destruct (answer_form a b c) as (l & f & ->) end. done.
    + apply (ends_more _ 4); [lia|]. apply ends_exit; [done| |done].
      match goal with |- context [answer ?a ?b ?c] => destruct (answer_form a b c) as (l & f & ->) end. done.
  - apply (ends_more _ 4); [lia|]. by apply ends_exit.
  - apply (ends_more _ 3); [lia|]. by apply ends_gate.
  - apply (ends_more _ 2); [lia|]. by apply ends_drain.
  - exists w. split; [apply (drives_more _ 0); [lia|apply drives_refl]|]. split; [by apply (wi_exited _ Hi)|done].
Qed.

Lemma no_holder w : winv w -> (forall c g, w_callers w !! c = Some g -> holdsGate g = false) -> countBy holdsGate (w_callers w) = 0.
Proof. intros _ H. unfold countBy. apply sumBy_zero. intros c g Hc. by rewrite (H c g Hc). Qed.

(** Without a holder of the gate or a worker, every request is back in the
    pool. *)
Lemma all_freed w :
  winv w -> w_exited w = true -> countBy holdsGate (w_callers w) = 0 -> forall q r, w_reqs w !! q = Some r -> q_freed r = true.
Proof.
  intros Hi Hx Hn q r Hr. apply (wi_exited _ Hi) in Hx. destruct (wi_refs _ Hi q r Hr) as [E ->]. apply Z.eqb_eq. rewrite E.
  unfold workerRefs. rewrite Hx, (wi_exit _ Hi Hx), !queueRefs_None. rewrite sumBy_zero; [done|].
  intros c g Hc. pose proof (countBy_zero _ _ _ _ Hn Hc) as Hh. by destruct g.
Qed.

Lemma keys_functional {A B} (l : list (A * B)) k x y : NoDup l.*1 -> (k, x) ∈ l -> (k, y) ∈ l -> x = y.
Proof.
  induction l as [|[k' z] l IH]; [set_solver|]. cbn. intros [Hk Hn]%NoDup_cons [Hx|Hx]%elem_of_cons [Hy|Hy]%elem_of_cons; simplify_eq.
  - done.
  - destruct Hk. apply list_elem_of_fmap. by exists (k', y).
  - destruct Hk. apply list_elem_of_fmap. by exists (k', x).
  - by apply IH.
Qed.

(** ** Theorems *)

(** the bounded writer never panics and never touches a pooled request it
    has given back: in every interleaving of writes, half-closes, deadlines and
    [Close] with the worker, no send meets a closed queue, no result or gate
    token is sent into a full channel and the queue is closed once; once the
    worker has gone the queue is empty and stays so, and when no call is in its
    critical section every request is back in the pool. *)
Theorem writer_safe hasFinish evs :
  let w := run hasFinish NewWriter evs in
  w_fault w = false /\
  (w_exited w = true -> w_queue w = None /\
    ((forall c g, w_callers w !! c = Some g -> holdsGate g = false) -> forall q r, w_reqs w !! q = Some r -> q_freed r = true)).
Proof.
  intros w. pose proof (winv_run hasFinish evs) as Hi. fold w in Hi. split; [apply (wi_fault _ Hi)|].
  intros Hx. split; [by apply (wi_exit _ Hi), (wi_exited _ Hi)|].
  intros Hno. apply all_freed; [done|done|by apply no_holder].
Qed.

(** what [WritePacket] reports is what happened.  Packets are handed to
    [write] at most once and in the order of their acceptance; a call that
    returns no error has had its whole packet written; the count of a call that
    fails covers what [write] reported for its packet, so that no byte the
    transport may have taken is offered again; and a packet that was never
    accepted is reported as 0 bytes. *)
Theorem writer_delivery hasFinish evs :
  let w := run hasFinish NewWriter evs in
  (w_written w).*1 `prefix_of` w_accepted w /\ NoDup (w_accepted w) /\
  forall c q n err, w_callers w !! c = Some (Returned (Some q) n err) ->
    exists r, w_reqs w !! q = Some r /\
      (err = None -> n = len (q_data r) /\ (q, n) ∈ w_written w) /\
      (forall m, (q, m) ∈ w_written w -> n = m \/ n = len (q_data r)) /\
      (q ∉ w_accepted w -> n = 0).
Proof.
  intros w. pose proof (winv_run hasFinish evs) as Hi. fold w in Hi.
  destruct (wi_order _ Hi) as (dr & E & _). pose proof (wi_nodup _ Hi) as Hnd.
  assert (Hpre : (w_written w).*1 `prefix_of` w_accepted w) by (by eexists).
  split; [done|]. split; [done|]. intros c q n err Hc. destruct (wi_calls _ Hi c _ Hc) as (r & Hr & H). exists r. split; [done|].
  assert (Hfun : forall m m', (q, m) ∈ w_written w -> (q, m') ∈ w_written w -> m = m').
  { intros m m'. apply keys_functional. rewrite E in Hnd. by apply NoDup_app in Hnd as [? _]. }
  assert (Hin : forall m, (q, m) ∈ w_written w -> q ∈ w_accepted w /\ q ∈ (w_written w).*1).
  { intros m Hm. assert (q ∈ (w_written w).*1) as Hq by (apply list_elem_of_fmap; by exists (q, m)).
    split; [|done]. destruct Hpre as [k ->]. set_solver. }
  destruct H as [(H1 & _ & -> & H3)|[(H1 & -> & H3)|[(H1 & H2)|(H1 & H2 & _ & -> & H4)]]].
  - split; [done|]. split; [|done]. intros m Hm. by destruct (Hin m Hm).
  - split; [done|]. split; [auto|done].
  - split; [auto|]. split; [eauto|]. intros Hna. by destruct (Hin n H1).
  - split; [done|]. split; [|done]. intros m Hm. by destruct (Hin m Hm).
Qed.

(** [finish] runs only after every accepted packet has been handed to
    [write]; and when a [CloseWrite] has returned no error and the writer has
    not been closed, every packet that was ever accepted has been written, each
    with its full length. *)
Theorem writer_half_close hasFinish evs :
  let w := run hasFinish NewWriter evs in
  (w_finished w = true -> w_accepted w = (w_written w).*1) /\
  forall c n, w_callers w !! c = Some (Returned None n None) -> w_done w = false ->
    w_accepted w = (w_written w).*1 /\ w_qclosed w = true /\
    forall q m, (q, m) ∈ w_written w -> exists r, w_reqs w !! q = Some r /\ m = len (q_data r).
Proof.
  intros w. pose proof (winv_run hasFinish evs) as Hi. pose proof (clean_run hasFinish evs) as Hc.
  pose proof (nilReturn_run hasFinish evs) as Hn. fold w in Hi, Hc, Hn.
  split; [intros Hf; by apply (wi_finished _ Hi)|]. intros c n Hr Hd. destruct (Hn c n Hr) as [Hx He].
  apply (wi_exited _ Hi) in Hx. destruct (cl_all _ Hc) as [Hq Ha]; [by rewrite Hx|done|done|].
  split; [done|]. split; [done|]. by apply (cl_whole _ Hc).
Qed.

(** C34: [Close] ends.  From every reachable state of a closed writer at most
    eight steps of its own goroutines, once [write] has returned, lead to the
    close of [exited], with every request back in the pool: no caller that has
    the gate waits for the worker while the worker waits for the gate. *)
Theorem writer_close hasFinish evs :
  let w := run hasFinish NewWriter evs in
  w_done w = true ->
  exists more, forallb internal more = true /\ (length more <= 8)%nat /\
    let w' := run hasFinish w more in
    w_exited w' = true /\ forall q r, w_reqs w' !! q = Some r -> q_freed r = true.
Proof.
  intros w Hd. pose proof (winv_run hasFinish evs) as Hi. pose proof (clean_run hasFinish evs) as Hc. fold w in Hi, Hc.
  assert (Hfree : exists w1, drives hasFinish 2 w w1 /\ w_done w1 = true /\ countBy holdsGate (w_callers w1) = 0 /\ winv w1 /\ clean w1).
  { destruct (decide (countBy holdsGate (w_callers w) = 0)) as [Hz|Hnz].
    - exists w. split; [apply (drives_more _ 0); [lia|apply drives_refl]|done].
    - destruct (countBy_pos _ _ Hnz) as (c & g & Hc' & Hg). destruct (holder_alone w c g Hi Hc' Hg) as (_ & _ & Ho).
      destruct (holder_returns hasFinish w c g Hd Hc' Hg) as (w1 & D1 & L1 & _ & h & L3 & L4). exists w1.
      pose proof (winv_drives _ _ _ _ Hi D1) as Hi1. split; [done|]. split; [congruence|]. split; [|split; [done|exact (clean_drives _ _ _ _ Hi Hc D1)]].
      apply no_holder; [done|]. rewrite L3. eapply insert_all; [exact Hc'|done|exact Ho]. }
  destruct Hfree as (w1 & D1 & Hd1 & Hn1 & Hi1 & Hc1).
  destruct (ends_anywhere hasFinish w1 Hi1 Hc1 Hd1 Hn1) as (w2 & D2 & Hx & Hca).
  pose proof (winv_drives _ _ _ _ Hi1 D2) as Hi2.
  destruct (drives_trans _ _ _ _ _ _ D1 D2) as (more & H1 & H2 & <-). exists more. split; [done|]. split; [done|].
  split; [done|]. apply all_freed; [done|done|]. by rewrite Hca.
Qed.

(** One packet is with [write], a second one waits in the queue and its caller
    for the result, when the writer is closed. *)
Definition closing_run : list event :=
  [ EWritePacket [Byte.x01; Byte.x02] []; ECaller 0 5 0; ECaller 0 5 2; ECaller 0 5 0; ECaller 0 5 0; ECaller 0 5 2;
    EWorker (mkWorkerIO 1 0 None); ESetDeadline (Some 7); ECaller 0 8 0;
    EWritePacket [Byte.x03] []; ESetDeadline None; ECaller 1 9 0; ECaller 1 9 2; ECaller 1 9 0; ECaller 1 9 0; ECaller 1 9 2;
    ECaller 1 9 0; EClose ].

Lemma closing_run_state :
  let w := run true NewWriter closing_run in
  w_worker w = WWriting 0 /\ w_queue w = Some 1%nat /\ w_done w = true /\
  w_callers w = [Returned (Some 0%nat) 2 (Some ErrDeadlineExceeded); AwaitSelect 1].
Proof. vm_compute. auto. Qed.

Lemma writer_close_witness :
  let w := run true NewWriter closing_run in
  exists more, forallb internal more = true /\ (length more <= 8)%nat /\
    let w' := run true w more in
    w_exited w' = true /\ forall q r, w_reqs w' !! q = Some r -> q_freed r = true.
Proof. apply (writer_close true closing_run). reflexivity. Defined.

(** ** [Write] *)

Section WriteLoop.
  Context (WritePacket : nat -> list byte -> Z * option error).
  Hypothesis whole : forall i c n, WritePacket i c = (n, None) -> n = len c.
  Hypothesis partial : forall i c n e, WritePacket i c = (n, Some e) -> 0 <= n <= len c.

Lemma chunkLoop_spec fuel i p written handed :
  (length p <= fuel)%nat ->
  exists n err more, writeLoop WritePacket fuel i p written handed = WriteReturns (written + n) err (handed ++ more) /\
    concat more `prefix_of` p /\ 0 <= n <= len (concat more) /\ (err = None -> concat more = p /\ n = len p).
Proof.
  revert i p written handed. induction fuel as [|fuel IH]; intros i p written handed Hl.
  - destruct p; [|cbn in Hl; lia]. exists 0, None, []. cbn. rewrite Z.add_0_r, app_nil_r. split; [done|]. split; [done|]. split; [lia|done].
  - destruct p as [|b p]; [exists 0, None, []; cbn; rewrite Z.add_0_r, app_nil_r; split; [done|]; split; [done|]; split; [lia|done]|].
    cbn [writeLoop]. set (q := b :: p) in *. set (chunk := take (Z.to_nat (Z.min (len q) 65535)) q).
    assert (Hc : 1 <= len chunk <= len q) by (subst chunk q; rewrite length_take; cbn [length]; lia).
    assert (Hpre : chunk `prefix_of` q) by apply prefix_take.
    destruct (WritePacket i chunk) as [n err] eqn:Ew.
    assert (Hn : 0 <= n <= len chunk) by (destruct err; [by eapply partial|apply whole in Ew; lia]).
    rewrite (proj2 (orb_false_iff _ _)) by (split; [apply Z.ltb_ge|apply Z.ltb_ge]; lia).
    destruct err as [e|].
    + exists n, (Some e), [chunk]. cbn. rewrite app_nil_r. split; [done|]. split; [done|]. split; [lia|done].
    + apply whole in Ew as ->.
      assert (Hd : q = chunk ++ drop (Z.to_nat (len chunk)) q).
      { rewrite Nat2Z.id. destruct Hpre as [k Hk]. rewrite Hk. by rewrite drop_app_length. }
      destruct (IH (S i) (drop (Z.to_nat (len chunk)) q) (written + len chunk) (handed ++ [chunk])) as (m & err & more & E & Hp & Hm & Hall).
      { rewrite length_drop, Nat2Z.id. lia. }
      exists (len chunk + m), err, (chunk :: more). rewrite E, <- app_assoc, Z.add_assoc. split; [done|]. cbn [concat].
      rewrite length_app. pose proof (f_equal length Hd) as Hlen. rewrite length_app in Hlen.
      split; [rewrite Hd; by apply prefix_app|]. split; [lia|].
      intros He. destruct (Hall He) as [-> ->]. split; [done|lia].
Qed.
End WriteLoop.

(** [Write] ends, hands its bytes to [WritePacket] once and in order, in
    chunks that cover a prefix of them, and returns no error only when all of
    them were handed over and reported; it never counts more than it handed
    over.  [WritePacket] may return anything a bounded writer returns for a
    transport whose counts are in range: the whole chunk without an error
    ([writer_delivery]), or part of it with one. *)
Theorem writer_write (WritePacket : nat -> list byte -> Z * option error) p :
  (forall i c n, WritePacket i c = (n, None) -> n = len c) ->
  (forall i c n e, WritePacket i c = (n, Some e) -> 0 <= n <= len c) ->
  exists n err handed, Write WritePacket p = WriteReturns n err handed /\
    concat handed `prefix_of` p /\ 0 <= n <= len (concat handed) /\ (err = None -> concat handed = p /\ n = len p).
Proof. intros H1 H2. exact (chunkLoop_spec WritePacket H1 H2 (length p) 0 p 0 [] (le_n _)). Qed.

(** The second chunk of a long write fails half-way. *)
Lemma writer_write_witness :
  exists n err handed,
    Write (fun i c => if (i =? 0)%nat then (len c, None) else (Z.min 1 (len c), Some ErrShortWrite)) (replicate 65537 Byte.x00) = WriteReturns n err handed /\
    concat handed `prefix_of` replicate 65537 Byte.x00 /\ 0 <= n <= len (concat handed) /\ (err = None -> concat handed = replicate 65537 Byte.x00 /\ n = len (replicate 65537 Byte.x00)).
Proof.
  apply writer_write.
  - intros i c n. destruct (i =? 0)%nat; intros [= <-]; reflexivity.
  - intros i c n e. destruct (i =? 0)%nat; intros [= <- _]. lia.
Defined.
