(* ===== verification/ConnioReader.v ===== *)
(** * The bounded reader of [pkg/connio] (deadline.go, [Reader])

    A worker goroutine fetches chunks with a blocking [next] into a queue of one;
    readers take them under a mutex that they keep while they wait, and give up
    at their deadline or at [Close].  A chunk may come with a lease that must be
    given back once all its bytes are copied or dropped.

    A step of a goroutine is the code between two points where it can be
    overtaken; where several cases of a [select] are ready, the step's argument
    picks one.  A deadline has a version: [changed] is closed when it is no
    longer the current one. *)
From S2P Require Import Prelude GoNet.

Open Scope Z_scope.

(** ** Data *)

Record packet := mkPkt {
  p_data : list byte;
  p_addr : gostring;
  p_err : option error;
  p_lease : option nat;               (* release *)
}.

Definition noPacket : packet := mkPkt [] [] None None.

(** The worker: not started, at the top of its loop, in [next], at the select
    that queues, returned. *)
Inductive workerStage :=
  | WNew
  | WTop
  | WNext
  | WPut (item : packet)
  | WExited.

Inductive op :=
  | OpRead (size : Z)
  | OpPacket (size : Z)
  | OpClose.

(** A call: at the mutex; [Read] behind it, at its loop, before the copy;
    [ReadPacket] behind it; in [get] at the top of its loop and at its select,
    with the chunk it got; [Close] at its start, waiting for the worker, with
    the mutex; returned. *)
Inductive stage :=
  | KMu (o : op)
  | KRead (size : Z)
  | KLoop (size : Z)
  | KCopy (size : Z)
  | KPacket (size : Z)
  | KGet (o : op)
  | KSelect (o : op) (at' : option Z) (ver : nat)
  | KGot (o : op) (item : packet)
  | KClose
  | KExit
  | KDrain
  | KReturned (res : result (list byte)).

Record Reader := mkR {
  r_done : bool;
  r_exited : bool;
  r_queue : option packet;
  r_at : option Z;
  r_ver : nat;
  r_mu : option nat;                  (* the call that has the mutex *)
  r_pending : packet;
  r_leases : list Z;                  (* how often each was given back *)
  r_worker : workerStage;
  r_calls : list stage;
  r_made : list packet;               (* what [next] returned *)
  r_out : list (list byte);           (* what [Read] returned *)
  r_packets : list (list byte * gostring);  (* what [ReadPacket] returned *)
  r_lost : list byte;                 (* dropped by the end *)
  r_closed : bool;                    (* a [Close] has returned *)
}.

Definition NewReader : Reader := mkR false false None None 0 None noPacket [] WNew [] [] [] [] [] false.

(** Field updates. *)
Definition setDone (r : Reader) (d e : bool) : Reader :=
  mkR d e (r_queue r) (r_at r) (r_ver r) (r_mu r) (r_pending r) (r_leases r) (r_worker r) (r_calls r) (r_made r) (r_out r) (r_packets r) (r_lost r) (r_closed r).
Definition setQueue (r : Reader) (q : option packet) : Reader :=
  mkR (r_done r) (r_exited r) q (r_at r) (r_ver r) (r_mu r) (r_pending r) (r_leases r) (r_worker r) (r_calls r) (r_made r) (r_out r) (r_packets r) (r_lost r) (r_closed r).
Definition setAt (r : Reader) (t : option Z) : Reader :=
  mkR (r_done r) (r_exited r) (r_queue r) t (S (r_ver r)) (r_mu r) (r_pending r) (r_leases r) (r_worker r) (r_calls r) (r_made r) (r_out r) (r_packets r) (r_lost r) (r_closed r).
Definition setMu (r : Reader) (m : option nat) : Reader :=
  mkR (r_done r) (r_exited r) (r_queue r) (r_at r) (r_ver r) m (r_pending r) (r_leases r) (r_worker r) (r_calls r) (r_made r) (r_out r) (r_packets r) (r_lost r) (r_closed r).
Definition setPending (r : Reader) (p : packet) : Reader :=
  mkR (r_done r) (r_exited r) (r_queue r) (r_at r) (r_ver r) (r_mu r) p (r_leases r) (r_worker r) (r_calls r) (r_made r) (r_out r) (r_packets r) (r_lost r) (r_closed r).
Definition setLeases (r : Reader) (l : list Z) : Reader :=
  mkR (r_done r) (r_exited r) (r_queue r) (r_at r) (r_ver r) (r_mu r) (r_pending r) l (r_worker r) (r_calls r) (r_made r) (r_out r) (r_packets r) (r_lost r) (r_closed r).
Definition setWorker (r : Reader) (w : workerStage) (made : list packet) : Reader :=
  mkR (r_done r) (r_exited r) (r_queue r) (r_at r) (r_ver r) (r_mu r) (r_pending r) (r_leases r) w (r_calls r) made (r_out r) (r_packets r) (r_lost r) (r_closed r).
Definition setCalls (r : Reader) (c : list stage) : Reader :=
  mkR (r_done r) (r_exited r) (r_queue r) (r_at r) (r_ver r) (r_mu r) (r_pending r) (r_leases r) (r_worker r) c (r_made r) (r_out r) (r_packets r) (r_lost r) (r_closed r).
Definition setOut (r : Reader) (o : list (list byte)) (ps : list (list byte * gostring)) : Reader :=
  mkR (r_done r) (r_exited r) (r_queue r) (r_at r) (r_ver r) (r_mu r) (r_pending r) (r_leases r) (r_worker r) (r_calls r) (r_made r) o ps (r_lost r) (r_closed r).
Definition setLost (r : Reader) (l : list byte) (closed : bool) : Reader :=
  mkR (r_done r) (r_exited r) (r_queue r) (r_at r) (r_ver r) (r_mu r) (r_pending r) (r_leases r) (r_worker r) (r_calls r) (r_made r) (r_out r) (r_packets r) l closed.

Definition goto (r : Reader) (k : nat) (x : stage) : Reader := setCalls r (<[k := x]> (r_calls r)).

(** The deferred unlock. *)
Definition return_ (r : Reader) (k : nat) (res : result (list byte)) : Reader := goto (setMu r None) k (KReturned res).

Definition expired (at' : option Z) (now : Z) : bool := match at' with Some t => t <=? now | None => false end.

(** [p.free()]: the lease goes back, the data is dropped. *)
Definition giveBack (r : Reader) (p : packet) : Reader :=
  match p_lease p with Some i => setLeases r (alter (Z.add 1) i (r_leases r)) | None => r end.
Definition freed (p : packet) : packet := mkPkt [] (p_addr p) (p_err p) None.
Definition freePending (r : Reader) : Reader := setPending (giveBack r (r_pending r)) (freed (r_pending r)).

(** ** The worker *)

Definition exit (r : Reader) : Reader := setDone (setWorker r WExited (r_made r)) (r_done r) true.

(** [r.start()]. *)
Definition start (r : Reader) : Reader := match r_worker r with WNew => setWorker r WTop (r_made r) | _ => r end.

(** What [next] or [nextOwned] returned. *)
Record fetched := mkFetched {
  f_data : list byte;
  f_addr : gostring;
  f_err : option error;
  f_owned : bool;
}.

Definition workerStep (r : Reader) (f : fetched) (stop : bool) : Reader :=
  match r_worker r with
  | WNew | WExited => r
  | WTop => if r_done r then exit r else setWorker r WNext (r_made r)
  | WNext =>
      let item := mkPkt (f_data f) (f_addr f) (f_err f) (if f_owned f then Some (length (r_leases r)) else None) in
      let r := if f_owned f then setLeases r (r_leases r ++ [0]) else r in
      setWorker r (WPut item) (r_made r ++ [item])
  | WPut item =>
      if stop then
        if r_done r then exit (setLost (giveBack r item) (p_data item ++ r_lost r) (r_closed r)) else r
      else
        match r_queue r with
        | Some _ => r
        | None =>
            let r := setQueue r (Some item) in
            match p_err item with Some _ => exit r | None => setWorker r WTop (r_made r) end
        end
  end.

(** ** Calls *)

Inductive pick := PQueue | PDone | PChanged | PTimeout.

Definition getTop (r : Reader) (k : nat) (o : op) (now : Z) : Reader :=
  if r_done r then return_ r k (Fail ErrNetClosed)
  else if expired (r_at r) now then return_ r k (Fail ErrDeadlineExceeded)
  else goto r k (KSelect o (r_at r) (r_ver r)).

Definition getSelect (r : Reader) (k : nat) (o : op) (at' : option Z) (ver : nat) (c : pick) (now : Z) : Reader :=
  match c with
  | PQueue => match r_queue r with Some item => goto (setQueue r None) k (KGot o item) | None => r end
  | PDone => if r_done r then return_ r k (Fail ErrNetClosed) else r
  | PChanged => if bool_decide (ver = r_ver r) then r else goto r k (KGet o)
  | PTimeout => if expired at' now then goto r k (KGet o) else r
  end.

(** The loop of [Read]. *)
Definition readLoop (r : Reader) (k : nat) (size : Z) : Reader :=
  if len (p_data (r_pending r)) =? 0 then
    let r := freePending r in
    match p_err (r_pending r) with
    | Some err => return_ r k (Fail err)
    | None => goto (start r) k (KGet (OpRead size))
    end
  else goto r k (KCopy size).

Definition readCopy (r : Reader) (k : nat) (size now : Z) : Reader :=
  if expired (r_at r) now then return_ r k (Fail ErrDeadlineExceeded)
  else
    let p := r_pending r in
    let out := ztake size (p_data p) in
    let rest := zdrop size (p_data p) in
    let r := setPending r (mkPkt rest (p_addr p) (p_err p) (p_lease p)) in
    let r := if len rest =? 0 then freePending r else r in
    return_ (setOut r (r_out r ++ [out]) (r_packets r)) k (Ok out).

Definition packetTop (r : Reader) (k : nat) (size : Z) : Reader :=
  match p_err (r_pending r) with
  | Some err => return_ r k (Fail err)
  | None => goto (start r) k (KGet (OpPacket size))
  end.

Definition packetGot (r : Reader) (k : nat) (size : Z) (item : packet) : Reader :=
  let p := r_pending r in
  let r := setPending r (mkPkt (p_data p) (p_addr p) (p_err item) (p_lease p)) in
  let r := giveBack r item in
  match p_err item with
  | Some err => if len (p_data item) =? 0 then return_ r k (Fail err)
                else if size <? len (p_data item) then return_ r k (Fail ErrShortBuffer)
                else return_ (setOut r (r_out r) (r_packets r ++ [(p_data item, p_addr item)])) k (Ok (p_data item))
  | None => if size <? len (p_data item) then return_ r k (Fail ErrShortBuffer)
            else return_ (setOut r (r_out r) (r_packets r ++ [(p_data item, p_addr item)])) k (Ok (p_data item))
  end.

(** [Close] with the mutex: the worker has exited, so nobody else touches the
    queue. *)
Definition closeDrain (r : Reader) (k : nat) : Reader :=
  let lost := p_data (r_pending r) ++ match r_queue r with Some q => p_data q | None => [] end ++ r_lost r in
  let r := freePending r in
  let r := match r_queue r with Some q => setQueue (giveBack r q) None | None => r end in
  return_ (setLost r lost true) k (Ok []).

Definition lockStage (o : op) : stage :=
  match o with OpRead size => KRead size | OpPacket size => KPacket size | OpClose => KDrain end.

Definition callStep (r : Reader) (k : nat) (c : pick) (now : Z) : Reader :=
  match r_calls r !! k with
  | Some (KMu o) => match r_mu r with None => goto (setMu r (Some k)) k (lockStage o) | Some _ => r end
  | Some (KRead size) => if r_done r then return_ r k (Fail ErrNetClosed) else goto r k (KLoop size)
  | Some (KLoop size) => readLoop r k size
  | Some (KCopy size) => readCopy r k size now
  | Some (KPacket size) => packetTop r k size
  | Some (KGet o) => getTop r k o now
  | Some (KSelect o at' ver) => getSelect r k o at' ver c now
  | Some (KGot (OpRead size) item) => goto (setPending r item) k (KLoop size)
  | Some (KGot (OpPacket size) item) => packetGot r k size item
  | Some KClose => goto (start (setDone r true (r_exited r))) k KExit
  | Some KExit => if r_exited r then goto r k (KMu OpClose) else r
  | Some KDrain => closeDrain r k
  | Some (KGot OpClose _) | Some (KReturned _) | None => r
  end.

(** ** Steps *)

Inductive event :=
  | ERead (size : Z)
  | EReadPacket (size : Z)
  | EClose
  | ESetDeadline (t : option Z)
  | EWorker (f : fetched) (stop : bool)
  | ECall (k : nat) (c : pick) (now : Z).

Definition spawn (r : Reader) (x : stage) : Reader := setCalls r (r_calls r ++ [x]).

Definition step (r : Reader) (e : event) : Reader :=
  match e with
  | ERead size => spawn r (if size =? 0 then KReturned (Ok []) else KMu (OpRead size))
  | EReadPacket size => spawn r (KMu (OpPacket size))
  | EClose => spawn r KClose
  | ESetDeadline t => setAt r t
  | EWorker f stop => workerStep r f stop
  | ECall k c now => callStep r k c now
  end.

Definition run (r : Reader) (es : list event) : Reader := foldl step r es.
