(* ===== verification/ConnioReaderRuns.v ===== *)
(** * Runs of the bounded reader: what [ConnioReader.v] guarantees

    For every interleaving of the worker, readers, deadlines and [Close]. *)
From S2P Require Import Prelude GoNet ConnioReader.

Open Scope Z_scope.

(** ** Who has the mutex, and the end *)

Definition holder (x : stage) : bool :=
  match x with
  | KRead _ | KLoop _ | KCopy _ | KPacket _ | KGet _ | KSelect _ _ _ | KGot _ _ | KDrain => true
  | KMu _ | KClose | KExit | KReturned _ => false
  end.

Definition itemOf (x : stage) : list packet := match x with KGot _ item => [item] | _ => [] end.

(** The chunk a reader has just taken. *)
Definition got (r : Reader) : list packet :=
  match r_mu r with
  | Some k => match r_calls r !! k with Some x => itemOf x | None => [] end
  | None => []
  end.

Definition workerItem (r : Reader) : list packet := match r_worker r with WPut item => [item] | _ => [] end.

(** A reader that waits for a chunk has used up the one before. *)
Definition spent (o : op) (p : packet) : Prop := p_err p = None /\ match o with OpRead _ => p_data p = [] /\ p_lease p = None | _ => True end.

(** What a stage knows. *)
Definition stageOk (r : Reader) (x : stage) : Prop :=
  match x with
  | KSelect o at' ver => o <> OpClose /\ r_worker r <> WNew /\ r_closed r = false /\ spent o (r_pending r) /\ (ver <= r_ver r)%nat /\ (ver = r_ver r -> at' = r_at r)
  | KGet o => o <> OpClose /\ r_worker r <> WNew /\ spent o (r_pending r)
  | KGot o _ => o <> OpClose /\ r_closed r = false /\ spent o (r_pending r)
  | KLoop _ | KCopy _ => r_closed r = false
  | KMu OpClose | KDrain => r_done r = true /\ r_exited r = true
  | KExit => r_done r = true /\ r_worker r <> WNew
  | _ => True
  end.

(** Once a [Close] has returned. *)
Definition ended (r : Reader) : Prop :=
  r_done r = true /\ r_exited r = true /\ r_queue r = None /\ p_lease (r_pending r) = None /\ p_data (r_pending r) = [].

Record inv (r : Reader) : Prop := {
  iv_mu : forall k x, r_calls r !! k = Some x -> holder x = true <-> r_mu r = Some k;
  iv_held : forall k, r_mu r = Some k -> is_Some (r_calls r !! k);
  iv_stages : forall k x, r_calls r !! k = Some x -> stageOk r x;
  iv_exited : r_exited r = true <-> r_worker r = WExited;
  iv_closed : r_closed r = true -> ended r;
}.

Lemma calls_goto (r : Reader) k x j y : <[k := x]> (r_calls r) !! j = Some y -> (j = k /\ y = x) \/ (j <> k /\ r_calls r !! j = Some y).
Proof.
  destruct (decide (k = j)) as [<-|Hne]; [|rewrite list_lookup_insert_ne by done; by right].
  intros H. left. destruct (decide (k < length (r_calls r))%nat); [rewrite list_lookup_insert_eq in H by done; by injection H as <-|].
  rewrite list_insert_ge in H by lia. apply lookup_lt_Some in H. lia.
Qed.

(** What the stage of a call depends on. *)
Record sameCore (r r' : Reader) (x : stage) : Prop := {
  sc_done : r_done r = true -> r_done r' = true;
  sc_exited : r_exited r = true -> r_exited r' = true;
  sc_ver : r_ver r' = r_ver r /\ r_at r' = r_at r;
  sc_worker : r_worker r <> WNew -> r_worker r' <> WNew;
  sc_holder : holder x = true -> r_pending r' = r_pending r /\ r_closed r' = r_closed r;
}.

Lemma stageOk_core r r' x : sameCore r r' x -> stageOk r x -> stageOk r' x.
Proof.
  intros [H1 H2 [H3 H4] H5 H6].
  destruct x as [[| |]| | | | |o|o a v|o i| | | |]; cbn [stageOk holder] in *; rewrite ?H3, ?H4; try (destruct (H6 eq_refl) as [E1 E2]; rewrite ?E1, ?E2); clear H6; intuition auto.
Qed.

(** A call moves to another stage; the mutex is its own before and after, or
    it takes it, or gives it back. *)
Lemma reader_goto_inv r r' k x y :
  inv r -> r_calls r !! k = Some y -> (holder y = true \/ r_mu r = None \/ r_mu r' = r_mu r) ->
  r_mu r' = (if holder x then Some k else if holder y then None else r_mu r) ->
  (forall j z, r_calls r !! j = Some z -> j <> k -> sameCore r r' z) -> stageOk r' x ->
  r_calls r' = r_calls r -> (r_exited r' = true <-> r_worker r' = WExited) -> (r_closed r' = true -> ended r') ->
  inv (goto r' k x).
Proof.
  intros [H1 H2 H3 H4 H5] Hk Hy Em Hc Hs Ec He Hcl. pose proof (H1 k y Hk) as Hmu. pose proof (lookup_lt_Some _ _ _ Hk) as Hlt.
  split; cbn [goto setCalls r_calls r_mu r_exited r_worker r_closed]; rewrite ?Ec; try done.
  - intros j z Hj. apply calls_goto in Hj as [[-> ->]|[Hne Hj]].
    + rewrite Em. destruct (holder x) eqn:Hx; [done|]. split; [done|]. destruct (holder y) eqn:Hyy; [done|]. intros H. by apply Hmu in H.
    + rewrite (H1 j z Hj), Em. destruct (holder y) eqn:Hyy.
      { rewrite (proj1 Hmu eq_refl). destruct (holder x); split; congruence. }
      destruct (holder x) eqn:Hx; [|done]. destruct Hy as [?|[Hn|Hn]]; [done|rewrite Hn; split; congruence|].
      rewrite Em in Hn. symmetry in Hn. by apply Hmu in Hn.
  - intros j Hj. destruct (decide (j = k)) as [->|Hne]; [by rewrite list_lookup_insert_eq|]. rewrite list_lookup_insert_ne by done. apply H2.
    rewrite Em in Hj. destruct (holder x); [congruence|]. by destruct (holder y).
  - intros j z Hj. apply calls_goto in Hj as [[-> ->]|[Hne Hj]]; [done|]. apply (stageOk_core r r'); eauto.
Qed.

(** ** Every step keeps the invariant *)

Lemma giveBack_eq r p : giveBack r p = setLeases r (match p_lease p with Some i => alter (Z.add 1) i (r_leases r) | None => r_leases r end).
Proof. unfold giveBack. destruct (p_lease p); [done|by destruct r]. Qed.

Lemma start_cases r : start r = r /\ r_worker r <> WNew \/ r_worker r = WNew /\ start r = setWorker r WTop (r_made r).
Proof. unfold start. destruct (r_worker r) eqn:Hw; auto. Qed.

Lemma inv_worker r f stop : inv r -> inv (workerStep r f stop).
Proof.
  intros Hi. pose proof Hi as [H1 H2 H3 H4 H5]. assert (Hst : forall r', r_pending r' = r_pending r -> r_closed r' = r_closed r -> r_calls r' = r_calls r -> r_mu r' = r_mu r -> r_done r' = r_done r ->
     r_ver r' = r_ver r /\ r_at r' = r_at r -> (r_exited r = true -> r_exited r' = true) -> (r_worker r <> WNew -> r_worker r' <> WNew) ->
     (r_exited r' = true <-> r_worker r' = WExited) -> r_exited r = false -> inv r').
  { intros r' Ep Ecl Ec Em Ed Ev Ex Hw He Hne. split; rewrite ?Ec, ?Em, ?Ecl; try done.
    - intros k x Hk. apply (stageOk_core r); [|eauto]. split; rewrite ?Ed; auto.
    - intros Hcl. destruct (H5 Hcl) as (_ & Hx & _). congruence. }
  assert (Hne : r_worker r <> WExited -> r_exited r = false) by (intros H; destruct (r_exited r); [exfalso; tauto|done]).
  unfold workerStep, exit. destruct (r_worker r) as [| | |item|] eqn:Hw; try exact Hi; specialize (Hne ltac:(done)).
  - destruct (r_done r) eqn:Hd; apply Hst; try done; cbn; rewrite Hne; by split.
  - destruct (f_owned f); apply Hst; try done; cbn; rewrite Hne; by split.
  - rewrite giveBack_eq. destruct stop.
    + destruct (r_done r) eqn:Hd; [|exact Hi]. apply Hst; done.
    + destruct (r_queue r); [exact Hi|]. destruct (p_err item); apply Hst; try done; cbn; rewrite Hne; by split.
Qed.

(** What a call with the mutex leaves alone. *)
Record coreOk (r r' : Reader) : Prop := {
  co_done : r_done r' = r_done r;
  co_exited : r_exited r' = r_exited r;
  co_ver : r_ver r' = r_ver r /\ r_at r' = r_at r;
  co_worker : r_worker r' = r_worker r \/ (r_worker r = WNew /\ r_worker r' = WTop);
  co_calls : r_calls r' = r_calls r;
}.

Lemma held_inv r r' k x y :
  inv r -> r_calls r !! k = Some y -> holder y = true -> coreOk r r' -> r_mu r' = (if holder x then r_mu r else None) ->
  stageOk r' x -> (r_closed r' = true -> ended r') -> inv (goto r' k x).
Proof.
  intros Hi Hk Hy [Hd Hx Hv Hw Hc] Em Hs Hcl. pose proof Hi as [H1 H2 H3 H4 H5]. pose proof (proj1 (H1 k y Hk) Hy) as Hmu.
  apply (reader_goto_inv r r' k x y); auto.
  - rewrite Em, Hy, Hmu. done.
  - intros j z Hj Hne. split; rewrite ?Hd, ?Hx; try done; [by destruct Hw as [->|[-> ->]]|].
    intros Hz. apply (H1 j z Hj) in Hz. congruence.
  - rewrite Hx. destruct Hw as [->|[Hw Hw']]; [done|]. rewrite H4, Hw, Hw'. done.
Qed.

Lemma coreOk_refl r : coreOk r r.
Proof. split; auto. Qed.

Lemma coreOk_start r r' : coreOk r r' -> coreOk r (start r').
Proof.
  intros Hc. unfold start. destruct (r_worker r') eqn:Hw; try exact Hc. destruct Hc as [H1 H2 H3 H4 H5]. split; cbn; try done. right. destruct H4 as [H4|[? ?]]; split; congruence.
Qed.

Lemma coreOk_free r r' : coreOk r r' -> coreOk r (freePending r').
Proof. intros [H1 H2 H3 H4 H5]. unfold freePending. rewrite giveBack_eq. by split. Qed.

#[local] Hint Resolve coreOk_refl coreOk_start coreOk_free : core.

Lemma start_fields r : r_pending (start r) = r_pending r /\ r_closed (start r) = r_closed r /\ r_mu (start r) = r_mu r /\ r_worker (start r) <> WNew /\ r_queue (start r) = r_queue r
  /\ r_done (start r) = r_done r /\ r_exited (start r) = r_exited r /\ r_calls (start r) = r_calls r.
Proof. unfold start. destruct (r_worker r) eqn:Hw; cbn; split_and!; congruence. Qed.

Lemma return_held r r' k y res :
  inv r -> r_calls r !! k = Some y -> holder y = true -> coreOk r r' -> (r_closed r' = true -> ended r') -> inv (return_ r' k res).
Proof. intros Hi Hk Hy [? ? ? ? ?] Hcl. apply (held_inv r _ k _ y); [done|done|done|by split|done|done|done]. Qed.

Lemma free_fields r : r_closed (freePending r) = r_closed r /\ r_mu (freePending r) = r_mu r /\ r_queue (freePending r) = r_queue r
  /\ r_done (freePending r) = r_done r /\ r_exited (freePending r) = r_exited r /\ r_pending (freePending r) = freed (r_pending r).
Proof. unfold freePending. by rewrite giveBack_eq. Qed.

Lemma ended_free r : ended r -> ended (freePending r).
Proof. intros (? & ? & ? & ? & ?). unfold ended, freePending. by rewrite giveBack_eq. Qed.

Lemma inv_getTop r k o now : inv r -> r_calls r !! k = Some (KGet o) -> inv (getTop r k o now).
Proof.
  intros Hi Hk. pose proof (iv_stages _ Hi _ _ Hk) as (Ho & Hw & Hsp). pose proof (iv_closed _ Hi) as Hcl. unfold getTop.
  destruct (r_done r) eqn:Hd; [by eapply return_held|]. destruct (expired _ _); [by eapply return_held|].
  eapply held_inv; [exact Hi|exact Hk|done|auto|done| |done]. cbn. split_and!; try done.
  destruct (r_closed r); [|done]. destruct (Hcl eq_refl) as [? _]. congruence.
Qed.

Lemma inv_getSelect r k o at' ver c now : inv r -> r_calls r !! k = Some (KSelect o at' ver) -> inv (getSelect r k o at' ver c now).
Proof.
  intros Hi Hk. pose proof (iv_stages _ Hi _ _ Hk) as (Ho & Hw & Hc & Hsp & Hv & Ha). pose proof (iv_closed _ Hi) as Hcl. destruct c; cbn [getSelect].
  - destruct (r_queue r); [|done]. eapply held_inv; [exact Hi|exact Hk|done|by split; auto|done|done|]. cbn. congruence.
  - destruct (r_done r); [by eapply return_held|done].
  - case_bool_decide; [done|]. eapply held_inv; [exact Hi|exact Hk|done|auto|done|done|done].
  - destruct (expired at' now); [|done]. eapply held_inv; [exact Hi|exact Hk|done|auto|done|done|done].
Qed.

Lemma inv_readLoop r k size : inv r -> r_calls r !! k = Some (KLoop size) -> inv (readLoop r k size).
Proof.
  intros Hi Hk. pose proof (iv_stages _ Hi _ _ Hk) as Hc. pose proof (iv_closed _ Hi) as Hcl. cbn in Hc. unfold readLoop. cbv zeta.
  destruct (free_fields r) as (F1 & F2 & F3 & F4 & F5 & F6). destruct (Z.eqb_spec (len (p_data (r_pending r))) 0) as [H0|H0].
  - destruct (p_err _) eqn:He; [eapply return_held; [done|exact Hk|done|auto|rewrite F1; congruence]|].
    destruct (start_fields (freePending r)) as (S1 & S2 & S3 & S4 & _). eapply held_inv; [exact Hi|exact Hk|done|auto|by rewrite S3, F2| |rewrite S2, F1; congruence].
    cbn. unfold spent. rewrite S1. split_and!; [done|done|done|by rewrite F6..].
  - eapply held_inv; [exact Hi|exact Hk|done|auto|done|done|done].
Qed.

Lemma inv_readCopy r k size now : inv r -> r_calls r !! k = Some (KCopy size) -> inv (readCopy r k size now).
Proof.
  intros Hi Hk. pose proof (iv_stages _ Hi _ _ Hk) as Hc. pose proof (iv_closed _ Hi) as Hcl. cbn in Hc. unfold readCopy. cbv zeta.
  destruct (expired _ _); [by eapply return_held|]. eapply return_held; [done|exact Hk|done|..].
  - unfold freePending. rewrite giveBack_eq. destruct (_ =? 0); split; auto.
  - unfold freePending. rewrite giveBack_eq. destruct (_ =? 0); cbn; congruence.
Qed.

Lemma inv_packetTop r k size : inv r -> r_calls r !! k = Some (KPacket size) -> inv (packetTop r k size).
Proof.
  intros Hi Hk. pose proof (iv_closed _ Hi) as Hcl. unfold packetTop. destruct (p_err _) eqn:He; [by eapply return_held|].
  destruct (start_fields r) as (S1 & S2 & S3 & S4 & S5 & S6 & S7 & S8).
  eapply held_inv; [exact Hi|exact Hk|done|auto|by rewrite S3| |]; [cbn; unfold spent; by rewrite S1|]. rewrite S2. unfold ended. by rewrite S1, S5, S6, S7.
Qed.

Lemma inv_packetGot r k size item : inv r -> r_calls r !! k = Some (KGot (OpPacket size) item) -> inv (packetGot r k size item).
Proof.
  intros Hi Hk. pose proof (iv_stages _ Hi _ _ Hk) as (_ & Hc & _). unfold packetGot. cbv zeta. rewrite giveBack_eq.
  destruct (p_err item); repeat case_match; (eapply return_held; [done|exact Hk|done|by split; auto|cbn; congruence]).
Qed.

Lemma inv_closeDrain r k : inv r -> r_calls r !! k = Some KDrain -> inv (closeDrain r k).
Proof.
  intros Hi Hk. destruct (iv_stages _ Hi _ _ Hk) as [Hd Hx]. unfold closeDrain. cbv zeta.
  destruct (free_fields r) as (F1 & F2 & F3 & F4 & F5 & F6). rewrite F3.
  assert (Hc : coreOk r (freePending r)) by auto. destruct Hc as [C1 C2 C3 C4 C5].
  eapply return_held; [done|exact Hk|done|..]; destruct (r_queue r) as [q|] eqn:Hq; rewrite ?giveBack_eq.
  - by split.
  - by split.
  - intros _. unfold ended. cbn [setLost setQueue setLeases r_done r_exited r_queue r_pending]. by rewrite F4, F5, F6.
  - intros _. unfold ended. cbn [setLost setQueue setLeases r_done r_exited r_queue r_pending]. by rewrite F3, F4, F5, F6.
Qed.

Lemma reader_inv_call r k c now : inv r -> inv (callStep r k c now).
Proof.
  intros Hi. pose proof (iv_closed _ Hi) as Hcl. unfold callStep. destruct (r_calls r !! k) as [x|] eqn:Hk; [|done]. pose proof (iv_stages _ Hi _ _ Hk) as Hs.
  destruct x as [o|size|size|size|size|o|o at' ver|o item| | | |res].
  - destruct (r_mu r) as [|] eqn:Hmu; [done|]. eapply reader_goto_inv; [exact Hi|exact Hk|auto|by destruct o| | |done|apply (iv_exited _ Hi)|done].
    + intros j z Hj Hne. by split.
    + by destruct o.
  - destruct (r_done r) eqn:Hd; [by eapply return_held|]. eapply held_inv; [exact Hi|exact Hk|done|auto|done| |done].
    cbn. destruct (r_closed r); [|done]. destruct (Hcl eq_refl). congruence.
  - by apply inv_readLoop.
  - by apply inv_readCopy.
  - by apply inv_packetTop.
  - by apply inv_getTop.
  - by apply inv_getSelect.
  - destruct Hs as (Ho & Hc & Hsp). destruct o as [size|size|]; [|by apply inv_packetGot|done].
    eapply held_inv; [exact Hi|exact Hk|done|by split; auto|done|done|cbn; congruence].
  - destruct (start_fields (setDone r true (r_exited r))) as (S1 & S2 & S3 & S4 & S5 & S6 & S7 & S8).
    eapply reader_goto_inv; [exact Hi|exact Hk|auto|done| | |done|..].
    + intros j z Hj Hne. assert (Hc : coreOk (setDone r true (r_exited r)) (start (setDone r true (r_exited r)))) by auto. destruct Hc as [C1 C2 C3 C4 C5].
      split; rewrite ?C1, ?C2; try done.
    + cbn. by rewrite S6.
    + rewrite S7. cbn. rewrite (iv_exited _ Hi). unfold start. cbn. by destruct (r_worker r) eqn:Hw; cbn; rewrite ?Hw.
    + rewrite S2. intros H. destruct (Hcl H) as (? & ? & ? & ? & ?). unfold ended. rewrite S1, S5, S6, S7. done.
  - destruct (r_exited r) eqn:Hx; [|done]. destruct Hs as [Hd Hw]. eapply reader_goto_inv; [exact Hi|exact Hk|auto|done| | |done|apply (iv_exited _ Hi)|done].
    + intros j z Hj Hne. by split.
    + done.
  - by apply inv_closeDrain.
  - done.
Qed.

Lemma inv_spawn r x : inv r -> holder x = false -> stageOk r x -> inv (spawn r x).
Proof.
  intros [H1 H2 H3 H4 H5] Hx Hs.
  assert (Hl : forall j z, (r_calls r ++ [x]) !! j = Some z -> r_calls r !! j = Some z \/ (z = x /\ r_calls r !! j = None)).
  { intros j z. rewrite lookup_app. destruct (r_calls r !! j) eqn:Hj; [by left|]. intros H. apply list_lookup_singleton_Some in H as [_ <-]. auto. }
  split; try done.
  - intros j z [Hj|[-> Hj]]%Hl; [by apply H1|]. rewrite Hx. split; [done|]. intros Hm. destruct (H2 _ Hm). congruence.
  - intros j Hm. destruct (H2 _ Hm) as [z Hz]. exists z. by apply lookup_app_l_Some.
  - intros j z [Hj|[-> Hj]]%Hl; [by apply (H3 j)|done].
Qed.

Lemma inv_at r t : inv r -> inv (setAt r t).
Proof.
  intros [H1 H2 H3 H4 H5]. split; try done. intros k x Hk. specialize (H3 k x Hk).
  destruct x as [[| |]| | | | |o|o a v|o i| | | |]; cbn [stageOk setAt r_worker r_closed r_pending r_done r_exited r_ver r_at] in *; try done.
  destruct H3 as (? & ? & ? & ? & ? & ?). split_and!; [done|done|done|done|lia|lia].
Qed.

Lemma reader_inv_step r e : inv r -> inv (step r e).
Proof.
  intros Hi. destruct e; cbn [step]; auto using inv_at, inv_worker, reader_inv_call; apply inv_spawn; try done; by destruct (_ =? 0).
Qed.

Lemma reader_inv_new : inv NewReader.
Proof. by split. Qed.

Lemma reader_inv_run es : inv (run NewReader es).
Proof.
  induction es as [|e es IH] using rev_ind; [apply reader_inv_new|]. unfold run in *. rewrite foldl_app. by apply reader_inv_step.
Qed.

(** ** The pipeline of chunks

    Seen from the chunks, a step is one of a few moves; the locks, deadlines and
    the select choices only decide which. *)

Record pipe := mkPipe {
  q_out : list (list byte);
  q_packets : list (list byte * gostring);
  q_pending : packet;
  q_got : list packet;
  q_queue : option packet;
  q_worker : list packet;
  q_leases : list Z;
  q_made : list packet;
  q_lost : list byte;
  q_exited : bool;
  q_done : bool;
}.

Definition pipeOf (r : Reader) : pipe :=
  mkPipe (r_out r) (r_packets r) (r_pending r) (got r) (r_queue r) (workerItem r) (r_leases r) (r_made r) (r_lost r) (r_exited r) (r_done r).

(** The lease of a packet goes back. *)
Definition back (p : packet) (ls : list Z) : list Z := match p_lease p with Some i => alter (Z.add 1) i ls | None => ls end.

Definition cut (p : packet) (n : Z) : packet := mkPkt (zdrop n (p_data p)) (p_addr p) (p_err p) (p_lease p).

Definition dataOf (q : option packet) : list byte := match q with Some x => p_data x | None => [] end.

Definition backQueue (q : option packet) (ls : list Z) : list Z := match q with Some x => back x ls | None => ls end.

(** [pk] says whether packets are read; a stream is not. *)
Inductive move (pk : bool) : pipe -> pipe -> Prop :=
  | m_idle q : move pk q q
  | m_done o ps p g qu w ls made lost e d : move pk (mkPipe o ps p g qu w ls made lost e d) (mkPipe o ps p g qu w ls made lost e true)
  | m_exit o ps p g qu ls made lost e : move pk (mkPipe o ps p g qu [] ls made lost e true) (mkPipe o ps p g qu [] ls made lost true true)
  | m_fetch o ps p g qu ls made lost d data addr err :
      move pk (mkPipe o ps p g qu [] ls made lost false d)
        (mkPipe o ps p g qu [mkPkt data addr err None] ls (made ++ [mkPkt data addr err None]) lost false d)
  | m_lease o ps p g qu ls made lost d data addr err :
      move pk (mkPipe o ps p g qu [] ls made lost false d)
        (mkPipe o ps p g qu [mkPkt data addr err (Some (length ls))] (ls ++ [0]) (made ++ [mkPkt data addr err (Some (length ls))]) lost false d)
  | m_put o ps p g w ls made lost e d : (e = true -> p_err w <> None) ->
      move pk (mkPipe o ps p g None [w] ls made lost false d) (mkPipe o ps p g (Some w) [] ls made lost e d)
  | m_drop o ps p g qu w ls made lost :
      move pk (mkPipe o ps p g qu [w] ls made lost false true) (mkPipe o ps p g qu [] (back w ls) made (p_data w ++ lost) true true)
  | m_take o ps p x w ls made lost e d : move pk (mkPipe o ps p [] (Some x) w ls made lost e d) (mkPipe o ps p [x] None w ls made lost e d)
  | m_pend o ps p x qu w ls made lost e d :
      p_err p = None -> p_data p = [] -> p_lease p = None -> move pk (mkPipe o ps p [x] qu w ls made lost e d) (mkPipe o ps x [] qu w ls made lost e d)
  | m_free o ps p qu w ls made lost e d :
      p_data p = [] -> move pk (mkPipe o ps p [] qu w ls made lost e d) (mkPipe o ps (freed p) [] qu w (back p ls) made lost e d)
  | m_copy o ps p n qu w ls made lost e d :
      zdrop n (p_data p) <> [] ->
      move pk (mkPipe o ps p [] qu w ls made lost e d) (mkPipe (o ++ [ztake n (p_data p)]) ps (cut p n) [] qu w ls made lost e d)
  | m_last o ps p n qu w ls made lost e d :
      zdrop n (p_data p) = [] ->
      move pk (mkPipe o ps p [] qu w ls made lost e d) (mkPipe (o ++ [ztake n (p_data p)]) ps (freed p) [] qu w (back p ls) made lost e d)
  | m_packet o ps p x qu w ls made lost e d (keep : bool) : pk = true -> p_err p = None ->
      move pk (mkPipe o ps p [x] qu w ls made lost e d)
        (mkPipe o (if keep then ps ++ [(p_data x, p_addr x)] else ps) (mkPkt (p_data p) (p_addr p) (p_err x) (p_lease p)) [] qu w (back x ls) made lost e d)
  | m_drain o ps p qu ls made lost :
      move pk (mkPipe o ps p [] qu [] ls made lost true true)
        (mkPipe o ps (freed p) [] None [] (backQueue qu (back p ls)) made (p_data p ++ dataOf qu ++ lost) true true).

(** Whether a call reads packets. *)
Definition packetOp (o : op) : bool := match o with OpPacket _ => true | _ => false end.
Definition packetCall (x : stage) : bool :=
  match x with
  | KMu o | KGet o | KSelect o _ _ | KGot o _ => packetOp o
  | KPacket _ => true
  | _ => false
  end.

Definition callsOk (pk : bool) (r : Reader) : Prop := pk = false -> forall k x, r_calls r !! k = Some x -> packetCall x = false.

Lemma got_held r k y : inv r -> r_calls r !! k = Some y -> holder y = true -> got r = itemOf y.
Proof. intros Hi Hk Hy. unfold got. by rewrite (proj1 (iv_mu _ Hi _ _ Hk) Hy), Hk. Qed.

Lemma got_goto r r' k x y :
  inv r -> r_calls r !! k = Some y -> holder y = true -> r_mu r' = r_mu r -> r_calls r' = r_calls r -> got (goto r' k x) = itemOf x.
Proof.
  intros Hi Hk Hy Em Ec. unfold got, goto. cbn [setCalls r_mu r_calls]. rewrite Em, Ec, (proj1 (iv_mu _ Hi _ _ Hk) Hy).
  by rewrite list_lookup_insert_eq by (by eapply lookup_lt_Some).
Qed.

Lemma got_other r r' k x y :
  inv r -> r_calls r !! k = Some y -> holder y = false -> r_mu r' = r_mu r -> r_calls r' = r_calls r -> got (goto r' k x) = got r.
Proof.
  intros Hi Hk Hy Em Ec. unfold got, goto. cbn [setCalls r_mu r_calls]. rewrite Em, Ec. destruct (r_mu r) as [j|] eqn:Hm; [|done].
  destruct (decide (j = k)) as [->|Hne]; [|by rewrite list_lookup_insert_ne]. apply (iv_mu _ Hi _ _ Hk) in Hm. congruence.
Qed.

Lemma workerItem_start r : workerItem (start r) = workerItem r.
Proof. unfold workerItem, start. by destruct (r_worker r) eqn:Hw; cbn; rewrite ?Hw. Qed.

(** The chunks apart from the one just taken. *)
Definition flow (r : Reader) (g : list packet) : pipe :=
  mkPipe (r_out r) (r_packets r) (r_pending r) g (r_queue r) (workerItem r) (r_leases r) (r_made r) (r_lost r) (r_exited r) (r_done r).

Lemma flow_start r g : flow (start r) g = flow r g.
Proof. unfold flow. rewrite workerItem_start. unfold start. by destruct (r_worker r). Qed.

Lemma flow_return r k res : pipeOf (return_ r k res) = flow r [].
Proof. done. Qed.

Lemma flow_goto r r' k x y : inv r -> r_calls r !! k = Some y -> holder y = true -> r_mu r' = r_mu r -> r_calls r' = r_calls r -> pipeOf (goto r' k x) = flow r' (itemOf x).
Proof. intros. unfold pipeOf. by erewrite got_goto. Qed.

Lemma flow_held r k y : inv r -> r_calls r !! k = Some y -> holder y = true -> pipeOf r = flow r (itemOf y).
Proof. intros. unfold pipeOf. by erewrite got_held. Qed.

Lemma reader_move_worker pk r f stop : inv r -> move pk (pipeOf r) (pipeOf (workerStep r f stop)).
Proof.
  intros Hi. assert (Hx : r_worker r <> WExited -> r_exited r = false).
  { intros H. destruct (r_exited r) eqn:E; [|done]. by apply (iv_exited _ Hi) in E. }
  unfold workerStep, exit. destruct (r_worker r) as [| | |item|] eqn:Hw; try constructor; specialize (Hx ltac:(done)).
  - unfold pipeOf, workerItem. destruct (r_done r) eqn:Hd; cbn; rewrite Hw, ?Hd; constructor.
  - unfold pipeOf, workerItem. cbn. destruct (f_owned f); cbn; rewrite Hw, Hx; constructor.
  - unfold pipeOf, workerItem, got. rewrite giveBack_eq. destruct stop; [destruct (r_done r) eqn:Hd|destruct (r_queue r) eqn:Hq; [|destruct (p_err item) eqn:He]]; cbn;
      rewrite ?Hw, ?Hq, ?Hx, ?Hd; constructor; congruence.
Qed.

(** Steps of a call with the mutex. *)
Section held.
  Context (pk : bool) (r : Reader) (k : nat).
  Hypothesis Hi : inv r.

Lemma move_same y r' x : r_calls r !! k = Some y -> holder y = true -> itemOf y = [] -> itemOf x = [] -> r_mu r' = r_mu r -> r_calls r' = r_calls r ->
  flow r' [] = flow r [] -> move pk (pipeOf r) (pipeOf (goto r' k x)).
Proof.
  intros Hk Hy Iy Ix Em Ec Ef. rewrite (flow_held r k y Hi Hk Hy), (flow_goto r r' k x y Hi Hk Hy Em Ec), Iy, Ix, Ef. constructor.
Qed.

Lemma move_stop y res : r_calls r !! k = Some y -> holder y = true -> itemOf y = [] -> move pk (pipeOf r) (pipeOf (return_ r k res)).
Proof. intros Hk Hy Iy. rewrite flow_return, (flow_held r k y Hi Hk Hy), Iy. constructor. Qed.

Lemma flow_free r' g : flow (freePending r') g = mkPipe (r_out r') (r_packets r') (freed (r_pending r')) g (r_queue r') (workerItem r') (back (r_pending r') (r_leases r')) (r_made r') (r_lost r') (r_exited r') (r_done r').
Proof. unfold freePending. by rewrite giveBack_eq. Qed.

Lemma move_readLoop size : r_calls r !! k = Some (KLoop size) -> move pk (pipeOf r) (pipeOf (readLoop r k size)).
Proof.
  intros Hk. unfold readLoop. cbv zeta. destruct (Z.eqb_spec (len (p_data (r_pending r))) 0) as [H0|H0].
  - assert (Hd : p_data (r_pending r) = []) by (apply length_zero_iff_nil; lia). rewrite (flow_held r k _ Hi Hk eq_refl).
    destruct (free_fields r) as (F1 & F2 & F3 & F4 & F5 & F6). destruct (start_fields (freePending r)) as (S1 & S2 & S3 & S4 & S5 & S6 & S7 & S8).
    destruct (p_err _); [rewrite flow_return, flow_free; by constructor|].
    rewrite (flow_goto r _ k _ _ Hi Hk eq_refl); [|by rewrite S3, F2|rewrite S8; apply (coreOk_free r r), coreOk_refl].
    rewrite flow_start, flow_free. by constructor.
  - by eapply (move_same _ r _ Hk).
Qed.

Lemma move_readCopy size now : r_calls r !! k = Some (KCopy size) -> move pk (pipeOf r) (pipeOf (readCopy r k size now)).
Proof.
  intros Hk. unfold readCopy. cbv zeta. destruct (expired _ _); [by eapply (move_stop _ _ Hk)|]. rewrite (flow_held r k _ Hi Hk eq_refl), flow_return.
  destruct (Z.eqb_spec (len (zdrop size (p_data (r_pending r)))) 0) as [H0|H0].
  - unfold freePending. rewrite giveBack_eq. apply m_last. apply length_zero_iff_nil. lia.
  - apply m_copy. intros E. rewrite E in H0. done.
Qed.

Lemma move_packetGot size item : callsOk pk r -> r_calls r !! k = Some (KGot (OpPacket size) item) -> move pk (pipeOf r) (pipeOf (packetGot r k size item)).
Proof.
  intros Hpk Hk. assert (Ht : pk = true) by (destruct pk; [done|by specialize (Hpk eq_refl _ _ Hk)]).
  destruct (iv_stages _ Hi _ _ Hk) as (_ & _ & Hn & _). rewrite (flow_held r k _ Hi Hk eq_refl). unfold packetGot. cbv zeta. rewrite giveBack_eq.
  pose proof (fun keep => m_packet pk (r_out r) (r_packets r) (r_pending r) item (r_queue r) (workerItem r) (r_leases r) (r_made r) (r_lost r) (r_exited r) (r_done r) keep Ht Hn) as Hm.
  destruct (p_err item), (len (p_data item) =? 0), (size <? len (p_data item)); rewrite flow_return; solve [exact (Hm true)|exact (Hm false)].
Qed.

Lemma move_getSelect o at' ver c now : r_calls r !! k = Some (KSelect o at' ver) -> move pk (pipeOf r) (pipeOf (getSelect r k o at' ver c now)).
Proof.
  intros Hk. destruct c; cbn [getSelect].
  - destruct (r_queue r) as [q|] eqn:Hq; [|constructor]. rewrite (flow_held r k _ Hi Hk eq_refl), (flow_goto r _ k _ _ Hi Hk) by done. unfold flow. cbn. rewrite Hq. constructor.
  - destruct (r_done r); [by eapply (move_stop _ _ Hk)|constructor].
  - case_bool_decide; [constructor|]. by eapply (move_same _ r _ Hk).
  - destruct (expired at' now); [|constructor]. by eapply (move_same _ r _ Hk).
Qed.

Lemma move_closeDrain : r_calls r !! k = Some KDrain -> move pk (pipeOf r) (pipeOf (closeDrain r k)).
Proof.
  intros Hk. unfold closeDrain. cbv zeta. rewrite (flow_held r k _ Hi Hk eq_refl), flow_return. unfold freePending. rewrite giveBack_eq. cbn [r_queue setPending setLeases].
  destruct (iv_stages _ Hi _ _ Hk) as [Hd Hx]. assert (Hw : workerItem r = []) by (unfold workerItem; by rewrite (proj1 (iv_exited _ Hi) Hx)).
  destruct (r_queue r) as [q|] eqn:Hq; [rewrite giveBack_eq|]; unfold flow; cbn; unfold workerItem in *; cbn; rewrite Hq, Hw, Hx, Hd; exact (m_drain pk _ _ _ _ _ _ _).
Qed.

End held.

Lemma move_call pk r k c now : inv r -> callsOk pk r -> move pk (pipeOf r) (pipeOf (callStep r k c now)).
Proof.
  intros Hi Hpk. unfold callStep. destruct (r_calls r !! k) as [x|] eqn:Hk; [|constructor]. pose proof (iv_stages _ Hi _ _ Hk) as Hs.
  destruct x as [o|size|size|size|size|o|o at' ver|o item| | | |res].
  - destruct (r_mu r) as [|] eqn:Hm; [constructor|]. replace (pipeOf (goto _ _ _)) with (pipeOf r); [constructor|]. unfold pipeOf, got. cbn [goto setCalls setMu r_mu r_calls]. rewrite Hm.
    rewrite list_lookup_insert_eq by (by eapply lookup_lt_Some). by destruct o.
  - destruct (r_done r); [by eapply (move_stop _ _ _ Hi _ _ Hk)|by eapply (move_same _ _ _ Hi _ r _ Hk)].
  - by apply move_readLoop.
  - by apply move_readCopy.
  - unfold packetTop. destruct (p_err _); [by eapply (move_stop _ _ _ Hi _ _ Hk)|]. destruct (start_fields r) as (S1 & S2 & S3 & S4 & S5 & S6 & S7 & S8).
    eapply (move_same _ _ _ Hi _ (start r) _ Hk); try done. apply flow_start.
  - unfold getTop. destruct (r_done r); [by eapply (move_stop _ _ _ Hi _ _ Hk)|]. destruct (expired _ _); [by eapply (move_stop _ _ _ Hi _ _ Hk)|by eapply (move_same _ _ _ Hi _ r _ Hk)].
  - by apply move_getSelect.
  - destruct Hs as (Ho & Hc & Hsp). destruct o as [size|size|]; [|by apply move_packetGot|done].
    rewrite (flow_held r k _ Hi Hk eq_refl), (flow_goto r _ k _ _ Hi Hk) by done. destruct Hsp as (? & ? & ?); by apply m_pend.
  - destruct (start_fields (setDone r true (r_exited r))) as (S1 & S2 & S3 & S4 & S5 & S6 & S7 & S8).
    unfold pipeOf at 2. rewrite (got_other r _ k _ _ Hi Hk eq_refl S3 S8). change (move pk (pipeOf r) (flow (start (setDone r true (r_exited r))) (got r))). rewrite flow_start. apply m_done.
  - destruct (r_exited r); [|constructor]. unfold pipeOf at 2. rewrite (got_other r r k _ _ Hi Hk) by done. constructor.
  - by apply move_closeDrain.
  - constructor.
Qed.

Lemma got_spawn r x : inv r -> got (spawn r x) = got r.
Proof.
  intros Hi. unfold got. cbn [spawn setCalls r_mu r_calls]. destruct (r_mu r) as [k|] eqn:Hm; [|done]. destruct (iv_held _ Hi _ Hm) as [y Hy].
  by rewrite lookup_app, Hy.
Qed.

Lemma move_step pk r e : inv r -> callsOk pk r -> move pk (pipeOf r) (pipeOf (step r e)).
Proof.
  intros Hi Hpk. destruct e; cbn [step]; auto using reader_move_worker, move_call; unfold pipeOf at 2; rewrite ?got_spawn by done; constructor.
Qed.

(** ** Leases *)

Definition leaseOf (p : packet) : list nat := option_list (p_lease p).

Definition heldLeases (q : pipe) : list nat :=
  leaseOf (q_pending q) ++ mjoin (leaseOf <$> q_got q) ++ mjoin (leaseOf <$> option_list (q_queue q)) ++ mjoin (leaseOf <$> q_worker q).

(** The held leases are different and were not given back, the others were, once. *)
Definition leaseOk (ls : list Z) (held : list nat) : Prop :=
  NoDup held /\ (forall i, i ∈ held -> ls !! i = Some 0) /\ (forall i c, ls !! i = Some c -> i ∉ held -> c = 1).

Lemma lease_perm ls a b : a ≡ₚ b -> leaseOk ls a -> leaseOk ls b.
Proof.
  intros Hp (Hnd & H0 & H1). split_and!; [by rewrite <- Hp| |].
  - intros i Hi. apply H0. by rewrite Hp.
  - intros i c Hc Hi. apply (H1 i c Hc). by rewrite Hp.
Qed.

Lemma lease_back p ls held : leaseOk ls (leaseOf p ++ held) -> leaseOk (back p ls) held.
Proof.
  unfold back, leaseOf. destruct (p_lease p) as [i|]; [|done]. cbn. intros (Hnd & H0 & H1). apply NoDup_cons in Hnd as [Hi Hnd]. split_and!; [done| |].
  - intros j Hj. rewrite list_lookup_alter_ne by (intros ->; done). apply H0. by right.
  - intros j c. destruct (decide (i = j)) as [<-|Hne].
    + rewrite list_lookup_alter_eq, (H0 i ltac:(by left)). cbn. intros H _. by injection H as <-.
    + rewrite list_lookup_alter_ne by done. intros Hc Hj. apply (H1 j c Hc). intros [->|?]%elem_of_cons; done.
Qed.

Lemma lease_new ls held : leaseOk ls held -> leaseOk (ls ++ [0]) (length ls :: held).
Proof.
  intros (Hnd & H0 & H1). split_and!.
  - constructor; [|done]. intros Hi. apply H0, lookup_lt_Some in Hi. lia.
  - intros i [->|Hi]%elem_of_cons; [by rewrite lookup_app_r, Nat.sub_diag by lia|]. by apply lookup_app_l_Some, H0.
  - intros i c Hc Hi. apply (H1 i c); [|set_solver]. apply lookup_app_Some in Hc as [Hc|[Hlt Hc]]; [done|].
    apply list_lookup_singleton_Some in Hc as [Hz _]. exfalso. apply Hi. replace i with (length ls) by lia. by left.
Qed.

Lemma lease_move pk q q' : move pk q q' -> leaseOk (q_leases q) (heldLeases q) -> leaseOk (q_leases q') (heldLeases q').
Proof.
  intros [] Hl; unfold heldLeases in *; cbn in *; rewrite ?app_nil_r in *; try done.
  - eapply lease_perm; [|apply lease_new, Hl]. solve_Permutation.
  - apply lease_back. eapply lease_perm; [|apply Hl]. solve_Permutation.
  - unfold leaseOf in Hl at 1. by rewrite H1 in Hl.
  - by apply lease_back.
  - by apply lease_back.
  - apply lease_back. eapply lease_perm; [|apply Hl]. unfold leaseOf. cbn. solve_Permutation.
  - destruct qu as [y|]; cbn in *; rewrite ?app_nil_r in Hl; [|apply lease_back; by rewrite app_nil_r]. apply lease_back, lease_back. by rewrite app_nil_r.
Qed.

(** ** Bytes and packets *)

Definition pairOf (p : packet) : list byte * gostring := (p_data p, p_addr p).

Definition ahead (q : pipe) : list packet := q_got q ++ option_list (q_queue q) ++ q_worker q.

(** Packets come in the order they were fetched, each once. *)
Definition packetsOk (q : pipe) : Prop := (q_packets q ++ (pairOf <$> ahead q)) `sublist_of` (pairOf <$> q_made q).

(** Bytes come in order, none twice; none is lost while the worker runs. *)
Definition streamOk (q : pipe) : Prop :=
  (q_exited q = false -> q_lost q = []) /\
  mjoin (q_out q) ++ p_data (q_pending q) ++ mjoin (p_data <$> ahead q) ++ q_lost q = mjoin (p_data <$> q_made q).

(** A worker that is gone without [Close] has left its error. *)
Definition errorOk (q : pipe) : Prop :=
  q_exited q = true -> q_done q = true \/ Exists (fun p => p_err p <> None) (q_pending q :: q_got q ++ option_list (q_queue q)).

Lemma sublist_drop_mid {A} (a x b l : list A) : (a ++ x ++ b) `sublist_of` l -> (a ++ b) `sublist_of` l.
Proof. intros H. etrans; [|exact H]. by apply sublist_app, sublist_inserts_l. Qed.

Lemma packets_move pk q q' : move pk q q' -> packetsOk q -> packetsOk q'.
Proof.
  intros [] Hl; unfold packetsOk, ahead in *; cbn in *; rewrite ?app_nil_r in *; try done.
  - rewrite fmap_app in Hl. rewrite (app_assoc g), !fmap_app, (app_assoc ps). by apply sublist_app.
  - rewrite fmap_app in Hl. rewrite (app_assoc g), !fmap_app, (app_assoc ps). by apply sublist_app.
  - rewrite (app_assoc g), fmap_app, (app_assoc ps) in Hl. etrans; [|exact Hl]. by apply sublist_inserts_r.
  - by apply (sublist_drop_mid _ [pairOf x]).
  - destruct keep; [by rewrite <- app_assoc|by apply (sublist_drop_mid _ [pairOf x])].
  - etrans; [|exact Hl]. by apply sublist_inserts_r.
Qed.

Lemma stream_move q q' : move false q q' -> streamOk q -> streamOk q'.
Proof.
  intros [] [Hl Hs]; unfold streamOk, ahead in *; cbn in *; rewrite ?app_nil_r in *; (split; [try done|]); try done;
    repeat (rewrite fmap_app in Hs || rewrite join_app in Hs || rewrite fmap_app || rewrite join_app); cbn in Hs |- *; rewrite ?app_nil_r in Hs |- *.
  - rewrite <- Hs, Hl by done. by rewrite !app_nil_r, !app_assoc.
  - rewrite <- Hs, Hl by done. by rewrite !app_nil_r, !app_assoc.
  - intros _. by apply Hl.
  - by rewrite <- Hs, <- !app_assoc.
  - rewrite <- Hs, <- !app_assoc. by rewrite H0.
  - by rewrite H in Hs.
  - rewrite app_nil_r, <- Hs. rewrite <- !app_assoc, (app_assoc (ztake n _) (zdrop n _)). by rewrite ztake_zdrop.
  - rewrite app_nil_r, <- Hs. pose proof (ztake_zdrop n (p_data p)) as Hz. rewrite H, app_nil_r in Hz. by rewrite Hz, <- !app_assoc.
  - rewrite <- Hs. by destruct qu; cbn; rewrite ?app_nil_r.
Qed.

Lemma error_move pk q q' : move pk q q' -> errorOk q -> errorOk q'.
Proof.
  intros [] Hl; unfold errorOk in *; cbn in *; rewrite ?app_nil_r in *; try done; try (by left); rewrite ?Exists_cons, ?Exists_app in *; cbn in *; try tauto.
  - intros He. do 3 right. constructor. auto.
Qed.

Lemma pipe_run es : let q := pipeOf (run NewReader es) in leaseOk (q_leases q) (heldLeases q) /\ packetsOk q /\ errorOk q.
Proof.
  cbv zeta. induction es as [|e es (H1 & H2 & H3)] using rev_ind.
  - split; [split_and!; [apply NoDup_nil_2|set_solver|done]|]. split; [apply sublist_nil_l|intros [=]].
  - assert (Hm : move true (pipeOf (run NewReader es)) (pipeOf (run NewReader (es ++ [e])))).
    { unfold run. rewrite foldl_app. apply move_step; [apply reader_inv_run|done]. }
    split_and!; [by eapply lease_move|by eapply packets_move|by eapply error_move].
Qed.

(** Runs that read no packets. *)
Definition streamEvent (e : event) : bool := match e with EReadPacket _ => false | _ => true end.

Lemma calls_worker r f stop : r_calls (workerStep r f stop) = r_calls r.
Proof.
  unfold workerStep, exit. destruct (r_worker r) as [| | |item|]; [done|by destruct (r_done r)|by destruct (f_owned f)| |done].
  rewrite giveBack_eq. destruct stop; [by destruct (r_done r)|]. destruct (r_queue r); [done|by destruct (p_err item)].
Qed.

Lemma callsOk_step r e : inv r -> streamEvent e = true -> callsOk false r -> callsOk false (step r e).
Proof.
  intros Hi He Hc _. specialize (Hc eq_refl).
  assert (Hg : forall r' k x, r_calls r' = r_calls r -> packetCall x = false -> forall j y, r_calls (goto r' k x) !! j = Some y -> packetCall y = false).
  { intros r' k x E Hx j y. cbn [goto setCalls r_calls]. rewrite E. intros [[_ ->]|[_ Hj]]%calls_goto; eauto. }
  assert (Hsp : forall x, packetCall x = false -> forall j y, r_calls (spawn r x) !! j = Some y -> packetCall y = false).
  { intros x Hx j y. cbn [spawn setCalls r_calls]. intros [Hj|[_ Hj]]%lookup_app_Some; [eauto|]. by apply list_lookup_singleton_Some in Hj as [_ <-]. }
  destruct e as [size|size| |t|f stop|k c now]; cbn [step]; try done.
  - apply Hsp. by destruct (_ =? 0).
  - by apply Hsp.
  - by rewrite calls_worker.
  - unfold callStep. destruct (r_calls r !! k) as [x|] eqn:Hk; [|done]. pose proof (Hc _ _ Hk) as Hx.
    destruct (start_fields r) as (S1 & S2 & S3 & S4 & S5 & S6 & S7 & S8). pose proof (co_calls _ _ (coreOk_free r r (coreOk_refl r))) as Fc.
    destruct x as [o|size|size|size|size|o|o at' ver|o item| | | |res]; cbn in Hx; try done.
    + destruct (r_mu r); [done|]. apply Hg; [done|by destruct o].
    + destruct (r_done r); by apply Hg.
    + unfold readLoop. cbv zeta. destruct (_ =? 0); [|by apply Hg]. destruct (p_err _); apply Hg; try done. unfold start. by destruct (r_worker (freePending r)).
    + unfold readCopy. cbv zeta. unfold freePending. rewrite giveBack_eq. destruct (expired _ _); [by apply Hg|]. by destruct (_ =? 0); apply Hg.
    + unfold getTop. destruct (r_done r); [by apply Hg|]. by destruct (expired _ _); apply Hg.
    + destruct c; cbn [getSelect].
      * destruct (r_queue r); [by apply Hg|done].
      * destruct (r_done r); [by apply Hg|done].
      * case_bool_decide; [done|by apply Hg].
      * destruct (expired _ _); [by apply Hg|done].
    + destruct o; [by apply Hg|done|done].
    + apply Hg; [|done]. unfold start. by destruct (r_worker (setDone r true (r_exited r))).
    + destruct (r_exited r); [by apply Hg|done].
    + unfold closeDrain. cbv zeta. unfold freePending. rewrite giveBack_eq. apply Hg; [|done]. cbn [r_queue setPending setLeases]. destruct (r_queue r); rewrite ?giveBack_eq; done.
Qed.

Lemma stream_run es : Forall (fun e => streamEvent e = true) es -> streamOk (pipeOf (run NewReader es)).
Proof.
  intros Hes. cut (streamOk (pipeOf (run NewReader es)) /\ callsOk false (run NewReader es)); [by intros []|].
  induction es as [|e es IH] using rev_ind; [done|]. apply Forall_app in Hes as [Hes He]. destruct (IH Hes) as [H1 H2]. rewrite Forall_singleton in He.
  unfold run in *. rewrite foldl_app. cbn [foldl]. split; [|exact (callsOk_step _ _ (reader_inv_run es) He H2)].
  eapply stream_move; [|exact H1]. apply move_step; [apply (reader_inv_run es)|done].
Qed.

Lemma held_chunks q : heldLeases q = mjoin (leaseOf <$> (q_pending q :: ahead q)).
Proof. unfold heldLeases, ahead. cbn. by rewrite !fmap_app, !join_app. Qed.

(** Once closed there is no chunk left. *)
Lemma closed_empty r : inv r -> r_closed r = true -> heldLeases (pipeOf r) = [].
Proof.
  intros Hi Hcl. destruct (iv_closed _ Hi Hcl) as (_ & Hx & Hq & Hp & _). apply (iv_exited _ Hi) in Hx.
  assert (Hg : got r = []).
  { unfold got. destruct (r_mu r) as [k|] eqn:Hm; [|done]. destruct (r_calls r !! k) as [x|] eqn:Hk; [|done].
    destruct x; try done. destruct (iv_stages _ Hi _ _ Hk) as (_ & ? & _). congruence. }
  unfold heldLeases, leaseOf. cbn. unfold workerItem. by rewrite Hp, Hg, Hq, Hx.
Qed.

(** ** Properties *)

(** C31: the lease of a chunk is given back at most once, and not before the
    bytes of the chunk are copied out or dropped: the leases of the current, the
    queued and the next chunk are not given back; when a [Close] has returned,
    every lease was given back, once. *)
Theorem reader_leases (es : list event) :
  let r := run NewReader es in
  (forall i c, r_leases r !! i = Some c -> c = 0 \/ c = 1) /\
  (forall p i, p ∈ r_pending r :: got r ++ option_list (r_queue r) ++ workerItem r -> p_lease p = Some i -> r_leases r !! i = Some 0) /\
  (r_closed r = true -> forall i c, r_leases r !! i = Some c -> c = 1).
Proof.
  cbv zeta. destruct (pipe_run es) as ((Hnd & H0 & H1) & _). pose proof (reader_inv_run es) as Hi. set (r := run NewReader es) in *. split_and!.
  - intros i c Hc. destruct (decide (i ∈ heldLeases (pipeOf r))) as [Hh|Hh]; [left|right; by apply (H1 i)].
    apply H0 in Hh. cbn in Hh. congruence.
  - intros p i Hp Hl. apply H0. rewrite held_chunks. apply list_elem_of_join. exists (leaseOf p). split; [unfold leaseOf; rewrite Hl; by left|].
    by apply list_elem_of_fmap_2.
  - intros Hcl i c Hc. apply (H1 i c Hc). rewrite (closed_empty r Hi Hcl). apply not_elem_of_nil.
Qed.

(** C32: [Read] returns the fetched bytes in order: what was returned, what is
    held and what [Close] dropped is all that was fetched, and while the worker
    runs nothing is dropped. *)
Theorem reader_stream (es : list event) :
  Forall (fun e => streamEvent e = true) es ->
  let r := run NewReader es in
  mjoin (r_out r) ++ p_data (r_pending r) ++ mjoin (p_data <$> got r ++ option_list (r_queue r) ++ workerItem r) ++ r_lost r = mjoin (p_data <$> r_made r) /\
  mjoin (r_out r) `prefix_of` mjoin (p_data <$> r_made r) /\
  (r_exited r = false -> r_lost r = []).
Proof.
  intros Hes. cbv zeta. destruct (stream_run es Hes) as [Hl Hs]. split_and!; [exact Hs| |exact Hl]. exists (p_data (r_pending (run NewReader es)) ++ mjoin (p_data <$> ahead (pipeOf (run NewReader es))) ++ r_lost (run NewReader es)).
  symmetry. exact Hs.
Qed.

(** [ReadPacket] returns packets in the order in which they were fetched,
    with their addresses, each at most once. *)
Theorem reader_packets (es : list event) :
  let r := run NewReader es in r_packets r `sublist_of` (pairOf <$> r_made r).
Proof. cbv zeta. destruct (pipe_run es) as (_ & Hp & _). etrans; [|exact Hp]. by apply sublist_inserts_r. Qed.

(** C33: a reader at its select is never stuck: a chunk, [Close] and the deadline
    each let it go on, and when there is neither of them the worker still runs. *)
Theorem reader_wakeups (es : list event) (k : nat) (o : op) (at' : option Z) (ver : nat) (now : Z) :
  let r := run NewReader es in
  r_calls r !! k = Some (KSelect o at' ver) ->
  (forall item, r_queue r = Some item -> r_calls (callStep r k PQueue now) !! k = Some (KGot o item)) /\
  (r_done r = true -> r_calls (callStep r k PDone now) !! k = Some (KReturned (Fail ErrNetClosed))) /\
  (r_done r = false -> expired (r_at r) now = true ->
     exists c, r_calls (run r [ECall k c now; ECall k c now]) !! k = Some (KReturned (Fail ErrDeadlineExceeded))) /\
  (r_queue r = None -> r_done r = false -> r_worker r = WTop \/ r_worker r = WNext \/ exists item, r_worker r = WPut item).
Proof.
  cbv zeta. intros Hk. destruct (pipe_run es) as (_ & _ & He). pose proof (reader_inv_run es) as Hi. set (r := run NewReader es) in *.
  pose proof (lookup_lt_Some _ _ _ Hk) as Hlt. destruct (iv_stages _ Hi _ _ Hk) as (Ho & Hw & Hc & Hsp & Hv & Ha). split_and!.
  - intros item Hq. unfold callStep. rewrite Hk. cbn [getSelect]. rewrite Hq. cbn. by rewrite list_lookup_insert_eq.
  - intros Hd. unfold callStep. rewrite Hk. cbn [getSelect]. rewrite Hd. cbn. by rewrite list_lookup_insert_eq.
  - intros Hd Hx.
    assert (Hg : exists c, callStep r k c now = goto r k (KGet o)).
    { destruct (decide (ver = r_ver r)) as [E|E].
      - exists PTimeout. unfold callStep. rewrite Hk. cbn [getSelect]. by rewrite (Ha E), Hx.
      - exists PChanged. unfold callStep. rewrite Hk. cbn [getSelect]. by rewrite bool_decide_false. }
    destruct Hg as [c Hg]. exists c. unfold run. cbn [foldl step]. rewrite Hg. unfold callStep. cbn [goto setCalls r_calls]. rewrite list_lookup_insert_eq by done.
    unfold getTop. cbn [goto setCalls r_done r_at]. rewrite Hd, Hx. cbn. by rewrite list_lookup_insert_eq by (by rewrite length_insert).
  - intros Hq Hd. destruct (r_worker r) as [| | |item|] eqn:Hww; eauto; [done|]. exfalso.
    specialize (He (proj2 (iv_exited _ Hi) Hww)) as [He|He]; [cbn in He; congruence|]. cbn in He.
    rewrite Hq, (got_held r k _ Hi Hk eq_refl) in He. cbn in He. apply Exists_cons in He as [He|He]; [|by apply Exists_nil in He]. by destruct Hsp.
Qed.

(** ** Witnesses *)

Definition fetch (data : list byte) (err : option error) : fetched := mkFetched data [] err true.

(** Two chunks, read in three pieces; the reader then waits for the third. *)
Definition streamRun : list event :=
  [ERead 2; ECall 0 PQueue 0; ECall 0 PQueue 0; ECall 0 PQueue 0; ECall 0 PQueue 0;
   EWorker (fetch [] None) false; EWorker (fetch (bs "abc") None) false; EWorker (fetch [] None) false;
   ECall 0 PQueue 0; ECall 0 PQueue 0; ECall 0 PQueue 0; ECall 0 PQueue 0;
   EWorker (fetch [] None) false; EWorker (fetch (bs "d") None) false; EWorker (fetch [] None) false;
   ERead 5; ECall 1 PQueue 0; ECall 1 PQueue 0; ECall 1 PQueue 0; ECall 1 PQueue 0;
   ERead 5; ECall 2 PQueue 0; ECall 2 PQueue 0; ECall 2 PQueue 0; ECall 2 PQueue 0; ECall 2 PQueue 0; ECall 2 PQueue 0; ECall 2 PQueue 0; ECall 2 PQueue 0;
   ERead 5; ESetDeadline (Some 7); ECall 3 PQueue 0; ECall 3 PQueue 0; ECall 3 PQueue 0; ECall 3 PQueue 0].

Lemma reader_stream_witness :
  mjoin (r_out (run NewReader streamRun)) = bs "abcd" /\ mjoin (r_out (run NewReader streamRun)) `prefix_of` mjoin (p_data <$> r_made (run NewReader streamRun)).
Proof.
  split; [vm_compute; reflexivity|]. apply (reader_stream streamRun). by apply Forall_forall; intros e He; repeat (apply elem_of_cons in He as [->|He]; [done|]); apply elem_of_nil in He.
Defined.

Lemma reader_wakeups_witness :
  exists c, r_calls (run (run NewReader streamRun) [ECall 3 c 7; ECall 3 c 7]) !! 3%nat = Some (KReturned (Fail ErrDeadlineExceeded)).
Proof. apply (reader_wakeups streamRun 3 (OpRead 5) (Some 7) 1 7); vm_compute; reflexivity. Defined.
