(* ===== verification/Pool.v ===== *)
(** * The carrier pools of the client: [pkg/client] (scaler.go, the pool parts of client.go)

    A client keeps two pools of physical connections, for H2 and for H3.  A
    stream is put on the carrier with the fewest streams; an autoscaler adds
    carriers and removes idle ones, never the base carriers.  A carrier is an
    object with a counter of its streams; [c_id] is its identity.  Every
    operation below runs under the client's locks. *)
From S2P Require Import Prelude GoNet Auth UdpReplay.

Open Scope Z_scope.

(** ** The code *)

Definition ErrPoolAtCapacity := Errorf "chitanda: connection pool reached maximum capacity".
Definition ErrUnsupportedTransport := Errorf "chitanda: transport does not support carrier scaling".
Definition errClientClosed := Errorf "client closed".

(** The fields of [h2TransportClient] and [h3TransportManager] that the pool
    uses. *)
Record carrier := mkCarrier {
  c_id : nat;
  activeStreams : Z;
  isDynamic : bool;
  idleSince : Z;
}.

Record pool := mkPool {
  carriers : list carrier;
  base : nat;                        (* baseH2Carriers, baseH3Carriers *)
  nextIdx : Z;                       (* nextH2Idx, nextH3Idx *)
}.

Record Client := mkClient {
  h2 : pool;
  h3 : pool;
  maxCarriers : Z;
  c_closed : bool;
}.

Definition tH2 : gostring := bs "h2".
Definition tH3 : gostring := bs "h3".

Definition poolOf (c : Client) (transport : gostring) : option pool :=
  if bool_decide (transport = tH2) then Some (h2 c)
  else if bool_decide (transport = tH3) then Some (h3 c)
  else None.

Definition setPool (c : Client) (transport : gostring) (p : pool) : Client :=
  if bool_decide (transport = tH2) then mkClient p (h3 c) (maxCarriers c) (c_closed c)
  else if bool_decide (transport = tH3) then mkClient (h2 c) p (maxCarriers c) (c_closed c)
  else c.

(** The sizes [New] derives from its configuration; the pools are empty for
    the transports without carriers. *)
Definition DefaultTCPPoolSize : Z := 4.

Definition poolSizes (tcpPoolSize udpPoolSize maxPoolSize : Z) (usesPools onlyH3 tcpOverH3 : bool) : nat * nat * Z :=
  let tcp := if tcpPoolSize <=? 0 then DefaultTCPPoolSize else tcpPoolSize in
  let tcp := if 16 <? tcp then 16 else tcp in
  let udp := if udpPoolSize <=? 0 then tcp else udpPoolSize in
  let udp := if 16 <? udp then 16 else udp in
  let h2Count := if onlyH3 then 0 else tcp in
  let h3Count := if tcpOverH3 && (udp <? tcp) then tcp else udp in
  let max := if maxPoolSize <=? 0 then 8 else maxPoolSize in
  let max := if 16 <? max then 16 else max in
  let max := if max <? tcp then tcp else max in
  let max := if max <? udp then udp else max in
  if usesPools then (Z.to_nat h2Count, Z.to_nat h3Count, max) else (0%nat, 0%nat, max).

Definition newPool (n : nat) (firstId : nat) : pool :=
  mkPool ((fun i => mkCarrier (firstId + i) 0 false zeroTime) <$> seq 0 n) n 0.

Definition BasePoolSize (c : Client) (transport : gostring) : Z :=
  if bool_decide (transport = tH3) then Z.of_nat (base (h3 c)) else Z.of_nat (base (h2 c)).

Definition MaxPoolSize (c : Client) : Z := maxCarriers c.

Record PoolStats := mkStats {
  TotalCarriers : Z;
  BaseCarriers : Z;
  DynamicCarriers : Z;
  ActiveStreams : list Z;
  MinActiveStreams : Z;
  MaxActiveStreams : Z;
  TotalActiveStreams : Z;
}.

(** The loop of [Stats] over the carriers. *)
Fixpoint statsLoop (cs : list carrier) (minS maxS sumS : Z) : Z * Z * Z :=
  match cs with
  | [] => (minS, maxS, sumS)
  | c :: rest =>
      let act := activeStreams c in
      statsLoop rest (if act <? minS then act else minS) (if maxS <? act then act else maxS) (i64 (sumS + act))
  end.

Definition poolStats (p : pool) : PoolStats :=
  let total := len (carriers p) in
  let b := if total <? Z.of_nat (base p) then total else Z.of_nat (base p) in
  let streams := activeStreams <$> carriers p in
  match carriers p with
  | [] => mkStats total b (total - b) [] 0 0 0
  | c :: _ =>
      let '(minS, maxS, sumS) := statsLoop (carriers p) (activeStreams c) (activeStreams c) 0 in
      mkStats total b (total - b) streams minS maxS sumS
  end.

Definition Stats (c : Client) (transport : gostring) : PoolStats :=
  match poolOf c transport with
  | Some p => poolStats p
  | None => mkStats 0 0 0 [] 0 0 0
  end.

(** [AddCarrier] up to the handshake: the checks that come before it. *)
Definition addCheck (c : Client) (transport : gostring) (ctxErr : option error) : option error :=
  match ctxErr with
  | Some e => Some e
  | None =>
      if c_closed c then Some errClientClosed
      else match poolOf c transport with
      | None => Some ErrUnsupportedTransport
      | Some p => if maxCarriers c <=? len (carriers p) then Some ErrPoolAtCapacity else None
      end
  end.

(** The registration behind the handshake, which began at [since]; [id] is the
    new carrier. *)
Definition addRegister (c : Client) (transport : gostring) (ctxErr : option error) (id : nat) (since : Z)
  : option error * Client :=
  match poolOf c transport with
  | None => (Some ErrUnsupportedTransport, c)
  | Some p =>
      let atCapacity := maxCarriers c <=? len (carriers p) in
      if c_closed c then (Some errClientClosed, c)
      else match ctxErr with
      | Some e => (Some e, c)
      | None =>
          if atCapacity then (Some ErrPoolAtCapacity, c)
          else (None, setPool c transport (mkPool (carriers p ++ [mkCarrier id 0 true since]) (base p) (nextIdx p)))
      end
  end.

(** The loop of [RemoveIdleCarrier] from the base on: the carriers with their
    new [idleSince], and what is behind the carrier to evict. *)
Fixpoint idleLoop (cs : list carrier) (minIdle now : Z) : list carrier * option (carrier * list carrier) :=
  match cs with
  | [] => ([], None)
  | c :: rest =>
      if activeStreams c =? 0 then
        let since := if idleSince c =? zeroTime then now else idleSince c in
        let c := mkCarrier (c_id c) (activeStreams c) (isDynamic c) since in
        if (minIdle =? 0) || (minIdle <=? Sub now since) then ([], Some (c, rest))
        else let '(before, found) := idleLoop rest minIdle now in (c :: before, found)
      else
        let c := mkCarrier (c_id c) (activeStreams c) (isDynamic c) zeroTime in
        let '(before, found) := idleLoop rest minIdle now in (c :: before, found)
  end.

(** The pool without the evicted carrier, if there is one. *)
Definition removeIdle (p : pool) (minIdle now : Z) : option carrier * pool :=
  if (length (carriers p) <=? base p)%nat then (None, p)
  else
    let '(before, found) := idleLoop (drop (base p) (carriers p)) minIdle now in
    match found with
    | Some (c, rest) => (Some c, mkPool (take (base p) (carriers p) ++ before ++ rest) (base p) (nextIdx p))
    | None => (None, mkPool (take (base p) (carriers p) ++ before) (base p) (nextIdx p))
    end.

Definition RemoveIdleCarrier (c : Client) (transport : gostring) (minIdle now : Z) : result (option carrier) * Client :=
  if c_closed c then (Fail errClientClosed, c)
  else match poolOf c transport with
  | None => (Fail ErrUnsupportedTransport, c)
  | Some p => let '(evicted, p') := removeIdle p minIdle now in (Ok evicted, setPool c transport p')
  end.

(** The loop of [pickBestH2Client] and [pickBestH3Manager] over the offsets
    from [start]: the index of the best carrier so far and its streams. *)
Fixpoint bestLoop (cs : list carrier) (start : Z) (offsets : list nat) (best : nat) (minActive : Z) : nat * Z :=
  match offsets with
  | [] => (best, minActive)
  | i :: rest =>
      let idx := Z.to_nat ((start + Z.of_nat i) mod len cs) in
      let active := from_option activeStreams 0 (cs !! idx) in
      if active <? minActive then bestLoop cs start rest idx active else bestLoop cs start rest best minActive
  end.

Definition addStream (d : Z) (c : carrier) : carrier := mkCarrier (c_id c) (activeStreams c + d) (isDynamic c) (idleSince c).

(** The chosen index, what the autoscaler is told, and the pool. *)
Definition pickBest (p : pool) : option (nat * Z) * pool :=
  let n := length (carriers p) in
  match carriers p with
  | [] => (None, p)
  | [c] => (Some (0%nat, activeStreams c + 1), mkPool [addStream 1 c] (base p) (nextIdx p))
  | cs =>
      let next := u64 (nextIdx p + 1) in
      let start := next mod Z.of_nat n in
      let minActive := from_option activeStreams 0 (cs !! Z.to_nat start) in
      let '(best, minActive) := bestLoop cs start (seq 1 (n - 1)) (Z.to_nat start) minActive in
      (Some (best, minActive + 1), mkPool (alter (addStream 1) best cs) (base p) next)
  end.

(** [Close] drops both pools. *)
Definition closeClient (c : Client) : Client :=
  mkClient (mkPool [] (base (h2 c)) (nextIdx (h2 c))) (mkPool [] (base (h3 c)) (nextIdx (h3 c))) (maxCarriers c) true.

(** ** Statistics and choice *)

Definition totalStreams (cs : list carrier) : Z := foldr (fun c a => activeStreams c + a) 0 cs.

Lemma statsLoop_spec cs lo hi sum m M S :
  statsLoop cs lo hi sum = (m, M, S) ->
  (forall c, c ∈ cs -> m <= activeStreams c <= M) /\ m <= lo /\ hi <= M /\
  (m = lo \/ m ∈ activeStreams <$> cs) /\ (M = hi \/ M ∈ activeStreams <$> cs) /\
  (0 <= sum -> Forall (fun c => 0 <= activeStreams c) cs -> sum + totalStreams cs < 2 ^ 63 -> S = sum + totalStreams cs).
Proof.
  revert lo hi sum. induction cs as [|c cs IH]; intros lo hi sum E; cbn in E.
  { injection E as <- <- <-. split_and!; [by intros c ?%elem_of_nil|lia|lia|by left|by left|]. cbn. lia. }
  apply IH in E as (H1 & H2 & H3 & H4 & H5 & H6). cbn [fmap list_fmap].
  split_and!.
  - intros x [->|Hx]%elem_of_cons; [|by apply H1]. destruct (Z.ltb_spec (activeStreams c) lo), (Z.ltb_spec hi (activeStreams c)); lia.
  - destruct (Z.ltb_spec (activeStreams c) lo); lia.
  - destruct (Z.ltb_spec hi (activeStreams c)); lia.
  - destruct H4 as [-> |?]; [|right; by right]. destruct (activeStreams c <? lo); [right; by left|by left].
  - destruct H5 as [-> |?]; [|right; by right]. destruct (hi <? activeStreams c); [right; by left|by left].
  - intros Hs [Hc Hcs]%Forall_cons Hlt. cbn [totalStreams foldr] in *. fold (totalStreams cs) in *.
    assert (0 <= totalStreams cs) by (clear -Hcs; induction Hcs; cbn; unfold totalStreams in *; lia).
    assert (i64 (sum + activeStreams c) = sum + activeStreams c) as Ei by (unfold i64; rewrite Z.mod_small; lia).
    rewrite Ei in H6. rewrite H6; [lia|lia|done|lia].
Qed.

(** [Stats] is what it says: on a pool with carriers, the smallest, the
    largest and the sum of the stream counters, and the split into base and
    dynamic carriers. *)
Theorem pool_stats_exact c transport p :
  poolOf c transport = Some p -> carriers p <> [] -> Forall (fun x => 0 <= activeStreams x) (carriers p) ->
  totalStreams (carriers p) < 2 ^ 63 ->
  let s := Stats c transport in
  MinActiveStreams s ∈ ActiveStreams s /\ MaxActiveStreams s ∈ ActiveStreams s /\
  (forall x, x ∈ ActiveStreams s -> MinActiveStreams s <= x <= MaxActiveStreams s) /\
  ActiveStreams s = activeStreams <$> carriers p /\ TotalActiveStreams s = totalStreams (carriers p) /\
  TotalCarriers s = len (carriers p) /\ BaseCarriers s + DynamicCarriers s = TotalCarriers s /\
  BaseCarriers s = Z.min (Z.of_nat (base p)) (len (carriers p)).
Proof.
  intros Hp Hne Hpos Hlt. unfold Stats. rewrite Hp. unfold poolStats.
  assert (forall (b t : Z), (if t <? b then t else b) = Z.min b t) as Hmin by (intros b t; destruct (Z.ltb_spec t b); lia).
  rewrite Hmin. destruct (carriers p) as [|x cs] eqn:E; [done|]. rewrite <- E in *.
  destruct (statsLoop _ _ _ 0) as [[m M] S] eqn:Es. apply statsLoop_spec in Es as (H1 & H2 & H3 & H4 & H5 & H6).
  cbn [MinActiveStreams MaxActiveStreams ActiveStreams TotalActiveStreams TotalCarriers BaseCarriers DynamicCarriers].
  assert (activeStreams x ∈ activeStreams <$> carriers p) as Hx by (rewrite E; by left).
  split_and!; [by destruct H4 as [-> |]|by destruct H5 as [-> |]| |done| |done|lia|done].
  - intros y (c' & -> & Hc')%list_elem_of_fmap. by apply H1.
  - rewrite H6; [lia|lia|done|lia].
Qed.

(** The loop keeps an index of a carrier with the fewest streams seen. *)
Lemma bestLoop_spec cs start offsets best m b' m' :
  0 < len cs -> (exists c, cs !! best = Some c /\ activeStreams c = m) ->
  bestLoop cs start offsets best m = (b', m') ->
  (exists c, cs !! b' = Some c /\ activeStreams c = m') /\ m' <= m /\
  (forall i c, i ∈ offsets -> cs !! Z.to_nat ((start + Z.of_nat i) mod len cs) = Some c -> m' <= activeStreams c).
Proof.
  intros Hn. revert best m. induction offsets as [|i offsets IH]; intros best m Hb E; cbn [bestLoop] in E.
  { injection E as <- <-. split_and!; [done|lia|]. by intros i c ?%elem_of_nil. }
  set (idx := Z.to_nat ((start + Z.of_nat i) mod len cs)) in *.
  assert (idx < length cs)%nat as Hidx.
  { unfold idx. pose proof (Z.mod_pos_bound (start + Z.of_nat i) (len cs) Hn). lia. }
  destruct (lookup_lt_is_Some_2 _ _ Hidx) as [c Hc]. rewrite Hc in E. cbn [from_option] in E.
  destruct (Z.ltb_spec (activeStreams c) m).
  - destruct (IH idx (activeStreams c) ltac:(by exists c) E) as (H1 & H2 & H3). split_and!; [done|lia|].
    intros j c' [->|Hj]%elem_of_cons Hc'; [|by apply (H3 j)]. fold idx in Hc'. assert (c' = c) as -> by congruence. done.
  - destruct (IH best m Hb E) as (H1 & H2 & H3). split_and!; [done|lia|].
    intros j c' [->|Hj]%elem_of_cons Hc'; [|by apply (H3 j)]. fold idx in Hc'. assert (c' = c) as -> by congruence. lia.
Qed.

(** The offsets reach every carrier. *)
Lemma offset_of n start j :
  0 <= start < n -> 0 <= j < n -> j = start \/ exists i, 1 <= i < n /\ (start + i) mod n = j.
Proof.
  intros Hs Hj. destruct (Z.lt_trichotomy j start) as [H|[->|H]]; [right|by left|right].
  - exists (n - start + j). split; [lia|]. replace (start + (n - start + j)) with (j + 1 * n) by lia.
    rewrite Z.mod_add by lia. apply Z.mod_small. lia.
  - exists (j - start). split; [lia|]. replace (start + (j - start)) with j by lia. apply Z.mod_small. lia.
Qed.

Lemma pickBest_spec p r p' :
  carriers p <> [] -> pickBest p = (r, p') ->
  exists b c, r = Some (b, activeStreams c + 1) /\ carriers p !! b = Some c /\
    (forall x, x ∈ carriers p -> activeStreams c <= activeStreams x) /\
    carriers p' = alter (addStream 1) b (carriers p) /\ base p' = base p.
Proof.
  intros Hne E. unfold pickBest in E. destruct (carriers p) as [|c0 [|c1 cs]] eqn:Ec; [done| |].
  { injection E as <- <-. exists 0%nat, c0. split_and!; [done|done| |done|done]. by intros x ->%list_elem_of_singleton. }
  rewrite <- Ec in *. set (n := length (carriers p)) in *.
  assert (2 <= Z.of_nat n) as Hn by (unfold n; rewrite Ec; cbn; lia).
  set (start := u64 (nextIdx p + 1) mod Z.of_nat n) in *.
  assert (0 <= start < Z.of_nat n) as Hs by (apply Z.mod_pos_bound; lia).
  assert (Z.to_nat start < length (carriers p))%nat as Hlt by (fold n; lia).
  destruct (lookup_lt_is_Some_2 _ _ Hlt) as [cst Hst]. rewrite Hst in E. cbn [from_option] in E.
  destruct (bestLoop _ _ _ _ _) as [b m] eqn:Eb. injection E as <- <-.
  apply bestLoop_spec in Eb as ((c & Hc & Hm) & H2 & H3); [|fold n; lia|by exists cst]. exists b, c.
  rewrite Hm. split_and!; [done|done| |done|done].
  intros x (j & Hj)%list_elem_of_lookup. pose proof (lookup_lt_Some _ _ _ Hj) as Hjn. fold n in Hjn.
  destruct (offset_of (Z.of_nat n) start (Z.of_nat j) Hs ltac:(lia)) as [Ej|(i & Hi & Ej)].
  - assert (x = cst) as -> by (rewrite <- Ej, Nat2Z.id in Hst; congruence). lia.
  - apply (H3 (Z.to_nat i)); [apply elem_of_seq; lia|]. fold n. rewrite Z2Nat.id by lia. rewrite Ej, Nat2Z.id. done.
Qed.

(** ** Runs *)

(** What happens to a client: streams begin on the best carrier and end,
    carriers are registered and removed, the client is closed. *)
Inductive poolEvent :=
  | EPick (transport : gostring)
  | EEnd (k : nat)                                  (* the [k]-th open stream *)
  | ERegister (transport : gostring) (ctxErr : option error) (since : Z)
  | ERemove (transport : gostring) (minIdle now : Z)
  | EClose.

(** The client, the open streams with the carriers they are on, and the
    identity of the next carrier. *)
Record PoolSys := mkPoolSys {
  ps_client : Client;
  ps_open : list (gostring * nat);
  ps_fresh : nat;
}.

(** A stream of carrier [id] ends: [activeStreams.Add(-1)] on its object. *)
Definition endStream (p : pool) (id : nat) : pool :=
  mkPool ((fun c => if bool_decide (c_id c = id) then addStream (-1) c else c) <$> carriers p) (base p) (nextIdx p).

Definition poolStep (s : PoolSys) (ev : poolEvent) : PoolSys :=
  let c := ps_client s in
  match ev with
  | EPick tr =>
      match poolOf c tr with
      | Some p =>
          match pickBest p with
          | (Some (i, _), p') =>
              match carriers p !! i with
              | Some x => mkPoolSys (setPool c tr p') (ps_open s ++ [(tr, c_id x)]) (ps_fresh s)
              | None => s
              end
          | (None, _) => s
          end
      | None => s
      end
  | EEnd k =>
      match ps_open s !! k with
      | Some (tr, id) =>
          let c' := match poolOf c tr with Some p => setPool c tr (endStream p id) | None => c end in
          mkPoolSys c' (delete k (ps_open s)) (ps_fresh s)
      | None => s
      end
  | ERegister tr ctxErr since =>
      let '(_, c') := addRegister c tr ctxErr (ps_fresh s) since in mkPoolSys c' (ps_open s) (S (ps_fresh s))
  | ERemove tr minIdle now => mkPoolSys (snd (RemoveIdleCarrier c tr minIdle now)) (ps_open s) (ps_fresh s)
  | EClose => mkPoolSys (closeClient c) (ps_open s) (ps_fresh s)
  end.

Definition poolRun (s : PoolSys) (evs : list poolEvent) : PoolSys := foldl poolStep s evs.

(** The open streams of a carrier. *)
Definition occ (x : gostring * nat) (l : list (gostring * nat)) : Z := len (filter (eq x) l).

Lemma occ_app x l1 l2 : occ x (l1 ++ l2) = occ x l1 + occ x l2.
Proof. unfold occ. by rewrite filter_app, len_app. Qed.

Lemma occ_one x y : occ x [y] = if bool_decide (x = y) then 1 else 0.
Proof. unfold occ. cbn. case_decide; case_bool_decide; done. Qed.

Lemma occ_delete x l k y : l !! k = Some y -> occ x l = (if bool_decide (x = y) then 1 else 0) + occ x (delete k l).
Proof.
  intros Hk. rewrite delete_take_drop. rewrite <- (take_drop_middle l k y Hk) at 1.
  change (y :: drop (S k) l) with ([y] ++ drop (S k) l). rewrite !occ_app, occ_one. lia.
Qed.

Lemma occ_pos x l : 0 < occ x l <-> x ∈ l.
Proof.
  unfold occ. split.
  - destruct (filter (eq x) l) as [|y f] eqn:E; [cbn; lia|]. intros _.
    assert (y ∈ filter (eq x) l) as Hy by (rewrite E; by left). by apply list_elem_of_filter in Hy as [<- ?].
  - intros Hx. assert (x ∈ filter (eq x) l) as Hy by (by apply list_elem_of_filter).
    destruct (filter (eq x) l); [by apply elem_of_nil in Hy|]. rewrite len_cons. lia.
Qed.

(** A pool and the streams on it.  [ids] are its base carriers. *)
Record poolOk (max : Z) (fresh : nat) (open : list (gostring * nat)) (ids : list nat) (tr : gostring) (p : pool) : Prop := {
  po_base : c_id <$> take (base p) (carriers p) = ids;
  po_length : length ids = base p;
  po_max : len (carriers p) <= max;
  po_ids : NoDup (c_id <$> carriers p);
  po_fresh : forall c, c ∈ carriers p -> (c_id c < fresh)%nat;
  po_streams : forall c, c ∈ carriers p -> activeStreams c = occ (tr, c_id c) open;
  po_open : forall id, (tr, id) ∈ open -> id ∈ c_id <$> carriers p;
}.

(** Every pool of an open client; the streams know their transport. *)
Definition sysOk (base2 base3 : list nat) (s : PoolSys) : Prop :=
  c_closed (ps_client s) = false ->
  poolOk (maxCarriers (ps_client s)) (ps_fresh s) (ps_open s) base2 tH2 (h2 (ps_client s)) /\
  poolOk (maxCarriers (ps_client s)) (ps_fresh s) (ps_open s) base3 tH3 (h3 (ps_client s)).

Lemma poolOk_same max fresh fresh' open open' ids tr p :
  (fresh <= fresh')%nat -> (forall id, occ (tr, id) open' = occ (tr, id) open) ->
  poolOk max fresh open ids tr p -> poolOk max fresh' open' ids tr p.
Proof.
  intros Hf Ho [H1 H2 H3 H4 H5 H6 H7]. split; try done.
  - intros c Hc. specialize (H5 c Hc). lia.
  - intros c Hc. rewrite Ho. by apply H6.
  - intros id Hid. apply H7, occ_pos. rewrite <- Ho. by apply occ_pos.
Qed.

(** The streams of the carriers change, nothing else. *)
Lemma poolOk_map max fresh open open' ids tr p cs nx (f : carrier -> carrier) :
  poolOk max fresh open ids tr p -> cs = f <$> carriers p -> (forall c, c_id (f c) = c_id c) ->
  (forall c, c ∈ carriers p -> activeStreams (f c) = occ (tr, c_id c) open') ->
  (forall id, (tr, id) ∈ open' -> id ∈ c_id <$> carriers p) ->
  poolOk max fresh open' ids tr (mkPool cs (base p) nx).
Proof.
  intros [H1 H2 H3 H4 H5 H6 H7] -> Hid Hact Hopen.
  assert (c_id <$> (f <$> carriers p) = c_id <$> carriers p) as E.
  { rewrite <- list_fmap_compose. apply list_fmap_ext. intros i x _. apply Hid. }
  split; cbn [carriers base].
  - rewrite fmap_take, E, <- fmap_take. exact H1.
  - done.
  - by rewrite length_fmap.
  - by rewrite E.
  - intros c (x & -> & Hx)%list_elem_of_fmap. rewrite Hid. by apply H5.
  - intros c (x & -> & Hx)%list_elem_of_fmap. rewrite Hid. by apply Hact.
  - rewrite E. done.
Qed.

(** Choosing and altering position [b] is altering the carrier with that
    identity. *)
Lemma alter_is_map (g : carrier -> carrier) cs b c :
  NoDup (c_id <$> cs) -> cs !! b = Some c ->
  alter g b cs = (fun x => if bool_decide (c_id x = c_id c) then g x else x) <$> cs.
Proof.
  intros Hnd Hb. apply list_eq. intros i. rewrite list_lookup_fmap. destruct (decide (i = b)) as [->|Hne].
  - rewrite list_lookup_alter_eq, Hb. cbn. by rewrite bool_decide_true.
  - rewrite list_lookup_alter_ne by done. destruct (cs !! i) as [x|] eqn:Hi; [|done]. cbn. rewrite bool_decide_false; [done|].
    intros E. apply Hne. eapply NoDup_lookup; [exact Hnd|rewrite list_lookup_fmap, Hi; done|]. rewrite list_lookup_fmap, Hb. cbn. congruence.
Qed.

Lemma poolOk_pick max fresh open ids tr p b m p' x :
  poolOk max fresh open ids tr p -> pickBest p = (Some (b, m), p') -> carriers p !! b = Some x ->
  poolOk max fresh (open ++ [(tr, c_id x)]) ids tr p'.
Proof.
  intros Hok E Hx. assert (carriers p <> []) as Hne by (intros En; by rewrite En in Hx).
  destruct (pickBest_spec p _ _ Hne E) as (b' & c & [= <- _] & Hc & _ & Ecs & Eb). assert (c = x) as -> by congruence.
  destruct p' as [cs bs nx]. cbn [carriers base] in *. subst bs. rewrite (alter_is_map _ _ _ x (po_ids _ _ _ _ _ _ Hok) Hx) in Ecs.
  eapply poolOk_map; [exact Hok|exact Ecs|by intros y; cbn; case_bool_decide| |].
  - intros y Hy. rewrite occ_app, occ_one. pose proof (po_streams _ _ _ _ _ _ Hok y Hy) as Hs.
    destruct (decide (c_id y = c_id x)) as [Ei|Ei].
    + rewrite (bool_decide_true (c_id y = c_id x)), bool_decide_true by congruence. cbn. lia.
    + rewrite (bool_decide_false (c_id y = c_id x)), bool_decide_false by congruence. lia.
  - intros id [Hid|Hid]%elem_of_app; [by apply (po_open _ _ _ _ _ _ Hok)|]. apply list_elem_of_singleton in Hid as [= ->].
    apply list_elem_of_fmap. exists x. split; [done|]. by eapply list_elem_of_lookup_2.
Qed.

Lemma poolOk_end max fresh open ids tr p k id :
  poolOk max fresh open ids tr p -> open !! k = Some (tr, id) ->
  poolOk max fresh (delete k open) ids tr (endStream p id).
Proof.
  intros Hok Hk. eapply poolOk_map; [exact Hok|done|by intros y; cbn; case_bool_decide| |].
  - intros y Hy. pose proof (po_streams _ _ _ _ _ _ Hok y Hy) as Hs. rewrite (occ_delete _ _ _ _ Hk) in Hs.
    destruct (decide (c_id y = id)) as [Ei|Ei].
    + rewrite (bool_decide_true (c_id y = id)) by done. rewrite bool_decide_true in Hs by congruence. cbn. lia.
    + rewrite (bool_decide_false (c_id y = id)) by done. rewrite bool_decide_false in Hs by congruence. lia.
  - intros x Hx%list_elem_of_delete_inv. by apply (po_open _ _ _ _ _ _ Hok).
Qed.

Lemma poolOk_add max fresh open ids tr p since :
  poolOk max fresh open ids tr p -> len (carriers p) < max -> (forall id, (tr, id) ∈ open -> (id < fresh)%nat) ->
  poolOk max (S fresh) open ids tr (mkPool (carriers p ++ [mkCarrier fresh 0 true since]) (base p) (nextIdx p)).
Proof.
  intros [H1 H2 H3 H4 H5 H6 H7] Hlt Hfr. assert (base p <= length (carriers p))%nat as Hb.
  { apply (f_equal length) in H1. rewrite length_fmap, length_take in H1. lia. }
  split; cbn [carriers base].
  - by rewrite take_app_le.
  - done.
  - rewrite len_app. cbn. lia.
  - rewrite fmap_app. apply NoDup_app. split_and!; [done| |apply NoDup_singleton].
    intros i (c & -> & Hc)%list_elem_of_fmap Hi. apply list_elem_of_singleton in Hi. specialize (H5 c Hc). cbn in Hi. lia.
  - intros c [Hc|Hc%list_elem_of_singleton]%elem_of_app; [specialize (H5 c Hc); lia|subst c; cbn; lia].
  - intros c [Hc|Hc%list_elem_of_singleton]%elem_of_app; [by apply H6|]. subst c. cbn.
    assert (~ 0 < occ (tr, fresh) open); [|unfold occ in *; lia]. rewrite occ_pos. intros Hin. specialize (Hfr _ Hin). lia.
  - intros i Hi. rewrite fmap_app. apply elem_of_app. left. by apply H7.
Qed.

(** What the pool knows of a carrier beside its idle time. *)
Definition vis (c : carrier) : nat * Z := (c_id c, activeStreams c).

(** What the loop does: the streams and identities stay, one idle carrier may
    go. *)
Lemma idleLoop_spec cs minIdle now before found :
  idleLoop cs minIdle now = (before, found) ->
  exists mid, vis <$> before = vis <$> mid /\
    match found with
    | Some (c, rest) => exists c0, cs = mid ++ c0 :: rest /\ c_id c = c_id c0 /\ activeStreams c0 = 0 /\ activeStreams c = 0 /\
        (minIdle <= 0 \/ minIdle <= Sub now (idleSince c))
    | None => cs = mid
    end.
Proof.
  revert before found. induction cs as [|c cs IH]; intros before found E; cbn [idleLoop] in E.
  { injection E as <- <-. by exists []. }
  assert (forall since bf fd, idleLoop cs minIdle now = (bf, fd) ->
    exists mid, vis <$> (mkCarrier (c_id c) (activeStreams c) (isDynamic c) since :: bf) = vis <$> mid /\
    match fd with
    | Some (c', rest) => exists c0, c :: cs = mid ++ c0 :: rest /\ c_id c' = c_id c0 /\ activeStreams c0 = 0 /\ activeStreams c' = 0 /\
        (minIdle <= 0 \/ minIdle <= Sub now (idleSince c'))
    | None => c :: cs = mid
    end) as Hgo.
  { intros since bf fd Ei. destruct (IH bf fd Ei) as (mid & E1 & E3). exists (c :: mid). cbn. split; [by f_equal|].
    destruct fd as [[c1 rest]|]; [|by f_equal]. destruct E3 as (c0 & -> & ?). by exists c0. }
  destruct (Z.eqb_spec (activeStreams c) 0) as [Ez|Hnz].
  - set (since := if idleSince c =? zeroTime then now else idleSince c) in *.
    destruct ((minIdle =? 0) || (minIdle <=? Sub now since)) eqn:Ec.
    + injection E as <- <-. exists []. split; [done|]. exists c. split_and!; [done|done|done|done|]. cbn. bool_to_prop. lia.
    + destruct (idleLoop cs minIdle now) as [bf fd]. injection E as <- <-. by apply Hgo.
  - destruct (idleLoop cs minIdle now) as [bf fd]. injection E as <- <-. by apply Hgo.
Qed.

Lemma poolOk_vis max fresh open ids tr p p' :
  vis <$> carriers p' = vis <$> carriers p -> base p' = base p -> poolOk max fresh open ids tr p -> poolOk max fresh open ids tr p'.
Proof.
  intros Ev Eb [H1 H2 H3 H4 H5 H6 H7]. assert (c_id <$> carriers p' = c_id <$> carriers p) as Ei.
  { apply (f_equal (fmap fst)) in Ev. by rewrite <- !list_fmap_compose in Ev. }
  assert (forall c, c ∈ carriers p' -> exists c0, c0 ∈ carriers p /\ vis c0 = vis c) as Hin.
  { intros c Hc. assert (vis c ∈ vis <$> carriers p) as (c0 & ? & ?)%list_elem_of_fmap by (rewrite <- Ev; by apply list_elem_of_fmap_2). by exists c0. }
  split.
  - rewrite Eb, fmap_take, Ei, <- fmap_take. done.
  - by rewrite Eb.
  - assert (length (carriers p') = length (carriers p)) as ->; [|done]. apply (f_equal length) in Ei. by rewrite !length_fmap in Ei.
  - by rewrite Ei.
  - intros c Hc. destruct (Hin c Hc) as (c0 & Hc0 & [= <- _]). by apply H5.
  - intros c Hc. destruct (Hin c Hc) as (c0 & Hc0 & [= <- <-]). by apply H6.
  - by rewrite Ei.
Qed.

(** The evicted carrier carries no stream, and is no base carrier. *)
Lemma poolOk_remove max fresh open ids tr p minIdle now ev p' :
  poolOk max fresh open ids tr p -> removeIdle p minIdle now = (ev, p') ->
  poolOk max fresh open ids tr p' /\
  (forall c, ev = Some c -> (tr, c_id c) ∉ open /\ c_id c ∉ ids /\ (minIdle <= 0 \/ minIdle <= Sub now (idleSince c))).
Proof.
  intros Hok E. unfold removeIdle in E. destruct (Nat.leb_spec (length (carriers p)) (base p)); [injection E as <- <-; by split|].
  destruct (idleLoop _ minIdle now) as [before found] eqn:El. apply idleLoop_spec in El as (mid & Ev & Hf).
  destruct found as [[c rest]|]; injection E as <- <-.
  2:{ split; [|done]. apply (poolOk_vis _ _ _ _ _ p); [|done|exact Hok]. cbn [carriers]. rewrite fmap_app, Ev, <- Hf, <- fmap_app, take_drop. done. }
  destruct Hf as (c0 & Ed & Hid & Hz0 & Hz & Hidle). set (bs := take (base p) (carriers p)) in *.
  assert (carriers p = bs ++ mid ++ c0 :: rest) as Ec by (unfold bs; by rewrite <- Ed, take_drop).
  assert (length bs = base p) as Hlb by (unfold bs; rewrite length_take; lia).
  pose proof Hok as [H1 H2 H3 H4 H5 H6 H7]. fold bs in H1. rewrite Ec in H3, H4, H5, H6, H7.
  assert ((tr, c_id c0) ∉ open) as Hfree.
  { intros Hin%occ_pos. rewrite <- H6 in Hin; [lia|]. rewrite !elem_of_app. right. right. by left. }
  assert (NoDup (c_id c0 :: (c_id <$> bs ++ mid ++ rest))) as Hnd.
  { assert (c_id <$> bs ++ mid ++ c0 :: rest ≡ₚ c_id c0 :: (c_id <$> bs ++ mid ++ rest)) as <-; [|done].
    rewrite !fmap_app. cbn [fmap list_fmap]. rewrite !app_assoc. symmetry. apply Permutation_middle. }
  apply NoDup_cons in Hnd as [Hnotin Hnd]. split.
  - apply (poolOk_vis _ _ _ _ _ (mkPool (bs ++ mid ++ rest) (base p) (nextIdx p))); [cbn; by rewrite !fmap_app, Ev|done|].
    assert (forall x, x ∈ bs ++ mid ++ rest -> x ∈ bs ++ mid ++ c0 :: rest) as Hsub.
    { intros x. rewrite !elem_of_app, elem_of_cons. tauto. }
    split; cbn [carriers base].
    + rewrite take_app_length' by done. done.
    + done.
    + rewrite !len_app, len_cons in *. lia.
    + done.
    + intros x Hx. by apply H5, Hsub.
    + intros x Hx. by apply H6, Hsub.
    + intros i Hi. specialize (H7 i Hi). rewrite !fmap_app in *. rewrite !elem_of_app in *. cbn [fmap list_fmap] in H7.
      rewrite elem_of_cons in H7. assert (i <> c_id c0) by (intros ->; done). tauto.
  - intros x [= <-]. rewrite Hid. split_and!; [done| |done]. rewrite <- H1. intros Hin. apply Hnotin. rewrite fmap_app. apply elem_of_app. by left.
Qed.

(** ** The client *)

Lemma transports_differ : tH2 <> tH3.
Proof. done. Qed.

(** An event of one transport leaves the pool of the other alone. *)
Lemma sysOk_set base2 base3 s tr p p' open' fresh' :
  sysOk base2 base3 s -> c_closed (ps_client s) = false -> poolOf (ps_client s) tr = Some p -> (ps_fresh s <= fresh')%nat ->
  (forall ids, poolOk (maxCarriers (ps_client s)) (ps_fresh s) (ps_open s) ids tr p ->
     poolOk (maxCarriers (ps_client s)) fresh' open' ids tr p') ->
  (forall tr' id, tr' <> tr -> occ (tr', id) open' = occ (tr', id) (ps_open s)) ->
  sysOk base2 base3 (mkPoolSys (setPool (ps_client s) tr p') open' fresh').
Proof.
  intros Hs Hc Hp Hf Hnew Hother _. destruct (Hs Hc) as [O2 O3]. unfold poolOf, setPool in *.
  destruct (bool_decide (tr = tH2)) eqn:E2.
  - apply bool_decide_eq_true in E2. subst tr. injection Hp as <-. cbn. split; [by apply Hnew|].
    eapply poolOk_same; [exact Hf|intros id; by apply Hother|done].
  - destruct (bool_decide (tr = tH3)) eqn:E3; [|done]. apply bool_decide_eq_true in E3. subst tr. injection Hp as <-. cbn.
    split; [|by apply Hnew]. eapply poolOk_same; [exact Hf|intros id; by apply Hother|done].
Qed.

Lemma sysOk_step base2 base3 s ev : sysOk base2 base3 s -> sysOk base2 base3 (poolStep s ev).
Proof.
  intros Hs. destruct (c_closed (ps_client s)) eqn:Hc.
  { intros Hc'. exfalso. revert Hc'. apply not_false_iff_true.
    assert (forall c tr p, c_closed (setPool c tr p) = c_closed c) as Hset.
    { intros c tr p. unfold setPool. by repeat case_bool_decide. }
    destruct ev; cbn [poolStep]; [repeat case_match; cbn; by rewrite ?Hset|repeat case_match; cbn; by rewrite ?Hset| | |done].
    - unfold addRegister. rewrite Hc. repeat case_match; simplify_eq; done.
    - unfold RemoveIdleCarrier. by rewrite Hc. }
  destruct ev as [tr|k|tr ctxErr since|tr minIdle now|]; cbn [poolStep].
  - destruct (poolOf (ps_client s) tr) as [p|] eqn:Hp; [|done]. destruct (pickBest p) as [[[i m]|] p'] eqn:Ep; [|done].
    destruct (carriers p !! i) as [x|] eqn:Hx; [|done]. eapply sysOk_set; [done|done|done|done| |].
    + intros ids Hok. by eapply poolOk_pick.
    + intros tr' id Hne. rewrite occ_app, occ_one, bool_decide_false by congruence. lia.
  - destruct (ps_open s !! k) as [[tr id]|] eqn:Hk; [|done].
    assert (forall tr' id', (tr', id') <> (tr, id) -> occ (tr', id') (delete k (ps_open s)) = occ (tr', id') (ps_open s)) as Hoth.
    { intros tr' id' Hne. rewrite (occ_delete _ _ _ _ Hk), bool_decide_false by done. lia. }
    destruct (poolOf (ps_client s) tr) as [p|] eqn:Hp.
    + eapply sysOk_set; [done|done|done|done|intros ids Hok; by apply poolOk_end|]. intros tr' id' Hne. apply Hoth. congruence.
    + intros Hc'. destruct (Hs Hc) as [O2 O3]. unfold poolOf in Hp.
      destruct (bool_decide (tr = tH2)) eqn:E2; [done|]. destruct (bool_decide (tr = tH3)) eqn:E3; [done|].
      apply bool_decide_eq_false in E2, E3.
      split; (eapply poolOk_same; [done|intros id'; apply Hoth; congruence|done]).
  - unfold addRegister. destruct (poolOf (ps_client s) tr) as [p|] eqn:Hp.
    2:{ intros Hc'. destruct (Hs Hc) as [O2 O3]. split; (eapply poolOk_same; [|done|done]); cbn; lia. }
    rewrite Hc. destruct ctxErr.
    { intros Hc'. destruct (Hs Hc) as [O2 O3]. split; (eapply poolOk_same; [|done|done]); cbn; lia. }
    destruct (Z.leb_spec (maxCarriers (ps_client s)) (len (carriers p))).
    { intros Hc'. destruct (Hs Hc) as [O2 O3]. split; (eapply poolOk_same; [|done|done]); cbn; lia. }
    eapply sysOk_set; [done|done|done|lia| |done]. intros ids Hok. apply poolOk_add; [done|lia|].
    intros i Hi. apply (po_open _ _ _ _ _ _ Hok) in Hi as (c & -> & Hc')%list_elem_of_fmap. by apply (po_fresh _ _ _ _ _ _ Hok).
  - unfold RemoveIdleCarrier. rewrite Hc. destruct (poolOf (ps_client s) tr) as [p|] eqn:Hp; [|done].
    destruct (removeIdle p minIdle now) as [ev p'] eqn:Er. cbn [snd]. eapply sysOk_set; [done|done|done|done| |done].
    intros ids Hok. by eapply poolOk_remove.
  - done.
Qed.

(** ** Properties *)

(** A new client. *)
Definition newClient (sizes : nat * nat * Z) : PoolSys :=
  let '(n2, n3, m) := sizes in mkPoolSys (mkClient (newPool n2 0) (newPool n3 n2) m false) [] (n2 + n3).

Definition baseIds (n firstId : nat) : list nat := (fun i => firstId + i)%nat <$> seq 0 n.

Lemma newPool_ids n firstId : c_id <$> carriers (newPool n firstId) = baseIds n firstId.
Proof. unfold newPool, baseIds. cbn. by rewrite <- list_fmap_compose. Qed.

Lemma newPool_ok max fresh n firstId tr :
  Z.of_nat n <= max -> (firstId + n <= fresh)%nat -> poolOk max fresh [] (baseIds n firstId) tr (newPool n firstId).
Proof.
  intros Hn Hf. assert (forall c, c ∈ carriers (newPool n firstId) -> activeStreams c = 0 /\ (c_id c < fresh)%nat) as Hc.
  { intros c (i & -> & Hi%elem_of_seq)%list_elem_of_fmap. cbn. lia. }
  split.
  - rewrite <- newPool_ids. cbn [base newPool]. rewrite take_ge; [done|]. unfold newPool. cbn. by rewrite length_fmap, length_seq.
  - unfold baseIds. by rewrite length_fmap, length_seq.
  - unfold newPool. cbn. by rewrite length_fmap, length_seq.
  - rewrite newPool_ids. unfold baseIds. apply NoDup_fmap_2; [intros x y; lia|apply NoDup_seq].
  - intros c ?%Hc. tauto.
  - intros c [-> _]%Hc. done.
  - by intros id ?%elem_of_nil.
Qed.

Lemma poolSizes_ok tcp udp max uses only over :
  let '(n2, n3, m) := poolSizes tcp udp max uses only over in Z.of_nat n2 <= m /\ Z.of_nat n3 <= m /\ m <= 16.
Proof.
  assert (forall x, (if 16 <? x then 16 else x) = Z.min 16 x) as Hmin by (intros x; destruct (Z.ltb_spec 16 x); lia).
  assert (forall x y : Z, (if x <? y then y else x) = Z.max x y) as Hmax by (intros x y; destruct (Z.ltb_spec x y); lia).
  unfold poolSizes, DefaultTCPPoolSize. cbv zeta. rewrite !Hmin, !Hmax.
  set (t := Z.min 16 (if tcp <=? 0 then 4 else tcp)). assert (1 <= t <= 16) as Ht by (unfold t; destruct (Z.leb_spec tcp 0); lia).
  clearbody t. set (u := Z.min 16 (if udp <=? 0 then t else udp)).
  assert (1 <= u <= 16) as Hu by (unfold u; destruct (Z.leb_spec udp 0); lia). clearbody u.
  set (m := Z.min 16 (if max <=? 0 then 8 else max)). assert (m <= 16) as Hm by lia. clearbody m.
  destruct uses; [|cbn; lia]. destruct only, over; cbn [andb]; try destruct (u <? t); lia.
Qed.

Lemma newClient_ok tcp udp max uses only over :
  let '(n2, n3, m) := poolSizes tcp udp max uses only over in
  sysOk (baseIds n2 0) (baseIds n3 n2) (newClient (n2, n3, m)).
Proof.
  pose proof (poolSizes_ok tcp udp max uses only over) as H. destruct (poolSizes _ _ _ _ _ _) as [[n2 n3] m].
  destruct H as (H2 & H3 & _). intros _. split; apply newPool_ok; cbn; lia.
Qed.

Lemma sysOk_run base2 base3 s evs : sysOk base2 base3 s -> sysOk base2 base3 (poolRun s evs).
Proof. revert s. induction evs as [|ev evs IH]; intros s Hs; [done|]. cbn. by apply IH, sysOk_step. Qed.

Lemma poolStep_max s ev : maxCarriers (ps_client (poolStep s ev)) = maxCarriers (ps_client s).
Proof.
  assert (forall c tr p, maxCarriers (setPool c tr p) = maxCarriers c) as Hset by (intros; unfold setPool; by repeat case_bool_decide).
  destruct ev; cbn [poolStep].
  - repeat case_match; cbn; by rewrite ?Hset.
  - repeat case_match; cbn; by rewrite ?Hset.
  - unfold addRegister. repeat case_match; simplify_eq; cbn; by rewrite ?Hset.
  - unfold RemoveIdleCarrier. repeat case_match; simplify_eq; cbn; by rewrite ?Hset.
  - done.
Qed.

Lemma sysOk_pool base2 base3 s tr p :
  sysOk base2 base3 s -> c_closed (ps_client s) = false -> poolOf (ps_client s) tr = Some p ->
  poolOk (maxCarriers (ps_client s)) (ps_fresh s) (ps_open s) (if bool_decide (tr = tH2) then base2 else base3) tr p.
Proof.
  intros Hs Hc Hp. destruct (Hs Hc) as [O2 O3]. unfold poolOf in Hp. case_bool_decide as E2; [by simplify_eq|].
  case_bool_decide as E3; [by simplify_eq|done].
Qed.

(** C39: whatever streams begin and end and whatever carriers are added and
    removed, until the client is closed: no pool grows beyond the configured
    maximum (at most 16); its base carriers stay, first and in order; every
    open stream's carrier is still in the pool; and every counter is exactly
    the number of open streams of its carrier. *)
Theorem pool_safe tcp udp max uses only over evs tr p :
  let '(n2, n3, m) := poolSizes tcp udp max uses only over in
  let s := poolRun (newClient (n2, n3, m)) evs in
  c_closed (ps_client s) = false -> poolOf (ps_client s) tr = Some p ->
  len (carriers p) <= m <= 16 /\
  c_id <$> take (base p) (carriers p) = (if bool_decide (tr = tH2) then baseIds n2 0 else baseIds n3 n2) /\
  (forall id, (tr, id) ∈ ps_open s -> id ∈ c_id <$> carriers p) /\
  (forall c, c ∈ carriers p -> activeStreams c = occ (tr, c_id c) (ps_open s)).
Proof.
  pose proof (poolSizes_ok tcp udp max uses only over) as Hm. pose proof (newClient_ok tcp udp max uses only over) as H0.
  destruct (poolSizes _ _ _ _ _ _) as [[n2 n3] m]. destruct Hm as (_ & _ & Hm). intros s Hc Hp.
  apply (sysOk_run _ _ _ evs) in H0. pose proof (sysOk_pool _ _ _ tr p H0 Hc Hp) as [O1 O2 O3 O4 O5 O6 O7].
  assert (maxCarriers (ps_client (poolRun (newClient (n2, n3, m)) evs)) = m) as Em.
  { clear. change m with (maxCarriers (ps_client (newClient (n2, n3, m)))) at 2. generalize (newClient (n2, n3, m)).
    induction evs as [|ev evs IH]; intros s; [done|]. cbn. rewrite IH. apply poolStep_max. }
  rewrite Em in O3. done.
Qed.

(** a stream goes to a carrier with the fewest streams of its pool, whose
    counter alone grows by one, and the autoscaler is told that counter. *)
Theorem pool_pick_least p :
  carriers p <> [] ->
  exists b c, fst (pickBest p) = Some (b, activeStreams c + 1) /\ carriers p !! b = Some c /\
    (forall x, x ∈ carriers p -> activeStreams c <= activeStreams x) /\
    carriers (snd (pickBest p)) = alter (addStream 1) b (carriers p).
Proof.
  intros Hne. destruct (pickBest p) as [r p'] eqn:E. destruct (pickBest_spec p r p' Hne E) as (b & c & -> & H1 & H2 & H3 & _).
  by exists b, c.
Qed.

(** an eviction hurts nobody: the carrier that [RemoveIdleCarrier] takes
    out of the pool of an open client has no open stream and is not a base
    carrier, and its idle time has passed. *)
Theorem pool_evicts_idle tcp udp max uses only over evs tr minIdle now c :
  let '(n2, n3, m) := poolSizes tcp udp max uses only over in
  let s := poolRun (newClient (n2, n3, m)) evs in
  fst (RemoveIdleCarrier (ps_client s) tr minIdle now) = Ok (Some c) ->
  (tr, c_id c) ∉ ps_open s /\ c_id c ∉ (if bool_decide (tr = tH2) then baseIds n2 0 else baseIds n3 n2) /\
  (minIdle <= 0 \/ minIdle <= Sub now (idleSince c)).
Proof.
  pose proof (newClient_ok tcp udp max uses only over) as H0. destruct (poolSizes _ _ _ _ _ _) as [[n2 n3] m]. intros s Hev.
  apply (sysOk_run _ _ _ evs) in H0. fold s in H0. unfold RemoveIdleCarrier in Hev.
  destruct (c_closed (ps_client s)) eqn:Hc; [done|]. destruct (poolOf (ps_client s) tr) as [p|] eqn:Hp; [|done].
  pose proof (sysOk_pool _ _ _ tr p H0 Hc Hp) as Hok. destruct (removeIdle p minIdle now) as [ev p'] eqn:Er. cbn in Hev.
  injection Hev as ->. by apply (proj2 (poolOk_remove _ _ _ _ _ _ _ _ _ _ Hok Er)).
Qed.

(** ** Witnesses *)

Definition demoPool : PoolSys :=
  poolRun (newClient (poolSizes 2 2 0 true false false))
    [EPick tH2; EPick tH2; ERegister tH2 None 0; EPick tH2; EEnd 2; EPick tH2; EEnd 0].

Lemma pool_stats_exact_witness :
  MinActiveStreams (Stats (ps_client demoPool) tH2) = 0 /\ TotalActiveStreams (Stats (ps_client demoPool) tH2) = 2 /\
  TotalActiveStreams (Stats (ps_client demoPool) tH2) = totalStreams (carriers (h2 (ps_client demoPool))).
Proof.
  split; [vm_compute; reflexivity|]. split; [vm_compute; reflexivity|].
  destruct (pool_stats_exact (ps_client demoPool) tH2 (h2 (ps_client demoPool))) as (_ & _ & _ & _ & H & _).
  - reflexivity.
  - vm_compute. discriminate.
  - apply (bool_decide_unpack _). vm_compute. exact I.
  - vm_compute. reflexivity.
  - exact H.
Defined.

Lemma pool_safe_witness : len (carriers (h2 (ps_client demoPool))) <= 8 <= 16.
Proof.
  exact (proj1 (pool_safe 2 2 0 true false false
    [EPick tH2; EPick tH2; ERegister tH2 None 0; EPick tH2; EEnd 2; EPick tH2; EEnd 0] tH2 (h2 (ps_client demoPool)) eq_refl eq_refl)).
Defined.

Lemma pool_pick_least_witness :
  exists b c, fst (pickBest (h2 (ps_client demoPool))) = Some (b, activeStreams c + 1) /\
    carriers (h2 (ps_client demoPool)) !! b = Some c.
Proof.
  destruct (pool_pick_least (h2 (ps_client demoPool))) as (b & c & H1 & H2 & _); [vm_compute; discriminate|].
  exists b, c. split; [exact H1|exact H2].
Defined.

Definition demoEvents : list poolEvent := [EPick tH2; EPick tH2; ERegister tH2 None 0; EPick tH2; EEnd 2].
Definition demoIdle : PoolSys := poolRun (newClient (poolSizes 2 2 0 true false false)) demoEvents.

Lemma pool_evicts_idle_witness :
  exists c, fst (RemoveIdleCarrier (ps_client demoIdle) tH2 (30 * second) (60 * second)) = Ok (Some c) /\ (tH2, c_id c) ∉ ps_open demoIdle.
Proof.
  destruct (fst (RemoveIdleCarrier (ps_client demoIdle) tH2 (30 * second) (60 * second))) as [[c|]|e] eqn:E;
    [|vm_compute in E; discriminate E|vm_compute in E; discriminate E].
  exists c. split; [reflexivity|].
  exact (proj1 (pool_evicts_idle 2 2 0 true false false demoEvents tH2 (30 * second) (60 * second) c E)).
Defined.

(** The idle time counts from what the sweeps saw: a carrier that carried a
    stream a second ago is evicted when no sweep saw that stream. *)
Lemma idle_time_is_sampled :
  exists c, fst (RemoveIdleCarrier (ps_client (poolRun (newClient (poolSizes 1 1 0 true false false))
    [ERegister tH2 None (1000 * second); EPick tH2; EEnd 0])) tH2 (30 * second) (1030 * second)) = Ok (Some c).
Proof. vm_compute. by eexists. Qed.
