(* ===== verification/Autoscaler.v ===== *)
(** * The pool autoscaler: [pkg/plugin/autoscaler] (autoscaler.go)

    The plugin sees the client through the interface [PoolController]; here it
    is a class, with what the plugin relies on as laws, and the client of
    [Pool.v] is an instance.  The background loop handles one event at a time:
    a scale-up signal (a channel of capacity one per transport) or a sweep. *)
From S2P Require Import Prelude GoNet Auth UdpReplay Pool.

Open Scope Z_scope.

(** ** The interface *)

(** What the world does during [AddCarrier]: the context, the handshake. *)
Record AddIO := mkAddIO {
  io_ctx : option error;
  io_handshake : option error;
  io_ctxAfter : option error;
}.

Class PoolController (P : Type) := {
  pc_Stats : P -> gostring -> PoolStats;
  pc_AddCarrier : P -> gostring -> AddIO -> Z -> option error * P;
  pc_RemoveIdleCarrier : P -> gostring -> Z -> Z -> result bool * P;
  pc_MaxPoolSize : P -> Z;
}.

(** The plugin counts on these: an addition that succeeds adds one carrier to
    its pool, one that fails adds none, a removal removes at most one, and
    pools of other transports do not change. *)
Class PoolLaws (P : Type) `{PoolController P} := {
  pl_add : forall p tr io now tr', let '(err, p') := pc_AddCarrier p tr io now in
    TotalCarriers (pc_Stats p' tr') = TotalCarriers (pc_Stats p tr') +
      (if bool_decide (tr' = tr) && negb (bool_decide (is_Some err)) then 1 else 0);
  pl_remove : forall p tr minIdle now tr', let '(r, p') := pc_RemoveIdleCarrier p tr minIdle now in
    TotalCarriers (pc_Stats p' tr') = TotalCarriers (pc_Stats p tr') -
      (if bool_decide (tr' = tr) && okOr false r then 1 else 0);
}.

(** ** The code *)

Record Config := mkConfig {
  MaxCarriers : Z;
  ScaleUpThreshold : Z;
  ScaleDownIdle : Z;
  Cooldown : Z;
  SweepInterval : Z;
}.

Record Autoscaler := mkAutoscaler {
  cfg : Config;
  sigH2 : bool;                      (* scaleUpH2Ch holds a token *)
  sigH3 : bool;
  lastScaleUpH2 : Z;
  lastScaleUpH3 : Z;
  scaleUpCount : Z;
  scaleDownCount : Z;
  initialized : bool;
  a_closed : bool;
}.

Definition New (c : Config) : Autoscaler :=
  let max := if MaxCarriers c <=? 0 then 8 else MaxCarriers c in
  let max := if 16 <? max then 16 else max in
  let thr := if ScaleUpThreshold c <=? 0 then 4 else ScaleUpThreshold c in
  let idle := if ScaleDownIdle c <=? 0 then 30 * second else ScaleDownIdle c in
  let cool := if Cooldown c <=? 0 then 1 * second else Cooldown c in
  let sweep := if SweepInterval c <=? 0 then 5 * second else SweepInterval c in
  mkAutoscaler (mkConfig max thr idle cool sweep) false false zeroTime zeroTime 0 0 false false.

Definition Default : Autoscaler := New (mkConfig 0 0 0 0 0).

Definition ErrAlreadyInitialized := Errorf "autoscaler: already initialized".

Definition setSignals (a : Autoscaler) (s2 s3 : bool) : Autoscaler :=
  mkAutoscaler (cfg a) s2 s3 (lastScaleUpH2 a) (lastScaleUpH3 a) (scaleUpCount a) (scaleDownCount a) (initialized a) (a_closed a).

Definition OnActivity (a : Autoscaler) (transport : gostring) (minActive totalCarriers : Z) : Autoscaler :=
  if a_closed a then a
  else if MaxCarriers (cfg a) <=? totalCarriers then a
  else if bool_decide (transport = tH2) then setSignals a true (sigH3 a)
  else if bool_decide (transport = tH3) then setSignals a (sigH2 a) true
  else a.

(** The criteria of [tryScaleUp]; the comparison of the average in [float64]
    is exact for counters below 2^48. *)
Definition shouldScale (threshold : Z) (s : PoolStats) : bool :=
  if threshold <=? MinActiveStreams s then true
  else if threshold * TotalCarriers s <=? TotalActiveStreams s then true
  else (Z.max 6 (i64 (threshold * 2)) <=? MaxActiveStreams s) && (TotalCarriers s <? TotalActiveStreams s).

Definition lastOf (a : Autoscaler) (transport : gostring) : Z :=
  if bool_decide (transport = tH2) then lastScaleUpH2 a else lastScaleUpH3 a.

Definition setLast (a : Autoscaler) (transport : gostring) (now : Z) : Autoscaler :=
  let h2 := bool_decide (transport = tH2) in
  mkAutoscaler (cfg a) (sigH2 a) (sigH3 a) (if h2 then now else lastScaleUpH2 a) (if h2 then lastScaleUpH3 a else now)
    (scaleUpCount a + 1) (scaleDownCount a) (initialized a) (a_closed a).

Section Plugin.
  Context {P : Type} `{PoolController P}.

Definition Init (a : Autoscaler) (p : P) : option error * Autoscaler :=
  if initialized a then (Some ErrAlreadyInitialized, a)
  else
    let c := cfg a in
    let max := if (0 <? pc_MaxPoolSize p) && (pc_MaxPoolSize p <? MaxCarriers c) then pc_MaxPoolSize p else MaxCarriers c in
    (None, mkAutoscaler (mkConfig max (ScaleUpThreshold c) (ScaleDownIdle c) (Cooldown c) (SweepInterval c))
             (sigH2 a) (sigH3 a) (lastScaleUpH2 a) (lastScaleUpH3 a) (scaleUpCount a) (scaleDownCount a) true (a_closed a)).

(** The guards of [tryScaleUp] before the call of [AddCarrier]. *)
Definition wantsCarrier (a : Autoscaler) (p : P) (transport : gostring) (now : Z) : bool :=
  let stats := pc_Stats p transport in
  negb (Sub now (lastOf a transport) <? Cooldown (cfg a)) &&
  negb ((MaxCarriers (cfg a) <=? TotalCarriers stats) || (TotalCarriers stats <=? 0)) &&
  shouldScale (ScaleUpThreshold (cfg a)) stats.

(** [now] is the clock at the start, [after] behind [AddCarrier]. *)
Definition tryScaleUp (a : Autoscaler) (p : P) (transport : gostring) (now : Z) (io : AddIO) (after : Z) : Autoscaler * P :=
  if negb (wantsCarrier a p transport now) then (a, p)
  else match pc_AddCarrier p transport io now with
  | (None, p') => (setLast a transport after, p')
  | (Some _, p') => (a, p')
  end.

Definition tryScaleDown (a : Autoscaler) (p : P) (transport : gostring) (now : Z) : Autoscaler * P :=
  match pc_RemoveIdleCarrier p transport (ScaleDownIdle (cfg a)) now with
  | (Ok true, p') =>
      (mkAutoscaler (cfg a) (sigH2 a) (sigH3 a) (lastScaleUpH2 a) (lastScaleUpH3 a) (scaleUpCount a) (scaleDownCount a + 1)
         (initialized a) (a_closed a), p')
  | (_, p') => (a, p')
  end.

Definition TriggerSweep (a : Autoscaler) (p : P) (now : Z) : Autoscaler * P :=
  let '(a, p) := tryScaleDown a p tH2 now in tryScaleDown a p tH3 now.

(** One round of [runLoop]. *)
Inductive loopEvent :=
  | LScale (h2 : bool) (now : Z) (io : AddIO) (after : Z)   (* a token was received *)
  | LSweep (now : Z)                                        (* the ticker *)
  | LActivity (transport : gostring) (minActive total : Z)  (* the client dispatches a stream *)
  | LClose.

Definition loopStep (s : Autoscaler * P) (ev : loopEvent) : Autoscaler * P :=
  let '(a, p) := s in
  match ev with
  | LScale h2 now io after =>
      if a_closed a then s
      else if (if h2 then sigH2 a else sigH3 a) then
        tryScaleUp (setSignals a (if h2 then false else sigH2 a) (if h2 then sigH3 a else false)) p (if h2 then tH2 else tH3) now io after
      else s
  | LSweep now => if a_closed a then s else TriggerSweep a p now
  | LActivity tr minActive total => (OnActivity a tr minActive total, p)
  | LClose =>
      (mkAutoscaler (cfg a) (sigH2 a) (sigH3 a) (lastScaleUpH2 a) (lastScaleUpH3 a) (scaleUpCount a) (scaleDownCount a)
         (initialized a) true, p)
  end.

End Plugin.

(** ** The client as a controller *)

(** [AddCarrier]: the checks, the handshake, the registration. *)
Definition AddCarrier (s : PoolSys) (transport : gostring) (io : AddIO) (now : Z) : option error * PoolSys :=
  match addCheck (ps_client s) transport (io_ctx io) with
  | Some e => (Some e, s)
  | None =>
      match io_handshake io with
      | Some e => (Some (Errorf "probe carrier failed"), s)
      | None =>
          let '(err, c) := addRegister (ps_client s) transport (io_ctxAfter io) (ps_fresh s) now in
          (err, mkPoolSys c (ps_open s) (S (ps_fresh s)))
      end
  end.

#[export] Instance clientController : PoolController PoolSys := {|
  pc_Stats s tr := Stats (ps_client s) tr;
  pc_AddCarrier := AddCarrier;
  pc_RemoveIdleCarrier s tr minIdle now :=
    let '(r, c) := RemoveIdleCarrier (ps_client s) tr minIdle now in
    (match r with Ok ev => Ok (bool_decide (is_Some ev)) | Fail e => Fail e end, mkPoolSys c (ps_open s) (ps_fresh s));
  pc_MaxPoolSize s := MaxPoolSize (ps_client s);
|}.

Lemma total_stats c tr : TotalCarriers (Stats c tr) = match poolOf c tr with Some p => len (carriers p) | None => 0 end.
Proof.
  unfold Stats. destruct (poolOf c tr) as [p|]; [|done]. unfold poolStats. destruct (carriers p); [done|].
  by destruct (statsLoop _ _ _ _) as [[? ?] ?].
Qed.

Lemma poolOf_set c tr p p' tr' :
  poolOf c tr = Some p -> poolOf (setPool c tr p') tr' = if bool_decide (tr' = tr) then Some p' else poolOf c tr'.
Proof.
  unfold poolOf, setPool. intros Hp. destruct (decide (tr' = tr)) as [->|Hne].
  - rewrite (bool_decide_true (tr = tr)) by done. destruct (bool_decide (tr = tH2)); [done|]. by destruct (bool_decide (tr = tH3)).
  - rewrite (bool_decide_false (tr' = tr)) by done.
    destruct (decide (tr = tH2)) as [->|H2]; [rewrite (bool_decide_true (tH2 = tH2)) by done; by rewrite (bool_decide_false (tr' = tH2))|].
    rewrite (bool_decide_false (tr = tH2)) in * by done.
    destruct (decide (tr = tH3)) as [->|H3]; [|by rewrite (bool_decide_false (tr = tH3)) in Hp].
    rewrite (bool_decide_true (tH3 = tH3)) by done. cbn [h2 h3]. destruct (bool_decide (tr' = tH2)); [done|].
    by rewrite (bool_decide_false (tr' = tH3)).
Qed.

#[export] Instance clientLaws : PoolLaws PoolSys.
Proof.
  split.
  - intros s tr io now tr'. cbn [pc_AddCarrier pc_Stats clientController]. unfold AddCarrier.
    destruct (addCheck _ _ _) as [e|]; [cbn; rewrite andb_false_r; lia|].
    destruct (io_handshake io) as [e|]; [cbn; rewrite andb_false_r; lia|].
    unfold addRegister. destruct (poolOf (ps_client s) tr) as [p|] eqn:Hp; [|cbn; rewrite andb_false_r; lia].
    destruct (c_closed (ps_client s)); [cbn; rewrite andb_false_r; lia|].
    destruct (io_ctxAfter io); [cbn; rewrite andb_false_r; lia|]. destruct (maxCarriers (ps_client s) <=? len (carriers p)); [cbn; rewrite andb_false_r; lia|].
    cbn [ps_client]. rewrite !total_stats, (poolOf_set _ _ _ _ tr' Hp). destruct (decide (tr' = tr)) as [->|Hne].
    + rewrite (bool_decide_true (tr = tr)), Hp by done. cbn. rewrite length_app. cbn. lia.
    + rewrite (bool_decide_false (tr' = tr)) by done. cbn. lia.
  - intros s tr minIdle now tr'. cbn [pc_RemoveIdleCarrier pc_Stats clientController]. unfold RemoveIdleCarrier.
    destruct (c_closed (ps_client s)); [cbn; rewrite andb_false_r; lia|].
    destruct (poolOf (ps_client s) tr) as [p|] eqn:Hp; [|cbn; rewrite andb_false_r; lia].
    destruct (removeIdle p minIdle now) as [ev p'] eqn:Er. cbn [ps_client].
    rewrite !total_stats, (poolOf_set _ _ _ _ tr' Hp). destruct (decide (tr' = tr)) as [->|Hne].
    2:{ rewrite (bool_decide_false (tr' = tr)) by done. cbn. lia. }
    rewrite (bool_decide_true (tr = tr)), Hp by done. cbn [andb]. unfold removeIdle in Er.
    destruct (Nat.leb_spec (length (carriers p)) (base p)); [injection Er as <- <-; cbn; lia|].
    destruct (idleLoop _ minIdle now) as [before found] eqn:El. apply idleLoop_spec in El as (mid & Ev & Hf).
    apply (f_equal length) in Ev. rewrite !length_fmap in Ev.
    destruct found as [[c rest]|]; injection Er as <- <-; cbn [carriers].
    + destruct Hf as (c0 & Ed & _). apply (f_equal length) in Ed. rewrite length_drop, length_app in Ed. cbn in Ed.
      rewrite (bool_decide_true (is_Some (Some c))) by done. cbn [okOr]. rewrite !length_app, length_take. lia.
    + apply (f_equal length) in Hf. rewrite length_drop in Hf. rewrite (bool_decide_false (is_Some None)) by (by intros []).
      cbn [okOr]. rewrite length_app, length_take. lia.
Qed.

(** ** Size and accounting *)

(** Decides comparisons of the two transports. *)
Ltac trdec :=
  change (bool_decide (tH2 = tH2)) with true in *; change (bool_decide (tH3 = tH3)) with true in *;
  change (bool_decide (tH3 = tH2)) with false in *; change (bool_decide (tH2 = tH3)) with false in *; cbn [andb] in *.

Section Laws.
  Context {P : Type} `{PoolLaws P}.

Definition total (p : P) (tr : gostring) : Z := TotalCarriers (pc_Stats p tr).

(** The successful scale-ups of a round: transport, start and end. *)
Definition scaled (s : Autoscaler * P) (ev : loopEvent) : list (bool * Z * Z) :=
  match ev with
  | LScale h2 now io after =>
      if negb (a_closed s.1) && (if h2 then sigH2 s.1 else sigH3 s.1) && wantsCarrier s.1 s.2 (if h2 then tH2 else tH3) now &&
         negb (bool_decide (is_Some (pc_AddCarrier s.2 (if h2 then tH2 else tH3) io now).1))
      then [(h2, now, after)] else []
  | _ => []
  end.

Definition loopTrace (s : Autoscaler * P) (evs : list loopEvent) : Autoscaler * P * list (bool * Z * Z) :=
  foldl (fun '(s, log) ev => (loopStep s ev, log ++ scaled s ev)) (s, []) evs.

Lemma wants_signals a p tr now s2 s3 : wantsCarrier (setSignals a s2 s3) p tr now = wantsCarrier a p tr now.
Proof. done. Qed.

(** The effect of a round on the pools, the counters and the clocks. *)
Record roundOk (a : Autoscaler) (p : P) (a' : Autoscaler) (p' : P) (new : list (bool * Z * Z)) : Prop := {
  ro_cfg : cfg a' = cfg a;
  ro_total : forall tr, tr = tH2 \/ tr = tH3 -> total p' tr <= Z.max (total p tr) (MaxCarriers (cfg a));
  ro_count : scaleUpCount a' - scaleDownCount a' - total p' tH2 - total p' tH3 =
             scaleUpCount a - scaleDownCount a - total p tH2 - total p tH3;
  ro_last : forall h2 : bool, lastOf a' (if h2 then tH2 else tH3) =
              from_option (fun e => e.2) (lastOf a (if h2 then tH2 else tH3)) (last (filter (fun e => e.1.1 = h2) new));
  ro_new : forall h2 now after, (h2, now, after) ∈ new ->
             new = [(h2, now, after)] /\ Cooldown (cfg a) <= Sub now (lastOf a (if h2 then tH2 else tH3));
}.

Lemma roundOk_idle a p a' :
  cfg a' = cfg a -> lastScaleUpH2 a' = lastScaleUpH2 a -> lastScaleUpH3 a' = lastScaleUpH3 a ->
  scaleUpCount a' = scaleUpCount a -> scaleDownCount a' = scaleDownCount a -> roundOk a p a' p [].
Proof.
  intros E1 E2 E3 E4 E5. split; [done|intros; lia|lia| |by intros ? ? ? ?%elem_of_nil]. intros h. unfold lastOf. cbn. by rewrite E2, E3.
Qed.

Lemma tryScaleDown_ok a p tr now a' p' :
  tr = tH2 \/ tr = tH3 -> tryScaleDown a p tr now = (a', p') ->
  cfg a' = cfg a /\ lastScaleUpH2 a' = lastScaleUpH2 a /\ lastScaleUpH3 a' = lastScaleUpH3 a /\ scaleUpCount a' = scaleUpCount a /\
  (forall tr', total p' tr' <= total p tr') /\
  scaleDownCount a' + total p' tH2 + total p' tH3 = scaleDownCount a + total p tH2 + total p tH3.
Proof.
  intros Htr. unfold tryScaleDown. pose proof (pl_remove p tr (ScaleDownIdle (cfg a)) now) as Hl.
  destruct (pc_RemoveIdleCarrier _ _ _ _) as [r p1]. unfold total in *.
  pose proof (Hl tH2) as L2. pose proof (Hl tH3) as L3.
  destruct r as [[]|e]; cbn [okOr] in *; intros [= <- <-]; cbn [cfg lastScaleUpH2 lastScaleUpH3 scaleUpCount scaleDownCount].
  - rewrite andb_true_r in L2, L3. split_and!; [done|done|done|done|intros tr'; rewrite Hl; destruct (bool_decide (tr' = tr)); cbn [andb]; lia|].
    destruct Htr as [-> | ->]; trdec; lia.
  - rewrite andb_false_r in L2, L3. split_and!; [done..|intros tr'; rewrite Hl, andb_false_r; lia|lia].
  - rewrite andb_false_r in L2, L3. split_and!; [done..|intros tr'; rewrite Hl, andb_false_r; lia|lia].
Qed.

Lemma loopStep_ok a p ev a' p' : loopStep (a, p) ev = (a', p') -> roundOk a p a' p' (scaled (a, p) ev).
Proof.
  intros E. destruct ev as [h now io after|now|tr m t|]; cbn [loopStep scaled fst snd] in *.
  - destruct (a_closed a); cbn [negb andb] in *; [injection E as <- <-; by apply roundOk_idle|].
    destruct (if h then sigH2 a else sigH3 a); cbn [andb]; [|injection E as <- <-; by apply roundOk_idle].
    unfold tryScaleUp in E. rewrite wants_signals in E. destruct (wantsCarrier a p _ now) eqn:Ew; cbn [negb andb] in *.
    2:{ injection E as <- <-. by apply roundOk_idle. }
    set (tr := if h then tH2 else tH3) in *. pose proof (pl_add p tr io now) as Hl.
    destruct (pc_AddCarrier p tr io now) as [err p1]. destruct err as [e|]; injection E as <- <-; cbn [fst].
    + rewrite (bool_decide_true (is_Some (Some e))) by done. cbn [negb].
      assert (forall tr', total p1 tr' = total p tr') as Ht.
      { intros tr'. unfold total. rewrite Hl. rewrite (bool_decide_true (is_Some (Some e))) by done. rewrite andb_false_r. lia. }
      split; cbn; [done|intros tr' _; rewrite Ht; lia|rewrite !Ht; lia|by intros []|by intros ? ? ? ?%elem_of_nil].
    + rewrite (bool_decide_false (is_Some None)) by (by intros []). cbn [negb].
      assert (forall tr', total p1 tr' = total p tr' + if bool_decide (tr' = tr) then 1 else 0) as Ht.
      { intros tr'. unfold total. rewrite Hl. rewrite (bool_decide_false (is_Some None)) by (by intros []). by rewrite andb_true_r. }
      unfold wantsCarrier in Ew. apply andb_true_iff in Ew as [Ew _]. apply andb_true_iff in Ew as [Ecool Emax].
      apply negb_true_iff in Ecool, Emax. apply orb_false_iff in Emax as [Emax _]. apply Z.ltb_ge in Ecool. apply Z.leb_gt in Emax.
      fold (total p tr) in Emax. split; cbn [cfg setLast setSignals scaleUpCount scaleDownCount].
      * done.
      * intros tr' _. rewrite Ht. destruct (decide (tr' = tr)) as [->|Hne]; [rewrite bool_decide_true by done|rewrite bool_decide_false by done]; lia.
      * rewrite !Ht. unfold tr. destruct h; trdec; lia.
      * intros h'. unfold lastOf, setLast, setSignals, tr. destruct h, h'; done.
      * intros h' n' f' Hin. apply list_elem_of_singleton in Hin as [= -> -> ->]. split; [done|]. exact Ecool.
  - destruct (a_closed a); [injection E as <- <-; by apply roundOk_idle|]. unfold TriggerSweep in E.
    destruct (tryScaleDown a p tH2 now) as [a1 p1] eqn:E1.
    apply tryScaleDown_ok in E1 as (A1 & A2 & A3 & A4 & A5 & A6); [|by left].
    apply tryScaleDown_ok in E as (B1 & B2 & B3 & B4 & B5 & B6); [|by right].
    split; [congruence| |lia| |by intros ? ? ? ?%elem_of_nil].
    + intros tr _. specialize (A5 tr). specialize (B5 tr). lia.
    + intros h. unfold lastOf. cbn. by rewrite B2, B3, A2, A3.
  - injection E as <- <-. unfold OnActivity. destruct (a_closed a); [by apply roundOk_idle|].
    destruct (_ <=? t); [by apply roundOk_idle|]. by repeat case_bool_decide; apply roundOk_idle.
  - injection E as <- <-. by apply roundOk_idle.
Qed.

(** Clocks of the rounds do not go back. *)
Fixpoint roundsOk (T : Z) (evs : list loopEvent) : Prop :=
  match evs with
  | [] => True
  | LScale _ now _ after :: rest => T <= now <= after /\ after < 2 ^ 62 /\ roundsOk after rest
  | LSweep now :: rest => T <= now < 2 ^ 62 /\ roundsOk now rest
  | _ :: rest => roundsOk T rest
  end.

(** Scale-ups of one transport are spaced by the cooldown. *)
Definition spacedBy (cool : Z) (log : list (bool * Z * Z)) : Prop :=
  forall (i j : nat) (h : bool) (n1 f1 n2 f2 : Z), (i < j)%nat -> log !! i = Some (h, n1, f1) -> log !! j = Some (h, n2, f2) -> f1 + cool <= n2.

Record runInv (a0 : Autoscaler) (p0 : P) (T : Z) (a : Autoscaler) (p : P) (log : list (bool * Z * Z)) : Prop := {
  ri_cfg : cfg a = cfg a0;
  ri_total : forall tr, tr = tH2 \/ tr = tH3 -> total p tr <= Z.max (total p0 tr) (MaxCarriers (cfg a0));
  ri_count : scaleUpCount a - scaleDownCount a - total p tH2 - total p tH3 =
             scaleUpCount a0 - scaleDownCount a0 - total p0 tH2 - total p0 tH3;
  ri_spaced : spacedBy (Cooldown (cfg a0)) log;
  ri_last : forall (i : nat) (h : bool) (n f : Z), log !! i = Some (h, n, f) -> 0 <= f <= lastOf a (if h then tH2 else tH3);
  ri_clock : forall h : bool, lastOf a (if h then tH2 else tH3) <= T;
}.

(** When a round ends. *)
Definition roundEnd (T : Z) (ev : loopEvent) : Z :=
  match ev with LScale _ _ _ after => after | LSweep now => now | _ => T end.

Lemma runInv_step a0 p0 T a p log ev a' p' :
  0 <= T -> (match ev with LScale _ now _ after => T <= now <= after /\ after < 2 ^ 62 | LSweep now => T <= now < 2 ^ 62 | _ => True end) ->
  loopStep (a, p) ev = (a', p') -> runInv a0 p0 T a p log ->
  runInv a0 p0 (roundEnd T ev) a' p' (log ++ scaled (a, p) ev).
Proof.
  intros HT Hev E [R1 R2 R3 R4 R5 R6]. apply loopStep_ok in E as [O1 O2 O3 O4 O5].
  assert (T <= roundEnd T ev) as Hend by (destruct ev; cbn; lia).
  assert (forall h n f, (h, n, f) ∈ scaled (a, p) ev -> T <= n <= f /\ f = roundEnd T ev /\ f < 2 ^ 62) as Hnew.
  { intros h n f Hin. destruct ev as [h' now io after| | |]; cbn [scaled] in Hin; try by apply elem_of_nil in Hin.
    cbn in Hev |- *. destruct (_ && _); [|by apply elem_of_nil in Hin]. apply list_elem_of_singleton in Hin. injection Hin as -> -> ->. clear -Hev. lia. }
  assert (forall h : bool, lastOf a (if h then tH2 else tH3) <= lastOf a' (if h then tH2 else tH3) <= roundEnd T ev) as Hlast.
  { intros h. rewrite O4. specialize (R6 h). destruct (last (filter _ _)) as [[[h' n] f]|] eqn:El; cbn [from_option snd]; [|lia].
    apply last_Some_elem_of, list_elem_of_filter in El as [_ Hin]. destruct (Hnew _ _ _ Hin). lia. }
  split.
  - congruence.
  - intros tr Htr. specialize (O2 tr Htr). specialize (R2 tr Htr). rewrite R1 in O2. lia.
  - lia.
  - intros i j h n1 f1 n2 f2 Hij Hi Hj. apply lookup_app_Some in Hj as [Hj|[Hge Hj]].
    { apply (R4 i j h n1 f1 n2 f2 Hij); [|done]. rewrite lookup_app_l in Hi; [done|]. apply lookup_lt_Some in Hj. lia. }
    destruct (O5 _ _ _ (list_elem_of_lookup_2 _ _ _ Hj)) as [En Hc]. rewrite En in Hj.
    apply list_lookup_singleton_Some in Hj as [Hj _]. rewrite lookup_app_l in Hi by lia.
    destruct (Hnew h n2 f2) as (? & ? & ?); [rewrite En; by left|]. pose proof (R5 i h n1 f1 Hi) as Hf. specialize (R6 h).
    rewrite R1 in Hc. unfold Sub in Hc. lia.
  - intros i h n f Hi. apply lookup_app_Some in Hi as [Hi|[Hge Hi]].
    { specialize (R5 i h n f Hi). specialize (Hlast h). lia. }
    pose proof (list_elem_of_lookup_2 _ _ _ Hi) as Hin. destruct (O5 _ _ _ Hin) as [En _]. destruct (Hnew _ _ _ Hin) as (? & ? & ?).
    rewrite O4, En. rewrite filter_cons_True by done. cbn. lia.
  - intros h. by apply Hlast.
Qed.

Lemma runInv_run a0 p0 evs T a p log :
  0 <= T -> roundsOk T evs -> runInv a0 p0 T a p log ->
  exists T', let '(a', p', log') := foldl (fun '(s, log) ev => (loopStep s ev, log ++ scaled s ev)) ((a, p), log) evs in runInv a0 p0 T' a' p' log'.
Proof.
  revert T a p log. induction evs as [|ev evs IH]; intros T a p log HT Hev Hinv; [by exists T|].
  cbn [foldl]. destruct (loopStep (a, p) ev) as [a1 p1] eqn:E.
  assert ((match ev with LScale _ now _ after => T <= now <= after /\ after < 2 ^ 62 | LSweep now => T <= now < 2 ^ 62 | _ => True end) /\
    roundsOk (roundEnd T ev) evs /\ 0 <= roundEnd T ev) as (H1 & H2 & H3).
  { destruct ev; cbn in Hev |- *; intuition lia. }
  apply (IH (roundEnd T ev)); [done|done|]. by apply runInv_step.
Qed.
End Laws.

(** the autoscaler keeps to its limits over any pool that obeys the
    interface: in every run of its loop no pool grows beyond the larger of its
    first size and [MaxCarriers]; the difference of its two counters is exactly
    the growth of the pools; and successful additions to one transport are at
    least [Cooldown] apart, from the end of one to the start of the next. *)
Theorem autoscaler_limits `{PoolLaws P} a0 p0 evs :
  lastScaleUpH2 a0 = zeroTime -> lastScaleUpH3 a0 = zeroTime -> roundsOk 0 evs ->
  let '(a, p, log) := loopTrace (a0, p0) evs in
  (forall tr, tr = tH2 \/ tr = tH3 -> total p tr <= Z.max (total p0 tr) (MaxCarriers (cfg a0))) /\
  (scaleUpCount a - scaleDownCount a) - (scaleUpCount a0 - scaleDownCount a0) =
    (total p tH2 + total p tH3) - (total p0 tH2 + total p0 tH3) /\
  spacedBy (Cooldown (cfg a0)) log.
Proof.
  intros E2 E3 Hev. destruct (runInv_run a0 p0 evs 0 a0 p0 []) as (T & Hr); [done|done| |].
  - split; [done|intros; lia|done|by intros i j h n1 f1 n2 f2 _ Hi|done|]. intros h. unfold lastOf, zeroTime, second in *.
    destruct h; trdec; lia.
  - unfold loopTrace. destruct (foldl _ _ evs) as [[a p] log]. destruct Hr as [R1 R2 R3 R4 R5 R6]. split_and!; [done|lia|done].
Qed.

(** the criteria for a scale-up of the client's pool, over its carriers:
    the streams reach the threshold on average, or one carrier has twice the
    threshold (at least six) while there are more streams than carriers; the
    third criterion of the code, every carrier at the threshold, adds
    nothing. *)
Theorem autoscaler_criteria c transport p threshold :
  poolOf c transport = Some p -> carriers p <> [] -> Forall (fun x => 0 <= activeStreams x) (carriers p) ->
  totalStreams (carriers p) < 2 ^ 63 -> 0 < threshold < 2 ^ 62 ->
  shouldScale threshold (Stats c transport) = true <->
  threshold * len (carriers p) <= totalStreams (carriers p) \/
  ((exists x, x ∈ carriers p /\ Z.max 6 (2 * threshold) <= activeStreams x) /\ len (carriers p) < totalStreams (carriers p)).
Proof.
  intros Hp Hne Hpos Hlt Ht.
  assert (exists m M, m ∈ activeStreams <$> carriers p /\ M ∈ activeStreams <$> carriers p /\
    (forall x, x ∈ carriers p -> m <= activeStreams x <= M) /\ MinActiveStreams (Stats c transport) = m /\
    MaxActiveStreams (Stats c transport) = M /\ TotalActiveStreams (Stats c transport) = totalStreams (carriers p) /\
    TotalCarriers (Stats c transport) = len (carriers p)) as (m & M & Hm & HM & Hall & Em & EM & Et & En).
  { destruct (statsLoop (carriers p) (from_option activeStreams 0 (head (carriers p))) (from_option activeStreams 0 (head (carriers p))) 0)
      as [[m M] S] eqn:Es. exists m, M. unfold Stats. rewrite Hp. unfold poolStats. destruct (carriers p) as [|x cs] eqn:E; [done|].
    rewrite <- E in *. cbn [head from_option] in Es. replace (head (carriers p)) with (Some x) in Es by (by rewrite E). cbn in Es.
    rewrite Es. apply statsLoop_spec in Es as (H1 & H2 & H3 & H4 & H5 & H6).
    assert (activeStreams x ∈ activeStreams <$> carriers p) as Hx by (rewrite E; by left).
    split_and!; [by destruct H4 as [-> |]|by destruct H5 as [-> |]|done|done|done| |done]. cbn. rewrite H6; [lia|lia|done|lia]. }
  unfold shouldScale. rewrite Em, EM, Et, En.
  assert (i64 (threshold * 2) = 2 * threshold) as -> by (unfold i64; rewrite Z.mod_small; lia).
  assert (threshold <= m -> threshold * len (carriers p) <= totalStreams (carriers p)) as Hmin.
  { intros Hthr. clear - Hall Hthr Ht. assert (forall x, x ∈ carriers p -> threshold <= activeStreams x) as Hx by (intros x Hx; specialize (Hall x Hx); lia).
    revert Hx. generalize (carriers p). intros l. induction l as [|x l IH]; intros Hx; [cbn; lia|].
    rewrite len_cons. cbn [totalStreams foldr]. fold (totalStreams l). pose proof (Hx x ltac:(by left)).
    assert (threshold * len l <= totalStreams l) by (apply IH; intros y Hy; apply Hx; by right). lia. }
  assert ((exists x, x ∈ carriers p /\ Z.max 6 (2 * threshold) <= activeStreams x) <-> Z.max 6 (2 * threshold) <= M) as ->.
  { split; [intros (x & Hx & ?); specialize (Hall x Hx); lia|]. intros HMx. apply list_elem_of_fmap in HM as (x & -> & Hx). by exists x. }
  destruct (Z.leb_spec threshold m); [split; [left; by apply Hmin|done]|].
  destruct (Z.leb_spec (threshold * len (carriers p)) (totalStreams (carriers p))); [by intuition|].
  rewrite andb_true_iff, Z.leb_le, Z.ltb_lt. split; [by right|]. intros [?|?]; [lia|done].
Qed.

(** ** Witnesses *)

Definition demoLoop : list loopEvent :=
  [LActivity tH2 4 2; LScale true (10 * second) (mkAddIO None None None) (11 * second); LActivity tH2 4 3;
   LScale true (11 * second) (mkAddIO None None None) (11 * second); LActivity tH2 4 3;
   LScale true (12 * second) (mkAddIO None None None) (13 * second); LSweep (60 * second); LSweep (95 * second)].

Definition busyPool : PoolSys :=
  poolRun (newClient (poolSizes 2 2 0 true false false)) (replicate 16 (EPick tH2)).

Lemma autoscaler_limits_witness :
  let '(a, p, log) := loopTrace (Default, busyPool) demoLoop in
  log = [(true, 10 * second, 11 * second); (true, 12 * second, 13 * second)] /\ spacedBy (1 * second) log.
Proof.
  pose proof (autoscaler_limits Default busyPool demoLoop eq_refl eq_refl) as H.
  assert (roundsOk 0 demoLoop) as Hr by (unfold demoLoop, second; cbn; lia). specialize (H Hr).
  assert ((loopTrace (Default, busyPool) demoLoop).2 = [(true, 10 * second, 11 * second); (true, 12 * second, 13 * second)]) as E
    by (vm_compute; reflexivity).
  destruct (loopTrace (Default, busyPool) demoLoop) as [[a p] log]. split; [exact E|exact (proj2 (proj2 H))].
Defined.

Lemma autoscaler_criteria_witness :
  shouldScale 4 (Stats (ps_client busyPool) tH2) = true /\
  (4 * len (carriers (h2 (ps_client busyPool))) <= totalStreams (carriers (h2 (ps_client busyPool))) \/
   ((exists x, x ∈ carriers (h2 (ps_client busyPool)) /\ Z.max 6 (2 * 4) <= activeStreams x) /\
    len (carriers (h2 (ps_client busyPool))) < totalStreams (carriers (h2 (ps_client busyPool))))).
Proof.
  split; [vm_compute; reflexivity|].
  apply (autoscaler_criteria (ps_client busyPool) tH2 (h2 (ps_client busyPool)) 4).
  - reflexivity.
  - vm_compute. discriminate.
  - apply (bool_decide_unpack _). vm_compute. exact I.
  - vm_compute. reflexivity.
  - lia.
  - vm_compute. reflexivity.
Defined.
